(* ===== verification/_CoqProject ===== *)
-Q . S2P
Prelude.v
Search.v
Names.v
DString.v
Text.v
Types.v
Signature.v
MarshalBasic.v
Reader.v
Body.v
Services.v
Ledger.v
Ownership.v
Hello.v
Registry.v
Policy.v
Auth.v
Conversation.v
Links.v
Rings.v
Matches.v
Delivery.v
Values.v
Header.v
Fields.v
Loader.v
Stream.v
Whole.v
Byteswap.v
Writer.v
Writing.v
HashTable.v
Hashing.v
Replies.v
Calls.v
