(* ===== verification/Prelude.v ===== *)
(** * Verification of D-Bus (windbus)

    ** The program

    D-Bus is a message bus.  The library under src/dbus turns typed values into
    bytes and back: strings ([dbus-string.c]), names and signatures
    ([dbus-marshal-validate.c], [dbus-signature.c]), basic values
    ([dbus-marshal-basic.c]), containers ([dbus-marshal-recursive.c]).  Bytes from
    the network are validated before they are read; the loader cuts them into
    messages ([dbus-message.c]) with headers ([dbus-marshal-header.c]).  A connection starts with a
    conversation that authenticates the client ([dbus-auth.c]).  The daemon under
    src/bus hands out names to connections ([services.c]), inside transactions that
    can be cancelled ([connection.c]), on requests that [driver.c] and [dispatch.c]
    route to it, as far as the policy of the connection allows ([policy.c]), and
    delivers messages to the connections that asked for them ([signals.c]).

    ** The files

    - [Prelude]: bytes, machine integers, alignment; the monad [M] of operations
      that may report failure or go wrong, with contracts [hoare], [runs] and [triple].
    - [Search]: searching strings, blanks and ends of lines.
    - [Names]: the validators of paths and of bus, interface, member and error
      names, against grammars.
    - [DString]: [DBusRealString] and the operations that change it.
    - [Text]: hexadecimal and UTF-8.
    - [Types]: typecodes and validity codes.
    - [Signature]: the signature validator and the signature iterator, against a
      grammar of types.
    - [MarshalBasic]: reading, writing and overwriting basic values.
    - [Reader]: [DBusTypeReader], in its types-only and its value form.
    - [Body]: [validate_body_helper] against an encoding of abstract values.
    - [Services]: the name registry of the daemon, its transactions and the
      dispatch of requests to the driver: RequestName, ReleaseName and Hello, which
      makes the unique names and counts the connections.
    - [Ledger]: the reference counts of the registry: what every operation does to
      them.
    - [Ownership]: queues of owners as the abstract registry, and the operations
      on it.
    - [Hello]: the handler of Hello against the same abstract registry.
    - [Registry]: the theorems about the registry.
    - [Policy]: rules, the checks for sending, receiving and owning, the
      optimization of a rule list, and how the policy of a client is put together.
    - [Auth]: both sides of the authentication conversation, and credentials.
    - [Conversation]: the theorems about the server side of the conversation.
    - [Links]: the circular doubly linked lists of [dbus-list.c], with their pointers.
    - [Rings]: the theorem that they implement lists.
    - [Matches]: match rules, their parser, the matchmaker and the recipients of a
      message.
    - [Delivery]: the theorems about match rules.
    - [Values]: a walk with the reader of [Reader] over the values that [Body] encodes.
    - [Header]: message headers: the cache of field positions, the test for a whole
      message, loading and validation.
    - [Fields]: header values and the rules on them, and the theorems that loading
      decides these rules and shows the values.
    - [Loader]: messages on a heap, their cache, the loader with its buffer and queue,
      marshalling and demarshalling of whole messages.
    - [Stream]: the theorems about the bytes that a connection sends.
    - [Whole]: the theorems about blocks of bytes.
    - [Byteswap]: bodies, headers and messages from one byte order into the other.
    - [Writer]: [DBusTypeWriter], which appends values to a block and types to a signature.
    - [Writing]: the theorems about it.
    - [HashTable]: the chained hash tables of [dbus-hash.c], with their pointers.
    - [Hashing]: the theorems about them.
    - [Replies]: the security check of [bus.c], the replies that connections wait for, with
      the list of what expires ([expirelist.c]), and the route of a message from one
      connection to others ([dispatch.c]).
    - [Calls]: the theorems about them.

    A definition has the name of the C function it models; a loop or a part of a
    long function has a name of its own, next to it.

    ** Modelling

    [unsigned char] is [Byte.byte], other integers are [Z] with the reduction to
    their width written out where it can matter, offsets into buffers are [nat].
    A buffer is the list of the bytes that are allocated; access outside of it,
    access to freed memory and a failing [_dbus_assert] give [Ub].  The assertions on
    ranges of strings, on alignment, on typecodes and brackets, on the numbers of
    elements and on reference counts are modelled; left out are those on NULL, on
    signs (an offset is a [nat]), on byte orders and sizes of C types (they hold by
    the types of the model), on the flags and the [align_offset] of a string (its
    memory is aligned), on the range of the type string in the reader, and in [Body]
    those that repeat a test just made.  Allocation is
    an input: [mem] lists which of the next requests are refused and what fresh
    bytes contain, so a theorem about all [mem] covers every way of running out of
    memory.  An operation that returns FALSE is [Failed] with the state it leaves.
    Byte order of the host is a class ([Host]); what the registry asks of policy,
    SELinux, configuration and operating system is a class ([BusContext]), for which
    [Policy] gives an instance with the modelled policy; keyrings, SHA-1, randomness
    and the user database are the class [AuthEnv] of the conversation.  Whether the
    security check and the full queue of its receiver let a message of the driver
    through is a function in [BusContext], which may look at what was delivered.  What
    the router asks of connections, SELinux, the matchmaker, activation and the
    configuration is the class [RouterContext]; it may change from one event to the next, and [RouterLaws] says what
    is known of the matchmaker.

    Loops that are not structural have fuel.  Body validation takes [body_fuel],
    which exceeds the number of turns for any input: the theorems show that a
    result is returned, not only that a returned result is right.  The signature
    validator recurses on the bytes of the signature.  The work on an authentication
    buffer takes one turn more than the buffer has bytes; [server_work_returns] shows
    that this is enough.  So does the queue of the loader, each turn of which takes at
    least sixteen bytes; [queue_messages_sound] shows that it returns.

    ** What is shown

    - Validators accept exactly a grammar: paths, bus names, signatures, UTF-8.
      Where the code differs from its documentation the grammar follows the code
      and a theorem exhibits the difference: every signature that the specification
      allows is found valid, but so are some with more than 32 nested arrays, whose
      array codes are not consecutive.
    - Body validation is safe on every block whose signatures nest: it stays
      inside the memory of the string, fails no assertion, terminates, and accepts
      exactly the encodings of values of the signature, where an array of numbers is
      any run of bytes of the announced length, also with a partial last element (the
      code does not test this).  Without nesting there is
      an input on which an assertion fails.
    - Strings and marshalling refine operations on lists, with the old contents
      after a failure; what is written is read back.
    - The reader and the signature iterator visit the types of a signature in
      order, and a walk over a body finds the values it encodes.
    - The writer appends the encoding of the values it is given, and their types; the
      reader finds these values again.  With a given signature no assertion fails whatever
      memory is refused; a run shows that one fails when types are written too.
    - Headers, without misnested signatures: loading accepts exactly the encodings of header values that satisfy the
      rules on fields, gives the reason otherwise, and the loaded header shows the
      values.  An interface that only begins with a reserved name is refused.
    - The loader: whatever bytes without misnested signatures come, in whatever reads, and whatever memory is
      refused, the queue gets the valid messages of the stream, in order and with their
      values; nothing is lost, and messages in use do not change.  A run shows that
      want of memory during the validation of a body is taken for corruption.
      Demarshalling and marshalling give the same bytes back.
    - Byte swapping: the encoding of values in one order becomes the encoding of the
      same values in the other, in place, for blocks below the maximum length of an
      array.  A swapped header still names its old order,
      and an assertion fails for the greatest arrays.
    - The registry: every request for a name without a process id implements the
      specification of the queue whatever memory is refused; an idle bus with memory
      answers Hello and these requests, and delivers what its receivers may get; the
      invariant (exact reference counts, no dangling pointer, the limit on names per
      connection, one owner for each unique name) holds in the states that it reaches
      by serving them with memory; additions are undone by cancelling; two runs show
      that removals are not, and two that Hello is not.
    - Policy: the last rule that applies decides; optimization keeps the decisions
      on names and, under a stated condition, on messages (a run shows the condition
      is needed); a connection is in the queue of a name other than its unique name
      only if its policy allows.
    - Authentication: in every reachable state of the server side, whatever the
      client sends and whatever memory is refused, a client is authenticated only
      with evidence; the work returns, within bounds on rejections and buffers, unless
      an end-of-line byte stands behind a blank in a line or in its data: one such
      line fails an assertion, and a retry after lack of memory rejects.
    - Linked lists: every operation on pointers implements its counterpart on lists,
      loses no link and leaves other lists alone.
    - Hash tables: every sequence of fewer than 805306368 operations gives the answers of a finite map, also
      while the table grows and shrinks; iterators visit every entry once; keys and values
      are freed when they leave the table.  A lookup that makes the table grow goes wrong.
    - Match rules: the parser is total and reads back what is written within its limits
      on tokens and length, without nul; requests
      implement operations on the list of rules with exact reference counts, whatever
      memory is refused; while the stamp does not overflow, a message goes to exactly the
      connections with a rule that accepts it.  Two texts show rules that are accepted and should not be.
    - Routing: the security check gives the verdict of the specification; in all reachable
      states, whatever memory is refused, the pending replies are consistent and within the
      limit, and every event is dealt with; with allow rules for requested replies that do
      not eavesdrop a connection gets no reply without a call and no second one; calls that are due are answered with an error.
      A reply that is refused leaves its call without any answer.

    ** Not modelled

    Operating system code, threads, sockets and main loop integration; XML
    configuration; the public API layers that only forward; tests and tools.  Values are
    not exchanged in place, so headers are loaded but not changed, and messages are not
    built field by field.  Activation rests on child processes and files: the router has
    its answer to a message for a name without owner as a parameter.  Routing is shown for
    messages of registered connections to each other, requests to the driver for Hello and
    the names; which connections are connected is left to the classes of the registry and
    of the router.  The object tree,
    addresses, keyrings, SHA-1 and data slots are left out. *)

From Stdlib Require Export Strings.Byte ZArith Lia ZifyBool ZifyNat.
From Stdlib Require Strings.String.
Export String.StringSyntax.
From stdpp Require Export base list option countable.

#[global] Open Scope Z_scope.

(** ** Bytes

    [unsigned char] is [Byte.byte]; [b2z] is its numeric value and [z2b] the
    conversion of an integer to [unsigned char] (reduction modulo 256). *)

Abbreviation bytes := (list byte).

#[export] Instance byte_eq_decision : EqDecision byte := Byte.byte_eq_dec.

(** Bytes, and with them strings, are keys of maps. *)
#[export] Program Instance byte_countable : Countable byte :=
  inj_countable Byte.to_N Byte.of_N _.
Next Obligation. apply Byte.of_to_N. Qed.

Definition b2z (b : byte) : Z := Z.of_N (Byte.to_N b).

Definition z2b (z : Z) : byte :=
  match Byte.of_N (Z.to_N (z mod 256)) with
  | Some b => b
  | None => x00
  end.

(** The bytes of a C string literal. *)
Definition lit (s : String.string) : bytes := String.list_byte_of_string s.

Delimit Scope string_scope with string.
Arguments lit s%_string.

Declare Scope dbus_scope.
Delimit Scope dbus_scope with dbus.
Infix "=b" := Byte.eqb (at level 70, no associativity) : dbus_scope.
Notation "a <=b b" := (Z.leb (b2z a) (b2z b)) (at level 70, no associativity) : dbus_scope.
#[global] Open Scope dbus_scope.

(** [c >= lo && c <= hi], the range test of the character macros. *)
Definition in_range (lo hi c : byte) : bool := (lo <=b c) && (c <=b hi).

(** All 256 bytes, for proofs by enumeration. *)
Definition all_bytes : list byte := (λ n, z2b (Z.of_nat n)) <$> seq 0 256.

Lemma b2z_range b : 0 <= b2z b < 256.
Proof. unfold b2z. pose proof (Byte.to_N_bounded b). lia. Qed.

Lemma b2z_inj a b : b2z a = b2z b → a = b.
Proof.
  unfold b2z. intros H%N2Z.inj.
  pose proof (Byte.of_to_N a) as Ha. rewrite H, Byte.of_to_N in Ha. congruence.
Qed.

Lemma b2z_z2b z : b2z (z2b z) = z mod 256.
Proof.
  unfold b2z, z2b. pose proof (Z.mod_pos_bound z 256 ltac:(lia)).
  destruct (Byte.of_N (Z.to_N (z mod 256))) eqn:E.
  - apply Byte.to_of_N in E. rewrite E. lia.
  - apply Byte.of_N_None_iff in E. lia.
Qed.

Lemma z2b_b2z b : z2b (b2z b) = b.
Proof.
  apply b2z_inj. rewrite b2z_z2b. apply Z.mod_small, b2z_range.
Qed.

Lemma all_bytes_complete b : b ∈ all_bytes.
Proof.
  unfold all_bytes. apply list_elem_of_fmap.
  exists (Z.to_nat (b2z b)). pose proof (b2z_range b). split.
  - rewrite Z2Nat.id by lia. symmetry. apply z2b_b2z.
  - apply elem_of_seq. lia.
Qed.

Lemma byte_enum (P : byte → bool) : forallb P all_bytes = true → ∀ b, P b = true.
Proof.
  rewrite forallb_forall. intros H b. apply H, list_elem_of_In, all_bytes_complete.
Qed.

Lemma byte_eqb_spec a b : reflect (a = b) (a =b b).
Proof.
  destruct (a =b b) eqn:E; constructor.
  - by apply Byte.byte_dec_bl.
  - intros ->. by rewrite Byte.byte_dec_lb in E.
Qed.

Lemma byte_eqb_refl b : (b =b b) = true.
Proof. by apply Byte.byte_dec_lb. Qed.

Lemma byte_eqb_eq a b : (a =b b) = true ↔ a = b.
Proof. destruct (byte_eqb_spec a b); naive_solver. Qed.

Lemma byte_eqb_neq a b : (a =b b) = false ↔ a ≠ b.
Proof. destruct (byte_eqb_spec a b); naive_solver. Qed.

(** ** Strings

    A [DBusString] is the list of its bytes.  The C buffer always carries a nul
    after the last byte, so reading at the length yields [x00]. *)

Definition byte_at (s : bytes) (i : nat) : byte := nth i s x00.

(** The [len] bytes of [s] from [start]. *)
Definition sub (s : bytes) (start len : nat) : bytes := take len (drop start s).

Lemma length_sub s start len :
  (start + len <= length s)%nat → length (sub s start len) = len.
Proof. intros. unfold sub. rewrite length_take, length_drop. lia. Qed.

Lemma sub_all s : sub s 0 (length s) = s.
Proof. unfold sub. rewrite drop_0. apply firstn_all. Qed.

Lemma sub_shape (s : bytes) a n t :
  (a + n <= length s)%nat → sub s a n = t → length t = n.
Proof. intros ? <-. by apply length_sub. Qed.

(** Splitting at a separator and joining back. *)
Fixpoint split_on (sep : byte) (s : bytes) : list bytes :=
  match s with
  | [] => [[]]
  | c :: s' =>
      if c =b sep then [] :: split_on sep s'
      else match split_on sep s' with
           | w :: ws => (c :: w) :: ws
           | [] => [[c]]
           end
  end.

Fixpoint join_with (sep : byte) (ws : list bytes) : bytes :=
  match ws with
  | [] => []
  | [w] => w
  | w :: ws' => w ++ sep :: join_with sep ws'
  end.

Lemma split_on_cons sep s : ∃ w ws, split_on sep s = w :: ws.
Proof.
  destruct s as [|c s]; simpl; [eauto|].
  destruct (c =b sep); [eauto|]. destruct (split_on sep s); eauto.
Qed.

Lemma join_split sep s : join_with sep (split_on sep s) = s.
Proof.
  induction s as [|c s IH]; [done|]. simpl.
  destruct (split_on_cons sep s) as (w & ws & E). rewrite E in *.
  destruct (byte_eqb_spec c sep) as [->|].
  - simpl. by rewrite <- IH.
  - simpl in *. destruct ws; by rewrite <- IH.
Qed.

(** ** Machine integers *)

Definition u16 (z : Z) : Z := z mod 2 ^ 16.
Definition u32 (z : Z) : Z := z mod 2 ^ 32.
Definition u64 (z : Z) : Z := z mod 2 ^ 64.

Lemma u32_range z : 0 <= u32 z < 2 ^ 32.
Proof. apply Z.mod_pos_bound. lia. Qed.

Lemma u32_small z : 0 <= z < 2 ^ 32 → u32 z = z.
Proof. apply Z.mod_small. Qed.

Lemma u32_u32 z : u32 (u32 z) = u32 z.
Proof. apply Z.mod_mod. lia. Qed.

(** Joining a shifted value with the bits below the shift. *)
Lemma lor_shiftl k r x : 0 <= k → 0 <= x < 2 ^ k → Z.lor (Z.shiftl r k) x = r * 2 ^ k + x.
Proof.
  intros Hk Hx. assert (Z.land (Z.shiftl r k) x = 0) as E.
  { apply Z.bits_inj'. intros n Hn. rewrite Z.land_spec, Z.bits_0.
    destruct (Z.lt_ge_cases n k).
    - by rewrite Z.shiftl_spec_low.
    - rewrite <- (Z.mod_small x (2 ^ k)), Z.mod_pow2_bits_high by lia. apply andb_false_r. }
  pose proof (Z.add_lor_land (Z.shiftl r k) x). rewrite Z.shiftl_mul_pow2 in * by lia. lia.
Qed.

Lemma land_ones_mod x k : 0 <= k → Z.land x (2 ^ k - 1) = x mod 2 ^ k.
Proof. intros. rewrite <- Z.land_ones by done. f_equal. rewrite Z.ones_equiv. lia. Qed.

(** [_DBUS_ALIGN_VALUE (this, boundary)] of src/dbus/dbus-internals.h, on
    [unsigned long] values that do not overflow. *)
Definition _DBUS_ALIGN_VALUE (this boundary : Z) : Z :=
  Z.land (this + (boundary - 1)) (Z.lnot (boundary - 1)).

(** The same on buffer offsets. *)
Definition align_up (this boundary : nat) : nat :=
  Z.to_nat (_DBUS_ALIGN_VALUE (Z.of_nat this) (Z.of_nat boundary)).

Lemma align_value_mul x k :
  0 <= k → _DBUS_ALIGN_VALUE x (2 ^ k) = (x + (2 ^ k - 1)) / 2 ^ k * 2 ^ k.
Proof.
  intros Hk. unfold _DBUS_ALIGN_VALUE.
  replace (2 ^ k - 1) with (Z.ones k) by (rewrite Z.ones_equiv; lia).
  rewrite <- Z.ldiff_land, Z.ldiff_ones_r by lia.
  by rewrite Z.shiftl_mul_pow2, Z.shiftr_div_pow2 by lia.
Qed.

(** The alignments of the wire format. *)
Definition is_alignment (a : nat) : Prop := a ∈ [1; 2; 4; 8]%nat.

Lemma align_up_spec n a :
  is_alignment a →
  (n <= align_up n a < n + a)%nat ∧ (align_up n a mod a = 0)%nat.
Proof.
  unfold is_alignment, align_up. rewrite !elem_of_cons, elem_of_nil.
  intros Ha. assert (∃ k, 0 <= k ∧ Z.of_nat a = 2 ^ k) as (k & Hk & E).
  { destruct Ha as [->|[->|[->|[->|[]]]]];
      [exists 0|exists 1|exists 2|exists 3]; done. }
  rewrite E, align_value_mul, <- E by done.
  assert (0 < Z.of_nat a) by (destruct Ha as [->|[->|[->|[->|[]]]]]; lia).
  pose proof (Z.div_mod (Z.of_nat n + (Z.of_nat a - 1)) (Z.of_nat a) ltac:(lia)).
  pose proof (Z.mod_pos_bound (Z.of_nat n + (Z.of_nat a - 1)) (Z.of_nat a) ltac:(lia)).
  set (q := (Z.of_nat n + (Z.of_nat a - 1)) / Z.of_nat a) in *.
  assert (0 <= q) by (apply Z.div_pos; lia).
  split; [lia|]. apply Nat2Z.inj. rewrite Nat2Z.inj_mod, Z2Nat.id by lia.
  apply Z.mod_mul. lia.
Qed.

(** ** Effects

    [malloc] and [realloc] may answer NULL, and leave the bytes they add
    unspecified.  Both are inputs of the model: [outcomes] lists the answers to
    the next requests (all later ones succeed) and [junk] is the value found in
    fresh bytes. *)

Record mem := Mem { outcomes : list bool; junk : byte }.

Definition alloc (m : mem) : bool * mem :=
  match outcomes m with
  | [] => (true, m)
  | ok :: os => (ok, Mem os (junk m))
  end.

(** Memory for everything, and for [n] requests with the next one refused. *)
Definition plenty : mem := Mem [] x00.
Definition fails_after (n : nat) : mem := Mem (replicate n true ++ [false]) x00.

(** Some later request is going to be refused. *)
Definition may_fail (m : mem) : Prop := false ∈ outcomes m.

(** The result of an operation on an object of type [S]: it returned normally,
    it returned FALSE (with the object as it left it), or it touched memory
    outside of a buffer. *)
Inductive outcome (S A : Type) :=
| Ok (a : A) (s : S) (m : mem)
| Failed (s : S) (m : mem)
| Ub.
Arguments Ok {S A}.
Arguments Failed {S A}.
Arguments Ub {S A}.

Definition M (S A : Type) := S → mem → outcome S A.

#[export] Instance M_ret S : MRet (M S) := λ A a s m, Ok a s m.
#[export] Instance M_bind S : MBind (M S) := λ A B k c s m,
  match c s m with
  | Ok a s' m' => k a s' m'
  | Failed s' m' => Failed s' m'
  | Ub => Ub
  end.

Definition fail {S A} : M S A := λ s m, Failed s m.
Definition gets {S A} (f : S → A) : M S A := λ s m, Ok (f s) s m.
Definition put {S} (s : S) : M S unit := λ _ m, Ok tt s m.
Definition modify {S} (f : S → S) : M S unit := λ s m, Ok tt (f s) m.

(** A memory access that must be inside its buffer. *)
Definition checked {S A} (o : option A) : M S A :=
  λ s m, match o with Some a => Ok a s m | None => Ub end.

(** [malloc]-like request. *)
Definition request {S} : M S unit :=
  λ s m, let '(ok, m') := alloc m in if ok then Ok tt s m' else Failed s m'.

Fixpoint requests {S} (n : nat) : M S unit :=
  match n with
  | O => mret tt
  | S n' => request;; requests n'
  end.

(** [if (!c) { handler; return FALSE; }] *)
Definition on_failure {S A} (c : M S A) (handler : M S unit) : M S A :=
  λ s m, match c s m with
         | Failed s' m' =>
             match handler s' m' with
             | Ok _ s'' m'' | Failed s'' m'' => Failed s'' m''
             | Ub => Ub
             end
         | r => r
         end.

(** [_dbus_assert (b)], and a call whose result is ignored. *)
Definition assert_ {S} (b : bool) : M S unit := checked (if b then Some tt else None).
Definition attempt {S A} (c : M S A) : M S bool :=
  λ s m, match c s m with
         | Ok _ s' m' => Ok true s' m'
         | Failed s' m' => Ok false s' m'
         | Ub => Ub
         end.

(** Writing [bs] into the buffer [buf] at offset [at_]. *)
Definition mem_write (buf : bytes) (at_ : nat) (bs : bytes) : option bytes :=
  if (at_ + length bs <=? length buf)%nat
  then Some (take at_ buf ++ bs ++ drop (at_ + length bs) buf)
  else None.

Definition mem_read (buf : bytes) (at_ n : nat) : option bytes :=
  if (at_ + n <=? length buf)%nat then Some (sub buf at_ n) else None.

Definition memmove (buf : bytes) (dst src n : nat) : option bytes :=
  bs ← mem_read buf src n; mem_write buf dst bs.

Lemma alloc_mono m ok m' : alloc m = (ok, m') → may_fail m' → may_fail m.
Proof.
  unfold alloc, may_fail. destruct m as [[|o os] j]; simpl; intros [= <- <-]; [done|].
  simpl. intros. by apply elem_of_cons; right.
Qed.

Lemma alloc_fail m m' : alloc m = (false, m') → may_fail m.
Proof.
  unfold alloc, may_fail. destruct m as [[|o os] j]; simpl; intros [= -> <-].
  apply elem_of_cons; by left.
Qed.

(** ** Contracts of operations

    [hoare P c Q F L]: from a state with [P], [c] stays inside its buffers; it
    returns with [Q], or it reports failure with [F], and then an allocation was
    refused or the limit [L] was reached. *)
Definition hoare {S A} (P : S → Prop) (c : M S A) (Q : A → S → Prop)
    (F : S → Prop) (L : Prop) : Prop :=
  ∀ s m, P s →
  match c s m with
  | Ok a s' m' => Q a s' ∧ (may_fail m' → may_fail m)
  | Failed s' m' => F s' ∧ (may_fail m ∨ L)
  | Ub => False
  end.

Lemma hoare_ret {S A} (P : S → Prop) (a : A) (Q : A → S → Prop) F L :
  (∀ s, P s → Q a s) → hoare P (mret a) Q F L.
Proof. intros H s m HP. split; [by apply H|done]. Qed.

Lemma hoare_bind {S A B} (P : S → Prop) (c : M S A) (k : A → M S B) Q R F L :
  hoare P c Q F L → (∀ a, hoare (Q a) (k a) R F L) → hoare P (c ≫= k) R F L.
Proof.
  intros Hc Hk s m HP. specialize (Hc s m HP). unfold mbind, M_bind.
  destruct (c s m) as [a s' m'|s' m'|]; [|done|done].
  destruct Hc as [HQ Hm]. specialize (Hk a s' m' HQ).
  destruct (k a s' m'); naive_solver.
Qed.

Lemma hoare_gets {S B} (P : S → Prop) (k : S → M S B) R F L :
  (∀ s0, P s0 → hoare (λ s, s = s0) (k s0) R F L) → hoare P (gets id ≫= k) R F L.
Proof. intros Hk s m HP. by apply (Hk s HP s m). Qed.

Lemma hoare_conseq {S A} (P P' : S → Prop) (c : M S A) Q Q' F F' (L L' : Prop) :
  hoare P' c Q' F' L' → (∀ s, P s → P' s) → (∀ a s, Q' a s → Q a s) →
  (∀ s, F' s → F s) → (L' → L) → hoare P c Q F L.
Proof.
  intros Hc HP HQ HF HL s m H. specialize (Hc s m (HP s H)).
  destruct (c s m); naive_solver.
Qed.

Lemma hoare_fail {S A} (P : S → Prop) Q (L : Prop) :
  L → hoare P (fail : M S A) Q P L.
Proof. intros HL s m HP. split; [done|by right]. Qed.

Lemma hoare_on_failure {S A} (P : S → Prop) (c : M S A) h Q F F' L :
  hoare P c Q F L →
  (∀ s m, F s → match h s m with
                | Ok _ s' _ | Failed s' _ => F' s'
                | Ub => False
                end) →
  hoare P (on_failure c h) Q F' L.
Proof.
  intros Hc Hh s m HP. specialize (Hc s m HP). unfold on_failure.
  destruct (c s m) as [a s1 m1|s1 m1|]; [done| |done]. destruct Hc as [HF HL].
  specialize (Hh s1 m1 HF). by destruct (h s1 m1).
Qed.

Lemma hoare_modify {S} (P : S → Prop) (f : S → S) (Q : S → Prop) F L :
  (∀ s, P s → Q (f s)) → hoare P (modify f) (λ _, Q) F L.
Proof. intros HQ s m HP. split; [by apply HQ|done]. Qed.

Lemma hoare_pure_l {S A} (φ : Prop) (P : S → Prop) (c : M S A) Q F L :
  (φ → hoare P c Q F L) → hoare (λ s, φ ∧ P s) c Q F L.
Proof. intros H s m [Hφ HP]. by apply H. Qed.

Lemma hoare_pure_r {S A} (φ : Prop) (P : S → Prop) (c : M S A) Q F L :
  (φ → hoare P c Q F L) → hoare (λ s, P s ∧ φ) c Q F L.
Proof. intros H s m [HP Hφ]. by apply H. Qed.

Lemma hoare_exists_l {S A X} (P : X → S → Prop) (c : M S A) Q F L :
  (∀ x, hoare (P x) c Q F L) → hoare (λ s, ∃ x, P x s) c Q F L.
Proof. intros H s m [x HP]. by apply (H x). Qed.

Lemma hoare_assert {S B} (P : S → Prop) b (k : M S B) Q F L :
  b = true → hoare P k Q F L → hoare P (assert_ b;; k) Q F L.
Proof. intros -> Hk. exact Hk. Qed.

Lemma request_rule {S} (P : S → Prop) L : hoare P request (λ _, P) P L.
Proof.
  intros b m HP. unfold request. destruct (alloc m) as [[] m'] eqn:E.
  - split; [done|]. by eapply alloc_mono.
  - split; [done|]. left. by eapply alloc_fail.
Qed.

Lemma requests_rule {S} (P : S → Prop) n L : hoare P (requests n) (λ _, P) P L.
Proof.
  induction n as [|n IH]; [by apply hoare_ret|]. eapply hoare_bind; [apply request_rule|]. done.
Qed.

(** [runs P c Q]: with memory for every request, [c] returns normally. *)
Definition runs {S A} (P : S → Prop) (c : M S A) (Q : A → S → Prop) : Prop :=
  ∀ s m, P s → ¬ may_fail m → ∃ a s' m', c s m = Ok a s' m' ∧ Q a s' ∧ ¬ may_fail m'.

Lemma hoare_runs {S A} (P : S → Prop) (c : M S A) Q F : hoare P c Q F False → runs P c Q.
Proof.
  intros Hc s m HP Hm. specialize (Hc s m HP). destruct (c s m) as [a s' m'|s' m'|]; [|tauto..].
  exists a, s', m'. tauto.
Qed.

Lemma runs_bind {S A B} (P : S → Prop) (c : M S A) (k : A → M S B) Q R :
  runs P c Q → (∀ a, runs (Q a) (k a) R) → runs P (c ≫= k) R.
Proof.
  intros Hc Hk s m HP Hm. destruct (Hc s m HP Hm) as (a & s1 & m1 & E & HQ & Hm1).
  unfold mbind, M_bind. rewrite E. by apply Hk.
Qed.

Lemma runs_conseq {S A} (P P' : S → Prop) (c : M S A) Q Q' :
  runs P' c Q' → (∀ s, P s → P' s) → (∀ a s, Q' a s → Q a s) → runs P c Q.
Proof.
  intros Hc HP HQ s m Hs Hm. destruct (Hc s m (HP s Hs) Hm) as (a & s' & m' & ? & ? & ?).
  exists a, s', m'. auto.
Qed.

Lemma runs_attempt {S A} (P : S → Prop) (c : M S A) Q :
  runs P c Q → runs P (attempt c) (λ ok s, ok = true ∧ ∃ a, Q a s).
Proof.
  intros Hc s m HP Hm. destruct (Hc s m HP Hm) as (a & s1 & m1 & E & HQ & Hm1).
  exists true, s1, m1. unfold attempt. rewrite E. eauto.
Qed.

Lemma runs_gets {S B} (P : S → Prop) (k : S → M S B) R :
  (∀ s0, P s0 → runs (λ s, s = s0) (k s0) R) → runs P (gets id ≫= k) R.
Proof. intros Hk s m HP Hm. by apply (Hk s HP s m). Qed.

(** [c] reports failure although there is memory. *)
Definition refuses {S A} (P : S → Prop) (c : M S A) (F : S → Prop) : Prop :=
  ∀ s m, P s → ¬ may_fail m → ∃ s' m', c s m = Failed s' m' ∧ F s' ∧ ¬ may_fail m'.

Lemma refuses_bind {S A B} (P : S → Prop) (c : M S A) (k : A → M S B) F :
  refuses P c F → refuses P (c ≫= k) F.
Proof.
  intros Hc s m HP Hm. destruct (Hc s m HP Hm) as (s1 & m1 & E & HF & Hm1).
  unfold mbind, M_bind. rewrite E. eauto.
Qed.

Lemma refuses_after {S A B} (P : S → Prop) (c : M S A) (k : A → M S B) Q F :
  runs P c Q → (∀ a, refuses (Q a) (k a) F) → refuses P (c ≫= k) F.
Proof.
  intros Hc Hk s m HP Hm. destruct (Hc s m HP Hm) as (a & s1 & m1 & E & HQ & Hm1).
  unfold mbind, M_bind. rewrite E. by apply Hk.
Qed.

Lemma refuses_attempt {S A} (P : S → Prop) (c : M S A) F :
  refuses P c F → runs P (attempt c) (λ ok s, ok = false ∧ F s).
Proof.
  intros Hc s m HP Hm. destruct (Hc s m HP Hm) as (s1 & m1 & E & HF & Hm1).
  exists false, s1, m1. unfold attempt. by rewrite E.
Qed.

(** [triple U P c Q F]: from a state with [P], [c] returns with [Q] or reports failure
    with [F]; it may go wrong only if [U]. *)
Definition triple {S A} (U : Prop) (P : S → Prop) (c : M S A) (Q : A → S → Prop)
    (F : S → Prop) : Prop :=
  ∀ s m, P s →
  match c s m with
  | Ok a s' _ => Q a s'
  | Failed s' _ => F s'
  | Ub => U
  end.

Lemma triple_ret {S A} U (P : S → Prop) (a : A) (Q : A → S → Prop) F :
  (∀ s, P s → Q a s) → triple U P (mret a) Q F.
Proof. intros HQ s m HP. by apply HQ. Qed.

Lemma triple_bind {S A B} U (P : S → Prop) (c : M S A) (k : A → M S B) Q R F :
  triple U P c Q F → (∀ a, triple U (Q a) (k a) R F) → triple U P (c ≫= k) R F.
Proof.
  intros Hc Hk s m HP. specialize (Hc s m HP). unfold mbind, M_bind.
  destruct (c s m) as [a s1 m1| |]; [|done..]. by apply Hk.
Qed.

Lemma triple_gets {S B} U (P : S → Prop) (k : S → M S B) R F :
  (∀ s0, P s0 → triple U (λ s, s = s0) (k s0) R F) → triple U P (gets id ≫= k) R F.
Proof. intros Hk s m HP. by apply (Hk s HP s m). Qed.

Lemma triple_modify {S} U (P : S → Prop) (f : S → S) (Q : S → Prop) F :
  (∀ s, P s → Q (f s)) → triple U P (modify f) (λ _, Q) F.
Proof. intros HQ s m HP. by apply HQ. Qed.

Lemma triple_request {S} U (P : S → Prop) : triple U P request (λ _, P) P.
Proof. intros s m HP. unfold request. by destruct (alloc m) as [[] ?]. Qed.

Lemma triple_requests {S} U (P : S → Prop) n : triple U P (requests n) (λ _, P) P.
Proof.
  induction n as [|n IH]; [by apply triple_ret|]. eapply triple_bind; [apply triple_request|]. done.
Qed.

Lemma triple_attempt {S A} U (P : S → Prop) (c : M S A) Q F :
  triple U P c Q F →
  triple U P (attempt c) (λ ok s, if (ok : bool) then ∃ a, Q a s else F s) (λ _, False).
Proof.
  intros Hc s m HP. specialize (Hc s m HP). unfold attempt. destruct (c s m) as [a s1 m1| |]; [|done..].
  by exists a.
Qed.

Lemma triple_checked {S A B} (U : Prop) (P : S → Prop) (o : option A) (k : A → M S B) R F :
  (o = None → U) → (∀ a, o = Some a → triple U P (k a) R F) → triple U P (checked o ≫= k) R F.
Proof.
  intros HU Hk s m HP. unfold mbind, M_bind, checked. destruct o as [a|]; [|by apply HU].
  by apply (Hk a).
Qed.

Lemma triple_on_failure {S A} U (P : S → Prop) (c : M S A) h Q F F' :
  triple U P c Q F → triple U F h (λ _, F') F' → triple U P (on_failure c h) Q F'.
Proof.
  intros Hc Hh s m HP. specialize (Hc s m HP). unfold on_failure.
  destruct (c s m) as [a1 s1 m1|s1 m1|]; [done| |done]. specialize (Hh s1 m1 Hc).
  by destruct (h s1 m1).
Qed.

Lemma triple_conseq {S A} (U : Prop) (P P' : S → Prop) (c : M S A) Q Q' F F' :
  triple U P' c Q' F' → (∀ s, P s → P' s) → (∀ a s, Q' a s → Q a s) → (∀ s, F' s → F s) →
  triple U P c Q F.
Proof.
  intros Hc HP HQ HF s m Hs. specialize (Hc s m (HP s Hs)).
  destruct (c s m); [by apply HQ|by apply HF|done].
Qed.

Lemma triple_wrong {S A} (U U' : Prop) (P : S → Prop) (c : M S A) Q F :
  triple U' P c Q F → (U' → U) → triple U P c Q F.
Proof. intros Hc HU s m HP. specialize (Hc s m HP). by destruct (c s m); [..|apply HU]. Qed.

Lemma triple_pre {S A} (U : Prop) (P P' : S → Prop) (c : M S A) Q F :
  triple U P' c Q F → (∀ s, P s → P' s) → triple U P c Q F.
Proof. intros Hc HP. by eapply triple_conseq. Qed.

Lemma triple_failure {S A} (U : Prop) (P : S → Prop) (c : M S A) Q F F' :
  triple U P c Q F' → (∀ s, F' s → F s) → triple U P c Q F.
Proof. intros Hc HF. by eapply triple_conseq. Qed.

Lemma triple_result {S A} (U : Prop) (P : S → Prop) (c : M S A) Q Q' F F' :
  triple U P c Q' F' → (∀ a s, Q' a s → Q a s) → (∀ s, F' s → F s) → triple U P c Q F.
Proof. intros Hc HQ HF. by eapply triple_conseq. Qed.

Lemma triple_pure {S A} U (φ : Prop) (P : S → Prop) (c : M S A) Q F :
  (φ → triple U P c Q F) → triple U (λ s, φ ∧ P s) c Q F.
Proof. intros H s m [Hφ HP]. by apply H. Qed.

Lemma triple_exists {S A X} U (P : X → S → Prop) (c : M S A) Q F :
  (∀ x, triple U (P x) c Q F) → triple U (λ s, ∃ x, P x s) c Q F.
Proof. intros H s m [x HP]. by apply (H x). Qed.

(** ** Automation *)

#[global] Arguments Nat.ltb : simpl never.
#[global] Arguments Nat.leb : simpl never.
#[global] Arguments Nat.eqb : simpl never.
#[global] Arguments Nat.sub : simpl never.
#[global] Arguments Z.leb : simpl never.
#[global] Arguments Z.ltb : simpl never.
#[global] Arguments Z.eqb : simpl never.
#[global] Arguments Byte.eqb : simpl never.

Create HintDb dbus.
Create Rewrite HintDb dbus_rw.
#[export] Hint Rewrite byte_eqb_refl b2z_z2b z2b_b2z u32_u32 : dbus_rw.
#[export] Hint Resolve b2z_range u32_range : dbus.

(** Turn boolean tests on bytes and numbers into propositions and split on the
    tests of the goal. *)
Ltac bool_prop :=
  repeat match goal with
  | H : (_ && _) = true |- _ => apply andb_true_iff in H as [? ?]
  | H : (_ || _) = false |- _ => apply orb_false_iff in H as [? ?]
  | H : negb _ = true |- _ => apply negb_true_iff in H
  | H : negb _ = false |- _ => apply negb_false_iff in H
  | H : (_ =b _) = true |- _ => apply byte_eqb_eq in H
  | H : (_ =b _) = false |- _ => apply byte_eqb_neq in H
  end.

Ltac case_if :=
  match goal with
  | |- context [if ?b then _ else _] => destruct b eqn:?
  end.

(** Evaluate the tests between known bytes. *)
Ltac byte_tests :=
  repeat match goal with
  | |- context [?a =b ?b] =>
      let r := eval vm_compute in (a =b b) in
      match r with
      | true => change (a =b b) with true
      | false => change (a =b b) with false
      end
  end; cbn [negb andb orb].

Ltac alignment := unfold is_alignment; rewrite !elem_of_cons; auto 6.

(** ** Running an operation *)

Section run.
Context {S A B : Type}.
Implicit Types (s : S) (m : mem).

Lemma at_gets (k : S → M S B) s m : (gets id ≫= k) s m = k s s m.
Proof. done. Qed.
Lemma at_modify (f : S → S) (k : unit → M S B) s m : (modify f ≫= k) s m = k tt (f s) m.
Proof. done. Qed.
Lemma at_assert b (k : unit → M S B) s m : b = true → (assert_ b ≫= k) s m = k tt s m.
Proof. by intros ->. Qed.
Lemma at_checked (o : option A) a (k : A → M S B) s m : o = Some a → (checked o ≫= k) s m = k a s m.
Proof. by intros ->. Qed.
Lemma at_ok (c : M S A) a s' m' (k : A → M S B) s m : c s m = Ok a s' m' → (c ≫= k) s m = k a s' m'.
Proof. intros E. unfold mbind, M_bind. by rewrite E. Qed.
Lemma at_failed (c : M S A) s' m' (k : A → M S B) s m : c s m = Failed s' m' → (c ≫= k) s m = Failed s' m'.
Proof. intros E. unfold mbind, M_bind. by rewrite E. Qed.
Lemma at_attempt (c : M S A) (k : bool → M S B) s m :
  (attempt c ≫= k) s m = match c s m with Ok _ s' m' => k true s' m' | Failed s' m' => k false s' m' | Ub => Ub end.
Proof. unfold attempt, mbind, M_bind. by destruct (c s m). Qed.
End run.
