(* ===== verification/Search.v ===== *)
(** * Search: looking through strings

    The functions of src/dbus/dbus-string.c that search a string without changing
    it, and those of the C library the sources use on strings.  A string is the
    list of its bytes; a failing assertion is [None]. *)

From S2P Require Import Prelude.

(** ** Substrings *)

Fixpoint is_prefix (p s : bytes) : bool :=
  match p, s with
  | [], _ => true
  | a :: p', b :: s' => (a =b b) && is_prefix p' s'
  | _ :: _, [] => false
  end.

(** [strstr]: the offset of the first occurrence. *)
Fixpoint strstr (s part : bytes) : option nat :=
  if is_prefix part s then Some 0%nat
  else match s with
       | [] => None
       | _ :: s' => S <$> strstr s' part
       end.

(** Whether the bytes were found, and where; at [end_] if not. *)
Definition _dbus_string_find_to (str : bytes) (start end_ : nat) (substr : bytes) : bool * nat :=
  match strstr (sub str start (end_ - start)) substr with
  | Some k => (true, start + k)%nat
  | None => (false, end_)
  end.

Definition _dbus_string_find (str : bytes) (start : nat) (substr : bytes) : bool * nat :=
  _dbus_string_find_to str start (length str) substr.

Definition _dbus_string_starts_with_c_str (a c_str : bytes) : bool := is_prefix c_str a.

(** ** Blanks *)

Definition DBUS_IS_ASCII_BLANK (c : byte) : bool := (c =b " ") || (c =b x09).
Definition DBUS_IS_ASCII_WHITE (c : byte) : bool :=
  (c =b " ") || (c =b x09) || (c =b x0a) || (c =b x0d).

(** The number of leading bytes with a property. *)
Fixpoint run_of (p : byte → bool) (s : bytes) : nat :=
  match s with
  | c :: s' => if p c then S (run_of p s') else 0
  | [] => 0
  end.

Definition _dbus_string_find_blank (str : bytes) (start : nat) : bool * nat :=
  let i := (start + run_of (λ c, negb (DBUS_IS_ASCII_BLANK c)) (drop start str))%nat in
  (i <? length str, i)%nat.

(** The assertion behind the loop asks for more than the loop gives: the byte it
    stopped at must not be an end of line either. *)
Definition _dbus_string_skip_blank (str : bytes) (start : nat) : option nat :=
  let i := (start + run_of DBUS_IS_ASCII_BLANK (drop start str))%nat in
  if (i =? length str)%nat || negb (DBUS_IS_ASCII_WHITE (byte_at str i)) then Some i else None.

Definition _dbus_string_skip_white (str : bytes) (start : nat) : nat :=
  (start + run_of DBUS_IS_ASCII_WHITE (drop start str))%nat.

Definition _dbus_string_skip_white_reverse (str : bytes) (end_ : nat) : nat :=
  (end_ - run_of DBUS_IS_ASCII_WHITE (rev (take end_ str)))%nat.

Definition _dbus_string_chop_white (str : bytes) : bytes :=
  let str := drop (_dbus_string_skip_white str 0) str in
  take (_dbus_string_skip_white_reverse str (length str)) str.

(** The position and the length of the first end of line. *)
Fixpoint eol_loop (s : bytes) (i : nat) : bool * nat * nat :=
  match s with
  | [] => (false, i, 0)%nat
  | c :: s' =>
      if c =b x0d then
        match s' with
        | d :: _ => if d =b x0a then (true, i, 2)%nat else (true, i, 1)%nat
        | [] => (true, i, 1)%nat
        end
      else if c =b x0a then (true, i, 1)%nat
      else eol_loop s' (S i)
  end.

Definition _dbus_string_find_eol (str : bytes) (start : nat) : bool * nat * nat :=
  eol_loop (drop start str) start.

(** ** Numbers *)

Definition is_digit (c : byte) : bool := in_range "0" "9" c.

Fixpoint digits (acc : Z) (s : bytes) : Z :=
  match s with
  | c :: s' => if is_digit c then digits (10 * acc + (b2z c - 48)) s' else acc
  | [] => acc
  end.

Definition is_space (c : byte) : bool := (c =b " ") || in_range "009" "013" c.

Fixpoint skip_space (s : bytes) : bytes :=
  match s with
  | c :: s' => if is_space c then skip_space s' else s
  | [] => []
  end.

(** The decimal digits of an [int], as [_dbus_string_append_int] writes them. *)
Fixpoint decimal (fuel : nat) (n : Z) (acc : bytes) : bytes :=
  match fuel with
  | O => acc
  | S fuel' =>
      let acc' := z2b (48 + n mod 10) :: acc in
      if n <? 10 then acc' else decimal fuel' (n / 10) acc'
  end.

Definition int_to_bytes (n : Z) : bytes :=
  if n <? 0 then x2d :: decimal 20 (- n) [] else decimal 20 n [].

(** ** Lemmas *)

Lemma is_prefix_app p s : is_prefix p (p ++ s) = true.
Proof. induction p as [|c p IH]; [done|]. simpl. by rewrite byte_eqb_refl. Qed.

Lemma is_prefix_spec p s : is_prefix p s = true ↔ ∃ r, s = p ++ r.
Proof.
  split; [|intros [r ->]; apply is_prefix_app].
  revert s. induction p as [|c p IH]; intros s; [by exists s|].
  destruct s as [|d s]; [done|]. simpl. intros [->%byte_eqb_eq (r & ->)%IH]%andb_true_iff. by exists r.
Qed.

(** [strstr] finds the first occurrence. *)
Lemma strstr_found s part k :
  strstr s part = Some k → ∃ r, drop k s = part ++ r ∧ (k <= length s)%nat.
Proof.
  revert k. induction s as [|c s IH]; intros k; simpl; destruct (is_prefix part _) eqn:E.
  - intros [= <-]. apply is_prefix_spec in E as [r Hr]. exists r. split; [done|simpl; lia].
  - done.
  - intros [= <-]. apply is_prefix_spec in E as [r Hr]. exists r. split; [done|simpl; lia].
  - destruct (strstr s part) as [j|]; [|done]. intros [= <-]. destruct (IH j eq_refl) as (r & Hr & ?).
    exists r. split; [done|simpl; lia].
Qed.

Lemma strstr_None s part k : strstr s part = None → is_prefix part (drop k s) = false.
Proof.
  revert k. induction s as [|c s IH]; intros k; simpl; destruct (is_prefix part _) eqn:E; try done.
  - intros _. by rewrite drop_nil.
  - destruct (strstr s part) eqn:Es; [done|]. intros _. destruct k; [done|]. by apply IH.
Qed.

(** The first byte of the part does not occur before it. *)
Lemma strstr_skip s c part r :
  c ∉ s → strstr (s ++ (c :: part) ++ r) (c :: part) = Some (length s).
Proof.
  induction s as [|d s IH]; intros Hc.
  - simpl app. change (c :: part ++ r) with ((c :: part) ++ r).
    assert (is_prefix (c :: part) ((c :: part) ++ r) = true) as E by apply is_prefix_app.
    unfold strstr. destruct ((c :: part) ++ r) eqn:E'; by rewrite E.
  - apply not_elem_of_cons in Hc as [Hne Hc]. simpl. rewrite (proj2 (byte_eqb_neq _ _) Hne). simpl.
    specialize (IH Hc). simpl in IH. by rewrite IH.
Qed.

Lemma run_of_le p s : (run_of p s <= length s)%nat.
Proof. induction s as [|c s IH]; simpl; [lia|]. destruct (p c); simpl; lia. Qed.

Lemma run_of_app p s t : forallb p s = true → run_of p (s ++ t) = (length s + run_of p t)%nat.
Proof.
  induction s as [|c s IH]; [done|]. simpl. intros [-> Hs]%andb_true_iff. by rewrite IH.
Qed.

Lemma run_of_stop p s c t : p c = false → forallb p s = true → run_of p (s ++ c :: t) = length s.
Proof. intros Hc Hs. rewrite run_of_app by done. simpl. rewrite Hc. lia. Qed.

Lemma run_of_take p s : forallb p (take (run_of p s) s) = true.
Proof. induction s as [|c s IH]; [done|]. simpl. destruct (p c) eqn:E; [|done]. simpl. by rewrite E. Qed.

Lemma run_of_next p s c t : drop (run_of p s) s = c :: t → p c = false.
Proof.
  induction s as [|d s IH]; [done|]. simpl. destruct (p d) eqn:E; [apply IH|]. by intros [= -> ->].
Qed.

(** What follows does not change the first occurrence. *)
Lemma is_prefix_long p s t : (length p <= length s)%nat → is_prefix p (s ++ t) = is_prefix p s.
Proof.
  revert s. induction p as [|c p IH]; intros s; [done|]. destruct s as [|d s]; simpl; [lia|].
  intros. by rewrite IH by lia.
Qed.

Lemma strstr_more s t part k : strstr s part = Some k → strstr (s ++ t) part = Some k.
Proof.
  revert k. induction s as [|c s IH]; intros k.
  { simpl. destruct part; [|done]. intros [= <-]. by destruct t. }
  simpl. destruct (is_prefix part (c :: s)) eqn:E.
  - intros [= <-]. apply is_prefix_spec in E as [r E]. rewrite app_comm_cons, E, <- app_assoc.
    by rewrite is_prefix_app.
  - destruct (strstr s part) as [j|] eqn:Ej; [|done]. intros [= <-].
    destruct (strstr_found _ _ _ Ej) as (r & Hr & _). apply (f_equal length) in Hr.
    rewrite length_drop, length_app in Hr.
    rewrite app_comm_cons, (is_prefix_long part (c :: s)), E by (simpl; lia). simpl.
    by rewrite (IH j).
Qed.
