(* ===== verification/Names.v ===== *)
(** * Names: object paths, interfaces, members, error and bus names

    Models the name validators of src/dbus/dbus-marshal-validate.c
    ([_dbus_validate_path], [_dbus_validate_interface], [_dbus_validate_member],
    [_dbus_validate_error_name], [_dbus_validate_bus_name]) as the loops they
    are, and proves each equal to a grammar that splits the name into its
    elements. *)

From S2P Require Import Prelude.

Definition DBUS_MAXIMUM_NAME_LENGTH : nat := 255.

(** ** Character classes *)

Definition VALID_INITIAL_NAME_CHARACTER (c : byte) : bool :=
  in_range "A" "Z" c || in_range "a" "z" c || (c =b "_").

Definition VALID_NAME_CHARACTER (c : byte) : bool :=
  in_range "0" "9" c || in_range "A" "Z" c || in_range "a" "z" c || (c =b "_").

Definition VALID_INITIAL_BUS_NAME_CHARACTER (c : byte) : bool :=
  in_range "A" "Z" c || in_range "a" "z" c || (c =b "_") || (c =b "-").

Definition VALID_BUS_NAME_CHARACTER (c : byte) : bool :=
  in_range "0" "9" c || in_range "A" "Z" c || in_range "a" "z" c
  || (c =b "_") || (c =b "-").

(** ** Validators

    [str] is the whole string, [start] and [len] the range.  Each loop runs over
    the bytes from [s] to [end]. *)

(** The loop of [_dbus_validate_path]: [s] and [last_slash] are offsets from the
    start of the range; the result is the final [last_slash]. *)
Fixpoint path_loop (rest : bytes) (s last_slash : nat) : option nat :=
  match rest with
  | [] => Some last_slash
  | c :: rest' =>
      if c =b "/" then
        if (s - last_slash <? 2)%nat then None
        else path_loop rest' (S s) s
      else if negb (VALID_NAME_CHARACTER c) then None
      else path_loop rest' (S s) last_slash
  end.

Definition path_range (len : nat) (s : bytes) : bool :=
  match s with
  | [] => false
  | c :: rest =>
      if negb (c =b "/") then false
      else match path_loop rest 1 0 with
           | None => false
           | Some last_slash =>
               negb ((len - last_slash <? 2)%nat && (1 <? len)%nat)
           end
  end.

Definition _dbus_validate_path (str : bytes) (start len : nat) : bool :=
  if (length str - start <? len)%nat then false
  else if (len =? 0)%nat then false
  else path_range len (sub str start len).

(** The loop of the dotted names: [init] classifies the character after a dot,
    [rest] the others, [last_dot] tells whether a dot has been seen. *)
Section dotted.
Context (init rest : byte → bool).

Fixpoint dotted_loop (s : bytes) (last_dot : bool) : bool :=
  match s with
  | [] => last_dot
  | c :: s1 =>
      if c =b "." then
        match s1 with
        | [] => false
        | d :: s2 => if negb (init d) then false else dotted_loop s2 true
        end
      else if negb (rest c) then false
      else dotted_loop s1 last_dot
  end.
End dotted.

Definition interface_range (s : bytes) : bool :=
  match s with
  | [] => false
  | c :: s' =>
      if c =b "." then false
      else if negb (VALID_INITIAL_NAME_CHARACTER c) then false
      else dotted_loop VALID_INITIAL_NAME_CHARACTER VALID_NAME_CHARACTER s' false
  end.

Definition _dbus_validate_interface (str : bytes) (start len : nat) : bool :=
  if (length str - start <? len)%nat then false
  else if (DBUS_MAXIMUM_NAME_LENGTH <? len)%nat then false
  else if (len =? 0)%nat then false
  else interface_range (sub str start len).

Definition member_range (s : bytes) : bool :=
  match s with
  | [] => false
  | c :: s' =>
      if negb (VALID_INITIAL_NAME_CHARACTER c) then false
      else forallb VALID_NAME_CHARACTER s'
  end.

Definition _dbus_validate_member (str : bytes) (start len : nat) : bool :=
  if (length str - start <? len)%nat then false
  else if (DBUS_MAXIMUM_NAME_LENGTH <? len)%nat then false
  else if (len =? 0)%nat then false
  else member_range (sub str start len).

Definition _dbus_validate_error_name (str : bytes) (start len : nat) : bool :=
  _dbus_validate_interface str start len.

(** The loop for unique names, after the colon. *)
Fixpoint unique_loop (s : bytes) : bool :=
  match s with
  | [] => true
  | c :: s1 =>
      if c =b "." then
        match s1 with
        | [] => false
        | d :: s2 => if negb (VALID_BUS_NAME_CHARACTER d) then false else unique_loop s2
        end
      else if negb (VALID_BUS_NAME_CHARACTER c) then false
      else unique_loop s1
  end.

Definition bus_name_range (s : bytes) : bool :=
  match s with
  | [] => false
  | c :: s' =>
      if c =b ":" then unique_loop s'
      else if c =b "." then false
      else if negb (VALID_INITIAL_BUS_NAME_CHARACTER c) then false
      else dotted_loop VALID_INITIAL_BUS_NAME_CHARACTER VALID_BUS_NAME_CHARACTER s' false
  end.

Definition _dbus_validate_bus_name (str : bytes) (start len : nat) : bool :=
  if (length str - start <? len)%nat then false
  else if (DBUS_MAXIMUM_NAME_LENGTH <? len)%nat then false
  else if (len =? 0)%nat then false
  else bus_name_range (sub str start len).

(** ** Reference grammars *)

(** A nonempty element whose first character is in [init] and others in [rest]. *)
Definition element_ok (init rest : byte → bool) (w : bytes) : bool :=
  match w with
  | [] => false
  | c :: w' => init c && forallb rest w'
  end.

(** A path is ["/"], or a slash and nonempty components separated by slashes. *)
Definition path_grammar (s : bytes) : bool :=
  match s with
  | c :: r =>
      (c =b "/") &&
      match r with
      | [] => true
      | _ => forallb (element_ok VALID_NAME_CHARACTER VALID_NAME_CHARACTER) (split_on "/" r)
      end
  | [] => false
  end.

(** Two or more elements separated by dots. *)
Definition dotted_grammar (init rest : byte → bool) (s : bytes) : bool :=
  let els := split_on "." s in
  forallb (element_ok init rest) els && (2 <=? length els)%nat.

(** The part of a unique name after the colon: every element but the first is
    nonempty. *)
Definition unique_grammar (s : bytes) : bool :=
  match split_on "." s with
  | [] => false
  | e :: els =>
      forallb VALID_BUS_NAME_CHARACTER e
      && forallb (element_ok VALID_BUS_NAME_CHARACTER VALID_BUS_NAME_CHARACTER) els
  end.

Definition bus_name_grammar (s : bytes) : bool :=
  match s with
  | c :: r =>
      if c =b ":" then unique_grammar r
      else dotted_grammar VALID_INITIAL_BUS_NAME_CHARACTER VALID_BUS_NAME_CHARACTER s
  | [] => false
  end.

(** ** Lemmas *)

Lemma slash_not_name c : VALID_NAME_CHARACTER c = true → c ≠ "/"%byte.
Proof. by intros ? ->. Qed.

Lemma dot_not_name c : VALID_NAME_CHARACTER c = true → c ≠ "."%byte.
Proof. by intros ? ->. Qed.

Lemma dot_not_bus_name c : VALID_BUS_NAME_CHARACTER c = true → c ≠ "."%byte.
Proof. by intros ? ->. Qed.

Lemma initial_name_is_name c :
  VALID_INITIAL_NAME_CHARACTER c = true → VALID_NAME_CHARACTER c = true.
Proof.
  intros H. pose proof (byte_enum (λ c, implb (VALID_INITIAL_NAME_CHARACTER c)
    (VALID_NAME_CHARACTER c)) ltac:(vm_compute; reflexivity) c) as E.
  cbv beta in E. by rewrite H in E.
Qed.

Lemma initial_bus_name_is_bus_name c :
  VALID_INITIAL_BUS_NAME_CHARACTER c = true → VALID_BUS_NAME_CHARACTER c = true.
Proof.
  intros H. pose proof (byte_enum (λ c, implb (VALID_INITIAL_BUS_NAME_CHARACTER c)
    (VALID_BUS_NAME_CHARACTER c)) ltac:(vm_compute; reflexivity) c) as E.
  cbv beta in E. by rewrite H in E.
Qed.

(** The grammar of the rest of a path when [k] characters of the current
    component have been read. *)
Definition path_from (k : nat) (r : bytes) : bool :=
  match split_on "/" r with
  | [] => false
  | w :: ws =>
      forallb VALID_NAME_CHARACTER w && (0 <? k + length w)%nat
      && forallb (element_ok VALID_NAME_CHARACTER VALID_NAME_CHARACTER) ws
  end.

Lemma path_from_0 r :
  path_from 0 r = forallb (element_ok VALID_NAME_CHARACTER VALID_NAME_CHARACTER)
                    (split_on "/" r).
Proof.
  unfold path_from. destruct (split_on_cons "/" r) as (w & ws & ->).
  destruct w as [|c w]; simpl; [done|]. by rewrite andb_true_r.
Qed.

Lemma path_loop_spec r k last :
  match path_loop r (last + 1 + k) last with
  | Some ls => negb (last + 1 + k + length r - ls <? 2)%nat
  | None => false
  end = path_from k r.
Proof.
  revert k last. induction r as [|c r IH]; intros k last.
  - unfold path_from. simpl. lia.
  - simpl path_loop. unfold path_from. simpl split_on. destruct (c =b "/") eqn:Hc.
    + simpl forallb. simpl length. rewrite Nat.add_0_r.
      destruct (last + 1 + k - last <? 2)%nat eqn:Hk.
      * by replace k with 0%nat by lia.
      * specialize (IH 0%nat (last + 1 + k)%nat). rewrite path_from_0 in IH.
        replace (0 <? k)%nat with true by lia. rewrite <- IH. clear IH.
        replace (last + 1 + k + 1 + 0)%nat with (S (last + 1 + k)) by lia.
        destruct (path_loop _ _ _); [|done]. f_equal. f_equal. lia.
    + specialize (IH (S k) last). unfold path_from in IH.
      destruct (split_on_cons "/" r) as (w & ws & E). rewrite E in *.
      destruct (VALID_NAME_CHARACTER c) eqn:Hn; simpl; rewrite Hn; simpl; [|done].
      replace (k + S (length w))%nat with (S k + length w)%nat by lia. rewrite <- IH. clear IH.
      replace (last + 1 + S k)%nat with (S (last + 1 + k)) by lia. simpl length.
      destruct (path_loop _ _ _); [|done]. f_equal. f_equal. lia.
Qed.

(** The grammar of the rest of a dotted name inside an element. *)
Definition dotted_from (init rest : byte → bool) (ld : bool) (s : bytes) : bool :=
  match split_on "." s with
  | [] => false
  | w :: ws =>
      forallb rest w && forallb (element_ok init rest) ws
      && (ld || (1 <=? length ws)%nat)
  end.

Section dotted_lemmas.
Context (init rest : byte → bool).
Hypothesis init_rest : ∀ c, init c = true → rest c = true.
Hypothesis rest_nodot : ∀ c, rest c = true → c ≠ "."%byte.

Lemma dotted_loop_spec s ld : dotted_loop init rest s ld = dotted_from init rest ld s.
Proof using init_rest rest_nodot.
  revert ld. induction s as [s IH] using (induction_ltof1 _ (@length byte)); unfold ltof in IH.
  intros ld. destruct s as [|c s]; [by destruct ld|].
  unfold dotted_from. simpl. destruct (c =b ".") eqn:Hc.
  - destruct s as [|d s].
    + by rewrite !andb_false_r.
    + simpl. rewrite (IH s) by (simpl; lia). unfold dotted_from.
      destruct (split_on_cons "." s) as (w & ws & ->).
      destruct (init d) eqn:Hi; simpl.
      * pose proof (rest_nodot d (init_rest d Hi)) as Hd.
        apply byte_eqb_neq in Hd. rewrite Hd. simpl. by rewrite Hi, orb_true_r, !andb_true_r.
      * destruct (d =b "."); simpl; by rewrite ?Hi, ?andb_false_r.
  - rewrite (IH s) by (simpl; lia). unfold dotted_from.
    destruct (split_on_cons "." s) as (w & ws & ->). simpl.
    by destruct (rest c).
Qed.

(** A leading initial character followed by a loop over the rest is the
    grammar of two or more elements. *)
Lemma dotted_grammar_cons c s :
  dotted_grammar init rest (c :: s)
  = if c =b "." then false else if negb (init c) then false
    else dotted_loop init rest s false.
Proof using init_rest rest_nodot.
  rewrite dotted_loop_spec. unfold dotted_grammar, dotted_from. simpl.
  destruct (c =b "."); [done|].
  destruct (split_on_cons "." s) as (w & ws & ->). simpl.
  by destruct (init c).
Qed.
End dotted_lemmas.

Lemma unique_loop_dotted s :
  unique_loop s = dotted_loop VALID_BUS_NAME_CHARACTER VALID_BUS_NAME_CHARACTER s true.
Proof.
  induction s as [s IH] using (induction_ltof1 _ (@length byte)); unfold ltof in IH.
  destruct s as [|c s]; [done|]. cbn [unique_loop dotted_loop].
  rewrite (IH s) by (simpl; lia). destruct s as [|d s]; [done|].
  by rewrite (IH s) by (simpl; lia).
Qed.

Lemma unique_loop_spec s : unique_loop s = unique_grammar s.
Proof.
  rewrite unique_loop_dotted, dotted_loop_spec; [|done|apply dot_not_bus_name].
  unfold dotted_from, unique_grammar.
  destruct (split_on_cons "." s) as (w & ws & ->). by rewrite andb_true_r.
Qed.

(** Every range inside the string that is not empty starts with a byte. *)
Lemma sub_cons (s : bytes) start len :
  (start + len <= length s)%nat → len ≠ 0%nat →
  ∃ c r, sub s start len = c :: r ∧ length r = (len - 1)%nat.
Proof.
  intros Hs Hl. pose proof (length_sub s start len Hs) as Hlen.
  destruct (sub s start len) as [|c r]; simpl in Hlen; [lia|].
  exists c, r. split; [done|lia].
Qed.

(** The shared prefix of the validators: the range and emptiness tests leave a
    nonempty range inside the string. *)
Lemma guard_range (str : bytes) (start len : nat) (f g : bytes → bool) :
  (∀ c r, length r = (len - 1)%nat → f (c :: r) = g (c :: r)) →
  g [] = false →
  (if (length str - start <? len)%nat then false
   else if (len =? 0)%nat then false else f (sub str start len))
  = (start + len <=? length str)%nat && g (sub str start len).
Proof.
  intros Hf Hg.
  destruct (length str - start <? len)%nat eqn:Hr.
  { by replace (start + len <=? length str)%nat with false by lia. }
  destruct (len =? 0)%nat eqn:Hl.
  { replace len with 0%nat by lia. change (sub str start 0) with (@nil byte). by rewrite Hg, andb_false_r. }
  destruct (sub_cons str start len) as (c & r & E & Hlen); [lia..|].
  rewrite E, Hf by lia. by replace (start + len <=? length str)%nat with true by lia.
Qed.

(** The same with the length limit of names. *)
Lemma guard_name (str : bytes) (start len : nat) (f g : bytes → bool) :
  (∀ c r, length r = (len - 1)%nat → f (c :: r) = g (c :: r)) →
  g [] = false →
  (if (length str - start <? len)%nat then false
   else if (DBUS_MAXIMUM_NAME_LENGTH <? len)%nat then false
   else if (len =? 0)%nat then false else f (sub str start len))
  = (start + len <=? length str)%nat && (len <=? DBUS_MAXIMUM_NAME_LENGTH)%nat
    && g (sub str start len).
Proof.
  intros Hf Hg. destruct (DBUS_MAXIMUM_NAME_LENGTH <? len)%nat eqn:Hm.
  - replace (len <=? DBUS_MAXIMUM_NAME_LENGTH)%nat with false by lia.
    rewrite andb_false_r. by destruct (length str - start <? len)%nat.
  - replace (len <=? DBUS_MAXIMUM_NAME_LENGTH)%nat with true by lia. rewrite andb_true_r.
    by apply guard_range.
Qed.

(** ** Theorems *)

(** The path validator accepts exactly the ranges inside the string that the
    path grammar generates: ["/"], or nonempty components of name characters
    each preceded by a slash, with no trailing slash. *)
Theorem validate_path_grammar (str : bytes) (start len : nat) :
  _dbus_validate_path str start len
  = (start + len <=? length str)%nat && path_grammar (sub str start len).
Proof.
  apply guard_range; [|done]. intros c r Hlen. simpl.
  destruct (c =b "/"); simpl; [|done].
  destruct r as [|d r]; [simpl in *; lia|].
  rewrite <- path_from_0, <- (path_loop_spec _ 0 0). simpl Nat.add.
  destruct (path_loop (d :: r) 1 0) as [ls|]; [|done]. simpl in *. lia.
Qed.

(** The interface validator accepts exactly the ranges of at most 255 bytes that
    are two or more elements separated by dots, each element a letter or
    underscore followed by letters, digits and underscores. *)
Theorem validate_interface_grammar (str : bytes) (start len : nat) :
  _dbus_validate_interface str start len
  = (start + len <=? length str)%nat && (len <=? DBUS_MAXIMUM_NAME_LENGTH)%nat
    && dotted_grammar VALID_INITIAL_NAME_CHARACTER VALID_NAME_CHARACTER
         (sub str start len).
Proof.
  apply guard_name; [|done]. intros c r _.
  rewrite dotted_grammar_cons; auto using initial_name_is_name, dot_not_name.
Qed.

(** The member validator accepts exactly one element: no dots, at most 255
    bytes, and no leading digit. *)
Theorem validate_member_grammar (str : bytes) (start len : nat) :
  _dbus_validate_member str start len
  = (start + len <=? length str)%nat && (len <=? DBUS_MAXIMUM_NAME_LENGTH)%nat
    && element_ok VALID_INITIAL_NAME_CHARACTER VALID_NAME_CHARACTER
         (sub str start len).
Proof.
  apply guard_name; [|done]. intros c r _. simpl.
  by destruct (VALID_INITIAL_NAME_CHARACTER c).
Qed.

(** The bus name validator accepts exactly the well-known names (two or more
    dotted elements, dashes allowed, no leading digits) and the unique names (a
    colon followed by elements that may start with digits, of which only the
    first may be empty). *)
Theorem validate_bus_name_grammar (str : bytes) (start len : nat) :
  _dbus_validate_bus_name str start len
  = (start + len <=? length str)%nat && (len <=? DBUS_MAXIMUM_NAME_LENGTH)%nat
    && bus_name_grammar (sub str start len).
Proof.
  apply guard_name; [|done]. intros c r _. simpl.
  destruct (c =b ":"); [apply unique_loop_spec|].
  rewrite dotted_grammar_cons;
    auto using initial_bus_name_is_bus_name, dot_not_bus_name.
Qed.

(** The validator accepts [":"] and [":.a"], whose elements are partly empty. *)
Theorem bus_name_accepts_empty_element :
  _dbus_validate_bus_name (lit ":") 0 1 = true
  ∧ _dbus_validate_bus_name (lit ":.a") 0 3 = true.
Proof. split; reflexivity. Qed.
