(* ===== verification/DString.v ===== *)
(** * DString: the growable string buffer

    Models the buffer of src/dbus/dbus-string.c at the level of its memory: the
    allocated block, the length and the nul after the last byte, with [memmove],
    [memset] and [memcpy] as checked writes into the block.  [set_length],
    [open_gap], [copy], [delete] and the operations built on them are proved to
    refine the list operations they stand for: they never leave the block, keep
    the representation invariant, and leave the contents unchanged when they
    return FALSE, which happens only for an allocation failure or a string that
    would pass the maximum length.

    The build without DBUS_BUILD_TESTS is modelled: reallocation doubles the
    block.  The range assertions of the operations are modelled: a string that is
    too short for them is [Ub].  The assertions of the preambles on the fields
    (the length fits the block and the maximum) are the invariant [wf]; the flags
    for constant, locked and freed strings are not modelled, nor is
    [align_offset]: [fixup_alignment] moves the string inside of its block so that
    its address is a multiple of 8, which the contents do not show, so offsets are
    aligned exactly when addresses are. *)

From S2P Require Import Prelude.

Definition _DBUS_STRING_ALLOCATION_PADDING : Z := 8.
Definition _DBUS_STRING_MAX_MAX_LENGTH : Z := 2147483647 - _DBUS_STRING_ALLOCATION_PADDING.

(** The fields [str] (the whole block), [len] and [max_length] of
    DBusRealString; [allocated] is the size of the block. *)
Record DBusRealString := Real { str : bytes; len : nat; max_length : Z }.

Definition allocated (r : DBusRealString) : Z := Z.of_nat (length (str r)).

(** The string a buffer stands for. *)
Definition contents (r : DBusRealString) : bytes := take (len r) (str r).

Definition zlen (r : DBusRealString) : Z := Z.of_nat (len r).

Abbreviation SM := (M DBusRealString).

(** Store the result of a checked write. *)
Definition store (f : bytes → option bytes) : SM unit :=
  r ← gets id;
  b ← checked (f (str r));
  put (Real b (len r) (max_length r)).

Definition set_len (n : nat) : SM unit :=
  r ← gets id; put (Real (str r) n (max_length r)).

(** ** Operations *)

(** [_dbus_string_init_preallocated]: a fresh object, so the initial one is not
    read. *)
Definition _dbus_string_init_preallocated (allocate_size : nat) (m : mem) :
    outcome DBusRealString unit :=
  let '(ok, m') := alloc m in
  let block := replicate (Z.to_nat _DBUS_STRING_ALLOCATION_PADDING + allocate_size) (junk m) in
  let r := Real block 0 _DBUS_STRING_MAX_MAX_LENGTH in
  if ok then store (λ b, mem_write b 0 [x00]) r m' else Failed (Real [] 0 0) m'.

Definition _dbus_string_init (m : mem) : outcome DBusRealString unit :=
  _dbus_string_init_preallocated 0 m.

(** A constant string over memory of the caller. *)
Definition _dbus_string_init_const_len (value : bytes) (n : nat) : DBusRealString :=
  Real value n (Z.of_nat n + 1).

Definition reallocate_for_length (new_length : nat) : SM unit := λ r m,
  let new_allocated :=
    if (_DBUS_STRING_MAX_MAX_LENGTH + _DBUS_STRING_ALLOCATION_PADDING) / 2 <? allocated r
    then _DBUS_STRING_MAX_MAX_LENGTH + _DBUS_STRING_ALLOCATION_PADDING
    else allocated r * 2 in
  let new_allocated :=
    Z.max new_allocated (Z.of_nat new_length + _DBUS_STRING_ALLOCATION_PADDING) in
  let '(ok, m') := alloc m in
  if ok then
    Ok tt (Real (str r ++ replicate (Z.to_nat (new_allocated - allocated r)) (junk m))
             (len r) (max_length r)) m'
  else Failed r m'.

Definition set_length (new_length : nat) : SM unit :=
  r ← gets id;
  if max_length r <? Z.of_nat new_length then fail
  else
    (if allocated r - _DBUS_STRING_ALLOCATION_PADDING <? Z.of_nat new_length
     then reallocate_for_length new_length else mret tt);;
    set_len new_length;;
    store (λ b, mem_write b new_length [x00]).

Definition open_gap (n insert_at : nat) : SM unit :=
  if (n =? 0)%nat then mret tt
  else
    r ← gets id;
    if max_length r - zlen r <? Z.of_nat n then fail
    else
      set_length (len r + n);;
      r' ← gets id;
      store (λ b, memmove b (insert_at + n) insert_at (len r' - n - insert_at)).

(** [_dbus_assert] of a condition on the length. *)
Definition asserting (p : nat → bool) : SM unit := r ← gets id; assert_ (p (len r)).

Definition _dbus_string_set_byte (i : nat) (b : byte) : SM unit :=
  asserting (λ n, i <? n)%nat;;
  store (λ buf, mem_write buf i [b]).

(** The nul behind the string may be read. *)
Definition _dbus_string_get_byte (i : nat) (r : DBusRealString) : option byte :=
  if (i <=? len r)%nat then Some (byte_at (str r) i) else None.

Definition _dbus_string_insert_bytes (i n_bytes : nat) (b : byte) : SM unit :=
  asserting (λ n, i <=? n)%nat;;
  if (n_bytes =? 0)%nat then mret tt
  else open_gap n_bytes i;; store (λ buf, mem_write buf i (replicate n_bytes b)).

Definition _dbus_string_insert_byte (i : nat) (b : byte) : SM unit :=
  asserting (λ n, i <=? n)%nat;;
  open_gap 1 i;; store (λ buf, mem_write buf i [b]).

Definition _dbus_string_lengthen (additional_length : nat) : SM unit :=
  r ← gets id;
  if max_length r - zlen r <? Z.of_nat additional_length then fail
  else set_length (len r + additional_length).

Definition _dbus_string_shorten (length_to_remove : nat) : SM unit :=
  asserting (λ n, length_to_remove <=? n)%nat;;
  r ← gets id; set_length (len r - length_to_remove).

(** The insertion point after alignment is the result. *)
Definition align_insert_point_then_open_gap (insert_at alignment gap_size : nat) : SM nat :=
  assert_ ((1 <=? alignment) && (alignment <=? 8))%nat;;
  asserting (λ n, insert_at <=? n)%nat;;
  r ← gets id;
  let gap_pos := align_up insert_at alignment in
  let new_len := (len r + (gap_pos - insert_at) + gap_size)%nat in
  if max_length r <? Z.of_nat new_len then fail
  else
    let delta := (new_len - len r)%nat in
    if (delta =? 0)%nat then mret insert_at
    else
      open_gap delta insert_at;;
      (if (gap_size <? delta)%nat
       then store (λ b, mem_write b insert_at (replicate (gap_pos - insert_at) x00))
       else mret tt);;
      mret gap_pos.

Definition align_length_then_lengthen (alignment then_lengthen_by : nat) : SM nat :=
  r ← gets id; align_insert_point_then_open_gap (len r) alignment then_lengthen_by.

Definition _dbus_string_align_length (alignment : nat) : SM unit :=
  align_length_then_lengthen alignment 0;; mret tt.

(** [append (real, buffer, buffer_len)]. *)
Definition append (buffer : bytes) : SM unit :=
  if (length buffer =? 0)%nat then mret tt
  else
    _dbus_string_lengthen (length buffer);;
    r ← gets id;
    store (λ b, mem_write b (len r - length buffer) buffer).

Definition _dbus_string_append_byte (b : byte) : SM unit :=
  r ← gets id;
  set_length (len r + 1);;
  r' ← gets id;
  store (λ buf, mem_write buf (len r' - 1) [b]).

(** [_dbus_string_insert_2_aligned], [_4_aligned] and [_8_aligned] differ in the
    number of octets, which is also the alignment. *)
Definition insert_aligned (insert_at : nat) (octets : bytes) : SM unit :=
  at_ ← align_insert_point_then_open_gap insert_at (length octets) (length octets);
  store (λ b, mem_write b at_ octets).

Definition _dbus_string_insert_alignment (insert_at alignment : nat) : SM nat :=
  align_insert_point_then_open_gap insert_at alignment 0.

Definition delete (start n : nat) : SM unit :=
  if (n =? 0)%nat then mret tt
  else
    r ← gets id;
    store (λ b, memmove b start (start + n) (len r - (start + n)));;
    set_len (len r - n);;
    store (λ b, mem_write b (len r - n) [x00]).

Definition _dbus_string_delete (start n : nat) : SM unit :=
  asserting (λ l, start + n <=? l)%nat;;
  delete start n.

(** [copy]: the state is [dest]. *)
Definition copy (source : DBusRealString) (start n insert_at : nat) : SM unit :=
  if (n =? 0)%nat then mret tt
  else
    open_gap n insert_at;;
    bs ← checked (mem_read (str source) start n);
    store (λ b, mem_write b insert_at bs).

Definition _dbus_string_copy_len (source : DBusRealString) (start n insert_at : nat) : SM unit :=
  asserting (λ l, insert_at <=? l)%nat;;
  assert_ (start + n <=? len source)%nat;;
  copy source start n insert_at.

Definition _dbus_string_copy (source : DBusRealString) (start insert_at : nat) : SM unit :=
  assert_ (start <=? len source)%nat;;
  asserting (λ l, insert_at <=? l)%nat;;
  copy source start (len source - start) insert_at.

Definition _dbus_string_replace_len (source : DBusRealString)
    (start n replace_at replace_len : nat) : SM unit :=
  asserting (λ l, replace_at <=? l)%nat;;
  assert_ (start + n <=? len source)%nat;;
  copy source start n replace_at;;
  delete (replace_at + n) replace_len.

(** Run an operation on one component of a pair of strings. *)
Definition on_source {A} (c : SM A) : M (DBusRealString * DBusRealString) A := λ '(s, d) m,
  match c s m with
  | Ok a s' m' => Ok a (s', d) m'
  | Failed s' m' => Failed (s', d) m'
  | Ub => Ub
  end.

Definition on_dest {A} (c : SM A) : M (DBusRealString * DBusRealString) A := λ '(s, d) m,
  match c d m with
  | Ok a d' m' => Ok a (s, d') m'
  | Failed d' m' => Failed (s, d') m'
  | Ub => Ub
  end.

(** The state is [(source, dest)]; swapping the buffers exchanges everything
    but [max_length]. *)
Definition _dbus_string_move_len (start n insert_at : nat) :
    M (DBusRealString * DBusRealString) unit :=
  sd ← gets id;
  let '(s, d) := sd in
  assert_ ((start + n <=? len s) && (insert_at <=? len d))%nat;;
  if (n =? 0)%nat then mret tt
  else
    if ((start =? 0) && (n =? len s) && (len d =? 0))%nat then
      put (Real (str d) (len d) (max_length s), Real (str s) (len s) (max_length d))
    else
      on_dest (copy s start n insert_at);;
      on_source (delete start n).

Definition _dbus_string_move (start insert_at : nat) :
    M (DBusRealString * DBusRealString) unit :=
  sd ← gets id;
  assert_ (start <=? len (fst sd))%nat;;
  _dbus_string_move_len start (len (fst sd) - start) insert_at.

(** ** Representation invariant *)

Definition wf (r : DBusRealString) : Prop :=
  max_length r = _DBUS_STRING_MAX_MAX_LENGTH
  ∧ zlen r <= allocated r - _DBUS_STRING_ALLOCATION_PADDING
  ∧ allocated r <= _DBUS_STRING_MAX_MAX_LENGTH + _DBUS_STRING_ALLOCATION_PADDING
  ∧ str r !! len r = Some x00.

(** [r] represents the string [t]. *)
Definition is_str (t : bytes) (r : DBusRealString) : Prop := wf r ∧ contents r = t.

Definition too_long (t : bytes) : Prop := _DBUS_STRING_MAX_MAX_LENGTH < Z.of_nat (length t).

(** The contract of an operation that turns [t] into [t'] with result [a]: it
    stays inside the block, it does what it says or reports failure leaving [t],
    and it fails only when the allocator does or [t'] is too long. *)
Definition op_spec {A} (t : bytes) (c : SM A) (a : A) (t' : bytes) : Prop :=
  hoare (is_str t) c (λ a' r', a' = a ∧ is_str t' r') (is_str t) (too_long t').

(** A string that can be read as [t], constant or not. *)
Definition readable (t : bytes) (r : DBusRealString) : Prop :=
  (len r <= length (str r))%nat ∧ contents r = t.

(** ** Lemmas on blocks and contents *)

Lemma is_str_length t r : is_str t r → length t = len r.
Proof.
  intros [(_ & Hl & _) <-]. unfold contents, zlen, allocated, _DBUS_STRING_ALLOCATION_PADDING in *.
  rewrite length_take. lia.
Qed.

Lemma is_str_readable t r : is_str t r → readable t r.
Proof.
  intros H. pose proof (is_str_length t r H). destruct H as [(_ & Hl & _) Hc]. split; [|done].
  unfold zlen, allocated, _DBUS_STRING_ALLOCATION_PADDING in *. lia.
Qed.

Lemma readable_const (value : bytes) n :
  (n <= length value)%nat → readable (take n value) (_dbus_string_init_const_len value n).
Proof. by split. Qed.

Lemma is_str_block t r : is_str t r → (length t + 8 <= length (str r))%nat.
Proof.
  intros H. rewrite (is_str_length t r H). destruct H as [(_ & Hl & _) _].
  unfold zlen, allocated, _DBUS_STRING_ALLOCATION_PADDING in *. lia.
Qed.

(** A write below the length. *)
Definition overwrite (t : bytes) (at_ : nat) (bs : bytes) : bytes :=
  take at_ t ++ bs ++ drop (at_ + length bs) t.

Lemma length_overwrite t at_ bs :
  (at_ + length bs <= length t)%nat → length (overwrite t at_ bs) = length t.
Proof. intros. unfold overwrite. rewrite !length_app, length_take, length_drop. lia. Qed.

Lemma take_overwrite n t at_ bs :
  (at_ + length bs <= n)%nat → (n <= length t)%nat →
  take n (overwrite t at_ bs) = overwrite (take n t) at_ bs.
Proof.
  intros H1 H2. unfold overwrite.
  rewrite take_app_ge by (rewrite length_take; lia). f_equal; [by rewrite take_take, Nat.min_l by lia|].
  rewrite length_take, Nat.min_l by lia.
  rewrite take_app_ge by lia. f_equal. rewrite skipn_firstn_comm. f_equal. lia.
Qed.

Lemma lookup_overwrite_ge t at_ bs i :
  (at_ + length bs <= i)%nat → (at_ + length bs <= length t)%nat →
  overwrite t at_ bs !! i = t !! i.
Proof.
  intros H1 H2. unfold overwrite.
  rewrite lookup_app_r by (rewrite length_take; lia).
  rewrite length_take, Nat.min_l by lia. rewrite lookup_app_r by lia.
  rewrite lookup_drop. f_equal. lia.
Qed.

Lemma store_write t at_ bs F L :
  (at_ + length bs <= length t)%nat →
  hoare (is_str t) (store (λ b, mem_write b at_ bs)) (λ _, is_str (overwrite t at_ bs)) F L.
Proof.
  intros Hat r m Hr. pose proof (is_str_block _ _ Hr) as Hb.
  pose proof (is_str_length _ _ Hr) as Hl. destruct Hr as [(W1 & W2 & W3 & W4) Hc].
  unfold store, gets, mbind, M_bind, mem_write, checked, put. simpl.
  rewrite (proj2 (Nat.leb_le _ _)) by lia. split; [|done].
  change (take at_ (str r) ++ bs ++ drop (at_ + length bs) (str r))
    with (overwrite (str r) at_ bs).
  split.
  - unfold wf, zlen, allocated in *. simpl. rewrite length_overwrite by lia.
    rewrite lookup_overwrite_ge by lia. done.
  - unfold contents in *. simpl. rewrite take_overwrite by lia. by rewrite Hc.
Qed.

Lemma length_sub_le (s : bytes) a n : (length (sub s a n) <= n)%nat.
Proof. unfold sub. rewrite length_take. lia. Qed.

Lemma sub_take_le (s : bytes) k a n : (a + n <= k)%nat → sub (take k s) a n = sub s a n.
Proof.
  intros. unfold sub. rewrite skipn_firstn_comm, take_take. f_equal. lia.
Qed.

Lemma store_memmove t dst src n F L :
  (dst + n <= length t)%nat → (src + n <= length t)%nat →
  hoare (is_str t) (store (λ b, memmove b dst src n))
    (λ _, is_str (overwrite t dst (sub t src n))) F L.
Proof.
  intros Hd Hs r m Hr. pose proof (is_str_block _ _ Hr) as Hb.
  pose proof (is_str_length _ _ Hr) as Hl.
  assert (sub t src n = sub (str r) src n) as Es.
  { destruct Hr as [_ <-]. unfold contents. apply sub_take_le. lia. }
  pose proof (store_write t dst (sub t src n) F L) as Hw.
  rewrite length_sub in Hw by lia. specialize (Hw Hd r m Hr).
  revert Hw. unfold store, gets, mbind, M_bind, memmove, mem_read, checked, put. simpl.
  rewrite (proj2 (Nat.leb_le (src + n) _)) by lia. simpl. by rewrite Es.
Qed.

(** ** The primitives *)

Lemma take_overwrite_at (b : bytes) n bs :
  (n <= length b)%nat → take n (overwrite b n bs) = take n b.
Proof.
  intros. unfold overwrite. rewrite take_app_le by (rewrite length_take; lia).
  by rewrite take_take, Nat.min_id.
Qed.

(** Setting the length inside the block and writing the nul. *)
Lemma set_len_nul n r m :
  max_length r = _DBUS_STRING_MAX_MAX_LENGTH →
  Z.of_nat n <= allocated r - _DBUS_STRING_ALLOCATION_PADDING →
  allocated r <= _DBUS_STRING_MAX_MAX_LENGTH + _DBUS_STRING_ALLOCATION_PADDING →
  ∃ r', (set_len n;; store (λ b, mem_write b n [x00])) r m = Ok tt r' m
        ∧ is_str (take n (str r)) r'.
Proof.
  intros Hm Hn Ha. unfold allocated, _DBUS_STRING_ALLOCATION_PADDING in *.
  exists (Real (overwrite (str r) n [x00]) n (max_length r)). split.
  - unfold set_len, store, gets, put, checked, mbind, M_bind, mem_write. simpl.
    by rewrite (proj2 (Nat.leb_le _ _)) by lia.
  - split; [|unfold contents; simpl; by rewrite take_overwrite_at by lia].
    unfold wf, zlen, allocated, _DBUS_STRING_ALLOCATION_PADDING. simpl.
    rewrite length_overwrite by (simpl; lia). repeat split; try lia.
    unfold overwrite. rewrite lookup_app_r by (rewrite length_take; lia).
    rewrite length_take, Nat.min_l, Nat.sub_diag by lia. done.
Qed.

(** Growing or shrinking keeps the common prefix; what is behind it is
    unspecified. *)
Lemma set_length_ok n t :
  hoare (is_str t) (set_length n)
    (λ _ r', ∃ j, is_str (take n t ++ j) r' ∧ length (take n t ++ j) = n)
    (is_str t) (_DBUS_STRING_MAX_MAX_LENGTH < Z.of_nat n).
Proof.
  intros r m Hr. pose proof (is_str_length _ _ Hr) as Hl. pose proof (is_str_block _ _ Hr) as Hb.
  destruct Hr as [(W1 & W2 & W3 & W4) Hc].
  assert (∀ pad m1, (may_fail m1 → may_fail m) →
    Z.of_nat n <= Z.of_nat (length (str r ++ pad)) - _DBUS_STRING_ALLOCATION_PADDING →
    Z.of_nat (length (str r ++ pad)) <= _DBUS_STRING_MAX_MAX_LENGTH + _DBUS_STRING_ALLOCATION_PADDING →
    match (set_len n;; store (λ b, mem_write b n [x00])) (Real (str r ++ pad) (len r) (max_length r)) m1 with
    | Ok _ r' m' => (∃ j, is_str (take n t ++ j) r' ∧ length (take n t ++ j) = n) ∧ (may_fail m' → may_fail m)
    | Failed r' m' => is_str t r' ∧ (may_fail m ∨ _DBUS_STRING_MAX_MAX_LENGTH < Z.of_nat n)
    | Ub => False
    end) as Hfin.
  { intros pad m1 Hm H1 H2.
    destruct (set_len_nul n (Real (str r ++ pad) (len r) (max_length r)) m1) as (r' & -> & Hr'); [done..|].
    split; [|done]. simpl in Hr'. subst t.
    assert (n <= length (str r ++ pad))%nat by (unfold _DBUS_STRING_ALLOCATION_PADDING in *; lia).
    exists (drop (length (take n (contents r))) (take n (str r ++ pad))).
    assert (take n (contents r) = take (length (take n (contents r))) (take n (str r ++ pad))) as E.
    { unfold contents. rewrite !take_take, length_take.
      rewrite take_app_le by (unfold _DBUS_STRING_ALLOCATION_PADDING in *; lia).
      rewrite <- (take_take (str r) (Nat.min (Nat.min n (len r)) (length (str r))) n).
      rewrite !take_take. f_equal. lia. }
    rewrite E at 1 3. rewrite take_drop. split; [done|]. rewrite length_take. lia. }
  unfold set_length, gets, mbind at 1, M_bind at 1. simpl. rewrite W1.
  destruct (_DBUS_STRING_MAX_MAX_LENGTH <? Z.of_nat n) eqn:Emax.
  { unfold fail. split; [|right; lia]. split; [|done]. by repeat split. }
  destruct (allocated r - _DBUS_STRING_ALLOCATION_PADDING <? Z.of_nat n) eqn:Ea.
  - unfold reallocate_for_length, mbind at 1, M_bind at 1.
    set (na := Z.max _ _). destruct (alloc m) as [ok m1] eqn:Em.
    destruct ok; [|split; [by repeat split|left; eapply alloc_fail; done]].
    apply Hfin; [eapply alloc_mono; done|..];
      rewrite length_app, length_replicate; unfold allocated in *; subst na;
      unfold _DBUS_STRING_ALLOCATION_PADDING, _DBUS_STRING_MAX_MAX_LENGTH in *;
      destruct (_ <? Z.of_nat (length (str r))) eqn:Eb; lia.
  - specialize (Hfin [] m). rewrite app_nil_r in Hfin. unfold allocated in *.
    destruct r as [b l mx]. simpl in *. apply Hfin; [done|lia|lia].
Qed.

Lemma hoare_is_str_eq {A} t r (c : SM A) Q F L :
  is_str t r → hoare (is_str t) c Q F L → hoare (λ s, s = r) c Q F L.
Proof. intros Hr H. eapply hoare_conseq; [done| |done..]. by intros ? ->. Qed.

(** Moving the tail up over the gap. *)
Lemma overwrite_gap (t j : bytes) i n :
  (i <= length t)%nat → length j = n →
  overwrite (t ++ j) (i + n) (sub (t ++ j) i (length t - i))
  = take i t ++ take n (drop i (t ++ j)) ++ drop i t.
Proof.
  intros Hi Hj. unfold overwrite. rewrite length_sub by (rewrite length_app; lia).
  rewrite (drop_ge (t ++ j)) by (rewrite length_app; lia). rewrite app_nil_r.
  assert (sub (t ++ j) i (length t - i) = drop i t) as ->.
  { unfold sub. rewrite drop_app_le by lia. by rewrite take_app_length' by (rewrite length_drop; lia). }
  rewrite app_assoc. f_equal.
  rewrite <- (take_drop i (take (i + n) (t ++ j))). f_equal.
  - rewrite take_take, Nat.min_l by lia. by rewrite take_app_le by lia.
  - rewrite skipn_firstn_comm. f_equal. lia.
Qed.

Lemma open_gap_ok n i t :
  (i <= length t)%nat →
  hoare (is_str t) (open_gap n i)
    (λ _ r', ∃ g, length g = n ∧ is_str (take i t ++ g ++ drop i t) r')
    (is_str t) (_DBUS_STRING_MAX_MAX_LENGTH < Z.of_nat (length t + n)).
Proof.
  intros Hi. unfold open_gap. destruct (n =? 0)%nat eqn:En.
  { apply hoare_ret. intros r' H. exists []. rewrite app_nil_l, take_drop. split; [simpl; lia|done]. }
  apply hoare_gets. intros r Hr. pose proof (is_str_length _ _ Hr) as Hl.
  pose proof Hr as [(W1 & _) _]. rewrite W1. unfold zlen.
  destruct (_ - Z.of_nat (len r) <? Z.of_nat n) eqn:Em.
  { intros s m ->. split; [done|right; lia]. }
  eapply hoare_bind.
  { eapply hoare_is_str_eq; [done|]. eapply hoare_conseq; [apply set_length_ok|done|done|done|lia]. }
  intros []; cbv beta. apply hoare_exists_l. intros j. apply hoare_pure_r. intros Hj.
  rewrite take_ge in * by lia.
  apply hoare_gets. intros r' Hr'. pose proof (is_str_length _ _ Hr') as Hl'.
  rewrite length_app in *.
  replace (len r' - n - i)%nat with (length t - i)%nat by lia.
  eapply hoare_is_str_eq; [done|].
  eapply hoare_conseq; [apply (store_memmove (t ++ j)); rewrite length_app; lia|done| |done|done].
  intros [] s Hs. rewrite overwrite_gap in Hs by lia.
  exists (take n (drop i (t ++ j))). split; [|done].
  rewrite length_take, length_drop, length_app. lia.
Qed.

(** Filling the gap. *)
Lemma overwrite_fill (a g c bs : bytes) i :
  length a = i → length g = length bs → overwrite (a ++ g ++ c) i bs = a ++ bs ++ c.
Proof.
  intros <- Hg. unfold overwrite. rewrite take_app_length. f_equal. f_equal.
  rewrite <- Hg, app_assoc. by rewrite <- length_app, drop_app_length.
Qed.

Definition insert_at_ (t : bytes) (i : nat) (bs : bytes) : bytes := take i t ++ bs ++ drop i t.

Lemma length_insert_at t i bs : length (insert_at_ t i bs) = (length t + length bs)%nat.
Proof. unfold insert_at_. rewrite !length_app, length_take, length_drop. lia. Qed.

Lemma gap_fill_ok t i bs :
  (i <= length t)%nat →
  op_spec t (open_gap (length bs) i;; store (λ b, mem_write b i bs)) tt (insert_at_ t i bs).
Proof.
  intros Hi. eapply hoare_bind.
  { eapply hoare_conseq; [by apply open_gap_ok|done|done|done|].
    unfold too_long. by rewrite length_insert_at. }
  intros []; cbv beta. apply hoare_exists_l. intros g. apply hoare_pure_l. intros Hg.
  eapply hoare_conseq; [apply store_write|done| |done|done].
  - rewrite !length_app, length_take, length_drop. lia.
  - intros [] r Hr. rewrite overwrite_fill in Hr by (rewrite ?length_take; lia). done.
Qed.

(** ** The operations *)

Lemma asserting_rule {A} t (p : nat → bool) (c : SM A) Q F L :
  p (length t) = true → hoare (is_str t) c Q F L → hoare (is_str t) (asserting p;; c) Q F L.
Proof.
  intros Hp Hc r m Hr. unfold asserting, gets, assert_, mbind, M_bind. cbn [id].
  rewrite <- (is_str_length _ _ Hr), Hp. by apply Hc.
Qed.

Lemma set_byte_ok a c z b F L :
  hoare (is_str (a ++ c :: z)) (_dbus_string_set_byte (length a) b) (λ _, is_str (a ++ b :: z)) F L.
Proof.
  apply asserting_rule; [apply Nat.ltb_lt; rewrite length_app; simpl; lia|].
  eapply hoare_conseq; [apply (store_write (a ++ c :: z) (length a) [b]); rewrite length_app; simpl; lia|done| |
    intros s H; exact H|intros H; exact H].
  intros [] r Hr. by rewrite (overwrite_fill a [c] z) in Hr.
Qed.

Lemma get_byte_in i r : (i <= len r)%nat → _dbus_string_get_byte i r = Some (byte_at (str r) i).
Proof. intros Hi. unfold _dbus_string_get_byte. by rewrite (proj2 (Nat.leb_le _ _)). Qed.

Lemma get_byte_ok a c z r : is_str (a ++ c :: z) r → _dbus_string_get_byte (length a) r = Some c.
Proof.
  intros Hr. pose proof (is_str_length _ _ Hr) as Hl. rewrite length_app in Hl. simpl in Hl.
  rewrite get_byte_in by lia. f_equal. unfold byte_at. destruct Hr as [_ Hc]. unfold contents in Hc.
  rewrite <- (take_drop (len r) (str r)), Hc, <- app_assoc. simpl.
  by rewrite app_nth2, Nat.sub_diag by lia.
Qed.

Lemma alignment_bounded a : is_alignment a → ((1 <=? a) && (a <=? 8))%nat = true.
Proof.
  unfold is_alignment. rewrite !elem_of_cons.
  by intros [-> | [-> | [-> | [-> | ?%not_elem_of_nil]]]].
Qed.

Lemma op_spec_ret t : op_spec t (mret tt) tt t.
Proof. by apply hoare_ret. Qed.

Lemma insert_bytes_ok t i n b :
  (i <= length t)%nat →
  op_spec t (_dbus_string_insert_bytes i n b) tt (insert_at_ t i (replicate n b)).
Proof.
  intros Hi. apply asserting_rule; [by apply Nat.leb_le|]. destruct (n =? 0)%nat eqn:En.
  { replace n with 0%nat by lia. unfold insert_at_. simpl. rewrite take_drop. apply op_spec_ret. }
  pose proof (gap_fill_ok t i (replicate n b) Hi) as H. by rewrite length_replicate in H.
Qed.

Lemma insert_byte_ok t i b :
  (i <= length t)%nat → op_spec t (_dbus_string_insert_byte i b) tt (insert_at_ t i [b]).
Proof.
  intros Hi. apply asserting_rule; [by apply Nat.leb_le|]. by apply (gap_fill_ok t i [b]).
Qed.

Lemma copy_ok ts source t start n i :
  readable ts source → (start + n <= length ts)%nat → (i <= length t)%nat →
  op_spec t (copy source start n i) tt (insert_at_ t i (sub ts start n)).
Proof.
  intros Hs Hn Hi. unfold copy. destruct (n =? 0)%nat eqn:En.
  { replace n with 0%nat by lia. unfold insert_at_, sub. simpl. rewrite take_drop. apply op_spec_ret. }
  destruct Hs as [Hb Hc]. assert (length ts = len source) as Hl
    by (rewrite <- Hc; unfold contents; rewrite length_take; lia).
  assert (mem_read (str source) start n = Some (sub ts start n)) as ->.
  { unfold mem_read. rewrite (proj2 (Nat.leb_le _ _)) by lia. f_equal.
    rewrite <- Hc. symmetry. apply sub_take_le. lia. }
  pose proof (gap_fill_ok t i (sub ts start n) Hi) as H. rewrite length_sub in H by lia.
  exact H.
Qed.

Lemma copy_len_ok ts source t start n i :
  readable ts source → (start + n <= length ts)%nat → (i <= length t)%nat →
  op_spec t (_dbus_string_copy_len source start n i) tt (insert_at_ t i (sub ts start n)).
Proof.
  intros Hs Hn Hi. apply asserting_rule; [by apply Nat.leb_le|].
  apply hoare_assert; [apply Nat.leb_le|by apply copy_ok].
  destruct Hs as [Hb <-]. unfold contents in Hn. rewrite length_take in Hn. lia.
Qed.

Lemma shift_down (t : bytes) s n :
  (s + n <= length t)%nat →
  take (length t - n) (overwrite t s (sub t (s + n) (length t - (s + n))))
  = take s t ++ drop (s + n) t.
Proof.
  intros H. unfold overwrite.
  assert (sub t (s + n) (length t - (s + n)) = drop (s + n) t) as ->.
  { unfold sub. rewrite take_ge; [done|rewrite length_drop; lia]. }
  rewrite app_assoc, take_app_length'; [done|].
  rewrite length_app, length_take, length_drop. lia.
Qed.

Lemma delete_ok t s n L :
  (s + n <= length t)%nat →
  hoare (is_str t) (delete s n) (λ _, is_str (take s t ++ drop (s + n) t)) (λ _, False) L.
Proof.
  intros Hn. unfold delete. destruct (n =? 0)%nat eqn:En.
  { apply hoare_ret. intros r Hr. replace n with 0%nat by lia. by rewrite Nat.add_0_r, take_drop. }
  apply hoare_gets. intros r Hr. pose proof (is_str_length _ _ Hr) as Hl. rewrite <- Hl.
  eapply hoare_bind.
  { eapply hoare_is_str_eq; [done|]. apply (store_memmove t); lia. }
  intros []; cbv beta. intros r1 m Hr1.
  pose proof (is_str_block _ _ Hr1) as Hb1. pose proof (is_str_length _ _ Hr1) as Hl1.
  rewrite length_overwrite in * by (rewrite length_sub; lia).
  destruct Hr1 as [(W1 & _ & W3 & _) Hc1].
  destruct (set_len_nul (length t - n) r1 m) as (r2 & -> & Hr2); [done| |done|].
  { unfold allocated, _DBUS_STRING_ALLOCATION_PADDING. lia. }
  split; [|done]. rewrite <- shift_down by lia. rewrite <- Hc1.
  unfold contents. by rewrite take_take, <- Hl1, Nat.min_l by lia.
Qed.

Lemma copy_whole_ok ts source t i :
  readable ts source → (i <= length t)%nat →
  op_spec t (_dbus_string_copy source 0 i) tt (insert_at_ t i ts).
Proof.
  intros Hs Hi. unfold _dbus_string_copy. apply hoare_assert; [done|].
  apply asserting_rule; [by apply Nat.leb_le|]. pose proof Hs as [Hb Hc].
  assert (len source = length ts) as El by (rewrite <- Hc; unfold contents; rewrite length_take; lia).
  pose proof (copy_ok ts source t 0 (length ts) i Hs ltac:(lia) Hi) as Hk.
  by rewrite sub_all, <- El in Hk; rewrite Nat.sub_0_r.
Qed.

Lemma string_delete_ok t s n L :
  (s + n <= length t)%nat →
  hoare (is_str t) (_dbus_string_delete s n) (λ _, is_str (take s t ++ drop (s + n) t)) (λ _, False) L.
Proof. intros Hn. apply asserting_rule; [by apply Nat.leb_le|by apply delete_ok]. Qed.

(** Growing at the end. *)
Lemma grow_ok t n r :
  is_str t r →
  hoare (λ s, s = r) (set_length (len r + n))
    (λ _ r', ∃ j, length j = n ∧ is_str (t ++ j) r')
    (is_str t) (_DBUS_STRING_MAX_MAX_LENGTH < Z.of_nat (length t + n)).
Proof.
  intros Hr. rewrite <- (is_str_length _ _ Hr). eapply hoare_is_str_eq; [done|].
  eapply hoare_conseq; [apply set_length_ok|done| |done|done].
  intros [] s (j & Hj & Hn). rewrite take_ge in * by lia. exists j.
  rewrite length_app in Hn. split; [lia|done].
Qed.

Lemma lengthen_ok t n :
  hoare (is_str t) (_dbus_string_lengthen n)
    (λ _ r', ∃ j, length j = n ∧ is_str (t ++ j) r')
    (is_str t) (_DBUS_STRING_MAX_MAX_LENGTH < Z.of_nat (length t + n)).
Proof.
  apply hoare_gets. intros r Hr. pose proof (is_str_length _ _ Hr) as Hl.
  pose proof Hr as [(W1 & _) _]. rewrite W1. unfold zlen.
  destruct (_ - Z.of_nat (len r) <? Z.of_nat n) eqn:Em.
  { intros s m ->. split; [done|right; lia]. }
  by apply grow_ok.
Qed.

(** Writing over the bytes just added at the end. *)
Lemma fill_end t j bs r F L :
  is_str (t ++ j) r → length j = length bs →
  hoare (λ s, s = r) (store (λ b, mem_write b (len r - length bs) bs))
    (λ a r', a = tt ∧ is_str (t ++ bs) r') F L.
Proof.
  intros Hr Hj. pose proof (is_str_length _ _ Hr) as Hl. rewrite length_app in Hl.
  replace (len r - length bs)%nat with (length t) by lia.
  eapply hoare_is_str_eq; [done|].
  eapply hoare_conseq; [apply (store_write (t ++ j) (length t) bs); rewrite length_app; lia|done| |done|done].
  intros [] s Hs. split; [done|]. rewrite <- (app_nil_r (t ++ bs)), <- app_assoc.
  rewrite <- (app_nil_r (t ++ j)), <- app_assoc, overwrite_fill in Hs; done.
Qed.

Lemma too_long_app t bs :
  _DBUS_STRING_MAX_MAX_LENGTH < Z.of_nat (length t + length bs) → too_long (t ++ bs).
Proof. unfold too_long. rewrite length_app. lia. Qed.

Lemma append_ok t bs : op_spec t (append bs) tt (t ++ bs).
Proof.
  unfold append. destruct (length bs =? 0)%nat eqn:En.
  { destruct bs; [|simpl in *; lia]. rewrite app_nil_r. apply op_spec_ret. }
  eapply hoare_bind.
  { eapply hoare_conseq; [apply (lengthen_ok t)|done|done|done|apply too_long_app]. }
  intros []; cbv beta. apply hoare_gets. intros r (j & Hj & Hr). by apply (fill_end t j).
Qed.

Lemma append_byte_ok t b : op_spec t (_dbus_string_append_byte b) tt (t ++ [b]).
Proof.
  apply hoare_gets. intros r Hr. eapply hoare_bind.
  { eapply hoare_conseq; [by apply (grow_ok t 1)|done|done|done|apply (too_long_app t [b])]. }
  intros []; cbv beta. apply hoare_gets. intros r' (j & Hj & Hr'). by apply (fill_end t j [b]).
Qed.

(** Shrinking does not ask the allocator and cannot fail. *)
Lemma set_length_shrink n t r m :
  is_str t r → (n <= length t)%nat →
  ∃ r', set_length n r m = Ok tt r' m ∧ is_str (take n t) r'.
Proof.
  intros Hr Hn. pose proof (is_str_block _ _ Hr) as Hb. pose proof (is_str_length _ _ Hr) as Hl.
  destruct Hr as [(W1 & W2 & W3 & W4) Hc].
  destruct (set_len_nul n r m) as (r' & Hr' & Hs); [done| |done|].
  { unfold zlen in *. lia. }
  exists r'. unfold set_length, gets, mbind at 1, M_bind at 1. simpl. rewrite W1.
  rewrite (proj2 (Z.ltb_ge _ _)), (proj2 (Z.ltb_ge _ _)).
  - split; [exact Hr'|]. rewrite <- Hc. unfold contents. by rewrite take_take, Nat.min_l by lia.
  - unfold zlen in *. lia.
  - unfold allocated, zlen in *. lia.
Qed.

(** Aligning the insertion point and opening a gap. *)
Definition padding (i a : nat) : bytes := replicate (align_up i a - i) x00.

Lemma align_gap_ok t i a n :
  (i <= length t)%nat → is_alignment a →
  hoare (is_str t) (align_insert_point_then_open_gap i a n)
    (λ p r', p = align_up i a
       ∧ ∃ g, length g = n ∧ is_str (take i t ++ (padding i a ++ g) ++ drop i t) r')
    (is_str t)
    (_DBUS_STRING_MAX_MAX_LENGTH < Z.of_nat (length t + (align_up i a - i) + n)).
Proof.
  intros Hi Ha. destruct (align_up_spec i a Ha) as [Hal _]. unfold padding.
  apply hoare_assert; [by apply alignment_bounded|].
  apply asserting_rule; [by apply Nat.leb_le|].
  apply hoare_gets. intros r Hr. pose proof Hr as [(W1 & _) _]. rewrite W1.
  cbv zeta. rewrite <- (is_str_length _ _ Hr). set (pad := (align_up i a - i)%nat).
  destruct (_DBUS_STRING_MAX_MAX_LENGTH <? _) eqn:Em.
  { intros s m ->. split; [done|right; lia]. }
  replace (length t + pad + n - length t)%nat with (pad + n)%nat by lia.
  destruct (pad + n =? 0)%nat eqn:En.
  { apply hoare_ret. intros s ->. split; [lia|]. exists []. split; [simpl; lia|].
    replace pad with 0%nat by lia. simpl. by rewrite take_drop. }
  eapply hoare_bind.
  { eapply hoare_is_str_eq; [done|].
    eapply hoare_conseq; [by apply (open_gap_ok (pad + n) i t)|done|done|done|lia]. }
  intros []; cbv beta. apply hoare_exists_l. intros g. apply hoare_pure_l. intros Hg.
  eapply (hoare_bind _ _ _ (λ _ r', ∃ g', length g' = n
     ∧ is_str (take i t ++ (replicate pad x00 ++ g') ++ drop i t) r')).
  - destruct (n <? pad + n)%nat eqn:Ep.
    + rewrite <- (take_drop pad g), <- app_assoc.
      eapply hoare_conseq; [apply store_write|done| |done|done].
      * rewrite length_replicate, !length_app, !length_take, !length_drop. lia.
      * intros [] s Hs. exists (drop pad g). split; [rewrite length_drop; lia|].
        rewrite overwrite_fill in Hs by (rewrite ?length_replicate, length_take; lia).
        by rewrite <- app_assoc.
    + apply hoare_ret. intros s Hs. exists g. split; [lia|].
      replace pad with 0%nat by lia. done.
  - intros []. apply hoare_ret. intros s Hs. split; done.
Qed.

Lemma length_padding i a : length (padding i a) = (align_up i a - i)%nat.
Proof. apply length_replicate. Qed.

Lemma insert_aligned_ok t i octets :
  (i <= length t)%nat → is_alignment (length octets) →
  op_spec t (insert_aligned i octets) tt
    (insert_at_ t i (padding i (length octets) ++ octets)).
Proof.
  intros Hi Ha. destruct (align_up_spec i _ Ha) as [Hal _]. eapply hoare_bind.
  { eapply hoare_conseq; [by apply align_gap_ok|done|done|done|].
    unfold too_long. rewrite length_insert_at, length_app, length_padding. lia. }
  intros p; cbv beta. apply hoare_pure_l. intros ->. apply hoare_exists_l. intros g. apply hoare_pure_l.
  intros Hg. rewrite <- app_assoc, (app_assoc (take i t)).
  eapply hoare_conseq; [apply store_write|done| |done|done].
  - rewrite !length_app, length_padding, length_take, length_drop. lia.
  - intros [] s Hs. split; [done|]. unfold insert_at_. rewrite <- app_assoc.
    rewrite (app_assoc (take i t)). rewrite overwrite_fill in Hs; [done| |lia].
    rewrite length_app, length_take, length_padding. lia.
Qed.

(** Sequences of operations. *)
Lemma op_spec_seq {A B} t (c : SM A) a t1 (k : A → SM B) b t2 :
  op_spec t c a t1 → (too_long t1 → too_long t2) →
  (hoare (is_str t1) (k a) (λ b' r, b' = b ∧ is_str t2 r) (is_str t) (too_long t2)) →
  op_spec t (c ≫= k) b t2.
Proof.
  intros Hc HL Hk. eapply hoare_bind; [eapply hoare_conseq; [exact Hc|done..]|].
  intros a'; cbv beta. apply hoare_pure_l. by intros ->.
Qed.

Lemma too_long_prefix a b : too_long a → too_long (a ++ b).
Proof. unfold too_long. rewrite length_app. lia. Qed.

Lemma too_long_insert t i bs : too_long bs → too_long (insert_at_ t i bs).
Proof. unfold too_long. rewrite length_insert_at. lia. Qed.

(** ** Two strings *)

Definition both (ts td : bytes) (sd : DBusRealString * DBusRealString) : Prop :=
  is_str ts (fst sd) ∧ is_str td (snd sd).

Lemma is_str_swap ts s d :
  is_str ts s → max_length d = max_length s → is_str ts (Real (str s) (len s) (max_length d)).
Proof. intros [(W1 & W2) Hc] E. split; [|done]. split; [|done]. simpl. congruence. Qed.

Lemma insert_at_nil t i : insert_at_ t i [] = t.
Proof. apply take_drop. Qed.

Lemma move_len_ok ts td start n i :
  (start + n <= length ts)%nat → (i <= length td)%nat →
  hoare (both ts td) (_dbus_string_move_len start n i)
    (λ _, both (take start ts ++ drop (start + n) ts) (insert_at_ td i (sub ts start n)))
    (both ts td) (too_long (insert_at_ td i (sub ts start n))).
Proof.
  intros Hs Hi. apply hoare_gets. intros [s d] [HS HD]. simpl in HS, HD.
  pose proof (is_str_length _ _ HS) as Ls. pose proof (is_str_length _ _ HD) as Ld.
  pose proof HS as [(Ms & _) _]. pose proof HD as [(Md & _) _]. cbn iota.
  apply hoare_assert; [rewrite andb_true_iff, !Nat.leb_le; lia|]. destruct (n =? 0)%nat eqn:En.
  { apply hoare_ret. intros sd ->. replace n with 0%nat by lia. unfold sub. simpl.
    by rewrite Nat.add_0_r, take_drop, insert_at_nil. }
  destruct ((start =? 0) && (n =? len s) && (len d =? 0))%nat eqn:Esw.
  - intros sd m ->. split; [|done].
    assert (start = 0%nat) as -> by lia. assert (n = length ts) as -> by lia.
    destruct td; [|simpl in *; lia]. destruct i; [|simpl in *; lia].
    unfold insert_at_. simpl. rewrite sub_all, drop_all, app_nil_r.
    split; simpl; apply is_str_swap; done || congruence.
  - intros sd m ->. unfold mbind, M_bind, on_dest, on_source.
    pose proof (copy_ok ts s td start n i (is_str_readable _ _ HS) Hs Hi d m HD) as Hc.
    destruct (copy s start n i d m) as [[] d' m'|d' m'|]; [|destruct Hc; split; [by split|done]|done].
    destruct Hc as ((_ & HD') & Hm).
    pose proof (delete_ok ts start n False Hs s m' HS) as Hd.
    destruct (delete start n s m') as [[] s' m''|s' m''|]; [|by destruct Hd|done].
    destruct Hd as [Hd Hm']. split; [by split|auto].
Qed.

Lemma replace_len_ok ts source t start n at_ rl :
  readable ts source → (start + n <= length ts)%nat → (at_ + rl <= length t)%nat →
  hoare (is_str t) (_dbus_string_replace_len source start n at_ rl)
    (λ _, is_str (take at_ t ++ sub ts start n ++ drop (at_ + rl) t))
    (is_str t) (too_long (insert_at_ t at_ (sub ts start n))).
Proof.
  intros Hs Hn Hr. assert (length (sub ts start n) = n) as Hl by (apply length_sub; lia).
  apply asserting_rule; [apply Nat.leb_le; lia|].
  apply hoare_assert.
  { apply Nat.leb_le. destruct Hs as [Hb <-]. unfold contents in Hn. rewrite length_take in Hn. lia. }
  eapply (hoare_bind _ _ _ (λ _, is_str (insert_at_ t at_ (sub ts start n)))).
  { eapply hoare_conseq; [apply (copy_ok ts source t start n at_); done || lia|done| |done|done].
    by intros [] s [_ H]. }
  intros []; cbv beta.
  eapply hoare_conseq; [apply (delete_ok (insert_at_ t at_ (sub ts start n)) (at_ + n) rl False)|done| |done|done].
  - rewrite length_insert_at. lia.
  - intros [] s H. unfold insert_at_ in H. rewrite app_assoc in H.
    rewrite take_app_length' in H by (rewrite length_app, length_take; lia).
    rewrite drop_app_ge in H by (rewrite length_app, length_take; lia).
    rewrite drop_drop in H. rewrite <- app_assoc in H.
    replace (at_ + (at_ + n + rl - length (take at_ t ++ sub ts start n)))%nat with (at_ + rl)%nat in H
      by (rewrite length_app, length_take; lia). done.
Qed.

Lemma init_ok m :
  match _dbus_string_init m with
  | Ok _ r m' => is_str [] r ∧ (may_fail m' → may_fail m)
  | Failed _ _ => may_fail m
  | Ub => False
  end.
Proof.
  unfold _dbus_string_init, _dbus_string_init_preallocated.
  destruct (alloc m) as [ok m'] eqn:Em. destruct ok; [|by eapply alloc_fail].
  split; [|by eapply alloc_mono]. repeat split; vm_compute; congruence.
Qed.

(** The string of a concrete list of bytes. *)
Definition concrete (t : bytes) : DBusRealString :=
  Real (t ++ replicate 8 x00) (length t) _DBUS_STRING_MAX_MAX_LENGTH.

(** ** Theorems *)

(** [_dbus_string_move] takes the bytes from [start] on out of the source and
    inserts them into the destination, whether it exchanges the two buffers or
    copies; when it fails, for want of memory or of room, both strings are as
    before. *)
Theorem string_move_refines ts td start i :
  (start <= length ts)%nat → (i <= length td)%nat →
  hoare (both ts td) (_dbus_string_move start i)
    (λ _, both (take start ts) (insert_at_ td i (drop start ts)))
    (both ts td) (too_long (insert_at_ td i (drop start ts))).
Proof.
  intros Hs Hi. unfold _dbus_string_move. apply hoare_gets. intros [s d] [HS HD]. simpl in *.
  rewrite <- (is_str_length _ _ HS). apply hoare_assert; [by apply Nat.leb_le|].
  pose proof (move_len_ok ts td start (length ts - start) i ltac:(lia) Hi) as Hm.
  rewrite drop_ge, app_nil_r in Hm by lia.
  assert (sub ts start (length ts - start) = drop start ts) as Es.
  { unfold sub. apply take_ge. rewrite length_drop. lia. }
  rewrite Es in Hm. intros sd m ->. by apply Hm.
Qed.

Lemma string_move_refines_witness :
  hoare (both (lit "hello") (lit "abc")) (_dbus_string_move 2 1)
    (λ _, both (lit "he") (lit "allobc")) (both (lit "hello") (lit "abc")) (too_long (lit "allobc")).
Proof. apply (string_move_refines (lit "hello") (lit "abc") 2 1); vm_compute; lia. Defined.

(** [_dbus_string_replace_len] exchanges a range of the destination for a range
    of the source, and leaves the destination alone when it fails. *)
Theorem string_replace_refines ts source t start n at_ rl :
  is_str ts source → (start + n <= length ts)%nat → (at_ + rl <= length t)%nat →
  hoare (is_str t) (_dbus_string_replace_len source start n at_ rl)
    (λ _, is_str (take at_ t ++ sub ts start n ++ drop (at_ + rl) t))
    (is_str t) (too_long (insert_at_ t at_ (sub ts start n))).
Proof. intros Hs. apply replace_len_ok. by apply is_str_readable. Qed.

Lemma string_replace_refines_witness :
  hoare (is_str (lit "abcdef")) (_dbus_string_replace_len (concrete (lit "XYZ")) 1 2 1 4)
    (λ _, is_str (lit "aYZf")) (is_str (lit "abcdef")) (too_long (lit "aYZbcdef")).
Proof.
  apply (string_replace_refines (lit "XYZ") (concrete (lit "XYZ")) (lit "abcdef") 1 2 1 4);
    [repeat split; vm_compute; congruence|vm_compute; lia|vm_compute; lia].
Defined.
