(* ===== verification/Text.v ===== *)
(** * Text: hexadecimal and UTF-8

    Models [_dbus_string_append_byte_as_hex], [_dbus_string_hex_encode],
    [_dbus_string_hex_decode], the UTF-8 macros, [_dbus_string_append_unichar],
    [_dbus_string_get_unichar], [_dbus_string_validate_utf8],
    [_dbus_string_validate_ascii] and [_dbus_string_validate_nul] of
    src/dbus/dbus-string.c.  Hex decoding undoes encoding through the buffers of
    [DString]; the UTF-8 validator accepts exactly the encodings of sequences of
    allowed characters. *)

From S2P Require Import Prelude DString.

(** ** Hexadecimal *)

Definition hexdigits : bytes := lit "0123456789abcdef".

Definition _dbus_string_append_byte_as_hex (b : byte) : SM unit :=
  _dbus_string_append_byte (byte_at hexdigits (Z.to_nat (Z.shiftr (b2z b) 4)));;
  on_failure (_dbus_string_append_byte (byte_at hexdigits (Z.to_nat (Z.land (b2z b) 0x0f))))
    (r ← gets id; set_length (len r - 1)).

Fixpoint hex_encode_loop (p : bytes) : SM unit :=
  match p with
  | [] => mret tt
  | b :: p' => _dbus_string_append_byte_as_hex b;; hex_encode_loop p'
  end.

(** The digits are collected in a string of their own by [body], whose result
    is moved into [dest], the state. *)
Definition via_result {A} (body : SM A) (insert_at : nat) : SM A := λ dest m,
  match _dbus_string_init m with
  | Ok _ result m1 =>
      match body result m1 with
      | Ok a result' m2 =>
          match _dbus_string_move 0 insert_at (result', dest) m2 with
          | Ok _ sd m3 => Ok a (snd sd) m3
          | Failed sd m3 => Failed (snd sd) m3
          | Ub => Ub
          end
      | Failed _ m2 => Failed dest m2
      | Ub => Ub
      end
  | Failed _ m1 => Failed dest m1
  | Ub => Ub
  end.

Definition _dbus_string_hex_encode (source : DBusRealString) (start insert_at : nat) : SM unit :=
  via_result (hex_encode_loop (drop start (contents source))) insert_at.

Definition hex_val (c : byte) : option Z :=
  match c with
  | "f" | "F" => Some 15 | "e" | "E" => Some 14 | "d" | "D" => Some 13
  | "c" | "C" => Some 12 | "b" | "B" => Some 11 | "a" | "A" => Some 10
  | "9" => Some 9 | "8" => Some 8 | "7" => Some 7 | "6" => Some 6 | "5" => Some 5
  | "4" => Some 4 | "3" => Some 3 | "2" => Some 2 | "1" => Some 1 | "0" => Some 0
  | _ => None
  end%byte.

(** The result is the offset of the first byte that is not a digit. *)
Fixpoint hex_decode_loop (p : bytes) (high_bits : bool) (offset : nat) : SM nat :=
  match p with
  | [] => mret offset
  | c :: p' =>
      match hex_val c with
      | None => mret offset
      | Some val =>
          (if high_bits then _dbus_string_append_byte (z2b (Z.shiftl val 4))
           else
             r ← gets id;
             b ← checked (_dbus_string_get_byte (len r - 1) r);
             _dbus_string_set_byte (len r - 1) (z2b (Z.lor (b2z b) val)));;
          hex_decode_loop p' (negb high_bits) (S offset)
      end
  end.

Definition _dbus_string_hex_decode (source : DBusRealString) (start insert_at : nat) : SM nat :=
  via_result (hex_decode_loop (drop start (contents source)) true start) insert_at.

(** *** Reference definitions *)

Definition hex_of_byte (b : byte) : bytes :=
  [byte_at hexdigits (Z.to_nat (Z.shiftr (b2z b) 4));
   byte_at hexdigits (Z.to_nat (Z.land (b2z b) 0x0f))].

Definition hex_of (s : bytes) : bytes := flat_map hex_of_byte s.

(** The longest prefix of digits, two by two; a last odd digit fills the high
    half of a byte. *)
Fixpoint unhex (p : bytes) : bytes :=
  match p with
  | [] => []
  | c :: p1 =>
      match hex_val c with
      | None => []
      | Some hi =>
          match p1 with
          | [] => [z2b (Z.shiftl hi 4)]
          | d :: p2 =>
              match hex_val d with
              | None => [z2b (Z.shiftl hi 4)]
              | Some lo => z2b (Z.lor (Z.shiftl hi 4) lo) :: unhex p2
              end
          end
      end
  end.

Fixpoint hex_span (p : bytes) : nat :=
  match p with
  | c :: p' => match hex_val c with Some _ => S (hex_span p') | None => 0 end
  | [] => 0
  end%nat.

(** *** Lemmas *)

Lemma hex_digits_round b :
  ∃ hi lo, hex_val (byte_at hexdigits (Z.to_nat (Z.shiftr (b2z b) 4))) = Some hi
         ∧ hex_val (byte_at hexdigits (Z.to_nat (Z.land (b2z b) 0x0f))) = Some lo
         ∧ z2b (Z.lor (Z.shiftl hi 4) lo) = b.
Proof.
  pose proof (byte_enum (λ b,
    match hex_val (byte_at hexdigits (Z.to_nat (Z.shiftr (b2z b) 4))),
          hex_val (byte_at hexdigits (Z.to_nat (Z.land (b2z b) 0x0f))) with
    | Some hi, Some lo => z2b (Z.lor (Z.shiftl hi 4) lo) =b b
    | _, _ => false
    end) ltac:(vm_compute; reflexivity) b) as H. cbv beta in H.
  destruct (hex_val _) as [hi|]; [|done]. destruct (hex_val _) as [lo|]; [|done].
  exists hi, lo. by apply byte_eqb_eq in H.
Qed.

Lemma unhex_hex s : unhex (hex_of s) = s.
Proof.
  induction s as [|b s IH]; [done|]. unfold hex_of. simpl. fold (hex_of s).
  destruct (hex_digits_round b) as (hi & lo & -> & -> & ->). by rewrite IH.
Qed.

Lemma hex_span_hex s : hex_span (hex_of s) = length (hex_of s).
Proof.
  induction s as [|b s IH]; [done|]. unfold hex_of. simpl. fold (hex_of s).
  destruct (hex_digits_round b) as (hi & lo & -> & -> & _). by rewrite IH.
Qed.

Lemma hex_val_range c v : hex_val c = Some v → 0 <= v < 16.
Proof.
  intros H. pose proof (byte_enum (λ c, match hex_val c with
    | Some v => (0 <=? v) && (v <? 16) | None => true end)
    ltac:(vm_compute; reflexivity) c) as E. cbv beta in E. rewrite H in E. lia.
Qed.

Lemma nibble_or hi lo :
  0 <= hi < 16 → 0 <= lo < 16 →
  z2b (Z.lor (b2z (z2b (Z.shiftl hi 4))) lo) = z2b (Z.lor (Z.shiftl hi 4) lo).
Proof.
  intros H1 H2. rewrite b2z_z2b, Z.mod_small; [done|].
  rewrite Z.shiftl_mul_pow2 by lia. lia.
Qed.

Lemma append_byte_as_hex_ok t b :
  op_spec t (_dbus_string_append_byte_as_hex b) tt (t ++ hex_of_byte b).
Proof.
  unfold hex_of_byte. set (h := byte_at _ _) at 1. set (l := byte_at _ (Z.to_nat (Z.land _ _))).
  replace (t ++ [h; l]) with ((t ++ [h]) ++ [l]) by (by rewrite <- app_assoc).
  eapply op_spec_seq; [apply append_byte_ok|apply too_long_prefix|].
  eapply hoare_on_failure; [apply append_byte_ok|].
  intros r m Hr. unfold gets, mbind, M_bind. simpl.
  destruct (set_length_shrink (len r - 1) _ r m Hr) as (r' & -> & Hr').
  { rewrite (is_str_length _ _ Hr). lia. }
  rewrite <- (is_str_length _ _ Hr), length_app in Hr'. simpl length in Hr'.
  replace (length t + 1 - 1)%nat with (length t) in Hr' by lia.
  by rewrite take_app_length in Hr'.
Qed.

Lemma hex_encode_loop_ok p t :
  hoare (is_str t) (hex_encode_loop p) (λ _, is_str (t ++ hex_of p))
    (λ _, True) (too_long (t ++ hex_of p)).
Proof.
  revert t. induction p as [|b p IH]; intros t.
  { apply hoare_ret. intros r. unfold hex_of. simpl. by rewrite app_nil_r. }
  change (hex_of (b :: p)) with (hex_of_byte b ++ hex_of p). cbn [hex_encode_loop].
  rewrite (app_assoc t (hex_of_byte b)).
  eapply hoare_bind; [|intros a; apply IH].
  eapply hoare_conseq; [apply append_byte_as_hex_ok|done| |done|apply too_long_prefix].
  by intros [] s [_ H].
Qed.

Lemma via_result_ok {A} (body : SM A) td i a res :
  (i <= length td)%nat →
  hoare (is_str []) body (λ a' r, a' = a ∧ is_str res r) (λ _, True) (too_long res) →
  op_spec td (via_result body i) a (insert_at_ td i res).
Proof.
  intros Hi Hb d m Hd. unfold via_result. pose proof (init_ok m) as H0.
  destruct (_dbus_string_init m) as [[] r0 m0|r0 m0|]; [|by split; [|left]|done].
  destruct H0 as [H0 Hm0]. specialize (Hb r0 m0 H0).
  destruct (body r0 m0) as [a' r1 m1|r1 m1|]; [|
    split; [done|]; destruct Hb as [_ [?|?]]; eauto using too_long_insert|done].
  destruct Hb as [[-> H1] Hm1].
  pose proof (move_len_ok res td 0 (length res) i ltac:(lia) Hi (r1, d) m1 (conj H1 Hd)) as Hmv.
  unfold _dbus_string_move, gets, assert_, checked, mbind, M_bind. simpl.
  rewrite <- (is_str_length _ _ H1), Nat.sub_0_r. rewrite sub_all in Hmv.
  destruct (_dbus_string_move_len 0 (length res) i (r1, d) m1) as [[] sd m2|sd m2|]; [| |done].
  - destruct Hmv as [[_ H2] Hm2]. split; [done|auto].
  - destruct Hmv as [[_ H2] [?|?]]; split; auto.
Qed.

(** One digit pair of the decoding loop. *)
Lemma set_last_ok t b c F L :
  hoare (is_str (t ++ [b])) (r ← gets id; b ← checked (_dbus_string_get_byte (len r - 1) r);
                            _dbus_string_set_byte (len r - 1) (c b))
    (λ _, is_str (t ++ [c b])) F L.
Proof.
  apply hoare_gets. intros r Hr. pose proof (is_str_length _ _ Hr) as Hl.
  rewrite length_app in Hl. simpl in Hl. replace (len r - 1)%nat with (length t) by lia.
  rewrite (get_byte_ok t b [] r Hr). change (checked (Some b) ≫= ?k) with (k b). cbv beta.
  eapply hoare_is_str_eq; [done|]. apply set_byte_ok.
Qed.

Lemma hex_decode_loop_ok p t o :
  hoare (is_str t) (hex_decode_loop p true o)
    (λ a r, a = (o + hex_span p)%nat ∧ is_str (t ++ unhex p) r)
    (λ _, True) (too_long (t ++ unhex p)).
Proof.
  revert t o. induction p as [p IH] using (induction_ltof1 _ (@length byte)); unfold ltof in IH.
  intros t o. destruct p as [|c p1]; cbn [hex_decode_loop unhex hex_span].
  { apply hoare_ret. intros r Hr. by rewrite Nat.add_0_r, app_nil_r. }
  destruct (hex_val c) as [hi|] eqn:Ehi.
  2: { apply hoare_ret. intros r Hr. by rewrite Nat.add_0_r, app_nil_r. }
  apply hex_val_range in Ehi. cbn [negb].
  eapply (hoare_bind _ _ _ (λ _, is_str (t ++ [z2b (Z.shiftl hi 4)]))).
  { eapply hoare_conseq; [apply append_byte_ok|done|by intros [] s [_ H]|done|].
    unfold too_long. rewrite !length_app.
    destruct p1 as [|d p2]; [done|destruct (hex_val d); simpl; lia]. }
  intros []; cbv beta. destruct p1 as [|d p2]; cbn [hex_decode_loop hex_span].
  { apply hoare_ret. intros r Hr. split; [lia|done]. }
  destruct (hex_val d) as [lo|] eqn:Elo.
  2: { apply hoare_ret. intros r Hr. split; [lia|done]. }
  apply hex_val_range in Elo.
  eapply hoare_bind; [apply (set_last_ok t _ (λ b, z2b (Z.lor (b2z b) lo)))|].
  intros []; cbv beta. cbv beta. rewrite nibble_or by done. cbn [negb].
  rewrite (cons_middle _ t (unhex p2)), (app_assoc t).
  eapply hoare_conseq; [apply IH; simpl; lia|done| |done|done].
  intros a r [-> Hr]. split; [lia|done].
Qed.

(** *** Theorems on hexadecimal *)

(** Encoding inserts the two lower-case digits of every byte of the source from
    [start] on. *)
Theorem hex_encode_refines ts source td start i :
  is_str ts source → (i <= length td)%nat →
  op_spec td (_dbus_string_hex_encode source start i) tt
    (insert_at_ td i (hex_of (drop start ts))).
Proof.
  intros [_ Hs] Hi. unfold _dbus_string_hex_encode. rewrite Hs.
  apply via_result_ok; [done|].
  eapply hoare_conseq; [apply (hex_encode_loop_ok _ [])|done|by intros []|done|done].
Qed.

Lemma hex_encode_refines_witness :
  op_spec (lit "ab") (_dbus_string_hex_encode (concrete (lit "xJ")) 1 1) tt (lit "a4ab").
Proof.
  apply (hex_encode_refines (lit "xJ") (concrete (lit "xJ")) (lit "ab") 1 1);
    [repeat split; vm_compute; congruence|vm_compute; lia].
Defined.

(** Decoding what encoding produced inserts the original bytes and reports that
    all digits were consumed; it cannot touch memory outside of its buffers, and
    fails only for want of memory or of room. *)
Theorem hex_decode_encode s source td i :
  is_str (hex_of s) source → (i <= length td)%nat →
  op_spec td (_dbus_string_hex_decode source 0 i) (length (hex_of s)) (insert_at_ td i s).
Proof.
  intros [_ Hs] Hi. unfold _dbus_string_hex_decode. rewrite Hs.
  apply via_result_ok; [done|]. rewrite drop_0.
  eapply hoare_conseq; [apply (hex_decode_loop_ok _ [] 0)|done| |done|];
    simpl; rewrite unhex_hex; [|done].
  intros a r [-> Hr]. by rewrite hex_span_hex.
Qed.

Lemma hex_decode_encode_witness :
  op_spec (lit "ab") (_dbus_string_hex_decode (concrete (lit "4a6b")) 0 1) 4%nat (lit "aJkb").
Proof.
  apply (hex_decode_encode (lit "Jk") (concrete (lit "4a6b")) (lit "ab") 1);
    [repeat split; vm_compute; congruence|vm_compute; lia].
Defined.

(** On any input, decoding inserts the bytes of the longest prefix of digits and
    reports where it stops; an odd last digit becomes the high half of a byte. *)
Theorem hex_decode_refines ts source td start i :
  is_str ts source → (i <= length td)%nat →
  op_spec td (_dbus_string_hex_decode source start i)
    (start + hex_span (drop start ts))%nat
    (insert_at_ td i (unhex (drop start ts))).
Proof.
  intros [_ Hs] Hi. unfold _dbus_string_hex_decode. rewrite Hs.
  apply via_result_ok; [done|].
  eapply hoare_conseq; [apply (hex_decode_loop_ok _ [])|done|done|done|done].
Qed.

Lemma hex_decode_refines_witness :
  op_spec (lit "ab") (_dbus_string_hex_decode (concrete (lit "-4A6g")) 1 1) 4%nat (lit "aJ`b").
Proof.
  apply (hex_decode_refines (lit "-4A6g") (concrete (lit "-4A6g")) (lit "ab") 1 1);
    [repeat split; vm_compute; congruence|vm_compute; lia].
Defined.

(** ** UTF-8 *)

(** [UTF8_COMPUTE (Char, Mask, Len)]: the mask and the length. *)
Definition UTF8_COMPUTE (c : byte) : Z * nat :=
  let z := b2z c in
  if z <? 128 then (0x7f, 1%nat)
  else if Z.land z 0xe0 =? 0xc0 then (0x1f, 2%nat)
  else if Z.land z 0xf0 =? 0xe0 then (0x0f, 3%nat)
  else if Z.land z 0xf8 =? 0xf0 then (0x07, 4%nat)
  else if Z.land z 0xfc =? 0xf8 then (0x03, 5%nat)
  else if Z.land z 0xfe =? 0xfc then (0x01, 6%nat)
  else (0, 0%nat).

Definition UTF8_LENGTH (ch : Z) : nat :=
  (if ch <? 0x80 then 1%nat else if ch <? 0x800 then 2%nat
   else if ch <? 0x10000 then 3%nat else if ch <? 0x200000 then 4%nat
   else if ch <? 0x4000000 then 5%nat else 6%nat).

(** [(dbus_unichar_t) -1]. *)
Definition unichar_error : Z := 0xffffffff.

Fixpoint utf8_get_loop (chars : bytes) (result : Z) : Z :=
  match chars with
  | [] => result
  | c :: chars' =>
      if negb (Z.land (b2z c) 0xc0 =? 0x80) then unichar_error
      else utf8_get_loop chars' (Z.lor (Z.shiftl result 6) (Z.land (b2z c) 0x3f))
  end.

Definition UTF8_GET (chars : bytes) (mask : Z) (n : nat) : Z :=
  utf8_get_loop (sub chars 1 (n - 1)) (Z.land (b2z (byte_at chars 0)) mask).

Definition UNICODE_VALID (ch : Z) : bool :=
  (ch <? 0x110000) && negb (Z.land ch 0xFFFFF800 =? 0xD800)
  && ((ch <? 0xFDD0) || (0xFDEF <? ch)) && negb (Z.land ch 0xFFFF =? 0xFFFF).

(** The loop from [p] to [end]; every turn consumes a byte, so the length of
    the range is fuel enough. *)
Fixpoint utf8_loop (fuel : nat) (p : bytes) : bool :=
  match fuel, p with
  | _, [] => true
  | O, _ => false
  | S fuel', c :: p' =>
      if c =b x00 then false
      else if b2z c <? 128 then utf8_loop fuel' p'
      else
        let '(mask, char_len) := UTF8_COMPUTE c in
        if (char_len =? 0)%nat then false
        else if (length p <? char_len)%nat then false
        else
          let result := UTF8_GET p mask char_len in
          if negb (UTF8_LENGTH result =? char_len)%nat then false
          else if negb (UNICODE_VALID result) then false
          else utf8_loop fuel' (drop char_len p)
  end.

Definition _dbus_string_validate_utf8 (str : bytes) (start n : nat) : bool :=
  if (length str - start <? n)%nat then false
  else utf8_loop n (sub str start n).

Definition _DBUS_ISASCII (c : byte) : bool :=
  negb (c =b x00) && (Z.land (b2z c) (Z.lnot 0x7f) =? 0).

Definition _dbus_string_validate_ascii (str : bytes) (start n : nat) : bool :=
  if (length str - start <? n)%nat then false
  else forallb _DBUS_ISASCII (sub str start n).

Definition _dbus_string_validate_nul (str : bytes) (start n : nat) : bool :=
  if (length str - start <? n)%nat then false
  else forallb (λ c, c =b x00) (sub str start n).

(** *** Encoding, from [_dbus_string_append_unichar] *)

Definition unichar_first_len (ch : Z) : Z * nat :=
  if ch <? 0x80 then (0, 1%nat) else if ch <? 0x800 then (0xc0, 2%nat)
  else if ch <? 0x10000 then (0xe0, 3%nat) else if ch <? 0x200000 then (0xf0, 4%nat)
  else if ch <? 0x4000000 then (0xf8, 5%nat) else (0xfc, 6%nat).

(** The loop that writes [out[i]] for [i] from [n] down to 1, with the value of
    [ch] it leaves. *)
Fixpoint unichar_tail (n : nat) (ch : Z) : Z * bytes :=
  match n with
  | O => (ch, [])
  | S n' =>
      let out_i := z2b (Z.lor (Z.land ch 0x3f) 0x80) in
      let '(ch', out) := unichar_tail n' (Z.shiftr ch 6) in
      (ch', out ++ [out_i])
  end.

Definition unichar_bytes (ch : Z) : bytes :=
  let '(first, n) := unichar_first_len ch in
  let '(ch', out) := unichar_tail (n - 1) ch in
  z2b (Z.lor ch' first) :: out.

Definition _dbus_string_append_unichar (ch : Z) : SM unit :=
  let '(_, n) := unichar_first_len ch in
  r ← gets id;
  if max_length r - zlen r <? Z.of_nat n then fail
  else
    set_length (len r + n);;
    r' ← gets id;
    store (λ b, mem_write b (len r' - n) (unichar_bytes ch)).

(** A character the validator lets through: a code point other than U+0000, the
    surrogates, U+FDD0 to U+FDEF, and the last one of each plane. *)
Definition char_allowed (ch : Z) : Prop :=
  0 < ch < 0x110000 ∧ ¬ (0xD800 <= ch < 0xE000) ∧ ¬ (0xFDD0 <= ch < 0xFDF0)
  ∧ ch mod 0x10000 ≠ 0xFFFF.

(** The UTF-8 encoding of a code point. *)
Definition utf8 (ch : Z) : bytes :=
  map z2b
    (if ch <? 0x80 then [ch]
     else if ch <? 0x800 then [192 + ch / 64; 128 + ch mod 64]
     else if ch <? 0x10000 then [224 + ch / 64 / 64; 128 + ch / 64 mod 64; 128 + ch mod 64]
     else [240 + ch / 64 / 64 / 64; 128 + ch / 64 / 64 mod 64; 128 + ch / 64 mod 64;
           128 + ch mod 64]).

(** *** Lemmas *)

(** The byte classes of UTF-8 as intervals. *)
Lemma cont_byte c :
  (Z.land (b2z c) 0xc0 =? 0x80) = (128 <=? b2z c) && (b2z c <? 192)
  ∧ Z.land (b2z c) 0x3f = b2z c mod 64.
Proof.
  split; [|apply (land_ones_mod _ 6); lia].
  pose proof (byte_enum (λ c, Bool.eqb (Z.land (b2z c) 0xc0 =? 0x80)
    ((128 <=? b2z c) && (b2z c <? 192))) ltac:(vm_compute; reflexivity) c) as H.
  by apply eqb_prop in H.
Qed.

Definition lead_class (z : Z) : Z * nat :=
  if z <? 192 then (0, 0%nat) else if z <? 224 then (0x1f, 2%nat)
  else if z <? 240 then (0x0f, 3%nat) else if z <? 248 then (0x07, 4%nat)
  else if z <? 252 then (0x03, 5%nat) else if z <? 254 then (0x01, 6%nat)
  else (0, 0%nat).

Lemma lead_byte c : 128 <= b2z c → UTF8_COMPUTE c = lead_class (b2z c).
Proof.
  intros Hc. pose proof (byte_enum (λ c, (b2z c <? 128) ||
    (let '(m, n) := UTF8_COMPUTE c in let '(m', n') := lead_class (b2z c) in
     (m =? m') && (n =? n')%nat)) ltac:(vm_compute; reflexivity) c) as H. cbv beta in H.
  rewrite (proj2 (Z.ltb_ge _ _)) in H by done. simpl orb in H.
  destruct (UTF8_COMPUTE c), (lead_class (b2z c)). f_equal; lia.
Qed.

(** Decoding, as arithmetic. *)
Lemma get_loop_step c cs r :
  0 <= r →
  utf8_get_loop (c :: cs) r =
    if (128 <=? b2z c) && (b2z c <? 192) then utf8_get_loop cs (64 * r + b2z c mod 64)
    else unichar_error.
Proof.
  intros Hr. cbn [utf8_get_loop]. destruct (cont_byte c) as [-> ->].
  destruct ((128 <=? b2z c) && (b2z c <? 192)); [|done]. cbn [negb].
  pose proof (Z.mod_pos_bound (b2z c) 64 ltac:(lia)).
  rewrite lor_shiftl by lia. f_equal. lia.
Qed.

Lemma tail_byte ch : b2z (z2b (Z.lor (Z.land ch 0x3f) 0x80)) = 128 + ch mod 64.
Proof.
  rewrite b2z_z2b, (land_ones_mod _ 6), Z.lor_comm by lia.
  change 0x80 with (Z.shiftl 2 6) at 1. change (2 ^ 6) with 64.
  pose proof (Z.mod_pos_bound ch 64 ltac:(lia)).
  rewrite lor_shiftl by lia. rewrite Z.mod_small by lia. lia.
Qed.

Lemma first_byte ch k f :
  0 <= k → 0 <= ch < 2 ^ k → 0 <= f → f mod 2 ^ k = 0 → f + ch < 256 →
  b2z (z2b (Z.lor ch f)) = f + ch.
Proof.
  intros Hk Hc Hf Hm Hl. rewrite b2z_z2b, Z.lor_comm.
  replace f with (Z.shiftl (f / 2 ^ k) k) at 1
    by (rewrite Z.shiftl_mul_pow2 by done; pose proof (Z.div_mod f (2 ^ k)); lia).
  rewrite lor_shiftl, Z.mod_small by (done || pose proof (Z.div_mod f (2 ^ k)); lia).
  pose proof (Z.div_mod f (2 ^ k)). lia.
Qed.

Lemma map_b2z_inj v w : map b2z v = map b2z w → v = w.
Proof.
  revert w. induction v as [|a v IH]; intros [|b w]; simpl; try done.
  intros [= ?%b2z_inj ?%IH]. congruence.
Qed.

(** The encoder's bytes, as arithmetic. *)
Lemma unichar_bytes_1 ch : 0 <= ch < 0x80 → map b2z (unichar_bytes ch) = [ch].
Proof.
  intros H. unfold unichar_bytes, unichar_first_len.
  rewrite (proj2 (Z.ltb_lt ch _)) by lia. simpl. rewrite (first_byte _ 7 0) by lia. done.
Qed.

Lemma unichar_bytes_2 ch :
  0x80 <= ch < 0x800 → map b2z (unichar_bytes ch) = [192 + ch / 64; 128 + ch mod 64].
Proof.
  intros H. unfold unichar_bytes, unichar_first_len.
  rewrite (proj2 (Z.ltb_ge ch _)), (proj2 (Z.ltb_lt ch _)) by lia. simpl.
  rewrite tail_byte, !Z.shiftr_div_pow2 by lia. change (2 ^ 6) with 64.
  rewrite (first_byte _ 5 192) by (Z.div_mod_to_equations; lia). done.
Qed.

Lemma unichar_bytes_3 ch :
  0x800 <= ch < 0x10000 →
  map b2z (unichar_bytes ch) = [224 + ch / 64 / 64; 128 + ch / 64 mod 64; 128 + ch mod 64].
Proof.
  intros H. unfold unichar_bytes, unichar_first_len.
  rewrite !(proj2 (Z.ltb_ge ch _)), (proj2 (Z.ltb_lt ch _)) by lia. simpl.
  rewrite !tail_byte, !Z.shiftr_div_pow2 by lia. change (2 ^ 6) with 64.
  rewrite (first_byte _ 4 224) by (Z.div_mod_to_equations; lia). done.
Qed.

Lemma unichar_bytes_4 ch :
  0x10000 <= ch < 0x200000 →
  map b2z (unichar_bytes ch)
  = [240 + ch / 64 / 64 / 64; 128 + ch / 64 / 64 mod 64; 128 + ch / 64 mod 64; 128 + ch mod 64].
Proof.
  intros H. unfold unichar_bytes, unichar_first_len.
  rewrite !(proj2 (Z.ltb_ge ch _)), (proj2 (Z.ltb_lt ch _)) by lia. simpl.
  rewrite !tail_byte, !Z.shiftr_div_pow2 by lia. change (2 ^ 6) with 64.
  rewrite (first_byte _ 3 240) by (Z.div_mod_to_equations; lia). done.
Qed.

(** Decoding [n] bytes that start with [b0]. *)
Definition cont (b : byte) : bool := (128 <=? b2z b) && (b2z b <? 192).

Lemma utf8_get_2 b0 b1 p :
  UTF8_GET (b0 :: b1 :: p) 0x1f 2
  = if cont b1 then 64 * (b2z b0 mod 32) + b2z b1 mod 64 else unichar_error.
Proof.
  change (UTF8_GET _ _ _) with (utf8_get_loop [b1] (Z.land (b2z b0) 0x1f)).
  pose proof (b2z_range b0). rewrite (land_ones_mod _ 5) by lia.
  pose proof (Z.mod_pos_bound (b2z b0) (2 ^ 5) ltac:(lia)).
  by rewrite get_loop_step by lia.
Qed.

Lemma utf8_get_3 b0 b1 b2 p :
  UTF8_GET (b0 :: b1 :: b2 :: p) 0x0f 3
  = if cont b1 && cont b2
    then 64 * (64 * (b2z b0 mod 16) + b2z b1 mod 64) + b2z b2 mod 64 else unichar_error.
Proof.
  change (UTF8_GET _ _ _) with (utf8_get_loop [b1; b2] (Z.land (b2z b0) 0x0f)).
  pose proof (b2z_range b0). rewrite (land_ones_mod _ 4) by lia.
  pose proof (Z.mod_pos_bound (b2z b0) (2 ^ 4) ltac:(lia)).
  pose proof (Z.mod_pos_bound (b2z b1) 64 ltac:(lia)).
  rewrite get_loop_step by lia. unfold cont at 1.
  destruct (_ && _); cbn [andb]; [|done]. by rewrite get_loop_step by lia.
Qed.

Lemma utf8_get_4 b0 b1 b2 b3 p :
  UTF8_GET (b0 :: b1 :: b2 :: b3 :: p) 0x07 4
  = if cont b1 && cont b2 && cont b3
    then 64 * (64 * (64 * (b2z b0 mod 8) + b2z b1 mod 64) + b2z b2 mod 64) + b2z b3 mod 64
    else unichar_error.
Proof.
  change (UTF8_GET _ _ _) with (utf8_get_loop [b1; b2; b3] (Z.land (b2z b0) 0x07)).
  pose proof (b2z_range b0). rewrite (land_ones_mod _ 3) by lia.
  pose proof (Z.mod_pos_bound (b2z b0) (2 ^ 3) ltac:(lia)).
  pose proof (Z.mod_pos_bound (b2z b1) 64 ltac:(lia)).
  pose proof (Z.mod_pos_bound (b2z b2) 64 ltac:(lia)).
  rewrite get_loop_step by lia. unfold cont at 1. destruct (_ && _); cbn [andb]; [|done].
  rewrite get_loop_step by lia. unfold cont at 1. destruct (_ && _); cbn [andb]; [|done].
  by rewrite get_loop_step by lia.
Qed.

Lemma UTF8_LENGTH_spec ch n :
  UTF8_LENGTH ch = n →
  (n = 1%nat ∧ ch < 0x80) ∨ (n = 2%nat ∧ 0x80 <= ch < 0x800)
  ∨ (n = 3%nat ∧ 0x800 <= ch < 0x10000) ∨ (n = 4%nat ∧ 0x10000 <= ch < 0x200000)
  ∨ ((5 <= n)%nat ∧ 0x200000 <= ch).
Proof.
  unfold UTF8_LENGTH. intros <-. repeat case_if; lia.
Qed.

(** What one turn of the loop accepts is the encoding of the character it
    decodes. *)
Lemma decode_is_encoding c p mask n :
  128 <= b2z c → lead_class (b2z c) = (mask, n) → (n <= length (c :: p))%nat → n ≠ 0%nat →
  UTF8_LENGTH (UTF8_GET (c :: p) mask n) = n →
  UTF8_GET (c :: p) mask n < 0x110000 →
  take n (c :: p) = unichar_bytes (UTF8_GET (c :: p) mask n).
Proof.
  intros Hc Hl Hlen Hn HL HV. unfold lead_class in Hl. pose proof (b2z_range c).
  destruct (b2z c <? 192) eqn:E1; [congruence|].
  destruct (b2z c <? 224) eqn:E2; [injection Hl as <- <-|
    destruct (b2z c <? 240) eqn:E3; [injection Hl as <- <-|
      destruct (b2z c <? 248) eqn:E4; [injection Hl as <- <-|]]].
  - destruct p as [|b1 p]; [simpl in *; lia|]. rewrite utf8_get_2 in *. unfold cont in *.
    pose proof (b2z_range b1).
    destruct ((128 <=? b2z b1) && (b2z b1 <? 192)) eqn:C1; [|done].
    apply UTF8_LENGTH_spec in HL. apply map_b2z_inj. rewrite unichar_bytes_2 by lia.
    simpl. repeat f_equal; Z.div_mod_to_equations; lia.
  - destruct p as [|b1 [|b2 p]]; [simpl in *; lia..|]. rewrite utf8_get_3 in *. unfold cont in *.
    pose proof (b2z_range b1). pose proof (b2z_range b2).
    destruct ((128 <=? b2z b1) && (b2z b1 <? 192) && ((128 <=? b2z b2) && (b2z b2 <? 192))) eqn:C1; [|done].
    apply UTF8_LENGTH_spec in HL. apply map_b2z_inj. rewrite unichar_bytes_3 by lia.
    simpl. repeat f_equal; Z.div_mod_to_equations; lia.
  - destruct p as [|b1 [|b2 [|b3 p]]]; [simpl in *; lia..|]. rewrite utf8_get_4 in *. unfold cont in *.
    pose proof (b2z_range b1). pose proof (b2z_range b2). pose proof (b2z_range b3).
    destruct ((128 <=? b2z b1) && (b2z b1 <? 192) && ((128 <=? b2z b2) && (b2z b2 <? 192))
              && ((128 <=? b2z b3) && (b2z b3 <? 192))) eqn:C1; [|done].
    apply UTF8_LENGTH_spec in HL. apply map_b2z_inj. rewrite unichar_bytes_4 by lia.
    simpl. repeat f_equal; Z.div_mod_to_equations; lia.
  - exfalso. assert (5 <= n)%nat by (destruct (b2z c <? 252), (b2z c <? 254); injection Hl; lia).
    apply UTF8_LENGTH_spec in HL. lia.
Qed.

(** Clearing the low eleven bits of a 32-bit number. *)
Lemma land_high ch : 0 <= ch < 2 ^ 32 → Z.land ch 0xFFFFF800 = ch / 2048 * 2048.
Proof.
  intros H. change 2048 with (2 ^ 11). rewrite <- Z.shiftr_div_pow2, <- Z.shiftl_mul_pow2 by lia.
  change 0xFFFFF800 with (Z.shiftl (Z.ones 21) 11).
  rewrite <- (Z.mod_small ch (2 ^ 32)) at 2 by done. rewrite <- Z.land_ones by lia.
  apply Z.bits_inj'. intros i Hi. rewrite Z.land_spec, !Z.shiftl_spec by done.
  destruct (Z.ltb_spec i 11).
  { rewrite !(Z.testbit_neg_r _ (i - 11)) by lia. apply andb_false_r. }
  rewrite Z.shiftr_spec, Z.land_spec, !Z.testbit_ones_nonneg by lia.
  replace (i - 11 + 11) with i by lia. f_equal. lia.
Qed.

Lemma char_allowed_valid ch : 0 < ch → char_allowed ch ↔ UNICODE_VALID ch = true.
Proof.
  intros H. unfold UNICODE_VALID, char_allowed.
  rewrite !andb_true_iff, orb_true_iff, !negb_true_iff, !Z.ltb_lt, !Z.eqb_neq.
  change (Z.land ch 0xFFFF) with (Z.land ch (2 ^ 16 - 1)). rewrite (land_ones_mod ch 16) by lia.
  destruct (Z.ltb_spec ch 0x110000); [|lia]. rewrite land_high by lia.
  change (2 ^ 16) with 65536. Z.div_mod_to_equations. lia.
Qed.

(** One turn of the loop on a multi-byte character. *)
Lemma utf8_step_multi fuel c p rest mask n ch :
  128 <= b2z c → lead_class (b2z c) = (mask, n) → n ≠ 0%nat →
  length (c :: p) = n → UTF8_GET (c :: p ++ rest) mask n = ch →
  UTF8_LENGTH ch = n → UNICODE_VALID ch = true →
  utf8_loop (S fuel) ((c :: p) ++ rest) = utf8_loop fuel rest.
Proof.
  intros Hc Hl Hn Hlen HG HL HV. cbn [utf8_loop app].
  destruct (byte_eqb_spec c x00) as [->|_]; [done|].
  rewrite (proj2 (Z.ltb_ge _ _)), lead_byte, Hl by done.
  rewrite (proj2 (Nat.eqb_neq _ _)) by done.
  rewrite (proj2 (Nat.ltb_ge _ _)) by (rewrite <- Hlen; simpl; rewrite length_app; lia).
  rewrite HG, HL, Nat.eqb_refl, HV. cbn [negb].
  by rewrite <- Hlen, (app_comm_cons p), drop_app_length.
Qed.

Lemma utf8_step fuel ch rest :
  char_allowed ch → utf8_loop (S fuel) (unichar_bytes ch ++ rest) = utf8_loop fuel rest.
Proof.
  intros Hch. pose proof Hch as [[Hpos Hmax] _].
  apply char_allowed_valid in Hch as HV; [|done].
  destruct (UTF8_LENGTH_spec ch _ eq_refl) as [[E H]|[[E H]|[[E H]|[[E H]|[_ H]]]]]; [..|lia].
  - pose proof (unichar_bytes_1 ch ltac:(lia)) as Hb.
    destruct (unichar_bytes ch) as [|b0 [|]]; [done| |done]. injection Hb as Hb0.
    cbn [utf8_loop app]. destruct (byte_eqb_spec b0 x00) as [->|_].
    { change (b2z x00) with 0 in Hb0. lia. }
    by rewrite (proj2 (Z.ltb_lt _ _)) by lia.
  - pose proof (unichar_bytes_2 ch ltac:(lia)) as Hb.
    destruct (unichar_bytes ch) as [|b0 [|b1 [|]]]; [done..| |done]. injection Hb as Hb0 Hb1.
    eapply (utf8_step_multi _ _ _ _ 0x1f 2); [| |done..| |done|done];
      [Z.div_mod_to_equations; lia|unfold lead_class; rewrite Hb0|].
    + rewrite (proj2 (Z.ltb_ge _ _)), (proj2 (Z.ltb_lt _ _)) by (Z.div_mod_to_equations; lia). done.
    + cbn [app]. rewrite utf8_get_2. unfold cont. rewrite Hb0, Hb1.
      rewrite (proj2 (Z.leb_le _ _)), (proj2 (Z.ltb_lt _ _)) by (Z.div_mod_to_equations; lia).
      cbn [andb]. Z.div_mod_to_equations; lia.
  - pose proof (unichar_bytes_3 ch ltac:(lia)) as Hb.
    destruct (unichar_bytes ch) as [|b0 [|b1 [|b2 [|]]]]; [done..| |done].
    injection Hb as Hb0 Hb1 Hb2.
    eapply (utf8_step_multi _ _ _ _ 0x0f 3); [| |done..| |done|done];
      [Z.div_mod_to_equations; lia|unfold lead_class; rewrite Hb0|].
    + rewrite !(proj2 (Z.ltb_ge _ _)), (proj2 (Z.ltb_lt _ _)) by (Z.div_mod_to_equations; lia). done.
    + cbn [app]. rewrite utf8_get_3. unfold cont. rewrite Hb0, Hb1, Hb2.
      rewrite !(proj2 (Z.leb_le _ _)), !(proj2 (Z.ltb_lt _ _)) by (Z.div_mod_to_equations; lia).
      cbn [andb]. Z.div_mod_to_equations; lia.
  - pose proof (unichar_bytes_4 ch ltac:(lia)) as Hb.
    destruct (unichar_bytes ch) as [|b0 [|b1 [|b2 [|b3 [|]]]]]; [done..| |done].
    injection Hb as Hb0 Hb1 Hb2 Hb3.
    eapply (utf8_step_multi _ _ _ _ 0x07 4); [| |done..| |done|done];
      [Z.div_mod_to_equations; lia|unfold lead_class; rewrite Hb0|].
    + rewrite !(proj2 (Z.ltb_ge _ _)), (proj2 (Z.ltb_lt _ _)) by (Z.div_mod_to_equations; lia). done.
    + cbn [app]. rewrite utf8_get_4. unfold cont. rewrite Hb0, Hb1, Hb2, Hb3.
      rewrite !(proj2 (Z.leb_le _ _)), !(proj2 (Z.ltb_lt _ _)) by (Z.div_mod_to_equations; lia).
      cbn [andb]. Z.div_mod_to_equations; lia.
Qed.

Lemma unichar_bytes_utf8 ch : 0 <= ch < 0x200000 → unichar_bytes ch = utf8 ch.
Proof.
  intros H. unfold utf8. apply map_b2z_inj. rewrite map_map.
  destruct (Z.ltb_spec ch 0x80); [|destruct (Z.ltb_spec ch 0x800);
    [|destruct (Z.ltb_spec ch 0x10000)]];
    first [rewrite unichar_bytes_1 by lia | rewrite unichar_bytes_2 by lia
          | rewrite unichar_bytes_3 by lia | rewrite unichar_bytes_4 by lia];
    simpl; rewrite !b2z_z2b; repeat apply (f_equal2 cons); try done; Z.div_mod_to_equations; lia.
Qed.

Lemma flat_map_utf8 chs :
  Forall char_allowed chs → flat_map unichar_bytes chs = flat_map utf8 chs.
Proof.
  induction 1 as [|ch chs [? _] _ IH]; [done|]. simpl.
  by rewrite IH, unichar_bytes_utf8 by lia.
Qed.

Lemma unichar_bytes_nonempty ch : (1 <= length (unichar_bytes ch))%nat.
Proof. unfold unichar_bytes. destruct (unichar_first_len ch), (unichar_tail _ _). simpl. lia. Qed.

Lemma utf8_loop_sound fuel p :
  utf8_loop fuel p = true →
  ∃ chs, Forall char_allowed chs ∧ p = flat_map unichar_bytes chs.
Proof.
  revert p. induction fuel as [|fuel IH]; intros [|c p]; try done; [by exists []..|].
  cbn [utf8_loop]. destruct (byte_eqb_spec c x00) as [|Hc0]; [done|].
  destruct (b2z c <? 128) eqn:Ha.
  - intros (chs & HF & ->)%IH. exists (b2z c :: chs). pose proof (b2z_range c).
    assert (0 < b2z c).
    { destruct (Z.eq_dec (b2z c) 0) as [E|]; [|lia].
      destruct Hc0. apply b2z_inj. by rewrite E. }
    split; [constructor; [|done]|].
    + apply char_allowed_valid; [done|]. apply Z.ltb_lt in Ha.
      pose proof (byte_enum (λ c, (b2z c =? 0) || negb (b2z c <? 128) || UNICODE_VALID (b2z c))
        ltac:(vm_compute; reflexivity) c) as E. cbv beta in E. lia.
    + simpl. pose proof (unichar_bytes_1 (b2z c) ltac:(lia)) as E.
      assert (unichar_bytes (b2z c) = [c]) as -> by (by apply map_b2z_inj). done.
  - destruct (UTF8_COMPUTE c) as [mask n] eqn:EC. rewrite lead_byte in EC by lia.
    destruct (n =? 0)%nat eqn:En; [done|].
    destruct (length (c :: p) <? n)%nat eqn:El; [done|].
    set (result := UTF8_GET (c :: p) mask n).
    destruct (UTF8_LENGTH result =? n)%nat eqn:EL; [|done]. cbn [negb].
    destruct (UNICODE_VALID result) eqn:EV; [|done]. cbn [negb].
    intros (chs & HF & Hp)%IH. exists (result :: chs).
    apply Nat.eqb_eq in EL.
    assert (result < 0x110000) as Hm by (unfold UNICODE_VALID in EV; lia).
    assert (0 < result).
    { apply UTF8_LENGTH_spec in EL. unfold lead_class in EC.
      destruct (b2z c <? 192); [injection EC; lia|]. 
      repeat (match type of EC with (if ?b then _ else _) = _ => destruct b end);
        injection EC; intros; subst; lia. }
    split; [constructor; [by apply char_allowed_valid|done]|]. simpl. rewrite <- Hp.
    unfold result. rewrite <- (decode_is_encoding c p mask n) by (try done; lia).
    by rewrite take_drop.
Qed.

Lemma utf8_loop_complete chs fuel :
  Forall char_allowed chs → (length (flat_map unichar_bytes chs) <= fuel)%nat →
  utf8_loop fuel (flat_map unichar_bytes chs) = true.
Proof.
  intros HF. revert fuel. induction HF as [|ch chs Hch HF IH]; intros fuel Hf; [by destruct fuel|].
  simpl in *. pose proof (unichar_bytes_nonempty ch). rewrite length_app in Hf.
  destruct fuel as [|fuel]; [lia|]. rewrite utf8_step by done. apply IH. lia.
Qed.

Lemma append_unichar_ok t ch :
  op_spec t (_dbus_string_append_unichar ch) tt (t ++ unichar_bytes ch).
Proof.
  assert (length (unichar_bytes ch) = snd (unichar_first_len ch)) as El.
  { unfold unichar_bytes, unichar_first_len. repeat case_if; done. }
  unfold _dbus_string_append_unichar. destruct (unichar_first_len ch) as [f n]. simpl in El. subst n.
  apply hoare_gets. intros r Hr. pose proof (is_str_length _ _ Hr) as Hl.
  pose proof Hr as [(W1 & _) _]. rewrite W1. unfold zlen.
  destruct (_ - Z.of_nat (len r) <? _) eqn:Em.
  { intros s m ->. split; [done|right]. apply too_long_app. lia. }
  eapply hoare_bind.
  { eapply hoare_conseq; [by apply (grow_ok t)|done|done|done|apply too_long_app]. }
  intros []; cbv beta. apply hoare_gets. intros r' (j & Hj & Hr'). by apply (fill_end t j).
Qed.

(** *** Theorems on UTF-8 *)

(** C38: The UTF-8 validator accepts exactly the ranges inside the string that are
    the UTF-8 encoding of a sequence of allowed
    characters: no nul, no surrogate, no character above U+10FFFF and no
    non-character of the ranges it excludes; so no overlong form is accepted. *)
Theorem validate_utf8_correct (str : bytes) (start n : nat) :
  (start <= length str)%nat →
  _dbus_string_validate_utf8 str start n = true
  ↔ (start + n <= length str)%nat
    ∧ ∃ chs, Forall char_allowed chs ∧ sub str start n = flat_map utf8 chs.
Proof.
  intros Hst. unfold _dbus_string_validate_utf8.
  destruct (length str - start <? n)%nat eqn:E; [split; [done|intros [? _]; lia]|].
  split.
  - intros (chs & HF & ->)%utf8_loop_sound. split; [lia|]. exists chs.
    by rewrite flat_map_utf8.
  - intros [Hr (chs & HF & Hs)]. rewrite Hs, <- flat_map_utf8 by done.
    apply utf8_loop_complete; [done|]. rewrite flat_map_utf8, <- Hs by done. apply length_sub_le.
Qed.

Lemma validate_utf8_correct_witness :
  _dbus_string_validate_utf8 (lit "aé") 0 3 = true
  ↔ (0 + 3 <= 3)%nat
    ∧ ∃ chs, Forall char_allowed chs ∧ lit "aé" = flat_map utf8 chs.
Proof. apply (validate_utf8_correct (lit "aé") 0 3). vm_compute. lia. Defined.

(** Appending a code point adds its UTF-8 encoding, or fails and leaves the
    string alone. *)
Theorem append_unichar_refines t ch :
  0 <= ch < 0x110000 →
  op_spec t (_dbus_string_append_unichar ch) tt (t ++ utf8 ch).
Proof. intros H. rewrite <- unichar_bytes_utf8 by lia. apply append_unichar_ok. Qed.

Lemma append_unichar_refines_witness :
  op_spec (lit "caf") (_dbus_string_append_unichar 0xE9) tt (lit "café").
Proof. apply (append_unichar_refines (lit "caf") 0xE9). lia. Defined.

