(* ===== verification/Types.v ===== *)
(** * Types: typecodes, alignments and validity codes

    The typecodes of src/dbus/dbus-protocol.h as the characters they are, the
    predicates on them from src/dbus/dbus-marshal-basic.c and
    src/dbus/dbus-signature.c, and the validity codes of
    src/dbus/dbus-marshal-validate.h. *)

From S2P Require Import Prelude.

Definition DBUS_TYPE_INVALID : byte := x00.
Definition DBUS_TYPE_ARRAY : byte := "a".
Definition DBUS_TYPE_VARIANT : byte := "v".
Definition DBUS_TYPE_STRUCT : byte := "r".
Definition DBUS_TYPE_DICT_ENTRY : byte := "e".
Definition DBUS_TYPE_BYTE : byte := "y".
Definition DBUS_TYPE_UINT32 : byte := "u".
Definition DBUS_TYPE_STRING : byte := "s".
Definition DBUS_TYPE_OBJECT_PATH : byte := "o".
Definition DBUS_TYPE_SIGNATURE : byte := "g".
Definition DBUS_STRUCT_BEGIN_CHAR : byte := "(".
Definition DBUS_STRUCT_END_CHAR : byte := ")".
Definition DBUS_DICT_ENTRY_BEGIN_CHAR : byte := "{".
Definition DBUS_DICT_ENTRY_END_CHAR : byte := "}".

Definition DBUS_MESSAGE_TYPE_INVALID : Z := 0.
Definition DBUS_MESSAGE_TYPE_METHOD_CALL : Z := 1.
Definition DBUS_MESSAGE_TYPE_METHOD_RETURN : Z := 2.
Definition DBUS_MESSAGE_TYPE_ERROR : Z := 3.
Definition DBUS_MESSAGE_TYPE_SIGNAL : Z := 4.

Definition DBUS_MAXIMUM_SIGNATURE_LENGTH : nat := 255.
Definition DBUS_MAXIMUM_TYPE_RECURSION_DEPTH : nat := 32.
Definition DBUS_MAXIMUM_ARRAY_LENGTH : Z := 67108864.

(** [DBusValidity]. *)
Inductive DBusValidity :=
| DBUS_VALIDITY_UNKNOWN_OOM_ERROR
| DBUS_INVALID_FOR_UNKNOWN_REASON
| DBUS_VALID_BUT_INCOMPLETE
| DBUS_VALIDITY_UNKNOWN
| DBUS_VALID
| DBUS_INVALID_UNKNOWN_TYPECODE
| DBUS_INVALID_MISSING_ARRAY_ELEMENT_TYPE
| DBUS_INVALID_SIGNATURE_TOO_LONG
| DBUS_INVALID_EXCEEDED_MAXIMUM_ARRAY_RECURSION
| DBUS_INVALID_EXCEEDED_MAXIMUM_STRUCT_RECURSION
| DBUS_INVALID_STRUCT_ENDED_BUT_NOT_STARTED
| DBUS_INVALID_STRUCT_STARTED_BUT_NOT_ENDED
| DBUS_INVALID_STRUCT_HAS_NO_FIELDS
| DBUS_INVALID_ALIGNMENT_PADDING_NOT_NUL
| DBUS_INVALID_BOOLEAN_NOT_ZERO_OR_ONE
| DBUS_INVALID_NOT_ENOUGH_DATA
| DBUS_INVALID_TOO_MUCH_DATA
| DBUS_INVALID_BAD_BYTE_ORDER
| DBUS_INVALID_BAD_PROTOCOL_VERSION
| DBUS_INVALID_BAD_MESSAGE_TYPE
| DBUS_INVALID_BAD_SERIAL
| DBUS_INVALID_INSANE_FIELDS_ARRAY_LENGTH
| DBUS_INVALID_INSANE_BODY_LENGTH
| DBUS_INVALID_MESSAGE_TOO_LONG
| DBUS_INVALID_HEADER_FIELD_CODE
| DBUS_INVALID_HEADER_FIELD_HAS_WRONG_TYPE
| DBUS_INVALID_USES_LOCAL_INTERFACE
| DBUS_INVALID_USES_LOCAL_PATH
| DBUS_INVALID_HEADER_FIELD_APPEARS_TWICE
| DBUS_INVALID_BAD_DESTINATION
| DBUS_INVALID_BAD_INTERFACE
| DBUS_INVALID_BAD_MEMBER
| DBUS_INVALID_BAD_ERROR_NAME
| DBUS_INVALID_BAD_SENDER
| DBUS_INVALID_MISSING_PATH
| DBUS_INVALID_MISSING_INTERFACE
| DBUS_INVALID_MISSING_MEMBER
| DBUS_INVALID_MISSING_ERROR_NAME
| DBUS_INVALID_MISSING_REPLY_SERIAL
| DBUS_INVALID_LENGTH_OUT_OF_BOUNDS
| DBUS_INVALID_ARRAY_LENGTH_EXCEEDS_MAXIMUM
| DBUS_INVALID_BAD_PATH
| DBUS_INVALID_SIGNATURE_LENGTH_OUT_OF_BOUNDS
| DBUS_INVALID_BAD_UTF8_IN_STRING
| DBUS_INVALID_ARRAY_LENGTH_INCORRECT
| DBUS_INVALID_VARIANT_SIGNATURE_LENGTH_OUT_OF_BOUNDS
| DBUS_INVALID_VARIANT_SIGNATURE_BAD
| DBUS_INVALID_VARIANT_SIGNATURE_EMPTY
| DBUS_INVALID_VARIANT_SIGNATURE_SPECIFIES_MULTIPLE_VALUES
| DBUS_INVALID_VARIANT_SIGNATURE_MISSING_NUL
| DBUS_INVALID_STRING_MISSING_NUL
| DBUS_INVALID_SIGNATURE_MISSING_NUL
| DBUS_INVALID_EXCEEDED_MAXIMUM_DICT_ENTRY_RECURSION
| DBUS_INVALID_DICT_ENTRY_ENDED_BUT_NOT_STARTED
| DBUS_INVALID_DICT_ENTRY_STARTED_BUT_NOT_ENDED
| DBUS_INVALID_DICT_ENTRY_HAS_NO_FIELDS
| DBUS_INVALID_DICT_ENTRY_HAS_ONLY_ONE_FIELD
| DBUS_INVALID_DICT_ENTRY_HAS_TOO_MANY_FIELDS
| DBUS_INVALID_DICT_ENTRY_NOT_INSIDE_ARRAY
| DBUS_INVALID_DICT_KEY_MUST_BE_BASIC_TYPE.

#[export] Instance DBusValidity_eq_decision : EqDecision DBusValidity.
Proof. solve_decision. Defined.

(** [_dbus_type_get_alignment]; an unknown typecode is an assertion failure, and
    0 in a build without assertions. *)
Definition _dbus_type_get_alignment (typecode : byte) : nat :=
  match typecode with
  | "y" | "v" | "g" => 1
  | "n" | "q" => 2
  | "b" | "i" | "u" | "s" | "o" | "a" => 4
  | "x" | "t" | "d" | "r" | "e" => 8
  | _ => 0
  end%byte%nat.

Definition _dbus_type_is_valid (typecode : byte) : bool :=
  match typecode with
  | "y" | "b" | "n" | "q" | "i" | "u" | "x" | "t" | "d" | "s" | "o" | "g"
  | "a" | "r" | "e" | "v" => true
  | _ => false
  end%byte.

Definition TYPE_IS_CONTAINER (typecode : byte) : bool :=
  (typecode =b DBUS_TYPE_STRUCT) || (typecode =b DBUS_TYPE_DICT_ENTRY)
  || (typecode =b DBUS_TYPE_VARIANT) || (typecode =b DBUS_TYPE_ARRAY).

(** [_dbus_return_val_if_fail (_dbus_type_is_valid (typecode) ||
    typecode == DBUS_TYPE_INVALID, FALSE)] guards the three predicates. *)
Definition dbus_type_is_container (typecode : byte) : bool :=
  if negb (_dbus_type_is_valid typecode || (typecode =b DBUS_TYPE_INVALID)) then false
  else TYPE_IS_CONTAINER typecode.

Definition dbus_type_is_basic (typecode : byte) : bool :=
  if negb (_dbus_type_is_valid typecode || (typecode =b DBUS_TYPE_INVALID)) then false
  else negb ((typecode =b DBUS_TYPE_INVALID) || TYPE_IS_CONTAINER typecode).

Definition dbus_type_is_fixed (typecode : byte) : bool :=
  if negb (_dbus_type_is_valid typecode || (typecode =b DBUS_TYPE_INVALID)) then false
  else match typecode with
       | "y" | "b" | "n" | "q" | "i" | "u" | "x" | "t" | "d" => true
       | _ => false
       end%byte.

Definition map_type_char_to_type (t : byte) : byte :=
  if t =b DBUS_STRUCT_BEGIN_CHAR then DBUS_TYPE_STRUCT
  else if t =b DBUS_DICT_ENTRY_BEGIN_CHAR then DBUS_TYPE_DICT_ENTRY
  else t.

Definition _dbus_first_type_in_signature (str : bytes) (pos : nat) : byte :=
  map_type_char_to_type (byte_at str pos).

(** Every valid typecode has one of the four alignments of the wire format. *)
Lemma valid_type_alignment t :
  _dbus_type_is_valid t = true → is_alignment (_dbus_type_get_alignment t).
Proof.
  intros H. pose proof (byte_enum (λ t, implb (_dbus_type_is_valid t)
    (existsb (Nat.eqb (_dbus_type_get_alignment t)) [1; 2; 4; 8]%nat))
    ltac:(vm_compute; reflexivity) t) as E. cbv beta in E. rewrite H in E.
  cbn [implb] in E. apply existsb_exists in E as (a & Ha & ->%Nat.eqb_eq).
  by apply list_elem_of_In.
Qed.
