(* ===== verification/Signature.v ===== *)
(** * Signature: validation and traversal of type signatures

    Models [_dbus_validate_signature_with_reason] and [_dbus_validate_signature]
    (src/dbus/dbus-marshal-validate.c), [_dbus_type_signature_next]
    (src/dbus/dbus-marshal-recursive.c) and the signature iterator of
    src/dbus/dbus-signature.c.  The validator is a loop with counters; the
    grammar it stands for is the type [ty] with its printer.  Shown: every
    signature of the grammar within the limits is accepted, every accepted
    well-bracketed signature belongs to the grammar, and the iterator visits the
    types of the grammar one by one.  Accepted inputs outside of the
    grammar, and one that the specification forbids, are exhibited. *)

From S2P Require Import Prelude Types.

(** ** The validator *)

Record sig_state := SigState {
  struct_depth : nat;
  array_depth : nat;
  dict_entry_depth : nat;
  last : byte;
  element_count_stack : list nat   (* the last element of the C list first *)
}.

Definition sig_init : sig_state := SigState 0 0 0 DBUS_TYPE_INVALID [0%nat].

(** [_dbus_list_pop_last]: NULL, that is 0, from an empty list. *)
Definition pop_last (l : list nat) : nat * list nat :=
  match l with
  | [] => (0%nat, [])
  | x :: l' => (x, l')
  end.

(** A turn of the loop ends the validation with a code or goes on. *)
Definition turn := (DBusValidity + sig_state)%type.

(** [_dbus_list_append (&element_count_stack, n)]. *)
Definition push (n : nat) (st : sig_state) (m : mem) : turn * mem :=
  let '(ok, m') := alloc m in
  (if ok then inr (SigState (struct_depth st) (array_depth st) (dict_entry_depth st)
                     (last st) (n :: element_count_stack st))
   else inl DBUS_VALIDITY_UNKNOWN_OOM_ERROR, m').

(** The switch on [*p] of the loop. *)
Definition sig_switch (p : byte) (st : sig_state) (m : mem) : turn * mem :=
  let '(SigState sd ad dd la stack) := st in
  match p with
  | "y" | "b" | "n" | "q" | "i" | "u" | "x" | "t" | "d" | "s" | "o" | "g" | "v" =>
      (inr st, m)
  | "a" =>
      if (DBUS_MAXIMUM_TYPE_RECURSION_DEPTH <? ad + 1)%nat
      then (inl DBUS_INVALID_EXCEEDED_MAXIMUM_ARRAY_RECURSION, m)
      else (inr (SigState sd (ad + 1) dd la stack), m)
  | "(" =>
      if (DBUS_MAXIMUM_TYPE_RECURSION_DEPTH <? sd + 1)%nat
      then (inl DBUS_INVALID_EXCEEDED_MAXIMUM_STRUCT_RECURSION, m)
      else push 0 (SigState (sd + 1) ad dd la stack) m
  | ")" =>
      if (sd =? 0)%nat then (inl DBUS_INVALID_STRUCT_ENDED_BUT_NOT_STARTED, m)
      else if la =b DBUS_STRUCT_BEGIN_CHAR then (inl DBUS_INVALID_STRUCT_HAS_NO_FIELDS, m)
      else (inr (SigState (sd - 1) ad dd la (snd (pop_last stack))), m)
  | "{" =>
      if negb (la =b DBUS_TYPE_ARRAY) then (inl DBUS_INVALID_DICT_ENTRY_NOT_INSIDE_ARRAY, m)
      else if (DBUS_MAXIMUM_TYPE_RECURSION_DEPTH <? dd + 1)%nat
      then (inl DBUS_INVALID_EXCEEDED_MAXIMUM_DICT_ENTRY_RECURSION, m)
      else push 0 (SigState sd ad (dd + 1) la stack) m
  | "}" =>
      if (dd =? 0)%nat then (inl DBUS_INVALID_DICT_ENTRY_ENDED_BUT_NOT_STARTED, m)
      else
        let '(element_count, stack') := pop_last stack in
        if negb (element_count =? 2)%nat then
          (inl (if (element_count =? 0)%nat then DBUS_INVALID_DICT_ENTRY_HAS_NO_FIELDS
                else if (element_count =? 1)%nat
                then DBUS_INVALID_DICT_ENTRY_HAS_ONLY_ONE_FIELD
                else DBUS_INVALID_DICT_ENTRY_HAS_TOO_MANY_FIELDS), m)
        else (inr (SigState sd ad (dd - 1) la stack'), m)
  | _ => (inl DBUS_INVALID_UNKNOWN_TYPECODE, m)
  end%byte.

(** Counting the element that [*p] completes. *)
Definition sig_count (p : byte) (st : sig_state) (m : mem) : turn * mem :=
  if negb (p =b DBUS_TYPE_ARRAY) && negb (p =b DBUS_DICT_ENTRY_BEGIN_CHAR)
     && negb (p =b DBUS_STRUCT_BEGIN_CHAR)
  then
    let '(element_count, stack') := pop_last (element_count_stack st) in
    push (element_count + 1)
      (SigState (struct_depth st) (array_depth st) (dict_entry_depth st) (last st) stack') m
  else (inr st, m).

(** The array and dict-key tests; [p1] is the byte after [*p]. *)
Definition sig_tests (p p1 : byte) (st : sig_state) : turn :=
  let '(SigState sd ad dd la stack) := st in
  let after_array :=
    if (0 <? ad)%nat then
      if p =b DBUS_TYPE_ARRAY then
        if (p1 =b DBUS_STRUCT_END_CHAR) || (p1 =b DBUS_DICT_ENTRY_END_CHAR)
        then inl DBUS_INVALID_MISSING_ARRAY_ELEMENT_TYPE else inr ad
      else inr 0%nat
    else inr ad in
  match after_array with
  | inl v => inl v
  | inr ad' =>
      if (la =b DBUS_DICT_ENTRY_BEGIN_CHAR) && _dbus_type_is_valid p
         && negb (dbus_type_is_basic p)
      then inl DBUS_INVALID_DICT_KEY_MUST_BE_BASIC_TYPE
      else inr (SigState sd ad' dd p stack)
  end.

Definition sig_turn (p p1 : byte) (st : sig_state) (m : mem) : turn * mem :=
  match sig_switch p st m with
  | (inl v, m1) => (inl v, m1)
  | (inr st1, m1) =>
      match sig_count p st1 m1 with
      | (inl v, m2) => (inl v, m2)
      | (inr st2, m2) => (sig_tests p p1 st2, m2)
      end
  end.

(** The tests after the loop.  Behind them stand three assertions on [last]; the
    result is a code, so they are not tests here: [final_assertions_hold] shows that
    none of them can fail when these tests are passed. *)
Definition sig_end (st : sig_state) : DBusValidity :=
  if (0 <? array_depth st)%nat then DBUS_INVALID_MISSING_ARRAY_ELEMENT_TYPE
  else if (0 <? struct_depth st)%nat then DBUS_INVALID_STRUCT_STARTED_BUT_NOT_ENDED
  else if (0 <? dict_entry_depth st)%nat then DBUS_INVALID_DICT_ENTRY_STARTED_BUT_NOT_ENDED
  else DBUS_VALID.

(** The loop over the typecodes from [p] to [end]; [after] are the bytes of the
    buffer behind the range, which the look-ahead may read. *)
Fixpoint sig_loop (p after : bytes) (st : sig_state) (m : mem) : DBusValidity * mem :=
  match p with
  | [] => (sig_end st, m)
  | c :: p' =>
      match sig_turn c (byte_at (p' ++ after) 0) st m with
      | (inl v, m') => (v, m')
      | (inr st', m') => sig_loop p' after st' m'
      end
  end.

(** The assertion [type_pos < _DBUS_INT32_MAX - len] holds for every range of a
    string, whose length is below [_DBUS_INT32_MAX]; the others are about signs. *)
Definition _dbus_validate_signature_with_reason (type_str : bytes) (type_pos len : nat)
    (m : mem) : DBusValidity * mem :=
  let '(ok, m1) := alloc m in
  if negb ok then (DBUS_VALIDITY_UNKNOWN_OOM_ERROR, m1)
  else if (DBUS_MAXIMUM_SIGNATURE_LENGTH <? len)%nat
  then (DBUS_INVALID_SIGNATURE_TOO_LONG, m1)
  else sig_loop (sub type_str type_pos len) (drop (type_pos + len) type_str) sig_init m1.

Definition _dbus_validate_signature (str : bytes) (start len : nat) (m : mem) : bool * mem :=
  if (length str - start <? len)%nat then (false, m)
  else
    let '(v, m') := _dbus_validate_signature_with_reason str start len m in
    (bool_decide (v = DBUS_VALID), m').

(** ** The grammar *)

(** The types of a signature.  [TDict k v] is an array of dict entries,
    [a{kv}]. *)
Inductive ty :=
| TLeaf (c : byte)
| TArray (t : ty)
| TStruct (ts : list ty)
| TDict (k v : ty).

Fixpoint print (t : ty) : bytes :=
  match t with
  | TLeaf c => [c]
  | TArray t' => DBUS_TYPE_ARRAY :: print t'
  | TStruct ts => DBUS_STRUCT_BEGIN_CHAR :: flat_map print ts ++ [DBUS_STRUCT_END_CHAR]
  | TDict k v => DBUS_TYPE_ARRAY :: DBUS_DICT_ENTRY_BEGIN_CHAR :: print k ++ print v
                   ++ [DBUS_DICT_ENTRY_END_CHAR]
  end.

Definition leaf (c : byte) : bool :=
  match c with
  | "y" | "b" | "n" | "q" | "i" | "u" | "x" | "t" | "d" | "s" | "o" | "g" | "v" => true
  | _ => false
  end%byte.

Definition basic_key (k : ty) : bool :=
  match k with TLeaf c => dbus_type_is_basic c | _ => false end.

(** The keys the loop lets through: basic types and structs. *)
Definition accepted_key (k : ty) : bool :=
  match k with TLeaf c => dbus_type_is_basic c | TStruct _ => true | _ => false end.

(** A type within the limits of the code, inside [sd] structs and [dd] dict entries,
    after [ar] consecutive array codes; [key] tells which dict keys are allowed.
    The counter of array codes starts again inside of structs and dict entries, so
    these limits are wider than those of the specification, [conforms]. *)
Fixpoint within (key : ty → bool) (sd dd ar : nat) (t : ty) : bool :=
  match t with
  | TLeaf c => leaf c
  | TArray t' => (ar <? DBUS_MAXIMUM_TYPE_RECURSION_DEPTH)%nat && within key sd dd (S ar) t'
  | TStruct ts =>
      (sd <? DBUS_MAXIMUM_TYPE_RECURSION_DEPTH)%nat && (0 <? length ts)%nat
      && forallb (within key (S sd) dd 0) ts
  | TDict k v =>
      (ar <? DBUS_MAXIMUM_TYPE_RECURSION_DEPTH)%nat
      && (dd <? DBUS_MAXIMUM_TYPE_RECURSION_DEPTH)%nat
      && key k && within key sd (S dd) 0 k && within key sd (S dd) 0 v
  end.

(** The limits of doc/dbus-specification.xml: 32 nested array codes and 32 nested
    structs, and basic dict keys; [ar] counts all array codes the type is in. *)
Fixpoint conforms (sd ar : nat) (t : ty) : bool :=
  match t with
  | TLeaf c => leaf c
  | TArray t' => (ar <? DBUS_MAXIMUM_TYPE_RECURSION_DEPTH)%nat && conforms sd (S ar) t'
  | TStruct ts =>
      (sd <? DBUS_MAXIMUM_TYPE_RECURSION_DEPTH)%nat && (0 <? length ts)%nat
      && forallb (conforms (S sd) ar) ts
  | TDict k v =>
      (ar <? DBUS_MAXIMUM_TYPE_RECURSION_DEPTH)%nat
      && basic_key k && conforms sd (S ar) k && conforms sd (S ar) v
  end.

(** A signature is a list of complete types. *)
Definition print_sig (ts : list ty) : bytes := flat_map print ts.
Definition sig_ok (key : ty → bool) (ts : list ty) : bool := forallb (within key 0 0 0) ts.

(** Round and curly brackets match. *)
Fixpoint well_bracketed (open : bytes) (s : bytes) : bool :=
  match s with
  | [] => bool_decide (open = [])
  | c :: s' =>
      if (c =b "(") || (c =b "{") then well_bracketed (c :: open) s'
      else if c =b ")" then
        match open with o :: open' => (o =b "(") && well_bracketed open' s' | [] => false end
      else if c =b "}" then
        match open with o :: open' => (o =b "{") && well_bracketed open' s' | [] => false end
      else well_bracketed open s'
  end%byte.

(** ** Induction on types *)

Section ty_induction.
Context (P : ty → Prop).
Hypothesis H_leaf : ∀ c, P (TLeaf c).
Hypothesis H_array : ∀ t, P t → P (TArray t).
Hypothesis H_struct : ∀ ts, Forall P ts → P (TStruct ts).
Hypothesis H_dict : ∀ k v, P k → P v → P (TDict k v).

Fixpoint ty_ind' (t : ty) : P t :=
  match t with
  | TLeaf c => H_leaf c
  | TArray t' => H_array t' (ty_ind' t')
  | TStruct ts =>
      H_struct ts ((fix go ts : Forall P ts :=
        match ts with
        | [] => List.Forall_nil P
        | t :: ts' => List.Forall_cons P t ts' (ty_ind' t) (go ts')
        end) ts)
  | TDict k v => H_dict k v (ty_ind' k) (ty_ind' v)
  end.
End ty_induction.

(** ** Turns of the loop *)

(** A turn on [c] leads from [st] to [st'], unless the allocator refuses. *)
Definition turns_to (c p1 : byte) (st st' : sig_state) : Prop :=
  ∀ m, (∃ m', sig_turn c p1 st m = (inr st', m') ∧ (may_fail m' → may_fail m))
     ∨ (∃ m', sig_turn c p1 st m = (inl DBUS_VALIDITY_UNKNOWN_OOM_ERROR, m') ∧ may_fail m).

(** The loop over [p] from [st] continues as the loop over [p'] from [st']. *)
Definition advances (after p : bytes) (st : sig_state) (p' : bytes) (st' : sig_state) : Prop :=
  ∀ m, (∃ m', sig_loop p after st m = sig_loop p' after st' m' ∧ (may_fail m' → may_fail m))
     ∨ (fst (sig_loop p after st m) = DBUS_VALIDITY_UNKNOWN_OOM_ERROR ∧ may_fail m).

Lemma advances_refl after p st : advances after p st p st.
Proof. intros m. left. by exists m. Qed.

Lemma advances_trans after p st p1 st1 p2 st2 :
  advances after p st p1 st1 → advances after p1 st1 p2 st2 → advances after p st p2 st2.
Proof.
  intros H1 H2 m. destruct (H1 m) as [(m1 & E1 & Hm1)|]; [|by right].
  destruct (H2 m1) as [(m2 & E2 & Hm2)|[E2 Hm2]].
  - left. exists m2. split; [congruence|auto].
  - right. rewrite E1. auto.
Qed.

Lemma advances_turn after c p st st' :
  turns_to c (byte_at (p ++ after) 0) st st' → advances after (c :: p) st p st'.
Proof.
  intros H m. cbn [sig_loop]. destruct (H m) as [(m' & -> & Hm)|(m' & -> & Hm)];
    [left; by exists m'|by right].
Qed.

Lemma push_cases n st m :
  (∃ m', push n st m = (inr (SigState (struct_depth st) (array_depth st) (dict_entry_depth st)
                               (last st) (n :: element_count_stack st)), m')
         ∧ (may_fail m' → may_fail m))
  ∨ (∃ m', push n st m = (inl DBUS_VALIDITY_UNKNOWN_OOM_ERROR, m') ∧ may_fail m).
Proof.
  unfold push. destruct (alloc m) as [[] m'] eqn:E; [left|right]; exists m'.
  - split; [done|by eapply alloc_mono].
  - split; [done|by eapply alloc_fail].
Qed.

(** Solve a [turns_to] goal whose tests are all decided. *)
Ltac by_push :=
  match goal with
  | |- context [push ?n ?st ?m] =>
      destruct (push_cases n st m) as [(? & -> & ?)|(? & -> & ?)]; cbn -[Nat.ltb Nat.eqb];
      [|by right; eauto]
  end.

Lemma turn_leaf c p1 sd ar dd la n stk :
  leaf c = true → (la = DBUS_DICT_ENTRY_BEGIN_CHAR → dbus_type_is_basic c = true) →
  turns_to c p1 (SigState sd ar dd la (n :: stk)) (SigState sd 0 dd c (S n :: stk)).
Proof.
  intros Hc Hk m. unfold sig_turn.
  assert (sig_switch c (SigState sd ar dd la (n :: stk)) m
          = (inr (SigState sd ar dd la (n :: stk)), m)) as ->.
  { unfold leaf in Hc. unfold sig_switch. destruct c; done. }
  assert (c ≠ "a" ∧ c ≠ "{" ∧ c ≠ "(")%byte as (Ha & Hb & Hs) by (by repeat split; intros ->).
  unfold sig_count. rewrite !(proj2 (byte_eqb_neq _ _)) by done. cbn.
  by_push. left. eexists; split; [|done]. rewrite Nat.add_1_r. 
  unfold sig_tests. rewrite (proj2 (byte_eqb_neq c DBUS_TYPE_ARRAY)) by done.
  f_equal. destruct (0 <? ar)%nat eqn:Ear; [|replace ar with 0%nat by lia];
    (destruct (byte_eqb_spec la DBUS_DICT_ENTRY_BEGIN_CHAR); [|done]);
    rewrite Hk by done; by rewrite andb_false_r.
Qed.

Lemma reset_array (ar : nat) : (if (0 <? ar)%nat then 0%nat else ar) = 0%nat.
Proof. destruct ar; done. Qed.

Lemma turn_array p1 sd ar dd la stk :
  (ar < DBUS_MAXIMUM_TYPE_RECURSION_DEPTH)%nat → la ≠ DBUS_DICT_ENTRY_BEGIN_CHAR →
  p1 ≠ DBUS_STRUCT_END_CHAR → p1 ≠ DBUS_DICT_ENTRY_END_CHAR →
  turns_to DBUS_TYPE_ARRAY p1 (SigState sd ar dd la stk)
    (SigState sd (S ar) dd DBUS_TYPE_ARRAY stk).
Proof.
  intros Har Hla H1 H2 m. left. exists m. split; [|done]. unfold sig_turn. cbn -[Nat.ltb].
  rewrite (proj2 (Nat.ltb_ge _ _)) by lia. unfold sig_count, sig_tests. byte_tests.
  rewrite (proj2 (Nat.ltb_lt _ _)) by lia.
  rewrite !(proj2 (byte_eqb_neq _ _)) by done. cbn. by rewrite Nat.add_1_r.
Qed.

Lemma turn_open_struct p1 sd ar dd la stk :
  (sd < DBUS_MAXIMUM_TYPE_RECURSION_DEPTH)%nat →
  turns_to DBUS_STRUCT_BEGIN_CHAR p1 (SigState sd ar dd la stk)
    (SigState (S sd) 0 dd DBUS_STRUCT_BEGIN_CHAR (0%nat :: stk)).
Proof.
  intros Hsd m. unfold sig_turn. cbn -[Nat.ltb push].
  rewrite (proj2 (Nat.ltb_ge _ _)) by lia. by_push. left. eexists.
  unfold sig_count, sig_tests. byte_tests. split; [|done].
  rewrite andb_false_r, Nat.add_1_r. by destruct ar.
Qed.

Lemma turn_close_struct p1 sd ar dd la k n stk :
  la ≠ DBUS_STRUCT_BEGIN_CHAR →
  turns_to DBUS_STRUCT_END_CHAR p1 (SigState (S sd) ar dd la (k :: n :: stk))
    (SigState sd 0 dd DBUS_STRUCT_END_CHAR (S n :: stk)).
Proof.
  intros Hla m. unfold sig_turn. cbn -[Nat.ltb push].
  rewrite (proj2 (byte_eqb_neq _ _)) by done. unfold sig_count, sig_tests. byte_tests.
  change (S sd =? 0)%nat with false. replace (S sd - 1)%nat with sd by lia.
  cbn -[Nat.ltb push]. by_push. left. eexists; split; [|done].
  rewrite andb_false_r, Nat.add_1_r. by destruct ar.
Qed.

Lemma turn_open_dict p1 sd ar dd stk :
  (dd < DBUS_MAXIMUM_TYPE_RECURSION_DEPTH)%nat →
  turns_to DBUS_DICT_ENTRY_BEGIN_CHAR p1 (SigState sd ar dd DBUS_TYPE_ARRAY stk)
    (SigState sd 0 (S dd) DBUS_DICT_ENTRY_BEGIN_CHAR (0%nat :: stk)).
Proof.
  intros Hdd m. unfold sig_turn. cbn -[Nat.ltb push].
  byte_tests. rewrite (proj2 (Nat.ltb_ge _ _)) by lia. by_push. left. eexists.
  unfold sig_count, sig_tests. byte_tests. split; [|done].
  rewrite Nat.add_1_r. by destruct ar.
Qed.

Lemma turn_close_dict p1 sd ar dd la n stk :
  turns_to DBUS_DICT_ENTRY_END_CHAR p1 (SigState sd ar (S dd) la (2%nat :: n :: stk))
    (SigState sd 0 dd DBUS_DICT_ENTRY_END_CHAR (S n :: stk)).
Proof.
  intros m. unfold sig_turn. cbn -[Nat.ltb push]. unfold sig_count, sig_tests. byte_tests.
  change (S dd =? 0)%nat with false. change (2 =? 2)%nat with true.
  replace (S dd - 1)%nat with dd by lia. cbn -[Nat.ltb push].
  by_push. left. eexists; split; [|done].
  rewrite andb_false_r, Nat.add_1_r. by destruct ar.
Qed.

(** ** Acceptance of the grammar *)

(** A byte that ends a complete type. *)
Definition closing (l : byte) : Prop :=
  l ≠ DBUS_TYPE_ARRAY ∧ l ≠ DBUS_STRUCT_BEGIN_CHAR ∧ l ≠ DBUS_DICT_ENTRY_BEGIN_CHAR.

Lemma leaf_closing c : leaf c = true → closing c.
Proof. intros H. repeat split; intros ->; done. Qed.

Lemma print_start key sd dd ar t q :
  within key sd dd ar t = true →
  byte_at (print t ++ q) 0 ≠ DBUS_STRUCT_END_CHAR
  ∧ byte_at (print t ++ q) 0 ≠ DBUS_DICT_ENTRY_END_CHAR.
Proof. destruct t; simpl; try done. unfold byte_at. simpl. by intros H; split; intros ->. Qed.

(** The loop runs over the print of [t], counting one element. *)
Definition loop_accepts (key : ty → bool) (t : ty) : Prop :=
  ∀ sd dd ar la n stk after p,
  within key sd dd ar t = true →
  (la = DBUS_DICT_ENTRY_BEGIN_CHAR → accepted_key t = true) →
  ∃ l, closing l ∧
    advances after (print t ++ p) (SigState sd ar dd la (n :: stk))
      p (SigState sd 0 dd l (S n :: stk)).

Lemma loop_accepts_list key ts sd dd ar la n stk after p :
  Forall (loop_accepts key) ts → forallb (within key sd dd 0) ts = true →
  la ≠ DBUS_DICT_ENTRY_BEGIN_CHAR → ar = 0%nat →
  ∃ l, (ts = [] ∧ l = la ∨ closing l) ∧
    advances after (flat_map print ts ++ p) (SigState sd ar dd la (n :: stk))
      p (SigState sd 0 dd l ((n + length ts)%nat :: stk)).
Proof.
  intros HF. revert la n. induction HF as [|t ts Ht HF IH]; intros la n Hw Hla ->.
  { exists la. split; [by left|]. simpl. rewrite Nat.add_0_r. apply advances_refl. }
  simpl in Hw. apply andb_true_iff in Hw as [Hw1 Hw2].
  destruct (Ht sd dd 0%nat la n stk after (flat_map print ts ++ p) Hw1) as (l1 & Hl1 & A1); [done|].
  destruct (IH l1 (S n)) as (l2 & Hl2 & A2); [done|by destruct Hl1 as (_ & _ & ?)|done|].
  exists l2. split.
  - right. by destruct Hl2 as [[_ ->]|].
  - simpl. rewrite <- app_assoc. eapply advances_trans; [exact A1|].
    by rewrite <- Nat.add_succ_comm.
Qed.

Lemma loop_accepts_ty key t :
  (∀ k, key k = true → accepted_key k = true) → loop_accepts key t.
Proof.
  intros Hkey. induction t as [c|t IH|ts IH|k v IHk IHv] using ty_ind';
    intros sd dd ar la n stk after p Hw Hla; cbn [print] in *.
  - exists c. split; [by apply leaf_closing|]. apply advances_turn. apply turn_leaf; [done|].
    intros ->. by apply Hla.
  - simpl in Hw. apply andb_true_iff in Hw as [Har Hw].
    destruct (print_start key sd dd (S ar) t (p ++ after) Hw) as [Hs1 Hs2].
    rewrite app_assoc in Hs1, Hs2.
    destruct (IH sd dd (S ar) DBUS_TYPE_ARRAY n stk after p Hw) as (l & Hl & A); [done|].
    exists l. split; [done|]. eapply advances_trans; [|exact A].
    apply advances_turn, turn_array; [lia| |done..].
    intros ->. by specialize (Hla eq_refl).
  - simpl in Hw. apply andb_true_iff in Hw as [[Hsd Hne]%andb_true_iff Hw].
    destruct (loop_accepts_list key ts (S sd) dd 0 DBUS_STRUCT_BEGIN_CHAR 0 (n :: stk) after
      (DBUS_STRUCT_END_CHAR :: p) IH Hw) as (l & Hl & A); [done..|].
    exists DBUS_STRUCT_END_CHAR. split; [done|].
    change ((?a :: ?b) ++ p) with (a :: (b ++ p)). rewrite <- app_assoc.
    eapply advances_trans; [apply advances_turn, turn_open_struct; lia|].
    eapply advances_trans; [exact A|].
    apply advances_turn, turn_close_struct.
    destruct Hl as [[-> _]|(_ & ? & _)]; [done|done].
  - simpl in Hw. apply andb_true_iff in Hw as [[[[Har Hdd]%andb_true_iff Hk]%andb_true_iff Hwk]%andb_true_iff Hwv].
    destruct (IHk sd (S dd) 0%nat DBUS_DICT_ENTRY_BEGIN_CHAR 0%nat (n :: stk) after
      (print v ++ DBUS_DICT_ENTRY_END_CHAR :: p) Hwk) as (l1 & Hl1 & A1); [auto|].
    destruct (IHv sd (S dd) 0%nat l1 1%nat (n :: stk) after
      (DBUS_DICT_ENTRY_END_CHAR :: p) Hwv) as (l2 & Hl2 & A2); [by destruct Hl1 as (_ & _ & ?)|].
    exists DBUS_DICT_ENTRY_END_CHAR. split; [done|].
    cbn [app]. rewrite <- !app_assoc.
    eapply advances_trans; [apply advances_turn, turn_array; [lia| |done..]|].
    { intros ->. by specialize (Hla eq_refl). }
    eapply advances_trans; [apply advances_turn, turn_open_dict; lia|].
    eapply advances_trans; [exact A1|]. eapply advances_trans; [exact A2|].
    apply advances_turn, turn_close_dict.
Qed.

Lemma loop_accepts_sig key ts after :
  (∀ k, key k = true → accepted_key k = true) → sig_ok key ts = true →
  ∃ l n, advances after (print_sig ts) sig_init [] (SigState 0 0 0 l [n]).
Proof.
  intros Hkey Hok.
  destruct (loop_accepts_list key ts 0 0 0 DBUS_TYPE_INVALID 0 [] after [])
    as (l & _ & A); [|done..|].
  - apply Forall_forall. intros t _. by apply loop_accepts_ty.
  - rewrite app_nil_r in A. eauto.
Qed.

(** ** What a turn requires *)

Lemma turns_to_det c p1 st st1 st2 m m' :
  turns_to c p1 st st1 → sig_turn c p1 st m = (inr st2, m') → st2 = st1.
Proof. intros H E. destruct (H m) as [(m1 & E1 & _)|(m1 & E1 & _)]; congruence. Qed.

Lemma byte_class c :
  leaf c = true ∨ c ∈ [DBUS_TYPE_ARRAY; DBUS_STRUCT_BEGIN_CHAR; DBUS_STRUCT_END_CHAR;
                       DBUS_DICT_ENTRY_BEGIN_CHAR; DBUS_DICT_ENTRY_END_CHAR]
  ∨ ∀ p1 st m, fst (sig_turn c p1 st m) = inl DBUS_INVALID_UNKNOWN_TYPECODE.
Proof.
  destruct (leaf c) eqn:E; [by left|right].
  destruct (existsb (Byte.eqb c) [DBUS_TYPE_ARRAY; DBUS_STRUCT_BEGIN_CHAR; DBUS_STRUCT_END_CHAR;
                       DBUS_DICT_ENTRY_BEGIN_CHAR; DBUS_DICT_ENTRY_END_CHAR]) eqn:Ex.
  - left. apply existsb_exists in Ex as (x & Hx & ->%byte_eqb_eq). by apply list_elem_of_In.
  - right. intros p1 [sd ad dd la stack] m. unfold sig_turn, sig_switch. by destruct c.
Qed.

(** The conditions under which a turn goes on, and the state it leads to. *)
Inductive goes_on (p1 : byte) (sd ar dd : nat) (la : byte) (n : nat) (stk : list nat) :
    byte → sig_state → Prop :=
| go_leaf c :
    leaf c = true → (la = DBUS_DICT_ENTRY_BEGIN_CHAR → dbus_type_is_basic c = true) →
    goes_on p1 sd ar dd la n stk c (SigState sd 0 dd c (S n :: stk))
| go_array :
    (ar < DBUS_MAXIMUM_TYPE_RECURSION_DEPTH)%nat → la ≠ DBUS_DICT_ENTRY_BEGIN_CHAR →
    p1 ≠ DBUS_STRUCT_END_CHAR → p1 ≠ DBUS_DICT_ENTRY_END_CHAR →
    goes_on p1 sd ar dd la n stk DBUS_TYPE_ARRAY
      (SigState sd (S ar) dd DBUS_TYPE_ARRAY (n :: stk))
| go_open_struct :
    (sd < DBUS_MAXIMUM_TYPE_RECURSION_DEPTH)%nat →
    goes_on p1 sd ar dd la n stk DBUS_STRUCT_BEGIN_CHAR
      (SigState (S sd) 0 dd DBUS_STRUCT_BEGIN_CHAR (0%nat :: n :: stk))
| go_close_struct sd' n' stk' :
    sd = S sd' → la ≠ DBUS_STRUCT_BEGIN_CHAR → stk = n' :: stk' →
    goes_on p1 sd ar dd la n stk DBUS_STRUCT_END_CHAR
      (SigState sd' 0 dd DBUS_STRUCT_END_CHAR (S n' :: stk'))
| go_open_dict :
    la = DBUS_TYPE_ARRAY → (dd < DBUS_MAXIMUM_TYPE_RECURSION_DEPTH)%nat →
    goes_on p1 sd ar dd la n stk DBUS_DICT_ENTRY_BEGIN_CHAR
      (SigState sd 0 (S dd) DBUS_DICT_ENTRY_BEGIN_CHAR (0%nat :: n :: stk))
| go_close_dict dd' n' stk' :
    dd = S dd' → n = 2%nat → stk = n' :: stk' →
    goes_on p1 sd ar dd la n stk DBUS_DICT_ENTRY_END_CHAR
      (SigState sd 0 dd' DBUS_DICT_ENTRY_END_CHAR (S n' :: stk')).

Lemma sig_turn_inv c p1 sd ar dd la n stk st' m m' :
  length stk = (sd + dd)%nat →
  sig_turn c p1 (SigState sd ar dd la (n :: stk)) m = (inr st', m') →
  goes_on p1 sd ar dd la n stk c st'.
Proof.
  intros Hstk E. destruct (byte_class c) as [Hc|[Hc|Hc]].
  - assert (la = DBUS_DICT_ENTRY_BEGIN_CHAR → dbus_type_is_basic c = true) as Hk.
    { intros ->. destruct (dbus_type_is_basic c) eqn:Eb; [done|exfalso].
      assert (c = DBUS_TYPE_VARIANT) as ->.
      { pose proof (byte_enum (λ c, implb (leaf c && negb (dbus_type_is_basic c))
          (c =b DBUS_TYPE_VARIANT)) ltac:(vm_compute; reflexivity) c) as V.
        cbv beta in V. rewrite Hc, Eb in V. by apply byte_eqb_eq. }
      revert E. unfold sig_turn. cbn -[push]. unfold sig_count. byte_tests. cbn -[push].
      match goal with |- context [push ?k ?s ?mm] =>
        destruct (push_cases k s mm) as [(? & -> & _)|(? & -> & _)] end; cbn -[Nat.ltb]; [|done].
      byte_tests. by destruct (0 <? ar)%nat. }
    rewrite (turns_to_det _ _ _ _ _ _ _ (turn_leaf c p1 sd ar dd la n stk Hc Hk) E). by constructor.
  - rewrite !elem_of_cons, elem_of_nil in Hc. destruct Hc as [->|[->|[->|[->|[->|[]]]]]].
    + assert ((ar < DBUS_MAXIMUM_TYPE_RECURSION_DEPTH)%nat ∧ la ≠ DBUS_DICT_ENTRY_BEGIN_CHAR
        ∧ p1 ≠ DBUS_STRUCT_END_CHAR ∧ p1 ≠ DBUS_DICT_ENTRY_END_CHAR) as (H1 & H2 & H3 & H4).
      { revert E. unfold sig_turn. cbn -[Nat.ltb]. destruct (_ <? _)%nat eqn:El; [done|].
        unfold sig_count, sig_tests. byte_tests. rewrite (proj2 (Nat.ltb_lt 0 _)) by lia.
        destruct (byte_eqb_spec p1 DBUS_STRUCT_END_CHAR), (byte_eqb_spec p1 DBUS_DICT_ENTRY_END_CHAR),
          (byte_eqb_spec la DBUS_DICT_ENTRY_BEGIN_CHAR); try done. intros _. repeat split; try done. lia. }
      rewrite (turns_to_det _ _ _ _ _ _ _ (turn_array p1 sd ar dd la (n :: stk) H1 H2 H3 H4) E).
      by constructor.
    + assert (sd < DBUS_MAXIMUM_TYPE_RECURSION_DEPTH)%nat as H1.
      { revert E. unfold sig_turn. cbn -[Nat.ltb push]. destruct (_ <? _)%nat eqn:El; [done|lia]. }
      rewrite (turns_to_det _ _ _ _ _ _ _ (turn_open_struct p1 sd ar dd la (n :: stk) H1) E).
      by constructor.
    + revert E. destruct (byte_eqb_spec la DBUS_STRUCT_BEGIN_CHAR) as [->|H1];
        destruct sd as [|sd']; try done. intros E.
      destruct stk as [|n' stk']; [simpl in Hstk; lia|].
      rewrite (turns_to_det _ _ _ _ _ _ _ (turn_close_struct p1 sd' ar dd la n n' stk' H1) E).
      by econstructor.
    + revert E. destruct (byte_eqb_spec la DBUS_TYPE_ARRAY) as [->|H1].
      * intros E. assert (dd < DBUS_MAXIMUM_TYPE_RECURSION_DEPTH)%nat as H1.
        { revert E. unfold sig_turn. cbn -[Nat.ltb push]. byte_tests.
          destruct (_ <? _)%nat eqn:El; [done|lia]. }
        rewrite (turns_to_det _ _ _ _ _ _ _ (turn_open_dict p1 sd ar dd (n :: stk) H1) E).
        by constructor.
      * unfold sig_turn. cbn -[push]. by rewrite (proj2 (byte_eqb_neq _ _)) by done.
    + destruct dd as [|dd']; [done|]. destruct stk as [|n' stk']; [simpl in Hstk; lia|].
      destruct (decide (n = 2%nat)) as [->|Hn].
      * rewrite (turns_to_det _ _ _ _ _ _ _ (turn_close_dict p1 sd ar dd' la n' stk') E).
        by econstructor.
      * revert E. unfold sig_turn. cbn -[push Nat.eqb]. change (S dd' =? 0)%nat with false.
        cbn -[push Nat.eqb]. by rewrite (proj2 (Nat.eqb_neq n 2)) by done.
  - specialize (Hc p1 (SigState sd ar dd la (n :: stk)) m). by rewrite E in Hc.
Qed.

(** ** Reading the grammar back

    The loop is simulated by a parser that keeps the types read so far: the
    current level, and for each open bracket the level around it. *)

Record level := Level { done_ : list ty; pend : nat }.

(** The open brackets, innermost first, [true] for a dict entry. *)
Definition context := list (bool * level).

Definition bracket (b : bool) : byte :=
  if b then DBUS_DICT_ENTRY_BEGIN_CHAR else DBUS_STRUCT_BEGIN_CHAR.

Definition print_level (l : level) : bytes :=
  print_sig (done_ l) ++ replicate (pend l) DBUS_TYPE_ARRAY.

Fixpoint print_ctx (ctx : context) : bytes :=
  match ctx with
  | [] => []
  | (b, l) :: ctx' => print_ctx ctx' ++ print_level l ++ [bracket b]
  end.

Fixpoint depth (b : bool) (ctx : context) : nat :=
  match ctx with
  | [] => 0
  | (b', _) :: ctx' => (if Bool.eqb b b' then 1 else 0) + depth b ctx'
  end%nat.

Definition opens (ctx : context) : bytes := map (bracket ∘ fst) ctx.

Definition in_dict (ctx : context) : Prop := match ctx with (true, _) :: _ => True | _ => False end.
Definition in_struct (ctx : context) : Prop := match ctx with (false, _) :: _ => True | _ => False end.

Definition wrap (n : nat) (t : ty) : ty := Nat.iter n TArray t.

Definition level_ok (ctx : context) (l : level) : Prop :=
  forallb (within accepted_key (depth false ctx) (depth true ctx) 0) (done_ l) = true
  ∧ (pend l <= DBUS_MAXIMUM_TYPE_RECURSION_DEPTH)%nat
  ∧ (in_dict ctx → match done_ l with [] => pend l = 0%nat | k :: _ => accepted_key k = true end).

Fixpoint ctx_ok (ctx : context) : Prop :=
  match ctx with
  | [] => True
  | (b, l) :: ctx' =>
      ctx_ok ctx' ∧ level_ok ctx' l
      ∧ (depth b ctx' < DBUS_MAXIMUM_TYPE_RECURSION_DEPTH)%nat
      ∧ (b = true → (0 < pend l)%nat ∧ (in_dict ctx' → done_ l ≠ []))
  end.

(** The state of the loop and of the parser agree. *)
Record parses (st : sig_state) (ctx : context) (l : level) : Prop := {
  p_struct : struct_depth st = depth false ctx;
  p_dict : dict_entry_depth st = depth true ctx;
  p_array : array_depth st = pend l;
  p_stack : element_count_stack st = length (done_ l) :: map (λ bl, length (done_ (snd bl))) ctx;
  p_last_array : last st = DBUS_TYPE_ARRAY → (0 < pend l)%nat;
  p_last_dict : in_dict ctx → done_ l = [] → last st = DBUS_DICT_ENTRY_BEGIN_CHAR;
  p_last_struct : in_struct ctx → done_ l = [] → pend l = 0%nat → last st = DBUS_STRUCT_BEGIN_CHAR;
  p_ctx : ctx_ok ctx;
  p_level : level_ok ctx l
}.

Lemma print_wrap n t : print (wrap n t) = replicate n DBUS_TYPE_ARRAY ++ print t.
Proof. induction n as [|n IH]; [done|]. simpl. by rewrite <- IH. Qed.

Lemma within_wrap key sd dd ar n t :
  (ar + n <= DBUS_MAXIMUM_TYPE_RECURSION_DEPTH)%nat →
  within key sd dd ar (wrap n t) = within key sd dd (ar + n) t.
Proof.
  revert ar. induction n as [|n IH]; intros ar Hn; [by rewrite Nat.add_0_r|].
  simpl. rewrite (proj2 (Nat.ltb_lt _ _)) by lia. cbn [andb].
  rewrite (IH (S ar)) by lia. f_equal. lia.
Qed.

Lemma depth_length ctx : length ctx = (depth false ctx + depth true ctx)%nat.
Proof. induction ctx as [|[[] l] ctx IH]; simpl; lia. Qed.

(** Completing a type in the current level. *)
Definition complete (l : level) (t : ty) : level := Level (done_ l ++ [t]) 0.

Lemma print_complete l n t :
  (n <= pend l)%nat → print t = replicate n DBUS_TYPE_ARRAY ++ drop n (print t) →
  print_level (complete l (wrap (pend l - n) t)) = print_level l ++ drop n (print t).
Proof.
  intros Hn Ht. unfold print_level, complete, print_sig. simpl. rewrite flat_map_app. simpl.
  rewrite !app_nil_r, print_wrap, Ht, drop_app_length' by (by rewrite length_replicate).
  rewrite <- app_assoc. f_equal. rewrite app_assoc. f_equal.
  rewrite <- replicate_add. f_equal. lia.
Qed.

(** The new level is in order when the type is and, as a dict key, is allowed. *)
Lemma level_ok_complete ctx l n t :
  level_ok ctx l → (n <= pend l)%nat →
  within accepted_key (depth false ctx) (depth true ctx) (pend l - n) t = true →
  (in_dict ctx → done_ l = [] → accepted_key t = true) →
  level_ok ctx (complete l (wrap (pend l - n) t)).
Proof.
  intros (H1 & H2 & H3) Hn Hw Hk. unfold level_ok, complete. simpl.
  rewrite forallb_app, H1. simpl. rewrite within_wrap by lia. simpl.
  rewrite Hw. split; [done|]. split; [lia|]. intros Hd. specialize (H3 Hd).
  destruct (done_ l) as [|k ks]; [|done]. simpl. replace (pend l - n)%nat with 0%nat by lia.
  by apply Hk.
Qed.

(** After a complete type, the state has one more element and no pending array. *)
Lemma parses_complete ctx l t c :
  ctx_ok ctx → level_ok ctx (complete l t) → closing c →
  parses (SigState (depth false ctx) 0 (depth true ctx) c
            (S (length (done_ l)) :: map (λ bl, length (done_ (snd bl))) ctx))
    ctx (complete l t).
Proof.
  intros Hc Hl (Ha & Hs & Hd). split; simpl; try done.
  - rewrite length_app. simpl. f_equal. lia.
  - intros _ E. by apply app_nil in E as [_ E].
  - intros _ E. by apply app_nil in E as [_ E].
Qed.

Lemma step_leaf st ctx l c :
  parses st ctx l → leaf c = true →
  (last st = DBUS_DICT_ENTRY_BEGIN_CHAR → dbus_type_is_basic c = true) →
  level_ok ctx (complete l (wrap (pend l) (TLeaf c))).
Proof.
  intros P Hc Hk. pose proof (level_ok_complete ctx l 0 (TLeaf c) (p_level _ _ _ P)) as H.
  rewrite Nat.sub_0_r in H. apply H; [lia|done|].
  intros Hd Hn. apply Hk. by apply (p_last_dict _ _ _ P).
Qed.

Lemma step_close_struct st b l0 ctx l :
  parses st ((b, l0) :: ctx) l → b = false → pend l = 0%nat → last st ≠ DBUS_STRUCT_BEGIN_CHAR →
  level_ok ctx (complete l0 (wrap (pend l0) (TStruct (done_ l)))).
Proof.
  intros P -> Hp Hl. pose proof (p_ctx _ _ _ P) as (Hc & Hl0 & Hd & _).
  pose proof (level_ok_complete ctx l0 0 (TStruct (done_ l)) Hl0) as H.
  rewrite Nat.sub_0_r in H. apply H; [lia| |done]. simpl.
  destruct (p_level _ _ _ P) as (H1 & _ & _). simpl in H1. rewrite H1.
  rewrite (proj2 (Nat.ltb_lt _ _)) by done. rewrite (proj2 (Nat.ltb_lt 0 _)); [done|].
  destruct (done_ l) eqn:E; [|simpl; lia].
  by destruct Hl; apply (p_last_struct _ _ _ P).
Qed.

Lemma step_close_dict st b l0 ctx l k v :
  parses st ((b, l0) :: ctx) l → b = true → done_ l = [k; v] →
  (0 < pend l0)%nat ∧ level_ok ctx (complete l0 (wrap (pend l0 - 1) (TDict k v))).
Proof.
  intros P -> Hd. pose proof (p_ctx _ _ _ P) as (Hc & Hl0 & Hdp & Hb).
  destruct (Hb eq_refl) as [Hp Hne]. split; [done|].
  apply level_ok_complete; [done|lia| |intros ? ?; by destruct Hne].
  destruct (p_level _ _ _ P) as (H1 & H2 & H3). rewrite Hd in H1, H3. simpl in H1.
  destruct Hl0 as (_ & Hmax & _). simpl.
  rewrite !(proj2 (Nat.ltb_lt _ _)), (H3 I) by lia. cbn [andb].
  apply andb_true_iff in H1 as [-> [-> _]%andb_true_iff]. done.
Qed.

Lemma print_ctx_snoc ctx l0 b l tail :
  print_ctx ((b, l0) :: ctx) ++ print_level l ++ tail
  = print_ctx ctx ++ print_level l0 ++ bracket b :: print_level l ++ tail.
Proof. simpl. by rewrite <- !app_assoc. Qed.

Lemma print_level_done l : pend l = 0%nat → print_level l = print_sig (done_ l).
Proof. intros E. unfold print_level. by rewrite E, app_nil_r. Qed.

(** Opening a bracket starts an empty level. *)
Lemma parses_open st ctx l b :
  parses st ctx l → (depth b ctx < DBUS_MAXIMUM_TYPE_RECURSION_DEPTH)%nat →
  (b = true → (0 < pend l)%nat ∧ (in_dict ctx → done_ l ≠ [])) →
  parses (SigState (depth false ((b, l) :: ctx)) 0 (depth true ((b, l) :: ctx)) (bracket b)
            (0%nat :: length (done_ l) :: map (λ bl, length (done_ (snd bl))) ctx))
    ((b, l) :: ctx) (Level [] 0).
Proof.
  intros P Hd Hb. split; try done; simpl.
  - by destruct b.
  - by destruct b.
  - by destruct b.
  - split; [apply P|]. split; [apply P|]. done.
  - split; [done|]. split; [apply Nat.le_0_l|done].
Qed.

Lemma opens_step ctx c p :
  well_bracketed (opens ctx) (c :: p) = true →
  (leaf c = true ∨ c = DBUS_TYPE_ARRAY → well_bracketed (opens ctx) p = true)
  ∧ (∀ b l, c = bracket b → well_bracketed (opens ((b, l) :: ctx)) p = true)
  ∧ (c = DBUS_STRUCT_END_CHAR →
     ∃ l ctx', ctx = (false, l) :: ctx' ∧ well_bracketed (opens ctx') p = true)
  ∧ (c = DBUS_DICT_ENTRY_END_CHAR →
     ∃ l ctx', ctx = (true, l) :: ctx' ∧ well_bracketed (opens ctx') p = true).
Proof.
  intros H. cbn [well_bracketed] in H. split; [|split; [|split]].
  - intros [Hc| ->]; [|done]. revert H.
    destruct (byte_eqb_spec c "("), (byte_eqb_spec c "{"), (byte_eqb_spec c ")"), (byte_eqb_spec c "}");
      subst; done.
  - intros [] l ->; done.
  - intros ->. destruct ctx as [|[[] l] ctx]; try done. eauto.
  - intros ->. destruct ctx as [|[[] l] ctx]; try done. eauto.
Qed.

Lemma parse_step c p1 st ctx l st' p :
  parses st ctx l →
  goes_on p1 (struct_depth st) (array_depth st) (dict_entry_depth st) (last st)
    (length (done_ l)) (map (λ bl, length (done_ (snd bl))) ctx) c st' →
  ((0 < pend l)%nat → c ≠ DBUS_STRUCT_END_CHAR ∧ c ≠ DBUS_DICT_ENTRY_END_CHAR) →
  well_bracketed (opens ctx) (c :: p) = true →
  ∃ ctx' l', parses st' ctx' l'
    ∧ print_ctx ctx' ++ print_level l' = print_ctx ctx ++ print_level l ++ [c]
    ∧ well_bracketed (opens ctx') p = true.
Proof.
  intros P G Hclose (W1 & W2 & W3 & W4)%opens_step.
  rewrite (p_struct _ _ _ P), (p_dict _ _ _ P), (p_array _ _ _ P) in G.
  inversion G as [c' Hc Hk|Har Hla _ _|Hsd|sd' n' stk' Esd Hla Estk|Hla Hdd|dd' n' stk' Edd En Estk];
    subst; clear G.
  - exists ctx, (complete l (wrap (pend l) (TLeaf c))). split; [|split; [|auto]].
    + apply parses_complete; [apply P|by eapply step_leaf|by apply leaf_closing].
    + pose proof (print_complete l 0 (TLeaf c)) as E. rewrite Nat.sub_0_r in E.
      by rewrite E by (done || lia).
  - exists ctx, (Level (done_ l) (S (pend l))). split; [|split; [|auto]].
    + destruct (p_level _ _ _ P) as (H1 & H2 & H3).
      split; simpl; try done; try apply P; try lia.
      * intros Hd Hn. by destruct Hla; apply (p_last_dict _ _ _ P).
      * split; [done|]. split; [simpl; lia|]. intros Hd. specialize (H3 Hd). simpl.
        destruct (done_ l) eqn:E; [|done]. by destruct Hla; apply (p_last_dict _ _ _ P).
    + unfold print_level. simpl. rewrite replicate_cons_app, <- app_assoc. done.
  - exists ((false, l) :: ctx), (Level [] 0). split; [by apply (parses_open st ctx l false)|].
    split; [|by apply W2]. simpl. by rewrite app_nil_r.
  - destruct (W3 eq_refl) as (l0 & ctx' & -> & W). simpl in Esd, Estk. injection Estk as <- <-.
    assert (pend l = 0%nat) as Hp by (destruct (pend l); [done|by destruct Hclose; [lia|]]).
    exists ctx', (complete l0 (wrap (pend l0) (TStruct (done_ l)))). split; [|split; [|done]].
    + injection Esd as <-. apply (parses_complete ctx' l0); [apply (proj1 (p_ctx _ _ _ P))| |done].
      by eapply step_close_struct.
    + pose proof (print_complete l0 0 (TStruct (done_ l))) as E. rewrite Nat.sub_0_r in E.
      rewrite E by (done || lia). rewrite print_ctx_snoc.
      by rewrite (print_level_done l) by done.
  - pose proof (p_last_array _ _ _ P Hla) as Hp.
    exists ((true, l) :: ctx), (Level [] 0). split; [apply (parses_open st ctx l true); [done|done|]|].
    { intros _. split; [lia|]. intros Hd Hn. by rewrite (p_last_dict _ _ _ P Hd Hn) in Hla. }
    split; [|by apply W2]. simpl. by rewrite app_nil_r.
  - destruct (W4 eq_refl) as (l0 & ctx' & -> & W). simpl in Edd, Estk. injection Estk as <- <-.
    assert (pend l = 0%nat) as Hp by (destruct (pend l); [done|by destruct Hclose; [lia|]]).
    destruct (done_ l) as [|k [|v [|]]] eqn:Ed; try done.
    destruct (step_close_dict _ _ _ _ _ k v P eq_refl Ed) as [Hp0 Hlv].
    exists ctx', (complete l0 (wrap (pend l0 - 1) (TDict k v))). split; [|split; [|done]].
    + injection Edd as <-. by apply (parses_complete ctx' l0); [apply (proj1 (p_ctx _ _ _ P))| |].
    + rewrite (print_complete l0 1 (TDict k v)) by (done || lia). rewrite print_ctx_snoc.
      rewrite (print_level_done l) by done. unfold print_sig. rewrite Ed. simpl.
      by rewrite !app_nil_r, <- !app_assoc.
Qed.

Lemma sig_loop_sound p after st ctx l m m' :
  sig_loop p after st m = (DBUS_VALID, m') →
  parses st ctx l →
  ((0 < pend l)%nat → byte_at (p ++ after) 0 ≠ DBUS_STRUCT_END_CHAR
                      ∧ byte_at (p ++ after) 0 ≠ DBUS_DICT_ENTRY_END_CHAR) →
  well_bracketed (opens ctx) p = true →
  ∃ ts, sig_ok accepted_key ts = true ∧ print_ctx ctx ++ print_level l ++ p = print_sig ts.
Proof.
  revert st ctx l m. induction p as [|c p IH]; intros st ctx l m E P Hn W.
  - simpl in E. unfold sig_end in E. rewrite (p_array _ _ _ P), (p_struct _ _ _ P), (p_dict _ _ _ P) in E.
    destruct (0 <? pend l)%nat eqn:E1; [done|]. destruct (0 <? depth false ctx)%nat eqn:E2; [done|].
    destruct (0 <? depth true ctx)%nat eqn:E3; [done|]. pose proof (depth_length ctx).
    destruct ctx; [|simpl in *; lia]. exists (done_ l). split; [by destruct (p_level _ _ _ P)|].
    unfold print_level. replace (pend l) with 0%nat by lia. simpl. by rewrite !app_nil_r.
  - simpl in E. destruct (sig_turn c _ st m) as [[v|st'] m1] eqn:Et.
    { injection E as -> ->. destruct st; clear -Et.
      unfold sig_turn, sig_switch, sig_count, sig_tests, push in Et.
      repeat (case_match; simplify_eq/=; try done). }
    pose proof Et as Et'. destruct st as [sd ar dd la stk] eqn:Est. rewrite <- Est in *.
    assert (goes_on (byte_at (p ++ after) 0) (struct_depth st) (array_depth st) (dict_entry_depth st)
      (last st) (length (done_ l)) (map (λ bl, length (done_ (snd bl))) ctx) c st') as G.
    { eapply sig_turn_inv; [rewrite length_map, (p_struct _ _ _ P), (p_dict _ _ _ P); apply depth_length|].
      rewrite <- (p_stack _ _ _ P). rewrite Est in *. exact Et. }
    destruct (parse_step c _ st ctx l st' p P G Hn W) as (ctx' & l' & P' & Ep & W').
    destruct (IH st' ctx' l' m1 E P') as (ts & Hok & Ets); [|done|].
    + rewrite <- (p_array _ _ _ P'). inversion G; simpl; try lia; done.
    + exists ts. split; [done|]. rewrite <- Ets, (app_assoc (print_ctx ctx')), Ep.
      rewrite <- !app_assoc. done.
Qed.

(** ** Walking over a signature *)

(** The loops of [_dbus_type_signature_next] that look for the end of a struct
    or dict entry; [p] is behind the opening bracket, and running off the end of
    the string is [None]. *)
Fixpoint skip_to_close (open close : byte) (depth : nat) (p : bytes) : option bytes :=
  match p with
  | [] => None
  | c :: p' =>
      if c =b open then skip_to_close open close (depth + 1) p'
      else if c =b close then
        if (depth - 1 =? 0)%nat then Some p'
        else skip_to_close open close (depth - 1) p'
      else skip_to_close open close depth p'
  end.

Fixpoint skip_arrays (p : bytes) : bytes :=
  match p with
  | c :: p' => if c =b DBUS_TYPE_ARRAY then skip_arrays p' else p
  | [] => []
  end.

(** The position behind the complete type at [type_pos]. *)
Definition _dbus_type_signature_next (type_str : bytes) (type_pos : nat) : option nat :=
  let after_arrays := skip_arrays (drop type_pos type_str) in
  let pos_of p := (length type_str - length p)%nat in
  match after_arrays with
  | c :: p' =>
      if c =b DBUS_STRUCT_BEGIN_CHAR then
        pos_of <$> skip_to_close DBUS_STRUCT_BEGIN_CHAR DBUS_STRUCT_END_CHAR 1 p'
      else if c =b DBUS_DICT_ENTRY_BEGIN_CHAR then
        pos_of <$> skip_to_close DBUS_DICT_ENTRY_BEGIN_CHAR DBUS_DICT_ENTRY_END_CHAR 1 p'
      else Some (pos_of p')
  | [] => Some (length type_str + 1)%nat
  end.

(** [DBusSignatureRealIter] over the signature [sig]. *)
Record DBusSignatureRealIter := SigIter { pos : nat; finished : bool; in_array : bool }.

Definition dbus_signature_iter_init : DBusSignatureRealIter := SigIter 0 false false.

Definition dbus_signature_iter_get_current_type (sig : bytes) (it : DBusSignatureRealIter) : byte :=
  _dbus_first_type_in_signature sig (pos it).

(** The single complete type at the iterator (allocation aside). *)
Definition dbus_signature_iter_get_signature (sig : bytes) (it : DBusSignatureRealIter) :
    option bytes :=
  e ← _dbus_type_signature_next sig (pos it);
  Some (sub sig (pos it) (e - pos it)).

Definition dbus_signature_iter_get_element_type (sig : bytes) (it : DBusSignatureRealIter) : byte :=
  if negb (dbus_signature_iter_get_current_type sig it =b DBUS_TYPE_ARRAY) then DBUS_TYPE_INVALID
  else _dbus_first_type_in_signature sig (pos it + 1).

Definition dbus_signature_iter_next (sig : bytes) (it : DBusSignatureRealIter) :
    option (bool * DBusSignatureRealIter) :=
  if finished it then Some (false, it)
  else if in_array it then Some (false, SigIter (pos it) true (in_array it))
  else
    e ← _dbus_type_signature_next sig (pos it);
    let c := byte_at sig e in
    if (c =b DBUS_STRUCT_END_CHAR) || (c =b DBUS_DICT_ENTRY_END_CHAR)
    then Some (false, SigIter e true (in_array it))
    else Some (negb (c =b DBUS_TYPE_INVALID), SigIter e (finished it) (in_array it)).

Definition dbus_signature_iter_recurse (sig : bytes) (it : DBusSignatureRealIter) :
    DBusSignatureRealIter :=
  if negb (dbus_type_is_container (dbus_signature_iter_get_current_type sig it)) then it
  else
    SigIter (pos it + 1) (finished it)
      (dbus_signature_iter_get_current_type sig it =b DBUS_TYPE_ARRAY).

(** [dbus_signature_validate] and [dbus_signature_validate_single]; the error
    they set is the FALSE they return. *)
Definition dbus_signature_validate (signature : bytes) (m : mem) : bool * mem :=
  _dbus_validate_signature signature 0 (length signature) m.

Definition dbus_signature_validate_single (signature : bytes) (m : mem) : option bool * mem :=
  let '(ok, m') := dbus_signature_validate signature m in
  if negb ok then (Some false, m')
  else
    let it := dbus_signature_iter_init in
    if dbus_signature_iter_get_current_type signature it =b DBUS_TYPE_INVALID
    then (Some false, m')
    else ((λ '(more, _), negb more) <$> dbus_signature_iter_next signature it, m').

(** *** Lemmas *)

(** The brackets of one kind are balanced in the print of a type. *)
Lemma skip_print b t d q key sd dd ar :
  within key sd dd ar t = true →
  let open := bracket b in
  let close := if b then DBUS_DICT_ENTRY_END_CHAR else DBUS_STRUCT_END_CHAR in
  skip_to_close open close (S d) (print t ++ q) = skip_to_close open close (S d) q.
Proof.
  intros Hw. cbv zeta. revert d q sd dd ar Hw.
  induction t as [c|t IH|ts IH|k v IHk IHv] using ty_ind'; intros d q sd dd ar Hw.
  - simpl. rewrite !(proj2 (byte_eqb_neq _ _)); [done|..]; destruct b; intros ->; done.
  - simpl in *. apply andb_true_iff in Hw as [_ Hw]. destruct b; byte_tests; eauto.
  - simpl in Hw. apply andb_true_iff in Hw as [_ Hw].
    assert (∀ d q, skip_to_close (bracket b) (if b then DBUS_DICT_ENTRY_END_CHAR else DBUS_STRUCT_END_CHAR)
      (S d) (flat_map print ts ++ q) = skip_to_close (bracket b)
      (if b then DBUS_DICT_ENTRY_END_CHAR else DBUS_STRUCT_END_CHAR) (S d) q) as Hts.
    { clear d q. induction IH as [|t ts Ht HF IHts]; intros d q; [done|].
      simpl in *. apply andb_true_iff in Hw as [Hw1 Hw2]. rewrite <- app_assoc.
      erewrite Ht by done. by apply IHts. }
    simpl. destruct b; byte_tests; rewrite <- app_assoc.
    + rewrite Hts. simpl. by byte_tests.
    + rewrite <- Nat.add_succ_l, Nat.add_1_r, Hts. simpl. byte_tests. by replace (S (S d) - 1)%nat with (S d) by lia.
  - simpl in Hw. apply andb_true_iff in Hw as [[_ Hwk]%andb_true_iff Hwv].
    simpl. destruct b; byte_tests; rewrite <- !app_assoc.
    + rewrite <- Nat.add_succ_l, Nat.add_1_r. erewrite IHk, IHv by done. simpl. byte_tests.
      by replace (S (S d) - 1)%nat with (S d) by lia.
    + erewrite IHk, IHv by done. simpl. by byte_tests.
Qed.

Lemma skip_prints b ts d q key sd dd :
  forallb (within key sd dd 0) ts = true →
  let open := bracket b in
  let close := if b then DBUS_DICT_ENTRY_END_CHAR else DBUS_STRUCT_END_CHAR in
  skip_to_close open close (S d) (flat_map print ts ++ q) = skip_to_close open close (S d) q.
Proof.
  cbv zeta. induction ts as [|t ts IH]; [done|]. simpl. intros [Hw1 Hw2]%andb_true_iff.
  rewrite <- app_assoc. pose proof (skip_print b t d (flat_map print ts ++ q) key sd dd 0 Hw1) as E.
  cbv zeta in E. rewrite E. by apply IH.
Qed.

(** Behind the array codes of a type stands its last constituent, behind which
    comes the rest of the signature. *)
Lemma skip_arrays_print t q key sd dd ar :
  within key sd dd ar t = true →
  ∃ c p', skip_arrays (print t ++ q) = c :: p'
    ∧ (if c =b DBUS_STRUCT_BEGIN_CHAR then
         skip_to_close DBUS_STRUCT_BEGIN_CHAR DBUS_STRUCT_END_CHAR 1 p'
       else if c =b DBUS_DICT_ENTRY_BEGIN_CHAR then
         skip_to_close DBUS_DICT_ENTRY_BEGIN_CHAR DBUS_DICT_ENTRY_END_CHAR 1 p'
       else Some p') = Some q.
Proof.
  revert ar. induction t as [c|t IH|ts _|k v _ _] using ty_ind'; intros ar Hw.
  - exists c, q. simpl in *. by rewrite !(proj2 (byte_eqb_neq _ _)) by (by intros ->).
  - simpl in *. apply andb_true_iff in Hw as [_ Hw]. by eapply IH.
  - simpl in *. apply andb_true_iff in Hw as [_ Hw]. do 2 eexists. split; [done|]. byte_tests.
    rewrite <- app_assoc. pose proof (skip_prints false ts 0 (DBUS_STRUCT_END_CHAR :: q) key _ _ Hw) as E.
    etrans; [exact E|]. done.
  - simpl in *. apply andb_true_iff in Hw as [[_ Hwk]%andb_true_iff Hwv]. do 2 eexists.
    split; [done|]. byte_tests. rewrite <- !app_assoc.
    pose proof (skip_print true k 0 (print v ++ DBUS_DICT_ENTRY_END_CHAR :: q) key _ _ _ Hwk) as E1.
    pose proof (skip_print true v 0 (DBUS_DICT_ENTRY_END_CHAR :: q) key _ _ _ Hwv) as E2.
    etrans; [exact E1|]. etrans; [exact E2|]. done.
Qed.

Lemma signature_next_print pre t post key sd dd ar :
  within key sd dd ar t = true →
  _dbus_type_signature_next (pre ++ print t ++ post) (length pre)
  = Some (length pre + length (print t))%nat.
Proof.
  intros Hw. unfold _dbus_type_signature_next. rewrite drop_app_length.
  destruct (skip_arrays_print t post key sd dd ar Hw) as (c & p' & -> & E).
  assert ((length (pre ++ print t ++ post) - length post)%nat = (length pre + length (print t))%nat) as Hp
    by (rewrite !length_app; lia).
  destruct (c =b DBUS_STRUCT_BEGIN_CHAR); [rewrite E; simpl; by rewrite Hp|].
  destruct (c =b DBUS_DICT_ENTRY_BEGIN_CHAR); [rewrite E; simpl; by rewrite Hp|].
  injection E as ->. by rewrite Hp.
Qed.

(** The first byte of a type is never a nul or a closing bracket. *)
Lemma print_head_open key sd dd ar t q :
  within key sd dd ar t = true →
  (byte_at (print t ++ q) 0 =b DBUS_STRUCT_END_CHAR) = false
  ∧ (byte_at (print t ++ q) 0 =b DBUS_DICT_ENTRY_END_CHAR) = false
  ∧ (byte_at (print t ++ q) 0 =b DBUS_TYPE_INVALID) = false.
Proof.
  intros Hw. destruct (print_start key sd dd ar t q Hw) as [H1 H2].
  split; [by apply byte_eqb_neq|]. split; [by apply byte_eqb_neq|]. apply byte_eqb_neq.
  destruct t; simpl in *; try done. unfold byte_at. simpl. by intros ->.
Qed.

Lemma byte_at_app pre q i : byte_at (pre ++ q) (length pre + i) = byte_at q i.
Proof. unfold byte_at. by rewrite app_nth2_plus. Qed.

(** One step of the iterator. *)
Lemma iter_next_print pre t post key sd dd ar :
  within key sd dd ar t = true →
  dbus_signature_iter_next (pre ++ print t ++ post) (SigIter (length pre) false false)
  = Some (let c := byte_at post 0 in
          let e := (length pre + length (print t))%nat in
          if (c =b DBUS_STRUCT_END_CHAR) || (c =b DBUS_DICT_ENTRY_END_CHAR)
          then (false, SigIter e true false)
          else (negb (c =b DBUS_TYPE_INVALID), SigIter e false false)).
Proof.
  intros Hw. unfold dbus_signature_iter_next. simpl.
  rewrite (signature_next_print _ _ _ _ _ _ _ Hw). simpl.
  assert (byte_at (pre ++ print t ++ post) (length pre + length (print t)) = byte_at post 0) as ->.
  { rewrite byte_at_app. rewrite <- (Nat.add_0_r (length (print t))). apply byte_at_app. }
  by destruct (_ || _).
Qed.

(** *** Theorems *)

(** Found valid, or memory ran out after an allocation was refused. *)
Definition accepted (m : mem) (v : DBusValidity) : Prop :=
  v = DBUS_VALID ∨ (v = DBUS_VALIDITY_UNKNOWN_OOM_ERROR ∧ may_fail m).

Lemma validate_accepts (key : ty → bool) (pre post : bytes) (ts : list ty) (m : mem) :
  (∀ k, key k = true → accepted_key k = true) → sig_ok key ts = true →
  (length (print_sig ts) <= DBUS_MAXIMUM_SIGNATURE_LENGTH)%nat →
  let r := _dbus_validate_signature_with_reason (pre ++ print_sig ts ++ post)
             (length pre) (length (print_sig ts)) m in
  accepted m (fst r) ∧ (fst r = DBUS_VALID → may_fail (snd r) → may_fail m).
Proof.
  intros Hkey Hok Hlen. unfold accepted, _dbus_validate_signature_with_reason.
  destruct (alloc m) as [[] m1] eqn:Em; simpl;
    [|split; [right; split; [done|by eapply alloc_fail]|done]].
  rewrite (proj2 (Nat.ltb_ge _ _)) by done.
  assert (sub (pre ++ print_sig ts ++ post) (length pre) (length (print_sig ts)) = print_sig ts) as ->.
  { unfold sub. by rewrite drop_app_length, take_app_length. }
  destruct (loop_accepts_sig key ts (drop (length pre + length (print_sig ts))
    (pre ++ print_sig ts ++ post))) as (l & n & A); [done|done|].
  destruct (A m1) as [(m2 & -> & Hm)|[-> ?]]; (split; [|]).
  - by left.
  - intros _ H2. eapply alloc_mono; [exact Em|auto].
  - right. split; [done|by eapply alloc_mono].
  - done.
Qed.

(** The limits of the specification are within those of the code. *)
Lemma conforms_within t : ∀ sd ar dd ar',
  (dd <= ar)%nat → (ar' <= ar)%nat → conforms sd ar t = true → within basic_key sd dd ar' t = true.
Proof.
  induction t as [c|t IH|ts IH|k v IHk IHv] using ty_ind'; intros sd ar dd ar' Hd Ha; simpl;
    [done|rewrite !andb_true_iff, !Nat.ltb_lt..].
  - intros [H1 H2]. split; [lia|]. eapply IH; [| |exact H2]; lia.
  - intros [[H1 H2] H3]. split; [done|]. rewrite forallb_forall in H3 |- *. intros t Ht.
    rewrite list.Forall_forall in IH.
    apply (IH t (proj2 (list_elem_of_In _ _) Ht) (S sd) ar); [done|lia|by apply H3].
  - intros [[[H1 H2] H3] H4]. split_and!; [lia|lia|done|..]; [apply (IHk sd (S ar))|apply (IHv sd (S ar))]; try done; lia.
Qed.

(** C5: Every signature of doc/dbus-specification.xml (complete types, basic dict keys,
    at most 255 bytes, at most 32 nested array codes and at most 32 nested structs)
    is found valid, wherever it stands in the string; the only other answer is that
    memory ran out, when an allocation was refused.  (The code also accepts deeper
    nesting, see [validator_accepts_deep_arrays].) *)
Theorem validate_signature_complete (pre post : bytes) (ts : list ty) (m : mem) :
  forallb (conforms 0 0) ts = true →
  (length (print_sig ts) <= DBUS_MAXIMUM_SIGNATURE_LENGTH)%nat →
  accepted m (fst (_dbus_validate_signature_with_reason (pre ++ print_sig ts ++ post)
                     (length pre) (length (print_sig ts)) m)).
Proof.
  intros Hok Hlen. apply (validate_accepts basic_key); [by intros []| |done].
  unfold sig_ok. rewrite forallb_forall in Hok |- *. intros t Ht.
  by eapply conforms_within; [..|by apply Hok].
Qed.

Lemma validate_only_grammar (str : bytes) (start n : nat) (m m' : mem) :
  _dbus_validate_signature_with_reason str start n m = (DBUS_VALID, m') →
  well_bracketed [] (sub str start n) = true →
  ∃ ts, sig_ok accepted_key ts = true ∧ sub str start n = print_sig ts
        ∧ (n <= DBUS_MAXIMUM_SIGNATURE_LENGTH)%nat.
Proof.
  unfold _dbus_validate_signature_with_reason. destruct (alloc m) as [[] m1]; [|done]. simpl.
  destruct (_ <? n)%nat eqn:En; [done|]. intros E W.
  destruct (sig_loop_sound _ _ sig_init [] (Level [] 0) _ _ E) as (ts & Hok & Ets); [|simpl; lia|done|].
  - split; simpl; try done. split; [done|]. split; [apply Nat.le_0_l|done].
  - exists ts. split; [done|]. split; [done|lia].
Qed.

(** C4: Whatever the allocator does, a range found valid whose brackets match has at
    most 255 bytes and is the print of a list of complete types within the limits
    the code has: at most 32 consecutive array codes (not 32 nested ones, see
    [validator_accepts_deep_arrays]), 32 nested structs and 32 nested dict entries; a
    dict key is a basic type or, as the code lets it through, a struct. *)
Theorem validate_signature_sound (str : bytes) (start n : nat) (m m' : mem) :
  _dbus_validate_signature_with_reason str start n m = (DBUS_VALID, m') →
  well_bracketed [] (sub str start n) = true →
  ∃ ts, sig_ok accepted_key ts = true ∧ sub str start n = print_sig ts
        ∧ (n <= DBUS_MAXIMUM_SIGNATURE_LENGTH)%nat.
Proof. apply validate_only_grammar. Qed.


Lemma validate_signature_sound_witness :
  ∃ ts, sig_ok accepted_key ts = true ∧ sub (lit "a{s(iv)}u") 0 9 = print_sig ts
        ∧ (9 <= DBUS_MAXIMUM_SIGNATURE_LENGTH)%nat.
Proof.
  apply (validate_signature_sound (lit "a{s(iv)}u") 0 9 (Mem [] "x"%byte) (Mem [] "x"%byte));
    vm_compute; reflexivity.
Defined.

Lemma validate_signature_complete_witness :
  accepted (Mem [] "x"%byte)
    (fst (_dbus_validate_signature_with_reason
            (lit "xx" ++ print_sig [TArray (TLeaf "i"%byte); TLeaf "s"%byte] ++ lit "(") 2 3
            (Mem [] "x"%byte))).
Proof.
  apply (validate_signature_complete (lit "xx") (lit "(") [TArray (TLeaf "i"%byte); TLeaf "s"%byte]);
    [vm_compute; reflexivity | vm_compute; lia].
Defined.

(** The iterator stands on one type after the other: at the position of a type of
    a valid signature, [get_signature] gives the print of that type, and [next]
    moves to the type behind it, its result saying whether there is one. *)
Theorem signature_iter_visits (ts1 : list ty) (t : ty) (ts2 : list ty) :
  sig_ok accepted_key (ts1 ++ t :: ts2) = true →
  let sig := print_sig (ts1 ++ t :: ts2) in
  let it := SigIter (length (print_sig ts1)) false false in
  dbus_signature_iter_get_signature sig it = Some (print t)
  ∧ dbus_signature_iter_next sig it
    = Some (bool_decide (ts2 ≠ []), SigIter (length (print_sig (ts1 ++ [t]))) false false).
Proof.
  intros Hok. cbv zeta. unfold print_sig, sig_ok in *. rewrite forallb_app in Hok.
  apply andb_true_iff in Hok as [_ Hok]. simpl in Hok. apply andb_true_iff in Hok as [Hw Hw2].
  rewrite !flat_map_app. simpl. rewrite app_nil_r. split.
  - unfold dbus_signature_iter_get_signature. simpl.
    rewrite (signature_next_print _ _ _ _ _ _ _ Hw). simpl. f_equal. unfold sub.
    rewrite drop_app_length. rewrite Nat.add_comm, Nat.add_sub. apply take_app_length.
  - rewrite (iter_next_print _ _ _ _ _ _ _ Hw), length_app. f_equal.
    destruct ts2 as [|t2 ts2]; [done|]. simpl in *. apply andb_true_iff in Hw2 as [Hw2 _].
    destruct (print_head_open _ _ _ _ _ (flat_map print ts2) Hw2) as (-> & -> & ->).
    done.
Qed.

Lemma signature_iter_visits_witness :
  let sig := lit "sa{sv}i" in
  dbus_signature_iter_get_signature sig (SigIter 1 false false) = Some (lit "a{sv}")
  ∧ dbus_signature_iter_next sig (SigIter 1 false false) = Some (true, SigIter 6 false false).
Proof.
  apply (signature_iter_visits [TLeaf "s"%byte] (TDict (TLeaf "s"%byte) (TLeaf "v"%byte))
           [TLeaf "i"%byte]). vm_compute; reflexivity.
Defined.

(** [dbus_signature_validate_single] accepts a signature of the grammar exactly if
    it consists of one complete type; it answers FALSE otherwise, or when memory
    ran out. *)
Theorem validate_single_spec (ts : list ty) (m : mem) :
  sig_ok basic_key ts = true →
  (length (print_sig ts) <= DBUS_MAXIMUM_SIGNATURE_LENGTH)%nat →
  let r := fst (dbus_signature_validate_single (print_sig ts) m) in
  r = Some (bool_decide (length ts = 1%nat)) ∨ (r = Some false ∧ may_fail m).
Proof.
  intros Hok Hlen. cbv zeta.
  pose proof (validate_accepts basic_key [] [] ts m ltac:(by intros []) Hok Hlen) as [A _]. simpl in A. rewrite app_nil_r in A.
  unfold dbus_signature_validate_single, dbus_signature_validate, _dbus_validate_signature.
  rewrite Nat.sub_0_r, Nat.ltb_irrefl.
  destruct (_dbus_validate_signature_with_reason _ _ _ m) as [v m']. simpl in A.
  destruct A as [->|[-> Hm]]; [left|by right].
  destruct ts as [|t ts]; [done|]. simpl.
  unfold sig_ok in Hok. simpl in Hok. apply andb_true_iff in Hok as [Hw Hws].
  pose proof (iter_next_print [] t (flat_map print ts) _ _ _ _ Hw) as En.
  assert (dbus_signature_iter_get_current_type (print t ++ print_sig ts) dbus_signature_iter_init
          =b DBUS_TYPE_INVALID = false) as ->.
  { destruct (print_head_open _ _ _ _ _ (print_sig ts) Hw) as (_ & _ & H).
    unfold dbus_signature_iter_get_current_type, _dbus_first_type_in_signature,
      map_type_char_to_type. simpl. by repeat case_if. }
  change (print_sig ts) with (flat_map print ts). simpl in En.
  unfold dbus_signature_iter_init. rewrite En. simpl.
  destruct ts as [|t2 ts]; [done|]. simpl in *. apply andb_true_iff in Hws as [Hw2 _].
  by destruct (print_head_open _ _ _ _ _ (flat_map print ts) Hw2) as (-> & -> & ->).
Qed.

Lemma validate_single_spec_witness :
  let r := fst (dbus_signature_validate_single
                  (print_sig [TStruct [TLeaf "i"%byte; TLeaf "s"%byte]]) (Mem [false] "x"%byte)) in
  r = Some true ∨ (r = Some false ∧ may_fail (Mem [false] "x"%byte)).
Proof.
  apply (validate_single_spec [TStruct [TLeaf "i"%byte; TLeaf "s"%byte]]);
    [vm_compute; reflexivity | vm_compute; lia].
Defined.

(** The test for a basic dict key looks at the typecode in front of the key only,
    and a struct typecode passes it: a dict entry with a struct for its key is
    found valid, though dict keys must be basic types. *)
Theorem validator_accepts_struct_key :
  fst (_dbus_validate_signature_with_reason (lit "a{(ii)i}") 0 8 (Mem [] "x"%byte)) = DBUS_VALID
  ∧ ∃ ts, print_sig ts = lit "a{(ii)i}" ∧ sig_ok accepted_key ts = true ∧ sig_ok basic_key ts = false.
Proof.
  split; [vm_compute; reflexivity|].
  exists [TDict (TStruct [TLeaf "i"%byte; TLeaf "i"%byte]) (TLeaf "i"%byte)].
  by split; [|split].
Qed.

(** Structs and dict entries are counted separately and never matched with each
    other: a signature whose brackets interleave is found valid. *)
Theorem validator_accepts_misnesting :
  fst (_dbus_validate_signature_with_reason (lit "(a{s)i}") 0 7 (Mem [] "x"%byte)) = DBUS_VALID
  ∧ well_bracketed [] (lit "(a{s)i}") = false.
Proof. by split; vm_compute. Qed.

(** 32 arrays in a struct in 32 arrays. *)
Definition deep_arrays : ty := wrap 32 (TStruct [wrap 32 (TLeaf "i"%byte)]).

(** The counter of array codes is set back by every other typecode: a signature with
    64 nested array codes is found valid, though the specification allows 32. *)
Theorem validator_accepts_deep_arrays :
  fst (_dbus_validate_signature_with_reason (print deep_arrays) 0 (length (print deep_arrays))
         (Mem [] "x"%byte)) = DBUS_VALID
  ∧ conforms 0 0 deep_arrays = false.
Proof. by split; vm_compute. Qed.

(** *** The assertions behind the loop *)

(** Where the loop stops: a code, or the state behind the last typecode. *)
Fixpoint sig_run (p after : bytes) (st : sig_state) (m : mem) : turn * mem :=
  match p with
  | [] => (inr st, m)
  | c :: p' =>
      match sig_turn c (byte_at (p' ++ after) 0) st m with
      | (inl v, m') => (inl v, m')
      | (inr st', m') => sig_run p' after st' m'
      end
  end.

Lemma sig_loop_run p after st m :
  sig_loop p after st m
  = match sig_run p after st m with (inl v, m') => (v, m') | (inr st', m') => (sig_end st', m') end.
Proof.
  revert st m. induction p as [|c p IH]; intros st m; simpl; [done|].
  destruct (sig_turn _ _ st m) as [[v|st'] m']; [done|apply IH].
Qed.

(** A code that opens something has counted it. *)
Definition last_counted (st : sig_state) : Prop :=
  (last st = DBUS_TYPE_ARRAY → 0 < array_depth st)%nat
  ∧ (last st = DBUS_STRUCT_BEGIN_CHAR → 0 < struct_depth st)%nat
  ∧ (last st = DBUS_DICT_ENTRY_BEGIN_CHAR → 0 < dict_entry_depth st)%nat.

Lemma sig_switch_counted c st m st' m' :
  sig_switch c st m = (inr st', m') →
  (c = DBUS_TYPE_ARRAY → 0 < array_depth st')%nat
  ∧ (c = DBUS_STRUCT_BEGIN_CHAR → 0 < struct_depth st')%nat
  ∧ (c = DBUS_DICT_ENTRY_BEGIN_CHAR → 0 < dict_entry_depth st')%nat.
Proof.
  destruct st as [sd ad dd la stack]. intros E.
  split_and!; intros ->; simpl in E; unfold push in E.
  - destruct (_ <? _)%nat; [done|]. injection E as <- _. simpl. lia.
  - destruct (_ <? _)%nat; [done|]. destruct (alloc m) as [[] m1]; [|done].
    injection E as <- _. simpl. lia.
  - destruct (negb _); [done|]. destruct (_ <? _)%nat; [done|].
    destruct (alloc m) as [[] m1]; [|done]. injection E as <- _. simpl. lia.
Qed.

Lemma sig_count_depths c st m st' m' :
  sig_count c st m = (inr st', m') →
  struct_depth st' = struct_depth st ∧ array_depth st' = array_depth st
  ∧ dict_entry_depth st' = dict_entry_depth st.
Proof.
  unfold sig_count, push. destruct (_ && _ && _); [|by intros [= <- _]].
  destruct (pop_last _) as [n stack]. destruct (alloc m) as [[] m1]; [|done]. by intros [= <- _].
Qed.

Lemma sig_turn_counted c c1 st m st' m' : sig_turn c c1 st m = (inr st', m') → last_counted st'.
Proof.
  unfold sig_turn. destruct (sig_switch c st m) as [[v|st1] m1] eqn:E1; [done|].
  destruct (sig_count c st1 m1) as [[v|st2] m2] eqn:E2; [done|]. intros [= E3 _].
  apply sig_switch_counted in E1 as (Ha & Hs & Hd). apply sig_count_depths in E2 as (D1 & D2 & D3).
  rewrite <- D1 in Hs. rewrite <- D2 in Ha. rewrite <- D3 in Hd.
  clear D1 D2 D3. unfold sig_tests in E3. destruct st2 as [sd ad dd la stack]. simpl in *.
  destruct (0 <? ad)%nat eqn:Ead.
  - destruct (c =b DBUS_TYPE_ARRAY) eqn:Ec.
    + destruct (_ || _); [done|]. destruct (_ && _ && _); [done|]. by injection E3 as <-.
    + destruct (_ && _ && _); [done|]. injection E3 as <-. split; [|done]. simpl.
      intros ->. by rewrite byte_eqb_refl in Ec.
  - destruct (_ && _ && _); [done|]. by injection E3 as <-.
Qed.

(** The three assertions on the last typecode that stand behind the loop cannot fail. *)
Lemma final_assertions_hold p after m st' m' :
  sig_run p after sig_init m = (inr st', m') → sig_end st' = DBUS_VALID →
  last st' ≠ DBUS_TYPE_ARRAY ∧ last st' ≠ DBUS_STRUCT_BEGIN_CHAR
  ∧ last st' ≠ DBUS_DICT_ENTRY_BEGIN_CHAR.
Proof.
  intros Hrun Hend. assert (last_counted st') as (Ha & Hs & Hd).
  { assert (last_counted sig_init) as H0 by done. revert H0 Hrun. generalize sig_init m.
    induction p as [|c p IH]; intros st m0 H0; simpl; [by intros [= <- <-]|].
    destruct (sig_turn _ _ st m0) as [[v|st1] m1] eqn:E; [done|]. apply IH.
    by eapply sig_turn_counted. }
  unfold sig_end in Hend. destruct (0 <? array_depth st')%nat eqn:E1; [done|].
  destruct (0 <? struct_depth st')%nat eqn:E2; [done|].
  destruct (0 <? dict_entry_depth st')%nat eqn:E3; [done|].
  apply Nat.ltb_ge in E1, E2, E3. split_and!; intros E; [apply Ha in E|apply Hs in E|apply Hd in E]; lia.
Qed.
