(* ===== verification/MarshalBasic.v ===== *)
(** * MarshalBasic: marshalling of basic values

    Models src/dbus/dbus-marshal-basic.c and the byte-order macros of
    src/dbus/dbus-marshal-basic.h: packing and unpacking of integers, writing,
    overwriting, reading and skipping values of the basic types, and blocks of
    fixed-size values.  The byte order of the host, DBUS_COMPILER_BYTE_ORDER, is a
    parameter; native loads and stores go through it.  Shown: whatever the host,
    the bytes inserted are the wire format of the value in the requested order,
    with the padding its alignment asks for; a failed write leaves the string as
    it was; reading gives back what was written; skipping moves as reading does;
    the block write is the concatenation of the element formats. *)

From S2P Require Import Prelude DString Types.

(** ** Byte order *)

Inductive byte_order := DBUS_LITTLE_ENDIAN | DBUS_BIG_ENDIAN.

#[export] Instance byte_order_eq_dec : EqDecision byte_order.
Proof. solve_decision. Defined.

(** The [n] low-order bytes of a number, least significant first, and back. *)
Fixpoint le (n : nat) (z : Z) : bytes :=
  match n with
  | O => []
  | S n' => z2b z :: le n' (z / 256)
  end.

Fixpoint of_le (bs : bytes) : Z :=
  match bs with
  | [] => 0
  | b :: bs' => b2z b + 256 * of_le bs'
  end.

(** The octets of a number in a byte order. *)
Definition octets (o : byte_order) (n : nat) (z : Z) : bytes :=
  match o with DBUS_LITTLE_ENDIAN => le n z | DBUS_BIG_ENDIAN => rev (le n z) end.

Definition of_octets (o : byte_order) (bs : bytes) : Z :=
  match o with DBUS_LITTLE_ENDIAN => of_le bs | DBUS_BIG_ENDIAN => of_le (rev bs) end.

(** [DBUS_COMPILER_BYTE_ORDER], the order of native loads and stores. *)
Class Host := DBUS_COMPILER_BYTE_ORDER : byte_order.

Definition DBUS_UINT16_SWAP_LE_BE (val : Z) : Z :=
  u16 (Z.lor (u16 (Z.shiftr (u16 val) 8)) (u16 (Z.shiftl (u16 val) 8))).

Definition DBUS_UINT32_SWAP_LE_BE (val : Z) : Z :=
  let v := u32 val in
  Z.lor (Z.lor (Z.lor
    (u32 (Z.shiftl (Z.land v 0x000000ff) 24))
    (u32 (Z.shiftl (Z.land v 0x0000ff00) 8)))
    (Z.shiftr (Z.land v 0x00ff0000) 8))
    (Z.shiftr (Z.land v 0xff000000) 24).

Definition DBUS_UINT64_SWAP_LE_BE (val : Z) : Z :=
  let v := u64 val in
  Z.lor (Z.lor (Z.lor (Z.lor (Z.lor (Z.lor (Z.lor
    (u64 (Z.shiftl (Z.land v 0x00000000000000ff) 56))
    (u64 (Z.shiftl (Z.land v 0x000000000000ff00) 40)))
    (u64 (Z.shiftl (Z.land v 0x0000000000ff0000) 24)))
    (u64 (Z.shiftl (Z.land v 0x00000000ff000000) 8)))
    (Z.shiftr (Z.land v 0x000000ff00000000) 8))
    (Z.shiftr (Z.land v 0x0000ff0000000000) 24))
    (Z.shiftr (Z.land v 0x00ff000000000000) 40))
    (Z.shiftr (Z.land v 0xff00000000000000) 56).

Section host.
Context `{Host}.

(** The conversions of the header; FROM is the same as TO. *)
Definition DBUS_UINT16_TO_LE (val : Z) : Z :=
  match DBUS_COMPILER_BYTE_ORDER with
  | DBUS_LITTLE_ENDIAN => u16 val | DBUS_BIG_ENDIAN => DBUS_UINT16_SWAP_LE_BE val end.

Definition DBUS_UINT16_TO_BE (val : Z) : Z :=
  match DBUS_COMPILER_BYTE_ORDER with
  | DBUS_LITTLE_ENDIAN => DBUS_UINT16_SWAP_LE_BE val | DBUS_BIG_ENDIAN => u16 val end.

Definition DBUS_UINT32_TO_LE (val : Z) : Z :=
  match DBUS_COMPILER_BYTE_ORDER with
  | DBUS_LITTLE_ENDIAN => u32 val | DBUS_BIG_ENDIAN => DBUS_UINT32_SWAP_LE_BE val end.

Definition DBUS_UINT32_TO_BE (val : Z) : Z :=
  match DBUS_COMPILER_BYTE_ORDER with
  | DBUS_LITTLE_ENDIAN => DBUS_UINT32_SWAP_LE_BE val | DBUS_BIG_ENDIAN => u32 val end.

Definition DBUS_UINT64_TO_LE (val : Z) : Z :=
  match DBUS_COMPILER_BYTE_ORDER with
  | DBUS_LITTLE_ENDIAN => u64 val | DBUS_BIG_ENDIAN => DBUS_UINT64_SWAP_LE_BE val end.

Definition DBUS_UINT64_TO_BE (val : Z) : Z :=
  match DBUS_COMPILER_BYTE_ORDER with
  | DBUS_LITTLE_ENDIAN => DBUS_UINT64_SWAP_LE_BE val | DBUS_BIG_ENDIAN => u64 val end.

(** A native store of [n] bytes and a native load. *)
Definition native (n : nat) (value : Z) : bytes := octets DBUS_COMPILER_BYTE_ORDER n value.
Definition load (data : bytes) : Z := of_octets DBUS_COMPILER_BYTE_ORDER data.

(** The bytes stored at [data]. *)
Definition pack_2_octets (value : Z) (order : byte_order) : bytes :=
  native 2 (if bool_decide (order = DBUS_LITTLE_ENDIAN)
            then DBUS_UINT16_TO_LE value else DBUS_UINT16_TO_BE value).

Definition pack_4_octets (value : Z) (order : byte_order) : bytes :=
  native 4 (if bool_decide (order = DBUS_LITTLE_ENDIAN)
            then DBUS_UINT32_TO_LE value else DBUS_UINT32_TO_BE value).

Definition pack_8_octets (value : Z) (order : byte_order) : bytes :=
  native 8 (if bool_decide (order = DBUS_LITTLE_ENDIAN)
            then DBUS_UINT64_TO_LE value else DBUS_UINT64_TO_BE value).

Definition _dbus_unpack_uint16 (order : byte_order) (data : bytes) : Z :=
  if bool_decide (order = DBUS_LITTLE_ENDIAN)
  then DBUS_UINT16_TO_LE (load data) else DBUS_UINT16_TO_BE (load data).

Definition _dbus_unpack_uint32 (order : byte_order) (data : bytes) : Z :=
  if bool_decide (order = DBUS_LITTLE_ENDIAN)
  then DBUS_UINT32_TO_LE (load data) else DBUS_UINT32_TO_BE (load data).

(** [if (byte_order != DBUS_COMPILER_BYTE_ORDER) value = SWAP (value)], for the
    three widths; the third is [swap_8_octets]. *)
Definition to_order (swap : Z → Z) (order : byte_order) (value : Z) : Z :=
  if bool_decide (order ≠ DBUS_COMPILER_BYTE_ORDER) then swap value else value.

Definition swap_8_octets (value : Z) (order : byte_order) : Z :=
  to_order DBUS_UINT64_SWAP_LE_BE order value.

End host.

(** *** Octets and numbers *)

Lemma length_le n z : length (le n z) = n.
Proof. revert z. induction n; intros z; simpl; [done|]. by rewrite IHn. Qed.

Lemma length_octets o n z : length (octets o n z) = n.
Proof. destruct o; simpl; rewrite ?length_rev; apply length_le. Qed.

Lemma of_le_le n z : of_le (le n z) = z mod 2 ^ (8 * Z.of_nat n).
Proof.
  revert z. induction n as [|n IH]; intros z.
  - by rewrite Z.mod_1_r.
  - simpl le. simpl of_le. rewrite IH, b2z_z2b.
    replace (8 * Z.of_nat (S n)) with (8 + 8 * Z.of_nat n) by lia. rewrite Z.pow_add_r by lia.
    change (2 ^ 8) with 256. rewrite Z.rem_mul_r by lia. lia.
Qed.

Lemma of_le_range bs : 0 <= of_le bs < 2 ^ (8 * Z.of_nat (length bs)).
Proof.
  induction bs as [|b bs IH]; [done|]. simpl of_le. pose proof (b2z_range b).
  replace (8 * Z.of_nat (length (b :: bs))) with (8 + 8 * Z.of_nat (length bs)) by (simpl; lia).
  rewrite Z.pow_add_r by lia. change (2 ^ 8) with 256. nia.
Qed.

Lemma le_of_le bs : le (length bs) (of_le bs) = bs.
Proof.
  induction bs as [|b bs IH]; [done|]. simpl. pose proof (b2z_range b). f_equal.
  - apply b2z_inj. rewrite b2z_z2b, Z.mul_comm, Z.mod_add by lia. by apply Z.mod_small.
  - rewrite (Z.mul_comm 256), Z.div_add by lia. by rewrite Z.div_small.
Qed.

Lemma of_octets_octets o n z : of_octets o (octets o n z) = z mod 2 ^ (8 * Z.of_nat n).
Proof. destruct o; simpl; rewrite ?rev_involutive; apply of_le_le. Qed.

Lemma octets_of_octets o bs : octets o (length bs) (of_octets o bs) = bs.
Proof.
  destruct o; simpl; [apply le_of_le|].
  rewrite <- (length_rev bs), le_of_le. apply rev_involutive.
Qed.

Lemma of_octets_range o bs : 0 <= of_octets o bs < 2 ^ (8 * Z.of_nat (length bs)).
Proof.
  destruct o; simpl; [apply of_le_range|].
  rewrite <- (length_rev bs). apply of_le_range.
Qed.

(** The other order reads the bytes backwards. *)
Definition other (o : byte_order) : byte_order :=
  match o with DBUS_LITTLE_ENDIAN => DBUS_BIG_ENDIAN | DBUS_BIG_ENDIAN => DBUS_LITTLE_ENDIAN end.

Lemma octets_other o n z : octets (other o) n z = rev (octets o n z).
Proof. destruct o; simpl; [done|]. by rewrite rev_involutive. Qed.

(** *** The swap macros reverse the bytes *)

(** The byte of [v] at bit [k]. *)
Definition byte_of (v k : Z) : Z := (v / 2 ^ k) mod 256.

Lemma land_byte v k : 0 <= k → Z.land v (Z.shiftl 255 k) = Z.shiftl (byte_of v k) k.
Proof.
  intros Hk. unfold byte_of. rewrite <- Z.shiftr_div_pow2 by done.
  change 256 with (2 ^ 8). rewrite <- land_ones_mod by done. change (2 ^ 8 - 1) with 255.
  apply Z.bits_inj'. intros n Hn. rewrite Z.land_spec. destruct (Z.lt_ge_cases n k).
  - by rewrite !Z.shiftl_spec_low, andb_false_r.
  - rewrite !Z.shiftl_spec, Z.land_spec, Z.shiftr_spec by lia. by rewrite Z.sub_add.
Qed.

Lemma swap_left v k s : 0 <= k → 0 <= s →
  Z.shiftl (Z.land v (Z.shiftl 255 k)) s = Z.shiftl (byte_of v k) (k + s).
Proof. intros. rewrite land_byte by done. by rewrite Z.shiftl_shiftl. Qed.

Lemma swap_right v k s : 0 <= s <= k →
  Z.shiftr (Z.land v (Z.shiftl 255 k)) s = Z.shiftl (byte_of v k) (k - s).
Proof. intros. rewrite land_byte by lia. rewrite Z.shiftr_shiftl_l by lia. done. Qed.

Lemma byte_of_range v k : 0 <= byte_of v k < 256.
Proof. apply Z.mod_pos_bound. lia. Qed.

Lemma shiftl_byte_range v k j : 0 <= j → 0 <= Z.shiftl (byte_of v k) j < 2 ^ (j + 8).
Proof.
  intros. pose proof (byte_of_range v k). rewrite Z.shiftl_mul_pow2, Z.pow_add_r by lia.
  change (2 ^ 8) with 256. nia.
Qed.

Lemma lor_byte a v k j : 0 <= j →
  Z.lor (Z.shiftl a (j + 8)) (Z.shiftl (byte_of v k) j) = Z.shiftl (a * 256 + byte_of v k) j.
Proof.
  intros. rewrite lor_shiftl; [|lia|by apply shiftl_byte_range].
  rewrite !Z.shiftl_mul_pow2, Z.pow_add_r by lia. change (2 ^ 8) with 256. lia.
Qed.

(** Recognise the masks and the shifts of the macros. *)
Ltac swap_masks :=
  repeat match goal with
  | |- context [Z.land ?v (Zpos ?p)] =>
      let k := eval vm_compute in (Z.log2 (Zpos p) - 7) in
      change (Z.land v (Zpos p)) with (Z.land v (Z.shiftl 255 k))
  end;
  rewrite ?swap_left, ?swap_right by lia.

(** Compute the shifts and the positions. *)
Ltac eval_shifts :=
  repeat match goal with
  | |- context [Z.shiftl (byte_of ?v ?k) ?e] =>
      let r := eval vm_compute in e in
      progress change (Z.shiftl (byte_of v k) e) with (Z.shiftl (byte_of v k) r)
  | |- context [byte_of ?v ?e] =>
      let r := eval vm_compute in e in progress change (byte_of v e) with (byte_of v r)
  end.

Ltac swap_join :=
  repeat match goal with
  | |- context [Z.lor (Z.shiftl ?a ?i) (Z.shiftl (byte_of ?v ?k) ?j)] =>
      change (Z.shiftl a i) with (Z.shiftl a (j + 8)); rewrite (lor_byte a v k j) by lia
  end.

(** The bytes of [v] as the macros and as [le] name them. *)
Lemma byte_of_div v k : 0 <= k → byte_of (v / 256) k = byte_of v (8 + k).
Proof.
  intros. unfold byte_of. rewrite Z.div_div by lia. by rewrite Z.pow_add_r by lia.
Qed.

Lemma b2z_byte_of v : b2z (z2b v) = byte_of v 0.
Proof. unfold byte_of. by rewrite b2z_z2b, Z.div_1_r. Qed.

Lemma le_mod n v : le n (v mod 2 ^ (8 * Z.of_nat n)) = le n v.
Proof.
  rewrite <- (of_le_le n v). rewrite <- (length_le n v) at 1. apply le_of_le.
Qed.

Ltac swap_bytes n :=
  rewrite <- (le_mod n); 
  unfold DBUS_UINT16_SWAP_LE_BE, DBUS_UINT32_SWAP_LE_BE, DBUS_UINT64_SWAP_LE_BE;
  cbv zeta; simpl le; simpl rev; simpl of_le; rewrite !b2z_byte_of, ?byte_of_div by lia;
  swap_masks; eval_shifts.

Lemma u_byte w v k j : 0 <= j → j + 8 <= w →
  Z.shiftl (byte_of v k) j mod 2 ^ w = Z.shiftl (byte_of v k) j.
Proof.
  intros. pose proof (shiftl_byte_range v k j). apply Z.mod_small.
  assert (2 ^ (j + 8) <= 2 ^ w) by (apply Z.pow_le_mono_r; lia). lia.
Qed.

Lemma swap_32 v : DBUS_UINT32_SWAP_LE_BE v = of_le (rev (le 4 v)).
Proof.
  swap_bytes 4%nat. unfold u32. rewrite !u_byte by lia. swap_join.
  rewrite Z.shiftl_0_r. change (8 * Z.of_nat 4) with 32. lia.
Qed.

Lemma swap_64 v : DBUS_UINT64_SWAP_LE_BE v = of_le (rev (le 8 v)).
Proof.
  swap_bytes 8%nat. unfold u64. rewrite !u_byte by lia. swap_join.
  rewrite Z.shiftl_0_r. change (8 * Z.of_nat 8) with 64. lia.
Qed.

Lemma swap_16 v : DBUS_UINT16_SWAP_LE_BE v = of_le (rev (le 2 v)).
Proof.
  swap_bytes 2%nat. change (8 * Z.of_nat 2) with 16. change (v mod 2 ^ 16) with (u16 v).
  set (w := u16 v).
  assert (0 <= w < 65536) by (apply Z.mod_pos_bound; lia).
  assert (Z.shiftr w 8 = byte_of w 8) as ->.
  { rewrite Z.shiftr_div_pow2 by lia. unfold byte_of. rewrite (Z.mod_small _ 256); [done|].
    change (2 ^ 8) with 256. pose proof (Z.div_lt_upper_bound w 256 256).
    pose proof (Z.div_pos w 256). lia. }
  assert (u16 (Z.shiftl w 8) = Z.shiftl (byte_of w 0) 8) as ->.
  { unfold u16, byte_of. rewrite !Z.shiftl_mul_pow2, Z.div_1_r by lia.
    change (2 ^ 16) with (256 * 2 ^ 8). by rewrite Z.mul_mod_distr_r by lia. }
  pose proof (byte_of_range w 0). pose proof (byte_of_range w 8).
  unfold u16. rewrite (Z.mod_small (byte_of w 8)) by lia. rewrite Z.lor_comm, lor_shiftl by lia.
  rewrite Z.mod_small by lia. lia.
Qed.

(** What the conversions have in common: [swap] reverses [n] bytes. *)
Definition reverses (n : nat) (swap : Z → Z) : Prop := ∀ v, swap v = of_le (rev (le n v)).

Lemma octets_reverses n swap o v : reverses n swap → octets o n (swap v) = octets (other o) n v.
Proof.
  intros ->. assert (le n (of_le (rev (le n v))) = rev (le n v)) as E.
  { rewrite <- (length_le n v) at 1. rewrite <- length_rev. apply le_of_le. }
  destruct o; simpl; rewrite E; [done|]. apply rev_involutive.
Qed.

Lemma octets_mod o n v : octets o n (v mod 2 ^ (8 * Z.of_nat n)) = octets o n v.
Proof. destruct o; simpl; by rewrite le_mod. Qed.

Section host_lemmas.
Context `{Host}.

Lemma to_order_native n swap o v :
  reverses n swap → native n (to_order swap o v) = octets o n v.
Proof.
  intros Hs. unfold native, to_order. destruct (decide (o = DBUS_COMPILER_BYTE_ORDER)) as [->|Ho].
  - by rewrite bool_decide_eq_false_2 by naive_solver.
  - rewrite bool_decide_eq_true_2 by done. rewrite (octets_reverses _ _ _ _ Hs).
    f_equal. by destruct o, DBUS_COMPILER_BYTE_ORDER.
Qed.

(** The value in the order of the wire, from a native load. *)
Lemma to_order_load n swap o data :
  reverses n swap → length data = n → to_order swap o (load data) = of_octets o data.
Proof.
  intros Hs <-. pose proof (to_order_native _ swap o (load data) Hs) as E.
  apply (f_equal (of_octets DBUS_COMPILER_BYTE_ORDER)) in E. unfold native in E.
  rewrite of_octets_octets in E.
  assert (0 <= to_order swap o (load data) < 2 ^ (8 * Z.of_nat (length data))) as R.
  { unfold to_order. case_bool_decide; [|apply of_octets_range].
    rewrite Hs. pose proof (of_le_range (rev (le (length data) (load data)))) as R.
    by rewrite length_rev, length_le in R. }
  rewrite Z.mod_small in E by done. rewrite E. unfold load.
  destruct o, DBUS_COMPILER_BYTE_ORDER; simpl.
  - by rewrite le_of_le.
  - rewrite <- (length_rev data), le_of_le. by rewrite rev_involutive.
  - by rewrite le_of_le.
  - rewrite <- (length_rev data), le_of_le. by rewrite !rev_involutive.
Qed.

Lemma pack_2_ok v o : pack_2_octets v o = octets o 2 v.
Proof.
  rewrite <- (to_order_native 2 DBUS_UINT16_SWAP_LE_BE) by exact swap_16.
  unfold pack_2_octets, to_order, DBUS_UINT16_TO_LE, DBUS_UINT16_TO_BE, native.
  destruct o, DBUS_COMPILER_BYTE_ORDER; try done; apply (octets_mod _ 2).
Qed.

Lemma pack_4_ok v o : pack_4_octets v o = octets o 4 v.
Proof.
  rewrite <- (to_order_native 4 DBUS_UINT32_SWAP_LE_BE) by exact swap_32.
  unfold pack_4_octets, to_order, DBUS_UINT32_TO_LE, DBUS_UINT32_TO_BE, native.
  destruct o, DBUS_COMPILER_BYTE_ORDER; try done; apply (octets_mod _ 4).
Qed.

Lemma pack_8_ok v o : pack_8_octets v o = octets o 8 v.
Proof.
  rewrite <- (to_order_native 8 DBUS_UINT64_SWAP_LE_BE) by exact swap_64.
  unfold pack_8_octets, to_order, DBUS_UINT64_TO_LE, DBUS_UINT64_TO_BE, native.
  destruct o, DBUS_COMPILER_BYTE_ORDER; try done; apply (octets_mod _ 8).
Qed.

Lemma unpack_32_ok o data :
  length data = 4%nat → _dbus_unpack_uint32 o data = of_octets o data.
Proof.
  intros Hl. rewrite <- (to_order_load 4 DBUS_UINT32_SWAP_LE_BE) by (done || exact swap_32).
  pose proof (of_octets_range DBUS_COMPILER_BYTE_ORDER data) as R. rewrite Hl in R.
  unfold _dbus_unpack_uint32, to_order, DBUS_UINT32_TO_LE, DBUS_UINT32_TO_BE, load in *.
  destruct o, DBUS_COMPILER_BYTE_ORDER; try done; by apply u32_small.
Qed.

Lemma unpack_16_ok o data :
  length data = 2%nat → _dbus_unpack_uint16 o data = of_octets o data.
Proof.
  intros Hl. rewrite <- (to_order_load 2 DBUS_UINT16_SWAP_LE_BE) by (done || exact swap_16).
  pose proof (of_octets_range DBUS_COMPILER_BYTE_ORDER data) as R. rewrite Hl in R.
  unfold _dbus_unpack_uint16, to_order, DBUS_UINT16_TO_LE, DBUS_UINT16_TO_BE, load in *.
  destruct o, DBUS_COMPILER_BYTE_ORDER; try done; by apply Z.mod_small.
Qed.

End host_lemmas.

(** ** Values *)

(** The union DBusBasicValue, with the member that was stored last; [Str] holds
    the C string at the pointer.  Signed integers and doubles are the bits of the
    unsigned member of their size. *)
Inductive DBusBasicValue :=
| Byt (b : byte)
| U16 (z : Z)
| U32 (z : Z)
| U64 (z : Z)
| Str (s : bytes).

(** Reading a member other than the one stored is an access outside of the model. *)
Definition vp_byt (v : DBusBasicValue) : option byte :=
  match v with Byt b => Some b | _ => None end.
Definition vp_u16 (v : DBusBasicValue) : option Z :=
  match v with U16 z => Some z | _ => None end.
Definition vp_u32 (v : DBusBasicValue) : option Z :=
  match v with U32 z => Some z | _ => None end.
Definition vp_u64 (v : DBusBasicValue) : option Z :=
  match v with U64 z => Some z | _ => None end.
Definition vp_str (v : DBusBasicValue) : option bytes :=
  match v with Str s => Some s | _ => None end.

(** The C string at the start of some memory. *)
Fixpoint strlen (p : bytes) : nat :=
  match p with
  | [] => 0
  | c :: p' => if c =b x00 then 0 else S (strlen p')
  end.

Definition c_string (p : bytes) : bytes := take (strlen p) p.

(** A dbus_uint32_t stored into an int; a value the int cannot hold is an access
    outside of the model. *)
Definition int_of_u32 (z : Z) : option nat :=
  if z <? 2 ^ 31 then Some (Z.to_nat z) else None.

Inductive basic_kind := KByte | K16 | KBool | K32 | K64 | KString | KSignature.

(** The cases of the switches over basic types. *)
Definition kind_of (type : byte) : option basic_kind :=
  match type with
  | "y" => Some KByte
  | "n" | "q" => Some K16
  | "b" => Some KBool
  | "i" | "u" => Some K32
  | "x" | "t" | "d" => Some K64
  | "s" | "o" => Some KString
  | "g" => Some KSignature
  | _ => None
  end%byte.

Inductive marshal_as := MARSHAL_AS_STRING | MARSHAL_AS_SIGNATURE | MARSHAL_AS_BYTE_ARRAY.

#[export] Instance marshal_as_eq_dec : EqDecision marshal_as.
Proof. solve_decision. Defined.

Section operations.
Context `{Host}.

(** ** Overwriting *)

(** [_DBUS_ALIGN_ADDRESS (data, n) == data] of the packing and unpacking
    functions: a string's address is a multiple of 8, so its offsets tell. *)
Definition aligned (p n : nat) : bool := (align_up p n =? p)%nat.

(** [set_n_octets]: [_dbus_string_get_data_len] wants the bytes inside of the
    string, [pack_n_octets] wants them aligned. *)
Definition set_octets (n offset : nat) (octets : bytes) : SM unit :=
  asserting (λ l, offset + n <=? l)%nat;;
  assert_ (aligned offset n);;
  store (λ b, mem_write b offset octets).

Definition set_2_octets (offset : nat) (value : Z) (order : byte_order) : SM unit :=
  set_octets 2 offset (pack_2_octets value order).
Definition set_4_octets (offset : nat) (value : Z) (order : byte_order) : SM unit :=
  set_octets 4 offset (pack_4_octets value order).
Definition set_8_octets (offset : nat) (value : Z) (order : byte_order) : SM unit :=
  set_octets 8 offset (pack_8_octets value order).

Definition _dbus_marshal_set_uint32 (pos : nat) (value : Z) (order : byte_order) : SM unit :=
  set_4_octets pos value order.

(** The results of the setters are [old_end_pos] and [new_end_pos]; [value] is
    the C string without its nul. *)
Definition set_string (pos : nat) (value : bytes) (order : byte_order) : SM (nat * nat) :=
  let new_len := strlen value in
  let dstr := _dbus_string_init_const_len (value ++ [x00]) new_len in
  assert_ (aligned pos 4);;
  r ← gets id;
  assert_ (pos + 4 <=? len r)%nat;;
  d ← checked (mem_read (str r) pos 4);
  old_len ← checked (int_of_u32 (_dbus_unpack_uint32 order d));
  _dbus_string_replace_len dstr 0 new_len (pos + 4) old_len;;
  _dbus_marshal_set_uint32 pos (Z.of_nat new_len) order;;
  mret (pos + 4 + old_len + 1, pos + 4 + new_len + 1)%nat.

Definition set_signature (pos : nat) (value : bytes) : SM (nat * nat) :=
  let new_len := strlen value in
  let dstr := _dbus_string_init_const_len (value ++ [x00]) new_len in
  r ← gets id;
  b ← checked (_dbus_string_get_byte pos r);
  let old_len := Z.to_nat (b2z b) in
  _dbus_string_replace_len dstr 0 new_len (pos + 1) old_len;;
  _dbus_string_set_byte pos (z2b (Z.of_nat new_len));;
  mret (pos + 1 + old_len + 1, pos + 1 + new_len + 1)%nat.

Definition _dbus_marshal_set_basic (pos : nat) (type : byte) (value : DBusBasicValue)
    (order : byte_order) : SM (nat * nat) :=
  let ends (p : nat) : SM (nat * nat) := mret (p, p) in
  match kind_of type with
  | Some KByte =>
      b ← checked (vp_byt value);
      _dbus_string_set_byte pos b;; ends (pos + 1)%nat
  | Some K16 =>
      let pos := align_up pos 2 in
      z ← checked (vp_u16 value);
      set_2_octets pos z order;; ends (pos + 2)%nat
  | Some KBool | Some K32 =>
      let pos := align_up pos 4 in
      z ← checked (vp_u32 value);
      set_4_octets pos z order;; ends (pos + 4)%nat
  | Some K64 =>
      let pos := align_up pos 8 in
      z ← checked (vp_u64 value);
      set_8_octets pos z order;; ends (pos + 8)%nat
  | Some KString =>
      let pos := align_up pos 4 in
      s ← checked (vp_str value);
      set_string pos s order
  | Some KSignature =>
      s ← checked (vp_str value);
      set_signature pos s
  | None => checked None
  end.

(** ** Reading *)

(** The result is the value and [new_pos]; [None] is a failing assertion or a
    read outside of the block. *)
Definition _dbus_marshal_read_uint32 (r : DBusRealString) (pos : nat) (order : byte_order) :
    option (Z * nat) :=
  let pos := align_up pos 4 in
  if negb (pos + 4 <=? len r)%nat then None else
  d ← mem_read (str r) pos 4;
  Some (_dbus_unpack_uint32 order d, pos + 4)%nat.

Definition _dbus_marshal_read_basic (r : DBusRealString) (pos : nat) (type : byte)
    (order : byte_order) : option (DBusBasicValue * nat) :=
  match kind_of type with
  | Some KByte =>
      b ← _dbus_string_get_byte pos r;
      Some (Byt b, pos + 1)%nat
  | Some K16 =>
      let pos := align_up pos 2 in
      d ← mem_read (str r) pos 2;
      Some (U16 (to_order DBUS_UINT16_SWAP_LE_BE order (load d)), pos + 2)%nat
  | Some KBool | Some K32 =>
      let pos := align_up pos 4 in
      d ← mem_read (str r) pos 4;
      Some (U32 (to_order DBUS_UINT32_SWAP_LE_BE order (load d)), pos + 4)%nat
  | Some K64 =>
      let pos := align_up pos 8 in
      d ← mem_read (str r) pos 8;
      Some (U64 (to_order DBUS_UINT64_SWAP_LE_BE order (load d)), pos + 8)%nat
  | Some KString =>
      '(l, pos) ← _dbus_marshal_read_uint32 r pos order;
      l ← int_of_u32 l;
      Some (Str (c_string (drop pos (str r))), pos + (l + 1))%nat
  | Some KSignature =>
      b ← _dbus_string_get_byte pos r;
      let l := Z.to_nat (b2z b) in
      let pos := (pos + 1)%nat in
      Some (Str (c_string (drop pos (str r))), pos + (l + 1))%nat
  | None => None
  end.

Definition _dbus_marshal_skip_basic (r : DBusRealString) (type : byte) (order : byte_order)
    (pos : nat) : option nat :=
  match kind_of type with
  | Some KByte => Some (pos + 1)%nat
  | Some K16 => Some (align_up pos 2 + 2)%nat
  | Some KBool | Some K32 => Some (align_up pos 4 + 4)%nat
  | Some K64 => Some (align_up pos 8 + 8)%nat
  | Some KString =>
      '(l, pos) ← _dbus_marshal_read_uint32 r pos order;
      l ← int_of_u32 l;
      Some (pos + (l + 1))%nat
  | Some KSignature =>
      b ← _dbus_string_get_byte pos r;
      let l := Z.to_nat (b2z b) in
      Some (pos + (l + 2))%nat
  | None => None
  end.

Definition _dbus_marshal_skip_array (r : DBusRealString) (element_type : byte)
    (order : byte_order) (pos : nat) : option nat :=
  let i := align_up pos 4 in
  '(array_len, i) ← _dbus_marshal_read_uint32 r i order;
  let alignment := _dbus_type_get_alignment element_type in
  let i := align_up i alignment in
  Some (i + Z.to_nat array_len)%nat.

(** ** Writing *)

(** [*pos_after = insert_at + (_dbus_string_get_length (str) - orig_len)] with its
    assertion, executed whether or not the bytes were inserted. *)
Definition get_pos_after (insert_at : nat) (orig : DBusRealString) : SM nat :=
  r ← gets id;
  let pos_after := (insert_at + (len r - len orig))%nat in
  assert_ (pos_after <=? len r)%nat;;
  mret pos_after.

Definition ignore {S A} (c : M S A) : M S unit := c;; mret tt.

(** The result is [pos_after]; 8 octets come without the assertion. *)
Definition marshal_2_octets (insert_at : nat) (value : Z) (order : byte_order) : SM nat :=
  let value := to_order DBUS_UINT16_SWAP_LE_BE order value in
  r ← gets id;
  on_failure (insert_aligned insert_at (native 2 value)) (ignore (get_pos_after insert_at r));;
  get_pos_after insert_at r.

Definition marshal_4_octets (insert_at : nat) (value : Z) (order : byte_order) : SM nat :=
  let value := to_order DBUS_UINT32_SWAP_LE_BE order value in
  r ← gets id;
  on_failure (insert_aligned insert_at (native 4 value)) (ignore (get_pos_after insert_at r));;
  get_pos_after insert_at r.

Definition marshal_8_octets (insert_at : nat) (value : Z) (order : byte_order) : SM nat :=
  let value := swap_8_octets value order in
  r ← gets id;
  insert_aligned insert_at (native 8 value);;
  r' ← gets id;
  mret (insert_at + (len r' - len r))%nat.

(** [value] is the memory at the pointer.  When writing the length fails, [pos]
    is still [insert_at], or it is the [pos_after] of [marshal_4_octets], which
    adds what the string has grown. *)
Definition marshal_len_followed_by_bytes (as_ : marshal_as) (insert_at : nat)
    (value : bytes) (data_len : nat) (order : byte_order) : SM nat :=
  let value_len :=
    if bool_decide (as_ = MARSHAL_AS_BYTE_ARRAY) then data_len else (data_len + 1)%nat in
  let value_str := _dbus_string_init_const_len value value_len in
  r ← gets id;
  pos ←
    (if bool_decide (as_ = MARSHAL_AS_SIGNATURE) then
       assert_ (data_len <=? DBUS_MAXIMUM_SIGNATURE_LENGTH)%nat;;
       assert_ (data_len <=? 255)%nat;;
       on_failure
         (_dbus_string_insert_byte insert_at (z2b (Z.of_nat data_len));;
          mret (insert_at + 1)%nat)
         (_dbus_string_delete insert_at (insert_at - insert_at))
     else
       on_failure
         (marshal_4_octets insert_at (Z.of_nat data_len) order)
         (r' ← gets id;
          let pos := (insert_at + (len r' - len r))%nat in
          _dbus_string_delete insert_at (pos - insert_at)));
  on_failure (_dbus_string_copy_len value_str 0 value_len pos)
    (_dbus_string_delete insert_at (pos - insert_at));;
  mret (pos + value_len)%nat.

Definition marshal_string (insert_at : nat) (value : bytes) (order : byte_order) : SM nat :=
  marshal_len_followed_by_bytes MARSHAL_AS_STRING insert_at (value ++ [x00]) (strlen value) order.

Definition marshal_signature (insert_at : nat) (value : bytes) : SM nat :=
  marshal_len_followed_by_bytes MARSHAL_AS_SIGNATURE insert_at (value ++ [x00]) (strlen value)
    DBUS_COMPILER_BYTE_ORDER.

Definition _dbus_marshal_write_basic (insert_at : nat) (type : byte) (value : DBusBasicValue)
    (order : byte_order) : SM nat :=
  match kind_of type with
  | Some KByte =>
      b ← checked (vp_byt value);
      _dbus_string_insert_byte insert_at b;;
      mret (insert_at + 1)%nat
  | Some K16 => z ← checked (vp_u16 value); marshal_2_octets insert_at z order
  | Some KBool =>
      z ← checked (vp_u32 value);
      marshal_4_octets insert_at (if z =? 0 then 0 else 1) order
  | Some K32 => z ← checked (vp_u32 value); marshal_4_octets insert_at z order
  | Some K64 => z ← checked (vp_u64 value); marshal_8_octets insert_at z order
  | Some KString => s ← checked (vp_str value); marshal_string insert_at s order
  | Some KSignature => s ← checked (vp_str value); marshal_signature insert_at s
  | None => checked None
  end.

Definition marshal_1_octets_array (insert_at : nat) (value : bytes) (n_elements : nat) : SM nat :=
  let value_str := _dbus_string_init_const_len value n_elements in
  _dbus_string_copy_len value_str 0 n_elements insert_at;;
  mret (insert_at + n_elements)%nat.

(** The array of [n_elements] elements of [alignment] bytes at [data]. *)
Fixpoint _dbus_swap_array (data : bytes) (n_elements alignment : nat) : bytes :=
  match n_elements with
  | O => data
  | S n =>
      let d := load (take alignment data) in
      native alignment
        (if (alignment =? 8)%nat then DBUS_UINT64_SWAP_LE_BE d
         else if (alignment =? 4)%nat then DBUS_UINT32_SWAP_LE_BE d
         else DBUS_UINT16_SWAP_LE_BE d)
      ++ _dbus_swap_array (drop alignment data) n alignment
  end.

Definition swap_array (array_start n_elements : nat) (order : byte_order) (alignment : nat) :
    SM unit :=
  assert_ (aligned array_start alignment);;
  if bool_decide (order ≠ DBUS_COMPILER_BYTE_ORDER) then
    store (λ b,
      d ← mem_read b array_start (n_elements * alignment);
      mem_write b array_start (_dbus_swap_array d n_elements alignment))
  else mret tt.

Definition marshal_fixed_multi (insert_at : nat) (value : bytes) (n_elements : nat)
    (order : byte_order) (alignment : nat) : SM nat :=
  assert_ (Z.of_nat n_elements <=? DBUS_MAXIMUM_ARRAY_LENGTH / Z.of_nat alignment);;
  r ← gets id;
  let old_string_len := len r in
  let len_in_bytes := (n_elements * alignment)%nat in
  let error := (r' ← gets id; _dbus_string_delete insert_at (len r' - old_string_len)) in
  array_start ← on_failure (_dbus_string_insert_alignment insert_at alignment) error;
  let t := _dbus_string_init_const_len value len_in_bytes in
  on_failure (_dbus_string_copy t 0 array_start) error;;
  swap_array array_start n_elements order alignment;;
  mret (array_start + len_in_bytes)%nat.

Definition _dbus_marshal_write_fixed_multi (insert_at : nat) (element_type : byte)
    (value : bytes) (n_elements : nat) (order : byte_order) : SM nat :=
  match kind_of element_type with
  | Some KByte => marshal_1_octets_array insert_at value n_elements
  | Some K16 => marshal_fixed_multi insert_at value n_elements order 2
  | Some KBool | Some K32 => marshal_fixed_multi insert_at value n_elements order 4
  | Some K64 => marshal_fixed_multi insert_at value n_elements order 8
  | _ => checked None
  end.

End operations.

(** ** Wire format *)

Section wire.
Context (order : byte_order).

(** The bytes of a value behind its padding. *)
Definition wire_body (type : byte) (v : DBusBasicValue) : bytes :=
  match kind_of type, v with
  | Some KByte, Byt b => [b]
  | Some K16, U16 z => octets order 2 z
  | Some KBool, U32 z => octets order 4 (if z =? 0 then 0 else 1)
  | Some K32, U32 z => octets order 4 z
  | Some K64, U64 z => octets order 8 z
  | Some KString, Str s => octets order 4 (Z.of_nat (length s)) ++ s ++ [x00]
  | Some KSignature, Str s => z2b (Z.of_nat (length s)) :: s ++ [x00]
  | _, _ => []
  end.

(** A value written at [pos]. *)
Definition wire (pos : nat) (type : byte) (v : DBusBasicValue) : bytes :=
  padding pos (_dbus_type_get_alignment type) ++ wire_body type v.

End wire.

(** The member of the union fits the type and its value fits the member; C
    strings have no nul, and their length fits the length field. *)
Definition no_nul (s : bytes) : bool := forallb (λ c, negb (c =b x00)) s.

Definition value_ok (type : byte) (v : DBusBasicValue) : bool :=
  match kind_of type, v with
  | Some KByte, Byt _ => true
  | Some K16, U16 z => (0 <=? z) && (z <? 2 ^ 16)
  | Some KBool, U32 z | Some K32, U32 z => (0 <=? z) && (z <? 2 ^ 32)
  | Some K64, U64 z => (0 <=? z) && (z <? 2 ^ 64)
  | Some KString, Str s => no_nul s && (Z.of_nat (length s) <? 2 ^ 31)
  | Some KSignature, Str s => no_nul s && (length s <=? DBUS_MAXIMUM_SIGNATURE_LENGTH)%nat
  | _, _ => false
  end.

(** Booleans are stored as 0 or 1. *)
Definition canonical (type : byte) (v : DBusBasicValue) : DBusBasicValue :=
  match kind_of type, v with
  | Some KBool, U32 z => U32 (if z =? 0 then 0 else 1)
  | _, _ => v
  end.

(** *** Lemmas *)

Lemma strlen_no_nul s q : no_nul s = true → strlen (s ++ x00 :: q) = length s.
Proof.
  induction s as [|c s IH]; [done|]. simpl. intros [Hc Hs]%andb_true_iff.
  apply negb_true_iff in Hc. by rewrite Hc, IH.
Qed.

Lemma strlen_no_nul_nil s : no_nul s = true → strlen s = length s.
Proof.
  induction s as [|c s IH]; [done|]. simpl. intros [Hc Hs]%andb_true_iff.
  apply negb_true_iff in Hc. by rewrite Hc, IH.
Qed.

Lemma c_string_no_nul s q : no_nul s = true → c_string (s ++ x00 :: q) = s.
Proof. intros Hs. unfold c_string. by rewrite strlen_no_nul, take_app_length. Qed.

Lemma delete_inserted (t : bytes) i w :
  (i <= length t)%nat →
  take i (insert_at_ t i w) ++ drop (i + length w) (insert_at_ t i w) = t.
Proof.
  intros Hi. unfold insert_at_. rewrite take_app_length' by (rewrite length_take; lia).
  rewrite app_assoc, drop_app_length' by (rewrite length_app, length_take; lia).
  apply take_drop.
Qed.

(** Inserting behind what was just inserted. *)
Lemma insert_at_app (t : bytes) i w w' :
  (i <= length t)%nat →
  insert_at_ (insert_at_ t i w) (i + length w) w' = insert_at_ t i (w ++ w').
Proof.
  intros Hi. unfold insert_at_ at 1.
  assert (take (i + length w) (insert_at_ t i w) = take i t ++ w) as ->.
  { unfold insert_at_. rewrite app_assoc. apply take_app_length'.
    rewrite length_app, length_take. lia. }
  assert (drop (i + length w) (insert_at_ t i w) = drop i t) as ->.
  { unfold insert_at_. rewrite app_assoc. apply drop_app_length'.
    rewrite length_app, length_take. lia. }
  unfold insert_at_. by rewrite <- !app_assoc.
Qed.

Lemma too_long_insert_app t i w w' :
  too_long (insert_at_ t i w) → too_long (insert_at_ t i (w ++ w')).
Proof. unfold too_long. rewrite !length_insert_at, length_app. lia. Qed.

Section write_lemmas.
Context `{Host}.

(** The three [marshal_n_octets]: [k] computes [pos_after]. *)
Lemma marshal_octets_ok n swap t i v o h k :
  reverses n swap → is_alignment n → (i <= length t)%nat →
  (∀ r r' m, is_str t r → is_str t r' →
     match h r r' m with Ok _ s' _ | Failed s' _ => is_str t s' | Ub => False end) →
  (∀ r r' m, (i + (len r' - len r) <= len r')%nat → k r r' m = Ok (i + (len r' - len r))%nat r' m) →
  op_spec t
    (r ← gets id;
     on_failure (insert_aligned i (native n (to_order swap o v))) (h r);;
     k r)
    (i + length (padding i n ++ octets o n v))%nat
    (insert_at_ t i (padding i n ++ octets o n v)).
Proof.
  intros Hs Ha Hi Hh Hk. rewrite (to_order_native n swap o v Hs).
  pose proof (insert_aligned_ok t i (octets o n v) Hi) as Hins.
  rewrite length_octets in Hins. specialize (Hins Ha).
  apply hoare_gets. intros r Hr. eapply hoare_bind.
  { eapply hoare_is_str_eq; [exact Hr|]. eapply hoare_on_failure; [exact Hins|].
    intros r' m' Hr'. by apply Hh. }
  intros []; cbv beta. apply hoare_pure_l. intros _ r' m' Hr'.
  assert (len r' - len r = length (padding i n ++ octets o n v))%nat as El
    by (rewrite <- (is_str_length _ _ Hr), <- (is_str_length _ _ Hr'), length_insert_at; lia).
  rewrite Hk, El; [done|]. rewrite El, <- (is_str_length _ _ Hr'), length_insert_at. lia.
Qed.

Lemma get_pos_after_ok i r r' m :
  (i + (len r' - len r) <= len r')%nat →
  get_pos_after i r r' m = Ok (i + (len r' - len r))%nat r' m.
Proof.
  intros Hl. unfold get_pos_after, gets, assert_, mbind, M_bind. cbn [id].
  by rewrite (proj2 (Nat.leb_le _ _)).
Qed.

Lemma get_pos_after_failed t i r r' m :
  (i <= length t)%nat → is_str t r → is_str t r' →
  match ignore (get_pos_after i r) r' m with Ok _ s' _ | Failed s' _ => is_str t s' | Ub => False end.
Proof.
  intros Hi Hr Hr'. pose proof (is_str_length _ _ Hr). pose proof (is_str_length _ _ Hr').
  unfold ignore, mbind, M_bind. rewrite get_pos_after_ok by lia. done.
Qed.

Lemma marshal_2_ok t i v o :
  (i <= length t)%nat →
  op_spec t (marshal_2_octets i v o) (i + length (padding i 2 ++ octets o 2 v))%nat
    (insert_at_ t i (padding i 2 ++ octets o 2 v)).
Proof.
  intros Hi. apply marshal_octets_ok; [exact swap_16|by alignment|done| |].
  - intros r r' m. by apply get_pos_after_failed.
  - apply get_pos_after_ok.
Qed.

Lemma marshal_4_ok t i v o :
  (i <= length t)%nat →
  op_spec t (marshal_4_octets i v o) (i + length (padding i 4 ++ octets o 4 v))%nat
    (insert_at_ t i (padding i 4 ++ octets o 4 v)).
Proof.
  intros Hi. apply marshal_octets_ok; [exact swap_32|by alignment|done| |].
  - intros r r' m. by apply get_pos_after_failed.
  - apply get_pos_after_ok.
Qed.

Lemma marshal_8_ok t i v o :
  (i <= length t)%nat →
  op_spec t (marshal_8_octets i v o) (i + length (padding i 8 ++ octets o 8 v))%nat
    (insert_at_ t i (padding i 8 ++ octets o 8 v)).
Proof.
  intros Hi. pose proof (marshal_octets_ok 8 DBUS_UINT64_SWAP_LE_BE t i v o (λ _, mret tt : SM unit)
    (λ r, r' ← gets id; mret (i + (len r' - len r))%nat : SM nat) swap_64 ltac:(alignment) Hi) as Hm.
  specialize (Hm ltac:(done) ltac:(done)). intros r m Hr. specialize (Hm r m Hr).
  unfold marshal_8_octets, swap_8_octets, gets, on_failure, mbind, M_bind in *. cbn [id] in *.
  by destruct (insert_aligned _ _ _ _).
Qed.

(** Removing what a failed operation had inserted. *)
Lemma rollback t i w m r :
  (i <= length t)%nat → is_str (insert_at_ t i w) r →
  match _dbus_string_delete i (i + length w - i) r m with
  | Ok _ s' _ | Failed s' _ => is_str t s'
  | Ub => False
  end.
Proof.
  intros Hi Hr. replace (i + length w - i)%nat with (length w) by lia.
  pose proof (string_delete_ok (insert_at_ t i w) i (length w) False) as Hd.
  rewrite length_insert_at, delete_inserted in Hd by lia. specialize (Hd ltac:(lia) r m Hr).
  destruct (_dbus_string_delete i (length w) r m); [by destruct Hd|by destruct Hd|done].
Qed.

Lemma rollback_none t i m r :
  (i <= length t)%nat → is_str t r →
  match _dbus_string_delete i 0 r m with Ok _ s' _ | Failed s' _ => is_str t s' | Ub => False end.
Proof.
  intros Hi Hr. pose proof (rollback t i [] m r Hi) as Hd. rewrite insert_at_nil in Hd.
  replace (i + length [] - i)%nat with 0%nat in Hd by (simpl; lia). by apply Hd.
Qed.

(** The length field. *)
Definition length_field (as_ : marshal_as) (i n : nat) (o : byte_order) : bytes :=
  if bool_decide (as_ = MARSHAL_AS_SIGNATURE) then [z2b (Z.of_nat n)]
  else padding i 4 ++ octets o 4 (Z.of_nat n).

Lemma marshal_len_ok as_ t i value n o :
  let value_len := if bool_decide (as_ = MARSHAL_AS_BYTE_ARRAY) then n else (n + 1)%nat in
  let w := length_field as_ i n o ++ take value_len value in
  (i <= length t)%nat → (value_len <= length value)%nat →
  (as_ = MARSHAL_AS_SIGNATURE → n <= DBUS_MAXIMUM_SIGNATURE_LENGTH)%nat →
  op_spec t (marshal_len_followed_by_bytes as_ i value n o) (i + length w)%nat
    (insert_at_ t i w).
Proof.
  cbv zeta. intros Hi Hv Hsig. unfold marshal_len_followed_by_bytes.
  set (vl := if bool_decide (as_ = MARSHAL_AS_BYTE_ARRAY) then n else (n + 1)%nat) in *.
  apply hoare_gets. intros r Hr. set (w1 := length_field as_ i n o).
  eapply (hoare_bind _ _ _ (λ p r1, p = (i + length w1)%nat ∧ is_str (insert_at_ t i w1) r1)).
  { eapply hoare_is_str_eq; [exact Hr|]. unfold w1, length_field. case_bool_decide.
    - do 2 (apply hoare_assert; [by apply Nat.leb_le, Hsig|]). eapply hoare_on_failure.
      + eapply hoare_bind; [eapply hoare_conseq; [by apply insert_byte_ok|done|done|done|]|].
        { apply too_long_insert_app. }
        intros []; cbv beta. apply hoare_pure_l. intros _. by apply hoare_ret.
      + intros r1 m1 H1. rewrite Nat.sub_diag. by apply rollback_none.
    - eapply hoare_on_failure.
      + eapply hoare_conseq; [by apply marshal_4_ok|done|done|done|apply too_long_insert_app].
      + intros r1 m1 H1. unfold gets, mbind, M_bind. simpl.
        rewrite <- (is_str_length _ _ Hr), <- (is_str_length _ _ H1), Nat.sub_diag.
        replace (i + 0 - i)%nat with 0%nat by lia. by apply rollback_none. }
  intros p; cbv beta. apply hoare_pure_l. intros ->.
  pose proof (readable_const value vl Hv) as Hsrc.
  pose proof (copy_len_ok _ _ (insert_at_ t i w1) 0 vl (i + length w1) Hsrc) as Hc.
  rewrite length_take, length_insert_at in Hc. specialize (Hc ltac:(lia) ltac:(lia)).
  assert (sub (take vl value) 0 vl = take vl value) as Es.
  { unfold sub. by rewrite drop_0, take_take, Nat.min_id. }
  rewrite Es, insert_at_app in Hc by done. eapply hoare_bind.
  - eapply hoare_on_failure; [exact Hc|]. intros r1 m1 H1. by apply rollback.
  - intros []; cbv beta. apply hoare_pure_l. intros _. apply hoare_ret. intros s Hs.
    split; [|done]. rewrite length_app, length_take. lia.
Qed.

Lemma marshal_string_ok t i s o :
  no_nul s = true → (i <= length t)%nat →
  let w := padding i 4 ++ octets o 4 (Z.of_nat (length s)) ++ s ++ [x00] in
  op_spec t (marshal_string i s o) (i + length w)%nat (insert_at_ t i w).
Proof.
  intros Hs Hi. cbv zeta. unfold marshal_string. rewrite strlen_no_nul_nil by done.
  pose proof (marshal_len_ok MARSHAL_AS_STRING t i (s ++ [x00]) (length s) o) as Hm.
  cbn [bool_decide] in Hm. unfold length_field in Hm. simpl in Hm. rewrite length_app in Hm.
  rewrite take_ge, <- app_assoc in Hm by (rewrite length_app; simpl; lia).
  apply Hm; simpl; [lia..|done].
Qed.

Lemma marshal_signature_ok t i s :
  no_nul s = true → (length s <= DBUS_MAXIMUM_SIGNATURE_LENGTH)%nat → (i <= length t)%nat →
  let w := z2b (Z.of_nat (length s)) :: s ++ [x00] in
  op_spec t (marshal_signature i s) (i + length w)%nat (insert_at_ t i w).
Proof.
  intros Hs Hl Hi. cbv zeta. unfold marshal_signature. rewrite strlen_no_nul_nil by done.
  pose proof (marshal_len_ok MARSHAL_AS_SIGNATURE t i (s ++ [x00]) (length s)
    DBUS_COMPILER_BYTE_ORDER) as Hm.
  unfold length_field in Hm. simpl in Hm. rewrite length_app in Hm.
  rewrite take_ge in Hm by (rewrite length_app; simpl; lia).
  apply Hm; simpl; lia.
Qed.

(** Writing a value inserts its wire format. *)
Lemma write_basic_ok t i type v o :
  value_ok type v = true → (i <= length t)%nat →
  op_spec t (_dbus_marshal_write_basic i type v o) (i + length (wire o i type v))%nat
    (insert_at_ t i (wire o i type v)).
Proof.
  intros Hv Hi.
  assert (match kind_of type with
          | Some KByte | Some KSignature => _dbus_type_get_alignment type = 1%nat
          | Some K16 => _dbus_type_get_alignment type = 2%nat
          | Some K64 => _dbus_type_get_alignment type = 8%nat
          | Some _ => _dbus_type_get_alignment type = 4%nat
          | None => True end) as Ha by (by destruct type).
  unfold _dbus_marshal_write_basic, wire, wire_body, value_ok in *.
  assert (padding i 1 = []) as P1.
  { unfold padding. pose proof (align_up_spec i 1 ltac:(alignment)).
    by replace (align_up i 1 - i)%nat with 0%nat by lia. }
  destruct (kind_of type) as [[]|]; try done; rewrite Ha; clear Ha; destruct v; try done.
  - rewrite P1. apply (op_spec_seq t (_dbus_string_insert_byte i b) tt (insert_at_ t i [b])
      (λ _, mret (i + 1)%nat)); [by apply insert_byte_ok|done|by apply hoare_ret].
  - by apply marshal_2_ok.
  - by apply marshal_4_ok.
  - by apply marshal_4_ok.
  - by apply marshal_8_ok.
  - bool_prop. by apply marshal_string_ok.
  - bool_prop. rewrite P1. apply marshal_signature_ok; [done|lia|done].
Qed.

End write_lemmas.

(** *** Reading *)

Lemma is_str_split t r : is_str t r → ∃ q, str r = t ++ q.
Proof.
  intros [_ Hc]. exists (drop (len r) (str r)). rewrite <- Hc. unfold contents.
  by rewrite take_drop.
Qed.

Lemma mem_read_mid (a d b : bytes) i n :
  i = length a → n = length d → mem_read (a ++ d ++ b) i n = Some d.
Proof.
  intros -> ->. unfold mem_read. rewrite (proj2 (Nat.leb_le _ _)).
  - unfold sub. by rewrite drop_app_length, take_app_length.
  - rewrite !length_app. lia.
Qed.

Lemma type_alignment_kind type :
  match kind_of type with
  | Some KByte | Some KSignature => _dbus_type_get_alignment type = 1%nat
  | Some K16 => _dbus_type_get_alignment type = 2%nat
  | Some K64 => _dbus_type_get_alignment type = 8%nat
  | Some _ => _dbus_type_get_alignment type = 4%nat
  | None => True
  end.
Proof. by destruct type. Qed.

Lemma padding_1 i : padding i 1 = [].
Proof.
  unfold padding. pose proof (align_up_spec i 1 ltac:(alignment)).
  by replace (align_up i 1 - i)%nat with 0%nat by lia.
Qed.

Lemma align_up_pad i a : is_alignment a → align_up i a = (i + length (padding i a))%nat.
Proof. intros Ha. rewrite length_padding. pose proof (align_up_spec i a Ha). lia. Qed.

Section read_lemmas.
Context `{Host}.

(** A native load behind the padding, put in order. *)
Lemma read_octets (pre post q : bytes) n swap o z :
  reverses n swap → is_alignment n → 0 <= z < 2 ^ (8 * Z.of_nat n) →
  let pos := align_up (length pre) n in
  mem_read ((pre ++ (padding (length pre) n ++ octets o n z) ++ post) ++ q) pos n
    = Some (octets o n z)
  ∧ to_order swap o (load (octets o n z)) = z
  ∧ (pos + n)%nat = (length pre + length (padding (length pre) n ++ octets o n z))%nat.
Proof.
  intros Hs Ha Hz. cbv zeta. rewrite (align_up_pad _ _ Ha). split; [|split].
  - rewrite <- !app_assoc, (app_assoc pre). apply mem_read_mid; [by rewrite length_app|].
    by rewrite length_octets.
  - rewrite (to_order_load n) by (done || apply length_octets).
    rewrite of_octets_octets. by apply Z.mod_small.
  - rewrite length_app, length_octets. lia.
Qed.

Lemma read_uint32_ok (pre post : bytes) z o r :
  0 <= z < 2 ^ 32 →
  is_str (pre ++ (padding (length pre) 4 ++ octets o 4 z) ++ post) r →
  _dbus_marshal_read_uint32 r (length pre) o
  = Some (z, length pre + length (padding (length pre) 4 ++ octets o 4 z))%nat.
Proof.
  intros Hz Hr. destruct (is_str_split _ _ Hr) as [q Hq].
  destruct (read_octets pre post q 4 _ o z swap_32 ltac:(alignment) Hz) as (Hm & _ & Hp).
  pose proof (is_str_length _ _ Hr) as Hlen. rewrite !length_app in Hlen.
  rewrite length_app in Hp. unfold _dbus_marshal_read_uint32.
  rewrite (proj2 (Nat.leb_le _ _)) by lia. rewrite Hq, Hm. simpl.
  rewrite unpack_32_ok by apply length_octets. rewrite of_octets_octets, Z.mod_small by done.
  by rewrite length_app, <- Hp.
Qed.

Lemma int_of_u32_ok z : 0 <= z < 2 ^ 31 → int_of_u32 z = Some (Z.to_nat z).
Proof. intros Hz. unfold int_of_u32. by rewrite (proj2 (Z.ltb_lt _ _)) by lia. Qed.

Lemma b2z_length (s : bytes) :
  (length s <= 255)%nat → Z.to_nat (b2z (z2b (Z.of_nat (length s)))) = length s.
Proof. intros Hs. rewrite b2z_z2b, Z.mod_small by lia. lia. Qed.

(** Reading a value from its wire format. *)
Lemma read_basic_ok (pre post : bytes) type v o r :
  value_ok type v = true →
  is_str (pre ++ wire o (length pre) type v ++ post) r →
  _dbus_marshal_read_basic r (length pre) type o
  = Some (canonical type v, length pre + length (wire o (length pre) type v))%nat.
Proof.
  intros Hv Hr. destruct (is_str_split _ _ Hr) as [q Hq].
  pose proof (type_alignment_kind type) as Ha.
  unfold _dbus_marshal_read_basic, wire, wire_body, value_ok, canonical in *.
  destruct (kind_of type) as [[]|]; try done; rewrite Ha in *; clear Ha; destruct v as [b|z|z|z|s];
    try done; rewrite ?padding_1 in *; bool_prop.
  - by rewrite (get_byte_ok pre b post).
  - destruct (read_octets pre post q 2 _ o z swap_16 ltac:(alignment) ltac:(lia)) as (Hm & Hl & Hp).
    rewrite Hq, Hm. simpl. by rewrite Hl, Hp.
  - destruct (read_octets pre post q 4 _ o (if z =? 0 then 0 else 1) swap_32 ltac:(alignment)
      ltac:(destruct (z =? 0); lia)) as (Hm & Hl & Hp).
    rewrite Hq, Hm. simpl. by rewrite Hl, Hp.
  - destruct (read_octets pre post q 4 _ o z swap_32 ltac:(alignment) ltac:(lia)) as (Hm & Hl & Hp).
    rewrite Hq, Hm. simpl. by rewrite Hl, Hp.
  - destruct (read_octets pre post q 8 _ o z swap_64 ltac:(alignment) ltac:(lia)) as (Hm & Hl & Hp).
    rewrite Hq, Hm. simpl. by rewrite Hl, Hp.
  - rewrite (app_assoc (padding _ _)) in *. set (w := padding (length pre) 4 ++ _) in *.
    assert (is_str (pre ++ w ++ s ++ [x00] ++ post) r) as Hr' by (by rewrite <- !app_assoc in Hr).
    rewrite (read_uint32_ok pre (s ++ [x00] ++ post) (Z.of_nat (length s)) o r); [|lia|done].
    fold w. simpl. rewrite int_of_u32_ok by lia. simpl. rewrite Nat2Z.id.
    rewrite Hq, <- !app_assoc, (app_assoc pre w), drop_app_length' by (by rewrite length_app).
    simpl. rewrite c_string_no_nul by done. f_equal. f_equal.
    rewrite !length_app. simpl. lia.
  - rewrite (get_byte_ok pre (z2b (Z.of_nat (length s))) ((s ++ [x00]) ++ post)) by done.
    cbn [mbind option_bind]. rewrite b2z_length by (unfold DBUS_MAXIMUM_SIGNATURE_LENGTH in *; lia).
    rewrite Hq, <- !app_assoc. simpl. rewrite <- !app_assoc.
    rewrite (cons_middle _ pre), (app_assoc pre).
    rewrite drop_app_length' by (rewrite length_app; simpl; lia). simpl.
    rewrite c_string_no_nul by done. f_equal. f_equal. rewrite length_app. simpl. lia.
Qed.

(** Skipping a value moves to where reading it would. *)
Lemma skip_basic_read r pos type o v p :
  _dbus_marshal_read_basic r pos type o = Some (v, p) →
  _dbus_marshal_skip_basic r type o pos = Some p.
Proof.
  unfold _dbus_marshal_read_basic, _dbus_marshal_skip_basic.
  destruct (kind_of type) as [[]|]; try done.
  1: destruct (_dbus_string_get_byte _ _); simpl; congruence.
  1-4: destruct (mem_read _ _ _); simpl; congruence.
  - destruct (_dbus_marshal_read_uint32 r pos o) as [[l p']|]; simpl; [|done].
    destruct (int_of_u32 l); simpl; congruence.
  - destruct (_dbus_string_get_byte _ _); [|done]. cbn [mbind option_bind].
    intros [= <- <-]. f_equal. lia.
Qed.

End read_lemmas.

(** *** Overwriting *)

Lemma store_mid (a x b y : bytes) F L :
  length x = length y →
  hoare (is_str (a ++ x ++ b)) (store (λ buf, mem_write buf (length a) y))
    (λ _, is_str (a ++ y ++ b)) F L.
Proof.
  intros Hl. eapply hoare_conseq; [apply (store_write (a ++ x ++ b) (length a) y)|done| |done|done].
  - rewrite !length_app. lia.
  - intros [] s Hs. by rewrite overwrite_fill in Hs.
Qed.

Lemma set_octets_mid n (a x b y : bytes) F L :
  length x = n → length y = n → aligned (length a) n = true →
  hoare (is_str (a ++ x ++ b)) (set_octets n (length a) y) (λ _, is_str (a ++ y ++ b)) F L.
Proof.
  intros <- Hy Ha. apply asserting_rule; [apply Nat.leb_le; rewrite !length_app; lia|].
  apply hoare_assert; [done|]. by apply store_mid.
Qed.

Lemma align_up_aligned p a : is_alignment a → (p mod a = 0)%nat → align_up p a = p.
Proof.
  intros Ha Hp. destruct (align_up_spec p a Ha) as [Hr Hm].
  assert (0 < a)%nat as Ha0.
  { unfold is_alignment in Ha. rewrite !elem_of_cons, elem_of_nil in Ha.
    destruct Ha as [->|[->|[->|[->|[]]]]]; lia. }
  pose proof (Nat.div_mod p a ltac:(lia)) as D1. pose proof (Nat.div_mod (align_up p a) a ltac:(lia)) as D2.
  rewrite Hp in D1. rewrite Hm in D2. set (q := (p / a)%nat) in *. set (q' := (align_up p a / a)%nat) in *.
  assert (q = q') by nia. subst q'. lia.
Qed.

Lemma align_up_idem p a : is_alignment a → align_up (align_up p a) a = align_up p a.
Proof. intros Ha. apply align_up_aligned; [done|by apply align_up_spec]. Qed.

Lemma aligned_up p n : is_alignment n → aligned (align_up p n) n = true.
Proof. intros Hn. apply Nat.eqb_eq. by apply align_up_idem. Qed.

Lemma replace_mid (a x b s : bytes) :
  hoare (is_str (a ++ x ++ b))
    (_dbus_string_replace_len (_dbus_string_init_const_len (s ++ [x00]) (length s)) 0 (length s)
       (length a) (length x))
    (λ _, is_str (a ++ s ++ b)) (is_str (a ++ x ++ b)) (too_long ((a ++ x ++ b) ++ s)).
Proof.
  assert (readable s (_dbus_string_init_const_len (s ++ [x00]) (length s))) as Hs.
  { pose proof (readable_const (s ++ [x00]) (length s)) as Hc. rewrite take_app_length in Hc.
    apply Hc. rewrite length_app. lia. }
  eapply hoare_conseq; [apply (replace_len_ok s); [exact Hs|lia|]|done| |done|].
  - rewrite !length_app. lia.
  - intros [] r Hr. by rewrite take_app_length, sub_all, (app_assoc a x), drop_app_length' in Hr
      by (by rewrite length_app).
  - unfold too_long. rewrite sub_all, length_insert_at, (length_app (a ++ x ++ b)). lia.
Qed.

Section set_lemmas.
Context `{Host}.

Lemma set_string_ok (a post s0 s : bytes) o :
  aligned (length a) 4 = true → no_nul s0 = true → no_nul s = true → Z.of_nat (length s0) < 2 ^ 31 →
  let t s := a ++ (octets o 4 (Z.of_nat (length s)) ++ s ++ [x00]) ++ post in
  hoare (is_str (t s0)) (set_string (length a) s o)
    (λ e r', e = (length a + 4 + length s0 + 1, length a + 4 + length s + 1)%nat ∧ is_str (t s) r')
    (is_str (t s0)) (too_long (t s0 ++ s)).
Proof.
  intros Ha H0 Hs Hl. cbv zeta. unfold set_string. rewrite strlen_no_nul_nil by done.
  apply hoare_assert; [done|]. apply hoare_gets. intros r Hr.
  destruct (is_str_split _ _ Hr) as [q Hq]. apply hoare_assert.
  { apply Nat.leb_le. rewrite <- (is_str_length _ _ Hr), !length_app, length_octets. lia. }
  rewrite Hq, <- !app_assoc, mem_read_mid by (done || by rewrite length_octets).
  unfold checked. change (_ ≫= ?k) with (k (octets o 4 (Z.of_nat (length s0)))). cbv beta.
  rewrite unpack_32_ok, of_octets_octets by apply length_octets.
  rewrite Z.mod_small, int_of_u32_ok, Nat2Z.id by lia.
  match goal with |- hoare _ (_ ≫= ?k) _ _ _ => change (_ ≫= k) with (k (length s0)) end. cbv beta.
  set (L0 := octets o 4 (Z.of_nat (length s0))) in *.
  assert (length (a ++ L0) = (length a + 4)%nat) as EL.
  { unfold L0. by rewrite length_app, length_octets. }
  rewrite <- EL. eapply hoare_bind.
  { eapply hoare_is_str_eq; [exact Hr|].
    pose proof (replace_mid (a ++ L0) s0 ([x00] ++ post) s) as Hrep.
    rewrite <- !app_assoc. repeat rewrite <- app_assoc in Hrep. exact Hrep. }
  intros []; cbv beta. eapply hoare_bind.
  { unfold _dbus_marshal_set_uint32, set_4_octets. rewrite pack_4_ok.
    apply (set_octets_mid 4 a L0); [apply length_octets|apply length_octets|done]. }
  intros []; cbv beta. apply hoare_ret. done.
Qed.

Lemma set_signature_ok (a post s0 s : bytes) :
  no_nul s0 = true → no_nul s = true →
  (length s0 <= 255)%nat → (length s <= 255)%nat →
  let t s := a ++ (z2b (Z.of_nat (length s)) :: s ++ [x00]) ++ post in
  hoare (is_str (t s0)) (set_signature (length a) s)
    (λ e r', e = (length a + 1 + length s0 + 1, length a + 1 + length s + 1)%nat ∧ is_str (t s) r')
    (is_str (t s0)) (too_long (t s0 ++ s)).
Proof.
  intros H0 Hs Hl0 Hl. cbv zeta. unfold set_signature. rewrite strlen_no_nul_nil by done.
  apply hoare_gets. intros r Hr.
  set (l0 := z2b (Z.of_nat (length s0))) in *. set (l := z2b (Z.of_nat (length s))).
  rewrite (get_byte_ok a l0 ((s0 ++ [x00]) ++ post)) by done.
  change (checked (Some l0) ≫= ?k) with (k l0). cbv beta.
  unfold l0 at 1 2. rewrite b2z_length by done.
  assert (length (a ++ [l0]) = (length a + 1)%nat) as EL by (by rewrite length_app).
  rewrite <- EL. eapply hoare_bind.
  { eapply hoare_is_str_eq; [exact Hr|].
    pose proof (replace_mid (a ++ [l0]) s0 ([x00] ++ post) s) as Hrep.
    repeat rewrite <- app_assoc in Hrep. simpl in Hrep. simpl. rewrite <- !app_assoc. simpl.
    rewrite <- !app_assoc. exact Hrep. }
  intros []; cbv beta. eapply hoare_bind.
  { apply (set_byte_ok a l0 _ l). }
  intros []; cbv beta. apply hoare_ret. intros r' Hr'. split; [done|].
  simpl. by rewrite <- app_assoc.
Qed.

(** Overwriting the octets of a fixed-size value. *)
Lemma set_octets_ok (pre post : bytes) n o z0 z set :
  is_alignment n →
  set = set_octets n (align_up (length pre) n) (octets o n z) →
  let w z := padding (length pre) n ++ octets o n z in
  let e := (align_up (length pre) n + n)%nat in
  hoare (is_str (pre ++ w z0 ++ post)) (set;; mret (e, e) : SM (nat * nat))
    (λ e r', e = (length pre + length (w z0), length pre + length (w z))%nat
             ∧ is_str (pre ++ w z ++ post) r')
    (is_str (pre ++ w z0 ++ post)) (too_long ((pre ++ w z0 ++ post) ++ w z)).
Proof.
  intros Ha ->. cbv zeta. pose proof (aligned_up (length pre) n Ha) as Hal.
  rewrite (align_up_pad _ _ Ha), <- length_app in *. eapply hoare_bind.
  - rewrite <- !app_assoc, (app_assoc pre). by apply set_octets_mid; rewrite ?length_octets.
  - intros []; cbv beta. apply hoare_ret. intros r Hr. rewrite <- !app_assoc in *.
    split; [|done]. rewrite !length_app, !length_octets. f_equal; lia.
Qed.

(** Overwriting a value replaces its wire format, and gives the two ends. *)
Lemma set_basic_ok (pre post : bytes) type v0 v o :
  value_ok type v0 = true → value_ok type v = true → canonical type v = v →
  let t v := pre ++ wire o (length pre) type v ++ post in
  hoare (is_str (t v0)) (_dbus_marshal_set_basic (length pre) type v o)
    (λ e r', e = (length pre + length (wire o (length pre) type v0),
                  length pre + length (wire o (length pre) type v))%nat ∧ is_str (t v) r')
    (is_str (t v0)) (too_long (t v0 ++ wire o (length pre) type v)).
Proof.
  intros Hv0 Hv Hc. cbv zeta. pose proof (type_alignment_kind type) as Ha.
  unfold _dbus_marshal_set_basic, wire, wire_body, value_ok, canonical in *.
  destruct (kind_of type) as [[]|]; try done; rewrite Ha in *; clear Ha;
    destruct v0 as [b0|z0|z0|z0|s0], v as [b|z|z|z|s]; try done; rewrite ?padding_1 in *; bool_prop.
  - eapply (hoare_bind _ (_dbus_string_set_byte (length pre) b) (λ _, mret (_, _))).
    + apply (set_byte_ok pre b0 post b).
    + intros []; cbv beta. by apply hoare_ret.
  - apply (set_octets_ok pre post 2 o z0 z); [by alignment|].
    unfold set_2_octets. by rewrite pack_2_ok.
  - injection Hc as Ez. rewrite Ez. apply (set_octets_ok pre post 4 o _ z); [by alignment|].
    unfold set_4_octets. by rewrite pack_4_ok.
  - apply (set_octets_ok pre post 4 o z0 z); [by alignment|].
    unfold set_4_octets. by rewrite pack_4_ok.
  - apply (set_octets_ok pre post 8 o z0 z); [by alignment|].
    unfold set_8_octets. by rewrite pack_8_ok.
  - pose proof (aligned_up (length pre) 4 ltac:(alignment)) as Hal.
    rewrite (align_up_pad _ 4), <- length_app in Hal |- * by alignment.
    pose proof (set_string_ok (pre ++ padding (length pre) 4) post s0 s o) as Hset.
    cbv zeta in Hset. specialize (Hset Hal ltac:(done) ltac:(done) ltac:(lia)). cbv beta in Hset.
    eapply hoare_conseq; [exact Hset| | | |].
    + intros r Hr. repeat rewrite <- app_assoc in Hr. by repeat rewrite <- app_assoc.
    + intros e r [-> Hr]. 
      split; [|repeat rewrite <- app_assoc in Hr; by repeat rewrite <- app_assoc].
      rewrite !length_app, !length_octets. simpl. f_equal; lia.
    + intros r Hr. repeat rewrite <- app_assoc in Hr. by repeat rewrite <- app_assoc.
    + unfold too_long. rewrite !length_app. lia.
  - pose proof (set_signature_ok pre post s0 s) as Hset. cbv zeta in Hset.
    unfold DBUS_MAXIMUM_SIGNATURE_LENGTH in *.
    specialize (Hset ltac:(done) ltac:(done) ltac:(lia) ltac:(lia)).
    eapply hoare_conseq; [exact Hset|done| |done|].
    + intros e r [-> Hr]. split; [|done]. simpl. rewrite !length_app. simpl. f_equal; lia.
    + unfold too_long. rewrite !length_app. simpl. rewrite !length_app. lia.
Qed.

End set_lemmas.

(** *** Blocks of fixed-size values *)

Lemma store_update (a x b : bytes) (f : bytes → bytes) F L :
  length (f x) = length x →
  hoare (is_str (a ++ x ++ b))
    (store (λ buf, d ← mem_read buf (length a) (length x); mem_write buf (length a) (f d)))
    (λ _, is_str (a ++ f x ++ b)) F L.
Proof.
  intros Hl r m Hr. destruct (is_str_split _ _ Hr) as [q Hq].
  pose proof (store_mid a x b (f x) F L (eq_sym Hl) r m Hr) as Hs.
  unfold store, gets, mbind, M_bind, id in *. rewrite Hq in *. rewrite <- !app_assoc in *.
  by rewrite mem_read_mid by done.
Qed.

Lemma length_flat_map_octets o n zs :
  length (flat_map (octets o n) zs) = (length zs * n)%nat.
Proof. induction zs as [|z zs IH]; [done|]. simpl. by rewrite length_app, length_octets, IH. Qed.

Section multi.
Context `{Host}.

Definition swap_of (alignment : nat) (d : Z) : Z :=
  if (alignment =? 8)%nat then DBUS_UINT64_SWAP_LE_BE d
  else if (alignment =? 4)%nat then DBUS_UINT32_SWAP_LE_BE d
  else DBUS_UINT16_SWAP_LE_BE d.

Lemma swap_of_reverses n : n ∈ [2; 4; 8]%nat → reverses n (swap_of n).
Proof.
  rewrite !elem_of_cons. intros [->|[->|[->|[]%elem_of_nil]]] v;
    [apply swap_16|apply swap_32|apply swap_64].
Qed.

Lemma swap_array_ok n zs :
  n ∈ [2; 4; 8]%nat → Forall (λ z, 0 <= z < 2 ^ (8 * Z.of_nat n)) zs →
  _dbus_swap_array (flat_map (native n) zs) (length zs) n
  = flat_map (octets (other DBUS_COMPILER_BYTE_ORDER) n) zs.
Proof.
  intros Hn. induction 1 as [|z zs Hz _ IH]; [done|]. simpl.
  rewrite take_app_length', drop_app_length' by (by unfold native; rewrite length_octets).
  rewrite IH. f_equal. fold (swap_of n (load (native n z))). unfold load, native.
  rewrite of_octets_octets, Z.mod_small by done.
  by apply octets_reverses, swap_of_reverses.
Qed.

Lemma fixed_multi_ok t i zs n o :
  n ∈ [2; 4; 8]%nat → Forall (λ z, 0 <= z < 2 ^ (8 * Z.of_nat n)) zs →
  Z.of_nat (length zs) <= DBUS_MAXIMUM_ARRAY_LENGTH / Z.of_nat n → (i <= length t)%nat →
  let w := padding i n ++ flat_map (octets o n) zs in
  op_spec t (marshal_fixed_multi i (flat_map (native n) zs) (length zs) o n)
    (i + length w)%nat (insert_at_ t i w).
Proof.
  intros Hn Hz Hmax Hi. cbv zeta. assert (is_alignment n) as Ha by (by apply elem_of_cons; right).
  set (v := flat_map (native n) zs).
  assert (length v = (length zs * n)%nat) as Hv by apply length_flat_map_octets.
  apply hoare_assert; [by apply Z.leb_le|]. apply hoare_gets. intros r Hr. cbv zeta.
  eapply (hoare_bind _ _ _ (λ p r1, p = align_up i n ∧ is_str (insert_at_ t i (padding i n)) r1)).
  { eapply hoare_on_failure.
    - eapply hoare_is_str_eq; [exact Hr|].
      eapply hoare_conseq; [by apply (align_gap_ok t i n 0)|done| |done|].
      + intros p r1 (-> & g & Hg & Hr1). split; [done|]. destruct g; [|done].
        by rewrite app_nil_r in Hr1.
      + unfold too_long. rewrite length_insert_at, length_app, length_padding. lia.
    - intros r1 m1 H1. unfold gets, mbind, M_bind. simpl.
      rewrite <- (is_str_length _ _ Hr), <- (is_str_length _ _ H1), Nat.sub_diag.
      by apply rollback_none. }
  intros p; cbv beta. apply hoare_pure_l. intros ->. rewrite (align_up_pad _ _ Ha).
  eapply (hoare_bind _ _ _ (λ _, is_str (insert_at_ t i (padding i n ++ v)))).
  { pose proof (copy_whole_ok _ _ (insert_at_ t i (padding i n)) (i + length (padding i n))
      (readable_const v (length v) ltac:(lia))) as Hc.
    rewrite length_insert_at, insert_at_app in Hc by done.
    specialize (Hc ltac:(lia)). rewrite (take_ge v) in Hc by done.
    eapply hoare_on_failure.
    - rewrite <- Hv. eapply hoare_conseq; [exact Hc|done|by intros [] ? []|done|].
      unfold too_long. rewrite !length_insert_at, !length_app, length_flat_map_octets. lia.
    - intros r1 m1 H1. unfold gets, mbind, M_bind. simpl.
      rewrite <- (is_str_length _ _ Hr), <- (is_str_length _ _ H1), length_insert_at.
      replace (length t + length (padding i n) - length t)%nat
        with (i + length (padding i n) - i)%nat by lia. by apply rollback. }
  intros []; cbv beta. eapply (hoare_bind _ _ _ (λ _, is_str (insert_at_ t i
    (padding i n ++ flat_map (octets o n) zs)))).
  - apply hoare_assert; [rewrite <- align_up_pad by done; by apply aligned_up|]. case_bool_decide as Ho.
    + unfold insert_at_. rewrite <- !app_assoc, !(app_assoc (take i t)).
      assert (o = other DBUS_COMPILER_BYTE_ORDER) as -> by (by destruct o, DBUS_COMPILER_BYTE_ORDER).
      rewrite <- swap_array_ok by done. rewrite <- Hv.
      assert ((i + length (padding i n))%nat = length (take i t ++ padding i n)) as ->
        by (rewrite length_app, length_take; lia).
      apply (store_update _ v _ (λ d, _dbus_swap_array d (length zs) n)).
      unfold v. by rewrite swap_array_ok, !length_flat_map_octets by done.
    + apply hoare_ret. by rewrite Ho.
  - intros []; cbv beta. apply hoare_ret. intros s Hs. split; [|done].
    rewrite length_app, length_flat_map_octets. lia.
Qed.

Lemma fixed_1_ok t i value :
  (i <= length t)%nat →
  op_spec t (marshal_1_octets_array i value (length value)) (i + length value)%nat
    (insert_at_ t i value).
Proof.
  intros Hi. pose proof (copy_len_ok _ _ t 0 (length value) i
    (readable_const value (length value) ltac:(lia))) as Hc.
  rewrite length_take, (take_ge value), sub_all in Hc by done.
  eapply op_spec_seq; [apply Hc; lia|done|]. by apply hoare_ret.
Qed.

End multi.

(** ** Theorems *)

(** The result of an operation that may fail, with the failure contract. *)
Definition outcome_is {A} (t : bytes) (L : Prop) (m : mem) (o : outcome DBusRealString A)
    (Q : A → DBusRealString → Prop) : Prop :=
  match o with
  | Ok a r' _ => Q a r'
  | Failed r' _ => is_str t r' ∧ (may_fail m ∨ L)
  | Ub => False
  end.

Lemma op_spec_outcome {A} t (c : SM A) a t' r m :
  op_spec t c a t' → is_str t r →
  outcome_is t (too_long t') m (c r m) (λ a' r', a' = a ∧ is_str t' r').
Proof.
  intros Hc Hr. specialize (Hc r m Hr). unfold outcome_is.
  destruct (c r m); [by destruct Hc|done|done].
Qed.

Section theorems.
Context `{Host}.

(** C3: Marshalling a basic value, on a host of either byte order, inserts the
    padding and the wire format of the value in the order asked for and returns
    the position behind; it fails only when memory runs out or the string would
    be too long, and then the string is as before.  Reading and skipping at the
    insertion point then end at that position, and reading returns the value
    (a boolean as 0 or 1). *)
Theorem marshal_basic_roundtrip t r m i type v o :
  value_ok type v = true → (i <= length t)%nat → is_str t r →
  outcome_is t (too_long (insert_at_ t i (wire o i type v))) m
    (_dbus_marshal_write_basic i type v o r m)
    (λ p r', is_str (insert_at_ t i (wire o i type v)) r'
       ∧ p = (i + length (wire o i type v))%nat
       ∧ _dbus_marshal_read_basic r' i type o = Some (canonical type v, p)
       ∧ _dbus_marshal_skip_basic r' type o i = Some p).
Proof.
  intros Hv Hi Hr. pose proof (op_spec_outcome _ _ _ _ r m (write_basic_ok t i type v o Hv Hi) Hr) as Hw.
  unfold outcome_is in *. destruct (_dbus_marshal_write_basic i type v o r m) as [p r' m'| |]; [|done|done].
  destruct Hw as [-> Hr']. split; [done|]. split; [done|].
  assert (length (take i t) = i) as Hl by (rewrite length_take; lia).
  pose proof (read_basic_ok (take i t) (drop i t) type v o r' Hv) as Hread.
  rewrite Hl in Hread. specialize (Hread Hr').
  split; [done|]. by eapply skip_basic_read.
Qed.

(** Overwriting a marshalled value in place exchanges its wire format for the one
    of the new value, strings of another length included, leaves the bytes before
    and after alone, and reports the old and the new end. *)
Theorem marshal_set_basic_refines (pre post : bytes) r m type v0 v o :
  value_ok type v0 = true → value_ok type v = true → canonical type v = v →
  is_str (pre ++ wire o (length pre) type v0 ++ post) r →
  outcome_is (pre ++ wire o (length pre) type v0 ++ post)
    (too_long ((pre ++ wire o (length pre) type v0 ++ post) ++ wire o (length pre) type v)) m
    (_dbus_marshal_set_basic (length pre) type v o r m)
    (λ '(old_end, new_end) r',
       is_str (pre ++ wire o (length pre) type v ++ post) r'
       ∧ old_end = (length pre + length (wire o (length pre) type v0))%nat
       ∧ new_end = (length pre + length (wire o (length pre) type v))%nat).
Proof.
  intros Hv0 Hv Hc Hr. pose proof (set_basic_ok pre post type v0 v o Hv0 Hv Hc r m Hr) as Hs.
  unfold outcome_is. destruct (_dbus_marshal_set_basic _ _ _ _ _ _) as [[e e'] r' m'| |]; [|done|done].
  by destruct Hs as [([= -> ->] & Hr') _].
Qed.

(** The block write of a fixed-size type, whose elements lie in host order in the
    caller's memory, inserts the padding once and then the octets of each element
    in the order asked for; it fails as the single write does. *)
Theorem marshal_fixed_multi_refines t r m i type n zs o :
  (type, n) ∈ [("n", 2); ("q", 2); ("b", 4); ("i", 4); ("u", 4); ("x", 8); ("t", 8); ("d", 8)]%byte%nat →
  Forall (λ z, 0 <= z < 2 ^ (8 * Z.of_nat n)) zs →
  Z.of_nat (length zs) <= DBUS_MAXIMUM_ARRAY_LENGTH / Z.of_nat n → (i <= length t)%nat → is_str t r →
  let w := padding i n ++ flat_map (octets o n) zs in
  outcome_is t (too_long (insert_at_ t i w)) m
    (_dbus_marshal_write_fixed_multi i type (flat_map (native n) zs) (length zs) o r m)
    (λ p r', p = (i + length w)%nat ∧ is_str (insert_at_ t i w) r').
Proof.
  intros Ht Hz Hmax Hi Hr. cbv zeta. apply op_spec_outcome; [|done].
  assert (n ∈ [2; 4; 8]%nat) as Hn.
  { rewrite !elem_of_cons, elem_of_nil in Ht. rewrite !elem_of_cons.
    decompose [or] Ht; simplify_eq; try done; auto. }
  pose proof (fixed_multi_ok t i zs n o Hn Hz Hmax Hi) as Hm.
  rewrite !elem_of_cons, elem_of_nil in Ht. decompose [or] Ht; simplify_eq; try done; exact Hm.
Qed.

End theorems.

Lemma marshal_basic_roundtrip_witness :
  let H : Host := DBUS_LITTLE_ENDIAN in
  let t := lit "abc" in let m := Mem [] "x"%byte in
  outcome_is t (too_long (insert_at_ t 3 (wire DBUS_BIG_ENDIAN 3 "s" (Str (lit "hi"))))) m
    (_dbus_marshal_write_basic 3 "s" (Str (lit "hi")) DBUS_BIG_ENDIAN (concrete t) m)
    (λ p r', is_str (insert_at_ t 3 (wire DBUS_BIG_ENDIAN 3 "s" (Str (lit "hi")))) r'
       ∧ p = (3 + length (wire DBUS_BIG_ENDIAN 3 "s" (Str (lit "hi"))))%nat
       ∧ _dbus_marshal_read_basic r' 3 "s" DBUS_BIG_ENDIAN = Some (Str (lit "hi"), p)
       ∧ _dbus_marshal_skip_basic r' "s" DBUS_BIG_ENDIAN 3 = Some p).
Proof.
  intros H. apply marshal_basic_roundtrip; [vm_compute; reflexivity|vm_compute; lia|].
  repeat split; vm_compute; congruence.
Defined.

Lemma marshal_set_basic_refines_witness :
  let H : Host := DBUS_BIG_ENDIAN in
  let t s := lit "ab" ++ wire DBUS_LITTLE_ENDIAN 2 "o" (Str s) ++ lit "z" in
  let m := Mem [] "x"%byte in
  outcome_is (t (lit "/")) (too_long (t (lit "/") ++ wire DBUS_LITTLE_ENDIAN 2 "o" (Str (lit "/a/b")))) m
    (_dbus_marshal_set_basic 2 "o" (Str (lit "/a/b")) DBUS_LITTLE_ENDIAN (concrete (t (lit "/"))) m)
    (λ '(old_end, new_end) r', is_str (t (lit "/a/b")) r' ∧ old_end = 10%nat ∧ new_end = 13%nat).
Proof.
  intros H. apply (marshal_set_basic_refines (lit "ab") (lit "z")
    (concrete (lit "ab" ++ wire DBUS_LITTLE_ENDIAN 2 "o" (Str (lit "/")) ++ lit "z")) (Mem [] "x"%byte)
    "o" (Str (lit "/")) (Str (lit "/a/b")) DBUS_LITTLE_ENDIAN); try (vm_compute; reflexivity).
  repeat split; vm_compute; congruence.
Defined.

Lemma marshal_fixed_multi_refines_witness :
  let H : Host := DBUS_LITTLE_ENDIAN in
  let w := padding 1 4 ++ flat_map (octets DBUS_BIG_ENDIAN 4) [1; 258] in
  outcome_is (lit "a") (too_long (insert_at_ (lit "a") 1 w)) (Mem [] "x"%byte)
    (_dbus_marshal_write_fixed_multi 1 "u" (flat_map (native 4) [1; 258]) 2 DBUS_BIG_ENDIAN
       (concrete (lit "a")) (Mem [] "x"%byte))
    (λ p r', p = (1 + length w)%nat ∧ is_str (insert_at_ (lit "a") 1 w) r').
Proof.
  intros H. apply (marshal_fixed_multi_refines (lit "a") (concrete (lit "a")) (Mem [] "x"%byte) 1 "u" 4
    [1; 258] DBUS_BIG_ENDIAN).
  - rewrite !elem_of_cons. auto 10.
  - repeat constructor; vm_compute; congruence.
  - vm_compute. congruence.
  - vm_compute. lia.
  - repeat split; vm_compute; congruence.
Defined.
