(* ===== verification/Reader.v ===== *)
(** * Reader: the type reader

    Models DBusTypeReader of src/dbus/dbus-marshal-recursive.c: an iterator over
    the types of a signature and, unless it is "types only", over the values of a
    block at the same time.  The virtual table of a reader is its kind and the
    [types_only] flag.  A read outside of a block, or a failing assertion, is
    [None].  The type string is its memory, which shows no length: a read behind
    its end gives the nul, and the range assertion of [_dbus_string_get_byte] on it
    is the one assertion left out.  The fields a types-only reader of an array
    fills with "values likely to crash things if misused" are 0.  Recursion into containers is bounded by fuel; the lemmas show that
    the length of the signature is enough for a types-only reader.

    Shown here for types-only readers, on which the body validator and the byte
    swapper rest: on a signature of the grammar the reader stops at every type,
    [next] moves behind a complete type, and recursing enumerates the fields. *)

From S2P Require Import Prelude DString Types Signature MarshalBasic.

Inductive reader_kind := KBody | KStruct | KDictEntry | KArray | KVariant.

#[export] Instance reader_kind_eq_dec : EqDecision reader_kind.
Proof. solve_decision. Defined.

(** [type_str] is the memory of the signature string, read up to its nul. *)
Record DBusTypeReader := Reader {
  kind : reader_kind;
  types_only : bool;
  order : byte_order;
  finished : bool;
  array_len_offset : nat;
  type_str : bytes;
  type_pos : nat;
  value_str : DBusRealString;
  value_pos : nat;
  start_pos : nat
}.

(** [_dbus_assert] where the result is an option. *)
Definition asserted (b : bool) : option unit := if b then Some tt else None.

Section reader.
Context `{Host}.

Definition no_value : DBusRealString := Real [] 0 0.

Definition reader_init (k : reader_kind) (only : bool) (o : byte_order)
    (tstr : bytes) (tpos : nat) (vstr : DBusRealString) (vpos : nat) : DBusTypeReader :=
  Reader k only o false 0 tstr tpos vstr vpos 0.

Definition _dbus_type_reader_init (o : byte_order) (tstr : bytes) (tpos : nat)
    (vstr : DBusRealString) (vpos : nat) : DBusTypeReader :=
  reader_init KBody false o tstr tpos vstr vpos.

Definition _dbus_type_reader_init_types_only (tstr : bytes) (tpos : nat) : DBusTypeReader :=
  reader_init KBody true DBUS_COMPILER_BYTE_ORDER tstr tpos no_value 0.

Definition element_type_get_alignment (tstr : bytes) (pos : nat) : nat :=
  _dbus_type_get_alignment (_dbus_first_type_in_signature tstr pos).

(** [sub] points at the same place as [parent]. *)
Definition base_reader_recurse (k : reader_kind) (parent : DBusTypeReader) : DBusTypeReader :=
  reader_init k (types_only parent) (order parent) (type_str parent) (type_pos parent)
    (value_str parent) (value_pos parent).

Definition at_type (n : nat) (r : DBusTypeReader) : DBusTypeReader :=
  Reader (kind r) (types_only r) (order r) (finished r) (array_len_offset r)
    (type_str r) n (value_str r) (value_pos r) (start_pos r).

Definition at_value (n : nat) (r : DBusTypeReader) : DBusTypeReader :=
  Reader (kind r) (types_only r) (order r) (finished r) (array_len_offset r)
    (type_str r) (type_pos r) (value_str r) n (start_pos r).

Definition set_finished (r : DBusTypeReader) : DBusTypeReader :=
  Reader (kind r) (types_only r) (order r) true (array_len_offset r)
    (type_str r) (type_pos r) (value_str r) (value_pos r) (start_pos r).

Definition struct_or_dict_entry_types_only_reader_recurse (k : reader_kind)
    (parent : DBusTypeReader) : option DBusTypeReader :=
  let sub := base_reader_recurse k parent in
  let c := byte_at (type_str sub) (type_pos sub) in
  asserted ((c =b DBUS_STRUCT_BEGIN_CHAR) || (c =b DBUS_DICT_ENTRY_BEGIN_CHAR));;
  Some (at_type (type_pos sub + 1) sub).

Definition struct_or_dict_entry_reader_recurse (k : reader_kind) (parent : DBusTypeReader) :
    option DBusTypeReader :=
  sub ← struct_or_dict_entry_types_only_reader_recurse k parent;
  Some (at_value (align_up (value_pos sub) 8) sub).

Definition array_types_only_reader_recurse (parent : DBusTypeReader) : DBusTypeReader :=
  let sub := base_reader_recurse KArray parent in at_type (type_pos sub + 1) sub.

Definition array_reader_recurse (parent : DBusTypeReader) : option DBusTypeReader :=
  let sub := array_types_only_reader_recurse parent in
  let len_pos := align_up (value_pos sub) 4 in
  let vpos := (len_pos + 4)%nat in
  let alignment := element_type_get_alignment (type_str sub) (type_pos sub) in
  let vpos := align_up vpos alignment in
  asserted (vpos - (len_pos + 4) <? 8)%nat;;
  Some (Reader (kind sub) (types_only sub) (order sub) (finished sub) (vpos - (len_pos + 4))
    (type_str sub) (type_pos sub) (value_str sub) vpos vpos).

Definition variant_reader_recurse (parent : DBusTypeReader) : option DBusTypeReader :=
  let sub := base_reader_recurse KVariant parent in
  b ← _dbus_string_get_byte (value_pos sub) (value_str sub);
  let sig_len := Z.to_nat (b2z b) in
  let tstr := str (value_str sub) in
  let tpos := (value_pos sub + 1)%nat in
  let vpos := (tpos + sig_len + 1)%nat in
  let contained_alignment :=
    _dbus_type_get_alignment (_dbus_first_type_in_signature tstr tpos) in
  Some (Reader (kind sub) (types_only sub) (order sub) (finished sub) (array_len_offset sub)
    tstr tpos (value_str sub) (align_up vpos contained_alignment) (start_pos sub)).

Definition _dbus_type_reader_recurse (reader : DBusTypeReader) : option DBusTypeReader :=
  let t := _dbus_first_type_in_signature (type_str reader) (type_pos reader) in
  if t =b DBUS_TYPE_STRUCT then
    if types_only reader then struct_or_dict_entry_types_only_reader_recurse KStruct reader
    else struct_or_dict_entry_reader_recurse KStruct reader
  else if t =b DBUS_TYPE_DICT_ENTRY then
    if types_only reader then struct_or_dict_entry_types_only_reader_recurse KDictEntry reader
    else struct_or_dict_entry_reader_recurse KDictEntry reader
  else if t =b DBUS_TYPE_ARRAY then
    if types_only reader then Some (array_types_only_reader_recurse reader)
    else array_reader_recurse reader
  else if t =b DBUS_TYPE_VARIANT then
    if types_only reader then None else variant_reader_recurse reader
  else None.

(** [array_reader_get_array_len], through ARRAY_READER_LEN_POS. *)
Definition array_reader_get_array_len (reader : DBusTypeReader) : option nat :=
  let len_pos := (start_pos reader - array_len_offset reader - 4)%nat in
  asserted (aligned len_pos 4);;
  asserted (len_pos + 4 <=? len (value_str reader))%nat;;
  d ← mem_read (str (value_str reader)) len_pos 4;
  asserted (start_pos reader - len_pos - 4 <? 8)%nat;;
  int_of_u32 (_dbus_unpack_uint32 (order reader) d).

Definition array_reader_check_finished (reader : DBusTypeReader) : option bool :=
  l ← array_reader_get_array_len reader;
  let end_pos := (start_pos reader + l)%nat in
  asserted (value_pos reader <=? end_pos)%nat;;
  asserted (start_pos reader <=? value_pos reader)%nat;;
  Some (value_pos reader =? end_pos)%nat.

(** The member [check_finished] of the class: only arrays of values have one. *)
Definition check_finished (reader : DBusTypeReader) : option bool :=
  if bool_decide (kind reader = KArray) && negb (types_only reader)
  then array_reader_check_finished reader else Some false.

(** The four assertions on the type are part of the function. *)
Definition _dbus_type_reader_get_current_type (reader : DBusTypeReader) : option byte :=
  fin ← (if finished reader then Some true else check_finished reader);
  if (fin : bool) then Some DBUS_TYPE_INVALID
  else
    let t := _dbus_first_type_in_signature (type_str reader) (type_pos reader) in
    if (t =b DBUS_STRUCT_END_CHAR) || (t =b DBUS_STRUCT_BEGIN_CHAR)
       || (t =b DBUS_DICT_ENTRY_END_CHAR) || (t =b DBUS_DICT_ENTRY_BEGIN_CHAR)
    then None else Some t.

Definition _dbus_type_reader_get_element_type (reader : DBusTypeReader) : option byte :=
  t ← _dbus_type_reader_get_current_type reader;
  asserted (t =b DBUS_TYPE_ARRAY);;
  Some (_dbus_first_type_in_signature (type_str reader) (type_pos reader + 1)).

Definition _dbus_type_reader_read_basic (reader : DBusTypeReader) : option DBusBasicValue :=
  asserted (negb (types_only reader));;
  t ← _dbus_type_reader_get_current_type reader;
  fst <$> _dbus_marshal_read_basic (value_str reader) (value_pos reader) t (order reader).

(** The values left in an array of fixed-size elements: their memory, in the
    order of the block, and their number.  A negative [remaining_len] fails an
    assertion of [_dbus_string_get_const_data_len]; it is the test of [end_pos]. *)
Definition _dbus_type_reader_read_fixed_multi (reader : DBusTypeReader) : option (bytes * nat) :=
  asserted (negb (types_only reader));;
  asserted (bool_decide (kind reader = KArray));;
  let element_type := _dbus_first_type_in_signature (type_str reader) (type_pos reader) in
  asserted (negb (element_type =b DBUS_TYPE_INVALID));;
  asserted (dbus_type_is_fixed element_type);;
  let alignment := _dbus_type_get_alignment element_type in
  asserted (start_pos reader <=? value_pos reader)%nat;;
  total_len ← array_reader_get_array_len reader;
  let end_pos := (start_pos reader + total_len)%nat in
  asserted (value_pos reader <=? end_pos)%nat;;
  let remaining_len := (end_pos - value_pos reader)%nat in
  asserted (remaining_len <=? total_len)%nat;;
  d ← (if (remaining_len =? 0)%nat then Some []
       else
         asserted (value_pos reader + remaining_len <=? len (value_str reader))%nat;;
         mem_read (str (value_str reader)) (value_pos reader) remaining_len);
  asserted (remaining_len mod alignment =? 0)%nat;;
  Some (d, remaining_len / alignment)%nat.

Definition skip_one_complete_type (tstr : bytes) (tpos : nat) : option nat :=
  _dbus_type_signature_next tstr tpos.

Definition find_len_of_complete_type (tstr : bytes) (tpos : nat) : option nat :=
  e ← skip_one_complete_type tstr tpos; Some (e - tpos)%nat.

Definition _dbus_type_reader_get_signature (reader : DBusTypeReader) : option (nat * nat) :=
  l ← find_len_of_complete_type (type_str reader) (type_pos reader);
  Some (type_pos reader, l).

(** [while (_dbus_type_reader_next (&sub)) { }] *)
Fixpoint skip_all (next : DBusTypeReader → option (bool * DBusTypeReader)) (n : nat)
    (sub : DBusTypeReader) : option DBusTypeReader :=
  match n with
  | O => None
  | S n' =>
      '(more, sub') ← next sub;
      if (more : bool) then skip_all next n' sub' else Some sub'
  end.

Section next.
Context (next : DBusTypeReader → option (bool * DBusTypeReader)) (fuel : nat).

Definition base_reader_next (reader : DBusTypeReader) (current_type : byte) :
    option DBusTypeReader :=
  if (current_type =b DBUS_TYPE_DICT_ENTRY) || (current_type =b DBUS_TYPE_STRUCT)
     || (current_type =b DBUS_TYPE_VARIANT) then
    if types_only reader && (current_type =b DBUS_TYPE_VARIANT) then
      Some (at_type (type_pos reader + 1) reader)
    else
      sub ← _dbus_type_reader_recurse reader;
      sub ← skip_all next fuel sub;
      let reader := if types_only reader then reader else at_value (value_pos sub) reader in
      Some (at_type (if current_type =b DBUS_TYPE_VARIANT then type_pos reader + 1
                     else type_pos sub)%nat reader)
  else if current_type =b DBUS_TYPE_ARRAY then
    vpos ← (if types_only reader then Some (value_pos reader)
            else _dbus_marshal_skip_array (value_str reader)
                   (_dbus_first_type_in_signature (type_str reader) (type_pos reader + 1))
                   (order reader) (value_pos reader));
    tpos ← skip_one_complete_type (type_str reader) (type_pos reader);
    Some (at_type tpos (at_value vpos reader))
  else
    vpos ← (if types_only reader then Some (value_pos reader)
            else _dbus_marshal_skip_basic (value_str reader) current_type (order reader)
                   (value_pos reader));
    Some (at_type (type_pos reader + 1) (at_value vpos reader)).

(** [struct_reader_next] and [dict_entry_reader_next] differ in the closing
    bracket. *)
Definition fields_reader_next (close : byte) (reader : DBusTypeReader) (current_type : byte) :
    option DBusTypeReader :=
  reader ← base_reader_next reader current_type;
  if byte_at (type_str reader) (type_pos reader) =b close
  then Some (set_finished (at_type (type_pos reader + 1) reader)) else Some reader.

Definition struct_reader_next := fields_reader_next DBUS_STRUCT_END_CHAR.
Definition dict_entry_reader_next := fields_reader_next DBUS_DICT_ENTRY_END_CHAR.

Definition array_types_only_reader_next (reader : DBusTypeReader) : option DBusTypeReader :=
  Some (set_finished reader).

Definition array_reader_next (reader : DBusTypeReader) (current_type : byte) :
    option DBusTypeReader :=
  l ← array_reader_get_array_len reader;
  let end_pos := (start_pos reader + l)%nat in
  asserted (value_pos reader <? end_pos)%nat;;
  asserted (start_pos reader <=? value_pos reader)%nat;;
  let t := _dbus_first_type_in_signature (type_str reader) (type_pos reader) in
  vpos ←
    (if (t =b DBUS_TYPE_DICT_ENTRY) || (t =b DBUS_TYPE_STRUCT) || (t =b DBUS_TYPE_VARIANT) then
       sub ← _dbus_type_reader_recurse reader;
       sub ← skip_all next fuel sub;
       Some (value_pos sub)
     else if t =b DBUS_TYPE_ARRAY then
       _dbus_marshal_skip_array (value_str reader)
         (_dbus_first_type_in_signature (type_str reader) (type_pos reader + 1))
         (order reader) (value_pos reader)
     else
       _dbus_marshal_skip_basic (value_str reader) current_type (order reader)
         (value_pos reader));
  let reader := at_value vpos reader in
  asserted (vpos <=? end_pos)%nat;;
  if (vpos =? end_pos)%nat then
    tpos ← skip_one_complete_type (type_str reader) (type_pos reader);
    Some (at_type tpos reader)
  else Some reader.

(** The member [next] of the class. *)
Definition class_next (reader : DBusTypeReader) (current_type : byte) : option DBusTypeReader :=
  match kind reader with
  | KBody | KVariant => base_reader_next reader current_type
  | KStruct => struct_reader_next reader current_type
  | KDictEntry => dict_entry_reader_next reader current_type
  | KArray => if types_only reader then array_types_only_reader_next reader
              else array_reader_next reader current_type
  end.

End next.

Fixpoint _dbus_type_reader_next (fuel : nat) (reader : DBusTypeReader) :
    option (bool * DBusTypeReader) :=
  match fuel with
  | O => None
  | S f =>
      t ← _dbus_type_reader_get_current_type reader;
      if t =b DBUS_TYPE_INVALID then Some (false, reader)
      else
        reader ← class_next (_dbus_type_reader_next f) f reader t;
        t ← _dbus_type_reader_get_current_type reader;
        Some (negb (t =b DBUS_TYPE_INVALID), reader)
  end.

Definition _dbus_type_reader_has_next (fuel : nat) (reader : DBusTypeReader) : option bool :=
  fst <$> _dbus_type_reader_next fuel reader.

End reader.

#[global] Arguments _dbus_type_reader_next : simpl never.

Lemma reader_next_S `{Host} f reader :
  _dbus_type_reader_next (S f) reader
  = (t ← _dbus_type_reader_get_current_type reader;
     if t =b DBUS_TYPE_INVALID then Some (false, reader)
     else
       reader ← class_next (_dbus_type_reader_next f) f reader t;
       t ← _dbus_type_reader_get_current_type reader;
       Some (negb (t =b DBUS_TYPE_INVALID), reader)).
Proof. done. Qed.

(** Recursing at an opening bracket. *)
Lemma byte_at_head pre c q : byte_at (pre ++ c :: q) (length pre) = c.
Proof. by rewrite <- (Nat.add_0_r (length pre)), byte_at_app. Qed.

Lemma fields_recurse k parent pre c q :
  type_str parent = pre ++ c :: q → type_pos parent = length pre →
  c = DBUS_STRUCT_BEGIN_CHAR ∨ c = DBUS_DICT_ENTRY_BEGIN_CHAR →
  struct_or_dict_entry_types_only_reader_recurse k parent
  = Some (at_type (length pre + 1) (base_reader_recurse k parent)).
Proof.
  intros Es Ep Hc. unfold struct_or_dict_entry_types_only_reader_recurse.
  change (type_str (base_reader_recurse k parent)) with (type_str parent).
  change (type_pos (base_reader_recurse k parent)) with (type_pos parent).
  rewrite Es, Ep, byte_at_head. by destruct Hc as [-> | ->].
Qed.

(** ** Types-only readers on signatures of the grammar *)

Section types_only.
Context `{Host}.

Definition types_at (k : reader_kind) (fin : bool) (sig : bytes) (pos : nat) : DBusTypeReader :=
  Reader k true DBUS_COMPILER_BYTE_ORDER fin 0 sig pos no_value 0 0.

(** The typecode the reader shows for a type. *)
Definition typecode (t : ty) : byte :=
  match t with
  | TLeaf c => c
  | TArray _ | TDict _ _ => DBUS_TYPE_ARRAY
  | TStruct _ => DBUS_TYPE_STRUCT
  end.

Lemma leaf_codes c :
  leaf c = true →
  (c =b DBUS_TYPE_INVALID) = false ∧ (c =b DBUS_STRUCT_BEGIN_CHAR) = false
  ∧ (c =b DBUS_STRUCT_END_CHAR) = false ∧ (c =b DBUS_DICT_ENTRY_BEGIN_CHAR) = false
  ∧ (c =b DBUS_DICT_ENTRY_END_CHAR) = false ∧ (c =b DBUS_TYPE_ARRAY) = false
  ∧ (c =b DBUS_TYPE_STRUCT) = false ∧ (c =b DBUS_TYPE_DICT_ENTRY) = false.
Proof. by destruct c. Qed.

Lemma first_type_print pre t post key sd dd ar :
  within key sd dd ar t = true →
  _dbus_first_type_in_signature (pre ++ print t ++ post) (length pre) = typecode t.
Proof.
  intros Hw. unfold _dbus_first_type_in_signature.
  rewrite <- (Nat.add_0_r (length pre)), byte_at_app.
  destruct t as [c|t|ts|k v]; try done. simpl in Hw.
  destruct (leaf_codes c Hw) as (_ & H1 & _ & H2 & _). simpl. unfold byte_at, map_type_char_to_type.
  simpl. by rewrite H1, H2.
Qed.

Lemma typecode_codes key sd dd ar t :
  within key sd dd ar t = true →
  (typecode t =b DBUS_TYPE_INVALID) = false ∧ (typecode t =b DBUS_STRUCT_BEGIN_CHAR) = false
  ∧ (typecode t =b DBUS_STRUCT_END_CHAR) = false ∧ (typecode t =b DBUS_DICT_ENTRY_BEGIN_CHAR) = false
  ∧ (typecode t =b DBUS_DICT_ENTRY_END_CHAR) = false.
Proof.
  destruct t as [c|t|ts|k v]; try done. simpl. intros Hw.
  destruct (leaf_codes c Hw) as (? & ? & ? & ? & ? & _). done.
Qed.

(** The reader stops at a type. *)
Lemma current_type_print k pre t post key sd dd ar :
  within key sd dd ar t = true →
  _dbus_type_reader_get_current_type (types_at k false (pre ++ print t ++ post) (length pre))
  = Some (typecode t).
Proof.
  intros Hw. unfold _dbus_type_reader_get_current_type, check_finished. simpl.
  rewrite andb_false_r. simpl. rewrite (first_type_print pre t post _ _ _ _ Hw).
  by destruct (typecode_codes _ _ _ _ _ Hw) as (_ & -> & -> & -> & ->).
Qed.

Lemma current_type_finished k sig pos :
  _dbus_type_reader_get_current_type (types_at k true sig pos) = Some DBUS_TYPE_INVALID.
Proof. done. Qed.

Lemma print_length t : (1 <= length (print t))%nat.
Proof. destruct t; simpl; lia. Qed.

(** What a step over [t] does, for the kinds that walk over types. *)
Definition base_ok (t : ty) : Prop :=
  ∀ k pre post f key sd dd ar,
  within key sd dd ar t = true → (length (print t) <= f)%nat →
  base_reader_next (_dbus_type_reader_next f) f
    (types_at k false (pre ++ print t ++ post) (length pre)) (typecode t)
  = Some (types_at k false (pre ++ print t ++ post) (length pre + length (print t))).

(** One [next] of a struct or dict entry reader. *)
Definition close_of (b : bool) : byte :=
  if b then DBUS_DICT_ENTRY_END_CHAR else DBUS_STRUCT_END_CHAR.
Definition kind_of_fields (b : bool) : reader_kind := if b then KDictEntry else KStruct.

Lemma byte_at_mid pre t post :
  byte_at (pre ++ t ++ post) (length pre + length t) = byte_at post 0.
Proof. rewrite byte_at_app. rewrite <- (Nat.add_0_r (length t)). apply byte_at_app. Qed.

Lemma fields_next b pre t post f key sd dd ar :
  base_ok t → within key sd dd ar t = true → (length (print t) <= f)%nat →
  let sig := pre ++ print t ++ post in
  let e := (length pre + length (print t))%nat in
  class_next (_dbus_type_reader_next f) f (types_at (kind_of_fields b) false sig (length pre)) (typecode t)
  = Some (if byte_at post 0 =b close_of b then types_at (kind_of_fields b) true sig (e + 1)
          else types_at (kind_of_fields b) false sig e).
Proof.
  intros Ht Hw Hf. cbv zeta. unfold class_next, struct_reader_next, dict_entry_reader_next,
    fields_reader_next.
  pose proof (Ht (kind_of_fields b) pre post f key sd dd ar Hw Hf) as E.
  destruct b; simpl kind; cbn iota; simpl kind_of_fields in *; rewrite E; simpl;
    rewrite byte_at_mid; by destruct (_ =b _).
Qed.

Lemma next_fields b ts : ∀ pre t post f n key sd dd,
  base_ok t → Forall base_ok ts →
  within key sd dd 0 t = true → forallb (within key sd dd 0) ts = true →
  (length (flat_map print (t :: ts)) < f)%nat → (length ts < n)%nat →
  let sig := pre ++ flat_map print (t :: ts) ++ close_of b :: post in
  skip_all (_dbus_type_reader_next f) n (types_at (kind_of_fields b) false sig (length pre))
  = Some (types_at (kind_of_fields b) true sig (length pre + length (flat_map print (t :: ts)) + 1)).
Proof.
  induction ts as [|t2 ts IH]; intros pre t post f n key sd dd Ht Hts Hw Hws Hf Hn; cbv zeta;
    (destruct n as [|n]; [simpl in Hn; lia|]); (destruct f as [|f]; [lia|]);
    simpl in Hf; rewrite length_app in Hf; simpl skip_all; rewrite reader_next_S.
  - simpl flat_map. rewrite app_nil_r.
    rewrite (current_type_print _ _ _ _ _ _ _ _ Hw). simpl.
    destruct (typecode_codes _ _ _ _ _ Hw) as (-> & _).
    rewrite (fields_next b pre t (close_of b :: post) f _ _ _ _ Ht Hw) by lia.
    change (byte_at (close_of b :: post) 0) with (close_of b). rewrite byte_eqb_refl. done.
  - inversion_clear Hts as [|? ? Ht2 Hts']. simpl in Hws. apply andb_true_iff in Hws as [Hw2 Hws].
    change (flat_map print (t :: t2 :: ts)) with (print t ++ print t2 ++ flat_map print ts) in *.
    rewrite <- (app_assoc (print t)).
    rewrite (current_type_print _ _ _ _ _ _ _ _ Hw). simpl.
    destruct (typecode_codes _ _ _ _ _ Hw) as (-> & _).
    rewrite (fields_next b pre t _ f _ _ _ _ Ht Hw) by lia.
    destruct (print_head_open _ _ _ _ t2 (flat_map print ts ++ close_of b :: post) Hw2)
      as (H1 & H2 & H3).
    rewrite <- !app_assoc in *.
    assert (byte_at (print t2 ++ flat_map print ts ++ close_of b :: post) 0 =b close_of b = false)
      as -> by (by destruct b).
    simpl mbind. set (q := print t2 ++ flat_map print ts ++ close_of b :: post).
    pose proof (IH (pre ++ print t) t2 post (S f) n key sd dd Ht2 Hts' Hw2 Hws) as E.
    cbv zeta in E. simpl flat_map in E. rewrite !length_app in E. rewrite <- !app_assoc in E. fold q in E.
    pose proof (current_type_print (kind_of_fields b) (pre ++ print t) t2 (flat_map print ts ++ close_of b :: post)
      _ _ _ _ Hw2) as Ec. rewrite length_app, <- !app_assoc in Ec. fold q in Ec. rewrite Ec. simpl.
    destruct (typecode_codes _ _ _ _ _ Hw2) as (-> & _). simpl.
    pose proof (print_length t). simpl in Hf, Hn. rewrite ?length_app in *.
    rewrite E by lia. f_equal. f_equal. lia.
Qed.

(** A step of a types-only reader moves behind the complete type, with fuel for
    as many steps as the type has characters. *)
Lemma base_next_print t : base_ok t.
Proof.
  induction t as [c|t IH|ts IH|k v IHk IHv] using ty_ind'; intros kd pre post f key sd dd ar Hw Hf;
    unfold base_reader_next; simpl typecode.
  - simpl in Hw. destruct (leaf_codes c Hw) as (_ & _ & _ & _ & _ & -> & -> & ->). simpl.
    by destruct (c =b DBUS_TYPE_VARIANT).
  - byte_tests. simpl mbind. unfold skip_one_complete_type. cbn [types_only types_at type_str type_pos].
    pose proof (signature_next_print pre (TArray t) post _ _ _ _ Hw) as E. simpl in E. by rewrite E.
  - byte_tests. simpl in Hw. apply andb_true_iff in Hw as [[_ Hne]%andb_true_iff Hws].
    destruct ts as [|t ts]; [done|]. clear Hne.
    unfold _dbus_type_reader_recurse. simpl type_str. simpl type_pos.
    assert (∀ q, _dbus_first_type_in_signature (pre ++ DBUS_STRUCT_BEGIN_CHAR :: q) (length pre)
            = DBUS_TYPE_STRUCT) as ->.
    { intros q. unfold _dbus_first_type_in_signature.
      by rewrite <- (Nat.add_0_r (length pre)), byte_at_app. }
    byte_tests. simpl types_only. cbn iota.
    erewrite (fields_recurse KStruct) by (eauto; done).
    unfold base_reader_recurse, reader_init, at_type. simpl.
    inversion_clear IH as [|? ? Ht Hts]. simpl in Hws, Hf. apply andb_true_iff in Hws as [Hw Hws].
    rewrite !length_app in Hf. simpl in Hf.
    assert (length ts <= length (flat_map print ts))%nat as Hcnt.
    { clear. induction ts as [|t ts IH]; simpl; [lia|]. rewrite length_app.
      pose proof (print_length t). lia. }
    pose proof (print_length t) as Hpl.
    pose proof (next_fields false ts (pre ++ [DBUS_STRUCT_BEGIN_CHAR]) t post f f key (S sd) dd Ht Hts Hw Hws)
      as E.
    cbv zeta in E. simpl flat_map in E. rewrite !length_app in E. specialize (E ltac:(lia) ltac:(lia)).
    simpl in E. repeat (rewrite <- app_assoc in E; simpl in E). repeat (rewrite <- app_assoc; simpl).
    unfold types_at in *. rewrite E. simpl. rewrite !length_app. simpl. do 2 f_equal. lia.
  - byte_tests. simpl mbind. unfold skip_one_complete_type. cbn [types_only types_at type_str type_pos].
    pose proof (signature_next_print pre (TDict k v) post _ _ _ _ Hw) as E. simpl in E. by rewrite E.
Qed.

(** One [next] over a type at top level: it moves behind the type, and tells
    whether the signature goes on. *)
Lemma body_next pre t post f key sd dd ar :
  within key sd dd ar t = true → (length (print t) < f)%nat →
  (byte_at post 0 =b DBUS_STRUCT_BEGIN_CHAR) = false ∧ (byte_at post 0 =b DBUS_DICT_ENTRY_BEGIN_CHAR) = false
    ∧ (byte_at post 0 =b DBUS_STRUCT_END_CHAR) = false ∧ (byte_at post 0 =b DBUS_DICT_ENTRY_END_CHAR) = false
  ∨ (∃ t2 q, post = print t2 ++ q ∧ within key sd dd ar t2 = true) →
  let sig := pre ++ print t ++ post in
  _dbus_type_reader_next f (types_at KBody false sig (length pre))
  = Some (negb (byte_at post 0 =b DBUS_TYPE_INVALID),
          types_at KBody false sig (length pre + length (print t))).
Proof.
  intros Hw Hf Hp. cbv zeta. destruct f as [|f]; [lia|]. rewrite reader_next_S.
  rewrite (current_type_print _ _ _ _ _ _ _ _ Hw). simpl.
  destruct (typecode_codes _ _ _ _ _ Hw) as (-> & _).
  unfold class_next. simpl kind. cbn iota.
  rewrite (base_next_print t KBody pre post f _ _ _ _ Hw) by lia. simpl.
  destruct Hp as [(H1 & H2 & H3 & H4)|(t2 & q & -> & Hw2)].
  - unfold _dbus_type_reader_get_current_type, check_finished. simpl. unfold _dbus_first_type_in_signature.
    rewrite byte_at_mid. unfold map_type_char_to_type. rewrite H1, H2. by rewrite H1, H2, H3, H4.
  - pose proof (current_type_print KBody (pre ++ print t) t2 q _ _ _ _ Hw2) as E.
    rewrite length_app, <- app_assoc in E. rewrite E. simpl.
    destruct (typecode_codes _ _ _ _ _ Hw2) as (-> & _).
    by destruct (print_head_open _ _ _ _ t2 q Hw2) as (_ & _ & ->).
Qed.

(** A types-only reader over a valid signature stops at every type of the top
    level, shows its typecode, and [next] moves to the next one and tells whether
    there is one; fuel for the characters of the type is enough. *)
Theorem reader_visits_types (ts1 : list ty) (t : ty) (ts2 : list ty) (post : bytes) (f : nat) :
  sig_ok accepted_key (ts1 ++ t :: ts2) = true → byte_at post 0 = x00 →
  (length (print t) < f)%nat →
  let sig := print_sig (ts1 ++ t :: ts2) ++ post in
  let reader n := types_at KBody false sig n in
  _dbus_type_reader_get_current_type (reader (length (print_sig ts1))) = Some (typecode t)
  ∧ _dbus_type_reader_next f (reader (length (print_sig ts1)))
    = Some (bool_decide (ts2 ≠ []), reader (length (print_sig (ts1 ++ [t])))).
Proof.
  intros Hok Hpost Hf. cbv zeta. unfold print_sig, sig_ok in *. rewrite forallb_app in Hok.
  apply andb_true_iff in Hok as [_ Hok]. simpl in Hok. apply andb_true_iff in Hok as [Hw Hws].
  rewrite !flat_map_app, <- !app_assoc. simpl. rewrite app_nil_r, <- !app_assoc.
  split; [by eapply current_type_print|].
  rewrite (body_next (flat_map print ts1) t (flat_map print ts2 ++ post) f _ _ _ _ Hw Hf).
  - rewrite length_app. f_equal. f_equal. destruct ts2 as [|t2 ts2]; [simpl; by rewrite Hpost|].
    simpl in *. apply andb_true_iff in Hws as [Hw2 _]. rewrite <- app_assoc.
    by destruct (print_head_open _ _ _ _ t2 (flat_map print ts2 ++ post) Hw2) as (_ & _ & ->).
  - destruct ts2 as [|t2 ts2]; [left; simpl; by rewrite Hpost|right]. simpl in *.
    apply andb_true_iff in Hws as [Hw2 _]. exists t2, (flat_map print ts2 ++ post).
    by rewrite <- app_assoc.
Qed.

End types_only.

Lemma reader_visits_types_witness :
  let H : Host := DBUS_LITTLE_ENDIAN in
  let reader n := types_at KBody false (lit "i(sa{sv})u") n in
  _dbus_type_reader_get_current_type (reader 1%nat) = Some DBUS_TYPE_STRUCT
  ∧ _dbus_type_reader_next 20 (reader 1%nat) = Some (true, reader 9%nat).
Proof.
  intros H. apply (reader_visits_types [TLeaf "i"]
    (TStruct [TLeaf "s"; TDict (TLeaf "s") (TLeaf "v")]) [TLeaf "u"] [] 20);
    [vm_compute; reflexivity | reflexivity | vm_compute; lia].
Defined.
