(* ===== verification/Body.v ===== *)
(** * Body: validation of message bodies

    Models [validate_body_helper] and [_dbus_validate_body_with_reason] of
    src/dbus/dbus-marshal-validate.c, which decide whether a block of untrusted
    bytes is a sequence of values of a signature.  The block is the memory of the
    string, with the range to validate inside it; reads are checked against the
    block.  The specification is the encoding [enc] of an abstract value at a
    position.  Shown: every encoding is accepted and consumed exactly; on a block
    without misnested signatures the validator never leaves the memory of the
    string, always answers, and accepts nothing but encodings.  An array of
    fixed-size elements may have any length in bytes, which is one of the two
    defects exhibited at the end. *)

From S2P Require Import Prelude Names DString Text Types Signature MarshalBasic Reader.

(** ** The validator *)

(** The validator returns a reason or goes on with a value; [None] is a read
    outside of the block, a failed assertion, or the end of the fuel. *)
Definition V (A : Type) := mem → option ((DBusValidity + A) * mem).

#[export] Instance V_ret : MRet V := λ A a m, Some (inr a, m).
#[export] Instance V_bind : MBind V := λ A B k c m,
  match c m with
  | Some (inr a, m') => k a m'
  | Some (inl e, m') => Some (inl e, m')
  | None => None
  end.

Definition reject {A} (e : DBusValidity) : V A := λ m, Some (inl e, m).
Definition lift {A} (o : option A) : V A := λ m, (λ a, (inr a, m)) <$> o.

Section validate.
Context `{Host}.
(** The memory of the string, the order of its values, and [end]. *)
Context (body : bytes) (order : byte_order) (end_ : nat).

Definition unpack_at (p : nat) : V Z :=
  lift (asserted (aligned p 4));;
  d ← lift (mem_read body p 4); mret (_dbus_unpack_uint32 order d).

Definition byte_of_body (p : nat) : V byte :=
  d ← lift (mem_read body p 1); mret (byte_at d 0).

(** [while (p != a) { if *p != nul return ...; ++p; }] *)
Definition skip_padding (p a : nat) : V nat :=
  d ← lift (mem_read body p (a - p));
  if forallb (λ c, c =b x00) d then mret a else reject DBUS_INVALID_ALIGNMENT_PADDING_NOT_NUL.

Definition check_boolean (p : nat) : V unit :=
  v ← unpack_at p;
  if (v =? 0) || (v =? 1) then mret tt else reject DBUS_INVALID_BOOLEAN_NOT_ZERO_OR_ONE.

(** [while (p < array_end)] over booleans, and over other elements; the number of
    bytes left bounds the turns. *)
Fixpoint boolean_loop (n p array_end : nat) : V nat :=
  if negb (p <? array_end)%nat then mret p
  else match n with
       | O => λ _, None
       | S n' => check_boolean p;; boolean_loop n' (p + 4) array_end
       end.

Fixpoint element_loop (element : nat → V nat) (n p array_end : nat) : V nat :=
  if negb (p <? array_end)%nat then mret p
  else match n with
       | O => λ _, None
       | S n' => p ← element p; element_loop element n' p array_end
       end.

(** The recursive call: reader, [walk_reader_to_end], [p]. *)
Context (helper : DBusTypeReader → bool → nat → V nat) (fuel : nat).

Definition validate_fixed (current_type : byte) (p : nat) : V nat :=
  let alignment := _dbus_type_get_alignment current_type in
  let a := align_up p alignment in
  if (end_ <=? a)%nat then reject DBUS_INVALID_NOT_ENOUGH_DATA
  else
    p ← skip_padding p a;
    (if current_type =b "b"%byte then check_boolean p else mret tt);;
    mret (p + alignment)%nat.

(** The length in front of arrays and strings.  The assertions [p <= end] behind it
    and [p < end] behind a signature repeat the test made just before, and those on
    the current type of the contents of a variant what the calls around them
    compute; they are not repeated here. *)
Definition validate_length (p : nat) : V (Z * nat) :=
  let a := align_up p 4 in
  if (end_ <? a + 4)%nat then reject DBUS_INVALID_NOT_ENOUGH_DATA
  else
    p ← skip_padding p a;
    claimed_len ← unpack_at p;
    mret (claimed_len, p + 4)%nat.

Definition validate_array (reader : DBusTypeReader) (p : nat) : V nat :=
  '(claimed_len, p) ← validate_length p;
  elem_type ← lift (_dbus_type_reader_get_element_type reader);
  if negb (_dbus_type_is_valid elem_type) then reject DBUS_INVALID_UNKNOWN_TYPECODE
  else
    let a := align_up p (_dbus_type_get_alignment elem_type) in
    if (end_ <? a)%nat then reject DBUS_INVALID_NOT_ENOUGH_DATA
    else
      p ← skip_padding p a;
      if Z.of_nat (end_ - p) <? claimed_len then reject DBUS_INVALID_LENGTH_OUT_OF_BOUNDS
      else if claimed_len <=? 0 then mret p
      else if DBUS_MAXIMUM_ARRAY_LENGTH <? claimed_len
      then reject DBUS_INVALID_ARRAY_LENGTH_EXCEEDS_MAXIMUM
      else
        sub ← lift (_dbus_type_reader_recurse reader);
        let n := Z.to_nat claimed_len in
        let array_end := (p + n)%nat in
        p ← (if dbus_type_is_fixed elem_type then
               if elem_type =b "b"%byte then boolean_loop n p array_end else mret array_end
             else element_loop (λ p, helper sub false p) n p array_end);
        if (p =? array_end)%nat then mret p else reject DBUS_INVALID_ARRAY_LENGTH_INCORRECT.

Definition validate_string (current_type : byte) (p : nat) : V nat :=
  '(claimed_len, p) ← validate_length p;
  if Z.of_nat (end_ - p) <? claimed_len then reject DBUS_INVALID_LENGTH_OUT_OF_BOUNDS
  else
    let n := Z.to_nat claimed_len in
    (if current_type =b "o"%byte then
       if _dbus_validate_path (sub body p n) 0 n then mret tt else reject DBUS_INVALID_BAD_PATH
     else
       if _dbus_string_validate_utf8 (sub body p n) 0 n then mret tt
       else reject DBUS_INVALID_BAD_UTF8_IN_STRING);;
    let p := (p + n)%nat in
    if (p =? end_)%nat then reject DBUS_INVALID_NOT_ENOUGH_DATA
    else
      c ← byte_of_body p;
      if negb (c =b x00) then reject DBUS_INVALID_STRING_MISSING_NUL
      else mret (p + 1)%nat.

(** [_dbus_validate_signature_with_reason] on the range of [n] bytes at [p]. *)
Definition signature_reason (p n : nat) : V DBusValidity := λ m,
  let '(v, m') := _dbus_validate_signature_with_reason (drop p body) 0 n m in Some (inr v, m').

Definition validate_signature_value (p : nat) : V nat :=
  c ← byte_of_body p;
  let n := Z.to_nat (b2z c) in
  let p := (p + 1)%nat in
  if (end_ - p <? n + 1)%nat then reject DBUS_INVALID_SIGNATURE_LENGTH_OUT_OF_BOUNDS
  else
    validity ← signature_reason p n;
    if bool_decide (validity ≠ DBUS_VALID) then reject validity
    else
      let p := (p + n)%nat in
      c ← byte_of_body p;
      if negb (c =b DBUS_TYPE_INVALID) then reject DBUS_INVALID_SIGNATURE_MISSING_NUL
      else mret (p + 1)%nat.

Definition validate_variant (p : nat) : V nat :=
  c ← byte_of_body p;
  let n := Z.to_nat (b2z c) in
  let p := (p + 1)%nat in
  if (end_ - p <? n + 1)%nat then reject DBUS_INVALID_VARIANT_SIGNATURE_LENGTH_OUT_OF_BOUNDS
  else
    let sig := drop p body in
    reason ← signature_reason p n;
    if bool_decide (reason ≠ DBUS_VALID) then
      if bool_decide (reason = DBUS_VALIDITY_UNKNOWN_OOM_ERROR) then reject reason
      else reject DBUS_INVALID_VARIANT_SIGNATURE_BAD
    else
      let p := (p + n)%nat in
      c ← byte_of_body p;
      if negb (c =b DBUS_TYPE_INVALID) then reject DBUS_INVALID_VARIANT_SIGNATURE_MISSING_NUL
      else
        let p := (p + 1)%nat in
        let contained_type := _dbus_first_type_in_signature sig 0 in
        if contained_type =b DBUS_TYPE_INVALID then reject DBUS_INVALID_VARIANT_SIGNATURE_EMPTY
        else
          let a := align_up p (_dbus_type_get_alignment contained_type) in
          if (end_ <? a)%nat then reject DBUS_INVALID_NOT_ENOUGH_DATA
          else
            p ← skip_padding p a;
            let sub := _dbus_type_reader_init_types_only sig 0 in
            p ← helper sub false p;
            '(more, _) ← lift (_dbus_type_reader_next fuel sub);
            if (more : bool)
            then reject DBUS_INVALID_VARIANT_SIGNATURE_SPECIFIES_MULTIPLE_VALUES
            else mret p.

Definition validate_struct (reader : DBusTypeReader) (p : nat) : V nat :=
  let a := align_up p 8 in
  if (end_ <? a)%nat then reject DBUS_INVALID_NOT_ENOUGH_DATA
  else
    p ← skip_padding p a;
    sub ← lift (_dbus_type_reader_recurse reader);
    helper sub true p.

(** The switch over [current_type]; the last case is an assertion. *)
Definition validate_value (reader : DBusTypeReader) (current_type : byte) (p : nat) : V nat :=
  match kind_of current_type with
  | Some KByte => mret (p + 1)%nat
  | Some K16 | Some KBool | Some K32 | Some K64 => validate_fixed current_type p
  | Some KString => validate_string current_type p
  | Some KSignature => validate_signature_value p
  | None =>
      if current_type =b DBUS_TYPE_ARRAY then validate_array reader p
      else if current_type =b DBUS_TYPE_VARIANT then validate_variant p
      else if (current_type =b DBUS_TYPE_DICT_ENTRY) || (current_type =b DBUS_TYPE_STRUCT)
      then validate_struct reader p
      else λ _, None
  end.

End validate.

Fixpoint validate_body_helper `{Host} (body : bytes) (order : byte_order) (end_ fuel : nat)
    (reader : DBusTypeReader) (walk_reader_to_end : bool) (p : nat) : V nat :=
  match fuel with
  | O => λ _, None
  | S f =>
      current_type ← lift (_dbus_type_reader_get_current_type reader);
      if current_type =b DBUS_TYPE_INVALID then mret p
      else if (p =? end_)%nat then reject DBUS_INVALID_NOT_ENOUGH_DATA
      else
        p ← validate_value body order end_ (validate_body_helper body order end_ f) f
              reader current_type p;
        if (end_ <? p)%nat then reject DBUS_INVALID_NOT_ENOUGH_DATA
        else if walk_reader_to_end then
          '(_, reader) ← lift (_dbus_type_reader_next f reader);
          validate_body_helper body order end_ f reader true p
        else mret p
  end.

(** The fuel covers the signature and, for each byte of the values, one variant
    signature. *)
Definition body_fuel (signature : bytes) (len : nat) : nat :=
  (length signature + 300 * len + 300)%nat.

(** [remaining]: whether [bytes_remaining] is given; the number is the result. *)
Definition _dbus_validate_body_with_reason `{Host} (expected_signature : bytes) (start : nat)
    (order : byte_order) (remaining : bool) (value_str : DBusRealString) (value_pos len : nat) :
    V nat :=
  let end_ := (value_pos + len)%nat in
  let reader := _dbus_type_reader_init_types_only expected_signature start in
  p ← validate_body_helper (str value_str) order end_ (body_fuel expected_signature len)
        reader true value_pos;
  if remaining then mret (end_ - p)%nat
  else if (p <? end_)%nat then reject DBUS_INVALID_TOO_MUCH_DATA
  else mret 0%nat.

(** ** Values and their encoding *)

(** [VRaw] is the memory of an array of fixed-size elements other than
    booleans: any run of bytes.  The validator looks at the length in bytes only, so
    the last element may be a part of one ([array_of_partial_element_accepted]);
    [whole_fields] of [Writing] says that there are only whole elements. *)
Inductive val :=
| VBasic (b : DBusBasicValue)
| VSignature (ts : list ty)
| VVariant (t : ty) (v : val)
| VArray (vs : list val)
| VRaw (bs : bytes)
| VStruct (vs : list val).

Definition raw_element (t : ty) : bool :=
  match t with TLeaf c => dbus_type_is_fixed c && negb (c =b "b"%byte) | _ => false end.

Definition basic_ok (c : byte) (b : DBusBasicValue) : bool :=
  match kind_of c, b with
  | Some KByte, Byt _ => true
  | Some K16, U16 z => (0 <=? z) && (z <? 2 ^ 16)
  | Some KBool, U32 z => (z =? 0) || (z =? 1)
  | Some K32, U32 z => (0 <=? z) && (z <? 2 ^ 32)
  | Some K64, U64 z => (0 <=? z) && (z <? 2 ^ 64)
  | Some KString, Str s =>
      (Z.of_nat (length s) <? 2 ^ 32)
      && (if c =b "o"%byte then _dbus_validate_path s 0 (length s)
          else _dbus_string_validate_utf8 s 0 (length s))
  | _, _ => false
  end.

Definition typecode_alignment (t : ty) : nat := _dbus_type_get_alignment (typecode t).

Section encoding.
Context (o : byte_order).

(** An array: its length, the padding to its first element, its elements. *)
Definition enc_array (pos alignment : nat) (elements : nat → option bytes) : option bytes :=
  let p := (align_up pos 4 + 4)%nat in
  let start := align_up p alignment in
  bs ← elements start;
  if DBUS_MAXIMUM_ARRAY_LENGTH <? Z.of_nat (length bs) then None
  else Some (padding pos 4 ++ octets o 4 (Z.of_nat (length bs)) ++ padding p alignment ++ bs).

Definition enc_signature (t : list ty) : option bytes :=
  let s := print_sig t in
  if sig_ok accepted_key t && (length s <=? DBUS_MAXIMUM_SIGNATURE_LENGTH)%nat
  then Some (z2b (Z.of_nat (length s)) :: s ++ [x00]) else None.

(** The bytes of a value of type [t] that starts at [pos]; [None] for a value
    that is not of the type or does not fit. *)
Fixpoint enc (v : val) (t : ty) (pos : nat) {struct v} : option bytes :=
  let fix enc_elements t' vs pos {struct vs} : option bytes :=
    match vs with
    | [] => Some []
    | v :: vs' => b ← enc v t' pos; r ← enc_elements t' vs' (pos + length b)%nat; Some (b ++ r)
    end in
  let fix enc_fields vs ts pos {struct vs} : option bytes :=
    match vs, ts with
    | [], [] => Some []
    | v :: vs', t :: ts' =>
        b ← enc v t pos; r ← enc_fields vs' ts' (pos + length b)%nat; Some (b ++ r)
    | _, _ => None
    end in
  match v, t with
  | VBasic b, TLeaf c => if basic_ok c b then Some (wire o pos c b) else None
  | VSignature ts, TLeaf c => if c =b "g"%byte then enc_signature ts else None
  | VVariant t' v', TLeaf c =>
      if c =b "v"%byte then
        s ← enc_signature [t']; b ← enc v' t' (pos + length s)%nat; Some (s ++ b)
      else None
  | VRaw bs, TArray t' =>
      if raw_element t' then enc_array pos (typecode_alignment t') (λ _, Some bs) else None
  | VArray vs, TArray t' =>
      if raw_element t' then None
      else enc_array pos (typecode_alignment t') (enc_elements t' vs)
  | VArray vs, TDict k v => enc_array pos 8 (enc_elements (TStruct [k; v]) vs)
  | VStruct vs, TStruct ts =>
      b ← enc_fields vs ts (align_up pos 8); Some (padding pos 8 ++ b)
  | _, _ => None
  end.

(** The local functions of [enc]. *)
Fixpoint enc_elements (t' : ty) (vs : list val) (pos : nat) : option bytes :=
  match vs with
  | [] => Some []
  | v :: vs' => b ← enc v t' pos; r ← enc_elements t' vs' (pos + length b)%nat; Some (b ++ r)
  end.

Fixpoint enc_fields (vs : list val) (ts : list ty) (pos : nat) : option bytes :=
  match vs, ts with
  | [], [] => Some []
  | v :: vs', t :: ts' =>
      b ← enc v t pos; r ← enc_fields vs' ts' (pos + length b)%nat; Some (b ++ r)
  | _, _ => None
  end.

Lemma enc_eq v t pos :
  enc v t pos =
  match v, t with
  | VBasic b, TLeaf c => if basic_ok c b then Some (wire o pos c b) else None
  | VSignature ts, TLeaf c => if c =b "g"%byte then enc_signature ts else None
  | VVariant t' v', TLeaf c =>
      if c =b "v"%byte then
        s ← enc_signature [t']; b ← enc v' t' (pos + length s)%nat; Some (s ++ b)
      else None
  | VRaw bs, TArray t' =>
      if raw_element t' then enc_array pos (typecode_alignment t') (λ _, Some bs) else None
  | VArray vs, TArray t' =>
      if raw_element t' then None
      else enc_array pos (typecode_alignment t') (enc_elements t' vs)
  | VArray vs, TDict k v => enc_array pos 8 (enc_elements (TStruct [k; v]) vs)
  | VStruct vs, TStruct ts =>
      b ← enc_fields vs ts (align_up pos 8); Some (padding pos 8 ++ b)
  | _, _ => None
  end.
Proof. by destruct v, t. Qed.

End encoding.

Lemma padding_aligned p a :
  is_alignment a → padding (align_up p a) a = [].
Proof.
  intros Ha. unfold padding. rewrite (align_up_aligned (align_up p a)), Nat.sub_diag; [done|done|].
  by apply align_up_spec.
Qed.

(** The padding in front of a value belongs to its encoding. *)
Lemma enc_realign o v t p bs :
  let a := typecode_alignment t in
  enc o v t (align_up p a) = Some bs → is_alignment a → enc o v t p = Some (padding p a ++ bs).
Proof.
  cbv zeta. unfold typecode_alignment. rewrite !enc_eq. intros E Ha.
  assert (padding p 1 = [] ∧ align_up p 1 = p) as [P1 A1].
  { split; [apply padding_1|]. rewrite align_up_pad by alignment. rewrite padding_1. simpl. lia. }
  assert (∀ n els bs, enc_array o (align_up p 4) n els = Some bs →
          enc_array o p n els = Some (padding p 4 ++ bs)) as Harr.
  { clear. intros n els bs. unfold enc_array. rewrite align_up_idem, padding_aligned by alignment.
    destruct (els _) as [x|]; simpl; [|done]. destruct (_ <? _); [done|]. by intros [= <-]. }
  destruct v, t; simpl typecode in *; try done.
  - destruct (basic_ok c b); [|done]. injection E as <-. unfold wire.
    by rewrite padding_aligned.
  - destruct (c =b "g"%byte) eqn:Ec; [|done]. apply byte_eqb_eq in Ec as ->. simpl in *.
    by rewrite P1.
  - destruct (c =b "v"%byte) eqn:Ec; [|done]. apply byte_eqb_eq in Ec as ->. simpl in *.
    by rewrite A1 in E; rewrite E, P1.
  - destruct (raw_element t); [done|]. by apply Harr.
  - by apply Harr.
  - destruct (raw_element t); [|done]. by apply Harr.
  - simpl in *. rewrite align_up_idem, padding_aligned in E by done.
    destruct (enc_fields o vs ts (align_up p 8)); [|done]. by injection E as <-.
Qed.

Lemma enc_padded o v t p bs :
  enc o v t p = Some bs → is_alignment (typecode_alignment t) →
  ∃ b', bs = padding p (typecode_alignment t) ++ b'
    ∧ enc o v t (align_up p (typecode_alignment t)) = Some b'.
Proof.
  intros E Ha. destruct (enc o v t (align_up p (typecode_alignment t))) as [b'|] eqn:E'.
  - exists b'. split; [|done]. pose proof (enc_realign o v t p b' E' Ha). congruence.
  - exfalso. revert E E'. unfold typecode_alignment in *. rewrite !enc_eq.
    assert (align_up p 1 = p) as A1.
    { rewrite align_up_pad by alignment. rewrite padding_1. simpl. lia. }
    assert (∀ n els, enc_array o (align_up p 4) n els = None → enc_array o p n els = None) as Harr.
    { clear. intros n els. unfold enc_array. rewrite align_up_idem by alignment.
      destruct (els _) as [x|]; simpl; [|done]. by destruct (_ <? _). }
    destruct v, t; simpl typecode in *; try done.
    + destruct (basic_ok c b); congruence.
    + destruct (c =b "g"%byte); congruence.
    + destruct (c =b "v"%byte) eqn:Ec; [|done]. apply byte_eqb_eq in Ec as ->. simpl.
      rewrite A1. congruence.
    + destruct (raw_element t); [done|]. intros E E'. by rewrite (Harr _ _ E') in E.
    + intros E E'. by rewrite (Harr _ _ E') in E.
    + destruct (raw_element t); [|done]. intros E E'. by rewrite (Harr _ _ E') in E.
    + simpl. rewrite align_up_idem by done. destruct (enc_fields o vs ts (align_up p 8)); simpl; congruence.
Qed.

(** ** Reasoning about the validator *)

(** [c] stays inside the block and answers; when it goes on, [Q] holds. *)
Definition safe {A} (c : V A) (Q : A → Prop) : Prop :=
  ∀ m, match c m with
       | Some (inr a, _) => Q a
       | Some (inl _, _) => True
       | None => False
       end.

Lemma safe_ret {A} (a : A) (Q : A → Prop) : Q a → safe (mret a) Q.
Proof. by intros HQ m. Qed.

Lemma safe_reject {A} e (Q : A → Prop) : safe (reject e) Q.
Proof. by intros m. Qed.

Lemma safe_bind {A B} (c : V A) (k : A → V B) Q R :
  safe c Q → (∀ a, Q a → safe (k a) R) → safe (c ≫= k) R.
Proof.
  intros Hc Hk m. specialize (Hc m). unfold mbind, V_bind.
  destruct (c m) as [[[e|a] m']|]; [done|by apply Hk|done].
Qed.

Lemma safe_lift {A B} (a : A) (k : A → V B) R : safe (k a) R → safe (lift (Some a) ≫= k) R.
Proof. done. Qed.

Lemma safe_conseq {A} (c : V A) (Q Q' : A → Prop) : safe c Q → (∀ a, Q a → Q' a) → safe c Q'.
Proof. intros Hc HQ m. specialize (Hc m). destruct (c m) as [[[e|a] m']|]; auto. Qed.

Lemma sub_add (s : bytes) p a b : sub s p (a + b) = sub s p a ++ sub s (p + a) b.
Proof. unfold sub. by rewrite <- drop_drop, <- take_take_drop. Qed.

(** Two adjacent ranges. *)
Lemma sub_join (s : bytes) p q r :
  (p <= q <= r)%nat → sub s p (r - p) = sub s p (q - p) ++ sub s q (r - q).
Proof.
  intros Hpq. replace (r - p)%nat with ((q - p) + (r - q))%nat by lia. rewrite sub_add.
  by replace (p + (q - p))%nat with q by lia.
Qed.

Lemma mem_read_in (body : bytes) p n :
  (p + n <= length body)%nat → mem_read body p n = Some (sub body p n).
Proof. intros Hp. unfold mem_read. by rewrite (proj2 (Nat.leb_le _ _)) by lia. Qed.

Lemma length_sub_in (body : bytes) p n : (p + n <= length body)%nat → length (sub body p n) = n.
Proof. intros Hp. apply length_sub. lia. Qed.

Section soundness.
Context `{Host}.
Context (body : bytes) (order : byte_order) (end_ : nat).
Hypothesis Hblock : (end_ + 8 <= length body)%nat.

Lemma nul_replicate (d : bytes) :
  forallb (λ c, c =b x00) d = true → d = replicate (length d) x00.
Proof.
  induction d as [|c d IH]; [done|]. simpl. intros [->%byte_eqb_eq Hd]%andb_true_iff.
  f_equal. by apply IH.
Qed.

Lemma skip_padding_safe p al :
  is_alignment al → (align_up p al <= length body)%nat →
  safe (skip_padding body p (align_up p al))
    (λ p', p' = align_up p al ∧ sub body p (p' - p) = padding p al).
Proof.
  intros Ha Hle. destruct (align_up_spec p al Ha) as [Hp _]. unfold skip_padding.
  rewrite mem_read_in by lia. apply safe_lift.
  destruct (forallb _ _) eqn:E; [|apply safe_reject]. apply safe_ret. split; [done|].
  rewrite (nul_replicate _ E) at 1. by rewrite length_sub_in by lia.
Qed.

Lemma aligned_mod p n : is_alignment n → (p mod n = 0)%nat → aligned p n = true.
Proof. intros Hn Hp. apply Nat.eqb_eq. by apply align_up_aligned. Qed.

Lemma unpack_safe p :
  (p + 4 <= length body)%nat → aligned p 4 = true →
  safe (unpack_at body order p) (λ z, 0 <= z < 2 ^ 32 ∧ sub body p 4 = octets order 4 z).
Proof.
  intros Hp Ha. unfold unpack_at. rewrite Ha. apply safe_lift.
  rewrite mem_read_in by lia. apply safe_lift, safe_ret.
  assert (length (sub body p 4) = 4%nat) as Hl by (by apply length_sub_in).
  rewrite unpack_32_ok by done.
  split; [pose proof (of_octets_range order (sub body p 4)) as R; by rewrite Hl in R|].
  rewrite <- Hl at 2. by rewrite octets_of_octets.
Qed.

Lemma byte_safe p :
  (p + 1 <= length body)%nat → safe (byte_of_body body p) (λ c, sub body p 1 = [c]).
Proof.
  intros Hp. unfold byte_of_body. rewrite mem_read_in by lia. apply safe_lift, safe_ret.
  pose proof (length_sub_in body p 1 Hp) as Hl. by destruct (sub body p 1) as [|c [|]].
Qed.

(** A fixed-size value: what is found is the wire format of some value. *)
Lemma wire_fixed c p :
  match kind_of c with Some (K16 | KBool | K32 | K64) => True | _ => False end →
  let n := _dbus_type_get_alignment c in
  let a := align_up p n in
  (a + n <= length body)%nat → sub body p (a - p) = padding p n →
  (c = "b"%byte → of_octets order (sub body a n) = 0 ∨ of_octets order (sub body a n) = 1) →
  ∃ b, basic_ok c b = true ∧ wire order p c b = sub body p (a + n - p).
Proof.
  cbv zeta. intros Hk Hn Hpad Hb. pose proof (type_alignment_kind c) as Ha.
  assert (is_alignment (_dbus_type_get_alignment c)) as Hal.
  { destruct (kind_of c) as [[]|]; try done; rewrite Ha; by alignment. }
  set (n := _dbus_type_get_alignment c) in *. set (a := align_up p n) in *.
  destruct (align_up_spec p n Hal) as [Hp _]. fold a in Hp.
  assert (length (sub body a n) = n) as Hl by (apply length_sub_in; lia).
  pose proof (of_octets_range order (sub body a n)) as R. rewrite Hl in R.
  pose proof (octets_of_octets order (sub body a n)) as E. rewrite Hl in E.
  set (z := of_octets order (sub body a n)) in *.
  rewrite (sub_join body p a) by lia. rewrite Hpad.
  replace (a + n - a)%nat with n by lia. rewrite <- E. unfold wire. fold n.
  unfold wire_body, basic_ok.
  destruct (kind_of c) as [[]|] eqn:Ek; try done; rewrite Ha in *.
  - exists (U16 z). split; [lia|done].
  - exists (U32 z). assert (c = "b"%byte) as -> by (by destruct c). destruct (Hb eq_refl) as [-> | ->]; done.
  - exists (U32 z). split; [lia|done].
  - exists (U64 z). split; [lia|done].
Qed.

(** What [validate_value] promises for a value of type [t] at [p]. *)
Definition value_at (t : ty) (p p' : nat) : Prop :=
  (p < p')%nat ∧ ((p' <= end_)%nat → ∃ v, enc order v t p = Some (sub body p (p' - p))).

Lemma check_boolean_safe p :
  (p + 4 <= length body)%nat → aligned p 4 = true →
  safe (check_boolean body order p)
    (λ _, of_octets order (sub body p 4) = 0 ∨ of_octets order (sub body p 4) = 1).
Proof.
  intros Hp Ha. eapply safe_bind; [by apply unpack_safe|]. intros z [Hz E].
  destruct ((z =? 0) || (z =? 1)) eqn:Eb; [|apply safe_reject]. apply safe_ret.
  rewrite E, of_octets_octets. rewrite Z.mod_small by lia. lia.
Qed.

Lemma validate_fixed_safe c p :
  match kind_of c with Some (K16 | KBool | K32 | K64) => True | _ => False end →
  (p < end_)%nat →
  safe (validate_fixed body order end_ c p) (value_at (TLeaf c) p).
Proof.
  intros Hk Hp. unfold validate_fixed. pose proof (type_alignment_kind c) as Ha.
  assert (is_alignment (_dbus_type_get_alignment c)) as Hal.
  { destruct (kind_of c) as [[]|]; try done; rewrite Ha; by alignment. }
  destruct (align_up_spec p _ Hal) as [Hap _].
  assert (_dbus_type_get_alignment c <= 8)%nat as H8.
  { destruct (kind_of c) as [[]|]; try done; rewrite Ha; lia. }
  destruct (end_ <=? _)%nat eqn:Ee; [apply safe_reject|]. apply Nat.leb_gt in Ee.
  eapply safe_bind; [apply skip_padding_safe; [done|lia]|].
  intros p' [-> Hpad].
  eapply (safe_bind _ _ (λ _, c = "b"%byte →
    of_octets order (sub body (align_up p (_dbus_type_get_alignment c)) 4) = 0
    ∨ of_octets order (sub body (align_up p (_dbus_type_get_alignment c)) 4) = 1)).
  { destruct (c =b "b"%byte) eqn:Ec.
    - eapply safe_conseq; [apply check_boolean_safe; [lia|]|done].
      apply byte_eqb_eq in Ec as ->. apply (aligned_up p 4). by alignment.
    - apply byte_eqb_neq in Ec. by apply safe_ret. }
  intros [] Hb. apply safe_ret. unfold value_at.
  assert (0 < _dbus_type_get_alignment c)%nat by (destruct (kind_of c) as [[]|]; try done; lia).
  split; [lia|]. intros Hend.
  destruct (wire_fixed c p Hk) as (b & Hok & Hw); [lia|done| |].
  { intros Hc. specialize (Hb Hc). rewrite Hc in *. exact Hb. }
  exists (VBasic b). rewrite enc_eq, Hok. f_equal. exact Hw.
Qed.

Lemma validate_length_safe p :
  (p <= end_)%nat →
  safe (validate_length body order end_ p) (λ '(l, p'),
    p' = (align_up p 4 + 4)%nat ∧ (p' <= end_)%nat ∧ 0 <= l < 2 ^ 32
    ∧ sub body p (p' - p) = padding p 4 ++ octets order 4 l).
Proof.
  intros Hp. unfold validate_length. destruct (align_up_spec p 4 ltac:(alignment)) as [Hap _].
  destruct (end_ <? _)%nat eqn:Ee; [apply safe_reject|]. apply Nat.ltb_ge in Ee.
  eapply safe_bind; [apply skip_padding_safe; [by alignment|lia]|]. intros p' [-> Hpad].
  eapply safe_bind; [apply unpack_safe; [lia|apply aligned_up; by alignment]|]. intros z [Hz E]. apply safe_ret.
  split; [done|]. split; [done|]. split; [done|].
  rewrite (sub_join body p (align_up p 4)) by lia. rewrite Hpad. f_equal.
  by replace (align_up p 4 + 4 - align_up p 4)%nat with 4%nat by lia.
Qed.

Lemma validate_string_safe c p :
  kind_of c = Some KString → (p < end_)%nat →
  safe (validate_string body order end_ c p) (value_at (TLeaf c) p).
Proof.
  intros Hk Hp. unfold validate_string.
  eapply safe_bind; [apply validate_length_safe; lia|]. intros [l p1] (-> & Hp1 & Hl & E1).
  set (p1 := (align_up p 4 + 4)%nat) in *.
  destruct (Z.of_nat _ <? l) eqn:El; [apply safe_reject|]. apply Z.ltb_ge in El.
  assert (∃ n, l = Z.of_nat n) as [n ->] by (exists (Z.to_nat l); lia). rewrite Nat2Z.id.
  set (s := sub body p1 n). assert (length s = n) as Hs by (apply length_sub_in; lia).
  eapply (safe_bind _ _ (λ _, basic_ok c (Str s) = true)).
  { unfold basic_ok. rewrite Hk, Hs. rewrite (proj2 (Z.ltb_lt _ _)) by lia.
    destruct (c =b "o"%byte); case_if; (by apply safe_ret) || apply safe_reject. }
  intros [] Hok. destruct (_ =? end_)%nat eqn:Ee; [apply safe_reject|]. apply Nat.eqb_neq in Ee.
  eapply safe_bind; [apply byte_safe; lia|]. intros d Ed. cbv beta.
  destruct (negb (d =b x00)) eqn:En; [apply safe_reject|]. apply negb_false_iff, byte_eqb_eq in En as ->.
  apply safe_ret. destruct (align_up_spec p 4 ltac:(alignment)) as [Hap _]. split; [lia|]. intros Hend.
  exists (VBasic (Str s)). rewrite enc_eq, Hok. f_equal. unfold wire, wire_body. rewrite Hk, Hs.
  pose proof (type_alignment_kind c) as Ha. rewrite Hk in Ha. rewrite Ha.
  rewrite (sub_join body p p1), (sub_join body p1 (p1 + n)) by lia. rewrite E1, <- app_assoc.
  replace (p1 + n - p1)%nat with n by lia. replace (p1 + n + 1 - (p1 + n))%nat with 1%nat by lia.
  by rewrite Ed.
Qed.

Hypothesis Hnested : ∀ p n m m',
  (p + n < end_)%nat →
  _dbus_validate_signature_with_reason (drop p body) 0 n m = (DBUS_VALID, m') →
  well_bracketed [] (sub body p n) = true.

Lemma sub_drop_0 p n : sub (drop p body) 0 n = sub body p n.
Proof. unfold sub. by rewrite drop_0. Qed.

(** A valid signature at [p] is one of the grammar. *)
Lemma signature_reason_safe p n :
  (p + n < end_)%nat →
  safe (signature_reason body p n) (λ v, v = DBUS_VALID →
    ∃ ts, sig_ok accepted_key ts = true ∧ sub body p n = print_sig ts
          ∧ (n <= DBUS_MAXIMUM_SIGNATURE_LENGTH)%nat).
Proof.
  intros Hn m. unfold signature_reason.
  destruct (_dbus_validate_signature_with_reason (drop p body) 0 n m) as [v m'] eqn:E. intros ->.
  pose proof (Hnested p n m m' Hn E) as W. rewrite <- sub_drop_0 in W |- *.
  by apply (validate_only_grammar _ _ _ _ _ E).
Qed.

(** The length byte, the signature and its nul. *)
Lemma signature_bytes p n c ts :
  sub body p 1 = [c] → n = Z.to_nat (b2z c) → sub body (p + 1) n = print_sig ts →
  sub body (p + 1 + n) 1 = [x00] → (p + 1 + n + 1 <= length body)%nat →
  sig_ok accepted_key ts = true → (n <= DBUS_MAXIMUM_SIGNATURE_LENGTH)%nat →
  enc_signature ts = Some (sub body p (p + 1 + n + 1 - p)).
Proof.
  intros E1 Hn E2 E3 Hle Hok Hmax. unfold enc_signature.
  assert (length (print_sig ts) = n) as Hl by (rewrite <- E2; apply length_sub_in; lia).
  rewrite Hok, Hl, (proj2 (Nat.leb_le _ _)) by done. simpl. f_equal.
  rewrite (sub_join body p (p + 1)), (sub_join body (p + 1) (p + 1 + n)) by lia.
  replace (p + 1 - p)%nat with 1%nat by lia. replace (p + 1 + n - (p + 1))%nat with n by lia.
  replace (p + 1 + n + 1 - (p + 1 + n))%nat with 1%nat by lia. rewrite E1, E2, E3. simpl. f_equal.
  rewrite Hn, Z2Nat.id by apply b2z_range. apply z2b_b2z.
Qed.

Lemma validate_signature_value_safe p :
  (p < end_)%nat → safe (validate_signature_value body end_ p) (value_at (TLeaf "g") p).
Proof.
  intros Hp. unfold validate_signature_value.
  eapply safe_bind; [apply byte_safe; lia|]. intros c Ec. set (n := Z.to_nat (b2z c)).
  destruct (_ <? n + 1)%nat eqn:En; [apply safe_reject|]. apply Nat.ltb_ge in En.
  eapply safe_bind; [apply signature_reason_safe; lia|]. intros v Hv.
  case_bool_decide as Hval; [apply safe_reject|].
  destruct (Hv Hval) as (ts & Hok & Ets & Hmax).
  eapply safe_bind; [apply byte_safe; lia|]. intros d Ed. cbv beta.
  destruct (negb (d =b DBUS_TYPE_INVALID)) eqn:Ez; [apply safe_reject|].
  apply negb_false_iff, byte_eqb_eq in Ez as ->. apply safe_ret. split; [lia|]. intros _.
  exists (VSignature ts). rewrite enc_eq. byte_tests.
  by apply (signature_bytes p n c ts); try done; lia.
Qed.

(** ** The recursive calls *)

(** The reader shows a value of type [t]: a complete type, or a dict entry, whose
    values are encoded as those of a struct of two fields. *)
Inductive points : DBusTypeReader → ty → Prop :=
| points_type kd pre t post sd dd ar :
    within accepted_key sd dd ar t = true →
    points (types_at kd false (pre ++ print t ++ post) (length pre)) t
| points_entry kd pre k v post sd dd :
    within accepted_key sd dd 0 k = true → within accepted_key sd dd 0 v = true →
    points (types_at kd false (pre ++ DBUS_DICT_ENTRY_BEGIN_CHAR :: print k ++ print v
                                 ++ DBUS_DICT_ENTRY_END_CHAR :: post) (length pre)) (TStruct [k; v]).

Definition fuel_for (n p f : nat) : Prop := (n + 300 * (end_ - p) < f)%nat.

(** The reader of the fields [ts] of a struct or dict entry. *)
Inductive fields_at : DBusTypeReader → list ty → Prop :=
| fields_intro b pre ts post sd dd :
    forallb (within accepted_key sd dd 0) ts = true → ts ≠ [] →
    fields_at (types_at (kind_of_fields b) false (pre ++ flat_map print ts ++ close_of b :: post)
                 (length pre)) ts.

Section values.
Context (f : nat).
Let helper := validate_body_helper body order end_ f.
Hypothesis IHvalue : ∀ reader t p,
  points reader t → fuel_for (length (print t)) p f → (p <= end_)%nat →
  safe (helper reader false p) (λ p', (p' <= end_)%nat ∧ value_at t p p').
Hypothesis IHfields : ∀ reader ts p,
  fields_at reader ts → fuel_for (length (flat_map print ts)) p f → (p <= end_)%nat →
  safe (helper reader true p) (λ p', (p < p' <= end_)%nat
    ∧ ∃ vs, enc_fields order vs ts p = Some (sub body p (p' - p))).

Lemma element_loop_safe sub_ t n p0 p array_end :
  points sub_ t → fuel_for (length (print t)) p0 f → (p0 <= p <= end_)%nat →
  (array_end <= end_)%nat → (array_end - p <= n)%nat →
  safe (element_loop (λ p, helper sub_ false p) n p array_end)
    (λ p', (p <= p' <= end_)%nat ∧ ∃ vs, enc_elements order t vs p = Some (sub body p (p' - p))).
Proof.
  intros Hpt Hf. revert p. induction n as [|n IH]; intros p Hp Hae Hn; simpl;
    destruct (p <? array_end)%nat eqn:Elt; simpl.
  - apply Nat.ltb_lt in Elt. lia.
  - apply safe_ret. split; [lia|]. exists []. by rewrite Nat.sub_diag.
  - apply Nat.ltb_lt in Elt. eapply safe_bind.
    { apply (IHvalue sub_ t p Hpt); [unfold fuel_for in *; lia|lia]. }
    intros p1 (Hp1 & Hlt & Hv). destruct (Hv Hp1) as (v & Ev).
    eapply safe_conseq; [apply IH; lia|]. intros p2 (Hp2 & vs & Evs). split; [lia|].
    exists (v :: vs). simpl. rewrite Ev. simpl.
    rewrite length_sub_in by lia. replace (p + (p1 - p))%nat with p1 by lia. rewrite Evs. simpl.
    by rewrite (sub_join body p p1 p2) by lia.
  - apply safe_ret. split; [lia|]. exists []. by rewrite Nat.sub_diag.
Qed.

Lemma boolean_loop_safe n p array_end :
  (p mod 4 = 0)%nat → (array_end <= end_)%nat → (array_end - p <= n)%nat →
  safe (boolean_loop body order n p array_end)
    (λ p', (p <= p')%nat ∧ ((p' <= end_)%nat →
       ∃ vs, enc_elements order (TLeaf "b") vs p = Some (sub body p (p' - p)))).
Proof.
  revert p. induction n as [|n IH]; intros p Hp Hae Hn; simpl; destruct (p <? array_end)%nat eqn:Elt; simpl.
  - apply Nat.ltb_lt in Elt. lia.
  - apply safe_ret. split; [lia|]. exists []. by rewrite Nat.sub_diag.
  - apply Nat.ltb_lt in Elt. eapply safe_bind.
    { apply check_boolean_safe; [lia|]. apply aligned_mod; [by alignment|done]. }
    intros [] Hb.
    eapply safe_conseq; [apply (IH (p + 4)%nat); [|lia|lia]|].
    { rewrite Nat.add_mod, Hp by lia. done. }
    intros p' (Hp' & Hvs). split; [lia|]. intros Hend. destruct (Hvs Hend) as (vs & Evs).
    pose proof (align_up_aligned p 4 ltac:(alignment) Hp) as Eal.
    destruct (wire_fixed "b" p I) as (b & Hok & Hw); cbn [_dbus_type_get_alignment]; rewrite ?Eal.
    { lia. }
    { unfold padding. by rewrite Eal, Nat.sub_diag. }
    { by intros _. }
    cbn [_dbus_type_get_alignment] in Hw. rewrite Eal in Hw. replace (p + 4 - p)%nat with 4%nat in Hw by lia.
    exists (VBasic b :: vs). cbn [enc_elements]. rewrite enc_eq, Hok, Hw. cbn [mbind option_bind].
    rewrite length_sub_in by lia. rewrite Evs. cbn [mbind option_bind]. f_equal.
    rewrite (sub_join body p (p + 4) p') by lia. by replace (p + 4 - p)%nat with 4%nat by lia.
  - apply safe_ret. split; [lia|]. exists []. by rewrite Nat.sub_diag.
Qed.

Lemma enc_array_sub p0 al n elements :
  let p1 := (align_up p0 4 + 4)%nat in let p2 := align_up p1 al in
  is_alignment al → (p2 + n <= length body)%nat →
  sub body p0 (p1 - p0) = padding p0 4 ++ octets order 4 (Z.of_nat n) →
  sub body p1 (p2 - p1) = padding p1 al →
  elements p2 = Some (sub body p2 n) → Z.of_nat n <= DBUS_MAXIMUM_ARRAY_LENGTH →
  enc_array order p0 al elements = Some (sub body p0 (p2 + n - p0)).
Proof.
  cbv zeta. intros Ha Hle E1 E2 Ee Hmax. unfold enc_array. rewrite Ee. simpl.
  rewrite length_sub_in by done. rewrite (proj2 (Z.ltb_ge _ _)) by done. f_equal.
  set (p1 := (align_up p0 4 + 4)%nat) in *. set (p2 := align_up p1 al) in *.
  destruct (align_up_spec p0 4 ltac:(alignment)) as [H4 _].
  destruct (align_up_spec p1 al Ha) as [Hal _].
  rewrite (sub_join body p0 p1), (sub_join body p1 p2) by lia. rewrite E1, E2, <- app_assoc.
  by replace (p2 + n - p2)%nat with n by lia.
Qed.

(** The element type an array reader shows, and the reader of the elements. *)
Definition element_ty (t : ty) : option ty :=
  match t with TArray t' => Some t' | TDict k v => Some (TStruct [k; v]) | _ => None end.

Lemma first_type_at pre c q :
  _dbus_first_type_in_signature (pre ++ c :: q) (length pre) = map_type_char_to_type c.
Proof.
  unfold _dbus_first_type_in_signature. by rewrite <- (Nat.add_0_r (length pre)), byte_at_app.
Qed.

Lemma first_type_at_1 pre c q :
  _dbus_first_type_in_signature (pre ++ c :: q) (length pre + 1)
  = map_type_char_to_type (byte_at q 0).
Proof. unfold _dbus_first_type_in_signature. by rewrite byte_at_app. Qed.

Lemma types_array_current kd pre q :
  _dbus_type_reader_get_current_type (types_at kd false (pre ++ DBUS_TYPE_ARRAY :: q) (length pre))
  = Some DBUS_TYPE_ARRAY.
Proof.
  unfold _dbus_type_reader_get_current_type. cbn [finished types_at].
  assert (check_finished (types_at kd false (pre ++ DBUS_TYPE_ARRAY :: q) (length pre)) = Some false) as ->.
  { unfold check_finished. by rewrite andb_false_r. }
  cbn [mbind option_bind type_str type_pos types_at]. by rewrite first_type_at.
Qed.

Lemma array_points reader t t' :
  points reader t → element_ty t = Some t' →
  ∃ sub_, _dbus_type_reader_recurse reader = Some sub_ ∧ points sub_ t'
    ∧ (_dbus_type_reader_get_element_type reader
       = Some match t with TDict _ _ => DBUS_TYPE_DICT_ENTRY | _ => typecode t' end).
Proof.
  intros Hp Ht. destruct Hp as [kd pre t post sd dd ar Hw|]; [|done].
  destruct t as [|t1| |k v]; try done; injection Ht as <-.
  - simpl in Hw. apply andb_true_iff in Hw as [_ Hw].
    pose proof (first_type_print (pre ++ [DBUS_TYPE_ARRAY]) t1 post _ _ _ _ Hw) as Ef.
    rewrite length_app, <- app_assoc in Ef. simpl in Ef.
    eexists. split; [|split].
    + unfold _dbus_type_reader_recurse. simpl type_str. simpl type_pos. rewrite first_type_at. byte_tests.
      reflexivity.
    + pose proof (points_type KArray (pre ++ [DBUS_TYPE_ARRAY]) t1 post _ _ _ Hw) as Hpt.
      rewrite length_app, <- app_assoc in Hpt. exact Hpt.
    + unfold _dbus_type_reader_get_element_type.
      rewrite (types_array_current kd pre (print t1 ++ post) :
        _dbus_type_reader_get_current_type (types_at kd false (pre ++ print (TArray t1) ++ post) _) = _).
      simpl. by rewrite Ef.
  - simpl in Hw. apply andb_true_iff in Hw as [[_ Hk]%andb_true_iff Hv].
    eexists. split; [|split].
    + unfold _dbus_type_reader_recurse. simpl type_str. simpl type_pos. rewrite first_type_at. byte_tests.
      reflexivity.
    + pose proof (points_entry KArray (pre ++ [DBUS_TYPE_ARRAY]) k v post _ _ Hk Hv) as Hpt.
      rewrite length_app, <- app_assoc in Hpt. simpl. rewrite <- !app_assoc. exact Hpt.
    + unfold _dbus_type_reader_get_element_type.
      rewrite (types_array_current kd pre _ :
        _dbus_type_reader_get_current_type (types_at kd false (pre ++ print (TDict k v) ++ post) _) = _).
      simpl. by rewrite first_type_at_1.
Qed.

Lemma typecode_valid sd dd ar t :
  within accepted_key sd dd ar t = true → _dbus_type_is_valid (typecode t) = true.
Proof. destruct t as [c| | |]; try done. simpl. by destruct c. Qed.

(** The alignment of an array's elements. *)
Definition element_alignment (t : ty) : nat :=
  match t with TArray t' => typecode_alignment t' | _ => 8%nat end.

(** The value an array stands for, from what the loops found. *)
Definition elements_at (t t' : ty) (p p' : nat) : Prop :=
  match t with
  | TArray t1 => if raw_element t1 then True
                 else ∃ vs, enc_elements order t' vs p = Some (sub body p (p' - p))
  | _ => ∃ vs, enc_elements order t' vs p = Some (sub body p (p' - p))
  end.

Lemma array_value t t' p0 n :
  let p1 := (align_up p0 4 + 4)%nat in let p2 := align_up p1 (element_alignment t) in
  element_ty t = Some t' → is_alignment (element_alignment t) → (p2 + n <= length body)%nat →
  sub body p0 (p1 - p0) = padding p0 4 ++ octets order 4 (Z.of_nat n) →
  sub body p1 (p2 - p1) = padding p1 (element_alignment t) →
  Z.of_nat n <= DBUS_MAXIMUM_ARRAY_LENGTH → elements_at t t' p2 (p2 + n) →
  ∃ v, enc order v t p0 = Some (sub body p0 (p2 + n - p0)).
Proof.
  cbv zeta. intros Ht Ha Hle E1 E2 Hmax Hel.
  set (p2 := align_up (align_up p0 4 + 4) (element_alignment t)) in *.
  assert (∀ vs, enc_elements order t' vs p2 = Some (sub body p2 (p2 + n - p2)) →
    enc_array order p0 (element_alignment t) (enc_elements order t' vs) = Some (sub body p0 (p2 + n - p0))) as Henc.
  { intros vs Evs. replace (p2 + n - p2)%nat with n in Evs by lia. by apply enc_array_sub. }
  destruct t as [|t1| |k v]; try done; injection Ht as <-; simpl in Hel, Henc.
  - destruct (raw_element t1) eqn:Er.
    + exists (VRaw (sub body p2 n)). rewrite enc_eq, Er. by apply enc_array_sub.
    + destruct Hel as [vs Evs]. exists (VArray vs). rewrite enc_eq, Er. by apply Henc.
  - destruct Hel as [vs Evs]. exists (VArray vs). rewrite enc_eq. by apply Henc.
Qed.

Lemma elements_empty t t' p : elements_at t t' p (p + 0).
Proof.
  assert (∃ vs, enc_elements order t' vs p = Some (sub body p (p + 0 - p))) as Hvs.
  { exists []. by replace (p + 0 - p)%nat with 0%nat by lia. }
  destruct t as [|t1| |]; simpl; try done. by destruct (raw_element t1).
Qed.

Lemma typecode_fixed t :
  dbus_type_is_fixed (typecode t) = match t with TLeaf c => dbus_type_is_fixed c | _ => false end.
Proof. by destruct t. Qed.

(** The loops over the elements. *)
Lemma elements_safe sub_ t t' p0 p n elem_type :
  element_ty t = Some t' → points sub_ t' →
  elem_type = match t with TDict _ _ => DBUS_TYPE_DICT_ENTRY | _ => typecode t' end →
  fuel_for (length (print t')) p0 f → (p0 <= p)%nat → (p + n <= end_)%nat →
  (p mod element_alignment t = 0)%nat →
  safe (if dbus_type_is_fixed elem_type
        then if elem_type =b "b"%byte then boolean_loop body order n p (p + n) else mret (p + n)%nat
        else element_loop (λ p, helper sub_ false p) n p (p + n))
    (λ p', p' = (p + n)%nat → elements_at t t' p (p + n)).
Proof.
  intros Ht Hpt -> Hf Hp Hn Hal.
  assert (safe (element_loop (λ p, helper sub_ false p) n p (p + n))
    (λ p', p' = (p + n)%nat → ∃ vs, enc_elements order t' vs p = Some (sub body p (p + n - p)))) as Hloop.
  { eapply safe_conseq; [apply (element_loop_safe sub_ t' n p0 p (p + n)); try done; lia|].
    intros p' (_ & vs & Evs) ->. by exists vs. }
  destruct t as [|t1| |k v]; try done; injection Ht as <-; simpl elements_at; try exact Hloop.
  rewrite typecode_fixed. destruct t1 as [c| | |]; simpl raw_element; try exact Hloop.
  destruct (dbus_type_is_fixed c) eqn:Ef; simpl; [|exact Hloop].
  destruct (c =b "b"%byte) eqn:Eb; simpl; [|by apply safe_ret].
  apply byte_eqb_eq in Eb as ->.
  eapply safe_conseq; [apply boolean_loop_safe; [done|lia|lia]|].
  intros p' [_ Hvs] ->. by apply Hvs.
Qed.

Lemma validate_array_safe reader t p :
  points reader t → (∃ t', element_ty t = Some t') →
  fuel_for (length (print t)) p (S f) → (p < end_)%nat →
  safe (validate_array body order end_ helper reader p) (value_at t p).
Proof.
  intros Hpt [t' Ht] Hf Hp. unfold validate_array.
  destruct (array_points reader t t' Hpt Ht) as (sub_ & Hrec & Hsub & Helem). rewrite Hrec.
  eapply safe_bind; [apply validate_length_safe; lia|]. intros [l p1] (-> & Hp1 & Hl & E1).
  rewrite Helem. apply safe_lift.
  set (elem_type := match t with TDict _ _ => DBUS_TYPE_DICT_ENTRY | _ => typecode t' end) in *.
  assert (_dbus_type_is_valid elem_type = true ∧ _dbus_type_get_alignment elem_type = element_alignment t)
    as [Hvalid Halign].
  { unfold elem_type. destruct t as [|t1| |k v]; try done. injection Ht as <-. split; [|done].
    inversion Hpt as [? ? ? ? ? ? ? Hw|]; subst. simpl in Hw. apply andb_true_iff in Hw as [_ Hw].
    by eapply typecode_valid. }
  rewrite Hvalid. cbn [negb]. pose proof (valid_type_alignment _ Hvalid) as Hal. rewrite Halign in *.
  set (p1 := (align_up p 4 + 4)%nat) in *.
  destruct (align_up_spec p 4 ltac:(alignment)) as [H4 _].
  destruct (align_up_spec p1 _ Hal) as [Hap Hmod].
  destruct (end_ <? _)%nat eqn:Ee; [apply safe_reject|]. apply Nat.ltb_ge in Ee.
  eapply safe_bind; [apply skip_padding_safe; [done|lia]|]. intros p2 [-> E2].
  set (p2 := align_up p1 (element_alignment t)) in *.
  destruct (_ <? l) eqn:El; [apply safe_reject|]. apply Z.ltb_ge in El.
  assert (∃ n, l = Z.of_nat n) as [n ->] by (exists (Z.to_nat l); lia).
  destruct (Z.of_nat n <=? 0) eqn:E0.
  { apply Z.leb_le in E0. assert (n = 0%nat) as -> by lia. apply safe_ret. split; [lia|]. intros _.
    destruct (array_value t t' p 0 Ht Hal) as [v Ev]; try done;
      [change (p2 + 0 <= length body)%nat; lia|apply elements_empty|].
    exists v. rewrite Ev. fold p1 p2. by rewrite Nat.add_0_r. }
  apply Z.leb_gt in E0. destruct (DBUS_MAXIMUM_ARRAY_LENGTH <? _) eqn:Em; [apply safe_reject|].
  apply Z.ltb_ge in Em. apply safe_lift. rewrite Nat2Z.id.
  eapply safe_bind.
  { apply (elements_safe sub_ t t' p p2 n elem_type); try done; [|lia|lia].
    unfold fuel_for in *. assert (length (print t') < length (print t))%nat; [|lia].
    destruct t as [|t1| |k v]; try done; injection Ht as <-; simpl; [lia|].
    rewrite app_nil_r, !length_app. simpl. lia. }
  intros p3 Hp3. destruct (p3 =? p2 + n)%nat eqn:E3; [|apply safe_reject].
  apply Nat.eqb_eq in E3 as ->. apply safe_ret. split; [lia|]. intros _.
  apply (array_value t t' p n Ht Hal); try done; [change (p2 + n <= length body)%nat; lia|by apply Hp3].
Qed.

(** The reader of the fields of a struct or dict entry. *)
Lemma struct_points reader ts :
  points reader (TStruct ts) →
  ∃ sub_, _dbus_type_reader_recurse reader = Some sub_ ∧ fields_at sub_ ts.
Proof.
  intros Hp. inversion Hp as [kd pre t post sd dd ar Hw|kd pre k v post sd dd Hk Hv]; subst.
  - simpl in Hw. apply andb_true_iff in Hw as [[_ Hne]%andb_true_iff Hw].
    eexists. split.
    + unfold _dbus_type_reader_recurse. simpl type_str. simpl type_pos. rewrite first_type_at. byte_tests.
      apply (fields_recurse KStruct (types_at kd false (pre ++ print (TStruct ts) ++ post) (length pre)) pre
        DBUS_STRUCT_BEGIN_CHAR _ eq_refl eq_refl); by left.
    + pose proof (fields_intro false (pre ++ [DBUS_STRUCT_BEGIN_CHAR]) ts post _ _ Hw) as Hf.
      rewrite length_app, <- app_assoc in Hf. simpl. rewrite <- app_assoc. apply Hf. by intros ->.
  - eexists. split.
    + unfold _dbus_type_reader_recurse. simpl type_str. simpl type_pos. rewrite first_type_at. byte_tests.
      by eapply (fields_recurse KDictEntry); [reflexivity|reflexivity|right].
    + pose proof (fields_intro true (pre ++ [DBUS_DICT_ENTRY_BEGIN_CHAR]) [k; v] post sd dd) as Hf.
      simpl in Hf. rewrite length_app, Hk, Hv, app_nil_r, <- !app_assoc in Hf. by apply Hf.
Qed.

Lemma validate_struct_safe reader ts p :
  points reader (TStruct ts) → fuel_for (length (print (TStruct ts))) p (S f) → (p < end_)%nat →
  safe (validate_struct body end_ helper reader p) (value_at (TStruct ts) p).
Proof.
  intros Hpt Hf Hp. unfold validate_struct. destruct (struct_points reader ts Hpt) as (sub_ & -> & Hsub).
  destruct (align_up_spec p 8 ltac:(alignment)) as [H8 _].
  destruct (end_ <? _)%nat eqn:Ee; [apply safe_reject|]. apply Nat.ltb_ge in Ee.
  eapply safe_bind; [apply skip_padding_safe; [by alignment|lia]|]. intros p1 [-> E1].
  apply safe_lift. eapply safe_conseq; [apply (IHfields sub_ ts _ Hsub); [|done]|].
  { unfold fuel_for in *. simpl in Hf. rewrite length_app in Hf. lia. }
  intros p' (Hp' & vs & Evs). split; [lia|]. intros _. exists (VStruct vs). rewrite enc_eq, Evs. simpl.
  f_equal. by rewrite (sub_join body p (align_up p 8) p'), E1 by lia.
Qed.

(** The memory behind a valid signature: its types and its nul. *)
Lemma signature_memory p n ts :
  sub body p n = print_sig ts → sub body (p + n) 1 = [x00] →
  ∃ q, drop p body = flat_map print ts ++ x00 :: q.
Proof.
  intros E1 E2. exists (drop (p + n + 1) body).
  rewrite <- (take_drop n (drop p body)) at 1. unfold sub in *. rewrite E1, drop_drop.
  rewrite <- (take_drop 1 (drop (p + n) body)), E2, drop_drop. done.
Qed.

Lemma contained_type_invalid ts q :
  sig_ok accepted_key ts = true →
  (_dbus_first_type_in_signature (flat_map print ts ++ x00 :: q) 0 =b DBUS_TYPE_INVALID) = false →
  ∃ t ts', ts = t :: ts'.
Proof. destruct ts as [|t ts']; [done|]. by exists t, ts'. Qed.

Lemma validate_variant_safe p :
  fuel_for 1 p (S f) → (p < end_)%nat →
  safe (validate_variant body end_ helper f p) (value_at (TLeaf "v") p).
Proof.
  intros Hf Hp. unfold validate_variant.
  eapply safe_bind; [apply byte_safe; lia|]. intros c Ec. set (n := Z.to_nat (b2z c)).
  destruct (_ <? n + 1)%nat eqn:En; [apply safe_reject|]. apply Nat.ltb_ge in En.
  eapply safe_bind; [apply signature_reason_safe; lia|]. intros v Hv.
  case_bool_decide as Hval; [case_bool_decide; apply safe_reject|].
  destruct (Hv Hval) as (ts & Hok & Ets & Hmax).
  eapply safe_bind; [apply byte_safe; lia|]. intros d Ed. cbv beta.
  destruct (negb (d =b DBUS_TYPE_INVALID)) eqn:Ez; [apply safe_reject|].
  apply negb_false_iff, byte_eqb_eq in Ez as ->.
  destruct (signature_memory (p + 1) n ts Ets Ed) as [q Eq].
  destruct (_ =b DBUS_TYPE_INVALID) eqn:Ect; [apply safe_reject|]. rewrite Eq in *.
  destruct (contained_type_invalid ts q Hok Ect) as (t & ts' & ->).
  pose proof Hok as Hok1. unfold sig_ok in Hok1. simpl in Hok1.
  apply andb_true_iff in Hok1 as [Hw Hws].
  assert (length (print t) <= n)%nat as Hlen.
  { pose proof (length_sub_in body (p + 1) n ltac:(lia)) as El. rewrite Ets in El.
    unfold print_sig in El. simpl in El. rewrite length_app in El. lia. }
  unfold DBUS_MAXIMUM_SIGNATURE_LENGTH in Hmax.
  assert (_dbus_first_type_in_signature (flat_map print (t :: ts') ++ x00 :: q) 0 = typecode t) as ->.
  { simpl. rewrite <- app_assoc. exact (first_type_print [] t _ _ _ _ _ Hw). }
  pose proof (valid_type_alignment _ (typecode_valid _ _ _ _ Hw)) as Hal.
  set (p2 := (p + 1 + n + 1)%nat). destruct (align_up_spec p2 _ Hal) as [Hap _].
  destruct (end_ <? _)%nat eqn:Ee; [apply safe_reject|]. apply Nat.ltb_ge in Ee.
  eapply safe_bind; [apply skip_padding_safe; [done|lia]|]. intros p3 [-> E3].
  set (p3 := align_up p2 (_dbus_type_get_alignment (typecode t))) in *.
  unfold fuel_for in Hf.
  assert (_dbus_type_reader_init_types_only (flat_map print (t :: ts') ++ x00 :: q) 0
    = types_at KBody false ([] ++ print t ++ flat_map print ts' ++ x00 :: q) (length (A:=byte) [])) as ->.
  { simpl. by rewrite <- app_assoc. }
  eapply safe_bind.
  { apply (IHvalue _ t); [by econstructor|unfold fuel_for; lia|lia]. }
  intros p4 (Hp4 & Hlt & Henc).
  rewrite (body_next [] t (flat_map print ts' ++ x00 :: q) f _ _ _ _ Hw); [|lia|].
  2: { destruct ts' as [|t2 ts']; [left; done|right]. simpl in Hws.
       apply andb_true_iff in Hws as [Hw2 _]. exists t2, (flat_map print ts' ++ x00 :: q).
       simpl. by rewrite <- app_assoc. }
  apply safe_lift. destruct ts' as [|t2 ts'].
  - simpl. apply safe_ret. split; [lia|]. intros _. destruct (Henc Hp4) as [v' Ev].
    exists (VVariant t v'). rewrite enc_eq. byte_tests.
    assert (enc_signature [t] = Some (sub body p (p + 1 + n + 1 - p))) as ->
      by (apply (signature_bytes p n c [t]); done || lia). simpl.
    rewrite length_sub_in by lia. replace (p + (p + 1 + n + 1 - p))%nat with p2 by lia.
    rewrite (enc_realign order v' t p2 _ Ev) by done. simpl. f_equal.
    rewrite (sub_join body p p2 p4), (sub_join body p2 p3 p4) by lia. by rewrite E3.
  - simpl. destruct (negb _) eqn:Em; [apply safe_reject|]. exfalso.
    simpl in Hws. apply andb_true_iff in Hws as [Hw2 _].
    destruct (print_head_open _ _ _ _ t2 (flat_map print ts' ++ x00 :: q) Hw2) as (_ & _ & E).
    rewrite <- app_assoc in Em. by rewrite E in Em.
Qed.

(** The typecode the reader shows, and the case of the switch it selects. *)
Lemma points_current reader t :
  points reader t →
  ∃ c, _dbus_type_reader_get_current_type reader = Some c ∧ (c =b DBUS_TYPE_INVALID) = false
    ∧ match t with
      | TLeaf c' => c = c' ∧ leaf c = true
      | TStruct _ => c = DBUS_TYPE_STRUCT ∨ c = DBUS_TYPE_DICT_ENTRY
      | _ => c = DBUS_TYPE_ARRAY
      end.
Proof.
  intros Hp. destruct Hp as [kd pre t post sd dd ar Hw|kd pre k v post sd dd Hk Hv].
  - exists (typecode t). split; [by eapply current_type_print|].
    split; [by apply (typecode_codes _ _ _ _ _ Hw)|]. destruct t; simpl in *; auto.
  - exists DBUS_TYPE_DICT_ENTRY. split; [|split; [done|by right]].
    unfold _dbus_type_reader_get_current_type, check_finished. simpl. rewrite andb_false_r. simpl.
    by rewrite first_type_at.
Qed.

Lemma validate_value_safe reader t c p :
  points reader t → _dbus_type_reader_get_current_type reader = Some c →
  fuel_for (length (print t)) p (S f) → (p < end_)%nat →
  safe (validate_value body order end_ helper f reader c p) (value_at t p).
Proof.
  intros Hpt Hc Hf Hp. destruct (points_current reader t Hpt) as (c' & Hc' & _ & Hcase).
  rewrite Hc in Hc'. injection Hc' as <-. unfold validate_value.
  destruct t as [c'|t1|ts|k v].
  - destruct Hcase as [-> Hleaf]. destruct (kind_of c') as [[]|] eqn:Ek.
    + assert (c' = "y"%byte) as -> by (by destruct c'). apply safe_ret. split; [lia|]. intros _.
      replace (p + 1 - p)%nat with 1%nat by lia.
      pose proof (length_sub_in body p 1 ltac:(lia)) as Hl. destruct (sub body p 1) as [|b [|]] eqn:Eb; try done.
      exists (VBasic (Byt b)). rewrite enc_eq. simpl. unfold wire. by rewrite padding_1.
    + apply validate_fixed_safe; [by rewrite Ek|done].
    + apply validate_fixed_safe; [by rewrite Ek|done].
    + apply validate_fixed_safe; [by rewrite Ek|done].
    + apply validate_fixed_safe; [by rewrite Ek|done].
    + by apply validate_string_safe.
    + assert (c' = "g"%byte) as -> by (by destruct c'). by apply validate_signature_value_safe.
    + assert (c' = "v"%byte) as -> by (by destruct c'). byte_tests. by apply validate_variant_safe.
  - subst c. apply validate_array_safe; eauto.
  - destruct Hcase as [-> | ->]; simpl; byte_tests; by apply validate_struct_safe.
  - subst c. apply validate_array_safe; eauto.
Qed.

(** One turn of the loop. *)
Lemma turn_safe reader t walk p :
  points reader t → fuel_for (length (print t)) p (S f) → (p <= end_)%nat →
  ∀ R : nat → Prop,
  (∀ p', (p < p' <= end_)%nat → (∃ v, enc order v t p = Some (sub body p (p' - p))) →
     safe (if (walk : bool) then '(_, reader) ← lift (_dbus_type_reader_next f reader);
             validate_body_helper body order end_ f reader true p' else mret p') R) →
  safe (validate_body_helper body order end_ (S f) reader walk p) R.
Proof.
  intros Hpt Hf Hp R Hk. destruct (points_current reader t Hpt) as (c & Hc & Hinv & _).
  simpl. rewrite Hc. apply safe_lift. rewrite Hinv.
  destruct (p =? end_)%nat eqn:Ep; [apply safe_reject|]. apply Nat.eqb_neq in Ep.
  eapply safe_bind; [apply (validate_value_safe reader t c p); try done; lia|].
  intros p' [Hlt Hv]. destruct (end_ <? p')%nat eqn:Ee; [apply safe_reject|].
  apply Nat.ltb_ge in Ee. apply Hk; [lia|auto].
Qed.

End values.

(** The three readers the helper is called with. *)
Lemma helper_safe f :
  (∀ reader t p, points reader t → fuel_for (length (print t)) p f → (p <= end_)%nat →
     safe (validate_body_helper body order end_ f reader false p)
       (λ p', (p' <= end_)%nat ∧ value_at t p p'))
  ∧ (∀ reader ts p, fields_at reader ts → fuel_for (length (flat_map print ts)) p f → (p <= end_)%nat →
       safe (validate_body_helper body order end_ f reader true p)
         (λ p', (p < p' <= end_)%nat ∧ ∃ vs, enc_fields order vs ts p = Some (sub body p (p' - p)))).
Proof.
  induction f as [|f [IHv IHf]]; [by split; intros; unfold fuel_for in *; lia|]. split.
  - intros reader t p Hpt Hf Hp. apply (turn_safe f IHv IHf reader t); try done.
    intros p' Hp' Hv. apply safe_ret. split; [lia|]. split; [lia|done].
  - intros reader ts p Hfa Hf Hp. destruct Hfa as [b pre ts post sd dd Hws Hne].
    destruct ts as [|t ts]; [done|]. simpl in Hws. apply andb_true_iff in Hws as [Hw Hws].
    simpl flat_map in *. rewrite <- app_assoc. unfold fuel_for in Hf. rewrite length_app in Hf.
    eapply (turn_safe f IHv IHf _ t); [by econstructor|unfold fuel_for; lia|done|].
    intros p' Hp' [v Ev]. set (post' := flat_map print ts ++ close_of b :: post).
    destruct f as [|f]; [lia|]. rewrite reader_next_S.
    rewrite (current_type_print _ _ _ _ _ _ _ _ Hw). cbn [mbind option_bind].
    destruct (typecode_codes _ _ _ _ _ Hw) as (-> & _).
    rewrite (fields_next b pre t post' f _ _ _ _ (base_next_print t) Hw) by lia.
    destruct ts as [|t2 ts].
    + change (byte_at post' 0) with (close_of b). rewrite byte_eqb_refl. cbn [mbind option_bind].
      rewrite current_type_finished. cbn [mbind option_bind]. apply safe_lift. simpl.
      apply safe_lift. byte_tests. apply safe_ret. split; [lia|]. exists [v]. simpl.
      rewrite Ev. simpl. by rewrite app_nil_r.
    + pose proof Hws as Hws'. simpl in Hws'. apply andb_true_iff in Hws' as [Hw2 Hws2].
      destruct (print_head_open _ _ _ _ t2 (flat_map print ts ++ close_of b :: post) Hw2) as (H1 & H2 & H3).
      assert (post' = print t2 ++ flat_map print ts ++ close_of b :: post) as Epost.
      { unfold post'. simpl. by rewrite <- app_assoc. }
      rewrite Epost. assert (byte_at (print t2 ++ flat_map print ts ++ close_of b :: post) 0 =b close_of b = false)
        as -> by (by destruct b).
      rewrite <- Epost. cbn [mbind option_bind].
      pose proof (fields_intro b (pre ++ print t) (t2 :: ts) post sd dd Hws ltac:(done)) as Hfa.
      pose proof (current_type_print (kind_of_fields b) (pre ++ print t) t2
        (flat_map print ts ++ close_of b :: post) _ _ _ _ Hw2) as Ec.
      rewrite <- Epost in Ec. fold post' in Hfa. rewrite length_app, <- app_assoc in Ec, Hfa.
      rewrite Ec. cbn [mbind option_bind]. apply safe_lift.
      eapply safe_conseq; [apply (IHf _ (t2 :: ts) p' Hfa); [unfold fuel_for; lia|lia]|].
      intros p2 (Hp2 & vs & Evs). split; [lia|]. exists (v :: vs). cbn [enc_fields].
      rewrite Ev. cbn [mbind option_bind]. rewrite length_sub_in by lia.
      replace (p + (p' - p))%nat with p' by lia. rewrite Evs. cbn [mbind option_bind]. f_equal.
      by rewrite (sub_join body p p' p2) by lia.
Qed.

End soundness.

(** The walk over the top-level types. *)
Lemma body_walk_safe `{Host} body order end_ ts :
  (end_ + 8 <= length body)%nat →
  (∀ p n m m', (p + n < end_)%nat → _dbus_validate_signature_with_reason (drop p body) 0 n m = (DBUS_VALID, m') →
     well_bracketed [] (sub body p n) = true) →
  ∀ pre post p f,
  sig_ok accepted_key ts = true → byte_at post 0 = x00 →
  fuel_for end_ (length (print_sig ts)) p f → (p <= end_)%nat →
  safe (validate_body_helper body order end_ f
          (types_at KBody false (pre ++ print_sig ts ++ post) (length pre)) true p)
    (λ p', (p <= p' <= end_)%nat ∧ ∃ vs, enc_fields order vs ts p = Some (sub body p (p' - p))).
Proof.
  intros Hblock Hnest. unfold print_sig, sig_ok.
  induction ts as [|t ts IH]; intros pre post p f Hok Hpost Hf Hp; unfold fuel_for in Hf;
    (destruct f as [|f]; [lia|]).
  { simpl. unfold _dbus_type_reader_get_current_type, check_finished, _dbus_first_type_in_signature. simpl.
    rewrite <- (Nat.add_0_r (length pre)), byte_at_app, Hpost. apply safe_lift. byte_tests.
    apply safe_ret. split; [lia|]. exists []. simpl. by rewrite Nat.sub_diag. }
  simpl in Hok. apply andb_true_iff in Hok as [Hw Hok].
  destruct (helper_safe body order end_ Hblock Hnest f) as [IHv IHf].
  simpl flat_map in *. rewrite <- app_assoc. rewrite length_app in Hf. pose proof (print_length t).
  eapply (turn_safe body order end_ Hblock Hnest f IHv IHf _ t); [by econstructor|unfold fuel_for; lia|done|].
  intros p' Hp' [v Ev].
  rewrite (body_next pre t (flat_map print ts ++ post) f _ _ _ _ Hw); [|lia|].
  - apply safe_lift. rewrite <- length_app. rewrite (app_assoc pre).
    eapply safe_conseq; [apply IH; [done|done|unfold fuel_for; lia|lia]|].
    intros p2 (Hp2 & vs & Evs). split; [lia|]. exists (v :: vs). simpl. rewrite Ev. simpl.
    rewrite length_sub_in by lia. replace (p + (p' - p))%nat with p' by lia. rewrite Evs. simpl. f_equal.
    by rewrite (sub_join body p p' p2) by lia.
  - destruct ts as [|t2 ts]; [left; simpl; rewrite Hpost; done|right]. simpl in Hok.
    apply andb_true_iff in Hok as [Hw2 _]. exists t2, (flat_map print ts ++ post). simpl.
    by rewrite <- app_assoc.
Qed.

(** ** Completeness *)

(** Induction on values. *)
Section val_induction.
Context (P : val → Prop).
Hypothesis H_basic : ∀ b, P (VBasic b).
Hypothesis H_signature : ∀ ts, P (VSignature ts).
Hypothesis H_variant : ∀ t v, P v → P (VVariant t v).
Hypothesis H_array : ∀ vs, Forall P vs → P (VArray vs).
Hypothesis H_raw : ∀ bs, P (VRaw bs).
Hypothesis H_struct : ∀ vs, Forall P vs → P (VStruct vs).

Fixpoint val_ind' (v : val) : P v :=
  let fix go vs : Forall P vs :=
    match vs with
    | [] => List.Forall_nil P
    | v :: vs' => List.Forall_cons P v vs' (val_ind' v) (go vs')
    end in
  match v with
  | VBasic b => H_basic b
  | VSignature ts => H_signature ts
  | VVariant t v' => H_variant t v' (val_ind' v')
  | VArray vs => H_array vs (go vs)
  | VRaw bs => H_raw bs
  | VStruct vs => H_struct vs (go vs)
  end.
End val_induction.

(** ** Encodings depend on the position modulo 8 *)

Lemma align_shift k p a : is_alignment a → align_up (8 * k + p) a = (8 * k + align_up p a)%nat.
Proof.
  unfold is_alignment. rewrite !elem_of_cons, elem_of_nil. intros Ha.
  assert (∃ j i, 0 <= j ∧ 0 <= i ∧ Z.of_nat a = 2 ^ j ∧ 8 = 2 ^ i * 2 ^ j) as (j & i & Hj & Hi & Ea & E8).
  { destruct Ha as [-> | [-> | [-> | [-> | []]]]]; [exists 0, 3|exists 1, 2|exists 2, 1|exists 3, 0]; by repeat split. }
  unfold align_up. rewrite Ea, !align_value_mul by done.
  assert (0 < 2 ^ j) as H2 by (by apply Z.pow_pos_nonneg).
  replace (Z.of_nat (8 * k + p) + (2 ^ j - 1)) with (2 ^ i * Z.of_nat k * 2 ^ j + (Z.of_nat p + (2 ^ j - 1))) by nia.
  rewrite Z.div_add_l by lia. pose proof (Z.div_pos (Z.of_nat p + (2 ^ j - 1)) (2 ^ j)) as Hd.
  set (q := (Z.of_nat p + (2 ^ j - 1)) / 2 ^ j) in *. nia.
Qed.

Lemma align_up_0 n : align_up n 0 = 0%nat.
Proof. unfold align_up, _DBUS_ALIGN_VALUE. simpl. by rewrite Z.land_0_r. Qed.

Lemma padding_shift k p a : is_alignment a ∨ a = 0%nat → padding (8 * k + p) a = padding p a.
Proof.
  unfold padding. intros [Ha | ->]; [rewrite align_shift by done; f_equal; lia|].
  by rewrite !align_up_0, !Nat.sub_0_l.
Qed.

Lemma typecode_alignment_cases t : is_alignment (typecode_alignment t) ∨ typecode_alignment t = 0%nat.
Proof.
  unfold typecode_alignment, _dbus_type_get_alignment. destruct (typecode t); auto; left; alignment.
Qed.

Lemma enc_array_shift o k p a els :
  is_alignment a ∨ a = 0%nat → (∀ q, els (8 * k + q)%nat = els q) → enc_array o (8 * k + p) a els = enc_array o p a els.
Proof.
  intros Ha Hels. unfold enc_array. rewrite align_shift by alignment. rewrite padding_shift by (left; alignment).
  rewrite <-Nat.add_assoc, padding_shift by done. destruct Ha as [Ha | ->].
  - by rewrite align_shift, Hels by done.
  - by rewrite !align_up_0.
Qed.

Section shifts.
Context (o : byte_order) (k : nat).

Lemma elements_shift vs : ∀ t p,
  Forall (λ v, ∀ t k p, enc o v t (8 * k + p) = enc o v t p) vs → enc_elements o t vs (8 * k + p) = enc_elements o t vs p.
Proof.
  induction vs as [|v vs IH]; intros t p Hvs; [done|]. inversion_clear Hvs as [|? ? Hv Hvs']. cbn [enc_elements].
  rewrite Hv. destruct (enc o v t p) as [b|]; [|done]. cbn [mbind option_bind]. by rewrite <-Nat.add_assoc, IH.
Qed.

Lemma fields_shift vs : ∀ ts p,
  Forall (λ v, ∀ t k p, enc o v t (8 * k + p) = enc o v t p) vs → enc_fields o vs ts (8 * k + p) = enc_fields o vs ts p.
Proof.
  induction vs as [|v vs IH]; intros [|t ts] p Hvs; try done. inversion_clear Hvs as [|? ? Hv Hvs']. cbn [enc_fields].
  rewrite Hv. destruct (enc o v t p) as [b|]; [|done]. cbn [mbind option_bind]. by rewrite <-Nat.add_assoc, IH.
Qed.
End shifts.

Lemma enc_shift o v : ∀ t k p, enc o v t (8 * k + p) = enc o v t p.
Proof.
  induction v as [b|ts|t' v IH|vs IH|bs|vs IH] using val_ind'; intros t k p; rewrite !enc_eq; (destruct t as [c|t1|ts1|k1 v1]; try done).
  - destruct (basic_ok c b) eqn:Eb; [|done]. unfold wire. by rewrite padding_shift by apply (typecode_alignment_cases (TLeaf c)).
  - destruct (c =b "v"); [|done]. destruct (enc_signature [t']) as [s|]; [|done]. cbn [mbind option_bind].
    by rewrite <-Nat.add_assoc, IH.
  - destruct (raw_element t1); [done|]. apply enc_array_shift; [apply typecode_alignment_cases|]. intros q.
    by apply elements_shift.
  - apply enc_array_shift; [left; alignment|]. intros q. by apply elements_shift.
  - destruct (raw_element t1); [|done]. by apply enc_array_shift; [apply typecode_alignment_cases|].
  - rewrite align_shift by alignment. rewrite padding_shift by (left; alignment). by rewrite fields_shift.
Qed.

Lemma enc_fields_shift o vs ts k p : enc_fields o vs ts (8 * k + p) = enc_fields o vs ts p.
Proof. apply fields_shift. apply list.Forall_forall. intros v _. apply enc_shift. Qed.

(** [c] goes on with [a], or memory ran out. *)
Definition acc {A} (c : V A) (a : A) : Prop :=
  ∀ m, (∃ m', c m = Some (inr a, m') ∧ (may_fail m' → may_fail m))
       ∨ (∃ m', c m = Some (inl DBUS_VALIDITY_UNKNOWN_OOM_ERROR, m') ∧ may_fail m).

Lemma acc_ret {A} (a : A) : acc (mret a) a.
Proof. intros m. left. by exists m. Qed.

Lemma acc_bind {A B} (c : V A) a (k : A → V B) b : acc c a → acc (k a) b → acc (c ≫= k) b.
Proof.
  intros Hc Hk m. unfold mbind, V_bind. destruct (Hc m) as [(m1 & -> & H1)|(m1 & -> & H1)].
  - destruct (Hk m1) as [(m2 & -> & H2)|(m2 & -> & H2)]; [left|right]; exists m2; auto.
  - right. by exists m1.
Qed.

Lemma acc_lift {A B} (a : A) (k : A → V B) b : acc (k a) b → acc (lift (Some a) ≫= k) b.
Proof. done. Qed.

Section completeness.
Context `{Host}.
Context (body : bytes) (order : byte_order) (end_ : nat).
Hypothesis Hblock : (end_ + 8 <= length body)%nat.

(** The bytes [bs] are found at [p]. *)
Definition holds (p : nat) (bs : bytes) : Prop :=
  sub body p (length bs) = bs ∧ (p + length bs <= end_)%nat.

Lemma holds_app p a b : holds p (a ++ b) → holds p a ∧ holds (p + length a) b.
Proof.
  unfold holds. rewrite length_app, sub_add. intros [E Hle].
  assert (length (sub body p (length a)) = length a) as Hl by (apply length_sub; lia).
  apply app_inj_1 in E as [E1 E2]; [|done]. repeat split; (done || lia).
Qed.

Lemma read_holds p bs n : holds p bs → n = length bs → mem_read body p n = Some bs.
Proof. intros [E Hle] ->. rewrite (mem_read_in body) by lia. by rewrite E. Qed.

Lemma skip_padding_acc p al :
  is_alignment al → holds p (padding p al) →
  acc (skip_padding body p (align_up p al)) (align_up p al).
Proof.
  intros Ha Hh. unfold skip_padding. rewrite (read_holds p (padding p al)) by (done || by rewrite length_padding).
  apply acc_lift. assert (forallb (λ c, c =b x00) (padding p al) = true) as ->; [|apply acc_ret].
  unfold padding. by induction (align_up p al - p)%nat.
Qed.

Lemma unpack_acc p z :
  aligned p 4 = true → 0 <= z < 2 ^ 32 → holds p (octets order 4 z) → acc (unpack_at body order p) z.
Proof.
  intros Ha Hz Hh. unfold unpack_at. rewrite Ha. apply acc_lift. rewrite (read_holds p (octets order 4 z)) by (done || by rewrite length_octets).
  apply acc_lift. rewrite unpack_32_ok by apply length_octets.
  rewrite of_octets_octets, Z.mod_small by done. apply acc_ret.
Qed.

Lemma byte_acc p c : holds p [c] → acc (byte_of_body body p) c.
Proof. intros Hh. unfold byte_of_body. rewrite (read_holds p [c]) by done. apply acc_lift, acc_ret. Qed.

Lemma check_boolean_acc p z :
  aligned p 4 = true → z = 0 ∨ z = 1 → holds p (octets order 4 z) → acc (check_boolean body order p) tt.
Proof.
  intros Ha Hz Hh. eapply acc_bind; [apply (unpack_acc p z); [done|lia|done]|].
  assert ((z =? 0) || (z =? 1) = true) as -> by lia. apply acc_ret.
Qed.

Lemma validate_fixed_acc c b p :
  match kind_of c with Some (K16 | KBool | K32 | K64) => True | _ => False end →
  basic_ok c b = true → holds p (wire order p c b) →
  acc (validate_fixed body order end_ c p) (p + length (wire order p c b))%nat.
Proof.
  intros Hk Hok Hh. unfold validate_fixed. pose proof (type_alignment_kind c) as Ha.
  assert (is_alignment (_dbus_type_get_alignment c)) as Hal.
  { destruct (kind_of c) as [[]|]; try done; rewrite Ha; by alignment. }
  assert (length (wire_body order c b) = _dbus_type_get_alignment c) as Hlen.
  { unfold wire_body, basic_ok in *. destruct (kind_of c) as [[]|]; try done; rewrite Ha;
      destruct b; try done; apply length_octets. }
  assert (0 < _dbus_type_get_alignment c)%nat by (destruct (kind_of c) as [[]|]; try done; lia).
  unfold wire in *. apply holds_app in Hh as [Hpad Hbody]. pose proof Hbody as [_ Hle].
  rewrite Hlen in Hle. rewrite (proj2 (Nat.leb_gt _ _)) by (rewrite (align_up_pad _ _ Hal); lia).
  eapply acc_bind; [by apply skip_padding_acc|]. rewrite <- (align_up_pad _ _ Hal) in Hbody.
  eapply (acc_bind _ tt).
  - destruct (c =b "b"%byte) eqn:Ec; [|apply acc_ret]. apply byte_eqb_eq in Ec as ->.
    unfold basic_ok, wire_body in *. simpl in *. destruct b as [| |z| |]; try done.
    apply (check_boolean_acc _ (if z =? 0 then 0 else 1)); [|destruct (z =? 0); auto|done].
    apply (aligned_up p 4). by alignment.
  - rewrite length_app, Hlen, (align_up_pad _ _ Hal), Nat.add_assoc. apply acc_ret.
Qed.

Lemma validate_length_acc p z :
  0 <= z < 2 ^ 32 → holds p (padding p 4 ++ octets order 4 z) →
  acc (validate_length body order end_ p) (z, align_up p 4 + 4)%nat.
Proof.
  intros Hz Hh. apply holds_app in Hh as [Hpad Ho]. unfold validate_length. pose proof Ho as [_ Hle].
  rewrite length_octets in Hle. rewrite <- align_up_pad in * by alignment.
  rewrite (proj2 (Nat.ltb_ge _ _)) by lia.
  eapply acc_bind; [apply skip_padding_acc; [by alignment|done]|].
  eapply acc_bind; [apply (unpack_acc _ z); [apply aligned_up; by alignment|done|done]|]. apply acc_ret.
Qed.

Lemma validate_string_acc c s p :
  kind_of c = Some KString → basic_ok c (Str s) = true → holds p (wire order p c (Str s)) →
  acc (validate_string body order end_ c p) (p + length (wire order p c (Str s)))%nat.
Proof.
  intros Hk Hok Hh. unfold validate_string, wire, wire_body, basic_ok in *. rewrite Hk in *.
  pose proof (type_alignment_kind c) as Ha. rewrite Hk in Ha. rewrite Ha in *.
  apply andb_true_iff in Hok as [Hlen Hok]. apply Z.ltb_lt in Hlen.
  rewrite app_assoc in Hh. apply holds_app in Hh as [H1 H2]. apply holds_app in H2 as [Hs Hnul].
  assert (p + length (padding p 4 ++ octets order 4 (Z.of_nat (length s))) = align_up p 4 + 4)%nat as Ep.
  { rewrite length_app, length_octets, (align_up_pad _ 4) by alignment. lia. }
  rewrite Ep in *. set (p1 := (align_up p 4 + 4)%nat) in *. pose proof Hnul as [_ Hle]. simpl in Hle.
  eapply acc_bind; [apply (validate_length_acc p (Z.of_nat (length s))); [lia|done]|]. cbv beta iota.
  fold p1. rewrite (proj2 (Z.ltb_ge _ _)) by lia. rewrite Nat2Z.id. destruct Hs as [Es _]. rewrite Es.
  eapply (acc_bind _ tt).
  { destruct (c =b "o"%byte); rewrite Hok; apply acc_ret. }
  rewrite (proj2 (Nat.eqb_neq _ _)) by lia.
  eapply acc_bind; [by apply (byte_acc _ x00)|]. simpl.
  rewrite app_assoc, length_app, (length_app s). simpl. rewrite Nat.add_assoc, Ep, Nat.add_assoc.
  fold p1. apply acc_ret.
Qed.

(** The memory from [p] on, when [bs] is found there. *)
Lemma drop_holds p bs : holds p bs → drop p body = bs ++ drop (p + length bs) body.
Proof.
  intros [E _]. rewrite <- drop_drop. unfold sub in E.
  rewrite <- (take_drop (length bs) (drop p body)) at 1. by rewrite E.
Qed.

(** A signature of the grammar at [p] is found valid, or memory runs out. *)
Lemma signature_reason_acc {A} p ts (k : DBusValidity → V A) a :
  sig_ok accepted_key ts = true → (length (print_sig ts) <= DBUS_MAXIMUM_SIGNATURE_LENGTH)%nat →
  holds p (print_sig ts) → acc (k DBUS_VALID) a →
  k DBUS_VALIDITY_UNKNOWN_OOM_ERROR = reject DBUS_VALIDITY_UNKNOWN_OOM_ERROR →
  acc (signature_reason body p (length (print_sig ts)) ≫= k) a.
Proof.
  intros Hok Hlen Hh Hk Hoom m. unfold mbind, V_bind, signature_reason. rewrite (drop_holds _ _ Hh).
  pose proof (validate_accepts accepted_key [] (drop (p + length (print_sig ts)) body) ts m
    ltac:(done) Hok Hlen) as Hacc. simpl in Hacc.
  destruct (_dbus_validate_signature_with_reason _ 0 _ m) as [v m']. simpl in Hacc.
  destruct Hacc as [[->|[-> Hm]] Hmono].
  - destruct (Hk m') as [(m2 & -> & H2)|(m2 & -> & H2)]; [left|right]; exists m2; auto.
  - right. exists m'. by rewrite Hoom.
Qed.

(** The parts of an encoded signature. *)
Lemma enc_signature_holds p ts s :
  enc_signature ts = Some s → holds p s →
  let n := length (print_sig ts) in
  sig_ok accepted_key ts = true ∧ (n <= DBUS_MAXIMUM_SIGNATURE_LENGTH)%nat
  ∧ length s = (n + 2)%nat ∧ Z.to_nat (b2z (byte_at s 0)) = n
  ∧ holds p [byte_at s 0] ∧ holds (p + 1) (print_sig ts) ∧ holds (p + 1 + n) [x00].
Proof.
  unfold enc_signature. destruct (_ && _) eqn:E; [|done]. intros [= <-] Hh.
  apply andb_true_iff in E as [Hok Hlen]. apply Nat.leb_le in Hlen. cbv zeta.
  set (c := z2b (Z.of_nat (length (print_sig ts)))) in *.
  change (c :: print_sig ts ++ [x00]) with ([c] ++ print_sig ts ++ [x00]) in Hh.
  apply holds_app in Hh as [H1 H2]. apply holds_app in H2 as [H2 H3]. simpl length in *.
  split; [done|]. split; [done|]. split; [simpl; rewrite length_app; simpl; lia|].
  split; [|done]. change (byte_at (c :: print_sig ts ++ [x00]) 0) with c. unfold c.
  rewrite b2z_z2b, Z.mod_small; unfold DBUS_MAXIMUM_SIGNATURE_LENGTH in *; lia.
Qed.

Lemma validate_signature_value_acc ts s p :
  enc_signature ts = Some s → holds p s →
  acc (validate_signature_value body end_ p) (p + length s)%nat.
Proof.
  intros Es Hh. destruct (enc_signature_holds p ts s Es Hh) as (Hok & Hlen & Hl & Hc & H1 & H2 & H3).
  unfold validate_signature_value. eapply acc_bind; [by apply byte_acc|]. rewrite Hc.
  pose proof H3 as [_ Hle]. simpl in Hle. rewrite (proj2 (Nat.ltb_ge _ _)) by lia.
  apply signature_reason_acc; try done. rewrite bool_decide_eq_false_2 by (by intros []).
  eapply acc_bind; [by apply byte_acc|]. simpl. rewrite Hl.
  replace (p + (length (print_sig ts) + 2))%nat with (p + 1 + length (print_sig ts) + 1)%nat by lia.
  apply acc_ret.
Qed.

(** ** Containers *)

(** The claim of the induction. *)
Definition value_acc (v : val) : Prop := ∀ t bs p f reader,
  enc order v t p = Some bs → holds p bs → points reader t →
  fuel_for end_ (length (print t)) p f →
  acc (validate_body_helper body order end_ f reader false p) (p + length bs)%nat.

(** Encodings are not empty. *)
Lemma enc_array_nonempty p n els bs : enc_array order p n els = Some bs → (1 <= length bs)%nat.
Proof.
  clear Hblock.
  unfold enc_array. destruct (els _); simpl; [|done]. destruct (_ <? _); [done|]. intros [= <-].
  rewrite !length_app, length_octets. lia.
Qed.

Lemma enc_fields_nonempty vs ts p bs :
  enc_fields order vs ts p = Some bs → ts ≠ [] →
  (∀ v t, head vs = Some v → head ts = Some t → ∀ b, enc order v t p = Some b → (1 <= length b)%nat) →
  (1 <= length bs)%nat.
Proof.
  clear Hblock.
  intros E Hne Hfirst. destruct ts as [|t ts], vs as [|v vs]; try done. simpl in E.
  destruct (enc order v t p) as [b|] eqn:Eb; [|done]. simpl in E.
  destruct (enc_fields _ vs ts _) as [r|]; [|done]. injection E as <-.
  specialize (Hfirst v t eq_refl eq_refl b Eb). rewrite length_app. lia.
Qed.

Lemma enc_nonempty v : ∀ t p bs sd dd ar,
  within accepted_key sd dd ar t = true → enc order v t p = Some bs → (1 <= length bs)%nat.
Proof.
  clear Hblock.
  induction v as [b|ts|t' v IH|vs IH|bs'|vs IH] using val_ind'; intros t p bs sd dd ar Hw; rewrite enc_eq.
  - destruct t as [c| | |]; try done. destruct (basic_ok c b) eqn:Ok; [|done]. intros [= <-].
    unfold wire, wire_body, basic_ok in *. rewrite length_app.
    destruct (kind_of c) as [[]|]; try done; destruct b; try done; rewrite ?length_app, ?length_octets; simpl; lia.
  - destruct t as [c| | |]; try done. destruct (_ =b _); [|done]. unfold enc_signature.
    destruct (_ && _); [|done]. intros [= <-]. simpl. lia.
  - destruct t as [c| | |]; try done. destruct (_ =b _); [|done].
    destruct (enc_signature [t']) as [s|] eqn:Es; [|done]. simpl.
    destruct (enc order v t' _); [|done]. intros [= <-]. unfold enc_signature in Es.
    destruct (_ && _); [|done]. injection Es as <-. simpl. lia.
  - destruct t as [|t1| |]; try done; [destruct (raw_element t1); [done|]|]; apply enc_array_nonempty.
  - destruct t as [|t1| |]; try done. destruct (raw_element t1); [|done]. apply enc_array_nonempty.
  - destruct t as [| |ts|]; try done. simpl in Hw. apply andb_true_iff in Hw as [[_ Hne]%andb_true_iff Hws].
    destruct (enc_fields _ _ _ _) as [b|] eqn:Eb; [|done]. intros [= <-]. rewrite length_app.
    assert (1 <= length b)%nat; [|lia]. apply (enc_fields_nonempty _ _ _ _ Eb); [by intros ->|].
    intros v t Hv Ht b' Eb'. destruct vs as [|v' vs], ts as [|t' ts]; try done.
    injection Hv as ->. injection Ht as ->. inversion_clear IH as [|? ? Hv' _].
    simpl in Hws. apply andb_true_iff in Hws as [Hw _]. by eapply Hv'.
Qed.

Lemma points_nonempty reader t v p bs :
  points reader t → enc order v t p = Some bs → (1 <= length bs)%nat.
Proof.
  clear Hblock.
  intros Hp E. destruct Hp as [kd pre t post sd dd ar Hw|kd pre k v' post sd dd Hk Hv].
  - by eapply enc_nonempty.
  - rewrite enc_eq in E. destruct v as [| | | | |vs]; try done.
    destruct (enc_fields _ _ _ _) as [b|] eqn:Eb; [|done]. injection E as <-. rewrite length_app.
    assert (1 <= length b)%nat; [|lia]. apply (enc_fields_nonempty _ _ _ _ Eb); [done|].
    intros v t Hv' Ht b' Eb'. injection Ht as <-. exact (enc_nonempty v k _ b' sd dd 0 Hk Eb').
Qed.

Section containers.
Context (f : nat).
Let helper := validate_body_helper body order end_ f.

Lemma element_loop_acc sub_ t vs : ∀ bs n p p0,
  Forall value_acc vs → points sub_ t → enc_elements order t vs p = Some bs → holds p bs →
  fuel_for end_ (length (print t)) p0 f → (p0 <= p)%nat → (length bs <= n)%nat →
  acc (element_loop (λ p, helper sub_ false p) n p (p + length bs)) (p + length bs)%nat.
Proof.
  induction vs as [|v vs IH]; intros bs n p p0 Hvs Hpt E Hh Hf Hp Hn.
  - injection E as <-. rewrite Nat.add_0_r. destruct n; simpl; rewrite Nat.ltb_irrefl; apply acc_ret.
  - simpl in E. destruct (enc order v t p) as [b|] eqn:Eb; [|done]. simpl in E.
    destruct (enc_elements order t vs _) as [r|] eqn:Er; [|done]. injection E as <-.
    pose proof (points_nonempty _ _ _ _ _ Hpt Eb) as Hb. rewrite length_app in *.
    inversion_clear Hvs as [|? ? Hv Hvs']. apply holds_app in Hh as [H1 H2].
    destruct n as [|n]; [lia|]. simpl. rewrite (proj2 (Nat.ltb_lt _ _)) by lia. simpl.
    eapply acc_bind; [apply (Hv t b p f sub_ Eb H1 Hpt); unfold fuel_for in *; lia|].
    rewrite Nat.add_assoc. apply (IH r n (p + length b)%nat p0); try done; lia.
Qed.

Lemma boolean_loop_acc vs : ∀ bs n p,
  enc_elements order (TLeaf "b") vs p = Some bs → holds p bs → (p mod 4 = 0)%nat → (length bs <= n)%nat →
  acc (boolean_loop body order n p (p + length bs)) (p + length bs)%nat.
Proof.
  induction vs as [|v vs IH]; intros bs n p E Hh Hp Hn.
  - injection E as <-. rewrite Nat.add_0_r. destruct n; simpl; rewrite Nat.ltb_irrefl; apply acc_ret.
  - cbn [enc_elements] in E. rewrite enc_eq in E. destruct v as [b| | | | |]; try done.
    destruct (basic_ok "b" b) eqn:Ok; [|done]. cbn [mbind option_bind] in E.
    destruct (enc_elements order _ vs _) as [r|] eqn:Er; [|done]. injection E as <-.
    unfold basic_ok in Ok. simpl in Ok. destruct b as [| |z| |]; try done.
    assert (wire order p "b" (U32 z) = octets order 4 (if z =? 0 then 0 else 1)) as Ew.
    { unfold wire, padding. simpl. by rewrite (align_up_aligned p 4 ltac:(alignment) Hp), Nat.sub_diag. }
    rewrite Ew in *. rewrite length_app, length_octets in *. apply holds_app in Hh as [H1 H2].
    rewrite length_octets in H2. destruct n as [|n]; [lia|]. simpl.
    rewrite (proj2 (Nat.ltb_lt _ _)) by lia. simpl.
    eapply (acc_bind _ tt).
    { apply (check_boolean_acc _ (if z =? 0 then 0 else 1)); [|destruct (z =? 0); auto|done].
      apply aligned_mod; [by alignment|done]. }
    replace (p + S (S (S (S (length r)))))%nat with (p + 4 + length r)%nat by lia.
    apply IH; try done; [|lia]. by rewrite Nat.add_mod, Hp by lia.
Qed.

End containers.

(** The same for the switch alone. *)
Definition value_turn (v : val) : Prop := ∀ t bs p f reader c,
  enc order v t p = Some bs → holds p bs → points reader t →
  _dbus_type_reader_get_current_type reader = Some c → fuel_for end_ (length (print t)) p (S f) →
  acc (validate_value body order end_ (validate_body_helper body order end_ f) f reader c p)
    (p + length bs)%nat.

(** One turn of the loop. *)
Lemma turn_acc v t bs p f reader (walk : bool) R :
  value_turn v → enc order v t p = Some bs → holds p bs → points reader t →
  fuel_for end_ (length (print t)) p (S f) →
  acc (if walk then '(_, reader) ← lift (_dbus_type_reader_next f reader);
         validate_body_helper body order end_ f reader true (p + length bs)%nat
       else mret (p + length bs)%nat) R →
  acc (validate_body_helper body order end_ (S f) reader walk p) R.
Proof.
  intros Hv E Hh Hpt Hf Hk. destruct (points_current reader t Hpt) as (c & Hc & Hinv & _).
  pose proof (points_nonempty _ _ _ _ _ Hpt E) as Hne. destruct Hh as [Hs Hle].
  simpl. rewrite Hc. apply acc_lift. rewrite Hinv. rewrite (proj2 (Nat.eqb_neq _ _)) by lia.
  eapply acc_bind; [by apply (Hv t bs p f reader c)|].
  by rewrite (proj2 (Nat.ltb_ge _ _)) by lia.
Qed.

Lemma value_acc_turn v : value_turn v → value_acc v.
Proof.
  intros Hv t bs p f reader E Hh Hpt Hf. destruct f as [|f]; [unfold fuel_for in Hf; lia|].
  eapply turn_acc; [done|exact E|done|done|done|]. apply acc_ret.
Qed.

(** The walk over the fields of a struct or dict entry. *)
Lemma fields_acc vs : ∀ ts bs p f reader,
  Forall value_turn vs → enc_fields order vs ts p = Some bs → holds p bs → fields_at reader ts →
  fuel_for end_ (length (flat_map print ts)) p f →
  acc (validate_body_helper body order end_ f reader true p) (p + length bs)%nat.
Proof.
  induction vs as [|v vs IH]; intros ts bs p f reader Hvs E Hh Hfa Hf;
    destruct Hfa as [b pre ts post sd dd Hws Hne]; (destruct ts as [|t ts]; [done|]); [done|].
  simpl in E. destruct (enc order v t p) as [bv|] eqn:Ev; [|done]. simpl in E.
  destruct (enc_fields order vs ts _) as [r|] eqn:Er; [|done]. injection E as <-.
  inversion_clear Hvs as [|? ? Hv Hvs']. apply holds_app in Hh as [H1 H2].
  simpl in Hws. apply andb_true_iff in Hws as [Hw Hws].
  simpl flat_map in *. rewrite <- app_assoc. unfold fuel_for in Hf. rewrite length_app in Hf.
  assert (points (types_at (kind_of_fields b) false (pre ++ print t ++ flat_map print ts ++ close_of b :: post)
    (length pre)) t) as Hpt by (by econstructor).
  pose proof (points_nonempty _ _ _ _ _ Hpt Ev) as Hbv. destruct H1 as [Hs1 Hle1].
  pose proof (print_length t) as Hpl.
  destruct f as [|[|f]]; [lia|lia|].
  eapply (turn_acc v t bv p (S f)); [done|exact Ev|by split|done|unfold fuel_for; lia|].
  rewrite reader_next_S. rewrite (current_type_print _ _ _ _ _ _ _ _ Hw). cbn [mbind option_bind].
  destruct (typecode_codes _ _ _ _ _ Hw) as (-> & _).
  rewrite (fields_next b pre t (flat_map print ts ++ close_of b :: post) f _ _ _ _ (base_next_print t) Hw) by lia.
  destruct ts as [|t2 ts].
  - destruct vs; [|done]. injection Er as <-. rewrite app_nil_r. simpl flat_map.
    change (byte_at ([] ++ close_of b :: post) 0) with (close_of b). rewrite byte_eqb_refl.
    cbn [mbind option_bind]. rewrite current_type_finished. cbn [mbind option_bind]. apply acc_lift. simpl.
    apply acc_lift. byte_tests. apply acc_ret.
  - pose proof Hws as Hws'. simpl in Hws'. apply andb_true_iff in Hws' as [Hw2 Hws2].
    destruct (print_head_open _ _ _ _ t2 (flat_map print ts ++ close_of b :: post) Hw2) as (G1 & G2 & _).
    pose proof (fields_intro b (pre ++ print t) (t2 :: ts) post sd dd Hws ltac:(done)) as Hfa.
    pose proof (current_type_print (kind_of_fields b) (pre ++ print t) t2
      (flat_map print ts ++ close_of b :: post) _ _ _ _ Hw2) as Ec.
    simpl flat_map in *. rewrite length_app in Ec, Hfa. repeat rewrite <- app_assoc in Ec.
    repeat rewrite <- app_assoc in Hfa.
    repeat rewrite <- app_assoc.
    assert (byte_at (print t2 ++ flat_map print ts ++ close_of b :: post) 0 =b close_of b = false)
      as -> by (by destruct b).
    cbn [mbind option_bind]. rewrite Ec. cbn [mbind option_bind]. apply acc_lift.
    rewrite length_app, Nat.add_assoc. apply (IH (t2 :: ts)); try done.
    unfold fuel_for. cbn [flat_map]. rewrite ?length_app in *. lia.
Qed.

Lemma struct_turn vs : Forall value_turn vs → value_turn (VStruct vs).
Proof.
  intros Hvs t bs p f reader c E Hh Hpt Hc Hf. rewrite enc_eq in E. destruct t as [| |ts|]; try done.
  destruct (enc_fields order vs ts (align_up p 8)) as [b|] eqn:Eb; [|done]. injection E as <-.
  destruct (points_current _ _ Hpt) as (c' & Hc' & _ & Hcase). rewrite Hc in Hc'. injection Hc' as <-.
  apply holds_app in Hh as [H1 H2]. pose proof H2 as [_ Hle].
  rewrite <- (align_up_pad p 8) in * by alignment. destruct (align_up_spec p 8 ltac:(alignment)) as [H8 _].
  assert (acc (validate_struct body end_ (validate_body_helper body order end_ f) reader p)
    (p + length (padding p 8 ++ b))%nat) as Hs.
  { unfold validate_struct. destruct (struct_points reader ts Hpt) as (sub_ & -> & Hsub).
    rewrite (proj2 (Nat.ltb_ge _ _)) by lia.
    eapply acc_bind; [apply skip_padding_acc; [by alignment|done]|]. apply acc_lift.
    rewrite length_app, Nat.add_assoc, <- (align_up_pad p 8) by alignment.
    apply (fields_acc vs ts); try done. unfold fuel_for in *. simpl in Hf. rewrite length_app in Hf. lia. }
  unfold validate_value. destruct Hcase as [-> | ->]; simpl; byte_tests; exact Hs.
Qed.

Lemma variant_turn t' v : value_turn v → value_turn (VVariant t' v).
Proof.
  intros Hv t bs p f reader c E Hh Hpt Hc Hf. rewrite enc_eq in E. destruct t as [c'| | |]; try done.
  destruct (points_current _ _ Hpt) as (c1 & Hc1 & _ & Hcase & _). rewrite Hc in Hc1.
  injection Hc1 as <-. subst c'. destruct (c =b "v"%byte) eqn:Ec; [|done]. apply byte_eqb_eq in Ec as ->.
  destruct (enc_signature [t']) as [s|] eqn:Es; [|done]. simpl in E.
  destruct (enc order v t' (p + length s)) as [b|] eqn:Eb; [|done]. injection E as <-.
  apply holds_app in Hh as [H1 H2].
  destruct (enc_signature_holds p [t'] s Es H1) as (Hok & Hlen & Hl & Hn & G1 & G2 & G3).
  unfold validate_value. simpl. byte_tests. unfold validate_variant.
  eapply acc_bind; [by apply byte_acc|]. rewrite Hn.
  assert (p + 1 + length (print_sig [t']) + 1 <= end_)%nat as Hle by (by destruct G3).
  rewrite (proj2 (Nat.ltb_ge _ _)) by lia.
  apply signature_reason_acc; try done.
  rewrite bool_decide_eq_false_2 by (by intros []).
  eapply acc_bind; [by apply byte_acc|]. byte_tests.
  unfold sig_ok in Hok. simpl in Hok. rewrite andb_true_r in Hok.
  set (n := length (print_sig [t'])) in *.
  assert (∃ p2, p2 = (p + 1 + n + 1)%nat) as [p2 Ep2] by eauto. rewrite <- Ep2.
  replace (p + length s)%nat with p2 in * by lia.
  assert (∃ q, drop (p + 1) body = print t' ++ x00 :: q) as [q Eq].
  { destruct (signature_memory body (p + 1) n [t']) as [q Eq]; [by destruct G2|by destruct G3|].
    simpl in Eq. rewrite app_nil_r in Eq. by exists q. }
  rewrite Eq. pose proof (first_type_print [] t' (x00 :: q) _ _ _ _ Hok) as Ef. simpl in Ef. rewrite Ef.
  destruct (typecode_codes _ _ _ _ _ Hok) as (-> & _).
  pose proof (valid_type_alignment _ (typecode_valid _ _ _ _ Hok)) as Hal.
  destruct (align_up_spec p2 _ Hal) as [Hap _]. fold (typecode_alignment t') in *.
  assert (∃ b', b = padding p2 (typecode_alignment t') ++ b'
    ∧ enc order v t' (align_up p2 (typecode_alignment t')) = Some b') as (b' & -> & Eb').
  { by apply enc_padded. }
  apply holds_app in H2 as [H2 H3]. rewrite <- (align_up_pad _ _ Hal) in H3.
  pose proof H3 as [_ Hle3].
  rewrite (proj2 (Nat.ltb_ge _ _)) by lia.
  eapply acc_bind; [by apply skip_padding_acc|].
  assert (length (print t') <= 255)%nat as Hl255.
  { unfold n, print_sig, DBUS_MAXIMUM_SIGNATURE_LENGTH in *. simpl in Hlen. by rewrite app_nil_r in Hlen. }
  pose proof (value_acc_turn v Hv t' b' _ f (_dbus_type_reader_init_types_only (print t' ++ x00 :: q) 0) Eb' H3) as Hval.
  eapply acc_bind.
  { apply Hval; [exact (points_type KBody [] t' (x00 :: q) _ _ _ Hok)|].
    unfold fuel_for in *. simpl in Hf. lia. }
  change (_dbus_type_reader_init_types_only (print t' ++ x00 :: q) 0) with
    (types_at KBody false ([] ++ print t' ++ x00 :: q) (length (A:=byte) [])).
  rewrite (body_next [] t' (x00 :: q) f _ _ _ _ Hok); [|unfold fuel_for in Hf; simpl in Hf; lia|by left].
  apply acc_lift. simpl. rewrite (align_up_pad _ _ Hal).
  replace (p + length (s ++ padding p2 (typecode_alignment t') ++ b'))%nat with
    (p2 + length (padding p2 (typecode_alignment t')) + length b')%nat by (rewrite !length_app; lia).
  apply acc_ret.
Qed.

(** An array whose elements the loops accept. *)
Lemma validate_array_acc reader t t' p bs f :
  let p1 := (align_up p 4 + 4)%nat in let p2 := align_up p1 (element_alignment t) in
  let helper := validate_body_helper body order end_ f in
  let elem_type := match t with TDict _ _ => DBUS_TYPE_DICT_ENTRY | _ => typecode t' end in
  points reader t → element_ty t = Some t' →
  holds p (padding p 4 ++ octets order 4 (Z.of_nat (length bs)) ++ padding p1 (element_alignment t) ++ bs) →
  Z.of_nat (length bs) <= DBUS_MAXIMUM_ARRAY_LENGTH →
  (∀ sub_, points sub_ t' → holds p2 bs → (p2 mod element_alignment t = 0)%nat →
     acc (if dbus_type_is_fixed elem_type
          then if elem_type =b "b"%byte then boolean_loop body order (length bs) p2 (p2 + length bs)
               else mret (p2 + length bs)%nat
          else element_loop (λ p, helper sub_ false p) (length bs) p2 (p2 + length bs))
         (p2 + length bs)%nat) →
  acc (validate_array body order end_ helper reader p) (p2 + length bs)%nat.
Proof.
  cbv zeta. intros Hpt Ht Hh Hmax Hloop.
  destruct (array_points reader t t' Hpt Ht) as (sub_ & Hrec & Hsub & Helem).
  specialize (Hloop sub_ Hsub).
  set (et := match t with TDict _ _ => DBUS_TYPE_DICT_ENTRY | _ => typecode t' end) in *.
  assert (_dbus_type_is_valid et = true ∧ _dbus_type_get_alignment et = element_alignment t) as [Hvalid Halign].
  { unfold et. destruct t as [|t1| |k v]; try done. injection Ht as <-. split; [|done].
    inversion Hpt as [? ? ? ? ? ? ? Hw|]; subst. simpl in Hw. apply andb_true_iff in Hw as [_ Hw].
    by eapply typecode_valid. }
  pose proof (valid_type_alignment _ Hvalid) as Hal. rewrite Halign in Hal.
  rewrite app_assoc in Hh. apply holds_app in Hh as [H1 H2]. rewrite length_app, length_octets in H2.
  rewrite Nat.add_assoc, <- (align_up_pad p 4) in H2 by alignment.
  destruct (align_up_spec (align_up p 4 + 4) _ Hal) as [Hap Hmod].
  apply holds_app in H2 as [H2 H3]. rewrite <- (align_up_pad _ _ Hal) in H3. pose proof H3 as [_ Hle].
  unfold validate_array.
  eapply acc_bind; [apply (validate_length_acc p (Z.of_nat (length bs)))|].
  { change DBUS_MAXIMUM_ARRAY_LENGTH with 67108864 in Hmax. lia. } { done. }
  cbv beta iota. rewrite Helem. apply acc_lift. fold et. rewrite Hvalid. cbn [negb]. rewrite Halign.
  rewrite (proj2 (Nat.ltb_ge _ _)) by lia. eapply acc_bind; [by apply skip_padding_acc|].
  rewrite (proj2 (Z.ltb_ge _ _)) by lia. destruct (Z.of_nat (length bs) <=? 0) eqn:E0.
  { apply Z.leb_le in E0. replace (length bs) with 0%nat by lia. rewrite Nat.add_0_r. apply acc_ret. }
  rewrite (proj2 (Z.ltb_ge _ _)) by lia. rewrite Hrec. apply acc_lift. rewrite Nat2Z.id.
  eapply acc_bind; [by apply Hloop|]. rewrite Nat.eqb_refl. apply acc_ret.
Qed.

Lemma enc_array_inv p n els bs :
  enc_array order p n els = Some bs →
  ∃ x, els (align_up (align_up p 4 + 4) n) = Some x ∧ Z.of_nat (length x) <= DBUS_MAXIMUM_ARRAY_LENGTH
    ∧ bs = padding p 4 ++ octets order 4 (Z.of_nat (length x)) ++ padding (align_up p 4 + 4) n ++ x.
Proof.
  clear Hblock.
  unfold enc_array. destruct (els _) as [x|] eqn:E; simpl; [|done].
  destruct (DBUS_MAXIMUM_ARRAY_LENGTH <? Z.of_nat (length x)) eqn:Em; [done|].
  intros [= <-]. exists x. split; [done|]. split; [lia|done].
Qed.

Lemma array_end p al (x : bytes) : is_alignment al →
  (p + length (padding p 4 ++ octets order 4 (Z.of_nat (length x)) ++ padding (align_up p 4 + 4) al ++ x)
   = align_up (align_up p 4 + 4) al + length x)%nat.
Proof.
  clear Hblock.
  intros Ha. rewrite !length_app, length_octets, (align_up_pad _ _ Ha).
  pose proof (align_up_pad p 4 ltac:(alignment)). lia.
Qed.

Lemma element_alignment_ok reader t t' :
  points reader t → element_ty t = Some t' → is_alignment (element_alignment t).
Proof.
  intros Hpt Ht. destruct t as [|t1| |]; try done; [|by alignment].
  inversion Hpt as [? ? ? ? ? ? ? Hw|]; subst. simpl in Hw. apply andb_true_iff in Hw as [_ Hw].
  apply valid_type_alignment. by eapply typecode_valid.
Qed.

Lemma array_turn vs : Forall value_turn vs → value_turn (VArray vs).
Proof.
  intros Hvs t bs p f reader c E Hh Hpt Hc Hf. rewrite enc_eq in E.
  assert (∃ t', element_ty t = Some t' ∧ (raw_element t' = false ∨ ∃ k v, t = TDict k v)
    ∧ enc_array order p (element_alignment t) (enc_elements order t' vs) = Some bs) as (t' & Ht & Hraw & E').
  { destruct t as [|t1| |k v]; try done.
    - exists t1. destruct (raw_element t1); [done|]. auto.
    - exists (TStruct [k; v]). eauto. }
  clear E. destruct (points_current _ _ Hpt) as (c' & Hc' & _ & Hcase). rewrite Hc in Hc'. injection Hc' as <-.
  pose proof (element_alignment_ok _ _ _ Hpt Ht) as Hal.
  destruct (enc_array_inv _ _ _ _ E') as (x & Ex & Hmax & ->).
  rewrite (array_end p _ x Hal).
  assert (c = DBUS_TYPE_ARRAY) as -> by (by destruct t). unfold validate_value. simpl. byte_tests.
  apply (validate_array_acc reader t t' p x f); try done.
  intros sub_ Hsub Hx Hmod. set (p2 := align_up (align_up p 4 + 4) (element_alignment t)) in *.
  assert (acc (element_loop (λ p, validate_body_helper body order end_ f sub_ false p) (length x) p2 (p2 + length x))
    (p2 + length x)%nat) as Hel.
  { destruct (align_up_spec p 4 ltac:(alignment)) as [H4 _].
    destruct (align_up_spec (align_up p 4 + 4) _ Hal) as [Hap _].
    apply (element_loop_acc f sub_ t' vs x (length x) p2 p); try done.
    - eapply Forall_impl; [apply value_acc_turn|exact Hvs].
    - unfold fuel_for in *. assert (length (print t') < length (print t))%nat; [|lia].
      destruct t as [|t1| |k v]; try done; injection Ht as <-; simpl; [lia|].
      rewrite app_nil_r, !length_app. simpl. lia.
    - unfold p2. lia. }
  destruct t as [|t1| |k v]; try done; injection Ht as <-; try exact Hel.
  rewrite typecode_fixed. destruct t1 as [c| | |]; try exact Hel.
  destruct Hraw as [Hraw|(k & v & ?)]; [|done]. simpl in Hraw |- *.
  destruct (dbus_type_is_fixed c); [|exact Hel]. simpl in Hraw. apply negb_false_iff in Hraw.
  rewrite Hraw. apply byte_eqb_eq in Hraw as ->. by apply (boolean_loop_acc vs).
Qed.

Lemma raw_turn bs' : value_turn (VRaw bs').
Proof.
  intros t bs p f reader c E Hh Hpt Hc Hf. rewrite enc_eq in E. destruct t as [|t1| |]; try done.
  destruct (raw_element t1) eqn:Hraw; [|done].
  destruct (points_current _ _ Hpt) as (c' & Hc' & _ & ->). rewrite Hc in Hc'. injection Hc' as ->.
  pose proof (element_alignment_ok _ _ t1 Hpt eq_refl) as Hal.
  destruct (enc_array_inv _ _ _ _ E) as (x & [= <-] & Hmax & ->).
  change (typecode_alignment t1) with (element_alignment (TArray t1)) in *. rewrite (array_end p _ bs' Hal).
  unfold validate_value. simpl. byte_tests.
  apply (validate_array_acc reader (TArray t1) t1 p bs' f); try done.
  intros sub_ Hsub Hx Hmod. rewrite typecode_fixed. destruct t1 as [c1| | |]; try done. simpl in Hraw |- *.
  apply andb_true_iff in Hraw as [-> Hb]. apply negb_true_iff in Hb. rewrite Hb. apply acc_ret.
Qed.

Lemma all_values_turn v : value_turn v.
Proof.
  induction v as [b|ts|t' v IH|vs IH|bs'|vs IH] using val_ind'.
  - intros t bs p f reader c E Hh Hpt Hc Hf. rewrite enc_eq in E. destruct t as [c'| | |]; try done.
    destruct (points_current _ _ Hpt) as (c1 & Hc1 & _ & Hcase & _). rewrite Hc in Hc1. injection Hc1 as <-.
    subst c'. destruct (basic_ok c b) eqn:Ok; [|done]. injection E as <-. unfold validate_value.
    destruct (kind_of c) as [[]|] eqn:Ek;
      try (apply validate_fixed_acc; [by rewrite Ek|done|done]).
    + unfold basic_ok, wire, wire_body in *. rewrite Ek in *. destruct b; try done.
      pose proof (type_alignment_kind c) as Ha. rewrite Ek in Ha. rewrite Ha, padding_1. apply acc_ret.
    + destruct b; try (by unfold basic_ok in Ok; rewrite Ek in Ok). by apply validate_string_acc.
    + unfold basic_ok in Ok. rewrite Ek in Ok. by destruct b.
    + unfold basic_ok in Ok. by rewrite Ek in Ok.
  - intros t bs p f reader c E Hh Hpt Hc Hf. rewrite enc_eq in E. destruct t as [c'| | |]; try done.
    destruct (points_current _ _ Hpt) as (c1 & Hc1 & _ & Hcase & _). rewrite Hc in Hc1. injection Hc1 as <-.
    subst c'. destruct (c =b "g"%byte) eqn:Ec; [|done]. apply byte_eqb_eq in Ec as ->.
    by apply (validate_signature_value_acc ts).
  - by apply variant_turn.
  - by apply array_turn.
  - apply raw_turn.
  - by apply struct_turn.
Qed.

(** The walk over the top-level types. *)
Lemma body_walk_acc vs : ∀ ts bs pre post p f,
  enc_fields order vs ts p = Some bs → holds p bs → sig_ok accepted_key ts = true →
  byte_at post 0 = x00 → fuel_for end_ (length (print_sig ts)) p f →
  acc (validate_body_helper body order end_ f
         (types_at KBody false (pre ++ print_sig ts ++ post) (length pre)) true p) (p + length bs)%nat.
Proof.
  unfold print_sig, sig_ok.
  induction vs as [|v vs IH]; intros ts bs pre post p f E Hh Hok Hpost Hf; destruct ts as [|t ts]; try done;
    unfold fuel_for in Hf; (destruct f as [|f]; [lia|]).
  - injection E as <-. rewrite Nat.add_0_r. simpl.
    unfold _dbus_type_reader_get_current_type, check_finished, _dbus_first_type_in_signature. simpl.
    rewrite <- (Nat.add_0_r (length pre)), byte_at_app, Hpost. apply acc_lift. byte_tests. apply acc_ret.
  - simpl in E. destruct (enc order v t p) as [bv|] eqn:Ev; [|done]. simpl in E.
    destruct (enc_fields order vs ts _) as [r|] eqn:Er; [|done]. injection E as <-.
    simpl in Hok. apply andb_true_iff in Hok as [Hw Hok]. apply holds_app in Hh as [H1 H2].
    cbn [flat_map] in *. rewrite <- app_assoc. rewrite length_app in Hf. pose proof (print_length t).
    pose proof (points_type KBody pre t (flat_map print ts ++ post) _ _ _ Hw) as Hpt.
    pose proof (points_nonempty _ _ _ _ _ Hpt Ev) as Hbv. pose proof H1 as [_ Hle].
    eapply (turn_acc v t bv p f); [apply all_values_turn|exact Ev|done|done|unfold fuel_for; lia|].
    rewrite (body_next pre t (flat_map print ts ++ post) f _ _ _ _ Hw); [|lia|].
    + apply acc_lift. rewrite length_app, Nat.add_assoc, <- length_app, (app_assoc pre).
      apply (IH ts r); try done. unfold fuel_for. lia.
    + destruct ts as [|t2 ts]; [left; simpl; rewrite Hpost; done|right]. simpl in Hok.
      apply andb_true_iff in Hok as [Hw2 _]. exists t2, (flat_map print ts ++ post). simpl.
      by rewrite <- app_assoc.
Qed.

End completeness.

(** ** Theorems *)

(** No part of the text is a signature the signature validator accepts though its
    brackets interleave (see [validator_accepts_misnesting]). *)
Definition no_misnested (s : bytes) : Prop := ∀ p n m m',
  (p + n < length s)%nat →
  _dbus_validate_signature_with_reason (drop p s) 0 n m = (DBUS_VALID, m') →
  well_bracketed [] (sub s p n) = true.

Lemma no_misnested_drop k s : no_misnested s → no_misnested (drop k s).
Proof.
  intros Hs p n m m' Hp E. rewrite drop_drop in E. rewrite length_drop in Hp. unfold sub. rewrite drop_drop.
  by apply (Hs _ _ m m'); [lia|].
Qed.

(** The validator of signatures looks at most one byte further. *)
Lemma sig_loop_after p : ∀ after q st m, after ≠ [] → sig_loop p (after ++ q) st m = sig_loop p after st m.
Proof.
  induction p as [|c p IH]; intros after q st m Ha; [done|]. simpl.
  assert (byte_at (p ++ after ++ q) 0 = byte_at (p ++ after) 0) as -> by by destruct p, after.
  destruct (sig_turn _ _ _ _) as [[v|st'] m']; [done|]. by apply IH.
Qed.

(** What holds of the text holds of the memory up to its end. *)
Lemma no_misnested_block s r end_ :
  is_str s r → no_misnested s → (end_ <= length s)%nat →
  ∀ p n m m', (p + n < end_)%nat → _dbus_validate_signature_with_reason (drop p (str r)) 0 n m = (DBUS_VALID, m') →
  well_bracketed [] (sub (str r) p n) = true.
Proof.
  intros Hr Hs Hend p n m m' Hp E. destruct (is_str_split _ _ Hr) as [q Hq]. rewrite Hq in *.
  unfold sub. rewrite drop_app_le, take_app_le by (rewrite ?length_drop; lia). apply (Hs p n m m'); [lia|]. rewrite <-E.
  unfold _dbus_validate_signature_with_reason. destruct (alloc m) as [[] m1]; [|done]. cbn [negb].
  destruct (_ <? n)%nat; [done|]. unfold sub. rewrite !drop_drop, !Nat.add_0_r.
  rewrite !(drop_app_le s), take_app_le by (rewrite ?length_drop; lia). symmetry. apply sig_loop_after.
  intros Hn%(f_equal length). rewrite length_drop in Hn. simpl in Hn. lia.
Qed.

(** A text without brackets has no misnested signature. *)
Definition no_bracket (c : byte) : bool :=
  negb ((c =b "(") || (c =b ")") || (c =b "{") || (c =b "}"))%byte.

Lemma no_bracket_nested body : forallb no_bracket body = true → no_misnested body.
Proof.
  intros Hb p n m m' _ _.
  assert (∀ s, forallb no_bracket s = true → well_bracketed [] s = true) as Hs.
  { induction s as [|c s IH]; [done|]. simpl. intros [Hc Hs]%andb_true_iff. unfold no_bracket in Hc.
    apply negb_true_iff in Hc. rewrite !orb_false_iff in Hc. destruct Hc as [[[H1 H2] H3] H4].
    rewrite H1, H2, H3, H4. by apply IH. }
  apply Hs. apply forallb_forall. intros c Hc. rewrite forallb_forall in Hb. apply Hb.
  unfold sub in Hc. rewrite <- (take_drop p body), <- (take_drop n (drop p body)).
  apply in_or_app. right. apply in_or_app. by left.
Qed.

Section rules.
Context `{Host}.

Lemma body_complete_rule (pre post : bytes) (ts : list ty) (vs : list val)
    (a bs b : bytes) (order : byte_order) (r : DBusRealString) (m : mem) :
  sig_ok accepted_key ts = true → byte_at post 0 = x00 →
  enc_fields order vs ts (length a) = Some bs → is_str (a ++ bs ++ b) r →
  let res := _dbus_validate_body_with_reason (pre ++ print_sig ts ++ post) (length pre) order false
               r (length a) (length bs) m in
  (∃ m', res = Some (inr 0%nat, m') ∧ (may_fail m' → may_fail m))
  ∨ (∃ m', res = Some (inl DBUS_VALIDITY_UNKNOWN_OOM_ERROR, m') ∧ may_fail m).
Proof.
  intros Hok Hpost E Hr. cbv zeta. unfold _dbus_validate_body_with_reason.
  destruct (is_str_split _ _ Hr) as [q Hq]. pose proof (is_str_block _ _ Hr) as Hb.
  rewrite !length_app in Hb.
  assert (acc (validate_body_helper (str r) order (length a + length bs)
    (body_fuel (pre ++ print_sig ts ++ post) (length bs))
    (_dbus_type_reader_init_types_only (pre ++ print_sig ts ++ post) (length pre)) true (length a))
    (length a + length bs)%nat) as Hacc.
  { eapply body_walk_acc; try done; [lia| |].
    - split; [|lia]. rewrite Hq, <- !app_assoc. unfold sub. by rewrite drop_app_length, take_app_length.
    - unfold fuel_for, body_fuel. rewrite !length_app. lia. }
  unfold mbind, V_bind. destruct (Hacc m) as [(m' & -> & Hm)|(m' & -> & Hm)].
  - left. exists m'. by rewrite Nat.ltb_irrefl.
  - right. by exists m'.
Qed.

Lemma body_sound_rule (pre post : bytes) (ts : list ty) (a bs b : bytes)
    (order : byte_order) (r : DBusRealString) (m : mem) :
  sig_ok accepted_key ts = true → byte_at post 0 = x00 →
  is_str (a ++ bs ++ b) r → no_misnested (a ++ bs ++ b) →
  match _dbus_validate_body_with_reason (pre ++ print_sig ts ++ post) (length pre) order false
          r (length a) (length bs) m with
  | None => False
  | Some (inl reason, _) => True
  | Some (inr _, _) => ∃ vs, enc_fields order vs ts (length a) = Some bs
  end.
Proof.
  intros Hok Hpost Hr Hnest. unfold _dbus_validate_body_with_reason.
  destruct (is_str_split _ _ Hr) as [q Hq]. pose proof (is_str_block _ _ Hr) as Hb.
  rewrite !length_app in Hb.
  assert (safe (validate_body_helper (str r) order (length a + length bs)
    (body_fuel (pre ++ print_sig ts ++ post) (length bs))
    (_dbus_type_reader_init_types_only (pre ++ print_sig ts ++ post) (length pre)) true (length a))
    (λ p', (length a <= p' <= length a + length bs)%nat
       ∧ ∃ vs, enc_fields order vs ts (length a) = Some (sub (str r) (length a) (p' - length a)))) as Hsafe.
  { apply body_walk_safe; try done; [lia| | |lia].
    - apply (no_misnested_block _ _ _ Hr Hnest). rewrite !length_app. lia.
    - unfold fuel_for, body_fuel. rewrite !length_app. lia. }
  specialize (Hsafe m). unfold mbind, V_bind.
  destruct (validate_body_helper _ _ _ _ _ _ _ m) as [[[e|p'] m']|]; [done| |done].
  destruct Hsafe as (Hp & vs & Evs). destruct (p' <? _)%nat eqn:El; [done|]. apply Nat.ltb_ge in El.
  exists vs. rewrite Evs. f_equal. replace (p' - length a)%nat with (length bs) by lia.
  rewrite Hq, <- !app_assoc. unfold sub. by rewrite drop_app_length, take_app_length.
Qed.

End rules.

Section theorems.
Context `{Host}.

(** C2: A body that is the encoding of values of the signature's types, in the order
    given and at its position in the string, is found valid and all of it is
    consumed; the only other answer is that memory ran out, when an allocation
    was refused. *)
Theorem validate_body_complete (pre post : bytes) (ts : list ty) (vs : list val)
    (a bs b : bytes) (order : byte_order) (r : DBusRealString) (m : mem) :
  sig_ok accepted_key ts = true → byte_at post 0 = x00 →
  enc_fields order vs ts (length a) = Some bs → is_str (a ++ bs ++ b) r →
  let res := _dbus_validate_body_with_reason (pre ++ print_sig ts ++ post) (length pre) order false
               r (length a) (length bs) m in
  (∃ m', res = Some (inr 0%nat, m'))
  ∨ (∃ m', res = Some (inl DBUS_VALIDITY_UNKNOWN_OOM_ERROR, m') ∧ may_fail m).
Proof.
  intros Hok Hpost E Hr. cbv zeta. destruct (body_complete_rule pre post ts vs a bs b order r m Hok Hpost E Hr) as [(m' & Hm' & _)|Hoom].
  - left. by exists m'.
  - by right.
Qed.

(** C1: On a text without misnested signatures the validator reads inside the memory
    of the string only, meets no failing assertion and terminates; and what it
    finds valid is the encoding of values of the signature's types, where an array
    of fixed-size elements other than booleans counts as any run of bytes of its
    length, also when the last element is a part of one. *)
Theorem validate_body_sound (pre post : bytes) (ts : list ty) (a bs b : bytes)
    (order : byte_order) (r : DBusRealString) (m : mem) :
  sig_ok accepted_key ts = true → byte_at post 0 = x00 →
  is_str (a ++ bs ++ b) r → no_misnested (a ++ bs ++ b) →
  match _dbus_validate_body_with_reason (pre ++ print_sig ts ++ post) (length pre) order false
          r (length a) (length bs) m with
  | None => False
  | Some (inl reason, _) => True
  | Some (inr _, _) => ∃ vs, enc_fields order vs ts (length a) = Some bs
  end.
Proof. apply body_sound_rule. Qed.

End theorems.

(** A block of bytes from numbers. *)
Definition block (l : list Z) : bytes := map z2b l.

Lemma validate_body_complete_witness :
  let H : Host := DBUS_BIG_ENDIAN in
  let bs := block [16;0;0;0; 1;0;0;0;97;0; 1;105;0;0;0;0; 5;0;0;0] in
  let res := _dbus_validate_body_with_reason (lit "a{sv}") 0 DBUS_LITTLE_ENDIAN false
               (concrete (block [9;9;9;9] ++ bs ++ [])) 4 20 (Mem [] "x"%byte) in
  (∃ m', res = Some (inr 0%nat, m'))
  ∨ (∃ m', res = Some (inl DBUS_VALIDITY_UNKNOWN_OOM_ERROR, m') ∧ may_fail (Mem [] "x"%byte)).
Proof.
  intros H. apply (validate_body_complete [] [] [TDict (TLeaf "s") (TLeaf "v")]
    [VArray [VStruct [VBasic (Str (lit "a")); VVariant (TLeaf "i") (VBasic (U32 5))]]]
    (block [9;9;9;9]) (block [16;0;0;0; 1;0;0;0;97;0; 1;105;0;0;0;0; 5;0;0;0]) []);
    [vm_compute; reflexivity..|]. repeat split; vm_compute; congruence.
Defined.

Lemma validate_body_sound_witness :
  let H : Host := DBUS_LITTLE_ENDIAN in
  match _dbus_validate_body_with_reason (lit "yu") 0 DBUS_BIG_ENDIAN false
          (concrete (block [7;0;0;0;0;0;0;5])) 0 8 (Mem [] "x"%byte) with
  | None => False
  | Some (inl reason, _) => True
  | Some (inr _, _) =>
      ∃ vs, enc_fields DBUS_BIG_ENDIAN vs [TLeaf "y"%byte; TLeaf "u"%byte] 0 = Some (block [7;0;0;0;0;0;0;5])
  end.
Proof.
  intros H. apply (validate_body_sound [] [] [TLeaf "y"%byte; TLeaf "u"%byte] []
    (block [7;0;0;0;0;0;0;5]) []); [vm_compute; reflexivity..| |].
  - repeat split; vm_compute; congruence.
  - apply no_bracket_nested. vm_compute. reflexivity.
Defined.

(** The length of an array of fixed-size elements is not compared with the size of
    the elements: an array of 32-bit integers with 3 bytes is found valid. *)
Theorem array_of_partial_element_accepted :
  let H : Host := DBUS_LITTLE_ENDIAN in
  _dbus_validate_body_with_reason (lit "ai") 0 DBUS_LITTLE_ENDIAN false
    (concrete (block [3;0;0;0;1;2;3])) 0 7 (Mem [] "x"%byte) = Some (inr 0%nat, Mem [] "x"%byte).
Proof. vm_compute. reflexivity. Qed.

(** A variant whose signature interleaves brackets passes the signature validator
    and makes the reader of the body meet a failing assertion. *)
Theorem misnested_variant_fails_assertion :
  let H : Host := DBUS_LITTLE_ENDIAN in
  let bs := z2b 7 :: lit "(a{s)i}" ++ block [0; 0;0;0;0;0;0;0; 6;0;0;0;0;0;0;0; 1;0;0;0;97;0] in
  _dbus_validate_body_with_reason (lit "v") 0 DBUS_LITTLE_ENDIAN false
    (concrete bs) 0 (length bs) (Mem [] "x"%byte) = None.
Proof. vm_compute. reflexivity. Qed.
