(* ===== verification/Services.v ===== *)
(** * Services: ownership of bus names

    Models src/bus/services.c, the registry of the message bus, with the part of
    src/bus/connection.c it works on: the services owned by a connection, and the
    cancel hooks of a transaction; and the requests of src/bus/driver.c that change
    it: RequestName, ReleaseName and Hello, with the unique name, the limits on
    connections and the counts of them, dispatched as src/bus/dispatch.c does.  Services and owners are reference-counted
    objects in two memory pools; an address that is not in its pool is freed
    memory, and touching it is [Ub], as is a failing assertion.  An operation
    that returns FALSE is [Failed], with the error in the state.

    Abstractions: the data of a linked list is a list; a message is what it says,
    without its header; each call that builds or sends a message, looks for match
    rules or enters src/bus/activation.c makes one request for memory, and is
    otherwise taken to succeed; the rules and the queue that make the bus drop a
    message of its own are a parameter ([driver_message_allowed]), and so is
    whether a connection is still there.  Making the policy of a new connection is
    one request too (its rules are in [Policy]): that the system cannot tell the
    groups of a user is left out.  The timeout for connections that do not say
    Hello is not modelled.  The contract of these operations is in
    [Ownership]. *)

From stdpp Require Import gmap pretty.
From S2P Require Import Prelude Search Names Types.

Definition DBUS_NAME_FLAG_ALLOW_REPLACEMENT : Z := 0x1.
Definition DBUS_NAME_FLAG_REPLACE_EXISTING : Z := 0x2.
Definition DBUS_NAME_FLAG_DO_NOT_QUEUE : Z := 0x4.

Definition DBUS_REQUEST_NAME_REPLY_PRIMARY_OWNER : Z := 1.
Definition DBUS_REQUEST_NAME_REPLY_IN_QUEUE : Z := 2.
Definition DBUS_REQUEST_NAME_REPLY_EXISTS : Z := 3.
Definition DBUS_REQUEST_NAME_REPLY_ALREADY_OWNER : Z := 4.

Definition DBUS_RELEASE_NAME_REPLY_RELEASED : Z := 1.
Definition DBUS_RELEASE_NAME_REPLY_NON_EXISTENT : Z := 2.
Definition DBUS_RELEASE_NAME_REPLY_NOT_OWNER : Z := 3.

Definition DBUS_SERVICE_DBUS : bytes := lit "org.freedesktop.DBus".

(** [flags & bit] as a truth value. *)
Definition flag (flags bit : Z) : bool := negb (Z.land flags bit =? 0).

(** ** State *)

(** Addresses of services and owners, and connections. *)
Abbreviation service_ptr := nat.
Abbreviation owner_ptr := nat.
Abbreviation connection := nat.

Record BusService := Service {
  service_refcount : nat;
  service_name : bytes;
  owners : list owner_ptr
}.

Record BusOwner := Owner {
  owner_refcount : nat;
  owner_service : service_ptr;
  owner_conn : connection;
  allow_replacement : bool;
  do_not_queue : bool
}.

(** The references held on a connection and the fields of BusConnectionData the
    registry uses. *)
Record BusConnectionData := ConnectionData {
  conn_refcount : nat;
  services_owned : list service_ptr;
  n_services_owned : Z
}.

(** The links and the hash entry are allocated in advance: present or NULL. *)
Record OwnershipRestoreData := RestoreData {
  restore_owner : owner_ptr;
  restore_service : service_ptr;
  before_owner : option owner_ptr;
  owner_link : bool;
  service_link : bool;
  hash_entry : bool
}.

Inductive CancelHook :=
| CancelOwnership (owner : owner_ptr) (service : service_ptr)
| RestoreOwnership (d : OwnershipRestoreData).

Inductive error_name :=
| DBUS_ERROR_NO_MEMORY | DBUS_ERROR_INVALID_ARGS
| DBUS_ERROR_ACCESS_DENIED | DBUS_ERROR_LIMITS_EXCEEDED | DBUS_ERROR_FAILED.

#[export] Instance error_name_eq_dec : EqDecision error_name.
Proof. solve_decision. Defined.

(** The messages the bus sends. *)
Inductive signal :=
| NameOwnerChanged (name : bytes) (old_owner new_owner : option connection)
| NameLost (conn : connection) (name : bytes)
| NameAcquired (conn : connection) (name : bytes)
| MethodReturn (conn : connection) (value : Z)
| Welcome (conn : connection) (name : bytes)
| ErrorReply (conn : connection) (e : error_name).

(** The connections that have said Hello: the unique name of each (the field [name]
    of BusConnectionData), how many there are, and how many of each user; with the
    counters from which src/bus/driver.c makes unique names. *)
Record BusConnections := Connections {
  conn_names : gmap connection bytes;
  n_completed : Z;
  completed_by_user : gmap Z Z;
  next_major_number : Z;
  next_minor_number : Z
}.

(** The registry with its pools, the connections, the current transaction, and
    what executed transactions have sent. *)
Record bus := Bus {
  service_hash : gmap bytes service_ptr;
  unique_pid_hash : gmap bytes Z;
  service_pool : gmap service_ptr BusService;
  owner_pool : gmap owner_ptr BusOwner;
  connections : gmap connection BusConnectionData;
  cancel_hooks : list CancelHook;
  messages : list signal;
  delivered : list signal;
  error : option error_name;
  clients : BusConnections
}.

Definition with_service_hash f b :=
  Bus (f (service_hash b)) (unique_pid_hash b) (service_pool b) (owner_pool b) (connections b)
    (cancel_hooks b) (messages b) (delivered b) (error b) (clients b).
Definition with_unique_pid_hash f b :=
  Bus (service_hash b) (f (unique_pid_hash b)) (service_pool b) (owner_pool b) (connections b)
    (cancel_hooks b) (messages b) (delivered b) (error b) (clients b).
Definition with_service_pool f b :=
  Bus (service_hash b) (unique_pid_hash b) (f (service_pool b)) (owner_pool b) (connections b)
    (cancel_hooks b) (messages b) (delivered b) (error b) (clients b).
Definition with_owner_pool f b :=
  Bus (service_hash b) (unique_pid_hash b) (service_pool b) (f (owner_pool b)) (connections b)
    (cancel_hooks b) (messages b) (delivered b) (error b) (clients b).
Definition with_connections f b :=
  Bus (service_hash b) (unique_pid_hash b) (service_pool b) (owner_pool b) (f (connections b))
    (cancel_hooks b) (messages b) (delivered b) (error b) (clients b).
Definition with_cancel_hooks f b :=
  Bus (service_hash b) (unique_pid_hash b) (service_pool b) (owner_pool b) (connections b)
    (f (cancel_hooks b)) (messages b) (delivered b) (error b) (clients b).
Definition with_messages f b :=
  Bus (service_hash b) (unique_pid_hash b) (service_pool b) (owner_pool b) (connections b)
    (cancel_hooks b) (f (messages b)) (delivered b) (error b) (clients b).
Definition with_delivered f b :=
  Bus (service_hash b) (unique_pid_hash b) (service_pool b) (owner_pool b) (connections b)
    (cancel_hooks b) (messages b) (f (delivered b)) (error b) (clients b).
Definition with_error e b :=
  Bus (service_hash b) (unique_pid_hash b) (service_pool b) (owner_pool b) (connections b)
    (cancel_hooks b) (messages b) (delivered b) e (clients b).
Definition with_clients k b :=
  Bus (service_hash b) (unique_pid_hash b) (service_pool b) (owner_pool b) (connections b)
    (cancel_hooks b) (messages b) (delivered b) (error b) k.

Abbreviation BM := (M bus).

Definition get_service (s : service_ptr) : BM BusService :=
  b ← gets id; checked (service_pool b !! s).
Definition get_owner (o : owner_ptr) : BM BusOwner :=
  b ← gets id; checked (owner_pool b !! o).
Definition get_connection (c : connection) : BM BusConnectionData :=
  b ← gets id; checked (connections b !! c).

Definition set_service (s : service_ptr) (x : BusService) : BM unit :=
  modify (with_service_pool <[s := x]>).
Definition set_owner (o : owner_ptr) (x : BusOwner) : BM unit :=
  modify (with_owner_pool <[o := x]>).
Definition set_connection (c : connection) (x : BusConnectionData) : BM unit :=
  modify (with_connections <[c := x]>).

(** [_dbus_mem_pool_dealloc] *)
Definition dealloc_service (s : service_ptr) : BM unit := modify (with_service_pool (delete s)).
Definition dealloc_owner (o : owner_ptr) : BM unit := modify (with_owner_pool (delete o)).

Definition set_owners (s : service_ptr) (l : list owner_ptr) : BM unit :=
  x ← get_service s; set_service s (Service (service_refcount x) (service_name x) l).

(** [dbus_set_error] keeps an error that is already set, and needs memory for the
    message; [BUS_SET_OOM] does not. *)
Definition set_error (e : error_name) : BM unit := λ b m,
  match error b with
  | Some _ => Ok tt b m
  | None =>
      let '(ok, m') := alloc m in
      Ok tt (with_error (Some (if ok then e else DBUS_ERROR_NO_MEMORY)) b) m'
  end.

Definition BUS_SET_OOM : BM unit :=
  b ← gets id;
  match error b with
  | Some _ => mret tt
  | None => modify (with_error (Some DBUS_ERROR_NO_MEMORY))
  end.

Definition _DBUS_ASSERT_ERROR_IS_CLEAR : BM unit :=
  b ← gets id; assert_ (bool_decide (error b = None)).

(** A request whose refusal is reported as out of memory. *)
Definition or_oom {A} (c : BM A) : BM A := on_failure c BUS_SET_OOM.

(** ** What the registry asks of the rest of the bus

    The policy of the connection (src/bus/policy.c), SELinux, the limits of the
    configuration, whether a process is running, the user of a connection, whether
    it is still there, and whether the security check lets a message of the driver
    through: the rules for what the receiver may get, and its queue, which holds the
    messages that were delivered before. *)
Inductive selinux_answer := SELinuxAllowed | SELinuxDenied | SELinuxOom.

Class BusContext := {
  bus_client_policy_check_can_own : connection → bytes → bool;
  bus_selinux_allows_acquire_service : connection → bytes → selinux_answer;
  bus_context_get_max_services_per_connection : Z;
  _dbus_process_exists : Z → bool;
  bus_context_get_max_completed_connections : Z;
  bus_context_get_max_connections_per_user : Z;
  dbus_connection_get_unix_user : connection → option Z;
  dbus_connection_get_is_connected : connection → bool;
  driver_message_allowed : list signal → connection → signal → bool
}.

Section registry.
Context `{BC : BusContext}.

(** ** Messages of the driver *)

Definition add_message (x : signal) : BM unit := modify (with_messages (λ l, l ++ [x])).

(** A connection that is gone gets nothing. *)
Definition bus_transaction_send (c : connection) (x : signal) : BM unit :=
  if negb (dbus_connection_get_is_connected c) then mret tt
  else
    request;;
    add_message x.

(** The sender and the destination are set; a message that the security check
    refuses is eaten silently. *)
Definition bus_transaction_send_from_driver (c : connection) (x : signal) : BM unit :=
  request;;
  b ← gets id;
  if negb (driver_message_allowed (delivered b) c x) then mret tt
  else bus_transaction_send c x.

(** NameOwnerChanged has no destination: [bus_dispatch_matches] puts it in the
    transaction for every connection with a matching rule (see [Replies]). *)
Definition receiver (x : signal) : option connection :=
  match x with
  | NameOwnerChanged _ _ _ => None
  | NameLost c _ | NameAcquired c _ | MethodReturn c _ | Welcome c _ | ErrorReply c _ => Some c
  end.

(** The signals of src/bus/driver.c: the message, its sender or destination, its
    arguments, and the message in the transaction. *)
Definition send (x : signal) : BM unit :=
  _DBUS_ASSERT_ERROR_IS_CLEAR;;
  or_oom request;;
  or_oom request;;
  or_oom request;;
  or_oom (match receiver x with
          | Some c => bus_transaction_send_from_driver c x
          | None => request;; add_message x
          end).

Definition bus_driver_send_service_owner_changed (name : bytes)
    (old_owner new_owner : option connection) : BM unit :=
  send (NameOwnerChanged name old_owner new_owner).
Definition bus_driver_send_service_lost (c : connection) (name : bytes) : BM unit :=
  send (NameLost c name).
Definition bus_driver_send_service_acquired (c : connection) (name : bytes) : BM unit :=
  send (NameAcquired c name).

(** ** Linked lists *)

Fixpoint remove_first (x : nat) (l : list nat) : list nat :=
  match l with
  | [] => []
  | y :: l' => if decide (x = y) then l' else y :: remove_first x l'
  end.

(** [_dbus_list_remove_last] *)
Definition remove_last (x : nat) (l : list nat) : list nat := rev (remove_first x (rev l)).

Lemma remove_first_mid o l1 l2 : o ∉ l1 → remove_first o (l1 ++ o :: l2) = l1 ++ l2.
Proof.
  induction l1 as [|x l1 IH]; simpl; [by rewrite decide_True|].
  rewrite not_elem_of_cons. intros [? ?]. by rewrite decide_False, IH.
Qed.

Lemma remove_last_mid o l1 l2 : o ∉ l2 → remove_last o (l1 ++ o :: l2) = l1 ++ l2.
Proof.
  intros H. unfold remove_last. rewrite rev_app_distr. simpl. rewrite <- app_assoc. simpl.
  rewrite remove_first_mid, <- rev_app_distr, rev_involutive; [done|].
  by rewrite list_elem_of_In, <- in_rev, <- list_elem_of_In.
Qed.

(** [_dbus_list_insert_after (list, first link, x)] *)
Definition insert_second (x : nat) (l : list nat) : list nat :=
  match l with
  | [] => [x]
  | y :: l' => y :: x :: l'
  end.

(** Insertion before the first link with the data [before], at the end if there
    is none. *)
Fixpoint insert_before (before : option nat) (x : nat) (l : list nat) : list nat :=
  match l with
  | [] => [x]
  | y :: l' => if decide (before = Some y) then x :: l else y :: insert_before before x l'
  end.

(** ** Connections *)

Definition dbus_connection_ref (c : connection) : BM unit :=
  d ← get_connection c;
  set_connection c (ConnectionData (conn_refcount d + 1) (services_owned d) (n_services_owned d)).

(** Dropping the last reference finalizes the connection; the bus holds one on
    every connection it knows. *)
Definition dbus_connection_unref (c : connection) : BM unit :=
  d ← get_connection c;
  assert_ (1 <? conn_refcount d)%nat;;
  set_connection c (ConnectionData (conn_refcount d - 1) (services_owned d) (n_services_owned d)).

Definition bus_connection_add_owned_service_link (c : connection) (s : service_ptr) : BM unit :=
  d ← get_connection c;
  set_connection c
    (ConnectionData (conn_refcount d) (services_owned d ++ [s]) (n_services_owned d + 1)).

Definition bus_connection_add_owned_service (c : connection) (s : service_ptr) : BM unit :=
  request;;
  bus_connection_add_owned_service_link c s.

Definition bus_connection_remove_owned_service (c : connection) (s : service_ptr) : BM unit :=
  d ← get_connection c;
  let n := n_services_owned d - 1 in
  set_connection c (ConnectionData (conn_refcount d) (remove_last s (services_owned d)) n);;
  assert_ (0 <=? n).

Definition bus_connection_get_n_services_owned (c : connection) : BM Z :=
  d ← get_connection c; mret (n_services_owned d).

(** ** Services *)

Definition bus_service_ref (s : service_ptr) : BM unit :=
  x ← get_service s;
  assert_ (0 <? service_refcount x)%nat;;
  set_service s (Service (service_refcount x + 1) (service_name x) (owners x)).

Definition bus_service_unref (s : service_ptr) : BM unit :=
  x ← get_service s;
  assert_ (0 <? service_refcount x)%nat;;
  let n := (service_refcount x - 1)%nat in
  set_service s (Service n (service_name x) (owners x));;
  if (n =? 0)%nat then
    assert_ (bool_decide (owners x = []));;
    dealloc_service s
  else mret tt.

Definition bus_service_get_primary_owner (s : service_ptr) : BM (option owner_ptr) :=
  x ← get_service s; mret (head (owners x)).

Definition bus_service_get_allow_replacement (s : service_ptr) : BM bool :=
  x ← get_service s;
  o ← checked (head (owners x));
  y ← get_owner o;
  mret (allow_replacement y).

(** The first owner of the list with the connection. *)
Fixpoint find_owner (l : list owner_ptr) (c : connection) : BM (option owner_ptr) :=
  match l with
  | [] => mret None
  | o :: l' =>
      x ← get_owner o;
      if decide (owner_conn x = c) then mret (Some o) else find_owner l' c
  end.

Definition _bus_service_find_owner_link (s : service_ptr) (c : connection) :
    BM (option owner_ptr) :=
  x ← get_service s; find_owner (owners x) c.

Definition bus_service_has_owner (s : service_ptr) (c : connection) : BM bool :=
  link ← _bus_service_find_owner_link s c;
  mret (bool_decide (link ≠ None)).

(** ** Owners *)

Definition bus_owner_set_flags (o : owner_ptr) (flags : Z) : BM unit :=
  x ← get_owner o;
  set_owner o (Owner (owner_refcount x) (owner_service x) (owner_conn x)
    (flag flags DBUS_NAME_FLAG_ALLOW_REPLACEMENT) (flag flags DBUS_NAME_FLAG_DO_NOT_QUEUE)).

(** The pool gives an address that is not in use, with the fields zero. *)
Definition bus_owner_new (s : service_ptr) (c : connection) (flags : Z) : BM owner_ptr :=
  request;;
  b ← gets id;
  let result := fresh (dom (owner_pool b)) in
  set_owner result (Owner 1 s c false false);;
  on_failure (bus_connection_add_owned_service c s) (dealloc_owner result);;
  bus_owner_set_flags result flags;;
  mret result.

Definition bus_owner_ref (o : owner_ptr) : BM unit :=
  x ← get_owner o;
  assert_ (0 <? owner_refcount x)%nat;;
  set_owner o (Owner (owner_refcount x + 1) (owner_service x) (owner_conn x)
    (allow_replacement x) (do_not_queue x)).

Definition bus_owner_unref (o : owner_ptr) : BM unit :=
  x ← get_owner o;
  assert_ (0 <? owner_refcount x)%nat;;
  let n := (owner_refcount x - 1)%nat in
  set_owner o (Owner n (owner_service x) (owner_conn x) (allow_replacement x) (do_not_queue x));;
  if (n =? 0)%nat then
    bus_connection_remove_owned_service (owner_conn x) (owner_service x);;
    get_service (owner_service x);;
    dealloc_owner o
  else mret tt.

Definition bus_service_unlink_owner (s : service_ptr) (o : owner_ptr) : BM unit :=
  x ← get_service s;
  set_owners s (remove_last o (owners x));;
  bus_owner_unref o.

Definition bus_service_unlink (s : service_ptr) : BM unit :=
  x ← get_service s;
  assert_ (bool_decide (owners x = []));;
  modify (with_service_hash (delete (service_name x)));;
  bus_service_unref s.

Definition bus_service_relink (s : service_ptr) (preallocated : bool) : BM unit :=
  x ← get_service s;
  assert_ (bool_decide (owners x = []));;
  assert_ preallocated;;
  modify (with_service_hash <[service_name x := s]>);;
  bus_service_ref s.

(** [_dbus_list_unlink], [bus_owner_unref], [_dbus_list_free_link] of a link. *)
Definition drop_from_queue (s : service_ptr) (o : owner_ptr) : BM unit :=
  x ← get_service s;
  set_owners s (remove_first o (owners x));;
  bus_owner_unref o.

(** ** Transactions *)

(** The hook and its link are two requests. *)
Definition bus_transaction_add_cancel_hook (h : CancelHook) : BM unit :=
  request;;
  request;;
  modify (with_cancel_hooks (cons h)).

Definition cancel_ownership (o : owner_ptr) (s : service_ptr) : BM unit :=
  bus_service_unlink_owner s o;;
  x ← get_service s;
  if decide (owners x = []) then bus_service_unlink s else mret tt.

Definition free_ownership_cancel_data (o : owner_ptr) (s : service_ptr) : BM unit :=
  x ← get_owner o;
  dbus_connection_unref (owner_conn x);;
  bus_owner_unref o;;
  bus_service_unref s.

Definition add_cancel_ownership_to_transaction (s : service_ptr) (o : owner_ptr) : BM unit :=
  request;;
  bus_transaction_add_cancel_hook (CancelOwnership o s);;
  bus_service_ref s;;
  bus_owner_ref o;;
  x ← get_owner o;
  dbus_connection_ref (owner_conn x).

(** The result is the data as the function leaves it. *)
Definition restore_ownership (d : OwnershipRestoreData) : BM OwnershipRestoreData :=
  assert_ (service_link d);;
  assert_ (owner_link d);;
  let s := restore_service d in
  x ← get_service s;
  (if decide (owners x = []) then
     assert_ (hash_entry d);;
     bus_service_relink s (hash_entry d)
   else assert_ (negb (hash_entry d)));;
  set_owners s (insert_before (before_owner d) (restore_owner d) (owners x));;
  y ← get_owner (restore_owner d);
  bus_connection_add_owned_service_link (owner_conn y) s;;
  mret (RestoreData (restore_owner d) s (before_owner d) false false false).

Definition free_ownership_restore_data (d : OwnershipRestoreData) : BM unit :=
  x ← get_owner (restore_owner d);
  dbus_connection_unref (owner_conn x);;
  bus_owner_unref (restore_owner d);;
  bus_service_unref (restore_service d).

(** The owner behind [o] in the list. *)
Fixpoint next_owner (o : owner_ptr) (l : list owner_ptr) : option owner_ptr :=
  match l with
  | [] => None
  | x :: l' => if decide (x = o) then head l' else next_owner o l'
  end.

(** An allocation whose NULL is looked at later. *)
Definition alloc_link : BM bool := attempt request.

Definition add_restore_ownership_to_transaction (s : service_ptr) (o : owner_ptr) : BM unit :=
  request;;
  service_link ← alloc_link;
  owner_link ← alloc_link;
  hash_entry ← alloc_link;
  bus_service_ref s;;
  bus_owner_ref o;;
  y ← get_owner o;
  dbus_connection_ref (owner_conn y);;
  x ← get_service s;
  let d := RestoreData o s (next_owner o (owners x)) owner_link service_link hash_entry in
  on_failure
    (if negb (service_link && owner_link && hash_entry) then fail
     else bus_transaction_add_cancel_hook (RestoreOwnership d))
    (free_ownership_restore_data d).

Definition cancel_hook_cancel (h : CancelHook) : BM CancelHook :=
  match h with
  | CancelOwnership o s => cancel_ownership o s;; mret h
  | RestoreOwnership d => d' ← restore_ownership d; mret (RestoreOwnership d')
  end.

Definition cancel_hook_free (h : CancelHook) : BM unit :=
  match h with
  | CancelOwnership o s => free_ownership_cancel_data o s
  | RestoreOwnership d => free_ownership_restore_data d
  end.

Fixpoint cancel_all (l : list CancelHook) : BM (list CancelHook) :=
  match l with
  | [] => mret []
  | h :: l' => h' ← cancel_hook_cancel h; l'' ← cancel_all l'; mret (h' :: l'')
  end.

Fixpoint free_all (l : list CancelHook) : BM unit :=
  match l with
  | [] => mret tt
  | h :: l' => cancel_hook_free h;; free_all l'
  end.

Definition free_cancel_hooks : BM unit :=
  b ← gets id;
  free_all (cancel_hooks b);;
  modify (with_cancel_hooks (λ _, [])).

(** The messages of the transaction are dropped; the hooks run, newest first. *)
Definition bus_transaction_cancel_and_free : BM unit :=
  modify (with_messages (λ _, []));;
  b ← gets id;
  hooks ← cancel_all (cancel_hooks b);
  modify (with_cancel_hooks (λ _, hooks));;
  free_cancel_hooks.

(** Every connection gets its messages in the order they were sent. *)
Definition bus_transaction_execute_and_free : BM unit :=
  b ← gets id;
  modify (with_delivered (λ l, l ++ messages b));;
  modify (with_messages (λ _, []));;
  free_cancel_hooks.

(** ** Changing the owners of a service *)

Definition bus_service_add_owner (s : service_ptr) (c : connection) (flags : Z) : BM unit :=
  _DBUS_ASSERT_ERROR_IS_CLEAR;;
  x ← get_service s;
  (if decide (owners x = []) then bus_driver_send_service_acquired c (service_name x)
   else mret tt);;
  bus_owner_link ← _bus_service_find_owner_link s c;
  match bus_owner_link with
  | None =>
      bus_owner ← or_oom (bus_owner_new s c flags);
      bus_owner_set_flags bus_owner flags;;
      or_oom (on_failure request (bus_owner_unref bus_owner));;
      x ← get_service s;
      (if negb (flag flags DBUS_NAME_FLAG_REPLACE_EXISTING) || bool_decide (owners x = [])
       then set_owners s (owners x ++ [bus_owner])
       else set_owners s (insert_second bus_owner (owners x)));;
      or_oom (on_failure (add_cancel_ownership_to_transaction s bus_owner)
                (bus_service_unlink_owner s bus_owner))
  | Some bus_owner =>
      (if flag flags DBUS_NAME_FLAG_REPLACE_EXISTING then
         x ← get_service s;
         let rest := remove_first bus_owner (owners x) in
         assert_ (bool_decide (rest ≠ []));;
         set_owners s (insert_second bus_owner rest)
       else mret tt);;
      bus_owner_set_flags bus_owner flags
  end.

Definition bus_service_swap_owner (s : service_ptr) (c : connection) : BM unit :=
  _DBUS_ASSERT_ERROR_IS_CLEAR;;
  x ← get_service s;
  primary_owner ← checked (head (owners x));
  y ← get_owner primary_owner;
  assert_ (bool_decide (owner_conn y = c));;
  bus_driver_send_service_lost c (service_name x);;
  new_owner ← checked (owners x !! 1%nat);
  y' ← get_owner new_owner;
  bus_driver_send_service_owner_changed (service_name x) (Some c) (Some (owner_conn y'));;
  bus_driver_send_service_acquired (owner_conn y') (service_name x);;
  or_oom (add_restore_ownership_to_transaction s primary_owner);;
  x ← get_service s;
  set_owners s (insert_second primary_owner (tail (owners x))).

Definition bus_service_remove_owner (s : service_ptr) (c : connection) : BM unit :=
  _DBUS_ASSERT_ERROR_IS_CLEAR;;
  x ← get_service s;
  primary ← (match head (owners x) with
             | Some o =>
                 y ← get_owner o; mret (if decide (owner_conn y = c) then Some o else None)
             | None => mret None
             end);
  match primary with
  | None =>
      link ← _bus_service_find_owner_link s c;
      o ← checked link;
      drop_from_queue s o
  | Some primary_owner =>
      bus_driver_send_service_lost c (service_name x);;
      match owners x !! 1%nat with
      | None => bus_driver_send_service_owner_changed (service_name x) (Some c) None
      | Some new_owner =>
          y' ← get_owner new_owner;
          bus_driver_send_service_owner_changed (service_name x) (Some c)
            (Some (owner_conn y'));;
          bus_driver_send_service_acquired (owner_conn y') (service_name x)
      end;;
      or_oom (add_restore_ownership_to_transaction s primary_owner);;
      bus_service_unlink_owner s primary_owner;;
      x ← get_service s;
      if decide (owners x = []) then bus_service_unlink s else mret tt
  end.

(** ** The registry *)

Definition bus_registry_lookup (name : bytes) : BM (option service_ptr) :=
  gets (λ b, service_hash b !! name).

(** The calls into src/bus/activation.c, which keep their own state. *)
Definition bus_activation_service_created : BM unit := or_oom request.
Definition bus_activation_send_pending_auto_activation_messages : BM unit := or_oom request.

Definition bus_registry_ensure (name : bytes) (c : connection) (flags : Z) : BM service_ptr :=
  _DBUS_ASSERT_ERROR_IS_CLEAR;;
  found ← bus_registry_lookup name;
  match found with
  | Some s => mret s
  | None =>
      or_oom request;;
      b ← gets id;
      let s := fresh (dom (service_pool b)) in
      set_service s (Service 1 [] []);;
      or_oom (on_failure request (dealloc_service s));;
      set_service s (Service 1 name []);;
      on_failure
        (bus_driver_send_service_owner_changed name None (Some c);;
         bus_activation_service_created;;
         bus_service_add_owner s c flags)
        (bus_service_unref s);;
      or_oom request;;
      modify (with_service_hash <[name := s]>);;
      mret s
  end.

Definition bus_registry_release_service (c : connection) (name : bytes) : BM Z :=
  if negb (_dbus_validate_bus_name name 0 (length name)) then
    set_error DBUS_ERROR_INVALID_ARGS;; fail
  else if byte_at name 0 =b ":" then set_error DBUS_ERROR_INVALID_ARGS;; fail
  else if bool_decide (name = DBUS_SERVICE_DBUS) then
    set_error DBUS_ERROR_INVALID_ARGS;; fail
  else
    service ← bus_registry_lookup name;
    result ←
      (match service with
       | None => mret DBUS_RELEASE_NAME_REPLY_NON_EXISTENT
       | Some s =>
           has ← bus_service_has_owner s c;
           if negb has then mret DBUS_RELEASE_NAME_REPLY_NOT_OWNER
           else
             bus_service_remove_owner s c;;
             has ← bus_service_has_owner s c;
             assert_ (negb has);;
             mret DBUS_RELEASE_NAME_REPLY_RELEASED
       end);
    modify (with_unique_pid_hash (delete name));;
    mret result.

(** *** Names with the process that owns them

    A client may ask for "name.unique-pid"; it gets "name", which is first taken
    away from a process that no longer exists. *)

(** [atoi]; a value that is not an [int] is undefined. *)
Definition atoi (s : bytes) : option Z :=
  let s := skip_space s in
  let v := match s with
           | c :: s' => if c =b "-" then - digits 0 s'
                        else if c =b "+" then digits 0 s' else digits 0 s
           | [] => 0
           end in
  if (- 2 ^ 31 <=? v) && (v <? 2 ^ 31) then Some v else None.

(** The copy of the name is used without a test for NULL. *)
Definition _dbus_get_base_service_name_and_pid (name : bytes) : BM (Z * bytes) :=
  match strstr name (lit ".unique-") with
  | None => mret (0, [])
  | Some at_ =>
      let rest := drop (at_ + 8) name in
      pid ← (if (0 <? length rest)%nat then checked (atoi rest) else mret 0);
      if pid =? 0 then mret (0, [])
      else
        ok ← attempt request;
        assert_ ok;;
        mret (pid, take at_ name)
  end.

Definition _dbus_find_unique_pid (name : bytes) : BM Z :=
  gets (λ b, default 0 (unique_pid_hash b !! name)).

Definition _dbus_registry_release_old_service_win_if_unique (c : connection)
    (base_service_name : bytes) (pid : Z) : BM unit :=
  old_pid ← _dbus_find_unique_pid base_service_name;
  if pid =? old_pid then mret tt
  else if negb (old_pid =? 0) && _dbus_process_exists old_pid then mret tt
  else
    (if negb (old_pid =? 0) then
       service ← bus_registry_lookup base_service_name;
       connection_to_release ←
         (match service with
          | Some s =>
              x ← get_service s;
              o ← checked (head (owners x));
              y ← get_owner o;
              mret (owner_conn y)
          | None => mret c
          end);
       on_failure (bus_registry_release_service connection_to_release base_service_name)
         (set_error DBUS_ERROR_INVALID_ARGS);;
       mret tt
     else mret tt);;
    ok ← attempt request;
    assert_ ok;;
    request;;
    modify (with_unique_pid_hash <[base_service_name := pid]>).

(** *** Acquiring a name *)

(** The choice between queueing, refusing and replacing, once the service
    exists. *)
Definition acquire_existing (s : service_ptr) (old_owner_conn : option connection)
    (c : connection) (flags : Z) : BM Z :=
  primary ← bus_service_get_primary_owner s;
  match primary with
  | None => fail
  | Some primary_owner =>
      y ← get_owner primary_owner;
      match old_owner_conn with
      | None =>
          assert_ (bool_decide (owner_conn y = c));;
          mret DBUS_REQUEST_NAME_REPLY_PRIMARY_OWNER
      | Some old =>
          if decide (old = c) then
            bus_owner_set_flags primary_owner flags;;
            mret DBUS_REQUEST_NAME_REPLY_ALREADY_OWNER
          else
            allow ← bus_service_get_allow_replacement s;
            if (flag flags DBUS_NAME_FLAG_DO_NOT_QUEUE && negb allow)
               || (flag flags DBUS_NAME_FLAG_DO_NOT_QUEUE
                   && negb (flag flags DBUS_NAME_FLAG_REPLACE_EXISTING))
            then
              link ← _bus_service_find_owner_link s c;
              (match link with
               | Some o => drop_from_queue s o
               | None => mret tt
               end);;
              mret DBUS_REQUEST_NAME_REPLY_EXISTS
            else if negb (flag flags DBUS_NAME_FLAG_DO_NOT_QUEUE)
                    && (negb (flag flags DBUS_NAME_FLAG_REPLACE_EXISTING) || negb allow)
            then
              bus_service_add_owner s c flags;;
              mret DBUS_REQUEST_NAME_REPLY_IN_QUEUE
            else
              bus_service_add_owner s c flags;;
              y ← get_owner primary_owner;
              (if do_not_queue y then bus_service_remove_owner s old
               else bus_service_swap_owner s old);;
              x ← get_service s;
              o ← checked (head (owners x));
              y ← get_owner o;
              assert_ (bool_decide (owner_conn y = c));;
              mret DBUS_REQUEST_NAME_REPLY_PRIMARY_OWNER
      end
  end.

(** From the validation of the name on. *)
Definition acquire_named (c : connection) (name : bytes) (flags : Z) : BM Z :=
  if negb (_dbus_validate_bus_name name 0 (length name)) then
    set_error DBUS_ERROR_INVALID_ARGS;; fail
  else if byte_at name 0 =b ":" then set_error DBUS_ERROR_INVALID_ARGS;; fail
  else if bool_decide (name = DBUS_SERVICE_DBUS) then
    set_error DBUS_ERROR_INVALID_ARGS;; fail
  else
    match bus_selinux_allows_acquire_service c name with
    | SELinuxOom => BUS_SET_OOM;; fail
    | SELinuxDenied => set_error DBUS_ERROR_ACCESS_DENIED;; fail
    | SELinuxAllowed =>
        if negb (bus_client_policy_check_can_own c name) then
          set_error DBUS_ERROR_ACCESS_DENIED;; fail
        else
          n ← bus_connection_get_n_services_owned c;
          if bus_context_get_max_services_per_connection <=? n then
            set_error DBUS_ERROR_LIMITS_EXCEEDED;; fail
          else
            service ← bus_registry_lookup name;
            old_owner_conn ←
              (match service with
               | None => mret None
               | Some s =>
                   primary ← bus_service_get_primary_owner s;
                   match primary with
                   | Some o => y ← get_owner o; mret (Some (owner_conn y))
                   | None => mret None
                   end
               end);
            s ← (match service with
                 | Some s => mret s
                 | None => bus_registry_ensure name c flags
                 end);
            result ← acquire_existing s old_owner_conn c flags;
            bus_activation_send_pending_auto_activation_messages;;
            mret result
    end.

(** The result of taking the name away from its old process is ignored. *)
Definition bus_registry_acquire_service (c : connection) (a_service_name : bytes) (flags : Z) :
    BM Z :=
  '(pid, base) ← _dbus_get_base_service_name_and_pid a_service_name;
  if pid =? 0 then acquire_named c a_service_name flags
  else
    attempt (_dbus_registry_release_old_service_win_if_unique c base pid);;
    acquire_named c base flags.

(** ** Requests to the bus driver *)

(** The reply: the message, its argument, and its place in the transaction. *)
Definition reply_with (c : connection) (service_reply : Z) : BM unit :=
  or_oom request;;
  or_oom request;;
  or_oom (bus_transaction_send_from_driver c (MethodReturn c service_reply)).

(** The arguments are those [dbus_message_get_args] found in the message. *)
Definition bus_driver_handle_acquire_service (c : connection) (name : bytes) (flags : Z) :
    BM unit :=
  _DBUS_ASSERT_ERROR_IS_CLEAR;;
  service_reply ← bus_registry_acquire_service c name flags;
  reply_with c service_reply.

Definition bus_driver_handle_release_service (c : connection) (name : bytes) : BM unit :=
  _DBUS_ASSERT_ERROR_IS_CLEAR;;
  service_reply ← bus_registry_release_service c name;
  reply_with c service_reply.

(** *** Hello *)

Definition get_clients : BM BusConnections := gets clients.
Definition set_clients (k : BusConnections) : BM unit := modify (with_clients k).

Definition bus_connection_is_active (c : connection) : BM bool :=
  k ← get_clients; mret (bool_decide (is_Some (conn_names k !! c))).

Definition with_names f k :=
  Connections (f (conn_names k)) (n_completed k) (completed_by_user k) (next_major_number k)
    (next_minor_number k).
Definition with_users f k :=
  Connections (conn_names k) (n_completed k) (f (completed_by_user k)) (next_major_number k)
    (next_minor_number k).
Definition with_one_more k :=
  Connections (conn_names k) (n_completed k + 1) (completed_by_user k) (next_major_number k)
    (next_minor_number k).
Definition with_numbers major minor k :=
  Connections (conn_names k) (n_completed k) (completed_by_user k) major minor.

Definition get_connections_for_uid (uid : Z) : BM Z :=
  k ← get_clients; mret (default 0 (completed_by_user k !! uid)).

Definition adjust_connections_for_uid (uid adjustment : Z) : BM unit :=
  current_count ← get_connections_for_uid uid;
  assert_ (0 <=? current_count);;
  let current_count := current_count + adjustment in
  assert_ (0 <=? current_count);;
  k ← get_clients;
  if current_count =? 0 then set_clients (with_users (delete uid) k)
  else
    request;;
    set_clients (with_users <[uid := current_count]> k).

Definition bus_connections_check_limits (c : connection) : BM unit :=
  k ← get_clients;
  assert_ (bool_decide (conn_names k !! c = None));;
  if bus_context_get_max_completed_connections <=? n_completed k then
    set_error DBUS_ERROR_LIMITS_EXCEEDED;; fail
  else
    match dbus_connection_get_unix_user c with
    | Some uid =>
        n ← get_connections_for_uid uid;
        if bus_context_get_max_connections_per_user <=? n then
          set_error DBUS_ERROR_LIMITS_EXCEEDED;; fail
        else mret tt
    | None => mret tt
    end.

(** [n += 1] of an [int]; an overflow is undefined. *)
Definition int_succ (n : Z) : option Z := if n + 1 <? 2 ^ 31 then Some (n + 1) else None.

(** [_dbus_string_append_int] *)
Definition print_int (n : Z) : bytes := lit (pretty n).

Definition unique_name (major minor : Z) : bytes :=
  lit ":" ++ print_int major ++ lit "." ++ print_int minor.

(** One round of the loop of [create_unique_client_name]: the next pair of numbers,
    as a name. *)
Definition next_unique_name : BM bytes :=
  k ← get_clients;
  (if next_minor_number k <=? 0 then
     major ← checked (int_succ (next_major_number k));
     set_clients (with_numbers major 0 k)
   else mret tt);;
  k ← get_clients;
  assert_ (0 <? next_major_number k);;
  assert_ (0 <=? next_minor_number k);;
  requests 4;;
  minor ← checked (int_succ (next_minor_number k));
  set_clients (with_numbers (next_major_number k) minor k);;
  mret (unique_name (next_major_number k) (next_minor_number k)).

(** Of one more name than there are services, one is not taken. *)
Fixpoint create_loop (fuel : nat) : BM bytes :=
  match fuel with
  | O => checked None
  | S fuel' =>
      name ← next_unique_name;
      found ← bus_registry_lookup name;
      match found with
      | None => mret name
      | Some _ => create_loop fuel'
      end
  end.

Definition create_unique_client_name : BM bytes :=
  b ← gets id; create_loop (S (size (service_hash b))).

(** The name is there before the policy, the counter of the user and the text for
    the log, and is taken back when one of them fails; the counter is not. *)
Definition bus_connection_complete (c : connection) (name : bytes) : BM unit :=
  get_connection c;;
  k ← get_clients;
  assert_ (bool_decide (conn_names k !! c = None));;
  or_oom request;;
  set_clients (with_names <[c := name]> k);;
  or_oom
    (on_failure
       (request;;
        (match dbus_connection_get_unix_user c with
         | Some uid => adjust_connections_for_uid uid 1
         | None => mret tt
         end);;
        request)
       (k ← get_clients; set_clients (with_names (delete c) k)));;
  k ← get_clients;
  set_clients (with_one_more k);;
  assert_ (0 <? n_completed k + 1).

Definition bus_driver_send_welcome_message (c : connection) : BM unit :=
  _DBUS_ASSERT_ERROR_IS_CLEAR;;
  k ← get_clients;
  name ← checked (conn_names k !! c);
  or_oom request;;
  or_oom request;;
  or_oom (bus_transaction_send_from_driver c (Welcome c name)).

Definition bus_driver_handle_hello (c : connection) : BM unit :=
  _DBUS_ASSERT_ERROR_IS_CLEAR;;
  active ← bus_connection_is_active c;
  if (active : bool) then set_error DBUS_ERROR_FAILED;; fail
  else
    bus_connections_check_limits c;;
    or_oom request;;
    name ← or_oom create_unique_client_name;
    bus_connection_complete c name;;
    or_oom request;;
    bus_driver_send_welcome_message c;;
    bus_registry_ensure name c 0;;
    active ← bus_connection_is_active c;
    assert_ active.

(** ** Dispatching *)

(** A connection that has not said Hello may send nothing else. *)
Definition check_registered (hello : bool) (c : connection) : BM unit :=
  active ← bus_connection_is_active c;
  if active || hello then mret tt
  else set_error DBUS_ERROR_ACCESS_DENIED;; fail.

(** The end of [bus_dispatch]: the error of a request goes to a connection that is
    still there; without memory the transaction is cancelled.  The result says
    whether it was. *)
Definition send_oom_error (c : connection) : BM bool :=
  modify (with_delivered (λ l, l ++ [ErrorReply c DBUS_ERROR_NO_MEMORY]));;
  bus_transaction_cancel_and_free;;
  mret true.

Definition bus_transaction_send_error_reply (c : connection) (e : error_name) : BM unit :=
  request;;
  bus_transaction_send_from_driver c (ErrorReply c e).

Definition report_error (c : connection) (e : error_name) : BM bool :=
  if negb (dbus_connection_get_is_connected c) then mret false
  else if decide (e = DBUS_ERROR_NO_MEMORY) then send_oom_error c
  else
    sent ← attempt (bus_transaction_send_error_reply c e);
    if (sent : bool) then mret false else send_oom_error c.

Definition finish_dispatch (c : connection) : BM unit :=
  b ← gets id;
  cancelled ←
    ((match error b with
      | None => mret false
      | Some e =>
          cancelled ← report_error c e;
          modify (with_error None);;
          mret cancelled
      end) : BM bool);
  if (cancelled : bool) then mret tt else bus_transaction_execute_and_free.

(** [bus_dispatch] of a message to the driver that the rules for the sender let
    through: the transaction, the sender field, the method, the match rules. *)
Definition bus_dispatch (hello : bool) (c : connection) (bus_driver_handle_message : BM unit) :
    BM unit :=
  dbus_connection_ref c;;
  attempt (or_oom request;;
           active ← bus_connection_is_active c;
           (if (active : bool) then or_oom request else mret tt);;
           check_registered hello c;;
           bus_driver_handle_message;;
           or_oom request);;
  finish_dispatch c;;
  dbus_connection_unref c.

End registry.
