(* ===== verification/Ledger.v ===== *)
(** * Ledger: reference counts of the name registry

    The objects of [Services] carry reference counts, and connections carry the
    list and the number of the services they own.  This file splits the state of
    the bus into what the registry is about (which name has which queue of owners,
    [reg]) and the references held by the cancel hooks and by running code
    ([refs]); [rep] says that every counter of the state is the one these ask for.
    Each operation of src/bus/services.c then gets a rule that says how it changes
    [reg], the references and the transaction, with what is left when memory runs
    out.  [wf] and [live] are the invariant: queues without duplicates, owners
    that belong to their service, no pointer to freed memory, no object without a
    reference. *)

From stdpp Require Import gmap.
From S2P Require Import Prelude Search Names Types Services.

(** ** Ghost view of the state *)

(** A place in the queue of a name. *)
Record claim := Claim { who : connection; may_replace : bool; no_queue : bool }.

(** The objects without their counters. *)
Record reg := Reg {
  r_hash : gmap bytes service_ptr;
  r_service : gmap service_ptr (bytes * list owner_ptr);
  r_owner : gmap owner_ptr (service_ptr * claim);
  r_base : gmap connection nat
}.

(** The references that neither the hash nor a queue holds. *)
Record refs := Refs {
  l_service : list service_ptr;
  l_owner : list owner_ptr;
  l_conn : list connection
}.

(** The rest of the state. *)
Record tx := Tx {
  t_pids : gmap bytes Z;
  t_hooks : list CancelHook;
  t_messages : list signal;
  t_delivered : list signal;
  t_error : option error_name;
  t_clients : BusConnections
}.

#[global] Arguments count_occ : simpl never.
Abbreviation cnt := (count_occ Nat.eq_dec).

Definition service_refs (r : reg) (k : refs) (s : service_ptr) (n : bytes) : nat :=
  ((if bool_decide (r_hash r !! n = Some s) then 1 else 0) + cnt (l_service k) s)%nat.

Definition links (r : reg) (s : service_ptr) : list owner_ptr :=
  from_option snd [] (r_service r !! s).

Definition owner_refs (r : reg) (k : refs) (o : owner_ptr) (s : service_ptr) : nat :=
  (cnt (links r s) o + cnt (l_owner k) o)%nat.

Definition the_service (r : reg) (k : refs) (s : service_ptr) (x : bytes * list owner_ptr) :
    BusService := Service (service_refs r k s (fst x)) (fst x) (snd x).

Definition the_owner (r : reg) (k : refs) (o : owner_ptr) (x : service_ptr * claim) : BusOwner :=
  Owner (owner_refs r k o (fst x)) (fst x) (who (snd x)) (may_replace (snd x)) (no_queue (snd x)).

(** The services a connection has an owner object for. *)
Definition owned_in (m : gmap owner_ptr (service_ptr * claim)) (c : connection) :
    list service_ptr :=
  (λ x, fst (snd x)) <$> filter (λ x, who (snd (snd x)) = c) (map_to_list m).
Definition owned (r : reg) (c : connection) : list service_ptr := owned_in (r_owner r) c.

Definition conn_ok (r : reg) (k : refs) (c : connection) (d : option BusConnectionData) : Prop :=
  match d, r_base r !! c with
  | Some d, Some n =>
      conn_refcount d = (n + cnt (l_conn k) c)%nat ∧ services_owned d ≡ₚ owned r c
      ∧ n_services_owned d = Z.of_nat (length (owned r c))
  | None, None => True
  | _, _ => False
  end.

(** The counters of the state are those the ghost view asks for. *)
Record rep (r : reg) (k : refs) (t : tx) (b : bus) : Prop := {
  rep_hash : service_hash b = r_hash r;
  rep_service s : service_pool b !! s = the_service r k s <$> r_service r !! s;
  rep_owner o : owner_pool b !! o = the_owner r k o <$> r_owner r !! o;
  rep_conn c : conn_ok r k c (connections b !! c);
  rep_tx : t = Tx (unique_pid_hash b) (cancel_hooks b) (messages b) (delivered b) (error b) (clients b)
}.

(** ** Rules for the primitive operations *)

Section rules.
Context `{BC : BusContext}.
Implicit Types (r : reg) (k : refs) (t : tx).

Lemma get_service_rule {B} r k t s x (c : BusService → BM B) Q F L :
  r_service r !! s = Some x → hoare (rep r k t) (c (the_service r k s x)) Q F L →
  hoare (rep r k t) (get_service s ≫= c) Q F L.
Proof.
  intros Hs Hc b m Hb. specialize (Hc b m Hb). unfold get_service.
  cbv [mbind M_bind gets checked id]. rewrite (rep_service _ _ _ _ Hb), Hs. exact Hc.
Qed.

Lemma get_owner_rule {B} r k t o x (c : BusOwner → BM B) Q F L :
  r_owner r !! o = Some x → hoare (rep r k t) (c (the_owner r k o x)) Q F L →
  hoare (rep r k t) (get_owner o ≫= c) Q F L.
Proof.
  intros Hs Hc b m Hb. specialize (Hc b m Hb). unfold get_owner.
  cbv [mbind M_bind gets checked id]. rewrite (rep_owner _ _ _ _ Hb), Hs. exact Hc.
Qed.

(** Reading a connection. *)
Lemma get_connection_rule {B} r k t c n (f : BusConnectionData → BM B) Q F L :
  r_base r !! c = Some n →
  (∀ d, conn_ok r k c (Some d) →
    hoare (λ b, rep r k t b ∧ connections b !! c = Some d) (f d) Q F L) →
  hoare (rep r k t) (get_connection c ≫= f) Q F L.
Proof.
  intros Hn Hf b m Hb. unfold get_connection. cbv [mbind M_bind gets checked id].
  pose proof (rep_conn _ _ _ _ Hb c) as Hc.
  destruct (connections b !! c) as [d|] eqn:E; [by apply (Hf d Hc b m)|].
  unfold conn_ok in Hc. by rewrite Hn in Hc.
Qed.

(** Counting. *)
Lemma cnt_cons_eq x l : cnt (x :: l) x = S (cnt l x).
Proof. by apply count_occ_cons_eq. Qed.
Lemma cnt_cons_ne x y l : y ≠ x → cnt (y :: l) x = cnt l x.
Proof. intros. by apply count_occ_cons_neq. Qed.

Lemma cnt_app x l1 l2 : cnt (l1 ++ l2) x = (cnt l1 x + cnt l2 x)%nat.
Proof. apply count_occ_app. Qed.
Lemma cnt_perm x l1 l2 : l1 ≡ₚ l2 → cnt l1 x = cnt l2 x.
Proof. intros H. by apply (Permutation_count_occ Nat.eq_dec). Qed.
Lemma cnt_pos x l : (0 < cnt l x)%nat ↔ x ∈ l.
Proof. rewrite list_elem_of_In. symmetry. apply (count_occ_In Nat.eq_dec). Qed.
Lemma cnt_none x l : x ∉ l → cnt l x = 0%nat.
Proof. intros H. rewrite <- cnt_pos in H. lia. Qed.

(** The order of the references does not matter. *)
Lemma rep_perm r ls ls' lo lc t b :
  ls ≡ₚ ls' → rep r (Refs ls lo lc) t b → rep r (Refs ls' lo lc) t b.
Proof.
  intros HP [H1 H2 H3 H4 H5]. split; try done. intros s. rewrite H2.
  destruct (r_service r !! s) as [x|]; [|done]. simpl. unfold the_service, service_refs. simpl.
  by rewrite (cnt_perm _ _ _ HP).
Qed.

(** A pool changed at one address. *)
Lemma pool_insert {X Y} (pool : gmap nat Y) (view : gmap nat X) (f f' : nat → X → Y) a x y :
  (∀ i, pool !! i = f i <$> view !! i) → view !! a = Some x → y = f' a x →
  (∀ i z, i ≠ a → view !! i = Some z → f i z = f' i z) →
  ∀ i, <[a := y]> pool !! i = f' i <$> view !! i.
Proof.
  intros Hp Ha -> Hne i. destruct (decide (i = a)) as [->|Hi].
  - by rewrite lookup_insert_eq, Ha.
  - rewrite lookup_insert_ne, Hp by done. destruct (view !! i) eqn:E; [|done]. simpl.
    by rewrite (Hne i).
Qed.

Lemma pool_same {X Y} (pool : gmap nat Y) (view : gmap nat X) (f f' : nat → X → Y) :
  (∀ i, pool !! i = f i <$> view !! i) →
  (∀ i z, view !! i = Some z → f i z = f' i z) →
  ∀ i, pool !! i = f' i <$> view !! i.
Proof.
  intros Hp Hf i. rewrite Hp. destruct (view !! i) eqn:E; [|done]. simpl. by rewrite (Hf i).
Qed.

Lemma service_ref_rule r ls lo lc t s x F L :
  r_service r !! s = Some x → (0 < service_refs r (Refs ls lo lc) s (fst x))%nat →
  hoare (rep r (Refs ls lo lc) t) (bus_service_ref s)
    (λ _, rep r (Refs (s :: ls) lo lc) t) F L.
Proof.
  intros Hs Hpos. unfold bus_service_ref.
  apply (get_service_rule _ _ _ _ x); [done|]. apply hoare_assert; [by apply Nat.ltb_lt|].
  apply hoare_modify. intros b [H1 H2 H3 H4 H5]. split; try done. simpl.
  apply (pool_insert _ _ _ _ _ x _ H2 Hs).
  - unfold the_service, service_refs. simpl. rewrite cnt_cons_eq. f_equal. lia.
  - intros i z Hi _. unfold the_service, service_refs. simpl. by rewrite cnt_cons_ne.
Qed.

Lemma owner_ref_rule r ls lo lc t o x F L :
  r_owner r !! o = Some x → (0 < owner_refs r (Refs ls lo lc) o (fst x))%nat →
  hoare (rep r (Refs ls lo lc) t) (bus_owner_ref o)
    (λ _, rep r (Refs ls (o :: lo) lc) t) F L.
Proof.
  intros Hs Hpos. unfold bus_owner_ref.
  apply (get_owner_rule _ _ _ _ x); [done|]. apply hoare_assert; [by apply Nat.ltb_lt|].
  apply hoare_modify. intros b [H1 H2 H3 H4 H5]. split; try done. simpl.
  apply (pool_insert _ _ _ _ _ x _ H3 Hs).
  - unfold the_owner, owner_refs. simpl. rewrite cnt_cons_eq. f_equal. lia.
  - intros i z Hi _. unfold the_owner, owner_refs. simpl. by rewrite cnt_cons_ne.
Qed.

Lemma conn_ref_rule r ls lo lc t c n F L :
  r_base r !! c = Some n →
  hoare (rep r (Refs ls lo lc) t) (dbus_connection_ref c)
    (λ _, rep r (Refs ls lo (c :: lc)) t) F L.
Proof.
  intros Hn. unfold dbus_connection_ref.
  apply (get_connection_rule _ _ _ _ n); [done|]. intros d Hd.
  apply hoare_modify. intros b [[H1 H2 H3 H4 H5] _]. split; try done.
  intros c'. specialize (H4 c'). unfold conn_ok in *. rewrite Hn in Hd. simpl in *.
  destruct (decide (c' = c)) as [->|Hc].
  - rewrite lookup_insert_eq, Hn, cnt_cons_eq. simpl. intuition lia.
  - by rewrite lookup_insert_ne, cnt_cons_ne by done.
Qed.

Lemma conn_unref_rule r ls lo lc t c n F L :
  r_base r !! c = Some n → (0 < n)%nat →
  hoare (rep r (Refs ls lo (c :: lc)) t) (dbus_connection_unref c)
    (λ _, rep r (Refs ls lo lc) t) F L.
Proof.
  intros Hn Hpos. unfold dbus_connection_unref.
  apply (get_connection_rule _ _ _ _ n); [done|]. intros d Hd.
  unfold conn_ok in Hd. rewrite Hn in Hd. simpl in Hd. rewrite cnt_cons_eq in Hd.
  apply hoare_assert; [apply Nat.ltb_lt; lia|].
  apply hoare_modify. intros b [[H1 H2 H3 H4 H5] _]. split; try done.
  intros c'. specialize (H4 c'). unfold conn_ok in *. simpl in *.
  destruct (decide (c' = c)) as [->|Hc].
  - rewrite lookup_insert_eq, Hn. simpl. intuition lia.
  - by rewrite lookup_insert_ne by done; rewrite cnt_cons_ne in H4.
Qed.

(** Dropping a reference that is not the last one, and the last one. *)
Lemma service_unref_rule r ls lo lc t s x F L :
  r_service r !! s = Some x → (0 < service_refs r (Refs ls lo lc) s (fst x))%nat →
  hoare (rep r (Refs (s :: ls) lo lc) t) (bus_service_unref s)
    (λ _, rep r (Refs ls lo lc) t) F L.
Proof.
  intros Hs Hpos. unfold bus_service_unref.
  assert (service_refs r (Refs (s :: ls) lo lc) s (fst x)
          = S (service_refs r (Refs ls lo lc) s (fst x))) as E.
  { unfold service_refs. simpl. rewrite cnt_cons_eq. lia. }
  apply (get_service_rule _ _ _ _ x); [done|]. apply hoare_assert; [apply Nat.ltb_lt; simpl; lia|].
  simpl. rewrite E. replace (S _ - 1)%nat with (service_refs r (Refs ls lo lc) s (fst x)) by lia.
  rewrite (proj2 (Nat.eqb_neq _ _)) by lia.
  eapply hoare_bind; [apply (hoare_modify _ _ (rep r (Refs ls lo lc) t))|
    intros []; cbv beta; by apply hoare_ret].
  intros b [H1 H2 H3 H4 H5]. split; try done. simpl.
  apply (pool_insert _ _ _ _ _ x _ H2 Hs); [done|].
  intros i z Hi _. unfold the_service, service_refs. simpl. by rewrite cnt_cons_ne.
Qed.

Definition without_service (r : reg) (s : service_ptr) : reg :=
  Reg (r_hash r) (delete s (r_service r)) (r_owner r) (r_base r).

Lemma pool_delete {X Y} (pool : gmap nat Y) (view : gmap nat X) (f f' : nat → X → Y) a :
  (∀ i, pool !! i = f i <$> view !! i) →
  (∀ i z, i ≠ a → view !! i = Some z → f i z = f' i z) →
  ∀ i, delete a pool !! i = f' i <$> delete a view !! i.
Proof.
  intros Hp Hne i. destruct (decide (i = a)) as [->|Hi].
  - by rewrite !lookup_delete_eq.
  - rewrite !lookup_delete_ne, Hp by done. destruct (view !! i) eqn:E; [|done]. simpl.
    by rewrite (Hne i).
Qed.

Lemma service_free_rule r ls lo lc t s n F L :
  r_service r !! s = Some (n, []) → service_refs r (Refs ls lo lc) s n = 0%nat →
  hoare (rep r (Refs (s :: ls) lo lc) t) (bus_service_unref s)
    (λ _, rep (without_service r s) (Refs ls lo lc) t) F L.
Proof.
  intros Hs Hz. unfold bus_service_unref.
  assert (service_refs r (Refs (s :: ls) lo lc) s n = 1%nat) as E.
  { unfold service_refs in *. simpl in *. rewrite cnt_cons_eq. lia. }
  apply (get_service_rule _ _ _ _ (n, [])); [done|].
  apply hoare_assert; [apply Nat.ltb_lt; simpl; lia|].
  simpl. rewrite E. change (1 - 1)%nat with 0%nat. change (0 =? 0)%nat with true. cbv iota.
  intros b m [H1 H2 H3 H4 H5]. split; [|done]. split; try done.
  - intros i. change (delete s (<[s:=Service 0 n []]> (service_pool b)) !! i
      = the_service (without_service r s) (Refs ls lo lc) i <$> delete s (r_service r) !! i).
    rewrite delete_insert_eq. revert i. apply (pool_delete _ _ _ _ _ H2).
    intros i z Hi _. unfold the_service, service_refs. simpl. by rewrite cnt_cons_ne.
  - apply (pool_same _ _ _ _ H3). intros o [s' cl] _. unfold the_owner, owner_refs, links. simpl.
    destruct (decide (s' = s)) as [->|]; [by rewrite lookup_delete_eq, Hs|].
    by rewrite lookup_delete_ne.
Qed.

Lemma owned_insert m o s cl c :
  m !! o = None →
  owned_in (<[o := (s, cl)]> m) c ≡ₚ (if decide (who cl = c) then [s] else []) ++ owned_in m c.
Proof.
  intros Ho. unfold owned_in. rewrite map_to_list_insert by done. rewrite filter_cons. simpl.
  destruct (decide (who cl = c)); done.
Qed.

Lemma owned_delete m o s cl c :
  m !! o = Some (s, cl) →
  owned_in m c ≡ₚ (if decide (who cl = c) then [s] else []) ++ owned_in (delete o m) c.
Proof.
  intros Ho. rewrite <- (insert_delete_id m o (s, cl)) at 1 by done.
  apply owned_insert. apply lookup_delete_eq.
Qed.

Lemma owned_update m o s cl cl' c :
  m !! o = Some (s, cl) → who cl' = who cl →
  owned_in (<[o := (s, cl')]> m) c ≡ₚ owned_in m c.
Proof.
  intros Ho Hw. rewrite <- insert_delete_eq, owned_insert by apply lookup_delete_eq.
  rewrite (owned_delete m o s cl) by done. by rewrite Hw.
Qed.

Lemma remove_first_perm x l : x ∈ l → l ≡ₚ x :: remove_first x l.
Proof.
  induction l as [|y l IH]; [by intros ?%not_elem_of_nil|]. simpl.
  intros [->|H]%elem_of_cons; [by rewrite decide_True|].
  destruct (decide (x = y)) as [->|]; [done|]. rewrite Permutation_swap, <- IH by done. done.
Qed.

Lemma remove_last_perm x l : x ∈ l → l ≡ₚ x :: remove_last x l.
Proof.
  intros H. etransitivity; [apply Permutation_rev|].
  etransitivity; [apply (remove_first_perm x)|].
  - by rewrite list_elem_of_In, <- in_rev, <- list_elem_of_In.
  - constructor. apply Permutation_rev.
Qed.

Lemma owner_unref_rule r ls lo lc t o x F L :
  r_owner r !! o = Some x → (0 < owner_refs r (Refs ls lo lc) o (fst x))%nat →
  hoare (rep r (Refs ls (o :: lo) lc) t) (bus_owner_unref o)
    (λ _, rep r (Refs ls lo lc) t) F L.
Proof.
  intros Hs Hpos. unfold bus_owner_unref.
  assert (owner_refs r (Refs ls (o :: lo) lc) o (fst x)
          = S (owner_refs r (Refs ls lo lc) o (fst x))) as E.
  { unfold owner_refs. simpl. rewrite cnt_cons_eq. lia. }
  apply (get_owner_rule _ _ _ _ x); [done|]. apply hoare_assert; [apply Nat.ltb_lt; simpl; lia|].
  simpl. rewrite E. replace (S _ - 1)%nat with (owner_refs r (Refs ls lo lc) o (fst x)) by lia.
  rewrite (proj2 (Nat.eqb_neq _ _)) by lia.
  eapply hoare_bind; [apply (hoare_modify _ _ (rep r (Refs ls lo lc) t))|
    intros []; cbv beta; by apply hoare_ret].
  intros b [H1 H2 H3 H4 H5]. split; try done. simpl.
  apply (pool_insert _ _ _ _ _ x _ H3 Hs); [done|].
  intros i z Hi _. unfold the_owner, owner_refs. simpl. by rewrite cnt_cons_ne.
Qed.

Definition without_owner (r : reg) (o : owner_ptr) : reg :=
  Reg (r_hash r) (r_service r) (delete o (r_owner r)) (r_base r).

Lemma owner_free_rule r ls lo lc t o s cl y n F L :
  r_owner r !! o = Some (s, cl) → r_service r !! s = Some y → r_base r !! who cl = Some n →
  owner_refs r (Refs ls lo lc) o s = 0%nat →
  hoare (rep r (Refs ls (o :: lo) lc) t) (bus_owner_unref o)
    (λ _, rep (without_owner r o) (Refs ls lo lc) t) F L.
Proof.
  intros Ho Hs Hn Hz b m Hb. pose proof Hb as [H1 H2 H3 H4 H5].
  pose proof (rep_conn _ _ _ _ Hb (who cl)) as Hc. unfold conn_ok in Hc. rewrite Hn in Hc.
  destruct (connections b !! who cl) as [d|] eqn:Ed; [|done]. destruct Hc as (C1 & C2 & C3).
  pose proof (owned_delete _ _ _ _ (who cl) Ho) as HP. rewrite decide_True in HP by done.
  assert (owner_refs r (Refs ls (o :: lo) lc) o s = 1%nat) as E.
  { unfold owner_refs in *. simpl in *. rewrite cnt_cons_eq. lia. }
  cbv [bus_owner_unref get_owner bus_connection_remove_owned_service get_connection get_service
       mbind M_bind gets checked id set_owner set_connection modify assert_ dealloc_owner].
  rewrite H3, Ho. simpl. rewrite E. simpl. change (0 <? 1)%nat with true. cbv iota.
  change (1 - 1 =? 0)%nat with true. cbv iota. rewrite Ed. simpl.
  assert (length (owned r (who cl)) = S (length (owned_in (delete o (r_owner r)) (who cl)))) as El.
  { unfold owned. by rewrite (Permutation_length HP). }
  rewrite C3, El. rewrite (proj2 (Z.leb_le 0 _)) by lia. simpl. rewrite H2, Hs. simpl.
  split; [|done]. split; try done.
  - simpl. intros i. rewrite delete_insert_eq. revert i. apply (pool_delete _ _ _ _ _ H3).
    intros i z Hi _. unfold the_owner, owner_refs. simpl. by rewrite cnt_cons_ne.
  - simpl. intros c'. specialize (H4 c'). unfold conn_ok, owned in *. simpl in *.
    destruct (decide (c' = who cl)) as [->|Hne].
    + rewrite lookup_insert_eq, Hn. simpl. split; [done|]. split; [|lia].
      assert (s ∈ services_owned d) as Hin by (rewrite C2, HP; by left).
      apply (Permutation_cons_inv (a := s)). etransitivity; [symmetry; apply (remove_last_perm _ _ Hin)|].
      by rewrite C2.
    + rewrite lookup_insert_ne by done.
      pose proof (owned_delete _ _ _ _ c' Ho) as HP'. rewrite decide_False in HP' by done.
      simpl in HP'. destruct (connections b !! c'), (r_base r !! c'); try done.
      by rewrite <- HP'.
Qed.

(** Changing a queue: links and loose references to owners of the service are
    exchanged. *)
Definition with_links (r : reg) (s : service_ptr) (n : bytes) (l : list owner_ptr) : reg :=
  Reg (r_hash r) (<[s := (n, l)]> (r_service r)) (r_owner r) (r_base r).

Lemma set_owners_rule r ls lo lo' lc t s n l l' F L :
  r_service r !! s = Some (n, l) → l ++ lo ≡ₚ l' ++ lo' →
  (∀ o s' cl, o ∈ l ∨ o ∈ l' → r_owner r !! o = Some (s', cl) → s' = s) →
  hoare (rep r (Refs ls lo lc) t) (set_owners s l')
    (λ _, rep (with_links r s n l') (Refs ls lo' lc) t) F L.
Proof.
  intros Hs HP Hown. unfold set_owners. apply (get_service_rule _ _ _ _ (n, l)); [done|].
  apply hoare_modify. intros b [H1 H2 H3 H4 H5]. split; try done.
  - simpl. intros i. destruct (decide (i = s)) as [->|Hi].
    + by rewrite !lookup_insert_eq.
    + by rewrite !lookup_insert_ne, H2 by done.
  - simpl. apply (pool_same _ _ _ _ H3). intros o [s' cl] Ho.
    unfold the_owner, owner_refs, links. simpl. f_equal.
    pose proof (cnt_perm o _ _ HP) as Hc. rewrite !cnt_app in Hc.
    destruct (decide (s' = s)) as [->|Hne].
    + rewrite lookup_insert_eq, Hs. simpl. lia.
    + rewrite lookup_insert_ne by done.
      assert (o ∉ l ∧ o ∉ l') as [E1%cnt_none E2%cnt_none].
      { split; intros Hin; apply Hne; apply (Hown o s' cl); auto. }
      lia.
Qed.

(** Entering a service into the hash uses one reference, leaving it gives one
    back. *)
Definition with_hash (r : reg) (h : gmap bytes service_ptr) : reg :=
  Reg h (r_service r) (r_owner r) (r_base r).

Lemma hash_insert_rule r ls lo lc t s n l F L :
  r_service r !! s = Some (n, l) → r_hash r !! n = None →
  hoare (rep r (Refs (s :: ls) lo lc) t) (modify (with_service_hash <[n := s]>))
    (λ _, rep (with_hash r (<[n := s]> (r_hash r))) (Refs ls lo lc) t) F L.
Proof.
  intros Hs Hn. apply hoare_modify. intros b [H1 H2 H3 H4 H5]. split; try done.
  - simpl. by rewrite H1.
  - simpl. apply (pool_same _ _ _ _ H2). intros i [n' l'] Hi.
    unfold the_service, service_refs. simpl. f_equal.
    destruct (decide (n' = n)) as [->|Hne].
    + rewrite lookup_insert_eq, Hn. rewrite bool_decide_eq_false_2 by done.
      destruct (decide (i = s)) as [->|His].
      * rewrite bool_decide_eq_true_2, cnt_cons_eq by done. lia.
      * rewrite bool_decide_eq_false_2, cnt_cons_ne by congruence. done.
    + rewrite lookup_insert_ne by done. rewrite cnt_cons_ne; [done|]. intros ->. congruence.
Qed.

Lemma hash_delete_rule r ls lo lc t s n l F L :
  r_service r !! s = Some (n, l) → r_hash r !! n = Some s →
  hoare (rep r (Refs ls lo lc) t) (modify (with_service_hash (delete n)))
    (λ _, rep (with_hash r (delete n (r_hash r))) (Refs (s :: ls) lo lc) t) F L.
Proof.
  intros Hs Hn. apply hoare_modify. intros b [H1 H2 H3 H4 H5]. split; try done.
  - simpl. by rewrite H1.
  - simpl. apply (pool_same _ _ _ _ H2). intros i [n' l'] Hi.
    unfold the_service, service_refs. simpl. f_equal.
    destruct (decide (n' = n)) as [->|Hne].
    + rewrite lookup_delete_eq, Hn. rewrite (bool_decide_eq_false_2 (None = _)) by done.
      destruct (decide (i = s)) as [->|His].
      * rewrite bool_decide_eq_true_2, cnt_cons_eq by done. lia.
      * rewrite bool_decide_eq_false_2, cnt_cons_ne by congruence. done.
    + rewrite lookup_delete_ne by done. rewrite cnt_cons_ne; [done|]. intros ->. congruence.
Qed.

(** The hash entry is absent already. *)
Lemma hash_delete_none_rule r k t n F L :
  r_hash r !! n = None →
  hoare (rep r k t) (modify (with_service_hash (delete n))) (λ _, rep r k t) F L.
Proof.
  intros Hn. apply hoare_modify. intros b [H1 H2 H3 H4 H5]. split; try done.
  simpl. by rewrite H1, delete_id.
Qed.

(** Flags. *)
Definition with_owner (r : reg) (o : owner_ptr) (x : service_ptr * claim) : reg :=
  Reg (r_hash r) (r_service r) (<[o := x]> (r_owner r)) (r_base r).

Definition claim_with (c : connection) (flags : Z) : claim :=
  Claim c (flag flags DBUS_NAME_FLAG_ALLOW_REPLACEMENT) (flag flags DBUS_NAME_FLAG_DO_NOT_QUEUE).

Lemma set_flags_rule r k t o s cl flags F L :
  r_owner r !! o = Some (s, cl) →
  hoare (rep r k t) (bus_owner_set_flags o flags)
    (λ _, rep (with_owner r o (s, claim_with (who cl) flags)) k t) F L.
Proof.
  intros Ho. unfold bus_owner_set_flags. apply (get_owner_rule _ _ _ _ (s, cl)); [done|].
  apply hoare_modify. intros b [H1 H2 H3 H4 H5]. split; try done.
  - simpl. intros i. destruct (decide (i = o)) as [->|Hi].
    + by rewrite !lookup_insert_eq.
    + by rewrite !lookup_insert_ne, H3 by done.
  - intros c. specialize (H4 c). unfold conn_ok, owned in *. simpl in *.
    pose proof (owned_update _ _ _ _ (claim_with (who cl) flags) c Ho eq_refl) as HP.
    destruct (connections b !! c), (r_base r !! c); try done.
    by rewrite HP.
Qed.

(** ** Requests for memory, errors and signals *)

Definition with_oom (t : tx) : tx :=
  Tx (t_pids t) (t_hooks t) (t_messages t) (t_delivered t) (Some DBUS_ERROR_NO_MEMORY) (t_clients t).

Lemma set_oom_run r k t b m :
  t_error t = None → rep r k t b → ∃ b', BUS_SET_OOM b m = Ok tt b' m ∧ rep r k (with_oom t) b'.
Proof.
  intros He [H1 H2 H3 H4 H5]. unfold BUS_SET_OOM. cbv [mbind M_bind gets id].
  rewrite H5 in He. simpl in He. rewrite He. eexists. split; [done|]. split; try done.
  by rewrite H5.
Qed.

Lemma or_oom_rule {A} P (c : BM A) Q r k t L :
  t_error t = None → hoare P c Q (rep r k t) L → hoare P (or_oom c) Q (rep r k (with_oom t)) L.
Proof.
  intros He Hc. eapply hoare_on_failure; [exact Hc|]. intros b m Hb.
  destruct (set_oom_run _ _ _ _ m He Hb) as (b' & -> & Hb'). done.
Qed.

Lemma error_clear_rule {B} r k t (c : BM B) Q F L :
  t_error t = None → hoare (rep r k t) c Q F L →
  hoare (rep r k t) (_DBUS_ASSERT_ERROR_IS_CLEAR;; c) Q F L.
Proof.
  intros He Hc b m Hb. unfold _DBUS_ASSERT_ERROR_IS_CLEAR. cbv [mbind M_bind gets id].
  rewrite (rep_tx _ _ _ _ Hb) in He. simpl in He. rewrite He. exact (Hc b m Hb).
Qed.

(** Whether a message of the driver gets to its receiver, when [sent] was delivered
    before. *)
Definition passes (sent : list signal) (x : signal) : bool :=
  match receiver x with
  | Some c => driver_message_allowed sent c x && dbus_connection_get_is_connected c
  | None => true
  end.

Definition with_message (t : tx) (x : signal) : tx :=
  Tx (t_pids t) (t_hooks t) (t_messages t ++ List.filter (passes (t_delivered t)) [x])
    (t_delivered t) (t_error t) (t_clients t).

Lemma with_message_eq t x :
  with_message t x
  = Tx (t_pids t) (t_hooks t) (if passes (t_delivered t) x then t_messages t ++ [x] else t_messages t)
      (t_delivered t) (t_error t) (t_clients t).
Proof. unfold with_message. simpl. destruct (passes _ x); [done|]. by rewrite app_nil_r. Qed.

Lemma add_message_rule r k t x F L :
  passes (t_delivered t) x = true →
  hoare (rep r k t) (add_message x) (λ _, rep r k (with_message t x)) F L.
Proof.
  intros Hx. rewrite with_message_eq, Hx. apply hoare_modify. intros b [H1 H2 H3 H4 H5].
  split; try done. by rewrite H5.
Qed.

Lemma from_driver_rule r k t c x L :
  receiver x = Some c →
  hoare (rep r k t) (bus_transaction_send_from_driver c x) (λ _, rep r k (with_message t x))
    (rep r k t) L.
Proof.
  intros Hx. eapply hoare_bind; [apply request_rule|]. intros []; cbv beta.
  intros b m Hb. cbv [mbind M_bind gets id].
  replace (delivered b) with (t_delivered t) by (by rewrite (rep_tx _ _ _ _ Hb)). revert b m Hb.
  destruct (driver_message_allowed (t_delivered t) c x) eqn:Ea; cbn [negb].
  - unfold bus_transaction_send. destruct (dbus_connection_get_is_connected c) eqn:Ec; cbn [negb].
    + eapply hoare_bind; [apply request_rule|]. intros []; cbv beta. apply add_message_rule.
      unfold passes. by rewrite Hx, Ea, Ec.
    + apply hoare_ret. rewrite with_message_eq. unfold passes. rewrite Hx, Ea, Ec. by destruct t.
  - apply hoare_ret. rewrite with_message_eq. unfold passes. rewrite Hx, Ea. by destruct t.
Qed.

Lemma send_rule r k t x L :
  t_error t = None →
  hoare (rep r k t) (send x) (λ _, rep r k (with_message t x)) (rep r k (with_oom t)) L.
Proof.
  intros He. unfold send. apply error_clear_rule; [done|].
  do 3 (eapply hoare_bind; [apply or_oom_rule; [done|apply request_rule]|]; intros []; cbv beta).
  apply or_oom_rule; [done|]. destruct (receiver x) as [c|] eqn:Hx; [by apply from_driver_rule|].
  eapply hoare_bind; [apply request_rule|]. intros []; cbv beta. apply add_message_rule.
  unfold passes. by rewrite Hx.
Qed.

(** An operation that ran out of memory: the registry is as it was, messages may
    have been added to the transaction. *)
Definition same_tx (t t' : tx) : Prop :=
  t_hooks t' = t_hooks t ∧ t_pids t' = t_pids t ∧ t_delivered t' = t_delivered t
  ∧ t_clients t' = t_clients t.

Definition oom_in (r : reg) (k : refs) (t : tx) (b : bus) : Prop :=
  ∃ t', same_tx t t' ∧ t_error t' = Some DBUS_ERROR_NO_MEMORY ∧ rep r k t' b.

Lemma oom_stops r k t t' b : same_tx t t' → rep r k (with_oom t') b → oom_in r k t b.
Proof. intros Ht Hb. by exists (with_oom t'). Qed.

Lemma owner_new_rule r ls lo lc t s c flags n L :
  r_base r !! c = Some n →
  (∀ o, r_owner r !! o = None → o ∉ links r s ∧ o ∉ lo) →
  hoare (rep r (Refs ls lo lc) t) (bus_owner_new s c flags)
    (λ o b, r_owner r !! o = None
            ∧ rep (with_owner r o (s, claim_with c flags)) (Refs ls (o :: lo) lc) t b)
    (rep r (Refs ls lo lc) t) L.
Proof.
  intros Hn Hfresh. unfold bus_owner_new.
  eapply hoare_bind; [apply request_rule|]. intros []; cbv beta.
  intros b m Hb. pose proof Hb as [H1 H2 H3 H4 H5].
  set (o := fresh (dom (owner_pool b))).
  assert (owner_pool b !! o = None) as Ho by (apply not_elem_of_dom, is_fresh).
  assert (r_owner r !! o = None) as Hr.
  { rewrite H3 in Ho. by destruct (r_owner r !! o). }
  destruct (Hfresh o Hr) as [F1%cnt_none F2%cnt_none].
  pose proof (H4 c) as Hc. unfold conn_ok in Hc. rewrite Hn in Hc.
  destruct (connections b !! c) as [d|] eqn:Ed; [|done]. destruct Hc as (C1 & C2 & C3).
  cbv [bus_connection_add_owned_service bus_connection_add_owned_service_link get_connection
       bus_owner_set_flags get_owner on_failure mbind M_bind gets checked id set_owner
       set_connection modify dealloc_owner request mret M_ret].
  fold o. destruct (alloc m) as [[] m'] eqn:Ea; simpl.
  - rewrite Ed. simpl. rewrite lookup_insert_eq. simpl.
    split; [|by eapply alloc_mono]. split; [done|]. split; try done.
    + simpl. intros i. rewrite insert_insert_eq. destruct (decide (i = o)) as [->|Hi].
      * rewrite !lookup_insert_eq. simpl. unfold the_owner, owner_refs. simpl.
        unfold links in *. simpl. by rewrite cnt_cons_eq, F1, F2.
      * rewrite !lookup_insert_ne, H3 by done. destruct (r_owner r !! i); [|done]. simpl.
        unfold the_owner, owner_refs. simpl. by rewrite cnt_cons_ne.
    + simpl. intros c'. specialize (H4 c'). unfold conn_ok, owned in *. simpl in *.
      pose proof (owned_insert _ _ s (claim_with c flags) c' Hr) as HP.
      destruct (decide (c' = c)) as [->|Hne].
      * rewrite lookup_insert_eq, Hn. rewrite decide_True in HP by done. simpl in *.
        rewrite HP. split; [done|]. split; [|simpl; lia].
        rewrite <- C2. by rewrite Permutation_app_comm.
      * rewrite lookup_insert_ne by done. rewrite decide_False in HP by done. simpl in HP.
        destruct (connections b !! c'), (r_base r !! c'); try done. by rewrite HP.
  - split; [|by left; eapply alloc_fail]. split; try done. simpl. intros i.
    by rewrite delete_insert_id, H3.
Qed.

(** ** Reading a queue *)

Definition conn_of (r : reg) (o : owner_ptr) : connection :=
  from_option (λ x, who (snd x)) 0%nat (r_owner r !! o).

Fixpoint find_in (r : reg) (l : list owner_ptr) (c : connection) : option owner_ptr :=
  match l with
  | [] => None
  | o :: l' => if decide (conn_of r o = c) then Some o else find_in r l' c
  end.

Lemma find_owner_rule {B} r k t l c (f : option owner_ptr → BM B) Q F L :
  (∀ o, o ∈ l → is_Some (r_owner r !! o)) →
  hoare (rep r k t) (f (find_in r l c)) Q F L →
  hoare (rep r k t) (find_owner l c ≫= f) Q F L.
Proof.
  intros Hl Hf. induction l as [|o l IH]; [exact Hf|]. simpl in *.
  destruct (Hl o ltac:(by left)) as [[s cl] Ho].
  assert (conn_of r o = who cl) as E by (unfold conn_of; by rewrite Ho). rewrite E in Hf.
  intros b m Hb. specialize (IH ltac:(intros; apply Hl; by right)).
  pose proof (rep_owner _ _ _ _ Hb o) as Hr. rewrite Ho in Hr. simpl in Hr.
  cbv [get_owner mbind M_bind gets checked id]. rewrite Hr. simpl.
  destruct (decide (who cl = c)); [exact (Hf b m Hb)|]. exact (IH Hf b m Hb).
Qed.

Lemma find_owner_link_rule {B} r k t s n l c (f : option owner_ptr → BM B) Q F L :
  r_service r !! s = Some (n, l) →
  (∀ o, o ∈ l → is_Some (r_owner r !! o)) →
  hoare (rep r k t) (f (find_in r l c)) Q F L →
  hoare (rep r k t) (_bus_service_find_owner_link s c ≫= f) Q F L.
Proof.
  intros Hs Hl Hf b m Hb.
  pose proof (find_owner_rule r k t l c f Q F L Hl Hf b m Hb) as Hfo.
  pose proof (rep_service _ _ _ _ Hb s) as Hr. rewrite Hs in Hr. simpl in Hr.
  revert Hfo. cbv [_bus_service_find_owner_link get_service mbind M_bind gets checked id].
  by rewrite Hr.
Qed.

Lemma primary_owner_rule {B} r k t s x (f : option owner_ptr → BM B) Q F L :
  r_service r !! s = Some x → hoare (rep r k t) (f (head (snd x))) Q F L →
  hoare (rep r k t) (bus_service_get_primary_owner s ≫= f) Q F L.
Proof.
  intros Hs Hf b m Hb. specialize (Hf b m Hb).
  pose proof (rep_service _ _ _ _ Hb s) as Hr. rewrite Hs in Hr. simpl in Hr. revert Hf.
  cbv [bus_service_get_primary_owner get_service mbind M_bind gets checked id mret M_ret].
  by rewrite Hr.
Qed.

Lemma allow_replacement_rule {B} r k t s n o l s' cl (f : bool → BM B) Q F L :
  r_service r !! s = Some (n, o :: l) → r_owner r !! o = Some (s', cl) →
  hoare (rep r k t) (f (may_replace cl)) Q F L →
  hoare (rep r k t) (bus_service_get_allow_replacement s ≫= f) Q F L.
Proof.
  intros Hs Ho Hf b m Hb. specialize (Hf b m Hb).
  pose proof (rep_service _ _ _ _ Hb s) as Hr. rewrite Hs in Hr. simpl in Hr.
  pose proof (rep_owner _ _ _ _ Hb o) as Hw. rewrite Ho in Hw. simpl in Hw. revert Hf.
  cbv [bus_service_get_allow_replacement get_service get_owner mbind M_bind gets checked id
       mret M_ret].
  rewrite Hr. simpl. by rewrite Hw.
Qed.

Lemma find_in_Some r l c o : find_in r l c = Some o → o ∈ l ∧ conn_of r o = c.
Proof.
  induction l as [|x l IH]; [done|]. simpl. destruct (decide _) as [E|_].
  - intros [= ->]. split; [by left|done].
  - intros [? ?]%IH. split; [by right|done].
Qed.

Lemma find_in_None r l c : find_in r l c = None ↔ c ∉ map (conn_of r) l.
Proof.
  induction l as [|x l IH]; simpl; [split; [intros _; apply not_elem_of_nil|done]|].
  rewrite not_elem_of_cons. destruct (decide _) as [E|E]; [split; [done|]|rewrite IH];
    naive_solver.
Qed.

(** ** Adding an owner *)

Definition place (flags : Z) (o : owner_ptr) (l : list owner_ptr) : list owner_ptr :=
  if negb (flag flags DBUS_NAME_FLAG_REPLACE_EXISTING) || bool_decide (l = [])
  then l ++ [o] else insert_second o l.

Lemma place_mid flags o l : ∃ l1 l2, l = l1 ++ l2 ∧ place flags o l = l1 ++ o :: l2.
Proof.
  unfold place. destruct (_ || _) eqn:E; [by exists l, []; rewrite app_nil_r|].
  destruct l as [|x l]; [by destruct (negb _)|]. by exists [x], l.
Qed.

Lemma place_perm flags o l : place flags o l ≡ₚ o :: l.
Proof.
  destruct (place_mid flags o l) as (l1 & l2 & -> & ->). by rewrite Permutation_middle.
Qed.

Lemma remove_last_place flags o l : o ∉ l → remove_last o (place flags o l) = l.
Proof.
  destruct (place_mid flags o l) as (l1 & l2 & -> & ->). rewrite not_elem_of_app.
  intros [? ?]. by apply remove_last_mid.
Qed.

Definition with_hook (t : tx) (h : CancelHook) : tx :=
  Tx (t_pids t) (h :: t_hooks t) (t_messages t) (t_delivered t) (t_error t) (t_clients t).

Lemma add_hook_rule r k t h L :
  hoare (rep r k t) (bus_transaction_add_cancel_hook h) (λ _, rep r k (with_hook t h))
    (rep r k t) L.
Proof.
  unfold bus_transaction_add_cancel_hook.
  eapply hoare_bind; [apply request_rule|]. intros []; cbv beta.
  eapply hoare_bind; [apply request_rule|]. intros []; cbv beta.
  apply hoare_modify. intros b [H1 H2 H3 H4 H5]. split; try done. by rewrite H5.
Qed.

Lemma add_cancel_rule r ls lo lc t s o n l cl nb L :
  r_service r !! s = Some (n, l) → o ∈ l → r_owner r !! o = Some (s, cl) →
  r_base r !! who cl = Some nb → (0 < service_refs r (Refs ls lo lc) s n)%nat →
  hoare (rep r (Refs ls lo lc) t) (add_cancel_ownership_to_transaction s o)
    (λ _, rep r (Refs (s :: ls) (o :: lo) (who cl :: lc)) (with_hook t (CancelOwnership o s)))
    (rep r (Refs ls lo lc) t) L.
Proof.
  intros Hs Hol Ho Hb Hpos. unfold add_cancel_ownership_to_transaction.
  eapply hoare_bind; [apply request_rule|]. intros []; cbv beta.
  eapply hoare_bind; [apply add_hook_rule|]. intros []; cbv beta.
  eapply hoare_bind; [by apply (service_ref_rule _ _ _ _ _ _ (n, l))|]. intros []; cbv beta.
  eapply hoare_bind; [apply (owner_ref_rule _ _ _ _ _ _ (s, cl)); [done|]|].
  { unfold owner_refs, links. simpl. rewrite Hs. simpl. apply cnt_pos in Hol. lia. }
  intros []; cbv beta. apply (get_owner_rule _ _ _ _ (s, cl)); [done|]. by apply (conn_ref_rule _ _ _ _ _ _ nb).
Qed.

(** Taking a link out of a queue; the owner goes with its last reference. *)
Definition drop_owner (r : reg) (lo : list owner_ptr) (o : owner_ptr) : reg :=
  if decide (o ∈ lo) then r else without_owner r o.

Lemma unlink_rule r ls lo lc t s n l1 l2 o cl nb F L :
  r_service r !! s = Some (n, l1 ++ o :: l2) → o ∉ l1 → o ∉ l2 →
  (∀ o', o' ∈ l1 ++ o :: l2 → ∃ cl', r_owner r !! o' = Some (s, cl')) →
  r_owner r !! o = Some (s, cl) → r_base r !! who cl = Some nb →
  hoare (rep r (Refs ls lo lc) t) (set_owners s (l1 ++ l2);; bus_owner_unref o)
    (λ _, rep (drop_owner (with_links r s n (l1 ++ l2)) lo o) (Refs ls lo lc) t) F L.
Proof.
  intros Hs Hl1 Hl2 Hlive Ho Hb.
  eapply hoare_bind.
  { apply (set_owners_rule _ _ _ (o :: lo) _ _ _ n (l1 ++ o :: l2)); [done| |].
    - rewrite <- (Permutation_middle l1 l2 o), <- (Permutation_middle _ lo o). done.
    - intros o' s' cl' Hin Ho'. destruct (Hlive o') as [cl'' E]; [|congruence].
      rewrite elem_of_app, elem_of_cons in *. set_solver. }
  intros []; cbv beta. unfold drop_owner.
  assert (cnt (links (with_links r s n (l1 ++ l2)) s) o = 0%nat) as Hz.
  { unfold links. simpl. rewrite lookup_insert_eq. simpl. apply cnt_none. set_solver. }
  destruct (decide (o ∈ lo)) as [Hin|Hin].
  - apply (owner_unref_rule _ _ _ _ _ _ (s, cl)); [done|].
    unfold owner_refs. simpl. apply cnt_pos in Hin. lia.
  - eapply (owner_free_rule _ _ _ _ _ _ s cl (n, l1 ++ l2) nb); [done| |done|].
    + simpl. apply lookup_insert_eq.
    + unfold owner_refs. rewrite Hz. simpl. by apply cnt_none.
Qed.

Lemma unlink_owner_rule r ls lo lc t s n l1 l2 o cl nb F L :
  r_service r !! s = Some (n, l1 ++ o :: l2) → o ∉ l1 → o ∉ l2 →
  (∀ o', o' ∈ l1 ++ o :: l2 → ∃ cl', r_owner r !! o' = Some (s, cl')) →
  r_owner r !! o = Some (s, cl) → r_base r !! who cl = Some nb →
  hoare (rep r (Refs ls lo lc) t) (bus_service_unlink_owner s o)
    (λ _, rep (drop_owner (with_links r s n (l1 ++ l2)) lo o) (Refs ls lo lc) t) F L.
Proof.
  intros Hs Hl1 Hl2 Hlive Ho Hb. unfold bus_service_unlink_owner.
  apply (get_service_rule _ _ _ _ (n, l1 ++ o :: l2)); [done|]. simpl.
  rewrite remove_last_mid by done. by eapply unlink_rule.
Qed.

Lemma drop_from_queue_rule r ls lo lc t s n l1 l2 o cl nb F L :
  r_service r !! s = Some (n, l1 ++ o :: l2) → o ∉ l1 → o ∉ l2 →
  (∀ o', o' ∈ l1 ++ o :: l2 → ∃ cl', r_owner r !! o' = Some (s, cl')) →
  r_owner r !! o = Some (s, cl) → r_base r !! who cl = Some nb →
  hoare (rep r (Refs ls lo lc) t) (drop_from_queue s o)
    (λ _, rep (drop_owner (with_links r s n (l1 ++ l2)) lo o) (Refs ls lo lc) t) F L.
Proof.
  intros Hs Hl1 Hl2 Hlive Ho Hb. unfold drop_from_queue.
  apply (get_service_rule _ _ _ _ (n, l1 ++ o :: l2)); [done|]. simpl.
  rewrite remove_first_mid by done. by eapply unlink_rule.
Qed.

(** The messages of [bus_service_add_owner]. *)
Definition acquired (t : tx) (l : list owner_ptr) (c : connection) (n : bytes) : tx :=
  if decide (l = []) then with_message t (NameAcquired c n) else t.

(** The registry with a new owner in the queue of [s]. *)
Definition joined (r : reg) (s : service_ptr) (n : bytes) (l : list owner_ptr)
    (o : owner_ptr) (c : connection) (flags : Z) : reg :=
  with_links (with_owner r o (s, claim_with c flags)) s n (place flags o l).

Lemma joined_undo r s n l o c flags :
  r_service r !! s = Some (n, l) → r_owner r !! o = None →
  without_owner (with_links (joined r s n l o c flags) s n l) o = r.
Proof.
  intros Hs Ho. destruct r as [h sv ow ba]. unfold without_owner, with_links, joined. simpl in *.
  by rewrite insert_insert_eq, insert_id, delete_insert_id.
Qed.

(** The branch of [bus_service_add_owner] for a connection that is not queued. *)
Lemma join_rule r ls lo lc t s n l c flags nb L :
  t_error t = None → r_service r !! s = Some (n, l) → r_base r !! c = Some nb →
  (0 < service_refs r (Refs ls lo lc) s n)%nat →
  (∀ o, o ∈ l → ∃ cl, r_owner r !! o = Some (s, cl)) →
  (∀ o, o ∈ lo → is_Some (r_owner r !! o)) →
  hoare (rep r (Refs ls lo lc) t)
    (bus_owner ← or_oom (bus_owner_new s c flags);
     bus_owner_set_flags bus_owner flags;;
     or_oom (on_failure request (bus_owner_unref bus_owner));;
     x ← get_service s;
     (if negb (flag flags DBUS_NAME_FLAG_REPLACE_EXISTING) || bool_decide (owners x = [])
      then set_owners s (owners x ++ [bus_owner])
      else set_owners s (insert_second bus_owner (owners x)));;
     or_oom (on_failure (add_cancel_ownership_to_transaction s bus_owner)
               (bus_service_unlink_owner s bus_owner)))
    (λ _ b, ∃ o, r_owner r !! o = None
      ∧ rep (joined r s n l o c flags) (Refs (s :: ls) (o :: lo) (c :: lc))
          (with_hook t (CancelOwnership o s)) b)
    (rep r (Refs ls lo lc) (with_oom t)) L.
Proof.
  intros He Hs Hb Hpos Hl Hlo.
  eapply hoare_bind; [apply or_oom_rule; [done|apply (owner_new_rule _ _ _ _ _ _ _ _ nb); [done|]]|].
  { intros o Ho. unfold links. rewrite Hs. simpl. split; intros Hin.
    - destruct (Hl o Hin). congruence.
    - destruct (Hlo o Hin). congruence. }
  intros o. cbv beta. apply hoare_pure_l. intros Ho.
  assert (o ∉ l) as Hol by (intros [? ?]%Hl; congruence).
  assert (o ∉ lo) as Holo by (intros [? ?]%Hlo; congruence).
  set (r1 := with_owner r o (s, claim_with c flags)).
  assert (r_owner r1 !! o = Some (s, claim_with c flags)) as Ho1 by apply lookup_insert_eq.
  assert (without_owner r1 o = r) as Hundo.
  { destruct r. unfold r1, without_owner, with_owner. simpl in *. by rewrite delete_insert_id. }
  assert (∀ o', o' ∈ place flags o l → ∃ cl', r_owner r1 !! o' = Some (s, cl')) as Hlive.
  { intros o'. rewrite place_perm, elem_of_cons. intros [->|H']; [eauto|]. unfold r1. simpl.
    rewrite lookup_insert_ne by (intros ->; done). by apply Hl. }
  eapply hoare_bind; [by apply (set_flags_rule r1 _ _ o s (claim_with c flags))|].
  intros []; cbv beta.
  replace (with_owner r1 o _) with r1 by (unfold r1, with_owner; simpl; by rewrite insert_insert_eq).
  eapply hoare_bind.
  { apply or_oom_rule; [done|]. eapply hoare_on_failure; [apply request_rule|].
    intros b m Hb'. pose proof (owner_free_rule r1 ls lo lc t o s (claim_with c flags) (n, l) nb
      (λ _, False) False Ho1 Hs Hb) as Hfree. rewrite Hundo in Hfree.
    specialize (Hfree ltac:(unfold owner_refs, links; simpl; rewrite Hs; simpl;
                            by rewrite !cnt_none) b m Hb').
    destruct (bus_owner_unref o b m); tauto. }
  intros []; cbv beta. apply (get_service_rule _ _ _ _ (n, l)); [done|]. simpl.
  eapply (hoare_bind _ _ _ (λ _, rep (joined r s n l o c flags) (Refs ls lo lc) t)).
  { assert (hoare (rep r1 (Refs ls (o :: lo) lc) t) (set_owners s (place flags o l))
      (λ _, rep (joined r s n l o c flags) (Refs ls lo lc) t)
      (rep r (Refs ls lo lc) (with_oom t)) L) as Hset.
    { apply (set_owners_rule r1 _ _ _ _ _ _ n l); [done| |].
      - rewrite place_perm. simpl. by rewrite Permutation_middle.
      - intros o' s' cl' Hin Ho'. destruct (Hlive o') as [cl'' E]; [|congruence].
        rewrite place_perm, elem_of_cons. rewrite place_perm, elem_of_cons in Hin. tauto. }
    revert Hset. unfold place. by destruct (_ || _). }
  intros []; cbv beta. apply or_oom_rule; [done|].
  assert (r_service (joined r s n l o c flags) !! s = Some (n, place flags o l)) as Hs2
    by apply lookup_insert_eq.
  eapply (hoare_conseq _ _ _ _
    (λ _, rep (joined r s n l o c flags) (Refs (s :: ls) (o :: lo) (c :: lc))
            (with_hook t (CancelOwnership o s))) _ _ _ L); [|done|by eauto|done|done].
  eapply hoare_on_failure.
  { eapply (add_cancel_rule _ _ _ _ _ _ o n _ (claim_with c flags)); [exact Hs2| |exact Ho1|exact Hb|exact Hpos].
    rewrite place_perm. by left. }
  intros b m Hb'. destruct (place_mid flags o l) as (l1 & l2 & El & Ep).
  rewrite Ep in Hs2, Hlive. rewrite El, not_elem_of_app in Hol. destruct Hol as [Hl1 Hl2].
  pose proof (unlink_owner_rule _ ls lo lc t s n l1 l2 o (claim_with c flags) nb
    (λ _, False) False Hs2 Hl1 Hl2 Hlive Ho1 Hb b m Hb') as Hun.
  unfold drop_owner in Hun. rewrite decide_False, <- El, joined_undo in Hun by done.
  destruct (bus_service_unlink_owner s o b m); tauto.
Qed.

Lemma add_owner_new_rule r ls lo lc t s n l c flags nb L :
  t_error t = None → r_service r !! s = Some (n, l) → r_base r !! c = Some nb →
  (0 < service_refs r (Refs ls lo lc) s n)%nat → c ∉ map (conn_of r) l →
  (∀ o, o ∈ l → ∃ cl, r_owner r !! o = Some (s, cl)) →
  (∀ o, o ∈ lo → is_Some (r_owner r !! o)) →
  hoare (rep r (Refs ls lo lc) t) (bus_service_add_owner s c flags)
    (λ _ b, ∃ o, r_owner r !! o = None
      ∧ rep (joined r s n l o c flags) (Refs (s :: ls) (o :: lo) (c :: lc))
          (with_hook (acquired t l c n) (CancelOwnership o s)) b)
    (oom_in r (Refs ls lo lc) t) L.
Proof.
  intros He Hs Hb Hpos Hc Hl Hlo.
  assert (t_error (acquired t l c n) = None) as He'.
  { unfold acquired. by destruct (decide (l = [])). }
  unfold bus_service_add_owner. apply error_clear_rule; [done|].
  apply (get_service_rule _ _ _ _ (n, l)); [done|]. simpl.
  eapply (hoare_bind _ _ _ (λ _, rep r (Refs ls lo lc) (acquired t l c n))).
  { unfold acquired, bus_driver_send_service_acquired.
    destruct (decide (l = [])); [|by apply hoare_ret].
    eapply hoare_conseq; [apply (send_rule r (Refs ls lo lc) t _ L He)|done|done| |done].
    intros b. by apply oom_stops. }
  intros []; cbv beta.
  apply (find_owner_link_rule _ _ _ _ n l); [done|by intros o [cl Ho]%Hl; eauto|].
  rewrite (proj2 (find_in_None _ _ _) Hc).
  eapply hoare_conseq; [by apply (join_rule r ls lo lc (acquired t l c n) s n l c flags nb L)|done|done| |done].
  intros b. apply oom_stops. unfold acquired. by destruct (decide (l = [])).
Qed.

(** The branch for a connection that is queued already. *)
Definition requeued (r : reg) (s : service_ptr) (n : bytes) (l : list owner_ptr)
    (o : owner_ptr) (c : connection) (flags : Z) : reg :=
  with_owner
    (if flag flags DBUS_NAME_FLAG_REPLACE_EXISTING
     then with_links r s n (insert_second o (remove_first o l)) else r)
    o (s, claim_with c flags).

Lemma insert_second_perm o l : insert_second o l ≡ₚ o :: l.
Proof. destruct l; [done|apply Permutation_swap]. Qed.

Lemma add_owner_queued_rule r ls lo lc t s n l c flags o F L :
  t_error t = None → r_service r !! s = Some (n, l) →
  (∀ o, o ∈ l → ∃ cl, r_owner r !! o = Some (s, cl)) →
  find_in r l c = Some o → remove_first o l ≠ [] →
  hoare (rep r (Refs ls lo lc) t) (bus_service_add_owner s c flags)
    (λ _, rep (requeued r s n l o c flags) (Refs ls lo lc) t) F L.
Proof.
  intros He Hs Hl Hf Hrest. destruct (find_in_Some _ _ _ _ Hf) as [Hol Hoc].
  destruct (Hl o Hol) as [cl Ho]. unfold conn_of in Hoc. rewrite Ho in Hoc. simpl in Hoc.
  unfold bus_service_add_owner. apply error_clear_rule; [done|].
  apply (get_service_rule _ _ _ _ (n, l)); [done|]. simpl.
  rewrite decide_False by (intros ->; by apply not_elem_of_nil in Hol).
  eapply hoare_bind; [by apply (hoare_ret _ _ (λ _, rep r (Refs ls lo lc) t))|].
  intros []; cbv beta.
  apply (find_owner_link_rule _ _ _ _ n l); [done|by intros o' [cl' Ho']%Hl; eauto|].
  rewrite Hf. unfold requeued. destruct (flag _ _).
  - eapply hoare_bind.
    { apply (get_service_rule _ _ _ _ (n, l)); [done|]. simpl.
      apply hoare_assert; [by apply bool_decide_eq_true|].
      apply (set_owners_rule _ _ _ lo _ _ _ n l); [done| |].
      - by rewrite insert_second_perm, <- remove_first_perm.
      - intros o' s' cl' Hin Ho'. destruct (Hl o') as [cl'' E]; [|congruence].
        rewrite insert_second_perm, <- remove_first_perm in Hin by done. tauto. }
    intros []; cbv beta. subst c. by apply set_flags_rule.
  - eapply hoare_bind; [by apply (hoare_ret _ _ (λ _, rep r (Refs ls lo lc) t))|].
    intros []; cbv beta. subst c. by apply set_flags_rule.
Qed.

(** ** Hooks that restore an owner *)

(** What is left when the references of a hook are dropped. *)
Definition drop_refs (r : reg) (k : refs) (s : service_ptr) (n : bytes) (o : owner_ptr) : reg :=
  let r1 := if (owner_refs r k o s =? 0)%nat then without_owner r o else r in
  if (service_refs r k s n =? 0)%nat then without_service r1 s else r1.

Lemma free_data_rule r ls lo lc t s n l o cl nb F L :
  r_service r !! s = Some (n, l) → r_owner r !! o = Some (s, cl) →
  r_base r !! who cl = Some nb → (0 < nb)%nat →
  (service_refs r (Refs ls lo lc) s n = 0%nat → l = []) →
  hoare (rep r (Refs (s :: ls) (o :: lo) (who cl :: lc)) t) (free_ownership_cancel_data o s)
    (λ _, rep (drop_refs r (Refs ls lo lc) s n o) (Refs ls lo lc) t) F L.
Proof.
  intros Hs Ho Hb Hnb Hl. unfold free_ownership_cancel_data.
  apply (get_owner_rule _ _ _ _ (s, cl)); [done|]. simpl.
  eapply hoare_bind; [by apply (conn_unref_rule _ _ _ _ _ _ nb)|]. intros []; cbv beta.
  set (r1 := if (owner_refs r (Refs ls lo lc) o s =? 0)%nat then without_owner r o else r).
  eapply (hoare_bind _ _ _ (λ _, rep r1 (Refs (s :: ls) lo lc) t)).
  { unfold r1. destruct (Nat.eqb_spec (owner_refs r (Refs ls lo lc) o s) 0) as [E|E].
    - by apply (owner_free_rule _ _ _ _ _ _ s cl (n, l) nb).
    - apply (owner_unref_rule _ _ _ _ _ _ (s, cl)); [done|]. unfold owner_refs in *. simpl in *. lia. }
  intros []; cbv beta. unfold drop_refs. fold r1.
  assert (r_service r1 !! s = Some (n, l)) as Hs1 by (unfold r1; by destruct (_ =? _)%nat).
  assert (service_refs r1 (Refs ls lo lc) s n = service_refs r (Refs ls lo lc) s n) as Er
    by (unfold r1; by destruct (_ =? 0)%nat).
  destruct (Nat.eqb_spec (service_refs r (Refs ls lo lc) s n) 0) as [E|E].
  - rewrite (Hl E) in Hs1. apply (service_free_rule _ _ _ _ _ _ n); [done|]. congruence.
  - apply (service_unref_rule _ _ _ _ _ _ (n, l)); [done|]. simpl. lia.
Qed.

Definition restore_data (s : service_ptr) (o : owner_ptr) (l : list owner_ptr) :=
  RestoreData o s (next_owner o l).

Lemma add_restore_tail r ls lo lc t s n l o cl nb (sl ol he : bool) :
  r_service r !! s = Some (n, l) → o ∈ l → r_owner r !! o = Some (s, cl) →
  r_base r !! who cl = Some nb → (0 < nb)%nat →
  (0 < service_refs r (Refs ls lo lc) s n)%nat →
  hoare (rep r (Refs ls lo lc) t)
    (bus_service_ref s;;
     bus_owner_ref o;;
     y ← get_owner o;
     dbus_connection_ref (owner_conn y);;
     x ← get_service s;
     let d := restore_data s o (owners x) ol sl he in
     on_failure
       (if negb (sl && ol && he) then fail
        else bus_transaction_add_cancel_hook (RestoreOwnership d))
       (free_ownership_restore_data d))
    (λ _, rep r (Refs (s :: ls) (o :: lo) (who cl :: lc))
            (with_hook t (RestoreOwnership (restore_data s o l true true true))))
    (rep r (Refs ls lo lc) t) (sl && ol && he = false).
Proof.
  intros Hs Hol Ho Hb Hnb Hpos.
  assert (0 < owner_refs r (Refs ls lo lc) o s)%nat as Hpo.
  { unfold owner_refs, links. rewrite Hs. simpl. apply cnt_pos in Hol. lia. }
  eapply hoare_bind; [by apply (service_ref_rule _ _ _ _ _ _ (n, l))|]. intros []; cbv beta.
  eapply hoare_bind; [by apply (owner_ref_rule _ _ _ _ _ _ (s, cl))|]. intros []; cbv beta.
  apply (get_owner_rule _ _ _ _ (s, cl)); [done|]. simpl.
  eapply hoare_bind; [by apply (conn_ref_rule _ _ _ _ _ _ nb)|]. intros []; cbv beta.
  apply (get_service_rule _ _ _ _ (n, l)); [done|]. cbv zeta.
  eapply (hoare_on_failure _ _ _ _ (rep r (Refs (s :: ls) (o :: lo) (who cl :: lc)) t)).
  { destruct (sl && ol && he) eqn:E; cbn [negb]; [|by apply hoare_fail].
    destruct sl, ol, he; try done. apply add_hook_rule. }
  intros b m Hb'.
  pose proof (free_data_rule r ls lo lc t s n l o cl nb (λ _, False) False Hs Ho Hb Hnb
    ltac:(lia) b m Hb') as Hf.
  unfold drop_refs in Hf. rewrite (proj2 (Nat.eqb_neq _ _)), (proj2 (Nat.eqb_neq _ _)) in Hf by lia.
  change (free_ownership_restore_data (restore_data s o _ _ _ _))
    with (free_ownership_cancel_data o s).
  destruct (free_ownership_cancel_data o s b m); tauto.
Qed.

Lemma alloc_link_run {B} (f : bool → BM B) b m ok m' :
  alloc m = (ok, m') → (alloc_link ≫= f) b m = f ok b m'.
Proof.
  intros E. unfold alloc_link, attempt, request. cbv [mbind M_bind]. rewrite E. by destruct ok.
Qed.

Lemma add_restore_rule r ls lo lc t s n l o cl nb L :
  r_service r !! s = Some (n, l) → o ∈ l → r_owner r !! o = Some (s, cl) →
  r_base r !! who cl = Some nb → (0 < nb)%nat →
  (0 < service_refs r (Refs ls lo lc) s n)%nat →
  hoare (rep r (Refs ls lo lc) t) (add_restore_ownership_to_transaction s o)
    (λ _, rep r (Refs (s :: ls) (o :: lo) (who cl :: lc))
            (with_hook t (RestoreOwnership (restore_data s o l true true true))))
    (rep r (Refs ls lo lc) t) L.
Proof.
  intros Hs Hol Ho Hb Hnb Hpos. unfold add_restore_ownership_to_transaction.
  eapply hoare_bind; [apply request_rule|]. intros []; cbv beta.
  intros b m Hb'.
  destruct (alloc m) as [sl m1] eqn:E1, (alloc m1) as [ol m2] eqn:E2, (alloc m2) as [he m3] eqn:E3.
  pose proof (add_restore_tail r ls lo lc t s n l o cl nb sl ol he Hs Hol Ho Hb Hnb Hpos b m3 Hb')
    as Ht.
  assert (may_fail m3 → may_fail m) as Hm.
  { intros H. eapply alloc_mono; [exact E1|]. eapply alloc_mono; [exact E2|].
    by eapply alloc_mono; [exact E3|]. }
  assert (sl && ol && he = false → may_fail m) as Hm'.
  { intros H. destruct sl; [|by eapply alloc_fail].
    eapply alloc_mono; [exact E1|]. destruct ol; [|by eapply alloc_fail].
    eapply alloc_mono; [exact E2|]. destruct he; [done|]. by eapply alloc_fail. }
  rewrite (alloc_link_run _ _ _ _ _ E1), (alloc_link_run _ _ _ _ _ E2),
    (alloc_link_run _ _ _ _ _ E3).
  unfold restore_data in *.
  match type of Ht with match ?x with _ => _ end => destruct x end; [|tauto..].
  destruct Ht as [? ?]. split; [done|auto].
Qed.

(** ** Removing and swapping the primary owner *)

Definition with_signals (t : tx) (xs : list signal) : tx :=
  Tx (t_pids t) (t_hooks t) (t_messages t ++ List.filter (passes (t_delivered t)) xs)
    (t_delivered t) (t_error t) (t_clients t).

Lemma with_message_signals t xs x :
  with_message (with_signals t xs) x = with_signals t (xs ++ [x]).
Proof.
  unfold with_message, with_signals. cbn [t_messages t_delivered t_pids t_hooks t_error t_clients].
  by rewrite List.filter_app, app_assoc.
Qed.

Lemma send_more_rule r k t xs x L :
  t_error t = None →
  hoare (rep r k (with_signals t xs)) (send x) (λ _, rep r k (with_signals t (xs ++ [x])))
    (oom_in r k t) L.
Proof.
  intros He. rewrite <- with_message_signals.
  eapply hoare_conseq; [by apply (send_rule r k (with_signals t xs) x L)|done|done| |done].
  intros b Hb.
  by apply (oom_stops _ _ _ (with_signals t xs)).
Qed.

(** The signals for the loss of a name, with the connection that comes next. *)
Definition lost_signals (n : bytes) (c : connection) (next : option connection) : list signal :=
  NameLost c n :: NameOwnerChanged n (Some c) next
  :: from_option (λ c', [NameAcquired c' n]) [] next.

Definition left_by (r : reg) (s : service_ptr) (n : bytes) (l : list owner_ptr) : reg :=
  if decide (l = []) then with_hash (with_links r s n []) (delete n (r_hash r))
  else with_links r s n l.

Lemma with_signals_nil t : with_signals t [] = t.
Proof. destruct t. unfold with_signals. simpl. by rewrite app_nil_r. Qed.

(** The notifications at the start of both operations. *)
Lemma lost_rule {B} r k t n c (next : option owner_ptr) (f : BM B) Q L :
  t_error t = None →
  (∀ o, next = Some o → is_Some (r_owner r !! o)) →
  hoare (rep r k (with_signals t (lost_signals n c (conn_of r <$> next)))) f Q (oom_in r k t) L →
  hoare (rep r k t)
    (bus_driver_send_service_lost c n;;
     match next with
     | None => bus_driver_send_service_owner_changed n (Some c) None
     | Some new_owner =>
         y' ← get_owner new_owner;
         bus_driver_send_service_owner_changed n (Some c) (Some (owner_conn y'));;
         bus_driver_send_service_acquired (owner_conn y') n
     end;; f) Q (oom_in r k t) L.
Proof.
  intros He Hnext Hf. rewrite <- (with_signals_nil t) at 1.
  eapply hoare_bind; [by apply send_more_rule|]. intros []; cbv beta. simpl.
  destruct next as [o|]; simpl in *.
  - destruct (Hnext o eq_refl) as [[s' cl] Ho].
    assert (conn_of r o = who cl) as E by (unfold conn_of; by rewrite Ho). rewrite E in Hf.
    eapply hoare_bind.
    { apply (get_owner_rule _ _ _ _ (s', cl)); [done|]. simpl.
      eapply hoare_bind; [by apply send_more_rule|]. intros []; cbv beta. by apply send_more_rule. }
    intros []; cbv beta. exact Hf.
  - eapply hoare_bind; [by apply send_more_rule|]. intros []; cbv beta. exact Hf.
Qed.

Lemma restore_or_oom r ls lo lc t t1 s n l o cl nb L :
  same_tx t t1 → t_error t1 = None →
  r_service r !! s = Some (n, l) → o ∈ l → r_owner r !! o = Some (s, cl) →
  r_base r !! who cl = Some nb → (0 < nb)%nat →
  (0 < service_refs r (Refs ls lo lc) s n)%nat →
  hoare (rep r (Refs ls lo lc) t1) (or_oom (add_restore_ownership_to_transaction s o))
    (λ _, rep r (Refs (s :: ls) (o :: lo) (who cl :: lc))
            (with_hook t1 (RestoreOwnership (restore_data s o l true true true))))
    (oom_in r (Refs ls lo lc) t) L.
Proof.
  intros Ht He Hs Hol Ho Hb Hnb Hpos.
  eapply hoare_conseq; [apply or_oom_rule; [exact He|
    exact (add_restore_rule r ls lo lc t1 s n l o cl nb L Hs Hol Ho Hb Hnb Hpos)]|done|done| |done].
  intros b. by apply oom_stops.
Qed.

Lemma remove_primary_rule r ls lo lc t s n o l cl nb L :
  t_error t = None → r_service r !! s = Some (n, o :: l) → r_hash r !! n = Some s →
  o ∉ l → (∀ o', o' ∈ o :: l → ∃ cl, r_owner r !! o' = Some (s, cl)) →
  r_owner r !! o = Some (s, cl) → r_base r !! who cl = Some nb → (0 < nb)%nat →
  hoare (rep r (Refs ls lo lc) t) (bus_service_remove_owner s (who cl))
    (λ _, rep (left_by r s n l) (Refs (s :: ls) (o :: lo) (who cl :: lc))
            (with_hook (with_signals t (lost_signals n (who cl) (conn_of r <$> head l)))
               (RestoreOwnership (restore_data s o (o :: l) true true true))))
    (oom_in r (Refs ls lo lc) t) L.
Proof.
  intros He Hs Hn Hol Hlive Ho Hb Hnb.
  assert (0 < service_refs r (Refs ls lo lc) s n)%nat as Hpos.
  { unfold service_refs. rewrite bool_decide_eq_true_2 by done. lia. }
  unfold bus_service_remove_owner. apply error_clear_rule; [done|].
  apply (get_service_rule _ _ _ _ (n, o :: l)); [done|]. simpl.
  eapply (hoare_bind _ _ _ (λ p b, p = Some o ∧ rep r (Refs ls lo lc) t b)).
  { apply (get_owner_rule _ _ _ _ (s, cl)); [done|]. simpl. rewrite decide_True by done.
    by apply hoare_ret. }
  intros p; cbv beta. apply hoare_pure_l. intros ->.
  change ((o :: l) !! 1%nat) with (l !! 0%nat). rewrite <- head_lookup.
  apply lost_rule; [done| |].
  { intros o' Ho'. destruct l as [|o1 l]; [done|]. injection Ho' as ->.
    destruct (Hlive o') as [cl' E]; [by right; left|eauto]. }
  set (t1 := with_signals t _).
  eapply hoare_bind.
  { apply (restore_or_oom r ls lo lc t t1 s n (o :: l) o cl nb); try done. by left. }
  intros []; cbv beta.
  eapply hoare_bind.
  { eapply (unlink_owner_rule r (s :: ls) (o :: lo) (who cl :: lc) _ s n [] l o cl nb); try done.
    apply not_elem_of_nil. }
  intros []; cbv beta. unfold drop_owner. rewrite decide_True by (by left). simpl app.
  assert (r_service (with_links r s n l) !! s = Some (n, l)) as Hs1 by apply lookup_insert_eq.
  apply (get_service_rule _ _ _ _ (n, l)); [done|]. simpl. unfold left_by.
  destruct (decide (l = [])) as [->|Hl]; [|by apply hoare_ret].
  unfold bus_service_unlink. apply (get_service_rule _ _ _ _ (n, [])); [done|]. simpl.
  apply hoare_assert; [done|].
  eapply hoare_bind; [by apply (hash_delete_rule _ _ _ _ _ s n [])|]. intros []; cbv beta.
  apply (service_unref_rule _ _ _ _ _ _ (n, [])); [done|].
  unfold service_refs. simpl. rewrite cnt_cons_eq. lia.
Qed.

Lemma nodup_map_mid {X} (f : nat → X) l1 o l2 :
  NoDup (map f (l1 ++ o :: l2)) →
  o ∉ l1 ∧ o ∉ l2 ∧ f o ∉ map f l1 ∧ f o ∉ map f l2 ∧ NoDup (map f (l1 ++ l2)).
Proof.
  intros H. assert (map f (l1 ++ o :: l2) ≡ₚ f o :: map f (l1 ++ l2)) as HP.
  { rewrite <- Permutation_middle. done. }
  rewrite HP in H. apply list.NoDup_cons in H as [Hn Hd].
  rewrite map_app, not_elem_of_app in Hn. destruct Hn as [H1 H2].
  split_and!; try done; intros Hin; [apply H1|apply H2]; by apply (list_elem_of_fmap_2 f).
Qed.

Lemma find_in_mid r l1 o l2 :
  conn_of r o ∉ map (conn_of r) l1 → find_in r (l1 ++ o :: l2) (conn_of r o) = Some o.
Proof.
  induction l1 as [|x l1 IH]; simpl; [by rewrite decide_True|].
  rewrite not_elem_of_cons. intros [? ?]. rewrite decide_False by congruence. auto.
Qed.

Lemma conn_of_owner r o s cl : r_owner r !! o = Some (s, cl) → conn_of r o = who cl.
Proof. intros H. unfold conn_of. by rewrite H. Qed.

Lemma remove_queued_rule r ls lo lc t s n o1 l1 l2 o cl nb F L :
  t_error t = None → r_service r !! s = Some (n, (o1 :: l1) ++ o :: l2) →
  NoDup (map (conn_of r) ((o1 :: l1) ++ o :: l2)) →
  (∀ o', o' ∈ (o1 :: l1) ++ o :: l2 → ∃ cl, r_owner r !! o' = Some (s, cl)) →
  r_owner r !! o = Some (s, cl) → r_base r !! who cl = Some nb →
  hoare (rep r (Refs ls lo lc) t) (bus_service_remove_owner s (who cl))
    (λ _, rep (drop_owner (with_links r s n ((o1 :: l1) ++ l2)) lo o) (Refs ls lo lc) t) F L.
Proof.
  intros He Hs Hnd Hlive Ho Hb.
  destruct (nodup_map_mid _ _ _ _ Hnd) as (N1 & N2 & N3 & _).
  pose proof (conn_of_owner _ _ _ _ Ho) as Ec.
  unfold bus_service_remove_owner. apply error_clear_rule; [done|].
  apply (get_service_rule _ _ _ _ (n, (o1 :: l1) ++ o :: l2)); [done|].
  eapply (hoare_bind _ _ _ (λ p b, p = None ∧ rep r (Refs ls lo lc) t b)).
  { destruct (Hlive o1 ltac:(by left)) as [cl1 Ho1]. simpl.
    apply (get_owner_rule _ _ _ _ (s, cl1)); [done|]. simpl.
    rewrite decide_False; [by apply hoare_ret|]. intros E. apply N3. simpl.
    rewrite (conn_of_owner _ _ _ _ Ho1), E, Ec. by left. }
  intros p; cbv beta. apply hoare_pure_l. intros ->.
  apply (find_owner_link_rule _ _ _ _ n ((o1 :: l1) ++ o :: l2)); [done| |].
  { intros o' [cl' E]%Hlive. eauto. }
  rewrite <- Ec, find_in_mid by done. by eapply drop_from_queue_rule.
Qed.

Definition swapped (r : reg) (s : service_ptr) (n : bytes) (o o' : owner_ptr)
    (l : list owner_ptr) : reg := with_links r s n (o' :: o :: l).

Lemma swap_rule r ls lo lc t s n o o' l cl nb L :
  t_error t = None → r_service r !! s = Some (n, o :: o' :: l) → r_hash r !! n = Some s →
  (∀ x, x ∈ o :: o' :: l → ∃ cl, r_owner r !! x = Some (s, cl)) →
  r_owner r !! o = Some (s, cl) → r_base r !! who cl = Some nb → (0 < nb)%nat →
  hoare (rep r (Refs ls lo lc) t) (bus_service_swap_owner s (who cl))
    (λ _, rep (swapped r s n o o' l) (Refs (s :: ls) (o :: lo) (who cl :: lc))
            (with_hook (with_signals t (lost_signals n (who cl) (Some (conn_of r o'))))
               (RestoreOwnership (restore_data s o (o :: o' :: l) true true true))))
    (oom_in r (Refs ls lo lc) t) L.
Proof.
  intros He Hs Hn Hlive Ho Hb Hnb.
  assert (0 < service_refs r (Refs ls lo lc) s n)%nat as Hpos.
  { unfold service_refs. rewrite bool_decide_eq_true_2 by done. lia. }
  unfold bus_service_swap_owner. apply error_clear_rule; [done|].
  apply (get_service_rule _ _ _ _ (n, o :: o' :: l)); [done|].
  apply (get_owner_rule _ _ _ _ (s, cl)); [done|]. cbn [owners the_service snd fst service_name].
  apply hoare_assert; [by apply bool_decide_eq_true|].
  destruct (Hlive o') as [cl' Ho']; [by right; left|].
  rewrite <- (with_signals_nil t) at 1.
  eapply hoare_bind; [by apply send_more_rule|]. intros []; cbv beta.
  change (checked ((o :: o' :: l) !! 1%nat)) with (mret o' : BM owner_ptr).
  eapply (hoare_bind _ _ _ (λ x b, x = o' ∧ rep r (Refs ls lo lc) (with_signals t [NameLost (who cl) n]) b));
    [by apply hoare_ret|].
  intros x; cbv beta. apply hoare_pure_l. intros ->.
  apply (get_owner_rule _ _ _ _ (s, cl')); [done|].
  eapply hoare_bind; [by apply send_more_rule|]. intros []; cbv beta.
  eapply hoare_bind; [by apply send_more_rule|]. intros []; cbv beta.
  rewrite (conn_of_owner _ _ _ _ Ho'). set (t1 := with_signals t _).
  eapply hoare_bind.
  { apply (restore_or_oom r ls lo lc t t1 s n (o :: o' :: l) o cl nb); try done. by left. }
  intros []; cbv beta. apply (get_service_rule _ _ _ _ (n, o :: o' :: l)); [done|].
  apply (set_owners_rule _ _ _ _ _ _ _ n (o :: o' :: l)); [done| |].
  - simpl. apply Permutation_swap.
  - intros x s' clx Hin Hx. destruct (Hlive x) as [cl2 E]; [|congruence].
    simpl in Hin. set_solver.
Qed.

End rules.

(** ** Well-formed states *)

Definition hook_owner (h : CancelHook) : owner_ptr :=
  match h with CancelOwnership o _ => o | RestoreOwnership d => restore_owner d end.
Definition hook_service (h : CancelHook) : service_ptr :=
  match h with CancelOwnership _ s => s | RestoreOwnership d => restore_service d end.

(** The loose references are those of the hooks, and one on each service of [p],
    which is under construction. *)
Definition ledger (p : list service_ptr) (r : reg) (hooks : list CancelHook) : refs :=
  Refs (map hook_service hooks ++ p) (map hook_owner hooks)
    (map (λ h, conn_of r (hook_owner h)) hooks).

Record wf (p : list service_ptr) (r : reg) (hooks : list CancelHook) : Prop := {
  wf_hash n s : r_hash r !! n = Some s → ∃ l, r_service r !! s = Some (n, l) ∧ l ≠ [];
  wf_links s n l o : r_service r !! s = Some (n, l) → o ∈ l → ∃ cl, r_owner r !! o = Some (s, cl);
  wf_conns s n l : r_service r !! s = Some (n, l) → NoDup (map (conn_of r) l);
  wf_attached s n l : r_service r !! s = Some (n, l) → l ≠ [] → r_hash r !! n = Some s ∨ s ∈ p;
  wf_owner o s cl : r_owner r !! o = Some (s, cl) →
    is_Some (r_service r !! s) ∧ is_Some (r_base r !! who cl);
  wf_hooks h : h ∈ hooks → ∃ cl, r_owner r !! hook_owner h = Some (hook_service h, cl);
  wf_base c n : r_base r !! c = Some n → (0 < n)%nat
}.

(** No object is kept without a reference to it. *)
Record live (p : list service_ptr) (r : reg) (hooks : list CancelHook) : Prop := {
  live_service s n l : r_service r !! s = Some (n, l) →
    (0 < service_refs r (ledger p r hooks) s n)%nat;
  live_owner o s cl : r_owner r !! o = Some (s, cl) →
    (0 < owner_refs r (ledger p r hooks) o s)%nat
}.

Section wf_lemmas.
Context (p : list service_ptr).
Implicit Types (r : reg) (hooks : list CancelHook).

Lemma conn_of_insert r o x o' :
  conn_of (with_owner r o x) o' = if decide (o' = o) then who (snd x) else conn_of r o'.
Proof.
  unfold conn_of. simpl. destruct (decide (o' = o)) as [->|]; [by rewrite lookup_insert_eq|].
  by rewrite lookup_insert_ne.
Qed.

Lemma conns_ext r r' l :
  (∀ o, o ∈ l → conn_of r' o = conn_of r o) → map (conn_of r') l = map (conn_of r) l.
Proof. intros H. apply map_ext_in. intros o Ho. apply H. by apply list_elem_of_In. Qed.

Lemma ledger_ext r r' hooks :
  (∀ h, h ∈ hooks → conn_of r' (hook_owner h) = conn_of r (hook_owner h)) →
  ledger p r' hooks = ledger p r hooks.
Proof.
  intros H. unfold ledger. f_equal. apply map_ext_in. intros h Hh. apply H.
  by apply list_elem_of_In.
Qed.

Lemma wf_hook_owner r hooks o :
  wf p r hooks → o ∈ map hook_owner hooks → is_Some (r_owner r !! o).
Proof.
  intros W (h & -> & Hh)%list_elem_of_fmap. destruct (wf_hooks _ _ _ W h Hh) as [cl ->]. eauto.
Qed.

(** *** The changes keep states well formed *)

Lemma wf_add_hook r hooks h cl :
  wf p r hooks → r_owner r !! hook_owner h = Some (hook_service h, cl) → wf p r (h :: hooks).
Proof.
  intros [W1 W2 W3 W4 W5 W6 W7] Hh. split; try done.
  intros h' [->|?]%elem_of_cons; [eauto|by apply W6].
Qed.

Lemma live_add_hook r hooks h : live p r hooks → live p r (h :: hooks).
Proof.
  intros [L1 L2]. split.
  - intros s n l Hs. specialize (L1 s n l Hs). unfold service_refs, ledger in *. simpl in *.
    change (hook_service h :: ?x) with ([hook_service h] ++ x). rewrite cnt_app. lia.
  - intros o s cl Ho. specialize (L2 o s cl Ho). unfold owner_refs, ledger in *. simpl in *.
    change (hook_owner h :: ?x) with ([hook_owner h] ++ x). rewrite cnt_app. lia.
Qed.

Lemma wf_with_links r hooks s n l l' :
  wf p r hooks → r_service r !! s = Some (n, l) →
  (∀ o, o ∈ l' → ∃ cl, r_owner r !! o = Some (s, cl)) → NoDup (map (conn_of r) l') →
  (l' ≠ [] → r_hash r !! n = Some s ∨ s ∈ p) → (r_hash r !! n = Some s → l' ≠ []) →
  wf p (with_links r s n l') hooks.
Proof.
  intros [W1 W2 W3 W4 W5 W6 W7] Hs Hl Hnd Ha Hh.
  assert (∀ s' n' l0, r_service (with_links r s n l') !! s' = Some (n', l0) →
    (s' = s ∧ n' = n ∧ l0 = l') ∨ (s' ≠ s ∧ r_service r !! s' = Some (n', l0))) as Hcase.
  { intros s' n' l0. simpl. destruct (decide (s' = s)) as [->|].
    - rewrite lookup_insert_eq. intros [= <- <-]. by left.
    - rewrite lookup_insert_ne by done. by right. }
  split.
  - intros n' s' H. simpl in *. destruct (decide (s' = s)) as [->|].
    + destruct (W1 _ _ H) as (l0 & E & _). assert (n' = n) as -> by congruence.
      rewrite lookup_insert_eq. eauto.
    + rewrite lookup_insert_ne by done. by apply W1.
  - intros s' n' l0 o [(-> & -> & ->)|[? ?]]%Hcase ?; [by apply Hl|by eapply W2].
  - intros s' n' l0 [(-> & -> & ->)|[? ?]]%Hcase; [done|by eapply W3].
  - intros s' n' l0 [(-> & -> & ->)|[? ?]]%Hcase ?; [by apply Ha|by eapply W4].
  - intros o s' cl H. destruct (W5 _ _ _ H) as [Hs' ?]. split; [|done]. simpl.
    destruct (decide (s' = s)) as [->|]; [by rewrite lookup_insert_eq|by rewrite lookup_insert_ne].
  - done.
  - done.
Qed.

Lemma live_with_links r hooks s n l l' :
  live p r hooks → r_service r !! s = Some (n, l) →
  (∀ o cl, r_owner r !! o = Some (s, cl) → o ∈ l' ∨ o ∈ map hook_owner hooks) →
  live p (with_links r s n l') hooks.
Proof.
  intros [L1 L2] Hs Ho. split.
  - intros s' n' l0. simpl. destruct (decide (s' = s)) as [->|].
    + rewrite lookup_insert_eq. intros [= <- <-]. by apply (L1 s n l).
    + rewrite lookup_insert_ne by done. by apply L1.
  - intros o s' cl H. specialize (L2 o s' cl H). unfold owner_refs, links in *. simpl in *.
    destruct (decide (s' = s)) as [->|]; [|by rewrite lookup_insert_ne].
    rewrite lookup_insert_eq. simpl. destruct (Ho o cl H) as [Hin|Hin]; apply cnt_pos in Hin; lia.
Qed.

(** A new owner, held by its hook. *)
Lemma wf_new_owner r hooks o s x c flags :
  wf p r hooks → r_owner r !! o = None → r_service r !! s = Some x → is_Some (r_base r !! c) →
  wf p (with_owner r o (s, claim_with c flags)) (CancelOwnership o s :: hooks).
Proof.
  intros W Ho Hs Hc. pose proof W as [W1 W2 W3 W4 W5 W6 W7].
  assert (∀ o' y, r_owner r !! o' = Some y →
    r_owner (with_owner r o (s, claim_with c flags)) !! o' = Some y) as Hk.
  { intros o' y Ho'. simpl. rewrite lookup_insert_ne; [done|congruence]. }
  split; try done.
  - intros s' n l o' Hs' Hin. destruct (W2 _ _ _ _ Hs' Hin) as [cl E]. eauto.
  - intros s' n l Hs'. rewrite (conns_ext r); [by eapply W3|]. intros o' Hin.
    destruct (W2 _ _ _ _ Hs' Hin) as [cl E]. unfold conn_of. by rewrite (Hk _ _ E), E.
  - intros o' s' cl. simpl. destruct (decide (o' = o)) as [->|].
    + rewrite lookup_insert_eq. intros [= <- <-]. by eauto.
    + rewrite lookup_insert_ne by done. by apply W5.
  - intros h [->|Hh]%elem_of_cons; [simpl; rewrite lookup_insert_eq; eauto|].
    destruct (W6 h Hh) as [cl E]. eauto.
Qed.

Lemma live_new_owner r hooks o s c flags :
  wf p r hooks → live p r hooks → r_owner r !! o = None →
  live p (with_owner r o (s, claim_with c flags)) (CancelOwnership o s :: hooks).
Proof.
  intros W [L1 L2] Ho. split.
  - intros s' n l Hs. specialize (L1 s' n l Hs). unfold service_refs, ledger in *. simpl in *.
    change (s :: ?x) with ([s] ++ x). rewrite cnt_app. lia.
  - intros o' s' cl. unfold owner_refs, ledger, links. simpl.
    change (o :: ?x) with ([o] ++ x). rewrite cnt_app.
    destruct (decide (o' = o)) as [->|Hne].
    + intros _. rewrite cnt_cons_eq. lia.
    + rewrite lookup_insert_ne by done. intros H. specialize (L2 o' s' cl H).
      unfold owner_refs, ledger, links in L2. simpl in L2. lia.
Qed.

(** New flags for an owner. *)
Lemma wf_set_owner r hooks o s cl cl' :
  wf p r hooks → r_owner r !! o = Some (s, cl) → who cl' = who cl →
  wf p (with_owner r o (s, cl')) hooks.
Proof.
  intros W Ho Hw. pose proof W as [W1 W2 W3 W4 W5 W6 W7].
  assert (∀ o' s' cl1, r_owner r !! o' = Some (s', cl1) →
    ∃ cl2, r_owner (with_owner r o (s, cl')) !! o' = Some (s', cl2)) as Hk.
  { intros o' s' cl1 Ho'. simpl. destruct (decide (o' = o)) as [->|].
    - rewrite lookup_insert_eq. assert (s' = s) as -> by congruence. eauto.
    - rewrite lookup_insert_ne by done. eauto. }
  split; try done.
  - intros s' n l o' Hs' Hin. destruct (W2 _ _ _ _ Hs' Hin) as [cl1 E]. eauto.
  - intros s' n l Hs'. rewrite (conns_ext r); [by eapply W3|]. intros o' Hin.
    rewrite conn_of_insert. destruct (decide (o' = o)) as [->|]; [|done]. simpl.
    by rewrite (conn_of_owner _ _ _ _ Ho).
  - intros o' s' cl1. simpl. destruct (decide (o' = o)) as [->|].
    + rewrite lookup_insert_eq. intros [= <- <-]. rewrite Hw. by apply (W5 o).
    + rewrite lookup_insert_ne by done. by apply W5.
  - intros h Hh. destruct (W6 h Hh) as [cl1 E]. eauto.
Qed.

Lemma live_set_owner r hooks o s cl cl' :
  live p r hooks → r_owner r !! o = Some (s, cl) → live p (with_owner r o (s, cl')) hooks.
Proof.
  intros [L1 L2] Ho. split; [exact L1|]. intros o' s' cl1. simpl.
  destruct (decide (o' = o)) as [->|].
  - rewrite lookup_insert_eq. intros [= <- <-]. by apply (L2 o s cl).
  - rewrite lookup_insert_ne by done. by apply L2.
Qed.

(** Objects without references go away. *)
Lemma wf_without_owner r hooks o s cl :
  wf p r hooks → r_owner r !! o = Some (s, cl) → o ∉ links r s → o ∉ map hook_owner hooks →
  wf p (without_owner r o) hooks.
Proof.
  intros W Ho Hl Hh. pose proof W as [W1 W2 W3 W4 W5 W6 W7].
  assert (∀ s' n l o', r_service r !! s' = Some (n, l) → o' ∈ l → o' ≠ o) as Hne.
  { intros s' n l o' Hs Hin ->. destruct (W2 _ _ _ _ Hs Hin) as [cl1 E].
    apply Hl. unfold links. replace s with s' by congruence. by rewrite Hs. }
  split; try done.
  - intros s' n l o' Hs Hin. simpl. rewrite lookup_delete_ne by (symmetry; by eapply Hne). by eapply W2.
  - intros s' n l Hs. rewrite (conns_ext r); [by eapply W3|]. intros o' Hin. unfold conn_of. simpl.
    rewrite lookup_delete_ne; [done|]. symmetry. by eapply Hne.
  - intros o' s' cl1. simpl. rewrite lookup_delete_Some. intros [_ ?]. by eapply W5.
  - intros h Hin. simpl. rewrite lookup_delete_ne; [by apply W6|]. intros ->. apply Hh.
    by apply (list_elem_of_fmap_2 hook_owner).
Qed.

Lemma live_without_owner r hooks o : live p r hooks → live p (without_owner r o) hooks.
Proof.
  intros [L1 L2]. split; [exact L1|]. intros o' s' cl. simpl. rewrite lookup_delete_Some.
  intros [_ ?]. by eapply L2.
Qed.

Lemma wf_without_service r hooks s n :
  wf p r hooks → r_service r !! s = Some (n, []) → r_hash r !! n ≠ Some s →
  (∀ o cl, r_owner r !! o ≠ Some (s, cl)) → wf p (without_service r s) hooks.
Proof.
  intros [W1 W2 W3 W4 W5 W6 W7] Hs Hn Ho.
  assert (∀ s' n' l, r_service (without_service r s) !! s' = Some (n', l) →
    r_service r !! s' = Some (n', l)) as Hk.
  { intros s' n' l. simpl. rewrite lookup_delete_Some. tauto. }
  split; try done.
  - intros n' s' H. destruct (W1 _ _ H) as (l & E & Hl). exists l. split; [|done]. simpl.
    rewrite lookup_delete_ne; [done|]. intros <-. congruence.
  - intros s' n' l o H%Hk. by eapply W2.
  - intros s' n' l H%Hk. by eapply W3.
  - intros s' n' l H%Hk. by eapply W4.
  - intros o s' cl H. destruct (W5 _ _ _ H) as [E ?]. split; [|done]. simpl.
    rewrite lookup_delete_ne; [done|]. intros <-. by eapply Ho.
Qed.

Lemma live_without_service r hooks s n :
  live p r hooks → r_service r !! s = Some (n, []) → live p (without_service r s) hooks.
Proof.
  intros [L1 L2] Hs. split.
  - intros s' n' l. simpl. rewrite lookup_delete_Some. intros [_ ?]. by eapply L1.
  - intros o s' cl H. specialize (L2 o s' cl H). unfold owner_refs, links in *. simpl in *.
    destruct (decide (s' = s)) as [->|]; [|by rewrite lookup_delete_ne].
    rewrite lookup_delete_eq. by rewrite Hs in L2.
Qed.

(** *** Leaving and entering the hash *)

Lemma wf_unhash r hooks s n :
  wf p r hooks → r_hash r !! n = Some s → wf (s :: p) (with_hash r (delete n (r_hash r))) hooks.
Proof.
  intros [W1 W2 W3 W4 W5 W6 W7] Hn. split; try done.
  - intros n' s'. simpl. rewrite lookup_delete_Some. intros [_ ?]. by apply W1.
  - intros s' n' l Hs Hl. simpl. destruct (W4 _ _ _ Hs Hl) as [H|H]; [|by right; right].
    destruct (decide (n' = n)) as [->|]; [right; apply elem_of_cons; left; congruence|left].
    by rewrite lookup_delete_ne.
Qed.

Lemma wf_enhash r hooks s n l :
  wf (s :: p) r hooks → r_service r !! s = Some (n, l) → l ≠ [] → r_hash r !! n = None →
  wf p (with_hash r (<[n := s]> (r_hash r))) hooks.
Proof.
  intros [W1 W2 W3 W4 W5 W6 W7] Hs Hl Hn. split; try done.
  - intros n' s'. simpl. destruct (decide (n' = n)) as [->|].
    + rewrite lookup_insert_eq. intros [= <-]. eauto.
    + rewrite lookup_insert_ne by done. apply W1.
  - intros s' n' l' Hs' Hl'. simpl in *.
    destruct (W4 _ _ _ Hs' Hl') as [H|[->|H]%elem_of_cons]; [| |by right]; left.
    + rewrite lookup_insert_ne; [done|]. intros <-. congruence.
    + assert (n' = n) as -> by congruence. apply lookup_insert_eq.
Qed.

Lemma wf_forget r hooks s :
  wf (s :: p) r hooks → links r s = [] → wf p r hooks.
Proof.
  intros [W1 W2 W3 W4 W5 W6 W7] Hl. split; try done. intros s' n l Hs Hne.
  destruct (W4 _ _ _ Hs Hne) as [?|[->|?]%elem_of_cons]; [by left| |by right].
  unfold links in Hl. by rewrite Hs in Hl.
Qed.

Lemma wf_pend r hooks s : wf p r hooks → wf (s :: p) r hooks.
Proof.
  intros [W1 W2 W3 W4 W5 W6 W7]. split; try done. intros s' n l Hs Hne.
  destruct (W4 _ _ _ Hs Hne); [by left|by right; right].
Qed.

Lemma cnt_pending hooks s s' :
  cnt (map hook_service hooks ++ s :: p) s'
  = ((if decide (s' = s) then 1 else 0) + cnt (map hook_service hooks ++ p) s')%nat.
Proof.
  rewrite <- (cnt_perm _ _ _ (Permutation_middle _ _ _)).
  destruct (decide (s' = s)) as [->|]; [by rewrite cnt_cons_eq|by rewrite cnt_cons_ne].
Qed.

Lemma live_unhash r hooks s n l :
  live p r hooks → r_service r !! s = Some (n, l) → r_hash r !! n = Some s →
  live (s :: p) (with_hash r (delete n (r_hash r))) hooks.
Proof.
  intros [L1 L2] Hs Hn. split; [|exact L2]. intros s' n' l' Hs'. simpl in Hs'. specialize (L1 _ _ _ Hs').
  unfold service_refs, ledger in *. simpl in *. rewrite cnt_pending.
  destruct (decide (s' = s)) as [->|]; [lia|]. destruct (decide (n' = n)) as [->|].
  - rewrite bool_decide_eq_false_2 in L1 by congruence. lia.
  - rewrite lookup_delete_ne by done. lia.
Qed.

Lemma live_enhash r hooks s n l :
  live (s :: p) r hooks → r_service r !! s = Some (n, l) → r_hash r !! n = None →
  live p (with_hash r (<[n := s]> (r_hash r))) hooks.
Proof.
  intros [L1 L2] Hs Hn. split; [|exact L2]. intros s' n' l' Hs'. simpl in Hs'. specialize (L1 _ _ _ Hs').
  unfold service_refs, ledger in *. simpl in *. rewrite cnt_pending in L1.
  destruct (decide (s' = s)) as [->|].
  - assert (n' = n) as -> by congruence. rewrite bool_decide_eq_true_2; [lia|].
    apply lookup_insert_eq.
  - destruct (decide (n' = n)) as [->|]; [|rewrite lookup_insert_ne by done; lia].
    rewrite Hn, bool_decide_eq_false_2 in L1 by done. lia.
Qed.

Lemma live_forget r hooks s :
  live (s :: p) r hooks → s ∈ map hook_service hooks → live p r hooks.
Proof.
  intros [L1 L2] Hin. split; [|exact L2]. intros s' n' l' Hs'. simpl in Hs'. specialize (L1 _ _ _ Hs').
  unfold service_refs, ledger in *. simpl in *. rewrite cnt_pending in L1.
  destruct (decide (s' = s)) as [->|]; [|lia]. rewrite cnt_app. apply cnt_pos in Hin. lia.
Qed.
End wf_lemmas.
