(* ===== verification/Ownership.v ===== *)
(** * Ownership: the contract of the name registry

    The abstract registry maps a name to a queue of claims, the first of which is
    the primary owner.  [acquire_spec] and [release_spec] say what a request does
    to the queue, what it answers and which signals it causes.  The operations of
    [Services] are shown to implement them, and to keep the invariant of
    [Ledger]: no use of freed memory, no failing assertion, exact reference
    counts.  Cancelling a transaction that only added an owner restores every
    queue; cancelling one that removed or replaced the primary owner does not,
    which is exhibited at the end. *)

From stdpp Require Import gmap.
From S2P Require Import Prelude Search Names Types Services Ledger.

(** ** The abstract registry *)

(** The queue of a name. *)
Definition claim_of (x : BusOwner) : claim :=
  Claim (owner_conn x) (allow_replacement x) (do_not_queue x).

Definition queue (b : bus) (name : bytes) : list claim :=
  match service_hash b !! name ≫= (λ s, service_pool b !! s) with
  | Some x => omap (λ o, claim_of <$> owner_pool b !! o) (owners x)
  | None => []
  end.

Definition others (c : connection) (q : list claim) : list claim := filter (λ x, who x ≠ c) q.

(** A connection that has to wait: it moves behind the primary owner if it asked
    to replace it, keeps its place if it has one, and goes to the end otherwise. *)
Definition enqueue (c : connection) (flags : Z) (rest : list claim) : list claim :=
  if flag flags DBUS_NAME_FLAG_REPLACE_EXISTING then claim_with c flags :: others c rest
  else if bool_decide (c ∈ map who rest)
  then map (λ x, if decide (who x = c) then claim_with c flags else x) rest
  else rest ++ [claim_with c flags].

Definition acquire_spec (name : bytes) (c : connection) (flags : Z) (q : list claim) :
    list claim * Z * list signal :=
  match q with
  | [] =>
      ([claim_with c flags], DBUS_REQUEST_NAME_REPLY_PRIMARY_OWNER,
       [NameOwnerChanged name None (Some c); NameAcquired c name])
  | p :: rest =>
      if decide (who p = c) then
        (claim_with c flags :: rest, DBUS_REQUEST_NAME_REPLY_ALREADY_OWNER, [])
      else if flag flags DBUS_NAME_FLAG_REPLACE_EXISTING && may_replace p then
        (claim_with c flags :: (if no_queue p then others c rest else p :: others c rest),
         DBUS_REQUEST_NAME_REPLY_PRIMARY_OWNER, lost_signals name (who p) (Some c))
      else if flag flags DBUS_NAME_FLAG_DO_NOT_QUEUE then
        (p :: others c rest, DBUS_REQUEST_NAME_REPLY_EXISTS, [])
      else (p :: enqueue c flags rest, DBUS_REQUEST_NAME_REPLY_IN_QUEUE, [])
  end.

Definition release_spec (name : bytes) (c : connection) (q : list claim) :
    list claim * Z * list signal :=
  match q with
  | [] => ([], DBUS_RELEASE_NAME_REPLY_NON_EXISTENT, [])
  | p :: rest =>
      if decide (who p = c) then
        (rest, DBUS_RELEASE_NAME_REPLY_RELEASED, lost_signals name c (who <$> head rest))
      else if bool_decide (c ∈ map who rest) then
        (p :: others c rest, DBUS_RELEASE_NAME_REPLY_RELEASED, [])
      else (q, DBUS_RELEASE_NAME_REPLY_NOT_OWNER, [])
  end.

(** ** States *)

(** A state with its ghost view; [p] are services under construction. *)
Definition state (p : list service_ptr) (r : reg) (t : tx) (b : bus) : Prop :=
  rep r (ledger p r (t_hooks t)) t b ∧ wf p r (t_hooks t) ∧ live p r (t_hooks t).

(** The queues of a ghost view. *)
Definition claim_at (r : reg) (o : owner_ptr) : claim :=
  from_option snd (Claim 0 false false) (r_owner r !! o).

Definition queue_in (r : reg) (name : bytes) : list claim :=
  match r_hash r !! name with
  | Some s => map (claim_at r) (links r s)
  | None => []
  end.

Lemma queue_rep p r t b name : state p r t b → queue b name = queue_in r name.
Proof.
  intros ([H1 H2 H3 H4 H5] & W & _). unfold queue, queue_in. rewrite H1.
  destruct (r_hash r !! name) as [s|] eqn:Hn; [|done]. simpl.
  destruct (wf_hash _ _ _ W _ _ Hn) as (l & Hs & _). unfold links. rewrite H2, Hs. simpl.
  assert (∀ o, o ∈ l → is_Some (r_owner r !! o)) as Hl.
  { intros o Ho. destruct (wf_links _ _ _ W _ _ _ _ Hs Ho) as [cl E]. eauto. }
  clear Hs. induction l as [|o l IH]; [done|]. simpl.
  destruct (Hl o ltac:(by left)) as [[s' [c a d]] Ho]. rewrite H3, Ho. simpl.
  unfold claim_at at 1. rewrite Ho. simpl. f_equal. apply IH. intros o' ?. apply Hl. by right.
Qed.

Lemma who_claim_at r o : is_Some (r_owner r !! o) → who (claim_at r o) = conn_of r o.
Proof. intros [[s cl] H]. unfold claim_at, conn_of. by rewrite H. Qed.

(** The effect of a request on the ghost view: the queue of one name and the
    messages, as far as they pass. *)
Record moved `{BC : BusContext} (name : bytes) (q : list claim) (xs : list signal) (r : reg) (t : tx)
    (r' : reg) (t' : tx) : Prop := {
  moved_queue : queue_in r' name = q;
  moved_others name' : name' ≠ name → queue_in r' name' = queue_in r name';
  moved_base : r_base r' = r_base r;
  moved_tx : t_messages t' = t_messages t ++ List.filter (passes (t_delivered t)) xs
             ∧ t_delivered t' = t_delivered t
             ∧ t_pids t' = t_pids t ∧ t_error t' = t_error t ∧ t_clients t' = t_clients t
}.

Section changes.
Context `{BC : BusContext}.
Context (p : list service_ptr) (r : reg) (hooks : list CancelHook).
Context (W : wf p r hooks) (A : live p r hooks).
Context (s : service_ptr) (n : bytes) (l : list owner_ptr).
Context (Hs : r_service r !! s = Some (n, l)).

Lemma live_links o : o ∈ l → ∃ cl, r_owner r !! o = Some (s, cl).
Proof. exact (wf_links _ _ _ W _ _ _ _ Hs). Qed.

Lemma claim_at_insert o x o' :
  claim_at (with_owner r o x) o' = if decide (o' = o) then snd x else claim_at r o'.
Proof.
  unfold claim_at. simpl. destruct (decide (o' = o)) as [->|]; [by rewrite lookup_insert_eq|].
  by rewrite lookup_insert_ne.
Qed.

Lemma claims_ext r' l' :
  (∀ o, o ∈ l' → claim_at r' o = claim_at r o) → map (claim_at r') l' = map (claim_at r) l'.
Proof. intros H. apply map_ext_in. intros o Ho. apply H. by apply list_elem_of_In. Qed.

Lemma map_who l' : (∀ o, o ∈ l' → ∃ cl, r_owner r !! o = Some (s, cl)) →
  map who (map (claim_at r) l') = map (conn_of r) l'.
Proof.
  intros Hl. rewrite map_map. apply map_ext_in. intros o Ho. apply who_claim_at.
  destruct (Hl o) as [cl ->]; [by apply list_elem_of_In|eauto].
Qed.

(** Without the claim of [o], which is the only one of its connection. *)
Lemma others_mid l1 o l2 :
  l = l1 ++ o :: l2 → others (conn_of r o) (map (claim_at r) l) = map (claim_at r) (l1 ++ l2).
Proof.
  intros El. pose proof (wf_conns _ _ _ W _ _ _ Hs) as Hnd. pose proof live_links as Hl.
  rewrite El in *. destruct (nodup_map_mid _ _ _ _ Hnd) as (_ & _ & N1 & N2 & _).
  assert (∀ l', l' ⊆ l1 ++ o :: l2 → conn_of r o ∉ map (conn_of r) l' →
    others (conn_of r o) (map (claim_at r) l') = map (claim_at r) l') as Hkeep.
  { induction l' as [|x l' IH]; intros Hsub Hn; [done|]. simpl in Hn.
    rewrite not_elem_of_cons in Hn. destruct Hn as [Hx Hn]. unfold others. simpl.
    rewrite filter_cons_True; [f_equal; apply IH; [set_solver|done]|].
    rewrite who_claim_at; [congruence|]. destruct (Hl x) as [cl ->]; [set_solver|eauto]. }
  rewrite !map_app. simpl. unfold others in *. rewrite list.filter_app, filter_cons_False.
  - rewrite !Hkeep by set_solver. done.
  - rewrite who_claim_at; [tauto|]. destruct (Hl o) as [cl ->]; [set_solver|eauto].
Qed.

Lemma others_absent c l' :
  (∀ o, o ∈ l' → ∃ cl, r_owner r !! o = Some (s, cl)) →
  c ∉ map (conn_of r) l' → others c (map (claim_at r) l') = map (claim_at r) l'.
Proof.
  intros Hl Hc. rewrite <- map_who in Hc by done. clear Hl. revert Hc. unfold others.
  induction (map (claim_at r) l') as [|x q IH]; [done|]. simpl. rewrite not_elem_of_cons.
  intros [? ?]. rewrite filter_cons_True by congruence. f_equal. auto.
Qed.

(** Queues of the other names. *)
Lemma queue_other r' :
  (∀ n', n' ≠ n → r_hash r' !! n' = r_hash r !! n') →
  (∀ s', s' ≠ s → r_service r' !! s' = r_service r !! s') →
  (∀ o s' cl, s' ≠ s → r_owner r !! o = Some (s', cl) → r_owner r' !! o = Some (s', cl)) →
  ∀ n', n' ≠ n → queue_in r' n' = queue_in r n'.
Proof.
  intros Hh Hsv Ho n' Hn. unfold queue_in. rewrite Hh by done.
  destruct (r_hash r !! n') as [s'|] eqn:E; [|done].
  destruct (wf_hash _ _ _ W _ _ E) as (l' & Hs' & _).
  assert (s' ≠ s) as Hne by congruence. unfold links. rewrite Hsv by done. rewrite Hs'. simpl.
  apply map_ext_in. intros o Hin%list_elem_of_In.
  destruct (wf_links _ _ _ W _ _ _ _ Hs' Hin) as [cl E']. unfold claim_at.
  by rewrite (Ho _ _ _ Hne E'), E'.
Qed.

(** *** A new owner *)

Section joined.
Context (o : owner_ptr) (c : connection) (flags : Z).
Context (Ho : r_owner r !! o = None) (Hc : is_Some (r_base r !! c)).
Context (Hn : c ∉ map (conn_of r) l) (Ha : r_hash r !! n = Some s ∨ s ∈ p).
Let r' := joined r s n l o c flags.
Let hooks' := CancelOwnership o s :: hooks.

Lemma joined_fresh : o ∉ l.
Proof. intros [cl ?]%live_links. congruence. Qed.

Lemma joined_conn x : x ≠ o → conn_of r' x = conn_of r x.
Proof. intros Hx. unfold conn_of. simpl. by rewrite lookup_insert_ne. Qed.

Lemma joined_conn_new : conn_of r' o = c.
Proof. unfold conn_of. simpl. by rewrite lookup_insert_eq. Qed.

Lemma joined_ledger k :
  k = ledger p r hooks →
  ledger p r' hooks' = Refs (s :: l_service k) (o :: l_owner k) (c :: l_conn k).
Proof.
  intros ->. unfold ledger. simpl. f_equal. f_equal; [by rewrite joined_conn_new|].
  apply map_ext_in. intros h Hh%list_elem_of_In. apply joined_conn. intros E.
  destruct (wf_hooks _ _ _ W h Hh) as [cl E']. congruence.
Qed.

Lemma joined_wf : wf p r' hooks'.
Proof.
  pose proof joined_fresh as Hol.
  apply (wf_with_links _ _ _ _ _ l); [by apply (wf_new_owner _ _ _ _ _ (n, l))|done|..].
  - intros x. rewrite place_perm, elem_of_cons. simpl. intros [->|Hx].
    + rewrite lookup_insert_eq. eauto.
    + rewrite lookup_insert_ne by (intros ->; done). by apply live_links.
  - rewrite (Permutation_map _ (place_perm flags o l)). simpl. apply list.NoDup_cons. split.
    + rewrite conn_of_insert, decide_True by done. simpl.
      rewrite (conns_ext r); [done|]. intros x Hx. apply joined_conn. by intros ->.
    + rewrite (conns_ext r); [by eapply wf_conns|]. intros x Hx. apply joined_conn. by intros ->.
  - done.
  - intros _ E. pose proof (place_perm flags o l) as HP. rewrite E in HP.
    by apply Permutation_nil_cons in HP.
Qed.

Lemma joined_live : live p r' hooks'.
Proof.
  apply (live_with_links _ _ _ _ _ l); [by apply live_new_owner|done|].
  intros x cl. simpl. rewrite place_perm. destruct (decide (x = o)) as [->|Hx].
  - intros _. left. by left.
  - rewrite lookup_insert_ne by done. intros Hx'.
    pose proof (live_owner _ _ _ A _ _ _ Hx') as Hpos. unfold owner_refs, links in Hpos.
    rewrite Hs in Hpos. simpl in Hpos.
    destruct (decide (x ∈ l)) as [|Hxl%cnt_none]; [by left; right|right; right].
    apply cnt_pos. lia.
Qed.

Lemma joined_claims :
  map (claim_at r') (links r' s)
  = if negb (flag flags DBUS_NAME_FLAG_REPLACE_EXISTING) || bool_decide (l = [])
    then map (claim_at r) l ++ [claim_with c flags]
    else match map (claim_at r) l with
         | [] => [claim_with c flags]
         | x :: q => x :: claim_with c flags :: q
         end.
Proof.
  pose proof joined_fresh as Hol.
  assert (links r' s = place flags o l) as -> by (unfold links; simpl; by rewrite lookup_insert_eq).
  assert (∀ l', (∀ x, x ∈ l' → x ∈ l) → map (claim_at r') l' = map (claim_at r) l') as Hext.
  { intros l' Hsub. apply claims_ext. intros x Hx. unfold claim_at. simpl.
    rewrite lookup_insert_ne; [done|]. intros ->. by apply Hol, Hsub. }
  assert (claim_at r' o = claim_with c flags) as Ec.
  { unfold claim_at. simpl. by rewrite lookup_insert_eq. }
  unfold place. destruct (_ || _).
  - rewrite map_app, Hext by done. simpl. by rewrite Ec.
  - pose proof (Hext l ltac:(done)) as E. revert E. generalize l as l'.
    intros [|x l'] E; simpl; rewrite Ec; [done|]. injection E as E1 E2. by rewrite E1, E2.
Qed.

Lemma joined_other n' : n' ≠ n → queue_in r' n' = queue_in r n'.
Proof.
  apply queue_other; [done| |].
  - intros s' Hs'. simpl. by rewrite lookup_insert_ne.
  - intros x s' cl _ Hx. simpl. rewrite lookup_insert_ne; [done|congruence].
Qed.

End joined.

(** Owners of the service outside of its queue are held by hooks. *)
Lemma loose_owner o cl :
  r_owner r !! o = Some (s, cl) → o ∈ l ∨ o ∈ map hook_owner hooks.
Proof.
  intros Ho. pose proof (live_owner _ _ _ A _ _ _ Ho) as Hpos. unfold owner_refs, links in Hpos.
  rewrite Hs in Hpos. simpl in Hpos.
  destruct (decide (o ∈ l)) as [|Hl%cnt_none]; [by left|right]. apply cnt_pos. lia.
Qed.

(** *** A new order of the queue *)

Lemma reorder_wf l' : l' ≡ₚ l → wf p (with_links r s n l') hooks.
Proof.
  intros HP. apply (wf_with_links _ _ _ _ _ l); [done|done|..].
  - intros o. rewrite HP. apply live_links.
  - rewrite (Permutation_map _ HP). by eapply wf_conns.
  - intros Hne. apply (wf_attached _ _ _ W _ _ _ Hs). intros ->. by apply Permutation_nil_r in HP.
  - intros Hh ->. destruct (wf_hash _ _ _ W _ _ Hh) as (l0 & E & Hne).
    apply Permutation_nil_l in HP. congruence.
Qed.

Lemma reorder_live l' : l' ≡ₚ l → live p (with_links r s n l') hooks.
Proof.
  intros HP. apply (live_with_links _ _ _ _ _ l); [done|done|].
  intros o cl Ho%loose_owner. by rewrite HP.
Qed.

(** *** An owner leaves the queue *)

Section dropped.
Context (l1 : list owner_ptr) (o : owner_ptr) (l2 : list owner_ptr).
Context (El : l = l1 ++ o :: l2) (Hne : l1 ++ l2 ≠ []).
Let r' := drop_owner (with_links r s n (l1 ++ l2)) (map hook_owner hooks) o.

Lemma dropped_sub x : x ∈ l1 ++ l2 → x ∈ l.
Proof. rewrite El. set_solver. Qed.

Lemma dropped_fresh : o ∉ l1 ++ l2.
Proof.
  pose proof (wf_conns _ _ _ W _ _ _ Hs) as Hnd. rewrite El in Hnd.
  destruct (nodup_map_mid _ _ _ _ Hnd) as (? & ? & _). set_solver.
Qed.

Lemma dropped_links_wf : wf p (with_links r s n (l1 ++ l2)) hooks.
Proof.
  apply (wf_with_links _ _ _ _ _ l); [done|done|..].
  - intros x Hx%dropped_sub. by apply live_links.
  - pose proof (wf_conns _ _ _ W _ _ _ Hs) as Hnd. rewrite El in Hnd.
    by destruct (nodup_map_mid _ _ _ _ Hnd) as (_ & _ & _ & _ & ?).
  - intros _. apply (wf_attached _ _ _ W _ _ _ Hs). rewrite El. by destruct l1.
  - done.
Qed.

Lemma dropped_wf : wf p r' hooks.
Proof.
  unfold r', drop_owner. destruct (decide _) as [Hin|Hin]; [apply dropped_links_wf|].
  destruct (live_links o) as [cl Ho]; [rewrite El; set_solver|].
  apply (wf_without_owner _ _ _ _ s cl); [apply dropped_links_wf|done| |done].
  unfold links. simpl. rewrite lookup_insert_eq. apply dropped_fresh.
Qed.

Lemma dropped_live : live p r' hooks.
Proof.
  unfold r', drop_owner. destruct (decide _) as [Hin|Hin].
  - apply (live_with_links _ _ _ _ _ l); [done|done|]. intros x cl [Hx|?]%loose_owner; [|by right].
    rewrite El in Hx. set_solver.
  - change (live p (with_links (without_owner r o) s n (l1 ++ l2)) hooks).
    apply (live_with_links _ _ _ _ _ l); [by apply live_without_owner|done|].
    intros x cl. simpl. rewrite lookup_delete_Some. intros [Hxo [Hx|?]%loose_owner]; [|by right].
    rewrite El in Hx. set_solver.
Qed.

Lemma dropped_owner x : x ≠ o → r_owner r' !! x = r_owner r !! x.
Proof.
  intros Hx. unfold r', drop_owner. destruct (decide _); [done|]. simpl.
  by rewrite lookup_delete_ne.
Qed.

Lemma dropped_ledger : ledger p r' hooks = ledger p r hooks.
Proof.
  apply ledger_ext. intros h Hh. unfold conn_of. unfold r', drop_owner.
  destruct (decide _) as [Hin|Hin]; [done|]. simpl. rewrite lookup_delete_ne; [done|].
  intros ->. apply Hin. by apply (list_elem_of_fmap_2 hook_owner).
Qed.

Lemma dropped_links : links r' s = l1 ++ l2.
Proof. unfold links, r', drop_owner. destruct (decide _); simpl; by rewrite lookup_insert_eq. Qed.

Lemma dropped_claims :
  map (claim_at r') (links r' s) = others (conn_of r o) (map (claim_at r) l).
Proof.
  rewrite (others_mid l1 o l2 El), dropped_links. apply claims_ext. intros x Hx.
  unfold claim_at. rewrite dropped_owner; [done|]. intros ->. by apply dropped_fresh.
Qed.

Lemma dropped_other n' : n' ≠ n → queue_in r' n' = queue_in r n'.
Proof.
  apply queue_other.
  - intros. unfold r', drop_owner. by destruct (decide _).
  - intros s' Hs'. unfold r', drop_owner. destruct (decide _); simpl; by rewrite lookup_insert_ne.
  - intros x s' cl Hne' Hx. rewrite dropped_owner; [done|]. intros ->.
    destruct (live_links o) as [cl' E]; [rewrite El; set_solver|]. congruence.
Qed.

End dropped.

(** *** The primary owner leaves, held by the hook that can restore it *)

Section left_.
Context (o : owner_ptr) (l' : list owner_ptr) (h : CancelHook).
Context (El : l = o :: l') (Hh : r_hash r !! n = Some s).
Context (Ho : hook_owner h = o) (Hhs : hook_service h = s).
Let r' := left_by r s n l'.

Lemma left_hook_wf : wf p r (h :: hooks).
Proof.
  destruct (live_links o) as [cl E]; [rewrite El; by left|].
  apply (wf_add_hook _ _ _ _ cl); [done|]. by rewrite Ho, Hhs.
Qed.

Lemma left_wf : wf p r' (h :: hooks).
Proof.
  pose proof (wf_conns _ _ _ W _ _ _ Hs) as Hnd. rewrite El in Hnd. simpl in Hnd.
  apply list.NoDup_cons in Hnd as [_ Hnd]. pose proof left_hook_wf as W'. unfold r', left_by.
  destruct (decide (l' = [])) as [->|Hl'].
  - apply (wf_forget _ _ _ s); [|unfold links; simpl; by rewrite lookup_insert_eq].
    change (wf (s :: p) (with_links (with_hash r (delete n (r_hash r))) s n []) (h :: hooks)).
    apply (wf_with_links _ _ _ _ _ l); [by apply wf_unhash|done|..].
    + by intros x ?%not_elem_of_nil.
    + constructor.
    + done.
    + simpl. by rewrite lookup_delete_eq.
  - apply (wf_with_links _ _ _ _ _ l); [done|done|..]; [|done|by left|done].
    intros x Hx. apply live_links. rewrite El. by right.
Qed.

Lemma left_live : live p r' (h :: hooks).
Proof.
  assert (∀ x cl, r_owner r !! x = Some (s, cl) → x ∈ l' ∨ x ∈ map hook_owner (h :: hooks)) as Hx.
  { intros x cl [Hx|Hx]%loose_owner; [|by right; right]. rewrite El in Hx.
    apply elem_of_cons in Hx as [->|?]; [|by left]. right. simpl. rewrite Ho. by left. }
  unfold r', left_by. destruct (decide (l' = [])) as [->|Hl'].
  - apply (live_forget _ _ _ s); [|simpl; rewrite Hhs; by left].
    change (live (s :: p) (with_links (with_hash r (delete n (r_hash r))) s n []) (h :: hooks)).
    apply (live_with_links _ _ _ _ _ l); [|done|exact Hx].
    apply (live_unhash _ _ _ _ _ l); [by apply live_add_hook|done|done].
  - apply (live_with_links _ _ _ _ _ l); [by apply live_add_hook|done|done].
Qed.

Lemma left_owner : r_owner r' = r_owner r.
Proof. unfold r', left_by. by destruct (decide _). Qed.

Lemma left_queue : queue_in r' n = map (claim_at r) l'.
Proof.
  unfold queue_in, links, claim_at, r', left_by. destruct (decide (l' = [])) as [->|]; simpl.
  - by rewrite lookup_delete_eq.
  - rewrite Hh. simpl. by rewrite lookup_insert_eq.
Qed.

Lemma left_other n' : n' ≠ n → queue_in r' n' = queue_in r n'.
Proof.
  apply queue_other; unfold r', left_by; destruct (decide (l' = [])); simpl; intros; try done.
  - by rewrite lookup_delete_ne.
  - by rewrite lookup_insert_ne.
  - by rewrite lookup_insert_ne.
Qed.

End left_.

Lemma links_other l' n' : n' ≠ n → queue_in (with_links r s n l') n' = queue_in r n'.
Proof. apply queue_other; [done| |done]. intros s' ?. simpl. by rewrite lookup_insert_ne. Qed.

Lemma links_queue l' :
  r_hash r !! n = Some s → queue_in (with_links r s n l') n = map (claim_at r) l'.
Proof.
  intros Hh. unfold queue_in, links. simpl. rewrite Hh. simpl. by rewrite lookup_insert_eq.
Qed.

End changes.

(** ** Requests on a name that has owners *)

Section requests.
Context `{BC : BusContext}.
Implicit Types (r : reg) (t : tx) (b : bus).

Lemma hoare_state {B} p r t (c : BM B) Q F L :
  (wf p r (t_hooks t) → live p r (t_hooks t) →
   hoare (rep r (ledger p r (t_hooks t)) t) c Q F L) →
  hoare (state p r t) c Q F L.
Proof. intros H b m (Hb & W & A). by apply H. Qed.

Lemma hoare_wf {B} p r t (c : BM B) Q F L :
  (wf p r (t_hooks t) → hoare (state p r t) c Q F L) → hoare (state p r t) c Q F L.
Proof. intros H b m Hb. pose proof Hb as (_ & W & _). by apply H. Qed.

Lemma hoare_state_get_owner {B} p r t o s cl (f : BusOwner → BM B) Q F L :
  r_owner r !! o = Some (s, cl) →
  hoare (state p r t) (f (the_owner r (ledger p r (t_hooks t)) o (s, cl))) Q F L →
  hoare (state p r t) (get_owner o ≫= f) Q F L.
Proof.
  intros Ho Hf. apply hoare_state. intros W A. apply (get_owner_rule _ _ _ _ (s, cl)); [done|].
  intros b m Hb. by apply Hf.
Qed.

(** Out of memory in a consistent state, with a service under construction at
    most. *)
Definition stopped b : Prop :=
  ∃ p r t, state p r t b ∧ t_error t = Some DBUS_ERROR_NO_MEMORY.

Lemma oom_stopped p r t b :
  wf p r (t_hooks t) → live p r (t_hooks t) →
  oom_in r (ledger p r (t_hooks t)) t b → stopped b.
Proof.
  intros W A (t' & (E & _) & He & Hb). exists p, r, t'. unfold state. by rewrite E.
Qed.

(** The state after the queue of [s] got the waiting claims [q] behind its primary
    owner [o1]. *)
Record waiting r t (s : service_ptr) (n : bytes) (o1 : owner_ptr) (q : list claim) r' t'
    (l' : list owner_ptr) : Prop := {
  wait_hash : r_hash r' = r_hash r;
  wait_base : r_base r' = r_base r;
  wait_service : r_service r' !! s = Some (n, o1 :: l');
  wait_owner : r_owner r' !! o1 = r_owner r !! o1;
  wait_claims : map (claim_at r') l' = q;
  wait_others n' : n' ≠ n → queue_in r' n' = queue_in r n';
  wait_tx : t_messages t' = t_messages t ∧ t_delivered t' = t_delivered t
            ∧ t_pids t' = t_pids t ∧ t_error t' = t_error t ∧ t_clients t' = t_clients t
}.

Section queued.
Context r t (s : service_ptr) (n : bytes) (o1 : owner_ptr) (l1 : list owner_ptr) (cl1 : claim).
Context (He : t_error t = None) (Hh : r_hash r !! n = Some s).
Context (Hs : r_service r !! s = Some (n, o1 :: l1)) (Ho1 : r_owner r !! o1 = Some (s, cl1)).
Context (c : connection) (Hc : is_Some (r_base r !! c)) (flags : Z) (Hne : who cl1 ≠ c).

Lemma hashed_pos k : (0 < service_refs r k s n)%nat.
Proof. unfold service_refs. rewrite bool_decide_eq_true_2 by done. lia. Qed.

(** A connection that was not in the queue. *)
Lemma add_new_state :
  c ∉ map (conn_of r) (o1 :: l1) →
  hoare (state [] r t) (bus_service_add_owner s c flags)
    (λ _ b, ∃ r' t' l', state [] r' t' b
       ∧ waiting r t s n o1 (enqueue c flags (map (claim_at r) l1)) r' t' l') stopped False.
Proof.
  intros Hnew. apply hoare_state. intros W A. destruct Hc as [nb Hnb].
  set (k := ledger [] r (t_hooks t)).
  eapply hoare_conseq; [apply (add_owner_new_rule r (l_service k) (l_owner k) (l_conn k)
    t s n (o1 :: l1) c flags nb False)|done|..]; try done.
  - apply hashed_pos.
  - intros o. by apply (wf_links _ _ _ W _ _ _ _ Hs).
  - intros o. by apply (wf_hook_owner [] _ (t_hooks t)).
  - intros _ b (o & Ho & Hb). set (r' := joined r s n (o1 :: l1) o c flags) in *.
    rewrite <- (joined_ledger [] r _ W s n (o1 :: l1) o c flags Ho k eq_refl) in Hb.
    assert (o1 ≠ o) as Hno by congruence.
    pose proof (joined_claims [] r _ W s n (o1 :: l1) Hs o c flags Ho) as Hcl. fold r' in Hcl.
    assert (links r' s = place flags o (o1 :: l1)) as Hlk.
    { unfold links. simpl. by rewrite lookup_insert_eq. }
    rewrite Hlk in Hcl. unfold acquired in Hb. rewrite decide_False in Hb by done.
    assert (∃ l', place flags o (o1 :: l1) = o1 :: l') as [l' El'].
    { unfold place. destruct (_ || _); simpl; eauto. }
    exists r', (with_hook t (CancelOwnership o s)), l'. split.
    { split; [done|]. split; [by apply joined_wf; auto|by apply joined_live]. }
    split; try done.
    + simpl. rewrite lookup_insert_eq. by rewrite El'.
    + simpl. by rewrite lookup_insert_ne.
    + rewrite El' in Hcl. simpl in Hcl. rewrite ?orb_false_r in Hcl.
      unfold enqueue. pose proof (map_who r s l1) as Hw. simpl in Hnew.
      rewrite not_elem_of_cons in Hnew.
      assert (∀ o, o ∈ l1 → ∃ cl, r_owner r !! o = Some (s, cl)) as Hl1.
      { intros x Hx. apply (wf_links _ _ _ W _ _ _ _ Hs). by right. }
      destruct (flag flags DBUS_NAME_FLAG_REPLACE_EXISTING); simpl in Hcl; injection Hcl as _ ->.
      * by rewrite (others_absent r s) by tauto.
      * rewrite Hw by done. by rewrite bool_decide_eq_false_2 by tauto.
    + by apply (joined_other [] r (t_hooks t)).
  - intros b. by apply oom_stopped.
Qed.

(** A connection that is in the queue already. *)
Lemma find_split x :
  wf [] r (t_hooks t) → find_in r (o1 :: l1) c = Some x →
  ∃ la lb, l1 = la ++ x :: lb ∧ conn_of r x = c.
Proof.
  intros W Hf. destruct (find_in_Some _ _ _ _ Hf) as [Hin Hx].
  apply elem_of_cons in Hin as [->|Hin].
  - destruct Hne. rewrite <- Hx. symmetry. by apply (conn_of_owner _ _ s).
  - apply list_elem_of_split in Hin as (la & lb & ->). eauto.
Qed.

Section requeued.
Context (W : wf [] r (t_hooks t)) (A : live [] r (t_hooks t)).
Context (x : owner_ptr) (la lb : list owner_ptr) (El : l1 = la ++ x :: lb).
Context (Hx : conn_of r x = c).
Let r' := requeued r s n (o1 :: l1) x c flags.

Lemma requeued_parts :
  x ≠ o1 ∧ x ∉ la ∧ x ∉ lb ∧ c ∉ map (conn_of r) la ∧ c ∉ map (conn_of r) lb.
Proof.
  pose proof (wf_conns _ _ _ W _ _ _ Hs) as Hnd. rewrite El in Hnd.
  change (o1 :: la ++ x :: lb) with ((o1 :: la) ++ x :: lb) in Hnd.
  destruct (nodup_map_mid _ _ _ _ Hnd) as (N1 & N2 & N3 & N4 & _). rewrite Hx in *.
  simpl in N3. rewrite not_elem_of_cons in *. tauto.
Qed.

Lemma requeued_remove : remove_first x (o1 :: l1) = o1 :: la ++ lb.
Proof.
  destruct requeued_parts as (N0 & N1 & _). rewrite El.
  change (o1 :: la ++ x :: lb) with ((o1 :: la) ++ x :: lb). rewrite remove_first_mid; [done|].
  rewrite not_elem_of_cons. tauto.
Qed.

Lemma requeued_owner : ∃ cl, r_owner r !! x = Some (s, cl) ∧ who cl = c.
Proof.
  destruct (wf_links _ _ _ W _ _ _ x Hs) as [cl E]; [rewrite El; set_solver|].
  exists cl. split; [done|]. by rewrite <- (conn_of_owner _ _ _ _ E).
Qed.

Lemma requeued_wf : wf [] r' (t_hooks t).
Proof.
  destruct requeued_owner as (cl & Ho & Hw). unfold r', requeued. rewrite requeued_remove.
  destruct (flag _ _).
  - apply (wf_set_owner _ _ _ _ _ cl); [|done|done].
    apply (reorder_wf [] _ _ W _ _ _ Hs). simpl. rewrite El.
    by rewrite Permutation_middle.
  - by apply (wf_set_owner _ _ _ _ _ cl).
Qed.

Lemma requeued_live : live [] r' (t_hooks t).
Proof.
  destruct requeued_owner as (cl & Ho & Hw). unfold r', requeued. rewrite requeued_remove.
  destruct (flag _ _).
  - apply (live_set_owner _ _ _ _ _ cl); [|done].
    apply (reorder_live [] _ _ A _ _ _ Hs). simpl. rewrite El.
    by rewrite Permutation_middle.
  - by apply (live_set_owner _ _ _ _ _ cl).
Qed.

Lemma requeued_lookup o : o ≠ x → r_owner r' !! o = r_owner r !! o.
Proof.
  intros Hne'. unfold r', requeued. simpl. rewrite lookup_insert_ne by done. by destruct (flag _ _).
Qed.

Lemma requeued_new : r_owner r' !! x = Some (s, claim_with c flags).
Proof. apply lookup_insert_eq. Qed.

Lemma requeued_ledger : ledger [] r' (t_hooks t) = ledger [] r (t_hooks t).
Proof.
  apply ledger_ext. intros h _. destruct (decide (hook_owner h = x)) as [->|Hh'].
  - unfold conn_of at 1. by rewrite requeued_new, Hx.
  - unfold conn_of. by rewrite requeued_lookup.
Qed.

Lemma requeued_waiting :
  ∃ l', waiting r t s n o1 (enqueue c flags (map (claim_at r) l1)) r' t l'.
Proof.
  destruct requeued_parts as (N0 & N1 & N2 & N3 & N4).
  assert (∀ o, o ∈ l1 → ∃ cl, r_owner r !! o = Some (s, cl)) as Hl1.
  { intros o Ho. apply (wf_links _ _ _ W _ _ _ _ Hs). by right. }
  assert (claim_at r' x = claim_with c flags) as Ex by (unfold claim_at; by rewrite requeued_new).
  assert (∀ o, o ≠ x → claim_at r' o = claim_at r o) as Eo.
  { intros o Ho. unfold claim_at. by rewrite requeued_lookup. }
  assert (∀ l', x ∉ l' → map (claim_at r') l' = map (claim_at r) l') as Eext.
  { intros l' Hl'. apply claims_ext. intros o Ho. apply Eo. by intros ->. }
  assert (∀ n', n' ≠ n → queue_in r' n' = queue_in r n') as Hoth.
  { apply (queue_other [] r (t_hooks t) W s n (o1 :: l1) Hs).
    - unfold r', requeued. by destruct (flag _ _).
    - intros s' Hs'. unfold r', requeued. destruct (flag _ _); simpl; [by rewrite lookup_insert_ne|done].
    - intros o s' cl Hs' Ho. rewrite requeued_lookup; [done|]. intros ->.
      destruct requeued_owner as (cl' & E & _). congruence. }
  assert (r_owner r' !! o1 = r_owner r !! o1) as Hro1 by (apply requeued_lookup; congruence).
  assert (r_hash r' = r_hash r ∧ r_base r' = r_base r) as [Hrh Hrb].
  { unfold r', requeued. by destruct (flag _ _). }
  unfold enqueue. destruct (flag flags DBUS_NAME_FLAG_REPLACE_EXISTING) eqn:Hrep.
  - exists (x :: la ++ lb). split; try done.
    + unfold r', requeued. rewrite Hrep, requeued_remove. simpl. apply lookup_insert_eq.
    + simpl. rewrite Ex, Eext by set_solver. f_equal. rewrite El, !map_app. simpl.
      unfold others. rewrite list.filter_app, filter_cons_False.
      * fold (others c (map (claim_at r) la)). fold (others c (map (claim_at r) lb)).
        rewrite !(others_absent r s); try done; intros o Ho; apply Hl1; rewrite El; set_solver.
      * rewrite who_claim_at, Hx; [tauto|].
        destruct (Hl1 x) as [cl ->]; [rewrite El; set_solver|eauto].
  - exists l1. split; try done.
    + unfold r', requeued. by rewrite Hrep.
    + rewrite (map_who r s) by done. rewrite bool_decide_eq_true_2.
      * rewrite map_map. apply map_ext_in. intros o Ho%list_elem_of_In.
        rewrite who_claim_at by (destruct (Hl1 o Ho) as [cl ->]; eauto).
        destruct (decide (o = x)) as [->|Hox]; [by rewrite Hx, decide_True, Ex|].
        rewrite Eo by done. rewrite decide_False; [done|]. intros E.
        rewrite El in Ho. apply elem_of_app in Ho as [Ho|[->|Ho]%elem_of_cons]; [|done|];
          [apply N3|apply N4]; rewrite <- E; by apply (list_elem_of_fmap_2 (conn_of r)).
      * rewrite <- Hx. apply (list_elem_of_fmap_2 (conn_of r)). rewrite El. set_solver.
Qed.

End requeued.

Lemma add_queued_state x :
  find_in r (o1 :: l1) c = Some x →
  hoare (state [] r t) (bus_service_add_owner s c flags)
    (λ _ b, ∃ r' t' l', state [] r' t' b
       ∧ waiting r t s n o1 (enqueue c flags (map (claim_at r) l1)) r' t' l') stopped False.
Proof.
  intros Hf. apply hoare_state. intros W A. set (k := ledger [] r (t_hooks t)).
  destruct (find_split x W Hf) as (la & lb & El & Hx).
  eapply hoare_conseq; [apply (add_owner_queued_rule r (l_service k) (l_owner k) (l_conn k)
    t s n (o1 :: l1) c flags x stopped False He Hs)|done|..]; try done.
  - intros o. by apply (wf_links _ _ _ W _ _ _ _ Hs).
  - by rewrite (requeued_remove W x la lb El Hx).
  - intros a b Hb. cbv beta in Hb. destruct (requeued_waiting W A x la lb El Hx) as [l' Hl'].
    exists (requeued r s n (o1 :: l1) x c flags), t, l'. split; [|done]. split.
    + by rewrite (requeued_ledger x Hx).
    + split; [by apply (requeued_wf W A x la lb)|by apply (requeued_live W A x la lb)].
Qed.

(** Both cases. *)
Lemma add_owner_state :
  hoare (state [] r t) (bus_service_add_owner s c flags)
    (λ _ b, ∃ r' t' l', state [] r' t' b
       ∧ waiting r t s n o1 (enqueue c flags (map (claim_at r) l1)) r' t' l') stopped False.
Proof.
  destruct (find_in r (o1 :: l1) c) as [x|] eqn:Hf; [by eapply add_queued_state|].
  apply add_new_state. by apply find_in_None.
Qed.

(** *** The branches of a request *)

Definition answers (spec : list claim * Z * list signal) (result : Z) b : Prop :=
  let '(q, reply, xs) := spec in
  result = reply ∧ ∃ r' t', state [] r' t' b ∧ moved n q xs r t r' t'.

Lemma unmoved : moved n (queue_in r n) [] r t r t.
Proof. split; try done. by rewrite app_nil_r. Qed.

Lemma queue_here : queue_in r n = cl1 :: map (claim_at r) l1.
Proof.
  unfold queue_in, links. rewrite Hh, Hs. simpl. unfold claim_at at 1. by rewrite Ho1.
Qed.

Lemma dropped_state la x lb b :
  wf [] r (t_hooks t) → live [] r (t_hooks t) → o1 :: l1 = la ++ x :: lb → la ++ lb ≠ [] →
  let r' := drop_owner (with_links r s n (la ++ lb)) (map hook_owner (t_hooks t)) x in
  rep r' (ledger [] r (t_hooks t)) t b → state [] r' t b.
Proof.
  intros W A El Hne' r' Hb. split; [|split].
  - unfold r'. by rewrite (dropped_ledger [] r (t_hooks t) s n _ _ _ _ El).
  - by apply (dropped_wf [] r (t_hooks t) W A s n (o1 :: l1)).
  - by apply (dropped_live [] r (t_hooks t) W A s n (o1 :: l1)).
Qed.

Lemma dropped_moved la x lb :
  wf [] r (t_hooks t) → live [] r (t_hooks t) → o1 :: l1 = (o1 :: la) ++ x :: lb →
  conn_of r x ≠ who cl1 →
  moved n (cl1 :: others (conn_of r x) (map (claim_at r) l1)) [] r t
    (drop_owner (with_links r s n ((o1 :: la) ++ lb)) (map hook_owner (t_hooks t)) x) t.
Proof.
  intros W A El Hx. set (r' := drop_owner _ _ _). split; try done; [| | |by rewrite app_nil_r].
  - unfold queue_in. replace (r_hash r' !! n) with (Some s)
      by (unfold r', drop_owner; by destruct (decide _)).
    unfold r'. rewrite (dropped_claims [] r (t_hooks t) W A s n (o1 :: l1) Hs _ _ _ El) by done.
    assert (claim_at r o1 = cl1) as E1 by (unfold claim_at; by rewrite Ho1).
    simpl. unfold others. rewrite E1. by rewrite filter_cons_True by congruence.
  - by apply (dropped_other [] r (t_hooks t) W A s n (o1 :: l1) Hs _ _ _ El).
  - unfold r', drop_owner. by destruct (decide _).
Qed.

(** A refused connection leaves the queue. *)
Lemma refuse_state :
  hoare (state [] r t)
    (link ← _bus_service_find_owner_link s c;
     (match link with Some o => drop_from_queue s o | None => mret tt end);;
     mret DBUS_REQUEST_NAME_REPLY_EXISTS)
    (answers (cl1 :: others c (map (claim_at r) l1), DBUS_REQUEST_NAME_REPLY_EXISTS, []))
    stopped False.
Proof.
  apply hoare_state. intros W A. set (k := ledger [] r (t_hooks t)).
  assert (∀ o, o ∈ o1 :: l1 → ∃ cl, r_owner r !! o = Some (s, cl)) as Hl.
  { intros o. by apply (wf_links _ _ _ W _ _ _ _ Hs). }
  assert (∀ o, o ∈ l1 → ∃ cl, r_owner r !! o = Some (s, cl)) as Hl1.
  { intros o Ho. apply Hl. by right. }
  apply (find_owner_link_rule _ _ _ _ n (o1 :: l1)); [done|by intros o [cl ->]%Hl; eauto|].
  destruct (find_in r (o1 :: l1) c) as [x|] eqn:Hf.
  - destruct (find_split x W Hf) as (la & lb & El & Hx).
    pose proof (wf_conns _ _ _ W _ _ _ Hs) as Hnd. rewrite El in Hnd.
    change (o1 :: la ++ x :: lb) with ((o1 :: la) ++ x :: lb) in *.
    destruct (nodup_map_mid _ _ _ _ Hnd) as (N1 & N2 & _).
    assert (o1 :: l1 = (o1 :: la) ++ x :: lb) as El' by (by rewrite El).
    destruct (Hl x) as [clx Hox]; [rewrite El; set_solver|].
    destruct Hc as [nb Hnb].
    assert (who clx = c) as Hw by (by rewrite <- (conn_of_owner _ _ _ _ Hox)).
    eapply hoare_bind.
    { apply (drop_from_queue_rule r (l_service k) (l_owner k) (l_conn k) t s n (o1 :: la) lb x clx nb);
        rewrite <- ?El'; try done. by rewrite Hw. }
    intros []; cbv beta. apply hoare_ret. intros b Hb. split; [done|].
    eexists _, t. split; [by apply (dropped_state (o1 :: la) x lb b W A El')|].
    rewrite <- Hx. apply dropped_moved; congruence.
  - eapply hoare_bind; [by apply (hoare_ret _ _ (λ _, rep r k t))|]. intros []; cbv beta.
    apply hoare_ret. intros b Hb. split; [done|]. exists r, t. split; [done|].
    apply find_in_None in Hf. simpl in Hf. rewrite not_elem_of_cons in Hf.
    rewrite (others_absent r s) by tauto. rewrite <- queue_here. apply unmoved.
Qed.

End queued.

Lemma waiting_moved r t s n o1 q r1 t1 l' q' xs r' t' :
  waiting r t s n o1 q r1 t1 l' → moved n q' xs r1 t1 r' t' → moved n q' xs r t r' t'.
Proof.
  intros [A1 A2 A3 A4 A5 A6 (A7 & A8 & A9 & A10 & A11)] [M1 M2 M3 (M4 & M5 & M6 & M7 & M8)].
  split; try congruence; [|split_and!; congruence]. intros n' Hn'. by rewrite M2, A6.
Qed.

Lemma waiting_answers r t s n o1 q r1 t1 l' spec res b :
  waiting r t s n o1 q r1 t1 l' → answers r1 t1 n spec res b → answers r t n spec res b.
Proof.
  intros Hw. destruct spec as [[q' reply] xs]. intros [-> (r' & t' & Hb & Hm)].
  split; [done|]. exists r', t'. split; [done|]. by eapply waiting_moved.
Qed.

(** *** The primary owner goes *)

Section primary.
Context r t (s : service_ptr) (n : bytes) (o : owner_ptr) (l : list owner_ptr) (cl : claim).
Context (He : t_error t = None) (Hh : r_hash r !! n = Some s).
Context (Hs : r_service r !! s = Some (n, o :: l)) (Ho : r_owner r !! o = Some (s, cl)).

Let h := RestoreOwnership (restore_data s o (o :: l) true true true).

Lemma primary_base :
  wf [] r (t_hooks t) → ∃ nb, r_base r !! who cl = Some nb ∧ (0 < nb)%nat.
Proof.
  intros W. destruct (wf_owner _ _ _ W _ _ _ Ho) as [_ [nb Hnb]]. exists nb.
  split; [done|]. by eapply wf_base.
Qed.

Lemma primary_fresh : wf [] r (t_hooks t) → o ∉ l.
Proof.
  intros W. pose proof (wf_conns _ _ _ W _ _ _ Hs) as Hnd.
  by destruct (nodup_map_mid (conn_of r) [] o l Hnd) as (_ & ? & _).
Qed.

Lemma remove_primary_state :
  hoare (state [] r t) (bus_service_remove_owner s (who cl))
    (λ _ b, ∃ t', state [] (left_by r s n l) t' b
       ∧ moved n (map (claim_at r) l) (lost_signals n (who cl) (conn_of r <$> head l))
           r t (left_by r s n l) t' ∧ h ∈ t_hooks t') stopped False.
Proof.
  apply hoare_state. intros W A. set (k := ledger [] r (t_hooks t)).
  destruct (primary_base W) as (nb & Hnb & Hpos).
  eapply hoare_conseq; [apply (remove_primary_rule r (l_service k) (l_owner k) (l_conn k)
    t s n o l cl nb False)|done|..]; try done.
  - by apply primary_fresh.
  - intros o'. by apply (wf_links _ _ _ W _ _ _ _ Hs).
  - intros a b Hb. cbv beta in Hb.
    exists (with_hook (with_signals t (lost_signals n (who cl) (conn_of r <$> head l))) h).
    split; [split; [|split]|split].
    + replace (ledger [] _ _) with (Refs (s :: l_service k) (o :: l_owner k) (who cl :: l_conn k));
        [done|].
      unfold ledger. simpl. unfold conn_of. by rewrite left_owner, Ho.
    + simpl. by apply (left_wf [] r (t_hooks t) W s n (o :: l)) with (o := o).
    + simpl. by apply (left_live [] r (t_hooks t) A s n (o :: l)) with (o := o).
    + split; try done.
      * by apply (left_queue r s n (o :: l) o).
      * by apply (left_other [] r (t_hooks t) W s n (o :: l)).
      * unfold left_by. by destruct (decide _).
    + by left.
  - intros b. by apply oom_stopped.
Qed.

Lemma swap_state x l' :
  l = x :: l' →
  hoare (state [] r t) (bus_service_swap_owner s (who cl))
    (λ _ b, ∃ t', state [] (swapped r s n o x l') t' b
       ∧ moved n (claim_at r x :: cl :: map (claim_at r) l')
           (lost_signals n (who cl) (Some (conn_of r x))) r t (swapped r s n o x l') t')
    stopped False.
Proof.
  intros El. apply hoare_state. intros W A. set (k := ledger [] r (t_hooks t)).
  destruct (primary_base W) as (nb & Hnb & Hpos). pose proof Hs as Hs'. rewrite El in Hs'.
  eapply hoare_conseq; [apply (swap_rule r (l_service k) (l_owner k) (l_conn k)
    t s n o x l' cl nb False)|done|..]; try done.
  - intros o'. by apply (wf_links _ _ _ W _ _ _ _ Hs').
  - intros a b Hb. cbv beta in Hb. set (h' := RestoreOwnership _) in Hb.
    exists (with_hook (with_signals t (lost_signals n (who cl) (Some (conn_of r x)))) h').
    split; [split; [|split]|].
    + replace (ledger [] _ _) with (Refs (s :: l_service k) (o :: l_owner k) (who cl :: l_conn k));
        [done|].
      unfold ledger. simpl. unfold conn_of. simpl. by rewrite Ho.
    + simpl. apply (reorder_wf [] r _ (wf_add_hook [] r (t_hooks t) h' cl W Ho) s n (o :: x :: l')); [done|].
      apply Permutation_swap.
    + simpl. apply (reorder_live [] r _ (live_add_hook [] r (t_hooks t) h' A) s n (o :: x :: l')); [done|].
      apply Permutation_swap.
    + split; try done.
      * unfold swapped. rewrite links_queue by done. simpl.
        assert (claim_at r o = cl) as -> by (unfold claim_at; by rewrite Ho). done.
      * by apply (links_other [] r (t_hooks t) W s n (o :: x :: l')).
  - intros b. by apply oom_stopped.
Qed.

End primary.

(** The new primary owner is looked at once more. *)
Lemma new_primary_rule {B} p r t s n o l cl (c : connection) (f : BM B) Q F L :
  r_service r !! s = Some (n, o :: l) → r_owner r !! o = Some (s, cl) → who cl = c →
  hoare (state p r t) f Q F L →
  hoare (state p r t)
    (x ← get_service s;
     o ← checked (head (owners x));
     y ← get_owner o;
     assert_ (bool_decide (owner_conn y = c));; f) Q F L.
Proof.
  intros Hs Ho Hw Hf. apply hoare_state. intros W A.
  apply (get_service_rule _ _ _ _ (n, o :: l)); [done|]. simpl.
  change (checked (Some o)) with (mret o : BM owner_ptr).
  eapply (hoare_bind _ _ _ (λ x b, x = o ∧ rep r (ledger p r (t_hooks t)) t b)); [by apply hoare_ret|].
  intros x; cbv beta. apply hoare_pure_l. intros ->.
  apply (get_owner_rule _ _ _ _ (s, cl)); [done|].
  apply hoare_assert; [by apply bool_decide_eq_true|]. intros b m Hb. by apply Hf.
Qed.

Section existing.
Context r t (s : service_ptr) (n : bytes) (o1 : owner_ptr) (l1 : list owner_ptr) (cl1 : claim).
Context (He : t_error t = None) (Hh : r_hash r !! n = Some s).
Context (Hs : r_service r !! s = Some (n, o1 :: l1)) (Ho1 : r_owner r !! o1 = Some (s, cl1)).
Context (c : connection) (Hc : is_Some (r_base r !! c)) (flags : Z).

Lemma replace_state :
  who cl1 ≠ c → flag flags DBUS_NAME_FLAG_REPLACE_EXISTING = true →
  hoare (state [] r t)
    (bus_service_add_owner s c flags;;
     y ← get_owner o1;
     (if do_not_queue y then bus_service_remove_owner s (who cl1)
      else bus_service_swap_owner s (who cl1));;
     x ← get_service s;
     o ← checked (head (owners x));
     y ← get_owner o;
     assert_ (bool_decide (owner_conn y = c));;
     mret DBUS_REQUEST_NAME_REPLY_PRIMARY_OWNER)
    (answers r t n
       (claim_with c flags :: (if no_queue cl1 then others c (map (claim_at r) l1)
                               else cl1 :: others c (map (claim_at r) l1)),
        DBUS_REQUEST_NAME_REPLY_PRIMARY_OWNER, lost_signals n (who cl1) (Some c)))
    stopped False.
Proof.
  intros Hne Hrep.
  eapply hoare_bind; [by apply (add_owner_state r t s n o1 l1 cl1)|]. intros []; cbv beta.
  apply hoare_exists_l. intros r1. apply hoare_exists_l. intros t1. apply hoare_exists_l. intros l'.
  apply (hoare_pure_r _ (state [] r1 t1)). intros Hw.
  pose proof Hw as [A1 A2 A3 A4 A5 A6 (A7 & A8 & A9 & A10 & A11)].
  unfold enqueue in A5. rewrite Hrep in A5. destruct l' as [|x l']; [done|].
  injection A5 as Ex El'. rewrite Ho1 in A4. rewrite He in A10. rewrite <- A1 in Hh.
  eapply hoare_conseq with (L' := False);
    [|done|intros a b; exact (waiting_answers _ _ _ _ _ _ _ _ _ _ _ _ Hw)|done|done].
  apply hoare_wf. intros W1.
  destruct (wf_links _ _ _ W1 _ _ _ x A3) as [clx Hx]; [by right; left|].
  assert (clx = claim_with c flags) as ->.
  { unfold claim_at in Ex. by rewrite Hx in Ex. }
  assert (conn_of r1 x = c) as Hcx by (by rewrite (conn_of_owner _ _ _ _ Hx)).
  apply hoare_state_get_owner with (s := s) (cl := cl1); [done|]. simpl.
  destruct (no_queue cl1).
  - eapply hoare_bind; [by apply (remove_primary_state r1 t1 s n o1 (x :: l') cl1)|].
    intros []; cbv beta. apply hoare_exists_l. intros t2. apply (hoare_pure_r _ (state [] _ t2)).
    intros [Hm _].
    apply (new_primary_rule [] _ t2 s n x l' (claim_with c flags) c); [| |done|].
    + unfold left_by. simpl. apply lookup_insert_eq.
    + by rewrite left_owner.
    + apply hoare_ret. intros b Hb. split; [done|]. exists (left_by r1 s n (x :: l')), t2.
      split; [done|]. simpl in Hm. by rewrite Hcx, Ex, El' in Hm.
  - eapply hoare_bind; [by apply (swap_state r1 t1 s n o1 (x :: l') cl1 A10 Hh A3 A4 x l')|].
    intros []; cbv beta. apply hoare_exists_l. intros t2. apply (hoare_pure_r _ (state [] _ t2)).
    intros Hm.
    apply (new_primary_rule [] _ t2 s n x (o1 :: l') (claim_with c flags) c); [| |done|].
    + simpl. apply lookup_insert_eq.
    + done.
    + apply hoare_ret. intros b Hb. split; [done|]. exists (swapped r1 s n o1 x l'), t2.
      split; [done|]. by rewrite Hcx, Ex, El' in Hm.
Qed.

Lemma again_state :
  hoare (state [] r t) (bus_owner_set_flags o1 flags;; mret DBUS_REQUEST_NAME_REPLY_ALREADY_OWNER)
    (answers r t n (claim_with (who cl1) flags :: map (claim_at r) l1,
                    DBUS_REQUEST_NAME_REPLY_ALREADY_OWNER, [])) stopped False.
Proof.
  apply hoare_state. intros W A.
  eapply hoare_bind; [by apply (set_flags_rule _ _ _ o1 s cl1)|]. intros []; cbv beta.
  set (r' := with_owner r o1 _). apply hoare_ret. intros b Hb. split; [done|]. exists r', t.
  pose proof (primary_fresh r t s n o1 l1 Hs W) as Hol.
  split; [split; [|split]|].
  - replace (ledger [] r' (t_hooks t)) with (ledger [] r (t_hooks t)); [done|].
    symmetry. apply ledger_ext. intros h _. unfold r'. rewrite conn_of_insert.
    destruct (decide _) as [->|]; [|done]. by rewrite (conn_of_owner _ _ _ _ Ho1).
  - by apply (wf_set_owner _ _ _ _ _ cl1).
  - by apply (live_set_owner _ _ _ _ _ cl1).
  - split; try done; [| |by rewrite app_nil_r].
    + unfold queue_in, links. simpl. rewrite Hh, Hs. simpl. f_equal.
      * unfold claim_at. simpl. by rewrite lookup_insert_eq.
      * apply claims_ext. intros o Ho. unfold claim_at. simpl. rewrite lookup_insert_ne; [done|].
        by intros ->.
    + apply (queue_other [] r (t_hooks t) W s n (o1 :: l1) Hs); [done|done|].
      intros o s' cl Hs' Ho. simpl. rewrite lookup_insert_ne; [done|]. congruence.
Qed.

Lemma existing_state :
  hoare (state [] r t) (acquire_existing s (Some (who cl1)) c flags)
    (answers r t n (acquire_spec n c flags (queue_in r n))) stopped False.
Proof.
  rewrite (queue_here r s n o1 l1 cl1) by done. unfold acquire_existing, acquire_spec.
  apply hoare_state. intros W A. apply (primary_owner_rule _ _ _ _ (n, o1 :: l1)); [done|]. simpl.
  apply (get_owner_rule _ _ _ _ (s, cl1)); [done|].
  assert (∀ B (f : BM B) Q F L, hoare (state [] r t) f Q F L →
    hoare (rep r (ledger [] r (t_hooks t)) t) f Q F L) as Hback.
  { intros B f Q F L Hf b m Hb. by apply Hf. }
  destruct (decide (who cl1 = c)) as [<-|Hne]; [apply Hback, again_state|].
  apply (allow_replacement_rule _ _ _ _ n o1 l1 s cl1); [done|done|]. apply Hback.
  destruct (flag flags DBUS_NAME_FLAG_DO_NOT_QUEUE) eqn:Hdnq,
    (flag flags DBUS_NAME_FLAG_REPLACE_EXISTING) eqn:Hrep, (may_replace cl1); cbn [negb andb orb];
    try (by apply (refuse_state r t s n o1 l1 cl1)); try by apply replace_state.
  all: eapply hoare_bind; [by apply (add_owner_state r t s n o1 l1 cl1)|]; intros []; cbv beta.
  all: apply hoare_ret; intros b (r' & t' & l' & Hb & Hw).
  all: split; [done|]; exists r', t'; split; [done|].
  all: destruct Hw as [A1 A2 A3 A4 A5 A6 (A7 & A8 & A9 & A10 & A11)].
  all: split; [|done|done|by rewrite app_nil_r].
  all: unfold queue_in, links; rewrite A1, Hh, A3; simpl; rewrite A5; f_equal.
  all: unfold claim_at; by rewrite A4, Ho1.
Qed.

End existing.

(** ** Requests on a new name *)

Section fresh_name.
Context r t (n : bytes) (c : connection) (flags : Z).
Context (He : t_error t = None) (Hh : r_hash r !! n = None).
Context (W : wf [] r (t_hooks t)) (A : live [] r (t_hooks t)).
Context (Hc : is_Some (r_base r !! c)).

(** The registry with the service under construction, with its owner, and in the
    hash. *)
Definition created (s : service_ptr) : reg := with_links r s n [].
Definition built (s : service_ptr) (o : owner_ptr) : reg := joined (created s) s n [] o c flags.
Definition published (s : service_ptr) (o : owner_ptr) : reg :=
  with_hash (built s o) (<[n := s]> (r_hash r)).
Definition announced (s : service_ptr) (o : owner_ptr) : tx :=
  with_hook (with_signals t [NameOwnerChanged n None (Some c); NameAcquired c n])
    (CancelOwnership o s).

(** What holds when memory runs out before and after the owner was added. *)
Context (F : bus → Prop).
Context (HF0 : ∀ t' b, same_tx t t' → t_error t' = Some DBUS_ERROR_NO_MEMORY →
  rep r (ledger [] r (t_hooks t)) t' b → F b).
Context (HF1 : ∀ s o t' b, r_service r !! s = None → r_owner r !! o = None →
  t_hooks t' = CancelOwnership o s :: t_hooks t → t_error t' = Some DBUS_ERROR_NO_MEMORY →
  t_delivered t' = t_delivered t → state [s] (built s o) t' b → F b).

Lemma fresh_service s : r_service r !! s = None → s ∉ map hook_service (t_hooks t).
Proof.
  intros Hs (h & -> & Hin)%list_elem_of_fmap. destruct (wf_hooks _ _ _ W h Hin) as [cl E].
  destruct (wf_owner _ _ _ W _ _ _ E) as [[x ?] _]. congruence.
Qed.

Lemma unhashed s : r_service r !! s = None → ∀ n', r_hash r !! n' ≠ Some s.
Proof. intros Hs n' E. destruct (wf_hash _ _ _ W _ _ E) as (l & ? & _). congruence. Qed.

Lemma created_links s s' : links (created s) s' = if decide (s' = s) then [] else links r s'.
Proof.
  unfold links. simpl. destruct (decide (s' = s)) as [->|]; [by rewrite lookup_insert_eq|].
  by rewrite lookup_insert_ne.
Qed.

Lemma created_owner s o cl : r_service r !! s = None → r_owner r !! o ≠ Some (s, cl).
Proof. intros Hs E. destruct (wf_owner _ _ _ W _ _ _ E) as [[x ?] _]. congruence. Qed.

Lemma created_rep s b name :
  r_service r !! s = None → rep r (ledger [] r (t_hooks t)) t b →
  rep (with_links r s name []) (ledger [s] r (t_hooks t)) t
    (with_service_pool <[s := Service 1 name []]> b).
Proof.
  intros Hs [H1 H2 H3 H4 H5]. split; try done.
  - simpl. intros i. destruct (decide (i = s)) as [->|Hi].
    + rewrite !lookup_insert_eq. simpl. unfold the_service, service_refs. simpl.
      rewrite bool_decide_eq_false_2 by (by apply unhashed). rewrite cnt_app.
      rewrite (cnt_none s (map _ _)) by (by apply fresh_service). by rewrite cnt_cons_eq.
    + rewrite !lookup_insert_ne, H2 by done. destruct (r_service r !! i); [|done]. simpl.
      unfold the_service, service_refs. simpl. rewrite !cnt_app. by rewrite cnt_cons_ne.
  - apply (pool_same _ _ _ _ H3). intros o [s' cl] Ho. unfold the_owner, owner_refs, links. simpl.
    rewrite lookup_insert_ne; [done|]. intros ->. by eapply created_owner.
Qed.

Lemma created_wf s : r_service r !! s = None → wf [s] (created s) (t_hooks t).
Proof.
  intros Hs. pose proof W as [W1 W2 W3 W4 W5 W6 W7].
  assert (∀ s' n' l, r_service (created s) !! s' = Some (n', l) →
    l = [] ∨ (s' ≠ s ∧ r_service r !! s' = Some (n', l))) as Hcase.
  { intros s' n' l. simpl. destruct (decide (s' = s)) as [->|].
    - rewrite lookup_insert_eq. intros [= <- <-]. by left.
    - rewrite lookup_insert_ne by done. by right. }
  split; try done.
  - intros n' s' H. simpl. rewrite lookup_insert_ne; [by apply W1|]. intros ->. by eapply unhashed.
  - intros s' n' l o [->|[? ?]]%Hcase ?; [by apply not_elem_of_nil in H|by eapply W2].
  - intros s' n' l [->|[? ?]]%Hcase; [constructor|by eapply W3].
  - intros s' n' l [->|[? ?]]%Hcase ?; [done|]. left.
    destruct (W4 s' n' l) as [?|?%not_elem_of_nil]; done.
  - intros o s' cl H. destruct (W5 _ _ _ H) as [? ?]. split; [|done]. simpl.
    rewrite lookup_insert_ne; [done|]. intros ->. by eapply created_owner.
Qed.

Lemma created_live s : r_service r !! s = None → live [s] (created s) (t_hooks t).
Proof.
  intros Hs. split.
  - intros s' n' l. simpl. unfold service_refs. simpl. rewrite cnt_pending.
    destruct (decide (s' = s)) as [->|]; [lia|]. rewrite lookup_insert_ne by done.
    intros H%(live_service _ _ _ A). exact H.
  - intros o s' cl H. pose proof (live_owner _ _ _ A _ _ _ H) as Hpos.
    unfold owner_refs in *. rewrite created_links. simpl in *.
    destruct (decide (s' = s)) as [->|]; [|done]. by apply created_owner in H.
Qed.

Lemma created_undo s : r_service r !! s = None → without_service (created s) s = r.
Proof.
  intros Hs. unfold without_service, created, with_links. simpl.
  rewrite delete_insert_id by done. clear. by destruct r.
Qed.

(** The body of the construction, undone when it fails. *)
Lemma construct_rule s :
  r_service r !! s = None →
  hoare (rep (created s) (ledger [s] r (t_hooks t)) t)
    (on_failure
       (bus_driver_send_service_owner_changed n None (Some c);;
        bus_activation_service_created;;
        bus_service_add_owner s c flags)
       (bus_service_unref s))
    (λ _ b, ∃ o, r_owner r !! o = None
       ∧ rep (built s o) (ledger [s] (built s o) (CancelOwnership o s :: t_hooks t))
           (announced s o) b)
    F False.
Proof.
  intros Hs. destruct Hc as [nb Hnb].
  pose proof (created_wf s Hs) as W1.
  assert (r_service (created s) !! s = Some (n, [])) as Hs1 by apply lookup_insert_eq.
  set (k := ledger [s] r (t_hooks t)).
  eapply (hoare_on_failure _ _ _ _ (oom_in (created s) k t)).
  - rewrite <- (with_signals_nil t) at 1.
    eapply hoare_bind; [by apply send_more_rule|]. intros []; cbv beta. simpl app.
    set (t1 := with_signals t _).
    assert (∀ b, oom_in (created s) k t1 b → oom_in (created s) k t b) as Hoom.
    { intros b (t' & (? & ? & ?) & ? & ?). by exists t'. }
    eapply hoare_bind.
    { eapply hoare_conseq; [apply or_oom_rule; [|apply request_rule]|done|done| |exact (λ x, x)]; [done|].
      intros b Hb. by apply (oom_stops _ _ _ t1). }
    intros []; cbv beta.
    eapply hoare_conseq; [apply (add_owner_new_rule (created s) (l_service k) (l_owner k) (l_conn k)
      t1 s n [] c flags nb False)|done|..]; try done.
    + unfold service_refs, k. simpl. rewrite cnt_app, cnt_cons_eq. lia.
    + apply not_elem_of_nil.
    + by intros o ?%not_elem_of_nil.
    + intros o. by apply (wf_hook_owner [s] (created s)).
    + intros _ b (o & Ho & Hb). exists o. split; [done|].
      unfold built.
      rewrite (joined_ledger [s] (created s) (t_hooks t) W1 s n [] o c flags Ho k eq_refl).
      unfold acquired in Hb. rewrite decide_True in Hb by done. unfold t1 in Hb.
      rewrite with_message_signals in Hb. exact Hb.
  - intros b m (t' & Ht & He' & Hb).
    apply (rep_perm _ _ (s :: map hook_service (t_hooks t))) in Hb;
      [|by rewrite Permutation_app_comm].
    pose proof (service_free_rule (created s) (map hook_service (t_hooks t)) (l_owner k) (l_conn k)
      t' s n (λ _, False) False Hs1) as Hfree.
    rewrite created_undo in Hfree by done.
    specialize (Hfree ltac:(unfold service_refs; simpl;
      rewrite bool_decide_eq_false_2 by (by apply unhashed);
      rewrite (cnt_none s) by (by apply fresh_service); done) b m Hb).
    destruct (bus_service_unref s b m) as [a b' m'|b' m'|]; [|tauto|tauto].
    destruct Hfree as [Hb' _]. apply (HF0 t'); [done|done|].
    unfold ledger. by rewrite app_nil_r.
Qed.

(** The service enters the hash. *)
Lemma publish_rule s o :
  r_service r !! s = None → r_owner r !! o = None →
  hoare (rep (built s o) (ledger [s] (built s o) (t_hooks (announced s o))) (announced s o))
    (or_oom request;; modify (with_service_hash <[n := s]>);; mret s)
    (λ x b, x = s ∧ state [] (published s o) (announced s o) b) F False.
Proof.
  intros Hs Ho. set (r1 := built s o). set (t1 := announced s o). set (r2 := published s o).
  pose proof (created_wf s Hs) as W1. pose proof (created_live s Hs) as A1.
  assert (r_service (created s) !! s = Some (n, [])) as Hs1 by apply lookup_insert_eq.
  assert (wf [s] r1 (t_hooks t1)) as W2.
  { apply (joined_wf [s] _ _ W1 _ _ _ Hs1); [done|done|apply not_elem_of_nil|right; by left]. }
  assert (live [s] r1 (t_hooks t1)) as A2 by (by apply (joined_live [s] _ _ W1 A1 _ _ _ Hs1)).
  assert (r_service r1 !! s = Some (n, [o])) as Hs2.
  { simpl. rewrite lookup_insert_eq. unfold place. by rewrite orb_true_r. }
  eapply hoare_bind.
  { eapply hoare_conseq; [apply or_oom_rule; [|apply request_rule]|done|done| |exact (λ x, x)]; [done|].
    intros b Hb. by apply (HF1 s o (with_oom t1)). }
  intros []; cbv beta.
  eapply (hoare_bind _ _ _ (λ _, state [] r2 t1)).
  { intros b m Hb. apply (rep_perm _ _ (s :: map hook_service (t_hooks t1))) in Hb;
      [|by rewrite Permutation_app_comm].
    pose proof (hash_insert_rule r1 _ _ _ t1 s n [o] (λ _, False) False Hs2 Hh b m Hb) as [Hb' Hm].
    split; [|exact Hm]. split; [|split].
    - unfold ledger. rewrite app_nil_r. exact Hb'.
    - by apply (wf_enhash [] r1 _ s n [o]).
    - by apply (live_enhash [] r1 _ s n [o]). }
  intros []; cbv beta. by apply hoare_ret.
Qed.

Lemma published_moved s o :
  r_service r !! s = None → r_owner r !! o = None →
  moved n [claim_with c flags] [NameOwnerChanged n None (Some c); NameAcquired c n] r t
    (published s o) (announced s o).
Proof.
  intros Hs Ho. split; try done.
  - unfold queue_in, links, claim_at. simpl. rewrite lookup_insert_eq. simpl.
    rewrite lookup_insert_eq. unfold place. rewrite orb_true_r. simpl. by rewrite lookup_insert_eq.
  - intros n' Hn. unfold queue_in. simpl. rewrite lookup_insert_ne by done.
    destruct (r_hash r !! n') as [s'|] eqn:E; [|done].
    destruct (wf_hash _ _ _ W _ _ E) as (l & Hs' & _). unfold links. simpl.
    rewrite !lookup_insert_ne by congruence. rewrite Hs'. simpl.
    apply claims_ext. intros x Hx. destruct (wf_links _ _ _ W _ _ _ _ Hs' Hx) as [cl E'].
    unfold claim_at. simpl. rewrite lookup_insert_ne; [done|congruence].
Qed.

Lemma ensure_state :
  hoare (state [] r t) (bus_registry_ensure n c flags)
    (λ s b, ∃ o, r_service r !! s = None ∧ r_owner r !! o = None
       ∧ state [] (published s o) (announced s o) b) F False.
Proof.
  apply hoare_state. intros _ _. unfold bus_registry_ensure. apply error_clear_rule; [done|].
  eapply (hoare_bind _ _ _ (λ x b, x = None ∧ rep r (ledger [] r (t_hooks t)) t b)).
  { intros b m Hb. split; [|done]. split; [|done]. simpl. by rewrite (rep_hash _ _ _ _ Hb). }
  intros x; cbv beta. apply hoare_pure_l. intros ->.
  eapply hoare_bind.
  { eapply hoare_conseq; [apply or_oom_rule; [|apply request_rule]|done|done| |exact (λ x, x)]; [done|].
    intros b. by apply (HF0 (with_oom t)). }
  intros []; cbv beta. apply hoare_gets. intros b0 Hb0. cbv zeta.
  set (s := fresh (dom (service_pool b0))).
  assert (r_service r !! s = None) as Hs.
  { assert (service_pool b0 !! s = None) as E by (apply not_elem_of_dom, is_fresh).
    rewrite (rep_service _ _ _ _ Hb0) in E. by destruct (r_service r !! s). }
  set (P0 := λ b, b = with_service_pool <[s := Service 1 [] []]> b0).
  eapply (hoare_bind _ _ _ (λ _, P0)).
  { apply hoare_modify. by intros b ->. }
  intros []; cbv beta.
  eapply (hoare_bind _ _ _ (λ _, P0)).
  { eapply (hoare_conseq _ P0 _ _ (λ _, P0) _ (rep r (ledger [] r (t_hooks t)) (with_oom t)) _ False);
      [|done|done|intros b; by apply (HF0 (with_oom t))|done].
    apply or_oom_rule; [done|]. eapply hoare_on_failure; [apply request_rule|].
    intros b m ->. simpl. destruct Hb0 as [H1 H2 H3 H4 H5]. split; try done. simpl. intros i.
    rewrite delete_insert_id, H2; [done|]. by rewrite H2, Hs. }
  intros []; cbv beta.
  eapply (hoare_bind _ _ _ (λ _, rep (created s) (ledger [s] r (t_hooks t)) t)).
  { apply hoare_modify. intros b ->.
    replace (with_service_pool _ (with_service_pool _ b0))
      with (with_service_pool <[s := Service 1 n []]> b0); [by apply created_rep|].
    unfold with_service_pool. simpl. by rewrite insert_insert_eq. }
  intros []; cbv beta.
  eapply hoare_bind; [by apply construct_rule|]. intros []; cbv beta.
  apply hoare_exists_l. intros o. apply hoare_pure_l. intros Ho.
  eapply hoare_conseq; [by apply (publish_rule s o)|done| |done|done].
  intros x b [-> Hb]. by exists o.
Qed.

Lemma published_service s o : r_service (published s o) !! s = Some (n, [o]).
Proof. simpl. rewrite lookup_insert_eq. unfold place. by rewrite orb_true_r. Qed.

Lemma published_owner s o : r_owner (published s o) !! o = Some (s, claim_with c flags).
Proof. simpl. by rewrite lookup_insert_eq. Qed.

End fresh_name.

(** ** The whole request *)

(** Names that are not valid, start with a colon or belong to the bus. *)
Definition bad_name (name : bytes) : bool :=
  negb (_dbus_validate_bus_name name 0 (length name)) || (byte_at name 0 =b ":")
  || bool_decide (name = DBUS_SERVICE_DBUS).

Section acquire.

(** Why a request is refused before the queue is looked at; [owned] is the number
    of services the connection owns. *)
Definition refusal (c : connection) (name : bytes) (owned : Z) : option error_name :=
  if bad_name name then Some DBUS_ERROR_INVALID_ARGS
  else match bus_selinux_allows_acquire_service c name with
       | SELinuxOom => Some DBUS_ERROR_NO_MEMORY
       | SELinuxDenied => Some DBUS_ERROR_ACCESS_DENIED
       | SELinuxAllowed =>
           if negb (bus_client_policy_check_can_own c name) then Some DBUS_ERROR_ACCESS_DENIED
           else if bus_context_get_max_services_per_connection <=? owned
           then Some DBUS_ERROR_LIMITS_EXCEEDED else None
       end.

Lemma activation_rule {A} p r t (P : A → bus → Prop) (a : A) L :
  t_error t = None → (∀ b, state p r t b → P a b) →
  hoare (state p r t) (bus_activation_send_pending_auto_activation_messages;; mret a) P stopped L.
Proof.
  intros He HP. apply hoare_state. intros W A0.
  eapply hoare_bind.
  { eapply hoare_conseq; [apply or_oom_rule; [exact He|apply request_rule]|done|done| |exact (λ x, x)].
    intros b Hb. by exists p, r, (with_oom t). }
  intros []; cbv beta. apply hoare_ret. intros b Hb. by apply HP.
Qed.

(** The tail after the choice of the service. *)
Lemma finish_rule r t n spec c (s : service_ptr) (old : option connection) flags P :
  t_error t = None →
  hoare P (acquire_existing s old c flags) (answers r t n spec) stopped False →
  hoare P
    (result ← acquire_existing s old c flags;
     bus_activation_send_pending_auto_activation_messages;;
     mret result) (answers r t n spec) stopped False.
Proof.
  intros He Ha. eapply hoare_bind; [exact Ha|]. intros res; cbv beta.
  destruct spec as [[q reply] xs]. intros b m [-> (r' & t' & Hb & Hm)].
  apply (activation_rule [] r' t' (answers r t n (q, reply, xs)) reply False).
  - destruct (moved_tx _ _ _ _ _ _ _ Hm) as (_ & _ & _ & -> & _). done.
  - intros b' Hb'. split; [done|]. by exists r', t'.
  - done.
Qed.

Lemma acquire_named_state r t c n flags :
  t_error t = None → is_Some (r_base r !! c) →
  refusal c n (Z.of_nat (length (owned r c))) = None →
  hoare (state [] r t) (acquire_named c n flags)
    (answers r t n (acquire_spec n c flags (queue_in r n))) stopped False.
Proof.
  intros He [nb Hnb] Href. unfold refusal, bad_name in Href. unfold acquire_named.
  destruct (negb (_dbus_validate_bus_name n 0 (length n))); [done|].
  destruct (byte_at n 0 =b ":"); [done|]. destruct (bool_decide _); [done|].
  cbn [orb] in Href. destruct (bus_selinux_allows_acquire_service c n); try done.
  destruct (negb (bus_client_policy_check_can_own c n)); [done|].
  destruct (bus_context_get_max_services_per_connection <=? _) eqn:Hmax; [done|].
  apply hoare_state. intros W A.
  eapply (hoare_bind _ _ _ (λ x b, x = Z.of_nat (length (owned r c))
    ∧ rep r (ledger [] r (t_hooks t)) t b)).
  { unfold bus_connection_get_n_services_owned.
    apply (get_connection_rule _ _ _ _ nb); [done|]. intros d Hd. apply hoare_ret.
    intros b [Hb _]. split; [|done]. unfold conn_ok in Hd. rewrite Hnb in Hd. tauto. }
  intros x; cbv beta. apply hoare_pure_l. intros ->. rewrite Hmax.
  eapply (hoare_bind _ _ _ (λ x b, x = r_hash r !! n ∧ rep r (ledger [] r (t_hooks t)) t b)).
  { intros b m Hb. split; [|done]. simpl. by rewrite (rep_hash _ _ _ _ Hb). }
  intros x; cbv beta. apply hoare_pure_l. intros ->.
  assert (∀ B (f : BM B) Q F L, hoare (state [] r t) f Q F L →
    hoare (rep r (ledger [] r (t_hooks t)) t) f Q F L) as Hback.
  { intros B f Q F L Hf b m Hb. by apply Hf. }
  destruct (r_hash r !! n) as [s|] eqn:Hh.
  - destruct (wf_hash _ _ _ W _ _ Hh) as (l & Hs & Hl). destruct l as [|o1 l1]; [done|].
    destruct (wf_links _ _ _ W _ _ _ o1 Hs) as [cl1 Ho1]; [by left|].
    eapply (hoare_bind _ _ _ (λ x b, x = Some (who cl1) ∧ rep r (ledger [] r (t_hooks t)) t b)).
    { apply (primary_owner_rule _ _ _ _ (n, o1 :: l1)); [done|]. simpl.
      apply (get_owner_rule _ _ _ _ (s, cl1)); [done|]. by apply hoare_ret. }
    intros x; cbv beta. apply hoare_pure_l. intros ->.
    eapply (hoare_bind _ _ _ (λ x b, x = s ∧ rep r (ledger [] r (t_hooks t)) t b));
      [by apply hoare_ret|].
    intros x; cbv beta. apply hoare_pure_l. intros ->.
    apply Hback, finish_rule; [done|]. eapply existing_state; eauto.
  - eapply (hoare_bind _ _ _ (λ x b, x = None ∧ rep r (ledger [] r (t_hooks t)) t b));
      [by apply hoare_ret|].
    intros x; cbv beta. apply hoare_pure_l. intros ->.
    eapply hoare_bind; [apply Hback, (ensure_state r t n c flags He Hh W A); eauto|].
    { intros t' b (E & _) He' Hb. exists [], r, t'. unfold state. by rewrite E. }
    { intros s o t' b _ _ _ He' Hb. by exists [s], (built r n c flags s o), t'. }
    intros s; cbv beta. apply finish_rule; [done|].
    apply hoare_exists_l. intros o. apply hoare_pure_l. intros Hs. apply hoare_pure_l. intros Ho.
    set (r' := published r n c flags s o). set (t' := announced t n c s o).
    assert (queue_in r n = []) as Eq by (unfold queue_in; by rewrite Hh).
    rewrite Eq. unfold acquire_existing, acquire_spec.
    apply hoare_state. intros W' A'.
    apply (primary_owner_rule _ _ _ _ (n, [o])); [apply published_service|]. simpl.
    apply (get_owner_rule _ _ _ _ (s, claim_with c flags)); [apply published_owner|].
    apply hoare_assert; [by apply bool_decide_eq_true|]. apply hoare_ret. intros b Hb.
    split; [done|]. exists r', t'. split; [done|]. by apply published_moved.
Qed.

End acquire.

(** ** Releasing a name *)

Lemma has_owner_rule {B} r k t s n l c (f : bool → BM B) Q F L :
  r_service r !! s = Some (n, l) → (∀ o, o ∈ l → is_Some (r_owner r !! o)) →
  hoare (rep r k t) (f (bool_decide (c ∈ map (conn_of r) l))) Q F L →
  hoare (rep r k t) (bus_service_has_owner s c ≫= f) Q F L.
Proof.
  intros Hs Hl Hf b m Hb. unfold bus_service_has_owner.
  pose proof (find_owner_link_rule r k t s n l c (λ link, f (bool_decide (link ≠ None)))
    Q F L Hs Hl) as Hr.
  assert (bool_decide (find_in r l c ≠ None) = bool_decide (c ∈ map (conn_of r) l)) as E.
  { apply bool_decide_ext. rewrite find_in_None. split; [|tauto]. intros Hn.
    destruct (decide (c ∈ map (conn_of r) l)); tauto. }
  cbv beta in Hr. rewrite E in Hr. specialize (Hr Hf b m Hb). revert Hr.
  cbv [mbind M_bind mret M_ret]. by destruct (_bus_service_find_owner_link s c b m).
Qed.

Section release.
Context r t (s : service_ptr) (n : bytes) (o1 : owner_ptr) (l1 : list owner_ptr) (cl1 : claim).
Context (He : t_error t = None) (Hh : r_hash r !! n = Some s).
Context (Hs : r_service r !! s = Some (n, o1 :: l1)) (Ho1 : r_owner r !! o1 = Some (s, cl1)).
(** The check behind the removal. *)
Lemma gone_rule c r' t' l' P :
  r_service r' !! s = Some (n, l') → c ∉ map (conn_of r') l' →
  (∀ b, state [] r' t' b → P DBUS_RELEASE_NAME_REPLY_RELEASED b) →
  hoare (state [] r' t')
    (has ← bus_service_has_owner s c; assert_ (negb has);;
     mret DBUS_RELEASE_NAME_REPLY_RELEASED) P stopped False.
Proof.
  intros Hs' Hn HP. apply hoare_state. intros W A. apply (has_owner_rule _ _ _ _ n l'); [done| |].
  - intros o Ho. destruct (wf_links _ _ _ W _ _ _ _ Hs' Ho) as [cl ->]. eauto.
  - rewrite bool_decide_eq_false_2 by done. apply hoare_assert; [done|].
    apply hoare_ret. intros b Hb. by apply HP.
Qed.

Lemma release_owned_state c :
  c ∈ map (conn_of r) (o1 :: l1) →
  hoare (state [] r t)
    (bus_service_remove_owner s c;;
     has ← bus_service_has_owner s c; assert_ (negb has);;
     mret DBUS_RELEASE_NAME_REPLY_RELEASED)
    (answers r t n (release_spec n c (queue_in r n))) stopped False.
Proof.
  intros Hin. rewrite (queue_here r s n o1 l1 cl1) by done. unfold release_spec.
  apply hoare_wf. intros W. pose proof (wf_conns _ _ _ W _ _ _ Hs) as Hnd.
  assert (∀ o, o ∈ l1 → ∃ cl, r_owner r !! o = Some (s, cl)) as Hl1.
  { intros o Ho. apply (wf_links _ _ _ W _ _ _ _ Hs). by right. }
  simpl in Hin, Hnd. rewrite (conn_of_owner _ _ _ _ Ho1) in Hin, Hnd.
  destruct (decide (who cl1 = c)) as [<-|Hne].
  - eapply hoare_bind; [by apply (remove_primary_state r t s n o1 l1 cl1)|]. intros []; cbv beta.
    apply hoare_exists_l. intros t'. apply (hoare_pure_r _ (state [] _ t')). intros [Hm _].
    assert (r_owner (left_by r s n l1) = r_owner r) as Er by apply left_owner.
    apply (gone_rule _ _ _ l1).
    + unfold left_by. destruct (decide (l1 = [])) as [->|]; simpl; apply lookup_insert_eq.
    + apply list.NoDup_cons in Hnd as [Hnd _]. rewrite (conns_ext r); [done|]. intros o _.
      unfold conn_of. by rewrite Er.
    + intros b Hb. split; [done|]. exists (left_by r s n l1), t'. split; [done|].
      assert (who <$> head (map (claim_at r) l1) = conn_of r <$> head l1) as ->; [|done].
      destruct l1 as [|x l]; [done|]. simpl. rewrite who_claim_at; [done|].
      destruct (Hl1 x) as [cl ->]; [by left|eauto].
  - apply elem_of_cons in Hin as [->|Hin]; [done|].
    rewrite (map_who r s) by done. rewrite bool_decide_eq_true_2 by done.
    apply list_elem_of_fmap in Hin as (x & -> & Hx).
    apply list_elem_of_split in Hx as (la & lb & El).
    destruct (Hl1 x) as [clx Hox]; [rewrite El; set_solver|].
    pose proof (conn_of_owner _ _ _ _ Hox) as Ecx.
    apply hoare_state. intros _ A. set (k := ledger [] r (t_hooks t)).
    destruct (wf_owner _ _ _ W _ _ _ Hox) as [_ [nb Hnb]].
    assert (o1 :: l1 = (o1 :: la) ++ x :: lb) as El' by (by rewrite El).
    eapply hoare_bind.
    { rewrite Ecx. apply (remove_queued_rule r (l_service k) (map hook_owner (t_hooks t)) (l_conn k)
        t s n o1 la lb x clx nb); rewrite <- ?El'; try done.
      - simpl. by rewrite (conn_of_owner _ _ _ _ Ho1).
      - intros o Ho. by apply (wf_links _ _ _ W _ _ _ _ Hs). }
    intros []; cbv beta.
    set (r' := drop_owner _ _ _).
    eapply (hoare_conseq _ (state [] r' t) _ _ _ _ _ _ False); [| |done|done|done].
    + apply (gone_rule _ _ _ ((o1 :: la) ++ lb)).
      * unfold r', drop_owner. destruct (decide _); simpl; apply lookup_insert_eq.
      * rewrite <- (conn_of_owner _ _ _ _ Ho1) in Hnd. change (conn_of r o1 :: map (conn_of r) l1)
          with (map (conn_of r) (o1 :: l1)) in Hnd. rewrite El' in Hnd.
        destruct (nodup_map_mid _ _ _ _ Hnd) as (N1 & N2 & N3 & N4 & _).
        rewrite (conns_ext r), map_app, not_elem_of_app; [done|]. intros o Ho.
        unfold conn_of, r'. rewrite dropped_owner; [done|]. intros ->. set_solver.
      * intros b Hb. split; [done|]. exists r', t. split; [done|].
        apply (dropped_moved r t s n o1 l1 cl1); congruence.
    + intros b Hb. by apply (dropped_state r t s n o1 l1 Hs (o1 :: la)).
Qed.

End release.

Definition without_pid (t : tx) (n : bytes) : tx :=
  Tx (delete n (t_pids t)) (t_hooks t) (t_messages t) (t_delivered t) (t_error t) (t_clients t).

Definition released r t n (spec : list claim * Z * list signal) (result : Z) b : Prop :=
  let '(q, reply, xs) := spec in
  result = reply ∧ ∃ r' t', state [] r' (without_pid t' n) b ∧ moved n q xs r t r' t'.

Lemma release_state r t c n :
  t_error t = None → bad_name n = false →
  hoare (state [] r t) (bus_registry_release_service c n)
    (released r t n (release_spec n c (queue_in r n))) stopped False.
Proof.
  intros He Hbad. unfold bad_name in Hbad. rewrite !orb_false_iff in Hbad.
  destruct Hbad as [[E1 E2] E3]. unfold bus_registry_release_service. rewrite E1, E2, E3.
  apply hoare_state. intros W A.
  eapply (hoare_bind _ _ _ (λ x b, x = r_hash r !! n ∧ rep r (ledger [] r (t_hooks t)) t b)).
  { intros b m Hb. split; [|done]. simpl. by rewrite (rep_hash _ _ _ _ Hb). }
  intros x; cbv beta. apply hoare_pure_l. intros ->.
  eapply (hoare_bind _ _ _ (answers r t n (release_spec n c (queue_in r n)))).
  - destruct (r_hash r !! n) as [s|] eqn:Hh.
    + destruct (wf_hash _ _ _ W _ _ Hh) as (l & Hs & Hl). destruct l as [|o1 l1]; [done|].
      destruct (wf_links _ _ _ W _ _ _ o1 Hs) as [cl1 Ho1]; [by left|].
      apply (has_owner_rule _ _ _ _ n (o1 :: l1)); [done| |].
      { intros o Ho. destruct (wf_links _ _ _ W _ _ _ _ Hs Ho) as [cl ->]. eauto. }
      destruct (bool_decide (c ∈ map (conn_of r) (o1 :: l1))) eqn:Hin; cbn [negb].
      * apply bool_decide_eq_true in Hin.
        pose proof (release_owned_state r t s n o1 l1 cl1 He Hh Hs Ho1 c Hin) as Hr.
        intros b m Hb. by apply Hr.
      * apply bool_decide_eq_false in Hin. apply hoare_ret. intros b Hb.
        rewrite (queue_here r s n o1 l1 cl1) by done. unfold release_spec.
        simpl in Hin. rewrite not_elem_of_cons in Hin. destruct Hin as [Hc Hin].
        rewrite (conn_of_owner _ _ _ _ Ho1) in Hc. rewrite decide_False by congruence.
        rewrite (map_who r s), bool_decide_eq_false_2; [|done|].
        -- split; [done|]. exists r, t. split; [done|].
           rewrite <- (queue_here r s n o1 l1 cl1) by done. apply unmoved.
        -- intros o Ho. apply (wf_links _ _ _ W _ _ _ _ Hs). by right.
    + assert (queue_in r n = []) as Eq by (unfold queue_in; by rewrite Hh).
      apply hoare_ret. intros b Hb. rewrite Eq. split; [done|]. exists r, t. split; [done|].
      rewrite <- Eq. apply unmoved.
  - intros res; cbv beta. destruct (release_spec n c (queue_in r n)) as [[q reply] xs].
    intros b m [-> (r' & t' & ([H1 H2 H3 H4 H5] & W' & A') & Hm)]. split; [|done].
    split; [done|]. exists r', t'. split; [|done]. split; [|done]. split; try done. by rewrite H5.
Qed.

(** ** The end of a transaction *)

Section free_hook.
Context r (h : CancelHook) (hs : list CancelHook).
Context (W : wf [] r (h :: hs)) (A : live [] r (h :: hs)).
Let o := hook_owner h.
Let s := hook_service h.
Context (n : bytes) (l : list owner_ptr) (cl : claim).
Context (Hs : r_service r !! s = Some (n, l)) (Ho : r_owner r !! o = Some (s, cl)).
Let k := ledger [] r hs.
Let r1 := if (owner_refs r k o s =? 0)%nat then without_owner r o else r.
Let r' := drop_refs r k s n o.

Lemma tail_wf : wf [] r hs.
Proof. destruct W as [W1 W2 W3 W4 W5 W6 W7]. split; try done. intros h' ?. apply W6. by right. Qed.

Lemma loose_service : service_refs r k s n = 0%nat → l = [] ∧ r_hash r !! n ≠ Some s
  ∧ s ∉ map hook_service hs.
Proof.
  unfold service_refs, k. simpl. rewrite app_nil_r. intros E.
  assert (r_hash r !! n ≠ Some s) as Hh.
  { intros Hh. rewrite bool_decide_eq_true_2 in E by done. lia. }
  split; [|split; [done|]].
  - destruct (decide (l = [])) as [|Hl]; [done|].
    by destruct (wf_attached _ _ _ W _ _ _ Hs Hl) as [?|?%not_elem_of_nil].
  - intros Hin%cnt_pos. lia.
Qed.

Lemma loose_owner_out : owner_refs r k o s = 0%nat → o ∉ l ∧ o ∉ map hook_owner hs.
Proof.
  unfold owner_refs, links, k. rewrite Hs. simpl. intros E.
  split; intros Hin%cnt_pos; lia.
Qed.

Lemma drop1_owner x :
  (x ∈ l ∨ x ∈ map hook_owner hs ∨ x ≠ o) → r_owner r1 !! x = r_owner r !! x.
Proof.
  unfold r1. destruct (Nat.eqb_spec (owner_refs r k o s) 0) as [E|E]; [|done].
  destruct (loose_owner_out E). intros Hx. simpl. rewrite lookup_delete_ne; [done|].
  intros ->. tauto.
Qed.

Lemma drop1_wf : wf [] r1 hs.
Proof.
  unfold r1. destruct (Nat.eqb_spec (owner_refs r k o s) 0) as [E|E]; [|apply tail_wf].
  destruct (loose_owner_out E). apply (wf_without_owner _ _ _ _ s cl); [apply tail_wf|done| |done].
  unfold links. by rewrite Hs.
Qed.

Lemma drop1_service : r_service r1 = r_service r ∧ r_hash r1 = r_hash r ∧ r_base r1 = r_base r.
Proof. unfold r1. by destruct (_ =? _)%nat. Qed.

(** Every owner of the service is still held. *)
Lemma drop1_live x s' cl' :
  r_owner r1 !! x = Some (s', cl') → (0 < owner_refs r k x s')%nat.
Proof.
  unfold r1. intros Hx.
  assert (r_owner r !! x = Some (s', cl')) as Hx0.
  { destruct (_ =? _)%nat; [|done]. simpl in Hx. by apply lookup_delete_Some in Hx as [_ ?]. }
  destruct (decide (x = o)) as [->|Hne].
  - assert (s' = s) as -> by congruence.
    destruct (Nat.eqb_spec (owner_refs r k o s) 0) as [E|E]; [|lia]. simpl in Hx.
    by rewrite lookup_delete_eq in Hx.
  - pose proof (live_owner _ _ _ A _ _ _ Hx0) as Hpos. unfold owner_refs, k, ledger in *.
    simpl in *. by rewrite cnt_cons_ne in Hpos.
Qed.

Lemma drop2_wf : wf [] r' hs.
Proof.
  unfold r', drop_refs. fold r1.
  destruct (Nat.eqb_spec (service_refs r k s n) 0) as [E|E]; [|apply drop1_wf].
  destruct (loose_service E) as (El & Hh & Hhs). destruct drop1_service as (S1 & S2 & S3).
  pose proof drop1_wf as W'. pose proof drop1_live as L'. rewrite El in Hs.
  apply (wf_without_service _ _ _ _ n); [done|by rewrite S1|by rewrite S2|].
  intros x cl' Hx. pose proof (L' _ _ _ Hx) as Hpos. unfold owner_refs, links, k in Hpos.
  rewrite Hs in Hpos. simpl in Hpos. apply cnt_pos in Hpos as (h' & -> & Hin)%list_elem_of_fmap.
  destruct (wf_hooks _ _ _ W' h' Hin) as [cl'' E'].
  apply Hhs. replace s with (hook_service h') by congruence.
  by apply (list_elem_of_fmap_2 hook_service).
Qed.

Lemma drop2_owner : r_owner r' = r_owner r1.
Proof. unfold r', drop_refs. fold r1. by destruct (service_refs r k s n =? 0)%nat. Qed.

Lemma drop2_service :
  r_service r' = if (service_refs r k s n =? 0)%nat then delete s (r_service r) else r_service r.
Proof.
  destruct drop1_service as (S1 & _). unfold r', drop_refs. fold r1.
  destruct (service_refs r k s n =? 0)%nat; [|done]. rewrite <- S1. done.
Qed.

Lemma drop_ledger : ledger [] r' hs = k.
Proof.
  apply ledger_ext. intros h' Hh'. unfold conn_of. rewrite drop2_owner, drop1_owner; [done|]. right; left.
  by apply (list_elem_of_fmap_2 hook_owner).
Qed.

Lemma drop2_live : live [] r' hs.
Proof.
  destruct drop1_service as (S1 & S2 & S3). split; rewrite drop_ledger.
  - intros s' n' l' Hs'.
    assert (r_service r !! s' = Some (n', l') ∧ (s' = s → service_refs r k s n ≠ 0%nat)) as [Hs0 Hne].
    { revert Hs'. rewrite drop2_service.
      destruct (Nat.eqb_spec (service_refs r k s n) 0) as [E|E]; [|done].
      rewrite lookup_delete_Some. intros [? ?]. split; [done|congruence]. }
    assert (service_refs r' k s' n' = service_refs r k s' n') as ->.
    { unfold service_refs at 1. replace (r_hash r') with (r_hash r); [done|].
      unfold r', drop_refs. fold r1. by destruct (service_refs r k s n =? 0)%nat. }
    pose proof (live_service _ _ _ A _ _ _ Hs0) as Hpos.
    destruct (decide (s' = s)) as [->|Hs'ne].
    + specialize (Hne eq_refl). assert (n' = n) as -> by congruence. lia.
    + unfold service_refs, k, ledger in *. simpl in *. by rewrite cnt_cons_ne in Hpos.
  - intros x s' cl' Hx.
    rewrite drop2_owner in Hx. pose proof (drop1_live _ _ _ Hx) as Hpos. unfold owner_refs in *.
    replace (links r' s') with (links r s'); [done|]. unfold links. rewrite drop2_service.
    destruct (Nat.eqb_spec (service_refs r k s n) 0) as [E|E]; [|done].
    destruct (loose_service E) as (El & _). rewrite El in Hs.
    destruct (decide (s' = s)) as [->|]; [by rewrite lookup_delete_eq, Hs|by rewrite lookup_delete_ne].
Qed.

Lemma drop_queue n' : queue_in r' n' = queue_in r n'.
Proof.
  destruct drop1_service as (S1 & S2 & S3). unfold queue_in.
  assert (r_hash r' = r_hash r) as ->.
  { unfold r', drop_refs. fold r1. by destruct (service_refs r k s n =? 0)%nat. }
  destruct (r_hash r !! n') as [s'|] eqn:Hh; [|done].
  destruct (wf_hash _ _ _ W _ _ Hh) as (l' & Hs' & _).
  assert (links r' s' = l') as ->.
  { unfold links. rewrite drop2_service.
    destruct (Nat.eqb_spec (service_refs r k s n) 0) as [E|E]; [|by rewrite Hs'].
    destruct (loose_service E) as (_ & Hne & _). rewrite lookup_delete_ne, Hs'; [done|].
    intros <-. congruence. }
  unfold links. rewrite Hs'. simpl. apply claims_ext. intros x Hx. unfold claim_at.
  rewrite drop2_owner, drop1_owner; [done|].
  destruct (decide (x = o)) as [->|]; [left|tauto].
  destruct (wf_links _ _ _ W _ _ _ _ Hs' Hx) as [cl' E]. congruence.
Qed.

End free_hook.

Lemma free_all_rule hs r t F L :
  wf [] r hs → live [] r hs →
  hoare (rep r (ledger [] r hs) t) (free_all hs)
    (λ _ b, ∃ r', rep r' (Refs [] [] []) t b ∧ wf [] r' [] ∧ live [] r' []
       ∧ (∀ n, queue_in r' n = queue_in r n) ∧ r_base r' = r_base r) F L.
Proof.
  revert r. induction hs as [|h hs IH]; intros r W A; simpl.
  { apply hoare_ret. intros b Hb. by exists r. }
  destruct (wf_hooks _ _ _ W h) as [cl Ho]; [by left|].
  destruct (wf_owner _ _ _ W _ _ _ Ho) as [[[n l] Hs] [nb Hnb]].
  set (k := ledger [] r hs).
  eapply (hoare_bind _ _ _ (λ _, rep (drop_refs r k (hook_service h) n (hook_owner h)) k t)).
  - assert (cancel_hook_free h = free_ownership_cancel_data (hook_owner h) (hook_service h)) as ->
      by (by destruct h).
    unfold ledger. simpl. rewrite (conn_of_owner _ _ _ _ Ho).
    apply (free_data_rule r (l_service k) (l_owner k) (l_conn k) t _ n l _ cl nb); try done.
    + by eapply wf_base.
    + intros E. by apply (loose_service r h hs W n l Hs) in E as (? & _).
  - intros []; cbv beta.
    pose proof (drop_ledger r h hs n l cl Hs Ho) as Ek. fold k in Ek.
    set (r' := drop_refs r k (hook_service h) n (hook_owner h)) in *. rewrite <- Ek.
    eapply hoare_conseq; [apply (IH r')|done| |done|exact (λ x, x)].
    + by apply (drop2_wf r h hs W A n l cl).
    + by apply (drop2_live r h hs W A n l cl).
    + intros a b (r2 & Hb & W2 & A2 & Hq & Hbase). exists r2. split_and!; try done.
      * intros n'. rewrite Hq. by apply (drop_queue r h hs W n l cl).
      * rewrite Hbase. unfold r', drop_refs. by do 2 destruct (_ =? _)%nat.
Qed.

(** A transaction without references is closed. *)
Definition closed (t : tx) : tx := Tx (t_pids t) [] [] (t_delivered t ++ t_messages t) (t_error t) (t_clients t).

Lemma execute_state r t F L :
  hoare (state [] r t) bus_transaction_execute_and_free
    (λ _ b, ∃ r', state [] r' (closed t) b ∧ (∀ n, queue_in r' n = queue_in r n)
       ∧ r_base r' = r_base r) F L.
Proof.
  apply hoare_state. intros W A. unfold bus_transaction_execute_and_free.
  apply hoare_gets. intros b0 Hb0.
  set (t1 := Tx (t_pids t) (t_hooks t) (t_messages t) (t_delivered t ++ t_messages t) (t_error t) (t_clients t)).
  set (t2 := Tx (t_pids t) (t_hooks t) [] (t_delivered t ++ t_messages t) (t_error t) (t_clients t)).
  set (k := ledger [] r (t_hooks t)) in *.
  eapply (hoare_bind _ _ _ (λ _, rep r k t1)).
  { apply hoare_modify. intros b ->. destruct Hb0 as [H1 H2 H3 H4 H5]. split; try done.
    unfold t1. by rewrite H5. }
  intros []; cbv beta. eapply (hoare_bind _ _ _ (λ _, rep r k t2)).
  { apply hoare_modify. intros b [H1 H2 H3 H4 H5]. split; try done. unfold t2, t1 in *.
    injection H5 as ? ? ? ? ?. simpl. f_equal; congruence. }
  intros []; cbv beta. unfold free_cancel_hooks. apply hoare_gets. intros b1 Hb1.
  assert (cancel_hooks b1 = t_hooks t) as ->.
  { pose proof (rep_tx _ _ _ _ Hb1) as E. unfold t2 in E. by injection E. }
  eapply hoare_bind; [eapply hoare_conseq; [by apply (free_all_rule (t_hooks t) r t2 F L)|
    by intros b ->|intros a b Hx; exact Hx|done|done]|].
  intros []; cbv beta. apply hoare_exists_l. intros r'. apply hoare_modify.
  intros b ([H1 H2 H3 H4 H5] & W2 & A2 & Hq & Hbase). exists r'. split; [|done]. split; [|done].
  split; try done. unfold closed, t2 in *. injection H5 as ? ? ? ? ?. simpl.
  f_equal; congruence.
Qed.

(** ** Cancelling the addition of an owner *)

(** The transaction is dropped; its messages are not sent. *)
Definition cancelled (t : tx) : tx := Tx (t_pids t) [] [] (t_delivered t) (t_error t) (t_clients t).

Lemma cancel_rule r' k t' r2 k2 r o s F L :
  t_hooks t' = [CancelOwnership o s] →
  (∀ t0, hoare (rep r' k t0) (cancel_ownership o s) (λ _, rep r2 k2 t0) F L) →
  (∀ t0, hoare (rep r2 k2 t0) (free_ownership_cancel_data o s)
     (λ _, rep r (Refs [] [] []) t0) F L) →
  hoare (rep r' k t') bus_transaction_cancel_and_free
    (λ _, rep r (Refs [] [] []) (cancelled t')) F L.
Proof.
  intros Ht Hc Hf. unfold bus_transaction_cancel_and_free.
  set (t1 := Tx (t_pids t') (t_hooks t') [] (t_delivered t') (t_error t') (t_clients t')).
  eapply (hoare_bind _ _ _ (λ _, rep r' k t1)).
  { apply hoare_modify. intros b [H1 H2 H3 H4 H5]. split; try done. unfold t1. by rewrite H5. }
  intros []; cbv beta. apply hoare_gets. intros b0 Hb0.
  assert (∀ r k b, rep r k t1 b → cancel_hooks b = [CancelOwnership o s]) as Eh.
  { intros r0 k0 b Hb. rewrite <- Ht. pose proof (rep_tx _ _ _ _ Hb) as E. unfold t1 in E.
    by injection E. }
  rewrite (Eh _ _ _ Hb0). simpl.
  eapply (hoare_bind _ _ _ (λ l b, l = [CancelOwnership o s] ∧ rep r2 k2 t1 b)).
  { eapply (hoare_bind _ _ _ (λ h b, h = CancelOwnership o s ∧ rep r2 k2 t1 b)).
    - eapply hoare_bind; [eapply hoare_conseq; [apply (Hc t1)|by intros b ->|
        intros a b Hx; exact Hx|done|exact (λ x, x)]|].
      intros []; cbv beta. by apply hoare_ret.
    - intros h; cbv beta. apply hoare_pure_l. intros ->.
      eapply (hoare_bind _ _ _ (λ l b, l = [] ∧ rep r2 k2 t1 b)); [by apply hoare_ret|].
      intros l; cbv beta. apply hoare_pure_l. intros ->. by apply hoare_ret. }
  intros l; cbv beta. apply hoare_pure_l. intros ->.
  eapply (hoare_bind _ _ _ (λ _, rep r2 k2 t1)).
  { apply hoare_modify. intros b [H1 H2 H3 H4 H5]. split; try done. unfold t1 in *.
    injection H5 as ? ? ? ? ?. simpl. f_equal; congruence. }
  intros []; cbv beta. unfold free_cancel_hooks. apply hoare_gets. intros b1 Hb1.
  rewrite (Eh _ _ _ Hb1). simpl.
  eapply (hoare_bind _ _ _ (λ _, rep r (Refs [] [] []) t1)).
  { eapply hoare_bind; [eapply hoare_conseq; [apply (Hf t1)|by intros b ->|
      intros a b Hx; exact Hx|done|exact (λ x, x)]|].
    intros []; cbv beta. by apply hoare_ret. }
  intros []; cbv beta. apply hoare_modify. intros b [H1 H2 H3 H4 H5]. split; try done.
  unfold t1, cancelled in *. injection H5 as ? ? ? ? ?. simpl. f_equal; congruence.
Qed.

(** Nothing to undo. *)
Lemma cancel_nothing_rule r t F L :
  t_hooks t = [] →
  hoare (rep r (Refs [] [] []) t) bus_transaction_cancel_and_free
    (λ _, rep r (Refs [] [] []) (cancelled t)) F L.
Proof.
  intros Ht b m Hb. pose proof Hb as [H1 H2 H3 H4 H5].
  assert (cancel_hooks b = []) as Eh by (rewrite H5 in Ht; done).
  cbv [bus_transaction_cancel_and_free free_cancel_hooks mbind M_bind modify gets id].
  simpl. rewrite Eh. simpl. split; [|done]. split; try done. unfold cancelled. by rewrite H5.
Qed.

Section undo.
Context r (t : tx) (s : service_ptr) (n : bytes) (l : list owner_ptr).
Context (W : wf [] r []) (A : live [] r []).
Context (o : owner_ptr) (c : connection) (flags : Z).
Context (Ho : r_owner r !! o = None) (nb : nat) (Hc : r_base r !! c = Some nb).

Lemma base_pos : (0 < nb)%nat.
Proof. exact (wf_base _ _ _ W _ _ Hc). Qed.

Lemma unlink_joined r0 l0 ls t0 F L :
  r_service r0 !! s = Some (n, place flags o l0) → o ∉ l0 →
  (∀ x, x ∈ l0 → ∃ cl, r_owner r0 !! x = Some (s, cl)) →
  r_owner r0 !! o = Some (s, claim_with c flags) → r_base r0 !! c = Some nb →
  hoare (rep r0 (Refs ls [o] [c]) t0) (bus_service_unlink_owner s o)
    (λ _, rep (with_links r0 s n l0) (Refs ls [o] [c]) t0) F L.
Proof.
  intros Hs Hol Hl Ho0 Hc0. destruct (place_mid flags o l0) as (l1 & l2 & El & Ep).
  rewrite Ep in Hs. rewrite El, not_elem_of_app in Hol. destruct Hol as [Hl1 Hl2].
  pose proof (unlink_owner_rule r0 ls [o] [c] t0 s n l1 l2 o (claim_with c flags) nb F L
    Hs Hl1 Hl2) as Hr. unfold drop_owner in Hr. rewrite decide_True, <- El in Hr by (by left).
  apply Hr; [|done|done]. intros x. rewrite <- Permutation_middle, elem_of_cons, <- El.
  intros [->|Hx]; [eauto|by apply Hl].
Qed.

(** The service had owners before. *)
Lemma undo_join_rule F L t' :
  r_service r !! s = Some (n, l) → r_hash r !! n = Some s → l ≠ [] →
  t_hooks t' = [CancelOwnership o s] →
  hoare (rep (joined r s n l o c flags) (Refs [s] [o] [c]) t') bus_transaction_cancel_and_free
    (λ _, rep r (Refs [] [] []) (cancelled t')) F L.
Proof.
  intros Hs Hh Hl Ht. set (r1 := joined r s n l o c flags).
  assert (∀ x, x ∈ l → ∃ cl, r_owner r !! x = Some (s, cl)) as Hlv.
  { intros x. by apply (wf_links _ _ _ W _ _ _ _ Hs). }
  assert (o ∉ l) as Hol by (intros [? ?]%Hlv; congruence).
  assert (r_service r1 !! s = Some (n, place flags o l)) as Hs1 by apply lookup_insert_eq.
  assert (r_owner r1 !! o = Some (s, claim_with c flags)) as Ho1 by apply lookup_insert_eq.
  set (r2 := with_links r1 s n l).
  assert (r_service r2 !! s = Some (n, l)) as Hs2 by apply lookup_insert_eq.
  apply (cancel_rule _ _ _ r2 (Refs [s] [o] [c]) r o s); [done| |]; intros t0.
  - unfold cancel_ownership. eapply hoare_bind; [apply (unlink_joined r1 l); try done|].
    { intros x Hx. simpl. rewrite lookup_insert_ne by (intros ->; done). by apply Hlv. }
    intros []; cbv beta. apply (get_service_rule _ _ _ _ (n, l)); [done|]. simpl.
    rewrite decide_False by done. by apply hoare_ret.
  - assert (drop_refs r2 (Refs [] [] []) s n o = r) as E.
    { unfold drop_refs, owner_refs, service_refs, links. rewrite Hs2. simpl.
      rewrite (cnt_none o l) by done. simpl. rewrite bool_decide_eq_true_2 by done. simpl.
      by apply joined_undo. }
    pose proof (free_data_rule r2 [] [] [] t0 s n l o (claim_with c flags) nb F L Hs2 Ho1 Hc base_pos)
      as Hr. rewrite E in Hr. apply Hr. unfold service_refs. simpl.
    by rewrite bool_decide_eq_true_2.
Qed.

(** The service is new: [h] is the hash, with or without its entry. *)
Section undo_new.
Context (Hs : r_service r !! s = None) (Hh : r_hash r !! n = None).

Let gone := with_links (built r n c flags s o) s n [].

Lemma gone_service : r_service gone !! s = Some (n, []).
Proof. apply lookup_insert_eq. Qed.

Lemma gone_drop : drop_refs gone (Refs [] [] []) s n o = r.
Proof.
  unfold drop_refs, owner_refs, service_refs, links. rewrite gone_service. simpl.
  rewrite Hh, bool_decide_eq_false_2 by done. simpl.
  unfold without_service, without_owner, gone, built, joined, created, with_links. simpl.
  rewrite !insert_insert_eq, !delete_insert_id by done. clear. by destruct r.
Qed.

Lemma gone_free t0 F L :
  hoare (rep gone (Refs [s] [o] [c]) t0) (free_ownership_cancel_data o s)
    (λ _, rep r (Refs [] [] []) t0) F L.
Proof.
  pose proof (free_data_rule gone [] [] [] t0 s n [] o (claim_with c flags) nb F L gone_service)
    as Hr. rewrite gone_drop in Hr. apply Hr; try done; [apply lookup_insert_eq|apply base_pos].
Qed.

Lemma new_place : place flags o [] = [o].
Proof. unfold place. by rewrite orb_true_r. Qed.

(** Unlinking the service, in the hash or not. *)
Lemma cancel_new r0 ls t0 F L :
  r_service r0 !! s = Some (n, [o]) → r_owner r0 !! o = Some (s, claim_with c flags) →
  r_base r0 !! c = Some nb →
  hoare (rep (with_links r0 s n []) (Refs ls [o] [c]) t0)
    (modify (with_service_hash (delete n)))
    (λ _, rep gone (Refs [s; s] [o] [c]) t0) F L →
  hoare (rep r0 (Refs ls [o] [c]) t0) (cancel_ownership o s)
    (λ _, rep gone (Refs [s] [o] [c]) t0) F L.
Proof.
  intros Hs0 Ho0 Hc0 Hdel. unfold cancel_ownership.
  assert (r_service (with_links r0 s n []) !! s = Some (n, [])) as Hs1 by apply lookup_insert_eq.
  eapply hoare_bind.
  { apply (unlink_joined r0 []); try done; [by rewrite new_place|apply not_elem_of_nil|].
    by intros x ?%not_elem_of_nil. }
  intros []; cbv beta. apply (get_service_rule _ _ _ _ (n, [])); [done|]. simpl.
  unfold bus_service_unlink. apply (get_service_rule _ _ _ _ (n, [])); [done|]. simpl.
  apply hoare_assert; [done|]. eapply hoare_bind; [exact Hdel|]. intros []; cbv beta.
  apply (service_unref_rule _ _ _ _ _ _ (n, [])); [apply gone_service|].
  unfold service_refs. simpl. rewrite cnt_cons_eq. lia.
Qed.

Lemma undo_built_rule F L t' :
  t_hooks t' = [CancelOwnership o s] →
  hoare (rep (built r n c flags s o) (Refs [s; s] [o] [c]) t') bus_transaction_cancel_and_free
    (λ _, rep r (Refs [] [] []) (cancelled t')) F L.
Proof.
  intros Ht. apply (cancel_rule _ _ _ gone (Refs [s] [o] [c]) r o s); [done| |]; intros t0;
    [|apply gone_free].
  apply cancel_new; [|apply lookup_insert_eq|done|].
  - simpl. by rewrite lookup_insert_eq, new_place.
  - by apply hash_delete_none_rule.
Qed.

Lemma undo_published_rule F L t' :
  t_hooks t' = [CancelOwnership o s] →
  hoare (rep (published r n c flags s o) (Refs [s] [o] [c]) t') bus_transaction_cancel_and_free
    (λ _, rep r (Refs [] [] []) (cancelled t')) F L.
Proof.
  intros Ht. apply (cancel_rule _ _ _ gone (Refs [s] [o] [c]) r o s); [done| |]; intros t0;
    [|apply gone_free].
  apply cancel_new; [|apply lookup_insert_eq|done|].
  - simpl. by rewrite lookup_insert_eq, new_place.
  - set (r1 := with_links (published r n c flags s o) s n []).
    pose proof (hash_delete_rule r1 [s] [o] [c] t0 s n [] F L) as Hr.
    replace (with_hash r1 (delete n (r_hash r1))) with gone in Hr.
    + apply Hr; apply lookup_insert_eq.
    + unfold gone, r1, published, built, joined, created, with_links, with_hash. simpl.
      by rewrite delete_insert_id.
Qed.

End undo_new.

End undo.

End requests.
