(* ===== verification/Hello.v ===== *)
(** * Hello: how a connection gets its unique name

    The handler of Hello in src/bus/driver.c, with what it calls in
    src/bus/connection.c, shown correct against the ghost view of [Ledger]: the
    search for a name that is not taken ends, the connection becomes active, and
    the registry gets a service for the name with the connection as its only
    owner.  Used by [Registry], which dispatches the message. *)

From stdpp Require Import gmap pretty.
From S2P Require Import Prelude Search Names Types Services Ledger Ownership.

(** ** Numbers and names *)

(** The pair of numbers the next name is made of. *)
Definition next_numbers (k : BusConnections) : Z * Z :=
  if next_minor_number k <=? 0 then (next_major_number k + 1, 0)
  else (next_major_number k, next_minor_number k).

(** [n] more names can be made before a counter overflows. *)
Definition numbers_left (n : nat) (k : BusConnections) : Prop :=
  0 < fst (next_numbers k) < 2 ^ 31 ∧ snd (next_numbers k) + Z.of_nat n < 2 ^ 31.

Lemma next_minor_nonneg k : 0 <= snd (next_numbers k).
Proof. unfold next_numbers. destruct (_ <=? 0) eqn:E; simpl; lia. Qed.

Lemma next_after a b k : 0 <= b → next_numbers (with_numbers a (b + 1) k) = (a, b + 1).
Proof. intros. unfold next_numbers. simpl. destruct (b + 1 <=? 0) eqn:E; [lia|done]. Qed.

Lemma print_int_inj a b : print_int a = print_int b → a = b.
Proof.
  unfold print_int, lit. intros E. apply (inj pretty).
  rewrite <- (String.string_of_list_byte_of_string (pretty a)), E.
  apply String.string_of_list_byte_of_string.
Qed.

Lemma unique_name_inj a b b' : unique_name a b = unique_name a b' → b = b'.
Proof. unfold unique_name. intros E. do 3 apply app_inv_head in E. by apply print_int_inj. Qed.

(** Of one more name than the hash holds, one is not in the hash. *)
Lemma some_name_free {X} (hash : gmap bytes X) a b :
  ∃ i, (i ≤ size hash)%nat ∧ hash !! unique_name a (b + Z.of_nat i) = None.
Proof.
  set (names := map (λ i, unique_name a (b + Z.of_nat i)) (seq 0 (S (size hash)))).
  assert (NoDup names) as Hnd.
  { apply NoDup_fmap_2; [|apply NoDup_seq]. intros i j E%unique_name_inj. lia. }
  destruct (decide (Exists (λ n, hash !! n = None) names)) as [Hx|Hx].
  - apply list.Exists_exists in Hx as (n & (i & -> & Hi)%list_elem_of_fmap & Hn).
    apply elem_of_seq in Hi. exists i. split; [lia|done].
  - exfalso. assert (list_to_set names ⊆ dom hash) as Hsub.
    { intros n [i Hi]%elem_of_list_to_set%list_elem_of_lookup. apply elem_of_dom.
      destruct (hash !! n) eqn:E; [eauto|]. destruct Hx. apply list.Exists_exists.
      exists n. split; [|done]. by eapply list_elem_of_lookup_2. }
    apply subseteq_size in Hsub. rewrite size_list_to_set, size_dom in Hsub by done.
    unfold names in Hsub. rewrite length_map, length_seq in Hsub. lia.
Qed.

(** ** Steps of the handler *)

Definition put_clients (t : tx) (k : BusConnections) : tx :=
  Tx (t_pids t) (t_hooks t) (t_messages t) (t_delivered t) (t_error t) k.

(** What the counters satisfy. *)
Definition sane_clients (k : BusConnections) : Prop :=
  0 <= n_completed k ∧ ∀ uid n, completed_by_user k !! uid = Some n → 0 <= n.

Section hello.
Context `{BC : BusContext}.
Implicit Types (r : reg) (t : tx) (k : BusConnections).

Lemma clients_rule {B} r t (f : BusConnections → BM B) Q :
  runs (state [] r t) (f (t_clients t)) Q → runs (state [] r t) (get_clients ≫= f) Q.
Proof.
  intros Hf b m Hb Hm. cbv [get_clients gets mbind M_bind].
  replace (clients b) with (t_clients t) by (by rewrite (rep_tx _ _ _ _ (proj1 Hb))).
  by apply Hf.
Qed.

Lemma set_clients_rule r t k :
  runs (state [] r t) (set_clients k) (λ _, state [] r (put_clients t k)).
Proof.
  intros b m ([H1 H2 H3 H4 H5] & W & A) Hm. eexists tt, _, m. split; [done|]. split; [|done].
  split; [|done]. split; try done. by rewrite H5.
Qed.

Lemma runs_ret {S A} (P : S → Prop) (a : A) (Q : A → S → Prop) :
  (∀ s, P s → Q a s) → runs P (mret a) Q.
Proof. intros HQ s m HP Hm. exists a, s, m. auto. Qed.

Lemma runs_assert {S} (P : S → Prop) (x : bool) : x = true → runs P (assert_ x) (λ _, P).
Proof. intros -> s m HP Hm. by exists tt, s, m. Qed.

Lemma runs_requests {S} (P : S → Prop) n : runs P (requests n) (λ _, P).
Proof. eapply hoare_runs, requests_rule. Qed.

Lemma oom_request_state r t L :
  t_error t = None →
  hoare (state [] r t) (or_oom request) (λ _, state [] r t) (λ _, True) L.
Proof.
  intros He. apply hoare_state. intros W A.
  eapply hoare_conseq; [apply or_oom_rule; [exact He|apply request_rule]|done|done|done|exact (λ x, x)].
Qed.

(** What succeeds with memory also succeeds with its failures reported. *)
Lemma runs_on_failure {S A} (P : S → Prop) (c : M S A) h Q : runs P c Q → runs P (on_failure c h) Q.
Proof.
  intros Hc s m HP Hm. destruct (Hc s m HP Hm) as (a & s' & m' & E & HQ & Hm').
  exists a, s', m'. unfold on_failure. by rewrite E.
Qed.

Lemma active_rule {B} r t c (f : bool → BM B) Q :
  runs (state [] r t) (f (bool_decide (is_Some (conn_names (t_clients t) !! c)))) Q →
  runs (state [] r t) (bus_connection_is_active c ≫= f) Q.
Proof.
  intros Hf. unfold bus_connection_is_active. intros b m Hb Hm.
  destruct (clients_rule r t (λ k, mret (bool_decide (is_Some (conn_names k !! c))))
    (λ a b, a = bool_decide (is_Some (conn_names (t_clients t) !! c)) ∧ state [] r t b)
    ltac:(by apply runs_ret) b m Hb Hm) as (a & b1 & m1 & E & [-> Hb1] & Hm1).
  unfold mbind at 1, M_bind at 1. rewrite E. by apply Hf.
Qed.

(** *** The search for a name *)

Lemma next_name_state r t :
  numbers_left 1 (t_clients t) →
  let '(a, b) := next_numbers (t_clients t) in
  runs (state [] r t) next_unique_name
    (λ name s, name = unique_name a b
               ∧ state [] r (put_clients t (with_numbers a (b + 1) (t_clients t))) s).
Proof.
  intros [Ha Hb]. pose proof (next_minor_nonneg (t_clients t)) as Hpos.
  unfold next_unique_name. set (k := t_clients t) in *.
  destruct (next_numbers k) as [a b] eqn:E. simpl in Ha, Hb, Hpos.
  apply clients_rule. fold k.
  eapply (runs_bind _ _ _ (λ _, state [] r (put_clients t (with_numbers a b k)))).
  { unfold next_numbers in E. destruct (next_minor_number k <=? 0) eqn:Em; injection E as <- <-.
    - unfold int_succ. rewrite (proj2 (Z.ltb_lt _ _)) by lia. apply set_clients_rule.
    - apply runs_ret. intros s Hs. replace (put_clients t _) with t; [done|].
      unfold k. destruct t as [? ? ? ? ? []]. done. }
  intros []; cbv beta. apply clients_rule. cbn [t_clients put_clients next_major_number
    next_minor_number with_numbers].
  eapply runs_bind; [apply runs_assert; lia|]. intros []; cbv beta.
  eapply runs_bind; [apply runs_assert; lia|]. intros []; cbv beta.
  eapply runs_bind; [apply runs_requests|]. intros []; cbv beta.
  unfold int_succ. rewrite (proj2 (Z.ltb_lt _ _)) by lia.
  eapply (runs_bind _ _ _ (λ x s, x = b + 1 ∧ state [] r (put_clients t (with_numbers a b k)) s)).
  { intros s m Hs Hm. by exists (b + 1), s, m. }
  intros x; cbv beta. intros s m [-> Hs] Hm. revert s m Hs Hm.
  eapply runs_bind; [apply set_clients_rule|]. intros []; cbv beta. by apply runs_ret.
Qed.

Lemma lookup_rule {B} r t name (f : option service_ptr → BM B) Q :
  runs (state [] r t) (f (r_hash r !! name)) Q →
  runs (state [] r t) (bus_registry_lookup name ≫= f) Q.
Proof.
  intros Hf b m Hb Hm. cbv [bus_registry_lookup gets mbind M_bind].
  rewrite (rep_hash _ _ _ _ (proj1 Hb)). by apply Hf.
Qed.

(** The name is new, and the counters are behind it. *)
Definition named r t (name : bytes) (b : bus) : Prop :=
  ∃ major minor, name = unique_name major minor ∧ r_hash r !! name = None
    ∧ state [] r (put_clients t (with_numbers major (minor + 1) (t_clients t))) b.

Lemma create_loop_state r fuel : ∀ t,
  numbers_left fuel (t_clients t) →
  (∃ i, (i < fuel)%nat ∧ r_hash r !! unique_name (fst (next_numbers (t_clients t)))
          (snd (next_numbers (t_clients t)) + Z.of_nat i) = None) →
  runs (state [] r t) (create_loop fuel) (named r t).
Proof.
  induction fuel as [|fuel IH]; intros t [Ha Hb] (i & Hi & Hn); [lia|]. simpl.
  pose proof (next_minor_nonneg (t_clients t)) as Hpos.
  pose proof (next_name_state r t) as Hnext.
  destruct (next_numbers (t_clients t)) as [a b] eqn:E. simpl in Ha, Hb, Hpos, Hn.
  eapply runs_bind; [apply Hnext; unfold numbers_left; rewrite E; simpl; lia|].
  intros name; cbv beta. intros s m [-> Hs] Hm. revert s m Hs Hm. apply lookup_rule.
  destruct (r_hash r !! unique_name a b) as [s|] eqn:El.
  - set (t1 := put_clients t _).
    assert (next_numbers (t_clients t1) = (a, b + 1)) as E1 by (by apply next_after).
    eapply runs_conseq; [apply (IH t1)|done|].
    + unfold numbers_left. rewrite E1. simpl. lia.
    + rewrite E1. simpl. destruct i as [|i]; [rewrite Z.add_0_r in Hn; congruence|].
      exists i. split; [lia|]. by replace (b + 1 + Z.of_nat i) with (b + Z.of_nat (S i)) by lia.
    + intros n s' (a' & b' & -> & Hh & Hs'). exists a', b'. done.
  - apply runs_ret. intros s Hs. by exists a, b.
Qed.

Lemma create_name_state r t :
  numbers_left (S (size (r_hash r))) (t_clients t) →
  runs (state [] r t) create_unique_client_name (named r t).
Proof.
  intros Hk. unfold create_unique_client_name. intros b m Hb Hm. cbv [mbind M_bind gets id].
  rewrite (rep_hash _ _ _ _ (proj1 Hb)).
  apply (create_loop_state r (S (size (r_hash r))) t Hk); [|done|done].
  destruct (some_name_free (r_hash r) (fst (next_numbers (t_clients t)))
    (snd (next_numbers (t_clients t)))) as (i & Hi & Hn).
  exists i. split; [lia|done].
Qed.

(** *** The connection becomes active *)

Definition one_more_of_user (c : connection) (users : gmap Z Z) : gmap Z Z :=
  match dbus_connection_get_unix_user c with
  | Some uid => <[uid := default 0 (users !! uid) + 1]> users
  | None => users
  end.

Definition registered (c : connection) (name : bytes) (k : BusConnections) : BusConnections :=
  with_one_more (with_users (one_more_of_user c) (with_names <[c := name]> k)).

Lemma adjust_state r t uid :
  sane_clients (t_clients t) →
  runs (state [] r t) (adjust_connections_for_uid uid 1)
    (λ _, state [] r (put_clients t
       (with_users <[uid := default 0 (completed_by_user (t_clients t) !! uid) + 1]> (t_clients t)))).
Proof.
  intros [_ Hn]. set (n := default 0 (completed_by_user (t_clients t) !! uid)).
  assert (0 <= n) as Hpos.
  { unfold n. destruct (completed_by_user (t_clients t) !! uid) as [x|] eqn:E; [by eapply Hn|done]. }
  unfold adjust_connections_for_uid.
  eapply (runs_bind _ _ _ (λ x s, x = n ∧ state [] r t s)).
  { apply clients_rule. by apply runs_ret. }
  intros x; cbv beta. intros s m [-> Hs] Hm. revert s m Hs Hm.
  eapply runs_bind; [apply runs_assert; lia|]. intros []; cbv beta.
  eapply runs_bind; [apply runs_assert; lia|]. intros []; cbv beta.
  apply clients_rule. rewrite (proj2 (Z.eqb_neq (n + 1) 0)) by lia.
  eapply runs_bind; [eapply hoare_runs, request_rule|]. intros []; cbv beta. apply set_clients_rule.
Qed.

Lemma complete_state r t c name :
  t_error t = None → is_Some (r_base r !! c) → conn_names (t_clients t) !! c = None →
  sane_clients (t_clients t) →
  runs (state [] r t) (bus_connection_complete c name)
    (λ _, state [] r (put_clients t (registered c name (t_clients t)))).
Proof.
  intros He [nb Hnb] Hk Hsane. set (k := t_clients t) in *. unfold bus_connection_complete.
  eapply (runs_bind _ _ _ (λ _, state [] r t)).
  { intros b m Hb Hm. pose proof (rep_conn _ _ _ _ (proj1 Hb) c) as Hc. unfold conn_ok in Hc.
    rewrite Hnb in Hc. cbv [get_connection mbind M_bind gets id checked].
    destruct (connections b !! c) as [d|]; [|done]. by exists d, b, m. }
  intros _; cbv beta. apply clients_rule. fold k.
  eapply runs_bind; [apply runs_assert; by apply bool_decide_eq_true|]. intros []; cbv beta.
  eapply runs_bind; [by eapply hoare_runs, (oom_request_state r t)|]. intros []; cbv beta.
  eapply runs_bind; [apply set_clients_rule|]. intros []; cbv beta.
  set (k1 := with_names <[c := name]> k). set (k2 := with_users (one_more_of_user c) k1).
  eapply (runs_bind _ _ _ (λ _, state [] r (put_clients t k2))).
  { do 2 apply runs_on_failure. eapply runs_bind; [eapply hoare_runs, request_rule|].
    intros []; cbv beta.
    eapply (runs_bind _ _ _ (λ _, state [] r (put_clients t k2))); [|intros []; eapply hoare_runs, request_rule].
    unfold k2, one_more_of_user. destruct (dbus_connection_get_unix_user c) as [uid|].
    - eapply runs_conseq; [by apply (adjust_state r (put_clients t k1) uid)|done|done].
    - by apply runs_ret. }
  intros []; cbv beta. apply clients_rule.
  eapply runs_bind; [apply set_clients_rule|]. intros []; cbv beta.
  apply runs_assert. destruct Hsane as [? _]. simpl. fold k. lia.
Qed.

Lemma from_driver_state r t c x L :
  receiver x = Some c →
  hoare (state [] r t) (bus_transaction_send_from_driver c x)
    (λ _, state [] r (with_message t x)) (state [] r t) L.
Proof.
  intros Hx. apply hoare_state. intros W A.
  eapply hoare_conseq; [exact (from_driver_rule r (ledger [] r (t_hooks t)) t c x L Hx)|
    intros b Hb; exact Hb| | |done].
  - intros a b Hb. split; [exact Hb|by split].
  - intros b Hb. split; [exact Hb|by split].
Qed.

Lemma error_clear_state {B} r t (f : BM B) Q :
  t_error t = None → runs (state [] r t) f Q →
  runs (state [] r t) (_DBUS_ASSERT_ERROR_IS_CLEAR;; f) Q.
Proof.
  intros He Hf b m Hb Hm. unfold _DBUS_ASSERT_ERROR_IS_CLEAR. cbv [mbind M_bind gets id].
  rewrite (rep_tx _ _ _ _ (proj1 Hb)) in He. simpl in He. rewrite He. by apply Hf.
Qed.

Lemma welcome_state r t c name :
  t_error t = None → conn_names (t_clients t) !! c = Some name →
  runs (state [] r t) (bus_driver_send_welcome_message c)
    (λ _, state [] r (with_message t (Welcome c name))).
Proof.
  intros He Hk. unfold bus_driver_send_welcome_message. apply error_clear_state; [done|].
  apply clients_rule. rewrite Hk.
  eapply (runs_bind _ _ _ (λ x s, x = name ∧ state [] r t s)).
  { intros s m Hs Hm. by exists name, s, m. }
  intros x; cbv beta. intros s m [-> Hs] Hm. revert s m Hs Hm.
  do 2 (eapply runs_bind; [by eapply hoare_runs, (oom_request_state r t)|]; intros []; cbv beta).
  eapply runs_on_failure, hoare_runs. by apply (from_driver_state r t c (Welcome c name)).
Qed.

(** *** The whole handler *)

(** Why Hello is refused. *)
Definition hello_refusal (k : BusConnections) (c : connection) : option error_name :=
  if bool_decide (is_Some (conn_names k !! c)) then Some DBUS_ERROR_FAILED
  else if bus_context_get_max_completed_connections <=? n_completed k then
    Some DBUS_ERROR_LIMITS_EXCEEDED
  else
    match dbus_connection_get_unix_user c with
    | Some uid =>
        if bus_context_get_max_connections_per_user <=? default 0 (completed_by_user k !! uid)
        then Some DBUS_ERROR_LIMITS_EXCEEDED else None
    | None => None
    end.

(** The messages of Hello. *)
Definition hello_signals (c : connection) (name : bytes) : list signal :=
  [Welcome c name; NameOwnerChanged name None (Some c); NameAcquired c name].

(** The connection has the new name [name], with the numbers [major] and [minor]. *)
Definition greeted r t c (b : bus) : Prop :=
  ∃ major minor r' t', let name := unique_name major minor in
    r_hash r !! name = None ∧ state [] r' t' b
    ∧ moved name [claim_with c 0] (hello_signals c name) r
        (put_clients t (registered c name (with_numbers major (minor + 1) (t_clients t)))) r' t'.

Lemma limits_state r t c :
  hello_refusal (t_clients t) c = None →
  runs (state [] r t) (bus_connections_check_limits c) (λ _, state [] r t).
Proof.
  unfold hello_refusal. intros H. unfold bus_connections_check_limits. apply clients_rule.
  destruct (bool_decide (is_Some _)) eqn:Ea; [done|].
  eapply runs_bind; [apply runs_assert|].
  { apply bool_decide_eq_false in Ea. by apply bool_decide_eq_true, eq_None_not_Some. }
  intros []; cbv beta. destruct (_ <=? n_completed _); [done|].
  destruct (dbus_connection_get_unix_user c) as [uid|]; [|by apply runs_ret].
  eapply (runs_bind _ _ _ (λ x s, x = default 0 (completed_by_user (t_clients t) !! uid)
    ∧ state [] r t s)); [apply clients_rule; by apply runs_ret|].
  intros x; cbv beta. intros s m [-> Hs] Hm. destruct (_ <=? default 0 _); [done|].
  by exists tt, s, m.
Qed.

Lemma ensure_unique_state r t n c :
  t_error t = None → r_hash r !! n = None → is_Some (r_base r !! c) →
  runs (state [] r t) (bus_registry_ensure n c 0)
    (λ _ b, ∃ r' t', state [] r' t' b
       ∧ moved n [claim_with c 0] [NameOwnerChanged n None (Some c); NameAcquired c n] r t r' t').
Proof.
  intros He Hn Hc b m Hb Hm. pose proof Hb as (_ & W & A).
  destruct (hoare_runs _ _ _ (λ _, True) (ensure_state r t n c 0 He Hn W A Hc (λ _, True)
    (λ _ _ _ _ _, I) (λ _ _ _ _ _ _ _ _ _ _, I)) b m Hb Hm)
    as (s & b' & m' & E & (o & Hs & Ho & Hb') & Hm').
  exists s, b', m'. split; [done|]. split; [|done].
  eexists _, _. split; [exact Hb'|]. by apply published_moved.
Qed.

Lemma hello_state r t c :
  t_error t = None → is_Some (r_base r !! c) → hello_refusal (t_clients t) c = None →
  sane_clients (t_clients t) → numbers_left (S (size (r_hash r))) (t_clients t) →
  runs (state [] r t) (bus_driver_handle_hello c) (λ _, greeted r t c).
Proof.
  intros He Hc Href Hsane Hleft. unfold bus_driver_handle_hello.
  apply error_clear_state; [done|]. apply active_rule.
  assert (conn_names (t_clients t) !! c = None) as Hk.
  { unfold hello_refusal in Href. destruct (bool_decide (is_Some _)) eqn:Ea; [done|].
    apply bool_decide_eq_false in Ea. by apply eq_None_not_Some. }
  rewrite bool_decide_eq_false_2 by (by apply eq_None_not_Some).
  eapply runs_bind; [by apply limits_state|]. intros []; cbv beta.
  eapply runs_bind; [by eapply hoare_runs, (oom_request_state r t)|]. intros []; cbv beta.
  eapply runs_bind; [by apply runs_on_failure, create_name_state|].
  intros name; cbv beta. intros b m (major & minor & -> & Hn & Hb) Hm. revert b m Hb Hm.
  set (name := unique_name major minor) in *. set (k1 := with_numbers _ _ _).
  eapply runs_bind; [by apply (complete_state r (put_clients t k1) c name)|]. intros []; cbv beta.
  cbn [t_clients put_clients]. set (k2 := registered c name k1).
  change (put_clients (put_clients t k1) k2) with (put_clients t k2). set (t2 := put_clients t k2).
  assert (conn_names (t_clients t2) !! c = Some name) as Hk2 by apply lookup_insert_eq.
  eapply runs_bind; [by eapply hoare_runs, (oom_request_state r t2)|]. intros []; cbv beta.
  eapply runs_bind; [by apply (welcome_state r t2 c name)|]. intros []; cbv beta.
  set (t3 := with_message t2 (Welcome c name)).
  eapply runs_bind; [by apply (ensure_unique_state r t3 name c)|].
  intros s; cbv beta. intros b m (r' & t' & Hb & Hm') Hm. revert b m Hb Hm.
  destruct Hm' as [M1 M2 M3 (M4 & M5 & M6 & M7 & M8)].
  apply active_rule. rewrite M8. cbn [t3 with_message t_clients]. rewrite Hk2.
  rewrite bool_decide_eq_true_2 by eauto. eapply runs_conseq; [by apply runs_assert|done|].
  intros a b Hb. exists major, minor, r', t'. split; [done|]. split; [done|].
  split; try done. split_and!; try done. rewrite M4.
  cbn [t3 t2 with_message put_clients t_messages t_delivered]. rewrite <- app_assoc. f_equal. symmetry.
  exact (List.filter_app (passes (t_delivered t)) [Welcome c name]
    [NameOwnerChanged name None (Some c); NameAcquired c name]).
Qed.

(** A request that is refused changes nothing but the error. *)
Lemma hello_refused c e b m :
  error b = None → hello_refusal (clients b) c = Some e →
  ∃ e' m', bus_driver_handle_hello c b m = Failed (with_error (Some e') b) m'
    ∧ (e' = e ∨ (e' = DBUS_ERROR_NO_MEMORY ∧ may_fail m)) ∧ (may_fail m' → may_fail m).
Proof.
  intros He. unfold hello_refusal, bus_driver_handle_hello, bus_connection_is_active,
    bus_connections_check_limits, get_connections_for_uid.
  cbv [_DBUS_ASSERT_ERROR_IS_CLEAR get_clients mbind M_bind gets assert_ checked id mret M_ret].
  rewrite He. simpl bool_decide. cbv iota.
  assert (∀ e, ∃ e' m', set_error e b m = Ok tt (with_error (Some e') b) m'
    ∧ (e' = e ∨ (e' = DBUS_ERROR_NO_MEMORY ∧ may_fail m)) ∧ (may_fail m' → may_fail m)) as Hset.
  { intros e1. unfold set_error. rewrite He. destruct (alloc m) as [ok m'] eqn:E. eexists _, m'.
    split; [done|]. split; [|by eapply alloc_mono].
    destruct ok; [by left|right]. split; [done|]. by eapply alloc_fail. }
  destruct (bool_decide (is_Some (conn_names (clients b) !! c))) eqn:Ea.
  { intros [= <-]. destruct (Hset DBUS_ERROR_FAILED) as (e' & m' & -> & Hx). by exists e', m'. }
  apply bool_decide_eq_false, eq_None_not_Some in Ea. rewrite bool_decide_eq_true_2 by done.
  destruct (Hset DBUS_ERROR_LIMITS_EXCEEDED) as (e' & m' & E & Hx).
  destruct (_ <=? n_completed (clients b)); [rewrite E; intros [= <-]; by exists e', m'|].
  destruct (dbus_connection_get_unix_user c) as [uid|]; [|done].
  unfold default, id; destruct (bus_context_get_max_connections_per_user <=? _); [rewrite E; intros [= <-]; by exists e', m'|done].
Qed.

End hello.
