(* ===== verification/Registry.v ===== *)
(** * Registry: theorems about the name registry

    What src/bus/services.c promises to the rest of the bus.  A request refines
    its specification of [Ownership], refused or not, with or without memory; a
    request dispatched by src/bus/dispatch.c is answered, and the states reached
    this way satisfy the invariant, among it the limit on the names of a
    connection.  Adding an owner is undone by cancelling the transaction;
    removing one is not, which is shown by two runs. *)

From stdpp Require Import gmap.
From S2P Require Import Prelude Search Names Types Services Ledger Ownership Hello.

(** The invariant of the registry. *)
Definition consistent (b : bus) : Prop := ∃ r t, state [] r t b.

(** What a request does, by its specification; of its messages, those that pass are
    in the transaction. *)
Definition effect `{BC : BusContext} (name : bytes) (spec : list claim * Z * list signal) (result : Z)
    (b b' : bus) : Prop :=
  let '(q, reply, xs) := spec in
  result = reply ∧ queue b' name = q ∧ (∀ name', name' ≠ name → queue b' name' = queue b name')
  ∧ messages b' = messages b ++ List.filter (passes (delivered b)) xs
  ∧ delivered b' = delivered b ∧ error b' = None.

Lemma moved_effect `{BC : BusContext} name q reply xs r t r' t' t2 b b' p p' :
  state p r t b → state p' r' t2 b' → error b = None → moved name q xs r t r' t' →
  t_messages t2 = t_messages t' → t_delivered t2 = t_delivered t' → t_error t2 = t_error t' →
  effect name (q, reply, xs) reply b b'.
Proof.
  intros Hb Hb' He [M1 M2 M3 (M4 & M5 & M6 & M7 & M8)] E1 E2 E3.
  pose proof (rep_tx _ _ _ _ (proj1 Hb)) as E. pose proof (rep_tx _ _ _ _ (proj1 Hb')) as E'.
  subst t t2. simpl in *. split; [done|]. split; [by rewrite (queue_rep _ _ _ _ _ Hb')|].
  split; [|split_and!; congruence]. intros name' Hn.
  by rewrite (queue_rep _ _ _ _ _ Hb'), (queue_rep _ _ _ _ _ Hb), M2.
Qed.

Lemma consistent_conn b r t c d p :
  state p r t b → connections b !! c = Some d →
  is_Some (r_base r !! c) ∧ n_services_owned d = Z.of_nat (length (owned r c)).
Proof.
  intros (Hb & _) Hd. pose proof (rep_conn _ _ _ _ Hb c) as Hc. unfold conn_ok in Hc.
  rewrite Hd in Hc. destruct (r_base r !! c); [|done]. split; [eauto|tauto].
Qed.

Lemma stopped_error b : stopped b → error b = Some DBUS_ERROR_NO_MEMORY.
Proof. intros (p & r & t & (Hb & _) & He). by rewrite (rep_tx _ _ _ _ Hb) in He. Qed.

(** *** The names of a connection *)

(** The names in whose queue a connection is. *)
Definition names_of (b : bus) (c : connection) : gset bytes :=
  filter (λ n, c ∈ map who (queue b n)) (dom (service_hash b)).

Section owned.
Context r t b (Hb : state [] r t b) (Hh : t_hooks t = []) (c : connection).

Lemma owner_linked o s cl :
  r_owner r !! o = Some (s, cl) →
  ∃ n l, r_service r !! s = Some (n, l) ∧ r_hash r !! n = Some s ∧ o ∈ l ∧ NoDup (map (conn_of r) l).
Proof.
  destruct Hb as (_ & W & A). intros Ho.
  pose proof (live_owner _ _ _ A _ _ _ Ho) as Hpos. rewrite Hh in Hpos.
  unfold owner_refs, links in Hpos. simpl in Hpos.
  destruct (r_service r !! s) as [[n l]|] eqn:Hs; simpl in Hpos; [|change (cnt [] o) with 0%nat in Hpos; lia].
  rewrite Nat.add_0_r in Hpos. apply cnt_pos in Hpos. exists n, l. split; [done|].
  destruct (wf_attached _ _ _ W _ _ _ Hs) as [?|?%not_elem_of_nil]; [by intros ->; apply not_elem_of_nil in Hpos| |done].
  split; [done|]. split; [done|]. by apply (wf_conns _ _ _ W _ _ _ Hs).
Qed.

Let name_at (x : owner_ptr * (service_ptr * claim)) : bytes :=
  from_option fst [] (r_service r !! fst (snd x)).
Let mine := filter (λ x : owner_ptr * (service_ptr * claim), who (snd (snd x)) = c)
  (map_to_list (r_owner r)).

Lemma mine_names_nodup : NoDup (name_at <$> mine).
Proof.
  apply NoDup_fmap_2_strong.
  - intros [o [s cl]] [o' [s' cl']] [Hc Hx%elem_of_map_to_list]%list_elem_of_filter
      [Hc' Hy%elem_of_map_to_list]%list_elem_of_filter E.
    destruct (owner_linked _ _ _ Hx) as (n & l & Hs & Hn & Hol & Hnd).
    destruct (owner_linked _ _ _ Hy) as (n' & l' & Hs' & Hn' & Hol' & _).
    unfold name_at in E. simpl in *. rewrite Hs, Hs' in E. simpl in E. subst n'.
    assert (s' = s) as -> by congruence. assert (l' = l) as -> by congruence.
    assert (o' = o) as ->; [|congruence].
    assert (conn_of r o = conn_of r o') as Eo.
    { rewrite (conn_of_owner _ _ _ _ Hx), (conn_of_owner _ _ _ _ Hy). congruence. }
    apply list_elem_of_lookup in Hol as [i Hi], Hol' as [j Hj].
    assert (i = j) as ->; [|congruence].
    eapply (NoDup_lookup (map (conn_of r) l)); [done|by rewrite list_lookup_fmap, Hi|].
    rewrite list_lookup_fmap, Hj. simpl. by rewrite Eo.
  - apply list.NoDup_filter, NoDup_map_to_list.
Qed.

Lemma mine_names n : n ∈ name_at <$> mine ↔ n ∈ names_of b c.
Proof.
  pose proof Hb as (Hr & W & _). unfold names_of. rewrite elem_of_filter, elem_of_dom.
  rewrite (rep_hash _ _ _ _ Hr), (queue_rep _ _ _ _ _ Hb). split.
  - intros ([o [s cl]] & -> & [Hc Hx%elem_of_map_to_list]%list_elem_of_filter)%list_elem_of_fmap.
    destruct (owner_linked _ _ _ Hx) as (n & l & Hs & Hn & Hol & _). unfold name_at. simpl in *.
    rewrite Hs. simpl. split; [|eauto]. unfold queue_in, links. rewrite Hn, Hs. simpl.
    apply list_elem_of_fmap. exists cl. split; [done|]. apply list_elem_of_fmap. exists o.
    split; [|done]. unfold claim_at. by rewrite Hx.
  - intros [Hq [s Hn]]. destruct (wf_hash _ _ _ W _ _ Hn) as (l & Hs & _).
    unfold queue_in, links in Hq. rewrite Hn, Hs in Hq. simpl in Hq.
    apply list_elem_of_fmap in Hq as (cl & -> & (o & -> & Hol)%list_elem_of_fmap).
    destruct (wf_links _ _ _ W _ _ _ _ Hs Hol) as [cl Ho]. apply list_elem_of_fmap.
    exists (o, (s, cl)). unfold name_at. simpl. rewrite Hs. split; [done|].
    apply list_elem_of_filter. split; [|by apply elem_of_map_to_list]. simpl.
    unfold claim_at. by rewrite Ho.
Qed.

Lemma owned_size : length (owned r c) = size (names_of b c).
Proof.
  replace (names_of b c) with (list_to_set (name_at <$> mine) : gset bytes).
  - rewrite size_list_to_set by apply mine_names_nodup. rewrite length_fmap.
    unfold owned, owned_in. by rewrite length_fmap.
  - apply set_eq. intros n. rewrite elem_of_list_to_set. apply mine_names.
Qed.

End owned.

(** *** Dispatching a request *)

(** A reference held across the dispatch counts as the bus's own. *)
Definition with_base (r : reg) (c : connection) (n : nat) : reg :=
  Reg (r_hash r) (r_service r) (r_owner r) (<[c := n]> (r_base r)).

Lemma with_base_state p r t c n b d (f : nat → nat) :
  state p r t b → (0 < n)%nat → connections b !! c = Some d →
  (f (conn_refcount d) = n + cnt (l_conn (ledger p r (t_hooks t))) c)%nat →
  state p (with_base r c n) t
    (with_connections <[c := ConnectionData (f (conn_refcount d)) (services_owned d)
       (n_services_owned d)]> b).
Proof.
  intros ([H1 H2 H3 H4 H5] & [W1 W2 W3 W4 W5 W6 W7] & [A1 A2]) Hpos Hd Hf.
  assert (∀ c', is_Some (r_base r !! c') → is_Some (r_base (with_base r c n) !! c')) as Hbase.
  { intros c' Hc'. simpl. destruct (decide (c' = c)) as [->|]; [rewrite lookup_insert_eq; eauto|].
    by rewrite lookup_insert_ne. }
  split; [|split]; [split; try done|split; try done|split; try done].
  - intros c'. specialize (H4 c'). unfold conn_ok in *. simpl.
    destruct (decide (c' = c)) as [->|]; [|by rewrite !lookup_insert_ne].
    rewrite !lookup_insert_eq. rewrite Hd in H4. destruct (r_base r !! c); [|done].
    simpl in *. split; [exact Hf|tauto].
  - intros o s cl Ho. destruct (W5 _ _ _ Ho). split; [done|]. by apply Hbase.
  - intros c' n'. simpl. destruct (decide (c' = c)) as [->|].
    + rewrite lookup_insert_eq. by intros [= <-].
    + rewrite lookup_insert_ne by done. apply W7.
Qed.

Lemma state_connection p r t b c n :
  state p r t b → r_base r !! c = Some n →
  ∃ d, connections b !! c = Some d
       ∧ conn_refcount d = (n + cnt (l_conn (ledger p r (t_hooks t))) c)%nat.
Proof.
  intros (Hb & _) Hn. pose proof (rep_conn _ _ _ _ Hb c) as Hc. unfold conn_ok in Hc.
  rewrite Hn in Hc. destruct (connections b !! c) as [d|]; [|done]. exists d. tauto.
Qed.

Lemma ref_state r t c n :
  r_base r !! c = Some n →
  runs (state [] r t) (dbus_connection_ref c) (λ _, state [] (with_base r c (S n)) t).
Proof.
  intros Hn b m Hb Hm. destruct (state_connection _ _ _ _ _ _ Hb Hn) as (d & Hd & Hr).
  cbv [dbus_connection_ref get_connection mbind M_bind gets checked id set_connection modify].
  rewrite Hd. eexists tt, _, m. split; [done|]. split; [|done].
  apply (with_base_state [] r t c (S n) b d (λ x, x + 1)%nat Hb); [lia|done|lia].
Qed.

Lemma unref_state r t c n :
  r_base r !! c = Some (S n) → (0 < n)%nat →
  runs (state [] r t) (dbus_connection_unref c) (λ _, state [] (with_base r c n) t).
Proof.
  intros Hn Hpos b m Hb Hm. destruct (state_connection _ _ _ _ _ _ Hb Hn) as (d & Hd & Hr).
  cbv [dbus_connection_unref get_connection mbind M_bind gets checked id set_connection modify
       assert_].
  rewrite Hd. rewrite (proj2 (Nat.ltb_lt _ _)) by lia. eexists tt, _, m. split; [done|].
  split; [|done].
  apply (with_base_state [] r t c n b d (λ x, x - 1)%nat Hb); [lia|done|lia].
Qed.

(** The transaction holds the outcome [q], [xs] of a request on [n]; the connections
    that have said Hello are [k]. *)
Definition pending r (t : tx) n (q : list claim) (xs : list signal) (k : BusConnections) (b : bus) :
    Prop :=
  ∃ r' t', state [] r' t' b ∧ queue_in r' n = q
    ∧ (∀ n', n' ≠ n → queue_in r' n' = queue_in r n') ∧ r_base r' = r_base r
    ∧ t_messages t' = t_messages t ++ xs ∧ t_delivered t' = t_delivered t ∧ t_error t' = None
    ∧ t_clients t' = k.

(** The outcome has been sent. *)
Definition served r (t : tx) n (q : list claim) (xs : list signal) (k : BusConnections) (b : bus) :
    Prop :=
  ∃ r' t', state [] r' t' b ∧ queue_in r' n = q
    ∧ (∀ n', n' ≠ n → queue_in r' n' = queue_in r n') ∧ r_base r' = r_base r
    ∧ t_hooks t' = [] ∧ t_messages t' = [] ∧ t_delivered t' = t_delivered t ++ xs
    ∧ t_error t' = None ∧ t_clients t' = k.

Section theorems.
Context `{BC : BusContext}.

Lemma reply_state r t c v :
  t_error t = None →
  runs (state [] r t) (reply_with c v) (λ _, state [] r (with_message t (MethodReturn c v))).
Proof.
  intros He. apply (hoare_runs _ _ _ (λ _, True)).
  do 2 (eapply hoare_bind; [by apply oom_request_state|]; intros []; cbv beta).
  eapply hoare_on_failure; [by apply from_driver_state|]. intros b m Hb.
  cbv [BUS_SET_OOM mbind M_bind gets id]. by destruct (error b).
Qed.

Lemma handle_acquire_state r t c n flags :
  t_error t = None → is_Some (r_base r !! c) →
  refusal c n (Z.of_nat (length (owned r c))) = None → strstr n (lit ".unique-") = None →
  runs (state [] r t) (bus_driver_handle_acquire_service c n flags)
    (λ _ b, let '(q, reply, xs) := acquire_spec n c flags (queue_in r n) in
       pending r t n q (List.filter (passes (t_delivered t)) (xs ++ [MethodReturn c reply]))
         (t_clients t) b).
Proof.
  intros He Hc Href Hu b m Hb Hm. unfold bus_driver_handle_acquire_service.
  assert (error b = None) as Heb by (rewrite (rep_tx _ _ _ _ (proj1 Hb)) in He; done).
  cbv [_DBUS_ASSERT_ERROR_IS_CLEAR mbind M_bind gets assert_ checked id]. rewrite Heb. simpl.
  unfold bus_registry_acquire_service, _dbus_get_base_service_name_and_pid. rewrite Hu.
  cbv [mbind M_bind mret M_ret]. change (0 =? 0) with true. cbv iota.
  destruct (hoare_runs _ _ _ _ (acquire_named_state r t c n flags He Hc Href) b m Hb Hm)
    as (v & b1 & m1 & -> & Ha & Hm1).
  destruct (acquire_spec n c flags (queue_in r n)) as [[q reply] xs].
  destruct Ha as [-> (r1 & t1 & Hb1 & [M1 M2 M3 (M4 & M5 & M6 & M7 & M8)])].
  destruct (reply_state r1 t1 c reply ltac:(congruence) b1 m1 Hb1 Hm1) as ([] & b2 & m2 & -> & Hb2 & ?).
  exists tt, b2, m2. split; [done|]. split; [|done]. eexists r1, _. split; [exact Hb2|].
  split_and!; try done; simpl; [by rewrite M4, M5, List.filter_app, app_assoc|congruence..].
Qed.

Lemma handle_release_state r t c n :
  t_error t = None → bad_name n = false →
  runs (state [] r t) (bus_driver_handle_release_service c n)
    (λ _ b, let '(q, reply, xs) := release_spec n c (queue_in r n) in
       pending r t n q (List.filter (passes (t_delivered t)) (xs ++ [MethodReturn c reply]))
         (t_clients t) b).
Proof.
  intros He Hn b m Hb Hm. unfold bus_driver_handle_release_service.
  assert (error b = None) as Heb by (rewrite (rep_tx _ _ _ _ (proj1 Hb)) in He; done).
  cbv [_DBUS_ASSERT_ERROR_IS_CLEAR mbind M_bind gets assert_ checked id]. rewrite Heb. simpl.
  destruct (hoare_runs _ _ _ _ (release_state r t c n He Hn) b m Hb Hm)
    as (v & b1 & m1 & -> & Ha & Hm1).
  destruct (release_spec n c (queue_in r n)) as [[q reply] xs].
  destruct Ha as [-> (r1 & t1 & Hb1 & [M1 M2 M3 (M4 & M5 & M6 & M7 & M8)])].
  destruct (reply_state r1 (without_pid t1 n) c reply ltac:(simpl; congruence) b1 m1 Hb1 Hm1)
    as ([] & b2 & m2 & -> & Hb2 & ?).
  exists tt, b2, m2. split; [done|]. split; [|done]. eexists r1, _. split; [exact Hb2|].
  split_and!; try done; simpl; [by rewrite M4, M5, List.filter_app, app_assoc|congruence..].
Qed.

(** The end of the dispatch. *)
Lemma finish_state c r t n q xs k :
  t_messages t = [] →
  runs (pending r t n q xs k) (finish_dispatch c) (λ _, served r t n q xs k).
Proof.
  intros Ht b m (r1 & t1 & Hb & Hq & Ho & Hbase & Em & Ed & Ee & Ek) Hm.
  assert (error b = None) as He by (rewrite (rep_tx _ _ _ _ (proj1 Hb)) in Ee; done).
  unfold finish_dispatch. cbv [mbind M_bind gets id mret M_ret]. rewrite He. cbv iota.
  destruct (hoare_runs _ _ _ _ (execute_state r1 t1 (λ _, False) False) b m Hb Hm)
    as ([] & b2 & m2 & -> & (r2 & Hb2 & Hq2 & Hbase2) & Hm2).
  exists tt, b2, m2. split; [done|]. split; [|done]. exists r2, (closed t1).
  split; [done|]. rewrite Hq2. split_and!; try done; simpl; try congruence.
  - intros n' Hn'. by rewrite Hq2, Ho.
  - by rewrite Ed, Em, Ht.
Qed.

Lemma unref_served r t c nb n q xs k :
  r_base r !! c = Some nb → (0 < nb)%nat →
  runs (served (with_base r c (S nb)) t n q xs k) (dbus_connection_unref c)
    (λ _, served r t n q xs k).
Proof.
  intros Hc Hpos. intros b m (r2 & t2 & Hb & Hq & Ho & Hbase & Hrest) Hm.
  destruct (unref_state r2 t2 c nb) with (s := b) (m := m) as (a & b' & m' & E & Hb' & Hm'); try done.
  { rewrite Hbase. simpl. by rewrite lookup_insert_eq. }
  exists a, b', m'. split; [done|]. split; [|done]. exists (with_base r2 c nb), t2.
  split; [done|]. split_and!; try done; [|tauto..]. simpl. rewrite Hbase. simpl.
  by rewrite insert_insert_eq, insert_id.
Qed.

(** The connection may send the message. *)
Definition admitted_sender (hello : bool) (c : connection) (k : BusConnections) : bool :=
  bool_decide (is_Some (conn_names k !! c)) || hello.

(** The start of the dispatch: the transaction and the sender field. *)
Lemma sender_state r t c (f : BM unit) Q :
  t_error t = None → runs (state [] r t) f Q →
  runs (state [] r t)
    (active ← bus_connection_is_active c; (if (active : bool) then or_oom request else mret tt);; f) Q.
Proof.
  intros He Hf. apply active_rule. eapply (runs_bind _ _ _ (λ _, state [] r t)).
  - destruct (bool_decide _); [|by apply runs_ret]. by eapply hoare_runs, oom_request_state.
  - intros []. exact Hf.
Qed.

(** The handler leaves one of the outcomes [P]. *)
Lemma dispatch_state hello c r t nb (P : bytes → list claim → list signal → BusConnections → Prop)
    (h : BM unit) :
  t_messages t = [] → t_error t = None → r_base r !! c = Some nb → (0 < nb)%nat →
  admitted_sender hello c (t_clients t) = true →
  runs (state [] (with_base r c (S nb)) t) h
    (λ _ b, ∃ n q xs k, P n q xs k ∧ pending (with_base r c (S nb)) t n q xs k b) →
  runs (state [] r t) (bus_dispatch hello c h)
    (λ _ b, ∃ n q xs k, P n q xs k ∧ served r t n q xs k b).
Proof.
  intros Ht He Hc Hpos Hs Hh. unfold bus_dispatch. set (r1 := with_base r c (S nb)) in *.
  eapply runs_bind; [by apply (ref_state r t c nb)|]. intros []; cbv beta. fold r1.
  eapply (runs_bind _ _ _ (λ _ b, ∃ n q xs k, P n q xs k ∧ pending r1 t n q xs k b)).
  { eapply runs_conseq; [apply runs_attempt|intros s Hx; exact Hx|intros a s [_ [x Hx]]; exact Hx].
    eapply runs_bind; [by eapply hoare_runs, (oom_request_state r1 t)|]. intros []; cbv beta.
    apply sender_state; [done|]. eapply (runs_bind _ _ _ (λ _, state [] r1 t)).
    { unfold check_registered. apply active_rule. unfold admitted_sender in Hs. rewrite Hs.
      by apply runs_ret. }
    intros []; cbv beta.
    eapply runs_bind; [exact Hh|]. intros []; cbv beta.
    intros b m (n & q & xs & k & HP & r2 & t2 & Hb & Hx & Hy & Hz & Hu & Hv & Hw & Hk) Hm.
    destruct (hoare_runs _ _ _ _ (oom_request_state r2 t2 False Hw) b m Hb Hm)
      as (a & b' & m' & E & Hb' & Hm').
    exists a, b', m'. split; [done|]. split; [|done]. exists n, q, xs, k. split; [done|]. by exists r2, t2. }
  intros _; cbv beta. intros b m (n & q & xs & k & HP & Hb) Hm.
  destruct (runs_bind _ _ _ _ _ (finish_state c r1 t n q xs k Ht)
    (λ _, unref_served r t c nb n q xs k Hc Hpos) b m Hb Hm) as (a & b' & m' & E & Hx & Hm').
  exists a, b', m'. split; [done|]. split; [|done]. by exists n, q, xs, k.
Qed.

(** One outcome. *)
Lemma dispatch_one hello c r t nb n q xs k (h : BM unit) :
  t_messages t = [] → t_error t = None → r_base r !! c = Some nb → (0 < nb)%nat →
  admitted_sender hello c (t_clients t) = true →
  runs (state [] (with_base r c (S nb)) t) h (λ _, pending (with_base r c (S nb)) t n q xs k) →
  runs (state [] r t) (bus_dispatch hello c h) (λ _, served r t n q xs k).
Proof.
  intros Ht He Hc Hpos Hs Hh. eapply runs_conseq; [|done|].
  - eapply (dispatch_state hello c r t nb (λ n' q' xs' k', n' = n ∧ q' = q ∧ xs' = xs ∧ k' = k));
      [done..|]. eapply runs_conseq; [exact Hh|done|]. intros a b Hb. by exists n, q, xs, k.
  - by intros a b (? & ? & ? & ? & (-> & -> & -> & ->) & Hb).
Qed.

(** An error of the request goes to the caller, and nothing changes. *)
Lemma with_error_state r t b e :
  state [] r t b →
  state [] r (Tx (t_pids t) (t_hooks t) (t_messages t) (t_delivered t) e (t_clients t)) (with_error e b).
Proof.
  intros ([H1 H2 H3 H4 H5] & W & A). split; [|done]. split; try done. by rewrite H5.
Qed.

(** What the caller is told of an error: the message for lack of memory is made in
    advance and does not pass the security check. *)
Definition error_answer (sent : list signal) (c : connection) (e : error_name) : list signal :=
  if decide (e = DBUS_ERROR_NO_MEMORY)
  then if dbus_connection_get_is_connected c then [ErrorReply c e] else []
  else List.filter (passes sent) [ErrorReply c e].

Lemma error_answer_gone sent c e :
  dbus_connection_get_is_connected c = false → error_answer sent c e = [].
Proof.
  intros Ec. unfold error_answer, passes. simpl. rewrite Ec, andb_false_r. by destruct (decide _).
Qed.

Lemma request_runs (b : bus) m :
  ¬ may_fail m → ∃ m', request b m = Ok tt b m' ∧ ¬ may_fail m'.
Proof.
  intros Hm. unfold request. destruct (alloc m) as [[] m'] eqn:E; [|by apply alloc_fail in E].
  exists m'. split; [done|]. intros ?. by eapply Hm, alloc_mono.
Qed.

Lemma error_reply_run c e b m :
  ¬ may_fail m →
  ∃ m', bus_transaction_send_error_reply c e b m
        = Ok tt (with_messages (λ l, l ++ List.filter (passes (delivered b)) [ErrorReply c e]) b) m'
    ∧ ¬ may_fail m'.
Proof.
  intros Hm. unfold bus_transaction_send_error_reply, bus_transaction_send_from_driver.
  destruct (request_runs b m Hm) as (m1 & E1 & Hm1), (request_runs b m1 Hm1) as (m2 & E2 & Hm2).
  assert (∀ m', ¬ may_fail m' → ∃ m'' : mem, Ok tt b m' = Ok tt (with_messages (λ l, l ++ []) b) m'' ∧ ¬ may_fail m'') as Hskip.
  { intros m' Hm'. exists m'. split; [|done]. destruct b. unfold with_messages. simpl. by rewrite app_nil_r. }
  cbv [mbind M_bind gets id mret M_ret]. rewrite E1, E2. unfold passes. simpl.
  destruct (driver_message_allowed (delivered b) c (ErrorReply c e)); simpl; [|by apply Hskip].
  unfold bus_transaction_send. destruct (dbus_connection_get_is_connected c); simpl; [|by apply Hskip].
  destruct (request_runs b m2 Hm2) as (m3 & E3 & Hm3).
  cbv [mbind M_bind add_message modify]. rewrite E3. by exists m3.
Qed.

Lemma refused_state c r t b m e n :
  t_messages t = [] → t_hooks t = [] → t_error t = None →
  state [] r t b → ¬ may_fail m →
  ∃ a b' m', finish_dispatch c (with_error (Some e) b) m = Ok a b' m'
    ∧ served r t n (queue_in r n) (error_answer (t_delivered t) c e) (t_clients t) b' ∧ ¬ may_fail m'.
Proof.
  intros Ht Hh He Hb Hm.
  pose proof (with_error_state r t b None Hb) as Hb0. rewrite <- He in Hb0.
  assert (Tx (t_pids t) (t_hooks t) (t_messages t) (t_delivered t) (t_error t) (t_clients t) = t) as Et
    by (by destruct t).
  rewrite Et in Hb0.
  pose proof (rep_tx _ _ _ _ (proj1 Hb)) as E. destruct b as [f1 f2 f3 f4 f5 f6 f7 f8 f9 f10].
  subst t. simpl in *. subst f6 f7 f9.
  assert (∀ xs, state [] r (Tx f2 [] [] (f8 ++ xs) None f10) (Bus f1 f2 f3 f4 f5 [] [] (f8 ++ xs) None f10))
    as Hdone.
  { intros xs. destruct Hb0 as ([H1 H2 H3 H4 H5] & W & A). split; [|done]. by split. }
  assert (∀ xs, served r (Tx f2 [] [] f8 None f10) n (queue_in r n) xs f10
    (Bus f1 f2 f3 f4 f5 [] [] (f8 ++ xs) None f10)) as Hserved.
  { intros xs. eexists r, _. split; [apply Hdone|]. done. }
  unfold finish_dispatch. cbv [mbind M_bind gets id mret M_ret modify].
  cbn [error with_error]. unfold report_error.
  destruct (dbus_connection_get_is_connected c) eqn:Ec; cbn [negb].
  - unfold error_answer. rewrite Ec. destruct (decide (e = DBUS_ERROR_NO_MEMORY)) as [->|Hne].
    + eexists tt, _, m. split; [reflexivity|]. split; [apply (Hserved [_])|done].
    + destruct (error_reply_run c e (Bus f1 f2 f3 f4 f5 [] [] f8 (Some e) f10) m Hm) as (m' & Er & Hm').
      cbv [attempt mbind M_bind]. unfold with_error. cbn [service_hash unique_pid_hash service_pool owner_pool
        connections cancel_hooks messages delivered clients]. rewrite Er. eexists tt, _, m'. split; [reflexivity|]. split; [apply Hserved|done].
  - rewrite error_answer_gone by done. eexists tt, _, m. split; [reflexivity|]. split; [apply (Hserved [])|done].
Qed.

End theorems.

Section theorems.
Context `{BC : BusContext}.

(** A request that is refused changes nothing but the error. *)
Lemma set_error_fail {A} e b m :
  error b = None →
  ∃ e' m', ((set_error e;; fail) : BM A) b m = Failed (with_error (Some e') b) m'
    ∧ (e' = e ∨ (e' = DBUS_ERROR_NO_MEMORY ∧ may_fail m)) ∧ (may_fail m' → may_fail m).
Proof.
  intros He. cbv [mbind M_bind set_error fail]. rewrite He.
  destruct (alloc m) as [ok m'] eqn:E. eexists _, m'. split; [done|].
  split; [|by eapply alloc_mono].
  destruct ok; [by left|right]. split; [done|]. by eapply alloc_fail.
Qed.

Lemma acquire_refused b m c name flags d e :
  error b = None → connections b !! c = Some d →
  refusal c name (n_services_owned d) = Some e →
  ∃ e' m', acquire_named c name flags b m = Failed (with_error (Some e') b) m'
    ∧ (e' = e ∨ (e' = DBUS_ERROR_NO_MEMORY ∧ may_fail m)) ∧ (may_fail m' → may_fail m).
Proof.
  intros He Hd. unfold refusal, bad_name, acquire_named.
  destruct (negb (_dbus_validate_bus_name name 0 (length name)));
    [intros [= <-]; by apply set_error_fail|].
  destruct (byte_at name 0 =b ":"); [intros [= <-]; by apply set_error_fail|].
  destruct (bool_decide (name = DBUS_SERVICE_DBUS)); [intros [= <-]; by apply set_error_fail|].
  cbn [orb]. destruct (bus_selinux_allows_acquire_service c name).
  - destruct (negb (bus_client_policy_check_can_own c name));
      [intros [= <-]; by apply set_error_fail|].
    destruct (bus_context_get_max_services_per_connection <=? _) eqn:Hmax; [|done].
    intros [= <-]. unfold bus_connection_get_n_services_owned.
    pose proof (set_error_fail (A := Z) DBUS_ERROR_LIMITS_EXCEEDED b m He) as Hs. revert Hs.
    cbv [get_connection mbind M_bind gets checked id mret M_ret]. rewrite Hd. by rewrite Hmax.
  - intros [= <-]. by apply set_error_fail.
  - intros [= <-]. cbv [mbind M_bind BUS_SET_OOM gets id fail modify]. rewrite He.
    eexists _, m. split; [done|]. split; [by left|done].
Qed.

Lemma release_refused b m c name :
  error b = None → bad_name name = true →
  ∃ e' m', bus_registry_release_service c name b m = Failed (with_error (Some e') b) m'
    ∧ (e' = DBUS_ERROR_INVALID_ARGS ∨ (e' = DBUS_ERROR_NO_MEMORY ∧ may_fail m))
    ∧ (may_fail m' → may_fail m).
Proof.
  intros He Hbad. unfold bad_name in Hbad. unfold bus_registry_release_service.
  destruct (negb (_dbus_validate_bus_name name 0 (length name))); [by apply set_error_fail|].
  destruct (byte_at name 0 =b ":"); [by apply set_error_fail|].
  destruct (bool_decide (name = DBUS_SERVICE_DBUS)); [by apply set_error_fail|done].
Qed.

Lemma plain_name name b m :
  strstr name (lit ".unique-") = None →
  _dbus_get_base_service_name_and_pid name b m = Ok (0, []) b m.
Proof. intros E. unfold _dbus_get_base_service_name_and_pid. by rewrite E. Qed.


(** C19: Releasing a name: in a consistent state, [release_spec] is what happens to the
    queue, the answer and the signals, the remembered process is forgotten, and
    the state stays consistent; the request fails only for a name that cannot be
    released or for lack of memory. *)
Theorem release_refines b m c name :
  consistent b → error b = None →
  match bus_registry_release_service c name b m with
  | Ok result b' _ =>
      bad_name name = false ∧ consistent b'
      ∧ effect name (release_spec name c (queue b name)) result b b'
      ∧ unique_pid_hash b' = delete name (unique_pid_hash b)
  | Failed b' _ =>
      if bad_name name
      then ∃ e', b' = with_error (Some e') b
                 ∧ (e' = DBUS_ERROR_INVALID_ARGS ∨ (e' = DBUS_ERROR_NO_MEMORY ∧ may_fail m))
      else error b' = Some DBUS_ERROR_NO_MEMORY ∧ may_fail m
  | Ub => False
  end.
Proof.
  intros (r & t & Hb) He. destruct (bad_name name) eqn:Hbad.
  - destruct (release_refused b m c name He Hbad) as (e' & m' & -> & Hx & _). eauto.
  - assert (t_error t = None) as Het by (by rewrite (rep_tx _ _ _ _ (proj1 Hb))).
    pose proof (release_state r t c name Het Hbad b m Hb) as Ha.
    destruct (bus_registry_release_service c name b m) as [res b' m'|b' m'|];
      [|destruct Ha as [Hst Hm]|done].
    + destruct Ha as [Ha _]. split; [done|]. rewrite (queue_rep _ _ _ _ _ Hb).
      destruct (release_spec name c (queue_in r name)) as [[q reply] xs].
      destruct Ha as [-> (r' & t' & Hb' & Hm)]. split; [by eexists r', _|].
      pose proof (rep_tx _ _ _ _ (proj1 Hb')) as E. split.
      * by apply (moved_effect name q reply xs r t r' t' (without_pid t' name) b b' [] []).
      * destruct (moved_tx _ _ _ _ _ _ _ Hm) as (_ & _ & Ep & _).
        unfold without_pid in E. injection E as <- _ _ _ _. rewrite Ep.
        by rewrite (rep_tx _ _ _ _ (proj1 Hb)).
    + split; [by apply stopped_error|tauto].
Qed.

(** Executing the transaction: the messages go out, the references of the hooks
    are dropped, and no queue changes. *)
Theorem execute_refines b m :
  consistent b →
  match bus_transaction_execute_and_free b m with
  | Ok _ b' _ =>
      consistent b' ∧ cancel_hooks b' = [] ∧ messages b' = []
      ∧ delivered b' = delivered b ++ messages b ∧ (∀ name, queue b' name = queue b name)
      ∧ error b' = error b
  | Failed _ _ => False
  | Ub => False
  end.
Proof.
  intros (r & t & Hb). pose proof (execute_state r t (λ _, False) False b m Hb) as Ha.
  destruct (bus_transaction_execute_and_free b m) as [a b' m'|b' m'|]; [|tauto|done].
  destruct Ha as [(r' & Hb' & Hq & _) _].
  pose proof (rep_tx _ _ _ _ (proj1 Hb)) as E. pose proof (rep_tx _ _ _ _ (proj1 Hb')) as E'.
  unfold closed in E'. rewrite E in E'. injection E' as E1 E2 E3 E4 E5. simpl in *.
  split; [by exists r', (closed t)|]. split_and!; try congruence.
  intros name. by rewrite (queue_rep _ _ _ _ _ Hb'), (queue_rep _ _ _ _ _ Hb), Hq.
Qed.

(** *** Requests from the bus's point of view *)

(** Between two messages. *)
Definition idle (b : bus) : Prop :=
  consistent b ∧ cancel_hooks b = [] ∧ messages b = [] ∧ error b = None.

(** The queue a request leaves and the messages it causes. *)
Definition acquire_outcome (sent : list signal) (c : connection) (name : bytes) (flags : Z)
    (owned : Z) (q : list claim) : list claim * list signal :=
  match refusal c name owned with
  | Some e => (q, error_answer sent c e)
  | None => let '(q', reply, xs) := acquire_spec name c flags q in
            (q', List.filter (passes sent) (xs ++ [MethodReturn c reply]))
  end.

Definition release_outcome (sent : list signal) (c : connection) (name : bytes) (q : list claim) :
    list claim * list signal :=
  if bad_name name then (q, error_answer sent c DBUS_ERROR_INVALID_ARGS)
  else
    let '(q', reply, xs) := release_spec name c q in
    (q', List.filter (passes sent) (xs ++ [MethodReturn c reply])).

(** The outcome took effect, the references to the connections are as before, and
    the connections that have said Hello are [k]. *)
Definition answered (b : bus) (name : bytes) (o : list claim * list signal) (k : BusConnections)
    (b' : bus) : Prop :=
  idle b' ∧ queue b' name = fst o ∧ (∀ name', name' ≠ name → queue b' name' = queue b name')
  ∧ delivered b' = delivered b ++ snd o
  ∧ conn_refcount <$> connections b' = conn_refcount <$> connections b
  ∧ clients b' = k.

Lemma refcounts r t b : state [] r t b → t_hooks t = [] → conn_refcount <$> connections b = r_base r.
Proof.
  intros (Hb & _) Hh. apply map_eq. intros c. rewrite lookup_fmap.
  pose proof (rep_conn _ _ _ _ Hb c) as Hc. unfold conn_ok in Hc. rewrite Hh in Hc. simpl in Hc.
  change (cnt [] c) with 0%nat in Hc. destruct (connections b !! c), (r_base r !! c); try done.
  simpl. f_equal. lia.
Qed.

Lemma idle_state b :
  idle b → ∃ r t, state [] r t b ∧ t_hooks t = [] ∧ t_messages t = [] ∧ t_error t = None.
Proof.
  intros ((r & t & Hb) & Hh & Hm & He). exists r, t. split; [done|].
  pose proof (rep_tx _ _ _ _ (proj1 Hb)) as ->. done.
Qed.

Lemma state_delivered r t b : state [] r t b → t_delivered t = delivered b.
Proof. intros Hb. by rewrite (rep_tx _ _ _ _ (proj1 Hb)). Qed.

Lemma state_clients r t b : state [] r t b → t_clients t = clients b.
Proof. intros Hb. by rewrite (rep_tx _ _ _ _ (proj1 Hb)). Qed.

Lemma served_answered r t b name q xs k b' :
  state [] r t b → t_hooks t = [] → served r t name q xs k b' → answered b name (q, xs) k b'.
Proof.
  intros Hb Hh (r' & t' & Hb' & Hq & Ho & Hbase & E1 & E2 & E3 & E4 & E5).
  pose proof (refcounts _ _ _ Hb Hh) as R. pose proof (refcounts _ _ _ Hb' E1) as R'.
  pose proof (rep_tx _ _ _ _ (proj1 Hb)) as E. pose proof (rep_tx _ _ _ _ (proj1 Hb')) as E'.
  split_and!.
  - split; [by exists r', t'|]. subst t'. done.
  - by rewrite (queue_rep _ _ _ _ _ Hb').
  - intros n' Hn'. by rewrite (queue_rep _ _ _ _ _ Hb'), (queue_rep _ _ _ _ _ Hb), Ho.
  - subst t t'. done.
  - congruence.
  - by rewrite <- (state_clients _ _ _ Hb').
Qed.

Lemma dispatch_refused hello c r t nb n e (h : BM unit) :
  t_messages t = [] → t_hooks t = [] → t_error t = None →
  r_base r !! c = Some nb → (0 < nb)%nat →
  (∀ b m, state [] (with_base r c (S nb)) t b → ¬ may_fail m →
     ∃ m', (check_registered hello c;; h) b m = Failed (with_error (Some e) b) m' ∧ ¬ may_fail m') →
  runs (state [] r t) (bus_dispatch hello c h)
    (λ _, served r t n (queue_in r n) (error_answer (t_delivered t) c e) (t_clients t)).
Proof.
  intros Ht Hk He Hc Hpos Hh. unfold bus_dispatch. set (r1 := with_base r c (S nb)) in *.
  eapply runs_bind; [by apply (ref_state r t c nb)|]. intros []; cbv beta. fold r1.
  eapply (runs_bind _ _ _ (λ _ b, ∃ b0, b = with_error (Some e) b0 ∧ state [] r1 t b0)).
  { eapply runs_conseq; [apply refuses_attempt|intros s Hs; exact Hs|intros a s [_ Hx]; exact Hx].
    eapply refuses_after; [by eapply hoare_runs, (oom_request_state r1 t)|]; intros []; cbv beta.
    eapply refuses_after; [apply (active_rule r1 t c mret (λ _, state [] r1 t)); by apply runs_ret|].
    intros active; cbv beta. eapply (refuses_after _ _ _ (λ _, state [] r1 t)).
    { destruct active; [by eapply hoare_runs, oom_request_state|by apply runs_ret]. }
    intros []; cbv beta. intros b m Hb Hm. destruct (Hh b m Hb Hm) as (m' & E & ?).
    exists (with_error (Some e) b), m'. split; [|split; [by exists b|done]].
    revert E. unfold mbind, M_bind. by destruct (check_registered hello c b m) as [[] b1 m1| |];
      [intros ->| |]. }
  intros _; cbv beta.
  eapply (runs_bind _ _ _ (λ _, served r1 t n (queue_in r n) (error_answer (t_delivered t) c e)
    (t_clients t))).
  { intros b m (b0 & -> & Hb0) Hm. by apply (refused_state c r1 t b0 m e n). }
  intros []; cbv beta. by apply unref_served.
Qed.

(** A connection that has said Hello passes the check. *)
Lemma registered_check hello c (h : BM unit) b m :
  admitted_sender hello c (clients b) = true → (check_registered hello c;; h) b m = h b m.
Proof.
  intros Hs. unfold admitted_sender in Hs.
  cbv [check_registered bus_connection_is_active get_clients mbind M_bind gets mret M_ret].
  by rewrite Hs.
Qed.

(** A request that fails with an error, with memory, dispatched by an idle bus. *)
Lemma dispatch_error b m hello c d n e (h : BM unit) :
  idle b → ¬ may_fail m → connections b !! c = Some d →
  (∀ b1 m1 d1, error b1 = None → ¬ may_fail m1 → clients b1 = clients b →
     connections b1 !! c = Some d1 → n_services_owned d1 = n_services_owned d →
     ∃ m', (check_registered hello c;; h) b1 m1 = Failed (with_error (Some e) b1) m' ∧ ¬ may_fail m') →
  ∃ b' m', bus_dispatch hello c h b m = Ok tt b' m'
    ∧ answered b n (queue b n, error_answer (delivered b) c e) (clients b) b'.
Proof.
  intros (r & t & Hb & Hh & Ht & He)%idle_state Hm Hd Hfail.
  destruct (consistent_conn _ _ _ _ _ _ Hb Hd) as [[nb Hnb] En].
  pose proof (wf_base _ _ _ (proj1 (proj2 Hb)) _ _ Hnb) as Hpos.
  rewrite (queue_rep _ _ _ _ _ Hb), <- (state_delivered _ _ _ Hb), <- (state_clients _ _ _ Hb).
  destruct (dispatch_refused hello c r t nb n e h Ht Hh He Hnb Hpos)
    with (s := b) (m := m) as ([] & b' & m' & E & Hs & _); [|done|done|].
  - intros b1 m1 Hb1 Hm1. pose proof (rep_tx _ _ _ _ (proj1 Hb1)) as Et. rewrite Et in He.
    destruct (state_connection _ _ _ _ c (S nb) Hb1) as (d1 & Hd1 & _);
      [simpl; by rewrite lookup_insert_eq|].
    destruct (consistent_conn _ _ _ _ _ _ Hb1 Hd1) as [_ En1].
    change (owned (with_base r c (S nb)) c) with (owned r c) in En1.
    apply (Hfail b1 m1 d1); [done|done| |done|congruence].
    by rewrite <- (state_clients _ _ _ Hb), Et.
  - exists b', m'. split; [done|]. by apply (served_answered r t).
Qed.

(** A connection that has not said Hello is refused. *)
Lemma dispatch_unregistered b m c d n (h : BM unit) :
  idle b → ¬ may_fail m → connections b !! c = Some d →
  admitted_sender false c (clients b) = false →
  ∃ b' m', bus_dispatch false c h b m = Ok tt b' m'
    ∧ answered b n (queue b n, error_answer (delivered b) c DBUS_ERROR_ACCESS_DENIED) (clients b) b'.
Proof.
  intros Hb Hm Hd Hs. eapply dispatch_error; [done..|]. intros b1 m1 d1 He1 Hm1 Ek _ _.
  unfold admitted_sender in Hs. unfold check_registered, bus_connection_is_active.
  cbv [get_clients gets mret M_ret mbind M_bind]. rewrite Ek, Hs.
  destruct (set_error_fail (A := unit) DBUS_ERROR_ACCESS_DENIED b1 m1 He1) as (e' & m' & E & Hx & Hm').
  unfold mbind, M_bind in E. rewrite E. exists m'. split; [|tauto].
  by destruct Hx as [->|[_ ?]].
Qed.

(** A request for a name, dispatched by an idle bus with memory, is answered: the
    caller gets the reply of [acquire_spec] behind the signals it causes, or the
    error that [refusal] gives; queues change accordingly, the bus is idle again
    and holds the same references. *)
Lemma dispatch_acquire b m c d name flags :
  idle b → ¬ may_fail m → connections b !! c = Some d → strstr name (lit ".unique-") = None →
  admitted_sender false c (clients b) = true →
  ∃ b' m', bus_dispatch false c (bus_driver_handle_acquire_service c name flags) b m
           = Ok tt b' m'
    ∧ answered b name
        (acquire_outcome (delivered b) c name flags (n_services_owned d) (queue b name)) (clients b) b'.
Proof.
  intros Hidle Hm Hd Hu Hs. unfold acquire_outcome.
  destruct (refusal c name (n_services_owned d)) as [e|] eqn:Href.
  - eapply dispatch_error; [done..|]. intros b1 m1 d1 He1 Hm1 Ek Hd1 En1.
    rewrite registered_check by (by rewrite Ek). rewrite <- En1 in Href.
    destruct (acquire_refused b1 m1 c name flags d1 e He1 Hd1 Href) as (e' & m' & E & Hx & Hm').
    unfold bus_driver_handle_acquire_service, bus_registry_acquire_service.
    cbv [_DBUS_ASSERT_ERROR_IS_CLEAR mbind M_bind gets assert_ checked id]. rewrite He1. simpl.
    rewrite plain_name by done. change (0 =? 0) with true. cbv iota. rewrite E.
    exists m'. split; [|tauto]. by destruct Hx as [->|[_ ?]].
  - apply idle_state in Hidle as (r & t & Hb & Hh & Ht & He).
    destruct (consistent_conn _ _ _ _ _ _ Hb Hd) as [[nb Hnb] En].
    pose proof (wf_base _ _ _ (proj1 (proj2 Hb)) _ _ Hnb) as Hpos.
    rewrite (queue_rep _ _ _ _ _ Hb), <- (state_delivered _ _ _ Hb), <- (state_clients _ _ _ Hb).
    rewrite <- (state_clients _ _ _ Hb) in Hs.
    rewrite En in Href. pose proof (handle_acquire_state (with_base r c (S nb)) t c name flags He) as Hr.
    change (owned (with_base r c (S nb)) c) with (owned r c) in Hr.
    change (queue_in (with_base r c (S nb)) name) with (queue_in r name) in Hr.
    destruct (acquire_spec name c flags (queue_in r name)) as [[q reply] xs].
    destruct (dispatch_one false c r t nb name q _ _
      (bus_driver_handle_acquire_service c name flags) Ht He Hnb Hpos Hs (Hr ltac:(simpl;
        rewrite lookup_insert_eq; eauto) Href Hu) b m Hb Hm) as ([] & b' & m' & E & Hx & _).
    exists b', m'. split; [done|]. by apply (served_answered r t).
Qed.

(** The same for giving a name back. *)
Lemma dispatch_release b m c d name :
  idle b → ¬ may_fail m → connections b !! c = Some d →
  admitted_sender false c (clients b) = true →
  ∃ b' m', bus_dispatch false c (bus_driver_handle_release_service c name) b m = Ok tt b' m'
    ∧ answered b name (release_outcome (delivered b) c name (queue b name)) (clients b) b'.
Proof.
  intros Hidle Hm Hd Hs. unfold release_outcome. destruct (bad_name name) eqn:Hbad.
  - eapply dispatch_error; [done..|]. intros b1 m1 d1 He1 Hm1 Ek Hd1 En1.
    rewrite registered_check by (by rewrite Ek).
    destruct (release_refused b1 m1 c name He1 Hbad) as (e' & m' & E & Hx & Hm').
    unfold bus_driver_handle_release_service.
    cbv [_DBUS_ASSERT_ERROR_IS_CLEAR mbind M_bind gets assert_ checked id]. rewrite He1. simpl.
    rewrite E. exists m'. split; [|tauto]. by destruct Hx as [->|[_ ?]].
  - apply idle_state in Hidle as (r & t & Hb & Hh & Ht & He).
    destruct (consistent_conn _ _ _ _ _ _ Hb Hd) as [[nb Hnb] En].
    pose proof (wf_base _ _ _ (proj1 (proj2 Hb)) _ _ Hnb) as Hpos.
    rewrite (queue_rep _ _ _ _ _ Hb), <- (state_delivered _ _ _ Hb), <- (state_clients _ _ _ Hb).
    rewrite <- (state_clients _ _ _ Hb) in Hs.
    pose proof (handle_release_state (with_base r c (S nb)) t c name He Hbad) as Hr.
    change (queue_in (with_base r c (S nb)) name) with (queue_in r name) in Hr.
    destruct (release_spec name c (queue_in r name)) as [[q reply] xs].
    destruct (dispatch_one false c r t nb name q _ _
      (bus_driver_handle_release_service c name) Ht He Hnb Hpos Hs Hr b m Hb Hm)
      as ([] & b' & m' & E & Hx & _).
    exists b', m'. split; [done|]. by apply (served_answered r t).
Qed.

(** The new name and what Hello leaves. *)
Definition hello_answered (b : bus) (c : connection) (b' : bus) : Prop :=
  ∃ major minor, let name := unique_name major minor in
    service_hash b !! name = None
    ∧ answered b name ([claim_with c 0], List.filter (passes (delivered b)) (hello_signals c name))
        (registered c name (with_numbers major (minor + 1) (clients b))) b'.

(** Hello is answered, as long as there are numbers for names. *)
Lemma dispatch_hello b m c d :
  idle b → ¬ may_fail m → connections b !! c = Some d → sane_clients (clients b) →
  numbers_left (S (size (service_hash b))) (clients b) →
  ∃ b' m', bus_dispatch true c (bus_driver_handle_hello c) b m = Ok tt b' m'
    ∧ match hello_refusal (clients b) c with
      | Some e => ∀ n, answered b n (queue b n, error_answer (delivered b) c e) (clients b) b'
      | None => hello_answered b c b'
      end.
Proof.
  intros Hidle Hm Hd Hsane Hleft.
  assert (∀ k, admitted_sender true c k = true) as Hs by (intros; apply orb_true_r).
  destruct (hello_refusal (clients b) c) as [e|] eqn:Href.
  - assert (∀ n, ∃ b' m', bus_dispatch true c (bus_driver_handle_hello c) b m = Ok tt b' m'
      ∧ answered b n (queue b n, error_answer (delivered b) c e) (clients b) b') as Hn.
    { intros n. eapply dispatch_error; [done..|]. intros b1 m1 d1 He1 Hm1 Ek _ _.
      rewrite registered_check by apply Hs. rewrite <- Ek in Href.
      destruct (hello_refused c e b1 m1 He1 Href) as (e' & m' & -> & Hx & Hm').
      exists m'. split; [|tauto]. by destruct Hx as [->|[_ ?]]. }
    destruct (Hn []) as (b' & m' & E & _). exists b', m'. split; [done|]. intros n.
    destruct (Hn n) as (b2 & m2 & E2 & Ha). rewrite E in E2. by injection E2 as <- <-.
  - apply idle_state in Hidle as (r & t & Hb & Hh & Ht & He).
    destruct (consistent_conn _ _ _ _ _ _ Hb Hd) as [[nb Hnb] En].
    pose proof (wf_base _ _ _ (proj1 (proj2 Hb)) _ _ Hnb) as Hpos.
    unfold hello_answered. rewrite <- (state_delivered _ _ _ Hb).
    rewrite (rep_hash _ _ _ _ (proj1 Hb)) in *. rewrite <- (state_clients _ _ _ Hb) in *.
    destruct (dispatch_state true c r t nb (λ n q xs k, ∃ major minor,
        n = unique_name major minor ∧ r_hash r !! n = None ∧ q = [claim_with c 0]
        ∧ xs = List.filter (passes (t_delivered t)) (hello_signals c n)
        ∧ k = registered c n (with_numbers major (minor + 1) (t_clients t)))
      (bus_driver_handle_hello c) Ht He Hnb Hpos (Hs _)) with (s := b) (m := m)
      as ([] & b' & m' & E & (n & q & xs & k & (major & minor & -> & Hn & -> & -> & ->) & Hx) & _);
      [|done|done|].
    + eapply runs_conseq; [by apply (hello_state (with_base r c (S nb)) t c He);
        [simpl; rewrite lookup_insert_eq; eauto|..]|done|].
      intros a b1 (major & minor & r' & t' & Hn & Hb1 & [M1 M2 M3 (M4 & M5 & M6 & M7 & M8)]).
      eexists _, _, _, _. split; [by exists major, minor|]. exists r', t'. split_and!; try done.
      by rewrite M7.
    + exists b', m'. split; [done|]. exists major, minor. split; [done|]. by apply (served_answered r t).
Qed.

(** The requests of the driver about names. *)
Inductive name_request :=
| RequestName (name : bytes) (flags : Z)
| ReleaseName (name : bytes).

Inductive driver_call :=
| Hello
| Ask (x : name_request).

Definition requested (x : name_request) : bytes :=
  match x with RequestName name _ | ReleaseName name => name end.

Definition handle (c : connection) (x : driver_call) : BM unit :=
  match x with
  | Hello => bus_driver_handle_hello c
  | Ask (RequestName name flags) => bus_driver_handle_acquire_service c name flags
  | Ask (ReleaseName name) => bus_driver_handle_release_service c name
  end.

Definition is_hello (x : driver_call) : bool := match x with Hello => true | Ask _ => false end.

(** Names without a process id; numbers for a unique name. *)
Definition plain (x : name_request) : Prop :=
  match x with RequestName name _ => strstr name (lit ".unique-") = None | _ => True end.

Definition servable (b : bus) (x : driver_call) : Prop :=
  match x with
  | Hello => numbers_left (S (size (service_hash b))) (clients b)
  | Ask x => plain x
  end.

(** The queue a request leaves and the messages that are delivered. *)
Definition outcome_of (sent : list signal) (k : BusConnections) (c : connection)
    (x : name_request) (owned : Z) (q : list claim) : list claim * list signal :=
  if admitted_sender false c k then
    match x with
    | RequestName name flags => acquire_outcome sent c name flags owned q
    | ReleaseName name => release_outcome sent c name q
    end
  else (q, error_answer sent c DBUS_ERROR_ACCESS_DENIED).

Definition replied (b : bus) (c : connection) (owned : Z) (x : driver_call) (b' : bus) : Prop :=
  match x with
  | Hello =>
      match hello_refusal (clients b) c with
      | Some e => ∀ n, answered b n (queue b n, error_answer (delivered b) c e) (clients b) b'
      | None => hello_answered b c b'
      end
  | Ask x =>
      answered b (requested x)
        (outcome_of (delivered b) (clients b) c x owned (queue b (requested x))) (clients b) b'
  end.

Lemma dispatch_replied b m c d x :
  idle b → sane_clients (clients b) → ¬ may_fail m → connections b !! c = Some d → servable b x →
  ∃ b' m', bus_dispatch (is_hello x) c (handle c x) b m = Ok tt b' m'
    ∧ replied b c (n_services_owned d) x b'.
Proof.
  intros Hb Hk Hm Hd Hx. destruct x as [|x]; [by apply (dispatch_hello b m c d)|].
  unfold replied, outcome_of.
  destruct (admitted_sender false c (clients b)) eqn:Hs; [|by apply (dispatch_unregistered b m c d)].
  destruct x; [by apply dispatch_acquire|by apply (dispatch_release _ _ _ d)].
Qed.


(** *** Reachable states *)

(** One message from a connection, handled with memory. *)
Inductive step : bus → bus → Prop :=
| step_request b m c d x b' m' :
    ¬ may_fail m → connections b !! c = Some d → servable b x →
    bus_dispatch (is_hello x) c (handle c x) b m = Ok tt b' m' → step b b'.

(** The bus with its connections, before anyone has said Hello. *)
Definition start (cs : gset connection) : bus :=
  Bus ∅ ∅ ∅ ∅ (gset_to_gmap (ConnectionData 1 [] 0) cs) [] [] [] None (Connections ∅ 0 ∅ 0 0).

Lemma start_idle cs : idle (start cs).
Proof.
  split; [|done]. exists (Reg ∅ ∅ ∅ (gset_to_gmap 1%nat cs)), (Tx ∅ [] [] [] None (Connections ∅ 0 ∅ 0 0)).
  assert (∀ X (n : bytes) (s : X), (∅ : gmap bytes X) !! n = Some s → False) as Hempty
    by (intros X n s E; by rewrite lookup_empty in E).
  assert (∀ X (n : nat) (s : X), (∅ : gmap nat X) !! n = Some s → False) as Hempty'
    by (intros X n s E; by rewrite lookup_empty in E).
  split; [|split].
  - split; try done. intros c. unfold conn_ok. simpl. rewrite !lookup_gset_to_gmap.
    destruct (decide (c ∈ cs)); [rewrite !option_guard_True by done|rewrite !option_guard_False by done];
      done.
  - split; simpl; try (intros *; intros E; exfalso; by eauto).
    + by intros h ?%not_elem_of_nil.
    + intros c n. rewrite lookup_gset_to_gmap_Some. intros [_ <-]. lia.
  - split; simpl; intros *; intros E; exfalso; by eauto.
Qed.

Lemma elem_names_of b c n : n ∈ names_of b c ↔ c ∈ map who (queue b n).
Proof.
  unfold names_of. rewrite elem_of_filter, elem_of_dom. split; [tauto|]. intros Hq.
  split; [done|]. unfold queue in Hq. destruct (service_hash b !! n); [eauto|].
  by apply not_elem_of_nil in Hq.
Qed.

Lemma others_who x c q : x ∈ map who (others c q) → x ∈ map who q.
Proof.
  intros (y & -> & [_ Hy]%list_elem_of_filter)%list_elem_of_fmap. by apply list_elem_of_fmap_2.
Qed.

Lemma enqueue_who x c flags q : x ∈ map who (enqueue c flags q) → x = c ∨ x ∈ map who q.
Proof.
  unfold enqueue. destruct (flag _ _); [|destruct (bool_decide _)].
  - simpl. rewrite elem_of_cons. intros [?|?%others_who]; auto.
  - rewrite map_map. intros (y & -> & Hy)%list_elem_of_fmap.
    destruct (decide (who y = c)); [by left|]. right. by apply list_elem_of_fmap_2.
  - rewrite map_app, elem_of_app. simpl. rewrite list_elem_of_singleton. tauto.
Qed.

(** Only the caller can enter a queue. *)
Lemma acquire_who name c flags q y :
  y ∈ map who (fst (fst (acquire_spec name c flags q))) → y = c ∨ y ∈ map who q.
Proof.
  unfold acquire_spec. destruct q as [|p rest]; simpl; [rewrite list_elem_of_singleton; auto|].
  rewrite elem_of_cons.
  destruct (decide (who p = c)); [|destruct (_ && may_replace p); [destruct (no_queue p)|
    destruct (flag _ _)]]; simpl; rewrite ?elem_of_cons; intros Hy; destruct_or? Hy; auto.
  - apply others_who in Hy. auto.
  - apply others_who in Hy. auto.
  - apply others_who in Hy. auto.
  - apply enqueue_who in Hy as [?|?]; auto.
Qed.

Lemma release_who name c q y : y ∈ map who (fst (fst (release_spec name c q))) → y ∈ map who q.
Proof.
  unfold release_spec. destruct q as [|p rest]; simpl; [done|]. rewrite elem_of_cons.
  destruct (decide _); [|destruct (bool_decide _)]; simpl; rewrite ?elem_of_cons; auto.
  intros [?|?%others_who]; auto.
Qed.

(** The checks a connection has passed before it enters a queue. *)
Definition may_own (c : connection) (name : bytes) : Prop :=
  bad_name name = false ∧ bus_selinux_allows_acquire_service c name = SELinuxAllowed
  ∧ bus_client_policy_check_can_own c name = true.

Lemma not_refused c name owned :
  refusal c name owned = None →
  owned < bus_context_get_max_services_per_connection ∧ may_own c name.
Proof.
  unfold refusal, may_own.
  destruct (bad_name name), (bus_selinux_allows_acquire_service c name); try done.
  destruct (bus_client_policy_check_can_own c name); [|done]. simpl.
  destruct (_ <=? owned) eqn:E; [done|]. split; [lia|done].
Qed.

Lemma outcome_who sent k c x owned q y :
  y ∈ map who (fst (outcome_of sent k c x owned q)) →
  y ∈ map who q ∨ (y = c ∧ owned < bus_context_get_max_services_per_connection
                   ∧ may_own c (requested x) ∧ is_Some (conn_names k !! c)).
Proof.
  unfold outcome_of, admitted_sender. rewrite orb_false_r.
  destruct (bool_decide _) eqn:Ek; [apply bool_decide_eq_true in Ek|by left].
  destruct x as [name flags|name]; simpl.
  - unfold acquire_outcome. destruct (refusal c name owned) as [e|] eqn:Href; [by left|].
    apply not_refused in Href as [Hmax Hown].
    pose proof (acquire_who name c flags q y) as Hw.
    destruct (acquire_spec name c flags q) as [[q' reply] xs]. naive_solver.
  - unfold release_outcome. destruct (bad_name name); [by left|].
    pose proof (release_who name c q y) as Hw.
    destruct (release_spec name c q) as [[q' reply] xs]. naive_solver.
Qed.

(** Names that cannot be requested keep their queue. *)
Lemma outcome_bad sent k c x owned q :
  bad_name (requested x) = true → fst (outcome_of sent k c x owned q) = q.
Proof.
  intros Hbad. unfold outcome_of. destruct (admitted_sender _ _ _); [|done].
  destruct x; simpl in *; [unfold acquire_outcome, refusal|unfold release_outcome]; by rewrite Hbad.
Qed.

Lemma unique_name_bad major minor : bad_name (unique_name major minor) = true.
Proof. unfold bad_name. rewrite orb_true_iff, orb_true_iff. left. by right. Qed.

(** The number that is checked against the limit. *)
Lemma idle_owned b c d :
  idle b → connections b !! c = Some d → n_services_owned d = Z.of_nat (size (names_of b c)).
Proof.
  intros (r & t & Hb & Hh & _)%idle_state Hd.
  destruct (consistent_conn _ _ _ _ _ _ Hb Hd) as [_ ->]. by rewrite (owned_size r t b).
Qed.

(** The unique name of a connection. *)
Definition name_of (b : bus) (c : connection) : option bytes := conn_names (clients b) !! c.

(** The invariant of the states between two messages. *)
Record good (b : bus) : Prop := {
  good_idle : idle b;
  good_clients : sane_clients (clients b);
  good_limit c : is_Some (connections b !! c) →
    Z.of_nat (size (names_of b c)) <= Z.max 1 bus_context_get_max_services_per_connection;
  good_owner c n : c ∈ map who (queue b n) → may_own c n ∨ name_of b c = Some n;
  good_silent c n : name_of b c = None → c ∉ map who (queue b n);
  good_unique c n : name_of b c = Some n →
    queue b n = [Claim c false false] ∧ bad_name n = true
}.

Lemma same_connections b b' c :
  conn_refcount <$> connections b' = conn_refcount <$> connections b →
  is_Some (connections b' !! c) → is_Some (connections b !! c).
Proof.
  intros Hc Hc'. apply (f_equal (.!! c)) in Hc. rewrite !lookup_fmap in Hc.
  destruct Hc' as [d' E]. rewrite E in Hc. by destruct (connections b !! c).
Qed.

Lemma names_one_more b b' c n :
  (∀ n', n' ≠ n → queue b' n' = queue b n') → (size (names_of b' c) ≤ S (size (names_of b c)))%nat.
Proof.
  intros Ho. assert (names_of b' c ⊆ {[n]} ∪ names_of b c) as Hsub.
  { intros n'. rewrite elem_of_union, elem_of_singleton, !elem_names_of.
    destruct (decide (n' = n)); [by left|]. rewrite Ho by done. by right. }
  apply subseteq_size in Hsub. rewrite size_union_alt, size_singleton in Hsub.
  assert (size (names_of b c ∖ {[n]}) ≤ size (names_of b c))%nat by (apply subseteq_size; set_solver).
  lia.
Qed.

(** A request that is not Hello keeps the invariant. *)
Lemma ask_good b c d x b' :
  good b → connections b !! c = Some d →
  answered b (requested x)
    (outcome_of (delivered b) (clients b) c x (n_services_owned d) (queue b (requested x)))
    (clients b) b' →
  good b'.
Proof.
  intros [Hb Hk Hl Ha Hs Hu] Hd (Hidle & Hq & Ho & _ & Hc & Ek).
  assert (∀ y n, y ∈ map who (queue b' n) → y ∈ map who (queue b n)
    ∨ (y = c ∧ n = requested x ∧ n_services_owned d < bus_context_get_max_services_per_connection
       ∧ may_own c n ∧ is_Some (name_of b c))) as Hwho.
  { intros y n. destruct (decide (n = requested x)) as [->|]; [|rewrite Ho by done; auto].
    rewrite Hq. intros [?|(-> & ? & ? & ?)]%outcome_who; [by left|by right]. }
  unfold name_of in *. split; unfold name_of; rewrite ?Ek; try done.
  - intros c' Hc'%(same_connections b b'); [|done]. specialize (Hl c' Hc').
    destruct (decide (c' = c ∧ n_services_owned d < bus_context_get_max_services_per_connection))
      as [[-> Hmax]|Hno].
    + pose proof (names_one_more b b' c (requested x) Ho).
      rewrite (idle_owned b c d Hb Hd) in Hmax. lia.
    + assert (names_of b' c' ⊆ names_of b c') as Hsub; [|apply subseteq_size in Hsub; lia].
      intros n. rewrite !elem_names_of. intros [?|(-> & _ & ? & _)]%Hwho; [done|tauto].
  - intros c' n [?|(-> & -> & _ & ? & _)]%Hwho; [by apply Ha|by left].
  - intros c' n Hn [?|(-> & _ & _ & _ & [? E])]%Hwho; [by eapply Hs|congruence].
  - intros c' n Hn. destruct (Hu c' n Hn) as [Hqn Hbad]. split; [|done].
    destruct (decide (n = requested x)) as [->|]; [|by rewrite Ho].
    by rewrite Hq, outcome_bad.
Qed.

(** A request that is refused changes no queue. *)
Lemma refused_good b c e b' :
  good b →
  (∀ n, answered b n (queue b n, error_answer (delivered b) c e) (clients b) b') → good b'.
Proof.
  intros [Hb Hk Hl Ha Hs Hu] Hans. destruct (Hans []) as (Hidle & _ & _ & _ & Hc & Ek).
  assert (∀ n, queue b' n = queue b n) as Hq by (intros n; by destruct (Hans n) as (_ & -> & _)).
  assert (∀ c', names_of b' c' = names_of b c') as Hn.
  { intros c'. apply set_eq. intros n. by rewrite !elem_names_of, Hq. }
  unfold name_of in *. split; unfold name_of; rewrite ?Ek; intros *; rewrite ?Hq, ?Hn; eauto.
  intros Hc'. apply Hl. by eapply same_connections.
Qed.

Lemma unused_queue b n : service_hash b !! n = None → queue b n = [].
Proof. intros E. unfold queue. by rewrite E. Qed.

(** Hello keeps the invariant. *)
Lemma hello_good b c b' :
  good b → hello_refusal (clients b) c = None → hello_answered b c b' → good b'.
Proof.
  intros [Hb Hk Hl Ha Hs Hu] Href (major & minor & Hn & Hidle & Hq & Ho & _ & Hc & Ek).
  set (name := unique_name major minor) in *. cbn [fst] in Hq.
  assert (name_of b c = None) as Hnone.
  { unfold hello_refusal in Href. destruct (bool_decide _) eqn:E; [done|].
    apply bool_decide_eq_false in E. by apply eq_None_not_Some. }
  assert (∀ c', name_of b' c' = if decide (c' = c) then Some name else name_of b c') as Hname.
  { intros c'. unfold name_of. rewrite Ek. simpl. destruct (decide (c' = c)) as [->|];
      [by rewrite lookup_insert_eq|by rewrite lookup_insert_ne]. }
  assert (∀ c' n, name_of b c' = Some n → n ≠ name) as Hfresh.
  { intros c' n Hcn ->. destruct (Hu c' name Hcn) as [Hqn _]. by rewrite (unused_queue b name) in Hqn. }
  assert (∀ y n, y ∈ map who (queue b' n) → (y = c ∧ n = name) ∨ (n ≠ name ∧ y ∈ map who (queue b n)))
    as Hwho.
  { intros y n. destruct (decide (n = name)) as [->|]; [|rewrite Ho by done; auto].
    rewrite Hq. simpl. rewrite list_elem_of_singleton. auto. }
  split; try done.
  - rewrite Ek. destruct Hk as [H1 H2]. split; simpl; [lia|]. unfold one_more_of_user.
    intros uid n. destruct (dbus_connection_get_unix_user c) as [u|]; [|apply H2].
    destruct (decide (uid = u)) as [->|]; [rewrite lookup_insert_eq|rewrite lookup_insert_ne by done; apply H2].
    intros [= <-]. destruct (completed_by_user (clients b) !! u) as [x|] eqn:E; simpl; [|lia].
    specialize (H2 _ _ E). lia.
  - intros c' Hc'%(same_connections b b'); [|done]. specialize (Hl c' Hc').
    assert (names_of b' c' ⊆ if decide (c' = c) then {[name]} else names_of b c') as Hsub.
    { intros n. rewrite elem_names_of. intros Hy%Hwho. destruct (decide (c' = c)) as [->|].
      - destruct Hy as [[_ ->]|[_ Hy]]; [set_solver|]. by apply Hs in Hy.
      - apply elem_names_of. destruct Hy as [[-> _]|[_ ?]]; done. }
    apply subseteq_size in Hsub. destruct (decide (c' = c)); [rewrite size_singleton in Hsub|]; lia.
  - intros c' n [[-> ->]|[_ Hy]]%Hwho; rewrite Hname; [rewrite decide_True by done; by right|].
    destruct (Ha _ _ Hy) as [?|E]; [by left|]. right. rewrite decide_False; [done|congruence].
  - intros c' n. rewrite Hname. destruct (decide (c' = c)) as [->|Hne]; [done|].
    intros E [[-> _]|[_ Hy]]%Hwho; [done|]. by eapply Hs.
  - intros c' n. rewrite Hname. destruct (decide (c' = c)) as [->|].
    + intros [= <-]. split; [by rewrite Hq|]. apply unique_name_bad.
    + intros E. rewrite Ho by (by eapply Hfresh). by apply Hu.
Qed.

Lemma start_good cs : good (start cs).
Proof.
  assert (∀ n, queue (start cs) n = []) as Hq by done.
  split; [apply start_idle| |..].
  - split; [done|]. intros uid n. simpl. by rewrite lookup_empty.
  - intros c _. assert (names_of (start cs) c = ∅) as ->; [|rewrite size_empty; lia].
    apply set_eq. intros n. rewrite elem_names_of, Hq. split; [by intros ?%not_elem_of_nil|set_solver].
  - intros c n. rewrite Hq. by intros ?%not_elem_of_nil.
  - intros c n _. rewrite Hq. apply not_elem_of_nil.
  - intros c n. unfold name_of. simpl. by rewrite lookup_empty.
Qed.

Lemma step_good b b' : good b → step b b' → good b'.
Proof.
  intros Hg Hstep. revert Hg. destruct Hstep as [b1 m c d x b2 m' Hm Hd Hx E]. intros Hg.
  destruct (dispatch_replied b1 m c d x (good_idle _ Hg) (good_clients _ Hg) Hm Hd Hx)
    as (b3 & m3 & E3 & Hr). rewrite E in E3. injection E3 as <- <-. destruct x as [|x]; simpl in Hr.
  - destruct (hello_refusal (clients b1) c) as [e|] eqn:Href;
      [by apply (refused_good b1 c e)|by apply (hello_good b1 c)].
  - by apply (ask_good b1 c d x).
Qed.

Lemma reachable_good cs b : rtc step (start cs) b → good b.
Proof.
  intros Hsteps. apply (rtc_ind_r good (start cs)) in Hsteps; [done|apply start_good|].
  intros b1 b2 _ Hstep Hg. by eapply step_good.
Qed.

(** C17: In every state the bus reaches from its start by serving Hello and requests
    for names (with memory, names without a process id, and unique names as long as
    there are numbers), counters and queues agree (no dangling pointer, exact
    reference counts) and no work is left over.  A connection is in as many queues
    as the counter says that is checked against the limit of the configuration, and
    never in more than the limit allows (its unique name, which it gets anyway,
    counts).  Every connection in a queue passed the checks of the name, of SELinux
    and of its policy, unless the name is its unique name; and a connection that has
    a unique name is the only one in the queue of that name. *)
Theorem reachable_limit cs b :
  rtc step (start cs) b →
  idle b
  ∧ (∀ c d, connections b !! c = Some d →
       n_services_owned d = Z.of_nat (size (names_of b c))
       ∧ n_services_owned d <= Z.max 1 bus_context_get_max_services_per_connection)
  ∧ (∀ c name, c ∈ map who (queue b name) → may_own c name ∨ name_of b c = Some name)
  ∧ ∀ c name, name_of b c = Some name → queue b name = [Claim c false false].
Proof.
  intros [Hb Hk Hl Ha Hs Hu]%reachable_good. split; [done|]. split; [|split; [exact Ha|]].
  - intros c d Hd. rewrite (idle_owned b c d Hb Hd). split; [done|]. apply Hl. eauto.
  - intros c n Hn. by destruct (Hu c n Hn).
Qed.

(** *** Cancelling an addition *)

(** Cancelling the transaction brings back the registry [r]. *)
Definition restored r (t : tx) (b : bus) : Prop :=
  ∃ t', state [] r t' b ∧ t_hooks t' = [] ∧ t_messages t' = [] ∧ t_delivered t' = t_delivered t.

Definition cancels r (t : tx) (b : bus) : Prop :=
  ∀ m, match bus_transaction_cancel_and_free b m with
       | Ok _ b' _ => restored r t b'
       | _ => False
       end.

Lemma cancels_rule r t t' r' k b :
  wf [] r [] → live [] r [] → t_delivered t' = t_delivered t →
  hoare (rep r' k t') bus_transaction_cancel_and_free
    (λ _, rep r (Refs [] [] []) (cancelled t')) (λ _, False) False →
  rep r' k t' b → cancels r t b.
Proof.
  intros W A Hd Hr Hb m. specialize (Hr b m Hb).
  destruct (bus_transaction_cancel_and_free b m) as [a b' m'|b' m'|]; [|tauto|done].
  destruct Hr as [Hb' _]. by exists (cancelled t').
Qed.

(** The queues, messages and counters are those of before the transaction. *)
Definition undone (b b' : bus) : Prop :=
  consistent b' ∧ cancel_hooks b' = [] ∧ messages b' = [] ∧ delivered b' = delivered b
  ∧ (∀ name, queue b' name = queue b name)
  ∧ conn_refcount <$> connections b' = conn_refcount <$> connections b.

Lemma restored_undone r t b b' :
  state [] r t b → t_hooks t = [] → restored r t b' → undone b b'.
Proof.
  intros Hb Hh (t' & Hb' & Eh & Em & Ed).
  pose proof (refcounts _ _ _ Hb Hh) as R. pose proof (refcounts _ _ _ Hb' Eh) as R'.
  pose proof (rep_tx _ _ _ _ (proj1 Hb)) as E. pose proof (rep_tx _ _ _ _ (proj1 Hb')) as E'.
  split; [by exists r, t'|]. subst t t'. split_and!; try done; [|congruence].
  intros n. by rewrite (queue_rep _ _ _ _ _ Hb'), (queue_rep _ _ _ _ _ Hb).
Qed.

(** [bus_service_add_owner] for a connection that is not in the queue. *)
Lemma join_cancels r t s n l c flags nb :
  t_hooks t = [] → t_error t = None →
  r_service r !! s = Some (n, l) → r_hash r !! n = Some s → r_base r !! c = Some nb →
  c ∉ map (conn_of r) l →
  hoare (state [] r t) (bus_service_add_owner s c flags) (λ _, cancels r t) (cancels r t) False.
Proof.
  intros Hh He Hs Hn Hc Hnew. apply hoare_state. rewrite Hh. intros W A.
  pose proof (wf_hash _ _ _ W _ _ Hn) as (l' & Hs' & Hl). rewrite Hs in Hs'. injection Hs' as <-.
  eapply hoare_conseq; [apply (add_owner_new_rule r [] [] [] t s n l c flags nb False)|done|..];
    try done.
  - unfold service_refs. rewrite bool_decide_eq_true_2 by done. lia.
  - intros o. by apply (wf_links _ _ _ W _ _ _ _ Hs).
  - by intros o ?%not_elem_of_nil.
  - intros _ b (o & Ho & Hb). eapply cancels_rule; [done|done| | |exact Hb].
    + unfold acquired. by destruct (decide _).
    + apply (undo_join_rule r s n l W o c flags Ho nb Hc); try done.
      unfold acquired. simpl. destruct (decide _); by rewrite ?Hh.
  - intros b (t' & (Eh & _ & Ed & _) & _ & Hb). eapply cancels_rule; [done|done|exact Ed| |exact Hb].
    apply cancel_nothing_rule. by rewrite Eh.
Qed.

Lemma ensure_undone r t n c flags :
  t_hooks t = [] → t_error t = None → r_hash r !! n = None → is_Some (r_base r !! c) →
  hoare (state [] r t) (bus_registry_ensure n c flags) (λ _, cancels r t) (cancels r t) False.
Proof.
  intros Hh He Hn Hc. intros b m Hb. pose proof Hb as (_ & W & A). pose proof W as W0.
  pose proof A as A0. rewrite Hh in W0, A0. pose proof Hc as [nb Hnb].
  assert (∀ s o, conn_of (built r n c flags s o) o = c) as Ec.
  { intros s o. unfold conn_of. simpl. by rewrite lookup_insert_eq. }
  refine (hoare_conseq _ _ _ _ _ _ _ _ _ (ensure_state r t n c flags He Hn W A Hc (cancels r t) _ _)
    _ _ _ _ b m Hb); try done.
  - intros t' b1 (Eh & _ & Ed & _) _ Hb1. rewrite Hh in Hb1.
    eapply cancels_rule; [done|done|exact Ed| |exact Hb1]. apply cancel_nothing_rule. by rewrite Eh.
  - intros s o t' b1 Hs Ho Eh _ Ed Hb1. destruct Hb1 as (Hb1 & _). rewrite Eh, Hh in Hb1.
    unfold ledger in Hb1. simpl in Hb1. rewrite Ec in Hb1.
    eapply cancels_rule; [done|done| | |exact Hb1]; [done|].
    apply (undo_built_rule r s n W0 o c flags Ho nb Hnb Hs Hn). by rewrite Eh, Hh.
  - intros s b1 (o & Hs & Ho & Hb1). destruct Hb1 as (Hb1 & _). unfold ledger in Hb1. simpl in Hb1.
    rewrite Hh in Hb1. simpl in Hb1.
    change (conn_of (published r n c flags s o) o) with (conn_of (built r n c flags s o) o) in Hb1.
    rewrite Ec in Hb1. eapply cancels_rule; [done|done| | |exact Hb1]; [done|].
    apply (undo_published_rule r s n W0 o c flags Ho nb Hnb Hs Hn). simpl. by rewrite Hh.
Qed.

(** C20: A connection enters the queue of an existing name: whether the addition worked
    or ran out of memory, cancelling the transaction brings back every queue and
    every reference. *)
Theorem add_owner_self_cancelling b m c d s name flags :
  idle b → connections b !! c = Some d → service_hash b !! name = Some s →
  c ∉ map who (queue b name) →
  match bus_service_add_owner s c flags b m with
  | Ok _ b1 m1 | Failed b1 m1 =>
      ∃ b2 m2, bus_transaction_cancel_and_free b1 m1 = Ok tt b2 m2 ∧ undone b b2
  | Ub => False
  end.
Proof.
  intros (r & t & Hb & Hh & Ht & He)%idle_state Hd Hs Hc.
  destruct (consistent_conn _ _ _ _ _ _ Hb Hd) as [[nb Hnb] _].
  pose proof Hb as (Hr & W & _). rewrite (rep_hash _ _ _ _ Hr) in Hs.
  destruct (wf_hash _ _ _ W _ _ Hs) as (l & Hl & _).
  assert (c ∉ map (conn_of r) l) as Hnew.
  { rewrite (queue_rep _ _ _ _ _ Hb) in Hc. unfold queue_in, links in Hc. rewrite Hs, Hl in Hc.
    simpl in Hc. rewrite (map_who r s) in Hc; [done|]. intros o. by apply (wf_links _ _ _ W _ _ _ _ Hl). }
  pose proof (join_cancels r t s name l c flags nb Hh He Hl Hs Hnb Hnew b m Hb) as Ha.
  destruct (bus_service_add_owner s c flags b m) as [a b1 m1|b1 m1|]; [| |done];
    destruct Ha as [Ha _]; specialize (Ha m1);
    (destruct (bus_transaction_cancel_and_free b1 m1) as [[] b2 m2| |]; [|done..]);
    exists b2, m2; (split; [done|]); by apply (restored_undone r t).
Qed.

(** The same for the creation of a service. *)
Theorem ensure_self_cancelling b m c d name flags :
  idle b → connections b !! c = Some d → service_hash b !! name = None →
  match bus_registry_ensure name c flags b m with
  | Ok _ b1 m1 | Failed b1 m1 =>
      ∃ b2 m2, bus_transaction_cancel_and_free b1 m1 = Ok tt b2 m2 ∧ undone b b2
  | Ub => False
  end.
Proof.
  intros (r & t & Hb & Hh & Ht & He)%idle_state Hd Hs.
  destruct (consistent_conn _ _ _ _ _ _ Hb Hd) as [Hbase _].
  rewrite (rep_hash _ _ _ _ (proj1 Hb)) in Hs.
  pose proof (ensure_undone r t name c flags Hh He Hs Hbase b m Hb) as Ha.
  destruct (bus_registry_ensure name c flags b m) as [a b1 m1|b1 m1|]; [| |done];
    destruct Ha as [Ha _]; specialize (Ha m1);
    (destruct (bus_transaction_cancel_and_free b1 m1) as [[] b2 m2| |]; [|done..]);
    exists b2, m2; (split; [done|]); by apply (restored_undone r t).
Qed.

End theorems.

(** ** Runs *)

#[export] Instance servable_decision b x : Decision (servable b x).
Proof. destruct x as [|[]]; simpl; apply _. Defined.

Section runs.
Context `{BC : BusContext}.

(** The state behind a list of requests. *)
Fixpoint serve (l : list (connection * driver_call)) (b : bus) : option bus :=
  match l with
  | [] => Some b
  | (c, x) :: l' =>
      match connections b !! c, decide (servable b x), bus_dispatch (is_hello x) c (handle c x) b plenty with
      | Some _, left _, Ok tt b' _ => serve l' b'
      | _, _, _ => None
      end
  end.

Lemma serve_steps l b b' : serve l b = Some b' → rtc step b b'.
Proof.
  revert b. induction l as [|[c x] l IH]; simpl; intros b; [by intros [= ->]|].
  destruct (connections b !! c) as [d|] eqn:Hd; [|done].
  destruct (decide (servable b x)) as [Hp|]; [|done].
  destruct (bus_dispatch (is_hello x) c (handle c x) b plenty) as [[] b1 m1| |] eqn:E; [|done..].
  intros Hs. eapply rtc_l; [|by apply IH]. eapply (step_request b plenty); try done.
  intros Hm. by apply not_elem_of_nil in Hm.
Qed.

End runs.

Section examples.

(** A bus that allows everything, with at most five names per connection. *)
#[local] Instance permissive : BusContext :=
  Build_BusContext (λ _ _, true) (λ _ _, SELinuxAllowed) 5 (λ _, false) 100 10 (λ _, Some 0) (λ _, true)
    (λ _ _ _, true).

Let name := lit "a.b".
Let two : gset connection := {[1%nat; 2%nat]}.
Let ask (c : connection) (x : name_request) : connection * driver_call := (c, Ask x).
Let hellos : list (connection * driver_call) := [(1%nat, Hello); (2%nat, Hello)].

(** Two connections with their unique names; then a name with its owner, and with
    another connection waiting. *)
Definition greeted_two : bus := default (start two) (serve hellos (start two)).
Definition one_owner : bus :=
  default (start two) (serve (hellos ++ [ask 1 (RequestName name 0)]) (start two)).
Definition owner_and_waiter : bus :=
  default (start two)
    (serve (hellos ++ [ask 1 (RequestName name 0); ask 2 (RequestName name 0)]) (start two)).

Lemma greeted_two_reached : rtc step (start two) greeted_two.
Proof. apply (serve_steps hellos). vm_compute. reflexivity. Qed.

Lemma one_owner_reached : rtc step (start two) one_owner.
Proof. apply (serve_steps (hellos ++ [ask 1 (RequestName name 0)])). vm_compute. reflexivity. Qed.

Lemma owner_and_waiter_reached : rtc step (start two) owner_and_waiter.
Proof.
  apply (serve_steps (hellos ++ [ask 1 (RequestName name 0); ask 2 (RequestName name 0)])).
  vm_compute. reflexivity.
Qed.

(** The primary owner of a name with a waiting owner releases it, and there is no
    memory for the reply: cancelling the transaction runs into an assertion of
    [restore_ownership], which expects that no hash entry was allocated when the
    service is still there, but the entry is always allocated. *)
Theorem release_oom_fails_assertion :
  rtc step (start two) owner_and_waiter
  ∧ bus_dispatch false 1 (handle 1 (Ask (ReleaseName name))) owner_and_waiter (fails_after 22) = Ub.
Proof. split; [apply owner_and_waiter_reached|by vm_compute]. Qed.

(** The only owner of a name releases it, and there is no memory for the reply:
    cancelling the transaction puts the owner back without a reference, so it is
    freed while the service points to it; the next request for the name, with
    memory, uses freed memory. *)
Theorem release_oom_leaves_dangling_owner :
  rtc step (start two) one_owner
  ∧ match bus_dispatch false 1 (handle 1 (Ask (ReleaseName name))) one_owner (fails_after 17) with
    | Ok _ b' _ => bus_dispatch false 2 (handle 2 (Ask (RequestName name 0))) b' plenty = Ub
    | _ => False
    end.
Proof. split; [apply one_owner_reached|by vm_compute]. Qed.

(** Hello without memory for the last part of the handler: the connection has its
    unique name and counts as active, but no service was registered for the name;
    a second Hello, with memory, is refused. *)
Theorem hello_oom_leaves_nameless :
  match bus_dispatch true 1 (handle 1 Hello) (start two) (fails_after 16) with
  | Ok _ b' _ =>
      name_of b' 1 = Some (lit ":1.0") ∧ queue b' (lit ":1.0") = []
      ∧ match bus_dispatch true 1 (handle 1 Hello) b' plenty with
        | Ok _ b'' _ =>
            delivered b'' = [ErrorReply 1 DBUS_ERROR_NO_MEMORY; ErrorReply 1 DBUS_ERROR_FAILED]
        | _ => False
        end
  | _ => False
  end.
Proof. vm_compute. auto. Qed.

(** Hello without memory for the text about the peer: the name is taken back, but
    the user keeps one connection more in the count that is limited. *)
Theorem hello_oom_counts_user :
  match bus_dispatch true 1 (handle 1 Hello) (start two) (fails_after 9) with
  | Ok _ b' _ => name_of b' 1 = None ∧ n_completed (clients b') = 0
                 ∧ completed_by_user (clients b') !! 0 = Some 1
  | _ => False
  end.
Proof. vm_compute. auto. Qed.

Lemma no_failure : ¬ may_fail plenty.
Proof. intros Hm. by apply not_elem_of_nil in Hm. Qed.

Lemma one_owner_idle : idle one_owner.
Proof. apply good_idle, (reachable_good two), one_owner_reached. Qed.


Lemma idle_consistent b : idle b → consistent b.
Proof. by intros []. Qed.


Lemma release_refines_witness :
  match bus_registry_release_service 1 name one_owner plenty with
  | Ok result b' _ => result = DBUS_RELEASE_NAME_REPLY_RELEASED ∧ consistent b'
                      ∧ queue b' name = []
  | _ => False
  end.
Proof.
  pose proof (release_refines one_owner plenty 1 name (idle_consistent _ one_owner_idle) eq_refl)
    as Ha.
  replace (bad_name name) with false in Ha by (by vm_compute).
  replace (queue one_owner name) with [Claim 1 false false] in Ha by (by vm_compute).
  destruct (bus_registry_release_service 1 name one_owner plenty) as [v b' m'|b' m'|].
  - destruct Ha as (_ & Hc & (-> & Hq & _) & _). rewrite Hq. done.
  - by destruct Ha as [_ ?%no_failure].
  - done.
Defined.

Lemma execute_refines_witness :
  match bus_transaction_execute_and_free one_owner plenty with
  | Ok _ b' _ => consistent b'
  | _ => False
  end.
Proof.
  pose proof (execute_refines one_owner plenty (idle_consistent _ one_owner_idle)) as Ha.
  destruct (bus_transaction_execute_and_free one_owner plenty); [by destruct Ha|done..].
Defined.


Lemma reachable_limit_witness :
  match connections owner_and_waiter !! 2%nat with
  | Some d => n_services_owned d = 2 ∧ size (names_of owner_and_waiter 2) = 2%nat
  | None => False
  end
  ∧ queue owner_and_waiter (lit ":1.1") = [Claim 2 false false].
Proof.
  destruct (@reachable_limit permissive two owner_and_waiter owner_and_waiter_reached)
    as (_ & Hl & _ & Hu). specialize (Hl 2%nat). specialize (Hu 2%nat (lit ":1.1") eq_refl).
  replace (connections owner_and_waiter !! 2%nat) with (Some (ConnectionData 1 [1%nat; 2%nat] 2)) in *
    by (by vm_compute).
  destruct (Hl _ eq_refl) as [E _]. split; [|exact Hu]. split; [done|]. simpl in E. lia.
Defined.

Lemma add_owner_self_cancelling_witness :
  match bus_service_add_owner 2 2 0 one_owner (fails_after 3) with
  | Failed b1 m1 =>
      ∃ b2 m2, bus_transaction_cancel_and_free b1 m1 = Ok tt b2 m2 ∧ undone one_owner b2
  | _ => False
  end.
Proof.
  pose proof (add_owner_self_cancelling one_owner (fails_after 3) 2 (ConnectionData 1 [1%nat] 1) 2
    name 0 one_owner_idle eq_refl eq_refl) as Ha.
  replace (queue one_owner name) with [Claim 1 false false] in Ha by (by vm_compute).
  specialize (Ha ltac:(set_solver)).
  destruct (bus_service_add_owner 2 2 0 one_owner (fails_after 3)) as [[] b m|b m|] eqn:E;
    [|exact Ha|exact Ha]. vm_compute in E. discriminate.
Defined.

Lemma ensure_self_cancelling_witness :
  match bus_registry_ensure name 1 0 (start two) (fails_after 13) with
  | Failed b1 m1 =>
      ∃ b2 m2, bus_transaction_cancel_and_free b1 m1 = Ok tt b2 m2 ∧ undone (start two) b2
  | _ => False
  end.
Proof.
  pose proof (ensure_self_cancelling (start two) (fails_after 13) 1 (ConnectionData 1 [] 0)
    name 0 (start_idle two) eq_refl eq_refl) as Ha.
  destruct (bus_registry_ensure name 1 0 (start two) (fails_after 13)) as [s b m|b m|] eqn:E;
    [|exact Ha|exact Ha]. vm_compute in E. discriminate.
Defined.

End examples.
