(* ===== verification/Policy.v ===== *)
(** * Policy: the rules of the configuration

    Models src/bus/policy.c.  A policy is a list of rules in the order of the
    configuration; the last rule that applies decides.  The rules of a connection
    are collected from the default, group, user, console and mandatory rules, and
    then thinned out ([bus_client_policy_optimize]).  Rules do not change once they
    are in a policy and are represented by their values; their reference counts
    are not modelled.  A message is what the rules look at. *)

From stdpp Require Import gmap.
From S2P Require Import Prelude Search Names Types Services Ledger Ownership Hello Registry.

(** ** Rules *)

Definition DBUS_UID_UNSET : Z := u32 (-1).
Definition DBUS_GID_UNSET : Z := u32 (-1).

(** The conditions of a send or receive rule; [peer] is the destination or the
    origin.  [None] stands for any value, as does the type INVALID. *)
Record rule_match := RuleMatch {
  match_type : Z;
  match_path : option bytes;
  match_interface : option bytes;
  match_member : option bytes;
  match_error : option bytes;
  match_peer : option bytes;
  eavesdrop : bool;
  match_requested_reply : bool
}.

Inductive rule_data :=
| BUS_POLICY_RULE_SEND (d : rule_match) (log : bool)
| BUS_POLICY_RULE_RECEIVE (d : rule_match)
| BUS_POLICY_RULE_OWN (own_name : option bytes)
| BUS_POLICY_RULE_USER (uid : Z)
| BUS_POLICY_RULE_GROUP (gid : Z).

Inductive BusPolicyRuleType := SEND | RECEIVE | OWN | USER | GROUP.

#[export] Instance rule_type_eq_dec : EqDecision BusPolicyRuleType.
Proof. solve_decision. Defined.

Record BusPolicyRule := PolicyRule { rule_allow : bool; rule_d : rule_data }.

Definition rule_type (r : BusPolicyRule) : BusPolicyRuleType :=
  match rule_d r with
  | BUS_POLICY_RULE_SEND _ _ => SEND
  | BUS_POLICY_RULE_RECEIVE _ => RECEIVE
  | BUS_POLICY_RULE_OWN _ => OWN
  | BUS_POLICY_RULE_USER _ => USER
  | BUS_POLICY_RULE_GROUP _ => GROUP
  end.

(** A rule before the configuration fills it in. *)
Definition bus_policy_rule_new (type : BusPolicyRuleType) (allow : bool) : BusPolicyRule :=
  let any := RuleMatch DBUS_MESSAGE_TYPE_INVALID None None None None None false allow in
  PolicyRule allow
    match type with
    | SEND => BUS_POLICY_RULE_SEND any false
    | RECEIVE => BUS_POLICY_RULE_RECEIVE any
    | OWN => BUS_POLICY_RULE_OWN None
    | USER => BUS_POLICY_RULE_USER DBUS_UID_UNSET
    | GROUP => BUS_POLICY_RULE_GROUP DBUS_GID_UNSET
    end.

(** What the rules look at in a message. *)
Record DBusMessage := Message {
  message_type : Z;
  message_reply_serial : Z;
  message_path : option bytes;
  message_interface : option bytes;
  message_member : option bytes;
  message_error_name : option bytes;
  message_destination : option bytes;
  message_sender : option bytes
}.

(** ** The tests of a rule *)

Definition type_ok (d : rule_match) (msg : DBusMessage) : bool :=
  (match_type d =? DBUS_MESSAGE_TYPE_INVALID) || (message_type msg =? match_type d).

(** Replies: an allow rule may be for requested replies only, a deny rule for
    unrequested replies only. *)
Definition reply_ok (allow : bool) (d : rule_match) (requested_reply : bool) (msg : DBusMessage) :
    bool :=
  (message_reply_serial msg =? 0)
  || negb (negb requested_reply && allow && match_requested_reply d && negb (eavesdrop d))
     && negb (requested_reply && negb allow && negb (match_requested_reply d)).

(** A field that is not in the message does not rule it out. *)
Definition field_ok (in_rule in_message : option bytes) : bool :=
  match in_rule, in_message with
  | Some x, Some y => bool_decide (y = x)
  | _, _ => true
  end.

(** A message without interface escapes allow rules, and not deny rules. *)
Definition interface_ok (allow : bool) (in_rule in_message : option bytes) : bool :=
  match in_rule, in_message with
  | Some x, Some y => bool_decide (y = x)
  | Some _, None => negb allow
  | None, _ => true
  end.

(** The part of the tests common to both directions, behind the type and the
    eavesdropping. *)
Definition header_ok (allow : bool) (d : rule_match) (requested_reply : bool) (msg : DBusMessage) :
    bool :=
  reply_ok allow d requested_reply msg
  && field_ok (match_path d) (message_path msg)
  && interface_ok allow (match_interface d) (message_interface msg)
  && field_ok (match_member d) (message_member msg)
  && field_ok (match_error d) (message_error_name msg).

(** The other side: the bus itself is known by the name in the message, a
    connection by the names in whose queue it is. *)
Definition peer_ok (in_rule : option bytes) (peer : option connection)
    (in_message : option bytes) : BM bool :=
  match in_rule with
  | None => mret true
  | Some x =>
      match peer with
      | None => mret (bool_decide (in_message = Some x))
      | Some c =>
          service ← bus_registry_lookup x;
          match service with
          | None => mret false
          | Some s => bus_service_has_owner s c
          end
      end
  end.

(** ** The policy of a client *)

(** [allowed], [toggles] and [log] so far. *)
Fixpoint can_send_loop (requested_reply : bool) (receiver : option connection)
    (msg : DBusMessage) (l : list BusPolicyRule) (allowed : bool) (toggles : Z) (log : bool) :
    BM (bool * Z * bool) :=
  match l with
  | [] => mret (allowed, toggles, log)
  | r :: l' =>
      let skip := can_send_loop requested_reply receiver msg l' allowed toggles log in
      match rule_d r with
      | BUS_POLICY_RULE_SEND d rule_log =>
          if type_ok d msg && header_ok (rule_allow r) d requested_reply msg then
            ok ← peer_ok (match_peer d) receiver (message_destination msg);
            if (ok : bool) then
              can_send_loop requested_reply receiver msg l' (rule_allow r) (toggles + 1) rule_log
            else skip
          else skip
      | _ => skip
      end
  end.

Definition bus_client_policy_check_can_send (rules : list BusPolicyRule) (requested_reply : bool)
    (receiver : option connection) (msg : DBusMessage) (log : bool) : BM (bool * Z * bool) :=
  can_send_loop requested_reply receiver msg rules false 0 log.

Definition eavesdrop_ok (allow : bool) (d : rule_match) (eavesdropping : bool) : bool :=
  negb (eavesdropping && allow && negb (eavesdrop d))
  && negb (negb eavesdropping && negb allow && eavesdrop d).

Fixpoint can_receive_loop (requested_reply eavesdropping : bool) (sender : option connection)
    (msg : DBusMessage) (l : list BusPolicyRule) (allowed : bool) (toggles : Z) : BM (bool * Z) :=
  match l with
  | [] => mret (allowed, toggles)
  | r :: l' =>
      let skip := can_receive_loop requested_reply eavesdropping sender msg l' allowed toggles in
      match rule_d r with
      | BUS_POLICY_RULE_RECEIVE d =>
          if type_ok d msg && eavesdrop_ok (rule_allow r) d eavesdropping
             && header_ok (rule_allow r) d requested_reply msg then
            ok ← peer_ok (match_peer d) sender (message_sender msg);
            if (ok : bool) then
              can_receive_loop requested_reply eavesdropping sender msg l' (rule_allow r)
                (toggles + 1)
            else skip
          else skip
      | _ => skip
      end
  end.

Definition is_eavesdropping (addressed_recipient proposed_recipient : option connection)
    (msg : DBusMessage) : bool :=
  bool_decide (addressed_recipient ≠ proposed_recipient)
  && bool_decide (message_destination msg ≠ None).

Definition bus_client_policy_check_can_receive (rules : list BusPolicyRule)
    (requested_reply : bool) (sender addressed_recipient proposed_recipient : option connection)
    (msg : DBusMessage) : BM (bool * Z) :=
  can_receive_loop requested_reply
    (is_eavesdropping addressed_recipient proposed_recipient msg) sender msg rules false 0.

Fixpoint can_own_loop (service_name : bytes) (l : list BusPolicyRule) (allowed : bool) : bool :=
  match l with
  | [] => allowed
  | r :: l' =>
      match rule_d r with
      | BUS_POLICY_RULE_OWN own_name =>
          if field_ok own_name (Some service_name)
          then can_own_loop service_name l' (rule_allow r)
          else can_own_loop service_name l' allowed
      | _ => can_own_loop service_name l' allowed
      end
  end.

Definition policy_check_can_own (rules : list BusPolicyRule) (service_name : bytes) : bool :=
  can_own_loop service_name rules false.

(** ** Optimization *)

Definition no_conditions (d : rule_match) : bool :=
  (match_type d =? DBUS_MESSAGE_TYPE_INVALID)
  && bool_decide (match_path d = None) && bool_decide (match_interface d = None)
  && bool_decide (match_member d = None) && bool_decide (match_error d = None)
  && bool_decide (match_peer d = None).

(** The rule makes the preceding rules of its type superfluous; user and group
    rules are not in the policy of a client. *)
Definition remove_preceding (r : BusPolicyRule) : option bool :=
  match rule_d r with
  | BUS_POLICY_RULE_SEND d _ | BUS_POLICY_RULE_RECEIVE d => Some (no_conditions d)
  | BUS_POLICY_RULE_OWN own_name => Some (bool_decide (own_name = None))
  | BUS_POLICY_RULE_USER _ | BUS_POLICY_RULE_GROUP _ => None
  end.

Definition remove_rules_by_type_up_to (type : BusPolicyRuleType) (before : list BusPolicyRule) :
    list BusPolicyRule := filter (λ r, rule_type r ≠ type) before.

(** [before] are the rules in front of the link. *)
Fixpoint optimize_loop (before rest : list BusPolicyRule) : option (list BusPolicyRule) :=
  match rest with
  | [] => Some before
  | r :: rest' =>
      rp ← remove_preceding r;
      let before' := if (rp : bool) then remove_rules_by_type_up_to (rule_type r) before
                     else before in
      optimize_loop (before' ++ [r]) rest'
  end.

Definition bus_client_policy_optimize (rules : list BusPolicyRule) : option (list BusPolicyRule) :=
  optimize_loop [] rules.

(** ** The policy of the bus *)

Record BusPolicy := Policy {
  default_rules : list BusPolicyRule;
  mandatory_rules : list BusPolicyRule;
  rules_by_uid : gmap Z (list BusPolicyRule);
  rules_by_gid : gmap Z (list BusPolicyRule);
  at_console_true_rules : list BusPolicyRule;
  at_console_false_rules : list BusPolicyRule
}.

Definition bus_policy_new : BusPolicy := Policy [] [] ∅ ∅ [] [].

Abbreviation PM := (M BusPolicy).

Definition with_default_rules f p :=
  Policy (f (default_rules p)) (mandatory_rules p) (rules_by_uid p) (rules_by_gid p)
    (at_console_true_rules p) (at_console_false_rules p).
Definition with_mandatory_rules f p :=
  Policy (default_rules p) (f (mandatory_rules p)) (rules_by_uid p) (rules_by_gid p)
    (at_console_true_rules p) (at_console_false_rules p).
Definition with_rules_by_uid f p :=
  Policy (default_rules p) (mandatory_rules p) (f (rules_by_uid p)) (rules_by_gid p)
    (at_console_true_rules p) (at_console_false_rules p).
Definition with_rules_by_gid f p :=
  Policy (default_rules p) (mandatory_rules p) (rules_by_uid p) (f (rules_by_gid p))
    (at_console_true_rules p) (at_console_false_rules p).
Definition with_at_console_true_rules f p :=
  Policy (default_rules p) (mandatory_rules p) (rules_by_uid p) (rules_by_gid p)
    (f (at_console_true_rules p)) (at_console_false_rules p).
Definition with_at_console_false_rules f p :=
  Policy (default_rules p) (mandatory_rules p) (rules_by_uid p) (rules_by_gid p)
    (at_console_true_rules p) (f (at_console_false_rules p)).

Definition bus_policy_append_default_rule (r : BusPolicyRule) : PM unit :=
  request;; modify (with_default_rules (λ l, l ++ [r])).
Definition bus_policy_append_mandatory_rule (r : BusPolicyRule) : PM unit :=
  request;; modify (with_mandatory_rules (λ l, l ++ [r])).
Definition bus_policy_append_console_rule (at_console : bool) (r : BusPolicyRule) : PM unit :=
  request;;
  if at_console then modify (with_at_console_true_rules (λ l, l ++ [r]))
  else modify (with_at_console_false_rules (λ l, l ++ [r])).

(** One of the two tables; [get_list] enters an empty list for a new id. *)
Record id_table := IdTable {
  rules_by : BusPolicy → gmap Z (list BusPolicyRule);
  with_rules_by : (gmap Z (list BusPolicyRule) → gmap Z (list BusPolicyRule)) → BusPolicy → BusPolicy
}.
Definition by_uid : id_table := IdTable rules_by_uid with_rules_by_uid.
Definition by_gid : id_table := IdTable rules_by_gid with_rules_by_gid.

Definition get_list (t : id_table) (key : Z) : PM unit :=
  p ← gets id;
  match rules_by t p !! key with
  | Some _ => mret tt
  | None =>
      request;;
      request;;
      modify (with_rules_by t <[key := []]>)
  end.

Definition append_to (t : id_table) (id : Z) (l : list BusPolicyRule) : PM unit :=
  modify (with_rules_by t (partial_alter (λ o, Some (default [] o ++ l)) id)).

Definition bus_policy_append_user_rule (uid : Z) (r : BusPolicyRule) : PM unit :=
  get_list by_uid uid;; request;; append_to by_uid uid [r].
Definition bus_policy_append_group_rule (gid : Z) (r : BusPolicyRule) : PM unit :=
  get_list by_gid gid;; request;; append_to by_gid gid [r].

(** The links are allocated before the first rule is appended. *)
Fixpoint preallocate (l : list BusPolicyRule) : PM unit :=
  match l with
  | [] => mret tt
  | _ :: l' => request;; preallocate l'
  end.

Definition append_copy_of_policy_list (f : (list BusPolicyRule → list BusPolicyRule) → BusPolicy → BusPolicy)
    (to_append : list BusPolicyRule) : PM unit :=
  preallocate to_append;; modify (f (λ l, l ++ to_append)).

Fixpoint merge_ids (t : id_table) (l : list (Z * list BusPolicyRule)) : PM unit :=
  match l with
  | [] => mret tt
  | (id, rules) :: l' =>
      get_list t id;;
      preallocate rules;;
      append_to t id rules;;
      merge_ids t l'
  end.

Definition merge_id_hash (t : id_table) (to_absorb : BusPolicy) : PM unit :=
  merge_ids t (map_to_list (rules_by t to_absorb)).

Definition bus_policy_merge (to_absorb : BusPolicy) : PM unit :=
  append_copy_of_policy_list with_default_rules (default_rules to_absorb);;
  append_copy_of_policy_list with_mandatory_rules (mandatory_rules to_absorb);;
  append_copy_of_policy_list with_at_console_true_rules (at_console_true_rules to_absorb);;
  append_copy_of_policy_list with_at_console_false_rules (at_console_false_rules to_absorb);;
  merge_id_hash by_uid to_absorb;;
  merge_id_hash by_gid to_absorb.

(** *** Who may connect *)

Definition user_rule_ok (uid : Z) (group_ids : list Z) (r : BusPolicyRule) : bool :=
  match rule_d r with
  | BUS_POLICY_RULE_USER u => (u =? DBUS_UID_UNSET) || (u =? uid)
  | BUS_POLICY_RULE_GROUP g => (g =? DBUS_GID_UNSET) || bool_decide (g ∈ group_ids)
  | _ => false
  end.

Fixpoint list_allows_user (def : bool) (l : list BusPolicyRule) (uid : Z) (group_ids : list Z) :
    bool :=
  match l with
  | [] => def
  | r :: l' =>
      list_allows_user (if user_rule_ok uid group_ids r then rule_allow r else def) l' uid group_ids
  end.

(** What the policy asks of the operating system and of the connection. *)
Class PolicyEnv := {
  _dbus_unix_groups_from_uid : Z → option (list Z);
  _dbus_unix_user_is_process_owner : Z → bool;
  bus_connection_get_unix_groups : connection → error_name + list Z;
  dbus_connection_get_unix_user : connection → option Z;
  _dbus_unix_user_is_at_console : Z → error_name + bool
}.

Section env.
Context `{PolicyEnv}.

Definition bus_policy_allow_unix_user (p : BusPolicy) (uid : Z) : bool :=
  match _dbus_unix_groups_from_uid uid with
  | None => false
  | Some group_ids =>
      let allowed := _dbus_unix_user_is_process_owner uid in
      let allowed := list_allows_user allowed (default_rules p) uid group_ids in
      list_allows_user allowed (mandatory_rules p) uid group_ids
  end.

(** *** The policy of a new client; the state is the error *)

Abbreviation EM := (M (option error_name)).

Definition set_nomem : EM unit :=
  e ← gets id;
  match e with Some _ => mret tt | None => put (Some DBUS_ERROR_NO_MEMORY) end.
Definition nomem {A} (c : EM A) : EM A := on_failure c set_nomem.
Definition failed_with {A} (e : error_name) : EM A := put (Some e);; fail.

Definition bus_client_policy_append_rule (client : list BusPolicyRule) (r : BusPolicyRule) :
    EM (list BusPolicyRule) := request;; mret (client ++ [r]).

(** User and group rules are not about the messages of a connection. *)
Definition per_client (r : BusPolicyRule) : bool :=
  match rule_d r with
  | BUS_POLICY_RULE_USER _ | BUS_POLICY_RULE_GROUP _ => false
  | _ => true
  end.

Fixpoint add_list_to_client (l client : list BusPolicyRule) : EM (list BusPolicyRule) :=
  match l with
  | [] => mret client
  | r :: l' =>
      client' ← (if per_client r then bus_client_policy_append_rule client r else mret client);
      add_list_to_client l' client'
  end.

Fixpoint add_groups (p : BusPolicy) (groups : list Z) (client : list BusPolicyRule) :
    EM (list BusPolicyRule) :=
  match groups with
  | [] => mret client
  | g :: groups' =>
      client' ← (match rules_by_gid p !! g with
                 | Some l => add_list_to_client l client
                 | None => mret client
                 end);
      add_groups p groups' client'
  end.

Definition add_group_rules (p : BusPolicy) (c : connection) (client : list BusPolicyRule) :
    EM (list BusPolicyRule) :=
  if (0 <? size (rules_by_gid p))%nat then
    match bus_connection_get_unix_groups c with
    | inl e => failed_with e
    | inr groups => nomem (add_groups p groups client)
    end
  else mret client.

Definition add_user_rules (p : BusPolicy) (uid : Z) (client : list BusPolicyRule) :
    EM (list BusPolicyRule) :=
  if (0 <? size (rules_by_uid p))%nat then
    match rules_by_uid p !! uid with
    | Some l => nomem (add_list_to_client l client)
    | None => mret client
    end
  else mret client.

Definition add_console_rules (p : BusPolicy) (uid : Z) (client : list BusPolicyRule) :
    EM (list BusPolicyRule) :=
  match _dbus_unix_user_is_at_console uid with
  | inr true => nomem (add_list_to_client (at_console_true_rules p) client)
  | inl e => failed_with e
  | inr false => nomem (add_list_to_client (at_console_false_rules p) client)
  end.

Definition bus_policy_create_client_policy (p : BusPolicy) (c : connection) :
    EM (list BusPolicyRule) :=
  e ← gets id;
  assert_ (bool_decide (e = None));;
  nomem request;;
  client ← nomem (add_list_to_client (default_rules p) []);
  client ← add_group_rules p c client;
  client ← (match dbus_connection_get_unix_user c with
            | None => mret client
            | Some uid =>
                client ← add_user_rules p uid client;
                add_console_rules p uid client
            end);
  client ← nomem (add_list_to_client (mandatory_rules p) client);
  checked (bus_client_policy_optimize client).

End env.

(** ** The last rule that applies decides *)

(** The rule a list of rules comes down to, and its answer. *)
Definition deciding (applies : BusPolicyRule → bool) (rules : list BusPolicyRule) :
    option BusPolicyRule := list.last (filter (λ r, applies r = true) rules).
Definition decision (applies : BusPolicyRule → bool) (rules : list BusPolicyRule) : bool :=
  from_option rule_allow false (deciding applies rules).

(** The other side of a message, on the abstract registry. *)
Definition peer_applies (b : bus) (in_rule : option bytes) (peer : option connection)
    (in_message : option bytes) : bool :=
  match in_rule, peer with
  | None, _ => true
  | Some x, None => bool_decide (in_message = Some x)
  | Some x, Some c => bool_decide (c ∈ map who (queue b x))
  end.

Definition send_applies (b : bus) (requested_reply : bool) (receiver : option connection)
    (msg : DBusMessage) (r : BusPolicyRule) : bool :=
  match rule_d r with
  | BUS_POLICY_RULE_SEND d _ =>
      type_ok d msg && header_ok (rule_allow r) d requested_reply msg
      && peer_applies b (match_peer d) receiver (message_destination msg)
  | _ => false
  end.

Definition receive_applies (b : bus) (requested_reply eavesdropping : bool)
    (sender : option connection) (msg : DBusMessage) (r : BusPolicyRule) : bool :=
  match rule_d r with
  | BUS_POLICY_RULE_RECEIVE d =>
      type_ok d msg && eavesdrop_ok (rule_allow r) d eavesdropping
      && header_ok (rule_allow r) d requested_reply msg
      && peer_applies b (match_peer d) sender (message_sender msg)
  | _ => false
  end.

Definition own_applies (name : bytes) (r : BusPolicyRule) : bool :=
  match rule_d r with
  | BUS_POLICY_RULE_OWN own_name => field_ok own_name (Some name)
  | _ => false
  end.

Definition rule_log (r : BusPolicyRule) : bool :=
  match rule_d r with BUS_POLICY_RULE_SEND _ log => log | _ => false end.

Lemma last_cons_default {A B} (f : A → B) x l d :
  from_option f d (list.last (x :: l)) = from_option f (f x) (list.last l).
Proof. rewrite last_cons. by destruct (list.last l). Qed.

Lemma find_owner_run b m l c :
  (∀ o, o ∈ l → is_Some (owner_pool b !! o)) →
  ∃ res, find_owner l c b m = Ok res b m
    ∧ (res ≠ None ↔ c ∈ map who (omap (λ o, claim_of <$> owner_pool b !! o) l)).
Proof.
  induction l as [|o l IH]; intros Hl.
  { exists None. split; [done|]. split; [done|]. by intros ?%not_elem_of_nil. }
  simpl. destruct (Hl o ltac:(by left)) as [y Hy].
  cbv [get_owner mbind M_bind gets checked id]. rewrite Hy. simpl.
  destruct (decide (owner_conn y = c)) as [<-|Hne].
  - exists (Some o). split; [done|]. split; [intros _; by left|done].
  - destruct IH as (res & E & Hres); [intros o' ?; apply Hl; by right|]. exists res.
    split; [done|]. rewrite Hres. rewrite elem_of_cons. split; [by right|].
    intros [->|?]; [done|done].
Qed.

Lemma peer_ok_run b m in_rule peer in_message :
  consistent b →
  peer_ok in_rule peer in_message b m = Ok (peer_applies b in_rule peer in_message) b m.
Proof.
  intros (r & t & Hb). destruct in_rule as [x|]; [|done]. destruct peer as [c|]; [|done]. simpl.
  unfold queue. cbv [bus_registry_lookup bus_service_has_owner _bus_service_find_owner_link
    get_service mbind M_bind gets checked id mret M_ret].
  pose proof Hb as ([H1 H2 H3 H4 H5] & W & _). rewrite H1.
  destruct (r_hash r !! x) as [s|] eqn:Hs; [|done].
  destruct (wf_hash _ _ _ W _ _ Hs) as (l & Hl & _). simpl. rewrite H2, Hl. simpl.
  destruct (find_owner_run b m l c) as (res & -> & Hres).
  { intros o Ho. destruct (wf_links _ _ _ W _ _ _ _ Hl Ho) as [cl E]. rewrite H3, E. simpl. eauto. }
  f_equal. by apply bool_decide_ext.
Qed.

Lemma can_send_run b m requested_reply receiver msg rules allowed toggles log :
  consistent b →
  let f := filter (λ r, send_applies b requested_reply receiver msg r = true) rules in
  can_send_loop requested_reply receiver msg rules allowed toggles log b m
  = Ok (from_option rule_allow allowed (list.last f), toggles + Z.of_nat (length f),
        from_option rule_log log (list.last f)) b m.
Proof.
  intros Hb. revert allowed toggles log.
  induction rules as [|r rules IH]; intros allowed toggles log f; [by rewrite Z.add_0_r|].
  subst f. simpl. rewrite filter_cons.
  assert (send_applies b requested_reply receiver msg r = match rule_d r with
    | BUS_POLICY_RULE_SEND d _ => type_ok d msg && header_ok (rule_allow r) d requested_reply msg
        && peer_applies b (match_peer d) receiver (message_destination msg)
    | _ => false end) as Ea by done. revert Ea.
  destruct (rule_d r) as [d l'|d|o|u|g] eqn:Ed; intros Ea;
    try (rewrite decide_False by (by rewrite Ea); apply IH).
  revert Ea. destruct (type_ok d msg && header_ok (rule_allow r) d requested_reply msg);
    cbn [andb]; intros Ea; [|rewrite decide_False by (by rewrite Ea); apply IH].
  unfold mbind, M_bind. rewrite peer_ok_run by done. rewrite <- Ea.
  destruct (send_applies b requested_reply receiver msg r).
  - rewrite decide_True by done. rewrite IH, !last_cons_default.
    assert (rule_log r = l') as <- by (unfold rule_log; by rewrite Ed).
    f_equal. f_equal. f_equal. simpl. lia.
  - rewrite decide_False by done. apply IH.
Qed.

Lemma can_receive_run b m requested_reply eavesdropping sender msg rules allowed toggles :
  consistent b →
  let f := filter (λ r, receive_applies b requested_reply eavesdropping sender msg r = true) rules in
  can_receive_loop requested_reply eavesdropping sender msg rules allowed toggles b m
  = Ok (from_option rule_allow allowed (list.last f), toggles + Z.of_nat (length f)) b m.
Proof.
  intros Hb. revert allowed toggles.
  induction rules as [|r rules IH]; intros allowed toggles f; [by rewrite Z.add_0_r|].
  subst f. simpl. rewrite filter_cons.
  assert (receive_applies b requested_reply eavesdropping sender msg r = match rule_d r with
    | BUS_POLICY_RULE_RECEIVE d => type_ok d msg && eavesdrop_ok (rule_allow r) d eavesdropping
        && header_ok (rule_allow r) d requested_reply msg
        && peer_applies b (match_peer d) sender (message_sender msg)
    | _ => false end) as Ea by done. revert Ea.
  destruct (rule_d r) as [d l'|d|o|u|g]; intros Ea;
    try (rewrite decide_False by (by rewrite Ea); apply IH).
  revert Ea. destruct (type_ok d msg && eavesdrop_ok (rule_allow r) d eavesdropping
    && header_ok (rule_allow r) d requested_reply msg);
    cbn [andb]; intros Ea; [|rewrite decide_False by (by rewrite Ea); apply IH].
  unfold mbind, M_bind. rewrite peer_ok_run by done. rewrite <- Ea.
  destruct (receive_applies b requested_reply eavesdropping sender msg r).
  - rewrite decide_True by done. rewrite IH, !last_cons_default. f_equal. f_equal. simpl. lia.
  - rewrite decide_False by done. apply IH.
Qed.

Lemma can_own_decides name rules : policy_check_can_own rules name = decision (own_applies name) rules.
Proof.
  unfold policy_check_can_own, decision, deciding. generalize false.
  induction rules as [|r rules IH]; intros allowed; [done|]. simpl. rewrite filter_cons.
  assert (own_applies name r = match rule_d r with
    | BUS_POLICY_RULE_OWN o => field_ok o (Some name) | _ => false end) as Ea by done. revert Ea.
  destruct (rule_d r) as [d l'|d|o|u|g]; intros Ea;
    try (rewrite decide_False by (by rewrite Ea); apply IH).
  rewrite <- Ea. destruct (own_applies name r).
  - rewrite decide_True by done. by rewrite IH, last_cons_default.
  - rewrite decide_False by done. apply IH.
Qed.

(** *** Optimization *)

Lemma deciding_app applies l1 l2 :
  deciding applies (l1 ++ l2)
  = match deciding applies l2 with Some r => Some r | None => deciding applies l1 end.
Proof. unfold deciding. by rewrite list.filter_app, last_app. Qed.

Section optimize.
Context (applies : BusPolicyRule → bool) (type : BusPolicyRuleType).
Context (Htype : ∀ r, applies r = true → rule_type r = type).

Lemma remove_other type' before :
  type' ≠ type → deciding applies (remove_rules_by_type_up_to type' before) = deciding applies before.
Proof.
  intros Hne. unfold deciding, remove_rules_by_type_up_to. f_equal. rewrite list_filter_filter.
  apply list_filter_iff. intros r. split; [tauto|]. intros Hr. split; [done|].
  rewrite (Htype _ Hr). congruence.
Qed.

Lemma optimize_loop_decides rest before rules :
  (∀ r, r ∈ rest → rule_type r = type → remove_preceding r = Some true → applies r = true) →
  optimize_loop before rest = Some rules →
  deciding applies rules = deciding applies (before ++ rest).
Proof.
  revert before. induction rest as [|r rest IH]; intros before Hall; simpl.
  { intros [= <-]. by rewrite app_nil_r. }
  destruct (remove_preceding r) as [rp|] eqn:Erp; [|done]. simpl. intros E.
  rewrite (IH _ (λ x Hx, Hall x (proj2 (elem_of_cons rest x r) (or_intror Hx))) E).
  rewrite <- app_assoc. change (r :: rest) with ([r] ++ rest).
  rewrite !(deciding_app _ _ ([r] ++ rest)). destruct rp; [|done].
  destruct (deciding applies ([r] ++ rest)) eqn:Ed; [done|].
  destruct (decide (rule_type r = type)) as [Ht|Ht]; [|by apply remove_other].
  rewrite deciding_app in Ed. destruct (deciding applies rest); [done|].
  unfold deciding in Ed. rewrite filter_cons_True in Ed; [done|].
  apply Hall; [by left|done|done].
Qed.

End optimize.

Lemma optimize_defined before rest :
  Forall (λ r, per_client r = true) rest → is_Some (optimize_loop before rest).
Proof.
  revert before. induction rest as [|r rest IH]; intros before Hall; [simpl; eauto|].
  apply list.Forall_cons in Hall as [Hr Hall]. simpl. unfold per_client in Hr. unfold remove_preceding.
  destruct (rule_d r); simpl; try done; by apply IH.
Qed.

Lemma no_conditions_inv d :
  no_conditions d = true →
  match_type d = DBUS_MESSAGE_TYPE_INVALID ∧ match_path d = None ∧ match_interface d = None
  ∧ match_member d = None ∧ match_error d = None ∧ match_peer d = None.
Proof.
  unfold no_conditions. rewrite !andb_true_iff, !bool_decide_eq_true, Z.eqb_eq. tauto.
Qed.

(** A rule without conditions applies, but for the flags about replies and
    eavesdropping. *)
Lemma no_conditions_send b rr receiver msg r d log :
  rule_d r = BUS_POLICY_RULE_SEND d log → no_conditions d = true →
  reply_ok (rule_allow r) d rr msg = true → send_applies b rr receiver msg r = true.
Proof.
  intros Ed (E1 & E2 & E3 & E4 & E5 & E6)%no_conditions_inv Hr.
  unfold send_applies, header_ok, type_ok. rewrite Ed, E1, E2, E3, E4, E5, E6, Hr. done.
Qed.

Lemma no_conditions_receive b rr ev sender msg r d :
  rule_d r = BUS_POLICY_RULE_RECEIVE d → no_conditions d = true →
  reply_ok (rule_allow r) d rr msg = true → eavesdrop_ok (rule_allow r) d ev = true →
  receive_applies b rr ev sender msg r = true.
Proof.
  intros Ed (E1 & E2 & E3 & E4 & E5 & E6)%no_conditions_inv Hr He.
  unfold receive_applies, header_ok, type_ok. rewrite Ed, E1, E2, E3, E4, E5, E6, Hr, He. done.
Qed.

Lemma own_optimized rules rules' name :
  bus_client_policy_optimize rules = Some rules' →
  policy_check_can_own rules' name = policy_check_can_own rules name.
Proof.
  intros E. rewrite !can_own_decides. unfold decision. f_equal.
  apply (optimize_loop_decides _ OWN) with (before := []); [| |done].
  - intros r. unfold own_applies, rule_type. by destruct (rule_d r).
  - intros r _. unfold own_applies, rule_type, remove_preceding.
    destruct (rule_d r) as [| |o| |]; try done. intros _ [= ->%bool_decide_eq_true]. done.
Qed.

(** *** The layers of a client's policy *)

Section layers.
Context `{PolicyEnv}.

(** Default, group, user, console and mandatory rules, in this order; [user] is
    the user and whether he is at the console. *)
Definition client_layers (p : BusPolicy) (groups : list Z) (user : option (Z * bool)) :
    list BusPolicyRule :=
  filter (λ r, per_client r = true)
    (default_rules p
     ++ concat (map (λ g, default [] (rules_by_gid p !! g)) groups)
     ++ match user with
        | Some (uid, at_console) =>
            default [] (rules_by_uid p !! uid)
            ++ (if at_console : bool then at_console_true_rules p else at_console_false_rules p)
        | None => []
        end
     ++ mandatory_rules p).

(** What the environment says about a connection. *)
Definition known_groups (p : BusPolicy) (c : connection) (groups : list Z) : Prop :=
  (rules_by_gid p = ∅ ∧ groups = []) ∨ bus_connection_get_unix_groups c = inr groups.
Definition known_user (c : connection) (user : option (Z * bool)) : Prop :=
  match dbus_connection_get_unix_user c with
  | None => user = None
  | Some uid => ∃ k, _dbus_unix_user_is_at_console uid = inr k ∧ user = Some (uid, k)
  end.
Definition env_error (c : connection) (e : error_name) : Prop :=
  bus_connection_get_unix_groups c = inl e
  ∨ ∃ uid, dbus_connection_get_unix_user c = Some uid ∧ _dbus_unix_user_is_at_console uid = inl e.

Let clear (e : option error_name) : Prop := e = None.
Let refused_by (c : connection) (e : option error_name) : Prop :=
  e = Some DBUS_ERROR_NO_MEMORY ∨ ∃ e0, e = Some e0 ∧ env_error c e0.

Lemma nomem_rule {A} (c : M (option error_name) A) Q (F : option error_name → Prop) L :
  hoare clear c Q clear L → F (Some DBUS_ERROR_NO_MEMORY) → hoare clear (nomem c) Q F L.
Proof. intros Hc HF. eapply hoare_on_failure; [exact Hc|]. intros e m ->. done. Qed.

Lemma add_list_rule l client L :
  hoare clear (add_list_to_client l client)
    (λ x e, x = client ++ filter (λ r, per_client r = true) l ∧ clear e) clear L.
Proof.
  revert client. induction l as [|r l IH]; intros client; simpl.
  { apply hoare_ret. by rewrite app_nil_r. }
  eapply (hoare_bind _ _ _ (λ x e, x = client ++ filter (λ r, per_client r = true) [r] ∧ clear e)).
  - destruct (per_client r) eqn:Er.
    + eapply hoare_bind; [apply request_rule|]. intros []; cbv beta. apply hoare_ret.
      by rewrite filter_cons_True.
    + apply hoare_ret. rewrite filter_cons_False by (by rewrite Er). by rewrite app_nil_r.
  - intros x; cbv beta. apply hoare_pure_l. intros ->.
    change (r :: l) with ([r] ++ l). rewrite list.filter_app, app_assoc. apply IH.
Qed.

Lemma add_groups_rule p groups client L :
  hoare clear (add_groups p groups client)
    (λ x e, x = client ++ filter (λ r, per_client r = true)
                 (concat (map (λ g, default [] (rules_by_gid p !! g)) groups)) ∧ clear e) clear L.
Proof.
  revert client. induction groups as [|g groups IH]; intros client; simpl.
  { apply hoare_ret. by rewrite app_nil_r. }
  eapply (hoare_bind _ _ _ (λ x e, x = client ++ filter (λ r, per_client r = true)
    (default [] (rules_by_gid p !! g)) ∧ clear e)).
  - destruct (rules_by_gid p !! g); simpl; [apply add_list_rule|].
    apply hoare_ret. by rewrite app_nil_r.
  - intros x; cbv beta. apply hoare_pure_l. intros ->. rewrite list.filter_app, app_assoc. apply IH.
Qed.

Lemma failed_rule {A} c e Q :
  env_error c e →
  hoare clear (failed_with e : M (option error_name) A) Q (refused_by c) (∃ e0, env_error c e0).
Proof. intros He s m _. split; [right; eauto|right; eauto]. Qed.

Let mine (l : list BusPolicyRule) : list BusPolicyRule := filter (λ r, per_client r = true) l.
Let group_rules p groups := concat (map (λ g, default [] (rules_by_gid p !! g)) groups).
Let user_rules p (user : option (Z * bool)) :=
  match user with
  | Some (uid, k) => default [] (rules_by_uid p !! uid)
      ++ (if k : bool then at_console_true_rules p else at_console_false_rules p)
  | None => []
  end.

Lemma oom_refused c : refused_by c (Some DBUS_ERROR_NO_MEMORY).
Proof. by left. Qed.

Lemma group_layer_rule p c client :
  hoare clear (add_group_rules p c client)
    (λ x e, (∃ groups, known_groups p c groups ∧ x = client ++ mine (group_rules p groups)) ∧ clear e)
    (refused_by c) (∃ e0, env_error c e0).
Proof.
  unfold add_group_rules. destruct (0 <? size (rules_by_gid p))%nat eqn:Esz.
  - destruct (bus_connection_get_unix_groups c) as [e|groups] eqn:Eg;
      [apply failed_rule; by left|].
    apply nomem_rule; [|apply oom_refused].
    eapply hoare_conseq with (L' := False); [apply add_groups_rule|done| |done|done].
    intros x e [-> He]. split; [|done]. exists groups. split; [by right|done].
  - apply Nat.ltb_ge in Esz. assert (rules_by_gid p = ∅) as E0 by (apply map_size_empty_inv; lia).
    apply hoare_ret. intros e He. split; [|done]. exists []. split; [by left|]. by rewrite app_nil_r.
Qed.

Lemma user_rule p uid client L :
  hoare clear (add_user_rules p uid client)
    (λ x e, x = client ++ mine (default [] (rules_by_uid p !! uid)) ∧ clear e)
    (λ e, e = Some DBUS_ERROR_NO_MEMORY) L.
Proof.
  unfold add_user_rules. destruct (rules_by_uid p !! uid) as [l|] eqn:El.
  - assert (0 < size (rules_by_uid p))%nat as Hsz.
    { destruct (size (rules_by_uid p)) eqn:E0; [|lia]. apply map_size_empty_inv in E0.
      by rewrite E0, lookup_empty in El. }
    rewrite (proj2 (Nat.ltb_lt _ _) Hsz). apply nomem_rule; [apply add_list_rule|done].
  - destruct (0 <? _)%nat; apply hoare_ret; by rewrite app_nil_r.
Qed.

Lemma console_rule p c uid client l :
  dbus_connection_get_unix_user c = Some uid → client = l ++ mine (default [] (rules_by_uid p !! uid)) →
  hoare clear (add_console_rules p uid client)
    (λ x e, (∃ user, known_user c user ∧ x = l ++ mine (user_rules p user)) ∧ clear e)
    (refused_by c) (∃ e0, env_error c e0).
Proof.
  intros Eu ->. unfold add_console_rules, known_user. rewrite Eu.
  destruct (_dbus_unix_user_is_at_console uid) as [e|k] eqn:Ek; [apply failed_rule; right; eauto|].
  assert (∀ l', (if k then at_console_true_rules p else at_console_false_rules p) = l' →
    hoare clear (nomem (add_list_to_client l' (l ++ mine (default [] (rules_by_uid p !! uid)))))
    (λ x e, (∃ user, (∃ k0, @inr error_name bool k = inr k0 ∧ user = Some (uid, k0))
       ∧ x = l ++ mine (user_rules p user)) ∧ clear e)
    (refused_by c) (∃ e0, env_error c e0)) as Hl; [|destruct k; by apply Hl].
  intros l' <-. apply nomem_rule; [|apply oom_refused].
  eapply hoare_conseq with (L' := False); [apply add_list_rule|done| |done|done].
  intros x e [-> He]. split; [|done]. exists (Some (uid, k)). split; [eauto|].
  unfold mine, user_rules. by rewrite list.filter_app, app_assoc.
Qed.

(** The rules of a client are the per-client rules of the layers, and never make
    the optimization meet a rule it does not expect. *)
Lemma create_rule p c :
  hoare clear (bus_policy_create_client_policy p c)
    (λ rules e, e = None ∧ ∃ groups user, known_groups p c groups ∧ known_user c user
       ∧ bus_client_policy_optimize (client_layers p groups user) = Some rules)
    (refused_by c) (∃ e0, env_error c e0).
Proof.
  unfold bus_policy_create_client_policy. apply hoare_gets. intros e He. unfold clear in He. subst e.
  apply hoare_assert; [done|].
  eapply hoare_bind; [apply nomem_rule; [apply request_rule|apply oom_refused]|]. intros []; cbv beta.
  eapply hoare_bind; [apply nomem_rule; [apply add_list_rule|apply oom_refused]|].
  intros x; cbv beta. apply hoare_pure_l. intros ->. simpl.
  change (filter _ (default_rules p)) with (mine (default_rules p)).
  eapply hoare_bind; [apply group_layer_rule|].
  intros x; cbv beta. apply hoare_pure_l. intros (groups & Hg & ->).
  eapply (hoare_bind _ _ _ (λ x e, (∃ user, known_user c user ∧
    x = (mine (default_rules p) ++ mine (group_rules p groups)) ++ mine (user_rules p user))
    ∧ clear e)).
  { destruct (dbus_connection_get_unix_user c) as [uid|] eqn:Eu.
    - eapply hoare_bind; [eapply hoare_conseq; [apply (user_rule p uid _ False)|done..| |done]|].
      { intros e ->. apply oom_refused. }
      intros x; cbv beta. apply hoare_pure_l. intros ->. by apply console_rule.
    - apply hoare_ret. intros e He. split; [|done]. exists None. unfold known_user. rewrite Eu.
      by rewrite app_nil_r. }
  intros x; cbv beta. apply hoare_pure_l. intros (user & Hu & ->).
  eapply hoare_bind; [apply nomem_rule; [apply add_list_rule|apply oom_refused]|].
  intros x; cbv beta. apply hoare_pure_l. intros ->.
  rewrite <- !app_assoc. unfold mine. rewrite <- !list.filter_app.
  match goal with |- context [bus_client_policy_optimize ?x] =>
    change x with (client_layers p groups user) end.
  destruct (optimize_defined [] (client_layers p groups user)) as [rules Er].
  { apply list.Forall_forall. intros r. unfold client_layers. rewrite list_elem_of_filter. tauto. }
  unfold bus_client_policy_optimize. rewrite Er. apply hoare_ret. intros e ->. split; [done|].
  exists groups, user. split_and!; done.
Qed.

End layers.

(** *** Building the policy *)

Lemma list_allows_user_decides def l uid groups :
  list_allows_user def l uid groups
  = from_option rule_allow def (deciding (user_rule_ok uid groups) l).
Proof.
  unfold deciding. revert def. induction l as [|r l IH]; intros def; [done|]. simpl.
  rewrite filter_cons. destruct (user_rule_ok uid groups r) eqn:Er.
  - rewrite decide_True by done. by rewrite last_cons_default, IH.
  - rewrite decide_False by done. apply IH.
Qed.

(** Mandatory rules override default rules, and these the owner of the process. *)
Lemma allow_user_decides `{PolicyEnv} p uid groups :
  _dbus_unix_groups_from_uid uid = Some groups →
  bus_policy_allow_unix_user p uid
  = from_option rule_allow (_dbus_unix_user_is_process_owner uid)
      (deciding (user_rule_ok uid groups) (default_rules p ++ mandatory_rules p)).
Proof.
  intros Eg. unfold bus_policy_allow_unix_user. rewrite Eg, !list_allows_user_decides, deciding_app.
  by destruct (deciding _ (mandatory_rules p)).
Qed.

Lemma preallocate_rule (P : BusPolicy → Prop) l L : hoare P (preallocate l) (λ _, P) P L.
Proof.
  induction l as [|r l IH]; [by apply hoare_ret|].
  eapply hoare_bind; [apply request_rule|]. intros []; cbv beta. exact IH.
Qed.

(** The lists of an id after absorbing a table. *)
Definition absorbed (m : gmap Z (list BusPolicyRule)) (l : list (Z * list BusPolicyRule)) :
    gmap Z (list BusPolicyRule) :=
  foldl (λ m '(k, rules), <[k := default [] (m !! k) ++ rules]> m) m l.

(** The policy without a table. *)
Definition rest_of (t : id_table) (p : BusPolicy) : BusPolicy := with_rules_by t (λ _, ∅) p.

Definition lawful (t : id_table) : Prop :=
  ∀ f p, rules_by t (with_rules_by t f p) = f (rules_by t p)
         ∧ rest_of t (with_rules_by t f p) = rest_of t p.

Lemma by_uid_lawful : lawful by_uid.
Proof. done. Qed.
Lemma by_gid_lawful : lawful by_gid.
Proof. done. Qed.

(** A table with the table [m] and the rest of [p]. *)
Definition table_is (t : id_table) (p : BusPolicy) (m : gmap Z (list BusPolicyRule)) (s : BusPolicy) :
    Prop := rules_by t s = m ∧ rest_of t s = rest_of t p.

Lemma get_list_rule t p m k L :
  lawful t →
  hoare (table_is t p m) (get_list t k)
    (λ _, table_is t p (<[k := default [] (m !! k)]> m)) (λ s, rest_of t s = rest_of t p) L.
Proof.
  intros Hlaw. unfold get_list. apply hoare_gets. intros s [Hm Hr]. rewrite Hm.
  destruct (m !! k) as [l|] eqn:Ek; simpl.
  - apply hoare_ret. intros s' ->. split; [by rewrite insert_id|done].
  - do 2 (eapply hoare_bind; [eapply hoare_conseq with (L' := False);
      [apply (request_rule (λ s', s' = s))|done|done|by intros s' ->|done]|]; intros []; cbv beta).
    apply hoare_modify. intros s' ->. destruct (Hlaw <[k := []]> s) as [H1 H2].
    split; [by rewrite H1, Hm|by rewrite H2].
Qed.

Lemma merge_ids_rule t p m l L :
  lawful t →
  hoare (table_is t p m) (merge_ids t l) (λ _, table_is t p (absorbed m l))
    (λ s, rest_of t s = rest_of t p) L.
Proof.
  intros Hlaw. revert m. induction l as [|[k rules] l IH]; intros m; simpl.
  { by apply hoare_ret. }
  eapply hoare_bind; [by apply get_list_rule|]. intros []; cbv beta.
  eapply hoare_bind; [eapply hoare_conseq with (L' := False); [apply preallocate_rule|done|done|
    by intros s []|done]|]. intros []; cbv beta.
  eapply (hoare_bind _ _ _ (λ _, table_is t p (<[k := default [] (m !! k) ++ rules]> m)));
    [|intros []; cbv beta; apply IH].
  apply hoare_modify. intros s [Hm Hr].
  destruct (Hlaw (partial_alter (λ o, Some (default [] o ++ rules)) k) s) as [H1 H2].
  split; [|by rewrite H2]. rewrite H1, Hm. apply map_eq. intros i.
  destruct (decide (i = k)) as [->|Hi].
  - by rewrite lookup_partial_alter_eq, !lookup_insert_eq.
  - by rewrite lookup_partial_alter_ne, !lookup_insert_ne.
Qed.

Lemma append_copy_rule f l p L :
  hoare (λ s, s = p) (append_copy_of_policy_list f l) (λ _ s, s = f (λ x, x ++ l) p) (λ s, s = p) L.
Proof.
  eapply hoare_bind; [apply preallocate_rule|]. intros []; cbv beta. apply hoare_modify.
  by intros s ->.
Qed.

(** ** Theorems *)

(** On a consistent bus the checks of a policy touch no freed memory and change
    nothing; the answer for a message is that of the last rule that applies to it,
    "no" if there is none, and the number of rules that apply is reported. *)
Theorem last_rule_decides b m rules requested_reply peer addressed proposed msg log :
  consistent b →
  let send := send_applies b requested_reply peer msg in
  let receive := receive_applies b requested_reply
    (is_eavesdropping addressed proposed msg) peer msg in
  bus_client_policy_check_can_send rules requested_reply peer msg log b m
  = Ok (decision send rules, Z.of_nat (length (filter (λ r, send r = true) rules)),
        from_option rule_log log (deciding send rules)) b m
  ∧ bus_client_policy_check_can_receive rules requested_reply peer addressed proposed msg b m
    = Ok (decision receive rules, Z.of_nat (length (filter (λ r, receive r = true) rules))) b m.
Proof.
  intros Hb send receive. split.
  - unfold bus_client_policy_check_can_send. by rewrite can_send_run.
  - unfold bus_client_policy_check_can_receive. by rewrite can_receive_run.
Qed.

(** C26: Optimizing the policy of a client does not change which names it may own, and
    changes no decision about a message to which every rule without conditions
    applies (such a rule still depends on the flags about replies and
    eavesdropping). *)
Theorem optimize_preserves b rules rules' :
  bus_client_policy_optimize rules = Some rules' →
  (∀ name, policy_check_can_own rules' name = policy_check_can_own rules name)
  ∧ (∀ rr receiver msg,
       (∀ r d log, r ∈ rules → rule_d r = BUS_POLICY_RULE_SEND d log → no_conditions d = true →
          reply_ok (rule_allow r) d rr msg = true) →
       decision (send_applies b rr receiver msg) rules'
       = decision (send_applies b rr receiver msg) rules)
  ∧ ∀ rr ev sender msg,
      (∀ r d, r ∈ rules → rule_d r = BUS_POLICY_RULE_RECEIVE d → no_conditions d = true →
         reply_ok (rule_allow r) d rr msg = true ∧ eavesdrop_ok (rule_allow r) d ev = true) →
      decision (receive_applies b rr ev sender msg) rules'
      = decision (receive_applies b rr ev sender msg) rules.
Proof.
  intros E. split; [intros name; by apply own_optimized|]. split.
  - intros rr receiver msg Hall. unfold decision. f_equal.
    apply (optimize_loop_decides _ SEND) with (before := []); [| |done].
    + intros r. unfold send_applies, rule_type. by destruct (rule_d r).
    + intros r Hr. unfold rule_type, remove_preceding.
      destruct (rule_d r) as [d l| | | |] eqn:Ed; try done. intros _ [= Hd].
      by eapply no_conditions_send; eauto.
  - intros rr ev sender msg Hall. unfold decision. f_equal.
    apply (optimize_loop_decides _ RECEIVE) with (before := []); [| |done].
    + intros r. unfold receive_applies, rule_type. by destruct (rule_d r).
    + intros r Hr. unfold rule_type, remove_preceding.
      destruct (rule_d r) as [|d| | |] eqn:Ed; try done. intros _ [= Hd].
      destruct (Hall r d Hr Ed Hd). by eapply no_conditions_receive.
Qed.

Definition any_bus : bus := start ∅.

(** An allow rule and a deny rule without conditions, as the configuration reader
    creates them: a reply that was requested is allowed, because the deny rule is
    about unrequested replies; after the optimization it is denied. *)
Theorem optimize_denies_requested_reply :
  let rules := [bus_policy_rule_new SEND true; bus_policy_rule_new SEND false] in
  let reply := Message 2 1 None None None None None None in
  ∃ rules', bus_client_policy_optimize rules = Some rules'
    ∧ bus_client_policy_check_can_send rules true None reply false any_bus plenty
      = Ok (true, 1, false) any_bus plenty
    ∧ bus_client_policy_check_can_send rules' true None reply false any_bus plenty
      = Ok (false, 0, false) any_bus plenty.
Proof. eexists. split; [reflexivity|]. split; vm_compute; reflexivity. Qed.

(** The policy of a new client: unless memory runs out or the system does not know
    the user or his groups, which is reported, it decides about names like the
    default, group, user, console and mandatory rules of the bus in this order;
    where a mandatory rule applies, no other rule matters. *)
Theorem client_policy_layers `{PolicyEnv} p c m :
  match bus_policy_create_client_policy p c None m with
  | Ok rules e _ =>
      e = None ∧ ∃ groups user, known_groups p c groups ∧ known_user c user ∧ ∀ name,
        policy_check_can_own rules name = decision (own_applies name) (client_layers p groups user)
        ∧ (is_Some (deciding (own_applies name) (mandatory_rules p)) →
           policy_check_can_own rules name = decision (own_applies name) (mandatory_rules p))
  | Failed e _ => (e = Some DBUS_ERROR_NO_MEMORY ∨ ∃ e0, e = Some e0 ∧ env_error c e0)
                  ∧ (may_fail m ∨ ∃ e0, env_error c e0)
  | Ub => False
  end.
Proof.
  pose proof (create_rule p c None m eq_refl) as Hc.
  destruct (bus_policy_create_client_policy p c None m) as [rules e m'|e m'|]; [|exact Hc|done].
  destruct Hc as [(He & groups & user & Hg & Hu & Er) _]. split; [done|].
  exists groups, user. split; [done|]. split; [done|]. intros name.
  rewrite (own_optimized _ _ name Er), can_own_decides. split; [done|]. intros [r Hr].
  unfold decision, client_layers. rewrite !list.filter_app, !app_assoc, deciding_app.
  assert (deciding (own_applies name) (filter (λ r, per_client r = true) (mandatory_rules p))
          = deciding (own_applies name) (mandatory_rules p)) as ->; [|by rewrite Hr].
  unfold deciding. f_equal. rewrite list_filter_filter. apply list_filter_iff. intros x.
  split; [tauto|]. intros Hx. split; [done|]. unfold own_applies, per_client in *.
  by destruct (rule_d x).
Qed.

(** The registry with the policies of its connections. *)
Definition policy_context (policies : connection → list BusPolicyRule) (B : BusContext) : BusContext :=
  Build_BusContext (λ c, policy_check_can_own (policies c)) (@bus_selinux_allows_acquire_service B)
    (@bus_context_get_max_services_per_connection B) (@_dbus_process_exists B)
    (@bus_context_get_max_completed_connections B) (@bus_context_get_max_connections_per_user B)
    (@Services.dbus_connection_get_unix_user B) (@dbus_connection_get_is_connected B) (@driver_message_allowed B).

(** C25: A connection is in the queue of a name other than its unique name, in a state
    the bus reaches by serving Hello and requests for names (with memory, and names
    without a process id), only if the last rule of its policy that applies to the
    name is an allow rule. *)
Theorem policy_enforced policies B cs b c name :
  rtc (@step (policy_context policies B)) (start cs) b →
  c ∈ map who (queue b name) → name_of b c ≠ Some name →
  ∃ r, deciding (own_applies name) (policies c) = Some r ∧ rule_allow r = true.
Proof.
  intros Hb Hc Hn.
  pose proof (@reachable_good (policy_context policies B) cs b Hb) as Hg.
  destruct (good_owner _ Hg _ _ Hc) as [(_ & _ & Hown)|?]; [|done].
  simpl in Hown. rewrite can_own_decides in Hown.
  unfold decision in Hown. destruct (deciding _ _) as [r|]; [|done]. by exists r.
Qed.

(** ** Examples *)

Section examples.

Let allow_send := bus_policy_rule_new SEND true.
Let deny_send := bus_policy_rule_new SEND false.
Let allow_own := bus_policy_rule_new OWN true.
Let call := Message 1 0 None None None None None None.

Lemma last_rule_decides_witness :
  bus_client_policy_check_can_send [allow_send; deny_send] false None call false any_bus plenty
  = Ok (false, 2, false) any_bus plenty.
Proof.
  by destruct (last_rule_decides any_bus plenty [allow_send; deny_send] false None None None call
    false (proj1 (start_idle ∅))) as [-> _].
Defined.

Lemma optimize_preserves_witness :
  decision (send_applies any_bus false None call) [deny_send]
  = decision (send_applies any_bus false None call) [allow_send; deny_send].
Proof.
  apply (optimize_preserves any_bus [allow_send; deny_send] [deny_send] eq_refl).
  intros r d log _ _ _. reflexivity.
Defined.

Let context := policy_context (λ _, [allow_own]) permissive.
Let calls := [(1%nat, Hello); (1%nat, Ask (RequestName (lit "a.b") 0))].
Let taken := default any_bus (@serve context calls (start {[1%nat]})).

Lemma policy_enforced_witness :
  queue taken (lit "a.b") = [Claim 1 false false]
  ∧ ∃ r, deciding (own_applies (lit "a.b")) [allow_own] = Some r ∧ rule_allow r = true.
Proof.
  assert (queue taken (lit "a.b") = [Claim 1 false false]) as Eq by (by vm_compute).
  split; [exact Eq|].
  apply (policy_enforced (λ _, [allow_own]) permissive {[1%nat]} taken 1 (lit "a.b"));
    [|rewrite Eq; by left|by vm_compute].
  apply (@serve_steps context calls). vm_compute. reflexivity.
Defined.

End examples.
