(* ===== verification/Auth.v ===== *)
(** * Auth: the authentication conversation

    Models src/dbus/dbus-auth.c and src/dbus/dbus-credentials.c: the client and
    the server side of the conversation that precedes the messages, with the
    mechanisms EXTERNAL (credentials of the socket), DBUS_COOKIE_SHA1 (a secret in
    the home directory) and ANONYMOUS.  Strings are lists of bytes here; every
    operation on a string that can run out of memory is a [request], which
    [DString] justifies.  Keyrings, SHA-1 and randomness are the class [AuthEnv]. *)

From S2P Require Import Prelude Search DString Text.

(** ** Credentials *)

Record DBusCredentials := Credentials {
  unix_pid : option Z;
  unix_uid : option Z;
  windows_sid : option bytes;
  adt_audit_data : option bytes
}.

Inductive DBusCredentialType :=
| DBUS_CREDENTIAL_UNIX_PROCESS_ID | DBUS_CREDENTIAL_UNIX_USER_ID
| DBUS_CREDENTIAL_ADT_AUDIT_DATA_ID | DBUS_CREDENTIAL_WINDOWS_SID.

Definition no_credentials : DBusCredentials := Credentials None None None None.

Definition opt_ok {A} `{EqDecision A} (sub super : option A) : bool :=
  match sub with None => true | Some x => bool_decide (super = Some x) end.

(** The audit data is compared over the length of the superset's; both are copies
    of the same data wherever the sources compare them. *)
Definition _dbus_credentials_are_superset (c possible_subset : DBusCredentials) : bool :=
  opt_ok (unix_pid possible_subset) (unix_pid c)
  && opt_ok (unix_uid possible_subset) (unix_uid c)
  && opt_ok (windows_sid possible_subset) (windows_sid c)
  && match adt_audit_data possible_subset, adt_audit_data c with
     | None, _ => true
     | Some x, Some y => bool_decide (take (length y) x = y)
     | Some _, None => false
     end.

Definition _dbus_credentials_are_empty (c : DBusCredentials) : bool :=
  bool_decide (unix_pid c = None) && bool_decide (unix_uid c = None)
  && bool_decide (windows_sid c = None) && bool_decide (adt_audit_data c = None).

Definition _dbus_credentials_are_anonymous (c : DBusCredentials) : bool :=
  bool_decide (unix_uid c = None) && bool_decide (windows_sid c = None).

Definition _dbus_credentials_same_user (c d : DBusCredentials) : bool :=
  bool_decide (unix_uid c = unix_uid d) && bool_decide (windows_sid c = windows_sid d).

(** ** The conversation *)

Inductive mechanism := EXTERNAL | DBUS_COOKIE_SHA1 | ANONYMOUS.

Definition mechanism_name (x : mechanism) : bytes :=
  match x with
  | EXTERNAL => lit "EXTERNAL"
  | DBUS_COOKIE_SHA1 => lit "DBUS_COOKIE_SHA1"
  | ANONYMOUS => lit "ANONYMOUS"
  end.

Definition all_mechanisms : list mechanism := [EXTERNAL; DBUS_COOKIE_SHA1; ANONYMOUS].

Inductive DBusAuthCommand :=
| DBUS_AUTH_COMMAND_AUTH | DBUS_AUTH_COMMAND_CANCEL | DBUS_AUTH_COMMAND_DATA
| DBUS_AUTH_COMMAND_BEGIN | DBUS_AUTH_COMMAND_REJECTED | DBUS_AUTH_COMMAND_OK
| DBUS_AUTH_COMMAND_ERROR | DBUS_AUTH_COMMAND_UNKNOWN.

Inductive DBusAuthStateData :=
| server_state_waiting_for_auth | server_state_waiting_for_data | server_state_waiting_for_begin
| client_state_need_send_auth | client_state_waiting_for_data | client_state_waiting_for_ok
| client_state_waiting_for_reject
| common_state_authenticated | common_state_need_disconnect.

#[export] Instance mechanism_eq_dec : EqDecision mechanism.
Proof. solve_decision. Defined.
#[export] Instance auth_command_eq_dec : EqDecision DBusAuthCommand.
Proof. solve_decision. Defined.
#[export] Instance auth_state_eq_dec : EqDecision DBusAuthStateData.
Proof. solve_decision. Defined.

(** States without a handler. *)
Definition DBUS_AUTH_IN_END_STATE (s : DBusAuthStateData) : bool :=
  match s with
  | client_state_need_send_auth | common_state_authenticated | common_state_need_disconnect => true
  | _ => false
  end.

(** The fields of DBusAuthServer and of DBusAuthClient. *)
Inductive auth_side :=
| Server (failures max_failures : Z) (guid : bytes)
| Client (mechs_to_try : list mechanism) (guid_from_server : bytes).

Abbreviation keyring_ptr := nat.

(** [random_used] counts the calls of [_dbus_generate_random_bytes]. *)
Record DBusAuth := Auth {
  side : auth_side;
  incoming : bytes;
  outgoing : bytes;
  auth_state : DBusAuthStateData;
  mech : option mechanism;
  identity : bytes;
  credentials : DBusCredentials;
  authorized_identity : DBusCredentials;
  desired_identity : DBusCredentials;
  context : bytes;
  keyring : option keyring_ptr;
  cookie_id : Z;
  challenge : bytes;
  allowed_mechs : option (list bytes);
  needed_memory : bool;
  already_got_mechanisms : bool;
  already_asked_for_initial_response : bool;
  buffer_outstanding : bool;
  random_used : nat
}.

Definition with_side f a :=
  Auth (f (side a)) (incoming a) (outgoing a) (auth_state a) (mech a) (identity a) (credentials a)
    (authorized_identity a) (desired_identity a) (context a) (keyring a) (cookie_id a)
    (challenge a) (allowed_mechs a) (needed_memory a) (already_got_mechanisms a)
    (already_asked_for_initial_response a) (buffer_outstanding a) (random_used a).
Definition with_incoming f a :=
  Auth (side a) (f (incoming a)) (outgoing a) (auth_state a) (mech a) (identity a) (credentials a)
    (authorized_identity a) (desired_identity a) (context a) (keyring a) (cookie_id a)
    (challenge a) (allowed_mechs a) (needed_memory a) (already_got_mechanisms a)
    (already_asked_for_initial_response a) (buffer_outstanding a) (random_used a).
Definition with_outgoing f a :=
  Auth (side a) (incoming a) (f (outgoing a)) (auth_state a) (mech a) (identity a) (credentials a)
    (authorized_identity a) (desired_identity a) (context a) (keyring a) (cookie_id a)
    (challenge a) (allowed_mechs a) (needed_memory a) (already_got_mechanisms a)
    (already_asked_for_initial_response a) (buffer_outstanding a) (random_used a).
Definition with_auth_state f a :=
  Auth (side a) (incoming a) (outgoing a) (f (auth_state a)) (mech a) (identity a) (credentials a)
    (authorized_identity a) (desired_identity a) (context a) (keyring a) (cookie_id a)
    (challenge a) (allowed_mechs a) (needed_memory a) (already_got_mechanisms a)
    (already_asked_for_initial_response a) (buffer_outstanding a) (random_used a).
Definition with_mech f a :=
  Auth (side a) (incoming a) (outgoing a) (auth_state a) (f (mech a)) (identity a) (credentials a)
    (authorized_identity a) (desired_identity a) (context a) (keyring a) (cookie_id a)
    (challenge a) (allowed_mechs a) (needed_memory a) (already_got_mechanisms a)
    (already_asked_for_initial_response a) (buffer_outstanding a) (random_used a).
Definition with_identity f a :=
  Auth (side a) (incoming a) (outgoing a) (auth_state a) (mech a) (f (identity a)) (credentials a)
    (authorized_identity a) (desired_identity a) (context a) (keyring a) (cookie_id a)
    (challenge a) (allowed_mechs a) (needed_memory a) (already_got_mechanisms a)
    (already_asked_for_initial_response a) (buffer_outstanding a) (random_used a).
Definition with_credentials f a :=
  Auth (side a) (incoming a) (outgoing a) (auth_state a) (mech a) (identity a) (f (credentials a))
    (authorized_identity a) (desired_identity a) (context a) (keyring a) (cookie_id a)
    (challenge a) (allowed_mechs a) (needed_memory a) (already_got_mechanisms a)
    (already_asked_for_initial_response a) (buffer_outstanding a) (random_used a).
Definition with_authorized_identity f a :=
  Auth (side a) (incoming a) (outgoing a) (auth_state a) (mech a) (identity a) (credentials a)
    (f (authorized_identity a)) (desired_identity a) (context a) (keyring a) (cookie_id a)
    (challenge a) (allowed_mechs a) (needed_memory a) (already_got_mechanisms a)
    (already_asked_for_initial_response a) (buffer_outstanding a) (random_used a).
Definition with_desired_identity f a :=
  Auth (side a) (incoming a) (outgoing a) (auth_state a) (mech a) (identity a) (credentials a)
    (authorized_identity a) (f (desired_identity a)) (context a) (keyring a) (cookie_id a)
    (challenge a) (allowed_mechs a) (needed_memory a) (already_got_mechanisms a)
    (already_asked_for_initial_response a) (buffer_outstanding a) (random_used a).
Definition with_context f a :=
  Auth (side a) (incoming a) (outgoing a) (auth_state a) (mech a) (identity a) (credentials a)
    (authorized_identity a) (desired_identity a) (f (context a)) (keyring a) (cookie_id a)
    (challenge a) (allowed_mechs a) (needed_memory a) (already_got_mechanisms a)
    (already_asked_for_initial_response a) (buffer_outstanding a) (random_used a).
Definition with_keyring f a :=
  Auth (side a) (incoming a) (outgoing a) (auth_state a) (mech a) (identity a) (credentials a)
    (authorized_identity a) (desired_identity a) (context a) (f (keyring a)) (cookie_id a)
    (challenge a) (allowed_mechs a) (needed_memory a) (already_got_mechanisms a)
    (already_asked_for_initial_response a) (buffer_outstanding a) (random_used a).
Definition with_cookie_id f a :=
  Auth (side a) (incoming a) (outgoing a) (auth_state a) (mech a) (identity a) (credentials a)
    (authorized_identity a) (desired_identity a) (context a) (keyring a) (f (cookie_id a))
    (challenge a) (allowed_mechs a) (needed_memory a) (already_got_mechanisms a)
    (already_asked_for_initial_response a) (buffer_outstanding a) (random_used a).
Definition with_challenge f a :=
  Auth (side a) (incoming a) (outgoing a) (auth_state a) (mech a) (identity a) (credentials a)
    (authorized_identity a) (desired_identity a) (context a) (keyring a) (cookie_id a)
    (f (challenge a)) (allowed_mechs a) (needed_memory a) (already_got_mechanisms a)
    (already_asked_for_initial_response a) (buffer_outstanding a) (random_used a).
Definition with_allowed_mechs f a :=
  Auth (side a) (incoming a) (outgoing a) (auth_state a) (mech a) (identity a) (credentials a)
    (authorized_identity a) (desired_identity a) (context a) (keyring a) (cookie_id a)
    (challenge a) (f (allowed_mechs a)) (needed_memory a) (already_got_mechanisms a)
    (already_asked_for_initial_response a) (buffer_outstanding a) (random_used a).
Definition with_needed_memory f a :=
  Auth (side a) (incoming a) (outgoing a) (auth_state a) (mech a) (identity a) (credentials a)
    (authorized_identity a) (desired_identity a) (context a) (keyring a) (cookie_id a)
    (challenge a) (allowed_mechs a) (f (needed_memory a)) (already_got_mechanisms a)
    (already_asked_for_initial_response a) (buffer_outstanding a) (random_used a).
Definition with_already_got_mechanisms f a :=
  Auth (side a) (incoming a) (outgoing a) (auth_state a) (mech a) (identity a) (credentials a)
    (authorized_identity a) (desired_identity a) (context a) (keyring a) (cookie_id a)
    (challenge a) (allowed_mechs a) (needed_memory a) (f (already_got_mechanisms a))
    (already_asked_for_initial_response a) (buffer_outstanding a) (random_used a).
Definition with_already_asked_for_initial_response f a :=
  Auth (side a) (incoming a) (outgoing a) (auth_state a) (mech a) (identity a) (credentials a)
    (authorized_identity a) (desired_identity a) (context a) (keyring a) (cookie_id a)
    (challenge a) (allowed_mechs a) (needed_memory a) (already_got_mechanisms a)
    (f (already_asked_for_initial_response a)) (buffer_outstanding a) (random_used a).
Definition with_buffer_outstanding f a :=
  Auth (side a) (incoming a) (outgoing a) (auth_state a) (mech a) (identity a) (credentials a)
    (authorized_identity a) (desired_identity a) (context a) (keyring a) (cookie_id a)
    (challenge a) (allowed_mechs a) (needed_memory a) (already_got_mechanisms a)
    (already_asked_for_initial_response a) (f (buffer_outstanding a)) (random_used a).
Definition with_random_used f a :=
  Auth (side a) (incoming a) (outgoing a) (auth_state a) (mech a) (identity a) (credentials a)
    (authorized_identity a) (desired_identity a) (context a) (keyring a) (cookie_id a)
    (challenge a) (allowed_mechs a) (needed_memory a) (already_got_mechanisms a)
    (already_asked_for_initial_response a) (buffer_outstanding a) (f (random_used a)).

Definition DBUS_AUTH_IS_SERVER (a : DBusAuth) : bool :=
  match side a with Server _ _ _ => true | Client _ _ => false end.

Abbreviation AM := (M DBusAuth).

Inductive keyring_result := KeyringOom | KeyringError | Keyring (k : keyring_ptr).

(** What the conversation asks of dbus-keyring.c, dbus-sha.c and the system. *)
Class AuthEnv := {
  _dbus_keyring_new_for_credentials : option DBusCredentials → bytes → keyring_result;
  _dbus_keyring_is_for_credentials : keyring_ptr → DBusCredentials → bool;
  _dbus_keyring_get_best_key : keyring_ptr → Z;
  _dbus_keyring_get_hex_key : keyring_ptr → Z → bytes;
  _dbus_keyring_validate_context : bytes → bool;
  _dbus_sha_compute : bytes → bytes;
  _dbus_generate_random_bytes : nat → nat → bytes;
  _dbus_credentials_add_from_user : DBusCredentials → bytes → option DBusCredentials;
  _dbus_append_user_from_current_process : bytes;
  _dbus_string_parse_int : bytes → option Z;
  VERSION : bytes
}.

Definition goto_state (s : DBusAuthStateData) : AM unit := modify (with_auth_state (λ _, s)).
Definition set_mech (x : option mechanism) : AM unit := modify (with_mech (λ _, x)).

Definition append_outgoing (s : bytes) : AM unit :=
  request;; modify (with_outgoing (λ o, o ++ s)).

(** *** Credentials of the conversation, changed in place *)

Record credential_field := CredentialField {
  get_credential : DBusAuth → DBusCredentials;
  with_credential : (DBusCredentials → DBusCredentials) → DBusAuth → DBusAuth
}.
Definition authorized : credential_field := CredentialField authorized_identity with_authorized_identity.
Definition desired : credential_field := CredentialField desired_identity with_desired_identity.
Definition from_socket : credential_field := CredentialField credentials with_credentials.

Definition _dbus_credentials_add_credential (f : credential_field) (which : DBusCredentialType)
    (other : DBusCredentials) : AM unit :=
  match which with
  | DBUS_CREDENTIAL_UNIX_PROCESS_ID =>
      match unix_pid other with
      | Some x => modify (with_credential f (λ c,
          Credentials (Some x) (unix_uid c) (windows_sid c) (adt_audit_data c)))
      | None => mret tt
      end
  | DBUS_CREDENTIAL_UNIX_USER_ID =>
      match unix_uid other with
      | Some x => modify (with_credential f (λ c,
          Credentials (unix_pid c) (Some x) (windows_sid c) (adt_audit_data c)))
      | None => mret tt
      end
  | DBUS_CREDENTIAL_WINDOWS_SID =>
      match windows_sid other with
      | Some x => request;; modify (with_credential f (λ c,
          Credentials (unix_pid c) (unix_uid c) (Some x) (adt_audit_data c)))
      | None => mret tt
      end
  | DBUS_CREDENTIAL_ADT_AUDIT_DATA_ID =>
      match adt_audit_data other with
      | Some x => request;; modify (with_credential f (λ c,
          Credentials (unix_pid c) (unix_uid c) (windows_sid c) (Some x)))
      | None => mret tt
      end
  end.

Definition _dbus_credentials_add_credentials (f : credential_field) (other : DBusCredentials) :
    AM unit :=
  _dbus_credentials_add_credential f DBUS_CREDENTIAL_UNIX_PROCESS_ID other;;
  _dbus_credentials_add_credential f DBUS_CREDENTIAL_UNIX_USER_ID other;;
  _dbus_credentials_add_credential f DBUS_CREDENTIAL_ADT_AUDIT_DATA_ID other;;
  _dbus_credentials_add_credential f DBUS_CREDENTIAL_WINDOWS_SID other.

Definition _dbus_credentials_clear (f : credential_field) : AM unit :=
  modify (with_credential f (λ _, no_credentials)).

Section auth.
Context `{AuthEnv}.

(** FALSE for a user that is not known, and for lack of memory. *)
Definition add_from_user (f : credential_field) (username : bytes) : AM bool :=
  ok ← attempt request;
  a ← gets id;
  match (if ok : bool then _dbus_credentials_add_from_user (get_credential f a) username else None) with
  | Some c => modify (with_credential f (λ _, c));; mret true
  | None => mret false
  end.

(** The shutdown functions of the mechanisms; those of the two sides agree. *)
Definition shutdown_func (x : mechanism) : AM unit :=
  match x with
  | DBUS_COOKIE_SHA1 => modify (with_cookie_id (λ _, -1));; modify (with_challenge (λ _, []))
  | EXTERNAL | ANONYMOUS => mret tt
  end.

Definition shutdown_mech : AM unit :=
  modify (with_already_asked_for_initial_response (λ _, false));;
  modify (with_identity (λ _, []));;
  _dbus_credentials_clear authorized;;
  _dbus_credentials_clear desired;;
  a ← gets id;
  match mech a with
  | Some x => shutdown_func x;; set_mech None
  | None => mret tt
  end.

(** *** What is sent *)

Definition crlf : bytes := [x0d; x0a].

Definition send_data (data : bytes) : AM unit :=
  if (length data =? 0)%nat then append_outgoing (lit "DATA" ++ crlf)
  else
    a ← gets id;
    on_failure
      (append_outgoing (lit "DATA ");; append_outgoing (hex_of data);; append_outgoing crlf)
      (modify (with_outgoing (take (length (outgoing a))))).

Definition rejected_line : bytes :=
  lit "REJECTED" ++ flat_map (λ x, x20 :: mechanism_name x) all_mechanisms ++ crlf.

(** The command is put together before it is copied. *)
Definition send_rejected : AM unit :=
  requests (2 + 2 * length all_mechanisms + 1);;
  append_outgoing rejected_line;;
  shutdown_mech;;
  a ← gets id;
  match side a with
  | Client _ _ => assert_ false
  | Server failures max_failures guid =>
      let failures := failures + 1 in
      modify (with_side (λ _, Server failures max_failures guid));;
      if max_failures <=? failures then goto_state common_state_need_disconnect
      else goto_state server_state_waiting_for_auth
  end.

Definition send_error (message : bytes) : AM unit :=
  append_outgoing (lit "ERROR " ++ [x22] ++ message ++ [x22] ++ crlf).

Definition send_ok : AM unit :=
  a ← gets id;
  match side a with
  | Client _ _ => assert_ false
  | Server _ _ guid =>
      on_failure
        (append_outgoing (lit "OK ");; append_outgoing guid;; append_outgoing crlf)
        (modify (with_outgoing (take (length (outgoing a)))));;
      goto_state server_state_waiting_for_begin
  end.

(** *** The server side of the mechanisms *)

(** An empty hash stands for a cookie that is not known. *)
Definition sha1_compute_hash (cookie_id : Z) (server_challenge client_challenge : bytes) : AM bytes :=
  a ← gets id;
  k ← checked (keyring a);
  requests 2;;
  let cookie := _dbus_keyring_get_hex_key k cookie_id in
  if (length cookie =? 0)%nat then mret []
  else
    requests 7;;
    mret (_dbus_sha_compute
            (server_challenge ++ [x3a] ++ client_challenge ++ [x3a] ++ cookie)).

Definition N_CHALLENGE_BYTES : nat := 16.

Definition random_bytes : AM bytes :=
  request;;
  a ← gets id;
  modify (with_random_used S);;
  mret (_dbus_generate_random_bytes (random_used a) N_CHALLENGE_BYTES).

(** The identity a client asks for; the result tells whether to go on. *)
Definition take_identity (data : bytes) : AM bool :=
  a ← gets id;
  if (0 <? length data)%nat then
    if (0 <? length (identity a))%nat then send_rejected;; mret false
    else request;; modify (with_identity (λ _, data));; mret true
  else mret true.

(** The keyring of the desired identity; NULL if it cannot be had. *)
Definition find_keyring : AM (option keyring_ptr) :=
  a ← gets id;
  (match keyring a with
   | Some k =>
       if _dbus_keyring_is_for_credentials k (desired_identity a) then mret tt
       else modify (with_keyring (λ _, None))
   | None => mret tt
   end);;
  a ← gets id;
  match keyring a with
  | Some k => mret (Some k)
  | None =>
      match _dbus_keyring_new_for_credentials (Some (desired_identity a)) (context a) with
      | KeyringOom => fail
      | KeyringError => mret None
      | Keyring k => modify (with_keyring (λ _, Some k));; mret (Some k)
      end
  end.

Definition send_challenge (id : Z) : AM unit :=
  requests 4;;
  tmp ← random_bytes;
  modify (with_challenge (λ _, []));;
  request;;
  modify (with_challenge (λ _, hex_of tmp));;
  request;;
  a ← gets (λ a, a);
  send_data (context a ++ [x20] ++ int_to_bytes id ++ [x20] ++ hex_of tmp);;
  goto_state server_state_waiting_for_data.

Definition sha1_handle_first_client_response (data : bytes) : AM unit :=
  modify (with_challenge (λ _, []));;
  ok ← take_identity data;
  if negb ok then mret tt
  else
    known ← add_from_user desired data;
    if negb known then send_rejected
    else
      requests 2;;
      k ← find_keyring;
      match k with
      | None => send_rejected
      | Some k =>
          let id := _dbus_keyring_get_best_key k in
          modify (with_cookie_id (λ _, id));;
          if id <? 0 then send_rejected else send_challenge id
      end.

Definition sha1_handle_second_client_response (data : bytes) : AM unit :=
  let '(found, i) := _dbus_string_find_blank data 0 in
  if negb found then send_rejected
  else
    requests 3;;
    let client_challenge := take i data in
    j ← checked (_dbus_string_skip_blank data i);
    request;;
    let client_hash := drop j data in
    if ((length client_challenge =? 0) || (length client_hash =? 0))%nat then send_rejected
    else
      request;;
      a ← gets id;
      correct_hash ← sha1_compute_hash (cookie_id a) (challenge a) client_challenge;
      if (length correct_hash =? 0)%nat then send_rejected
      else if negb (bool_decide (client_hash = correct_hash)) then send_rejected
      else
        a ← gets id;
        _dbus_credentials_add_credentials authorized (desired_identity a);;
        _dbus_credentials_add_credential authorized DBUS_CREDENTIAL_UNIX_PROCESS_ID (credentials a);;
        send_ok.

Definition handle_server_data_cookie_sha1_mech (data : bytes) : AM unit :=
  a ← gets id;
  if cookie_id a <? 0 then sha1_handle_first_client_response data
  else sha1_handle_second_client_response data.

(** Behind the identity: whom the client wants to be, and whether it may. *)
Definition external_authorize : AM unit :=
  a ← gets id;
  if _dbus_credentials_are_anonymous (desired_identity a) then send_rejected
  else if _dbus_credentials_are_superset (credentials a) (desired_identity a) then
    _dbus_credentials_add_credentials authorized (desired_identity a);;
    _dbus_credentials_add_credential authorized DBUS_CREDENTIAL_UNIX_PROCESS_ID (credentials a);;
    _dbus_credentials_add_credential authorized DBUS_CREDENTIAL_ADT_AUDIT_DATA_ID (credentials a);;
    send_ok
  else send_rejected.

Definition handle_server_data_external_mech (data : bytes) : AM unit :=
  a ← gets id;
  if _dbus_credentials_are_anonymous (credentials a) then send_rejected
  else
    ok ← take_identity data;
    if negb ok then mret tt
    else
      a ← gets id;
      if (length (identity a) =? 0)%nat && negb (already_asked_for_initial_response a) then
        send_data [];;
        modify (with_already_asked_for_initial_response (λ _, true));;
        goto_state server_state_waiting_for_data
      else
        _dbus_credentials_clear desired;;
        if (length (identity a) =? 0)%nat then
          _dbus_credentials_add_credentials desired (credentials a);;
          external_authorize
        else
          known ← add_from_user desired (identity a);
          if negb known then send_rejected else external_authorize.

Definition handle_server_data_anonymous_mech (data : bytes) : AM unit :=
  if (0 <? length data)%nat && negb (_dbus_string_validate_utf8 data 0 (length data))
  then send_rejected
  else
    _dbus_credentials_clear desired;;
    a ← gets id;
    _dbus_credentials_add_credential authorized DBUS_CREDENTIAL_UNIX_PROCESS_ID (credentials a);;
    send_ok.

Definition server_data_func (x : mechanism) : bytes → AM unit :=
  match x with
  | EXTERNAL => handle_server_data_external_mech
  | DBUS_COOKIE_SHA1 => handle_server_data_cookie_sha1_mech
  | ANONYMOUS => handle_server_data_anonymous_mech
  end.

Definition find_mech (name : bytes) (allowed : option (list bytes)) : option mechanism :=
  if match allowed with Some l => negb (bool_decide (name ∈ l)) | None => false end then None
  else find (λ x, bool_decide (name = mechanism_name x)) all_mechanisms.

Definition process_data (args : bytes) (data_func : bytes → AM unit) : AM unit :=
  requests 2;;
  if negb (length args =? hex_span args)%nat then send_error (lit "Invalid hex encoding")
  else data_func (unhex args).

Definition handle_auth (args : bytes) : AM unit :=
  if (length args =? 0)%nat then send_rejected
  else
    let '(_, i) := _dbus_string_find_blank args 0 in
    requests 2;;
    on_failure
      (request;;
       j ← checked (_dbus_string_skip_blank args i);
       request;;
       a ← gets id;
       let x := find_mech (take i args) (allowed_mechs a) in
       set_mech x;;
       match x with
       | Some x => process_data (drop j args) (server_data_func x)
       | None => send_rejected
       end)
      (set_mech None).

Definition handle_server_state_waiting_for_auth (command : DBusAuthCommand) (args : bytes) : AM unit :=
  match command with
  | DBUS_AUTH_COMMAND_AUTH => handle_auth args
  | DBUS_AUTH_COMMAND_CANCEL | DBUS_AUTH_COMMAND_DATA =>
      send_error (lit "Not currently in an auth conversation")
  | DBUS_AUTH_COMMAND_BEGIN => goto_state common_state_need_disconnect
  | DBUS_AUTH_COMMAND_ERROR => send_rejected
  | _ => send_error (lit "Unknown command")
  end.

Definition handle_server_state_waiting_for_data (command : DBusAuthCommand) (args : bytes) : AM unit :=
  match command with
  | DBUS_AUTH_COMMAND_AUTH => send_error (lit "Sent AUTH while another AUTH in progress")
  | DBUS_AUTH_COMMAND_CANCEL | DBUS_AUTH_COMMAND_ERROR => send_rejected
  | DBUS_AUTH_COMMAND_DATA =>
      a ← gets id;
      x ← checked (mech a);
      process_data args (server_data_func x)
  | DBUS_AUTH_COMMAND_BEGIN => goto_state common_state_need_disconnect
  | _ => send_error (lit "Unknown command")
  end.

Definition handle_server_state_waiting_for_begin (command : DBusAuthCommand) (args : bytes) : AM unit :=
  match command with
  | DBUS_AUTH_COMMAND_AUTH => send_error (lit "Sent AUTH while expecting BEGIN")
  | DBUS_AUTH_COMMAND_DATA => send_error (lit "Sent DATA while expecting BEGIN")
  | DBUS_AUTH_COMMAND_BEGIN => goto_state common_state_authenticated
  | DBUS_AUTH_COMMAND_CANCEL | DBUS_AUTH_COMMAND_ERROR => send_rejected
  | _ => send_error (lit "Unknown command")
  end.

(** *** The client side *)

Definition with_client (f : list mechanism → bytes → auth_side) : AM unit :=
  a ← gets id;
  match side a with
  | Client mechs guid => modify (with_side (λ _, f mechs guid))
  | Server _ _ _ => assert_ false
  end.

Definition mechs_to_try (a : DBusAuth) : list mechanism :=
  match side a with Client l _ => l | Server _ _ _ => [] end.
Definition guid_from_server (a : DBusAuth) : bytes :=
  match side a with Client _ g => g | Server _ _ _ => [] end.

Definition client_initial_response (x : mechanism) : bytes :=
  match x with
  | EXTERNAL | DBUS_COOKIE_SHA1 => hex_of _dbus_append_user_from_current_process
  | ANONYMOUS => hex_of (lit "libdbus " ++ VERSION)
  end.

Definition auth_line (x : mechanism) : bytes :=
  lit "AUTH " ++ mechanism_name x ++ [x20] ++ client_initial_response x ++ crlf.

(** The command is put together before it is copied. *)
Definition send_auth (x : mechanism) : AM unit :=
  requests 8;;
  append_outgoing (auth_line x);;
  shutdown_mech;;
  set_mech (Some x);;
  goto_state client_state_waiting_for_data.

Definition send_begin (args_from_ok : bytes) : AM unit :=
  a ← gets id;
  assert_ (length (guid_from_server a) =? 0)%nat;;
  request;;
  if negb (hex_span args_from_ok =? length args_from_ok)%nat || (hex_span args_from_ok =? 0)%nat
  then goto_state common_state_need_disconnect
  else
    on_failure
      (request;;
       with_client (λ mechs _, Client mechs args_from_ok);;
       append_outgoing (lit "BEGIN" ++ crlf))
      (with_client (λ mechs _, Client mechs []));;
    goto_state common_state_authenticated.

Definition send_cancel : AM unit :=
  append_outgoing (lit "CANCEL" ++ crlf);;
  goto_state client_state_waiting_for_reject.

(** The keyring of the current user. *)
Definition client_keyring (ctx : bytes) : AM bool :=
  a ← gets id;
  match keyring a with
  | Some _ => mret true
  | None =>
      match _dbus_keyring_new_for_credentials None ctx with
      | KeyringOom => fail
      | KeyringError => mret false
      | Keyring k => modify (with_keyring (λ _, Some k));; mret true
      end
  end.

Definition client_answer (val : Z) (server_challenge : bytes) : AM unit :=
  request;;
  tmp ← random_bytes;
  requests 3;;
  let client_challenge := hex_of tmp in
  correct_hash ← sha1_compute_hash val server_challenge client_challenge;
  if (length correct_hash =? 0)%nat then send_error (lit "Don't have the requested cookie ID")
  else
    requests 3;;
    send_data (client_challenge ++ [x20] ++ correct_hash).

Definition handle_client_data_cookie_sha1_mech (data : bytes) : AM unit :=
  let bad := lit "Server did not send context/ID/challenge properly" in
  let '(found, i) := _dbus_string_find_blank data 0 in
  if negb found then send_error bad
  else
    requests 2;;
    let ctx := take i data in
    i ← checked (_dbus_string_skip_blank data i);
    let '(found, j) := _dbus_string_find_blank data i in
    if negb found then send_error bad
    else
      requests 3;;
      let cookie_id_str := sub data i (j - i) in
      i ← checked (_dbus_string_skip_blank data j);
      request;;
      let server_challenge := drop i data in
      if negb (_dbus_keyring_validate_context ctx) then
        send_error (lit "Server sent invalid cookie context")
      else
        match _dbus_string_parse_int cookie_id_str with
        | None => send_error (lit "Could not parse cookie ID as an integer")
        | Some val =>
            if (length server_challenge =? 0)%nat then
              send_error (lit "Empty server challenge string")
            else
              ok ← client_keyring ctx;
              if negb ok then send_error (lit "Could not load cookie file")
              else client_answer val server_challenge
        end.

Definition client_data_func (x : mechanism) : bytes → AM unit :=
  match x with
  | DBUS_COOKIE_SHA1 => handle_client_data_cookie_sha1_mech
  | EXTERNAL | ANONYMOUS => λ _, mret tt
  end.

(** The start and the end of the next word. *)
Definition get_word (str : bytes) (start : nat) : AM (nat * bytes) :=
  start ← checked (_dbus_string_skip_blank str start);
  let '(_, i) := _dbus_string_find_blank str start in
  if (start <? i)%nat then request;; mret (i, sub str start (i - start))
  else mret (start, []).

(** Every turn gets to the end of a word; running out of turns would be [Ub]. *)
Fixpoint record_loop (fuel : nat) (args : bytes) (next : nat) : AM unit :=
  match fuel with
  | O => checked None
  | S fuel' =>
      if (next <? length args)%nat then
        request;;
        '(next, m) ← get_word args next;
        a ← gets id;
        (match find_mech m (allowed_mechs a) with
         | Some x =>
             if decide (x = EXTERNAL) then mret tt
             else request;; with_client (λ mechs guid, Client (mechs ++ [x]) guid)
         | None => mret tt
         end);;
        record_loop fuel' args next
      else mret tt
  end.

Definition record_mechanisms (args : bytes) : AM unit :=
  a ← gets id;
  if already_got_mechanisms a then mret tt
  else
    on_failure (record_loop (S (length args)) args 0) (with_client (λ _ guid, Client [] guid));;
    modify (with_already_got_mechanisms (λ _, true)).

Definition process_rejected (args : bytes) : AM unit :=
  record_mechanisms args;;
  a ← gets id;
  match mechs_to_try a with
  | x :: _ => send_auth x;; with_client (λ mechs guid, Client (tail mechs) guid)
  | [] => goto_state common_state_need_disconnect
  end.

Definition handle_client_state_waiting_for_data (command : DBusAuthCommand) (args : bytes) : AM unit :=
  a ← gets id;
  x ← checked (mech a);
  match command with
  | DBUS_AUTH_COMMAND_DATA => process_data args (client_data_func x)
  | DBUS_AUTH_COMMAND_REJECTED => process_rejected args
  | DBUS_AUTH_COMMAND_OK => send_begin args
  | DBUS_AUTH_COMMAND_ERROR => send_cancel
  | _ => send_error (lit "Unknown command")
  end.

Definition handle_client_state_waiting_for_ok (command : DBusAuthCommand) (args : bytes) : AM unit :=
  match command with
  | DBUS_AUTH_COMMAND_REJECTED => process_rejected args
  | DBUS_AUTH_COMMAND_OK => send_begin args
  | DBUS_AUTH_COMMAND_DATA | DBUS_AUTH_COMMAND_ERROR => send_cancel
  | _ => send_error (lit "Unknown command")
  end.

Definition handle_client_state_waiting_for_reject (command : DBusAuthCommand) (args : bytes) :
    AM unit :=
  match command with
  | DBUS_AUTH_COMMAND_REJECTED => process_rejected args
  | _ => goto_state common_state_need_disconnect
  end.

(** *** Commands *)

Definition auth_command_names : list (bytes * DBusAuthCommand) :=
  [(lit "AUTH", DBUS_AUTH_COMMAND_AUTH); (lit "CANCEL", DBUS_AUTH_COMMAND_CANCEL);
   (lit "DATA", DBUS_AUTH_COMMAND_DATA); (lit "BEGIN", DBUS_AUTH_COMMAND_BEGIN);
   (lit "REJECTED", DBUS_AUTH_COMMAND_REJECTED); (lit "OK", DBUS_AUTH_COMMAND_OK);
   (lit "ERROR", DBUS_AUTH_COMMAND_ERROR)].

Definition lookup_command_from_name (command : bytes) : DBusAuthCommand :=
  match find (λ x, bool_decide (command = fst x)) auth_command_names with
  | Some x => snd x
  | None => DBUS_AUTH_COMMAND_UNKNOWN
  end.

Definition handler (s : DBusAuthStateData) : DBusAuthCommand → bytes → AM unit :=
  match s with
  | server_state_waiting_for_auth => handle_server_state_waiting_for_auth
  | server_state_waiting_for_data => handle_server_state_waiting_for_data
  | server_state_waiting_for_begin => handle_server_state_waiting_for_begin
  | client_state_waiting_for_data => handle_client_state_waiting_for_data
  | client_state_waiting_for_ok => handle_client_state_waiting_for_ok
  | client_state_waiting_for_reject => handle_client_state_waiting_for_reject
  | _ => λ _ _, checked None
  end.

(** A line without its end: the command, and behind the blanks its arguments. *)
Definition run_command (line : bytes) : AM unit :=
  if negb (_dbus_string_validate_ascii line 0 (length line)) then
    send_error (lit "Command contained non-ASCII")
  else
    let '(_, i) := _dbus_string_find_blank line 0 in
    j ← checked (_dbus_string_skip_blank line i);
    request;;
    a ← gets id;
    handler (auth_state a) (lookup_command_from_name (take i line)) (drop j line).

(** Whether to call it again right away; a command that ran out of memory stays in
    the buffer. *)
Definition process_command : AM bool :=
  a ← gets id;
  let '(found, eol) := _dbus_string_find (incoming a) 0 crlf in
  if negb found then mret false
  else
    ok ← attempt
      (requests 3;;
       run_command (take eol (incoming a));;
       modify (with_incoming (drop (eol + 2))));
    modify (with_needed_memory (λ _, negb ok));;
    mret (ok : bool).

Inductive DBusAuthState :=
| DBUS_AUTH_STATE_WAITING_FOR_INPUT | DBUS_AUTH_STATE_WAITING_FOR_MEMORY
| DBUS_AUTH_STATE_HAVE_BYTES_TO_SEND | DBUS_AUTH_STATE_NEED_DISCONNECT
| DBUS_AUTH_STATE_AUTHENTICATED.

Definition MAX_BUFFER : nat := 16 * 1024.

Definition too_long (a : DBusAuth) : bool :=
  (MAX_BUFFER <? length (incoming a))%nat || (MAX_BUFFER <? length (outgoing a))%nat.

(** A command takes at least two bytes; running out of turns would be [Ub]. *)
Fixpoint work_loop (fuel : nat) : AM unit :=
  match fuel with
  | O => checked None
  | S fuel' =>
      a ← gets id;
      if DBUS_AUTH_IN_END_STATE (auth_state a) then mret tt
      else if too_long a then goto_state common_state_need_disconnect
      else
        again ← process_command;
        if (again : bool) then work_loop fuel' else mret tt
  end.

Definition work_result (a : DBusAuth) : DBusAuthState :=
  if needed_memory a then DBUS_AUTH_STATE_WAITING_FOR_MEMORY
  else if (0 <? length (outgoing a))%nat then DBUS_AUTH_STATE_HAVE_BYTES_TO_SEND
  else if bool_decide (auth_state a = common_state_need_disconnect) then
    DBUS_AUTH_STATE_NEED_DISCONNECT
  else if bool_decide (auth_state a = common_state_authenticated) then
    DBUS_AUTH_STATE_AUTHENTICATED
  else DBUS_AUTH_STATE_WAITING_FOR_INPUT.

Definition _dbus_auth_do_work : AM DBusAuthState :=
  modify (with_needed_memory (λ _, false));;
  a ← gets id;
  work_loop (S (length (incoming a)));;
  gets work_result.

(** *** Starting, input and output *)

Definition _dbus_auth_new (s : auth_side) (st : DBusAuthStateData) : DBusAuth :=
  Auth s [] [] st None [] no_credentials no_credentials no_credentials
    (lit "org_freedesktop_general") None (-1) [] None false false false false 0.

(** The object a successful call returns. *)
Definition _dbus_auth_server_new (guid : bytes) : DBusAuth :=
  _dbus_auth_new (Server 0 6 guid) server_state_waiting_for_auth.

(** The client speaks first; [None] if memory runs out. *)
Definition _dbus_auth_client_new (m : mem) : option DBusAuth * mem :=
  match send_auth EXTERNAL (_dbus_auth_new (Client [] []) client_state_need_send_auth) m with
  | Ok _ a m' => (Some a, m')
  | Failed _ m' => (None, m')
  | Ub => (None, m)
  end.

Definition _dbus_auth_bytes_sent (n : nat) : AM unit :=
  a ← gets id;
  assert_ (n <=? length (outgoing a))%nat;;
  modify (with_outgoing (drop n)).

Definition _dbus_auth_get_buffer : AM unit :=
  a ← gets id;
  assert_ (negb (buffer_outstanding a));;
  modify (with_buffer_outstanding (λ _, true)).

Definition _dbus_auth_return_buffer : AM unit :=
  a ← gets id;
  assert_ (buffer_outstanding a);;
  modify (with_buffer_outstanding (λ _, false)).

(** A transport reads bytes into the buffer. *)
Definition receive (bs : bytes) : AM unit :=
  _dbus_auth_get_buffer;;
  modify (with_incoming (λ s, s ++ bs));;
  _dbus_auth_return_buffer.

Definition _dbus_auth_get_bytes_to_send (a : DBusAuth) : option bytes :=
  if (length (outgoing a) =? 0)%nat then None else Some (outgoing a).

Definition _dbus_auth_get_unused_bytes (a : DBusAuth) : option bytes :=
  if DBUS_AUTH_IN_END_STATE (auth_state a) then Some (incoming a) else None.

Definition _dbus_auth_delete_unused_bytes : AM unit :=
  a ← gets id;
  if DBUS_AUTH_IN_END_STATE (auth_state a) then modify (with_incoming (λ _, [])) else mret tt.

Definition _dbus_auth_set_credentials (c : DBusCredentials) : AM unit :=
  _dbus_credentials_clear from_socket;;
  _dbus_credentials_add_credentials from_socket c.

Definition _dbus_auth_set_mechanisms (l : option (list bytes)) : AM unit :=
  (if decide (l = None) then mret tt else request);;
  modify (with_allowed_mechs (λ _, l)).

(** As many bytes of the old context are replaced as the new one has: the end of an
    old one that is longer stays, and a new one that is longer fails an assertion. *)
Definition _dbus_auth_set_context (ctx : bytes) : AM unit :=
  a ← gets id;
  assert_ (length ctx <=? length (context a))%nat;;
  request;;
  modify (with_context (λ old, ctx ++ drop (length ctx) old)).

(** Asked too early, it fails an assertion once a client has been authorized. *)
Definition _dbus_auth_get_identity : AM DBusCredentials :=
  a ← gets id;
  if bool_decide (auth_state a = common_state_authenticated) then mret (authorized_identity a)
  else
    assert_ (_dbus_credentials_are_empty (authorized_identity a));;
    mret (authorized_identity a).

Definition _dbus_auth_get_guid_from_server (a : DBusAuth) : option bytes :=
  if bool_decide (auth_state a = common_state_authenticated) then Some (guid_from_server a) else None.

End auth.
