(* ===== verification/Conversation.v ===== *)
(** * Conversation: what the authentication conversation guarantees

    Theorems on the server side of [Auth]: who is let in, with which evidence, that
    the work on the buffered lines always ends in a defined state, and two runs that
    show where the sources go wrong. *)

From S2P Require Import Prelude Search Text Auth.

(** ** Lines *)

(** A word, and what follows the blanks behind it. *)
Definition word_end (s : bytes) : nat := run_of (λ c, negb (DBUS_IS_ASCII_BLANK c)) s.
Definition next_word (s : bytes) : nat :=
  (word_end s + run_of DBUS_IS_ASCII_BLANK (drop (word_end s) s))%nat.
Definition split_word (s : bytes) : bytes * bytes := (take (word_end s) s, drop (next_word s) s).

(** No end-of-line byte directly behind a blank. *)
Fixpoint polite (s : bytes) : bool :=
  match s with
  | c :: s' =>
      match s' with
      | d :: _ => negb (DBUS_IS_ASCII_BLANK c && ((d =b x0a) || (d =b x0d))) && polite s'
      | [] => true
      end
  | [] => true
  end.

Definition command_of (line : bytes) : DBusAuthCommand * bytes :=
  let '(w, args) := split_word line in (lookup_command_from_name w, args).

(** The data a line carries: behind the mechanism of an AUTH, or of a DATA. *)
Definition payload (line : bytes) : option bytes :=
  let '(c, args) := command_of line in
  let hex := match c with
             | DBUS_AUTH_COMMAND_AUTH => Some (snd (split_word args))
             | DBUS_AUTH_COMMAND_DATA => Some args
             | _ => None
             end in
  match hex with
  | Some h => if (length h =? hex_span h)%nat then Some (unhex h) else None
  | None => None
  end.

Definition polite_line (line : bytes) : bool :=
  polite line && match payload line with Some d => polite d | None => true end.

Lemma polite_drop n s : polite s = true → polite (drop n s) = true.
Proof.
  revert s. induction n as [|n IH]; intros s; [done|]. destruct s as [|c s]; [done|].
  intros Hs. simpl. apply IH. destruct s; [done|]. cbn in Hs. by apply andb_true_iff in Hs as [_ ?].
Qed.

Lemma find_blank_word s :
  _dbus_string_find_blank s 0 = ((word_end s <? length s)%nat, word_end s).
Proof. unfold _dbus_string_find_blank. by rewrite drop_0. Qed.

Lemma white_blank d :
  DBUS_IS_ASCII_WHITE d = DBUS_IS_ASCII_BLANK d || ((d =b x0a) || (d =b x0d)).
Proof. unfold DBUS_IS_ASCII_WHITE, DBUS_IS_ASCII_BLANK. by rewrite !orb_assoc. Qed.

Lemma blanks_stop c t d r :
  polite (c :: t) = true → DBUS_IS_ASCII_BLANK c = true →
  drop (run_of DBUS_IS_ASCII_BLANK (c :: t)) (c :: t) = d :: r → DBUS_IS_ASCII_WHITE d = false.
Proof.
  revert c. induction t as [|e t IH]; intros c Hp Hc; simpl; rewrite Hc; [done|].
  pose proof (polite_drop 1 _ Hp : polite (e :: t) = true) as Ht.
  cbn in Hp. rewrite Hc in Hp. apply andb_true_iff in Hp as [He _].
  destruct (DBUS_IS_ASCII_BLANK e) eqn:Eb.
  - intros Hd. apply (IH e); [done..|]. simpl. by rewrite Eb.
  - simpl. intros [= <- <-]. rewrite white_blank, Eb. by destruct (_ || _).
Qed.

(** Behind a word, [skip_blank] gets to the next one unless the string is impolite. *)
Lemma skip_blank_word s :
  _dbus_string_skip_blank s (word_end s) = Some (next_word s) ∨
  _dbus_string_skip_blank s (word_end s) = None ∧ polite s = false.
Proof.
  unfold _dbus_string_skip_blank, next_word. set (i := word_end s).
  set (n := run_of _ (drop i s)).
  destruct (_ || _) eqn:E; [by left|]. right. split; [done|].
  apply orb_false_iff in E as [E1%Nat.eqb_neq E2%negb_false_iff].
  apply not_true_iff_false. intros Hp%(polite_drop i).
  assert (i <= length s)%nat as Hi by apply run_of_le.
  destruct (drop i s) as [|c t] eqn:Ed.
  { apply (f_equal length) in Ed. rewrite length_drop in Ed. subst n. simpl in *. lia. }
  assert (DBUS_IS_ASCII_BLANK c = true) as Hc by by apply negb_false_iff, (run_of_next _ _ _ _ Ed).
  assert (n <= length (c :: t))%nat as Hn by apply run_of_le.
  destruct (drop n (c :: t)) as [|d r] eqn:Er.
  { apply (f_equal length) in Er, Ed. rewrite length_drop in Er, Ed. simpl length in *. lia. }
  assert (byte_at s (i + n) = d) as Hat.
  { unfold byte_at. apply nth_lookup_Some. rewrite <- lookup_drop, Ed.
    rewrite <- (Nat.add_0_r n), <- lookup_drop. by rewrite Er. }
  rewrite Hat in E2. by rewrite (blanks_stop _ _ _ _ Hp Hc Er) in E2.
Qed.

(** ** What lets a client in *)

Definition users_within (c d : DBusCredentials) : Prop :=
  (unix_uid c = None ∨ unix_uid c = unix_uid d) ∧
  (windows_sid c = None ∨ windows_sid c = windows_sid d).
Definition same_users (c d : DBusCredentials) : Prop :=
  unix_uid c = unix_uid d ∧ windows_sid c = windows_sid d.
Definition no_user (c : DBusCredentials) : Prop := unix_uid c = None ∧ windows_sid c = None.

Definition allows (a : DBusAuth) (x : mechanism) : Prop :=
  match allowed_mechs a with None => True | Some l => mechanism_name x ∈ l end.

(** A line among the bytes that came in. *)
Definition heard (recv line : bytes) : Prop := ∃ pre post, recv = pre ++ line ++ crlf ++ post.

Section server.
Context `{AuthEnv}.

Definition keyring_for (a : DBusAuth) (k : keyring_ptr) : Prop :=
  _dbus_keyring_is_for_credentials k (desired_identity a) = true ∨
  _dbus_keyring_new_for_credentials (Some (desired_identity a)) (context a) = Keyring k.

(** The challenge comes from the random numbers drawn in this conversation. *)
Definition fresh (a : DBusAuth) : Prop :=
  ∃ n, (n < random_used a)%nat ∧
       challenge a = hex_of (_dbus_generate_random_bytes n N_CHALLENGE_BYTES).

(** A challenge and a hash that only who knows the cookie can compute. *)
Definition proves (a : DBusAuth) (data : bytes) : Prop :=
  ∃ k, keyring a = Some k ∧ keyring_for a k ∧
    let cookie := _dbus_keyring_get_hex_key k (cookie_id a) in
    let '(client_challenge, hash) := split_word data in
    cookie ≠ [] ∧ client_challenge ≠ [] ∧ hash ≠ [] ∧
    hash = _dbus_sha_compute (challenge a ++ [x3a] ++ client_challenge ++ [x3a] ++ cookie).

(** What stands behind an OK: the credentials of the socket, a proof of the cookie
    of the user the client wants to be, or nothing and then no user. *)
Definition evidence (recv : bytes) (x : mechanism) (a : DBusAuth) : Prop :=
  match x with
  | EXTERNAL =>
      ¬ no_user (authorized_identity a) ∧ users_within (authorized_identity a) (credentials a)
  | DBUS_COOKIE_SHA1 =>
      same_users (authorized_identity a) (desired_identity a) ∧
      ∃ line data, heard recv line ∧ payload line = Some data ∧ proves a data ∧
        (fst (command_of line) = DBUS_AUTH_COMMAND_DATA → fresh a)
  | ANONYMOUS => no_user (authorized_identity a)
  end.

(** ** The invariant *)

(** A mechanism at work, up to a command that ran out of memory half way. *)
Definition partial (x : mechanism) (a : DBusAuth) : Prop :=
  allows a x ∧
  match x with
  | EXTERNAL => cookie_id a < 0 ∧ users_within (authorized_identity a) (credentials a)
  | DBUS_COOKIE_SHA1 =>
      users_within (authorized_identity a) (desired_identity a) ∧
      (cookie_id a < 0 → no_user (authorized_identity a)) ∧
      (0 <= cookie_id a → ∃ k, keyring a = Some k ∧ keyring_for a k) ∧
      (auth_state a = server_state_waiting_for_data → 0 <= cookie_id a ∧ fresh a)
  | ANONYMOUS => cookie_id a < 0 ∧ no_user (authorized_identity a)
  end.

(** No trace of an earlier attempt. *)
Definition clean (a : DBusAuth) : Prop := no_user (authorized_identity a) ∧ cookie_id a < 0.

(** At most six rejections, the last of which ends the conversation. *)
Definition tally (a : DBusAuth) : Prop :=
  ∃ f guid, side a = Server f 6 guid ∧ 0 <= f <= 6 ∧
    (f = 6 → auth_state a = common_state_need_disconnect).

Definition settled (recv : bytes) (a : DBusAuth) : Prop :=
  match auth_state a with
  | server_state_waiting_for_auth => clean a
  | server_state_waiting_for_data => ∃ x, mech a = Some x ∧ partial x a
  | server_state_waiting_for_begin => ∃ x, mech a = Some x ∧ partial x a ∧ evidence recv x a
  | common_state_authenticated => ∃ x, mech a = Some x ∧ allows a x ∧ evidence recv x a
  | common_state_need_disconnect => True
  | _ => False
  end.

Definition kept (a0 a : DBusAuth) : Prop :=
  incoming a = incoming a0 ∧ credentials a = credentials a0 ∧ allowed_mechs a = allowed_mechs a0 ∧
  context a = context a0.

Definition answered (recv : bytes) (a0 a : DBusAuth) : Prop :=
  kept a0 a ∧ tally a ∧ settled recv a.

(** In the middle of a command of mechanism [x]. *)
Definition during (x : mechanism) (a0 a : DBusAuth) : Prop :=
  mech a = Some x ∧ auth_state a = auth_state a0 ∧ side a = side a0 ∧ outgoing a = outgoing a0 ∧
  kept a0 a ∧ partial x a.

(** ** Sending *)

(** Only the outgoing bytes of [a1] changed. *)
Definition sent_more (P : DBusAuth → Prop) (a : DBusAuth) : Prop :=
  ∃ a1 s, P a1 ∧ a = with_outgoing (λ o, o ++ s) a1.

Lemma append_triple U (P : DBusAuth → Prop) s :
  triple U P (append_outgoing s) (λ _, sent_more P) P.
Proof.
  eapply triple_bind; [apply triple_request|]. intros []; cbv beta. apply triple_modify.
  intros a HP. by exists a, s.
Qed.

Lemma sent_twice (P : DBusAuth → Prop) a : sent_more (sent_more P) a → sent_more P a.
Proof.
  intros (a1 & s & (a2 & s' & HP & ->) & ->). exists a2, (s' ++ s). split; [done|].
  unfold with_outgoing; simpl. by rewrite app_assoc.
Qed.

Lemma append_more U (P : DBusAuth → Prop) s :
  triple U (sent_more P) (append_outgoing s) (λ _, sent_more P) (sent_more P).
Proof.
  eapply triple_conseq; [apply append_triple|done| |done]. intros [] a. apply sent_twice.
Qed.

Lemma sent_nothing (P : DBusAuth → Prop) a : P a → sent_more P a.
Proof.
  intros HP. exists a, []. split; [done|]. destruct a. unfold with_outgoing. simpl. by rewrite app_nil_r.
Qed.

Lemma take_back a s :
  with_outgoing (take (length (outgoing a))) (with_outgoing (λ o, o ++ s) a) = a.
Proof. destruct a. unfold with_outgoing. simpl. by rewrite take_app_length. Qed.

(** Three pieces, or none of them. *)
Lemma three_pieces U (P : DBusAuth → Prop) s1 s2 s3 a :
  P a →
  triple U (λ a', a' = a)
    (on_failure (append_outgoing s1;; append_outgoing s2;; append_outgoing s3)
       (modify (with_outgoing (take (length (outgoing a))))))
    (λ _, sent_more P) P.
Proof.
  intros HP. eapply triple_on_failure with (F := sent_more (λ a', a' = a)).
  2: { apply triple_modify. intros a' (a1 & s & -> & ->). by rewrite take_back. }
  eapply triple_conseq with (Q' := λ _, sent_more (λ a', a' = a)) (F' := sent_more (λ a', a' = a));
    [|apply sent_nothing| |done].
  - do 2 (eapply triple_bind; [apply append_more|]; intros []; cbv beta). apply append_more.
  - intros _ a' (a1 & s & -> & ->). by exists a, s.
Qed.

Lemma send_data_triple U (P : DBusAuth → Prop) data :
  triple U P (send_data data) (λ _, sent_more P) P.
Proof.
  unfold send_data. case_if.
  - apply append_triple.
  - apply triple_gets. intros a HP. by apply three_pieces.
Qed.

Lemma send_error_triple U (P : DBusAuth → Prop) message :
  triple U P (send_error message) (λ _, sent_more P) P.
Proof. apply append_triple. Qed.

Lemma send_ok_triple U (P : DBusAuth → Prop) :
  (∀ a, P a → tally a) →
  triple U P send_ok
    (λ _ a, ∃ a1, sent_more P a1 ∧ a = with_auth_state (λ _, server_state_waiting_for_begin) a1) P.
Proof.
  intros Ht. apply triple_gets. intros a HP. destruct (Ht a HP) as (f & guid & -> & _).
  eapply triple_bind; [by apply three_pieces|]. intros []; cbv beta. apply triple_modify. eauto.
Qed.

(** *** Rejection *)

Lemma shutdown_triple U F a0 :
  (mech a0 = Some DBUS_COOKIE_SHA1 ∨ cookie_id a0 < 0) →
  triple U (λ a, a = a0) shutdown_mech
    (λ _ a, kept a0 a ∧ side a = side a0 ∧ auth_state a = auth_state a0 ∧ clean a) F.
Proof.
  intros Hc a m ->. destruct a0 as [sd ic og st x ide cr au de ctx kr ci ch al nm ag aa bo ru].
  cbn in *. unfold shutdown_mech, mbind, M_bind; cbn.
  destruct x as [[]|]; cbn; unfold kept, clean; cbn; repeat split; try done; naive_solver.
Qed.

Lemma send_rejected_triple U (P : DBusAuth → Prop) recv a0 :
  (∀ a, P a → tally a ∧ kept a0 a ∧ auth_state a ≠ common_state_need_disconnect ∧
              (mech a = Some DBUS_COOKIE_SHA1 ∨ cookie_id a < 0)) →
  triple U P send_rejected (λ _, answered recv a0) P.
Proof.
  intros HP. unfold send_rejected. eapply triple_bind; [apply triple_requests|]. intros []; cbv beta.
  eapply triple_bind; [apply append_triple|]. intros []; cbv beta.
  apply triple_exists. intros a1. apply triple_exists. intros s. apply triple_pure. intros H1.
  destruct (HP a1 H1) as ((f & guid & Es & Hf & Hmx) & Hk & Hd & Hc).
  eapply triple_bind; [by apply (shutdown_triple U P (with_outgoing (λ o, o ++ s) a1))|].
  intros []; cbv beta. apply triple_gets. intros a (Hka & Hs & Hst & Hcl). cbn in Hs, Hst, Hka.
  rewrite Hs, Es. eapply triple_bind.
  { by apply (triple_modify U _ _ (λ a', a' = with_side (λ _, Server (f + 1) 6 guid) a)); intros ? ->. }
  intros []; cbv beta.
  assert (f ≠ 6) as Hne by (intros ->; by apply Hd, Hmx).
  destruct (6 <=? f + 1) eqn:E; apply triple_modify; intros ? ->.
  - split; [|split]; [unfold kept in *; cbn in *; intuition congruence| |done].
    exists (f + 1), guid. cbn. split; [done|]. split; [lia|done].
  - split; [|split]; [unfold kept in *; cbn in *; intuition congruence| |done].
    exists (f + 1), guid. cbn. split; [done|]. split; lia.
Qed.

(** *** Adding credentials *)

Definition add_field (which : DBusCredentialType) (other c : DBusCredentials) : DBusCredentials :=
  let pick {A} (o old : option A) := match o with Some x => Some x | None => old end in
  match which with
  | DBUS_CREDENTIAL_UNIX_PROCESS_ID =>
      Credentials (pick (unix_pid other) (unix_pid c)) (unix_uid c) (windows_sid c) (adt_audit_data c)
  | DBUS_CREDENTIAL_UNIX_USER_ID =>
      Credentials (unix_pid c) (pick (unix_uid other) (unix_uid c)) (windows_sid c) (adt_audit_data c)
  | DBUS_CREDENTIAL_WINDOWS_SID =>
      Credentials (unix_pid c) (unix_uid c) (pick (windows_sid other) (windows_sid c)) (adt_audit_data c)
  | DBUS_CREDENTIAL_ADT_AUDIT_DATA_ID =>
      Credentials (unix_pid c) (unix_uid c) (windows_sid c) (pick (adt_audit_data other) (adt_audit_data c))
  end.

Definition lawful (f : credential_field) : Prop := ∀ g a, g (get_credential f a) = get_credential f a →
  with_credential f g a = a.

Lemma authorized_lawful : lawful authorized.
Proof. intros g [] E. cbn in *. unfold with_authorized_identity; cbn. by rewrite E. Qed.
Lemma desired_lawful : lawful desired.
Proof. intros g [] E. cbn in *. unfold with_desired_identity; cbn. by rewrite E. Qed.

Lemma add_credential_triple U f which other (P : DBusAuth → Prop) :
  lawful f →
  triple U P (_dbus_credentials_add_credential f which other)
    (λ _ a, ∃ a1, P a1 ∧ a = with_credential f (add_field which other) a1) P.
Proof.
  intros Hf. destruct which; cbn;
    (match goal with |- context [match ?o with Some _ => _ | None => _ end] => destruct o eqn:E end;
     [try (eapply triple_bind; [apply triple_request|]; intros []; cbv beta);
      apply triple_modify; intros a HP; exists a; split; [done|]; f_equal; unfold add_field; by rewrite E
     |apply triple_ret; intros a HP; exists a; split; [done|]; symmetry; apply Hf;
      unfold add_field; rewrite E; by destruct (get_credential f a)]).
Qed.

(** Every part of [other] added, from a predicate that each addition keeps. *)
Lemma add_credentials_triple U f other (P : DBusAuth → Prop) :
  lawful f →
  (∀ which a, P a → P (with_credential f (add_field which other) a)) →
  triple U P (_dbus_credentials_add_credentials f other)
    (λ _ a, ∃ a1, P a1 ∧
       a = with_credential f (add_field DBUS_CREDENTIAL_WINDOWS_SID other)
             (with_credential f (add_field DBUS_CREDENTIAL_ADT_AUDIT_DATA_ID other)
                (with_credential f (add_field DBUS_CREDENTIAL_UNIX_USER_ID other)
                   (with_credential f (add_field DBUS_CREDENTIAL_UNIX_PROCESS_ID other) a1)))) P.
Proof.
  intros Hf HP. unfold _dbus_credentials_add_credentials.
  eapply triple_bind; [by apply add_credential_triple|]. intros []; cbv beta.
  eapply triple_bind; [eapply triple_failure; [by apply add_credential_triple|]|];
    [by intros ? (? & ? & ->); apply HP|]. intros []; cbv beta.
  eapply triple_bind; [eapply triple_failure; [by apply add_credential_triple|]|];
    [by intros ? (? & (? & ? & ->) & ->); do 2 apply HP|]. intros []; cbv beta.
  eapply triple_result; [by apply add_credential_triple|..].
  - intros [] a (? & (? & (? & (a1 & ? & ->) & ->) & ->) & ->). by exists a1.
  - intros a (? & (? & (? & ? & ->) & ->) & ->). by do 3 apply HP.
Qed.

(** *** Rules shared by the mechanisms *)

Definition working (a : DBusAuth) : Prop :=
  tally a ∧ (auth_state a = server_state_waiting_for_auth ∨ auth_state a = server_state_waiting_for_data).

Lemma during_tally x a0 a : working a0 → during x a0 a → tally a.
Proof.
  intros ((f & guid & Hs & Hf & Hd) & _) (_ & Hst & Hsd & _).
  exists f, guid. rewrite Hsd, Hst. done.
Qed.

Lemma partial_cookie x a : partial x a → x = DBUS_COOKIE_SHA1 ∨ cookie_id a < 0.
Proof. destruct x; [|by left|]; intros (_ & ? & _); by right. Qed.

Lemma reject_rule U recv x a0 (P : DBusAuth → Prop) :
  working a0 → (∀ a, P a → during x a0 a) →
  triple U P send_rejected (λ _, answered recv a0) P.
Proof.
  intros Hw HP. apply send_rejected_triple. intros a Hd%HP. split; [by eapply during_tally|].
  destruct Hd as (Hm & Hst & _ & _ & Hk & Hp). split; [done|]. destruct Hw as [_ Hw]. split.
  - rewrite Hst. by destruct Hw as [->| ->].
  - rewrite Hm. destruct (partial_cookie _ _ Hp) as [->| ?]; [by left|by right].
Qed.

Lemma ok_rule U recv x a0 :
  working a0 →
  triple U (λ a, during x a0 a ∧ evidence recv x a) send_ok (λ _, answered recv a0) (during x a0).
Proof.
  intros Hw. eapply triple_result; [apply send_ok_triple| |by intros ? []].
  { intros a [Hd _]. by eapply during_tally. }
  intros [] a (? & (a1 & s & (Hd & He) & ->) & ->).
  pose proof (during_tally _ _ _ Hw Hd) as (f & guid & Hs & Hf & Hnd).
  destruct Hd as (Hm & Hst & Hsd & _ & Hk & Hp). split; [done|]. split.
  - exists f, guid. cbn. split; [done|]. split; [done|]. intros E. specialize (Hnd E).
    rewrite Hst in Hnd. destruct Hw as [_ [E'|E']]; by rewrite E' in Hnd.
  - cbn. exists x. split; [done|]. split; [|by destruct x].
    destruct x; destruct Hp as (Ha & Hp); split; try done. by destruct Hp as (? & ? & ? & _).
Qed.

Lemma identity_rule U recv x a0 data (P : DBusAuth → Prop) :
  working a0 → (∀ a, P a → during x a0 a) → (∀ a d, P a → P (with_identity (λ _, d) a)) →
  triple U P (take_identity data)
    (λ ok a, if (ok : bool) then P a else answered recv a0 a) P.
Proof.
  intros Hw Hd HP. apply triple_gets. intros a Ha. case_if; [|by apply triple_ret; intros ? ->].
  case_if.
  - eapply triple_bind; [eapply triple_pre; [by eapply (reject_rule U recv)|by intros ? ->]|].
    intros []; cbv beta. by apply triple_ret.
  - eapply triple_bind; [eapply triple_failure; [apply triple_request|by intros ? ->]|].
    intros []; cbv beta. eapply triple_bind; [by apply (triple_modify U _ _ P); intros ? ->; apply HP|].
    intros []; cbv beta. by apply triple_ret.
Qed.

Lemma from_user_rule U (P : DBusAuth → Prop) username :
  (∀ a c, P a → P (with_desired_identity (λ _, c) a)) →
  triple U P (add_from_user desired username) (λ _, P) P.
Proof.
  intros HP. unfold add_from_user.
  eapply triple_bind with (Q := λ _, P).
  { eapply triple_result; [apply triple_attempt, (triple_request U P)| |done].
    intros ok a Ha. by destruct ok; [destruct Ha|]. }
  intros ok; cbv beta. apply triple_gets. intros a Ha. case_match; [|by apply triple_ret; intros ? ->].
  eapply triple_bind; [by apply (triple_modify U _ _ P); intros ? ->; apply HP|].
  intros []; cbv beta. by apply triple_ret.
Qed.

Lemma waiting_answered recv x a0 a :
  working a0 → mech a = Some x → side a = side a0 → kept a0 a →
  auth_state a = server_state_waiting_for_data → partial x a → answered recv a0 a.
Proof.
  intros [(f & guid & Hs & Hf & Hnd) Hw] Hm Hsd Hk Hst Hp. split; [done|]. split.
  - exists f, guid. rewrite Hsd. split; [done|]. split; [done|]. intros E. specialize (Hnd E).
    destruct Hw as [E'|E']; by rewrite E' in Hnd.
  - unfold settled. rewrite Hst. by exists x.
Qed.

(** ** EXTERNAL *)

Lemma not_anonymous c : _dbus_credentials_are_anonymous c = false ↔ ¬ no_user c.
Proof.
  unfold _dbus_credentials_are_anonymous, no_user. rewrite andb_false_iff, !bool_decide_eq_false.
  destruct (unix_uid c), (windows_sid c); naive_solver.
Qed.

Lemma superset_users c d : _dbus_credentials_are_superset c d = true → users_within d c.
Proof.
  unfold _dbus_credentials_are_superset, opt_ok. rewrite !andb_true_iff. intros [[[_ Hu] Hs] _].
  split; [destruct (unix_uid d)|destruct (windows_sid d)];
    first [by left|by right; symmetry; apply bool_decide_eq_true in Hu || apply bool_decide_eq_true in Hs].
Qed.

(** The socket's user, in part or in full. *)
Definition external_part (d : DBusCredentials) (a0 a : DBusAuth) : Prop :=
  during EXTERNAL a0 a ∧ users_within d (credentials a).

Lemma external_part_add d a0 which a :
  external_part d a0 a →
  external_part d a0 (with_authorized_identity (add_field which d) a).
Proof.
  intros [(Hm & Hst & Hs & Ho & Hk & Ha & Hc & Hu & Hw) [Du Dw]].
  split; [|done]. do 7 (split; [done|]).
  destruct which; split; cbn; try done.
  - destruct (unix_uid d); [|done]. destruct Du as [?|Du]; [done|by right].
  - destruct (windows_sid d); [|done]. destruct Dw as [?|Dw]; [done|by right].
Qed.

(** Parts that are no users. *)
Lemma external_evidence_add recv other a0 which a :
  which = DBUS_CREDENTIAL_UNIX_PROCESS_ID ∨ which = DBUS_CREDENTIAL_ADT_AUDIT_DATA_ID →
  during EXTERNAL a0 a ∧ evidence recv EXTERNAL a →
  during EXTERNAL a0 (with_authorized_identity (add_field which other) a) ∧
  evidence recv EXTERNAL (with_authorized_identity (add_field which other) a).
Proof. intros [-> | ->] [Hd He]; split; done. Qed.

Lemma external_authorized recv d a0 a :
  external_part d a0 a → ¬ no_user d →
  (unix_uid (authorized_identity a) = unix_uid d ∨ unix_uid d = None) →
  (windows_sid (authorized_identity a) = windows_sid d ∨ windows_sid d = None) →
  during EXTERNAL a0 a ∧ evidence recv EXTERNAL a.
Proof.
  intros [Hd Hw] Hn Hu Hs. split; [done|]. split; [|apply Hd]. intros [Eu Ew]. apply Hn.
  split; [destruct Hu|destruct Hs]; congruence.
Qed.

Lemma external_authorize_rule U recv a0 :
  working a0 →
  triple U (during EXTERNAL a0) external_authorize (λ _, answered recv a0) (during EXTERNAL a0).
Proof.
  intros Hw. apply triple_gets. intros a1 H1.
  destruct (_dbus_credentials_are_anonymous _) eqn:En.
  { eapply triple_pre; [by apply (reject_rule U recv EXTERNAL a0 (during EXTERNAL a0))|by intros ? ->]. }
  destruct (_dbus_credentials_are_superset _ _) eqn:Es.
  2: { eapply triple_pre; [by apply (reject_rule U recv EXTERNAL a0 (during EXTERNAL a0))|by intros ? ->]. }
  apply not_anonymous in En. apply superset_users in Es. set (d := desired_identity a1) in *.
  set (R := λ a, during EXTERNAL a0 a ∧ evidence recv EXTERNAL a).
  eapply triple_bind with (Q := λ _, R).
  { eapply triple_conseq with (P' := external_part d a0);
      [apply add_credentials_triple; [apply authorized_lawful|intros; by apply external_part_add]
      |by intros ? ->| |by intros ? []].
    intros [] a (a2 & H2 & ->). apply (external_authorized recv d); [by do 4 apply external_part_add|done|..];
      cbn; destruct (unix_uid d), (windows_sid d); auto. }
  intros []; cbv beta. do 2 (eapply triple_bind with (Q := λ _, R);
    [eapply triple_result; [apply add_credential_triple, authorized_lawful| |by intros ? []];
     intros [] a (a2 & H2 & ->); by apply external_evidence_add; auto|intros []; cbv beta]).
  by apply ok_rule.
Qed.

Lemma external_rule U recv a0 data :
  working a0 →
  triple U (during EXTERNAL a0) (handle_server_data_external_mech data)
    (λ _, answered recv a0) (during EXTERNAL a0).
Proof.
  intros Hw. apply triple_gets. intros a1 H1. case_if.
  { eapply triple_pre; [by apply (reject_rule U recv EXTERNAL a0 (during EXTERNAL a0))|by intros ? ->]. }
  eapply triple_bind; [eapply triple_pre; [by apply (identity_rule U recv EXTERNAL a0 _ (during EXTERNAL a0))|by intros ? ->]|].
  intros ok; cbv beta. destruct ok; [|by apply triple_ret]. cbn [negb].
  apply triple_gets. intros a2 H2. case_if.
  - eapply triple_bind; [eapply triple_failure; [apply send_data_triple|by intros ? ->]|].
    intros []; cbv beta.
    eapply triple_bind with (Q := λ _ a, sent_more (during EXTERNAL a0) a).
    { apply triple_modify. intros a (a3 & s & -> & ->).
      by exists (with_already_asked_for_initial_response (λ _, true) a2), s. }
    intros []; cbv beta. apply triple_modify. intros a (a3 & s & (? & ? & ? & ? & ? & ?) & ->).
    by apply (waiting_answered _ EXTERNAL).
  - eapply triple_bind; [by apply (triple_modify U _ _ (during EXTERNAL a0)); intros ? ->|].
    intros []; cbv beta. case_if.
    + eapply triple_bind; [eapply triple_result with (Q := λ _, during EXTERNAL a0); [
        apply add_credentials_triple; [apply desired_lawful|done]|by intros [] ? (? & ? & ->)|done]|].
      intros []; cbv beta. by apply external_authorize_rule.
    + eapply triple_bind; [by apply from_user_rule|]. intros known; cbv beta.
      destruct known; [by apply external_authorize_rule|by eapply reject_rule].
Qed.

(** ** ANONYMOUS *)

Lemma anonymous_rule U recv a0 data :
  working a0 →
  triple U (during ANONYMOUS a0) (handle_server_data_anonymous_mech data)
    (λ _, answered recv a0) (during ANONYMOUS a0).
Proof.
  intros Hw. unfold handle_server_data_anonymous_mech. case_if; [by eapply reject_rule|].
  eapply triple_bind; [by apply (triple_modify U _ _ (during ANONYMOUS a0))|]. intros []; cbv beta.
  apply triple_gets. intros a1 H1.
  eapply triple_bind; [eapply triple_failure; [apply add_credential_triple, authorized_lawful|by intros ? ->]|].
  intros []; cbv beta. eapply triple_pre; [by apply (ok_rule U recv ANONYMOUS)|].
  intros a (a2 & -> & ->). split; [done|]. apply H1.
Qed.

(** ** DBUS_COOKIE_SHA1 *)

(** Before the cookie is chosen. *)
Definition cookie_open (a0 a : DBusAuth) : Prop :=
  during DBUS_COOKIE_SHA1 a0 a ∧ cookie_id a < 0 ∧ auth_state a0 = server_state_waiting_for_auth.

Lemma cookie_open_during a0 a :
  mech a = Some DBUS_COOKIE_SHA1 → auth_state a = auth_state a0 → side a = side a0 →
  outgoing a = outgoing a0 → kept a0 a → allows a DBUS_COOKIE_SHA1 →
  no_user (authorized_identity a) → cookie_id a < 0 → auth_state a0 = server_state_waiting_for_auth →
  cookie_open a0 a.
Proof.
  intros Hm Hst Hs Ho Hk Ha [Hu Hw] Hc Hst0. split; [|done]. do 6 (split; [done|]).
  split; [by split; left|]. split; [done|]. split; [lia|]. by rewrite Hst, Hst0.
Qed.

Lemma cookie_open_change a0 a a' :
  cookie_open a0 a → mech a' = mech a → auth_state a' = auth_state a → side a' = side a →
  outgoing a' = outgoing a → kept a a' → authorized_identity a' = authorized_identity a →
  cookie_id a' = cookie_id a → cookie_open a0 a'.
Proof.
  intros [(Hm & Hst & Hs & Ho & Hk & Ha & _ & Hn & _) [Hc Hst0]] Em Est Es Eo Ek Ea Ec.
  apply cookie_open_during; try congruence.
  - unfold kept in *. intuition congruence.
  - unfold allows in *. destruct Ek as (_ & _ & -> & _). done.
  - rewrite Ea. auto.
Qed.

(** Behind its choice, in the command that starts the conversation. *)
Definition cookie_chosen (a0 a : DBusAuth) : Prop :=
  during DBUS_COOKIE_SHA1 a0 a ∧ 0 <= cookie_id a ∧ auth_state a0 = server_state_waiting_for_auth.

Lemma keyring_triple U a0 :
  triple U (cookie_open a0) find_keyring
    (λ o a, cookie_open a0 a ∧
            ∀ k, o = Some k → keyring a = Some k ∧ keyring_for a k) (cookie_open a0).
Proof.
  apply triple_gets. intros a1 H1.
  eapply triple_bind with (Q := λ _ a, cookie_open a0 a ∧ ∀ k, keyring a = Some k → keyring_for a k).
  { destruct (keyring a1) as [k|] eqn:Ek; [destruct (_dbus_keyring_is_for_credentials k _) eqn:Ef|].
    - apply triple_ret. intros ? ->. split; [done|]. rewrite Ek. intros ? [= <-]. by left.
    - apply triple_modify. intros ? ->. split; [by eapply cookie_open_change|done].
    - apply triple_ret. intros ? ->. by rewrite Ek. }
  intros []; cbv beta. apply triple_gets. intros a2 [H2 Hk].
  destruct (keyring a2) as [k|] eqn:Ek; [apply triple_ret; naive_solver|].
  destruct (_dbus_keyring_new_for_credentials _ _) as [| |k] eqn:En.
  - by intros ? m ->.
  - apply triple_ret. by intros ? ->.
  - eapply triple_bind with (Q := λ _ a, a = with_keyring (λ _, Some k) a2);
      [by apply triple_modify; intros ? ->|]. intros []; cbv beta. apply triple_ret. intros ? ->.
    split; [by eapply cookie_open_change|]. intros ? [= <-]. split; [done|by right].
Qed.

Lemma cookie_choose a0 a k id :
  cookie_open a0 a → keyring a = Some k → keyring_for a k → 0 <= id →
  cookie_chosen a0 (with_cookie_id (λ _, id) a).
Proof.
  intros [(Hm & Hst & Hs & Ho & Hk & Ha & Hu & Hn & _) [Hc Hst0]] Ek Hfor Hid. split; [|done].
  do 7 (split; [done|]). split; [cbn; lia|]. split; [by intros _; exists k|].
  cbn. by rewrite Hst, Hst0.
Qed.

Lemma cookie_chosen_change a0 a c n :
  cookie_chosen a0 a → cookie_chosen a0 (with_random_used n (with_challenge c a)).
Proof.
  intros [(Hm & Hst & Hs & Ho & Hk & Ha & Hu & Hn & Hr & _) [Hc Hst0]]. split; [|done].
  do 9 (split; [done|]). cbn. by rewrite Hst, Hst0.
Qed.

Lemma random_triple U a0 :
  triple U (cookie_chosen a0) random_bytes
    (λ tmp a, cookie_chosen a0 a ∧
       ∃ n, (n < random_used a)%nat ∧ tmp = _dbus_generate_random_bytes n N_CHALLENGE_BYTES)
    (cookie_chosen a0).
Proof.
  eapply triple_bind; [apply triple_request|]. intros []; cbv beta. apply triple_gets. intros a1 H1.
  eapply triple_bind with (Q := λ _ a, a = with_random_used S a1); [by apply triple_modify; intros ? ->|].
  intros []; cbv beta. apply triple_ret. intros ? ->.
  split; [by apply (cookie_chosen_change a0 a1 (λ c, c))|]. exists (random_used a1). split; [cbn; lia|done].
Qed.

Lemma challenge_rule U recv a0 id :
  working a0 →
  triple U (cookie_chosen a0) (send_challenge id) (λ _, answered recv a0) (cookie_chosen a0).
Proof.
  intros Hw. unfold send_challenge. eapply triple_bind; [apply triple_requests|]. intros []; cbv beta.
  eapply triple_bind; [apply random_triple|]. intros tmp; cbv beta.
  set (R := λ a, cookie_chosen a0 a ∧ ∃ n, (n < random_used a)%nat ∧
                   tmp = _dbus_generate_random_bytes n N_CHALLENGE_BYTES).
  eapply triple_bind with (Q := λ _, R).
  { apply triple_modify. intros a [Ha Hn]. split; [by apply (cookie_chosen_change a0 a _ (λ n, n))|done]. }
  intros []; cbv beta. eapply triple_bind; [eapply triple_failure; [apply triple_request|by intros ? []]|].
  intros []; cbv beta.
  eapply triple_bind with (Q := λ _ a, cookie_chosen a0 a ∧ fresh a).
  { apply triple_modify. intros a [Ha (n & Hn & ->)].
    split; [by apply (cookie_chosen_change a0 a _ (λ n, n))|]. by exists n. }
  intros []; cbv beta. eapply triple_bind; [eapply triple_failure; [apply triple_request|by intros ? []]|].
  intros []; cbv beta. apply triple_gets. intros a1 [H1 Hf].
  eapply triple_bind; [eapply triple_failure; [apply send_data_triple|by intros ? ->]|].
  intros []; cbv beta. apply triple_modify. intros ? (a2 & s & -> & ->).
  destruct H1 as [(Hm & Hst & Hs & Ho & Hk & Ha & Hu & Hn & Hr & _) [Hc Hst0]].
  apply (waiting_answered _ DBUS_COOKIE_SHA1); done.
Qed.

Lemma choose_rule U recv a0 k :
  working a0 →
  triple U (λ a, cookie_open a0 a ∧ keyring a = Some k ∧ keyring_for a k)
    (let id := _dbus_keyring_get_best_key k in
     modify (with_cookie_id (λ _, id));; if id <? 0 then send_rejected else send_challenge id)
    (λ _, answered recv a0) (during DBUS_COOKIE_SHA1 a0).
Proof.
  intros Hw. cbv zeta. set (id := _dbus_keyring_get_best_key k). destruct (id <? 0) eqn:E.
  - eapply triple_bind with (Q := λ _, cookie_open a0).
    { apply triple_modify. intros a [[(Hm & Hst & Hs & Ho & Hk & Ha & _ & Hn & _) [Hc Hst0]] _].
      apply cookie_open_during; try done; [by apply Hn|]. cbn. lia. }
    intros []; cbv beta. eapply triple_failure;
      [eapply (reject_rule U recv DBUS_COOKIE_SHA1 a0); [done|by intros ? []]|by intros ? []].
  - eapply triple_bind with (Q := λ _, cookie_chosen a0).
    { apply triple_modify. intros a (Ha & Ek & Hk). eapply cookie_choose; [done..|lia]. }
    intros []; cbv beta. eapply triple_failure; [by apply challenge_rule|by intros ? []].
Qed.

(** A step that keeps the cookie open. *)
Ltac open_step rule :=
  eapply triple_bind; [eapply triple_failure; [rule; intros; by eapply cookie_open_change|by intros ? []]|].

Lemma cookie_first_rule U recv a0 data :
  working a0 →
  triple U (cookie_open a0) (sha1_handle_first_client_response data)
    (λ _, answered recv a0) (during DBUS_COOKIE_SHA1 a0).
Proof.
  intros Hw. assert (∀ a, cookie_open a0 a → during DBUS_COOKIE_SHA1 a0 a) as Hd by by intros ? [].
  assert (triple U (cookie_open a0) send_rejected (λ _, answered recv a0) (during DBUS_COOKIE_SHA1 a0))
    as Hrej by (eapply triple_failure; [by eapply reject_rule|done]).
  open_step ltac:(apply (triple_modify U _ _ (cookie_open a0) (cookie_open a0))). intros []; cbv beta.
  open_step ltac:(apply (identity_rule U recv DBUS_COOKIE_SHA1 a0 _ (cookie_open a0)); [done..|]).
  intros ok; cbv beta. destruct ok; [|by apply triple_ret]. cbn [negb].
  open_step ltac:(apply (from_user_rule U (cookie_open a0))). intros known; cbv beta.
  destruct known; [|done]. cbn [negb].
  eapply triple_bind; [eapply triple_failure; [apply triple_requests|done]|]. intros []; cbv beta.
  eapply triple_bind; [eapply triple_failure; [apply keyring_triple|done]|]. intros [k|]; cbv beta.
  - eapply triple_pre; [by apply choose_rule|]. intros a [Ha Hk]. split; [done|by apply Hk].
  - eapply triple_pre; [done|by intros ? []].
Qed.

Lemma hash_rule U a1 k id server_challenge client_challenge :
  keyring a1 = Some k →
  let cookie := _dbus_keyring_get_hex_key k id in
  triple U (λ a, a = a1) (sha1_compute_hash id server_challenge client_challenge)
    (λ h a, a = a1 ∧ (h ≠ [] → cookie ≠ [] ∧
       h = _dbus_sha_compute (server_challenge ++ [x3a] ++ client_challenge ++ [x3a] ++ cookie)))
    (λ a, a = a1).
Proof.
  intros Ek cookie. apply triple_gets. intros ? ->. rewrite Ek. apply triple_checked; [done|].
  intros ? [= <-]. eapply triple_bind; [apply triple_requests|]. intros []; cbv beta zeta. fold cookie.
  destruct (length cookie =? 0)%nat eqn:E; [by apply triple_ret|].
  eapply triple_bind; [apply triple_requests|]. intros []; cbv beta. apply triple_ret. intros a ->.
  split; [done|]. intros _. split; [|done]. by intros ->.
Qed.

(** The client showed that it knows the cookie; the user is authorized in part. *)
Definition cookie_part (recv : bytes) (d : DBusCredentials) (a0 a : DBusAuth) : Prop :=
  during DBUS_COOKIE_SHA1 a0 a ∧ desired_identity a = d ∧ 0 <= cookie_id a ∧
  ∃ line data, heard recv line ∧ payload line = Some data ∧ proves a data ∧
    (fst (command_of line) = DBUS_AUTH_COMMAND_DATA → fresh a).

Lemma users_within_add which c d : users_within c d → users_within (add_field which d c) d.
Proof.
  intros [Hu Hs]. destruct which; split; cbn; try done.
  - by destruct (unix_uid d); [right|].
  - by destruct (windows_sid d); [right|].
Qed.

Lemma cookie_part_add recv d a0 which a :
  cookie_part recv d a0 a → cookie_part recv d a0 (with_authorized_identity (add_field which d) a).
Proof.
  intros [(Hm & Hst & Hs & Ho & Hk & Ha & Hu & Hn & Hr) [Ed [Hc He]]]. split; [|done].
  do 6 (split; [done|]). split; [cbn; rewrite Ed in *; by apply users_within_add|].
  split; [cbn; lia|done].
Qed.

Lemma cookie_authorize_rule U recv a0 a1 :
  working a0 → cookie_part recv (desired_identity a1) a0 a1 →
  triple U (λ a, a = a1)
    (_dbus_credentials_add_credentials authorized (desired_identity a1);;
     _dbus_credentials_add_credential authorized DBUS_CREDENTIAL_UNIX_PROCESS_ID (credentials a1);;
     send_ok)
    (λ _, answered recv a0) (during DBUS_COOKIE_SHA1 a0).
Proof.
  intros Hw H1. set (d := desired_identity a1) in *.
  set (R := λ a, during DBUS_COOKIE_SHA1 a0 a ∧ evidence recv DBUS_COOKIE_SHA1 a).
  eapply triple_bind with (Q := λ _, R).
  { eapply triple_conseq with (P' := cookie_part recv d a0);
      [apply add_credentials_triple; [apply authorized_lawful|intros; by apply cookie_part_add]
      |by intros ? ->| |by intros ? []].
    intros [] a (a2 & H2 & ->). pose proof H2 as [(_ & _ & _ & _ & _ & _ & [Hu Hs] & _) [Ed _]].
    apply (cookie_part_add _ _ _ DBUS_CREDENTIAL_UNIX_PROCESS_ID) in H2.
    apply (cookie_part_add _ _ _ DBUS_CREDENTIAL_UNIX_USER_ID) in H2.
    apply (cookie_part_add _ _ _ DBUS_CREDENTIAL_ADT_AUDIT_DATA_ID) in H2.
    apply (cookie_part_add _ _ _ DBUS_CREDENTIAL_WINDOWS_SID) in H2.
    destruct H2 as (Hd & _ & _ & He).
    split; [exact Hd|]. split; [|exact He]. cbn. rewrite Ed in *.
    destruct (unix_uid d) eqn:Eu, (windows_sid d) eqn:Es; split; cbn; destruct Hu, Hs; congruence. }
  intros []; cbv beta. eapply triple_bind with (Q := λ _, R); [|intros []; by apply ok_rule].
  eapply triple_result; [apply add_credential_triple, authorized_lawful| |by intros ? []].
  intros [] a (a2 & (Hd & He) & ->). done.
Qed.

Lemma cookie_second_rule (U : Prop) recv a0 line data :
  working a0 → heard recv line → payload line = Some data →
  (fst (command_of line) = DBUS_AUTH_COMMAND_DATA → auth_state a0 = server_state_waiting_for_data) →
  (polite data = false → U) →
  triple U (λ a, during DBUS_COOKIE_SHA1 a0 a ∧ 0 <= cookie_id a)
    (sha1_handle_second_client_response data)
    (λ _, answered recv a0) (during DBUS_COOKIE_SHA1 a0).
Proof.
  intros Hw Hh Hp Hst HU. unfold sha1_handle_second_client_response. rewrite find_blank_word.
  assert (∀ P : DBusAuth → Prop, (∀ a, P a → during DBUS_COOKIE_SHA1 a0 a) →
    triple U P send_rejected (λ _, answered recv a0) (during DBUS_COOKIE_SHA1 a0)) as Hrej.
  { intros P HP. eapply triple_failure; [by eapply reject_rule|done]. }
  case_if; [by apply Hrej; intros ? []|].
  eapply triple_bind; [eapply triple_failure; [apply triple_requests|by intros ? []]|].
  intros []; cbv beta zeta. apply triple_checked.
  { intros E. apply HU. destruct (skip_blank_word data) as [E'|[_ ?]]; [by rewrite E' in E|done]. }
  intros j Ej. destruct (skip_blank_word data) as [E'|[E' _]]; rewrite Ej in E'; [|done].
  injection E' as ->. change (drop (next_word data) data) with (split_word data).2.
  change (take (word_end data) data) with (split_word data).1.
  eapply triple_bind; [eapply triple_failure; [apply triple_request|by intros ? []]|].
  intros []; cbv beta. destruct (_ || _) eqn:El; [by apply Hrej; intros ? []|].
  eapply triple_bind; [eapply triple_failure; [apply triple_request|by intros ? []]|].
  intros []; cbv beta. apply triple_gets. intros a1 [H1 Hc].
  pose proof H1 as (_ & _ & _ & _ & _ & _ & _ & _ & Hr & Hf). destruct (Hr Hc) as (k & Ek & Hk).
  eapply triple_bind; [eapply triple_failure; [by apply (hash_rule U a1 k)|by intros ? ->]|].
  intros h; cbv beta zeta. destruct (length h =? 0)%nat eqn:Eh; [by apply Hrej; intros ? [-> _]|].
  destruct (bool_decide _) eqn:Eb; [|by apply Hrej; intros ? [-> _]]. cbn [negb].
  apply bool_decide_eq_true in Eb.
  apply triple_gets. intros ? [-> Hh1]. eapply triple_pre; [apply cookie_authorize_rule; [done|]|done].
  split; [done|]. split; [done|]. split; [done|]. exists line, data. split; [done|]. split; [done|].
  split; [|intros Hd; by apply Hf; destruct H1 as (_ & -> & _); auto].
  exists k. split; [done|]. split; [done|]. cbv zeta. destruct (split_word data) as [cc hash].
  apply orb_false_iff in El as [E1%Nat.eqb_neq E2%Nat.eqb_neq]. apply Nat.eqb_neq in Eh.
  cbn in *. subst h. destruct Hh1 as [? ?]; [by intros ->|].
  split; [done|]. split; [by intros ->|]. split; [by intros ->|done].
Qed.

Lemma cookie_rule (U : Prop) recv a0 line data :
  working a0 → heard recv line → payload line = Some data →
  (fst (command_of line) = DBUS_AUTH_COMMAND_DATA → auth_state a0 = server_state_waiting_for_data) →
  (polite data = false → U) →
  triple U (during DBUS_COOKIE_SHA1 a0) (handle_server_data_cookie_sha1_mech data)
    (λ _, answered recv a0) (during DBUS_COOKIE_SHA1 a0).
Proof.
  intros Hw Hh Hp Hst HU. apply triple_gets. intros a1 H1. destruct (cookie_id a1 <? 0) eqn:E.
  - eapply triple_pre; [by apply cookie_first_rule|]. intros ? ->. split; [done|]. split; [lia|].
    destruct H1 as (_ & Hst1 & _ & _ & _ & _ & _ & _ & _ & Hf). destruct Hw as [_ [?|E1]]; [done|].
    rewrite E1 in Hst1. destruct (Hf Hst1). lia.
  - eapply triple_pre; [by apply (cookie_second_rule U recv a0 line)|]. intros ? ->. split; [done|lia].
Qed.

Lemma data_rule (U : Prop) recv a0 line data x :
  working a0 → heard recv line → payload line = Some data →
  (fst (command_of line) = DBUS_AUTH_COMMAND_DATA → auth_state a0 = server_state_waiting_for_data) →
  (polite data = false → U) →
  triple U (during x a0) (server_data_func x data) (λ _, answered recv a0) (during x a0).
Proof.
  intros Hw Hh Hp Hst HU. destruct x;
    [by apply external_rule|by apply (cookie_rule U recv a0 line)|by apply anonymous_rule].
Qed.

(** ** Commands *)

(** The mechanism an AUTH line starts, and the data it hands to it. *)
Definition auth_start (allowed : option (list bytes)) (line : bytes) : option mechanism :=
  let '(c, args) := command_of line in
  if _dbus_string_validate_ascii line 0 (length line) && bool_decide (c = DBUS_AUTH_COMMAND_AUTH)
     && negb (length args =? 0)%nat
  then match payload line with
       | Some _ => find_mech (fst (split_word args)) allowed
       | None => None
       end
  else None.

(** With [line] the next to come: after an attempt that ran out of memory, it is the
    line that started the mechanism at work. *)
Definition ready (line : bytes) (a : DBusAuth) : Prop :=
  match auth_start (allowed_mechs a) line with
  | Some x => partial x a
  | None => clean a
  end.

Definition staged (recv line : bytes) (a : DBusAuth) : Prop :=
  match auth_state a with
  | server_state_waiting_for_auth => ready line a
  | _ => settled recv a
  end.

(** A command that failed: nothing sent, nothing decided. *)
Definition backed (recv line : bytes) (a0 a : DBusAuth) : Prop :=
  auth_state a = auth_state a0 ∧ side a = side a0 ∧ outgoing a = outgoing a0 ∧ kept a0 a ∧
  staged recv line a.

Lemma find_mech_spec name allowed x :
  find_mech name allowed = Some x →
  name = mechanism_name x ∧ match allowed with Some l => mechanism_name x ∈ l | None => True end.
Proof.
  unfold find_mech. destruct allowed as [l|].
  - destruct (bool_decide (name ∈ l)) eqn:E; [|done]. cbn [negb]. intros Hf.
    apply find_some in Hf as [_ ->%bool_decide_eq_true]. split; [done|]. by apply bool_decide_eq_true in E.
  - intros Hf. apply find_some in Hf as [_ ->%bool_decide_eq_true]. done.
Qed.

Lemma clean_partial x a :
  clean a → allows a x → auth_state a ≠ server_state_waiting_for_data → partial x a.
Proof.
  intros [[Hu Hs] Hc] Ha Hst. split; [done|]. destruct x; [split; [done|]; by split; left| |done].
  split; [by split; left|]. split; [done|]. split; [lia|done].
Qed.

(** A clean state is ready for every line. *)
Lemma clean_ready line a :
  auth_state a = server_state_waiting_for_auth → clean a → ready line a.
Proof.
  intros Hst Hc. unfold ready. destruct (auth_start _ _) as [x|] eqn:E; [|done].
  apply clean_partial; [done| |by rewrite Hst]. unfold auth_start in E.
  destruct (command_of line) as [c args]. destruct (_ && _); [|done].
  destruct (payload line); [|done]. apply find_mech_spec in E as [_ E]. exact E.
Qed.

Lemma staged_refl recv line a0 : staged recv line a0 → backed recv line a0 a0.
Proof. done. Qed.

Lemma during_backed recv line x a0 a :
  working a0 →
  (auth_state a0 = server_state_waiting_for_auth → auth_start (allowed_mechs a0) line = Some x) →
  during x a0 a → backed recv line a0 a.
Proof.
  intros [_ Hw] Hs (Hm & Hst & Hsd & Ho & Hk & Hp). do 4 (split; [done|]).
  unfold staged. rewrite Hst. destruct Hw as [E|E]; rewrite E.
  - unfold ready. destruct Hk as (_ & _ & -> & _). by rewrite (Hs E).
  - unfold settled. rewrite Hst, E. by exists x.
Qed.

(** A message only: the state stays as it was. *)
Lemma error_rule U recv line a0 message (P : DBusAuth → Prop) :
  tally a0 → (auth_state a0 = server_state_waiting_for_auth → auth_start (allowed_mechs a0) line = None) →
  (∀ a, P a → backed recv line a0 a) →
  triple U P (send_error message) (λ _, answered recv a0) P.
Proof.
  intros (f & guid & Hs & Hf & Hnd) Hnone HP.
  eapply triple_result; [apply send_error_triple| |done]. intros [] a (a1 & s & H1%HP & ->).
  destruct H1 as (Hst & Hsd & _ & Hk & Hsg). split; [done|]. split.
  - exists f, guid. cbn. rewrite Hsd, Hst. done.
  - unfold staged in Hsg. destruct (decide (auth_state a0 = server_state_waiting_for_auth)) as [E|E].
    + rewrite Hst, E in Hsg. unfold ready in Hsg. destruct Hk as (_ & _ & Hal & _).
      rewrite Hal, (Hnone E) in Hsg. unfold settled. cbn. by rewrite Hst, E.
    + enough (settled recv a1) as Hset by exact Hset. rewrite Hst in Hsg. by destruct (auth_state a0).
Qed.

Lemma rejected_rule U recv line a0 (P : DBusAuth → Prop) :
  tally a0 → auth_state a0 ≠ common_state_need_disconnect →
  (∀ a, P a → backed recv line a0 a ∧ (mech a = Some DBUS_COOKIE_SHA1 ∨ cookie_id a < 0)) →
  triple U P send_rejected (λ _, answered recv a0) P.
Proof.
  intros (f & guid & Hs & Hf & Hnd) Hst HP. apply send_rejected_triple.
  intros a Ha. destruct (HP a Ha) as [(Est & Es & Eo & Hk & _) Hc]. split; [|split; [done|split; [by rewrite Est|done]]].
  exists f, guid. rewrite Es, Est. done.
Qed.

Lemma process_data_rule (U : Prop) recv line a0 hex x :
  working a0 → heard recv line →
  (auth_state a0 = server_state_waiting_for_auth ∧ auth_start (allowed_mechs a0) line =
     (if (length hex =? hex_span hex)%nat then Some x else None) ∨
   auth_state a0 = server_state_waiting_for_data) →
  payload line = (if (length hex =? hex_span hex)%nat then Some (unhex hex) else None) →
  (fst (command_of line) = DBUS_AUTH_COMMAND_DATA → auth_state a0 = server_state_waiting_for_data) →
  (polite_line line = false → U) →
  triple U (λ a, mech a = Some x ∧ backed recv line a0 a ∧
                 (auth_state a0 = server_state_waiting_for_data → partial x a))
    (process_data hex (server_data_func x))
    (λ _, answered recv a0) (backed recv line a0).
Proof.
  intros Hw Hh Hstart Hpay Hst HU. unfold process_data.
  eapply triple_bind; [eapply triple_failure; [apply triple_requests|by intros ? (_ & ? & _)]|].
  intros []; cbv beta. destruct (length hex =? hex_span hex)%nat eqn:E; cbn [negb].
  - eapply triple_conseq; [eapply (data_rule U recv a0 line _ x); try done| |done|].
    + intros Hp. apply HU. unfold polite_line. by rewrite Hpay, Hp, andb_false_r.
    + intros a (Hm & (Es & Esd & Eo & Hk & Hsg) & Hp). do 5 (split; [done|]).
      destruct Hstart as [[E0 Hx]|E0]; [|by apply Hp].
      unfold staged, ready in Hsg. rewrite Es, E0 in Hsg. destruct Hk as (_ & _ & Hal & _).
      by rewrite Hal, Hx in Hsg.
    + intros a. apply during_backed; [done|]. intros E0. destruct Hstart as [[_ ?]|E1]; [done|].
      by rewrite E0 in E1.
  - eapply triple_failure; [eapply (error_rule U recv line a0)|].
    + apply Hw.
    + intros E0. destruct Hstart as [[_ ?]|E1]; [done|]. by rewrite E0 in E1.
    + by intros a (_ & ? & _).
    + by intros a (_ & ? & _).
Qed.

Lemma auth_payload line args :
  command_of line = (DBUS_AUTH_COMMAND_AUTH, args) →
  let h := (split_word args).2 in
  payload line = if (length h =? hex_span h)%nat then Some (unhex h) else None.
Proof. intros Hc. unfold payload. by rewrite Hc. Qed.

Lemma auth_start_args allowed line args :
  _dbus_string_validate_ascii line 0 (length line) = true →
  command_of line = (DBUS_AUTH_COMMAND_AUTH, args) →
  let h := (split_word args).2 in
  auth_start allowed line =
    if negb (length args =? 0)%nat && (length h =? hex_span h)%nat
    then find_mech (split_word args).1 allowed else None.
Proof.
  intros Hv Hc. unfold auth_start. rewrite Hc, Hv, (auth_payload _ _ Hc), bool_decide_true by done.
  cbn [andb]. by destruct (negb _), (length (split_word args).2 =? hex_span (split_word args).2)%nat.
Qed.

(** Nothing of an earlier attempt is left when the line starts no mechanism. *)
Lemma start_rejected U recv line a0 :
  tally a0 → auth_state a0 = server_state_waiting_for_auth →
  auth_start (allowed_mechs a0) line = None →
  triple U (backed recv line a0) send_rejected (λ _, answered recv a0) (backed recv line a0).
Proof.
  intros Ht Hst Hn. apply (rejected_rule U recv line); [done|by rewrite Hst|].
  intros a Ha. split; [done|]. right. destruct Ha as (Es & _ & _ & (_ & _ & Hal & _) & Hsg).
  unfold staged, ready in Hsg. rewrite Es, Hst, Hal, Hn in Hsg. apply Hsg.
Qed.

Lemma backed_mech recv line a0 x a :
  auth_state a0 = server_state_waiting_for_auth →
  backed recv line a0 a → backed recv line a0 (with_mech x a).
Proof.
  intros Hst (Es & Esd & Eo & Hk & Hsg). do 4 (split; [done|]).
  unfold staged in *. cbn. rewrite Es, Hst in *. exact Hsg.
Qed.

Lemma handle_auth_rule (U : Prop) recv line args a0 :
  tally a0 → auth_state a0 = server_state_waiting_for_auth → heard recv line →
  _dbus_string_validate_ascii line 0 (length line) = true →
  command_of line = (DBUS_AUTH_COMMAND_AUTH, args) →
  (polite_line line = false ∨ polite args = false → U) →
  triple U (backed recv line a0) (handle_auth args) (λ _, answered recv a0) (backed recv line a0).
Proof.
  intros Ht Hst Hh Hv Hc HU. pose proof (auth_start_args (allowed_mechs a0) _ _ Hv Hc) as Hstart.
  unfold handle_auth. destruct (length args =? 0)%nat; cbn [negb andb] in Hstart.
  { by apply start_rejected. }
  rewrite find_blank_word. eapply triple_bind; [apply triple_requests|]. intros []; cbv beta.
  eapply triple_on_failure with (F := backed recv line a0);
    [|apply triple_modify; intros a; by apply backed_mech].
  eapply triple_bind; [apply triple_request|]. intros []; cbv beta. apply triple_checked.
  { intros E. destruct (skip_blank_word args) as [E'|[_ ?]]; [by rewrite E' in E|auto]. }
  intros j Ej. destruct (skip_blank_word args) as [E'|[E' _]]; rewrite Ej in E'; [|done].
  injection E' as ->. eapply triple_bind; [apply triple_request|]. intros []; cbv beta.
  apply triple_gets. intros a1 H1. assert (allowed_mechs a1 = allowed_mechs a0) as -> by apply H1.
  change (take (word_end args) args) with (split_word args).1.
  change (drop (next_word args) args) with (split_word args).2.
  set (x := find_mech _ _) in *. cbv zeta.
  eapply triple_bind with (Q := λ _ a, mech a = x ∧ backed recv line a0 a).
  { apply triple_modify. intros ? ->. split; [done|by apply backed_mech]. }
  intros []; cbv beta. destruct x as [x|].
  - eapply triple_pre; [apply (process_data_rule U recv line); try done|].
    + split; [done|by left].
    + left. done.
    + by apply auth_payload.
    + by rewrite Hc.
    + auto.
    + intros a [Hm Ha]. split; [done|]. split; [done|]. by rewrite Hst.
  - eapply triple_pre; [apply start_rejected|by intros ? []]; [done..|]. rewrite Hstart. by case_if.
Qed.

(** *** The three states *)

Lemma disconnect_rule U recv line a0 :
  tally a0 →
  triple U (backed recv line a0) (goto_state common_state_need_disconnect)
    (λ _, answered recv a0) (backed recv line a0).
Proof.
  intros (f & guid & Hs & Hf & _). apply triple_modify. intros a (_ & Es & _ & Hk & _).
  split; [done|]. split; [|done]. exists f, guid. cbn. by rewrite Es.
Qed.

Lemma command_start_none allowed line :
  fst (command_of line) ≠ DBUS_AUTH_COMMAND_AUTH → auth_start allowed line = None.
Proof.
  intros Hc. unfold auth_start. destruct (command_of line) as [c args]. cbn in Hc.
  by rewrite (bool_decide_false _ Hc), andb_false_r.
Qed.

Lemma waiting_for_auth_rule (U : Prop) recv line c args a0 :
  tally a0 → auth_state a0 = server_state_waiting_for_auth → heard recv line →
  _dbus_string_validate_ascii line 0 (length line) = true → command_of line = (c, args) →
  (polite_line line = false ∨ polite args = false → U) →
  triple U (backed recv line a0) (handle_server_state_waiting_for_auth c args)
    (λ _, answered recv a0) (backed recv line a0).
Proof.
  intros Ht Hst Hh Hv Hc HU.
  assert (c ≠ DBUS_AUTH_COMMAND_AUTH → auth_start (allowed_mechs a0) line = None) as Hn.
  { intros ?. apply command_start_none. by rewrite Hc. }
  destruct c; cbn;
    first [by apply (handle_auth_rule U recv line)
          |by apply (error_rule U recv line a0); [done|by intros; apply Hn|done]
          |by apply disconnect_rule
          |by apply start_rejected; [..|apply Hn]].
Qed.

(** An attempt under way, or one that succeeded, is given up. *)
Lemma give_up_rule U recv line x a0 :
  tally a0 → auth_state a0 ≠ common_state_need_disconnect → staged recv line a0 → partial x a0 →
  mech a0 = Some x →
  triple U (λ a, a = a0) send_rejected (λ _, answered recv a0) (backed recv line a0).
Proof.
  intros Ht Hst Hs Hp Hm. eapply triple_failure; [apply (rejected_rule U recv line a0); [done..|]|].
  - intros ? ->. split; [done|]. rewrite Hm. destruct (partial_cookie _ _ Hp) as [->|]; auto.
  - by intros ? ->.
Qed.

Lemma message_rule U recv line a0 message :
  tally a0 → auth_state a0 ≠ server_state_waiting_for_auth → staged recv line a0 →
  triple U (λ a, a = a0) (send_error message) (λ _, answered recv a0) (backed recv line a0).
Proof.
  intros Ht Hst Hs. eapply triple_failure; [apply (error_rule U recv line a0); [done..|]|].
  - by intros ? ->.
  - by intros ? ->.
Qed.

Lemma waiting_for_data_rule (U : Prop) recv line c args a0 :
  tally a0 → auth_state a0 = server_state_waiting_for_data → heard recv line →
  command_of line = (c, args) → staged recv line a0 →
  (polite_line line = false → U) →
  triple U (λ a, a = a0) (handle_server_state_waiting_for_data c args)
    (λ _, answered recv a0) (backed recv line a0).
Proof.
  intros Ht Hst Hh Hc Hsg HU. pose proof Hsg as Hset. unfold staged, settled in Hset.
  rewrite Hst in Hset. destruct Hset as (x & Hm & Hp).
  destruct c; cbn;
    first [by apply message_rule; [|rewrite Hst|]
          |by apply (give_up_rule U recv line x); [|rewrite Hst|..]
          |eapply triple_pre; [by apply (disconnect_rule U recv line)|by intros ? ->]|idtac].
  apply triple_gets. intros ? ->. apply triple_checked; [by rewrite Hm|]. rewrite Hm. intros ? [= <-].
  eapply triple_pre; [apply (process_data_rule U recv line a0); try done|].
  - split; [done|by right].
  - by right.
  - unfold payload. by rewrite Hc.
  - by intros ? ->.
Qed.

Lemma waiting_for_begin_rule (U : Prop) recv line c args a0 :
  tally a0 → auth_state a0 = server_state_waiting_for_begin → staged recv line a0 →
  triple U (λ a, a = a0) (handle_server_state_waiting_for_begin c args)
    (λ _, answered recv a0) (backed recv line a0).
Proof.
  intros Ht Hst Hsg. pose proof Hsg as Hset. unfold staged, settled in Hset.
  rewrite Hst in Hset. destruct Hset as (x & Hm & Hp & He).
  destruct c; cbn;
    first [by apply message_rule; [|rewrite Hst|]
          |by apply (give_up_rule U recv line x); [|rewrite Hst|..]|idtac].
  apply triple_modify. intros ? ->. split; [done|]. destruct Ht as (f & guid & Hs & Hf & Hnd). split.
  - exists f, guid. split; [done|]. split; [done|]. intros E. specialize (Hnd E). by rewrite Hst in Hnd.
  - exists x. split; [done|]. split; [apply Hp|]. by destruct x.
Qed.

(** ** A line *)

Lemma polite_args line c args : command_of line = (c, args) → polite line = true → polite args = true.
Proof. unfold command_of, split_word. intros [= _ <-]. apply polite_drop. Qed.

Lemma run_command_rule (U : Prop) recv line a0 :
  tally a0 → heard recv line → staged recv line a0 → DBUS_AUTH_IN_END_STATE (auth_state a0) = false →
  (polite_line line = false → U) →
  triple U (λ a, a = a0) (run_command line) (λ _, answered recv a0) (backed recv line a0).
Proof.
  intros Ht Hh Hsg Hend HU. unfold run_command.
  destruct (_dbus_string_validate_ascii line 0 (length line)) eqn:Ev; cbn [negb].
  2: { eapply triple_failure; [apply (error_rule U recv line a0); [done| |]|]; [|by intros ? ->..].
       intros _. unfold auth_start. destruct (command_of line). by rewrite Ev. }
  rewrite find_blank_word. apply triple_checked.
  { intros E. apply HU. destruct (skip_blank_word line) as [E'|[_ Ep]]; [by rewrite E' in E|].
    unfold polite_line. by rewrite Ep. }
  intros j Ej. destruct (skip_blank_word line) as [E'|[E' _]]; rewrite Ej in E'; [|done].
  injection E' as ->.
  eapply triple_bind; [eapply triple_failure; [apply triple_request|by intros ? ->]|].
  intros []; cbv beta. apply triple_gets. intros ? ->.
  destruct (command_of line) as [c args] eqn:Hc. pose proof Hc as Hc'. unfold command_of in Hc'.
  injection Hc' as -> ->.
  assert (polite_line line = false ∨ polite args = false → U) as HU'.
  { intros [?|Ha]; [by apply HU|]. apply HU. unfold polite_line. destruct (polite line) eqn:Ep; [|done].
    by rewrite (polite_args _ _ _ Hc Ep) in Ha. }
  pose proof Hsg as Hset. unfold staged, settled in Hset. unfold handler. destruct (auth_state a0) eqn:Est; try done.
  - eapply triple_pre; [by apply waiting_for_auth_rule|by intros ? ->].
  - by apply waiting_for_data_rule.
  - by apply waiting_for_begin_rule.
Qed.

(** ** The work on the buffered lines *)

(** The first complete line ends at this offset. *)
Definition line_end (s : bytes) : option nat := strstr s crlf.

Definition server_inv (recv : bytes) (a : DBusAuth) : Prop :=
  (∃ done, recv = done ++ incoming a) ∧ tally a ∧
  (settled recv a ∨
   auth_state a = server_state_waiting_for_auth ∧
   ∃ k, line_end (incoming a) = Some k ∧ ready (take k (incoming a)) a).

Lemma find_crlf s :
  _dbus_string_find s 0 crlf = match line_end s with Some k => (true, k) | None => (false, length s) end.
Proof.
  unfold _dbus_string_find, _dbus_string_find_to, line_end, sub.
  by rewrite drop_0, Nat.sub_0_r, firstn_all.
Qed.

Lemma line_end_split s k : line_end s = Some k → ∃ r, s = take k s ++ crlf ++ r ∧ (k + 2 <= length s)%nat.
Proof.
  intros (r & Hr & Hk)%strstr_found. exists r. rewrite <- Hr, take_drop. split; [done|].
  apply (f_equal length) in Hr. rewrite length_drop, length_app in Hr. cbn in Hr. lia.
Qed.

Lemma inv_staged recv a k :
  server_inv recv a → line_end (incoming a) = Some k → staged recv (take k (incoming a)) a.
Proof.
  intros (_ & _ & [Hs|(Hst & j & Hj & Hr)]) Hk; unfold staged.
  - destruct (auth_state a) eqn:E; try done. apply clean_ready; [done|].
    unfold settled in Hs. by rewrite E in Hs.
  - rewrite Hst. by rewrite Hj in Hk; injection Hk as ->.
Qed.

Lemma inv_heard recv a k :
  server_inv recv a → line_end (incoming a) = Some k → heard recv (take k (incoming a)).
Proof.
  intros ((done & ->) & _) (r & Hr & _)%line_end_split. exists done, r. by rewrite <- Hr.
Qed.

(** What a call of [process_command] leaves. *)
Definition processed (recv : bytes) (a0 : DBusAuth) (again : bool) (a : DBusAuth) : Prop :=
  server_inv recv a ∧ credentials a = credentials a0 ∧ allowed_mechs a = allowed_mechs a0 ∧
  if again then
    ∃ k, line_end (incoming a0) = Some k ∧ incoming a = drop (k + 2) (incoming a0) ∧ needed_memory a = false
  else
    incoming a = incoming a0 ∧ outgoing a = outgoing a0 ∧ auth_state a = auth_state a0 ∧
    (line_end (incoming a0) = None ∨ needed_memory a = true).

(** The next line ends a blank with an end-of-line byte. *)
Definition rude (s : bytes) : Prop :=
  ∃ k, line_end s = Some k ∧ polite_line (take k s) = false.

Lemma command_done recv a0 k a :
  server_inv recv a0 → line_end (incoming a0) = Some k → answered recv a0 a →
  processed recv a0 true (with_needed_memory (λ _, false) (with_incoming (drop (k + 2)) a)).
Proof.
  intros ((dn & Hdn) & _) Hk ((Hi & Hcr & Hal & Hcx) & Ht & Hs). split; [|split; [done|split; [done|]]].
  - split; [|split; [exact Ht|left; exact Hs]]. exists (dn ++ take (k + 2) (incoming a0)). cbn.
    rewrite Hi, <- app_assoc. by rewrite take_drop.
  - exists k. cbn. by rewrite Hi.
Qed.

Lemma command_failed recv a0 k a :
  server_inv recv a0 → line_end (incoming a0) = Some k → backed recv (take k (incoming a0)) a0 a →
  processed recv a0 false (with_needed_memory (λ _, true) a).
Proof.
  intros ((dn & Hdn) & (f & guid & Hs & Hf & Hnd) & _) Hk (Est & Es & Eo & (Hi & Hcr & Hal & Hcx) & Hsg).
  split; [|split; [done|split; [done|]]].
  - split; [exists dn; cbn; by rewrite Hi|]. split; [exists f, guid; cbn; by rewrite Es, Est|].
    unfold staged in Hsg. destruct (decide (auth_state a = server_state_waiting_for_auth)) as [E|E].
    + rewrite E in Hsg. right. split; [done|]. exists k. cbn. by rewrite Hi.
    + left. by destruct (auth_state a).
  - cbn. auto.
Qed.

Lemma process_command_rule recv a0 :
  server_inv recv a0 → DBUS_AUTH_IN_END_STATE (auth_state a0) = false →
  triple (rude (incoming a0)) (λ a, a = a0) process_command (processed recv a0) (λ _, False).
Proof.
  intros Hinv Hend. apply triple_gets. intros ? ->. rewrite find_crlf.
  destruct (line_end (incoming a0)) as [k|] eqn:Ek; cbn [negb].
  2: { apply triple_ret. intros ? ->. split; [done|]. split; [done|]. split; [done|]. auto. }
  set (line := take k (incoming a0)).
  eapply triple_bind with (Q := λ ok a, if (ok : bool)
    then ∃ a1, answered recv a0 a1 ∧ a = with_incoming (drop (k + 2)) a1
    else backed recv line a0 a).
  - eapply triple_result; [apply triple_attempt with (F := backed recv line a0)| |done].
    + eapply triple_bind; [eapply triple_failure; [apply triple_requests|]|].
      { intros ? ->. by apply staged_refl, inv_staged. }
      intros []; cbv beta. eapply triple_bind.
      { apply (run_command_rule _ recv line a0); [apply Hinv|by apply inv_heard|by apply inv_staged|done|].
        intros Hp. by exists k. }
      intros []; cbv beta. apply triple_modify with (Q := λ a, ∃ a1, answered recv a0 a1 ∧
        a = with_incoming (drop (k + 2)) a1). eauto.
    + intros [] a; [by intros [_ ?]|done].
  - intros ok; cbv beta. eapply triple_bind with (Q := λ _, processed recv a0 ok);
      [|by intros []; apply triple_ret].
    apply triple_modify. intros a Ha. destruct ok; cbn [negb].
    + destruct Ha as (a1 & Ha & ->). by apply command_done.
    + by eapply command_failed.
Qed.

(** The complete lines in the buffer. *)
Fixpoint lines (fuel : nat) (s : bytes) : list bytes :=
  match fuel with
  | O => []
  | S fuel' =>
      match line_end s with
      | Some k => take k s :: lines fuel' (drop (k + 2) s)
      | None => []
      end
  end.

(** What the work leaves: an end, or a short buffer without a complete line, unless
    memory ran out. *)
Definition worked (recv : bytes) (a0 a : DBusAuth) : Prop :=
  server_inv recv a ∧ credentials a = credentials a0 ∧ allowed_mechs a = allowed_mechs a0 ∧
  (DBUS_AUTH_IN_END_STATE (auth_state a) = true ∨
   too_long a = false ∧ (needed_memory a = true ∨ line_end (incoming a) = None)).

Lemma work_loop_rule recv fuel a0 :
  server_inv recv a0 → (length (incoming a0) < fuel)%nat →
  triple (Exists (λ l, polite_line l = false) (lines fuel (incoming a0)))
    (λ a, a = a0) (work_loop fuel) (λ _, worked recv a0) (λ _, False).
Proof.
  revert a0. induction fuel as [|fuel IH]; intros a0 Hinv Hlen; [lia|]. cbn [work_loop lines].
  apply triple_gets. intros ? ->.
  destruct (DBUS_AUTH_IN_END_STATE (auth_state a0)) eqn:Eend.
  { apply triple_ret. intros ? ->. split; [done|]. split; [done|]. split; [done|]. by left. }
  destruct (too_long a0) eqn:Elong.
  { apply triple_modify. intros ? ->. split; [|by split; [|split; [|left]]].
    destruct Hinv as (Hd & (f & guid & Hs & Hf & _) & _). split; [exact Hd|].
    split; [by exists f, guid|by left]. }
  eapply triple_bind; [eapply triple_wrong; [by apply (process_command_rule recv)|]|].
  { intros (k & Ek & Hp). rewrite Ek. by constructor. }
  intros again; cbv beta. intros a m (Ha & Hcr & Hal & Hag). destruct again; cbv iota.
  - destruct Hag as (k & Ek & Hi & _). rewrite Ek.
    destruct (line_end_split _ _ Ek) as (r & _ & Hk).
    assert (length (incoming a) < fuel)%nat as Hl by (rewrite Hi, length_drop; lia).
    specialize (IH a Ha Hl a m eq_refl). destruct (work_loop fuel a m); [|done|].
    + destruct IH as (? & Hcr' & Hal' & ?). split; [done|]. by rewrite Hcr', Hal'.
    + rewrite Hi in IH. by constructor 2.
  - destruct Hag as (Hi & Ho & Hst & Hd). split; [done|]. split; [done|]. split; [done|]. right.
    unfold too_long in *. rewrite Hi, Ho. split; [done|]. tauto.
Qed.

Lemma do_work_rule recv a0 :
  server_inv recv a0 →
  triple (Exists (λ l, polite_line l = false) (lines (S (length (incoming a0))) (incoming a0)))
    (λ a, a = a0) _dbus_auth_do_work (λ r a, r = work_result a ∧ worked recv a0 a) (λ _, False).
Proof.
  intros Hinv. unfold _dbus_auth_do_work.
  eapply triple_bind with (Q := λ _ a, a = with_needed_memory (λ _, false) a0);
    [by apply triple_modify; intros ? ->|]. intros []; cbv beta.
  apply triple_gets. intros ? ->.
  eapply triple_bind; [apply (work_loop_rule recv _ (with_needed_memory (λ _, false) a0)); [exact Hinv|cbn; lia]|].
  intros []; cbv beta. intros a m Ha. split; [done|]. exact Ha.
Qed.

(** ** Whole conversations *)

(** What the server side has heard so far, and its state; memory may run out at any
    time. *)
Inductive talks (guid : bytes) (c : DBusCredentials) (mechs : option (list bytes)) :
    bytes → DBusAuth → Prop :=
| talks_start m a m' :
    (_dbus_auth_set_credentials c;; _dbus_auth_set_mechanisms mechs) (_dbus_auth_server_new guid) m
      = Ok tt a m' →
    talks guid c mechs [] a
| talks_receive recv a bs m a' m' :
    talks guid c mechs recv a → receive bs a m = Ok tt a' m' → talks guid c mechs (recv ++ bs) a'
| talks_sent recv a n m a' m' :
    talks guid c mechs recv a → _dbus_auth_bytes_sent n a m = Ok tt a' m' → talks guid c mechs recv a'
| talks_work recv a m r a' m' :
    talks guid c mechs recv a → _dbus_auth_do_work a m = Ok r a' m' → talks guid c mechs recv a'
| talks_delete recv a m a' m' :
    talks guid c mechs recv a → _dbus_auth_delete_unused_bytes a m = Ok tt a' m' →
    talks guid c mechs recv a'.

Lemma evidence_more recv bs x a : evidence recv x a → evidence (recv ++ bs) x a.
Proof.
  destruct x; [done| |done]. intros [Hs (line & data & (pre & post & ->) & Hp)]. split; [done|].
  exists line, data. split; [|done]. exists pre, (post ++ bs). by rewrite <- !app_assoc.
Qed.

Lemma settled_more recv bs a : settled recv a → settled (recv ++ bs) a.
Proof.
  unfold settled. destruct (auth_state a); try done.
  - intros (x & Hm & Hp & He). exists x. split; [done|]. split; [done|]. by apply evidence_more.
  - intros (x & Hm & Hp & He). exists x. split; [done|]. split; [done|]. by apply evidence_more.
Qed.

Lemma inv_receive recv bs a :
  server_inv recv a → server_inv (recv ++ bs) (with_incoming (λ s, s ++ bs) a).
Proof.
  intros ((dn & ->) & Ht & Hs). split; [exists dn; cbn; by rewrite <- app_assoc|]. split; [exact Ht|].
  destruct Hs as [Hs|(Hst & k & Hk & Hr)]; [left; exact (settled_more _ bs _ Hs)|].
  right. split; [done|]. exists k. cbn. unfold line_end in *. split; [by apply strstr_more|].
  destruct (line_end_split _ _ Hk) as (_ & _ & Hl). rewrite take_app_le by lia. exact Hr.
Qed.

Lemma credentials_set_rule U (a0 : DBusAuth) c :
  triple U (λ a, a = a0) (_dbus_auth_set_credentials c)
    (λ _ a, a = with_credentials (λ _, c) a0) (λ _, True).
Proof.
  intros a m ->. unfold _dbus_auth_set_credentials, _dbus_credentials_add_credentials, mbind, M_bind.
  destruct c as [[] [] [] []]; cbn; unfold request, mbind, M_bind, with_credentials; cbn;
    repeat (match goal with |- context [alloc ?m] => destruct (alloc m) as [[] ?] end; cbn); done.
Qed.

Lemma start_rule guid c mechs m a m' :
  (_dbus_auth_set_credentials c;; _dbus_auth_set_mechanisms mechs) (_dbus_auth_server_new guid) m
    = Ok tt a m' →
  a = with_allowed_mechs (λ _, mechs) (with_credentials (λ _, c) (_dbus_auth_server_new guid)).
Proof.
  unfold mbind, M_bind.
  pose proof (credentials_set_rule True (_dbus_auth_server_new guid) c _ m eq_refl) as Hc.
  destruct (_dbus_auth_set_credentials c _ m) as [[] a1 m1| |]; [|done..]. rewrite Hc.
  unfold _dbus_auth_set_mechanisms, mbind, M_bind. case_decide; [by intros [= <- _]|].
  unfold request. destruct (alloc m1) as [[] ?]; [by intros [= <- _]|done].
Qed.

Lemma talks_inv guid c mechs recv a :
  talks guid c mechs recv a →
  server_inv recv a ∧ credentials a = c ∧ allowed_mechs a = mechs.
Proof.
  induction 1 as [m a m' Hs|recv a bs m a' m' _ IH Hr|recv a n m a' m' _ IH Hn
                 |recv a m r a' m' _ IH Hw|recv a m a' m' _ IH Hd].
  - apply start_rule in Hs as ->. split; [|done]. split; [by exists []|]. split; [by exists 0, guid|].
    left. split; [done|]. cbn. lia.
  - destruct IH as (Hi & Hc & Hm). unfold receive, _dbus_auth_get_buffer, mbind, M_bind, gets, assert_, checked in Hr.
    cbn in Hr. destruct (negb _); [|done]. cbn in Hr. injection Hr as <- _. split; [by apply inv_receive|done].
  - unfold _dbus_auth_bytes_sent, mbind, M_bind, gets, assert_, checked in Hn. cbn in Hn.
    destruct (n <=? _)%nat; [|done]. injection Hn as <- _. exact IH.
  - destruct IH as (Hi & Hc & Hm). pose proof (do_work_rule recv a Hi a m eq_refl) as Hp.
    rewrite Hw in Hp. destruct Hp as (_ & Hi' & Hc' & Hm' & _). by rewrite Hc', Hm'.
  - unfold _dbus_auth_delete_unused_bytes, mbind, M_bind, gets in Hd. cbn in Hd.
    destruct (DBUS_AUTH_IN_END_STATE (auth_state a)) eqn:E; injection Hd as <- _; [|done].
    destruct IH as ((_ & Ht & Hs) & Hc & Hm). split; [|done].
    split; [exists recv; cbn; by rewrite app_nil_r|]. split; [exact Ht|].
    destruct Hs as [Hs|(Hst & _)]; [by left|]. by rewrite Hst in E.
Qed.

End server.

(** ** The guarantees *)

(** C31: Nobody is let in without cause: when the server side has authenticated its
    client, then by a mechanism it allows, and with EXTERNAL the authorized user is
    one of the socket's; with DBUS_COOKIE_SHA1 it is the user whose cookie the client
    knows, since some line it sent carries the right hash over the server's challenge,
    which came from the random numbers of this conversation when it answers a DATA;
    with ANONYMOUS there is no user. *)
Theorem authenticated_with_evidence `{AuthEnv} guid c mechs recv a :
  talks guid c mechs recv a → auth_state a = common_state_authenticated →
  ∃ x, mech a = Some x ∧ match mechs with Some l => mechanism_name x ∈ l | None => True end ∧
    credentials a = c ∧ evidence recv x a.
Proof.
  intros ((_ & _ & Hs) & Hc & <-)%talks_inv Hst. destruct Hs as [Hs|[E _]]; [|by rewrite E in Hst].
  unfold settled in Hs. rewrite Hst in Hs. destruct Hs as (x & Hm & Ha & He). by exists x.
Qed.


(** C33: At most six attempts: the server counts its rejections, never beyond its
    limit, and disconnects at the limit. *)
Theorem rejections_bounded `{AuthEnv} guid c mechs recv a :
  talks guid c mechs recv a →
  ∃ failures g, side a = Server failures 6 g ∧ 0 <= failures <= 6 ∧
    (failures = 6 → auth_state a = common_state_need_disconnect).
Proof. by intros ((_ & Ht & _) & _ & _)%talks_inv. Qed.

(** ** Runs *)

(** A system with one user, one cookie and a hash that anyone could compute. *)
#[local] Instance sample_env : AuthEnv := {|
  _dbus_keyring_new_for_credentials := λ _ _, Keyring 0;
  _dbus_keyring_is_for_credentials := λ _ _, true;
  _dbus_keyring_get_best_key := λ _, 7;
  _dbus_keyring_get_hex_key := λ _ _, lit "c0ffee";
  _dbus_keyring_validate_context := λ _, true;
  _dbus_sha_compute := λ s, hex_of s;
  _dbus_generate_random_bytes := λ n k, replicate k (z2b (Z.of_nat n));
  _dbus_credentials_add_from_user := λ c name,
    if decide (name = lit "1000") then
      Some (Credentials (unix_pid c) (Some 1000) (windows_sid c) (adt_audit_data c))
    else None;
  _dbus_append_user_from_current_process := lit "1000";
  _dbus_string_parse_int := λ s, Some (digits 0 s);
  VERSION := lit "1.2"
|}.

Definition sample_socket : DBusCredentials := Credentials (Some 42) (Some 1000) None None.
Definition sample_guid : bytes := lit "cafe".
Definition sample_server : DBusAuth :=
  with_allowed_mechs (λ _, None)
    (with_credentials (λ _, sample_socket) (_dbus_auth_server_new sample_guid)).

Definition hear (bs : bytes) (a : DBusAuth) : DBusAuth := with_incoming (λ s, s ++ bs) a.

Definition external_lines : bytes := lit "AUTH EXTERNAL " ++ hex_of (lit "1000") ++ crlf.

(** The answer to the first challenge of [sample_env]. *)
Definition cookie_lines : bytes :=
  lit "AUTH DBUS_COOKIE_SHA1 " ++ hex_of (lit "1000") ++ crlf ++
  lit "DATA " ++ hex_of (lit "abc " ++ _dbus_sha_compute
    (hex_of (_dbus_generate_random_bytes 0 16) ++ lit ":abc:c0ffee")) ++ crlf ++
  lit "BEGIN" ++ crlf.

Lemma sample_talks : talks sample_guid sample_socket None [] sample_server.
Proof. apply (talks_start _ _ _ plenty _ plenty). reflexivity. Qed.

Lemma sample_hears bs : talks sample_guid sample_socket None bs (hear bs sample_server).
Proof. apply (talks_receive _ _ _ [] sample_server bs plenty _ plenty); [apply sample_talks|reflexivity]. Qed.

Lemma authenticated_with_evidence_witness :
  match _dbus_auth_do_work (hear cookie_lines sample_server) plenty with
  | Ok r a m =>
      ∃ x, mech a = Some x ∧ True ∧ credentials a = sample_socket ∧ evidence cookie_lines x a
  | _ => False
  end.
Proof.
  destruct (_dbus_auth_do_work (hear cookie_lines sample_server) plenty) as [r a m| |] eqn:E;
    [|by vm_compute in E..].
  apply (authenticated_with_evidence sample_guid sample_socket None).
  - eapply talks_work; [apply sample_hears|exact E].
  - vm_compute in E. injection E as _ <- _. reflexivity.
Defined.


Lemma rejections_bounded_witness :
  ∃ failures g, side sample_server = Server failures 6 g ∧ 0 <= failures <= 6 ∧
    (failures = 6 → auth_state sample_server = common_state_need_disconnect).
Proof. apply (rejections_bounded sample_guid sample_socket None []). apply sample_talks. Defined.

(** An unauthenticated client can stop a server built with assertions: behind the
    blanks of a line, [_dbus_string_skip_blank] asserts that no end-of-line byte
    follows, which [AUTH], a blank and a line feed violate. *)
Theorem line_feed_fails_assertion `{AuthEnv} guid :
  let line := lit "AUTH " ++ [x0a] ++ crlf in
  _dbus_auth_do_work (hear line (_dbus_auth_server_new guid)) plenty = Ub ∧
  polite_line (lit "AUTH " ++ [x0a]) = false.
Proof. split; vm_compute; reflexivity. Qed.

(** Running out of memory while the OK is sent is not made up for: the work asks
    for memory and keeps the line, but the identity it noted makes the second try,
    with all the memory it wants, a rejection of a client the first try would have let
    in. *)
Theorem retry_rejects_client n :
  (12 <= n <= 14)%nat →
  match _dbus_auth_do_work (hear external_lines sample_server) (fails_after n),
        _dbus_auth_do_work (hear external_lines sample_server) plenty with
  | Ok r a _, Ok _ a2 _ =>
      r = DBUS_AUTH_STATE_WAITING_FOR_MEMORY ∧ incoming a = external_lines ∧ outgoing a = [] ∧
      outgoing a2 = lit "OK " ++ sample_guid ++ crlf ∧
      match _dbus_auth_do_work a plenty with
      | Ok _ a' _ => outgoing a' = rejected_line ∧ auth_state a' = server_state_waiting_for_auth
      | _ => False
      end
  | _, _ => False
  end.
Proof.
  intros Hn. assert (n = 12 ∨ n = 13 ∨ n = 14)%nat as [->|[->| ->]] by lia; vm_compute; done.
Qed.

Lemma retry_rejects_client_witness :
  match _dbus_auth_do_work (hear external_lines sample_server) (fails_after 13),
        _dbus_auth_do_work (hear external_lines sample_server) plenty with
  | Ok r a _, Ok _ a2 _ =>
      r = DBUS_AUTH_STATE_WAITING_FOR_MEMORY ∧ incoming a = external_lines ∧ outgoing a = [] ∧
      outgoing a2 = lit "OK " ++ sample_guid ++ crlf ∧
      match _dbus_auth_do_work a plenty with
      | Ok _ a' _ => outgoing a' = rejected_line ∧ auth_state a' = server_state_waiting_for_auth
      | _ => False
      end
  | _, _ => False
  end.
Proof. apply (retry_rejects_client 13). lia. Defined.
