(* ===== verification/Links.v ===== *)
(** * Links: doubly linked lists

    Models src/dbus/dbus-list.c at the level of pointers: links are cells of a heap,
    the first and the last link of a list point to each other, and a list is a
    variable that holds its first link.  Locks are left out, and the memory pool is
    a [request] that gives a link without contents. *)

From stdpp Require Import gmap.
From S2P Require Import Prelude.

Abbreviation ptr := positive.

(** A [DBusList **]. *)
Abbreviation var := nat.

Section links.
Context {D : Type} `{EqDecision D}.

Record DBusList := Link { prev : option ptr; next : option ptr; data : D }.

Record heap := Heap { links : gmap ptr DBusList; lists : gmap var (option ptr) }.

Definition with_prev (v : option ptr) (x : DBusList) : DBusList := Link v (next x) (data x).
Definition with_next (v : option ptr) (x : DBusList) : DBusList := Link (prev x) v (data x).
Definition with_links (f : gmap ptr DBusList → gmap ptr DBusList) (h : heap) : heap :=
  Heap (f (links h)) (lists h).

Abbreviation HM := (M heap).

(** ** Memory *)

(** [*p]; NULL and freed links are [Ub]. *)
Definition deref (p : option ptr) : HM DBusList :=
  h ← gets id;
  checked (p ← p; links h !! p).

(** An assignment to a field of [*p]. *)
Definition store (p : option ptr) (f : DBusList → DBusList) : HM unit :=
  deref p;;
  q ← checked p;
  modify (with_links (alter f q)).

Definition get_list (list : var) : HM (option ptr) :=
  h ← gets id;
  checked (lists h !! list).

Definition set_list (list : var) (p : option ptr) : HM unit :=
  modify (λ h, Heap (links h) (<[list := p]> (lists h))).

Definition alloc_link (d : D) : HM (option ptr) :=
  request;;
  h ← gets id;
  let p := fresh (dom (links h)) in
  modify (with_links (insert p (Link None None d)));;
  mret (Some p).

Definition free_link (link : option ptr) : HM unit :=
  deref link;;
  p ← checked link;
  modify (with_links (delete p)).

(** ** Linking *)

Definition link_before (list : var) (before_this_link link : option ptr) : HM unit :=
  h ← get_list list;
  match h with
  | None =>
      store link (with_prev link);;
      store link (with_next link);;
      set_list list link
  | Some _ =>
      store link (with_next before_this_link);;
      b ← deref before_this_link;
      store link (with_prev (prev b));;
      store before_this_link (with_prev link);;
      x ← deref link;
      store (prev x) (with_next link);;
      if decide (before_this_link = h) then set_list list link else mret tt
  end.

Definition link_after (list : var) (after_this_link link : option ptr) : HM unit :=
  h ← get_list list;
  match h with
  | None =>
      store link (with_prev link);;
      store link (with_next link);;
      set_list list link
  | Some _ =>
      store link (with_prev after_this_link);;
      b ← deref after_this_link;
      store link (with_next (next b));;
      store after_this_link (with_next link);;
      x ← deref link;
      store (next x) (with_prev link)
  end.

Definition _dbus_list_alloc_link (d : D) : HM (option ptr) := alloc_link d.
Definition _dbus_list_free_link (link : option ptr) : HM unit := free_link link.

Definition _dbus_list_prepend (list : var) (d : D) : HM unit :=
  link ← alloc_link d;
  h ← get_list list;
  link_before list h link.

(** The link at the head becomes the last one. *)
Definition cycle_forward (list : var) : HM unit :=
  h ← get_list list;
  x ← deref h;
  set_list list (next x).

Definition _dbus_list_append (list : var) (d : D) : HM unit :=
  _dbus_list_prepend list d;;
  cycle_forward list.

Definition _dbus_list_prepend_link (list : var) (link : option ptr) : HM unit :=
  h ← get_list list;
  link_before list h link.

Definition _dbus_list_append_link (list : var) (link : option ptr) : HM unit :=
  _dbus_list_prepend_link list link;;
  cycle_forward list.

Definition _dbus_list_insert_before (list : var) (before_this_link : option ptr) (d : D) : HM unit :=
  match before_this_link with
  | None => _dbus_list_append list d
  | Some _ =>
      link ← alloc_link d;
      link_before list before_this_link link
  end.

Definition _dbus_list_insert_after (list : var) (after_this_link : option ptr) (d : D) : HM unit :=
  match after_this_link with
  | None => _dbus_list_prepend list d
  | Some _ =>
      link ← alloc_link d;
      link_after list after_this_link link
  end.

Definition _dbus_list_insert_before_link (list : var) (before_this_link link : option ptr) : HM unit :=
  match before_this_link with
  | None => _dbus_list_append_link list link
  | Some _ => link_before list before_this_link link
  end.

Definition _dbus_list_insert_after_link (list : var) (after_this_link link : option ptr) : HM unit :=
  match after_this_link with
  | None => _dbus_list_prepend_link list link
  | Some _ => link_after list after_this_link link
  end.

(** ** Unlinking *)

Definition _dbus_list_unlink (list : var) (link : option ptr) : HM unit :=
  x ← deref link;
  (if decide (next x = link) then set_list list None
   else
     store (prev x) (with_next (next x));;
     x ← deref link;
     store (next x) (with_prev (prev x));;
     h ← get_list list;
     if decide (h = link) then x ← deref link; set_list list (next x) else mret tt);;
  store link (with_next None);;
  store link (with_prev None).

Definition _dbus_list_remove_link (list : var) (link : option ptr) : HM unit :=
  _dbus_list_unlink list link;;
  free_link link.

(** ** Walking; every loop has as many turns as there are links, and one *)

Definition _dbus_list_get_next_link (list : var) (link : option ptr) : HM (option ptr) :=
  x ← deref link;
  h ← get_list list;
  mret (if decide (next x = h) then None else next x).

Definition _dbus_list_get_prev_link (list : var) (link : option ptr) : HM (option ptr) :=
  h ← get_list list;
  if decide (link = h) then mret None
  else x ← deref link; mret (prev x).

Definition turns : HM nat := gets (λ h, S (size (links h))).

Fixpoint remove_loop (fuel : nat) (list : var) (d : D) (link : option ptr) : HM bool :=
  match fuel, link with
  | O, _ => checked None
  | S _, None => mret false
  | S fuel', Some _ =>
      x ← deref link;
      if decide (data x = d) then _dbus_list_remove_link list link;; mret true
      else
        link ← _dbus_list_get_next_link list link;
        remove_loop fuel' list d link
  end.

Definition _dbus_list_remove (list : var) (d : D) : HM bool :=
  link ← get_list list;
  n ← turns;
  remove_loop n list d link.

Definition _dbus_list_get_first_link (list : var) : HM (option ptr) := get_list list.

Definition _dbus_list_get_last_link (list : var) : HM (option ptr) :=
  h ← get_list list;
  match h with
  | None => mret None
  | Some _ => x ← deref h; mret (prev x)
  end.

Fixpoint find_last_loop (fuel : nat) (list : var) (d : D) (link : option ptr) : HM (option ptr) :=
  match fuel, link with
  | O, _ => checked None
  | S _, None => mret None
  | S fuel', Some _ =>
      x ← deref link;
      if decide (data x = d) then mret link
      else
        link ← _dbus_list_get_prev_link list link;
        find_last_loop fuel' list d link
  end.

Definition _dbus_list_find_last (list : var) (d : D) : HM (option ptr) :=
  link ← _dbus_list_get_last_link list;
  n ← turns;
  find_last_loop n list d link.

Definition _dbus_list_remove_last (list : var) (d : D) : HM bool :=
  link ← _dbus_list_find_last list d;
  match link with
  | Some _ => _dbus_list_remove_link list link;; mret true
  | None => mret false
  end.

Fixpoint clear_loop (fuel : nat) (list : var) (link : option ptr) : HM unit :=
  match fuel, link with
  | O, _ => checked None
  | S _, None => mret tt
  | S fuel', Some _ =>
      next ← _dbus_list_get_next_link list link;
      free_link link;;
      clear_loop fuel' list next
  end.

Definition _dbus_list_clear (list : var) : HM unit :=
  link ← get_list list;
  n ← turns;
  clear_loop n list link;;
  set_list list None.

(** The data of the last and of the first link, NULL if there is none. *)
Definition _dbus_list_get_last (list : var) : HM (option D) :=
  h ← get_list list;
  match h with
  | None => mret None
  | Some _ => x ← deref h; y ← deref (prev x); mret (Some (data y))
  end.

Definition _dbus_list_get_first (list : var) : HM (option D) :=
  h ← get_list list;
  match h with
  | None => mret None
  | Some _ => x ← deref h; mret (Some (data x))
  end.

Definition _dbus_list_pop_first_link (list : var) : HM (option ptr) :=
  link ← _dbus_list_get_first_link list;
  match link with
  | None => mret None
  | Some _ => _dbus_list_unlink list link;; mret link
  end.

Definition _dbus_list_pop_first (list : var) : HM (option D) :=
  link ← _dbus_list_get_first_link list;
  match link with
  | None => mret None
  | Some _ => x ← deref link; _dbus_list_remove_link list link;; mret (Some (data x))
  end.

Definition _dbus_list_pop_last (list : var) : HM (option D) :=
  link ← _dbus_list_get_last_link list;
  match link with
  | None => mret None
  | Some _ => x ← deref link; _dbus_list_remove_link list link;; mret (Some (data x))
  end.

Definition _dbus_list_pop_last_link (list : var) : HM (option ptr) :=
  link ← _dbus_list_get_last_link list;
  match link with
  | None => mret None
  | Some _ => _dbus_list_unlink list link;; mret link
  end.

Fixpoint copy_loop (fuel : nat) (list dest : var) (link : option ptr) : HM unit :=
  match fuel, link with
  | O, _ => checked None
  | S _, None => mret tt
  | S fuel', Some _ =>
      x ← deref link;
      on_failure (_dbus_list_append dest (data x)) (_dbus_list_clear dest);;
      link ← _dbus_list_get_next_link list link;
      copy_loop fuel' list dest link
  end.

Definition _dbus_list_copy (list dest : var) : HM unit :=
  assert_ (negb (list =? dest)%nat);;
  set_list dest None;;
  link ← get_list list;
  n ← turns;
  copy_loop n list dest link.

Fixpoint length_loop (fuel : nat) (list : var) (length : nat) (link : option ptr) : HM nat :=
  match fuel, link with
  | O, _ => checked None
  | S _, None => mret length
  | S fuel', Some _ =>
      link ← _dbus_list_get_next_link list link;
      length_loop fuel' list (S length) link
  end.

Definition _dbus_list_get_length (list : var) : HM nat :=
  link ← get_list list;
  n ← turns;
  length_loop n list 0 link.

Definition _dbus_list_length_is_one (list : var) : HM bool :=
  h ← get_list list;
  match h with
  | None => mret false
  | Some _ => x ← deref h; mret (bool_decide (next x = h))
  end.

End links.
