(* ===== verification/Rings.v ===== *)
(** * Rings: linked lists implement lists

    The links of a list form a ring; the operations of [Links] change it like
    operations on lists, keep every other list as it is, and lose no link. *)

From stdpp Require Import gmap.
From S2P Require Import Prelude Links.

Section rings.
Context {D : Type} `{EqDecision D}.

(** A link and its data. *)
Abbreviation item := (ptr * D)%type.
Abbreviation graph := (gmap ptr (@DBusList D)).

Definition hd_ptr (a : ptr) (l : list item) : ptr :=
  match l with [] => a | (p, _) :: _ => p end.
Fixpoint last_ptr (b : ptr) (l : list item) : ptr :=
  match l with [] => b | (p, _) :: l' => last_ptr p l' end.

(** The links of [l], in order, between the links [b] and [a]. *)
Fixpoint segment (L : graph) (b : ptr) (l : list item) (a : ptr) : Prop :=
  match l with
  | [] => True
  | (p, d) :: l' =>
      L !! p = Some (Link (Some b) (Some (hd_ptr a l')) d) ∧ segment L p l' a
  end.

(** The ends of a list are linked with each other. *)
Definition ring (L : graph) (l : list item) : Prop := segment L (last_ptr 1 l) l (hd_ptr 1 l).

Lemma hd_ptr_app a l1 l2 : hd_ptr a (l1 ++ l2) = hd_ptr (hd_ptr a l2) l1.
Proof. by destruct l1 as [|[]]. Qed.

Lemma last_ptr_app b l1 l2 : last_ptr b (l1 ++ l2) = last_ptr (last_ptr b l1) l2.
Proof. revert b. induction l1 as [|[p d] l1 IH]; intros b; [done|]. apply IH. Qed.

Lemma last_ptr_any b c l : l ≠ [] → last_ptr b l = last_ptr c l.
Proof. by destruct l as [|[]]. Qed.

Lemma hd_ptr_any b c l : l ≠ [] → hd_ptr b l = hd_ptr c l.
Proof. by destruct l as [|[]]. Qed.

Lemma segment_app L b l1 l2 a :
  segment L b (l1 ++ l2) a ↔ segment L b l1 (hd_ptr a l2) ∧ segment L (last_ptr b l1) l2 a.
Proof.
  revert b. induction l1 as [|[p d] l1 IH]; intros b; simpl; [tauto|].
  rewrite hd_ptr_app, IH. tauto.
Qed.

Lemma segment_frame L L' b l a :
  (∀ p, p ∈ l.*1 → L' !! p = L !! p) → segment L b l a → segment L' b l a.
Proof.
  revert b. induction l as [|[p d] l IH]; intros b HL; [done|]. intros [Hp Hl]. split.
  - rewrite HL; [done|]. by left.
  - apply IH; [|done]. intros q Hq. apply HL. by right.
Qed.

(** Where the variable points does not matter to the ring. *)
Lemma ring_rotate L l1 l2 : ring L (l1 ++ l2) ↔ ring L (l2 ++ l1).
Proof.
  destruct (decide (l1 = [])) as [->|H1]; [by rewrite app_nil_r|].
  destruct (decide (l2 = [])) as [->|H2]; [by rewrite app_nil_r|].
  unfold ring. rewrite !segment_app, !hd_ptr_app, !last_ptr_app.
  rewrite !(hd_ptr_any (hd_ptr _ _) 1) by done. rewrite (last_ptr_any (last_ptr 1 l1) 1 l2) by done.
  rewrite (last_ptr_any (last_ptr 1 l2) 1 l1) by done.
  rewrite !(last_ptr_any (last_ptr 1 _) 1) by done. tauto.
Qed.

Lemma segment_prev L b b' p d l a :
  p ∉ l.*1 → segment L b ((p, d) :: l) a → segment (alter (with_prev (Some b')) p L) b' ((p, d) :: l) a.
Proof.
  intros Hp [Hl Hs]. split.
  - rewrite lookup_alter_eq, Hl. done.
  - apply (segment_frame L); [|done]. intros q Hq. rewrite lookup_alter_ne; [done|]. by intros ->.
Qed.

Lemma segment_next L b l p d a a' :
  p ∉ l.*1 → segment L b (l ++ [(p, d)]) a →
  segment (alter (with_next (Some a')) p L) b (l ++ [(p, d)]) a'.
Proof.
  intros Hp. rewrite !segment_app. intros [Hl [Hs _]]. split.
  - apply (segment_frame L); [|done]. intros q Hq. rewrite lookup_alter_ne; [done|]. by intros ->.
  - split; [|done]. rewrite lookup_alter_eq, Hs. done.
Qed.

Lemma ring_first L p d l :
  ring L ((p, d) :: l) → L !! p = Some (Link (Some (last_ptr p l)) (Some (hd_ptr p l)) d).
Proof. by intros [Hp _]. Qed.

Lemma ring_middle L l1 p d l2 : ring L (l1 ++ (p, d) :: l2) → ring L ((p, d) :: l2 ++ l1).
Proof. intros H. by apply (ring_rotate L l1 ((p, d) :: l2)). Qed.

Lemma last_split b (l : list item) : l ≠ [] → ∃ l' d, l = l' ++ [(last_ptr b l, d)].
Proof.
  intros Hl. destruct (exists_last Hl) as (l' & [p d] & ->). exists l', d. by rewrite last_ptr_app.
Qed.

Lemma hd_split b (l : list item) : l ≠ [] → ∃ d l', l = (hd_ptr b l, d) :: l'.
Proof. destruct l as [|[p d] l]; [done|]. by exists d, l. Qed.

(** The two stores that change the ends of a segment. *)
Lemma segment_ends L b l a b' a' p d l1 z e l2 :
  l = (p, d) :: l1 → l = l2 ++ [(z, e)] → NoDup l.*1 → segment L b l a →
  segment (alter (with_next (Some a')) z (alter (with_prev (Some b')) p L)) b' l a'.
Proof.
  intros E1 E2 Hnd Hs.
  assert (segment (alter (with_prev (Some b')) p L) b' l a) as Hs'.
  { rewrite E1 in *. apply (segment_prev L b); [|done]. by apply list.NoDup_cons in Hnd as [Hn _]. }
  rewrite E2 in *. apply (segment_next _ _ _ _ _ a); [|done].
  rewrite fmap_app in Hnd. apply list.NoDup_app in Hnd as (_ & Hn & _). intros Hin.
  apply (Hn _ Hin). by left.
Qed.

Lemma stores_commute (L : graph) (p q : ptr) (u v : option ptr) :
  alter (with_prev u) p (alter (with_next v) q L) = alter (with_next v) q (alter (with_prev u) p L).
Proof.
  apply map_eq. intros r. rewrite !lookup_alter.
  repeat case_decide; simplify_eq; try done. by destruct (L !! _).
Qed.

(** A link [q] behind the last one of a ring. *)
Lemma ring_snoc L l q e :
  l ≠ [] → NoDup l.*1 → q ∉ l.*1 → ring L l →
  ring (alter (with_next (Some q)) (last_ptr 1 l) (alter (with_prev (Some q)) (hd_ptr 1 l)
          (<[q := Link (Some (last_ptr 1 l)) (Some (hd_ptr 1 l)) e]> L))) (l ++ [(q, e)]).
Proof.
  intros Hne Hnd Hq Hr. destruct (hd_split 1 l Hne) as (d & l1 & E1).
  destruct (last_split 1 l Hne) as (l2 & d2 & E2).
  set (p := hd_ptr 1 l) in *. set (z := last_ptr 1 l) in *.
  assert (p ∈ l.*1) as Hp by (rewrite E1; by left).
  assert (z ∈ l.*1) as Hz by (rewrite E2, fmap_app; apply elem_of_app; right; by left).
  unfold ring. rewrite last_ptr_app, hd_ptr_app, (hd_ptr_any _ 1) by done. fold p. simpl last_ptr.
  apply segment_app. split.
  - apply (segment_ends _ z l p q q p d l1 z d2 l2); [done..|].
    apply (segment_frame L); [|done]. intros r Hrr. apply lookup_insert_ne. by intros ->.
  - rewrite (last_ptr_any _ 1) by done. fold z. split; [|done].
    rewrite !lookup_alter_ne by (by intros ->). by rewrite lookup_insert_eq.
Qed.

(** The first link taken out of a ring. *)
Lemma ring_tail L p d l :
  l ≠ [] → NoDup l.*1 → ring L ((p, d) :: l) →
  ring (alter (with_prev (Some (last_ptr 1 l))) (hd_ptr 1 l)
          (alter (with_next (Some (hd_ptr 1 l))) (last_ptr 1 l) L)) l.
Proof.
  intros Hne Hnd [_ Hs]. destruct (hd_split 1 l Hne) as (e & l1 & E1).
  destruct (last_split 1 l Hne) as (l2 & d2 & E2). rewrite stores_commute.
  by apply (segment_ends _ p l p _ _ _ e l1 _ d2 l2).
Qed.

(** ** What the heap represents *)

Definition first_link (l : list item) : option ptr :=
  match l with [] => None | (p, _) :: _ => Some p end.

(** The link [p] is in the list [l] or loose. *)
Definition here (l : list item) (W : gmap ptr D) (p : ptr) : Prop := p ∈ l.*1 ∨ is_Some (W !! p).

(** The lists in [A], disjoint, the loose links in [W], and no other link. *)
Record rep (h : @heap D) (A : gmap var (list item)) (W : gmap ptr D) : Prop := {
  rep_lists : lists h = first_link <$> A;
  rep_ring v l : A !! v = Some l → ring (links h) l;
  rep_nodup v l : A !! v = Some l → NoDup l.*1;
  rep_loose p d : W !! p = Some d → ∃ a b, links h !! p = Some (Link a b d);
  rep_apart v w l k p : A !! v = Some l → A !! w = Some k → p ∈ l.*1 → p ∈ k.*1 → v = w;
  rep_free v l p : A !! v = Some l → p ∈ l.*1 → W !! p = None;
  rep_all p : is_Some (links h !! p) → is_Some (W !! p) ∨ ∃ v l, A !! v = Some l ∧ p ∈ l.*1
}.

Lemma segment_lookup L b l a p : segment L b l a → p ∈ l.*1 → is_Some (L !! p).
Proof.
  revert b. induction l as [|[q d] l IH]; intros b; [by intros _ ?%elem_of_nil|].
  intros [Hq Hl] [Hp|Hp]%elem_of_cons; [simpl in Hp; subst; eauto|by eapply IH].
Qed.

Lemma rep_update h A W v l l' W' L' :
  rep h A W → A !! v = Some l → NoDup l'.*1 → ring L' l' →
  (∀ p d, W' !! p = Some d → ∃ a b, L' !! p = Some (Link a b d)) →
  (∀ p, p ∈ l'.*1 → W' !! p = None) →
  (∀ p, here l' W' p → here l W p ∨ links h !! p = None) →
  (∀ p, ¬ here l' W' p → here l W p → L' !! p = None) →
  (∀ p, ¬ here l' W' p → ¬ here l W p → L' !! p = links h !! p) →
  rep (Heap L' (<[v := first_link l']> (lists h))) (<[v := l']> A) W'.
Proof.
  intros [HL HR HN HW HA HF HX] Hv Hnd Hring Hloose Hfree Hnew Hgone Hsame.
  assert (∀ w k p, w ≠ v → A !! w = Some k → p ∈ k.*1 → ¬ here l W p) as Hno.
  { intros w k p Hne Hw Hp [Hin|[d Hd]]; [by apply Hne, (HA w v k l p)|].
    by rewrite (HF w k p Hw Hp) in Hd. }
  assert (∀ w k p, w ≠ v → A !! w = Some k → p ∈ k.*1 → ¬ here l' W' p) as Hno'.
  { intros w k p Hne Hw Hp [?|Hn]%Hnew; [by apply (Hno w k p)|].
    destruct (segment_lookup _ _ _ _ _ (HR w k Hw) Hp) as [x Hx]. by rewrite Hn in Hx. }
  split.
  - simpl. by rewrite HL, fmap_insert.
  - intros w k [[<- <-]|[Hne Hw]]%lookup_insert_Some; [done|].
    apply (segment_frame (links h)); [|by apply (HR w)]. intros p Hp. apply Hsame; eauto.
  - intros w k [[<- <-]|[Hne Hw]]%lookup_insert_Some; eauto.
  - done.
  - intros w1 w2 k1 k2 p [[<- <-]|[Hne1 Hw1]]%lookup_insert_Some [[<- <-]|[Hne2 Hw2]]%lookup_insert_Some Hp1 Hp2;
      [done| | |by apply (HA w1 w2 k1 k2 p)].
    + exfalso. apply (Hno' w2 k2 p); [done..|by left].
    + exfalso. apply (Hno' w1 k1 p); [done..|by left].
  - intros w k p [[<- <-]|[Hne Hw]]%lookup_insert_Some Hp; [by apply Hfree|].
    destruct (W' !! p) eqn:E; [|done]. exfalso. apply (Hno' w k p); [done..|]. by right.
  - simpl. intros p Hp. destruct (decide (p ∈ l'.*1)) as [Hin|Hin].
    { right. exists v, l'. by rewrite lookup_insert_eq. }
    destruct (W' !! p) eqn:E; [by left|].
    assert (¬ here l' W' p) as Hn by (intros [?|[? ?]]; [done|by rewrite E in *]).
    destruct (decide (p ∈ l.*1)) as [Hl|Hl]; [rewrite Hgone in Hp by (done || by left); by destruct Hp|].
    destruct (W !! p) eqn:EW; [rewrite Hgone in Hp by (done || by right; rewrite EW); by destruct Hp|].
    rewrite Hsame in Hp by (done || by intros [?|[? ?]]; [done|rewrite EW in *]).
    destruct (HX p Hp) as [[? ?]|(w & k & Hw & Hk)]; [by rewrite EW in *|].
    right. exists w, k. split; [|done]. apply lookup_insert_Some. right. split; [|done].
    intros ->. by rewrite Hv in Hw; injection Hw as <-.
Qed.

(** ** Running the code *)

Abbreviation run := (M (@heap D)).

Lemma bind_ok {X Y} (c : run X) (k : X → run Y) s m x s' m' :
  c s m = Ok x s' m' → (c ≫= k) s m = k x s' m'.
Proof. intros E. unfold mbind, M_bind. by rewrite E. Qed.

Lemma deref_ok (h : @heap D) p x m : links h !! p = Some x → deref (Some p) h m = Ok x h m.
Proof. intros E. unfold deref, mbind, M_bind, gets, checked. simpl. unfold id. by rewrite E. Qed.

Lemma store_ok (h : @heap D) p f m :
  is_Some (links h !! p) →
  store (Some p) f h m = Ok tt (Heap (alter f p (links h)) (lists h)) m.
Proof. intros [x E]. unfold store. by rewrite (bind_ok _ _ _ _ _ _ _ (deref_ok h p x m E)). Qed.

Lemma get_list_ok (h : @heap D) v p m : lists h !! v = Some p → get_list v h m = Ok p h m.
Proof. intros E. unfold get_list, mbind, M_bind, gets, checked, id. by rewrite E. Qed.

Lemma alter_is_Some (L : graph) f p q : is_Some (L !! q) → is_Some (alter f p L !! q).
Proof.
  intros [x Hx]. destruct (decide (p = q)) as [->|];
    [rewrite lookup_alter_eq|rewrite lookup_alter_ne by done]; rewrite Hx; eauto.
Qed.

Lemma both_stores (L : graph) q x a b :
  L !! q = Some x →
  alter (with_prev a) q (alter (with_next b) q L) = <[q := Link a b (data x)]> L.
Proof.
  intros Hq. apply map_eq. intros r. destruct (decide (q = r)) as [<-|Hne].
  - by rewrite !lookup_alter_eq, lookup_insert_eq, Hq.
  - by rewrite !lookup_alter_ne, lookup_insert_ne.
Qed.

(** The stores of [link_before]: [q] gets between [z] and [b]. *)
Lemma link_before_ok (h : @heap D) v hd b q xb xq z m :
  lists h !! v = Some (Some hd) → links h !! b = Some xb → links h !! q = Some xq → b ≠ q →
  prev xb = Some z → is_Some (links h !! z) →
  link_before v (Some b) (Some q) h m =
    Ok tt (Heap (alter (with_next (Some q)) z (alter (with_prev (Some q)) b
                   (<[q := Link (Some z) (Some b) (data xq)]> (links h))))
                (if decide (b = hd) then <[v := Some q]> (lists h) else lists h)) m.
Proof.
  intros Hv Hb Hq Hbq Hz [xz Hxz]. unfold link_before.
  rewrite (bind_ok _ _ _ _ _ _ _ (get_list_ok h v _ m Hv)).
  erewrite bind_ok by (apply store_ok; eauto).
  erewrite bind_ok by (apply deref_ok; simpl; by rewrite lookup_alter_ne).
  erewrite bind_ok by (apply store_ok, alter_is_Some; eauto).
  erewrite bind_ok by (apply store_ok, alter_is_Some, alter_is_Some; eauto). simpl.
  rewrite Hz, (both_stores _ _ _ _ _ Hq).
  erewrite bind_ok by (apply deref_ok; simpl; by rewrite lookup_alter_ne, lookup_insert_eq by done).
  erewrite bind_ok by (apply store_ok; simpl; apply alter_is_Some;
    destruct (decide (q = z)) as [<-|]; [rewrite lookup_insert_eq|rewrite lookup_insert_ne by done]; eauto).
  simpl. repeat case_decide; simplify_eq; done.
Qed.

Lemma link_after_ok (h : @heap D) v hd b q xb xq y m :
  lists h !! v = Some (Some hd) → links h !! b = Some xb → links h !! q = Some xq → b ≠ q →
  next xb = Some y → is_Some (links h !! y) →
  link_after v (Some b) (Some q) h m =
    Ok tt (Heap (alter (with_prev (Some q)) y (alter (with_next (Some q)) b
                   (<[q := Link (Some b) (Some y) (data xq)]> (links h)))) (lists h)) m.
Proof.
  intros Hv Hb Hq Hbq Hy [xy Hxy]. unfold link_after.
  rewrite (bind_ok _ _ _ _ _ _ _ (get_list_ok h v _ m Hv)).
  erewrite bind_ok by (apply store_ok; eauto).
  erewrite bind_ok by (apply deref_ok; simpl; by rewrite lookup_alter_ne).
  erewrite bind_ok by (apply store_ok, alter_is_Some; eauto).
  erewrite bind_ok by (apply store_ok, alter_is_Some, alter_is_Some; eauto). simpl.
  rewrite Hy, <- stores_commute, (both_stores _ _ _ _ _ Hq).
  erewrite bind_ok by (apply deref_ok; simpl; by rewrite lookup_alter_ne, lookup_insert_eq by done).
  cbn [next]. erewrite store_ok; [done|]. simpl. apply alter_is_Some.
  destruct (decide (q = y)) as [<-|]; [rewrite lookup_insert_eq|rewrite lookup_insert_ne by done]; eauto.
Qed.

Lemma unlink_only_ok (h : @heap D) v p a d m :
  links h !! p = Some (Link a (Some p) d) →
  _dbus_list_unlink v (Some p) h m =
    Ok tt (Heap (<[p := Link None None d]> (links h)) (<[v := None]> (lists h))) m.
Proof.
  intros Hp. unfold _dbus_list_unlink. rewrite (bind_ok _ _ _ _ _ _ _ (deref_ok h p _ m Hp)). simpl.
  rewrite decide_True by done. rewrite (bind_ok _ _ _ _ _ _ _ (eq_refl : set_list v None h m = Ok tt _ m)).
  erewrite bind_ok by (apply store_ok; simpl; eauto). erewrite store_ok by (simpl; apply alter_is_Some; eauto).
  simpl. by rewrite (both_stores _ _ _ _ _ Hp).
Qed.

Lemma unlink_ok (h : @heap D) v hd p z y d m :
  lists h !! v = Some (Some hd) → links h !! p = Some (Link (Some z) (Some y) d) → y ≠ p → z ≠ p →
  is_Some (links h !! z) → is_Some (links h !! y) →
  _dbus_list_unlink v (Some p) h m =
    Ok tt (Heap (<[p := Link None None d]> (alter (with_prev (Some z)) y (alter (with_next (Some y)) z (links h))))
                (if decide (hd = p) then <[v := Some y]> (lists h) else lists h)) m.
Proof.
  intros Hv Hp Hy Hz Hxz Hxy. unfold _dbus_list_unlink.
  rewrite (bind_ok _ _ _ _ _ _ _ (deref_ok h p _ m Hp)). cbn [next prev]. rewrite decide_False by congruence.
  set (L' := alter (with_prev (Some z)) y (alter (with_next (Some y)) z (links h))).
  assert (L' !! p = Some (Link (Some z) (Some y) d)) as HL' by (unfold L'; by rewrite !lookup_alter_ne).
  set (S' := if decide (hd = p) then <[v := Some y]> (lists h) else lists h).
  match goal with |- (?c ≫= _) h m = _ => assert (c h m = Ok tt (Heap L' S') m) as Hin end.
  - erewrite bind_ok by by apply store_ok.
    erewrite bind_ok by (apply deref_ok; simpl; by rewrite lookup_alter_ne).
    erewrite bind_ok by (apply store_ok; simpl; by apply alter_is_Some).
    erewrite bind_ok by (apply get_list_ok; exact Hv). cbn [links lists next prev]. unfold S'.
    destruct (decide (hd = p)) as [->|Hne].
    + rewrite decide_True by done. by erewrite bind_ok by (apply deref_ok; exact HL').
    + by rewrite decide_False by congruence.
  - rewrite (bind_ok _ _ _ _ _ _ _ Hin). erewrite bind_ok by (apply store_ok; simpl; rewrite HL'; eauto).
    erewrite store_ok by (simpl; apply alter_is_Some; rewrite HL'; eauto). simpl.
    by rewrite (both_stores _ _ _ _ _ HL').
Qed.

(** ** Contracts *)

Lemma hoare_ok {X} (P : @heap D → Prop) (c : run X) Q F L :
  (∀ h m, P h → ∃ x h', c h m = Ok x h' m ∧ Q x h') → hoare P c Q F L.
Proof. intros Hc h m HP. destruct (Hc h m HP) as (x & h' & -> & HQ). done. Qed.

(** The same links, arranged in another way. *)
Lemma rep_relink h A W v l l' W' L' :
  rep h A W → A !! v = Some l → NoDup l'.*1 → ring L' l' →
  (∀ p d, W' !! p = Some d → ∃ a b, L' !! p = Some (Link a b d)) →
  (∀ p, p ∈ l'.*1 → W' !! p = None) →
  (∀ p, here l' W' p ↔ here l W p) →
  (∀ p, ¬ here l W p → L' !! p = links h !! p) →
  rep (Heap L' (<[v := first_link l']> (lists h))) (<[v := l']> A) W'.
Proof.
  intros Hr Hv Hnd Hring Hloose Hfree Hsame HL. apply (rep_update _ A W v l); try done.
  - intros p Hp. left. by apply Hsame.
  - intros p Hn Hp. exfalso. by apply Hn, Hsame.
  - intros p Hn _. apply HL. by rewrite <- Hsame.
Qed.

Lemma here_move l1 q e l2 W p :
  W !! q = Some e → here (l1 ++ (q, e) :: l2) (delete q W) p ↔ here (l1 ++ l2) W p.
Proof.
  intros Hq. unfold here. rewrite !fmap_app, fmap_cons, !elem_of_app, elem_of_cons. simpl.
  destruct (decide (p = q)) as [->|Hne].
  - rewrite Hq. split; [intros; right; eauto|auto].
  - rewrite lookup_delete_ne by done. tauto.
Qed.

Lemma nodup_insert l1 (q : ptr) (e : D) l2 :
  NoDup (l1 ++ l2).*1 → q ∉ (l1 ++ l2).*1 → NoDup (l1 ++ (q, e) :: l2).*1.
Proof.
  rewrite !fmap_app, fmap_cons. simpl. intros Hnd Hq.
  rewrite <- Permutation_middle. by apply list.NoDup_cons.
Qed.

Lemma nodup_remove l1 (q : ptr) (e : D) l2 :
  NoDup (l1 ++ (q, e) :: l2).*1 → NoDup (l1 ++ l2).*1 ∧ q ∉ (l1 ++ l2).*1.
Proof.
  rewrite !fmap_app, fmap_cons. simpl. rewrite <- Permutation_middle. intros Hnd%list.NoDup_cons. tauto.
Qed.

Lemma rep_var h A W v l : rep h A W → A !! v = Some l → lists h !! v = Some (first_link l).
Proof. intros Hr Hv. rewrite (rep_lists _ _ _ Hr), lookup_fmap, Hv. done. Qed.

(** A loose link keeps its data whatever the stores to other links. *)
Lemma loose_frame h A W q (L' : graph) :
  rep h A W → (∀ p, is_Some (delete q W !! p) → L' !! p = links h !! p) →
  ∀ p d, (delete q W) !! p = Some d → ∃ a b, L' !! p = Some (Link a b d).
Proof.
  intros Hr HL p d Hp. rewrite HL by eauto. apply (rep_loose _ _ _ Hr).
  by apply lookup_delete_Some in Hp as [_ ?].
Qed.

Lemma loose_not_in h A W v l p d :
  rep h A W → A !! v = Some l → W !! p = Some d → p ∉ l.*1.
Proof. intros Hr Hv Hp Hin. by rewrite (rep_free _ _ _ Hr _ _ _ Hv Hin) in Hp. Qed.

(** The list after [q] was put between [l1] and [l2]. *)
Lemma rep_insert h A W v l1 l2 q e L' :
  rep h A W → A !! v = Some (l1 ++ l2) → W !! q = Some e →
  ring L' (l1 ++ (q, e) :: l2) →
  (∀ p, p ≠ q → p ∉ (l1 ++ l2).*1 → L' !! p = links h !! p) →
  rep (Heap L' (<[v := first_link (l1 ++ (q, e) :: l2)]> (lists h)))
    (<[v := l1 ++ (q, e) :: l2]> A) (delete q W).
Proof.
  intros Hr Hv Hq Hring HL.
  assert (q ∉ (l1 ++ l2).*1) as Hn by by eapply loose_not_in.
  apply (rep_relink h A W v (l1 ++ l2)); [done|done| |done| | | |].
  - apply nodup_insert; [by eapply rep_nodup|done].
  - eapply loose_frame; [done..|]. intros p [d Hp%lookup_delete_Some]. destruct Hp as [Hne Hp].
    apply HL; [done|]. by eapply loose_not_in.
  - intros p. rewrite fmap_app, fmap_cons, elem_of_app, elem_of_cons. simpl. intros Hp.
    destruct (decide (p = q)) as [->|Hne]; [apply lookup_delete_eq|]. rewrite lookup_delete_ne by done.
    apply (rep_free _ _ _ Hr v (l1 ++ l2)); [done|]. rewrite fmap_app, elem_of_app. tauto.
  - intros p. by apply here_move.
  - intros p Hp. apply HL.
    + intros ->. apply Hp. right. eauto.
    + intros Hin. apply Hp. by left.
Qed.

Lemma ring_in L l p : ring L l → p ∈ l.*1 → is_Some (L !! p).
Proof. apply segment_lookup. Qed.

Lemma last_ptr_in (b : ptr) (l : list item) : last_ptr b l = b ∨ last_ptr b l ∈ l.*1.
Proof.
  revert b. induction l as [|[p d] l IH]; intros b; [by left|]. right. simpl.
  destruct (IH p) as [->|?]; [by left|by right].
Qed.

Lemma hd_ptr_in (b : ptr) (l : list item) : hd_ptr b l = b ∨ hd_ptr b l ∈ l.*1.
Proof. destruct l as [|[p d] l]; [by left|right; by left]. Qed.

(** The variable moves only if the new link is in front. *)
Lemma head_after_insert (S : gmap var (option ptr)) v l1 b d l2 q e hd :
  S !! v = Some (first_link (l1 ++ (b, d) :: l2)) → S !! v = Some (Some hd) →
  NoDup (l1 ++ (b, d) :: l2).*1 →
  (if decide (b = hd) then <[v := Some q]> S else S)
    = <[v := first_link (l1 ++ (q, e) :: (b, d) :: l2)]> S.
Proof.
  intros Hv Hhd Hnd. rewrite Hv in Hhd. destruct l1 as [|[p c] l1]; simpl in *.
  - injection Hhd as ->. by rewrite decide_True.
  - injection Hhd as ->. rewrite decide_False; [by rewrite insert_id|].
    apply list.NoDup_cons in Hnd as [Hn _]. intros ->. apply Hn.
    rewrite fmap_app, elem_of_app. right. by left.
Qed.

(** The ring seen from one of its links. *)
Lemma around h A W v l1 b d l2 :
  rep h A W → A !! v = Some (l1 ++ (b, d) :: l2) →
  ring (links h) ((b, d) :: l2 ++ l1) ∧ NoDup ((b, d) :: l2 ++ l1).*1 ∧
  (∀ p, p ∈ ((b, d) :: l2 ++ l1).*1 ↔ p ∈ (l1 ++ (b, d) :: l2).*1).
Proof.
  intros Hr Hv.
  assert (((b, d) :: l2 ++ l1).*1 ≡ₚ (l1 ++ (b, d) :: l2).*1) as Hp.
  { rewrite !fmap_cons, !fmap_app, fmap_cons. rewrite (Permutation_app_comm (l1.*1)). done. }
  split; [by eapply ring_middle, rep_ring|]. split; [|intros p; by rewrite Hp].
  rewrite Hp. by eapply rep_nodup.
Qed.

Lemma link_before_rule A W v l1 b d l2 q e F L :
  A !! v = Some (l1 ++ (b, d) :: l2) → W !! q = Some e →
  hoare (λ h, rep h A W) (link_before v (Some b) (Some q))
    (λ _ h, rep h (<[v := l1 ++ (q, e) :: (b, d) :: l2]> A) (delete q W)) F L.
Proof.
  intros Hv Hq. apply hoare_ok. intros h m Hr. pose proof (rep_var _ _ _ _ _ Hr Hv) as Hhd.
  pose proof (loose_not_in _ _ _ _ _ _ _ Hr Hv Hq) as Hqn.
  destruct (rep_loose _ _ _ Hr _ _ Hq) as (qa & qb & Hxq).
  destruct (around _ _ _ _ _ _ _ _ Hr Hv) as (Hring & Hnd & Hperm).
  pose proof (ring_first _ _ _ _ Hring) as Hb. set (z := last_ptr b (l2 ++ l1)) in *.
  assert (z ∈ ((b, d) :: l2 ++ l1).*1) as Hz.
  { destruct (last_ptr_in b (l2 ++ l1)) as [E|E]; [unfold z; rewrite E; by left|by right]. }
  assert (b ≠ q) as Hbq by (intros ->; apply Hqn, Hperm; by left).
  destruct (first_link (l1 ++ (b, d) :: l2)) as [hd|] eqn:Efirst; [|by destruct l1 as [|[]]].
  eexists tt, _. split; [apply (link_before_ok h v hd b q _ _ z m Hhd Hb Hxq Hbq eq_refl); by eapply ring_in|].
  cbn [data]. rewrite (head_after_insert _ _ l1 b d l2 q e)
    by (done || by rewrite Hhd, Efirst || by eapply rep_nodup).
  apply rep_insert; [done..| |].
  - pose proof (ring_snoc (links h) ((b, d) :: l2 ++ l1) q e ltac:(done) Hnd) as Hs. rewrite Hperm in Hs.
    specialize (Hs Hqn Hring). simpl in Hs. fold z in Hs.
    rewrite (app_assoc l1 [(q, e)] ((b, d) :: l2) : l1 ++ (q, e) :: (b, d) :: l2 = _).
    apply (ring_rotate _ ((b, d) :: l2)). simpl. by rewrite app_assoc.
  - intros p Hpq Hp. rewrite !lookup_alter_ne, lookup_insert_ne; [done|done|..].
    + intros ->. apply Hp, Hperm. by left.
    + intros ->. by apply Hp, Hperm.
Qed.

Lemma link_after_rule A W v l1 b d l2 q e F L :
  A !! v = Some (l1 ++ (b, d) :: l2) → W !! q = Some e →
  hoare (λ h, rep h A W) (link_after v (Some b) (Some q))
    (λ _ h, rep h (<[v := l1 ++ (b, d) :: (q, e) :: l2]> A) (delete q W)) F L.
Proof.
  intros Hv Hq. apply hoare_ok. intros h m Hr. pose proof (rep_var _ _ _ _ _ Hr Hv) as Hhd.
  pose proof (loose_not_in _ _ _ _ _ _ _ Hr Hv Hq) as Hqn.
  destruct (rep_loose _ _ _ Hr _ _ Hq) as (qa & qb & Hxq).
  destruct (around _ _ _ _ _ _ _ _ Hr Hv) as (Hring & Hnd & Hperm).
  pose proof (ring_first _ _ _ _ Hring) as Hb. set (y := hd_ptr b (l2 ++ l1)) in *.
  assert (y ∈ ((b, d) :: l2 ++ l1).*1) as Hy.
  { destruct (hd_ptr_in b (l2 ++ l1)) as [E|E]; [unfold y; rewrite E; by left|by right]. }
  assert (b ≠ q) as Hbq by (intros ->; apply Hqn, Hperm; by left).
  destruct (first_link (l1 ++ (b, d) :: l2)) as [hd|] eqn:Efirst; [|by destruct l1 as [|[]]].
  eexists tt, _. split; [apply (link_after_ok h v hd b q _ _ y m Hhd Hb Hxq Hbq eq_refl); by eapply ring_in|].
  cbn [data]. assert (lists h = <[v := first_link ((l1 ++ [(b, d)]) ++ (q, e) :: l2)]> (lists h)) as E.
  { rewrite insert_id; [done|]. rewrite Hhd. f_equal. rewrite <- app_assoc. destruct l1 as [|[]]; simpl in *; congruence. }
  rewrite (app_assoc l1 [(b, d)] ((q, e) :: l2) : l1 ++ (b, d) :: (q, e) :: l2 = _), E.
  apply rep_insert; [done|by rewrite <- app_assoc|done|..].
  - assert (ring (links h) ((l2 ++ l1) ++ [(b, d)])) as Hring' by by apply (ring_rotate _ [(b, d)]).
    pose proof (ring_snoc (links h) ((l2 ++ l1) ++ [(b, d)]) q e ltac:(by destruct (l2 ++ l1))) as Hs.
    assert (((l2 ++ l1) ++ [(b, d)]).*1 ≡ₚ ((b, d) :: l2 ++ l1).*1) as Hp
      by (rewrite fmap_app; apply (Permutation_app_comm _ [b])).
    rewrite Hp, Hperm, last_ptr_app, hd_ptr_app in Hs. specialize (Hs Hnd Hqn Hring').
    simpl in Hs. fold y in Hs. rewrite <- stores_commute in Hs.
    rewrite (app_assoc _ [(q, e)] l2 : (l1 ++ [(b, d)]) ++ (q, e) :: l2 = _).
    apply (ring_rotate _ l2). by rewrite <- !app_assoc in *.
  - intros p Hpq Hp. rewrite <- app_assoc in Hp. rewrite !lookup_alter_ne, lookup_insert_ne; [done|done|..].
    + intros ->. apply Hp, Hperm. by left.
    + intros ->. by apply Hp, Hperm.
Qed.

(** Into an empty list. *)
Lemma link_first_rule A W v b q e F L :
  A !! v = Some [] → W !! q = Some e →
  hoare (λ h, rep h A W) (link_before v b (Some q))
    (λ _ h, rep h (<[v := [(q, e)]]> A) (delete q W)) F L.
Proof.
  intros Hv Hq. apply hoare_ok. intros h m Hr. pose proof (rep_var _ _ _ _ _ Hr Hv) as Hhd.
  destruct (rep_loose _ _ _ Hr _ _ Hq) as (qa & qb & Hxq).
  eexists tt, _. split.
  { unfold link_before. rewrite (bind_ok _ _ _ _ _ _ _ (get_list_ok h v _ m Hhd)).
    cbn [first_link]. erewrite bind_ok by (apply store_ok; eauto).
    erewrite bind_ok by (apply store_ok; simpl; apply alter_is_Some; eauto). reflexivity. }
  apply (rep_insert h A W v [] [] q e); [done..| |].
  - split; [|done]. simpl. by rewrite !lookup_alter_eq, Hxq.
  - intros p Hpq _. simpl. by rewrite !lookup_alter_ne by done.
Qed.

(** The list after [p] was taken out from between [l1] and [l2]. *)
Lemma rep_remove h A W v l1 l2 p d L' :
  rep h A W → A !! v = Some (l1 ++ (p, d) :: l2) →
  ring L' (l1 ++ l2) → (∃ a b, L' !! p = Some (Link a b d)) →
  (∀ r, r ∉ (l1 ++ (p, d) :: l2).*1 → L' !! r = links h !! r) →
  rep (Heap L' (<[v := first_link (l1 ++ l2)]> (lists h))) (<[v := l1 ++ l2]> A) (<[p := d]> W).
Proof.
  intros Hr Hv Hring Hp HL.
  destruct (nodup_remove _ _ _ _ (rep_nodup _ _ _ Hr _ _ Hv)) as [Hnd Hpn].
  assert (p ∈ (l1 ++ (p, d) :: l2).*1) as Hin by (rewrite fmap_app, elem_of_app; right; by left).
  assert (∀ r, r ∈ (l1 ++ l2).*1 → r ∈ (l1 ++ (p, d) :: l2).*1) as Hsub.
  { intros r. rewrite !fmap_app, fmap_cons, !elem_of_app, elem_of_cons. tauto. }
  apply (rep_relink h A W v (l1 ++ (p, d) :: l2)); try done.
  - intros r e [[<- <-]|[Hne Hw]]%lookup_insert_Some; [done|].
    rewrite HL by (by eapply loose_not_in). by apply (rep_loose _ _ _ Hr).
  - intros r Hrl. rewrite lookup_insert_ne by (by intros ->).
    eapply (rep_free _ _ _ Hr); [done|by apply Hsub].
  - intros r. rewrite <- (delete_insert_id W p d) at 2 by by eapply (rep_free _ _ _ Hr).
    symmetry. apply here_move. by rewrite lookup_insert_eq.
  - intros r Hn. apply HL. intros ?. apply Hn. by left.
Qed.

Lemma unlink_ring_rule A W v l1 p d l2 F L :
  A !! v = Some (l1 ++ (p, d) :: l2) →
  hoare (λ h, rep h A W) (_dbus_list_unlink v (Some p))
    (λ _ h, rep h (<[v := l1 ++ l2]> A) (<[p := d]> W)) F L.
Proof.
  intros Hv. apply hoare_ok. intros h m Hr. pose proof (rep_var _ _ _ _ _ Hr Hv) as Hhd.
  destruct (around _ _ _ _ _ _ _ _ Hr Hv) as (Hring & Hnd & Hperm).
  pose proof (ring_first _ _ _ _ Hring) as Hp. rewrite fmap_cons in Hnd.
  apply list.NoDup_cons in Hnd as [Hpn Hnd]. simpl in Hpn.
  destruct (decide (l2 ++ l1 = [])) as [E|Hne].
  { apply app_eq_nil in E as [-> ->]. eexists tt, _. split; [by apply (unlink_only_ok h v p (Some p) d m)|].
    apply (rep_remove h A W v [] [] p d); [done..| |].
    - exists None, None. by rewrite lookup_insert_eq.
    - intros r Hrn. rewrite lookup_insert_ne; [done|]. intros ->. apply Hrn. by left. }
  rewrite (hd_ptr_any p 1), (last_ptr_any p 1) in Hp by done.
  destruct (hd_split 1 _ Hne) as (d1 & k1 & E1). destruct (last_split 1 _ Hne) as (k2 & d2 & E2).
  set (y := hd_ptr 1 (l2 ++ l1)) in *. set (z := last_ptr 1 (l2 ++ l1)) in *.
  assert (y ∈ (l2 ++ l1).*1) as Hy by (rewrite E1; by left).
  assert (z ∈ (l2 ++ l1).*1) as Hz by (rewrite E2, fmap_app, elem_of_app; right; by left).
  destruct (first_link (l1 ++ (p, d) :: l2)) as [hd|] eqn:Efirst; [|by destruct l1 as [|[]]].
  eexists tt, _. split.
  { apply (unlink_ok h v hd p z y d m Hhd Hp); [by intros ->|by intros ->|eapply ring_in; [done|by right]..]. }
  assert ((if decide (hd = p) then <[v := Some y]> (lists h) else lists h)
          = <[v := first_link (l1 ++ l2)]> (lists h)) as ->.
  { destruct l1 as [|[r c] l1]; simpl in *.
    - injection Efirst as ->. rewrite decide_True by done. rewrite app_nil_r in E1. by rewrite E1.
    - injection Efirst as ->. rewrite decide_False; [by rewrite insert_id|]. intros ->. apply Hpn.
      rewrite fmap_app, elem_of_app. right. by left. }
  apply (rep_remove h A W v l1 l2 p d); [done..| | |].
  - apply ring_rotate. apply (segment_frame (alter (with_prev (Some z)) y (alter (with_next (Some y)) z (links h))));
      [|by eapply ring_tail]. intros r Hrn. apply lookup_insert_ne. by intros ->.
  - exists None, None. by rewrite lookup_insert_eq.
  - intros r Hrn. rewrite <- Hperm in Hrn. rewrite lookup_insert_ne, !lookup_alter_ne; [done|..]; intros ->; apply Hrn;
      [by right|by right|by left].
Qed.

Lemma rep_alloc h A W p d :
  rep h A W → links h !! p = None → rep (with_links (insert p (Link None None d)) h) A (<[p := d]> W).
Proof.
  intros Hr Hp. pose proof Hr as [HL HR HN HW HA HF HX].
  assert (∀ v l, A !! v = Some l → p ∉ l.*1) as Hnew.
  { intros v l Hv Hin. destruct (ring_in _ _ _ (HR v l Hv) Hin) as [x Hx]. by rewrite Hp in Hx. }
  split; simpl; try done.
  - intros v l Hv. apply (segment_frame (links h)); [|by apply (HR v)].
    intros r Hrl. apply lookup_insert_ne. intros ->. by apply (Hnew v l).
  - intros r e [[<- <-]|[Hne Hw]]%lookup_insert_Some; [exists None, None; apply lookup_insert_eq|].
    rewrite lookup_insert_ne by done. by apply HW.
  - intros v l r Hv Hrl. rewrite lookup_insert_ne; [by eapply HF|]. intros ->. by apply (Hnew v l).
  - intros r Hrs. destruct (decide (p = r)) as [<-|Hne].
    + left. rewrite lookup_insert_eq. eauto.
    + rewrite lookup_insert_ne in Hrs by done. rewrite lookup_insert_ne by done. by apply HX.
Qed.

Lemma rep_dealloc h A W p d :
  rep h A W → W !! p = Some d → rep (with_links (delete p) h) A (delete p W).
Proof.
  intros Hr Hp. pose proof Hr as [HL HR HN HW HA HF HX].
  assert (∀ v l, A !! v = Some l → p ∉ l.*1) as Hnew by (intros; by eapply loose_not_in).
  split; simpl; try done.
  - intros v l Hv. apply (segment_frame (links h)); [|by apply (HR v)].
    intros r Hrl. apply lookup_delete_ne. intros ->. by apply (Hnew v l).
  - intros r e [Hne Hw]%lookup_delete_Some. rewrite lookup_delete_ne by done. by apply HW.
  - intros v l r Hv Hrl. rewrite lookup_delete_ne; [by eapply HF|]. intros ->. by apply (Hnew v l).
  - intros r [x [Hne Hx]%lookup_delete_Some]. rewrite lookup_delete_ne by done. apply HX. eauto.
Qed.

Lemma alloc_rule A W d :
  hoare (λ h, rep h A W) (alloc_link d)
    (λ r h, ∃ p, r = Some p ∧ W !! p = None ∧ rep h A (<[p := d]> W)) (λ h, rep h A W) False.
Proof.
  eapply hoare_bind; [apply request_rule|]. intros []; cbv beta. apply hoare_gets. intros h Hr.
  apply hoare_ok. intros ? m ->. set (p := fresh (dom (links h))).
  assert (links h !! p = None) as Hp by (apply not_elem_of_dom, is_fresh).
  exists (Some p), (with_links (insert p (Link None None d)) h). split; [done|]. exists p. split; [done|]. split.
  - destruct (W !! p) eqn:E; [|done]. destruct (rep_loose _ _ _ Hr _ _ E) as (a & b & Hx). by rewrite Hp in Hx.
  - by apply rep_alloc.
Qed.

Lemma free_rule A W p d F L :
  W !! p = Some d →
  hoare (λ h, rep h A W) (free_link (Some p)) (λ _ h, rep h A (delete p W)) F L.
Proof.
  intros Hp. apply hoare_ok. intros h m Hr. destruct (rep_loose _ _ _ Hr _ _ Hp) as (a & b & Hx).
  eexists tt, _. split; [unfold free_link; erewrite bind_ok by (by apply deref_ok); reflexivity|].
  by eapply rep_dealloc.
Qed.

Lemma get_head_rule A W v l F L :
  A !! v = Some l →
  hoare (λ h, rep h A W) (get_list v) (λ r h, r = first_link l ∧ rep h A W) F L.
Proof.
  intros Hv. apply hoare_ok. intros h m Hr. exists (first_link l), h.
  split; [|done]. by apply get_list_ok, (rep_var _ _ _ _ _ Hr).
Qed.

(** The contents of a link, seen from the list it is in. *)
Lemma deref_rule A W v l1 p d l2 F L :
  A !! v = Some (l1 ++ (p, d) :: l2) →
  hoare (λ h, rep h A W) (deref (Some p))
    (λ x h, x = Link (Some (last_ptr p (l2 ++ l1))) (Some (hd_ptr p (l2 ++ l1))) d ∧ rep h A W) F L.
Proof.
  intros Hv. apply hoare_ok. intros h m Hr. destruct (around _ _ _ _ _ _ _ _ Hr Hv) as (Hring & _).
  eexists _, h. split; [|done]. apply deref_ok. by apply ring_first in Hring.
Qed.

Definition last_link (l : list item) : option ptr := fst <$> list.last l.

Lemma last_link_ptr b l : l ≠ [] → last_link l = Some (last_ptr b l).
Proof.
  intros Hne. destruct (last_split b l Hne) as (l' & d & E). rewrite E at 1. unfold last_link.
  by rewrite list.last_snoc.
Qed.

Lemma first_link_ptr a l : l ≠ [] → first_link l = Some (hd_ptr a l).
Proof. by destruct l as [|[]]. Qed.

Lemma next_link_rule A W v l1 p d l2 F L :
  A !! v = Some (l1 ++ (p, d) :: l2) → NoDup (l1 ++ (p, d) :: l2).*1 →
  hoare (λ h, rep h A W) (_dbus_list_get_next_link v (Some p))
    (λ r h, r = first_link l2 ∧ rep h A W) F L.
Proof.
  intros Hv Hnd. eapply hoare_bind; [by eapply deref_rule|]. intros x; cbv beta. apply hoare_pure_l.
  intros ->. eapply hoare_bind; [by apply get_head_rule|]. intros hd; cbv beta. apply hoare_pure_l. intros ->.
  apply hoare_ret. intros h Hr. split; [|done]. cbn [next]. rewrite hd_ptr_app.
  destruct l2 as [|[q e] l2]; cbn [hd_ptr first_link].
  - destruct l1 as [|[r c] l1]; simpl; by rewrite decide_True.
  - rewrite decide_False; [done|]. destruct l1 as [|[r c] l1]; simpl in *; intros [= ->].
    + apply list.NoDup_cons in Hnd as [Hn _]. apply Hn. by left.
    + apply list.NoDup_cons in Hnd as [Hn _]. apply Hn. rewrite fmap_app, elem_of_app. right. right. by left.
Qed.

Lemma last_link_snoc l q (e : D) : last_link (l ++ [(q, e)]) = Some q.
Proof. unfold last_link. by rewrite list.last_snoc. Qed.

Lemma prev_link_rule A W v l1 p d l2 F L :
  A !! v = Some (l1 ++ (p, d) :: l2) → NoDup (l1 ++ (p, d) :: l2).*1 →
  hoare (λ h, rep h A W) (_dbus_list_get_prev_link v (Some p))
    (λ r h, r = last_link l1 ∧ rep h A W) F L.
Proof.
  intros Hv Hnd. eapply hoare_bind; [by apply get_head_rule|]. intros hd; cbv beta. apply hoare_pure_l.
  intros ->. destruct (decide (l1 = [])) as [->|Hne].
  - rewrite decide_True by done. by apply hoare_ret.
  - rewrite decide_False.
    + eapply hoare_bind; [by eapply deref_rule|]. intros x; cbv beta. apply hoare_pure_l. intros ->.
      apply hoare_ret. intros h Hr. split; [|done]. cbn [prev].
      by rewrite last_ptr_app, (last_link_ptr (last_ptr p l2)).
    + destruct l1 as [|[r c] l1]; [done|]. simpl in *. intros [= ->].
      apply list.NoDup_cons in Hnd as [Hn _]. apply Hn. rewrite fmap_app, elem_of_app. right. by left.
Qed.

Lemma get_last_link_rule A W v l F L :
  A !! v = Some l →
  hoare (λ h, rep h A W) (_dbus_list_get_last_link v) (λ r h, r = last_link l ∧ rep h A W) F L.
Proof.
  intros Hv. eapply hoare_bind; [by apply get_head_rule|]. intros hd; cbv beta. apply hoare_pure_l.
  intros ->. destruct l as [|[p d] l]; [by apply hoare_ret|]. cbn [first_link].
  eapply hoare_bind; [by apply (deref_rule _ _ v [])|]. intros x; cbv beta. apply hoare_pure_l. intros ->.
  apply hoare_ret. intros h Hr. split; [|done]. rewrite (last_link_ptr 1) by done. cbn [prev].
  by rewrite app_nil_r.
Qed.

Lemma rep_rotate h A W v l1 l2 :
  rep h A W → A !! v = Some (l1 ++ l2) →
  rep (Heap (links h) (<[v := first_link (l2 ++ l1)]> (lists h))) (<[v := l2 ++ l1]> A) W.
Proof.
  intros Hr Hv. assert (((l2 ++ l1).*1) ≡ₚ (l1 ++ l2).*1) as Hp by (by rewrite !fmap_app, Permutation_app_comm).
  apply (rep_relink h A W v (l1 ++ l2)); try done.
  - rewrite Hp. by eapply rep_nodup.
  - by eapply ring_rotate, rep_ring.
  - apply (rep_loose _ _ _ Hr).
  - intros p. rewrite Hp. by eapply rep_free.
  - intros p. unfold here. by rewrite Hp.
Qed.

Lemma cycle_rule A W v p d l F L :
  A !! v = Some ((p, d) :: l) →
  hoare (λ h, rep h A W) (cycle_forward v) (λ _ h, rep h (<[v := l ++ [(p, d)]]> A) W) F L.
Proof.
  intros Hv. eapply hoare_bind; [by apply get_head_rule|]. intros hd; cbv beta. apply hoare_pure_l.
  intros ->. eapply hoare_bind; [by apply (deref_rule _ _ v [])|]. intros x; cbv beta. apply hoare_pure_l.
  intros ->. apply hoare_modify. intros h Hr. cbn [next]. rewrite app_nil_r.
  replace (Some (hd_ptr p l)) with (first_link (l ++ [(p, d)])) by by destruct l as [|[]].
  by apply (rep_rotate h A W v [(p, d)] l).
Qed.

(** *** Adding *)

Lemma prepend_link_rule A W v l q e F L :
  A !! v = Some l → W !! q = Some e →
  hoare (λ h, rep h A W) (_dbus_list_prepend_link v (Some q))
    (λ _ h, rep h (<[v := (q, e) :: l]> A) (delete q W)) F L.
Proof.
  intros Hv Hq. eapply hoare_bind; [by apply get_head_rule|]. intros hd; cbv beta. apply hoare_pure_l.
  intros ->. destruct l as [|[b d] l]; [by apply link_first_rule|].
  by apply (link_before_rule _ _ _ [] b d l).
Qed.

Lemma append_link_rule A W v l q e F L :
  A !! v = Some l → W !! q = Some e →
  hoare (λ h, rep h A W) (_dbus_list_append_link v (Some q))
    (λ _ h, rep h (<[v := l ++ [(q, e)]]> A) (delete q W)) F L.
Proof.
  intros Hv Hq. eapply hoare_bind; [by apply prepend_link_rule|]. intros []; cbv beta.
  eapply hoare_conseq; [by apply (cycle_rule (<[v := (q, e) :: l]> A) (delete q W) v q e l F L), lookup_insert_eq|done| |done|done].
  intros [] h Hr. by rewrite insert_insert_eq in Hr.
Qed.

(** A new link, with what is done to it. *)
Lemma new_link_rule {X} A W d (k : option ptr → run X) Q :
  (∀ p, W !! p = None →
     hoare (λ h, rep h A (<[p := d]> W)) (k (Some p)) Q (λ h, rep h A W) False) →
  hoare (λ h, rep h A W) (alloc_link d ≫= k) Q (λ h, rep h A W) False.
Proof.
  intros Hk. eapply hoare_bind; [apply alloc_rule|]. intros r; cbv beta. apply hoare_exists_l. intros p.
  apply hoare_pure_l. intros ->. apply hoare_pure_l. intros Hp. by apply Hk.
Qed.

(** A new link put where a loose one can be put. *)
Lemma new_placed_rule A W d (k : option ptr → run unit) (B : ptr → D → gmap var (list item)) :
  (∀ q e W' F L, W' !! q = Some e →
     hoare (λ h, rep h A W') (k (Some q)) (λ _ h, rep h (B q e) (delete q W')) F L) →
  hoare (λ h, rep h A W) (alloc_link d ≫= k) (λ _ h, ∃ q, W !! q = None ∧ rep h (B q d) W)
    (λ h, rep h A W) False.
Proof.
  intros Hk. apply new_link_rule. intros q Hq.
  eapply hoare_conseq; [apply (Hk q d (<[q := d]> W) (λ h, rep h A W) False), lookup_insert_eq
                       |done| |done|done].
  intros [] h Hr. exists q. split; [done|]. by rewrite delete_insert_id in Hr.
Qed.

Lemma prepend_rule A W v l d :
  A !! v = Some l →
  hoare (λ h, rep h A W) (_dbus_list_prepend v d)
    (λ _ h, ∃ q, W !! q = None ∧ rep h (<[v := (q, d) :: l]> A) W) (λ h, rep h A W) False.
Proof.
  intros Hv. apply (new_placed_rule A W d _ (λ q d, <[v := (q, d) :: l]> A)).
  intros. by apply prepend_link_rule.
Qed.

Lemma append_rule A W v l d :
  A !! v = Some l →
  hoare (λ h, rep h A W) (_dbus_list_append v d)
    (λ _ h, ∃ q, W !! q = None ∧ rep h (<[v := l ++ [(q, d)]]> A) W) (λ h, rep h A W) False.
Proof.
  intros Hv. eapply hoare_bind; [by apply prepend_rule|]. intros []; cbv beta. apply hoare_exists_l.
  intros q. apply hoare_pure_l. intros Hq.
  eapply hoare_conseq; [by apply (cycle_rule (<[v := (q, d) :: l]> A) W v q d l (λ h, rep h A W) False), lookup_insert_eq
                       |done| |done|done].
  intros [] h Hr. exists q. by rewrite insert_insert_eq in Hr.
Qed.

(** *** Removing *)

Lemma drop_link_rule A W v l1 p d l2 F L :
  A !! v = Some (l1 ++ (p, d) :: l2) →
  hoare (λ h, rep h A W) (_dbus_list_remove_link v (Some p))
    (λ _ h, W !! p = None ∧ rep h (<[v := l1 ++ l2]> A) W) F L.
Proof.
  intros Hv h0 m0 Hr0. assert (W !! p = None) as Hp.
  { eapply rep_free; [done..|]. rewrite fmap_app, elem_of_app. right. by left. }
  revert h0 m0 Hr0. change (hoare (λ h, rep h A W) (_dbus_list_remove_link v (Some p))
    (λ _ h, W !! p = None ∧ rep h (<[v := l1 ++ l2]> A) W) F L).
  eapply hoare_bind; [by apply (unlink_ring_rule A W v l1 p d l2)|]. intros []; cbv beta.
  eapply hoare_conseq; [by apply (free_rule (<[v := l1 ++ l2]> A) (<[p := d]> W) p d F L), lookup_insert_eq|done| |done|done].
  intros [] h Hr. by rewrite delete_insert_id in Hr.
Qed.

(** Every list is shorter than the turns of a loop. *)
Lemma rep_size h A W v l : rep h A W → A !! v = Some l → (length l <= size (links h))%nat.
Proof.
  intros Hr Hv. pose proof (rep_nodup _ _ _ Hr _ _ Hv) as Hnd.
  rewrite <- (length_fmap fst l), <- (size_list_to_set (C := gset ptr) _ Hnd), <- (size_dom (D := gset ptr)).
  apply subseteq_size. intros p Hp%elem_of_list_to_set. apply elem_of_dom.
  by eapply ring_in, Hp; eapply rep_ring.
Qed.

Lemma turns_rule {X} A W v l (k : nat → run X) Q F L :
  A !! v = Some l →
  (∀ n, (length l < n)%nat → NoDup l.*1 → hoare (λ h, rep h A W) (k n) Q F L) →
  hoare (λ h, rep h A W) (turns ≫= k) Q F L.
Proof.
  intros Hv Hk h m Hr. unfold turns, mbind, M_bind, gets. apply Hk; [|by eapply rep_nodup|done].
  pose proof (rep_size _ _ _ _ _ Hr Hv). lia.
Qed.

Lemma remove_loop_rule A W v d fuel l1 l2 F L :
  A !! v = Some (l1 ++ l2) → NoDup (l1 ++ l2).*1 → (length l2 < fuel)%nat → d ∉ l1.*2 →
  hoare (λ h, rep h A W) (remove_loop fuel v d (first_link l2))
    (λ r h, if (r : bool)
            then ∃ k1 p k2, l1 ++ l2 = k1 ++ (p, d) :: k2 ∧ d ∉ k1.*2 ∧ rep h (<[v := k1 ++ k2]> A) W
            else d ∉ (l1 ++ l2).*2 ∧ rep h A W) F L.
Proof.
  revert l1 l2. induction fuel as [|fuel IH]; intros l1 l2 Hv Hnd Hlen Hd; [lia|].
  destruct l2 as [|[p c] l2]; cbn [remove_loop first_link].
  { apply hoare_ret. intros h Hr. by rewrite app_nil_r. }
  eapply hoare_bind; [by eapply deref_rule|]. intros x; cbv beta. apply hoare_pure_l. intros ->. cbn [data].
  destruct (decide (c = d)) as [->|Hne].
  - eapply hoare_bind; [by eapply drop_link_rule|]. intros []; cbv beta. apply hoare_ret.
    intros h [_ Hr]. by exists l1, p, l2.
  - eapply hoare_bind; [by eapply next_link_rule|]. intros r; cbv beta. apply hoare_pure_l. intros ->.
    rewrite (app_assoc l1 [(p, c)] l2 : l1 ++ (p, c) :: l2 = _) in *.
    apply IH; [done..|simpl in Hlen; lia|]. rewrite fmap_app, elem_of_app. intros [?|Hc]; [done|].
    by apply list_elem_of_singleton in Hc.
Qed.

Lemma find_last_loop_rule A W v d fuel l1 l2 F L :
  A !! v = Some (l1 ++ l2) → NoDup (l1 ++ l2).*1 → (length l1 < fuel)%nat → d ∉ l2.*2 →
  hoare (λ h, rep h A W) (find_last_loop fuel v d (last_link l1))
    (λ r h, rep h A W ∧
       match r with
       | Some p => ∃ k1 k2, l1 ++ l2 = k1 ++ (p, d) :: k2 ∧ d ∉ k2.*2
       | None => d ∉ (l1 ++ l2).*2
       end) F L.
Proof.
  revert l1 l2. induction fuel as [|fuel IH]; intros l1 l2 Hv Hnd Hlen Hd; [lia|].
  destruct l1 as [|[p c] l1 _] using rev_ind; [by apply hoare_ret|].
  rewrite last_link_snoc. cbn [find_last_loop]. rewrite <- app_assoc in *. simpl app in *.
  eapply hoare_bind; [by eapply deref_rule|]. intros x; cbv beta. apply hoare_pure_l. intros ->. cbn [data].
  destruct (decide (c = d)) as [->|Hne].
  - apply hoare_ret. intros h Hr. split; [done|]. by exists l1, l2.
  - eapply hoare_bind; [by eapply prev_link_rule|]. intros r; cbv beta. apply hoare_pure_l. intros ->.
    rewrite length_app in Hlen. simpl in Hlen. apply IH; [done..|lia|].
    rewrite fmap_cons, not_elem_of_cons. done.
Qed.

Lemma length_loop_rule A W v fuel l1 l2 n F L :
  A !! v = Some (l1 ++ l2) → NoDup (l1 ++ l2).*1 → (length l2 < fuel)%nat →
  hoare (λ h, rep h A W) (length_loop fuel v n (first_link l2))
    (λ r h, r = (n + length l2)%nat ∧ rep h A W) F L.
Proof.
  revert l1 l2 n. induction fuel as [|fuel IH]; intros l1 l2 n Hv Hnd Hlen; [lia|].
  destruct l2 as [|[p c] l2]; cbn [length_loop first_link].
  { apply hoare_ret. intros h Hr. simpl. split; [lia|done]. }
  eapply hoare_bind; [by eapply next_link_rule|]. intros r; cbv beta. apply hoare_pure_l. intros ->.
  rewrite (app_assoc l1 [(p, c)] l2 : l1 ++ (p, c) :: l2 = _) in *. simpl in Hlen.
  eapply hoare_conseq; [by eapply (IH (l1 ++ [(p, c)]) l2 (S n)); [..|lia]|done| |done|done].
  intros r h [-> Hr]. simpl. split; [lia|done].
Qed.

(** *** Clearing: the rest [l] of the list at [v] is loose, but still linked *)

Record clearing (A : gmap var (list item)) (W : gmap ptr D) (v : var) (hd : ptr) (l : list item)
    (h : @heap D) : Prop := {
  clearing_var : lists h !! v = Some (Some hd);
  clearing_segment : ∃ b, segment (links h) b l hd;
  clearing_rep : rep (Heap (links h) (<[v := None]> (lists h))) (<[v := []]> A) (list_to_map l ∪ W)
}.

Lemma clear_loop_rule A W v hd fuel l F L :
  (length l < fuel)%nat → NoDup l.*1 → hd ∉ (tail l).*1 → (∀ p, p ∈ l.*1 → W !! p = None) →
  hoare (clearing A W v hd l) (clear_loop fuel v (first_link l)) (λ _, clearing A W v hd []) F L.
Proof.
  revert l. induction fuel as [|fuel IH]; intros l Hlen Hnd Hhd HW; [lia|].
  destruct l as [|[p d] l]; cbn [clear_loop first_link]; [by apply hoare_ret|].
  rewrite fmap_cons in Hnd. apply list.NoDup_cons in Hnd as [Hpn Hnd]. simpl in Hhd, Hpn, Hlen.
  eapply hoare_bind with (Q := λ r h, r = first_link l ∧ clearing A W v hd ((p, d) :: l) h).
  { apply hoare_ok. intros h m Hc. pose proof Hc as [Hv [b [Hp Hl]] Hr]. exists (first_link l), h.
    split; [|done]. unfold _dbus_list_get_next_link.
    rewrite (bind_ok _ _ _ _ _ _ _ (deref_ok h p _ m Hp)), (bind_ok _ _ _ _ _ _ _ (get_list_ok h v _ m Hv)).
    cbn [next]. destruct l as [|[q e] l]; simpl; [by rewrite decide_True|]. rewrite decide_False; [done|].
    intros [= ->]. apply Hhd. by left. }
  intros r; cbv beta. apply hoare_pure_l. intros ->.
  eapply hoare_bind with (Q := λ _, clearing A W v hd l);
    [|intros []; apply IH; [lia|done|destruct l as [|x l]; [done|by apply not_elem_of_cons in Hhd as [_ ?]]|]; intros q Hq; apply HW; by right].
  apply hoare_ok. intros h m [Hv [b [Hp Hl]] Hr]. eexists tt, _.
  split; [unfold free_link; erewrite bind_ok by (by apply deref_ok); reflexivity|]. split.
  - done.
  - exists p. apply (segment_frame (links h)); [|done]. intros q Hq. simpl. apply lookup_delete_ne. by intros ->.
  - assert ((list_to_map l ∪ W : gmap ptr D) !! p = None) as Hn.
    { apply lookup_union_None. split; [by apply not_elem_of_list_to_map_1|]. apply HW. by left. }
    rewrite list_to_map_cons, <- insert_union_l in Hr.
    apply (rep_dealloc _ _ _ p d) in Hr; [|apply lookup_insert_eq].
    rewrite delete_insert_id in Hr by done. exact Hr.
Qed.

Lemma clear_start h A W v p d l :
  rep h A W → A !! v = Some ((p, d) :: l) → clearing A W v p ((p, d) :: l) h.
Proof.
  intros Hr Hv. pose proof (rep_ring _ _ _ Hr _ _ Hv) as Hring.
  split; [by apply (rep_var _ _ _ _ _ Hr Hv)|by exists (last_ptr p l)|].
  set (l0 := (p, d) :: l) in *.
  assert (∀ q, is_Some ((list_to_map l0 ∪ W : gmap ptr D) !! q) ↔ here l0 W q) as Hhere.
  { intros q. unfold here. rewrite lookup_union_is_Some, <- (elem_of_dom (D := gset ptr)), dom_list_to_map.
    by rewrite elem_of_list_to_set. }
  apply (rep_relink h A W v l0 []); try done.
  - constructor.
  - intros q e [Hq|[_ Hq]]%lookup_union_Some_raw; [|by apply (rep_loose _ _ _ Hr)].
    apply elem_of_list_to_map_2 in Hq. apply list_elem_of_split in Hq as (l1 & l2 & E).
    rewrite E in Hring. apply ring_middle, ring_first in Hring. eauto.
  - by intros q ?%elem_of_nil.
  - intros q. unfold here at 1. rewrite Hhere. simpl. rewrite elem_of_nil. tauto.
Qed.

Lemma clear_rule A W v l F L :
  A !! v = Some l →
  hoare (λ h, rep h A W) (_dbus_list_clear v) (λ _ h, rep h (<[v := []]> A) W) F L.
Proof.
  intros Hv. eapply hoare_bind; [by apply get_head_rule|]. intros hd; cbv beta. apply hoare_pure_l.
  intros ->. eapply turns_rule; [done|]. intros n Hn Hnd. destruct l as [|[p d] l].
  - destruct n as [|n]; [simpl in *; lia|].
    eapply (hoare_bind _ _ _ (λ _ h, rep h A W)); [by apply hoare_ret|].
    intros []; cbv beta. apply hoare_modify. intros h Hr. exact (rep_rotate h A W v [] [] Hr Hv).
  - intros h m Hr. apply (hoare_bind (clearing A W v p ((p, d) :: l)) _ _ (λ _, clearing A W v p [])); [| |by apply clear_start].
    + apply clear_loop_rule; [done..| |].
      * simpl. by apply list.NoDup_cons in Hnd as [? _].
      * intros q Hq. by eapply rep_free.
    + intros []; cbv beta. apply hoare_modify. intros h' [_ _ Hr']. simpl in Hr'.
      by rewrite (left_id_L ∅ (∪)) in Hr'.
Qed.

(** *** Copying *)

Lemma copy_loop_rule A W v w fuel l1 l2 k :
  v ≠ w → A !! v = Some (l1 ++ l2) → NoDup (l1 ++ l2).*1 → (length l2 < fuel)%nat →
  A !! w = Some k → k.*2 = l1.*2 →
  hoare (λ h, rep h A W) (copy_loop fuel v w (first_link l2))
    (λ _ h, ∃ k', k'.*2 = (l1 ++ l2).*2 ∧ rep h (<[w := k']> A) W)
    (λ h, rep h (<[w := []]> A) W) False.
Proof.
  intros Hvw. revert A l1 l2 k. induction fuel as [|fuel IH]; intros A l1 l2 k Hv Hnd Hlen Hw Hk; [lia|].
  destruct l2 as [|[p c] l2]; cbn [copy_loop first_link].
  { apply hoare_ret. intros h Hr. exists k. rewrite app_nil_r. split; [done|]. by rewrite insert_id. }
  eapply hoare_bind; [by eapply deref_rule|]. intros x; cbv beta. apply hoare_pure_l. intros ->. cbn [data].
  eapply hoare_bind.
  { apply (hoare_on_failure _ _ _ _ (λ h, rep h A W)); [by apply append_rule|].
    intros h m Hr. pose proof (clear_rule A W w k (λ h, rep h (<[w := []]> A) W) True Hw h m Hr) as Hc.
    by destruct (_dbus_list_clear w h m); [destruct Hc..|]. }
  intros []; cbv beta. apply hoare_exists_l. intros q. apply hoare_pure_l. intros Hq.
  set (A' := <[w := k ++ [(q, c)]]> A).
  assert (A' !! v = Some (l1 ++ (p, c) :: l2)) as Hv' by (unfold A'; by rewrite lookup_insert_ne).
  eapply hoare_bind; [by eapply next_link_rule|]. intros r; cbv beta. apply hoare_pure_l. intros ->.
  rewrite (app_assoc l1 [(p, c)] l2 : l1 ++ (p, c) :: l2 = _) in *. simpl in Hlen.
  eapply hoare_conseq; [apply (IH A' (l1 ++ [(p, c)]) l2 (k ++ [(q, c)])); [done|done|lia|apply lookup_insert_eq|by rewrite !fmap_app, Hk]|done|..].
  - intros [] h (k' & Hk' & Hr). exists k'. split; [done|]. unfold A' in Hr. by rewrite insert_insert_eq in Hr.
  - intros h Hr. unfold A' in Hr. by rewrite insert_insert_eq in Hr.
  - done.
Qed.

(** ** The operations *)

Inductive list_op :=
| AllocLink (d : D) | FreeLink (p : ptr)
| Append (v : var) (d : D) | Prepend (v : var) (d : D)
| AppendLink (v : var) (p : ptr) | PrependLink (v : var) (p : ptr)
| InsertBefore (v : var) (o : option ptr) (d : D) | InsertAfter (v : var) (o : option ptr) (d : D)
| InsertBeforeLink (v : var) (o : option ptr) (p : ptr) | InsertAfterLink (v : var) (o : option ptr) (p : ptr)
| Unlink (v : var) (p : ptr) | RemoveLink (v : var) (p : ptr)
| Remove (v : var) (d : D) | RemoveLast (v : var) (d : D) | FindLast (v : var) (d : D)
| Clear (v : var) | Copy (v w : var)
| PopFirst (v : var) | PopFirstLink (v : var) | PopLast (v : var) | PopLastLink (v : var)
| GetLength (v : var) | GetFirst (v : var) | GetLast (v : var) | LengthIsOne (v : var).

Inductive answer :=
| Nothing | ALink (o : option ptr) | AData (o : option D) | ABool (b : bool) | ALength (n : nat).

Definition returning {X} (c : run X) (f : X → answer) : run answer := x ← c; mret (f x).
Definition silent (c : run unit) : run answer := returning c (λ _, Nothing).

Definition run_op (o : list_op) : run answer :=
  match o with
  | AllocLink d => returning (_dbus_list_alloc_link d) ALink
  | FreeLink p => silent (_dbus_list_free_link (Some p))
  | Append v d => silent (_dbus_list_append v d)
  | Prepend v d => silent (_dbus_list_prepend v d)
  | AppendLink v p => silent (_dbus_list_append_link v (Some p))
  | PrependLink v p => silent (_dbus_list_prepend_link v (Some p))
  | InsertBefore v o d => silent (_dbus_list_insert_before v o d)
  | InsertAfter v o d => silent (_dbus_list_insert_after v o d)
  | InsertBeforeLink v o p => silent (_dbus_list_insert_before_link v o (Some p))
  | InsertAfterLink v o p => silent (_dbus_list_insert_after_link v o (Some p))
  | Unlink v p => silent (_dbus_list_unlink v (Some p))
  | RemoveLink v p => silent (_dbus_list_remove_link v (Some p))
  | Remove v d => returning (_dbus_list_remove v d) ABool
  | RemoveLast v d => returning (_dbus_list_remove_last v d) ABool
  | FindLast v d => returning (_dbus_list_find_last v d) ALink
  | Clear v => silent (_dbus_list_clear v)
  | Copy v w => silent (_dbus_list_copy v w)
  | PopFirst v => returning (_dbus_list_pop_first v) AData
  | PopFirstLink v => returning (_dbus_list_pop_first_link v) ALink
  | PopLast v => returning (_dbus_list_pop_last v) AData
  | PopLastLink v => returning (_dbus_list_pop_last_link v) ALink
  | GetLength v => returning (_dbus_list_get_length v) ALength
  | GetFirst v => returning (_dbus_list_get_first v) AData
  | GetLast v => returning (_dbus_list_get_last v) AData
  | LengthIsOne v => returning (_dbus_list_length_is_one v) ABool
  end.

(** What an operation may be given: lists that exist, links that are in the list or
    loose, and an empty destination for a copy. *)
Definition enabled (o : list_op) (A : gmap var (list item)) (W : gmap ptr D) : Prop :=
  let is_list v := is_Some (A !! v) in
  let in_list v p := ∃ l, A !! v = Some l ∧ p ∈ l.*1 in
  let place v o := is_list v ∧ match o with Some p => in_list v p | None => True end in
  let loose p := is_Some (W !! p) in
  match o with
  | AllocLink _ => True
  | FreeLink p => loose p
  | AppendLink v p | PrependLink v p => is_list v ∧ loose p
  | InsertBefore v o _ | InsertAfter v o _ => place v o
  | InsertBeforeLink v o p | InsertAfterLink v o p => place v o ∧ loose p
  | Unlink v p | RemoveLink v p => in_list v p
  | Copy v w => is_list v ∧ A !! w = Some [] ∧ v ≠ w
  | Append v _ | Prepend v _ | Remove v _ | RemoveLast v _ | FindLast v _ | Clear v | PopFirst v
  | PopFirstLink v | PopLast v | PopLastLink v | GetLength v | GetFirst v | GetLast v | LengthIsOne v =>
      is_list v
  end.

(** What an operation does to lists and loose links, and its answer. *)
Inductive does (A : gmap var (list item)) (W : gmap ptr D) :
    list_op → answer → gmap var (list item) → gmap ptr D → Prop :=
| does_alloc d p : W !! p = None → does A W (AllocLink d) (ALink (Some p)) A (<[p := d]> W)
| does_free p : does A W (FreeLink p) Nothing A (delete p W)
| does_append v d l p : A !! v = Some l → W !! p = None →
    does A W (Append v d) Nothing (<[v := l ++ [(p, d)]]> A) W
| does_prepend v d l p : A !! v = Some l → W !! p = None →
    does A W (Prepend v d) Nothing (<[v := (p, d) :: l]> A) W
| does_append_link v l p d : A !! v = Some l → W !! p = Some d →
    does A W (AppendLink v p) Nothing (<[v := l ++ [(p, d)]]> A) (delete p W)
| does_prepend_link v l p d : A !! v = Some l → W !! p = Some d →
    does A W (PrependLink v p) Nothing (<[v := (p, d) :: l]> A) (delete p W)
| does_insert_before v l1 b c l2 p d : A !! v = Some (l1 ++ (b, c) :: l2) → W !! p = None →
    does A W (InsertBefore v (Some b) d) Nothing (<[v := l1 ++ (p, d) :: (b, c) :: l2]> A) W
| does_insert_before_null v l p d : A !! v = Some l → W !! p = None →
    does A W (InsertBefore v None d) Nothing (<[v := l ++ [(p, d)]]> A) W
| does_insert_after v l1 b c l2 p d : A !! v = Some (l1 ++ (b, c) :: l2) → W !! p = None →
    does A W (InsertAfter v (Some b) d) Nothing (<[v := l1 ++ (b, c) :: (p, d) :: l2]> A) W
| does_insert_after_null v l p d : A !! v = Some l → W !! p = None →
    does A W (InsertAfter v None d) Nothing (<[v := (p, d) :: l]> A) W
| does_insert_before_link v l1 b c l2 p d : A !! v = Some (l1 ++ (b, c) :: l2) → W !! p = Some d →
    does A W (InsertBeforeLink v (Some b) p) Nothing
      (<[v := l1 ++ (p, d) :: (b, c) :: l2]> A) (delete p W)
| does_insert_before_link_null v l p d : A !! v = Some l → W !! p = Some d →
    does A W (InsertBeforeLink v None p) Nothing (<[v := l ++ [(p, d)]]> A) (delete p W)
| does_insert_after_link v l1 b c l2 p d : A !! v = Some (l1 ++ (b, c) :: l2) → W !! p = Some d →
    does A W (InsertAfterLink v (Some b) p) Nothing
      (<[v := l1 ++ (b, c) :: (p, d) :: l2]> A) (delete p W)
| does_insert_after_link_null v l p d : A !! v = Some l → W !! p = Some d →
    does A W (InsertAfterLink v None p) Nothing (<[v := (p, d) :: l]> A) (delete p W)
| does_unlink v l1 p d l2 : A !! v = Some (l1 ++ (p, d) :: l2) →
    does A W (Unlink v p) Nothing (<[v := l1 ++ l2]> A) (<[p := d]> W)
| does_remove_link v l1 p d l2 : A !! v = Some (l1 ++ (p, d) :: l2) →
    does A W (RemoveLink v p) Nothing (<[v := l1 ++ l2]> A) W
| does_remove v d l1 p l2 : A !! v = Some (l1 ++ (p, d) :: l2) → d ∉ l1.*2 →
    does A W (Remove v d) (ABool true) (<[v := l1 ++ l2]> A) W
| does_not_remove v d l : A !! v = Some l → d ∉ l.*2 → does A W (Remove v d) (ABool false) A W
| does_remove_last v d l1 p l2 : A !! v = Some (l1 ++ (p, d) :: l2) → d ∉ l2.*2 →
    does A W (RemoveLast v d) (ABool true) (<[v := l1 ++ l2]> A) W
| does_not_remove_last v d l : A !! v = Some l → d ∉ l.*2 → does A W (RemoveLast v d) (ABool false) A W
| does_find_last v d l1 p l2 : A !! v = Some (l1 ++ (p, d) :: l2) → d ∉ l2.*2 →
    does A W (FindLast v d) (ALink (Some p)) A W
| does_not_find_last v d l : A !! v = Some l → d ∉ l.*2 → does A W (FindLast v d) (ALink None) A W
| does_clear v : does A W (Clear v) Nothing (<[v := []]> A) W
| does_copy v w l k : A !! v = Some l → k.*2 = l.*2 → does A W (Copy v w) Nothing (<[w := k]> A) W
| does_pop_first v p d l : A !! v = Some ((p, d) :: l) → does A W (PopFirst v) (AData (Some d)) (<[v := l]> A) W
| does_pop_first_empty v : A !! v = Some [] → does A W (PopFirst v) (AData None) A W
| does_pop_first_link v p d l : A !! v = Some ((p, d) :: l) →
    does A W (PopFirstLink v) (ALink (Some p)) (<[v := l]> A) (<[p := d]> W)
| does_pop_first_link_empty v : A !! v = Some [] → does A W (PopFirstLink v) (ALink None) A W
| does_pop_last v p d l : A !! v = Some (l ++ [(p, d)]) → does A W (PopLast v) (AData (Some d)) (<[v := l]> A) W
| does_pop_last_empty v : A !! v = Some [] → does A W (PopLast v) (AData None) A W
| does_pop_last_link v p d l : A !! v = Some (l ++ [(p, d)]) →
    does A W (PopLastLink v) (ALink (Some p)) (<[v := l]> A) (<[p := d]> W)
| does_pop_last_link_empty v : A !! v = Some [] → does A W (PopLastLink v) (ALink None) A W
| does_get_length v l : A !! v = Some l → does A W (GetLength v) (ALength (length l)) A W
| does_get_first v l : A !! v = Some l → does A W (GetFirst v) (AData (snd <$> head l)) A W
| does_get_last v l : A !! v = Some l → does A W (GetLast v) (AData (snd <$> list.last l)) A W
| does_length_is_one v l : A !! v = Some l → does A W (LengthIsOne v) (ABool (bool_decide (length l = 1%nat))) A W.

Definition implements (o : list_op) (A : gmap var (list item)) (W : gmap ptr D) : Prop :=
  hoare (λ h, rep h A W) (run_op o) (λ r h, ∃ A' W', does A W o r A' W' ∧ rep h A' W')
    (λ h, rep h A W) False.

Lemma returning_rule {X} (P : @heap D → Prop) (c : run X) (f : X → answer) Q Q' F L :
  hoare P c Q F L → (∀ x h, Q x h → Q' (f x) h) → hoare P (returning c f) Q' F L.
Proof. intros Hc HQ. eapply hoare_bind; [exact Hc|]. intros x; cbv beta. apply hoare_ret. auto. Qed.

(** An operation by its rule, with the case of [does]. *)
Ltac implement rule :=
  unfold implements; cbn [run_op]; unfold silent; eapply returning_rule; [rule|];
  cbv beta; intros; eauto 6 using does.

Lemma in_list_split (l : list item) p : p ∈ l.*1 → ∃ l1 d l2, l = l1 ++ (p, d) :: l2.
Proof.
  intros ([q d] & -> & Hx)%list_elem_of_fmap. apply list_elem_of_split in Hx as (l1 & l2 & ->). by exists l1, d, l2.
Qed.

Lemma alloc_implements A W d : implements (AllocLink d) A W.
Proof. implement ltac:(apply alloc_rule). destruct H as (p & -> & Hp & Hr). eauto using does. Qed.

Lemma free_implements A W p : is_Some (W !! p) → implements (FreeLink p) A W.
Proof. intros [d Hd]. implement ltac:(by eapply free_rule). Qed.

Lemma append_implements A W v l d : A !! v = Some l → implements (Append v d) A W.
Proof. intros Hv. implement ltac:(by apply append_rule). destruct H as (p & Hp & Hr). eauto using does. Qed.

Lemma prepend_implements A W v l d : A !! v = Some l → implements (Prepend v d) A W.
Proof. intros Hv. implement ltac:(by apply prepend_rule). destruct H as (p & Hp & Hr). eauto using does. Qed.

Lemma append_link_implements A W v l p d :
  A !! v = Some l → W !! p = Some d → implements (AppendLink v p) A W.
Proof. intros Hv Hp. implement ltac:(by apply append_link_rule). Qed.

Lemma prepend_link_implements A W v l p d :
  A !! v = Some l → W !! p = Some d → implements (PrependLink v p) A W.
Proof. intros Hv Hp. implement ltac:(by apply prepend_link_rule). Qed.

Lemma insert_before_implements A W v o d :
  enabled (InsertBefore v o d) A W → implements (InsertBefore v o d) A W.
Proof.
  intros [[l Hv] Ho]. destruct o as [b|].
  - destruct Ho as (k & Hk & (l1 & c & l2 & ->)%in_list_split).
    implement ltac:(apply (new_placed_rule A W d _ (λ q d, <[v := l1 ++ (q, d) :: (b, c) :: l2]> A));
                    intros; by apply link_before_rule).
    destruct H as (p & Hp & Hr). eauto using does.
  - implement ltac:(by apply append_rule). destruct H as (p & Hp & Hr). eauto using does.
Qed.

Lemma insert_after_implements A W v o d :
  enabled (InsertAfter v o d) A W → implements (InsertAfter v o d) A W.
Proof.
  intros [[l Hv] Ho]. destruct o as [b|].
  - destruct Ho as (k & Hk & (l1 & c & l2 & ->)%in_list_split).
    implement ltac:(apply (new_placed_rule A W d _ (λ q d, <[v := l1 ++ (b, c) :: (q, d) :: l2]> A));
                    intros; by apply link_after_rule).
    destruct H as (p & Hp & Hr). eauto using does.
  - implement ltac:(by apply prepend_rule). destruct H as (p & Hp & Hr). eauto using does.
Qed.

Lemma insert_before_link_implements A W v o p :
  enabled (InsertBeforeLink v o p) A W → implements (InsertBeforeLink v o p) A W.
Proof.
  intros [[[l Hv] Ho] [d Hp]]. destruct o as [b|].
  - destruct Ho as (k & Hk & (l1 & c & l2 & ->)%in_list_split). implement ltac:(by apply link_before_rule).
  - implement ltac:(by apply append_link_rule).
Qed.

Lemma insert_after_link_implements A W v o p :
  enabled (InsertAfterLink v o p) A W → implements (InsertAfterLink v o p) A W.
Proof.
  intros [[[l Hv] Ho] [d Hp]]. destruct o as [b|].
  - destruct Ho as (k & Hk & (l1 & c & l2 & ->)%in_list_split). implement ltac:(by apply link_after_rule).
  - implement ltac:(by apply prepend_link_rule).
Qed.

Lemma unlink_implements A W v p : enabled (Unlink v p) A W → implements (Unlink v p) A W.
Proof. intros (l & Hv & (l1 & d & l2 & ->)%in_list_split). implement ltac:(by apply unlink_ring_rule). Qed.

Lemma remove_link_implements A W v p : enabled (RemoveLink v p) A W → implements (RemoveLink v p) A W.
Proof.
  intros (l & Hv & (l1 & d & l2 & ->)%in_list_split). implement ltac:(by eapply drop_link_rule).
  destruct H. eauto using does.
Qed.

Lemma remove_implements A W v l d : A !! v = Some l → implements (Remove v d) A W.
Proof.
  intros Hv. implement ltac:(eapply hoare_bind; [by apply get_head_rule|]; intros x; cbv beta;
    apply hoare_pure_l; intros ->; eapply turns_rule; [done|]; intros n Hn Hnd;
    by apply (remove_loop_rule A W v d n [] l); [..|apply not_elem_of_nil]).
  destruct x.
  - destruct H as (k1 & p & k2 & E & Hd & Hr). simpl in E. subst l. eauto using does.
  - destruct H as [Hd Hr]. eauto using does.
Qed.

Lemma find_last_rule A W v l d F L :
  A !! v = Some l →
  hoare (λ h, rep h A W) (_dbus_list_find_last v d)
    (λ r h, rep h A W ∧
       match r with
       | Some p => ∃ k1 k2, l = k1 ++ (p, d) :: k2 ∧ d ∉ k2.*2
       | None => d ∉ l.*2
       end) F L.
Proof.
  intros Hv. eapply hoare_bind; [by apply get_last_link_rule|]. intros x; cbv beta.
  apply hoare_pure_l. intros ->. eapply turns_rule; [done|]. intros n Hn Hnd.
  rewrite <- (app_nil_r l) in Hv, Hnd.
  eapply hoare_conseq; [by apply (find_last_loop_rule A W v d n l [] F L); [..|apply not_elem_of_nil]|done| |done|done].
  intros r h Hr. by rewrite app_nil_r in Hr.
Qed.

Lemma find_last_implements A W v l d : A !! v = Some l → implements (FindLast v d) A W.
Proof.
  intros Hv. implement ltac:(by apply find_last_rule). destruct H as [Hr Hx]. destruct x as [p|]; [|eauto using does].
  destruct Hx as (k1 & k2 & -> & Hd). eauto using does.
Qed.

Lemma remove_last_implements A W v l d : A !! v = Some l → implements (RemoveLast v d) A W.
Proof.
  intros Hv. unfold implements. cbn [run_op]. eapply returning_rule with
    (Q := λ r h, ∃ A', does A W (RemoveLast v d) (ABool r) A' W ∧ rep h A' W); [|intros; naive_solver].
  eapply hoare_bind; [by apply find_last_rule|]. intros [p|]; cbv beta.
  - intros h m [Hr (k1 & k2 & -> & Hd)]. revert h m Hr.
    eapply (hoare_bind (λ h, rep h A W)); [by eapply drop_link_rule|]. intros []; cbv beta.
    apply hoare_ret. intros h [_ Hr]. eauto using does.
  - apply hoare_ret. intros h [Hr Hd]. eauto using does.
Qed.

Lemma clear_implements A W v l : A !! v = Some l → implements (Clear v) A W.
Proof. intros Hv. implement ltac:(by eapply clear_rule). Qed.

Lemma copy_rule A W v w l :
  A !! v = Some l → A !! w = Some [] → v ≠ w →
  hoare (λ h, rep h A W) (_dbus_list_copy v w)
    (λ _ h, ∃ k, k.*2 = l.*2 ∧ rep h (<[w := k]> A) W) (λ h, rep h A W) False.
Proof.
  intros Hv Hw Hne. apply hoare_assert; [by apply negb_true_iff, Nat.eqb_neq|].
  eapply (hoare_bind _ _ _ (λ _ h, rep h A W)).
  { apply hoare_modify. intros h Hr. pose proof (rep_rotate h A W w [] [] Hr Hw) as Hr'.
    simpl in Hr'. by rewrite (insert_id A) in Hr'. }
  intros []; cbv beta. eapply hoare_bind; [by apply get_head_rule|]. intros x; cbv beta.
  apply hoare_pure_l. intros ->. apply (turns_rule A W v l); [done|]. intros n Hn Hnd.
  eapply hoare_conseq; [by apply (copy_loop_rule A W v w n [] l [])|done|done| |done].
  intros h Hr. by rewrite insert_id in Hr.
Qed.

Lemma copy_implements A W v w : enabled (Copy v w) A W → implements (Copy v w) A W.
Proof.
  intros ([l Hv] & Hw & Hne). implement ltac:(by apply copy_rule). destruct H as (k & Hk & Hr). eauto using does.
Qed.

(** *** Taking from the ends, and looking *)

Lemma pop_first_implements A W v l : A !! v = Some l → implements (PopFirst v) A W.
Proof.
  intros Hv. unfold implements. cbn [run_op]. eapply returning_rule with
    (Q := λ r h, ∃ A', does A W (PopFirst v) (AData r) A' W ∧ rep h A' W); [|intros; naive_solver].
  eapply hoare_bind; [by apply get_head_rule|]. intros x; cbv beta. apply hoare_pure_l. intros ->.
  destruct l as [|[p d] l]; cbn [first_link]; [apply hoare_ret; eauto using does|].
  eapply hoare_bind; [by apply (deref_rule _ _ v [])|]. intros y; cbv beta. apply hoare_pure_l. intros ->.
  eapply hoare_bind; [by apply (drop_link_rule A W v [] p d l)|]. intros []; cbv beta. apply hoare_ret.
  intros h [_ Hr]. eauto using does.
Qed.

Lemma pop_first_link_implements A W v l : A !! v = Some l → implements (PopFirstLink v) A W.
Proof.
  intros Hv. unfold implements. cbn [run_op]. eapply returning_rule with
    (Q := λ r h, ∃ A' W', does A W (PopFirstLink v) (ALink r) A' W' ∧ rep h A' W'); [|done].
  eapply hoare_bind; [by apply get_head_rule|]. intros x; cbv beta. apply hoare_pure_l. intros ->.
  destruct l as [|[p d] l]; cbn [first_link]; [apply hoare_ret; eauto using does|].
  eapply hoare_bind; [by apply (unlink_ring_rule A W v [] p d l)|]. intros []; cbv beta. apply hoare_ret.
  eauto using does.
Qed.

Lemma pop_last_implements A W v l : A !! v = Some l → implements (PopLast v) A W.
Proof.
  intros Hv. unfold implements. cbn [run_op]. eapply returning_rule with
    (Q := λ r h, ∃ A', does A W (PopLast v) (AData r) A' W ∧ rep h A' W); [|intros; naive_solver].
  eapply hoare_bind; [by apply get_last_link_rule|]. intros x; cbv beta. apply hoare_pure_l. intros ->.
  destruct l as [|[p d] l _] using rev_ind; [apply hoare_ret; eauto using does|]. rewrite last_link_snoc.
  eapply hoare_bind; [by eapply deref_rule|]. intros y; cbv beta. apply hoare_pure_l. intros ->.
  eapply hoare_bind; [by apply (drop_link_rule A W v l p d [])|]. intros []; cbv beta. apply hoare_ret.
  intros h [_ Hr]. rewrite app_nil_r in Hr. eauto using does.
Qed.

Lemma pop_last_link_implements A W v l : A !! v = Some l → implements (PopLastLink v) A W.
Proof.
  intros Hv. unfold implements. cbn [run_op]. eapply returning_rule with
    (Q := λ r h, ∃ A' W', does A W (PopLastLink v) (ALink r) A' W' ∧ rep h A' W'); [|done].
  eapply hoare_bind; [by apply get_last_link_rule|]. intros x; cbv beta. apply hoare_pure_l. intros ->.
  destruct l as [|[p d] l _] using rev_ind; [apply hoare_ret; eauto using does|]. rewrite last_link_snoc.
  eapply hoare_bind; [by apply (unlink_ring_rule A W v l p d [])|]. intros []; cbv beta. apply hoare_ret.
  intros h Hr. rewrite app_nil_r in Hr. eauto using does.
Qed.

Lemma get_length_implements A W v l : A !! v = Some l → implements (GetLength v) A W.
Proof.
  intros Hv. implement ltac:(eapply hoare_bind; [by apply get_head_rule|]; intros x; cbv beta;
    apply hoare_pure_l; intros ->; eapply turns_rule; [done|]; intros n Hn Hnd;
    by apply (length_loop_rule A W v n [] l)).
  destruct H as [-> Hr]. eauto using does.
Qed.

Lemma get_first_implements A W v l : A !! v = Some l → implements (GetFirst v) A W.
Proof.
  intros Hv. unfold implements. cbn [run_op]. eapply returning_rule with
    (Q := λ r h, r = snd <$> head l ∧ rep h A W); [|intros ? ? [-> ?]; eauto using does].
  eapply hoare_bind; [by apply get_head_rule|]. intros x; cbv beta. apply hoare_pure_l. intros ->.
  destruct l as [|[p d] l]; cbn [first_link]; [by apply hoare_ret|].
  eapply hoare_bind; [by apply (deref_rule _ _ v [])|]. intros y; cbv beta. apply hoare_pure_l. intros ->.
  by apply hoare_ret.
Qed.

Lemma get_last_implements A W v l : A !! v = Some l → implements (GetLast v) A W.
Proof.
  intros Hv. unfold implements. cbn [run_op]. eapply returning_rule with
    (Q := λ r h, r = snd <$> list.last l ∧ rep h A W); [|intros ? ? [-> ?]; eauto using does].
  eapply hoare_bind; [by apply get_head_rule|]. intros x; cbv beta. apply hoare_pure_l. intros ->.
  destruct l as [|[p d] l]; cbn [first_link]; [by apply hoare_ret|].
  eapply hoare_bind; [by apply (deref_rule _ _ v [])|]. intros y; cbv beta. apply hoare_pure_l. intros ->.
  cbn [prev]. rewrite app_nil_r. destruct (last_split p ((p, d) :: l)) as (k & e & E); [done|].
  change (last_ptr p ((p, d) :: l)) with (last_ptr p l) in E. rewrite E in Hv. rewrite E, list.last_snoc.
  eapply hoare_bind; [by eapply deref_rule|]. intros y; cbv beta. apply hoare_pure_l. intros ->.
  by apply hoare_ret.
Qed.

Lemma length_is_one_implements A W v l : A !! v = Some l → implements (LengthIsOne v) A W.
Proof.
  intros Hv. unfold implements. cbn [run_op]. eapply returning_rule with
    (Q := λ r h, r = bool_decide (length l = 1%nat) ∧ rep h A W); [|intros ? ? [-> ?]; eauto using does].
  eapply hoare_bind; [by apply get_head_rule|]. intros x; cbv beta. apply hoare_pure_l. intros ->.
  destruct l as [|[p d] l]; cbn [first_link]; [by apply hoare_ret|].
  intros h m Hr. pose proof (rep_nodup _ _ _ Hr _ _ Hv) as Hnd. revert h m Hr.
  eapply (hoare_bind (λ h, rep h A W)); [by apply (deref_rule _ _ v [])|]. intros y; cbv beta. apply hoare_pure_l. intros ->.
  apply hoare_ret. intros h Hr. split; [|done]. apply bool_decide_ext. cbn [next]. rewrite app_nil_r.
  destruct l as [|[q e] l]; simpl; [done|]. rewrite fmap_cons in Hnd. apply list.NoDup_cons in Hnd as [Hn _].
  split; [intros [= ->]; exfalso; apply Hn; by left|done].
Qed.

Lemma op_implements o A W : enabled o A W → implements o A W.
Proof.
  intros He. destruct o;
    first [by apply insert_before_implements|by apply insert_after_implements
          |by apply insert_before_link_implements|by apply insert_after_link_implements
          |by apply unlink_implements|by apply remove_link_implements|by apply copy_implements
          |by apply alloc_implements|by apply free_implements
          |destruct He as [[l Hl] [d Hd]]; by eapply append_link_implements || by eapply prepend_link_implements
          |destruct He as [l Hl];
           first [by eapply append_implements|by eapply prepend_implements|by eapply remove_implements
                 |by eapply remove_last_implements|by eapply find_last_implements|by eapply clear_implements
                 |by eapply pop_first_implements|by eapply pop_first_link_implements
                 |by eapply pop_last_implements|by eapply pop_last_link_implements
                 |by eapply get_length_implements|by eapply get_first_implements
                 |by eapply get_last_implements|by eapply length_is_one_implements]].
Qed.

(** No list has a link yet. *)
Lemma rep_start (S : gmap var (option ptr)) :
  (∀ v p, S !! v = Some p → p = None) → rep (Heap ∅ S) ((λ _, []) <$> S) ∅.
Proof.
  intros HS. assert (∀ v l, ((λ _, []) <$> S : gmap var (list item)) !! v = Some l → l = []) as Hnil.
  { intros v l. rewrite lookup_fmap. destruct (S !! v); [by intros [= <-]|done]. }
  split; simpl.
  - apply map_eq. intros v. rewrite !lookup_fmap. destruct (S !! v) as [p|] eqn:E; [|done].
    by rewrite (HS v p E).
  - by intros v l ->%Hnil.
  - intros v l ->%Hnil. constructor.
  - done.
  - by intros v w l k p ->%Hnil _ ?%elem_of_nil.
  - by intros v l p ->%Hnil ?%elem_of_nil.
  - by intros p [x Hx].
Qed.

End rings.

Arguments list_op : clear implicits.

(** C34: Every operation on linked lists implements its counterpart on lists of data: on
    links that are where the operation wants them, it dereferences no NULL or freed
    link, its loops end, only the list it works on changes, in the way [does]
    describes, and no link is lost; for lack of memory it leaves everything as it
    was. *)
Theorem list_operation_refines {D} `{EqDecision D} (o : list_op D) h A W m :
  rep h A W → enabled o A W →
  match run_op o h m with
  | Ok r h' _ => ∃ A' W', does A W o r A' W' ∧ rep h' A' W'
  | Failed h' _ => rep h' A W ∧ may_fail m
  | Ub => False
  end.
Proof.
  intros Hr He. pose proof (op_implements o A W He h m Hr) as Ho. destruct (run_op o h m) as [r h' m'|h' m'|];
    [by destruct Ho|destruct Ho as [? [?|[]]]; done|done].
Qed.

Lemma list_operation_refines_witness :
  let S := {[ 0%nat := None; 1%nat := None ]} : gmap var (option ptr) in
  match run_op (Append 0%nat 5%nat) (Heap ∅ S) plenty with
  | Ok r h' _ => ∃ A' W', does ((λ _, []) <$> S) ∅ (Append 0%nat 5%nat) r A' W' ∧ rep h' A' W'
  | Failed h' _ => rep h' ((λ _, []) <$> S) ∅ ∧ may_fail plenty
  | Ub => False
  end.
Proof.
  intros S. apply (list_operation_refines (Append 0%nat 5%nat) (Heap ∅ S) ((λ _, []) <$> S) ∅ plenty).
  - apply rep_start. intros v p [[_ <-]|[_ [_ <-]%lookup_singleton_Some]]%lookup_insert_Some; done.
  - by exists [].
Defined.
