(* ===== verification/Matches.v ===== *)
(** * Matches: match rules

    Models src/bus/signals.c and what it uses of src/bus/connection.c: the texts of
    match rules, the rules with their reference counts, the matchmaker that keeps
    them for the connections, and the recipients of a message.  Rules that are being
    parsed are values; they get a place in the heap when the parser returns them. *)

From stdpp Require Import gmap.
From S2P Require Import Prelude Search Names Types Services Policy.

(** ** Rules *)

Definition BUS_MATCH_MESSAGE_TYPE : Z := 1.
Definition BUS_MATCH_INTERFACE : Z := 2.
Definition BUS_MATCH_MEMBER : Z := 4.
Definition BUS_MATCH_SENDER : Z := 8.
Definition BUS_MATCH_DESTINATION : Z := 16.
Definition BUS_MATCH_PATH : Z := 32.
Definition BUS_MATCH_ARGS : Z := 64.

(** An argument is NULL, or its bytes and whether it is a path; [arg_lens] is the
    length of the bytes and the bit for paths. *)
Record BusMatchRule := MatchRule {
  matches_go_to : connection;
  flags : Z;
  rule_message_type : Z;
  rule_interface : option bytes;
  rule_member : option bytes;
  rule_sender : option bytes;
  rule_destination : option bytes;
  rule_path : option bytes;
  rule_args : list (option (bytes * bool))
}.

Inductive match_error := NO_MEMORY | LIMITS_EXCEEDED | MATCH_RULE_INVALID | MATCH_RULE_NOT_FOUND.

(** The parser: its state is the [DBusError]. *)
Abbreviation EM := (M (option match_error)).

(** [dbus_set_error]: memory may be lacking for the message. *)
Definition set_match_error (e : match_error) : EM unit := λ s m,
  match s with
  | Some _ => Ok tt s m
  | None => let '(ok, m') := alloc m in Ok tt (Some (if ok : bool then e else NO_MEMORY)) m'
  end.

Definition invalid {A} : EM A := set_match_error MATCH_RULE_INVALID;; fail.

(** A step that runs out of memory sets the error. *)
Definition or_nomem {A} (c : EM A) : EM A := on_failure c (modify (λ _, Some NO_MEMORY)).

Definition has_flag (rule : BusMatchRule) (f : Z) : bool := negb (Z.land (flags rule) f =? 0).

Definition bus_match_rule_new (c : connection) : EM BusMatchRule :=
  or_nomem request;;
  mret (MatchRule c 0 0 None None None None None []).

Definition bus_match_rule_set_message_type (r : BusMatchRule) (type : Z) : EM BusMatchRule :=
  mret (MatchRule (matches_go_to r) (Z.lor (flags r) BUS_MATCH_MESSAGE_TYPE) type (rule_interface r)
          (rule_member r) (rule_sender r) (rule_destination r) (rule_path r) (rule_args r)).

Definition bus_match_rule_set_interface (r : BusMatchRule) (interface : bytes) : EM BusMatchRule :=
  request;;
  mret (MatchRule (matches_go_to r) (Z.lor (flags r) BUS_MATCH_INTERFACE) (rule_message_type r)
          (Some interface) (rule_member r) (rule_sender r) (rule_destination r) (rule_path r) (rule_args r)).

Definition bus_match_rule_set_member (r : BusMatchRule) (member : bytes) : EM BusMatchRule :=
  request;;
  mret (MatchRule (matches_go_to r) (Z.lor (flags r) BUS_MATCH_MEMBER) (rule_message_type r)
          (rule_interface r) (Some member) (rule_sender r) (rule_destination r) (rule_path r) (rule_args r)).

Definition bus_match_rule_set_sender (r : BusMatchRule) (sender : bytes) : EM BusMatchRule :=
  request;;
  mret (MatchRule (matches_go_to r) (Z.lor (flags r) BUS_MATCH_SENDER) (rule_message_type r)
          (rule_interface r) (rule_member r) (Some sender) (rule_destination r) (rule_path r) (rule_args r)).

Definition bus_match_rule_set_destination (r : BusMatchRule) (destination : bytes) : EM BusMatchRule :=
  request;;
  mret (MatchRule (matches_go_to r) (Z.lor (flags r) BUS_MATCH_DESTINATION) (rule_message_type r)
          (rule_interface r) (rule_member r) (rule_sender r) (Some destination) (rule_path r) (rule_args r)).

Definition bus_match_rule_set_path (r : BusMatchRule) (path : bytes) : EM BusMatchRule :=
  request;;
  mret (MatchRule (matches_go_to r) (Z.lor (flags r) BUS_MATCH_PATH) (rule_message_type r)
          (rule_interface r) (rule_member r) (rule_sender r) (rule_destination r) (Some path) (rule_args r)).

(** The arrays grow to hold the argument; new slots are NULL. *)
Definition bus_match_rule_set_arg (r : BusMatchRule) (arg : nat) (value : bytes) (is_path : bool) :
    EM BusMatchRule :=
  args ← (if (length (rule_args r) <=? arg)%nat then
            requests 2;; mret (rule_args r ++ replicate (arg + 1 - length (rule_args r)) None)
          else mret (rule_args r));
  request;;
  mret (MatchRule (matches_go_to r) (Z.lor (flags r) BUS_MATCH_ARGS) (rule_message_type r)
          (rule_interface r) (rule_member r) (rule_sender r) (rule_destination r) (rule_path r)
          (<[arg := Some (value, is_path)]> args)).

(** ** The text of a rule *)

(** The text a pointer points to: a nul byte ends it. *)
Definition c_str (p : bytes) : bytes := take (run_of (λ c, negb (c =b x00)) p) p.

Definition ISWHITE (c : byte) : bool := (c =b " ") || (c =b x09) || (c =b x0a) || (c =b x0d).

(** The key, and the position behind its equals sign. *)
Definition find_key (str : bytes) (start : nat) : EM (bytes * nat) :=
  let p := c_str (drop start str) in
  let w1 := run_of ISWHITE p in
  let k := run_of (λ c, negb (c =b "=") && negb (ISWHITE c)) (drop w1 p) in
  let w2 := run_of ISWHITE (drop (w1 + k) p) in
  if (k =? 0)%nat then mret ([], start + w1 + w2)%nat
  else if negb (byte_at p (w1 + k + w2) =b "=") then invalid
  else or_nomem request;; mret (sub p w1 k, start + w1 + k + w2 + 1)%nat.

Inductive quote_char := NoQuote | Apostrophe | Backslash.

(** The bytes of the value from [p] on, behind [value], and how many bytes were read. *)
Fixpoint value_loop (p : bytes) (quote : quote_char) (value : bytes) (n : nat) :
    EM (quote_char * bytes * nat) :=
  match p with
  | [] => mret (quote, value, n)
  | c :: p' =>
      match quote with
      | NoQuote =>
          if c =b "'" then value_loop p' Apostrophe value (S n)
          else if c =b "," then mret (NoQuote, value, S n)
          else if c =b "\" then value_loop p' Backslash value (S n)
          else or_nomem request;; value_loop p' NoQuote (value ++ [c]) (S n)
      | Backslash =>
          let escaped := if c =b "'" then [] else [("\" : byte)] in
          or_nomem (requests (S (length escaped)));;
          value_loop p' NoQuote (value ++ escaped ++ [c]) (S n)
      | Apostrophe =>
          if c =b "'" then value_loop p' NoQuote value (S n)
          else or_nomem request;; value_loop p' Apostrophe (value ++ [c]) (S n)
      end
  end.

Definition find_value (str : bytes) (start : nat) : EM (bytes * nat) :=
  '(quote, value, n) ← value_loop (c_str (drop start str)) NoQuote [] 0;
  match quote with
  | Backslash => or_nomem request;; mret (value ++ [("\" : byte)], start + n)%nat
  | Apostrophe => invalid
  | NoQuote => mret (value, start + n)%nat
  end.

Definition MAX_RULE_TOKENS : nat := 16.

(** A token without a key stays NULL. *)
Abbreviation RuleToken := (option (bytes * bytes)).

Fixpoint tokenize_loop (fuel : nat) (rule_text : bytes) (pos : nat) : EM (list RuleToken) :=
  match fuel with
  | O => mret []
  | S fuel' =>
      if (pos <? length rule_text)%nat then
        '(key, pos) ← find_key rule_text pos;
        if (length key =? 0)%nat then
          l ← tokenize_loop fuel' rule_text pos;
          mret (None :: l)
        else
          or_nomem request;;
          '(value, pos) ← find_value rule_text pos;
          or_nomem request;;
          l ← tokenize_loop fuel' rule_text pos;
          mret (Some (key, value) :: l)
      else mret []
  end.

Definition tokenize_rule (rule_text : bytes) : EM (list RuleToken) :=
  or_nomem (requests 2);;
  tokenize_loop MAX_RULE_TOKENS rule_text 0.

(** *** Numbers *)

Definition digit_val (base : Z) (c : byte) : option Z :=
  let v := if is_digit c then b2z c - 48
           else if in_range "a" "z" c then b2z c - 87
           else if in_range "A" "Z" c then b2z c - 55
           else 99 in
  if v <? base then Some v else None.

(** The value of the leading digits and their number. *)
Fixpoint digits_in (base acc : Z) (s : bytes) : Z * nat :=
  match s with
  | c :: s' =>
      match digit_val base c with
      | Some v => let '(r, n) := digits_in base (base * acc + v) s' in (r, S n)
      | None => (acc, 0%nat)
      end
  | [] => (acc, 0%nat)
  end.

(** Bytes in front of the digits: 0x makes the number hexadecimal if a digit follows, 0
    octal. *)
Definition number_base (s : bytes) : Z * nat :=
  match s with
  | z :: x :: d :: _ =>
      if (z =b "0") && ((x =b "x") || (x =b "X")) && bool_decide (is_Some (digit_val 16 d))
      then (16, 2%nat)
      else if z =b "0" then (8, 0%nat) else (10, 0%nat)
  | z :: _ => if z =b "0" then (8, 0%nat) else (10, 0%nat)
  | [] => (10, 0%nat)
  end.

Definition ULONG_MAX : Z := 2 ^ 64 - 1.

(** [strtoul (s, &end, 0)]: value and bytes read, [None] without digits or out of
    range. *)
Definition strtoul (s : bytes) : option (Z * nat) :=
  let w := run_of is_space s in
  let s1 := drop w s in
  let sign := match s1 with c :: _ => if (c =b "-") || (c =b "+") then 1%nat else 0%nat | [] => 0%nat end in
  let '(base, skip) := number_base (drop sign s1) in
  let '(v, n) := digits_in base 0 (drop (sign + skip) s1) in
  if (n =? 0)%nat || (ULONG_MAX <? v) then None
  else Some (if is_prefix (lit "-") s1 then (- v) mod (ULONG_MAX + 1) else v, (w + sign + skip + n)%nat).

Definition _dbus_string_parse_uint (str : bytes) (start : nat) : option (Z * nat) :=
  match strtoul (drop start str) with
  | Some (v, n) => Some (v, (start + n)%nat)
  | None => None
  end.

Definition _dbus_string_ends_with_c_str (a c_str : bytes) : bool :=
  is_prefix (rev c_str) (rev a).

(** *** From tokens to a rule *)

Definition DBUS_MAXIMUM_MATCH_RULE_LENGTH : nat := 1024.
Definition DBUS_MAXIMUM_MATCH_RULE_ARG_NUMBER : Z := 63.

Definition dbus_message_type_from_string (type_str : bytes) : Z :=
  if bool_decide (type_str = lit "method_call") then DBUS_MESSAGE_TYPE_METHOD_CALL
  else if bool_decide (type_str = lit "method_return") then DBUS_MESSAGE_TYPE_METHOD_RETURN
  else if bool_decide (type_str = lit "signal") then DBUS_MESSAGE_TYPE_SIGNAL
  else if bool_decide (type_str = lit "error") then DBUS_MESSAGE_TYPE_ERROR
  else DBUS_MESSAGE_TYPE_INVALID.

Definition bus_match_rule_parse_arg_match (r : BusMatchRule) (key value : bytes) : EM BusMatchRule :=
  if (length key <? 4)%nat then invalid
  else
    match _dbus_string_parse_uint key 3 with
    | None => invalid
    | Some (arg, end_) =>
        if negb (end_ =? length key)%nat
           && (negb (end_ + 4 =? length key)%nat || negb (_dbus_string_ends_with_c_str key (lit "path")))
        then invalid
        else
          let is_path := negb (end_ =? length key)%nat in
          if DBUS_MAXIMUM_MATCH_RULE_ARG_NUMBER <? arg then invalid
          else if has_flag r BUS_MATCH_ARGS
                  && match rule_args r !! Z.to_nat arg with Some (Some _) => true | _ => false end
          then invalid
          else or_nomem (bus_match_rule_set_arg r (Z.to_nat arg) value is_path)
    end.

(** A key that must not come twice, with its test and its setter. *)
Definition parse_name (r : BusMatchRule) (flag : Z) (ok : bool) (set : EM BusMatchRule) : EM BusMatchRule :=
  if has_flag r flag then invalid
  else if negb ok then invalid
  else or_nomem set.

Definition parse_token (r : BusMatchRule) (key value : bytes) : EM BusMatchRule :=
  let len := length value in
  if bool_decide (key = lit "type") then
    if has_flag r BUS_MATCH_MESSAGE_TYPE then invalid
    else
      let t := dbus_message_type_from_string value in
      if t =? DBUS_MESSAGE_TYPE_INVALID then invalid
      else or_nomem (bus_match_rule_set_message_type r t)
  else if bool_decide (key = lit "sender") then
    parse_name r BUS_MATCH_SENDER (_dbus_validate_bus_name value 0 len) (bus_match_rule_set_sender r value)
  else if bool_decide (key = lit "interface") then
    parse_name r BUS_MATCH_INTERFACE (_dbus_validate_interface value 0 len)
      (bus_match_rule_set_interface r value)
  else if bool_decide (key = lit "member") then
    parse_name r BUS_MATCH_MEMBER (_dbus_validate_member value 0 len) (bus_match_rule_set_member r value)
  else if bool_decide (key = lit "path") then
    parse_name r BUS_MATCH_PATH (_dbus_validate_path value 0 len) (bus_match_rule_set_path r value)
  else if bool_decide (key = lit "destination") then
    parse_name r BUS_MATCH_DESTINATION (_dbus_validate_bus_name value 0 len)
      (bus_match_rule_set_destination r value)
  else if is_prefix (lit "arg") key then bus_match_rule_parse_arg_match r key value
  else invalid.

(** Up to the first token that is NULL. *)
Fixpoint parse_tokens (r : BusMatchRule) (tokens : list RuleToken) : EM BusMatchRule :=
  match tokens with
  | Some (key, value) :: l =>
      r ← parse_token r key value;
      parse_tokens r l
  | None :: _ | [] => mret r
  end.

Definition bus_match_rule_parse (c : connection) (rule_text : bytes) : EM BusMatchRule :=
  e ← gets id;
  assert_ (bool_decide (e = None));;
  if (DBUS_MAXIMUM_MATCH_RULE_LENGTH <? length rule_text)%nat then
    set_match_error LIMITS_EXCEEDED;; fail
  else
    r ← bus_match_rule_new c;
    tokens ← tokenize_rule rule_text;
    parse_tokens r tokens.

(** ** The matchmaker *)

Abbreviation rule_ptr := nat.

Record match_data := MatchData {
  match_rules : list rule_ptr;
  n_match_rules : Z;
  stamp : Z
}.

(** The rules with their reference counts, what the connections keep of them, and the
    stamp of all connections, an [int]. *)
Record matchmaker := Matchmaker {
  rules : gmap rule_ptr (nat * BusMatchRule);
  all_rules : list rule_ptr;
  conns : gmap connection match_data;
  current_stamp : Z
}.

Abbreviation KM := (M matchmaker).

Definition get_rule (r : rule_ptr) : KM (nat * BusMatchRule) :=
  k ← gets id;
  checked (rules k !! r).

Definition get_conn (c : connection) : KM match_data :=
  k ← gets id;
  checked (conns k !! c).

Definition with_rules f k := Matchmaker (f (rules k)) (all_rules k) (conns k) (current_stamp k).
Definition with_all_rules f k := Matchmaker (rules k) (f (all_rules k)) (conns k) (current_stamp k).
Definition with_conns f k := Matchmaker (rules k) (all_rules k) (f (conns k)) (current_stamp k).
Definition with_stamp f k := Matchmaker (rules k) (all_rules k) (conns k) (f (current_stamp k)).

Definition bus_match_rule_ref (r : rule_ptr) : KM unit :=
  '(n, x) ← get_rule r;
  assert_ (0 <? n)%nat;;
  modify (with_rules (insert r (S n, x))).

Definition bus_match_rule_unref (r : rule_ptr) : KM unit :=
  '(n, x) ← get_rule r;
  assert_ (0 <? n)%nat;;
  if (n =? 1)%nat then modify (with_rules (delete r))
  else modify (with_rules (insert r (pred n, x))).

(** The rule that the parser returned gets its place. *)
Definition alloc_rule (x : BusMatchRule) : KM rule_ptr :=
  k ← gets id;
  let r := fresh (dom (rules k)) in
  modify (with_rules (insert r (1%nat, x)));;
  mret r.

Definition bus_connection_add_match_rule_link (c : connection) (r : rule_ptr) : KM unit :=
  d ← get_conn c;
  modify (with_conns (insert c (MatchData (match_rules d ++ [r]) (n_match_rules d + 1) (stamp d)))).

Definition bus_connection_add_match_rule (c : connection) (r : rule_ptr) : KM unit :=
  request;;
  bus_connection_add_match_rule_link c r.

Definition bus_connection_remove_match_rule (c : connection) (r : rule_ptr) : KM unit :=
  d ← get_conn c;
  modify (with_conns (insert c
    (MatchData (remove_last r (match_rules d)) (n_match_rules d - 1) (stamp d))));;
  assert_ (0 <=? n_match_rules d - 1).

Definition bus_connection_get_n_match_rules (c : connection) : KM Z :=
  d ← get_conn c; mret (n_match_rules d).

(** Beyond INT_MAX the increment is undefined. *)
Definition bus_connections_increment_stamp : KM unit :=
  k ← gets id;
  s ← checked (int_succ (current_stamp k));
  modify (with_stamp (λ _, s)).

Definition bus_connection_mark_stamp (c : connection) : KM bool :=
  k ← gets id;
  d ← get_conn c;
  if stamp d =? current_stamp k then mret false
  else
    modify (with_conns (insert c (MatchData (match_rules d) (n_match_rules d) (current_stamp k))));;
    mret true.

Definition bus_matchmaker_add_rule (r : rule_ptr) : KM unit :=
  '(_, x) ← get_rule r;
  request;;
  modify (with_all_rules (λ l, l ++ [r]));;
  on_failure (bus_connection_add_match_rule (matches_go_to x) r)
    (modify (with_all_rules (remove_last r)));;
  bus_match_rule_ref r.

(** *** Equality *)

Definition flag_equal {A} `{EqDecision A} (a : BusMatchRule) (f : Z) (x y : A) : bool :=
  negb (has_flag a f) || bool_decide (x = y).

Fixpoint args_equal (a b : list (option (bytes * bool))) : bool :=
  match a, b with
  | x :: a', y :: b' => bool_decide (x = y) && args_equal a' b'
  | [], _ | _, [] => true
  end.

Definition match_rule_equal (a b : BusMatchRule) : bool :=
  (flags a =? flags b)
  && (matches_go_to a =? matches_go_to b)%nat
  && flag_equal a BUS_MATCH_MESSAGE_TYPE (rule_message_type a) (rule_message_type b)
  && flag_equal a BUS_MATCH_MEMBER (rule_member a) (rule_member b)
  && flag_equal a BUS_MATCH_PATH (rule_path a) (rule_path b)
  && flag_equal a BUS_MATCH_INTERFACE (rule_interface a) (rule_interface b)
  && flag_equal a BUS_MATCH_SENDER (rule_sender a) (rule_sender b)
  && flag_equal a BUS_MATCH_DESTINATION (rule_destination a) (rule_destination b)
  && (negb (has_flag a BUS_MATCH_ARGS)
      || (length (rule_args a) =? length (rule_args b))%nat && args_equal (rule_args a) (rule_args b)).

(** *** Removing *)

Definition bus_matchmaker_remove_rule_link (r : rule_ptr) : KM unit :=
  '(_, x) ← get_rule r;
  bus_connection_remove_match_rule (matches_go_to x) r;;
  modify (with_all_rules (remove_first r));;
  bus_match_rule_unref r.

Definition bus_matchmaker_remove_rule (r : rule_ptr) : KM unit :=
  '(_, x) ← get_rule r;
  bus_connection_remove_match_rule (matches_go_to x) r;;
  modify (with_all_rules (remove_first r));;
  bus_match_rule_unref r.

(** From the last rule to the first; the list is the rest, reversed. *)
Fixpoint remove_value_loop (l : list rule_ptr) (value : BusMatchRule) : KM bool :=
  match l with
  | [] => mret false
  | r :: l' =>
      '(_, x) ← get_rule r;
      if match_rule_equal x value then bus_matchmaker_remove_rule_link r;; mret true
      else remove_value_loop l' value
  end.

(** FALSE: the rule was not found. *)
Definition bus_matchmaker_remove_rule_by_value (value : BusMatchRule) : KM bool :=
  k ← gets id;
  remove_value_loop (reverse (all_rules k)) value.

Definition refers_to (x : BusMatchRule) (name : bytes) : bool :=
  let base s := match s with Some (c :: _) => c =b ":" | _ => false end in
  let s := has_flag x BUS_MATCH_SENDER in
  let d := has_flag x BUS_MATCH_DESTINATION in
  ((s && base (rule_sender x)) || (d && base (rule_destination x)))
  && ((s && bool_decide (rule_sender x = Some name)) || (d && bool_decide (rule_destination x = Some name))).

(** The next link is read before the rule is removed. *)
Fixpoint disconnected_loop (l : list rule_ptr) (c : connection) (name : bytes) : KM unit :=
  match l with
  | [] => mret tt
  | r :: l' =>
      '(_, x) ← get_rule r;
      (if (matches_go_to x =? c)%nat || refers_to x name then bus_matchmaker_remove_rule_link r
       else mret tt);;
      disconnected_loop l' c name
  end.

(** [name] is the unique name of the connection. *)
Definition bus_matchmaker_disconnected (c : connection) (name : bytes) : KM unit :=
  k ← gets id;
  disconnected_loop (all_rules k) c name.

(** ** Matching *)

(** The arguments of a message as its iterator gives them. *)
Inductive message_arg := StringArg (s : bytes) | OtherArg.

(** Who owns a name: the primary owner, by [bus_registry_lookup]. *)
Class NameOwners := { primary_owner : bytes → option connection }.

Section matching.
Context `{NameOwners}.

Definition connection_is_primary_owner (c : connection) (service_name : bytes) : bool :=
  bool_decide (primary_owner service_name = Some c).

(** The byte in front of an empty argument is the end of its length, zero; in front of
    an empty pattern there is no memory. *)
Definition path_arg_matches (actual expected : bytes) : option bool :=
  let la := length actual in
  let le := length expected in
  if (la <? le)%nat && negb (byte_at (x00 :: actual) la =b "/") then Some false
  else if (le <? la)%nat && (le =? 0)%nat then None
  else if (le <? la)%nat && negb (byte_at expected (le - 1) =b "/") then Some false
  else Some (bool_decide (take (min la le) actual = take (min la le) expected)).

Fixpoint args_match (expected : list (option (bytes * bool))) (args : list message_arg) : option bool :=
  match expected with
  | [] => Some true
  | None :: l => args_match l (tail args)
  | Some (e, is_path) :: l =>
      match args with
      | StringArg a :: args' =>
          ok ← (if is_path : bool then path_arg_matches a e else Some (bool_decide (e = a)));
          if (ok : bool) then args_match l args' else Some false
      | _ => Some false
      end
  end.

(** A condition of the rule: not asked for, or as the message has it. *)
Definition flag_matches (r : BusMatchRule) (f : Z) (x y : option bytes) : option bool :=
  if has_flag r f then
    match x with
    | None => None
    | Some x => Some (bool_decide (y = Some x))
    end
  else Some true.

(** The peer of the rule, the bus driver if there is no connection. *)
Definition peer_matches (name : option bytes) (c : option connection) : option bool :=
  match name with
  | None => None
  | Some name =>
      Some match c with
           | None => bool_decide (name = DBUS_SERVICE_DBUS)
           | Some c => connection_is_primary_owner c name
           end
  end.

(** [&&] with the assertions of what follows. *)
Definition and_then (x : option bool) (y : option bool) : option bool :=
  match x with Some true => y | _ => x end.

Definition match_rule_matches (r : BusMatchRule) (sender addressed_recipient : option connection)
    (msg : DBusMessage) (args : list message_arg) : option bool :=
  and_then
    (if has_flag r BUS_MATCH_MESSAGE_TYPE then
       if rule_message_type r =? DBUS_MESSAGE_TYPE_INVALID then None
       else Some (rule_message_type r =? message_type msg)
     else Some true)
  (and_then (flag_matches r BUS_MATCH_INTERFACE (rule_interface r) (message_interface msg))
  (and_then (flag_matches r BUS_MATCH_MEMBER (rule_member r) (message_member msg))
  (and_then (if has_flag r BUS_MATCH_SENDER then peer_matches (rule_sender r) sender else Some true)
  (and_then
    (if has_flag r BUS_MATCH_DESTINATION then
       match rule_destination r with
       | None => None
       | Some _ =>
           if decide (message_destination msg = None) then Some false
           else peer_matches (rule_destination r) addressed_recipient
       end
     else Some true)
  (and_then (flag_matches r BUS_MATCH_PATH (rule_path r) (message_path msg))
     (if has_flag r BUS_MATCH_ARGS then args_match (rule_args r) args else Some true)))))).

(** The recipients in the order of the rules, each once; the list is empty when memory
    ran out. *)
Fixpoint recipients_loop (l : list rule_ptr) (sender addressed_recipient : option connection)
    (msg : DBusMessage) (args : list message_arg) (recipients : list connection) : KM (list connection) :=
  match l with
  | [] => mret recipients
  | r :: l' =>
      '(_, x) ← get_rule r;
      matched ← checked (match_rule_matches x sender addressed_recipient msg args);
      if (matched : bool) then
        new ← bus_connection_mark_stamp (matches_go_to x);
        if (new : bool) then
          request;;
          recipients_loop l' sender addressed_recipient msg args (recipients ++ [matches_go_to x])
        else recipients_loop l' sender addressed_recipient msg args recipients
      else recipients_loop l' sender addressed_recipient msg args recipients
  end.

Definition bus_matchmaker_get_recipients (sender addressed_recipient : option connection)
    (msg : DBusMessage) (args : list message_arg) : KM (list connection) :=
  bus_connections_increment_stamp;;
  (match addressed_recipient with
   | Some c => bus_connection_mark_stamp c;; mret tt
   | None => mret tt
   end);;
  k ← gets id;
  recipients_loop (all_rules k) sender addressed_recipient msg args [].

End matching.

(** ** Requests of clients, as src/bus/driver.c handles them *)

(** The parser on behalf of a connection: an error, or a rule in the heap. *)
Definition parse_request (c : connection) (text : bytes) : KM (match_error + rule_ptr) := λ k m,
  match bus_match_rule_parse c text None m with
  | Ok x _ m' =>
      match alloc_rule x k m' with
      | Ok r k' m'' => Ok (inr r) k' m''
      | Failed k' m'' => Failed k' m''
      | Ub => Ub
      end
  | Failed (Some e) m' => Ok (inl e) k m'
  | Failed None _ | Ub => Ub
  end.

(** The error a handler returns, if any; the reply to the client is a [request]. *)
Definition bus_driver_handle_add_match (max_match_rules : Z) (c : connection) (text : bytes) :
    KM (option match_error) :=
  n ← bus_connection_get_n_match_rules c;
  if max_match_rules <=? n then
    ok ← attempt request;
    mret (Some (if ok : bool then LIMITS_EXCEEDED else NO_MEMORY))
  else
    p ← parse_request c text;
    match p with
    | inl e => mret (Some e)
    | inr r =>
        ok ← attempt (bus_matchmaker_add_rule r);
        if negb ok then bus_match_rule_unref r;; mret (Some NO_MEMORY)
        else
          ok ← attempt request;
          if negb ok then bus_matchmaker_remove_rule r;; bus_match_rule_unref r;; mret (Some NO_MEMORY)
          else bus_match_rule_unref r;; mret None
    end.

Definition bus_driver_handle_remove_match (c : connection) (text : bytes) : KM (option match_error) :=
  p ← parse_request c text;
  match p with
  | inl e => mret (Some e)
  | inr r =>
      ok ← attempt request;
      if negb ok then bus_match_rule_unref r;; mret (Some NO_MEMORY)
      else
        '(_, x) ← get_rule r;
        found ← bus_matchmaker_remove_rule_by_value x;
        bus_match_rule_unref r;;
        if (found : bool) then mret None
        else
          ok ← attempt request;
          mret (Some (if ok : bool then MATCH_RULE_NOT_FOUND else NO_MEMORY))
  end.
