(* ===== verification/Delivery.v ===== *)
(** * Delivery: what match rules guarantee

    Theorems on [Matches]: the parser reads back what the format of rules writes and
    returns well-formed rules; the matchmaker implements a list of rules per
    connection without losing references; the recipients of a message are exactly the
    connections with a rule that matches. *)

From stdpp Require Import gmap.
From S2P Require Import Prelude Search Names Types Services Policy Matches.

(** ** Well-formed rules *)

(** A flag is set exactly when the field has a value. *)
Record wf_rule (x : BusMatchRule) : Prop := {
  wf_type : has_flag x BUS_MATCH_MESSAGE_TYPE = negb (rule_message_type x =? DBUS_MESSAGE_TYPE_INVALID);
  wf_interface : has_flag x BUS_MATCH_INTERFACE = bool_decide (is_Some (rule_interface x));
  wf_member : has_flag x BUS_MATCH_MEMBER = bool_decide (is_Some (rule_member x));
  wf_sender : has_flag x BUS_MATCH_SENDER = bool_decide (is_Some (rule_sender x));
  wf_destination : has_flag x BUS_MATCH_DESTINATION = bool_decide (is_Some (rule_destination x));
  wf_path : has_flag x BUS_MATCH_PATH = bool_decide (is_Some (rule_path x));
  wf_args : has_flag x BUS_MATCH_ARGS = negb (bool_decide (rule_args x = []))
}.

(** What the parser guarantees besides: valid names, and a bounded number of
    arguments, the last of which is asked for. *)
Definition valid_if {A} (p : A → bool) (o : option A) : Prop :=
  match o with Some x => p x = true | None => True end.

Record valid_rule (x : BusMatchRule) : Prop := {
  valid_wf : wf_rule x;
  valid_interface : valid_if (λ s, _dbus_validate_interface s 0 (length s)) (rule_interface x);
  valid_member : valid_if (λ s, _dbus_validate_member s 0 (length s)) (rule_member x);
  valid_sender : valid_if (λ s, _dbus_validate_bus_name s 0 (length s)) (rule_sender x);
  valid_destination : valid_if (λ s, _dbus_validate_bus_name s 0 (length s)) (rule_destination x);
  valid_path : valid_if (λ s, _dbus_validate_path s 0 (length s)) (rule_path x);
  valid_args : (length (rule_args x) <= 64)%nat
}.

Lemma lor_flag fl f g :
  negb (Z.land (Z.lor fl f) g =? 0) = negb (Z.land fl g =? 0) || negb (Z.land f g =? 0).
Proof.
  rewrite Z.land_lor_distr_l. apply eq_true_iff_eq.
  rewrite orb_true_iff, !negb_true_iff, !Z.eqb_neq, Z.lor_eq_0_iff. lia.
Qed.

(** The rule after a flag was set and its field changed. *)
Ltac wf_set H :=
  destruct H; split; cbn in *; unfold has_flag in *; cbn [flags] in *; rewrite lor_flag;
  match goal with |- _ || ?b = _ => let v := eval vm_compute in b in change b with v end;
  rewrite ?orb_true_r, ?orb_false_r; try done.

Lemma wf_new c : valid_rule (MatchRule c 0 0 None None None None None []).
Proof. split; [split|..]; done || (cbn; lia). Qed.

Abbreviation no_error := (λ e : option match_error, e = None).
Abbreviation some_error := (λ e : option match_error, is_Some e).

(** A rule for [c], with no error set. *)
Definition good (c : connection) (x : BusMatchRule) (e : option match_error) : Prop :=
  e = None ∧ valid_rule x ∧ matches_go_to x = c.

Lemma or_nomem_triple {A} U (c : EM A) Q F :
  triple U no_error c Q F → triple U no_error (or_nomem c) Q some_error.
Proof.
  intros Hc. eapply triple_on_failure; [exact Hc|]. by apply triple_modify.
Qed.

Lemma invalid_triple {A} U (Q : A → option match_error → Prop) : triple U no_error invalid Q some_error.
Proof. intros ? m ->. unfold invalid, mbind, M_bind, set_match_error. destruct (alloc m). cbn. eauto. Qed.

Lemma request_none U : triple U no_error request (λ _, no_error) no_error.
Proof. apply triple_request. Qed.

Lemma set_type_triple x c t :
  valid_rule x → matches_go_to x = c → t ≠ DBUS_MESSAGE_TYPE_INVALID →
  triple False no_error (bus_match_rule_set_message_type x t) (good c) no_error.
Proof.
  intros [Hwf ? ? ? ? ? ?] Hc Ht. apply triple_ret. intros e ->. split; [done|]. split; [|done]. split; try done.
  wf_set Hwf. symmetry. apply negb_true_iff, Z.eqb_neq. done.
Qed.

(** A setter that copies a value: the new rule is valid. *)
Lemma copied_triple x c :
  valid_rule x → matches_go_to x = c → triple False no_error (request;; mret x) (good c) no_error.
Proof.
  intros Hx Hc. eapply triple_bind; [apply request_none|]. intros []; cbv beta. by apply triple_ret.
Qed.

Ltac setter :=
  intros [Hwf ? ? ? ? ? ?] ? ?; apply copied_triple; [|done]; split; try done; wf_set Hwf.

Lemma set_interface_triple x c s :
  valid_rule x → matches_go_to x = c → _dbus_validate_interface s 0 (length s) = true →
  triple False no_error (bus_match_rule_set_interface x s) (good c) no_error.
Proof. setter. Qed.

Lemma set_member_triple x c s :
  valid_rule x → matches_go_to x = c → _dbus_validate_member s 0 (length s) = true →
  triple False no_error (bus_match_rule_set_member x s) (good c) no_error.
Proof. setter. Qed.

Lemma set_sender_triple x c s :
  valid_rule x → matches_go_to x = c → _dbus_validate_bus_name s 0 (length s) = true →
  triple False no_error (bus_match_rule_set_sender x s) (good c) no_error.
Proof. setter. Qed.

Lemma set_destination_triple x c s :
  valid_rule x → matches_go_to x = c → _dbus_validate_bus_name s 0 (length s) = true →
  triple False no_error (bus_match_rule_set_destination x s) (good c) no_error.
Proof. setter. Qed.

Lemma set_path_triple x c s :
  valid_rule x → matches_go_to x = c → _dbus_validate_path s 0 (length s) = true →
  triple False no_error (bus_match_rule_set_path x s) (good c) no_error.
Proof. setter. Qed.

(** The arguments with room for number [arg]. *)
Definition grown (l : list (option (bytes * bool))) (arg : nat) : list (option (bytes * bool)) :=
  if (length l <=? arg)%nat then l ++ replicate (arg + 1 - length l) None else l.

Lemma grown_length l arg : (arg < length (grown l arg))%nat ∧ (length (grown l arg) <= max (length l) (arg + 1))%nat.
Proof.
  unfold grown. destruct (length l <=? arg)%nat eqn:E; rewrite ?length_app, ?length_replicate; lia.
Qed.

Lemma set_arg_triple x c arg s is_path :
  valid_rule x → matches_go_to x = c → (arg <= 63)%nat →
  triple False no_error (bus_match_rule_set_arg x arg s is_path) (good c) no_error.
Proof.
  intros [Hwf ? ? ? ? ? Hlen] Hc Harg. unfold bus_match_rule_set_arg.
  eapply triple_bind with (Q := λ l e, e = None ∧ l = grown (rule_args x) arg).
  { unfold grown. destruct (length (rule_args x) <=? arg)%nat.
    - eapply triple_bind; [apply triple_requests|]. intros []; cbv beta. by apply triple_ret.
    - by apply triple_ret. }
  intros l; cbv beta. intros e m [-> ->]. destruct (grown_length (rule_args x) arg) as [Hl Hl'].
  apply copied_triple; [|done|done]. split; try done.
  - wf_set Hwf. symmetry. apply negb_true_iff, bool_decide_eq_false. intros E%(f_equal length).
    rewrite length_insert in E. simpl in E. lia.
  - cbn. rewrite length_insert. lia.
Qed.

(** *** Texts *)

Lemma find_key_triple str pos :
  triple False no_error (find_key str pos) (λ _, no_error) some_error.
Proof.
  unfold find_key. cbv zeta. case_if; [by apply triple_ret|]. case_if; [apply invalid_triple|].
  eapply triple_bind; [eapply or_nomem_triple, request_none|]. intros []; cbv beta. by apply triple_ret.
Qed.

Lemma value_loop_triple p quote value n :
  triple False no_error (value_loop p quote value n) (λ _, no_error) some_error.
Proof.
  revert quote value n. induction p as [|c p IH]; intros quote value n; [by apply triple_ret|].
  destruct quote; cbn [value_loop]; repeat case_if; try apply IH; try (by apply triple_ret);
    (eapply triple_bind; [eapply or_nomem_triple; first [apply request_none|apply triple_requests]|intros []; apply IH]).
Qed.

Lemma find_value_triple str pos :
  triple False no_error (find_value str pos) (λ _, no_error) some_error.
Proof.
  eapply triple_bind; [apply value_loop_triple|]. intros [[[] value] n]; cbv beta iota.
  - by apply triple_ret.
  - apply invalid_triple.
  - eapply triple_bind; [eapply or_nomem_triple, request_none|]. intros []; cbv beta. by apply triple_ret.
Qed.

Lemma tokenize_loop_triple fuel text pos :
  triple False no_error (tokenize_loop fuel text pos) (λ _, no_error) some_error.
Proof.
  revert pos. induction fuel as [|fuel IH]; intros pos; cbn [tokenize_loop]; [by apply triple_ret|].
  case_if; [|by apply triple_ret].
  eapply triple_bind; [apply find_key_triple|]. intros [key pos1]; cbv beta iota. case_if.
  - eapply triple_bind; [apply IH|]. intros l; cbv beta. by apply triple_ret.
  - eapply triple_bind; [eapply or_nomem_triple, request_none|]. intros []; cbv beta.
    eapply triple_bind; [apply find_value_triple|]. intros [value pos2]; cbv beta iota.
    eapply triple_bind; [eapply or_nomem_triple, request_none|]. intros []; cbv beta.
    eapply triple_bind; [apply IH|]. intros l; cbv beta. by apply triple_ret.
Qed.

Lemma parse_name_triple x c flag ok set :
  (ok = true → triple False no_error set (good c) no_error) →
  triple False no_error (parse_name x flag ok set) (good c) some_error.
Proof.
  intros Hs. unfold parse_name. case_if; [apply invalid_triple|]. destruct ok; [|apply invalid_triple].
  eapply or_nomem_triple. by apply Hs.
Qed.

Lemma parse_arg_triple x c key value :
  valid_rule x → matches_go_to x = c →
  triple False no_error (bus_match_rule_parse_arg_match x key value) (good c) some_error.
Proof.
  intros Hx Hc. unfold bus_match_rule_parse_arg_match. case_if; [apply invalid_triple|].
  destruct (_dbus_string_parse_uint key 3) as [[arg end_]|]; [|apply invalid_triple]. cbv zeta.
  case_if; [apply invalid_triple|]. destruct (_ <? arg) eqn:Ea; [apply invalid_triple|].
  case_if; [apply invalid_triple|]. eapply or_nomem_triple, set_arg_triple; [done..|].
  unfold DBUS_MAXIMUM_MATCH_RULE_ARG_NUMBER in Ea. lia.
Qed.

Lemma parse_token_triple x c key value :
  valid_rule x → matches_go_to x = c →
  triple False no_error (parse_token x key value) (good c) some_error.
Proof.
  intros Hx Hc. unfold parse_token. cbv zeta.
  destruct (bool_decide (key = lit "type")).
  { case_if; [apply invalid_triple|]. destruct (_ =? DBUS_MESSAGE_TYPE_INVALID) eqn:E; [apply invalid_triple|].
    eapply or_nomem_triple, set_type_triple; [done..|]. by apply Z.eqb_neq. }
  repeat (case_if; [apply parse_name_triple; intros Hok;
    first [by apply set_sender_triple|by apply set_interface_triple|by apply set_member_triple
          |by apply set_path_triple|by apply set_destination_triple]|]).
  case_if; [by apply parse_arg_triple|apply invalid_triple].
Qed.

Lemma parse_tokens_triple c l x :
  valid_rule x → matches_go_to x = c →
  triple False no_error (parse_tokens x l) (good c) some_error.
Proof.
  revert x. induction l as [|[[key value]|] l IH]; intros x Hx Hc; cbn [parse_tokens]; [by apply triple_ret| |by apply triple_ret].
  eapply triple_bind; [by apply parse_token_triple|]. intros y; cbv beta. intros e m (-> & Hy & Hyc).
  by apply (IH y Hy Hyc None m).
Qed.

Lemma parse_triple c text :
  triple False no_error (bus_match_rule_parse c text) (good c) some_error.
Proof.
  unfold bus_match_rule_parse. apply triple_gets. intros ? ->.
  rewrite bool_decide_true by done. apply (triple_checked False _ (Some tt)); [done|]. intros [] _.
  case_if.
  { intros ? m ->. unfold mbind, M_bind, set_match_error. destruct (alloc m). cbn. eauto. }
  eapply triple_bind with (Q := λ x e, good c x e).
  { eapply triple_bind; [eapply or_nomem_triple, request_none|]. intros []; cbv beta. apply triple_ret.
    intros e ->. split; [done|]. split; [apply wf_new|done]. }
  intros x; cbv beta. intros e m (-> & Hx & Hc). revert m. intros m.
  assert (triple False no_error (tokenize_rule text ≫= parse_tokens x) (good c) some_error) as Ht; [|by apply (Ht None m)].
  eapply triple_bind; [|intros l; by apply parse_tokens_triple].
  eapply triple_bind; [eapply or_nomem_triple, triple_requests|]. intros []; cbv beta. apply tokenize_loop_triple.
Qed.

(** ** The matchmaker *)

Abbreviation ruled := (rule_ptr * BusMatchRule)%type.

(** One more reference to a rule. *)
Definition one_more (x : BusMatchRule) (o : option (nat * BusMatchRule)) : option (nat * BusMatchRule) :=
  Some match o with Some (n, y) => (S n, y) | None => (1%nat, x) end.

(** The heap of the rules that are referred to by [R]. *)
Fixpoint counts (R : list ruled) : gmap rule_ptr (nat * BusMatchRule) :=
  match R with
  | [] => ∅
  | (r, x) :: R' => partial_alter (one_more x) r (counts R')
  end.

(** References to the same place are to the same rule. *)
Definition coherent (R : list ruled) : Prop := ∀ r x y, (r, x) ∈ R → (r, y) ∈ R → x = y.

Definition rules_for (c : connection) (V : list ruled) : list ruled :=
  filter (λ p, matches_go_to p.2 = c) V.

(** [D] are the connections and [V] the rules in force; handlers hold the references [h]
    besides. *)
Record mrep (D : gset connection) (V h : list ruled) (k : matchmaker) : Prop := {
  mr_all : all_rules k = V.*1;
  mr_nodup : NoDup V.*1;
  mr_rules : rules k = counts (h ++ V);
  mr_coherent : coherent (h ++ V);
  mr_conns c d : conns k !! c = Some d →
    match_rules d = (rules_for c V).*1 ∧ n_match_rules d = Z.of_nat (length (rules_for c V)) ∧
    stamp d <= current_stamp k;
  mr_dom : dom (conns k) = D;
  mr_known r x : (r, x) ∈ V → matches_go_to x ∈ D;
  mr_wf r x : (r, x) ∈ h ++ V → wf_rule x
}.

(** *** References *)

Lemma counts_value R r n x : counts R !! r = Some (n, x) → (0 < n)%nat ∧ (r, x) ∈ R.
Proof.
  revert n x. induction R as [|[q y] R IH]; intros n x; cbn [counts]; [done|].
  destruct (decide (r = q)) as [->|Hne].
  - rewrite lookup_partial_alter_eq. unfold one_more. destruct (counts R !! q) as [[n' y']|] eqn:E; intros [= <- <-].
    + destruct (IH _ _ eq_refl). split; [lia|]. by apply list_elem_of_further.
    + split; [lia|]. apply list_elem_of_here.
  - rewrite lookup_partial_alter_ne by done. intros [? ?]%IH. split; [done|]. by apply list_elem_of_further.
Qed.

Lemma counts_in R r x : (r, x) ∈ R → is_Some (counts R !! r).
Proof.
  induction R as [|[q y] R IH]; [by intros ?%not_elem_of_nil|].
  rewrite list.elem_of_cons. cbn [counts]. intros Hin. destruct (decide (r = q)) as [->|Hne].
  - rewrite lookup_partial_alter_eq. eauto.
  - rewrite lookup_partial_alter_ne by done. destruct Hin as [[= -> _]|?]; [done|]. by apply IH.
Qed.

(** What a reference in [R] leads to. *)
Lemma counts_ref R r x : coherent R → (r, x) ∈ R → ∃ n, counts R !! r = Some (S n, x).
Proof.
  intros Hco Hin. destruct (counts_in _ _ _ Hin) as [[n y] E]. destruct (counts_value _ _ _ _ E) as [? Hy].
  rewrite E, (Hco _ _ _ Hin Hy). exists (pred n). by replace (S (pred n)) with n by lia.
Qed.

Lemma coherent_perm R R' : R ≡ₚ R' → coherent R → coherent R'.
Proof. intros Hp Hco r x y. rewrite <-!Hp. apply Hco. Qed.

Lemma coherent_tail p R : coherent (p :: R) → coherent R.
Proof. intros Hco r x y ? ?. eapply Hco; by apply list_elem_of_further. Qed.

Lemma counts_perm R R' : R ≡ₚ R' → coherent R → counts R = counts R'.
Proof.
  induction 1 as [|[q y] R R' _ IH|[q y] [r x] R|R R' R'' Hp IH _ IH']; intros Hco; cbn [counts]; [done|..].
  - by rewrite IH by by eapply coherent_tail.
  - destruct (decide (q = r)) as [->|?]; [|by apply partial_alter_partial_alter_ne].
    by rewrite (Hco r x y) by set_solver.
  - rewrite IH by done. apply IH'. by eapply coherent_perm.
Qed.

Lemma counts_drop r x R n y :
  counts ((r, x) :: R) !! r = Some (n, y) →
  (if (n =? 1)%nat then delete r (counts ((r, x) :: R)) else <[r := (pred n, y)]> (counts ((r, x) :: R))) = counts R.
Proof.
  cbn [counts]. rewrite lookup_partial_alter_eq. unfold one_more at 1.
  destruct (counts R !! r) as [[n' y']|] eqn:E; intros [= <- <-].
  - destruct (counts_value _ _ _ _ E) as [? _]. destruct n'; [lia|]. simpl.
    apply map_eq. intros q. destruct (decide (q = r)) as [->|?].
    + by rewrite lookup_insert_eq.
    + by rewrite lookup_insert_ne, lookup_partial_alter_ne by done.
  - simpl. apply map_eq. intros q. destruct (decide (q = r)) as [->|?].
    + by rewrite lookup_delete_eq.
    + by rewrite lookup_delete_ne, lookup_partial_alter_ne by done.
Qed.

Lemma counts_add r R n x :
  counts R !! r = Some (n, x) → <[r := (S n, x)]> (counts R) = counts ((r, x) :: R).
Proof.
  intros E. cbn [counts]. apply map_eq. intros q. destruct (decide (q = r)) as [->|?].
  - rewrite lookup_insert_eq, lookup_partial_alter_eq. unfold one_more. by rewrite E.
  - by rewrite lookup_insert_ne, lookup_partial_alter_ne by done.
Qed.

Lemma counts_fresh r R x :
  counts R !! r = None → <[r := (1%nat, x)]> (counts R) = counts ((r, x) :: R).
Proof.
  intros E. cbn [counts]. apply map_eq. intros q. destruct (decide (q = r)) as [->|?].
  - rewrite lookup_insert_eq, lookup_partial_alter_eq. unfold one_more. by rewrite E.
  - by rewrite lookup_insert_ne, lookup_partial_alter_ne by done.
Qed.

Lemma get_rule_eq {A} k m r p (K : nat * BusMatchRule → KM A) :
  rules k !! r = Some p → (get_rule r ≫= K) k m = K p k m.
Proof. intros E. unfold get_rule, mbind, M_bind, gets, checked, id. by rewrite E. Qed.

Lemma get_conn_eq {A} k m c d (K : match_data → KM A) :
  conns k !! c = Some d → (get_conn c ≫= K) k m = K d k m.
Proof. intros E. unfold get_conn, mbind, M_bind, gets, checked, id. by rewrite E. Qed.

(** Reading a rule that is referred to. *)
Lemma get_rule_rule {A} D k V h r x (K : nat * BusMatchRule → KM A) Q F :
  mrep D V h k → (r, x) ∈ h ++ V →
  (∀ n, rules k !! r = Some (S n, x) → triple False (λ s, s = k) (K (S n, x)) Q F) →
  triple False (λ s, s = k) (get_rule r ≫= K) Q F.
Proof.
  intros Hk Hin HK. destruct (counts_ref _ _ _ (mr_coherent _ _ _ _ Hk) Hin) as [n E].
  rewrite <-(mr_rules _ _ _ _ Hk) in E. intros s m ->. rewrite (get_rule_eq _ _ _ _ _ E). by apply (HK n E).
Qed.

Lemma get_n_match_rules_eq {A} k m c d (K : Z → KM A) :
  conns k !! c = Some d → (bus_connection_get_n_match_rules c ≫= K) k m = K (n_match_rules d) k m.
Proof.
  intros E. unfold bus_connection_get_n_match_rules. unfold mbind at 1, M_bind at 1.
  by rewrite (get_conn_eq _ _ _ _ _ E).
Qed.

Lemma triple_at {S A} U (P : S → Prop) (c : M S A) Q F :
  (∀ k, P k → triple U (λ s, s = k) c Q F) → triple U P c Q F.
Proof. intros Hc s m HP. by apply (Hc s HP s m). Qed.

Lemma with_rules_mrep D k V h h' f :
  mrep D V h k → f (rules k) = counts (h' ++ V) → (∀ p, p ∈ h' → p ∈ h ++ V) → mrep D V h' (with_rules f k).
Proof.
  intros [Ha Hnd Hr Hco Hc Hd Hn Hw] Hf Hsub.
  assert (∀ p, p ∈ h' ++ V → p ∈ h ++ V) as Hs by set_solver.
  split; [done|done|done| |done|done|done|].
  - intros r x y ? ?. apply (Hco r); by apply Hs.
  - intros r x ?. by apply (Hw r), Hs.
Qed.

(** A handler that gives its reference up. *)
Lemma unref_rule D V r x h F :
  triple False (mrep D V ((r, x) :: h)) (bus_match_rule_unref r) (λ _, mrep D V h) F.
Proof.
  apply triple_at. intros k Hk. unfold bus_match_rule_unref. eapply get_rule_rule; [done|apply list_elem_of_here|].
  intros n E. cbv iota beta. apply (triple_checked False _ (Some tt)); [done|]. intros [] _.
  assert (mrep D V h (with_rules (λ s, if (S n =? 1)%nat then delete r s else <[r := (pred (S n), x)]> s) k)) as Hk'.
  { eapply with_rules_mrep; [done| |set_solver]. rewrite (mr_rules _ _ _ _ Hk) in *. by apply counts_drop. }
  destruct (S n =? 1)%nat; apply triple_modify; by intros s ->.
Qed.

Lemma ref_rule D V r x h F :
  (r, x) ∈ h ++ V →
  triple False (mrep D V h) (bus_match_rule_ref r) (λ _, mrep D V ((r, x) :: h)) F.
Proof.
  intros Hin. apply triple_at. intros k Hk. unfold bus_match_rule_ref. eapply get_rule_rule; [done..|].
  intros n E. cbv iota beta. apply (triple_checked False _ (Some tt)); [done|]. intros [] _.
  apply triple_modify. intros s ->. eapply with_rules_mrep; [done| |set_solver].
  rewrite (mr_rules _ _ _ _ Hk) in *. by apply counts_add.
Qed.

Lemma alloc_rule_rule D V h x F :
  wf_rule x →
  triple False (mrep D V h) (alloc_rule x) (λ r k, r ∉ V.*1 ∧ mrep D V ((r, x) :: h) k) F.
Proof.
  intros Hx. apply triple_gets. intros k [Ha Hnd Hr Hco Hc Hd Hn Hw]. cbv zeta.
  set (r := fresh (dom (rules k))).
  assert (counts (h ++ V) !! r = None) as E.
  { apply not_elem_of_dom. rewrite <-Hr. apply is_fresh. }
  assert (∀ y, (r, y) ∉ h ++ V) as Hnew.
  { intros y [? E']%counts_in. congruence. }
  clearbody r. intros s m ->. cbn -[with_rules].
  split.
  { intros ([q y] & -> & Hq)%list_elem_of_fmap. apply (Hnew y). set_solver. }
  split; [done|done|..]; cbn [with_rules rules conns app].
  - rewrite Hr. by apply counts_fresh.
  - intros q y z [[= -> ->]|Hy]%list.elem_of_cons [[=]|Hz]%list.elem_of_cons; subst; try done.
    + by destruct (Hnew z).
    + by destruct (Hnew y).
    + by apply (Hco q).
  - done.
  - done.
  - done.
  - intros q y [[= -> ->]|Hy]%list.elem_of_cons; [done|]. by apply (Hw q).
Qed.

(** *** Rules in force *)

Lemma rules_for_app c V1 V2 : rules_for c (V1 ++ V2) = rules_for c V1 ++ rules_for c V2.
Proof. apply list.filter_app. Qed.

Lemma rules_for_one c r x :
  rules_for c [(r, x)] = if decide (matches_go_to x = c) then [(r, x)] else [].
Proof. unfold rules_for. rewrite filter_cons. simpl. by case_decide. Qed.

Lemma rules_for_in c V r : r ∈ (rules_for c V).*1 → r ∈ V.*1.
Proof.
  intros ([q x] & -> & [_ Hx]%list_elem_of_filter)%list_elem_of_fmap.
  apply list_elem_of_fmap. by exists (q, x).
Qed.

(** References pass between the handlers and the matchmaker. *)
Lemma mrep_pass D k V h V' h' f g :
  mrep D V h k → h' ++ V' ≡ₚ h ++ V → NoDup V'.*1 → f (all_rules k) = V'.*1 →
  (∀ c d, g (conns k) !! c = Some d →
    match_rules d = (rules_for c V').*1 ∧ n_match_rules d = Z.of_nat (length (rules_for c V')) ∧
    stamp d <= current_stamp k) →
  dom (g (conns k)) = D → (∀ r x, (r, x) ∈ V' → matches_go_to x ∈ D) →
  mrep D V' h' (with_conns g (with_all_rules f k)).
Proof.
  intros [Ha Hnd Hr Hco Hc Hd Hn Hw] Hp Hnd' Hf Hg HD Hkn. split; try done.
  - cbn. rewrite Hr. by apply counts_perm.
  - by eapply coherent_perm.
  - intros r x. rewrite Hp. apply Hw.
Qed.

(** The connection's data change, not the connections. *)
Lemma dom_replace D k V h c d d' :
  mrep D V h k → conns k !! c = Some d → dom (<[c := d']> (conns k)) = D.
Proof. intros Hk Hd. rewrite dom_insert_lookup_L by eauto. apply Hk. Qed.

Lemma passed_in D k V h r x d :
  mrep D V ((r, x) :: h) k → r ∉ V.*1 → conns k !! matches_go_to x = Some d →
  mrep D (V ++ [(r, x)]) h (with_conns (insert (matches_go_to x) (MatchData (match_rules d ++ [r]) (n_match_rules d + 1) (stamp d)))
         (with_all_rules (λ l, l ++ [r]) k)).
Proof.
  intros Hk Hr Hd. eapply mrep_pass; [exact Hk|..].
  - by rewrite app_assoc, <-Permutation_cons_append.
  - rewrite fmap_app. apply list.NoDup_app. split; [apply Hk|]. split; [|apply list.NoDup_singleton].
    by intros q Hq ->%list_elem_of_singleton.
  - rewrite (mr_all _ _ _ _ Hk), fmap_app. done.
  - intros c d'. rewrite rules_for_app, rules_for_one. destruct (decide (matches_go_to x = c)) as [<-|Hne].
    + rewrite lookup_insert_eq. intros [= <-].
      destruct (mr_conns _ _ _ _ Hk _ _ Hd) as (E1 & E2 & E3). simpl.
      rewrite fmap_app, length_app, E1, E2. simpl. split; [done|]. split; [lia|done].
    + rewrite lookup_insert_ne, app_nil_r by done. apply Hk.
  - by eapply dom_replace.
  - intros q y [Hy|[= -> ->]%list_elem_of_singleton]%list.elem_of_app; [by eapply mr_known|].
    rewrite <-(mr_dom _ _ _ _ Hk). by eapply elem_of_dom_2.
Qed.

Lemma passed_out D k V1 V2 h r x d :
  mrep D (V1 ++ (r, x) :: V2) h k → conns k !! matches_go_to x = Some d →
  mrep D (V1 ++ V2) ((r, x) :: h) (with_all_rules (remove_first r)
         (with_conns (insert (matches_go_to x) (MatchData (remove_last r (match_rules d)) (n_match_rules d - 1) (stamp d))) k)) ∧
  0 < n_match_rules d.
Proof.
  intros Hk Hd. pose proof (mr_nodup _ _ _ _ Hk) as Hnd.
  rewrite fmap_app, fmap_cons in Hnd. rewrite <-(Permutation_middle _ _ r) in Hnd.
  apply list.NoDup_cons in Hnd. destruct Hnd as [Hnot Hnd]. rewrite not_elem_of_app in Hnot. destruct Hnot as [Hn1 Hn2].
  destruct (mr_conns _ _ _ _ Hk _ _ Hd) as (E1 & E2 & E3).
  change ((r, x) :: V2) with ([(r, x)] ++ V2) in E1, E2.
  rewrite !rules_for_app, rules_for_one, decide_True in E1, E2 by done.
  rewrite !fmap_app in E1. rewrite !length_app in E2. simpl in E1, E2.
  assert (∀ (W : list ruled), r ∉ W.*1 → r ∉ (rules_for (matches_go_to x) W).*1) as Hout.
  { intros W HW HW'. by eapply HW, rules_for_in. }
  split; [|lia].
  eapply (mrep_pass D k _ _ _ _ (remove_first r)); [exact Hk|..].
  - simpl. rewrite !(app_assoc h). apply Permutation_middle.
  - by rewrite fmap_app.
  - rewrite (mr_all _ _ _ _ Hk), !fmap_app. by apply remove_first_mid.
  - intros c d'. destruct (decide (matches_go_to x = c)) as [<-|Hne].
    + rewrite lookup_insert_eq. intros [= <-]. simpl. rewrite E1, E2, remove_last_mid, rules_for_app by auto.
      rewrite fmap_app, length_app. split; [done|]. split; [lia|done].
    + rewrite lookup_insert_ne by done. intros Hd'. apply (mr_conns _ _ _ _ Hk) in Hd'.
      change ((r, x) :: V2) with ([(r, x)] ++ V2) in Hd'.
      rewrite !rules_for_app, rules_for_one, decide_False in Hd' by done. by rewrite rules_for_app.
  - by eapply dom_replace.
  - intros q y Hq. eapply (mr_known _ _ _ _ Hk q).
    rewrite list.elem_of_app, list.elem_of_cons in *. naive_solver.
Qed.

Lemma get_conn_rule {A} D k V h c (K : match_data → KM A) Q F :
  mrep D V h k → c ∈ D →
  (∀ d, conns k !! c = Some d → triple False (λ s, s = k) (K d) Q F) →
  triple False (λ s, s = k) (get_conn c ≫= K) Q F.
Proof.
  intros Hk Hc HK. rewrite <-(mr_dom _ _ _ _ Hk) in Hc. apply elem_of_dom in Hc. destruct Hc as [d Hd].
  intros s m ->. rewrite (get_conn_eq _ _ _ _ _ Hd). by apply (HK d Hd).
Qed.

Lemma add_rule_rule D V h r x :
  r ∉ V.*1 → matches_go_to x ∈ D →
  triple False (mrep D V ((r, x) :: h)) (bus_matchmaker_add_rule r)
    (λ _, mrep D (V ++ [(r, x)]) ((r, x) :: h)) (mrep D V ((r, x) :: h)).
Proof.
  intros Hr Hc. apply triple_at. intros k Hk. unfold bus_matchmaker_add_rule.
  eapply get_rule_rule; [done|apply list_elem_of_here|]. intros n _. cbv iota beta.
  apply (triple_failure _ _ _ _ _ (mrep D V ((r, x) :: h))); [|done].
  eapply triple_bind; [eapply triple_failure; [apply triple_request|by intros s ->]|]. intros []; cbv beta.
  set (k1 := with_all_rules (λ l, l ++ [r]) k).
  eapply triple_bind with (Q := λ _ s, s = k1); [apply triple_modify; by intros s ->|]. intros []; cbv beta.
  eapply triple_bind with (Q := λ _, mrep D (V ++ [(r, x)]) h); [|intros []; apply ref_rule; set_solver].
  apply triple_on_failure with (F := λ s, s = k1).
  - unfold bus_connection_add_match_rule, bus_connection_add_match_rule_link.
    eapply triple_bind; [apply triple_request|]. intros []; cbv beta.
    intros s m ->. rewrite <-(mr_dom _ _ _ _ Hk) in Hc. apply elem_of_dom in Hc. destruct Hc as [d Hd].
    unfold get_conn, mbind, M_bind, gets, checked, id. change (conns k1) with (conns k). rewrite Hd. simpl.
    by apply passed_in.
  - apply triple_modify. intros s ->.
    assert (with_all_rules (remove_last r) k1 = k) as ->; [|done].
    destruct k as [ru l co st]. unfold k1, with_all_rules. cbn [rules all_rules conns current_stamp]. f_equal.
    rewrite remove_last_mid; [apply app_nil_r|]. apply not_elem_of_nil.
Qed.

Lemma remove_link_rule D V1 V2 h r x F :
  triple False (mrep D (V1 ++ (r, x) :: V2) h) (bus_matchmaker_remove_rule_link r)
    (λ _, mrep D (V1 ++ V2) h) F.
Proof.
  apply triple_at. intros k Hk. unfold bus_matchmaker_remove_rule_link.
  eapply get_rule_rule; [done| |].
  { rewrite app_assoc. apply list.elem_of_app. right. apply list_elem_of_here. }
  intros n _. cbv iota beta.
  assert (matches_go_to x ∈ D) as Hc by (eapply (mr_known _ _ _ _ Hk r); set_solver).
  rewrite <-(mr_dom _ _ _ _ Hk) in Hc. apply elem_of_dom in Hc. destruct Hc as [d Hd].
  destruct (passed_out _ _ _ _ _ _ _ _ Hk Hd) as [Hk' Hpos].
  intros s m ->. unfold bus_connection_remove_match_rule, get_conn, mbind, M_bind, gets, checked, id, assert_, checked.
  rewrite Hd. simpl. rewrite (proj2 (Z.leb_le _ _)) by lia. simpl.
  by apply (unref_rule D (V1 ++ V2) r x h F _ m Hk').
Qed.

(** *** Equal rules *)

Lemma flag_equal_iff {A} `{EqDecision A} a f (x y : A) :
  flag_equal a f x y = true ↔ (has_flag a f = true → x = y).
Proof. unfold flag_equal. rewrite orb_true_iff, negb_true_iff, bool_decide_eq_true. destruct (has_flag a f); naive_solver. Qed.

Lemma args_equal_iff a b : length a = length b → args_equal a b = true ↔ a = b.
Proof.
  revert b. induction a as [|x a IH]; intros [|y b]; try done. simpl. intros [= E].
  rewrite andb_true_iff, bool_decide_eq_true, IH by done. naive_solver.
Qed.

(** A field that is asked for and equal, or not asked for in either rule. *)
Lemma field_equal {A} (fa fb : bool) (a b : option A) :
  fa = bool_decide (is_Some a) → fb = bool_decide (is_Some b) → fa = fb → (fa = true → a = b) → a = b.
Proof.
  intros -> -> E Hf. destruct a as [a|], b as [b|]; try done. by apply Hf.
Qed.

(** Well-formed rules are equal for the matchmaker when they are the same. *)
Lemma match_rule_equal_iff a b : wf_rule a → wf_rule b → match_rule_equal a b = true ↔ a = b.
Proof.
  intros Ha Hb. unfold match_rule_equal.
  rewrite !andb_true_iff, !flag_equal_iff, orb_true_iff, andb_true_iff, negb_true_iff, Z.eqb_eq, !Nat.eqb_eq.
  split; [|intros ->; repeat split; try done; right; split; [done|by apply args_equal_iff]].
  intros ((((((((Hf & Hc) & Ht) & Hm) & Hp) & Hi) & Hs) & Hd) & Hargs).
  assert (∀ f, has_flag a f = has_flag b f) as Hfl by (intros f; unfold has_flag; by rewrite Hf).
  assert (rule_message_type a = rule_message_type b) as Et.
  { destruct (has_flag a BUS_MATCH_MESSAGE_TYPE) eqn:E; [auto|]. pose proof (wf_type _ Ha) as E1.
    pose proof (wf_type _ Hb) as E2. rewrite <-Hfl in E2. rewrite E in E1, E2.
    symmetry in E1, E2. apply negb_false_iff, Z.eqb_eq in E1, E2. congruence. }
  assert (rule_args a = rule_args b) as Ea.
  { destruct Hargs as [E|[El Hl]]; [|by apply args_equal_iff]. pose proof (wf_args _ Ha) as E1.
    pose proof (wf_args _ Hb) as E2. rewrite <-Hfl in E2. rewrite E in E1, E2.
    symmetry in E1, E2. apply negb_false_iff, bool_decide_eq_true in E1, E2. congruence. }
  pose proof (field_equal _ _ _ _ (wf_interface _ Ha) (wf_interface _ Hb) (Hfl _) Hi).
  pose proof (field_equal _ _ _ _ (wf_member _ Ha) (wf_member _ Hb) (Hfl _) Hm).
  pose proof (field_equal _ _ _ _ (wf_sender _ Ha) (wf_sender _ Hb) (Hfl _) Hs).
  pose proof (field_equal _ _ _ _ (wf_destination _ Ha) (wf_destination _ Hb) (Hfl _) Hd).
  pose proof (field_equal _ _ _ _ (wf_path _ Ha) (wf_path _ Hb) (Hfl _) Hp).
  destruct a, b. simpl in *. congruence.
Qed.

(** The last rule equal to [x] is taken out of [V], or there is none. *)
Definition taken_last (x : BusMatchRule) (V : list ruled) (found : bool) (V' : list ruled) : Prop :=
  if found then ∃ V1 r V2, V = V1 ++ (r, x) :: V2 ∧ x ∉ V2.*2 ∧ V' = V1 ++ V2
  else x ∉ V.*2 ∧ V' = V.

Lemma remove_value_rule D V1 W h x F :
  wf_rule x → x ∉ W.*2 →
  triple False (mrep D (V1 ++ W) h) (remove_value_loop (reverse V1.*1) x)
    (λ found k, ∃ V', taken_last x (V1 ++ W) found V' ∧ mrep D V' h k) F.
Proof.
  intros Hx. revert W. induction V1 as [|[r y] V1 IH] using rev_ind; intros W HW.
  { apply triple_ret. intros k Hk. exists W. done. }
  rewrite fmap_app, reverse_app. cbn [fmap list_fmap reverse rev_append app remove_value_loop fst].
  rewrite <-app_assoc. cbn [app]. apply triple_at. intros k Hk.
  assert ((r, y) ∈ h ++ V1 ++ (r, y) :: W) as Hin.
  { rewrite app_assoc. apply list.elem_of_app. right. apply list_elem_of_here. }
  pose proof (mr_wf _ _ _ _ Hk _ _ Hin) as Hy.
  eapply get_rule_rule; [done..|]. intros n _. cbv iota beta.
  destruct (match_rule_equal y x) eqn:E.
  - apply match_rule_equal_iff in E as ->; [|done..].
    eapply triple_bind; [eapply triple_pre; [apply remove_link_rule|by intros s ->]|]. intros []; cbv beta.
    apply triple_ret. intros s Hs. exists (V1 ++ W). split; [|done]. exists V1, r, W. done.
  - eapply triple_pre; [apply IH|by intros s ->]. rewrite fmap_cons, not_elem_of_cons. split; [|done].
    simpl. intros ->. assert (match_rule_equal y y = true); [by apply match_rule_equal_iff|congruence].
Qed.

Lemma remove_by_value_rule D V h x F :
  wf_rule x →
  triple False (mrep D V h) (bus_matchmaker_remove_rule_by_value x)
    (λ found k, ∃ V', taken_last x V found V' ∧ mrep D V' h k) F.
Proof.
  intros Hx. apply triple_gets. intros k Hk. rewrite (mr_all _ _ _ _ Hk).
  pose proof (remove_value_rule D V [] h x F Hx (not_elem_of_nil _)) as Ht. rewrite app_nil_r in Ht.
  eapply triple_pre; [exact Ht|by intros s ->].
Qed.

(** The rules that stay when the connection is gone. *)
Definition stays (c : connection) (name : bytes) (x : BusMatchRule) : Prop :=
  matches_go_to x ≠ c ∧ refers_to x name = false.

#[export] Instance stays_dec c name x : Decision (stays c name x) := _.

Lemma disconnected_rule D V1 W h c name F :
  triple False (mrep D (V1 ++ W) h) (disconnected_loop W.*1 c name)
    (λ _, mrep D (V1 ++ filter (λ p, stays c name p.2) W) h) F.
Proof.
  revert V1. induction W as [|[r x] W IH]; intros V1.
  { apply triple_ret. done. }
  cbn [fmap list_fmap disconnected_loop fst]. apply triple_at. intros k Hk.
  eapply get_rule_rule; [done|rewrite app_assoc; apply list.elem_of_app; right; apply list_elem_of_here|].
  intros n _. cbv iota beta. rewrite filter_cons. simpl.
  destruct ((matches_go_to x =? c)%nat || refers_to x name) eqn:E.
  - rewrite decide_False by (unfold stays; intros [? ?]; rewrite orb_true_iff, Nat.eqb_eq in E; destruct E; congruence).
    eapply triple_bind; [eapply triple_pre; [apply remove_link_rule|by intros s ->]|]. intros []. apply IH.
  - apply orb_false_iff in E as [E1%Nat.eqb_neq E2]. rewrite decide_True by done.
    eapply triple_bind with (Q := λ _ s, s = k); [by apply triple_ret|]. intros []; cbv beta.
    specialize (IH (V1 ++ [(r, x)])). rewrite <-!app_assoc in IH. eapply triple_pre; [exact IH|by intros s ->].
Qed.

Lemma disconnected_triple D V h c name F :
  triple False (mrep D V h) (bus_matchmaker_disconnected c name)
    (λ _, mrep D (filter (λ p, stays c name p.2) V) h) F.
Proof.
  apply triple_gets. intros k Hk. rewrite (mr_all _ _ _ _ Hk).
  eapply triple_pre; [apply (disconnected_rule D [] V)|by intros s ->].
Qed.

(** *** Requests *)

(** The parser as it runs with [m]: a rule, or an error. *)
Definition parsed (c : connection) (text : bytes) (m : mem) : match_error + BusMatchRule :=
  match bus_match_rule_parse c text None m with
  | Ok x _ _ => inr x
  | Failed (Some e) _ => inl e
  | _ => inl NO_MEMORY
  end.

Inductive match_request :=
  | AddMatch (max_match_rules : Z) (c : connection) (text : bytes)
  | RemoveMatch (c : connection) (text : bytes)
  | Disconnected (c : connection) (name : bytes).

Definition serve_match (q : match_request) : KM (option match_error) :=
  match q with
  | AddMatch max c text => bus_driver_handle_add_match max c text
  | RemoveMatch c text => bus_driver_handle_remove_match c text
  | Disconnected c name => bus_matchmaker_disconnected c name;; mret None
  end.

(** *** Failures for lack of memory *)

(** [c] invents no refusals, and fails only for one or if [L]. *)
Definition honest {S A} (L : Prop) (c : M S A) : Prop :=
  ∀ s m, match c s m with
         | Ok _ _ m' => may_fail m' → may_fail m
         | Failed _ m' => (may_fail m' → may_fail m) ∧ (may_fail m ∨ L)
         | Ub => True
         end.

Lemma honest_ret {S A} L (a : A) : honest (S := S) L (mret a).
Proof. intros s m. exact id. Qed.
Lemma honest_gets {S A} L (f : S → A) : honest L (gets f).
Proof. intros s m. exact id. Qed.
Lemma honest_modify {S} L (f : S → S) : honest L (modify f).
Proof. intros s m. exact id. Qed.
Lemma honest_checked {S A} L (o : option A) : honest (S := S) L (checked o).
Proof. intros s m. destruct o; [exact id|exact I]. Qed.
Lemma honest_fail {S A} : honest True (fail : M S A).
Proof. intros s m. split; [exact id|by right]. Qed.

Lemma alloc_honest m : let '(ok, m') := alloc m in (may_fail m' → may_fail m) ∧ (ok = false → may_fail m).
Proof.
  unfold alloc, may_fail. destruct (outcomes m) as [|ok l] eqn:E; simpl; [by rewrite E|].
  rewrite list.elem_of_cons. split; [auto|]. intros ->. by left.
Qed.

Lemma honest_request {S} L : honest (S := S) L request.
Proof.
  intros s m. unfold request. pose proof (alloc_honest m) as H. destruct (alloc m) as [[] m']; naive_solver.
Qed.

Lemma honest_bind {S A B} L (c : M S A) (k : A → M S B) :
  honest L c → (∀ a, honest L (k a)) → honest L (c ≫= k).
Proof.
  intros Hc Hk s m. specialize (Hc s m). unfold mbind, M_bind. destruct (c s m) as [a s1 m1|s1 m1|]; [|done..].
  specialize (Hk a s1 m1). destruct (k a s1 m1); naive_solver.
Qed.

Lemma honest_on_failure {S A} L (c : M S A) h : honest L c → honest L h → honest L (on_failure c h).
Proof.
  intros Hc Hh s m. specialize (Hc s m). unfold on_failure. destruct (c s m) as [a s1 m1|s1 m1|]; [done| |done].
  specialize (Hh s1 m1). destruct (h s1 m1); naive_solver.
Qed.

Lemma honest_set_error L e : honest L (set_match_error e).
Proof.
  intros e0 m; destruct e0; unfold set_match_error; [exact id|]. pose proof (alloc_honest m) as H. destruct (alloc m). naive_solver.
Qed.

Create HintDb honest.
#[local] Hint Resolve honest_ret honest_gets honest_modify honest_checked honest_fail honest_request honest_bind
  honest_on_failure honest_set_error : honest.
#[local] Hint Extern 1 (honest _ (assert_ _)) => apply honest_checked : honest.

Lemma honest_requests {S} L n : honest (S := S) L (requests n).
Proof. induction n; simpl; auto with honest. Qed.
#[local] Hint Resolve honest_requests : honest.

(** Through the tests and matches of a program. *)
Ltac honest_step :=
  repeat match goal with
  | |- ∀ _, _ => intros ?
  | |- honest _ (let _ := _ in _) => cbv zeta
  | |- honest _ (if ?b then _ else _) => destruct b
  | |- honest _ (match ?x with _ => _ end) => destruct x
  | |- honest _ (_ ≫= _) => apply honest_bind
  | |- honest _ (on_failure _ _) => apply honest_on_failure
  | |- _ => progress auto with honest
  end.

Lemma add_rule_honest r : honest False (bus_matchmaker_add_rule r).
Proof.
  unfold bus_matchmaker_add_rule, bus_connection_add_match_rule, bus_connection_add_match_rule_link,
    bus_match_rule_ref, get_rule, get_conn. honest_step.
Qed.

Lemma unref_honest r : honest False (bus_match_rule_unref r).
Proof. unfold bus_match_rule_unref, get_rule. honest_step. Qed.

Lemma remove_by_value_honest x : honest False (bus_matchmaker_remove_rule_by_value x).
Proof.
  pose proof unref_honest. apply honest_bind; [apply honest_gets|]. intros k.
  induction (reverse (all_rules k)) as [|r l IH]; cbn [remove_value_loop];
    unfold bus_matchmaker_remove_rule_link, bus_connection_remove_match_rule, get_conn, get_rule; honest_step.
Qed.

Lemma value_loop_honest p quote value n : honest True (value_loop p quote value n).
Proof.
  revert quote value n. induction p as [|c p IH]; intros quote value n; cbn [value_loop]; unfold or_nomem; honest_step.
Qed.

Lemma tokenize_honest fuel text pos : honest True (tokenize_loop fuel text pos).
Proof.
  pose proof value_loop_honest. revert pos. induction fuel as [|fuel IH]; intros pos; cbn [tokenize_loop];
  unfold find_key, find_value, invalid, or_nomem; honest_step.
Qed.

Lemma parse_honest c text : honest True (bus_match_rule_parse c text).
Proof.
  pose proof tokenize_honest.
  unfold bus_match_rule_parse, bus_match_rule_new, tokenize_rule, or_nomem; honest_step.
  revert a1. induction a2 as [|[[key value]|] l IH]; intros x; cbn [parse_tokens]; honest_step.
  unfold parse_token, parse_name, bus_match_rule_parse_arg_match, invalid, or_nomem,
    bus_match_rule_set_message_type, bus_match_rule_set_sender, bus_match_rule_set_interface, bus_match_rule_set_member,
    bus_match_rule_set_path, bus_match_rule_set_destination, bus_match_rule_set_arg; honest_step.
Qed.

(** *** Requests and the list of rules *)

(** Rules of the connection. *)
Definition rules_of (c : connection) (X : list BusMatchRule) : list BusMatchRule :=
  filter (λ x, matches_go_to x = c) X.

(** What a request does to the rules in force [X], with its answer. *)
Inductive answers (m : mem) : match_request → list BusMatchRule → option match_error → list BusMatchRule → Prop :=
  | rule_added max c text X x :
      Z.of_nat (length (rules_of c X)) < max → parsed c text m = inr x →
      answers m (AddMatch max c text) X None (X ++ [x])
  | too_many_rules max c text X :
      max <= Z.of_nat (length (rules_of c X)) →
      answers m (AddMatch max c text) X (Some LIMITS_EXCEEDED) X
  | rule_removed c text X1 x X2 :
      parsed c text m = inr x → x ∉ X2 →
      answers m (RemoveMatch c text) (X1 ++ x :: X2) None (X1 ++ X2)
  | rule_not_found c text X x :
      parsed c text m = inr x → x ∉ X →
      answers m (RemoveMatch c text) X (Some MATCH_RULE_NOT_FOUND) X
  | add_not_parsed max c text X e :
      Z.of_nat (length (rules_of c X)) < max → parsed c text m = inl e →
      answers m (AddMatch max c text) X (Some e) X
  | remove_not_parsed c text X e :
      parsed c text m = inl e → answers m (RemoveMatch c text) X (Some e) X
  | no_memory_to_add max c text X :
      may_fail m → answers m (AddMatch max c text) X (Some NO_MEMORY) X
  | no_memory_to_remove c text X :
      may_fail m → answers m (RemoveMatch c text) X (Some NO_MEMORY) X
  | connection_gone c name X :
      answers m (Disconnected c name) X None (filter (stays c name) X).

Lemma rules_for_values c V : (rules_for c V).*2 = rules_of c V.*2.
Proof.
  unfold rules_for, rules_of. induction V as [|[r x] V IH]; [done|].
  rewrite fmap_cons, !filter_cons. simpl. case_decide; [|done]. by rewrite fmap_cons, IH.
Qed.

Lemma filter_values c name V :
  (filter (λ p : ruled, stays c name p.2) V).*2 = filter (stays c name) V.*2.
Proof.
  induction V as [|[r x] V IH]; [done|].
  rewrite fmap_cons, !filter_cons. simpl. case_decide; [|done]. by rewrite fmap_cons, IH.
Qed.

Lemma taken_values x V found V' :
  taken_last x V found V' →
  if found then ∃ X1 X2, V.*2 = X1 ++ x :: X2 ∧ x ∉ X2 ∧ V'.*2 = X1 ++ X2 else x ∉ V.*2 ∧ V' = V.
Proof.
  destruct found; [|done]. intros (V1 & r & V2 & -> & Hx & ->). exists V1.*2, V2.*2.
  by rewrite !fmap_app, fmap_cons.
Qed.

(** Memory for the text of an error, or NO_MEMORY. *)
Lemma attempt_request {A} (K : bool → KM A) k m :
  ∃ ok m', (attempt request ≫= K) k m = K ok k m' ∧ (may_fail m' → may_fail m) ∧ (ok = false → may_fail m).
Proof.
  unfold mbind, M_bind, attempt, request. pose proof (alloc_honest m) as H.
  destruct (alloc m) as [[] m']; eexists _, m'; (split; [reflexivity|]); naive_solver.
Qed.

(** The parser leaves a rule with the handler, or an error. *)
Lemma parse_request_rule {A} D V k c text (K : match_error + rule_ptr → KM A) m (R : outcome matchmaker A → Prop) :
  mrep D V [] k →
  (∀ e m', parsed c text m = inl e → (may_fail m' → may_fail m) → R (K (inl e) k m')) →
  (∀ x r k' m', parsed c text m = inr x → mrep D V [(r, x)] k' → matches_go_to x = c → r ∉ V.*1 →
     (may_fail m' → may_fail m) → R (K (inr r) k' m')) →
  R ((parse_request c text ≫= K) k m).
Proof.
  intros Hk He Hx. unfold parsed in He, Hx. unfold mbind at 1, M_bind at 1, parse_request.
  pose proof (parse_triple c text None m eq_refl) as Ht. pose proof (parse_honest c text None m) as Hm.
  revert Ht Hm He Hx.
  destruct (bus_match_rule_parse c text None m) as [x e m1|[e|] m1|]; intros Ht Hm He Hx;
    [|apply He; [done|apply Hm]|by destruct (is_Some_None Ht)|done].
  destruct Ht as (-> & Hv & Hc).
  pose proof (alloc_rule_rule D V [] x (λ _, False) (valid_wf _ Hv) k m1 Hk) as Ha.
  destruct (alloc_rule x k m1) as [r k' m'| |] eqn:E; [|done..]. destruct Ha as [Hr Ha].
  assert (m' = m1) as -> by by injection E. by apply (Hx x).
Qed.

(** The state after a request, and its answer. *)
Definition served (D : gset connection) (m : mem) (q : match_request) (V : list ruled)
    (o : outcome matchmaker (option match_error)) : Prop :=
  match o with
  | Ok res k _ => ∃ V', mrep D V' [] k ∧ answers m q V.*2 res V'.*2
  | _ => False
  end.

(** The handler gives its reference up and answers. *)
Lemma served_unref D m q V V' r x k m' res :
  mrep D V' [(r, x)] k → answers m q V.*2 res V'.*2 →
  served D m q V ((bus_match_rule_unref r;; mret res) k m').
Proof.
  intros Hk Ha. pose proof (unref_rule D V' r x [] (λ _, False) k m' Hk) as Hu. unfold mbind, M_bind.
  destruct (bus_match_rule_unref r k m') as [[] k' m1| |]; [|done..]. by exists V'.
Qed.

Lemma serve_add_rule D m V r x max c text k m' :
  mrep D V [(r, x)] k → r ∉ V.*1 → matches_go_to x ∈ D → (may_fail m' → may_fail m) →
  answers m (AddMatch max c text) V.*2 None (V.*2 ++ [x]) →
  served D m (AddMatch max c text) V
    ((ok ← attempt (bus_matchmaker_add_rule r);
      if negb ok then bus_match_rule_unref r;; mret (Some NO_MEMORY)
      else
        ok ← attempt request;
        if negb ok then bus_matchmaker_remove_rule r;; bus_match_rule_unref r;; mret (Some NO_MEMORY)
        else bus_match_rule_unref r;; mret None) k m').
Proof.
  intros Hk Hr Hc Hm Ha.
  pose proof (add_rule_rule D V [] r x Hr Hc k m' Hk) as Ht. pose proof (add_rule_honest r k m') as Hh.
  unfold mbind at 1, M_bind at 1, attempt at 1.
  destruct (bus_matchmaker_add_rule r k m') as [[] k1 m1|k1 m1|]; [|..|done]; cbv iota; cbn [negb].
  - match goal with |- context [attempt request ≫= ?K] => destruct (attempt_request K k1 m1) as (ok & m2 & E & Hm2 & Hf) end.
    rewrite E. destruct ok; cbn [negb].
    + eapply served_unref; [exact Ht|]. by rewrite fmap_app.
    + pose proof (remove_link_rule D V [] [(r, x)] r x (λ _, False) k1 m2 Ht) as Hrm.
      change (bus_matchmaker_remove_rule_link r) with (bus_matchmaker_remove_rule r) in Hrm.
      unfold mbind at 1, M_bind at 1.
      destruct (bus_matchmaker_remove_rule r k1 m2) as [[] k2 m3| |]; [|done..]. rewrite app_nil_r in Hrm.
      eapply served_unref; [exact Hrm|]. apply no_memory_to_add. auto.
  - eapply served_unref; [exact Ht|]. apply no_memory_to_add. naive_solver.
Qed.

Lemma serve_add D V k m max c text :
  mrep D V [] k → c ∈ D → served D m (AddMatch max c text) V (bus_driver_handle_add_match max c text k m).
Proof.
  intros Hk Hc. unfold bus_driver_handle_add_match.
  destruct (proj1 (elem_of_dom (conns k) c)) as [d Hd]; [by rewrite (mr_dom _ _ _ _ Hk)|].
  destruct (mr_conns _ _ _ _ Hk _ _ Hd) as (_ & En & _).
  rewrite <-(length_fmap snd), rules_for_values in En.
  rewrite (get_n_match_rules_eq _ _ _ _ _ Hd), En. destruct (max <=? _) eqn:E.
  - match goal with |- context [attempt request ≫= ?K] => destruct (attempt_request K k m) as (ok & m2 & -> & _ & Hf) end.
    exists V. split; [done|]. destruct ok; [apply too_many_rules; lia|apply no_memory_to_add; auto].
  - eapply parse_request_rule; [done|..].
    + intros e m' Hp Hm. exists V. split; [done|]. apply add_not_parsed; [lia|done].
    + intros x r k' m' Hp Hk' Hx Hr Hm. eapply serve_add_rule; try done; [by rewrite Hx|].
      apply rule_added; [lia|done].
Qed.

Lemma serve_remove D V k m c text :
  mrep D V [] k → served D m (RemoveMatch c text) V (bus_driver_handle_remove_match c text k m).
Proof.
  intros Hk. unfold bus_driver_handle_remove_match. eapply parse_request_rule; [done|..].
  { intros e m' Hp Hm. exists V. split; [done|]. by apply remove_not_parsed. }
  intros x r k' m' Hp Hk' Hx Hr Hm.
  match goal with |- context [attempt request ≫= ?K] => destruct (attempt_request K k' m') as (ok & m2 & -> & Hm2 & Hf) end.
  destruct ok; cbn [negb]; [|eapply served_unref; [exact Hk'|apply no_memory_to_remove; auto]].
  destruct (counts_ref _ r x (mr_coherent _ _ _ _ Hk')) as [n E]; [apply list_elem_of_here|].
  rewrite <-(mr_rules _ _ _ _ Hk') in E.
  rewrite (get_rule_eq _ _ _ _ _ E). cbv iota beta.
  assert (wf_rule x) as Hw by (eapply (mr_wf _ _ _ _ Hk' r), list_elem_of_here).
  pose proof (remove_by_value_rule D V [(r, x)] x (λ _, False) Hw k' m2 Hk') as Hv.
  pose proof (remove_by_value_honest x k' m2) as Hmv. unfold mbind at 1, M_bind at 1.
  destruct (bus_matchmaker_remove_rule_by_value x k' m2) as [found k1 m3| |]; [|done..].
  destruct Hv as (V' & Ht%taken_values & Hk1). pose proof (unref_rule D V' r x [] (λ _, False) k1 m3 Hk1) as Hu.
  pose proof (unref_honest r k1 m3) as Hmu.
  unfold mbind at 1, M_bind at 1. destruct (bus_match_rule_unref r k1 m3) as [[] k2 m4| |]; [|done..].
  destruct found.
  - destruct Ht as (X1 & X2 & E1 & Hnot & E2). exists V'. split; [done|]. rewrite E1, E2. by apply rule_removed.
  - destruct Ht as [Hnot ->].
    match goal with |- context [attempt request ≫= ?K] => destruct (attempt_request K k2 m4) as (ok & m5 & -> & _ & Hf5) end.
    exists V. split; [done|]. destruct ok; [by eapply rule_not_found|]. apply no_memory_to_remove. auto 8.
Qed.

(** C27: Each request of a client, and the end of a connection, changes the rules in force as
    [answers] says, whatever memory there is: no step goes wrong, every rule has as many
    references as the matchmaker holds, and the lists and numbers the connections keep
    agree with the rules in force.  NO_MEMORY is answered for lack of memory only. *)
Theorem matchmaker_refines D V k m q :
  mrep D V [] k → (∀ max c text, q = AddMatch max c text → c ∈ D) →
  match serve_match q k m with
  | Ok res k' _ => ∃ V', mrep D V' [] k' ∧ answers m q V.*2 res V'.*2
  | _ => False
  end.
Proof.
  intros Hk Hc. destruct q as [max c text|c text|c name].
  - by apply serve_add; [|eapply Hc].
  - by apply serve_remove.
  - pose proof (disconnected_triple D V [] c name (λ _, False) k m Hk) as Hd. cbn [serve_match].
    unfold mbind, M_bind. destruct (bus_matchmaker_disconnected c name k m) as [[] k' m'| |]; [|done..].
    eexists. split; [exact Hd|]. rewrite filter_values. apply connection_gone.
Qed.

(** ** Recipients *)

Section recipients.
Context `{NameOwners}.

(** A path matches itself, and what it is a parent of if it ends in a slash. *)
Definition path_accepts (expected actual : bytes) : Prop :=
  actual = expected
  ∨ (list.last actual = Some ("/" : byte) ∧ actual `prefix_of` expected)
  ∨ (list.last expected = Some ("/" : byte) ∧ expected `prefix_of` actual).

Definition arg_accepts (e : option (bytes * bool)) (a : option message_arg) : Prop :=
  match e with
  | None => True
  | Some (s, is_path) =>
      ∃ t, a = Some (StringArg t) ∧ if (is_path : bool) then path_accepts s t else t = s
  end.

Definition name_accepts (e a : option bytes) : Prop := ∀ s, e = Some s → a = Some s.

(** A peer is the driver or the owner of the name. *)
Definition peer_accepts (e : option bytes) (c : option connection) : Prop :=
  ∀ s, e = Some s → match c with Some c => primary_owner s = Some c | None => s = DBUS_SERVICE_DBUS end.

Record accepts (x : BusMatchRule) (sender addressed : option connection) (msg : DBusMessage)
    (args : list message_arg) : Prop := {
  accepts_type : rule_message_type x ≠ DBUS_MESSAGE_TYPE_INVALID → message_type msg = rule_message_type x;
  accepts_interface : name_accepts (rule_interface x) (message_interface msg);
  accepts_member : name_accepts (rule_member x) (message_member msg);
  accepts_sender : peer_accepts (rule_sender x) sender;
  accepts_destination : is_Some (rule_destination x) → is_Some (message_destination msg);
  accepts_addressed : peer_accepts (rule_destination x) addressed;
  accepts_path : name_accepts (rule_path x) (message_path msg);
  accepts_args i e : rule_args x !! i = Some e → arg_accepts e (args !! i)
}.

(** The patterns for paths have a last byte. *)
Definition sane (x : BusMatchRule) : Prop := ∀ e, Some (e, true) ∈ rule_args x → e ≠ [].

(** The test [o] returns, and answers [P]. *)
Definition tests (o : option bool) (P : Prop) : Prop := ∃ b, o = Some b ∧ (b = true ↔ P).

Lemma tests_and x y P Q : tests x P → tests y Q → tests (and_then x y) (P ∧ Q).
Proof.
  intros (b & -> & Hb) (c & -> & Hc). destruct b; simpl; [exists c|exists false]; naive_solver.
Qed.

Lemma tests_bool b P : (b = true ↔ P) → tests (Some b) P.
Proof. intros. by exists b. Qed.

Lemma tests_iff o P Q : tests o P → (P ↔ Q) → tests o Q.
Proof. intros (b & -> & Hb) HPQ. exists b. naive_solver. Qed.

Lemma last_byte s : s ≠ [] → list.last s = Some (byte_at s (length s - 1)).
Proof.
  destruct s as [|c s] using rev_ind; [done|]. intros _. rewrite last_snoc, length_app. unfold byte_at. simpl.
  rewrite app_nth2 by lia. by replace (length s + 1 - 1 - length s)%nat with 0%nat by lia.
Qed.

Lemma prefix_take_iff (a b : bytes) : a = take (length a) b ↔ a `prefix_of` b.
Proof. split; [intros ->; apply prefix_take|intros [k ->]; by rewrite take_app_length]. Qed.

(** The text [a] is shorter than [b]. *)
Lemma shorter_accepts a b :
  (length a < length b)%nat →
  (list.last a = Some ("/" : byte) ∧ a = take (length a) b) ↔
  (a = b ∨ (list.last a = Some ("/" : byte) ∧ a `prefix_of` b) ∨ (list.last b = Some ("/" : byte) ∧ b `prefix_of` a)).
Proof.
  intros Hl. rewrite prefix_take_iff. split; [tauto|]. intros [->|[?|[_ Hp%prefix_length]]]; [lia|done|lia].
Qed.

Lemma slash_end a : a ≠ [] → (byte_at a (length a - 1) =b "/") = bool_decide (list.last a = Some ("/" : byte)).
Proof.
  intros Ha. rewrite (last_byte _ Ha). apply eq_true_iff_eq. 
  rewrite byte_eqb_eq, bool_decide_eq_true. split; congruence.
Qed.

Lemma path_tests actual expected :
  expected ≠ [] → tests (path_arg_matches actual expected) (path_accepts expected actual).
Proof.
  intros Hne. unfold path_arg_matches, path_accepts. cbv zeta.
  assert (length expected ≠ 0%nat) as Hl by by destruct expected.
  destruct (length actual <? length expected)%nat eqn:E1; [|destruct (length expected <? length actual)%nat eqn:E2].
  - apply Nat.ltb_lt in E1. rewrite (proj2 (Nat.ltb_ge (length expected) (length actual))) by lia. cbn [andb].
    eapply tests_iff; [|apply shorter_accepts; lia]. rewrite Nat.min_l, take_ge by lia.
    destruct actual as [|c a].
    { apply tests_bool. split; [done|]. by intros [? _]. }
    assert (byte_at (x00 :: c :: a) (length (c :: a)) = byte_at (c :: a) (length (c :: a) - 1)) as ->.
    { unfold byte_at. simpl length. by rewrite Nat.sub_1_r. }
    rewrite slash_end by done. case_bool_decide; cbn [negb]; apply tests_bool; rewrite ?bool_decide_eq_true; naive_solver.
  - apply Nat.ltb_lt in E2. rewrite (proj2 (Nat.eqb_neq _ _)) by done. cbn [andb].
    rewrite slash_end, Nat.min_r, (take_ge expected) by (done || lia).
    eapply (tests_iff _ (list.last expected = Some ("/" : byte) ∧ expected = take (length expected) actual)).
    + case_bool_decide; cbn [negb]; apply tests_bool; rewrite ?bool_decide_eq_true; naive_solver.
    + rewrite shorter_accepts by lia. naive_solver.
  - apply Nat.ltb_ge in E1, E2. cbn [andb]. rewrite Nat.min_l, !take_ge by lia.
    apply tests_bool. rewrite bool_decide_eq_true. split; [by left|].
    intros [?|[[_ Hp]|[_ Hp]]]; [done|..].
    + eapply prefix_length_eq; [done|lia].
    + symmetry. eapply prefix_length_eq; [done|lia].
Qed.

Lemma accepts_cons o l args :
  (arg_accepts o (args !! 0%nat) ∧ ∀ i e, l !! i = Some e → arg_accepts e (tail args !! i)) ↔
  (∀ i e, (o :: l) !! i = Some e → arg_accepts e (args !! i)).
Proof.
  assert (∀ i, tail args !! i = args !! S i) as E by (destruct args; by intros [|i]).
  split.
  - intros [H0 Hi] [|i] e He; [by injection He as <-|]. rewrite <-E. by apply Hi.
  - intros Hi. split; [by apply (Hi 0%nat)|]. intros i e He. rewrite E. by apply (Hi (S i)).
Qed.

Lemma arg_tests e (is_path : bool) a :
  (is_path = true → e ≠ []) →
  tests (if is_path then path_arg_matches a e else Some (bool_decide (e = a)))
    (arg_accepts (Some (e, is_path)) (Some (StringArg a))).
Proof.
  intros Hs. destruct is_path.
  - eapply tests_iff; [by apply path_tests, Hs|]. simpl. naive_solver.
  - apply tests_bool. rewrite bool_decide_eq_true. simpl. naive_solver.
Qed.

Lemma args_tests expected args :
  (∀ e, Some (e, true) ∈ expected → e ≠ []) →
  tests (args_match expected args) (∀ i e, expected !! i = Some e → arg_accepts e (args !! i)).
Proof.
  revert args. induction expected as [|o l IH]; intros args Hs.
  { by apply tests_bool. }
  assert (∀ args', tests (args_match l args') (∀ i e, l !! i = Some e → arg_accepts e (args' !! i))) as IH'.
  { intros args'. apply IH. intros e He. apply Hs. by apply list_elem_of_further. }
  eapply tests_iff; [|apply accepts_cons].
  destruct o as [[e is_path]|]; cbn [args_match].
  - destruct args as [|[a|] args]; try (apply tests_bool; split; [done|]; by intros [(? & ? & ?) _]).
    assert (tests (if is_path then path_arg_matches a e else Some (bool_decide (e = a)))
              (arg_accepts (Some (e, is_path)) (Some (StringArg a)))) as (b & -> & Hb).
    { apply arg_tests. intros ->. apply Hs, list_elem_of_here. }
    destruct b; simpl; [|apply tests_bool; naive_solver].
    eapply tests_iff; [apply IH'|]. naive_solver.
  - eapply tests_iff; [apply IH'|]. simpl. tauto.
Qed.

Lemma flag_tests x f a b :
  has_flag x f = bool_decide (is_Some a) → tests (flag_matches x f a b) (name_accepts a b).
Proof.
  unfold flag_matches, name_accepts. intros ->. destruct a as [s|]; simpl; apply tests_bool; [|done].
  rewrite bool_decide_eq_true. naive_solver.
Qed.

Lemma peer_tests s c : tests (peer_matches (Some s) c) (peer_accepts (Some s) c).
Proof.
  unfold peer_matches, peer_accepts, connection_is_primary_owner. apply tests_bool.
  destruct c; rewrite bool_decide_eq_true; naive_solver.
Qed.

(** The test of the matchmaker is what the rule says. *)
Lemma matches_tests x sender addressed msg args :
  wf_rule x → sane x →
  tests (match_rule_matches x sender addressed msg args) (accepts x sender addressed msg args).
Proof.
  intros Hx Hs. unfold match_rule_matches.
  eapply tests_iff; [repeat (eapply tests_and)|].
  - rewrite (wf_type _ Hx). instantiate (1 := rule_message_type x ≠ DBUS_MESSAGE_TYPE_INVALID → message_type msg = rule_message_type x).
    destruct (rule_message_type x =? DBUS_MESSAGE_TYPE_INVALID) eqn:E; cbn [negb]; apply tests_bool;
      [apply Z.eqb_eq in E|apply Z.eqb_neq in E; rewrite Z.eqb_eq]; naive_solver.
  - apply flag_tests, Hx.
  - apply flag_tests, Hx.
  - instantiate (1 := peer_accepts (rule_sender x) sender). rewrite (wf_sender _ Hx).
    destruct (rule_sender x); simpl; [apply peer_tests|by apply tests_bool].
  - instantiate (1 := (is_Some (rule_destination x) → is_Some (message_destination msg)) ∧
      peer_accepts (rule_destination x) addressed).
    rewrite (wf_destination _ Hx). destruct (rule_destination x) as [d|]; simpl; [|by apply tests_bool].
    case_decide as Ed.
    + apply tests_bool. rewrite Ed. split; [done|]. intros [Hd _]. by destruct Hd.
    + eapply tests_iff; [apply peer_tests|]. destruct (message_destination msg); [|done]. naive_solver.
  - apply flag_tests, Hx.
  - instantiate (1 := ∀ i e, rule_args x !! i = Some e → arg_accepts e (args !! i)).
    rewrite (wf_args _ Hx). case_bool_decide as E; cbn [negb]; [rewrite E; by apply tests_bool|by apply args_tests].
  - split; [intros (? & ? & ? & ? & [? ?] & ? & ?); by split|intros []; auto 10].
Qed.

(** [P] are the connections with the current stamp. *)
Definition marked (P : connection → Prop) (k : matchmaker) : Prop :=
  ∀ c d, conns k !! c = Some d → stamp d = current_stamp k ↔ P c.

(** Stamps do not concern the rules. *)
Lemma mark_mrep D V h k c d :
  mrep D V h k → conns k !! c = Some d →
  mrep D V h (with_conns (insert c (MatchData (match_rules d) (n_match_rules d) (current_stamp k))) k).
Proof.
  intros Hk Hd. pose proof (dom_replace _ _ _ _ _ _ (MatchData (match_rules d) (n_match_rules d) (current_stamp k)) Hk Hd).
  destruct (mr_conns _ _ _ _ Hk _ _ Hd) as (E1 & E2 & E3). destruct Hk as [Ha Hnd Hr Hco Hc Hdom Hn Hw].
  split; try done. cbn. intros c' d'. destruct (decide (c = c')) as [<-|Hne].
  - rewrite lookup_insert_eq. by intros [= <-].
  - rewrite lookup_insert_ne by done. apply Hc.
Qed.

Lemma mark_stamp_rule D V h P c F :
  c ∈ D →
  triple False (λ k, mrep D V h k ∧ marked P k) (bus_connection_mark_stamp c)
    (λ new k, (if (new : bool) then ¬ P c else P c) ∧ mrep D V h k ∧ marked (λ c', P c' ∨ c' = c) k) F.
Proof.
  intros Hc. apply triple_at. intros k [Hk Hm]. unfold bus_connection_mark_stamp.
  apply triple_gets. intros ? ->. eapply get_conn_rule; [done..|]. intros d Hd.
  specialize (Hm c d Hd) as Hmc. destruct (stamp d =? current_stamp k) eqn:E.
  { apply Z.eqb_eq in E. apply triple_ret. intros s ->. split; [by apply Hmc|]. split; [done|].
    intros c' d' Hd'. rewrite (Hm _ _ Hd'). naive_solver. }
  apply Z.eqb_neq in E. eapply triple_bind; [eapply triple_modify with (Q := λ s, s = _); by intros s ->|].
  intros []; cbv beta. apply triple_ret. intros s ->. split; [tauto|]. split; [by apply mark_mrep|].
  intros c' d'. cbn. destruct (decide (c = c')) as [<-|Hne].
  - rewrite lookup_insert_eq. intros [= <-]. cbn. tauto.
  - rewrite lookup_insert_ne by done. intros Hd'. rewrite (Hm _ _ Hd'). naive_solver.
Qed.

Lemma marked_iff P Q k : (∀ c, P c ↔ Q c) → marked P k → marked Q k.
Proof. intros HPQ Hm c d Hd. rewrite <-HPQ. by apply Hm. Qed.

(** The recipients [res] that the rules [W] add to [l]. *)
Definition recipients_of (W : list ruled) (sender addressed : option connection) (msg : DBusMessage)
    (args : list message_arg) (l res : list connection) : Prop :=
  ∃ l', res = l ++ l' ∧ l' `sublist_of` (matches_go_to <$> W.*2) ∧ NoDup res ∧
    ∀ c, c ∈ res ↔ c ∈ l ∨ addressed ≠ Some c ∧ ∃ r x, (r, x) ∈ W ∧ matches_go_to x = c ∧ accepts x sender addressed msg args.

Lemma recipients_skip r x W sender addressed msg args l res :
  (¬ accepts x sender addressed msg args ∨ matches_go_to x ∈ l ∨ addressed = Some (matches_go_to x)) →
  recipients_of W sender addressed msg args l res → recipients_of ((r, x) :: W) sender addressed msg args l res.
Proof.
  intros Hx (l' & -> & Hsub & Hnd & Hin). exists l'. split; [done|]. split; [by apply sublist_cons|]. split; [done|].
  intros c. rewrite Hin. setoid_rewrite list.elem_of_cons. naive_solver.
Qed.

Lemma recipients_more r x W sender addressed msg args l res :
  accepts x sender addressed msg args → addressed ≠ Some (matches_go_to x) →
  recipients_of W sender addressed msg args (l ++ [matches_go_to x]) res →
  recipients_of ((r, x) :: W) sender addressed msg args l res.
Proof.
  intros Hx Ha (l' & -> & Hsub & Hnd & Hin). exists (matches_go_to x :: l').
  split; [by rewrite <-app_assoc|]. split; [by apply sublist_skip|]. split; [done|].
  intros c. rewrite Hin, list.elem_of_app, list_elem_of_singleton. setoid_rewrite list.elem_of_cons. naive_solver.
Qed.

Lemma recipients_rule D V h W sender addressed msg args l :
  (∀ p, p ∈ W → p ∈ V ∧ sane p.2) → NoDup l →
  triple False (λ k, mrep D V h k ∧ marked (λ c, c ∈ l ∨ addressed = Some c) k)
    (recipients_loop W.*1 sender addressed msg args l)
    (λ res k, mrep D V h k ∧ recipients_of W sender addressed msg args l res) (mrep D V h).
Proof.
  revert l. induction W as [|[r x] W IH]; intros l HW Hl.
  { apply triple_ret. intros k [Hk _]. split; [done|]. exists []. rewrite app_nil_r.
    split; [done|]. split; [apply sublist_nil|]. split; [done|]. set_solver. }
  cbn [fmap list_fmap recipients_loop fst]. apply triple_at. intros k [Hk Hm].
  destruct (HW _ (list_elem_of_here _ _)) as [HxV Hs]. simpl in Hs.
  assert (∀ p, p ∈ W → p ∈ V ∧ sane p.2) as HW' by (intros p Hp; by apply HW, list_elem_of_further).
  assert ((r, x) ∈ h ++ V) as Hin by set_solver.
  eapply get_rule_rule; [done..|]. intros n _. cbv iota beta.
  destruct (matches_tests x sender addressed msg args (mr_wf _ _ _ _ Hk _ _ Hin) Hs) as (b & -> & Hb).
  apply triple_checked; [done|]. intros _ [= <-]. destruct b.
  - eapply triple_bind; [eapply triple_pre; [apply (mark_stamp_rule D V h); by eapply mr_known|by intros s ->]|].
    intros [|]; cbv beta iota; apply triple_pure; intros Hnew.
    + eapply triple_bind; [eapply triple_failure; [apply triple_request|by intros s [? _]]|]. intros []; cbv beta.
      eapply triple_result; [eapply triple_pre; [apply (IH (l ++ [matches_go_to x])); [done|]|]| |done].
      * apply list.NoDup_app. split; [done|]. split; [set_solver|apply list.NoDup_singleton].
      * intros s [? Hms]. split; [done|]. eapply marked_iff; [|exact Hms]. set_solver.
      * intros res s [? ?]. split; [done|]. apply recipients_more; [naive_solver..|done].
    + eapply triple_result; [eapply triple_pre; [apply (IH l HW' Hl)|]| |done].
      * intros s [? Hms]. split; [done|]. eapply marked_iff; [|exact Hms]. naive_solver.
      * intros res s [? ?]. split; [done|]. apply recipients_skip; [naive_solver|done].
  - eapply triple_result; [eapply triple_pre; [apply (IH l HW' Hl)|by intros s ->]| |done].
    intros res s [? ?]. split; [done|]. apply recipients_skip; [naive_solver|done].
Qed.

Lemma recipients_honest l sender addressed msg args res :
  honest False (recipients_loop l sender addressed msg args res).
Proof.
  revert res. induction l as [|r l IH]; intros res; cbn [recipients_loop];
    unfold bus_connection_mark_stamp, get_conn, get_rule; honest_step.
Qed.

(** A new stamp is on no connection. *)
Lemma increment_rule D V h F :
  triple False (λ k, mrep D V h k ∧ current_stamp k + 1 < 2 ^ 31) bus_connections_increment_stamp
    (λ _ k, mrep D V h k ∧ marked (λ _, False) k) F.
Proof.
  apply triple_gets. intros k [Hk Hs]. unfold int_succ. rewrite (proj2 (Z.ltb_lt _ _)) by done.
  apply triple_modify. intros k1 ->. split.
  - destruct Hk as [Ha Hnd Hr Hco Hc Hdom Hn Hw]. split; try done. cbn. intros c d Hd.
    destruct (Hc c d Hd) as (? & ? & ?). split; [done|]. split; [done|lia].
  - intros c d Hd. cbn in *. destruct (mr_conns _ _ _ _ Hk _ _ Hd) as (_ & _ & ?). split; [lia|done].
Qed.

Lemma get_recipients_rule D V sender addressed msg args :
  (∀ r x, (r, x) ∈ V → sane x) → (∀ c, addressed = Some c → c ∈ D) →
  triple False (λ k, mrep D V [] k ∧ current_stamp k + 1 < 2 ^ 31)
    (bus_matchmaker_get_recipients sender addressed msg args)
    (λ res k, mrep D V [] k ∧ recipients_of V sender addressed msg args [] res) (mrep D V []).
Proof.
  intros Hs Hc. eapply triple_bind; [apply increment_rule|]. intros []; cbv beta.
  eapply triple_bind with (Q := λ _ k, mrep D V [] k ∧ marked (λ c, c ∈ [] ∨ addressed = Some c) k).
  - destruct addressed as [c|].
    + eapply triple_bind; [apply mark_stamp_rule; by apply Hc|]. intros b; cbv beta. apply triple_ret.
      intros k (_ & ? & Hm). split; [done|]. eapply marked_iff; [|exact Hm]. set_solver.
    + apply triple_ret. intros k [? Hm]. split; [done|]. eapply marked_iff; [|exact Hm]. set_solver.
  - intros []; cbv beta. apply triple_gets. intros k [Hk Hm]. rewrite (mr_all _ _ _ _ Hk).
    eapply triple_pre; [apply recipients_rule|by intros s ->]; [|apply base.NoDup_nil_2].
    intros [r x] Hp. split; [done|by apply (Hs r)].
Qed.

(** C28: For rules whose patterns for paths are not empty, and as long as the stamp of the
    connections does not overflow (it is an [int], incremented by each message): the recipients of a message, next
    to the addressed one, are exactly the connections with a rule that accepts the
    message, each once and in the order of their rules; finding them may fail for lack of
    memory only, and leaves the rules as they are. *)
Theorem recipients_exact D V k m sender addressed msg args :
  mrep D V [] k → current_stamp k + 1 < 2 ^ 31 →
  (∀ r x, (r, x) ∈ V → sane x) → (∀ c, addressed = Some c → c ∈ D) →
  match bus_matchmaker_get_recipients sender addressed msg args k m with
  | Ok res k' _ =>
      mrep D V [] k' ∧ res `sublist_of` (matches_go_to <$> V.*2) ∧ NoDup res ∧
      ∀ c, c ∈ res ↔ addressed ≠ Some c ∧
        ∃ r x, (r, x) ∈ V ∧ matches_go_to x = c ∧ accepts x sender addressed msg args
  | Failed k' _ => mrep D V [] k' ∧ may_fail m
  | Ub => False
  end.
Proof.
  intros Hk Hst Hs Hc.
  pose proof (get_recipients_rule D V sender addressed msg args Hs Hc k m (conj Hk Hst)) as Ht.
  assert (honest False (bus_matchmaker_get_recipients sender addressed msg args)) as Hh.
  { pose proof recipients_honest. unfold bus_matchmaker_get_recipients, bus_connections_increment_stamp,
      bus_connection_mark_stamp, get_conn. honest_step. }
  specialize (Hh k m). destruct (bus_matchmaker_get_recipients sender addressed msg args k m); [|tauto|done].
  destruct Ht as (? & l' & -> & Hsub & Hnd & Hin). split; [done|]. split; [done|]. split; [done|].
  intros c. rewrite Hin. set_solver.
Qed.

End recipients.

(** ** Texts and tokens *)

(** With memory, [c] returns [v] and sets no error. *)
Definition gives {A} (c : EM A) (v : A) : Prop :=
  ∀ m, ¬ may_fail m → ∃ m', c None m = Ok v None m' ∧ ¬ may_fail m'.

Lemma gives_ret {A} (v : A) : gives (mret v) v.
Proof. intros m Hm. by exists m. Qed.

Lemma gives_bind {A B} (c : EM A) (k : A → EM B) v w : gives c v → gives (k v) w → gives (c ≫= k) w.
Proof.
  intros Hc Hk m Hm. destruct (Hc m Hm) as (m1 & E & Hm1). unfold mbind, M_bind. rewrite E. by apply Hk.
Qed.

Lemma gives_requests n : gives (or_nomem (requests n)) tt.
Proof.
  intros m Hm. destruct (hoare_runs _ _ _ _ (requests_rule no_error n False) None m eq_refl Hm) as ([] & s & m' & E & Hs & Hm').
  unfold or_nomem, on_failure. rewrite E. cbv beta in Hs. subst s. by exists m'.
Qed.

Lemma gives_request : gives (or_nomem request) tt.
Proof.
  intros m Hm. unfold or_nomem, on_failure, request. pose proof (alloc_honest m) as H.
  destruct (alloc m) as [[] m']; [exists m'; naive_solver|]. destruct H as [_ H]. destruct Hm. by apply H.
Qed.

(** A value in quotes; a quote in it is written behind the closing quote. *)
Definition quote_byte (c : byte) : bytes := if c =b "'" then lit "'\''" else [c].
Definition quoted (v : bytes) : bytes := ("'" : byte) :: (v ≫= quote_byte) ++ [("'" : byte)].

Definition token_text (t : bytes * bytes) : bytes := t.1 ++ ("=" : byte) :: quoted t.2.

Fixpoint rule_text (l : list (bytes * bytes)) : bytes :=
  match l with
  | [] => []
  | [t] => token_text t
  | t :: l' => token_text t ++ ("," : byte) :: rule_text l'
  end.

(** Keys have neither equals signs nor blanks. *)
Definition key_ok (key : bytes) : Prop :=
  key ≠ [] ∧ forallb (λ c, negb (c =b "=") && negb (ISWHITE c)) key = true.

Definition no_nul (s : bytes) : bool := forallb (λ c, negb (c =b x00)) s.

Lemma c_str_all s : no_nul s = true → c_str s = s.
Proof.
  intros Hs. unfold c_str. rewrite <- (app_nil_r s) at 1. rewrite run_of_app by done. simpl.
  by rewrite Nat.add_0_r, firstn_all.
Qed.

Lemma text_no_nul_app a b : no_nul (a ++ b) = no_nul a && no_nul b.
Proof. apply forallb_app. Qed.

Lemma no_nul_drop n s : no_nul s = true → no_nul (drop n s) = true.
Proof. rewrite <- (take_drop n s) at 1. rewrite text_no_nul_app. by intros [_ ?]%andb_true_iff. Qed.

Lemma no_nul_quoted v : no_nul v = true → no_nul (quoted v) = true.
Proof.
  intros Hv. unfold quoted. change (no_nul (?a :: ?b)) with (no_nul b). rewrite text_no_nul_app, andb_true_r.
  induction v as [|c v IH]; [done|]. simpl in Hv |- *. apply andb_true_iff in Hv as [Hc Hv].
  rewrite text_no_nul_app. fold (mbind (M := list) quote_byte v). rewrite IH by done. rewrite andb_true_r. unfold quote_byte. case_if; [done|]. simpl.
  by rewrite Hc.
Qed.

Lemma no_nul_text l :
  Forall (λ t, no_nul t.1 = true ∧ no_nul t.2 = true) l → no_nul (rule_text l) = true.
Proof.
  induction 1 as [|[key v] l [Hk Hv] _ IH]; [done|]. simpl in Hk, Hv.
  assert (no_nul (token_text (key, v)) = true) as Ht.
  { unfold token_text. simpl. rewrite text_no_nul_app, Hk. by apply no_nul_quoted. }
  destruct l as [|t l]; [exact Ht|]. simpl rule_text in *. rewrite text_no_nul_app, Ht. exact IH.
Qed.

Lemma find_key_token text start key rest :
  no_nul text = true → key_ok key → drop start text = key ++ ("=" : byte) :: rest →
  gives (find_key text start) (key, start + length key + 1)%nat.
Proof.
  intros Hnul [Hne Hk] E. unfold find_key. rewrite c_str_all, E by by apply no_nul_drop. cbv zeta.
  assert (run_of ISWHITE (key ++ ("=" : byte) :: rest) = 0%nat) as ->.
  { destruct key as [|c key]; [done|]. simpl in Hk |- *. bool_prop. by rewrite H1. }
  rewrite drop_0, run_of_stop by done. simpl (0 + _)%nat. rewrite drop_app_length. simpl (run_of _ _).
  rewrite (proj2 (Nat.eqb_neq _ _)) by by destruct key.
  rewrite Nat.add_0_r. unfold byte_at at 1. rewrite nth_middle, byte_eqb_refl. cbn [negb].
  eapply gives_bind; [apply gives_request|]. unfold sub. rewrite drop_0, take_app_length.
  replace (start + 0 + length key + 0 + 1)%nat with (start + length key + 1)%nat by lia. apply gives_ret.
Qed.

Lemma value_loop_step p acc c n v :
  gives (value_loop p Apostrophe (acc ++ [c]) (n + length (quote_byte c))) v →
  gives (value_loop (quote_byte c ++ p) Apostrophe acc n) v.
Proof.
  unfold quote_byte. destruct (c =b "'") eqn:E; intros Hv.
  - apply byte_eqb_eq in E as ->. cbn [lit app]. simpl. byte_tests. cbv iota.
    eapply gives_bind; [apply (gives_requests 1)|]. byte_tests. cbv iota.
    by replace (S (S (S (S n)))) with (n + 4)%nat by lia.
  - simpl. rewrite E. eapply gives_bind; [apply gives_request|]. by replace (S n) with (n + 1)%nat by lia.
Qed.

Lemma value_loop_quoted v p acc n w :
  gives (value_loop p Apostrophe (acc ++ v) (n + length (v ≫= quote_byte))) w →
  gives (value_loop ((v ≫= quote_byte) ++ p) Apostrophe acc n) w.
Proof.
  revert acc n. induction v as [|c v IH]; intros acc n Hw; simpl in *.
  { by rewrite app_nil_r, Nat.add_0_r in Hw. }
  rewrite <-app_assoc. apply value_loop_step, IH. rewrite <-app_assoc.
  by rewrite length_app, Nat.add_assoc in Hw.
Qed.

Lemma find_value_quoted text start v rest :
  no_nul text = true → drop start text = quoted v ++ rest → rest = [] ∨ (∃ r, rest = ("," : byte) :: r) →
  gives (find_value text start) (v, start + length (quoted v) + (if rest then 0 else 1))%nat.
Proof.
  intros Hnul E Hr. unfold find_value. rewrite c_str_all, E by by apply no_nul_drop.
  eapply gives_bind with (v := (NoQuote, v, length (quoted v) + (if rest then 0 else 1))%nat).
  - unfold quoted. rewrite <-app_comm_cons, <-app_assoc. simpl. byte_tests. cbv iota. apply value_loop_quoted.
    simpl. byte_tests. cbv iota. destruct Hr as [->|[r ->]]; simpl; byte_tests; cbv iota.
    all: rewrite length_app; simpl; match goal with |- gives (mret (_, _, ?a)) (_, _, ?b) => replace a with b by lia end.
    all: apply gives_ret.
  - rewrite <-Nat.add_assoc. apply gives_ret.
Qed.

(** What follows a token. *)
Lemma rule_text_cons t l :
  rule_text (t :: l) = token_text t ++ match l with [] => [] | _ => ("," : byte) :: rule_text l end.
Proof. destruct l; [by rewrite app_nil_r|done]. Qed.

Lemma drop_pos (text : bytes) pos a b : drop pos text = a ++ b → drop (pos + length a) text = b.
Proof. intros E. by rewrite <-drop_drop, E, drop_app_length. Qed.

Lemma tokenize_text l fuel text pos :
  no_nul text = true → (length l <= fuel)%nat → Forall (λ t, key_ok t.1) l → (pos <= length text)%nat → drop pos text = rule_text l →
  gives (tokenize_loop fuel text pos) (Some <$> l).
Proof.
  intros Hnul. revert fuel pos. induction l as [|[key v] l IH]; intros fuel pos Hf Hk Hpos E.
  { assert (pos = length text) as ->.
    { apply (f_equal length) in E. rewrite length_drop in E. simpl in E. lia. }
    destruct fuel; simpl; [apply gives_ret|]. rewrite Nat.ltb_irrefl. apply gives_ret. }
  apply list.Forall_cons in Hk as [Hk1 Hk2]. simpl in Hk1. destruct fuel as [|fuel]; simpl in Hf; [lia|].
  rewrite rule_text_cons in E. unfold token_text in E. simpl in E. rewrite <-app_assoc, <-app_comm_cons in E.
  set (rest := match l with [] => [] | _ => _ end) in E.
  assert (length text - pos = length key + S (length (quoted v) + length rest))%nat as Hlen.
  { apply (f_equal length) in E. by rewrite length_drop, length_app, length_cons, length_app in E. }
  assert (pos < length text)%nat as Hlt by lia.
  cbn [tokenize_loop]. rewrite (proj2 (Nat.ltb_lt _ _) Hlt).
  eapply gives_bind; [by eapply find_key_token|]. cbv beta iota.
  rewrite (proj2 (Nat.eqb_neq (length key) 0)) by (destruct Hk1 as [? _]; by destruct key).
  eapply gives_bind; [apply gives_request|]. cbv beta.
  assert (drop (pos + length key + 1) text = quoted v ++ rest) as E1.
  { rewrite <-Nat.add_assoc. change (length key + 1)%nat with (length key + length [("=" : byte)])%nat.
    rewrite <-length_app. apply drop_pos. rewrite E, <-app_assoc. done. }
  eapply gives_bind; [apply (find_value_quoted _ _ _ rest Hnul E1); destruct l; [by left|right; by eexists]|].
  cbv beta iota. eapply gives_bind; [apply gives_request|]. cbv beta.
  eapply gives_bind; [|apply gives_ret]. apply drop_pos in E1. apply IH; [lia|done|..].
  - clear -Hlen Hpos. clearbody rest. destruct rest; cbn [length] in Hlen; generalize dependent (length (quoted v)); lia.
  - destruct l; simpl in E1 |- *; [by rewrite Nat.add_0_r|].
    change [] with (@nil byte). by rewrite <-drop_drop, E1.
Qed.

(** The tokens of a text, and what becomes of them. *)
Lemma parse_tokenized c text l m :
  ¬ may_fail m → (length text <= DBUS_MAXIMUM_MATCH_RULE_LENGTH)%nat →
  gives (tokenize_loop MAX_RULE_TOKENS text 0) l →
  ∃ m', ¬ may_fail m' ∧
    bus_match_rule_parse c text None m = parse_tokens (MatchRule c 0 0 None None None None None []) l None m'.
Proof.
  intros Hm Hlen Hl. unfold bus_match_rule_parse. unfold mbind at 1, M_bind at 1. cbn [gets].
  unfold mbind at 1, M_bind at 1. cbn. rewrite (proj2 (Nat.ltb_ge _ _) Hlen).
  unfold bus_match_rule_new.
  destruct (gives_request m Hm) as (m1 & E1 & Hm1). destruct (gives_requests 2 m1 Hm1) as (m2 & E2 & Hm2).
  destruct (Hl m2 Hm2) as (m3 & E3 & Hm3).
  exists m3. split; [done|]. unfold mbind, M_bind. rewrite E1. cbn -[tokenize_rule].
  unfold tokenize_rule, mbind, M_bind. rewrite E2. by rewrite E3.
Qed.

(** C30: The parser reads a text back, whatever bytes but nul are in the values: for at most
    16 tokens and 1024 bytes, keys that are not empty and have neither equals signs nor
    blanks, and with memory for it, the rule is what the setters make of the tokens that
    were written. *)
Theorem parse_reads_text c l m :
  ¬ may_fail m → (length l <= MAX_RULE_TOKENS)%nat → Forall (λ t, key_ok t.1) l →
  Forall (λ t, no_nul t.1 = true ∧ no_nul t.2 = true) l →
  (length (rule_text l) <= DBUS_MAXIMUM_MATCH_RULE_LENGTH)%nat →
  ∃ m', ¬ may_fail m' ∧
    bus_match_rule_parse c (rule_text l) None m =
      parse_tokens (MatchRule c 0 0 None None None None None []) (Some <$> l) None m'.
Proof.
  intros Hm Hl Hk Hn Hlen. apply parse_tokenized; [done..|].
  apply tokenize_text; [by apply no_nul_text|done..|lia|done].
Qed.

Lemma parse_reads_text_witness :
  ∃ m', ¬ may_fail m' ∧
    bus_match_rule_parse 1 (lit "type='signal',arg0='it'\''s'") None plenty =
      parse_tokens (MatchRule 1 0 0 None None None None None [])
        [Some (lit "type", lit "signal"); Some (lit "arg0", lit "it's")] None m'.
Proof.
  apply (parse_reads_text 1 [(lit "type", lit "signal"); (lit "arg0", lit "it's")] plenty).
  - apply not_elem_of_nil.
  - unfold MAX_RULE_TOKENS. simpl. lia.
  - repeat constructor; done.
  - repeat constructor.
  - vm_compute. lia.
Defined.

(** ** Rules that are accepted *)

(** Connections 1 and 2; 1 asked for signals. *)
Definition for_signals : BusMatchRule := MatchRule 1 1 4 None None None None None [].
Definition some_matchmaker : matchmaker :=
  Matchmaker {[0%nat := (1%nat, for_signals)]} [0%nat]
    (<[1%nat := MatchData [0%nat] 1 0]> {[2%nat := MatchData [] 0 0]}) 0.

Lemma some_matchmaker_mrep : mrep {[1%nat; 2%nat]} [(0%nat, for_signals)] [] some_matchmaker.
Proof.
  split; try done.
  - apply list.NoDup_singleton.
  - by intros r x y [= -> ->]%list_elem_of_singleton [= ->]%list_elem_of_singleton.
  - intros c d. cbn. destruct (decide (c = 1%nat)) as [->|?]; [by intros [= <-]|].
    rewrite lookup_insert_ne by done. intros [<- <-]%lookup_singleton_Some. done.
  - intros r x [= -> ->]%list_elem_of_singleton. set_solver.
  - by intros r x [= -> ->]%list_elem_of_singleton.
Qed.

(** C29: The parser returns a rule for the connection whose flags tell which fields have
    values, with valid names and at most 64 arguments, or it sets an error; it does not
    go wrong on any text. *)
Theorem parse_returns_valid_rule c text m :
  match bus_match_rule_parse c text None m with
  | Ok x e _ => e = None ∧ valid_rule x ∧ matches_go_to x = c
  | Failed e _ => is_Some e
  | Ub => False
  end.
Proof. apply (parse_triple c text None m eq_refl). Qed.

Definition some_message : DBusMessage := Message 4 0 None None None None None None.

(** A rule with an empty pattern for a path is accepted; when a message has a string
    there, the byte in front of the pattern is read. *)
Theorem empty_path_pattern_reads_outside `{NameOwners} c sender addressed msg s :
  s ≠ [] →
  match bus_match_rule_parse c (lit "arg0path=''") None plenty with
  | Ok x None _ => match_rule_matches x sender addressed msg [StringArg s] = None
  | _ => False
  end.
Proof.
  intros Hs. replace (bus_match_rule_parse _ _ _ _)
    with (Ok (S := option match_error) (MatchRule c 64 0 None None None None None [Some ([], true)]) None plenty)
    by (vm_compute; done).
  unfold match_rule_matches. simpl. unfold path_arg_matches. destruct s as [|b s]; done.
Qed.

Lemma empty_path_pattern_reads_outside_witness :
  let owners := Build_NameOwners (λ _, None) in
  match bus_match_rule_parse 1 (lit "arg0path=''") None plenty with
  | Ok x None _ => match_rule_matches x None None some_message [StringArg (lit "/a")] = None
  | _ => False
  end.
Proof. intros owners. apply (empty_path_pattern_reads_outside 1 None None some_message (lit "/a")). done. Defined.

Lemma tokenize_no_key fuel text :
  gives (tokenize_loop fuel (("=" : byte) :: text) 0) (replicate fuel None).
Proof.
  induction fuel as [|fuel IH]; [apply gives_ret|]. cbn [tokenize_loop]. simpl (0 <? _)%nat.
  eapply gives_bind; [apply (gives_ret ([], 0%nat))|]. simpl. eapply gives_bind; [exact IH|]. apply gives_ret.
Qed.

(** A text that begins with an equals sign is accepted whatever follows, as a rule that
    every message matches. *)
Theorem text_without_key_matches_everything `{NameOwners} c m text sender addressed msg args :
  ¬ may_fail m → (length text < DBUS_MAXIMUM_MATCH_RULE_LENGTH)%nat →
  match bus_match_rule_parse c (("=" : byte) :: text) None m with
  | Ok x None _ => match_rule_matches x sender addressed msg args = Some true
  | _ => False
  end.
Proof.
  intros Hm Hl. destruct (parse_tokenized c (("=" : byte) :: text) (replicate MAX_RULE_TOKENS None) m) as (m' & _ & ->);
    [done|simpl; lia|apply tokenize_no_key|done].
Qed.

Lemma text_without_key_matches_everything_witness :
  let owners := Build_NameOwners (λ _, None) in
  match bus_match_rule_parse 1 (lit "=type='signal',sender='com.example'") None plenty with
  | Ok x None _ => match_rule_matches x None None some_message [] = Some true
  | _ => False
  end.
Proof.
  intros owners.
  apply (text_without_key_matches_everything 1 plenty (lit "type='signal',sender='com.example'")).
  - apply not_elem_of_nil.
  - vm_compute. lia.
Defined.

Lemma matchmaker_refines_witness :
  match serve_match (RemoveMatch 1 (lit "type=signal")) some_matchmaker plenty with
  | Ok res k' _ => ∃ V', mrep {[1%nat; 2%nat]} V' [] k' ∧
      answers plenty (RemoveMatch 1 (lit "type=signal")) [for_signals] res V'.*2
  | _ => False
  end.
Proof. apply (matchmaker_refines _ [(0%nat, for_signals)]); [apply some_matchmaker_mrep|done]. Defined.

Lemma recipients_exact_witness :
  let owners := Build_NameOwners (λ _, None) in
  match bus_matchmaker_get_recipients None (Some 2%nat) some_message [] some_matchmaker plenty with
  | Ok res k' _ =>
      mrep {[1%nat; 2%nat]} [(0%nat, for_signals)] [] k' ∧ res `sublist_of` [1%nat] ∧ NoDup res ∧
      ∀ c, c ∈ res ↔ Some 2%nat ≠ Some c ∧
        ∃ r x, (r, x) ∈ [(0%nat, for_signals)] ∧ matches_go_to x = c ∧ accepts x None (Some 2%nat) some_message []
  | Failed k' _ => mrep {[1%nat; 2%nat]} [(0%nat, for_signals)] [] k' ∧ may_fail plenty
  | Ub => False
  end.
Proof.
  intros owners. apply (recipients_exact _ [(0%nat, for_signals)]); [apply some_matchmaker_mrep|done|..].
  - intros r x [= -> ->]%list_elem_of_singleton e He. by apply not_elem_of_nil in He.
  - intros c [= <-]. set_solver.
Defined.
