(* ===== verification/Values.v ===== *)
(** * Values: reading what was validated

    Shown here for readers of values ([Reader]): over the encoding of values ([Body]) the
    reader stops at every value, shows its type, reads it, enters it and moves behind
    it. *)

From S2P Require Import Prelude Search Names DString Text Types Signature MarshalBasic Reader Body.

(** ** Strings have no nul *)

Lemma no_nul_app a b : no_nul (a ++ b) = no_nul a && no_nul b.
Proof. apply forallb_app. Qed.

Lemma name_no_nul c : VALID_NAME_CHARACTER c = true → (c =b x00) = false.
Proof. by destruct c. Qed.

Lemma path_loop_no_nul p s last n : path_loop p s last = Some n → no_nul p = true.
Proof.
  revert s last. induction p as [|c p IH]; intros s last; [done|]. simpl. destruct (c =b "/") eqn:E.
  - apply byte_eqb_eq in E as ->. byte_tests. case_if; [done|]. apply IH.
  - destruct (VALID_NAME_CHARACTER c) eqn:Ec; simpl; [|done]. rewrite (name_no_nul _ Ec). apply IH.
Qed.

Lemma path_no_nul s : _dbus_validate_path s 0 (length s) = true → no_nul s = true.
Proof.
  unfold _dbus_validate_path. rewrite sub_all. do 2 (case_if; [done|]). unfold path_range.
  destruct s as [|c s]; [done|]. simpl. destruct (c =b "/") eqn:E; simpl; [|done].
  apply byte_eqb_eq in E as ->. byte_tests. destruct s as [|d s]; [done|].
  destruct (path_loop (d :: s) 1 0) eqn:Ep; [|done]. intros _. by eapply path_loop_no_nul.
Qed.

Lemma unichar_no_nul ch : char_allowed ch → no_nul (unichar_bytes ch) = true.
Proof.
  intros [[Hpos Hmax] _]. unfold no_nul. apply forallb_forall. intros c Hc. apply negb_true_iff, byte_eqb_neq.
  intros ->. apply (in_map b2z) in Hc. change (b2z x00) with 0 in Hc. revert Hc.
  destruct (UTF8_LENGTH_spec ch _ eq_refl) as [[E H]|[[E H]|[[E H]|[[E H]|[_ H]]]]]; [..|lia].
  - rewrite unichar_bytes_1 by lia. simpl. lia.
  - rewrite unichar_bytes_2 by lia. simpl. Z.div_mod_to_equations. lia.
  - rewrite unichar_bytes_3 by lia. simpl. Z.div_mod_to_equations. lia.
  - rewrite unichar_bytes_4 by lia. simpl. Z.div_mod_to_equations. lia.
Qed.

Lemma utf8_no_nul s : _dbus_string_validate_utf8 s 0 (length s) = true → no_nul s = true.
Proof.
  unfold _dbus_string_validate_utf8. case_if; [done|]. rewrite sub_all.
  intros (chs & HF & ->)%utf8_loop_sound. clear -HF.
  induction HF as [|ch chs Hch _ IH]; [done|]. simpl. by rewrite no_nul_app, unichar_no_nul.
Qed.

(** A value that fits the block is read as it is. *)
Lemma basic_value_ok c b :
  basic_ok c b = true → (∀ s, b = Str s → Z.of_nat (length s) < 2 ^ 31) →
  value_ok c b = true ∧ canonical c b = b.
Proof.
  unfold basic_ok, value_ok, canonical. destruct (kind_of c) as [[]|] eqn:Ek; try done; destruct b; try done.
  - rewrite orb_true_iff, !Z.eqb_eq. intros [-> | ->] _; done.
  - intros [Hl Hs]%andb_true_iff Hb. specialize (Hb _ eq_refl). split; [|done].
    apply andb_true_iff. split; [|lia]. destruct (c =b "o"); [by apply path_no_nul|by apply utf8_no_nul].
Qed.

(** ** Reading through the interface *)

(** Turns that are enough for the types and the values of a reader. *)
Definition reader_fuel (rd : DBusTypeReader) : nat := (length (type_str rd) + length (str (value_str rd)))%nat.

(** The values a client finds who asks the reader for the current type, reads or enters
    the value, and goes on to the next one until there is none. *)
Inductive reads `{Host} : DBusTypeReader → list val → Prop :=
| reads_end rd : _dbus_type_reader_get_current_type rd = Some DBUS_TYPE_INVALID → reads rd []
| reads_next rd c v vs rd' :
    _dbus_type_reader_get_current_type rd = Some c → c ≠ DBUS_TYPE_INVALID → reads_one rd c v →
    _dbus_type_reader_next (reader_fuel rd) rd = Some (bool_decide (vs ≠ []), rd') →
    reads rd' vs → reads rd (v :: vs)
with reads_one `{Host} : DBusTypeReader → byte → val → Prop :=
| one_basic rd c b :
    _dbus_type_reader_read_basic rd = Some b → c ≠ DBUS_TYPE_SIGNATURE → reads_one rd c (VBasic b)
| one_signature rd ts :
    _dbus_type_reader_read_basic rd = Some (Str (print_sig ts)) → reads_one rd DBUS_TYPE_SIGNATURE (VSignature ts)
| one_variant rd sub_ t v p :
    _dbus_type_reader_recurse rd = Some sub_ →
    _dbus_type_reader_get_signature sub_ = Some (p, length (print t)) →
    sub (type_str sub_) p (length (print t)) = print t →
    reads sub_ [v] → reads_one rd DBUS_TYPE_VARIANT (VVariant t v)
| one_array rd sub_ vs :
    _dbus_type_reader_recurse rd = Some sub_ → reads sub_ vs → reads_one rd DBUS_TYPE_ARRAY (VArray vs)
| one_raw rd sub_ bs element_type :
    let al := _dbus_type_get_alignment element_type in
    _dbus_type_reader_get_element_type rd = Some element_type →
    _dbus_type_reader_recurse rd = Some sub_ →
    ((length bs mod al)%nat = 0%nat →
       _dbus_type_reader_read_fixed_multi sub_ = Some (bs, length bs / al)%nat) →
    reads_one rd DBUS_TYPE_ARRAY (VRaw bs)
| one_struct rd sub_ c vs :
    c = DBUS_TYPE_STRUCT ∨ c = DBUS_TYPE_DICT_ENTRY →
    _dbus_type_reader_recurse rd = Some sub_ → reads sub_ vs → reads_one rd c (VStruct vs).

(** ** One value *)

Section values.
Context `{Host}.
Context (r : DBusRealString) (o : byte_order) (body : bytes).
Hypothesis Hr : is_str body r.

Abbreviation held := (holds (str r) (length body)).

Lemma block_room : (length body + 8 <= length (str r))%nat.
Proof. by apply is_str_block. Qed.

Lemma block_small : Z.of_nat (length body) < 2 ^ 31.
Proof.
  pose proof Hr as [(_ & Hl & Ha & _) _]. pose proof (is_str_length _ _ Hr).
  unfold zlen, allocated, _DBUS_STRING_MAX_MAX_LENGTH, _DBUS_STRING_ALLOCATION_PADDING in *. lia.
Qed.

Lemma held_split p bs : held p bs → body = take p body ++ bs ++ drop (p + length bs) body ∧ length (take p body) = p.
Proof.
  intros [E Hle]. split; [|rewrite length_take; lia].
  destruct (is_str_split _ _ Hr) as [q Hq].
  rewrite Hq in E. unfold sub in E. rewrite drop_app_le, take_app_le in E by (rewrite ?length_drop; lia).
  rewrite <-E at 1. by rewrite <-drop_drop, take_drop, take_drop.
Qed.

(** Lemmas of [Body] on this block. *)
Let array_inv := enc_array_inv o.
Let array_ends := array_end o.
Let held_app := holds_app (str r) (length body) block_room.
Let signature_parts := enc_signature_holds (str r) (length body) block_room.
Let nonempty := enc_nonempty o.

(** A reader of values in the block. *)
Abbreviation on kd fin off sig tp vp sp := (Reader kd false o fin off sig tp r vp sp).

Lemma current_type_value kd off pre t post vp sp key sd dd ar :
  kd ≠ KArray → within key sd dd ar t = true →
  _dbus_type_reader_get_current_type (on kd false off (pre ++ print t ++ post) (length pre) vp sp)
  = Some (typecode t).
Proof.
  intros Hk Hw. unfold _dbus_type_reader_get_current_type, check_finished. cbn [finished kind].
  rewrite bool_decide_false by done. cbn [andb type_str type_pos]. simpl mbind.
  rewrite (first_type_print pre t post _ _ _ _ Hw).
  by destruct (typecode_codes _ _ _ _ _ Hw) as (_ & -> & -> & -> & ->).
Qed.

(** Reading a basic value in the middle of the block. *)
Lemma read_value c b p :
  basic_ok c b = true → held p (wire o p c b) →
  _dbus_marshal_read_basic r p c o = Some (b, p + length (wire o p c b))%nat.
Proof.
  intros Hb Hh. destruct (held_split _ _ Hh) as [E Hp].
  destruct (basic_value_ok c b Hb) as [Hv Hc].
  { intros s ->. pose proof block_small. destruct Hh as [_ Hle]. unfold wire, wire_body, basic_ok in *.
    destruct (kind_of c) as [[]|]; try done. rewrite !length_app in Hle. simpl in Hle. lia. }
  pose proof (read_basic_ok (take p body) (drop (p + length (wire o p c b)) body) c b o r Hv) as Hread.
  rewrite Hp, Hc in Hread. apply Hread. by rewrite <-E.
Qed.

Lemma skip_value c b p :
  basic_ok c b = true → held p (wire o p c b) →
  _dbus_marshal_skip_basic r c o p = Some (p + length (wire o p c b))%nat.
Proof. intros Hb Hh. eapply skip_basic_read. by apply read_value. Qed.

Lemma read_length p z :
  0 <= z < 2 ^ 32 → held p (padding p 4 ++ octets o 4 z) →
  _dbus_marshal_read_uint32 r p o = Some (z, align_up p 4 + 4)%nat.
Proof.
  intros Hz Hh. destruct (held_split _ _ Hh) as [E Hp].
  pose proof (read_uint32_ok (take p body) (drop (p + length (padding p 4 ++ octets o 4 z)) body) z o r Hz) as Hread.
  rewrite Hp in Hread. rewrite Hread by (by rewrite <-E). f_equal. f_equal.
  rewrite length_app, length_octets, align_up_pad by alignment. lia.
Qed.

(** The parts of an array in the block. *)
Lemma array_parts p al els bs :
  enc_array o p al els = Some bs → held p bs → is_alignment al →
  let start := align_up (align_up p 4 + 4) al in
  ∃ x, els start = Some x ∧ held start x ∧ (p + length bs = start + length x)%nat
    ∧ _dbus_marshal_read_uint32 r (align_up p 4) o = Some (Z.of_nat (length x), align_up p 4 + 4)%nat
    ∧ Z.of_nat (length x) <= DBUS_MAXIMUM_ARRAY_LENGTH.
Proof.
  intros E Hh Ha. cbv zeta. destruct (array_inv _ _ _ _ E) as (x & Ex & Hx & ->).
  pose proof (array_ends p al x Ha) as Hend. exists x. split; [done|].
  pose proof (align_up_pad p 4 ltac:(alignment)) as Hp4. pose proof (align_up_pad (align_up p 4 + 4) al Ha) as Hpa.
  apply held_app in Hh as [Hh1 Hh2]. rewrite <-Hp4 in Hh2. apply held_app in Hh2 as [Hlen Hh2].
  rewrite length_octets in Hh2. apply held_app in Hh2 as [_ Hx2]. rewrite <-Hpa in Hx2.
  split; [done|]. split; [done|]. split; [|done].
  rewrite (read_length (align_up p 4) (Z.of_nat (length x))).
  - by rewrite align_up_idem by alignment.
  - unfold DBUS_MAXIMUM_ARRAY_LENGTH in Hx. lia.
  - by rewrite padding_aligned by alignment.
Qed.

(** An array is skipped by its length. *)
Lemma skip_array_value p al els bs c :
  enc_array o p al els = Some bs → held p bs → _dbus_type_get_alignment c = al → is_alignment al →
  _dbus_marshal_skip_array r c o p = Some (p + length bs)%nat.
Proof.
  intros E Hh Hc Ha. destruct (array_parts _ _ _ _ E Hh Ha) as (x & _ & _ & Hend & Hread & _).
  unfold _dbus_marshal_skip_array. cbv zeta. rewrite Hread. simpl. rewrite Hc, Nat2Z.id. f_equal. lia.
Qed.

(** ** Stepping over a value *)

(** [next] moves behind the value and its type. *)
Definition steps (v : val) : Prop :=
  ∀ kd off pre t post vp sp bs f sd dd ar,
  within accepted_key sd dd ar t = true → enc o v t vp = Some bs → held vp bs →
  (length (print t) + length bs <= f)%nat →
  base_reader_next (_dbus_type_reader_next f) f (on kd false off (pre ++ print t ++ post) (length pre) vp sp)
    (typecode t)
  = Some (on kd false off (pre ++ print t ++ post) (length pre + length (print t)) (vp + length bs) sp).

Lemma leaf_step c (kd : reader_kind) off pre post vp sp n f :
  leaf c = true → (c =b DBUS_TYPE_VARIANT) = false →
  _dbus_marshal_skip_basic r c o vp = Some n →
  base_reader_next (_dbus_type_reader_next f) f (on kd false off (pre ++ [c] ++ post) (length pre) vp sp) c
  = Some (on kd false off (pre ++ [c] ++ post) (length pre + 1) n sp).
Proof.
  intros Hl Hv Hn. destruct (leaf_codes c Hl) as (_ & _ & _ & _ & _ & Ha & Hs & Hd).
  unfold base_reader_next. rewrite Hs, Hd, Hv, Ha. cbn [orb types_only value_str order value_pos]. by rewrite Hn.
Qed.

Lemma basic_step b : steps (VBasic b).
Proof.
  intros kd off pre t post vp sp bs f sd dd ar Hw E Hh Hf. rewrite enc_eq in E.
  destruct t as [c| | |]; try done. destruct (basic_ok c b) eqn:Hb; [|done]. injection E as <-.
  simpl in Hw. apply leaf_step; [done| |by apply skip_value].
  destruct (c =b DBUS_TYPE_VARIANT) eqn:Ec; [|done]. apply byte_eqb_eq in Ec as ->. done.
Qed.

Lemma get_byte_held p c : held p [c] → _dbus_string_get_byte p r = Some c.
Proof.
  intros [E Hle]. simpl in Hle. rewrite get_byte_in by (rewrite <- (is_str_length _ _ Hr); lia).
  f_equal. unfold byte_at. unfold sub in E. simpl in E.
  rewrite <-(Nat.add_0_r p), <-nth_skipn. change (skipn p (str r)) with (drop p (str r)).
  destruct (drop p (str r)); [done|]. by injection E as ->.
Qed.

Lemma signature_step ts : steps (VSignature ts).
Proof.
  intros kd off pre t post vp sp bs f sd dd ar Hw E Hh Hf. rewrite enc_eq in E.
  destruct t as [c| | |]; try done. destruct (c =b "g") eqn:Ec; [|done]. apply byte_eqb_eq in Ec as ->.
  destruct (signature_parts _ _ _ E Hh) as (_ & _ & Hl & Hb & Hb1 & _).
  apply leaf_step; [done|done|]. unfold _dbus_marshal_skip_basic. simpl.
  rewrite (get_byte_held _ _ Hb1). cbn [mbind option_bind]. rewrite Hb, Hl. done.
Qed.

(** Arrays of both kinds. *)
Definition is_array (v : val) : bool := match v with VArray _ | VRaw _ => true | _ => false end.

(** What the elements of an array are encoded by. *)
Definition elements_by (v : val) (t : ty) (els : nat → option bytes) : Prop :=
  match v with
  | VArray vs => ∃ t', element_ty t = Some t' ∧ els = enc_elements o t' vs
  | VRaw bs => els = λ _, Some bs
  | _ => False
  end.

Lemma array_encoded v t p bs :
  is_array v = true → enc o v t p = Some bs →
  typecode t = DBUS_TYPE_ARRAY ∧ ∃ els, elements_by v t els ∧ enc_array o p (element_alignment t) els = Some bs.
Proof.
  intros Hv E. rewrite enc_eq in E. destruct v; try done; destruct t as [|t1| |]; try done.
  - destruct (raw_element t1); [done|]. simpl. eauto 6.
  - simpl. eauto 6.
  - destruct (raw_element t1); [|done]. simpl. eauto.
Qed.

(** The type of the elements. *)
Definition element_code (t : ty) : byte :=
  match t with TArray t1 => typecode t1 | _ => DBUS_TYPE_DICT_ENTRY end.

Lemma element_code_at pre t post sd dd ar :
  within accepted_key sd dd ar t = true → typecode t = DBUS_TYPE_ARRAY →
  _dbus_first_type_in_signature (pre ++ print t ++ post) (length pre + 1) = element_code t
  ∧ _dbus_type_get_alignment (element_code t) = element_alignment t ∧ is_alignment (element_alignment t).
Proof.
  intros Hw Ht. destruct t as [c|t1| |k v]; try done.
  - simpl in Ht. subst c. done.
  - simpl in Hw. apply andb_true_iff in Hw as [_ Hw].
    pose proof (first_type_print (pre ++ [DBUS_TYPE_ARRAY]) t1 post _ _ _ _ Hw) as Ef.
    rewrite length_app, <-app_assoc in Ef. split; [exact Ef|]. split; [done|].
    apply valid_type_alignment. by eapply typecode_valid.
  - split; [apply first_type_at_1|]. split; [done|]. simpl. alignment.
Qed.

Lemma array_step v : is_array v = true → steps v.
Proof.
  intros Hv kd off pre t post vp sp bs f sd dd ar Hw E Hh Hf.
  destruct (array_encoded _ _ _ _ Hv E) as [Ht (els & _ & Ea)].
  destruct (element_code_at pre t post _ _ _ Hw Ht) as (Hc & Hal & Ha).
  unfold base_reader_next. rewrite Ht. byte_tests. cbn [types_only value_str order value_pos type_str type_pos].
  rewrite Hc, (skip_array_value _ _ _ _ _ Ea Hh Hal Ha). simpl mbind.
  unfold skip_one_complete_type. rewrite (signature_next_print pre t post _ _ _ _ Hw). done.
Qed.

(** *** Variants *)

Lemma skip_all_last next n sub sub' :
  next sub = Some (false, sub') → skip_all next (S n) sub = Some sub'.
Proof. intros E. simpl. by rewrite E. Qed.

(** The reader of a variant's value: the signature is in the block. *)
Lemma variant_recurse kd off pre post vp sp t' v s b :
  enc_signature [t'] = Some s → enc o v t' (vp + length s) = Some b → held vp (s ++ b) →
  ∃ pre' q vp' b',
    _dbus_type_reader_recurse (on kd false off (pre ++ [DBUS_TYPE_VARIANT] ++ post) (length pre) vp sp)
    = Some (on KVariant false 0 (pre' ++ print t' ++ x00 :: q) (length pre') vp' 0)
    ∧ pre' ++ print t' ++ x00 :: q = str r
    ∧ within accepted_key 0 0 0 t' = true
    ∧ enc o v t' vp' = Some b' ∧ held vp' b' ∧ (vp' + length b' = vp + length (s ++ b))%nat
    ∧ (length (print t') + length b' + 2 <= length (s ++ b))%nat.
Proof.
  intros Es Eb Hh. apply held_app in Hh as [Hs Hb].
  destruct (signature_parts _ _ _ Es Hs) as (Hok & _ & Hl & Hn & H1 & H2 & H3).
  unfold print_sig, sig_ok in *. simpl in Hok, Hn, H2, H3, Hl. rewrite andb_true_r in Hok. rewrite app_nil_r in *.
  assert (is_alignment (typecode_alignment t')) as Ha by (apply valid_type_alignment; by eapply typecode_valid).
  destruct (enc_padded _ _ _ _ _ Eb Ha) as (b' & -> & Eb'). apply held_app in Hb as [Hpad Hb'].
  rewrite <-align_up_pad in Hb' by done. set (vp' := align_up (vp + length s) (typecode_alignment t')) in *.
  set (pre' := take (vp + 1) (str r)).
  assert (length pre' = vp + 1)%nat as Hpre.
  { pose proof block_room. destruct H1 as [_ Hle]. simpl in Hle. unfold pre'. rewrite length_take. lia. }
  destruct (signature_memory (str r) (vp + 1) (length (print t')) [t']) as [q Hq].
  { unfold print_sig. simpl. rewrite app_nil_r. apply H2. }
  { apply H3. }
  simpl in Hq. rewrite app_nil_r in Hq.
  assert (pre' ++ print t' ++ x00 :: q = str r) as Hstr.
  { rewrite <-Hq. apply take_drop. }
  assert (vp' = vp + length s + length (padding (vp + length s) (typecode_alignment t')))%nat as Hvp by by apply align_up_pad.
  exists pre', q, vp', b'. split; [|split; [done|]; split; [done|]; split; [done|]; split; [done|]; rewrite !length_app; lia].
  unfold _dbus_type_reader_recurse. cbn [type_str type_pos types_only].
  change ([DBUS_TYPE_VARIANT] ++ post) with (DBUS_TYPE_VARIANT :: post). rewrite first_type_at.
  change (map_type_char_to_type DBUS_TYPE_VARIANT) with DBUS_TYPE_VARIANT. byte_tests.
  unfold variant_reader_recurse. cbn [base_reader_recurse reader_init value_pos value_str kind types_only order finished
    array_len_offset start_pos]. rewrite (get_byte_held _ _ H1). cbn [mbind option_bind]. rewrite Hn. f_equal.
  assert (_dbus_first_type_in_signature (str r) (vp + 1) = typecode t') as ->.
  { rewrite <-Hstr, <-Hpre. by eapply first_type_print. }
  rewrite Hstr, Hpre. f_equal. unfold vp', typecode_alignment. f_equal. lia.
Qed.

(** What follows a type at the top level: the end, or another type. *)
Definition ends (post : bytes) : Prop := byte_at post 0 = x00.
Definition goes_on_with (t : ty) (post : bytes) : Prop :=
  ∃ q sd dd ar, post = print t ++ q ∧ within accepted_key sd dd ar t = true.

Lemma current_type_end kd off pre post vp sp :
  kd ≠ KArray → ends post →
  _dbus_type_reader_get_current_type (on kd false off (pre ++ post) (length pre) vp sp) = Some DBUS_TYPE_INVALID.
Proof.
  intros Hk Hp. unfold _dbus_type_reader_get_current_type, check_finished. cbn [finished kind].
  rewrite bool_decide_false by done. cbn [andb type_str type_pos]. simpl mbind.
  unfold _dbus_first_type_in_signature. rewrite <-(Nat.add_0_r (length pre)), byte_at_app, Hp. done.
Qed.

Definition sequence (kd : reader_kind) : Prop := kd = KBody ∨ kd = KVariant.

(** One [next] of a body or variant reader. *)
Lemma sequence_next v kd off pre t post vp sp bs f sd dd ar :
  steps v → sequence kd → within accepted_key sd dd ar t = true → enc o v t vp = Some bs → held vp bs →
  (length (print t) + length bs < f)%nat → (ends post ∨ ∃ t2, goes_on_with t2 post) →
  _dbus_type_reader_next f (on kd false off (pre ++ print t ++ post) (length pre) vp sp)
  = Some (negb (byte_at post 0 =b x00),
          on kd false off (pre ++ print t ++ post) (length pre + length (print t)) (vp + length bs) sp).
Proof.
  intros Hv Hk Hw E Hh Hf Hp. assert (kd ≠ KArray) as Hka by (destruct Hk; congruence).
  destruct f as [|f]; [lia|]. rewrite reader_next_S, (current_type_value _ _ _ _ _ _ _ _ _ _ _ Hka Hw). simpl mbind.
  destruct (typecode_codes _ _ _ _ _ Hw) as (-> & _).
  assert (∀ next n rd c, kind rd = kd → class_next next n rd c = base_reader_next next n rd c) as Hcl.
  { intros next n rd c Er. unfold class_next. by destruct Hk as [-> | ->]; rewrite Er. }
  rewrite Hcl by done.
  rewrite (Hv _ _ _ _ _ _ _ _ _ _ _ _ Hw E Hh) by lia. simpl mbind.
  destruct Hp as [Hp|(t2 & q & sd2 & dd2 & ar2 & -> & Hw2)].
  - pose proof (current_type_end kd off (pre ++ print t) post (vp + length bs) sp Hka Hp) as Ec.
    rewrite length_app, <-app_assoc in Ec. rewrite Ec. simpl. unfold ends in Hp. by rewrite Hp.
  - pose proof (current_type_value kd off (pre ++ print t) t2 q (vp + length bs) sp _ _ _ _ Hka Hw2) as Ec.
    rewrite length_app, <-app_assoc in Ec. rewrite Ec. simpl.
    destruct (typecode_codes _ _ _ _ _ Hw2) as (-> & _).
    destruct (print_head_open _ _ _ _ t2 q Hw2) as (_ & _ & Hi). unfold DBUS_TYPE_INVALID in Hi. by rewrite Hi.
Qed.

Lemma variant_step t' v : steps v → steps (VVariant t' v).
Proof.
  intros Hv kd off pre t post vp sp bs f sd dd ar Hw E Hh Hf. rewrite enc_eq in E.
  destruct t as [c| | |]; try done. destruct (c =b "v") eqn:Ec; [|done]. apply byte_eqb_eq in Ec as ->.
  destruct (enc_signature [t']) as [s|] eqn:Es; [|done]. simpl in E.
  destruct (enc o v t' (vp + length s)) as [b|] eqn:Eb; [|done]. injection E as <-.
  destruct (variant_recurse kd off pre post vp sp t' v s b Es Eb Hh) as (pre' & q & vp' & b' & Hrec & _ & Hw' & Eb' & Hb' & Hend & Hlen).
  change (print (TLeaf "v")) with [DBUS_TYPE_VARIANT]. change (typecode (TLeaf "v")) with DBUS_TYPE_VARIANT.
  unfold base_reader_next. byte_tests. cbn [types_only]. rewrite Hrec. simpl mbind.
  destruct f as [|f]; [simpl in Hf; lia|].
  rewrite (skip_all_last _ _ _ _ (sequence_next v KVariant 0 pre' t' (x00 :: q) vp' 0 b' (S f) _ _ _ Hv ltac:(by right) Hw' Eb' Hb'
    ltac:(simpl in Hf; lia) ltac:(by left))).
  simpl. by rewrite Hend.
Qed.

(** *** Structs and dict entries *)

Lemma fields_class b rd next n c :
  kind rd = kind_of_fields b → class_next next n rd c = fields_reader_next next n (close_of b) rd c.
Proof. intros E. unfold class_next. by destruct b; rewrite E. Qed.

Lemma more_fields b t ts q sd dd ar :
  within accepted_key sd dd ar t = true → (byte_at (flat_map print (t :: ts) ++ q) 0 =b close_of b) = false.
Proof.
  intros Hw. simpl. rewrite <-app_assoc.
  destruct (print_head_open _ _ _ _ t (flat_map print ts ++ q) Hw) as (H1 & H2 & _). by destruct b.
Qed.

(** One [next] of the reader of fields: at the last field it ends behind the bracket. *)
Lemma field_next v b off pre t post vp sp bs f sd dd ar :
  steps v → within accepted_key sd dd ar t = true → enc o v t vp = Some bs → held vp bs →
  (length (print t) + length bs < f)%nat → ((∃ q, post = close_of b :: q) ∨ ∃ t2, goes_on_with t2 post) →
  let last := byte_at post 0 =b close_of b in
  _dbus_type_reader_next f (on (kind_of_fields b) false off (pre ++ print t ++ post) (length pre) vp sp)
  = Some (negb last, on (kind_of_fields b) last off (pre ++ print t ++ post)
      (length pre + length (print t) + (if last then 1 else 0)) (vp + length bs) sp).
Proof.
  intros Hv Hw E Hh Hf Hp. cbv zeta. assert (kind_of_fields b ≠ KArray) as Hka by by destruct b.
  destruct f as [|f]; [lia|]. rewrite reader_next_S, (current_type_value _ _ _ _ _ _ _ _ _ _ _ Hka Hw). simpl mbind.
  destruct (typecode_codes _ _ _ _ _ Hw) as (-> & _). rewrite (fields_class b) by done. unfold fields_reader_next.
  rewrite (Hv _ _ _ _ _ _ _ _ _ _ _ _ Hw E Hh) by lia. simpl mbind. cbn [type_str type_pos]. rewrite byte_at_mid.
  destruct Hp as [(q & ->)|(t2 & q & sd2 & dd2 & ar2 & -> & Hw2)].
  - change (byte_at (close_of b :: q) 0) with (close_of b). rewrite byte_eqb_refl. done.
  - assert ((byte_at (print t2 ++ q) 0 =b close_of b) = false) as Eb.
    { destruct (print_head_open _ _ _ _ t2 q Hw2) as (H1 & H2 & _). by destruct b. }
    rewrite Eb, Nat.add_0_r.
    pose proof (current_type_value (kind_of_fields b) off (pre ++ print t) t2 q (vp + length bs) sp _ _ _ _ Hka Hw2) as Ec.
    rewrite length_app, <-app_assoc in Ec. simpl mbind. rewrite Ec. simpl.
    by destruct (typecode_codes _ _ _ _ _ Hw2) as (-> & _).
Qed.

Lemma enc_fields_cons vs v t ts p bs :
  enc_fields o (v :: vs) (t :: ts) p = Some bs →
  ∃ b q, enc o v t p = Some b ∧ enc_fields o vs ts (p + length b) = Some q ∧ bs = b ++ q.
Proof.
  simpl. destruct (enc o v t p) as [b|]; [|done]. simpl.
  destruct (enc_fields o vs ts (p + length b)) as [q|] eqn:E; [|done]. intros [= <-]. eauto.
Qed.

Lemma fields_skip b vs : ∀ ts off pre post vp sp bs f n sd dd,
  Forall steps vs → ts ≠ [] → forallb (within accepted_key sd dd 0) ts = true →
  enc_fields o vs ts vp = Some bs → held vp bs →
  (length (flat_map print ts) + length bs < f)%nat → (length vs <= n)%nat →
  let sig := pre ++ flat_map print ts ++ close_of b :: post in
  skip_all (_dbus_type_reader_next f) n (on (kind_of_fields b) false off sig (length pre) vp sp)
  = Some (on (kind_of_fields b) true off sig (length pre + length (flat_map print ts) + 1) (vp + length bs) sp).
Proof.
  induction vs as [|v vs IH]; intros ts off pre post vp sp bs f n sd dd Hvs Hne Hws E Hh Hf Hn;
    (destruct ts as [|t ts]; [done|]); [done|]. cbv zeta.
  destruct (enc_fields_cons _ _ _ _ _ _ E) as (b1 & q & Eb & Eq & ->). apply held_app in Hh as [Hh1 Hh2].
  inversion_clear Hvs as [|? ? Hv Hvs']. simpl in Hws. apply andb_true_iff in Hws as [Hw Hws].
  destruct n as [|n]; [simpl in Hn; lia|]. simpl in Hf, Hn. rewrite !length_app in Hf. simpl flat_map.
  rewrite <-!app_assoc. cbn [skip_all].
  rewrite (field_next v b off pre t (flat_map print ts ++ close_of b :: post) vp sp b1 f _ _ _ Hv Hw Eb Hh1) by
    (lia || (destruct ts as [|t2 ts]; [left; by eexists|right; simpl in Hws; apply andb_true_iff in Hws as [Hw2 _];
      exists t2; eexists _, _, _, _; split; [simpl; by rewrite <-app_assoc|done]])).
  destruct ts as [|t2 ts].
  - destruct vs; [|done]. injection Eq as <-. simpl. rewrite byte_eqb_refl, !app_nil_r. simpl. done.
  - simpl in Hws. apply andb_true_iff in Hws as [Hw2 Hws].
    rewrite (more_fields b t2 ts _ _ _ _ Hw2).
    cbn [negb mbind option_bind]. rewrite Nat.add_0_r.
    pose proof (IH (t2 :: ts) off (pre ++ print t) post (vp + length b1)%nat sp q f n sd dd Hvs' ltac:(done)
      ltac:(simpl; by rewrite Hw2) Eq Hh2 ltac:(pose proof (print_length t); lia) ltac:(lia)) as E2.
    cbv zeta in E2. rewrite length_app, <-!app_assoc in E2. rewrite E2, !length_app. do 2 f_equal; lia.
Qed.

(** A struct, with round or curly brackets in the signature. *)
Definition open_of (b : bool) : byte := if b then DBUS_DICT_ENTRY_BEGIN_CHAR else DBUS_STRUCT_BEGIN_CHAR.

Lemma struct_recurse b kd off pre q vp sp :
  _dbus_type_reader_recurse (on kd false off (pre ++ open_of b :: q) (length pre) vp sp)
  = Some (on (kind_of_fields b) false 0 (pre ++ open_of b :: q) (length pre + 1) (align_up vp 8) 0).
Proof.
  unfold _dbus_type_reader_recurse. cbn [type_str type_pos types_only]. rewrite first_type_at.
  destruct b; cbn [open_of map_type_char_to_type]; byte_tests; unfold struct_or_dict_entry_reader_recurse.
  - by erewrite (fields_recurse KDictEntry) by (eauto; done).
  - by erewrite (fields_recurse KStruct) by (eauto; done).
Qed.

Lemma fields_count vs : ∀ ts p bs sd dd,
  forallb (within accepted_key sd dd 0) ts = true → enc_fields o vs ts p = Some bs → (length vs <= length bs)%nat.
Proof.
  induction vs as [|v vs IH]; intros [|t ts] p bs sd dd Hws E; try done; [simpl; lia|].
  destruct (enc_fields_cons _ _ _ _ _ _ E) as (b1 & q & Eb & Eq & ->). simpl in Hws. apply andb_true_iff in Hws as [Hw Hws].
  pose proof (nonempty _ _ _ _ _ _ _ Hw Eb). pose proof (IH _ _ _ _ _ Hws Eq). rewrite length_app. simpl. lia.
Qed.

(** Behind a struct or a dict entry. *)
Lemma brackets_step b vs ts kd off pre post vp sp bs f sd dd :
  Forall steps vs → ts ≠ [] → forallb (within accepted_key sd dd 0) ts = true →
  enc_fields o vs ts (align_up vp 8) = Some bs → held (align_up vp 8) bs →
  (length (flat_map print ts) + length bs < f)%nat →
  let text := open_of b :: flat_map print ts ++ [close_of b] in
  base_reader_next (_dbus_type_reader_next f) f (on kd false off (pre ++ text ++ post) (length pre) vp sp)
    (if b then DBUS_TYPE_DICT_ENTRY else DBUS_TYPE_STRUCT)
  = Some (on kd false off (pre ++ text ++ post) (length pre + length text) (align_up vp 8 + length bs) sp).
Proof.
  intros Hvs Hne Hws E Hh Hf. cbv zeta. pose proof (fields_count _ _ _ _ _ _ Hws E) as Hcnt.
  pose proof (struct_recurse b kd off pre (flat_map print ts ++ close_of b :: post) vp sp) as Hrec.
  pose proof (fields_skip b vs ts 0 (pre ++ [open_of b]) post (align_up vp 8) 0 bs f f _ _ Hvs Hne Hws E Hh
    ltac:(lia) ltac:(lia)) as E2. cbv zeta in E2.
  rewrite <-app_comm_cons, <-app_assoc. change ([close_of b] ++ post) with (close_of b :: post).
  rewrite length_app, <-!app_assoc in E2. cbn [app length] in E2.
  unfold base_reader_next. destruct b; byte_tests; cbn [types_only]; rewrite Hrec; cbn [mbind option_bind]; rewrite E2;
    cbn [mbind option_bind value_pos type_pos]; unfold at_type, at_value; simpl; rewrite length_app; simpl;
    do 2 f_equal; lia.
Qed.

Lemma struct_step vs : Forall steps vs → steps (VStruct vs).
Proof.
  intros Hvs kd off pre t post vp sp bs f sd dd ar Hw E Hh Hf. rewrite enc_eq in E.
  destruct t as [| |ts|]; try done. simpl in Hw. apply andb_true_iff in Hw as [[_ Hne]%andb_true_iff Hws].
  destruct (enc_fields o vs ts (align_up vp 8)) as [b|] eqn:Eb; [|done]. injection E as <-.
  apply held_app in Hh as [_ Hh]. pose proof (align_up_pad vp 8 ltac:(alignment)) as Hp8. rewrite <-Hp8 in Hh.
  simpl in Hf. rewrite !length_app in Hf. simpl in Hf.
  pose proof (brackets_step false vs ts kd off pre post vp sp b f _ _ Hvs ltac:(by intros ->) Hws Eb Hh ltac:(lia)) as E2.
  cbv zeta in E2. change (print (TStruct ts)) with (open_of false :: flat_map print ts ++ [close_of false]).
  change (typecode (TStruct ts)) with DBUS_TYPE_STRUCT. rewrite E2. f_equal. f_equal. rewrite length_app. lia.
Qed.

Lemma all_steps v : steps v.
Proof.
  induction v as [b|ts|t' v IH|vs IH|bs'|vs IH] using val_ind'.
  - apply basic_step.
  - apply signature_step.
  - by apply variant_step.
  - by apply array_step.
  - by apply array_step.
  - by apply struct_step.
Qed.

(** ** Arrays *)

(** The text of the elements' type. *)
Definition element_text (t : ty) : bytes := tail (print t).

Lemma array_text t sd dd ar :
  within accepted_key sd dd ar t = true → typecode t = DBUS_TYPE_ARRAY →
  print t = DBUS_TYPE_ARRAY :: element_text t.
Proof. destruct t as [c| | |]; try done. simpl. intros Hw ->. done. Qed.

(** The reader of the elements of an array of type [t]. *)
Definition elements_reader (t : ty) (off : nat) (pre post : bytes) (vp sp : nat) : DBusTypeReader :=
  on KArray false off (pre ++ print t ++ post) (length pre + 1) vp sp.

(** The place of the elements: their first position, and the bytes before it. *)
Definition elements_place (t : ty) (off sp n : nat) : Prop :=
  ∀ pre post vp, array_reader_get_array_len (elements_reader t off pre post vp sp) = Some n.

Lemma element_step v t t' off pre post vp sp bs f sd dd ar :
  within accepted_key sd dd ar t = true → element_ty t = Some t' → enc o v t' vp = Some bs → held vp bs →
  (length (print t) + length bs <= f)%nat →
  ∃ n, base_reader_next (_dbus_type_reader_next f) f (elements_reader t off pre post vp sp) (element_code t)
  = Some (on KArray false off (pre ++ print t ++ post) n (vp + length bs) sp).
Proof.
  intros Hw Ht E Hh Hf. destruct t as [|t1| |k v1]; try done; injection Ht as <-; simpl in Hw.
  - apply andb_true_iff in Hw as [_ Hw].
    pose proof (all_steps v KArray off (pre ++ [DBUS_TYPE_ARRAY]) t1 post vp sp bs f _ _ _ Hw E Hh ltac:(simpl in Hf; lia)) as E2.
    rewrite length_app, <-app_assoc in E2. eexists. exact E2.
  - apply andb_true_iff in Hw as [[_ Hk]%andb_true_iff Hv]. rewrite enc_eq in E. destruct v as [| | | | |vs]; try done.
    destruct (enc_fields o vs [k; v1] (align_up vp 8)) as [b|] eqn:Eb; [|done]. injection E as <-.
    apply held_app in Hh as [_ Hh]. pose proof (align_up_pad vp 8 ltac:(alignment)) as Hp8. rewrite <-Hp8 in Hh.
    assert (Forall steps vs) as Hvs by (apply list.Forall_forall; intros; apply all_steps).
    simpl in Hf. rewrite !length_app in Hf. simpl in Hf.
    pose proof (brackets_step true vs [k; v1] KArray off (pre ++ [DBUS_TYPE_ARRAY]) post vp sp b f _ _ Hvs ltac:(done)
      ltac:(simpl; by rewrite Hk, Hv) Eb Hh ltac:(simpl; rewrite !length_app; simpl; lia)) as E2.
    cbv zeta in E2. rewrite length_app, <-!app_assoc in E2. simpl in E2. rewrite app_nil_r, <-!app_assoc in E2.
    eexists. unfold elements_reader. simpl. rewrite <-!app_assoc. simpl.
    rewrite length_app, Nat.add_assoc, <-Hp8. exact E2.
Qed.

(** An array reader moves as the base class does, but keeps the type. *)
Lemma array_next_base next n rd c X l :
  kind rd = KArray → types_only rd = false → finished rd = false →
  _dbus_first_type_in_signature (type_str rd) (type_pos rd) = c →
  array_reader_get_array_len rd = Some l → base_reader_next next n rd c = Some X →
  (start_pos rd <= value_pos rd < start_pos rd + l)%nat → (value_pos X <= start_pos rd + l)%nat →
  array_reader_next next n rd c
  = (let rd' := at_value (value_pos X) rd in
     if (value_pos X =? start_pos rd + l)%nat
     then tpos ← skip_one_complete_type (type_str rd) (type_pos rd); Some (at_type tpos rd') else Some rd').
Proof.
  intros Hk Ho Hfin Hc Hl HX Hlt Hle. unfold array_reader_next. rewrite Hl, Hc. cbn [mbind option_bind].
  rewrite (proj2 (Nat.ltb_lt _ _)), (proj2 (Nat.leb_le (start_pos rd) _)) by lia.
  cbn [asserted mbind option_bind]. revert HX Hle.
  unfold base_reader_next. rewrite Ho. cbn [andb].
  destruct ((c =b DBUS_TYPE_DICT_ENTRY) || (c =b DBUS_TYPE_STRUCT) || (c =b DBUS_TYPE_VARIANT)).
  - destruct (_dbus_type_reader_recurse rd) as [sub|]; [|done]. cbn [mbind option_bind].
    destruct (skip_all next n sub) as [sub'|]; [|done]. cbn [mbind option_bind]. intros [= <-] Hle.
      by rewrite (proj2 (Nat.leb_le _ _)).
  - destruct (c =b DBUS_TYPE_ARRAY).
    + destruct (_dbus_marshal_skip_array _ _ _ _) as [vp|]; [|done]. cbn [mbind option_bind].
      destruct (skip_one_complete_type _ _) as [tp|]; [|done]. cbn [mbind option_bind]. intros [= <-] Hle.
      by rewrite (proj2 (Nat.leb_le _ _)).
    + destruct (_dbus_marshal_skip_basic _ _ _ _) as [vp|]; [|done]. cbn [mbind option_bind]. intros [= <-] Hle.
      by rewrite (proj2 (Nat.leb_le _ _)).
Qed.

Lemma element_code_codes t sd dd ar :
  within accepted_key sd dd ar t = true → typecode t = DBUS_TYPE_ARRAY →
  (element_code t =b DBUS_TYPE_INVALID) = false ∧ (element_code t =b DBUS_STRUCT_BEGIN_CHAR) = false
  ∧ (element_code t =b DBUS_STRUCT_END_CHAR) = false ∧ (element_code t =b DBUS_DICT_ENTRY_BEGIN_CHAR) = false
  ∧ (element_code t =b DBUS_DICT_ENTRY_END_CHAR) = false.
Proof.
  intros Hw Ht. destruct t as [c|t1| |]; try done.
  simpl in Hw. apply andb_true_iff in Hw as [_ Hw]. by apply (typecode_codes _ _ _ _ _ Hw).
Qed.

Lemma elements_current t off pre post vp sp n sd dd ar :
  within accepted_key sd dd ar t = true → typecode t = DBUS_TYPE_ARRAY → elements_place t off sp n →
  (sp <= vp <= sp + n)%nat →
  _dbus_type_reader_get_current_type (elements_reader t off pre post vp sp)
  = Some (if (vp =? sp + n)%nat then DBUS_TYPE_INVALID else element_code t).
Proof.
  intros Hw Ht Hn Hb. unfold _dbus_type_reader_get_current_type, check_finished, array_reader_check_finished.
  cbn [finished kind elements_reader types_only]. rewrite bool_decide_true by done. cbn [andb negb].
  rewrite Hn. cbn [mbind option_bind elements_reader value_pos start_pos type_str type_pos].
  rewrite (proj2 (Nat.leb_le vp _)), (proj2 (Nat.leb_le sp _)) by lia. cbn [asserted mbind option_bind].
  destruct (vp =? sp + n)%nat; [done|].
  destruct (element_code_at pre t post _ _ _ Hw Ht) as (-> & _).
  by destruct (element_code_codes t _ _ _ Hw Ht) as (_ & -> & -> & -> & ->).
Qed.

(** The elements' type can be skipped. *)
Lemma skip_element_type pre t post sd dd ar :
  within accepted_key sd dd ar t = true → typecode t = DBUS_TYPE_ARRAY →
  is_Some (skip_one_complete_type (pre ++ print t ++ post) (length pre + 1)).
Proof.
  intros Hw Ht. unfold skip_one_complete_type. pose proof (signature_next_print pre t post _ _ _ _ Hw) as E.
  rewrite (array_text t _ _ _ Hw Ht) in *. unfold _dbus_type_signature_next in *. rewrite drop_app_length in E.
  rewrite <-drop_drop, drop_app_length. change (drop 1 ((DBUS_TYPE_ARRAY :: element_text t) ++ post)) with (element_text t ++ post).
  change (skip_arrays ((DBUS_TYPE_ARRAY :: element_text t) ++ post)) with (skip_arrays (element_text t ++ post)) in E.
  eexists. exact E.
Qed.

Lemma element_nonempty v t t' p bs sd dd ar :
  within accepted_key sd dd ar t = true → element_ty t = Some t' → enc o v t' p = Some bs → (1 <= length bs)%nat.
Proof.
  intros Hw Ht E. destruct t as [|t1| |k v1]; try done; injection Ht as <-; simpl in Hw.
  - apply andb_true_iff in Hw as [_ Hw]. by eapply nonempty.
  - apply andb_true_iff in Hw as [[_ Hk]%andb_true_iff Hv]. rewrite enc_eq in E. destruct v as [| | | | |vs]; try done.
    destruct (enc_fields o vs [k; v1] (align_up p 8)) as [b|] eqn:Eb; [|done]. injection E as <-.
    destruct vs as [|x vs]; [done|]. destruct (enc_fields_cons _ _ _ _ _ _ Eb) as (b1 & q & E1 & _ & ->).
    pose proof (nonempty _ _ _ _ _ _ _ Hk E1). rewrite !length_app. lia.
Qed.

(** One [next] of an array reader. *)
Lemma elements_next v t t' off pre post vp sp n bs f sd dd ar :
  within accepted_key sd dd ar t = true → element_ty t = Some t' → elements_place t off sp n →
  enc o v t' vp = Some bs → held vp bs → (sp <= vp)%nat → (vp + length bs <= sp + n)%nat → (length (print t) + length bs < f)%nat →
  ∃ rd', _dbus_type_reader_next f (elements_reader t off pre post vp sp)
    = Some (negb (vp + length bs =? sp + n)%nat, rd')
    ∧ ((vp + length bs)%nat ≠ (sp + n)%nat → rd' = elements_reader t off pre post (vp + length bs) sp)
    ∧ ((vp + length bs)%nat = (sp + n)%nat → _dbus_type_reader_get_current_type rd' = Some DBUS_TYPE_INVALID).
Proof.
  intros Hw Hte Hn E Hh Hge Hle Hf. assert (typecode t = DBUS_TYPE_ARRAY) as Ht by by destruct t.
  pose proof (element_nonempty _ _ _ _ _ _ _ _ Hw Hte E) as Hne. destruct f as [|f]; [lia|].
  rewrite reader_next_S, (elements_current t off pre post vp sp n _ _ _ Hw Ht Hn ltac:(lia)), (proj2 (Nat.eqb_neq _ _)) by lia.
  cbn [mbind option_bind]. destruct (element_code_codes t _ _ _ Hw Ht) as (-> & _).
  destruct (element_step v t t' off pre post vp sp bs f _ _ _ Hw Hte E Hh ltac:(lia)) as [tp Hb].
  change (class_next (_dbus_type_reader_next f) f (elements_reader t off pre post vp sp) (element_code t))
    with (array_reader_next (_dbus_type_reader_next f) f (elements_reader t off pre post vp sp) (element_code t)).
  destruct (element_code_at pre t post _ _ _ Hw Ht) as (Hc & _).
  rewrite (array_next_base _ _ (elements_reader t off pre post vp sp) _ _ n eq_refl eq_refl eq_refl Hc (Hn _ _ _) Hb
    ltac:(cbn [start_pos value_pos elements_reader]; lia) ltac:(cbn [start_pos value_pos elements_reader]; lia)). cbv zeta.
  cbn [value_pos start_pos elements_reader type_str type_pos].
  destruct (vp + length bs =? sp + n)%nat eqn:Ee.
  - destruct (skip_element_type pre t post _ _ _ Hw Ht) as [tp' ->]. cbn [mbind option_bind].
    set (rd' := at_type tp' _).
    assert (_dbus_type_reader_get_current_type rd' = Some DBUS_TYPE_INVALID) as Hend.
    { unfold _dbus_type_reader_get_current_type, check_finished, array_reader_check_finished.
      assert (array_reader_get_array_len rd' = Some n) as -> by exact (Hn pre post (vp + length bs)%nat).
      cbn [rd' at_type at_value finished kind types_only value_pos start_pos elements_reader mbind option_bind].
      rewrite bool_decide_true by done. cbn [andb negb].
      rewrite (proj2 (Nat.leb_le (vp + length bs) _)), (proj2 (Nat.leb_le sp _)) by lia.
      cbn [asserted mbind option_bind]. by rewrite Ee. }
    eexists. rewrite Hend. split; [reflexivity|]. split; [|done]. apply Nat.eqb_eq in Ee. done.
  - cbn [mbind option_bind].
    change (at_value (vp + length bs) (elements_reader t off pre post vp sp)) with (elements_reader t off pre post (vp + length bs) sp).
    rewrite (elements_current t off pre post (vp + length bs) sp n _ _ _ Hw Ht Hn ltac:(lia)), Ee. cbn [mbind option_bind].
    destruct (element_code_codes t _ _ _ Hw Ht) as (-> & _). eexists. split; [reflexivity|]. split; [done|].
    apply Nat.eqb_neq in Ee. done.
Qed.

(** Entering an array. *)
Lemma array_recurse v t kd off pre post vp sp bs sd dd ar :
  within accepted_key sd dd ar t = true → is_array v = true → enc o v t vp = Some bs → held vp bs →
  ∃ off' start x,
    _dbus_type_reader_recurse (on kd false off (pre ++ print t ++ post) (length pre) vp sp)
    = Some (elements_reader t off' pre post start start)
    ∧ start = align_up (align_up vp 4 + 4) (element_alignment t)
    ∧ elements_place t off' start (length x) ∧ held start x ∧ (vp + length bs = start + length x)%nat
    ∧ match v with
      | VArray vs => ∃ t', element_ty t = Some t' ∧ enc_elements o t' vs start = Some x
      | VRaw bs' => x = bs'
      | _ => False
      end.
Proof.
  intros Hw Hv E Hh. destruct (array_encoded _ _ _ _ Hv E) as [Ht (els & Hels & Ea)].
  destruct (element_code_at pre t post _ _ _ Hw Ht) as (Hc & Hal & Ha).
  destruct (array_parts _ _ _ _ Ea Hh Ha) as (x & Ex & Hx & Hend & Hread & Hmax).
  set (start := align_up (align_up vp 4 + 4) (element_alignment t)) in *.
  destruct (align_up_spec (align_up vp 4 + 4) _ Ha) as [Hge _]. fold start in Hge.
  pose proof (alignment_bounded _ Ha) as [_ H8%Nat.leb_le]%andb_true_iff.
  exists (start - (align_up vp 4 + 4))%nat, start, x. split; [|split; [done|split]].
  - unfold _dbus_type_reader_recurse. cbn [type_str type_pos types_only].
    rewrite (first_type_print pre t post _ _ _ _ Hw), Ht. byte_tests.
    unfold array_reader_recurse, element_type_get_alignment. cbn -[Nat.ltb]. rewrite Hc, Hal. fold start.
    rewrite (proj2 (Nat.ltb_lt _ _)) by lia. done.
  - intros pre' post' vp'. unfold array_reader_get_array_len. cbn [start_pos array_len_offset value_str order elements_reader].
    replace (start - (start - (align_up vp 4 + 4)) - 4)%nat with (align_up vp 4) by lia.
    unfold _dbus_marshal_read_uint32 in Hread. rewrite align_up_idem in Hread by alignment.
    rewrite aligned_up by alignment. destruct (align_up vp 4 + 4 <=? len r)%nat; [|done].
    cbn [negb asserted mbind option_bind] in *. rewrite (proj2 (Nat.ltb_lt _ _)) by lia. cbn [asserted].
    destruct (mem_read (str r) (align_up vp 4) 4) as [d|]; [|done]. injection Hread as Hread. cbn [mbind option_bind].
    rewrite Hread, int_of_u32_ok by (unfold DBUS_MAXIMUM_ARRAY_LENGTH in Hmax; lia). by rewrite Nat2Z.id.
  - split; [done|]. split; [done|]. destruct v; try done; simpl in Hels.
    + destruct Hels as (t' & Ht' & ->). eauto.
    + subst els. by injection Ex.
Qed.

(** ** All values *)

Lemma print_no_nul t key sd dd ar : within key sd dd ar t = true → no_nul (print t) = true.
Proof.
  revert sd dd ar. induction t as [c|t IH|ts IH|k v IHk IHv] using ty_ind'; intros sd dd ar Hw; simpl in *.
  - by destruct c.
  - apply andb_true_iff in Hw as [_ Hw]. by eapply IH.
  - apply andb_true_iff in Hw as [_ Hw]. rewrite no_nul_app, andb_true_r.
    induction IH as [|t ts Ht _ IHts]; [done|]. simpl in *. apply andb_true_iff in Hw as [Hw1 Hw2].
    rewrite no_nul_app, (Ht _ _ _ Hw1). auto.
  - apply andb_true_iff in Hw as [[_ Hwk]%andb_true_iff Hwv]. by rewrite !no_nul_app, (IHk _ _ _ Hwk), (IHv _ _ _ Hwv).
Qed.

Lemma read_signature_value ts s p :
  enc_signature ts = Some s → held p s →
  ∃ q, _dbus_marshal_read_basic r p DBUS_TYPE_SIGNATURE o = Some (Str (print_sig ts), q).
Proof.
  intros E Hh. destruct (held_split _ _ Hh) as [Eb Hp]. destruct (signature_parts _ _ _ E Hh) as (Hok & Hlen & _).
  assert (s = wire o p DBUS_TYPE_SIGNATURE (Str (print_sig ts))) as ->.
  { unfold enc_signature in E. rewrite Hok, (proj2 (Nat.leb_le _ _) Hlen) in E. injection E as <-.
    unfold wire. by rewrite padding_1. }
  assert (value_ok DBUS_TYPE_SIGNATURE (Str (print_sig ts)) = true) as Hv.
  { unfold value_ok. simpl. rewrite (proj2 (Nat.leb_le _ _) Hlen), andb_true_r.
    unfold print_sig, sig_ok in *. clear -Hok. induction ts as [|t ts IH]; [done|]. simpl in *.
    apply andb_true_iff in Hok as [H1 H2]. rewrite no_nul_app, (print_no_nul _ _ _ _ _ H1). auto. }
  pose proof (read_basic_ok (take p body) (drop (p + length (wire o p DBUS_TYPE_SIGNATURE (Str (print_sig ts)))) body)
    DBUS_TYPE_SIGNATURE (Str (print_sig ts)) o r Hv) as Hread.
  rewrite Hp in Hread. eexists. apply Hread. by rewrite <-Eb.
Qed.

(** The reader shows the value and leads into it. *)
Definition plain_value (v : val) : Prop :=
  ∀ kd off pre t post vp sp bs sd dd ar,
  let rd := on kd false off (pre ++ print t ++ post) (length pre) vp sp in
  within accepted_key sd dd ar t = true → enc o v t vp = Some bs → held vp bs →
  _dbus_type_reader_get_current_type rd = Some (typecode t) → reads_one rd (typecode t) v.

(** A struct may be a dict entry. *)
Definition entry_value (v : val) : Prop :=
  ∀ kd off pre k t post vp sp bs sd dd,
  within accepted_key sd dd 0 k = true → within accepted_key sd dd 0 t = true →
  enc o v (TStruct [k; t]) vp = Some bs → held vp bs →
  reads_one (on kd false off (pre ++ (open_of true :: flat_map print [k; t] ++ [close_of true]) ++ post) (length pre) vp sp)
    DBUS_TYPE_DICT_ENTRY v.

Definition readable_value (v : val) : Prop := plain_value v ∧ entry_value v.

Lemma fuel_enough rd (t : bytes) bs p :
  value_str rd = r → (length t <= length (type_str rd))%nat → held p bs → (length t + length bs < reader_fuel rd)%nat.
Proof.
  intros Hrd Ht [_ Hle]. pose proof block_room. unfold reader_fuel. rewrite Hrd. lia.
Qed.

Lemma basic_readable b : readable_value (VBasic b).
Proof.
  split; [|done]. intros kd off pre t post vp sp bs sd dd ar rd Hw E Hh Hcur. rewrite enc_eq in E.
  destruct t as [c| | |]; try done. destruct (basic_ok c b) eqn:Hb; [|done]. injection E as <-.
  apply one_basic.
  - unfold _dbus_type_reader_read_basic. rewrite Hcur. cbn [mbind option_bind rd value_str value_pos order typecode].
    by rewrite (read_value c b vp Hb Hh).
  - intros Ec. simpl in Ec. subst c. done.
Qed.

Lemma signature_readable ts : readable_value (VSignature ts).
Proof.
  split; [|done]. intros kd off pre t post vp sp bs sd dd ar rd Hw E Hh Hcur. rewrite enc_eq in E.
  destruct t as [c| | |]; try done. destruct (c =b "g") eqn:Ec; [|done]. apply byte_eqb_eq in Ec as ->.
  apply one_signature. destruct (read_signature_value _ _ _ E Hh) as [q Hq].
  unfold _dbus_type_reader_read_basic. rewrite Hcur. cbn [mbind option_bind rd value_str value_pos order typecode].
  change "g"%byte with DBUS_TYPE_SIGNATURE. by rewrite Hq.
Qed.

(** The values of a body or a variant, one after the other. *)
Lemma sequence_reads kd vs : ∀ ts off pre post vp sp bs,
  sequence kd → Forall readable_value vs → forallb (within accepted_key 0 0 0) ts = true → ends post →
  enc_fields o vs ts vp = Some bs → held vp bs →
  reads (on kd false off (pre ++ flat_map print ts ++ post) (length pre) vp sp) vs.
Proof.
  induction vs as [|v vs IH]; intros [|t ts] off pre post vp sp bs Hk Hvs Hws Hend E Hh; try done.
  { apply reads_end. apply current_type_end; [by destruct Hk; congruence|done]. }
  destruct (enc_fields_cons _ _ _ _ _ _ E) as (b & q & Eb & Eq & ->). apply held_app in Hh as [Hh1 Hh2].
  inversion_clear Hvs as [|? ? Hv Hvs']. simpl in Hws. apply andb_true_iff in Hws as [Hw Hws].
  assert (kd ≠ KArray) as Hka by (destruct Hk; congruence).
  simpl flat_map. rewrite <-app_assoc. set (rest := flat_map print ts ++ post).
  pose proof (current_type_value kd off pre t rest vp sp _ _ _ _ Hka Hw) as Hcur.
  eapply reads_next; [exact Hcur|..].
  - destruct (typecode_codes _ _ _ _ _ Hw) as (Hi & _). by apply byte_eqb_neq in Hi.
  - by eapply (proj1 Hv).
  - rewrite (sequence_next v kd off pre t rest vp sp b _ _ _ _ (all_steps v) Hk Hw Eb Hh1).
    + f_equal. f_equal. destruct ts as [|t2 ts].
      * destruct vs; [|done]. unfold rest. simpl. rewrite Hend. done.
      * destruct vs as [|v2 vs]; [done|]. simpl in Hws. apply andb_true_iff in Hws as [Hw2 _]. unfold rest. simpl. rewrite <-app_assoc.
        destruct (print_head_open _ _ _ _ t2 (flat_map print ts ++ post) Hw2) as (_ & _ & Hi).
        unfold DBUS_TYPE_INVALID in Hi. by rewrite Hi.
    + eapply fuel_enough; [done| |exact Hh1]. cbn [type_str]. rewrite !length_app. lia.
    + destruct ts as [|t2 ts]; [by left|right]. exists t2. simpl in Hws. apply andb_true_iff in Hws as [Hw2 _].
      eexists _, _, _, _. split; [|exact Hw2]. unfold rest. simpl. by rewrite <-app_assoc.
  - pose proof (IH ts off (pre ++ print t) post (vp + length b)%nat sp q Hk Hvs' Hws Hend Eq Hh2) as Hr'.
    by rewrite length_app, <-app_assoc in Hr'.
Qed.

Lemma variant_readable t' v : readable_value v → readable_value (VVariant t' v).
Proof.
  intros Hv. split; [|done]. intros kd off pre t post vp sp bs sd dd ar rd Hw E Hh Hcur. rewrite enc_eq in E.
  destruct t as [c| | |]; try done. destruct (c =b "v") eqn:Ec; [|done]. apply byte_eqb_eq in Ec as ->.
  destruct (enc_signature [t']) as [s|] eqn:Es; [|done]. simpl in E.
  destruct (enc o v t' (vp + length s)) as [b|] eqn:Eb; [|done]. injection E as <-.
  destruct (variant_recurse kd off pre post vp sp t' v s b Es Eb Hh) as (pre' & q & vp' & b' & Hrec & _ & Hw' & Eb' & Hb' & _).
  eapply (one_variant _ _ t' v (length pre')); [exact Hrec|..].
  - unfold _dbus_type_reader_get_signature, find_len_of_complete_type, skip_one_complete_type. cbn [type_str type_pos].
    rewrite (signature_next_print pre' t' _ _ _ _ _ Hw'). cbn [mbind option_bind]. do 2 f_equal. lia.
  - cbn [type_str]. unfold sub. by rewrite drop_app_length, take_app_length.
  - pose proof (sequence_reads KVariant [v] [t'] 0 pre' (x00 :: q) vp' 0 b' ltac:(by right) ltac:(by apply list.Forall_singleton)
      ltac:(simpl; by rewrite Hw') ltac:(done)) as Hs. simpl in Hs. rewrite app_nil_r, Eb' in Hs. simpl in Hs.
    rewrite app_nil_r in Hs. by apply Hs.
Qed.

(** The fields of a struct or dict entry. *)
Lemma fields_reads b vs : ∀ ts off pre post vp sp bs sd dd,
  Forall readable_value vs → ts ≠ [] → forallb (within accepted_key sd dd 0) ts = true →
  enc_fields o vs ts vp = Some bs → held vp bs →
  reads (on (kind_of_fields b) false off (pre ++ flat_map print ts ++ close_of b :: post) (length pre) vp sp) vs.
Proof.
  induction vs as [|v vs IH]; intros [|t ts] off pre post vp sp bs sd dd Hvs Hne Hws E Hh; try done.
  destruct (enc_fields_cons _ _ _ _ _ _ E) as (b1 & q & Eb & Eq & ->). apply held_app in Hh as [Hh1 Hh2].
  inversion_clear Hvs as [|? ? Hv Hvs']. simpl in Hws. apply andb_true_iff in Hws as [Hw Hws].
  assert (kind_of_fields b ≠ KArray) as Hka by by destruct b.
  simpl flat_map. rewrite <-app_assoc. set (rest := flat_map print ts ++ close_of b :: post).
  pose proof (current_type_value (kind_of_fields b) off pre t rest vp sp _ _ _ _ Hka Hw) as Hcur.
  pose proof (field_next v b off pre t rest vp sp b1 (reader_fuel (on (kind_of_fields b) false off (pre ++ print t ++ rest) (length pre) vp sp))
    _ _ _ (all_steps v) Hw Eb Hh1) as Hnext.
  eapply reads_next; [exact Hcur| |by eapply (proj1 Hv)|..].
  - destruct (typecode_codes _ _ _ _ _ Hw) as (Hi & _). by apply byte_eqb_neq in Hi.
  - rewrite Hnext.
    + assert (negb (byte_at rest 0 =b close_of b) = bool_decide (vs ≠ [])) as ->; [|reflexivity].
      destruct ts as [|t2 ts]; [destruct vs; [|done]|destruct vs as [|v2 vs]; [done|]].
      * unfold rest. simpl. by rewrite byte_eqb_refl.
      * simpl in Hws. apply andb_true_iff in Hws as [Hw2 _]. unfold rest. by rewrite (more_fields b t2 ts _ _ _ _ Hw2).
    + eapply fuel_enough; [done| |exact Hh1]. cbn [type_str]. rewrite !length_app. lia.
    + destruct ts as [|t2 ts]; [left; by eexists|right]. exists t2. simpl in Hws. apply andb_true_iff in Hws as [Hw2 _].
      eexists _, _, _, _. split; [|exact Hw2]. unfold rest. simpl. by rewrite <-app_assoc.
  - destruct ts as [|t2 ts].
    + destruct vs; [|done]. unfold rest. simpl. rewrite byte_eqb_refl. apply reads_end. done.
    + assert ((byte_at rest 0 =b close_of b) = false) as ->.
      { simpl in Hws. apply andb_true_iff in Hws as [Hw2 _]. by apply (more_fields b t2 ts _ _ _ _ Hw2). }
      rewrite Nat.add_0_r.
      pose proof (IH (t2 :: ts) off (pre ++ print t) post (vp + length b1)%nat sp q _ _ Hvs' ltac:(done) Hws Eq Hh2) as Hr'.
      by rewrite length_app, <-app_assoc in Hr'.
Qed.

Lemma brackets_reads b vs ts kd off pre post vp sp bs sd dd :
  Forall readable_value vs → ts ≠ [] → forallb (within accepted_key sd dd 0) ts = true →
  enc_fields o vs ts (align_up vp 8) = Some bs → held (align_up vp 8) bs →
  reads_one (on kd false off (pre ++ (open_of b :: flat_map print ts ++ [close_of b]) ++ post) (length pre) vp sp)
    (if b then DBUS_TYPE_DICT_ENTRY else DBUS_TYPE_STRUCT) (VStruct vs).
Proof.
  intros Hvs Hne Hws E Hh.
  pose proof (struct_recurse b kd off pre (flat_map print ts ++ close_of b :: post) vp sp) as Hrec.
  rewrite <-app_comm_cons, <-app_assoc. change ([close_of b] ++ post) with (close_of b :: post).
  eapply one_struct; [by destruct b; [right|left]|exact Hrec|].
  pose proof (fields_reads b vs ts 0 (pre ++ [open_of b]) post (align_up vp 8) 0 bs _ _ Hvs Hne Hws E Hh) as Hr'.
  by rewrite length_app, <-!app_assoc in Hr'.
Qed.

Lemma struct_readable vs : Forall readable_value vs → readable_value (VStruct vs).
Proof.
  intros Hvs.
  assert (∀ ts vp bs, enc o (VStruct vs) (TStruct ts) vp = Some bs → held vp bs →
    ∃ b, enc_fields o vs ts (align_up vp 8) = Some b ∧ held (align_up vp 8) b) as Hin.
  { intros ts vp bs E Hh. rewrite enc_eq in E. destruct (enc_fields o vs ts (align_up vp 8)) as [b|] eqn:Eb; [|done].
    injection E as <-. apply held_app in Hh as [_ Hh]. rewrite <-align_up_pad in Hh by alignment. eauto. }
  split.
  - intros kd off pre t post vp sp bs sd dd ar rd Hw E Hh Hcur. destruct t as [| |ts|]; try done.
    destruct (Hin _ _ _ E Hh) as (b & Eb & Hb). simpl in Hw. apply andb_true_iff in Hw as [[_ Hne]%andb_true_iff Hws].
    eapply (brackets_reads false); [done|by intros ->|done..].
  - intros kd off pre k t post vp sp bs sd dd Hk Ht E Hh. destruct (Hin _ _ _ E Hh) as (b & Eb & Hb).
    eapply (brackets_reads true); [done|done| |done..]. simpl. by rewrite Hk, Ht.
Qed.

Lemma element_reads_one v t t' off pre post vp sp bs sd dd ar :
  readable_value v → within accepted_key sd dd ar t = true → element_ty t = Some t' →
  enc o v t' vp = Some bs → held vp bs →
  let rd := elements_reader t off pre post vp sp in
  _dbus_type_reader_get_current_type rd = Some (element_code t) → reads_one rd (element_code t) v.
Proof.
  intros [Hp He] Hw Hte E Hh rd Hcur. unfold rd, elements_reader in *.
  destruct t as [|t1| |k v1]; try done; injection Hte as <-; simpl in Hw.
  - apply andb_true_iff in Hw as [_ Hw].
    pose proof (Hp KArray off (pre ++ [DBUS_TYPE_ARRAY]) t1 post vp sp bs _ _ _ Hw E Hh) as Hone.
    cbv zeta in Hone. rewrite length_app, <-app_assoc in Hone. by apply Hone.
  - apply andb_true_iff in Hw as [[_ Hk]%andb_true_iff Hv].
    pose proof (He KArray off (pre ++ [DBUS_TYPE_ARRAY]) k v1 post vp sp bs _ _ Hk Hv E Hh) as Hone.
    rewrite length_app, <-!app_assoc in Hone. simpl in Hone |- *. rewrite app_nil_r, <-!app_assoc in Hone.
    rewrite <-!app_assoc. exact Hone.
Qed.

(** The elements of an array. *)
Lemma elements_read vs : ∀ t t' off pre post vp sp n bs sd dd ar,
  Forall readable_value vs → within accepted_key sd dd ar t = true → element_ty t = Some t' →
  elements_place t off sp n → enc_elements o t' vs vp = Some bs → held vp bs → (sp <= vp)%nat → (vp + length bs = sp + n)%nat →
  reads (elements_reader t off pre post vp sp) vs.
Proof.
  induction vs as [|v vs IH]; intros t t' off pre post vp sp n bs sd dd ar Hvs Hw Hte Hn E Hh Hge Hend;
    (assert (typecode t = DBUS_TYPE_ARRAY) as Ht by by destruct t);
    pose proof (elements_current t off pre post vp sp n _ _ _ Hw Ht Hn ltac:(lia)) as Hcur.
  { injection E as <-. apply reads_end. rewrite Hcur, (proj2 (Nat.eqb_eq _ _)); [done|]. simpl in Hend. lia. }
  simpl in E. destruct (enc o v t' vp) as [b|] eqn:Eb; [|done]. simpl in E.
  destruct (enc_elements o t' vs (vp + length b)) as [q|] eqn:Eq; [|done]. injection E as <-.
  apply held_app in Hh as [Hh1 Hh2]. rewrite length_app in Hend. inversion_clear Hvs as [|? ? Hv Hvs'].
  pose proof (element_nonempty _ _ _ _ _ _ _ _ Hw Hte Eb) as Hne.
  rewrite (proj2 (Nat.eqb_neq vp (sp + n))) in Hcur by lia.
  destruct (elements_next v t t' off pre post vp sp n b (reader_fuel (elements_reader t off pre post vp sp)) _ _ _ Hw Hte Hn Eb Hh1)
    as (rd' & Hnext & Hmore & Hlast).
  { lia. } { lia. }
  { eapply fuel_enough; [done| |exact Hh1]. cbn [type_str elements_reader]. rewrite !length_app. lia. }
  assert (vs = [] ↔ (vp + length b)%nat = (sp + n)%nat) as Hvs0.
  { destruct vs as [|v2 vs]; [injection Eq as <-; simpl in Hend; split; [lia|done]|].
    simpl in Eq. destruct (enc o v2 t' (vp + length b)) as [b2|] eqn:Eb2; [|done]. simpl in Eq.
    destruct (enc_elements o t' vs _) as [q2|]; [|done]. injection Eq as <-. rewrite length_app in Hend.
    pose proof (element_nonempty _ _ _ _ _ _ _ _ Hw Hte Eb2). split; [done|lia]. }
  eapply (reads_next _ _ v vs rd'); [exact Hcur|..].
  - destruct (element_code_codes t _ _ _ Hw Ht) as (Hi & _). by apply byte_eqb_neq in Hi.
  - by eapply element_reads_one.
  - rewrite Hnext. f_equal. f_equal. apply eq_true_iff_eq. rewrite negb_true_iff, Nat.eqb_neq, bool_decide_eq_true. tauto.
  - destruct (decide (vs = [])) as [->|Hne2].
    + apply reads_end. apply Hlast. by apply Hvs0.
    + rewrite Hmore by (intros Hx; by apply Hne2, Hvs0). eapply IH; try done; lia.
Qed.

Lemma raw_place t off pre post sp bs sd dd ar :
  within accepted_key sd dd ar t = true → typecode t = DBUS_TYPE_ARRAY →
  dbus_type_is_fixed (element_code t) = true →
  elements_place t off sp (length bs) → held sp bs → (length bs mod element_alignment t)%nat = 0%nat →
  _dbus_type_reader_read_fixed_multi (elements_reader t off pre post sp sp)
  = Some (bs, length bs / element_alignment t)%nat.
Proof.
  intros Hw Ht Hfix Hn Hh Hm. destruct (element_code_at pre t post _ _ _ Hw Ht) as (Hc & Hal & Ha).
  unfold _dbus_type_reader_read_fixed_multi. rewrite Hn.
  cbn [mbind option_bind elements_reader type_str type_pos value_str value_pos start_pos types_only kind negb asserted].
  rewrite bool_decide_true by done. rewrite Hc, Hal, Hfix.
  destruct (element_code_codes t _ _ _ Hw Ht) as (-> & _).
  rewrite (proj2 (Nat.leb_le sp sp)), (proj2 (Nat.leb_le sp (sp + length bs))) by lia.
  replace (sp + length bs - sp)%nat with (length bs) by lia. rewrite Nat.leb_refl, Hm.
  cbn [negb asserted mbind option_bind]. destruct (length bs =? 0)%nat eqn:E0.
  { apply Nat.eqb_eq, nil_length_inv in E0 as ->. done. }
  destruct Hh as [Hs Hle] eqn:EH. rewrite (proj2 (Nat.leb_le _ _)) by (rewrite <- (is_str_length _ _ Hr); lia).
  cbn [asserted mbind option_bind].
  by rewrite (read_holds (str r) (length body) block_room sp bs (length bs) Hh eq_refl).
Qed.

Lemma array_readable v :
  is_array v = true → match v with VArray vs => Forall readable_value vs | _ => True end → readable_value v.
Proof.
  intros Hv Hvs. split; [|by destruct v]. intros kd off pre t post vp sp bs sd dd ar rd Hw E Hh Hcur.
  destruct (array_encoded _ _ _ _ Hv E) as [Ht _]. rewrite Ht.
  destruct (array_recurse v t kd off pre post vp sp bs _ _ _ Hw Hv E Hh) as (off' & start & x & Hrec & _ & Hn & Hx & _ & Hkind).
  destruct v as [| | |vs|bs'|]; try done.
  - destruct Hkind as (t' & Ht' & Ex). eapply one_array; [exact Hrec|]. eapply elements_read; try done.
  - subst x. destruct (element_code_at pre t post _ _ _ Hw Ht) as (Hec & Hal & _).
    eapply (one_raw _ _ _ (element_code t)); [|exact Hrec|].
    + unfold _dbus_type_reader_get_element_type. rewrite Hcur, Ht. cbn [rd type_str type_pos]. by rewrite Hec.
    + rewrite Hal. intros Hm. eapply raw_place; try done. rewrite enc_eq in E. destruct t as [|t1| |]; try done.
      destruct (raw_element t1) eqn:Hraw; [|done]. destruct t1 as [c| | |]; try done. simpl in Hraw |- *.
      by apply andb_true_iff in Hraw as [? _].
Qed.

Lemma all_readable v : readable_value v.
Proof.
  induction v as [b|ts|t' v IH|vs IH|bs'|vs IH] using val_ind'.
  - apply basic_readable.
  - apply signature_readable.
  - by apply variant_readable.
  - by apply array_readable.
  - by apply array_readable.
  - by apply struct_readable.
Qed.

End values.

(** ** Reading back *)

Lemma values_read `{Host} (o : byte_order) (pre post : bytes) (ts : list ty) (vs : list val)
    (a bs b : bytes) (r : DBusRealString) :
  sig_ok accepted_key ts = true → byte_at post 0 = x00 →
  enc_fields o vs ts (length a) = Some bs → is_str (a ++ bs ++ b) r →
  reads (_dbus_type_reader_init o (pre ++ print_sig ts ++ post) (length pre) r (length a)) vs.
Proof.
  intros Hok Hpost E Hr.
  assert (Forall (readable_value r o (a ++ bs ++ b)) vs) as Hvs by (apply list.Forall_forall; intros; by apply all_readable).
  eapply sequence_reads; [done|by left|done..|].
  destruct (is_str_split _ _ Hr) as [q Hq]. split.
  - rewrite Hq, <-!app_assoc. unfold sub. by rewrite drop_app_length, take_app_length.
  - rewrite !length_app. lia.
Qed.

(** C12: A client that walks over the values of a body with a type reader - current type,
    value or recursion, next, until the reader is at its end - finds the values that the
    body encodes, whatever they are and however they are nested. *)
Theorem reader_reads_values `{Host} (o : byte_order) (pre post : bytes) (ts : list ty) (vs : list val)
    (a bs b : bytes) (r : DBusRealString) :
  sig_ok accepted_key ts = true → byte_at post 0 = x00 →
  enc_fields o vs ts (length a) = Some bs → is_str (a ++ bs ++ b) r →
  reads (_dbus_type_reader_init o (pre ++ print_sig ts ++ post) (length pre) r (length a)) vs.
Proof. apply values_read. Qed.

Lemma reader_reads_values_witness :
  let host : Host := DBUS_LITTLE_ENDIAN in
  reads (_dbus_type_reader_init DBUS_BIG_ENDIAN (lit "a{ys}u") 0
           (concrete (block [0; 0; 0; 10; 0; 0; 0; 0; 7; 0; 0; 0; 0; 0; 0; 1; 65; 0; 0; 0; 0; 0; 0; 5])) 0)
    [VArray [VStruct [VBasic (Byt x07); VBasic (Str (lit "A"))]]; VBasic (U32 5)].
Proof.
  intros host.
  apply (reader_reads_values DBUS_BIG_ENDIAN [] [] [TDict (TLeaf "y") (TLeaf "s"); TLeaf "u"] _ []
    (block [0; 0; 0; 10; 0; 0; 0; 0; 7; 0; 0; 0; 0; 0; 0; 1; 65; 0; 0; 0; 0; 0; 0; 5]) []).
  - vm_compute. reflexivity.
  - reflexivity.
  - vm_compute. reflexivity.
  - repeat split; vm_compute; congruence.
Defined.
