(* ===== verification/Header.v ===== *)
(** * Header: message headers

    Models src/dbus/dbus-marshal-header.c as far as headers are read: the cache of field
    positions, the test for a whole message, loading with validation, the fixed part
    and the fields.  Creating and changing fields needs the type writer and is left
    out. *)

From S2P Require Import Prelude Search Names DString Text Types Signature MarshalBasic Reader Body.

Definition BYTE_ORDER_OFFSET : nat := 0.
Definition TYPE_OFFSET : nat := 1.
Definition FLAGS_OFFSET : nat := 2.
Definition VERSION_OFFSET : nat := 3.
Definition BODY_LENGTH_OFFSET : nat := 4.
Definition SERIAL_OFFSET : nat := 8.
Definition FIELDS_ARRAY_LENGTH_OFFSET : nat := 12.
Definition FIRST_FIELD_OFFSET : nat := 16.
Definition FIELDS_ARRAY_SIGNATURE_OFFSET : nat := 6.
Definition DBUS_MINIMUM_HEADER_SIZE : nat := 16.
Definition DBUS_MAJOR_PROTOCOL_VERSION : Z := 1.

Definition DBUS_HEADER_SIGNATURE : bytes := lit "yyyyuua(yv)".

Definition DBUS_HEADER_FIELD_INVALID : nat := 0.
Definition DBUS_HEADER_FIELD_PATH : nat := 1.
Definition DBUS_HEADER_FIELD_INTERFACE : nat := 2.
Definition DBUS_HEADER_FIELD_MEMBER : nat := 3.
Definition DBUS_HEADER_FIELD_ERROR_NAME : nat := 4.
Definition DBUS_HEADER_FIELD_REPLY_SERIAL : nat := 5.
Definition DBUS_HEADER_FIELD_DESTINATION : nat := 6.
Definition DBUS_HEADER_FIELD_SENDER : nat := 7.
Definition DBUS_HEADER_FIELD_SIGNATURE : nat := 8.
Definition DBUS_HEADER_FIELD_LAST : nat := 8.

(** The types of the fields, by their codes. *)
Definition _dbus_header_field_types : list byte :=
  [DBUS_TYPE_INVALID; DBUS_TYPE_OBJECT_PATH; DBUS_TYPE_STRING; DBUS_TYPE_STRING; DBUS_TYPE_STRING;
   DBUS_TYPE_UINT32; DBUS_TYPE_STRING; DBUS_TYPE_STRING; DBUS_TYPE_SIGNATURE].

Definition EXPECTED_TYPE_OF_FIELD (field : nat) : byte := nth field _dbus_header_field_types DBUS_TYPE_INVALID.

Definition _DBUS_HEADER_FIELD_VALUE_UNKNOWN : Z := -1.
Definition _DBUS_HEADER_FIELD_VALUE_NONEXISTENT : Z := -2.

(** [fields] holds [value_pos] of each code. *)
Record DBusHeader := Header {
  data : DBusRealString;
  fields : list Z;
  padding_len : nat;
  header_order : byte_order
}.

#[export] Instance basic_value_eq_dec : EqDecision DBusBasicValue.
Proof. solve_decision. Defined.

Abbreviation HM := (M DBusHeader).

Definition on_data {A} (c : SM A) : HM A := λ h m,
  match c (data h) m with
  | Ok a d m' => Ok a (Header d (fields h) (padding_len h) (header_order h)) m'
  | Failed d m' => Failed (Header d (fields h) (padding_len h) (header_order h)) m'
  | Ub => Ub
  end.

Definition set_fields (f : list Z → list Z) : HM unit :=
  modify (λ h, Header (data h) (f (fields h)) (padding_len h) (header_order h)).

(** A validator that may lack memory. *)
Definition validating {A} (c : V A) : HM (DBusValidity + A) := λ h m,
  match c m with
  | Some (x, m') => Ok x h m'
  | None => Ub
  end.

Definition _dbus_string_equal_substring (a : bytes) (a_start a_len : nat) (b : bytes) (b_start : nat) : option bool :=
  if (length a <? a_start)%nat || (length a - a_start <? a_len)%nat || (length b <? b_start)%nat then None
  else if (length b - b_start <? a_len)%nat then Some false
  else Some (bool_decide (sub a a_start a_len = sub b b_start a_len)).

Section header.
Context `{Host}.

(** ** The cache of positions *)

Definition _dbus_header_cache_invalidate_all : HM unit :=
  set_fields (λ _, replicate (DBUS_HEADER_FIELD_LAST + 1) _DBUS_HEADER_FIELD_VALUE_UNKNOWN).

Definition _dbus_header_cache_one (field_code : nat) (variant_reader : DBusTypeReader) : HM unit :=
  set_fields (insert field_code (Z.of_nat (value_pos variant_reader))).

Definition field_pos (field : nat) : HM Z :=
  h ← gets id;
  checked (fields h !! field).

(** Turns of a reader over the header. *)
Definition turns (rd : DBusTypeReader) : nat := (length (type_str rd) + length (str (value_str rd)))%nat.

(** The code of a field: the first value of its struct. *)
Definition read_code (sub_ : DBusTypeReader) : HM nat :=
  t ← checked (_dbus_type_reader_get_current_type sub_);
  assert_ (t =b DBUS_TYPE_BYTE);;
  v ← checked (_dbus_type_reader_read_basic sub_);
  checked (match v with Byt c => Some (Z.to_nat (b2z c)) | _ => None end).

Fixpoint revalidate_loop (n : nat) (array : DBusTypeReader) : HM unit :=
  match n with
  | O => λ _ _, Ub
  | S n' =>
      t ← checked (_dbus_type_reader_get_current_type array);
      if t =b DBUS_TYPE_INVALID then mret tt
      else
        sub_ ← checked (_dbus_type_reader_recurse array);
        field_code ← read_code sub_;
        (if (DBUS_HEADER_FIELD_LAST <? field_code)%nat then mret tt
         else
           '(_, sub_) ← checked (_dbus_type_reader_next (turns sub_) sub_);
           t ← checked (_dbus_type_reader_get_current_type sub_);
           assert_ (t =b DBUS_TYPE_VARIANT);;
           variant ← checked (_dbus_type_reader_recurse sub_);
           _dbus_header_cache_one field_code variant);;
        '(_, array) ← checked (_dbus_type_reader_next (turns array) array);
        revalidate_loop n' array
  end.

Definition _dbus_header_cache_revalidate : HM unit :=
  set_fields (λ _, replicate (DBUS_HEADER_FIELD_LAST + 1) _DBUS_HEADER_FIELD_VALUE_NONEXISTENT);;
  h ← gets id;
  let reader := _dbus_type_reader_init (header_order h) DBUS_HEADER_SIGNATURE FIELDS_ARRAY_SIGNATURE_OFFSET
                  (data h) FIELDS_ARRAY_LENGTH_OFFSET in
  array ← checked (_dbus_type_reader_recurse reader);
  revalidate_loop (S (length (str (data h)))) array.

Definition _dbus_header_cache_check (field : nat) : HM bool :=
  assert_ (field <=? DBUS_HEADER_FIELD_LAST)%nat;;
  p ← field_pos field;
  (if p =? _DBUS_HEADER_FIELD_VALUE_UNKNOWN then _dbus_header_cache_revalidate else mret tt);;
  p ← field_pos field;
  mret (negb (p =? _DBUS_HEADER_FIELD_VALUE_NONEXISTENT)).

Definition _dbus_header_cache_known_nonexistent (field : nat) : HM bool :=
  assert_ (field <=? DBUS_HEADER_FIELD_LAST)%nat;;
  p ← field_pos field;
  mret (p =? _DBUS_HEADER_FIELD_VALUE_NONEXISTENT).

(** ** Fixed part *)

Definition _dbus_header_get_message_type : HM Z :=
  h ← gets id;
  b ← checked (_dbus_string_get_byte TYPE_OFFSET (data h));
  let type := b2z b in
  assert_ (negb (type =? DBUS_MESSAGE_TYPE_INVALID));;
  mret type.

Definition _dbus_header_get_serial : HM Z :=
  h ← gets id;
  '(v, _) ← checked (_dbus_marshal_read_uint32 (data h) SERIAL_OFFSET (header_order h));
  mret v.

Definition _dbus_header_set_serial (serial : Z) : HM unit :=
  old ← _dbus_header_get_serial;
  assert_ ((old =? 0) || (serial =? 0));;
  h ← gets id;
  on_data (_dbus_marshal_set_uint32 SERIAL_OFFSET serial (header_order h)).

Definition _dbus_header_update_lengths (body_len : Z) : HM unit :=
  h ← gets id;
  on_data (_dbus_marshal_set_uint32 BODY_LENGTH_OFFSET body_len (header_order h)).

Definition _dbus_header_reinit (o : byte_order) : HM unit :=
  on_data (set_length 0);;
  modify (λ h, Header (data h) (fields h) 0 o);;
  _dbus_header_cache_invalidate_all.

(** *** Flags; [_dbus_string_get_data_len] asserts that the byte is there *)

Definition _dbus_header_toggle_flag (flag : Z) (value : bool) : HM unit :=
  h ← gets id;
  assert_ (FLAGS_OFFSET + 1 <=? len (data h))%nat;;
  let old := b2z (byte_at (str (data h)) FLAGS_OFFSET) in
  let new := if value then Z.lor old flag else Z.land old (Z.lnot flag) in
  on_data (store (λ b, mem_write b FLAGS_OFFSET [z2b new])).

Definition _dbus_header_get_flag (flag : Z) : HM bool :=
  h ← gets id;
  assert_ (FLAGS_OFFSET + 1 <=? len (data h))%nat;;
  mret (negb (Z.land (b2z (byte_at (str (data h)) FLAGS_OFFSET)) flag =? 0)).

(** ** Fields *)

(** [None] is FALSE: there is no such field. *)
Definition _dbus_header_get_field_basic (field : nat) (type : byte) : HM (option DBusBasicValue) :=
  assert_ (negb (field =? DBUS_HEADER_FIELD_INVALID)%nat);;
  assert_ (field <=? DBUS_HEADER_FIELD_LAST)%nat;;
  assert_ (type =b EXPECTED_TYPE_OF_FIELD field);;
  found ← _dbus_header_cache_check field;
  if negb found then mret None
  else
    p ← field_pos field;
    assert_ (0 <=? p);;
    h ← gets id;
    '(v, _) ← checked (_dbus_marshal_read_basic (data h) (Z.to_nat p) type (header_order h));
    mret (Some v).

(** The position in [data]. *)
Definition _dbus_header_get_field_raw (field : nat) : HM (option Z) :=
  found ← _dbus_header_cache_check field;
  if negb found then mret None
  else p ← field_pos field; mret (Some p).

(** ** A whole message *)

Record message_lengths := Lengths {
  claimed_order : byte_order;
  fields_array_len : nat;
  header_len : nat;
  body_len : nat
}.

(** [inl]: the data are invalid; [None]: not a whole message yet.  The string is read at
    [start]. *)
Definition _dbus_header_have_message_untrusted (max_message_length : Z) (r : DBusRealString) (start len : nat) :
    option (DBusValidity + option message_lengths) :=
  if negb ((Z.of_nat start <? (2 ^ 31 - 1) / 2) && (start =? align_up start 8)%nat) then None
  else
    order_byte ← _dbus_string_get_byte (start + BYTE_ORDER_OFFSET) r;
    match (if order_byte =b "l" then Some DBUS_LITTLE_ENDIAN
           else if order_byte =b "B" then Some DBUS_BIG_ENDIAN else None) with
    | None => Some (inl DBUS_INVALID_BAD_BYTE_ORDER)
    | Some o =>
        if (len <? FIELDS_ARRAY_LENGTH_OFFSET + 4)%nat then None
        else
          '(fields_len, _) ← _dbus_marshal_read_uint32 r (start + FIELDS_ARRAY_LENGTH_OFFSET) o;
          if u32 max_message_length <? fields_len then Some (inl DBUS_INVALID_INSANE_FIELDS_ARRAY_LENGTH)
          else if (len <=? BODY_LENGTH_OFFSET + 4)%nat then None
          else
            '(b_len, _) ← _dbus_marshal_read_uint32 r (start + BODY_LENGTH_OFFSET) o;
            if u32 max_message_length <? b_len then Some (inl DBUS_INVALID_INSANE_BODY_LENGTH)
            else
              let h_len := _DBUS_ALIGN_VALUE (u32 (Z.of_nat FIRST_FIELD_OFFSET + fields_len)) 8 in
              if (2 ^ 31 - 1) / 2 <=? max_message_length then None
              else if u32 max_message_length <? u32 (b_len + h_len) then Some (inl DBUS_INVALID_MESSAGE_TOO_LONG)
              else if negb ((b_len <? 2 ^ 31 - 1) && (fields_len <? 2 ^ 31 - 1) && (h_len <? 2 ^ 31 - 1)) then None
              else if u32 (b_len + h_len) <=? Z.of_nat len
              then Some (inr (Some (Lengths o (Z.to_nat fields_len) (Z.to_nat h_len) (Z.to_nat b_len))))
              else Some (inr None)
    end.

(** ** Loading *)

Definition DBUS_INTERFACE_LOCAL : bytes := lit "org.freedesktop.DBus.Local".
Definition DBUS_PATH_LOCAL : bytes := lit "/org/freedesktop/DBus/Local".

(** REQUIRE_FIELD for some fields, with the codes when they are missing. *)
Fixpoint require_fields (l : list (nat * DBusValidity)) : HM DBusValidity :=
  match l with
  | [] => mret DBUS_VALID
  | (field, missing) :: l' =>
      p ← field_pos field;
      if p <? 0 then mret missing else require_fields l'
  end.

Definition mandatory_fields (type : Z) : list (nat * DBusValidity) :=
  let call := [(DBUS_HEADER_FIELD_PATH, DBUS_INVALID_MISSING_PATH);
               (DBUS_HEADER_FIELD_MEMBER, DBUS_INVALID_MISSING_MEMBER)] in
  if type =? DBUS_MESSAGE_TYPE_SIGNAL then (DBUS_HEADER_FIELD_INTERFACE, DBUS_INVALID_MISSING_INTERFACE) :: call
  else if type =? DBUS_MESSAGE_TYPE_METHOD_CALL then call
  else if type =? DBUS_MESSAGE_TYPE_ERROR then
    [(DBUS_HEADER_FIELD_ERROR_NAME, DBUS_INVALID_MISSING_ERROR_NAME);
     (DBUS_HEADER_FIELD_REPLY_SERIAL, DBUS_INVALID_MISSING_REPLY_SERIAL)]
  else if type =? DBUS_MESSAGE_TYPE_METHOD_RETURN then
    [(DBUS_HEADER_FIELD_REPLY_SERIAL, DBUS_INVALID_MISSING_REPLY_SERIAL)]
  else [].

Definition check_mandatory_fields : HM DBusValidity :=
  type ← _dbus_header_get_message_type;
  require_fields (mandatory_fields type).

(** The test of a string field, with the code when it fails. *)
Definition string_validation_func (field : nat) : option ((bytes → nat → nat → bool) * DBusValidity) :=
  if (field =? DBUS_HEADER_FIELD_DESTINATION)%nat then Some (_dbus_validate_bus_name, DBUS_INVALID_BAD_DESTINATION)
  else if (field =? DBUS_HEADER_FIELD_INTERFACE)%nat then Some (_dbus_validate_interface, DBUS_INVALID_BAD_INTERFACE)
  else if (field =? DBUS_HEADER_FIELD_MEMBER)%nat then Some (_dbus_validate_member, DBUS_INVALID_BAD_MEMBER)
  else if (field =? DBUS_HEADER_FIELD_ERROR_NAME)%nat then Some (_dbus_validate_error_name, DBUS_INVALID_BAD_ERROR_NAME)
  else if (field =? DBUS_HEADER_FIELD_SENDER)%nat then Some (_dbus_validate_bus_name, DBUS_INVALID_BAD_SENDER)
  else None.

(** The text that a field must not begin with. *)
Definition local_text (field : nat) : option (bytes * DBusValidity) :=
  if (field =? DBUS_HEADER_FIELD_INTERFACE)%nat then Some (DBUS_INTERFACE_LOCAL, DBUS_INVALID_USES_LOCAL_INTERFACE)
  else if (field =? DBUS_HEADER_FIELD_PATH)%nat then Some (DBUS_PATH_LOCAL, DBUS_INVALID_USES_LOCAL_PATH)
  else None.

(** A field with a string value at [pos]. *)
Definition validate_string_field (field pos : nat) : HM DBusValidity :=
  h ← gets id;
  let value := contents (data h) in
  let str_data_pos := (align_up pos 4 + 4)%nat in
  is_local ← match local_text field with
             | Some (text, code) =>
                 eq ← checked (_dbus_string_equal_substring text 0 (length text) value str_data_pos);
                 mret (if (eq : bool) then Some code else None)
             | None => mret None
             end;
  match is_local with
  | Some code => mret code
  | None =>
      match string_validation_func field with
      | Some (valid, bad_string_code) =>
          '(len, _) ← checked (_dbus_marshal_read_uint32 (data h) pos (header_order h));
          mret (if valid value str_data_pos (Z.to_nat len) then DBUS_VALID else bad_string_code)
      | None => mret DBUS_VALID
      end
  end.

Definition load_and_validate_field (field : nat) (variant_reader : DBusTypeReader) : HM DBusValidity :=
  assert_ (field <=? DBUS_HEADER_FIELD_LAST)%nat;;
  assert_ (negb (field =? DBUS_HEADER_FIELD_INVALID)%nat);;
  type ← checked (_dbus_type_reader_get_current_type variant_reader);
  let expected_type := EXPECTED_TYPE_OF_FIELD field in
  if negb (type =b expected_type) then mret DBUS_INVALID_HEADER_FIELD_HAS_WRONG_TYPE
  else
    p ← field_pos field;
    if 0 <=? p then mret DBUS_INVALID_HEADER_FIELD_APPEARS_TWICE
    else
      _dbus_header_cache_one field variant_reader;;
      if expected_type =b DBUS_TYPE_UINT32 then
        v ← _dbus_header_get_field_basic field expected_type;
        mret (match v with Some (U32 0) => DBUS_INVALID_BAD_SERIAL | _ => DBUS_VALID end)
      else
        pos ← _dbus_header_get_field_raw field;
        pos ← checked pos;
        validate_string_field field (Z.to_nat pos).

(** The fields of the array; the header is invalid when the result is not VALID. *)
Fixpoint fields_loop (n : nat) (array_reader : DBusTypeReader) : HM DBusValidity :=
  match n with
  | O => λ _ _, Ub
  | S n' =>
      t ← checked (_dbus_type_reader_get_current_type array_reader);
      if t =b DBUS_TYPE_INVALID then mret DBUS_VALID
      else
        assert_ (t =b DBUS_TYPE_STRUCT);;
        struct_reader ← checked (_dbus_type_reader_recurse array_reader);
        field_code ← read_code struct_reader;
        '(_, struct_reader) ← checked (_dbus_type_reader_next (turns struct_reader) struct_reader);
        v ← (if (field_code =? DBUS_HEADER_FIELD_INVALID)%nat then mret DBUS_INVALID_HEADER_FIELD_CODE
             else if (DBUS_HEADER_FIELD_LAST <? field_code)%nat then mret DBUS_VALID
             else
               t ← checked (_dbus_type_reader_get_current_type struct_reader);
               assert_ (t =b DBUS_TYPE_VARIANT);;
               variant_reader ← checked (_dbus_type_reader_recurse struct_reader);
               load_and_validate_field field_code variant_reader);
        if decide (v = DBUS_VALID) then
          '(_, array_reader) ← checked (_dbus_type_reader_next (turns array_reader) array_reader);
          fields_loop n' array_reader
        else mret v
  end.

(** One of the basic values in front of the fields. *)
Definition take_basic (reader : DBusTypeReader) (type : byte) (offset : nat) : HM (DBusBasicValue * DBusTypeReader) :=
  t ← checked (_dbus_type_reader_get_current_type reader);
  assert_ (t =b type);;
  assert_ (value_pos reader =? offset)%nat;;
  v ← checked (_dbus_type_reader_read_basic reader);
  '(_, reader) ← checked (_dbus_type_reader_next (turns reader) reader);
  mret (v, reader).

(** After the header was found well-formed: its values. *)
Definition load_values (o : byte_order) (b_len : nat) (r : DBusRealString) (start : nat) : HM DBusValidity :=
  let reader := _dbus_type_reader_init o DBUS_HEADER_SIGNATURE 0 r start in
  '(v, reader) ← take_basic reader DBUS_TYPE_BYTE BYTE_ORDER_OFFSET;
  assert_ (bool_decide (v = Byt (if decide (o = DBUS_LITTLE_ENDIAN) then "l" else "B")));;
  modify (λ h, Header (data h) (fields h) (padding_len h) o);;
  '(v, reader) ← take_basic reader DBUS_TYPE_BYTE TYPE_OFFSET;
  if bool_decide (v = Byt (z2b DBUS_MESSAGE_TYPE_INVALID)) then mret DBUS_INVALID_BAD_MESSAGE_TYPE
  else
    '(_, reader) ← take_basic reader DBUS_TYPE_BYTE FLAGS_OFFSET;
    '(v, reader) ← take_basic reader DBUS_TYPE_BYTE VERSION_OFFSET;
    if negb (bool_decide (v = Byt (z2b DBUS_MAJOR_PROTOCOL_VERSION))) then mret DBUS_INVALID_BAD_PROTOCOL_VERSION
    else
      '(v, reader) ← take_basic reader DBUS_TYPE_UINT32 BODY_LENGTH_OFFSET;
      assert_ (bool_decide (v = U32 (Z.of_nat b_len)));;
      '(v, reader) ← take_basic reader DBUS_TYPE_UINT32 SERIAL_OFFSET;
      if bool_decide (v = U32 0) then mret DBUS_INVALID_BAD_SERIAL
      else
        t ← checked (_dbus_type_reader_get_current_type reader);
        assert_ (t =b DBUS_TYPE_ARRAY);;
        assert_ (value_pos reader =? FIELDS_ARRAY_LENGTH_OFFSET)%nat;;
        array_reader ← checked (_dbus_type_reader_recurse reader);
        v ← fields_loop (S (length (str r))) array_reader;
        if decide (v = DBUS_VALID) then
          set_fields (map (λ p, if p =? _DBUS_HEADER_FIELD_VALUE_UNKNOWN
                                then _DBUS_HEADER_FIELD_VALUE_NONEXISTENT else p));;
          check_mandatory_fields
        else mret v.

(** [invalid:], the way out with a reason. *)
Definition invalid (v : DBusValidity) : HM DBusValidity := on_data (set_length 0);; mret v.

(** After the validation of the body: the padding and the values. *)
Definition finish_load (trusted : bool) (l : message_lengths) (r : DBusRealString) (start len_ leftover : nat) :
    HM DBusValidity :=
  let padding_start := (start + FIRST_FIELD_OFFSET + fields_array_len l)%nat in
  let padding := (header_len l - (FIRST_FIELD_OFFSET + fields_array_len l))%nat in
  assert_ (leftover <? len_)%nat;;
  assert_ (start + header_len l =? align_up padding_start 8)%nat;;
  assert_ (start + header_len l =? padding_start + padding)%nat;;
  if negb trusted && negb (_dbus_string_validate_nul (contents r) padding_start padding)
  then invalid DBUS_INVALID_ALIGNMENT_PADDING_NOT_NUL
  else
    modify (λ h, Header (data h) (fields h) padding (header_order h));;
    if trusted then mret DBUS_VALID
    else
      v ← load_values (claimed_order l) (body_len l) r start;
      if decide (v = DBUS_VALID) then mret DBUS_VALID else invalid v.

(** The result is VALID for TRUE.  [trusted] is the mode without validation. *)
Definition _dbus_header_load (trusted : bool) (l : message_lengths) (r : DBusRealString) (start len_ : nat) :
    HM DBusValidity :=
  assert_ (start =? align_up start 8)%nat;;
  assert_ (header_len l <=? len_)%nat;;
  h ← gets id;
  assert_ (len (data h) =? 0)%nat;;
  copied ← attempt (on_data (_dbus_string_copy_len r start (header_len l) 0));
  if negb copied then mret DBUS_VALIDITY_UNKNOWN_OOM_ERROR
  else
    v ← (if trusted then mret (inr (len_ - header_len l - body_len l - start)%nat)
         else validating (_dbus_validate_body_with_reason DBUS_HEADER_SIGNATURE 0 (claimed_order l) true r start len_));
    match v with
    | inl v => invalid v
    | inr leftover => finish_load trusted l r start len_ leftover
    end.

End header.
