(* ===== verification/Fields.v ===== *)
(** * Fields: what loading a header guarantees

    Theorems on [Header]: a header that is loaded is the encoding of its values with
    fields of the right types, valid names and the fields its message type needs, and the
    cache leads to the fields; every such header is loaded. *)

From S2P Require Import Prelude Search Names DString Text Types Signature MarshalBasic Reader Body Values Header.

(** ** The values of a header *)

Definition field_ty : ty := TStruct [TLeaf DBUS_TYPE_BYTE; TLeaf DBUS_TYPE_VARIANT].
Definition header_types : list ty :=
  [TLeaf DBUS_TYPE_BYTE; TLeaf DBUS_TYPE_BYTE; TLeaf DBUS_TYPE_BYTE; TLeaf DBUS_TYPE_BYTE;
   TLeaf DBUS_TYPE_UINT32; TLeaf DBUS_TYPE_UINT32; TArray field_ty].

Lemma header_types_print : print_sig header_types = DBUS_HEADER_SIGNATURE.
Proof. done. Qed.

Lemma header_types_ok : sig_ok accepted_key header_types = true.
Proof. done. Qed.

(** A field: its code, and the type and value of its variant. *)
Record field := Field { code : byte; field_type : ty; field_value : val }.

Definition field_val (f : field) : val :=
  VStruct [VBasic (Byt (code f)); VVariant (field_type f) (field_value f)].

Definition code_nat (f : field) : nat := Z.to_nat (b2z (code f)).

Record header_values := HeaderValues {
  hv_order : byte;
  hv_type : byte;
  hv_flags : byte;
  hv_version : byte;
  hv_body_len : Z;
  hv_serial : Z;
  hv_fields : list field
}.

Definition values_of (h : header_values) : list val :=
  [VBasic (Byt (hv_order h)); VBasic (Byt (hv_type h)); VBasic (Byt (hv_flags h)); VBasic (Byt (hv_version h));
   VBasic (U32 (hv_body_len h)); VBasic (U32 (hv_serial h)); VArray (field_val <$> hv_fields h)].

Lemma byte_shape o v p bs : enc o v (TLeaf DBUS_TYPE_BYTE) p = Some bs → ∃ c, v = VBasic (Byt c) ∧ bs = [c].
Proof.
  rewrite enc_eq. destruct v as [b| | | | |]; try done. destruct b; try done. simpl. intros [= <-].
  eexists. split; [done|]. unfold wire. by rewrite padding_1.
Qed.

Lemma u32_shape o v p bs :
  enc o v (TLeaf DBUS_TYPE_UINT32) p = Some bs →
  ∃ z, v = VBasic (U32 z) ∧ 0 <= z < 2 ^ 32 ∧ bs = padding p 4 ++ octets o 4 z.
Proof.
  rewrite enc_eq. destruct v as [b| | | | |]; try done. destruct b as [|z|z|z|]; try done.
  destruct (basic_ok DBUS_TYPE_UINT32 (U32 z)) eqn:E; [|done]. intros [= <-]. exists z. split; [done|].
  unfold basic_ok in E. simpl in E. split; [lia|done].
Qed.

Lemma field_shape o v p bs : enc o v field_ty p = Some bs → ∃ f, v = field_val f.
Proof.
  rewrite enc_eq. destruct v as [| | | | |vs]; try done. unfold field_ty.
  destruct (enc_fields o vs _ _) as [b|] eqn:E; [|done]. intros _.
  destruct vs as [|v1 vs]; [done|]. destruct (enc_fields_cons _ _ _ _ _ _ _ E) as (b1 & q & E1 & E2 & _).
  destruct vs as [|v2 vs]; [done|]. destruct (enc_fields_cons _ _ _ _ _ _ _ E2) as (b2 & q2 & E3 & E4 & _).
  destruct vs; [|done]. destruct (byte_shape _ _ _ _ E1) as (c & -> & _).
  rewrite enc_eq in E3. destruct v2 as [| |t v| | |]; try done. by exists (Field c t v).
Qed.

Lemma fields_shape o vs : ∀ p bs, enc_elements o field_ty vs p = Some bs → ∃ fs, vs = field_val <$> fs.
Proof.
  induction vs as [|v vs IH]; intros p bs; [by exists []|]. simpl.
  destruct (enc o v field_ty p) as [b|] eqn:E; [|done]. simpl.
  destruct (enc_elements o field_ty vs _) as [q|] eqn:Eq; [|done]. intros _.
  destruct (field_shape _ _ _ _ E) as [f ->]. destruct (IH _ _ Eq) as [fs ->]. by exists (f :: fs).
Qed.

(** The bytes of a header, without the padding behind it. *)
Definition header_bytes (o : byte_order) (h : header_values) : option bytes :=
  enc_fields o (values_of h) header_types 0.

Lemma enc_fields_inv o vs t ts p bs :
  enc_fields o vs (t :: ts) p = Some bs →
  ∃ v vs' b q, vs = v :: vs' ∧ enc o v t p = Some b ∧ enc_fields o vs' ts (p + length b) = Some q ∧ bs = b ++ q.
Proof.
  destruct vs as [|v vs]; [done|]. intros (b & q & ? & ? & ?)%enc_fields_cons. by exists v, vs, b, q.
Qed.

Lemma header_shape o vs bs : enc_fields o vs header_types 0 = Some bs → ∃ h, vs = values_of h.
Proof.
  unfold header_types. intros (v1 & vs1 & b1 & q1 & -> & E1 & E & _)%enc_fields_inv.
  apply enc_fields_inv in E as (v2 & vs2 & b2 & q2 & -> & E2 & E & _).
  apply enc_fields_inv in E as (v3 & vs3 & b3 & q3 & -> & E3 & E & _).
  apply enc_fields_inv in E as (v4 & vs4 & b4 & q4 & -> & E4 & E & _).
  apply enc_fields_inv in E as (v5 & vs5 & b5 & q5 & -> & E5 & E & _).
  apply enc_fields_inv in E as (v6 & vs6 & b6 & q6 & -> & E6 & E & _).
  apply enc_fields_inv in E as (v7 & vs7 & b7 & q7 & -> & E7 & E & _).
  destruct vs7; [|done].
  destruct (byte_shape _ _ _ _ E1) as (c1 & -> & _), (byte_shape _ _ _ _ E2) as (c2 & -> & _),
    (byte_shape _ _ _ _ E3) as (c3 & -> & _), (byte_shape _ _ _ _ E4) as (c4 & -> & _),
    (u32_shape _ _ _ _ E5) as (z5 & -> & _), (u32_shape _ _ _ _ E6) as (z6 & -> & _).
  rewrite enc_eq in E7. destruct v7 as [| | |vs| |]; try done. simpl in E7. unfold enc_array in E7.
  destruct (enc_elements o field_ty vs _) as [x|] eqn:Ex; [|done].
  destruct (fields_shape _ _ _ _ Ex) as [fs ->]. by exists (HeaderValues c1 c2 c3 c4 z5 z6 fs).
Qed.

(** The bytes of a header, one part after the other. *)
Lemma header_parts o h bs :
  header_bytes o h = Some bs →
  ∃ x, enc_elements o field_ty (field_val <$> hv_fields h) 16 = Some x
    ∧ Z.of_nat (length x) <= DBUS_MAXIMUM_ARRAY_LENGTH
    ∧ 0 <= hv_body_len h < 2 ^ 32 ∧ 0 <= hv_serial h < 2 ^ 32
    ∧ bs = [hv_order h; hv_type h; hv_flags h; hv_version h] ++ octets o 4 (hv_body_len h) ++ octets o 4 (hv_serial h)
           ++ octets o 4 (Z.of_nat (length x)) ++ x.
Proof.
  unfold header_bytes, values_of, header_types.
  intros (b1 & q1 & E1 & E & ->)%enc_fields_cons. apply enc_fields_cons in E as (b2 & q2 & E2 & E & ->).
  apply enc_fields_cons in E as (b3 & q3 & E3 & E & ->). apply enc_fields_cons in E as (b4 & q4 & E4 & E & ->).
  destruct (byte_shape _ _ _ _ E1) as (? & [= <-] & ->), (byte_shape _ _ _ _ E2) as (? & [= <-] & ->),
    (byte_shape _ _ _ _ E3) as (? & [= <-] & ->), (byte_shape _ _ _ _ E4) as (? & [= <-] & ->).
  cbn [length Nat.add] in E. apply enc_fields_cons in E as (b5 & q5 & E5 & E & ->).
  destruct (u32_shape _ _ _ _ E5) as (? & [= <-] & H5 & ->).
  change (padding 4 4) with (@nil byte) in *. cbn [app] in *. rewrite length_octets in E. cbn [Nat.add] in E.
  apply enc_fields_cons in E as (b6 & q6 & E6 & E & ->). destruct (u32_shape _ _ _ _ E6) as (? & [= <-] & H6 & ->).
  change (padding 8 4) with (@nil byte) in *. cbn [app] in *. rewrite length_octets in E. cbn [Nat.add] in E.
  apply enc_fields_cons in E as (b7 & q7 & E7 & [= <-] & ->). rewrite app_nil_r.
  rewrite enc_eq in E7. cbn [raw_element field_ty] in E7. unfold enc_array in E7.
  change (align_up _ (typecode_alignment field_ty)) with 16%nat in E7.
  destruct (enc_elements o field_ty _ 16) as [x|] eqn:Ex; [|done]. cbn [mbind option_bind] in E7.
  destruct (Z.ltb_spec DBUS_MAXIMUM_ARRAY_LENGTH (Z.of_nat (length x))); [done|]. injection E7 as <-.
  exists x. done.
Qed.

(** ** What a header has to satisfy *)

Definition starts (text s : bytes) : bool := bool_decide (take (length text) s = text).

(** The verdict on the text of a field. *)
Definition text_verdict (c : nat) (s : bytes) : DBusValidity :=
  let valid (f : bytes → nat → nat → bool) e := if f s 0%nat (length s) then DBUS_VALID else e in
  match c with
  | 1%nat => if starts DBUS_PATH_LOCAL s then DBUS_INVALID_USES_LOCAL_PATH else DBUS_VALID
  | 2%nat => if starts DBUS_INTERFACE_LOCAL s then DBUS_INVALID_USES_LOCAL_INTERFACE
         else valid _dbus_validate_interface DBUS_INVALID_BAD_INTERFACE
  | 3%nat => valid _dbus_validate_member DBUS_INVALID_BAD_MEMBER
  | 4%nat => valid _dbus_validate_error_name DBUS_INVALID_BAD_ERROR_NAME
  | 6%nat => valid _dbus_validate_bus_name DBUS_INVALID_BAD_DESTINATION
  | 7%nat => valid _dbus_validate_bus_name DBUS_INVALID_BAD_SENDER
  | _ => DBUS_VALID
  end.

Definition value_verdict (f : field) : DBusValidity :=
  match field_value f with
  | VBasic (U32 0) => DBUS_INVALID_BAD_SERIAL
  | VBasic (Str s) => text_verdict (code_nat f) s
  | _ => DBUS_VALID
  end.

Definition find_field (c : nat) (fs : list field) : option field := List.find (λ f, code_nat f =? c)%nat fs.

(** The types of the fields, by code. *)
Definition field_typecode (c : nat) : byte :=
  match c with
  | 1%nat => "o"%byte
  | 5%nat => "u"%byte
  | 8%nat => "g"%byte
  | 2%nat | 3%nat | 4%nat | 6%nat | 7%nat => "s"%byte
  | _ => x00
  end.

(** The verdict on a field after the fields [seen]; unknown codes are skipped. *)
Definition field_verdict (seen : list field) (f : field) : DBusValidity :=
  let c := code_nat f in
  if (c =? 0)%nat then DBUS_INVALID_HEADER_FIELD_CODE
  else if (8 <? c)%nat then DBUS_VALID
  else if negb (typecode (field_type f) =b field_typecode c) then DBUS_INVALID_HEADER_FIELD_HAS_WRONG_TYPE
  else if find_field c seen then DBUS_INVALID_HEADER_FIELD_APPEARS_TWICE
  else value_verdict f.

Fixpoint fields_verdict (seen fs : list field) : DBusValidity :=
  match fs with
  | [] => DBUS_VALID
  | f :: fs' =>
      if decide (field_verdict seen f = DBUS_VALID) then fields_verdict (seen ++ [f]) fs' else field_verdict seen f
  end.

(** The first of the fields that is missing. *)
Fixpoint missing_verdict (needed : list (nat * DBusValidity)) (fs : list field) : DBusValidity :=
  match needed with
  | [] => DBUS_VALID
  | (c, e) :: needed' => if find_field c fs then missing_verdict needed' fs else e
  end.

Definition needed_fields (type : Z) : list (nat * DBusValidity) :=
  let path := (1%nat, DBUS_INVALID_MISSING_PATH) in
  let interface := (2%nat, DBUS_INVALID_MISSING_INTERFACE) in
  let member := (3%nat, DBUS_INVALID_MISSING_MEMBER) in
  let error_name := (4%nat, DBUS_INVALID_MISSING_ERROR_NAME) in
  let reply_serial := (5%nat, DBUS_INVALID_MISSING_REPLY_SERIAL) in
  match type with
  | 1 => [path; member]
  | 2 => [reply_serial]
  | 3 => [error_name; reply_serial]
  | 4 => [interface; path; member]
  | _ => []
  end.

Definition header_verdict (h : header_values) : DBusValidity :=
  if b2z (hv_type h) =? 0 then DBUS_INVALID_BAD_MESSAGE_TYPE
  else if negb (b2z (hv_version h) =? 1) then DBUS_INVALID_BAD_PROTOCOL_VERSION
  else if hv_serial h =? 0 then DBUS_INVALID_BAD_SERIAL
  else if decide (fields_verdict [] (hv_fields h) = DBUS_VALID)
       then missing_verdict (needed_fields (b2z (hv_type h))) (hv_fields h)
       else fields_verdict [] (hv_fields h).

(** ** Texts inside of other texts *)

Lemma sub_mid (a s b : bytes) : sub (a ++ s ++ b) (length a) (length s) = s.
Proof. unfold sub. by rewrite drop_app_length, take_app_length. Qed.

Lemma mid_tests (a s b : bytes) : (length (a ++ s ++ b) - length a <? length s)%nat = (length s - 0 <? length s)%nat.
Proof. rewrite !length_app. apply eq_true_iff_eq. rewrite !Nat.ltb_lt. lia. Qed.

Lemma validation_mid c valid e (a s b : bytes) :
  string_validation_func c = Some (valid, e) → valid (a ++ s ++ b) (length a) (length s) = valid s 0%nat (length s).
Proof.
  unfold string_validation_func. intros Hv.
  repeat case_match; try done; injection Hv as <- _;
    unfold _dbus_validate_error_name, _dbus_validate_bus_name, _dbus_validate_interface, _dbus_validate_member;
    by rewrite mid_tests, sub_mid, sub_all.
Qed.

Lemma take_no_nul text : ∀ (s : bytes) rest,
  no_nul text = true → take (length text) (s ++ x00 :: rest) = text → take (length text) s = text.
Proof.
  induction text as [|c text IH]; intros s rest Hn Ht; [done|]. simpl in Hn. apply andb_true_iff in Hn as [Hc Hn].
  destruct s as [|d s]; simpl in Ht; injection Ht as Hcd Ht; subst c; [done|]. simpl. f_equal. by eapply IH.
Qed.

(** A text inside of a longer one is compared from its start. *)
Lemma equal_substring_mid text (a s rest : bytes) :
  no_nul text = true →
  _dbus_string_equal_substring text 0 (length text) (a ++ s ++ x00 :: rest) (length a) = Some (starts text s).
Proof.
  intros Hn. unfold _dbus_string_equal_substring, starts. rewrite !length_app. cbn [length].
  rewrite (proj2 (Nat.ltb_ge (length text) 0)), (proj2 (Nat.ltb_ge (length text - 0) _)), (proj2 (Nat.ltb_ge _ (length a))) by lia.
  cbn [orb]. rewrite sub_all. destruct (_ <? length text)%nat eqn:E.
  - apply Nat.ltb_lt in E. rewrite bool_decide_false; [done|]. intros Ht. apply (f_equal length) in Ht.
    rewrite length_take in Ht. lia.
  - f_equal. apply bool_decide_ext. unfold sub. rewrite drop_app_length. split; intros Ht.
    + symmetry in Ht. by eapply take_no_nul.
    + rewrite take_app_le; [done|]. apply (f_equal length) in Ht. rewrite length_take in Ht. lia.
Qed.

(** ** Reading the parts *)

(** From [s], [c] goes to [s'] and returns [a] without a request for memory. *)
Definition evals {S A} (c : M S A) (s : S) (a : A) (s' : S) : Prop := ∀ m, c s m = Ok a s' m.

Lemma evals_ret {S A} (a : A) (s : S) : evals (mret a) s a s.
Proof. done. Qed.

Lemma evals_bind {S A B} (c : M S A) (k : A → M S B) s a s1 b s2 :
  evals c s a s1 → evals (k a) s1 b s2 → evals (c ≫= k) s b s2.
Proof. intros Hc Hk m. unfold mbind, M_bind. by rewrite Hc. Qed.

Lemma evals_checked {S A B} (x : option A) a (k : A → M S B) s b s2 :
  x = Some a → evals (k a) s b s2 → evals (checked x ≫= k) s b s2.
Proof. intros -> Hk. exact Hk. Qed.

Lemma evals_assert {S B} t (k : M S B) s b s2 : t = true → evals k s b s2 → evals (assert_ t;; k) s b s2.
Proof. intros -> Hk. exact Hk. Qed.

Lemma evals_gets {S B} (k : S → M S B) s b s2 : evals (k s) s b s2 → evals (gets id ≫= k) s b s2.
Proof. done. Qed.

Section loading.
Context `{Host}.
Context (r : DBusRealString) (o : byte_order) (body : bytes).
Hypothesis Hr : is_str body r.

Abbreviation held := (holds (str r) (length body)).
Abbreviation on kd sig tp vp := (Reader kd false o false 0 sig tp r vp 0).

Lemma take_basic_rule pre c b t2 q vp p' h :
  leaf c = true → basic_ok c b = true → held vp (wire o vp c b) → within accepted_key 0 0 0 t2 = true →
  p' = (vp + length (wire o vp c b))%nat →
  let sig := pre ++ print (TLeaf c) ++ print t2 ++ q in
  evals (take_basic (on KBody sig (length pre) vp) c vp) h (b, on KBody sig (length pre + 1) p') h.
Proof.
  intros Hl Hb Hh Hw2 -> sig. assert (within accepted_key 0 0 0 (TLeaf c) = true) as Hw by done.
  assert (enc o (VBasic b) (TLeaf c) vp = Some (wire o vp c b)) as He by (rewrite enc_eq; by rewrite Hb).
  pose proof (current_type_value r o KBody 0 pre (TLeaf c) (print t2 ++ q) vp 0 _ _ _ _ ltac:(done) Hw) as Hcur.
  fold sig in Hcur. eapply evals_checked; [exact Hcur|]. apply evals_assert; [apply byte_eqb_refl|].
  apply evals_assert; [apply Nat.eqb_refl|]. eapply evals_checked.
  { unfold _dbus_type_reader_read_basic. rewrite Hcur. cbn [mbind option_bind value_str value_pos order typecode].
    by rewrite (read_value r o body Hr c b vp Hb Hh). }
  pose proof (sequence_next r o body (VBasic b) KBody 0 pre (TLeaf c) (print t2 ++ q) vp 0 _
    (turns (on KBody sig (length pre) vp)) _ _ _ (all_steps r o body Hr _) ltac:(by left) Hw He Hh) as Hn.
  fold sig in Hn. eapply evals_checked; [apply Hn|by apply evals_ret]; [|right; exists t2; by repeat eexists].
  eapply (fuel_enough r body Hr); [done| |exact Hh]. cbn [type_str]. unfold sig. rewrite !length_app. lia.
Qed.

(** *** One field *)

Abbreviation fields_reader vp sp n := (Reader KArray false o false n DBUS_HEADER_SIGNATURE 7 r vp sp).

Lemma leaf_current kd pre c post vp :
  kd ≠ KArray → leaf c = true →
  _dbus_type_reader_get_current_type (on kd (pre ++ [c] ++ post) (length pre) vp) = Some c.
Proof. intros Hk Hl. by apply (current_type_value r o kd 0 pre (TLeaf c) post vp 0 accepted_key 0 0 0). Qed.

(** The bytes of a field. *)
Lemma field_bytes f p bs :
  enc o (field_val f) field_ty p = Some bs → held p bs →
  ∃ s b, enc_signature [field_type f] = Some s
    ∧ enc o (field_value f) (field_type f) (align_up p 8 + 1 + length s) = Some b
    ∧ held (align_up p 8) [code f] ∧ held (align_up p 8 + 1) (s ++ b)
    ∧ bs = padding p 8 ++ [code f] ++ s ++ b.
Proof.
  intros E Hh. unfold field_val, field_ty in E. rewrite enc_eq in E.
  destruct (enc_fields o _ _ (align_up p 8)) as [x|] eqn:Ex; [|done]. injection E as <-.
  apply enc_fields_cons in Ex as (b1 & q & E1 & E2 & ->). destruct (byte_shape _ _ _ _ E1) as (? & [= <-] & ->).
  apply enc_fields_cons in E2 as (b2 & q2 & E2 & [= <-] & ->). rewrite app_nil_r in *. cbn [length] in E2.
  rewrite enc_eq in E2. change (DBUS_TYPE_VARIANT =b "v") with true in E2. cbv iota in E2.
  destruct (enc_signature [field_type f]) as [s|] eqn:Es; [|done]. cbn [mbind option_bind] in E2.
  destruct (enc o (field_value f) _ _) as [b|] eqn:Eb; [|done]. injection E2 as <-.
  pose proof (is_str_block _ _ Hr) as Hblock. apply (holds_app _ _ Hblock) in Hh as [_ Hh].
  rewrite <-align_up_pad in Hh by alignment. apply (holds_app _ _ Hblock) in Hh as [H1 H2]. exists s, b. done.
Qed.

Lemma field_parts f vp sp n bs :
  enc o (field_val f) field_ty vp = Some bs → held vp bs →
  ∃ st st' vr p b,
    _dbus_type_reader_recurse (fields_reader vp sp n) = Some st
    ∧ (∀ h, evals (read_code st) h (code_nat f) h)
    ∧ _dbus_type_reader_next (turns st) st = Some (true, st')
    ∧ _dbus_type_reader_get_current_type st' = Some DBUS_TYPE_VARIANT
    ∧ _dbus_type_reader_recurse st' = Some vr
    ∧ _dbus_type_reader_get_current_type vr = Some (typecode (field_type f))
    ∧ value_pos vr = p ∧ enc o (field_value f) (field_type f) p = Some b ∧ held p b
    ∧ (p + length b = vp + length bs)%nat.
Proof.
  intros E Hh. destruct (field_bytes _ _ _ E Hh) as (s & b & Es & Eb & Hc & Hv & ->).
  assert (held (align_up vp 8) (wire o (align_up vp 8) DBUS_TYPE_BYTE (Byt (code f)))) as Hc'.
  { unfold wire. by rewrite padding_1. }
  destruct (variant_recurse r o body Hr KStruct 0 (lit "yyyyuua(y") (lit ")") (align_up vp 8 + 1) 0 _ _ _ _ Es Eb Hv)
    as (pre' & q & p & b' & Hrec & _ & Hw & Eb' & Hb' & Hend & _).
  exists (on KStruct DBUS_HEADER_SIGNATURE 8 (align_up vp 8)), (on KStruct DBUS_HEADER_SIGNATURE 9 (align_up vp 8 + 1)).
  eexists _, p, b'. split; [exact (struct_recurse r o false KArray n (lit "yyyyuua") (lit "yv)") vp sp)|].
  pose proof (leaf_current KStruct (lit "yyyyuua(") DBUS_TYPE_BYTE (lit "v)") (align_up vp 8) ltac:(done) eq_refl) as Hcur.
  split.
  { intros h. eapply evals_checked; [exact Hcur|]. apply evals_assert; [done|]. eapply evals_checked.
    - unfold _dbus_type_reader_read_basic. change (on KStruct DBUS_HEADER_SIGNATURE 8 (align_up vp 8)) with (on KStruct (lit "yyyyuua(" ++ [DBUS_TYPE_BYTE] ++ lit "v)") (length (lit "yyyyuua(")) (align_up vp 8)).
      rewrite Hcur. cbn [mbind option_bind value_str value_pos order].
      rewrite (read_value r o body Hr DBUS_TYPE_BYTE (Byt (code f)) _ eq_refl Hc'). done.
    - by intros m. }
  split; [|split].
  { pose proof (field_next r o body (VBasic (Byt (code f))) false 0 (lit "yyyyuua(") (TLeaf DBUS_TYPE_BYTE) (lit "v)") (align_up vp 8) 0
      [code f] (turns (on KStruct DBUS_HEADER_SIGNATURE 8 (align_up vp 8))) 0 0 0 (all_steps r o body Hr _) eq_refl) as Hn.
    apply Hn; [..|right]; [by rewrite enc_eq; simpl; unfold wire; rewrite padding_1|done| |].
    - eapply (fuel_enough r body Hr); [done| |exact Hc]. simpl. lia.
    - exists (TLeaf DBUS_TYPE_VARIANT). by exists (lit ")"), 0%nat, 0%nat, 0%nat. }
  { exact (leaf_current KStruct (lit "yyyyuua(y") DBUS_TYPE_VARIANT (lit ")") (align_up vp 8 + 1) ltac:(done) eq_refl). }
  split; [exact Hrec|]. split; [by eapply current_type_value|]. do 3 (split; [done|]).
  rewrite Hend, !length_app, align_up_pad by alignment. simpl. lia.
Qed.

(** *** The values in front of the fields *)

Definition order_byte : byte := if decide (o = DBUS_LITTLE_ENDIAN) then "l" else "B".

Lemma byte_wire p c : wire o p DBUS_TYPE_BYTE (Byt c) = [c].
Proof. unfold wire. by rewrite padding_1. Qed.

Lemma u32_wire p z : align_up p 4 = p → wire o p DBUS_TYPE_UINT32 (U32 z) = octets o 4 z.
Proof.
  intros Hp. unfold wire. change (_dbus_type_get_alignment DBUS_TYPE_UINT32) with 4%nat.
  rewrite <-Hp, padding_aligned by alignment. done.
Qed.

(** Where the parts of the header are. *)
Lemma header_held hv bs :
  header_bytes o hv = Some bs → held 0 bs →
  ∃ x, enc o (VArray (field_val <$> hv_fields hv)) (TArray field_ty) 12 = Some (octets o 4 (Z.of_nat (length x)) ++ x)
    ∧ enc_elements o field_ty (field_val <$> hv_fields hv) 16 = Some x ∧ length bs = (16 + length x)%nat
    ∧ held 0 [hv_order hv] ∧ held 1 [hv_type hv] ∧ held 2 [hv_flags hv] ∧ held 3 [hv_version hv]
    ∧ held 4 (octets o 4 (hv_body_len hv)) ∧ held 8 (octets o 4 (hv_serial hv))
    ∧ held 12 (octets o 4 (Z.of_nat (length x)) ++ x)
    ∧ 0 <= hv_body_len hv < 2 ^ 32 ∧ 0 <= hv_serial hv < 2 ^ 32.
Proof.
  intros E Hh. destruct (header_parts _ _ _ E) as (x & Ex & Hx & Hb & Hs & ->). exists x.
  pose proof (holds_app _ _ (is_str_block _ _ Hr)) as Happ.
  change ([hv_order hv; hv_type hv; hv_flags hv; hv_version hv] ++ ?q)
    with ([hv_order hv] ++ [hv_type hv] ++ [hv_flags hv] ++ [hv_version hv] ++ q) in Hh.
  apply Happ in Hh as [H1 Hh]. apply Happ in Hh as [H2 Hh]. apply Happ in Hh as [H3 Hh]. apply Happ in Hh as [H4 Hh].
  apply Happ in Hh as [H5 Hh]. apply Happ in Hh as [H6 Hh]. rewrite !length_octets in *. cbn [length Nat.add] in *.
  split; [|split; [done|split; [rewrite !length_app, !length_octets; simpl; lia|done]]].
  rewrite enc_eq. cbn [raw_element field_ty]. unfold enc_array. change (align_up _ (typecode_alignment field_ty)) with 16%nat.
  change (enc_elements o (TStruct _) ?w 16) with (enc_elements o field_ty w 16). rewrite Ex. cbn [mbind option_bind].
  rewrite (proj2 (Z.ltb_ge _ _)) by done. done.
Qed.

Abbreviation at_value_ tp vp := (on KBody DBUS_HEADER_SIGNATURE tp vp).

Lemma take_byte pre c q p h :
  held p [c] →
  evals (take_basic (on KBody (pre ++ [DBUS_TYPE_BYTE] ++ DBUS_TYPE_BYTE :: q) (length pre) p) DBUS_TYPE_BYTE p) h
    (Byt c, on KBody (pre ++ [DBUS_TYPE_BYTE] ++ DBUS_TYPE_BYTE :: q) (length pre + 1) (p + 1)) h.
Proof.
  intros Hh. eapply (take_basic_rule pre DBUS_TYPE_BYTE (Byt c) (TLeaf DBUS_TYPE_BYTE) q); rewrite ?byte_wire; try done.
Qed.

Lemma take_u32 pre t z q p h :
  held p (octets o 4 z) → 0 <= z < 2 ^ 32 → align_up p 4 = p → within accepted_key 0 0 0 t = true →
  evals (take_basic (on KBody (pre ++ [DBUS_TYPE_UINT32] ++ print t ++ q) (length pre) p) DBUS_TYPE_UINT32 p) h
    (U32 z, on KBody (pre ++ [DBUS_TYPE_UINT32] ++ print t ++ q) (length pre + 1) (p + 4)) h.
Proof.
  intros Hh Hz Hp Hw. eapply (take_basic_rule pre DBUS_TYPE_UINT32 (U32 z) t q); rewrite ?u32_wire by done; try done.
  - unfold basic_ok. simpl. lia.
  - by rewrite length_octets.
Qed.

(** *** The value of a field in the copy of the header *)

Context (n : nat) (d : DBusRealString).
Hypothesis Hn : (n <= length body)%nat.
Hypothesis Hd : is_str (take n body) d.

Abbreviation kept := (holds (str d) n).

Lemma length_copy : length (take n body) = n.
Proof. rewrite length_take. lia. Qed.

Lemma held_kept p b : held p b → (p + length b <= n)%nat → kept p b.
Proof.
  intros Hh Hle. destruct (held_split r body Hr p b Hh) as [E Hp]. split; [|done].
  destruct (is_str_split _ _ Hd) as [q Hq]. rewrite Hq.
  rewrite E, take_app_ge, Hp, take_app_ge by lia. unfold sub.
  rewrite <-!app_assoc, drop_app_length'  by done. by rewrite take_app_length.
Qed.

(** A string of type [c] at [p] in the copy. *)
Lemma text_value v t p b c :
  enc o v t p = Some b → typecode t = c → c = DBUS_TYPE_STRING ∨ c = DBUS_TYPE_OBJECT_PATH →
  ∃ s, v = VBasic (Str s) ∧ basic_ok c (Str s) = true ∧ b = wire o p c (Str s).
Proof.
  intros E Ht Hc. rewrite enc_eq in E.
  destruct t as [c'| | |]; [|simpl in Ht; subst c; by destruct Hc..]. simpl in Ht. subst c'.
  destruct Hc as [-> | ->]; (destruct v as [b'| | | | |]; [|done..]); (destruct (basic_ok _ b') eqn:Eb; [|done]);
    injection E as <-; (destruct b' as [| | | |s]; [done..|]); by exists s.
Qed.

(** The parts of the copy around a string. *)
Lemma text_found c s p :
  c = DBUS_TYPE_STRING ∨ c = DBUS_TYPE_OBJECT_PATH → kept p (wire o p c (Str s)) →
  ∃ a rest, take n body = a ++ s ++ x00 :: rest ∧ length a = (align_up p 4 + 4)%nat
    ∧ _dbus_marshal_read_uint32 d p o = Some (Z.of_nat (length s), align_up p 4 + 4)%nat.
Proof.
  intros Hc Hk. assert (holds (str d) (length (take n body)) p (wire o p c (Str s))) as Hk' by by rewrite length_copy.
  assert (wire o p c (Str s) = padding p 4 ++ octets o 4 (Z.of_nat (length s)) ++ s ++ [x00]) as Hw.
  { destruct Hc as [-> | ->]; done. }
  rewrite Hw in Hk'. pose proof (is_str_block _ _ Hd) as Hblock.
  pose proof (holds_app _ _ Hblock _ _ _ Hk') as [Hk1 Hk2]. rewrite <-align_up_pad in Hk2 by alignment.
  pose proof (holds_app _ _ Hblock _ _ _ Hk2) as [_ Hk3]. rewrite length_octets in Hk3.
  destruct (held_split d _ Hd _ _ Hk3) as [E Hl].
  exists (take (align_up p 4 + 4) (take n body)). eexists. split; [|split; [exact Hl|]].
  - rewrite <-app_assoc in E. exact E.
  - rewrite app_assoc in Hk'. apply (read_length d o _ Hd).
    + pose proof (block_small _ _ Hd). destruct Hk3 as [_ Hle]. rewrite length_app in Hle. lia.
    + by apply (holds_app _ _ Hblock _ _ _ Hk').
Qed.

Lemma string_field_rule c k s p h :
  k = DBUS_TYPE_STRING ∨ k = DBUS_TYPE_OBJECT_PATH → kept p (wire o p k (Str s)) → data h = d → header_order h = o →
  let rest := match string_validation_func c with
              | Some (valid, e) => if valid s 0%nat (length s) then DBUS_VALID else e
              | None => DBUS_VALID
              end in
  evals (validate_string_field c p) h
    (match local_text c with Some (text, e) => if starts text s then e else rest | None => rest end) h.
Proof.
  intros Hk Hw Hdata Ho rest. destruct (text_found _ _ _ Hk Hw) as (a & q & E & Hl & Hread).
  apply evals_gets. rewrite Hdata. destruct Hd as [_ ->]. rewrite Ho, E, <-Hl.
  assert (evals (match string_validation_func c with
      | Some (valid, bad_string_code) =>
          '(len, _) ← checked (_dbus_marshal_read_uint32 d p o);
          mret (if valid (a ++ s ++ x00 :: q) (length a) (Z.to_nat len) then DBUS_VALID else bad_string_code)
      | None => mret DBUS_VALID
      end) h rest h) as Hrest.
  { unfold rest. destruct (string_validation_func c) as [[valid e]|] eqn:Ev; [|apply evals_ret].
    eapply evals_checked; [exact Hread|]. cbv beta iota. rewrite Nat2Z.id, (validation_mid _ _ _ _ _ _ Ev). apply evals_ret. }
  eapply (evals_bind _ _ _ (match local_text c with Some (text, e) => if starts text s then Some e else None | None => None end) h).
  - destruct (local_text c) as [[text e]|] eqn:Et; [|apply evals_ret].
    eapply evals_checked; [|apply evals_ret]. apply equal_substring_mid.
    unfold local_text in Et. repeat case_match; try done; by injection Et as <- _.
  - destruct (local_text c) as [[text e]|]; [|done]. destruct (starts text s); [apply evals_ret|done].
Qed.


(** *** The cache *)

Definition known (c : nat) : Prop := (1 <= c <= 8)%nat.

Lemma expected_type c : known c → EXPECTED_TYPE_OF_FIELD c = field_typecode c.
Proof. clear. intros Hc. unfold known in Hc. do 9 (destruct c as [|c]; [done || lia|]). lia. Qed.

Lemma field_pos_rule c p h : fields h !! c = Some p → evals (field_pos c) h p h.
Proof. intros Hp m. unfold field_pos, mbind, M_bind, gets, checked. simpl. by rewrite Hp. Qed.

Lemma cache_known c p h :
  known c → fields h !! c = Some p → p ≠ _DBUS_HEADER_FIELD_VALUE_UNKNOWN →
  evals (_dbus_header_cache_check c) h (negb (p =? _DBUS_HEADER_FIELD_VALUE_NONEXISTENT)) h.
Proof.
  intros Hc Hp Hne. apply evals_assert; [apply Nat.leb_le, Hc|]. eapply evals_bind; [by apply field_pos_rule|].
  rewrite (proj2 (Z.eqb_neq _ _)) by done. eapply evals_bind; [apply evals_ret|].
  eapply evals_bind; [by apply field_pos_rule|apply evals_ret].
Qed.

Lemma cache_found c p h :
  known c → fields h !! c = Some (Z.of_nat p) → evals (_dbus_header_cache_check c) h true h.
Proof.
  intros Hc Hp. pose proof (cache_known _ _ _ Hc Hp) as Hk.
  rewrite (proj2 (Z.eqb_neq (Z.of_nat p) _)) in Hk by (unfold _DBUS_HEADER_FIELD_VALUE_NONEXISTENT; lia).
  apply Hk. unfold _DBUS_HEADER_FIELD_VALUE_UNKNOWN. lia.
Qed.

Lemma get_basic_found c p h v q :
  known c → fields h !! c = Some (Z.of_nat p) →
  _dbus_marshal_read_basic (data h) p (field_typecode c) (header_order h) = Some (v, q) →
  evals (_dbus_header_get_field_basic c (field_typecode c)) h (Some v) h.
Proof.
  intros Hc Hp Hread. apply evals_assert; [apply negb_true_iff, Nat.eqb_neq; destruct Hc; unfold DBUS_HEADER_FIELD_INVALID; lia|].
  apply evals_assert; [apply Nat.leb_le, Hc|]. apply evals_assert; [rewrite expected_type by done; apply byte_eqb_refl|].
  eapply evals_bind; [by eapply cache_found|]. eapply evals_bind; [by apply field_pos_rule|].
  apply evals_assert; [apply Z.leb_le; lia|]. apply evals_gets. eapply evals_checked; [rewrite Nat2Z.id; exact Hread|]. apply evals_ret.
Qed.

Lemma get_raw_found c p h :
  known c → fields h !! c = Some (Z.of_nat p) → evals (_dbus_header_get_field_raw c) h (Some (Z.of_nat p)) h.
Proof.
  intros Hc Hp. eapply evals_bind; [by eapply cache_found|]. eapply evals_bind; [by apply field_pos_rule|]. apply evals_ret.
Qed.

(** *** Loading a field *)

Definition with_pos (c p : nat) (h : DBusHeader) : DBusHeader :=
  Header (data h) (<[c := Z.of_nat p]> (fields h)) (padding_len h) (header_order h).

Lemma leaf_of t c : typecode t = c → c = DBUS_TYPE_UINT32 ∨ c = DBUS_TYPE_SIGNATURE → t = TLeaf c.
Proof. destruct t as [c'| | |]; simpl; [by intros ->|by intros <- [?|?]..]. Qed.

Lemma text_code c :
  known c → c ≠ 5%nat → c ≠ 8%nat → field_typecode c = DBUS_TYPE_STRING ∨ field_typecode c = DBUS_TYPE_OBJECT_PATH.
Proof. clear. unfold known. intros Hc Hc5 Hc8. do 9 (destruct c as [|c]; [(by left) || (by right) || lia|]). lia. Qed.

Lemma value_rule f p b h :
  known (code_nat f) → typecode (field_type f) = field_typecode (code_nat f) →
  enc o (field_value f) (field_type f) p = Some b → kept p b →
  data h = d → header_order h = o → fields h !! code_nat f = Some (Z.of_nat p) →
  evals (if field_typecode (code_nat f) =b DBUS_TYPE_UINT32 then
           v ← _dbus_header_get_field_basic (code_nat f) (field_typecode (code_nat f));
           mret (match v with Some (U32 0) => DBUS_INVALID_BAD_SERIAL | _ => DBUS_VALID end)
         else
           pos ← _dbus_header_get_field_raw (code_nat f);
           pos ← checked pos;
           validate_string_field (code_nat f) (Z.to_nat pos)) h (value_verdict f) h.
Proof.
  intros Hc Ht E Hk Hdata Ho Hp. unfold value_verdict.
  destruct (decide (code_nat f = 5%nat)) as [Hc5|Hc5].
  - rewrite Hc5 in *. byte_tests. rewrite (leaf_of _ _ Ht) in E by by left.
    destruct (u32_shape _ _ _ _ E) as (z & Ev & Hz & ->). rewrite Ev. eapply evals_bind.
    + eapply get_basic_found; [done|exact Hp|]. rewrite Hdata, Ho.
      apply (read_value d o _ Hd "u" (U32 z)); [unfold basic_ok; simpl; lia|]. by rewrite length_copy.
    + simpl. destruct z; apply evals_ret.
  - assert ((field_typecode (code_nat f) =b DBUS_TYPE_UINT32) = false) as ->.
    { revert Hc Hc5. unfold known. generalize (code_nat f). intros c Hc Hc5. do 9 (destruct c as [|c]; [done || lia|]). lia. }
    eapply evals_bind; [by apply get_raw_found|]. eapply evals_checked; [done|]. rewrite Nat2Z.id.
    destruct (decide (code_nat f = 8%nat)) as [Hc8|Hc8].
    + rewrite Hc8 in *. rewrite (leaf_of _ _ Ht) in E by by right. rewrite enc_eq in E.
      by destruct (field_value f).
    + pose proof (text_code _ Hc Hc5 Hc8) as Hty.
      destruct (text_value _ _ _ _ _ E Ht Hty) as (s & -> & _ & ->).
      pose proof (string_field_rule (code_nat f) _ s p h Hty Hk Hdata Ho) as Hs. cbv zeta in Hs.
      clear -Hs Hc Hc5 Hc8. revert Hs Hc Hc5 Hc8. unfold known. generalize (code_nat f). intros c Hs Hc Hc5 Hc8.
      do 9 (destruct c as [|c]; [exact Hs || lia|]). lia.
Qed.

(** The value of a field is at [p] in the copy. *)
Definition place (p : nat) (f : field) : Prop :=
  typecode (field_type f) = field_typecode (code_nat f)
  ∧ ∃ b, enc o (field_value f) (field_type f) p = Some b ∧ kept p b.

(** The cache leads to the fields [seen]; the others are [absent]. *)
Definition cached (absent : Z) (seen : list field) (h : DBusHeader) : Prop :=
  data h = d ∧ header_order h = o ∧ length (fields h) = 9%nat
  ∧ ∀ c, known c → match find_field c seen with
                   | Some f => code_nat f = c ∧ ∃ p, fields h !! c = Some (Z.of_nat p) ∧ place p f
                   | None => fields h !! c = Some absent
                   end.

Lemma find_field_snoc c seen f :
  find_field c (seen ++ [f])
  = match find_field c seen with Some g => Some g | None => if (code_nat f =? c)%nat then Some f else None end.
Proof.
  unfold find_field. induction seen as [|g seen IH]; [done|]. simpl. by destruct (code_nat g =? c)%nat.
Qed.

Lemma cached_add seen f p h :
  cached _DBUS_HEADER_FIELD_VALUE_UNKNOWN seen h → known (code_nat f) → find_field (code_nat f) seen = None → place p f →
  cached _DBUS_HEADER_FIELD_VALUE_UNKNOWN (seen ++ [f]) (with_pos (code_nat f) p h).
Proof.
  intros (Hdata & Ho & Hl & Hc) Hk Hf Hp. split; [done|]. split; [done|]. split; [by simpl; rewrite length_insert|].
  intros c Hkc. rewrite find_field_snoc. specialize (Hc c Hkc). simpl.
  destruct (decide (c = code_nat f)) as [->|Hne].
  - rewrite Hf, Nat.eqb_refl. split; [done|]. exists p. split; [|done]. apply list_lookup_insert_eq. unfold known in Hk. lia.
  - rewrite list_lookup_insert_ne by done. rewrite (proj2 (Nat.eqb_neq _ _)) by done. by destruct (find_field c seen).
Qed.

Lemma cached_skip absent seen f h : cached absent seen h → ¬ known (code_nat f) → cached absent (seen ++ [f]) h.
Proof.
  intros (Hdata & Ho & Hl & Hc) Hk. do 3 (split; [done|]). intros c Hkc. rewrite find_field_snoc. specialize (Hc c Hkc).
  rewrite (proj2 (Nat.eqb_neq (code_nat f) c)) by congruence. by destruct (find_field c seen).
Qed.

Lemma load_field_rule seen f vr p b h :
  known (code_nat f) → cached _DBUS_HEADER_FIELD_VALUE_UNKNOWN seen h →
  _dbus_type_reader_get_current_type vr = Some (typecode (field_type f)) → value_pos vr = p →
  enc o (field_value f) (field_type f) p = Some b → kept p b →
  ∃ h', evals (load_and_validate_field (code_nat f) vr) h (field_verdict seen f) h'
    ∧ padding_len h' = padding_len h ∧ data h' = d
    ∧ (field_verdict seen f = DBUS_VALID → cached _DBUS_HEADER_FIELD_VALUE_UNKNOWN (seen ++ [f]) h').
Proof.
  intros Hk Hc Hcur Hp E Hb. pose proof Hc as (Hdata & Ho & Hl & Hcache). pose proof (Hcache _ Hk) as Hf.
  unfold field_verdict. rewrite (proj2 (Nat.eqb_neq _ _)), (proj2 (Nat.ltb_ge _ _)) by (unfold known in Hk; lia).
  assert (∀ v h', evals (
      if negb (typecode (field_type f) =b field_typecode (code_nat f)) then mret DBUS_INVALID_HEADER_FIELD_HAS_WRONG_TYPE
      else
        p ← field_pos (code_nat f);
        if 0 <=? p then mret DBUS_INVALID_HEADER_FIELD_APPEARS_TWICE
        else
          _dbus_header_cache_one (code_nat f) vr;;
          if field_typecode (code_nat f) =b DBUS_TYPE_UINT32 then
            v ← _dbus_header_get_field_basic (code_nat f) (field_typecode (code_nat f));
            mret (match v with Some (U32 0) => DBUS_INVALID_BAD_SERIAL | _ => DBUS_VALID end)
          else
            pos ← _dbus_header_get_field_raw (code_nat f);
            pos ← checked pos;
            validate_string_field (code_nat f) (Z.to_nat pos)) h v h' →
    evals (load_and_validate_field (code_nat f) vr) h v h') as Hin.
  { intros v h' He. apply evals_assert; [apply Nat.leb_le, Hk|].
    apply evals_assert; [apply negb_true_iff, Nat.eqb_neq; unfold known, DBUS_HEADER_FIELD_INVALID in *; lia|].
    eapply evals_checked; [exact Hcur|]. cbv zeta. by rewrite expected_type. }
  destruct (byte_eqb_spec (typecode (field_type f)) (field_typecode (code_nat f))) as [Ht|_]; cbn [negb] in Hin |- *.
  2: { exists h. split; [by apply Hin, evals_ret|done]. }
  destruct (find_field (code_nat f) seen) as [g|] eqn:Ef.
  { destruct Hf as (_ & q & Hq & _). exists h. split; [|done]. apply Hin.
    eapply evals_bind; [by apply field_pos_rule|]. rewrite (proj2 (Z.leb_le _ _)) by lia. apply evals_ret. }
  exists (with_pos (code_nat f) p h). split; [|split; [done|split; [done|]]].
  - apply Hin. eapply evals_bind; [by apply field_pos_rule|]. subst p.
    eapply (evals_bind _ _ _ tt (with_pos (code_nat f) (value_pos vr) h)); [done|].
    eapply value_rule; try done. simpl. apply list_lookup_insert_eq. unfold known in Hk. lia.
  - intros _. apply cached_add; [done..|]. split; [done|]. by exists b.
Qed.

(** *** The array of fields *)

Section fields_array.
Context (off sp len_ : nat).
Hypothesis Hplace : elements_place r o (TArray field_ty) off sp len_.

(** The reader is at the fields [fs]. *)
Definition at_fields (rd : DBusTypeReader) (fs : list field) : Prop :=
  (fs = [] ∧ _dbus_type_reader_get_current_type rd = Some DBUS_TYPE_INVALID)
  ∨ (fs ≠ [] ∧ ∃ vp x, rd = fields_reader vp sp off ∧ enc_elements o field_ty (field_val <$> fs) vp = Some x
       ∧ held vp x ∧ (sp <= vp)%nat ∧ (vp + length x = sp + len_)%nat).

Lemma fields_start fs vp x :
  enc_elements o field_ty (field_val <$> fs) vp = Some x → held vp x → (sp <= vp)%nat → (vp + length x = sp + len_)%nat →
  at_fields (fields_reader vp sp off) fs.
Proof.
  intros E Hh Hge Hle. destruct fs as [|f fs]; [left|right; split; [done|by exists vp, x]]. split; [done|].
  injection E as <-. pose proof (elements_current r o (TArray field_ty) off (lit "yyyyuu") [] vp sp len_ 0 0 0 eq_refl eq_refl Hplace ltac:(simpl in Hle; lia)) as Hc.
  rewrite (proj2 (Nat.eqb_eq _ _)) in Hc by (simpl in Hle; lia). exact Hc.
Qed.

Hypothesis Hend : (sp + len_ <= n)%nat.

(** The first of the fields: its parts, and the reader behind it. *)
Lemma fields_head rd f fs :
  at_fields rd (f :: fs) →
  ∃ st st' vr p b more rd',
    _dbus_type_reader_get_current_type rd = Some DBUS_TYPE_STRUCT
    ∧ _dbus_type_reader_recurse rd = Some st
    ∧ (∀ h, evals (read_code st) h (code_nat f) h)
    ∧ _dbus_type_reader_next (turns st) st = Some (true, st')
    ∧ _dbus_type_reader_get_current_type st' = Some DBUS_TYPE_VARIANT
    ∧ _dbus_type_reader_recurse st' = Some vr
    ∧ _dbus_type_reader_get_current_type vr = Some (typecode (field_type f))
    ∧ value_pos vr = p ∧ enc o (field_value f) (field_type f) p = Some b ∧ kept p b
    ∧ _dbus_type_reader_next (turns rd) rd = Some (more, rd') ∧ at_fields rd' fs.
Proof.
  intros [[? _]|(_ & vp & x & -> & E & Hh & Hge & Hle)]; [done|]. cbn [fmap list_fmap enc_elements] in E.
  destruct (enc o (field_val f) field_ty vp) as [bs|] eqn:Eb; [|done]. cbn [mbind option_bind] in E.
  destruct (enc_elements o field_ty _ _) as [q|] eqn:Eq; [|done]. injection E as <-.
  apply (holds_app _ _ (is_str_block _ _ Hr)) in Hh as [Hh1 Hh2]. rewrite length_app in Hle.
  pose proof (element_nonempty o _ (TArray field_ty) field_ty _ _ 0 0 0 eq_refl eq_refl Eb) as Hne.
  destruct (field_parts f vp sp off bs Eb Hh1) as (st & st' & vr & p & b & H1 & H2 & H3 & H4 & H5 & H6 & H7 & H8 & H9 & H10).
  destruct (elements_next r o body Hr _ (TArray field_ty) field_ty off (lit "yyyyuu") [] vp sp len_ bs
    (turns (fields_reader vp sp off)) 0 0 0 eq_refl eq_refl Hplace Eb Hh1) as (rd' & Hnext & Hmore & Hlast).
  { lia. } { lia. }
  { eapply (fuel_enough r body Hr); [done| |exact Hh1]. simpl. lia. }
  exists st, st', vr, p, b. eexists _, rd'. split.
  { pose proof (elements_current r o (TArray field_ty) off (lit "yyyyuu") [] vp sp len_ 0 0 0 eq_refl eq_refl Hplace ltac:(lia)) as Hc.
    rewrite (proj2 (Nat.eqb_neq _ _)) in Hc by lia. exact Hc. }
  do 8 (split; [done|]). split; [apply held_kept; [done|lia]|]. split; [exact Hnext|].
  destruct (decide ((vp + length bs = sp + len_)%nat)) as [Heq|Hneq].
  - left. split; [|by apply Hlast]. destruct fs as [|f2 fs]; [done|]. exfalso. cbn [fmap list_fmap enc_elements] in Eq.
    destruct (enc o (field_val f2) field_ty (vp + length bs)) as [b2|] eqn:Eb2; [|done]. cbn [mbind option_bind] in Eq.
    destruct (enc_elements o field_ty _ _) as [q2|]; [|done]. injection Eq as <-. rewrite length_app in Hle.
    pose proof (element_nonempty o _ (TArray field_ty) field_ty _ _ 0 0 0 eq_refl eq_refl Eb2). lia.
  - rewrite (Hmore Hneq). eapply fields_start; [done|done|lia|lia].
Qed.

Lemma fields_loop_rule fs : ∀ seen rd k h,
  at_fields rd fs → (length fs < k)%nat → cached _DBUS_HEADER_FIELD_VALUE_UNKNOWN seen h →
  ∃ h', evals (fields_loop k rd) h (fields_verdict seen fs) h' ∧ padding_len h' = padding_len h ∧ data h' = d
    ∧ (fields_verdict seen fs = DBUS_VALID → cached _DBUS_HEADER_FIELD_VALUE_UNKNOWN (seen ++ fs) h').
Proof.
  induction fs as [|f fs IH]; intros seen rd k h Hat Hk Hc; (destruct k as [|k]; [simpl in Hk; lia|]).
  { destruct Hat as [[_ Hcur]|[? _]]; [|done]. exists h. split; [|split; [done|rewrite app_nil_r; split; [apply Hc|done]]].
    eapply evals_checked; [exact Hcur|]. byte_tests. apply evals_ret. }
  destruct (fields_head rd f fs Hat) as (st & st' & vr & p & b & more & rd' & H0 & H1 & H2 & H3 & H4 & H5 & H6 & H7 & H8 & H9 & Hn1 & Hat').
  assert (∃ h1, evals (if (code_nat f =? DBUS_HEADER_FIELD_INVALID)%nat then mret DBUS_INVALID_HEADER_FIELD_CODE
             else if (DBUS_HEADER_FIELD_LAST <? code_nat f)%nat then mret DBUS_VALID
             else
               t ← checked (_dbus_type_reader_get_current_type st');
               assert_ (t =b DBUS_TYPE_VARIANT);;
               variant_reader ← checked (_dbus_type_reader_recurse st');
               load_and_validate_field (code_nat f) variant_reader) h (field_verdict seen f) h1
     ∧ padding_len h1 = padding_len h ∧ data h1 = d
     ∧ (field_verdict seen f = DBUS_VALID → cached _DBUS_HEADER_FIELD_VALUE_UNKNOWN (seen ++ [f]) h1)) as (h1 & He & Hpad & Hdata & Hc1).
  { destruct (decide (known (code_nat f))) as [Hkn|Hkn].
    - destruct (load_field_rule seen f vr p b h Hkn Hc H6 H7 H8 H9) as (h1 & He & Hrest). exists h1. split; [|done].
      rewrite (proj2 (Nat.eqb_neq _ _)), (proj2 (Nat.ltb_ge _ _)) by
        (unfold known, DBUS_HEADER_FIELD_INVALID, DBUS_HEADER_FIELD_LAST in *; lia).
      eapply evals_checked; [exact H4|]. apply evals_assert; [done|]. by eapply evals_checked.
    - exists h. unfold field_verdict. change DBUS_HEADER_FIELD_LAST with 8%nat. change DBUS_HEADER_FIELD_INVALID with 0%nat.
      destruct (code_nat f =? 0)%nat eqn:E0; [split; [apply evals_ret|by split; [|split; [apply Hc|]]]|].
      apply Nat.eqb_neq in E0. rewrite (proj2 (Nat.ltb_lt _ _)) by (unfold known in Hkn; lia).
      split; [apply evals_ret|]. split; [done|]. split; [apply Hc|]. intros _. by apply cached_skip. }
  assert (∀ v h', evals (if decide (field_verdict seen f = DBUS_VALID) then fields_loop k rd' else mret (field_verdict seen f)) h1 v h' →
    evals (fields_loop (S k) rd) h v h') as Hin.
  { intros v h' Hv. eapply evals_checked; [exact H0|]. byte_tests. apply evals_assert; [done|].
    eapply evals_checked; [exact H1|]. eapply evals_bind; [apply H2|]. eapply evals_checked; [exact H3|].
    eapply evals_bind; [exact He|]. destruct (decide _); [|done]. eapply evals_checked; [exact Hn1|exact Hv]. }
  cbn [fields_verdict]. destruct (decide (field_verdict seen f = DBUS_VALID)) as [Hv|Hv].
  - destruct (IH (seen ++ [f]) rd' k h1 Hat') as (h' & He' & Hpad' & Hdata' & Hc'); [simpl in Hk; lia|by apply Hc1|].
    exists h'. split; [by apply Hin|]. split; [congruence|]. split; [done|]. by rewrite <-app_assoc in Hc'.
  - exists h1. split; [by apply Hin, evals_ret|done].
Qed.

End fields_array.

(** *** The fields that are needed *)

Lemma cached_end fs h :
  cached _DBUS_HEADER_FIELD_VALUE_UNKNOWN fs h →
  cached _DBUS_HEADER_FIELD_VALUE_NONEXISTENT fs
    (Header (data h) (map (λ p, if p =? _DBUS_HEADER_FIELD_VALUE_UNKNOWN then _DBUS_HEADER_FIELD_VALUE_NONEXISTENT else p) (fields h))
       (padding_len h) (header_order h)).
Proof.
  intros (Hdata & Ho & Hl & Hc). split; [done|]. split; [done|]. split; [by simpl; rewrite length_map|].
  intros c Hkc. specialize (Hc c Hkc). simpl. rewrite list_lookup_fmap. destruct (find_field c fs) as [f|].
  - destruct Hc as (Hf & p & -> & Hp). split; [done|]. exists p. split; [|done]. simpl.
    rewrite (proj2 (Z.eqb_neq _ _)); [done|]. unfold _DBUS_HEADER_FIELD_VALUE_UNKNOWN. lia.
  - by rewrite Hc.
Qed.

Lemma require_rule fs h l :
  cached _DBUS_HEADER_FIELD_VALUE_NONEXISTENT fs h → Forall (λ x, known (fst x)) l →
  evals (require_fields l) h (missing_verdict l fs) h.
Proof.
  intros Hc. induction 1 as [|[c e] l Hk _ IH]; [apply evals_ret|]. cbn [require_fields missing_verdict]. simpl in Hk.
  pose proof Hc as (_ & _ & _ & Hcache). specialize (Hcache c Hk). destruct (find_field c fs) as [f|].
  - destruct Hcache as (_ & p & Hp & _). eapply evals_bind; [by apply field_pos_rule|].
    rewrite (proj2 (Z.ltb_ge _ _)) by lia. done.
  - eapply evals_bind; [by apply field_pos_rule|]. apply evals_ret.
Qed.

Lemma mandatory_needed z : mandatory_fields z = needed_fields z ∧ Forall (λ x, known (fst x)) (needed_fields z).
Proof.
  unfold mandatory_fields, needed_fields, DBUS_MESSAGE_TYPE_SIGNAL, DBUS_MESSAGE_TYPE_METHOD_CALL, DBUS_MESSAGE_TYPE_ERROR,
    DBUS_MESSAGE_TYPE_METHOD_RETURN.
  destruct (Z.eqb_spec z 4) as [->|]; [|destruct (Z.eqb_spec z 1) as [->|]; [|destruct (Z.eqb_spec z 3) as [->|];
    [|destruct (Z.eqb_spec z 2) as [->|]]]].
  1-4: split; [done|]; repeat constructor; simpl; lia.
  repeat case_match; try lia; split; done || by constructor.
Qed.

Lemma mandatory_rule fs h t :
  cached _DBUS_HEADER_FIELD_VALUE_NONEXISTENT fs h → kept 1 [t] → (b2z t =? 0) = false →
  evals check_mandatory_fields h (missing_verdict (needed_fields (b2z t)) fs) h.
Proof.
  intros Hc Hk Ht. pose proof Hc as (Hdata & _).
  eapply (evals_bind _ _ _ (b2z t) h).
  - apply evals_gets. rewrite Hdata. assert (_dbus_string_get_byte TYPE_OFFSET d = Some t) as ->.
    { apply (get_byte_held d (take n body)); [done|]. by rewrite length_copy. }
    eapply evals_checked; [reflexivity|].
    apply evals_assert; [by apply negb_true_iff|]. apply evals_ret.
  - destruct (mandatory_needed (b2z t)) as [-> HF]. by apply require_rule.
Qed.

(** The array of fields of the header. *)
Lemma header_array hv x :
  enc o (VArray (field_val <$> hv_fields hv)) (TArray field_ty) 12 = Some (octets o 4 (Z.of_nat (length x)) ++ x) →
  held 12 (octets o 4 (Z.of_nat (length x)) ++ x) →
  _dbus_type_reader_get_current_type (at_value_ 6 12) = Some DBUS_TYPE_ARRAY
  ∧ ∃ off, _dbus_type_reader_recurse (at_value_ 6 12) = Some (fields_reader 16 16 off)
      ∧ elements_place r o (TArray field_ty) off 16 (length x)
      ∧ at_fields off 16 (length x) (fields_reader 16 16 off) (hv_fields hv).
Proof.
  intros Ex Hh. split.
  { exact (current_type_value r o KBody 0 (lit "yyyyuu") (TArray field_ty) [] 12 0 accepted_key 0 0 0 ltac:(done) eq_refl). }
  destruct (array_recurse r o body Hr (VArray (field_val <$> hv_fields hv)) (TArray field_ty) KBody 0 (lit "yyyyuu") [] 12 0 _ 0 0 0 eq_refl eq_refl Ex Hh)
    as (off & start & x' & Hrec & Hstart & Hplace & Hx & Hend & t' & [= <-] & Ex').
  change (align_up (align_up 12 4 + 4) (element_alignment (TArray field_ty))) with 16%nat in Hstart. subst start.
  rewrite length_app, length_octets in Hend. assert (length x' = length x) as Hlx by lia. rewrite Hlx in Hplace.
  exists off. split; [exact Hrec|]. split; [exact Hplace|]. eapply (fields_start off 16 _ Hplace); [exact Ex'|exact Hx|lia|lia].
Qed.

Lemma fields_fit fs : ∀ p x, enc_elements o field_ty (field_val <$> fs) p = Some x → (length fs <= length x)%nat.
Proof.
  induction fs as [|f fs IH]; intros p x E; [simpl; lia|]. cbn [fmap list_fmap enc_elements] in E.
  destruct (enc o (field_val f) field_ty p) as [b|] eqn:Eb; [|done]. cbn [mbind option_bind] in E.
  destruct (enc_elements o field_ty _ _) as [q|] eqn:Eq; [|done]. injection E as <-. specialize (IH _ _ Eq).
  pose proof (element_nonempty o _ (TArray field_ty) field_ty _ _ 0 0 0 eq_refl eq_refl Eb).
  rewrite length_app. simpl. lia.
Qed.

Lemma byte_of_value c k : 0 <= k < 256 → bool_decide (Byt c = Byt (z2b k)) = (b2z c =? k).
Proof.
  intros Hk. apply eq_true_iff_eq. rewrite bool_decide_eq_true, Z.eqb_eq. split.
  - intros [= ->]. rewrite b2z_z2b. by apply Z.mod_small.
  - intros <-. by rewrite z2b_b2z.
Qed.

(** What [load_values] does once the values in front of the fields are read. *)
Definition judge_values (hv : header_values) (off : nat) : HM DBusValidity :=
  if b2z (hv_type hv) =? 0 then mret DBUS_INVALID_BAD_MESSAGE_TYPE
  else if negb (b2z (hv_version hv) =? 1) then mret DBUS_INVALID_BAD_PROTOCOL_VERSION
  else if hv_serial hv =? 0 then mret DBUS_INVALID_BAD_SERIAL
  else
    v ← fields_loop (S (length (str r))) (fields_reader 16 16 off);
    if decide (v = DBUS_VALID) then
      set_fields (map (λ p, if p =? _DBUS_HEADER_FIELD_VALUE_UNKNOWN
                            then _DBUS_HEADER_FIELD_VALUE_NONEXISTENT else p));;
      check_mandatory_fields
    else mret v.

Lemma fixed_part_rule hv bs b_len off h v h' :
  header_bytes o hv = Some bs → held 0 bs → hv_order hv = order_byte → hv_body_len hv = Z.of_nat b_len →
  _dbus_type_reader_recurse (at_value_ 6 12) = Some (fields_reader 16 16 off) →
  evals (judge_values hv off) (Header (data h) (fields h) (padding_len h) o) v h' →
  evals (load_values o b_len r 0) h v h'.
Proof.
  intros E Hh Hord Hblen Hrec Hv. set (h1 := Header (data h) (fields h) (padding_len h) o) in *.
  destruct (header_held hv bs E Hh) as (x & Ex & Exs & Hl & H0 & H1 & H2 & H3 & H4 & H8 & H12 & Hb & Hs).
  destruct (header_array hv x Ex H12) as [Hcur _]. unfold judge_values in Hv.
  eapply evals_bind; [exact (take_byte [] (hv_order hv) (lit "yyuua(yv)") 0 h H0)|].
  apply evals_assert; [by rewrite Hord, bool_decide_true|]. eapply (evals_bind _ _ _ tt h1); [done|].
  eapply evals_bind; [exact (take_byte (lit "y") (hv_type hv) (lit "yuua(yv)") 1 h1 H1)|].
  cbv beta iota. rewrite byte_of_value by (unfold DBUS_MESSAGE_TYPE_INVALID; lia). unfold DBUS_MESSAGE_TYPE_INVALID.
  destruct (b2z (hv_type hv) =? 0); [done|].
  eapply evals_bind; [exact (take_byte (lit "yy") (hv_flags hv) (lit "uua(yv)") 2 h1 H2)|].
  cbv beta iota. eapply evals_bind; [exact (take_basic_rule (lit "yyy") DBUS_TYPE_BYTE (Byt (hv_version hv)) (TLeaf "u") (lit "ua(yv)") 3 4 h1 eq_refl eq_refl ltac:(by rewrite byte_wire) eq_refl ltac:(by rewrite byte_wire))|].
  cbv beta iota. rewrite byte_of_value by (unfold DBUS_MAJOR_PROTOCOL_VERSION; lia). unfold DBUS_MAJOR_PROTOCOL_VERSION.
  destruct (negb (b2z (hv_version hv) =? 1)); [done|].
  eapply evals_bind; [exact (take_u32 (lit "yyyy") (TLeaf "u") _ (lit "a(yv)") 4 h1 H4 Hb eq_refl eq_refl)|]. cbv beta iota.
  apply evals_assert; [by rewrite bool_decide_true by by rewrite Hblen|].
  eapply evals_bind; [exact (take_u32 (lit "yyyyu") (TArray field_ty) _ [] 8 h1 H8 Hs eq_refl eq_refl)|]. cbv beta iota.
  assert (bool_decide (U32 (hv_serial hv) = U32 0) = (hv_serial hv =? 0)) as ->.
  { apply eq_true_iff_eq. rewrite bool_decide_eq_true, Z.eqb_eq. split; [by intros [= ->]|by intros ->]. }
  destruct (hv_serial hv =? 0); [done|]. eapply evals_checked; [exact Hcur|]. apply evals_assert; [done|].
  apply evals_assert; [done|]. eapply evals_checked; [exact Hrec|]. exact Hv.
Qed.

Lemma load_values_rule hv bs h b_len :
  header_bytes o hv = Some bs → held 0 bs → (length bs <= n)%nat →
  hv_order hv = order_byte → hv_body_len hv = Z.of_nat b_len →
  data h = d → fields h = replicate 9 _DBUS_HEADER_FIELD_VALUE_UNKNOWN →
  ∃ h', evals (load_values o b_len r 0) h (header_verdict hv) h' ∧ data h' = d ∧ padding_len h' = padding_len h
    ∧ (header_verdict hv = DBUS_VALID → cached _DBUS_HEADER_FIELD_VALUE_NONEXISTENT (hv_fields hv) h').
Proof.
  intros E Hh Hle Hord Hblen Hdata Hfields.
  destruct (header_held hv bs E Hh) as (x & Ex & Exs & Hl & H0 & H1 & H2 & H3 & H4 & H8 & H12 & Hb & Hs).
  set (h1 := Header (data h) (fields h) (padding_len h) o).
  assert (cached _DBUS_HEADER_FIELD_VALUE_UNKNOWN [] h1) as Hc.
  { split; [done|]. split; [done|]. split; [by simpl; rewrite Hfields|]. intros c Hc. simpl. rewrite Hfields.
    apply lookup_replicate_2. unfold known in Hc. lia. }
  destruct (header_array hv x Ex H12) as (_ & off & Hrec & Hplace & Hat).
  destruct (fields_loop_rule off 16 (length x) Hplace ltac:(lia) (hv_fields hv) [] _ (S (length (str r))) h1 Hat)
    as (h2 & He & Hpad & Hd2 & Hc2); [|done|].
  { pose proof (is_str_block _ _ Hr). pose proof (fields_fit _ _ _ Exs). lia. }
  assert (∀ v h', evals (judge_values hv off) h1 v h' → evals (load_values o b_len r 0) h v h') as Hin.
  { intros v h' Hv. by eapply fixed_part_rule. }
  unfold judge_values, header_verdict in *.
  destruct (b2z (hv_type hv) =? 0) eqn:Et; [exists h1; by split; [apply Hin, evals_ret|]|].
  destruct (negb (b2z (hv_version hv) =? 1)); [exists h1; by split; [apply Hin, evals_ret|]|].
  destruct (hv_serial hv =? 0); [exists h1; by split; [apply Hin, evals_ret|]|].
  destruct (decide (fields_verdict [] (hv_fields hv) = DBUS_VALID)) as [Hv|Hv].
  - eexists. split; [apply Hin; eapply evals_bind; [exact He|]|].
    + rewrite decide_True by done. eapply evals_bind; [by intros m|].
      apply mandatory_rule; [by apply cached_end, Hc2| |done]. apply held_kept; [done|simpl; lia].
    + split; [apply Hd2|]. split; [apply Hpad|]. intros _. by apply cached_end, Hc2.
  - exists h2. split; [|done]. apply Hin. eapply evals_bind; [exact He|]. rewrite decide_False by done. apply evals_ret.
Qed.

End loading.

(** ** The validator names a reason *)

(** Memory is only used up, and its lack is reported as such. *)
Definition honest_answer (m m' : mem) (oom : Prop) : Prop := (may_fail m' → may_fail m) ∧ (oom → may_fail m).

Definition honest_turn {A} (x : (DBusValidity + A) * mem) (m : mem) : Prop :=
  honest_answer m (snd x) (fst x = inl DBUS_VALIDITY_UNKNOWN_OOM_ERROR).

Lemma honest_same {A} (x : DBusValidity + A) m : x ≠ inl DBUS_VALIDITY_UNKNOWN_OOM_ERROR → honest_turn (x, m) m.
Proof. by split. Qed.

Lemma push_honest n st m : honest_turn (push n st m) m.
Proof.
  unfold push. destruct (alloc m) as [[] m'] eqn:E.
  - split; [by eapply alloc_mono|done].
  - split; intros _; by eapply alloc_fail.
Qed.

Ltac honest_tests :=
  repeat first
    [ apply push_honest
    | match goal with |- honest_turn (match ?x with _ => _ end) _ => destruct x end
    | apply honest_same; first [done | repeat case_match; done] ].

Lemma sig_turn_honest c p1 st m : honest_turn (sig_turn c p1 st m) m.
Proof.
  unfold sig_turn.
  assert (honest_turn (sig_switch c st m) m) as H1 by (unfold sig_switch; honest_tests).
  destruct (sig_switch c st m) as [[v|st1] m1]; [done|].
  assert (honest_turn (sig_count c st1 m1) m1) as H2 by (unfold sig_count; honest_tests).
  destruct (sig_count c st1 m1) as [[v|st2] m2].
  - destruct H1 as [H1 _], H2 as [H2 H3]. split; simpl in *; auto.
  - destruct H1 as [H1 _], H2 as [H2 _]. split; simpl in *; [auto|]. intros Ht. exfalso.
    unfold sig_tests in Ht. destruct st2. repeat case_match; simplify_eq.
Qed.

Lemma sig_loop_honest p : ∀ after st m,
  honest_answer m (snd (sig_loop p after st m)) (fst (sig_loop p after st m) = DBUS_VALIDITY_UNKNOWN_OOM_ERROR).
Proof.
  induction p as [|c p IH]; intros after st m.
  - simpl. split; [done|]. simpl. unfold sig_end. repeat case_if; done.
  - simpl. pose proof (sig_turn_honest c (byte_at (p ++ after) 0) st m) as Ht.
    destruct (sig_turn c (byte_at (p ++ after) 0) st m) as [[v|st'] m']; destruct Ht as [H1 H2]; simpl in *.
    + split; [done|]. intros ->. by apply H2.
    + destruct (IH after st' m') as [H3 H4]. split; auto.
Qed.

Lemma signature_honest s p n m v m' :
  _dbus_validate_signature_with_reason s p n m = (v, m') → honest_answer m m' (v = DBUS_VALIDITY_UNKNOWN_OOM_ERROR).
Proof.
  unfold _dbus_validate_signature_with_reason. destruct (alloc m) as [[] m1] eqn:E; cbn [negb].
  - destruct (_ <? n)%nat; [intros [= <- <-]; split; [by eapply alloc_mono|done]|]. intros El.
    pose proof (sig_loop_honest (sub s p n) (drop (p + n) s) sig_init m1) as [H1 H2]. rewrite El in H1, H2. simpl in H1, H2.
    split; intros Hx; eapply alloc_mono; eauto.
  - intros [= <- <-]. split; intros _; by eapply alloc_fail.
Qed.

(** When [c] stops, it is for a reason; the reason is lack of memory only when an
    allocation was refused. *)
Definition reasoned {A} (c : V A) : Prop := ∀ m x m', c m = Some (x, m') →
  (may_fail m' → may_fail m)
  ∧ ∀ v, x = inl v → v ≠ DBUS_VALID ∧ (v = DBUS_VALIDITY_UNKNOWN_OOM_ERROR → may_fail m).

Lemma reasoned_ret {A} (a : A) : reasoned (mret a).
Proof. by intros m x m' [= <- <-]. Qed.
Lemma reasoned_reject {A} e : e ≠ DBUS_VALID → e ≠ DBUS_VALIDITY_UNKNOWN_OOM_ERROR → reasoned (reject (A := A) e).
Proof. intros He Hoom m x m' [= <- <-]. split; [done|]. by intros v [= <-]. Qed.
Lemma reasoned_lift {A} (o : option A) : reasoned (lift o).
Proof. intros m x m'. unfold lift. destruct o; [|done]. by intros [= <- <-]. Qed.
Lemma reasoned_wrong {A} : reasoned (λ _, None : option ((DBusValidity + A) * mem)).
Proof. done. Qed.
Lemma reasoned_bind {A B} (c : V A) (k : A → V B) : reasoned c → (∀ a, reasoned (k a)) → reasoned (c ≫= k).
Proof.
  intros Hc Hk m x m'. unfold mbind, V_bind. specialize (Hc m). destruct (c m) as [[[e|a] m1]|]; [..|done].
  - intros [= <- <-]. destruct (Hc _ _ eq_refl) as [H1 H2]. split; [done|]. intros v [= <-]. by apply H2.
  - intros E. destruct (Hc _ _ eq_refl) as [H1 _], (Hk a m1 x m' E) as [H2 H3]. split; [auto|].
    intros v Hv. destruct (H3 v Hv). auto.
Qed.

(** The validator of signatures, and the rejection that follows. *)
Lemma reasoned_signature {B} body p n (k : DBusValidity → V B) :
  (∀ v, v ≠ DBUS_VALIDITY_UNKNOWN_OOM_ERROR → reasoned (k v)) →
  (∃ v, v = DBUS_VALIDITY_UNKNOWN_OOM_ERROR ∧ k v = reject v) → reasoned (signature_reason body p n ≫= k).
Proof.
  intros Hk (v0 & -> & Hoom) m x m'. unfold mbind, V_bind, signature_reason.
  destruct (_dbus_validate_signature_with_reason (drop p body) 0 n m) as [v m1] eqn:E.
  destruct (signature_honest _ _ _ _ _ _ E) as [H1 H2]. intros Ex.
  destruct (decide (v = DBUS_VALIDITY_UNKNOWN_OOM_ERROR)) as [->|Hne].
  - rewrite Hoom in Ex. injection Ex as <- <-. split; [done|]. intros v [= <-]. auto.
  - destruct (Hk v Hne m1 x m' Ex) as [H3 H4]. split; [auto|]. intros u Hu. destruct (H4 u Hu). auto.
Qed.

Create HintDb reason.
#[export] Hint Resolve reasoned_ret reasoned_lift reasoned_wrong : reason.

Ltac reasons :=
  repeat first
    [ solve [auto with reason]
    | apply reasoned_reject; first [done | match goal with H : bool_decide _ = true |- _ => by apply bool_decide_eq_true in H end]
    | apply reasoned_signature; [intros ? ?|eexists; split; reflexivity]
    | apply reasoned_bind; [|intros ?]
    | match goal with |- reasoned (match ?x with _ => _ end) => destruct x eqn:? end
    | progress cbv zeta ].

Lemma helper_reasoned `{Host} body order end_ f : ∀ reader walk p, reasoned (validate_body_helper body order end_ f reader walk p).
Proof.
  induction f as [|f IH]; intros reader walk p; [apply reasoned_wrong|]. cbn [validate_body_helper].
  assert (∀ q a, reasoned (skip_padding body q a)) as Hskip by (intros; unfold skip_padding; reasons).
  assert (∀ q, reasoned (unpack_at body order q)) as Hun by (intros; unfold unpack_at; reasons).
  assert (∀ q, reasoned (byte_of_body body q)) as Hby by (intros; unfold byte_of_body; reasons).
  assert (∀ q, reasoned (check_boolean body order q)) as Hbool by (intros; unfold check_boolean; reasons).
  assert (∀ n q e, reasoned (boolean_loop body order n q e)) as Hbl.
  { induction n as [|n IHn]; intros; simpl; reasons. }
  assert (∀ el n q e, (∀ q, reasoned (el q)) → reasoned (element_loop el n q e)) as Hel.
  { intros el n. induction n as [|n IHn]; intros; simpl; reasons. }
  assert (∀ q, reasoned (validate_length body order end_ q)) as Hlen by (intros; unfold validate_length; reasons).
  apply reasoned_bind; [apply reasoned_lift|]. intros c. reasons.
  unfold validate_value, validate_fixed, validate_string, validate_signature_value, validate_array, validate_variant, validate_struct.
  reasons.
Qed.

(** ** Loading a header *)

Lemma read_u32_range `{Host} r p o z q : _dbus_marshal_read_uint32 r p o = Some (z, q) → 0 <= z < 2 ^ 32.
Proof.
  unfold _dbus_marshal_read_uint32. unfold mem_read. case_if; [done|]. case_if; [|done]. intros [= <- _].
  assert (length (sub (str r) (align_up p 4) 4) = 4%nat) as Hl by (apply length_sub; apply Nat.leb_le; done).
  rewrite unpack_32_ok by done. pose proof (of_octets_range o (sub (str r) (align_up p 4) 4)) as Hz. by rewrite Hl in Hz.
Qed.

(** The lengths that were found, and what the code may rely on. *)
Record announced `{Host} (r : DBusRealString) (len_ : nat) (l : message_lengths) : Prop := {
  ann_order : _dbus_string_get_byte 0 r = Some (order_byte (claimed_order l));
  ann_fields : ∃ q, _dbus_marshal_read_uint32 r 12 (claimed_order l) = Some (Z.of_nat (fields_array_len l), q);
  ann_body : ∃ q, _dbus_marshal_read_uint32 r 4 (claimed_order l) = Some (Z.of_nat (body_len l), q);
  ann_header : header_len l = align_up (16 + fields_array_len l) 8;
  ann_room : (header_len l + body_len l <= len_)%nat
}.

Ltac passes Hm := match type of Hm with context [if ?b then _ else _] => destruct b eqn:?; [done|] end.

Lemma have_message_announced `{Host} max_ r len_ l :
  _dbus_header_have_message_untrusted max_ r 0 len_ = Some (inr (Some l)) → announced r len_ l.
Proof.
  unfold _dbus_header_have_message_untrusted. change (0 + ?x)%nat with x. unfold BYTE_ORDER_OFFSET.
  case_if; [done|]. intros Hm.
  destruct (_dbus_string_get_byte 0 r) as [b0|] eqn:E0; [|done]. cbn [mbind option_bind] in Hm.
  assert (∃ o, (if b0 =b "l" then Some DBUS_LITTLE_ENDIAN
    else if b0 =b "B" then Some DBUS_BIG_ENDIAN else None) = Some o ∧ b0 = order_byte o) as (o & Eo & Hob).
  { destruct (byte_eqb_spec b0 "l") as [E|]; [by exists DBUS_LITTLE_ENDIAN|].
    destruct (byte_eqb_spec b0 "B") as [E|]; [by exists DBUS_BIG_ENDIAN|done]. }
  rewrite Eo in Hm. passes Hm. unfold FIELDS_ARRAY_LENGTH_OFFSET, BODY_LENGTH_OFFSET, FIRST_FIELD_OFFSET in Hm.
  destruct (_dbus_marshal_read_uint32 r 12 o) as [[fl q1]|] eqn:Ef; [|done]. cbn [mbind option_bind] in Hm.
  destruct (u32 max_ <? fl) eqn:E1; [done|]. destruct (len_ <=? 4 + 4)%nat eqn:E2; [done|].
  destruct (_dbus_marshal_read_uint32 r 4 o) as [[bl q2]|] eqn:Eb; [|done]. cbn [mbind option_bind] in Hm.
  pose proof (read_u32_range _ _ _ _ _ Ef) as Hfl. pose proof (read_u32_range _ _ _ _ _ Eb) as Hbl.
  set (hl := _DBUS_ALIGN_VALUE (u32 (Z.of_nat 16 + fl)) 8) in *.
  do 4 passes Hm. destruct (u32 (bl + hl) <=? Z.of_nat len_) eqn:E6; [|done]. injection Hm as <-.
  bool_prop. assert (Z.of_nat (align_up (16 + Z.to_nat fl) 8) = hl) as Hhl.
  { unfold hl, align_up. rewrite u32_small by lia. rewrite Nat2Z.inj_add, !Z2Nat.id; [done|lia|].
    rewrite (align_value_mul _ 3) by lia. pose proof (Z.div_pos (Z.of_nat 16 + Z.of_nat (Z.to_nat fl) + (2 ^ 3 - 1)) (2 ^ 3)). lia. }
  constructor; cbn; [by rewrite E0, Hob|exists q1; by rewrite Z2Nat.id by lia|exists q2; by rewrite Z2Nat.id by lia|by rewrite <-Hhl, Nat2Z.id|].
  rewrite u32_small in E6 by lia. lia.
Qed.

(** The value that a client reads. *)
Definition basic_of (v : val) : option DBusBasicValue :=
  match v with
  | VBasic b => Some b
  | VSignature ts => Some (Str (print_sig ts))
  | _ => None
  end.

(** A header before loading. *)
Definition unloaded (h : DBusHeader) : Prop :=
  is_str [] (data h) ∧ fields h = replicate 9 _DBUS_HEADER_FIELD_VALUE_UNKNOWN.

(** The signature of the body. *)
Definition signature_of (hv : header_values) : list ty :=
  match find_field 8 (hv_fields hv) with
  | Some f => match field_value f with VSignature ts => ts | _ => [] end
  | None => []
  end.

(** A header that shows the values [hv]. *)
Record shows `{Host} (text : bytes) (hv : header_values) (h : DBusHeader) : Prop := {
  shows_data : is_str text (data h);
  shows_order : order_byte (header_order h) = hv_order hv;
  shows_type : evals _dbus_header_get_message_type h (b2z (hv_type hv)) h;
  shows_serial : evals _dbus_header_get_serial h (hv_serial hv) h;
  shows_flags flag : evals (_dbus_header_get_flag flag) h (negb (Z.land (b2z (hv_flags hv)) flag =? 0)) h;
  shows_field c :
    (1 <= c <= 8)%nat →
    evals (_dbus_header_get_field_basic c (field_typecode c)) h
      (find_field c (hv_fields hv) ≫= λ f, basic_of (field_value f)) h;
  shows_signature :
    sig_ok accepted_key (signature_of hv) = true
    ∧ (signature_of hv = [] ∧ evals (_dbus_header_get_field_raw 8) h None h
       ∨ ∃ p pre post, evals (_dbus_header_get_field_raw 8) h (Some (Z.of_nat p)) h
           ∧ str (data h) = pre ++ print_sig (signature_of hv) ++ x00 :: post ∧ length pre = (p + 1)%nat)
}.

Section whole.
Context `{Host}.
Context (r : DBusRealString) (body : bytes) (l : message_lengths).
Hypothesis Hr : is_str body r.
Hypothesis Hl : announced r (length body) l.

Abbreviation held := (holds (str r) (length body)).
Abbreviation o := (claimed_order l).

(** The lengths in a header are those that were announced. *)
Lemma announced_lengths hv bs :
  header_bytes o hv = Some bs → held 0 bs →
  hv_order hv = order_byte o ∧ hv_body_len hv = Z.of_nat (body_len l)
  ∧ length bs = (16 + fields_array_len l)%nat ∧ (length bs <= header_len l)%nat.
Proof.
  intros E Hh. destruct Hl as [H1 (q1 & H2) (q2 & H3) H4 H5].
  destruct (header_held r o body Hr hv bs E Hh) as (x & Ex & Exs & Hlen & Hb0 & _ & _ & _ & Hb4 & _ & H12 & Hbl & _).
  destruct (holds_app _ _ (is_str_block _ _ Hr) _ _ _ H12) as [Hx _].
  destruct (header_parts _ _ _ E) as (x' & Ex' & Hx' & _). rewrite Exs in Ex'. injection Ex' as <-.
  assert (fields_array_len l = length x) as Hfl.
  { rewrite (read_length r o body Hr 12 (Z.of_nat (length x))) in H2; [|unfold DBUS_MAXIMUM_ARRAY_LENGTH in *; lia|exact Hx].
    injection H2. lia. }
  rewrite (get_byte_held r body Hr _ _ Hb0) in H1. injection H1 as H1. split; [done|]. split; [|split; [lia|]].
  - rewrite (read_length r o body Hr 4 _ Hbl) in H3; [|exact Hb4]. by injection H3.
  - rewrite H4, Hlen, Hfl. destruct (align_up_spec (16 + length x) 8); [alignment|lia].
Qed.

Section copy.
Context (n : nat) (d : DBusRealString).
Hypothesis Hn : (n <= length body)%nat.
Hypothesis Hd : is_str (take n body) d.

Lemma basic_read p f :
  known (code_nat f) → place o n d p f →
  ∃ b q, basic_of (field_value f) = Some b ∧ _dbus_marshal_read_basic d p (field_typecode (code_nat f)) o = Some (b, q).
Proof.
  intros Hk (Ht & b & E & Hb). assert (length (take n body) = n) as Hlen by (rewrite length_take; lia).
  rewrite <-Hlen in Hb. assert (∀ c x, enc o (VBasic x) (TLeaf c) p = Some b →
    _dbus_marshal_read_basic d p c o = Some (x, p + length b)%nat) as Hbasic.
  { intros c x Ex. rewrite enc_eq in Ex. destruct (basic_ok c x) eqn:Ok; [|done]. injection Ex as <-.
    by apply (read_value d o _ Hd). }
  destruct (decide (code_nat f = 5%nat)) as [Hc|Hc5]; [|destruct (decide (code_nat f = 8%nat)) as [Hc|Hc8]].
  - rewrite Hc in *. pose proof (leaf_of _ _ Ht ltac:(by left)) as Hty. rewrite Hty in E.
    destruct (u32_shape _ _ _ _ E) as (z & Ev & _). rewrite Ev in *. eexists _, _. split; [done|]. exact (Hbasic _ _ E).
  - rewrite Hc in *. pose proof (leaf_of _ _ Ht ltac:(by right)) as Hty. rewrite Hty, enc_eq in E.
    destruct (field_value f) as [b'|ts| | | |]; try done. destruct (read_signature_value d o _ Hd ts _ _ E Hb) as [q Hq].
    by eexists _, q.
  - assert (field_typecode (code_nat f) = DBUS_TYPE_STRING ∨ field_typecode (code_nat f) = DBUS_TYPE_OBJECT_PATH) as Hty
      by by apply text_code.
    destruct (text_value _ _ _ _ _ _ E Ht Hty) as (s & -> & Ok & ->). eexists _, _. split; [done|].
    by apply (read_value d o _ Hd).
Qed.

(** The signature of the body in the memory of the header. *)
Lemma signature_shown hv h :
  cached o n d _DBUS_HEADER_FIELD_VALUE_NONEXISTENT (hv_fields hv) h →
  sig_ok accepted_key (signature_of hv) = true
  ∧ (signature_of hv = [] ∧ evals (_dbus_header_get_field_raw 8) h None h
     ∨ ∃ p pre post, evals (_dbus_header_get_field_raw 8) h (Some (Z.of_nat p)) h
         ∧ str (data h) = pre ++ print_sig (signature_of hv) ++ x00 :: post ∧ length pre = (p + 1)%nat).
Proof.
  intros (Hdata & Ho & _ & Hcache). assert (known 8) as Hk by (unfold known; lia). specialize (Hcache 8%nat Hk).
  unfold signature_of. destruct (find_field 8 (hv_fields hv)) as [f|].
  2: { split; [done|]. left. split; [done|]. eapply evals_bind; [by apply cache_known|]. apply evals_ret. }
  destruct Hcache as (Hc & p & Hp & Ht & b & E & Hb). rewrite Hc in Ht.
  rewrite (leaf_of _ _ Ht ltac:(by right)), enc_eq in E. destruct (field_value f) as [|ts| | | |]; try done.
  assert (length (take n body) = n) as Hlen by (rewrite length_take; lia). rewrite <-Hlen in Hb.
  change (field_typecode 8 =b "g") with true in E. cbv iota in E. unfold enc_signature in E.
  destruct (sig_ok accepted_key ts && _) eqn:Eok; [|done]. apply andb_true_iff in Eok as [Hok _]. injection E as <-.
  split; [done|]. right. destruct (held_split d _ Hd _ _ Hb) as [Esplit Hlp]. destruct (is_str_split _ _ Hd) as [q Hq].
  set (c := z2b (Z.of_nat (length (print_sig ts)))) in *. set (rest := drop _ _) in Esplit.
  exists p, (take p (take n body) ++ [c]), (rest ++ q). split; [|split].
  - eapply evals_bind; [by eapply cache_found|]. eapply evals_bind; [by apply field_pos_rule|]. apply evals_ret.
  - rewrite Hdata, Hq. rewrite Esplit at 1. rewrite <-!app_assoc. simpl. by rewrite <-!app_assoc.
  - rewrite length_app, Hlp. done.
Qed.

Lemma cached_shows hv bs h :
  header_bytes o hv = Some bs → held 0 bs → (length bs <= n)%nat → hv_order hv = order_byte o → (b2z (hv_type hv) =? 0) = false →
  cached o n d _DBUS_HEADER_FIELD_VALUE_NONEXISTENT (hv_fields hv) h → shows (take n body) hv h.
Proof.
  intros E Hh Hle Hord Ht Hc. pose proof Hc as (Hdata & Ho & _ & Hcache). assert (length (take n body) = n) as Hlen by (rewrite length_take; lia).
  destruct (header_held r o body Hr hv bs E Hh) as (x & _ & _ & Hbs & _ & H1 & H2 & _ & _ & H8 & _ & _ & Hs).
  assert (∀ p b, held p b → (p + length b <= 16)%nat → holds (str d) (length (take n body)) p b) as Hkeep.
  { intros p b Hp Hpb. rewrite Hlen. apply (held_kept r body Hr n d Hn Hd); [done|lia]. }
  constructor.
  - by rewrite Hdata.
  - by rewrite Ho.
  - apply evals_gets. rewrite Hdata, (get_byte_held d (take n body) Hd TYPE_OFFSET _ (Hkeep _ _ H1 ltac:(simpl; lia))).
    eapply evals_checked; [reflexivity|].
    apply evals_assert; [by apply negb_true_iff|]. apply evals_ret.
  - apply evals_gets. rewrite Hdata, Ho. eapply evals_checked.
    { apply (read_length d o _ Hd SERIAL_OFFSET (hv_serial hv) Hs).
      apply (Hkeep 8%nat (octets o 4 (hv_serial hv)) H8). rewrite length_octets; lia. }
    apply evals_ret.
  - intros flag. apply evals_gets. rewrite Hdata. rewrite <-(is_str_length _ _ Hd), Hlen.
    apply evals_assert; [apply Nat.leb_le; unfold FLAGS_OFFSET; lia|].
    pose proof (get_byte_held d (take n body) Hd FLAGS_OFFSET _ (Hkeep _ _ H2 ltac:(simpl; lia))) as Hb.
    rewrite get_byte_in in Hb by (rewrite <-(is_str_length _ _ Hd), Hlen; unfold FLAGS_OFFSET; lia).
    injection Hb as ->. apply evals_ret.
  - intros c Hk. specialize (Hcache c Hk). destruct (find_field c (hv_fields hv)) as [f|].
    + destruct Hcache as (<- & p & Hp & Hpl). destruct (basic_read p f Hk Hpl) as (b & q & Hb & Hread).
      cbn [mbind option_bind]. rewrite Hb. eapply (get_basic_found body n Hn); [done|exact Hp|]. by rewrite Hdata, Ho.
    + apply evals_assert; [apply negb_true_iff, Nat.eqb_neq; unfold DBUS_HEADER_FIELD_INVALID; lia|].
      apply evals_assert; [apply Nat.leb_le, Hk|]. apply evals_assert; [rewrite expected_type by done; apply byte_eqb_refl|].
      eapply evals_bind; [by apply cache_known|]. apply evals_ret.
  - by apply signature_shown.
Qed.

End copy.

Lemma after_evals {S A B} (c : M S A) (k : A → M S B) s a s1 m : evals c s a s1 → (c ≫= k) s m = k a s1 m.
Proof. intros Hc. unfold mbind, M_bind. by rewrite Hc. Qed.

Lemma invalid_rule t h v m :
  is_str t (data h) → ∃ h', invalid v h m = Ok v h' m ∧ is_str [] (data h').
Proof.
  intros Hd. destruct (set_length_shrink 0 t (data h) m Hd ltac:(lia)) as (d' & E & Hd').
  exists (Header d' (fields h) (padding_len h) (header_order h)). split; [|done].
  unfold invalid, mbind, M_bind, on_data. by rewrite E.
Qed.

(** The verdict on the header and its padding. *)
Definition load_verdict (hv : header_values) (padding : bytes) : DBusValidity :=
  if forallb (λ c, c =b x00) padding then header_verdict hv else DBUS_INVALID_ALIGNMENT_PADDING_NOT_NUL.

Lemma header_valid_type hv : header_verdict hv = DBUS_VALID → (b2z (hv_type hv) =? 0) = false.
Proof. unfold header_verdict. by destruct (b2z (hv_type hv) =? 0). Qed.

Lemma load_verdict_memory hv q : load_verdict hv q ≠ DBUS_VALIDITY_UNKNOWN_OOM_ERROR.
Proof.
  assert (∀ f, value_verdict f ≠ DBUS_VALIDITY_UNKNOWN_OOM_ERROR) as Hv.
  { intros f. unfold value_verdict, text_verdict. repeat case_match; done. }
  assert (∀ seen f, field_verdict seen f ≠ DBUS_VALIDITY_UNKNOWN_OOM_ERROR) as Hf.
  { intros seen f. unfold field_verdict. repeat case_if; try done. }
  assert (∀ fs seen, fields_verdict seen fs ≠ DBUS_VALIDITY_UNKNOWN_OOM_ERROR) as Hfs.
  { induction fs as [|f fs IH]; intros seen; simpl; [done|]. by destruct (decide _). }
  assert (∀ z fs, missing_verdict (needed_fields z) fs ≠ DBUS_VALIDITY_UNKNOWN_OOM_ERROR) as Hm.
  { intros z fs. unfold needed_fields. repeat case_match; simpl; repeat case_match; done. }
  unfold load_verdict, header_verdict. repeat case_match; done.
Qed.

Lemma padding_test (bs : bytes) :
  length bs = (16 + fields_array_len l)%nat →
  _dbus_string_validate_nul body (FIRST_FIELD_OFFSET + fields_array_len l)
    (header_len l - (FIRST_FIELD_OFFSET + fields_array_len l))
  = forallb (λ c, c =b x00) (drop (length bs) (take (header_len l) body)).
Proof.
  intros Hlen. destruct Hl as [_ _ _ _ H5]. unfold _dbus_string_validate_nul, FIRST_FIELD_OFFSET. rewrite <-Hlen.
  rewrite (proj2 (Nat.ltb_ge _ _)) by lia. unfold sub. by rewrite skipn_firstn_comm.
Qed.

Lemma finish_load_rule hv bs h left m :
  header_bytes o hv = Some bs → held 0 bs → (left < length body)%nat →
  is_str (take (header_len l) body) (data h) → fields h = replicate 9 _DBUS_HEADER_FIELD_VALUE_UNKNOWN →
  let v := load_verdict hv (drop (length bs) (take (header_len l) body)) in
  ∃ h', finish_load false l r 0 (length body) left h m = Ok v h' m
    ∧ if decide (v = DBUS_VALID) then shows (take (header_len l) body) hv h' else is_str [] (data h').
Proof.
  intros E Hh Hleft Hd Hf v. destruct (announced_lengths hv bs E Hh) as (Hord & Hbl & Hlen & Hle).
  pose proof Hl as [_ _ _ H4 H5]. pose proof (padding_test bs Hlen) as Hpad.
  unfold finish_load. cbv zeta. change (0 + ?x)%nat with x.
  unfold assert_ at 1, checked at 1, mbind at 1, M_bind at 1. rewrite (proj2 (Nat.ltb_lt _ _)) by done.
  unfold assert_ at 1, checked at 1, mbind at 1, M_bind at 1. unfold FIRST_FIELD_OFFSET in *.
  rewrite (proj2 (Nat.eqb_eq _ _)) by (by rewrite H4).
  unfold assert_ at 1, checked at 1, mbind at 1, M_bind at 1. rewrite (proj2 (Nat.eqb_eq _ _)) by lia.
  cbn [negb andb]. assert (contents r = body) as -> by apply Hr. rewrite Hpad. unfold v, load_verdict.
  destruct (forallb _ (drop (length bs) _)) eqn:Enul; cbn [negb].
  2: { destruct (invalid_rule _ h DBUS_INVALID_ALIGNMENT_PADDING_NOT_NUL m Hd) as (h' & -> & Hd'). by exists h'. }
  unfold modify at 1, mbind at 1, M_bind at 1. set (h1 := Header (data h) _ _ _).
  destruct (load_values_rule r o body Hr (header_len l) (data h) ltac:(lia) Hd hv bs h1 (body_len l) E Hh Hle Hord Hbl eq_refl Hf)
    as (h2 & He & Hd2 & _ & Hc2). rewrite (after_evals _ _ _ _ _ _ He).
  destruct (decide (header_verdict hv = DBUS_VALID)) as [Hv|Hv].
  - exists h2. rewrite Hv. split; [done|].
    eapply (cached_shows (header_len l) (data h)); [lia|done..|by apply header_valid_type|by apply Hc2].
  - destruct (invalid_rule (take (header_len l) body) h2 (header_verdict hv) m) as (h' & -> & Hd'); [by rewrite Hd2|]. by exists h'.
Qed.

Abbreviation validate := (_dbus_validate_body_with_reason DBUS_HEADER_SIGNATURE 0 o true r 0 (length body)).

Lemma validate_header_safe :
  no_misnested body →
  safe validate (λ left, (left < length body)%nat ∧ ∃ hv bs, header_bytes o hv = Some bs ∧ held 0 bs).
Proof.
  intros Hnest. pose proof (is_str_block _ _ Hr) as Hblock. unfold _dbus_validate_body_with_reason. change (0 + ?x)%nat with x.
  eapply safe_bind.
  { apply (body_walk_safe (str r) o (length body) header_types Hblock (no_misnested_block _ _ _ Hr Hnest (Nat.le_refl _)) [] []); [done..| |lia].
    unfold fuel_for, body_fuel. rewrite header_types_print. lia. }
  intros p' [Hp (vs & Evs)]. destruct (header_shape _ _ _ Evs) as [hv ->]. apply safe_ret.
  rewrite Nat.sub_0_r in Evs. assert (length (sub (str r) 0 p') = p') as Hlen by (apply length_sub; lia).
  assert (held 0 (sub (str r) 0 p')) as Hh by (split; [by rewrite Hlen|lia]).
  destruct (header_held r o body Hr hv _ Evs Hh) as (x & _ & _ & Hx & _). split; [lia|]. by exists hv, (sub (str r) 0 p').
Qed.

Lemma validate_header_acc hv bs :
  header_bytes o hv = Some bs → held 0 bs → acc validate (length body - length bs)%nat.
Proof.
  intros E Hh. pose proof (is_str_block _ _ Hr) as Hblock. unfold _dbus_validate_body_with_reason. change (0 + ?x)%nat with x.
  eapply acc_bind; [|apply acc_ret].
  apply (body_walk_acc (str r) o (length body) Hblock (values_of hv) header_types bs [] []); [done..|].
  unfold fuel_for, body_fuel. rewrite header_types_print. lia.
Qed.

(** The copy of the header. *)
Lemma header_copy_rule h m :
  unloaded h →
  match attempt (on_data (_dbus_string_copy_len r 0 (header_len l) 0)) h m with
  | Ok true h' m' => is_str (take (header_len l) body) (data h') ∧ fields h' = fields h ∧ (may_fail m' → may_fail m)
  | Ok false h' m' => is_str [] (data h') ∧ may_fail m ∧ (may_fail m' → may_fail m)
  | _ => False
  end.
Proof.
  intros [Hd _]. destruct Hl as [_ _ _ _ Hroom].
  pose proof (copy_len_ok body r [] 0 (header_len l) 0 (is_str_readable _ _ Hr) ltac:(lia) ltac:(simpl; lia) (data h) m Hd) as Hc.
  assert (insert_at_ [] 0 (sub body 0 (header_len l)) = take (header_len l) body) as Ei.
  { unfold insert_at_, sub. simpl. by rewrite app_nil_r, drop_0. }
  rewrite Ei in Hc. unfold attempt, on_data.
  destruct (_dbus_string_copy_len r 0 (header_len l) 0 (data h) m) as [[] d m'|d m'|]; [..|done].
  - destruct Hc as [[_ Hd'] Hm]. done.
  - destruct Hc as [Hd' [Hm|Htl]]; [by auto|]. unfold too_long in Htl. rewrite length_take in Htl.
    pose proof Hr as [(_ & Hlen & Ha & _) _]. pose proof (is_str_length _ _ Hr).
    unfold zlen, allocated, _DBUS_STRING_MAX_MAX_LENGTH, _DBUS_STRING_ALLOCATION_PADDING in *. lia.
Qed.

(** Loading up to the validation. *)
Lemma load_step h m :
  unloaded h →
  (∃ h1 m1, is_str (take (header_len l) body) (data h1) ∧ fields h1 = replicate 9 _DBUS_HEADER_FIELD_VALUE_UNKNOWN
     ∧ (may_fail m1 → may_fail m)
     ∧ _dbus_header_load false l r 0 (length body) h m
       = (v ← validating validate;
          match v with inl v => invalid v | inr leftover => finish_load false l r 0 (length body) leftover end) h1 m1)
  ∨ (∃ h' m', _dbus_header_load false l r 0 (length body) h m = Ok DBUS_VALIDITY_UNKNOWN_OOM_ERROR h' m'
       ∧ is_str [] (data h') ∧ may_fail m ∧ (may_fail m' → may_fail m)).
Proof.
  intros Hf. pose proof (header_copy_rule h m Hf) as Hc. destruct Hl as [_ _ _ _ Hroom]. pose proof Hf as [Hd Hfields].
  assert (_dbus_header_load false l r 0 (length body) h m
    = (copied ← attempt (on_data (_dbus_string_copy_len r 0 (header_len l) 0));
       if negb copied then mret DBUS_VALIDITY_UNKNOWN_OOM_ERROR
       else
         v ← validating validate;
         match v with inl v => invalid v | inr leftover => finish_load false l r 0 (length body) leftover end) h m) as Eload.
  { unfold _dbus_header_load. change (align_up 0 8) with 0%nat. rewrite Nat.eqb_refl, (proj2 (Nat.leb_le _ _)) by lia.
    unfold assert_, checked, mbind, M_bind, gets, id. by rewrite <-(is_str_length _ _ Hd). }
  unfold mbind at 1, M_bind at 1 in Eload. destruct (attempt _ h m) as [[] h1 m1| |]; [..|done|done].
  - destruct Hc as (Hd1 & Hf1 & Hm). left. exists h1, m1. split; [done|]. split; [congruence|]. done.
  - right. by exists h1, m1.
Qed.

Lemma header_reasoned : reasoned validate.
Proof. unfold _dbus_validate_body_with_reason. apply reasoned_bind; [apply helper_reasoned|]. intros p. apply reasoned_ret. Qed.

(** The length of the padding. *)
Lemma padding_bytes (bs : bytes) :
  length bs = (16 + fields_array_len l)%nat → length (padding (length bs) 8) = (header_len l - length bs)%nat.
Proof.
  intros Hlen. destruct Hl as [_ _ _ H4 _]. rewrite <-Hlen, align_up_pad in H4 by alignment. lia.
Qed.

Lemma loaded_bytes bs :
  held 0 bs → length bs = (16 + fields_array_len l)%nat → (length bs <= header_len l)%nat →
  forallb (λ c, c =b x00) (drop (length bs) (take (header_len l) body)) = true →
  take (header_len l) body = bs ++ padding (length bs) 8.
Proof.
  intros Hh Hlen Hle Hn. pose proof (padding_bytes bs Hlen) as Hp. pose proof Hl as [_ _ _ _ H5].
  destruct (held_split r body Hr 0 bs Hh) as [E _]. simpl in E.
  rewrite <-(take_drop (length bs) (take (header_len l) body)). f_equal.
  - rewrite take_take, Nat.min_l by done. rewrite E at 1. by rewrite take_app_length.
  - rewrite (nul_replicate _ Hn). unfold padding in *. f_equal. rewrite length_replicate in Hp. rewrite Hp.
    rewrite length_drop, length_take. lia.
Qed.

Lemma encoded_bytes rest bs :
  body = bs ++ padding (length bs) 8 ++ rest → length bs = (16 + fields_array_len l)%nat → (length bs <= header_len l)%nat →
  take (header_len l) body = bs ++ padding (length bs) 8.
Proof.
  intros Eb Hlen Hle. pose proof (padding_bytes bs Hlen) as Hp. rewrite Eb, app_assoc.
  apply take_app_length'. rewrite length_app. lia.
Qed.

End whole.

(** Loading without and with knowledge of the values. *)
Lemma load_sound `{Host} body r l h m :
  is_str body r → no_misnested body → announced r (length body) l → unloaded h →
  match _dbus_header_load false l r 0 (length body) h m with
  | Ok v h' m' =>
      (may_fail m' → may_fail m) ∧ (v = DBUS_VALIDITY_UNKNOWN_OOM_ERROR → may_fail m)
      ∧ if decide (v = DBUS_VALID) then
          ∃ hv bs, header_bytes (claimed_order l) hv = Some bs
            ∧ take (header_len l) body = bs ++ padding (length bs) 8
            ∧ hv_order hv = order_byte (claimed_order l)
            ∧ hv_body_len hv = Z.of_nat (body_len l) ∧ header_verdict hv = DBUS_VALID
            ∧ shows (take (header_len l) body) hv h'
        else is_str [] (data h')
  | Failed _ _ | Ub => False
  end.
Proof.
  intros Hr Hnest Hl Hf.
  destruct (load_step r body l Hr Hl h m Hf) as [(h1 & m1 & Hd1 & Hf1 & Hm1 & ->)|(h' & m' & -> & Hd' & Hm & Hm')]; [|done].
  pose proof (validate_header_safe r body l Hr Hnest m1) as Hs. unfold mbind at 1, M_bind at 1, validating at 1.
  destruct (_dbus_validate_body_with_reason _ _ _ _ _ _ _ m1) as [[[v|left] m2]|] eqn:Hv; [..|done];
    destruct (header_reasoned r body l m1 _ m2 Hv) as [Hm2 Hwhy].
  - destruct (invalid_rule _ h1 v m2 Hd1) as (h' & -> & Hd'). destruct (Hwhy v eq_refl) as [Hne Hoom].
    split; [auto|]. split; [auto|]. by rewrite decide_False.
  - destruct Hs as (Hleft & hv & bs & E & Hh).
    destruct (finish_load_rule r body l Hr Hl hv bs h1 left m2 E Hh Hleft Hd1 Hf1) as (h' & -> & Hres).
    split; [auto|]. split; [by intros Hx; destruct (load_verdict_memory _ _ Hx)|].
    destruct (decide _) as [Ev|]; [|done]. unfold load_verdict in Ev. destruct (forallb _ _) eqn:En; [|done].
    destruct (announced_lengths r body l Hr Hl hv bs E Hh) as (Hord & Hbl & Hlen & Hle). exists hv, bs. split; [done|].
    split; [|done]. by apply (loaded_bytes r body l Hr Hl).
Qed.

Lemma load_complete `{Host} body bs rest hv r l h m :
  body = bs ++ padding (length bs) 8 ++ rest →
  is_str body r → header_bytes (claimed_order l) hv = Some bs → announced r (length body) l → unloaded h →
  match _dbus_header_load false l r 0 (length body) h m with
  | Ok v h' m' =>
      v = header_verdict hv ∧ (v = DBUS_VALID → shows (bs ++ padding (length bs) 8) hv h') ∧ (may_fail m' → may_fail m)
      ∨ v = DBUS_VALIDITY_UNKNOWN_OOM_ERROR ∧ may_fail m
  | Failed _ _ | Ub => False
  end.
Proof.
  intros Eb Hr E Hl Hf.
  assert (holds (str r) (length body) 0 bs) as Hh.
  { destruct (is_str_split _ _ Hr) as [q Hq]. split; [|rewrite Eb, !length_app; lia].
    rewrite Hq, Eb. unfold sub. by rewrite drop_0, <-app_assoc, take_app_length. }
  destruct (load_step r body l Hr Hl h m Hf) as [(h1 & m1 & Hd1 & Hf1 & Hm1 & ->)|(h' & m' & -> & Hd' & Hm & _)]; [|by right].
  unfold mbind at 1, M_bind at 1, validating at 1.
  destruct (validate_header_acc r body l Hr hv bs E Hh m1) as [(m2 & -> & Hm2)|(m2 & -> & Hm2)].
  - destruct (announced_lengths r body l Hr Hl hv bs E Hh) as (_ & _ & Hlen & Hle).
    pose proof (encoded_bytes r body l Hl rest bs Eb Hlen Hle) as Ht.
    destruct (finish_load_rule r body l Hr Hl hv bs h1 (length body - length bs) m2 E Hh) as (h' & -> & Hres); [|done..|].
    { destruct Hh as [_ Hle0]. lia. }
    rewrite Ht, drop_app_length in Hres |- *. unfold load_verdict in *.
    assert (forallb (λ c, c =b x00) (padding (length bs) 8) = true) as Hn.
    { apply forallb_forall. intros c [-> _]%list_elem_of_In%elem_of_replicate. done. }
    rewrite Hn in *. left. split; [done|]. split; [|auto]. intros Hv. by rewrite decide_True in Hres.
  - destruct (invalid_rule _ h1 DBUS_VALIDITY_UNKNOWN_OOM_ERROR m2 Hd1) as (h' & -> & _). right. auto.
Qed.

(** ** Theorems *)

(** C10: When a header is loaded from data without misnested signatures, after the test that
    a whole message is there, no assertion fails and nothing outside of the data is
    read; what is found valid is the encoding of header values and their padding, the
    values satisfy every rule, and the loaded header shows them to its clients; what
    is not found valid leaves no data behind. *)
Theorem header_load_sound `{Host} (max_message_length : Z) (body : bytes) (r : DBusRealString)
    (l : message_lengths) (h : DBusHeader) (m : mem) :
  is_str body r → no_misnested body →
  _dbus_header_have_message_untrusted max_message_length r 0 (length body) = Some (inr (Some l)) → unloaded h →
  match _dbus_header_load false l r 0 (length body) h m with
  | Ok v h' _ =>
      if decide (v = DBUS_VALID) then
        ∃ hv bs, header_bytes (claimed_order l) hv = Some bs
          ∧ take (header_len l) body = bs ++ padding (length bs) 8
          ∧ hv_body_len hv = Z.of_nat (body_len l) ∧ header_verdict hv = DBUS_VALID
          ∧ shows (take (header_len l) body) hv h'
      else is_str [] (data h')
  | Failed _ _ | Ub => False
  end.
Proof.
  intros Hr Hnest Hl%have_message_announced Hf. pose proof (load_sound body r l h m Hr Hnest Hl Hf) as Hs.
  destruct (_dbus_header_load _ _ _ _ _ h m) as [v h' m'| |]; [|done..]. destruct Hs as (_ & _ & Hs).
  destruct (decide _); [|done]. destruct Hs as (hv & bs & ? & ? & _ & ?). by exists hv, bs.
Qed.

(** C11: A header that encodes header values, with its padding, is judged by the values
    alone: it is loaded and shows the values when they satisfy the rules, and refused
    with the reason of the first rule they break otherwise; the only other answer is that
    memory ran out, when an allocation was refused. *)
Theorem header_load_complete `{Host} (max_message_length : Z) (bs rest : bytes) (hv : header_values)
    (r : DBusRealString) (l : message_lengths) (h : DBusHeader) (m : mem) :
  let body := bs ++ padding (length bs) 8 ++ rest in
  is_str body r → header_bytes (claimed_order l) hv = Some bs →
  _dbus_header_have_message_untrusted max_message_length r 0 (length body) = Some (inr (Some l)) → unloaded h →
  match _dbus_header_load false l r 0 (length body) h m with
  | Ok v h' _ =>
      v = header_verdict hv ∧ (v = DBUS_VALID → shows (bs ++ padding (length bs) 8) hv h')
      ∨ v = DBUS_VALIDITY_UNKNOWN_OOM_ERROR ∧ may_fail m
  | Failed _ _ | Ub => False
  end.
Proof.
  intros body Hr E Hl%have_message_announced Hf. pose proof (load_complete body bs rest hv r l h m eq_refl Hr E Hl Hf) as Hc.
  destruct (_dbus_header_load _ _ _ _ _ h m) as [v h' m'| |]; [|done..]. destruct Hc as [(? & ? & _)|?]; [by left|by right].
Qed.

(** *** A header of a signal *)

Definition sample_field (c : Z) (t : byte) (s : bytes) : field := Field (z2b c) (TLeaf t) (VBasic (Str s)).

Definition signal_with (interface : bytes) : header_values :=
  HeaderValues "l" x04 x00 x01 0 7
    [sample_field 1 "o" (lit "/a"); sample_field 2 "s" interface; sample_field 3 "s" (lit "M")].

Definition encoded_header (hv : header_values) : bytes := default [] (header_bytes DBUS_LITTLE_ENDIAN hv).
Definition padded (bs : bytes) : bytes := bs ++ padding (length bs) 8.

Definition unloaded_header : DBusHeader :=
  Header (concrete []) (replicate 9 _DBUS_HEADER_FIELD_VALUE_UNKNOWN) 0 DBUS_LITTLE_ENDIAN.

Lemma unloaded_header_ok : unloaded unloaded_header.
Proof. split; [|done]. repeat split; vm_compute; congruence. Qed.

Lemma header_load_sound_witness :
  let host : Host := DBUS_LITTLE_ENDIAN in
  let body := padded (encoded_header (signal_with (lit "a.b"))) in
  let l := Lengths DBUS_LITTLE_ENDIAN 42 64 0 in
  match _dbus_header_load false l (concrete body) 0 (length body) unloaded_header (Mem [] "x"%byte) with
  | Ok v h' _ =>
      if decide (v = DBUS_VALID) then
        ∃ hv bs, header_bytes (claimed_order l) hv = Some bs
          ∧ take (header_len l) body = bs ++ padding (length bs) 8
          ∧ hv_body_len hv = Z.of_nat (body_len l) ∧ header_verdict hv = DBUS_VALID
          ∧ shows (take (header_len l) body) hv h'
      else is_str [] (data h')
  | Failed _ _ | Ub => False
  end.
Proof.
  intros host body l. apply (header_load_sound (2 ^ 27)).
  - repeat split; vm_compute; congruence.
  - apply no_bracket_nested. vm_compute. reflexivity.
  - vm_compute. reflexivity.
  - apply unloaded_header_ok.
Defined.

Lemma header_load_complete_witness :
  let host : Host := DBUS_BIG_ENDIAN in
  let hv := signal_with (lit "a.b") in
  let bs := encoded_header hv in
  let l := Lengths DBUS_LITTLE_ENDIAN 42 64 0 in
  match _dbus_header_load false l (concrete (bs ++ padding (length bs) 8 ++ lit "more")) 0 68 unloaded_header (Mem [] "x"%byte) with
  | Ok v h' _ =>
      v = header_verdict hv ∧ (v = DBUS_VALID → shows (bs ++ padding (length bs) 8) hv h')
      ∨ v = DBUS_VALIDITY_UNKNOWN_OOM_ERROR ∧ may_fail (Mem [] "x"%byte)
  | Failed _ _ | Ub => False
  end.
Proof.
  intros host hv bs l.
  apply (header_load_complete (2 ^ 27) bs (lit "more") hv (concrete (bs ++ padding (length bs) 8 ++ lit "more")) l).
  - repeat split; vm_compute; congruence.
  - vm_compute. reflexivity.
  - vm_compute. reflexivity.
  - apply unloaded_header_ok.
Defined.

(** The interface of local messages is compared as a prefix: a message whose interface
    merely begins with org.freedesktop.DBus.Local, such as org.freedesktop.DBus.Locale,
    is refused as if it used the local interface. *)
Theorem local_prefix_refused :
  let host : Host := DBUS_LITTLE_ENDIAN in
  let name := lit "org.freedesktop.DBus.Locale" in
  let body := padded (encoded_header (signal_with name)) in
  let l := Lengths DBUS_LITTLE_ENDIAN 66 88 0 in
  _dbus_validate_interface name 0 (length name) = true ∧ name ≠ DBUS_INTERFACE_LOCAL
  ∧ _dbus_header_have_message_untrusted (2 ^ 27) (concrete body) 0 (length body) = Some (inr (Some l))
  ∧ match _dbus_header_load false l (concrete body) 0 (length body) unloaded_header (Mem [] "x"%byte) with
    | Ok v _ _ => v = DBUS_INVALID_USES_LOCAL_INTERFACE
    | Failed _ _ | Ub => False
    end.
Proof. intros host name body l. split; [|split; [|split]]; vm_compute; (reflexivity || discriminate). Qed.
