(* ===== verification/Loader.v ===== *)
(** * Loader: messages from the bytes of a connection

    Models the message loader of src/dbus/dbus-message.c with the life of the messages
    it makes: [dbus_message_new_empty_header], the cache of unused messages,
    [dbus_message_unref], [load_message] and the queue, and
    [dbus_message_demarshal].  Messages are in a heap and are named by their addresses.
    Of a message, the slots for application data and the size counters are left
    out; a loaded message has none. *)

From stdpp Require Import gmap.
From S2P Require Import Prelude Search Names DString Text Types Signature MarshalBasic Reader Body Header.

Record DBusMessage := Message {
  refcount : Z;
  msg_header : DBusHeader;
  msg_body : DBusRealString;
  msg_byte_order : byte_order;
  locked : bool;
  in_cache : bool;
  changed_stamp : Z
}.

Record DBusMessageLoader := Loader {
  loader_data : DBusRealString;
  messages : list nat;
  max_message_size : Z;
  buffer_outstanding : bool;
  corrupted : bool;
  corruption_reason : DBusValidity
}.

(** The globals of the file, the heap of messages, and a loader. *)
Record world := World {
  heap : gmap nat DBusMessage;
  message_cache : list (option nat);
  message_cache_count : Z;
  message_cache_shutdown_registered : bool;
  loader : DBusMessageLoader
}.

Abbreviation LM := (M world).

Definition MAX_MESSAGE_CACHE_SIZE : nat := 5.
Definition MAX_MESSAGE_SIZE_TO_CACHE : nat := 10 * 1024.
Definition DBUS_MAXIMUM_MESSAGE_LENGTH : Z := DBUS_MAXIMUM_ARRAY_LENGTH * 2.
Definition INITIAL_LOADER_DATA_LEN : nat := 32.

(** ** Access *)

Definition with_heap (f : gmap nat DBusMessage → gmap nat DBusMessage) (w : world) : world :=
  World (f (heap w)) (message_cache w) (message_cache_count w) (message_cache_shutdown_registered w) (loader w).
Definition with_loader (f : DBusMessageLoader → DBusMessageLoader) (w : world) : world :=
  World (heap w) (message_cache w) (message_cache_count w) (message_cache_shutdown_registered w) (f (loader w)).
Definition with_cache (c : list (option nat)) (n : Z) (w : world) : world :=
  World (heap w) c n (message_cache_shutdown_registered w) (loader w).
Definition with_shutdown (b : bool) (w : world) : world :=
  World (heap w) (message_cache w) (message_cache_count w) b (loader w).

Definition with_data (d : DBusRealString) (l : DBusMessageLoader) : DBusMessageLoader :=
  Loader d (messages l) (max_message_size l) (buffer_outstanding l) (corrupted l) (corruption_reason l).
Definition with_messages (f : list nat → list nat) (l : DBusMessageLoader) : DBusMessageLoader :=
  Loader (loader_data l) (f (messages l)) (max_message_size l) (buffer_outstanding l) (corrupted l) (corruption_reason l).
Definition with_max_message_size (n : Z) (l : DBusMessageLoader) : DBusMessageLoader :=
  Loader (loader_data l) (messages l) n (buffer_outstanding l) (corrupted l) (corruption_reason l).
Definition with_buffer_outstanding (b : bool) (l : DBusMessageLoader) : DBusMessageLoader :=
  Loader (loader_data l) (messages l) (max_message_size l) b (corrupted l) (corruption_reason l).
Definition with_corruption (v : DBusValidity) (l : DBusMessageLoader) : DBusMessageLoader :=
  Loader (loader_data l) (messages l) (max_message_size l) (buffer_outstanding l) true v.

Definition with_header (h : DBusHeader) (x : DBusMessage) : DBusMessage :=
  Message (refcount x) h (msg_body x) (msg_byte_order x) (locked x) (in_cache x) (changed_stamp x).
Definition with_body (b : DBusRealString) (x : DBusMessage) : DBusMessage :=
  Message (refcount x) (msg_header x) b (msg_byte_order x) (locked x) (in_cache x) (changed_stamp x).
Definition with_byte_order (o : byte_order) (x : DBusMessage) : DBusMessage :=
  Message (refcount x) (msg_header x) (msg_body x) o (locked x) (in_cache x) (changed_stamp x).
Definition with_refcount (n : Z) (x : DBusMessage) : DBusMessage :=
  Message n (msg_header x) (msg_body x) (msg_byte_order x) (locked x) (in_cache x) (changed_stamp x).
Definition with_in_cache (b : bool) (x : DBusMessage) : DBusMessage :=
  Message (refcount x) (msg_header x) (msg_body x) (msg_byte_order x) (locked x) b (changed_stamp x).

Definition get_message (a : nat) : LM DBusMessage := w ← gets id; checked (heap w !! a).
Definition set_message (a : nat) (f : DBusMessage → DBusMessage) : LM unit :=
  x ← get_message a; modify (with_heap (insert a (f x))).

(** Operations on a part: the state goes back into its place. *)
Definition on_part {A S} (get : world → option S) (set : S → world → world) (c : M S A) : LM A := λ w m,
  match get w with
  | None => Ub
  | Some s =>
      match c s m with
      | Ok a s' m' => Ok a (set s' w) m'
      | Failed s' m' => Failed (set s' w) m'
      | Ub => Ub
      end
  end.

Definition on_header {A} (a : nat) (c : HM A) : LM A :=
  on_part (λ w, msg_header <$> heap w !! a) (λ h, with_heap (alter (with_header h) a)) c.
Definition on_body {A} (a : nat) (c : SM A) : LM A :=
  on_part (λ w, msg_body <$> heap w !! a) (λ b, with_heap (alter (with_body b) a)) c.
Definition on_buffer {A} (c : SM A) : LM A :=
  on_part (λ w, Some (loader_data (loader w))) (λ d, with_loader (with_data d)) c.

(** [compact] of dbus-string.c: [realloc] to a smaller size. *)
Definition compact (max_waste : Z) : SM unit := λ r m,
  let waste := allocated r - (zlen r + _DBUS_STRING_ALLOCATION_PADDING) in
  if waste <=? max_waste then Ok tt r m
  else
    let new_allocated := zlen r + _DBUS_STRING_ALLOCATION_PADDING in
    let '(ok, m') := alloc m in
    if ok then Ok tt (Real (take (Z.to_nat new_allocated) (str r)) (len r) (max_length r)) m' else Failed r m'.

Definition _dbus_string_compact := compact.

(** ** Messages and their cache *)

(** The first used slot of the cache. *)
Definition first_cached (c : list (option nat)) : option (nat * nat) :=
  '(i, x) ← list_find is_Some c; a ← x; Some (i, a).

Definition dbus_message_get_cached : LM (option nat) :=
  w ← gets id;
  assert_ (0 <=? message_cache_count w);;
  if message_cache_count w =? 0 then mret None
  else
    assert_ (message_cache_shutdown_registered w);;
    '(i, a) ← checked (first_cached (message_cache w));
    modify (with_cache (<[i := None]> (message_cache w)) (message_cache_count w - 1));;
    assert_ (0 <=? message_cache_count w - 1);;
    x ← get_message a;
    assert_ (refcount x =? 0);;
    mret (Some a).

Definition dbus_message_finalize (a : nat) : LM unit :=
  x ← get_message a;
  assert_ (refcount x =? 0);;
  modify (with_heap (base.delete a)).

(** The messages of some slots are freed; the slots keep their contents. *)
Definition finalize_slots : list (option nat) → LM unit :=
  fix finalize_slots c :=
    match c with
    | [] => mret tt
    | None :: c' => finalize_slots c'
    | Some a :: c' => dbus_message_finalize a;; finalize_slots c'
    end.

Definition dbus_message_cache_shutdown : LM unit :=
  w ← gets id;
  finalize_slots (message_cache w);;
  modify (with_cache (message_cache w) 0);;
  modify (with_shutdown false).

(** Whether the message was put into the cache. *)
Definition try_cache (a : nat) : LM bool :=
  x ← get_message a;
  w ← gets id;
  registered ← (if message_cache_shutdown_registered w then mret true
                else
                  assert_ (message_cache_count w =? 0);;
                  ok ← attempt request;
                  if (ok : bool) then
                    modify (with_cache (replicate MAX_MESSAGE_CACHE_SIZE None) (message_cache_count w));;
                    modify (with_shutdown true);;
                    mret true
                  else mret false);
  if negb registered then mret false
  else
    w ← gets id;
    assert_ (0 <=? message_cache_count w);;
    if (MAX_MESSAGE_SIZE_TO_CACHE <? len (data (msg_header x)) + len (msg_body x))%nat then mret false
    else if Z.of_nat MAX_MESSAGE_CACHE_SIZE <=? message_cache_count w then mret false
    else
      '(i, _) ← checked (list_find (λ slot, slot = None) (message_cache w));
      modify (with_cache (<[i := Some a]> (message_cache w)) (message_cache_count w + 1));;
      set_message a (with_in_cache true);;
      mret true.

Definition dbus_message_cache_or_finalize (a : nat) : LM unit :=
  x ← get_message a;
  assert_ (refcount x =? 0);;
  was_cached ← try_cache a;
  if (was_cached : bool) then mret tt else dbus_message_finalize a.

Definition dbus_message_unref (a : nat) : LM unit :=
  x ← get_message a;
  if in_cache x then mret tt
  else
    set_message a (with_refcount (refcount x - 1));;
    assert_ (0 <=? refcount x);;
    if refcount x =? 1 then dbus_message_cache_or_finalize a else mret tt.

Section loader.
Context `{Host}.

(** A new message, of nothing or of a message from the cache. *)
Definition new_message (h : DBusHeader) (b : DBusRealString) : DBusMessage :=
  Message 1 h b DBUS_COMPILER_BYTE_ORDER false false 0.

(** [_dbus_header_init] and [_dbus_string_init_preallocated (body, 32)], after [dbus_new]. *)
Definition init_message : LM (DBusHeader * DBusRealString) := λ w m,
  match _dbus_string_init_preallocated 32 m with
  | Ok _ d m1 =>
      match _dbus_header_reinit DBUS_COMPILER_BYTE_ORDER (Header d [] 0 DBUS_COMPILER_BYTE_ORDER) m1 with
      | Ok _ h m2 =>
          match _dbus_string_init_preallocated 32 m2 with
          | Ok _ b m3 => Ok (h, b) w m3
          | Failed _ m3 => Failed w m3
          | Ub => Ub
          end
      | Failed _ m2 => Failed w m2
      | Ub => Ub
      end
  | Failed _ m1 => Failed w m1
  | Ub => Ub
  end.

Definition dbus_message_new_empty_header : LM nat :=
  cached ← dbus_message_get_cached;
  match cached with
  | Some a =>
      set_message a (λ x, new_message (msg_header x) (msg_body x));;
      on_header a (_dbus_header_reinit DBUS_COMPILER_BYTE_ORDER);;
      on_body a (set_length 0);;
      mret a
  | None =>
      request;;
      '(h, b) ← init_message;
      w ← gets id;
      let a := fresh (dom (heap w)) in
      modify (with_heap (insert a (new_message h b)));;
      mret a
  end.

(** ** The loader *)

Definition empty_loader (d : DBusRealString) : DBusMessageLoader :=
  Loader d [] DBUS_MAXIMUM_MESSAGE_LENGTH false false DBUS_VALID.

(** The loader; the results of the two calls that preallocate are ignored. *)
Definition _dbus_message_loader_new (m : mem) : outcome DBusMessageLoader unit :=
  let none := empty_loader (Real [] 0 0) in
  let '(ok, m1) := alloc m in
  if negb ok then Failed none m1
  else
    match _dbus_string_init m1 with
    | Ok _ d m2 =>
        match (attempt (set_length INITIAL_LOADER_DATA_LEN);; attempt (set_length 0)) d m2 with
        | Ok _ d' m3 => Ok tt (empty_loader d') m3
        | Failed d' m3 => Failed none m3
        | Ub => Ub
        end
    | Failed _ m2 => Failed none m2
    | Ub => Ub
    end.

Definition _dbus_message_loader_get_buffer : LM unit :=
  w ← gets id;
  assert_ (negb (buffer_outstanding (loader w)));;
  modify (with_loader (with_buffer_outstanding true)).

Definition _dbus_message_loader_return_buffer : LM unit :=
  w ← gets id;
  assert_ (buffer_outstanding (loader w));;
  modify (with_loader (with_buffer_outstanding false)).

(** The memory in which the signature is, and its position. *)
Definition get_const_signature (a : nat) : LM (bytes * nat) :=
  pos ← on_header a (_dbus_header_get_field_raw DBUS_HEADER_FIELD_SIGNATURE);
  x ← get_message a;
  match pos with
  | Some p => mret (str (data (msg_header x)), Z.to_nat p + 1)%nat
  | None => mret ([], 0%nat)
  end.

Definition queue_append (a : nat) : LM unit :=
  request;; modify (with_loader (with_messages (λ l, l ++ [a]))).

(** The last link of the list with the message, if there is one. *)
Fixpoint remove_last (a : nat) (l : list nat) : list nat :=
  match l with
  | [] => []
  | b :: l' => if decide (a ∈ l') then b :: remove_last a l' else if decide (b = a) then l' else b :: l'
  end.

Definition queue_remove_last (a : nat) : LM unit :=
  modify (with_loader (with_messages (remove_last a))).

(** [failed:] of [load_message]. *)
Definition load_failed (a : nat) (oom : bool) : LM bool :=
  queue_remove_last a;;
  w ← gets id;
  assert_ (Bool.eqb (corrupted (loader w)) (negb oom));;
  mret false.

Definition corrupt (v : DBusValidity) : LM unit := modify (with_loader (with_corruption v)).

(** The body is copied and the message leaves the buffer. *)
Definition take_message (a : nat) (l : message_lengths) : LM bool :=
  w ← gets id;
  x ← get_message a;
  assert_ (len (msg_body x) =? 0)%nat;;
  assert_ (header_len l + body_len l <=? len (loader_data (loader w)))%nat;;
  copied ← attempt (on_body a (_dbus_string_copy_len (loader_data (loader w)) (header_len l) (body_len l) 0));
  if negb copied then load_failed a true
  else
    on_buffer (_dbus_string_delete 0 (header_len l + body_len l));;
    attempt (on_buffer (_dbus_string_compact 2048));;
    x ← get_message a;
    assert_ (len (data (msg_header x)) =? header_len l)%nat;;
    assert_ (len (msg_body x) =? body_len l)%nat;;
    w ← gets id;
    assert_ (negb (corrupted (loader w)));;
    assert_ (bool_decide (a ∈ messages (loader w)));;
    mret true.

Definition load_message (a : nat) (l : message_lengths) : LM bool :=
  w ← gets id;
  x ← get_message a;
  let r := loader_data (loader w) in
  assert_ (len (data (msg_header x)) =? 0)%nat;;
  assert_ (header_len l + body_len l <=? len r)%nat;;
  validity ← on_header a (_dbus_header_load false l r 0 (len r));
  if decide (validity = DBUS_VALIDITY_UNKNOWN_OOM_ERROR) then load_failed a true
  else if decide (validity ≠ DBUS_VALID) then corrupt validity;; load_failed a false
  else
    set_message a (with_byte_order (claimed_order l));;
    '(type_str, type_pos) ← get_const_signature a;
    v ← (λ w m, match _dbus_validate_body_with_reason type_str type_pos (claimed_order l) false r
                        (header_len l) (body_len l) m with
                | Some (v, m') => Ok v w m'
                | None => Ub
                end);
    match v with
    | inl validity => corrupt validity;; load_failed a false
    | inr _ =>
        appended ← attempt (queue_append a);
        if negb appended then load_failed a true else take_message a l
    end.

(** FALSE is failure.  A turn takes at least 16 bytes from the buffer. *)
Fixpoint queue_loop (n : nat) : LM unit :=
  match n with
  | O => λ _ _, Ub
  | S n' =>
      w ← gets id;
      let r := loader_data (loader w) in
      if corrupted (loader w) || negb (DBUS_MINIMUM_HEADER_SIZE <=? len r)%nat then mret tt
      else
        have ← checked (_dbus_header_have_message_untrusted (max_message_size (loader w)) r 0 (len r));
        match have with
        | inl validity => corrupt validity
        | inr None => mret tt
        | inr (Some l) =>
            a ← dbus_message_new_empty_header;
            loaded ← load_message a l;
            if (loaded : bool) then queue_loop n'
            else
              dbus_message_unref a;;
              w ← gets id;
              if corrupted (loader w) then mret tt else fail
        end
  end.

Definition _dbus_message_loader_queue_messages : LM unit :=
  w ← gets id; queue_loop (S (len (loader_data (loader w)))).

Definition _dbus_message_loader_peek_message : LM (option nat) :=
  w ← gets id; mret (head (messages (loader w))).

(** Also with the link, which is the same here. *)
Definition _dbus_message_loader_pop_message : LM (option nat) :=
  w ← gets id;
  match messages (loader w) with
  | [] => mret None
  | a :: l => modify (with_loader (with_messages (λ _, l)));; mret (Some a)
  end.

Definition _dbus_message_loader_putback_message_link (a : nat) : LM unit :=
  modify (with_loader (with_messages (cons a))).

Definition _dbus_message_loader_get_is_corrupted : LM bool :=
  w ← gets id;
  assert_ (Bool.eqb (corrupted (loader w)) (bool_decide (corruption_reason (loader w) ≠ DBUS_VALID)));;
  mret (corrupted (loader w)).

Definition _dbus_message_loader_set_max_message_size (size : Z) : LM unit :=
  modify (with_loader (with_max_message_size (Z.min size DBUS_MAXIMUM_MESSAGE_LENGTH))).

Definition _dbus_message_loader_get_max_message_size : LM Z :=
  w ← gets id; mret (max_message_size (loader w)).

(** ** Whole messages *)

Definition unref_all : list nat → LM unit :=
  fix unref_all l := match l with [] => mret tt | a :: l' => dbus_message_unref a;; unref_all l' end.

(** The last reference to the loader. *)
Definition _dbus_message_loader_unref : LM unit :=
  w ← gets id;
  unref_all (messages (loader w));;
  modify (with_loader (with_messages (λ _, []))).

(** NULL comes with an error, but not when the loader could not be made. *)
Inductive demarshalled :=
| Demarshalled (a : nat)
| DemarshalInvalidArgs
| DemarshalNoMemory
| DemarshalNull.

Definition make_loader : LM bool := λ w m,
  match _dbus_message_loader_new m with
  | Ok _ l m' => Ok true (with_loader (λ _, l) w) m'
  | Failed _ m' => Ok false w m'
  | Ub => Ub
  end.

(** The loader of the function takes the place of the one in the state. *)
Definition dbus_message_demarshal (text : bytes) : LM demarshalled :=
  w ← gets id;
  made ← make_loader;
  if negb made then mret DemarshalNull
  else
    _dbus_message_loader_get_buffer;;
    attempt (on_buffer (append text));;
    _dbus_message_loader_return_buffer;;
    queued ← attempt _dbus_message_loader_queue_messages;
    res ← (if negb queued then mret DemarshalNoMemory
           else
             bad ← _dbus_message_loader_get_is_corrupted;
             if (bad : bool) then mret DemarshalInvalidArgs
             else
               msg ← _dbus_message_loader_pop_message;
               mret (match msg with Some a => Demarshalled a | None => DemarshalNoMemory end));
    _dbus_message_loader_unref;;
    modify (with_loader (λ _, loader w));;
    mret res.

(** The bytes of a message: the string [tmp] is stolen, for which a new one is made. *)
Definition dbus_message_marshal (a : nat) : LM bytes := λ w m,
  match heap w !! a with
  | None => Ub
  | Some x =>
      let steps : SM bytes :=
        _dbus_string_copy (data (msg_header x)) 0 0;;
        tmp ← gets id;
        _dbus_string_copy (msg_body x) 0 (len tmp);;
        request;;
        tmp ← gets id;
        mret (contents tmp) in
      match _dbus_string_init m with
      | Ok _ tmp m1 =>
          match steps tmp m1 with
          | Ok text _ m2 => Ok text w m2
          | Failed _ m2 => Failed w m2
          | Ub => Ub
          end
      | Failed _ m1 => Failed w m1
      | Ub => Ub
      end
  end.

End loader.
