(* ===== verification/Stream.v ===== *)
(** * Stream: what the loader makes of the bytes it is given

    Theorems on [Loader]: the messages in the queue are the valid messages at the front of
    the data, in order and with their values; nothing is lost, whatever memory is refused;
    messages that were used before are reset. *)

From stdpp Require Import gmap.
From S2P Require Import Prelude Search Names DString Text Types Signature MarshalBasic Reader Body Values Header Fields Loader.

(** ** The state *)

Definition has_text (r : DBusRealString) : Prop := ∃ t, is_str t r.

(** The messages in the cache, which is not used before it is set up. *)
Definition cached_addrs (w : world) : list nat :=
  if message_cache_shutdown_registered w then omap id (message_cache w) else [].

(** A message with references, or without. *)
Record message_ok (n : Z) (idle : bool) (x : DBusMessage) : Prop := {
  ok_refcount : refcount x = n;
  ok_in_cache : in_cache x = idle;
  ok_header : has_text (data (msg_header x));
  ok_body : has_text (msg_body x)
}.

Abbreviation live := (message_ok 1 false).
Abbreviation idle := (message_ok 0 true).

Definition all_at (P : DBusMessage → Prop) (w : world) (l : list nat) : Prop :=
  ∀ a, a ∈ l → ∃ x, heap w !! a = Some x ∧ P x.

Record good (w : world) : Prop := {
  good_slots : message_cache_shutdown_registered w = true → length (message_cache w) = 5%nat;
  good_count : message_cache_count w = Z.of_nat (length (cached_addrs w));
  good_cached : all_at idle w (cached_addrs w);
  good_queued : all_at live w (messages (loader w));
  good_nodup : NoDup (cached_addrs w);
  good_queue : NoDup (messages (loader w))
}.

(** Messages that are not in the cache stay as they are. *)
Definition keeps (w w' : world) : Prop :=
  ∀ b x, heap w !! b = Some x → b ∉ cached_addrs w → heap w' !! b = Some x.

(** So do the messages that are in use. *)
Definition spares (w w' : world) : Prop :=
  ∀ b x, heap w !! b = Some x → in_cache x = false → heap w' !! b = Some x.

(** A message that nobody uses. *)
Definition unused (w : world) (a : nat) : Prop := ∀ x, heap w !! a = Some x → in_cache x = true.

Lemma unused_before w w' a : spares w w' → unused w' a → unused w a.
Proof. intros Hs Hu x Hx. destruct (in_cache x) eqn:E; [done|]. pose proof (Hu x (Hs a x Hx E)). congruence. Qed.

Lemma spares_refl w : spares w w.
Proof. by intros b x. Qed.

Lemma spares_trans w1 w2 w3 : spares w1 w2 → spares w2 w3 → spares w1 w3.
Proof. intros H1 H2 b x Hx Hb. auto. Qed.

Lemma in_use w b x : good w → heap w !! b = Some x → in_cache x = false → b ∉ cached_addrs w.
Proof. intros [_ _ Hc _ _ _] Hx Hin Hb. destruct (Hc b Hb) as (y & Hy & [_ ? _ _]). congruence. Qed.

Lemma keeps_spares w w' : good w → keeps w w' → spares w w'.
Proof. intros Hg Hk b x Hx Hb. by apply Hk; [|by eapply in_use]. Qed.

(** A message that is ready for loading. *)
Definition blank (x : DBusMessage) : Prop :=
  refcount x = 1 ∧ in_cache x = false ∧ unloaded (msg_header x) ∧ is_str [] (msg_body x).

Lemma blank_live x : blank x → live x.
Proof. intros (? & ? & [? _] & ?). constructor; [done..|by exists []|by exists []]. Qed.

(** *** The cache *)

Lemma omap_slot (c : list (option nat)) i x :
  c !! i = Some x → omap id c ≡ₚ option_list x ++ omap id (<[i := None]> c)
  ∧ ∀ y, omap id (<[i := y]> c) ≡ₚ option_list y ++ omap id (<[i := None]> c).
Proof.
  intros Hi. pose proof (lookup_lt_Some _ _ _ Hi) as Hlt.
  assert (∀ y, omap id (<[i := y]> c) = omap id (take i c) ++ option_list y ++ omap id (drop (S i) c)) as Hy.
  { intros y. rewrite insert_take_drop, omap_app by done. f_equal. by destruct y. }
  assert (omap id c ≡ₚ option_list x ++ omap id (<[i := None]> c)) as Hx.
  { rewrite <-(take_drop_middle c i x Hi) at 1. rewrite omap_app, (Hy None). simpl.
    destruct x; simpl; [|done]. by rewrite Permutation_middle. }
  split; [done|]. intros y. rewrite (Hy y), (Hy None). simpl.
  rewrite app_assoc, (Permutation_app_comm _ (option_list y)), <-app_assoc. done.
Qed.

Lemma first_cached_some c i a : first_cached c = Some (i, a) → c !! i = Some (Some a).
Proof.
  unfold first_cached. destruct (list_find is_Some c) as [[j x]|] eqn:E; [|done]. simpl.
  apply list_find_Some in E as (Hj & _ & _). destruct x as [b|]; [|done]. by intros [= -> ->].
Qed.

Lemma first_cached_none c : first_cached c = None → omap id c = [].
Proof.
  unfold first_cached. destruct (list_find is_Some c) as [[j x]|] eqn:E.
  - apply list_find_Some in E as (_ & [b ->] & _). done.
  - intros _. apply list_find_None in E. induction E as [|x c Hx _ IH]; [done|]. simpl. destruct x; [by destruct Hx|done].
Qed.

(** A slot is free when there are fewer messages than slots. *)
Lemma free_slot (c : list (option nat)) :
  (length (omap id c) < length c)%nat →
  ∃ i, list_find (λ slot, slot = None) c = Some (i, None) ∧ c !! i = Some None.
Proof.
  intros Hlt. destruct (list_find (λ slot, slot = None) c) as [[i x]|] eqn:E.
  - apply list_find_Some in E as (Hi & -> & _). by exists i.
  - apply list_find_None in E. exfalso. assert (length (omap id c) = length c) as Hl; [|lia]. clear Hlt.
    induction E as [|x c Hx _ IH]; [done|]. destruct x; [simpl; by f_equal|done].
Qed.

(** *** Strings *)

Lemma init_rule m :
  match _dbus_string_init_preallocated 32 m with
  | Ok _ r m' => is_str [] r ∧ (may_fail m' → may_fail m)
  | Failed _ m' => may_fail m
  | Ub => False
  end.
Proof.
  unfold _dbus_string_init_preallocated. destruct (alloc m) as [[] m'] eqn:E; [|by eapply alloc_fail].
  split; [|by eapply alloc_mono]. repeat split; vm_compute; congruence.
Qed.

Lemma clear_string_rule r m : has_text r → ∃ r', set_length 0 r m = Ok tt r' m ∧ is_str [] r'.
Proof. intros [t Ht]. destruct (set_length_shrink 0 t r m Ht ltac:(lia)) as (r' & E & Hr'). by exists r'. Qed.

Lemma reinit_rule o h m :
  has_text (data h) → ∃ h', _dbus_header_reinit o h m = Ok tt h' m ∧ unloaded h'.
Proof.
  intros Hh. destruct (clear_string_rule _ m Hh) as (d & E & Hd). eexists (Header d _ 0 o). split; [|split; [exact Hd|reflexivity]].
  unfold _dbus_header_reinit, mbind, M_bind, on_data. rewrite E. reflexivity.
Qed.

(** ** Messages in memory *)

Lemma at_get_message {B} a x (k : DBusMessage → LM B) w m : heap w !! a = Some x → (get_message a ≫= k) w m = k x w m.
Proof. intros Hx. unfold get_message, mbind, M_bind, gets, checked, id. by rewrite Hx. Qed.

Lemma at_set_message {B} a x f (k : unit → LM B) w m :
  heap w !! a = Some x → (set_message a f ≫= k) w m = k tt (with_heap (insert a (f x)) w) m.
Proof. intros Hx. eapply at_ok. unfold set_message. by rewrite (at_get_message _ _ _ _ _ Hx). Qed.

Lemma alter_there (h : gmap nat DBusMessage) f a x : h !! a = Some x → alter f a h = <[a := f x]> h.
Proof.
  intros Hx. apply map_eq. intros b. destruct (decide (a = b)) as [<-|Hne].
  - by rewrite lookup_alter_eq, lookup_insert_eq, Hx.
  - by rewrite lookup_alter_ne, lookup_insert_ne.
Qed.

(** The message at [a] is exchanged for [x]. *)
Definition set_at (a : nat) (x : DBusMessage) (w : world) : world := with_heap (insert a x) w.

Lemma on_header_run {A} a x (c : HM A) w m :
  heap w !! a = Some x →
  on_header a c w m = match c (msg_header x) m with
                      | Ok v h m' => Ok v (set_at a (with_header h x) w) m'
                      | Failed h m' => Failed (set_at a (with_header h x) w) m'
                      | Ub => Ub
                      end.
Proof.
  intros Hx. unfold on_header, on_part, set_at, with_heap. rewrite Hx. simpl.
  destruct (c (msg_header x) m); [..|done]; by rewrite (alter_there _ _ _ _ Hx).
Qed.

Lemma on_body_run {A} a x (c : SM A) w m :
  heap w !! a = Some x →
  on_body a c w m = match c (msg_body x) m with
                    | Ok v b m' => Ok v (set_at a (with_body b x) w) m'
                    | Failed b m' => Failed (set_at a (with_body b x) w) m'
                    | Ub => Ub
                    end.
Proof.
  intros Hx. unfold on_body, on_part, set_at, with_heap. rewrite Hx. simpl.
  destruct (c (msg_body x) m); [..|done]; by rewrite (alter_there _ _ _ _ Hx).
Qed.

Lemma set_at_same a x w : heap (set_at a x w) !! a = Some x.
Proof. apply lookup_insert_eq. Qed.
Lemma set_at_other a b x w : a ≠ b → heap (set_at a x w) !! b = heap w !! b.
Proof. apply lookup_insert_ne. Qed.
Lemma set_at_twice a x y w : set_at a x (set_at a y w) = set_at a x w.
Proof. unfold set_at, with_heap. simpl. by rewrite insert_insert_eq. Qed.

Lemma all_at_set P a x w l : all_at P w l → a ∉ l → all_at P (set_at a x w) l.
Proof.
  intros Hl Ha b Hb. destruct (Hl b Hb) as (y & Hy & HP). exists y. split; [|done].
  rewrite set_at_other; [done|]. by intros ->.
Qed.

(** ** New messages *)

Section messages.
Context `{Host}.

Lemma get_cached_rule w m :
  good w →
  match dbus_message_get_cached w m with
  | Ok (Some a) w' m' =>
      m' = m ∧ heap w' = heap w ∧ loader w' = loader w ∧ cached_addrs w ≡ₚ a :: cached_addrs w'
      ∧ message_cache_shutdown_registered w' = true ∧ length (message_cache w') = 5%nat
      ∧ message_cache_count w' = Z.of_nat (length (cached_addrs w'))
  | Ok None w' m' => w' = w ∧ m' = m
  | Failed _ _ | Ub => False
  end.
Proof.
  intros [Hslots Hcount Hc _ _ _]. unfold dbus_message_get_cached. rewrite at_gets, at_assert by (apply Z.leb_le; lia).
  destruct (Z.eqb_spec (message_cache_count w) 0) as [_|Hne]; [done|].
  unfold cached_addrs in *. destruct (message_cache_shutdown_registered w) eqn:Er; [|simpl in Hcount; lia].
  rewrite at_assert by done. destruct (first_cached (message_cache w)) as [[i a]|] eqn:Ef.
  2: { apply first_cached_none in Ef. rewrite Ef in Hcount. simpl in Hcount. lia. }
  apply first_cached_some in Ef. destruct (omap_slot _ _ _ Ef) as [Hp _]. simpl in Hp.
  pose proof (Permutation_length Hp) as Hl. simpl in Hl.
  destruct (Hc a) as (x & Hx & [Hrc _ _ _]); [rewrite Hp; left|].
  rewrite (at_checked _ (i, a)) by done. rewrite at_modify, at_assert by (apply Z.leb_le; lia).
  rewrite (at_get_message a x) by done. rewrite at_assert by (rewrite Hrc; done). simpl. rewrite Er.
  repeat split; [exact Hp|by rewrite length_insert; apply Hslots|lia].
Qed.

(** The state while a message [a] is in the hands of the loader. *)
Record holding (w : world) (a : nat) (P : DBusMessage → Prop) : Prop := {
  hold_good : good w;
  hold_fresh : a ∉ messages (loader w);
  hold_cache : a ∉ cached_addrs w;
  hold_message : ∃ x, heap w !! a = Some x ∧ P x
}.

Lemma good_set_at a x w :
  good w → a ∉ messages (loader w) → a ∉ cached_addrs w → good (set_at a x w).
Proof.
  intros [] Hq Hc. constructor; try done; by apply all_at_set.
Qed.

Lemma reset_rule w m a x :
  heap w !! a = Some x → idle x →
  ∃ y, (set_message a (λ x, new_message (msg_header x) (msg_body x));;
        on_header a (_dbus_header_reinit DBUS_COMPILER_BYTE_ORDER);;
        on_body a (set_length 0);;
        mret a) w m = Ok a (set_at a y w) m ∧ blank y.
Proof.
  intros Hx [_ _ Hh Hb]. rewrite (at_set_message a x) by done.
  set (y := new_message (msg_header x) (msg_body x)). change (with_heap (insert a y) w) with (set_at a y w).
  destruct (reinit_rule DBUS_COMPILER_BYTE_ORDER (msg_header y) m Hh) as (h & Eh & Hh').
  destruct (clear_string_rule (msg_body y) m Hb) as (b & Eb & Hb').
  exists (with_body b (with_header h y)). split; [|done].
  erewrite at_ok by (rewrite (on_header_run a y) by apply set_at_same; by rewrite Eh).
  erewrite at_ok by (rewrite (on_body_run a (with_header h y)) by apply set_at_same;
    change (msg_body (with_header h y)) with (msg_body y); by rewrite Eb).
  by rewrite !set_at_twice.
Qed.

Lemma init_message_rule w m :
  match init_message w m with
  | Ok (h, b) w' m' => w' = w ∧ unloaded h ∧ is_str [] b ∧ (may_fail m' → may_fail m)
  | Failed w' m' => w' = w ∧ may_fail m
  | Ub => False
  end.
Proof.
  unfold init_message. pose proof (init_rule m) as H1. destruct (_dbus_string_init_preallocated 32 m) as [[] d m1|d m1|]; [|done|done].
  destruct H1 as [Hd Hm1]. destruct (reinit_rule DBUS_COMPILER_BYTE_ORDER (Header d [] 0 DBUS_COMPILER_BYTE_ORDER) m1) as (h & -> & Hh).
  { by exists []. }
  pose proof (init_rule m1) as H2. destruct (_dbus_string_init_preallocated 32 m1) as [[] b m2|b m2|]; [|by auto|done].
  destruct H2 as [Hb Hm2]. do 3 (split; [done|]). auto.
Qed.

Lemma new_message_rule w m :
  good w →
  match dbus_message_new_empty_header w m with
  | Ok a w' m' =>
      holding w' a blank ∧ loader w' = loader w ∧ keeps w w' ∧ (heap w !! a = None ∨ a ∈ cached_addrs w)
      ∧ (∀ b, b ∈ cached_addrs w' → b ∈ cached_addrs w) ∧ (may_fail m' → may_fail m)
  | Failed w' m' => w' = w ∧ may_fail m
  | Ub => False
  end.
Proof.
  intros Hg. pose proof (get_cached_rule w m Hg) as Hc. unfold dbus_message_new_empty_header.
  destruct (dbus_message_get_cached w m) as [[a|] w1 m1| |] eqn:Ec; [..|done|done].
  - destruct Hc as (-> & Hheap & Hld & Hp & Hreg & Hlen & Hcnt). rewrite (at_ok _ _ _ _ _ _ _ Ec).
    pose proof Hg as [_ _ Hidle Hq Hnd Hnq]. destruct (Hidle a) as (x & Hx & Hix); [rewrite Hp; left|].
    rewrite Hp in Hnd. apply list.NoDup_cons in Hnd as [Ha Hnd]. rewrite <-Hheap in Hx.
    destruct (reset_rule w1 m a x Hx Hix) as (y & -> & Hy).
    assert (good w1) as Hg1.
    { constructor; rewrite ?Hld; try done; unfold all_at; rewrite ?Hheap; [|done]. intros b Hb. apply Hidle. rewrite Hp. by right. }
    assert (a ∉ messages (loader w1)) as Haq.
    { rewrite Hld. intros Hin. destruct (Hq a Hin) as (z & Hz & [_ Hz2 _ _]). rewrite Hheap, Hz in Hx. injection Hx as <-.
      destruct Hix as [_ Hz3 _ _]. congruence. }
    split; [|split; [done|split; [|split; [|split; [|done]]]]].
    + constructor; [by apply good_set_at|done|done|]. exists y. split; [apply set_at_same|done].
    + intros b z Hb Hnc. rewrite set_at_other, Hheap; [done|]. intros <-. apply Hnc. rewrite Hp. left.
    + right. rewrite Hp. left.
    + intros b Hb. rewrite Hp. by right.
  - destruct Hc as [-> ->]. rewrite (at_ok _ _ _ _ _ _ _ Ec). unfold mbind at 1, M_bind at 1, request at 1.
    destruct (alloc m) as [[] m1] eqn:Ea; [|by split; [|eapply alloc_fail]].
    pose proof (init_message_rule w m1) as Hi. unfold mbind at 1, M_bind at 1.
    destruct (init_message w m1) as [[h b] w2 m2|w2 m2|] eqn:Ei; [..|done].
    2: { destruct Hi as [-> Hm]. split; [done|]. by eapply alloc_mono. }
    destruct Hi as (-> & Hh & Hb & Hm). rewrite at_gets, at_modify. set (a := fresh (dom (heap w))).
    assert (heap w !! a = None) as Ha by (apply not_elem_of_dom, is_fresh).
    change (with_heap (insert a ?y) w) with (set_at a y w).
    assert (a ∉ messages (loader w)) as Haq.
    { intros Hin. destruct Hg as [_ _ _ Hq _ _]. destruct (Hq a Hin) as (z & Hz & _). congruence. }
    assert (a ∉ cached_addrs w) as Hac.
    { intros Hin. destruct Hg as [_ _ Hc _ _ _]. destruct (Hc a Hin) as (z & Hz & _). congruence. }
    split; [|split; [done|split; [|split; [by left|split; [done|]]]]].
    + constructor; [by apply good_set_at|done|done|]. eexists. split; [apply set_at_same|done].
    + intros c z Hc _. rewrite set_at_other; [done|]. intros <-. congruence.
    + intros Hm2. eapply alloc_mono; [exact Ea|auto].
Qed.

(** ** Giving a message up *)

(** The shutdown function is registered, or not. *)
Lemma register_rule w m :
  good w →
  let c := if message_cache_shutdown_registered w then mret true
           else
             assert_ (message_cache_count w =? 0);;
             ok ← attempt request;
             if (ok : bool) then
               modify (with_cache (replicate MAX_MESSAGE_CACHE_SIZE None) (message_cache_count w));;
               modify (with_shutdown true);;
               mret true
             else mret false in
  ∃ (b : bool) w' m', c w m = Ok b w' m' ∧ good w' ∧ heap w' = heap w ∧ loader w' = loader w
    ∧ cached_addrs w' = cached_addrs w ∧ (b = true → message_cache_shutdown_registered w' = true) ∧ (may_fail m' → may_fail m).
Proof.
  intros Hg c. pose proof Hg as [Hslots Hcount Hc Hq Hnd Hnq]. unfold c.
  destruct (message_cache_shutdown_registered w) eqn:Er; [by exists true, w, m|].
  unfold cached_addrs in Hcount. rewrite Er in Hcount. simpl in Hcount. rewrite at_assert by lia.
  unfold attempt, request, mbind at 1, M_bind at 1. destruct (alloc m) as [[] m1] eqn:Ea.
  - exists true. eexists _, m1. split; [reflexivity|]. split; [|split; [done|split; [done|split; [|split; [done|by eapply alloc_mono]]]]].
    + constructor; simpl; try done; [|constructor]. unfold all_at. by intros b Hb%elem_of_nil.
    + unfold cached_addrs. by rewrite Er.
  - exists false, w, m1. do 5 (split; [done|]). split; [done|]. by eapply alloc_mono.
Qed.

Lemma try_cache_rule w m a :
  holding w a (λ x, message_ok 0 false x) →
  ∃ (b : bool) w' m', try_cache a w m = Ok b w' m' ∧ loader w' = loader w ∧ (∀ c, c ≠ a → heap w' !! c = heap w !! c)
    ∧ (may_fail m' → may_fail m)
    ∧ if b then good w' else holding w' a (λ x, message_ok 0 false x).
Proof.
  intros [Hg Haq Hac (x & Hx & Hok)]. unfold try_cache. rewrite (at_get_message a x) by done. rewrite at_gets.
  destruct (register_rule w m Hg) as (b & w1 & m1 & E & Hg1 & Hheap & Hld & Hca & Hreg & Hm). cbv zeta in E.
  rewrite (at_ok _ _ _ _ _ _ _ E). clear E.
  assert (holding w1 a (λ x, message_ok 0 false x)) as Hh.
  { constructor; [done|by rewrite Hld|by rewrite Hca|]. exists x. by rewrite Hheap. }
  assert (∀ c, c ≠ a → heap w1 !! c = heap w !! c) as Hkeep by (intros; by rewrite Hheap).
  destruct b; [|by exists false, w1, m1]. cbn [negb]. rewrite at_gets. pose proof Hg1 as [Hslots Hcount Hc Hq Hnd Hnq].
  rewrite at_assert by (apply Z.leb_le; lia). destruct (_ <? _)%nat; [by exists false, w1, m1|].
  destruct (Z.leb_spec (Z.of_nat MAX_MESSAGE_CACHE_SIZE) (message_cache_count w1)) as [_|Hroom]; [by exists false, w1, m1|].
  specialize (Hreg eq_refl). specialize (Hslots Hreg).
  assert (cached_addrs w1 = omap id (message_cache w1)) as Eca by (unfold cached_addrs; by rewrite Hreg).
  destruct (free_slot (message_cache w1)) as (i & Ei & Hi).
  { rewrite Hslots, <-Eca. unfold MAX_MESSAGE_CACHE_SIZE in Hroom. lia. }
  rewrite (at_checked _ _ _ _ _ Ei), at_modify. rewrite (at_set_message a x) by (simpl; by rewrite Hheap).
  change (with_heap (insert a ?y) ?v) with (set_at a y v). eexists true, _, m1. split; [reflexivity|].
  split; [done|]. split; [intros c Hne; rewrite set_at_other by done; by apply Hkeep|]. split; [done|].
  destruct (omap_slot _ _ _ Hi) as [_ Hy]. specialize (Hy (Some a)). simpl in Hy.
  assert (cached_addrs (set_at a (with_in_cache true x) (with_cache (<[i:=Some a]> (message_cache w1)) (message_cache_count w1 + 1) w1))
    ≡ₚ a :: cached_addrs w1) as Hp.
  { unfold cached_addrs. simpl. rewrite Hreg, Hy. f_equiv. destruct (omap_slot _ _ _ Hi) as [Hz _]. simpl in Hz. by rewrite <-Hz. }
  constructor.
  - intros _. simpl. by rewrite length_insert.
  - rewrite (Permutation_length Hp). simpl. lia.
  - intros c Hin. rewrite Hp in Hin. apply elem_of_cons in Hin as [->|Hin].
    + eexists. split; [apply set_at_same|]. destruct Hok. by constructor.
    + rewrite set_at_other by (intros <-; by rewrite Hca in Hin). by apply Hc.
  - simpl. apply all_at_set; [done|by rewrite Hld].
  - rewrite Hp. apply list.NoDup_cons. split; [by rewrite Hca|done].
  - done.
Qed.

Lemma message_unref_rule w m a :
  holding w a live →
  ∃ w' m', dbus_message_unref a w m = Ok tt w' m' ∧ good w' ∧ loader w' = loader w
    ∧ (∀ c, c ≠ a → heap w' !! c = heap w !! c) ∧ (may_fail m' → may_fail m).
Proof.
  intros [Hg Haq Hac (x & Hx & Hok)]. unfold dbus_message_unref. rewrite (at_get_message a x) by done.
  pose proof Hok as [Hrc Hic Hhd Hbd]. rewrite Hic, Hrc. rewrite (at_set_message a x) by done. rewrite at_assert by done.
  change (1 - 1) with 0. change (1 =? 1) with true. cbv iota. set (y := with_refcount 0 x). change (with_heap (insert a y) w) with (set_at a y w).
  unfold dbus_message_cache_or_finalize. rewrite (at_get_message a y) by apply set_at_same. rewrite at_assert by done.
  assert (holding (set_at a y w) a (λ x, message_ok 0 false x)) as Hh.
  { constructor; [by apply good_set_at|done|done|]. exists y. split; [apply set_at_same|]. by constructor. }
  destruct (try_cache_rule _ m a Hh) as (b & w1 & m1 & E & Hld & Hkeep & Hm & Hres). rewrite (at_ok _ _ _ _ _ _ _ E). destruct b.
  - exists w1, m1. split; [done|]. split; [done|]. split; [done|]. split; [|done]. intros c Hne. by rewrite Hkeep, set_at_other.
  - destruct Hres as [Hg1 Haq1 Hac1 (z & Hz & [Hz0 _ _ _])]. unfold dbus_message_finalize.
    rewrite (at_get_message a z) by done. rewrite at_assert by (by rewrite Hz0). eexists _, m1. split; [reflexivity|].
    assert (∀ c, c ≠ a → heap (with_heap (base.delete a) w1) !! c = heap w1 !! c) as Hdel by (intros; by apply lookup_delete_ne).
    assert (∀ P l, all_at P w1 l → a ∉ l → all_at P (with_heap (base.delete a) w1) l) as Hall.
    { intros P l Hl Hn c Hc. destruct (Hl c Hc) as (u & Hu & HP). exists u. rewrite Hdel; [done|]. by intros ->. }
    split; [destruct Hg1; constructor; try done; by apply Hall|]. split; [done|]. split; [|done].
    intros c Hne. by rewrite Hdel, Hkeep, set_at_other.
Qed.

End messages.

(** ** Messages on the wire *)

Record wire_message := WireMessage { wm_order : byte_order; wm_header : header_values; wm_values : list val }.

Definition wm_head (x : wire_message) : option bytes :=
  bs ← header_bytes (wm_order x) (wm_header x); Some (bs ++ padding (length bs) 8).
Definition wm_body (x : wire_message) : option bytes :=
  enc_fields (wm_order x) (wm_values x) (signature_of (wm_header x)) 0.
Definition wm_bytes (x : wire_message) : option bytes := a ← wm_head x; b ← wm_body x; Some (a ++ b).

(** A valid message of at most [max_] bytes. *)
Record valid_message (max_ : Z) (x : wire_message) : Prop := {
  valid_order : hv_order (wm_header x) = order_byte (wm_order x);
  valid_header : header_verdict (wm_header x) = DBUS_VALID;
  valid_body : ∃ a b, wm_head x = Some a ∧ wm_body x = Some b ∧ hv_body_len (wm_header x) = Z.of_nat (length b)
                 ∧ Z.of_nat (length (a ++ b)) <= max_
}.

(** The message at [a] is [x]. *)
Record carries `{Host} (y : DBusMessage) (x : wire_message) : Prop := {
  carries_live : live y;
  carries_order : msg_byte_order y = wm_order x;
  carries_header : ∃ t, wm_head x = Some t ∧ shows t (wm_header x) (msg_header y);
  carries_body : ∃ t, wm_body x = Some t ∧ is_str t (msg_body y)
}.

(** ** The steps of loading *)

Lemma compact_rule s r m :
  is_str s r →
  match compact 2048 r m with
  | Ok _ r' m' | Failed r' m' => is_str s r' ∧ (may_fail m' → may_fail m)
  | Ub => False
  end.
Proof.
  intros Hr. unfold compact. destruct (_ <=? 2048) eqn:Ew; [done|]. destruct (alloc m) as [[] m'] eqn:E; [|split; [done|by eapply alloc_mono]].
  split; [|by eapply alloc_mono]. pose proof (is_str_length _ _ Hr) as Hl. pose proof (is_str_block _ _ Hr) as Hb.
  destruct Hr as [(W1 & W2 & W3 & W4) Hc]. unfold zlen, allocated, _DBUS_STRING_ALLOCATION_PADDING in *.
  split; [split; [done|split; [|split]]|]; unfold zlen, allocated, contents, _DBUS_STRING_ALLOCATION_PADDING in *;
    simpl; rewrite ?length_take in *; try lia.
  - rewrite lookup_take_lt by lia. done.
  - rewrite take_take. rewrite Nat.min_l by lia. done.
Qed.

Lemma not_too_long s r t : is_str s r → (length t <= length s)%nat → ¬ too_long t.
Proof.
  intros Hr Hle Htl. pose proof (is_str_length _ _ Hr). destruct Hr as [(_ & W2 & W3 & _) _].
  unfold too_long, zlen, allocated, _DBUS_STRING_MAX_MAX_LENGTH, _DBUS_STRING_ALLOCATION_PADDING in *. lia.
Qed.

Lemma remove_last_absent a l : a ∉ l → remove_last a l = l.
Proof.
  induction l as [|b l IH]; [done|]. rewrite not_elem_of_cons. intros [Hne Hl]. simpl.
  rewrite decide_False, decide_False by done. done.
Qed.

Lemma remove_last_snoc a l : a ∉ l → remove_last a (l ++ [a]) = l.
Proof.
  induction l as [|b l IH]; intros Hl.
  - simpl. by rewrite decide_True.
  - apply not_elem_of_cons in Hl as [_ Hl]. simpl. rewrite decide_True by (apply elem_of_app; right; left). by rewrite IH.
Qed.

(** [failed:]; the message may be in the queue. *)
Lemma load_failed_run a oom w m ms :
  remove_last a (messages (loader w)) = ms → corrupted (loader w) = negb oom →
  load_failed a oom w m = Ok false (with_loader (with_messages (λ _, ms)) w) m.
Proof.
  intros <- Hc. unfold load_failed, queue_remove_last. rewrite at_modify, at_gets, at_assert; [done|].
  simpl. rewrite Hc. by destruct oom.
Qed.

Lemma on_buffer_run {A} (c : SM A) w m :
  on_buffer c w m = match c (loader_data (loader w)) m with
                    | Ok v d m' => Ok v (with_loader (with_data d) w) m'
                    | Failed d m' => Failed (with_loader (with_data d) w) m'
                    | Ub => Ub
                    end.
Proof. done. Qed.

(** The message leaves the buffer: [y] is the message before, [ms] the rest of the queue. *)
Lemma take_message_rule a l y s ms w m :
  heap w !! a = Some y → is_str [] (msg_body y) → is_str s (loader_data (loader w)) →
  (header_len l + body_len l <= length s)%nat → len (data (msg_header y)) = header_len l →
  corrupted (loader w) = false → messages (loader w) = ms ++ [a] → a ∉ ms →
  ∃ b d m', (may_fail m' → may_fail m)
    ∧ (take_message a l w m = Ok true (with_loader (with_data d) (set_at a (with_body b y) w)) m'
         ∧ is_str (sub s (header_len l) (body_len l)) b ∧ is_str (drop (header_len l + body_len l) s) d
       ∨ take_message a l w m = Ok false (with_loader (with_messages (λ _, ms)) (set_at a (with_body b y) w)) m'
         ∧ is_str [] b ∧ may_fail m).
Proof.
  intros Hy Hb Hd Hle Hlh Hcor Hms Ha. unfold take_message. rewrite at_gets. rewrite (at_get_message a y) by done.
  rewrite at_assert by (rewrite <-(is_str_length _ _ Hb); done).
  rewrite at_assert by (rewrite <-(is_str_length _ _ Hd); by apply Nat.leb_le).
  pose proof (copy_len_ok s (loader_data (loader w)) [] (header_len l) (body_len l) 0 (is_str_readable _ _ Hd) ltac:(lia) ltac:(simpl; lia)
    (msg_body y) m Hb) as Hc.
  assert (insert_at_ [] 0 (sub s (header_len l) (body_len l)) = sub s (header_len l) (body_len l)) as Ei by apply app_nil_r.
  rewrite Ei in Hc. rewrite at_attempt. rewrite (on_body_run a y) by done.
  destruct (_dbus_string_copy_len _ _ _ _ (msg_body y) m) as [[] b m1|b m1|]; [..|done]; cbn [negb].
  2: { destruct Hc as [Hb1 [Hm|Htl]].
       2: { exfalso. eapply not_too_long; [exact Hd| |exact Htl]. rewrite length_sub by lia. lia. }
       exists b, (loader_data (loader w)), m1. split; [done|right]. split; [|done].
       apply load_failed_run; [simpl; rewrite Hms; by apply remove_last_snoc|done]. }
  destruct Hc as [[_ Hb1] Hm1]. set (y1 := with_body b y). set (w1 := set_at a y1 w).
  pose proof (string_delete_ok s 0 (header_len l + body_len l) True ltac:(lia) (loader_data (loader w1)) m1 Hd) as Hdel.
  unfold mbind at 1, M_bind at 1. rewrite on_buffer_run.
  destruct (_dbus_string_delete 0 _ _ m1) as [[] d m2|d m2|]; [|by destruct Hdel|done]. destruct Hdel as [Hd1 Hm2]. simpl in Hd1.
  pose proof (compact_rule _ d m2 Hd1) as Hcomp. rewrite at_attempt, on_buffer_run.
  change (loader_data (loader (with_loader (with_data d) w1))) with d. unfold _dbus_string_compact.
  assert (∀ d' m3, is_str (drop (header_len l + body_len l) s) d' → (may_fail m3 → may_fail m2) →
    ∃ b d m', (may_fail m' → may_fail m)
    ∧ ((x ← get_message a;
        assert_ (len (data (msg_header x)) =? header_len l)%nat;;
        assert_ (len (msg_body x) =? body_len l)%nat;;
        w ← gets id;
        assert_ (negb (corrupted (loader w)));;
        assert_ (bool_decide (a ∈ messages (loader w)));;
        mret true) (with_loader (with_data d') w1) m3 = Ok true (with_loader (with_data d) (set_at a (with_body b y) w)) m'
       ∧ is_str (sub s (header_len l) (body_len l)) b ∧ is_str (drop (header_len l + body_len l) s) d)) as Hrest.
  { intros d' m3 Hd' Hm3. exists b, d', m3. split; [auto|]. split; [|done]. rewrite (at_get_message a y1) by apply set_at_same.
    rewrite at_assert by (by rewrite <-Hlh; apply Nat.eqb_refl).
    assert (len b = body_len l) as Hlb by (rewrite <-(is_str_length _ _ Hb1), length_sub by lia; done).
    rewrite at_assert by (by apply Nat.eqb_eq).
    rewrite at_gets, at_assert by (simpl; by rewrite Hcor).
    rewrite at_assert by (apply bool_decide_eq_true; simpl; rewrite Hms; apply elem_of_app; right; left). done. }
  destruct (compact 2048 d m2) as [[] d' m3|d' m3|]; [..|done]; destruct Hcomp as [Hd' Hm3];
    destruct (Hrest d' m3 Hd' Hm3) as (b' & d'' & m' & ? & ?); exists b', d'', m'; (split; [done|by left]).
Qed.

Lemma set_at_id a x w : heap w !! a = Some x → set_at a x w = w.
Proof. intros Hx. unfold set_at, with_heap. rewrite insert_id by done. by destruct w. Qed.

Lemma evals_on_header `{Host} {A} a y (c : HM A) v w m :
  heap w !! a = Some y → evals c (msg_header y) v (msg_header y) → on_header a c w m = Ok v w m.
Proof.
  intros Hy Hc. rewrite (on_header_run a y) by done. rewrite Hc. f_equal.
  assert (with_header (msg_header y) y = y) as -> by by destruct y. by apply set_at_id.
Qed.

(** The signature of the body. *)
Lemma signature_rule `{Host} a y t hv w m :
  heap w !! a = Some y → shows t hv (msg_header y) →
  ∃ pre post, get_const_signature a w m = Ok (pre ++ print_sig (signature_of hv) ++ post, length pre) w m
    ∧ byte_at post 0 = x00 ∧ sig_ok accepted_key (signature_of hv) = true.
Proof.
  intros Hy Hs. destruct (shows_signature _ _ _ Hs) as [Hok [[Hnil Hraw]|(p & pre & post & Hraw & Hstr & Hl)]];
    unfold get_const_signature; rewrite (at_ok _ _ _ _ _ _ _ (evals_on_header a y _ _ w m Hy Hraw));
    rewrite (at_get_message a y) by done.
  - exists [], []. by rewrite Hnil.
  - exists pre, (x00 :: post). by rewrite Hstr, Hl, Nat2Z.id.
Qed.

(** ** Loading one message *)

Lemma good_push w a y d :
  good w → a ∉ messages (loader w) → a ∉ cached_addrs w → live y →
  good (with_loader (λ L, with_messages (λ ms, ms ++ [a]) (with_data d L)) (set_at a y w)).
Proof.
  intros [] Hq Hc Hy. constructor; try done.
  - by apply (all_at_set _ a y w).
  - intros b [Hb|Hb%list_elem_of_singleton]%elem_of_app; [by apply (all_at_set _ a y w (messages (loader w)))|].
    subst b. exists y. split; [apply set_at_same|done].
  - simpl. apply list.NoDup_app. split; [done|]. split; [|apply list.NoDup_singleton]. by intros b Hb ->%list_elem_of_singleton.
Qed.

Section load.
Context `{Host}.
Context (w : world) (a : nat) (s : bytes) (l : message_lengths).
Hypothesis Hhold : holding w a blank.
Hypothesis Hs : is_str s (loader_data (loader w)).
Hypothesis Hnest : no_misnested s.
Hypothesis Hl : announced (loader_data (loader w)) (length s) l.
Hypothesis Hcor : corrupted (loader w) = false.

Abbreviation o := (claimed_order l).
Abbreviation total := (header_len l + body_len l)%nat.

Lemma total_room : (total <= length s)%nat.
Proof. by destruct Hl. Qed.

(** The body that is found valid. *)
Lemma body_rule pre post ts m :
  sig_ok accepted_key ts = true → byte_at post 0 = x00 →
  match _dbus_validate_body_with_reason (pre ++ print_sig ts ++ post) (length pre) o false
          (loader_data (loader w)) (header_len l) (body_len l) m with
  | None => False
  | Some (inl v, m') => v ≠ DBUS_VALID ∧ (may_fail m' → may_fail m)
  | Some (inr _, m') =>
      (∃ vs, enc_fields o vs ts 0 = Some (sub s (header_len l) (body_len l))) ∧ (may_fail m' → may_fail m)
  end.
Proof.
  intros Hok Hpost. pose proof total_room as Hroom. destruct Hl as [_ _ _ Hhl _].
  assert (s = take (header_len l) s ++ sub s (header_len l) (body_len l) ++ drop total s) as Esplit.
  { unfold sub. rewrite <-drop_drop, !take_drop. done. }
  assert (length (take (header_len l) s) = header_len l) as Hlh by (rewrite length_take; lia).
  assert (length (sub s (header_len l) (body_len l)) = body_len l) as Hlb by (apply length_sub; lia).
  pose proof (body_sound_rule pre post ts (take (header_len l) s) (sub s (header_len l) (body_len l)) (drop total s) o
    (loader_data (loader w)) m Hok Hpost) as Hb. rewrite <-Esplit, Hlh, Hlb in Hb. specialize (Hb Hs Hnest).
  assert (reasoned (_dbus_validate_body_with_reason (pre ++ print_sig ts ++ post) (length pre) o false
    (loader_data (loader w)) (header_len l) (body_len l))) as Hwhy.
  { unfold _dbus_validate_body_with_reason. apply reasoned_bind; [apply helper_reasoned|]. intros p. reasons. }
  destruct (_dbus_validate_body_with_reason _ _ _ _ _ _ _ m) as [[[v|k] m']|] eqn:E; [..|done];
    destruct (Hwhy m _ m' E) as [Hm Hv].
  - by destruct (Hv v eq_refl).
  - split; [|done]. destruct Hb as [vs Evs]. exists vs. rewrite <-Evs.
    destruct (align_up_spec (16 + fields_array_len l) 8) as [_ Hmod]; [alignment|]. rewrite <-Hhl in Hmod.
    apply Nat.Div0.div_exact in Hmod. rewrite Hmod, <-(Nat.add_0_r (8 * _)). symmetry. apply enc_fields_shift.
Qed.

(** Loading did not succeed: the message is still in the hands of the loader. *)
Definition gave_up (m : mem) (w' : world) : Prop :=
  holding w' a live
  ∧ (loader w' = loader w ∧ may_fail m ∨ ∃ v, v ≠ DBUS_VALID ∧ loader w' = with_corruption v (loader w)).

Definition same_cache (w' : world) : Prop :=
  cached_addrs w' = cached_addrs w ∧ ∀ c, c ≠ a → heap w' !! c = heap w !! c.

Lemma same_messages (L : DBusMessageLoader) : with_messages (λ _, messages L) L = L.
Proof. by destruct L. Qed.

(** The ways to fail. *)
Lemma fail_rule y w1 m m1 (oom : bool) v :
  live y → w1 = set_at a y w ∨ w1 = with_loader (with_messages (λ ms, ms ++ [a])) (set_at a y w) →
  (if oom then may_fail m else v ≠ DBUS_VALID) → (may_fail m1 → may_fail m) →
  ∃ w' m', (if oom then load_failed a true else corrupt v;; load_failed a false) w1 m1 = Ok false w' m'
    ∧ (may_fail m' → may_fail m) ∧ same_cache w' ∧ gave_up m w'.
Proof.
  intros Hy Hw1 Hwhy Hm. destruct Hhold as [Hg Hq Hc _].
  assert (good (set_at a y w)) as Hg1 by by apply good_set_at.
  assert (holding (set_at a y w) a live) as Hh by (constructor; [done..|]; exists y; split; [apply set_at_same|done]).
  assert (remove_last a (messages (loader w1)) = messages (loader w)) as Hrem.
  { destruct Hw1 as [-> | ->]; simpl; [by apply remove_last_absent|by apply remove_last_snoc]. }
  assert (same_cache (set_at a y w)) as Hsame by (split; [done|intros c Hne; by apply set_at_other]).
  destruct oom.
  - rewrite (load_failed_run a true w1 m1 (messages (loader w))); [|done|destruct Hw1 as [-> | ->]; done].
    assert (with_loader (with_messages (λ _, messages (loader w))) w1 = set_at a y w) as ->.
    { destruct Hw1 as [-> | ->]; unfold with_loader, set_at, with_heap; simpl; unfold with_messages; simpl; f_equal; by destruct (loader w). }
    eexists _, m1. split; [done|]. split; [done|]. split; [done|]. split; [done|]. by left.
  - unfold corrupt. rewrite at_modify. rewrite (load_failed_run a false _ m1 (messages (loader w))); [|done|done].
    eexists _, m1. split; [reflexivity|]. split; [done|]. 
    assert (with_loader (with_messages (λ _, messages (loader w))) (with_loader (with_corruption v) w1)
      = with_loader (with_corruption v) (set_at a y w)) as ->.
    { destruct Hw1 as [-> | ->]; done. }
    split; [done|]. split; [|right; by exists v]. destruct Hh as [Hg' Hq' Hc' Hx']. constructor; [|done..]. by destruct Hg'.
Qed.

Context (max_ : Z).
Hypothesis Hmax : Z.of_nat total <= max_.

(** The message was loaded. *)
Definition loaded (w' : world) : Prop :=
  ∃ x d y, good w' ∧ loader w' = with_messages (λ ms, ms ++ [a]) (with_data d (loader w)) ∧ is_str (drop total s) d
    ∧ heap w' !! a = Some y ∧ carries y x ∧ valid_message max_ x ∧ wm_bytes x = Some (take total s).

(** The message that was found. *)
Lemma found_message hv bs vs :
  header_bytes o hv = Some bs → take (header_len l) s = bs ++ padding (length bs) 8 → hv_order hv = order_byte o →
  hv_body_len hv = Z.of_nat (body_len l) → header_verdict hv = DBUS_VALID →
  enc_fields o vs (signature_of hv) 0 = Some (sub s (header_len l) (body_len l)) →
  let x := WireMessage o hv vs in
  valid_message max_ x ∧ wm_bytes x = Some (take total s) ∧ wm_head x = Some (take (header_len l) s).
Proof.
  intros E Et Hord Hbl Hv Evs x. pose proof total_room as Hroom.
  assert (wm_head x = Some (take (header_len l) s)) as Hhead by (unfold wm_head; simpl; by rewrite E, Et).
  assert (take total s = take (header_len l) s ++ sub s (header_len l) (body_len l)) as Ett.
  { unfold sub. rewrite <-(take_take_drop s (header_len l) (body_len l)). done. }
  split; [|split; [|done]].
  - constructor; [done..|]. exists (take (header_len l) s), (sub s (header_len l) (body_len l)). split; [done|]. split; [exact Evs|].
    rewrite length_sub by lia. split; [done|]. rewrite <-Ett, length_take. lia.
  - unfold wm_bytes. rewrite Hhead. unfold wm_body. simpl. by rewrite Evs, Ett.
Qed.

Lemma queue_append_rule m w1 :
  match (attempt (queue_append a)) w1 m with
  | Ok true w' m' => w' = with_loader (with_messages (λ ms, ms ++ [a])) w1 ∧ (may_fail m' → may_fail m)
  | Ok false w' m' => w' = w1 ∧ may_fail m ∧ (may_fail m' → may_fail m)
  | Failed _ _ | Ub => False
  end.
Proof.
  unfold attempt, queue_append, request, mbind, M_bind. destruct (alloc m) as [[] m'] eqn:E; [|].
  - split; [done|]. by eapply alloc_mono.
  - split; [done|]. split; [by eapply alloc_fail|by eapply alloc_mono].
Qed.

(** The message goes to the queue and leaves the buffer, after the header and body were
    found valid. *)
Lemma tail_rule y m m2 :
  live y → is_str [] (msg_body y) → len (data (msg_header y)) = header_len l → (may_fail m2 → may_fail m) →
  ∃ (b : bool) w' m',
    (appended ← attempt (queue_append a);
     if negb appended then load_failed a true else take_message a l) (set_at a y w) m2 = Ok b w' m'
    ∧ (may_fail m' → may_fail m) ∧ same_cache w'
    ∧ if b then ∃ c d, good w' ∧ loader w' = with_messages (λ ms, ms ++ [a]) (with_data d (loader w)) ∧ is_str (drop total s) d
                 ∧ heap w' !! a = Some (with_body c y) ∧ is_str (sub s (header_len l) (body_len l)) c
      else gave_up m w' ∧ may_fail m2.
Proof.
  intros Hly Hb0 Hlen Hm2. pose proof Hhold as [Hg Hq Hc _]. pose proof total_room as Hroom.
  pose proof (queue_append_rule m2 (set_at a y w)) as Happ. unfold mbind at 1, M_bind at 1.
  destruct (attempt (queue_append a) (set_at a y w) m2) as [[] w3 m3| |]; [..|done|done]; cbn [negb].
  2: { destruct Happ as (-> & Hm3 & Hm3'). exists false.
       destruct (fail_rule y (set_at a y w) m m3 true DBUS_VALID) as (w' & m' & E & H1 & H2 & H3); [done|by left|auto|auto|].
       by exists w', m'. }
  destruct Happ as [-> Hm3]. set (w3 := with_loader _ (set_at a y w)).
  destruct (take_message_rule a l y s (messages (loader w)) w3 m3) as (b & d & m4 & Hm4 & Htake); [apply set_at_same|done..|].
  assert (live (with_body b y)) as Hly2.
  { destruct Hly. constructor; try done. by destruct Htake as [(_ & ? & _)|(_ & ? & _)]; eexists. }
  destruct Htake as [(Etake & Hbd & Hdd)|(Etake & Hbd & Hm')].
  - exists true. eexists _, m4. split; [exact Etake|]. split; [auto|].
    assert (with_loader (with_data d) (set_at a (with_body b y) w3)
      = with_loader (λ L, with_messages (λ ms, ms ++ [a]) (with_data d L)) (set_at a (with_body b y) w)) as ->.
    { unfold w3, with_loader, set_at, with_heap. simpl. by rewrite insert_insert_eq. }
    split; [split; [done|intros c Hne; by apply set_at_other]|]. exists b, d. split; [by apply good_push|].
    do 2 (split; [done|]). split; [apply set_at_same|done].
  - exists false. eexists _, m4. split; [exact Etake|]. split; [auto|].
    assert (with_loader (with_messages (λ _, messages (loader w))) (set_at a (with_body b y) w3) = set_at a (with_body b y) w) as ->.
    { unfold w3, with_loader, set_at, with_heap. simpl. rewrite insert_insert_eq. f_equal. by destruct (loader w). }
    split; [split; [done|intros c Hne; by apply set_at_other]|]. split; [|auto]. split; [|left; split; [done|auto]].
    constructor; [by apply good_set_at|done|done|]. eexists. by split; [apply set_at_same|].
Qed.

(** The message after its header was loaded. *)
Lemma header_loaded x0 h t hv :
  blank x0 → shows t hv h → length t = header_len l →
  let y := with_byte_order o (with_header h x0) in live y ∧ is_str [] (msg_body y) ∧ len (data (msg_header y)) = header_len l.
Proof.
  intros (Hrc & Hic & _ & Hb0) Hshow Ht y. split; [constructor; [done|done|by eexists; apply (shows_data _ _ _ Hshow)|by exists []]|].
  split; [done|]. simpl. by rewrite <-(is_str_length _ _ (shows_data _ _ _ Hshow)).
Qed.

(** Loading up to the answer on the header. *)
Lemma load_start x0 v h m m1 :
  heap w !! a = Some x0 → blank x0 → _dbus_header_load false l (loader_data (loader w)) 0 (length s) (msg_header x0) m = Ok v h m1 →
  load_message a l w m
  = (if decide (v = DBUS_VALIDITY_UNKNOWN_OOM_ERROR) then load_failed a true
     else if decide (v ≠ DBUS_VALID) then corrupt v;; load_failed a false
     else
       set_message a (with_byte_order o);;
       '(type_str, type_pos) ← get_const_signature a;
       v ← (λ w' m, match _dbus_validate_body_with_reason type_str type_pos o false (loader_data (loader w))
                           (header_len l) (body_len l) m with
                   | Some (v, m') => Ok v w' m'
                   | None => Ub
                   end);
       match v with
       | inl validity => corrupt validity;; load_failed a false
       | inr _ =>
           appended ← attempt (queue_append a);
           if negb appended then load_failed a true else take_message a l
       end) (set_at a (with_header h x0) w) m1.
Proof.
  intros Hx0 (_ & _ & [Hd0 _] & _) Eload. unfold load_message. rewrite at_gets, (at_get_message a x0) by done.
  rewrite at_assert by (rewrite <-(is_str_length _ _ Hd0); done). rewrite <-(is_str_length _ _ Hs).
  rewrite at_assert by (apply Nat.leb_le; apply total_room).
  erewrite at_ok by (rewrite (on_header_run a x0) by done; by rewrite Eload). done.
Qed.

Lemma load_message_rule m :
  ∃ (b : bool) w' m', load_message a l w m = Ok b w' m' ∧ (may_fail m' → may_fail m) ∧ same_cache w'
    ∧ if b then loaded w' else gave_up m w'.
Proof.
  pose proof Hhold as [Hg Hq Hc (x0 & Hx0 & Hblank)]. pose proof Hblank as (Hrc & Hic & Hun & Hb0).
  pose proof total_room as Hroom. pose proof (load_sound s _ l (msg_header x0) m Hs Hnest Hl Hun) as Hload.
  destruct (_dbus_header_load _ _ _ _ _ (msg_header x0) m) as [v h m1| |] eqn:Eload; [|done..].
  rewrite (load_start x0 v h m m1 Hx0 Hblank Eload). destruct Hload as (Hm1 & Hoom & Hres).
  assert (is_str [] (data h) → live (with_header h x0)) as Hlive by (intros Hh; constructor; [done|done|by exists []|by exists []]).
  destruct (decide (v = DBUS_VALIDITY_UNKNOWN_OOM_ERROR)) as [->|Hnoom].
  { exists false. apply (fail_rule (with_header h x0) _ m m1 true DBUS_VALID); [by apply Hlive|by left|by apply Hoom|done]. }
  destruct (decide (v ≠ DBUS_VALID)) as [Hbad|Hval%dec_stable].
  { rewrite decide_False in Hres by done. exists false.
    apply (fail_rule (with_header h x0) _ m m1 false v); [by apply Hlive|by left|done|done]. }
  subst v. rewrite decide_True in Hres by done. destruct Hres as (hv & bs & E & Et & Hord & Hbl & Hverd & Hshow).
  rewrite (at_set_message a (with_header h x0)) by apply set_at_same. set (y := with_byte_order o (with_header h x0)).
  change (with_heap (insert a y) ?v) with (set_at a y v). rewrite set_at_twice.
  destruct (header_loaded x0 h _ hv Hblank Hshow) as (Hly & Hby & Hlh); [rewrite length_take; lia|]. fold y in Hly, Hby, Hlh.
  destruct (signature_rule a y _ hv (set_at a y w) m1 (set_at_same _ _ _) Hshow) as (pre & post & Esig & Hpost & Hok).
  rewrite (at_ok _ _ _ _ _ _ _ Esig). clear Esig. pose proof (body_rule pre post (signature_of hv) m1 Hok Hpost) as Hbody.
  unfold mbind at 1, M_bind at 1. destruct (_dbus_validate_body_with_reason _ _ _ _ _ _ _ m1) as [[[v|k] m2]|]; [..|done].
  { exists false. destruct Hbody as [Hv Hm2]. apply (fail_rule y _ m m2 false v); [done|by left|done|auto]. }
  destruct Hbody as [[vs Evs] Hm2].
  destruct (tail_rule y m m2 Hly Hby Hlh ltac:(auto)) as (b & w' & m' & Etail & Hm' & Hsame & Hend).
  exists b, w', m'. split; [exact Etail|]. do 2 (split; [done|]). destruct b; [|by destruct Hend].
  destruct Hend as (c & d & Hg' & Hl' & Hd' & Hy' & Hc').
  destruct (found_message hv bs vs E Et Hord Hbl Hverd Evs) as (Hvalid & Hbytes & Hhead).
  exists (WireMessage o hv vs), d, (with_body c y). do 4 (split; [done|]). split; [|done].
  constructor; [destruct Hly; constructor; try done; by eexists|done|by eexists|]. by eexists.
Qed.

End load.

(** ** The queue *)

Lemma read_u32_total `{Host} s r p o :
  is_str s r → (align_up p 4 + 4 <= length s)%nat → ∃ z, _dbus_marshal_read_uint32 r p o = Some (z, (align_up p 4 + 4)%nat).
Proof.
  intros Hr Hle. pose proof (is_str_block _ _ Hr). unfold _dbus_marshal_read_uint32, mem_read.
  rewrite <- (is_str_length _ _ Hr), !(proj2 (Nat.leb_le _ _)) by lia. by eexists.
Qed.

Definition order_of (c : byte) : option byte_order :=
  if c =b "l" then Some DBUS_LITTLE_ENDIAN else if c =b "B" then Some DBUS_BIG_ENDIAN else None.

(** The test for a whole message, from the lengths that the data announce. *)
Lemma have_message_eq `{Host} max_ (s : bytes) r o fl bl q q' :
  0 <= max_ <= DBUS_MAXIMUM_MESSAGE_LENGTH → (16 <= length s)%nat → _dbus_string_get_byte 0 r ≫= order_of = Some o →
  _dbus_marshal_read_uint32 r 12 o = Some (Z.of_nat fl, q) → _dbus_marshal_read_uint32 r 4 o = Some (Z.of_nat bl, q') →
  _dbus_header_have_message_untrusted max_ r 0 (length s)
  = (let hl := align_up (16 + fl) 8 in
     if max_ <? Z.of_nat fl then Some (inl DBUS_INVALID_INSANE_FIELDS_ARRAY_LENGTH)
     else if max_ <? Z.of_nat bl then Some (inl DBUS_INVALID_INSANE_BODY_LENGTH)
     else if max_ <? Z.of_nat (bl + hl) then Some (inl DBUS_INVALID_MESSAGE_TOO_LONG)
     else Some (inr (if (hl + bl <=? length s)%nat then Some (Lengths o fl hl bl) else None))).
Proof.
  intros Hmax Hlen Ho Ef Eb. unfold _dbus_header_have_message_untrusted. change (0 + ?x)%nat with x.
  assert (negb ((Z.of_nat 0 <? (2 ^ 31 - 1) / 2) && (0 =? align_up 0 8)%nat) = false) as -> by done. unfold BYTE_ORDER_OFFSET.
  destruct (_dbus_string_get_byte 0 r) as [b0|]; [|done]. cbn [mbind option_bind] in *. unfold order_of in Ho. rewrite Ho.
  unfold DBUS_MAXIMUM_MESSAGE_LENGTH, DBUS_MAXIMUM_ARRAY_LENGTH, FIELDS_ARRAY_LENGTH_OFFSET, BODY_LENGTH_OFFSET, FIRST_FIELD_OFFSET in *.
  rewrite (proj2 (Nat.ltb_ge _ _)) by lia. rewrite Ef. cbn [mbind option_bind]. rewrite u32_small by lia.
  cbv zeta. destruct (Z.ltb_spec max_ (Z.of_nat fl)) as [|Hfl]; [done|]. rewrite (proj2 (Nat.leb_gt _ _)) by lia. rewrite Eb. cbn [mbind option_bind].
  destruct (Z.ltb_spec max_ (Z.of_nat bl)) as [|Hbl]; [done|].
  assert (_DBUS_ALIGN_VALUE (u32 (Z.of_nat 16 + Z.of_nat fl)) 8 = Z.of_nat (align_up (16 + fl) 8)) as ->.
  { unfold align_up. rewrite u32_small by lia. rewrite Nat2Z.inj_add, Z2Nat.id; [done|].
    rewrite (align_value_mul _ 3) by lia. pose proof (Z.div_pos (Z.of_nat 16 + Z.of_nat fl + (2 ^ 3 - 1)) (2 ^ 3)). lia. }
  destruct (align_up_spec (16 + fl) 8) as [Hal _]; [alignment|]. set (hl := align_up (16 + fl) 8) in *.
  rewrite (proj2 (Z.leb_gt _ _)) by lia. rewrite u32_small by lia. rewrite Nat2Z.inj_add.
  destruct (Z.ltb_spec max_ (Z.of_nat bl + Z.of_nat hl)) as [|Htot]; [done|].
  rewrite !(proj2 (Z.ltb_lt _ (2 ^ 31 - 1))) by lia. cbn [andb negb].
  rewrite !Nat2Z.id. destruct (Nat.leb_spec (hl + bl) (length s)), (Z.leb_spec (Z.of_nat bl + Z.of_nat hl) (Z.of_nat (length s))); try lia; done.
Qed.

(** The test gives an answer. *)
Lemma have_message_answers `{Host} max_ s r :
  is_str s r → 0 <= max_ <= DBUS_MAXIMUM_MESSAGE_LENGTH → (16 <= length s)%nat →
  match _dbus_header_have_message_untrusted max_ r 0 (length s) with
  | Some (inl v) => v ≠ DBUS_VALID
  | Some (inr (Some l)) => announced r (length s) l ∧ Z.of_nat (header_len l + body_len l) <= max_ ∧ (16 <= header_len l)%nat
  | Some (inr None) => True
  | None => False
  end.
Proof.
  intros Hr Hmax Hlen. pose proof (get_byte_in 0 r ltac:(lia)) as Hb0.
  destruct (_dbus_string_get_byte 0 r ≫= order_of) as [o|] eqn:Ho.
  2: { rewrite Hb0 in Ho. unfold _dbus_header_have_message_untrusted. assert (negb ((Z.of_nat 0 <? (2 ^ 31 - 1) / 2) && (0 =? align_up 0 8)%nat) = false) as -> by done.
       change (0 + BYTE_ORDER_OFFSET)%nat with 0%nat. rewrite Hb0. cbn [mbind option_bind] in *. unfold order_of in Ho. by rewrite Ho. }
  destruct (read_u32_total s r 12 o Hr) as [fl Ef]; [change (align_up 12 4) with 12%nat; lia|].
  destruct (read_u32_total s r 4 o Hr) as [bl Eb]; [change (align_up 4 4) with 4%nat; lia|].
  pose proof (read_u32_range _ _ _ _ _ Ef) as Hfl. pose proof (read_u32_range _ _ _ _ _ Eb) as Hbl.
  rewrite <-(Z2Nat.id fl) in Ef by lia. rewrite <-(Z2Nat.id bl) in Eb by lia.
  pose proof (have_message_announced max_ r (length s)) as Hann. pose proof (have_message_eq max_ s r o _ _ _ _ Hmax Hlen Ho Ef Eb) as Eq.
  rewrite Eq in Hann |- *. cbv zeta in *. do 2 (destruct (_ <? _); [done|]).
  destruct (Z.ltb_spec max_ (Z.of_nat (Z.to_nat bl + align_up (16 + Z.to_nat fl) 8))) as [|Htot]; [done|].
  destruct (_ <=? length s)%nat; [|done]. split; [by apply Hann|]. cbn [header_len body_len].
  destruct (align_up_spec (16 + Z.to_nat fl) 8) as [Hal _]; [alignment|]. lia.
Qed.

Section queue.
Context `{Host}.

(** From [w] with the data [s], the messages [xs] were queued at the addresses [new], and
    [rest] is left. *)
Record took (w : world) (s : bytes) (w' : world) (new : list nat) (xs : list wire_message) (rest : bytes) : Prop := {
  took_good : good w';
  took_bytes : ∃ bss, mapM wm_bytes xs = Some bss ∧ s = concat bss ++ rest;
  took_valid : Forall (valid_message (max_message_size (loader w))) xs;
  took_messages : Forall2 (λ a x, ∃ y, heap w' !! a = Some y ∧ carries y x) new xs;
  took_queue : messages (loader w') = messages (loader w) ++ new;
  took_rest : is_str rest (loader_data (loader w'));
  took_max : max_message_size (loader w') = max_message_size (loader w);
  took_buffer : buffer_outstanding (loader w') = buffer_outstanding (loader w);
  took_spares : spares w w';
  took_unused : Forall (unused w) new
}.

(** Nothing more can be taken: less than a header, or not yet a whole message. *)
Definition waiting (w : world) (rest : bytes) : Prop :=
  (length rest < 16)%nat
  ∨ _dbus_header_have_message_untrusted (max_message_size (loader w)) (loader_data (loader w)) 0 (length rest) = Some (inr None).

Definition sane (L : DBusMessageLoader) : Prop := corrupted L = true ↔ corruption_reason L ≠ DBUS_VALID.

Lemma took_nothing w s w' :
  good w' → is_str s (loader_data (loader w')) → messages (loader w') = messages (loader w) →
  max_message_size (loader w') = max_message_size (loader w) → buffer_outstanding (loader w') = buffer_outstanding (loader w) →
  spares w w' → took w s w' [] [] s.
Proof.
  intros. constructor; try done; [by exists []|by rewrite app_nil_r].
Qed.

(** One message and what follows. *)
Lemma took_cons w s w1 a x w2 b w' new xs rest :
  good w → keeps w w1 → (heap w !! a = None ∨ a ∈ cached_addrs w) → (∀ c, c ≠ a → heap w2 !! c = heap w1 !! c) →
  messages (loader w2) = messages (loader w) ++ [a] → max_message_size (loader w2) = max_message_size (loader w) →
  buffer_outstanding (loader w2) = buffer_outstanding (loader w) →
  (∃ y, heap w2 !! a = Some y ∧ carries y x) → valid_message (max_message_size (loader w)) x → wm_bytes x = Some b →
  took w2 s w' new xs rest → took w (b ++ s) w' (a :: new) (x :: xs) rest.
Proof.
  intros Hgw Hk1 Ha Hh2 Hq2 Hmax Hbuf (y & Hy & Hcar) Hval Hb [Hg (bss & Ebs & Es) Hv Hms Hq Hr Hm Hbo Hk Hu].
  assert (spares w w2) as Hs2.
  { intros c z Hz Hin. pose proof (in_use _ _ _ Hgw Hz Hin) as Hnc.
    rewrite Hh2; [by apply Hk1|]. intros ->. destruct Ha as [Ha|Ha]; [congruence|done]. }
  constructor; [done| | | | |done|congruence|congruence|by eapply spares_trans|].
  - exists (b :: bss). simpl. rewrite Hb. simpl. rewrite Ebs. split; [done|]. simpl. by rewrite Es, app_assoc.
  - constructor; [done|]. by rewrite Hmax in Hv.
  - constructor; [|done]. exists y. split; [|done]. apply Hk; [done|by destruct Hcar as [[]]].
  - by rewrite Hq, Hq2, <-app_assoc.
  - constructor; [|revert Hu; apply Forall_impl; intros c; by apply unused_before]. intros z Hz.
    destruct Ha as [Ha|Ha]; [congruence|]. destruct Hgw as [_ _ Hidle _ _ _]. destruct (Hidle a Ha) as (z' & Hz' & [_ ? _ _]). congruence.
Qed.

(** The answers of the loop. *)
Definition queued (w : world) (s : bytes) (m : mem) (out : outcome world unit) : Prop :=
  match out with
  | Ok _ w' m' =>
      (∃ new xs rest, took w s w' new xs rest ∧ (corrupted (loader w') = false → waiting w' rest))
      ∧ sane (loader w') ∧ (may_fail m' → may_fail m)
  | Failed w' m' =>
      (∃ new xs rest, took w s w' new xs rest) ∧ corrupted (loader w') = false ∧ sane (loader w') ∧ may_fail m
  | Ub => False
  end.

Lemma queued_nothing w s m w' m' :
  good w' → is_str s (loader_data (loader w')) → messages (loader w') = messages (loader w) →
  max_message_size (loader w') = max_message_size (loader w) → buffer_outstanding (loader w') = buffer_outstanding (loader w) →
  spares w w' → sane (loader w') → (corrupted (loader w') = false → waiting w' s) → (may_fail m' → may_fail m) →
  queued w s m (Ok tt w' m').
Proof. intros. split; [|done]. exists [], [], s. split; [by apply took_nothing|done]. Qed.

Lemma sane_corrupt v L : v ≠ DBUS_VALID → sane (with_corruption v L).
Proof. done. Qed.

(** The message that could not be loaded is given up. *)
Lemma queue_gives_up w s m w1 a w2 m2 :
  good w → is_str s (loader_data (loader w)) → sane (loader w) → corrupted (loader w) = false →
  loader w1 = loader w → keeps w w1 → (heap w !! a = None ∨ a ∈ cached_addrs w) →
  same_cache w1 a w2 → gave_up w1 a m w2 → (may_fail m2 → may_fail m) →
  queued w s m ((dbus_message_unref a;;
                 w ← gets id;
                 if corrupted (loader w) then mret tt else fail) w2 m2).
Proof.
  intros Hg Hs Hsane Hcor Hld Hk1 Ha [_ Hh2] [Hhold Hwhy] Hm2.
  destruct (message_unref_rule w2 m2 a Hhold) as (w3 & m3 & E & Hg3 & Hl3 & Hh3 & Hm3). rewrite (at_ok _ _ _ _ _ _ _ E), at_gets.
  assert (spares w w3) as Hk3.
  { apply keeps_spares; [done|]. intros c z Hz Hnc. assert (c ≠ a) as Hne by (intros ->; destruct Ha as [Ha|Ha]; [congruence|done]).
    rewrite Hh3, Hh2 by done. by apply Hk1. }
  rewrite Hl3. destruct Hwhy as [[Hl2 Hm]|(v & Hv & Hl2)]; rewrite Hl2, Hld in *.
  - rewrite Hcor. split; [|by rewrite Hl3]. exists [], [], s. by apply took_nothing; rewrite ?Hl3.
  - apply queued_nothing; rewrite ?Hl3; try done. auto.
Qed.

Lemma queue_loop_rule n : ∀ w s m,
  good w → is_str s (loader_data (loader w)) → no_misnested s → sane (loader w) →
  0 <= max_message_size (loader w) <= DBUS_MAXIMUM_MESSAGE_LENGTH → (length s < n)%nat →
  queued w s m (queue_loop n w m).
Proof.
  induction n as [|n IH]; intros w s m Hg Hs Hnest Hsane Hmax Hn; [lia|]. cbn [queue_loop]. rewrite at_gets.
  destruct (corrupted (loader w)) eqn:Hcor; cbn [orb].
  { apply queued_nothing; auto using spares_refl. by rewrite Hcor. }
  rewrite <-(is_str_length _ _ Hs). destruct (Nat.leb_spec DBUS_MINIMUM_HEADER_SIZE (length s)) as [Hlen|Hlen]; cbn [negb].
  2: { apply queued_nothing; auto using spares_refl. intros _. by left. }
  pose proof (have_message_answers _ s _ Hs Hmax Hlen) as Hans.
  destruct (_dbus_header_have_message_untrusted _ _ 0 (length s)) as [[v|[l|]]|] eqn:Eh; [..|done].
  - rewrite (at_checked _ _ _ _ _ eq_refl). apply queued_nothing; try done; [by destruct Hg|by intros b x].
  - rewrite (at_checked _ _ _ _ _ eq_refl). destruct Hans as (Hann & Htot & Hhl).
    pose proof (new_message_rule w m Hg) as Hnew. unfold mbind at 1, M_bind at 1.
    destruct (dbus_message_new_empty_header w m) as [a w1 m1|w1 m1|]; [..|done].
    2: { destruct Hnew as [-> Hm]. split; [|done]. exists [], [], s. by apply took_nothing; auto using spares_refl. }
    destruct Hnew as (Hhold & Hld & Hk1 & Ha & Hsub & Hm1).
    assert (is_str s (loader_data (loader w1))) as Hs1 by by rewrite Hld.
    destruct (load_message_rule w1 a s l Hhold Hs1 Hnest ltac:(by rewrite Hld) ltac:(by rewrite Hld) _ Htot m1)
      as (b & w2 & m2 & E & Hm2 & Hsame & Hres).
    rewrite (at_ok _ _ _ _ _ _ _ E). destruct b.
    + destruct Hres as (x & d & y & Hg2 & Hl2 & Hd & Hy & Hcar & Hval & Hbytes).
      assert (header_len l + body_len l <= length s)%nat as Hroom by by destruct Hann.
      specialize (IH w2 (drop (header_len l + body_len l) s) m2 Hg2). rewrite Hl2, Hld in IH.
      specialize (IH Hd (no_misnested_drop _ _ Hnest) Hsane Hmax). rewrite length_drop in IH. specialize (IH ltac:(lia)).
      assert (∀ w' new xs rest, took w2 (drop (header_len l + body_len l) s) w' new xs rest → took w s w' (a :: new) (x :: xs) rest) as Hcons.
      { intros w' new xs rest Ht. rewrite <-(take_drop (header_len l + body_len l) s). destruct Hsame as [Hsc Hsh].
        eapply (took_cons w _ w1 a x w2); try done; [by rewrite Hl2, Hld..|]. by exists y. }
      destruct (queue_loop n w2 m2) as [[] w' m'|w' m'|]; [..|done].
      * destruct IH as [(new & xs & rest & Ht & Hw) [Hsn Hm]]. split; [|split; [done|auto]]. exists (a :: new), (x :: xs), rest. auto.
      * destruct IH as [(new & xs & rest & Ht) (Hc' & Hsn & Hm)]. split; [|split; [done|split; [done|auto]]].
        exists (a :: new), (x :: xs), rest. auto.
    + eapply (queue_gives_up w s m w1 a w2 m2); try done; [|auto]. destruct Hres as [Hh2 [[Hl2 Hm]|Hv]]; split; [done| |done|by right].
      left. auto.
  - rewrite (at_checked _ _ _ _ _ eq_refl). apply queued_nothing; auto using spares_refl. intros _. by right.
Qed.

End queue.

(** ** Valid messages are taken *)

Lemma order_of_byte o : order_of (order_byte o) = Some o.
Proof. by destruct o. Qed.

Section taking.
Context `{Host}.
Context (x : wire_message) (bs b rest : bytes) (max_ : Z).
Hypothesis Hmax : 0 <= max_ <= DBUS_MAXIMUM_MESSAGE_LENGTH.
Hypothesis Hbs : header_bytes (wm_order x) (wm_header x) = Some bs.
Hypothesis Hb : wm_body x = Some b.
Hypothesis Hval : valid_message max_ x.

Abbreviation head := (bs ++ padding (length bs) 8).
Abbreviation s := (bs ++ padding (length bs) 8 ++ b ++ rest).
Abbreviation o := (wm_order x).

Lemma head_is : wm_head x = Some head.
Proof. unfold wm_head. by rewrite Hbs. Qed.

(** The lengths that are announced. *)
Definition lengths_of : message_lengths := Lengths o (length bs - 16) (length head) (length b).

(** The answer needs the fixed part of the header only. *)
Lemma wire_answers (s' : bytes) r :
  is_str s' r → (16 <= length s')%nat → take 16 s' = take 16 bs →
  _dbus_header_have_message_untrusted max_ r 0 (length s')
  = Some (inr (if (length head + length b <=? length s')%nat then Some lengths_of else None)).
Proof.
  intros Hr H16 Heq. destruct Hval as [Hord _ (a' & b' & Ha' & Hb' & Hbl & Htot)].
  rewrite head_is in Ha'. injection Ha' as <-. rewrite Hb in Hb'. injection Hb' as <-. rewrite length_app in Htot.
  destruct (header_parts _ _ _ Hbs) as (xs & _ & Hxs & Hbr & _ & Ebs).
  assert (holds (str r) (length s') 0 (take 16 bs)) as Hh.
  { destruct (is_str_split _ _ Hr) as [q Hq]. rewrite <-Heq. unfold holds, sub. rewrite drop_0, length_take.
    split; [|lia]. rewrite Hq, (take_app_le s') by lia. f_equal. lia. }
  assert (take 16 bs = [hv_order (wm_header x)] ++ [hv_type (wm_header x); hv_flags (wm_header x); hv_version (wm_header x)]
    ++ octets o 4 (hv_body_len (wm_header x)) ++ octets o 4 (hv_serial (wm_header x)) ++ octets o 4 (Z.of_nat (length xs))) as E16.
  { rewrite Ebs, !app_assoc. apply take_app_length'. by rewrite !length_app, !length_octets. }
  assert (length bs = 16 + length xs)%nat as Hlen by (rewrite Ebs, !length_app, !length_octets; simpl; lia).
  rewrite E16 in Hh. pose proof (holds_app _ _ (is_str_block _ _ Hr)) as Happ.
  apply Happ in Hh as [H0 Hh]. apply Happ in Hh as [_ Hh]. apply Happ in Hh as [H4 Hh]. apply Happ in Hh as [_ Hx].
  rewrite !length_octets in Hx. cbn [length Nat.add] in H4, Hx.
  pose proof (get_byte_held r s' Hr _ _ H0) as E0.
  pose proof (read_length r o s' Hr 12 (Z.of_nat (length xs)) ltac:(unfold DBUS_MAXIMUM_ARRAY_LENGTH in *; lia) Hx) as E12.
  pose proof (read_length r o s' Hr 4 _ Hbr H4) as E4. rewrite Hbl in E4.
  assert (align_up (16 + length xs) 8 = length head) as Ehl.
  { rewrite <-Hlen, length_app. by rewrite align_up_pad by alignment. }
  assert (_dbus_string_get_byte 0 r ≫= order_of = Some o) as Eo by (by rewrite E0, Hord; apply order_of_byte).
  rewrite (have_message_eq max_ s' r o (length xs) (length b) _ _ Hmax H16 Eo E12 E4). rewrite Ehl. cbv zeta.
  assert (16 + length xs <= length head)%nat as Hle by (rewrite length_app, Hlen; lia).
  rewrite !(proj2 (Z.ltb_ge max_ _)) by lia. do 2 f_equal.
  unfold lengths_of. by replace (length bs - 16)%nat with (length xs) by lia.
Qed.

Lemma fixed_part : (16 <= length bs)%nat.
Proof.
  destruct (header_parts _ _ _ Hbs) as (xs & _ & _ & _ & _ & ->). rewrite !length_app, !length_octets. simpl. lia.
Qed.

Lemma wire_announces r :
  is_str s r → _dbus_header_have_message_untrusted max_ r 0 (length s) = Some (inr (Some lengths_of)).
Proof.
  intros Hr. pose proof fixed_part. rewrite wire_answers; [|done|rewrite length_app; lia|by rewrite take_app_le].
  rewrite (proj2 (Nat.leb_le _ _)); [done|]. rewrite !length_app. lia.
Qed.

(** The body of the message. *)
Lemma body_taken r pre post m :
  is_str s r → sig_ok accepted_key (signature_of (wm_header x)) = true → byte_at post 0 = x00 → ¬ may_fail m →
  ∃ m', _dbus_validate_body_with_reason (pre ++ print_sig (signature_of (wm_header x)) ++ post) (length pre) o false
          r (length head) (length b) m = Some (inr 0%nat, m') ∧ ¬ may_fail m'.
Proof.
  intros Hr Hok Hpost Hm.
  assert (enc_fields o (wm_values x) (signature_of (wm_header x)) (length head) = Some b) as E.
  { destruct (align_up_spec (length bs) 8) as [_ Hmod]; [alignment|]. apply Nat.Div0.div_exact in Hmod.
    rewrite length_app, <-align_up_pad, Hmod, <-(Nat.add_0_r (8 * _)) by alignment. rewrite enc_fields_shift. exact Hb. }
  pose proof (body_complete_rule pre post (signature_of (wm_header x)) (wm_values x) head b rest o r m Hok Hpost E) as Hc.
  rewrite <-!app_assoc in Hc. destruct (Hc Hr) as [(m' & E' & Hm')|(m' & _ & Hm')]; [|done]. exists m'. split; [done|auto].
Qed.

Lemma load_message_taken w a m :
  holding w a blank → is_str s (loader_data (loader w)) → corrupted (loader w) = false → ¬ may_fail m →
  ∃ w' m' d y, load_message a lengths_of w m = Ok true w' m' ∧ ¬ may_fail m' ∧ same_cache w a w' ∧ good w'
    ∧ loader w' = with_messages (λ ms, ms ++ [a]) (with_data d (loader w)) ∧ is_str rest d
    ∧ heap w' !! a = Some y ∧ carries y x.
Proof.
  intros Hhold Hs Hcor Hm. pose proof (have_message_announced _ _ _ _ (wire_announces _ Hs)) as Hann.
  pose proof Hhold as [Hg Hq Hc (x0 & Hx0 & Hblank)]. pose proof Hblank as (_ & _ & Hun & _). destruct Hval as [_ Hverd _].
  pose proof (load_complete s bs (b ++ rest) (wm_header x) _ lengths_of (msg_header x0) m eq_refl Hs Hbs Hann Hun) as Hload.
  destruct (_dbus_header_load _ _ _ _ _ (msg_header x0) m) as [v h m1| |] eqn:Eload; [|done..].
  destruct Hload as [(Ev & Hshow & Hm1)|[_ Hfail]]; [|done]. rewrite Hverd in Ev. subst v. specialize (Hshow eq_refl).
  rewrite (load_start w a s lengths_of Hs Hann x0 _ h m m1 Hx0 Hblank Eload).
  rewrite decide_False by done. rewrite decide_False by (intros Hx; by apply Hx).
  rewrite (at_set_message a (with_header h x0)) by apply set_at_same. set (y := with_byte_order _ (with_header h x0)).
  change (with_heap (insert a y) ?v) with (set_at a y v). rewrite set_at_twice.
  destruct (header_loaded lengths_of x0 h _ (wm_header x) Hblank Hshow eq_refl) as (Hly & Hby & Hlh). fold y in Hly, Hby, Hlh.
  destruct (signature_rule a y _ (wm_header x) (set_at a y w) m1 (set_at_same _ _ _) Hshow) as (pre & post & Esig & Hpost & Hok).
  rewrite (at_ok _ _ _ _ _ _ _ Esig). clear Esig.
  destruct (body_taken _ pre post m1 Hs Hok Hpost ltac:(auto)) as (m2 & Ebody & Hm2).
  unfold mbind at 1, M_bind at 1. cbn [header_len body_len lengths_of claimed_order]. rewrite Ebody.
  destruct (tail_rule w a s lengths_of Hhold Hs Hann Hcor y m2 m2 Hly Hby Hlh ltac:(done)) as (c & w' & m' & Etail & Hm' & Hsame & Hend).
  destruct c; [|by destruct Hend]. destruct Hend as (c & d & Hg' & Hl' & Hd' & Hy' & Hc').
  assert (drop (length head + length b) s = rest) as Edrop.
  { rewrite (app_assoc bs), (app_assoc _ b), <-length_app. apply drop_app_length. }
  assert (sub s (length head) (length b) = b) as Esub.
  { unfold sub. by rewrite (app_assoc bs), drop_app_length, take_app_length. }
  cbn [header_len body_len lengths_of] in Hd', Hc'. rewrite Edrop in Hd'. rewrite Esub in Hc'.
  exists w', m', d, (with_body c y). split; [exact Etail|]. split; [auto|]. do 5 (split; [done|]).
  constructor; [destruct Hly; constructor; try done; by eexists|done| |by exists b].
  exists head. split; [apply head_is|done].
Qed.

End taking.

Section takes.
Context `{Host}.

Lemma wm_bytes_split x t :
  wm_bytes x = Some t → ∃ bs b, header_bytes (wm_order x) (wm_header x) = Some bs ∧ wm_body x = Some b
    ∧ t = bs ++ padding (length bs) 8 ++ b ∧ (16 <= length bs)%nat.
Proof.
  unfold wm_bytes, wm_head. destruct (header_bytes _ _) as [bs|] eqn:E; [|done]. simpl. destruct (wm_body x) as [b|]; [|done].
  intros [= <-]. exists bs, b. rewrite <-app_assoc. do 3 (split; [done|]).
  destruct (header_parts _ _ _ E) as (x' & _ & _ & _ & _ & ->). rewrite !length_app, !length_octets. simpl. lia.
Qed.

(** One turn with a valid message at the front. *)
Lemma queue_turn n w x t rest m :
  good w → is_str (t ++ rest) (loader_data (loader w)) → corrupted (loader w) = false →
  0 <= max_message_size (loader w) <= DBUS_MAXIMUM_MESSAGE_LENGTH → ¬ may_fail m →
  wm_bytes x = Some t → valid_message (max_message_size (loader w)) x →
  ∃ a w2 m2 d, queue_loop (S n) w m = queue_loop n w2 m2 ∧ ¬ may_fail m2 ∧ good w2
    ∧ loader w2 = with_messages (λ ms, ms ++ [a]) (with_data d (loader w)) ∧ is_str rest d
    ∧ ∀ w' new xs rest', took w2 rest w' new xs rest' → took w (t ++ rest) w' (a :: new) (x :: xs) rest'.
Proof.
  intros Hg Hs Hcor Hmax Hm Ht Hval. destruct (wm_bytes_split x t Ht) as (bs & b & Hbs & Hb & -> & H16).
  rewrite <-!app_assoc in *. pose proof (wire_announces x bs b rest _ Hmax Hbs Hb Hval _ Hs) as Eh.
  cbn [queue_loop]. rewrite at_gets, Hcor. cbn [orb]. rewrite <-(is_str_length _ _ Hs).
  rewrite (proj2 (Nat.leb_le _ _)) by (rewrite length_app; unfold DBUS_MINIMUM_HEADER_SIZE; lia). cbn [negb].
  rewrite (at_checked _ _ _ _ _ Eh). pose proof (new_message_rule w m Hg) as Hnew. unfold mbind at 1, M_bind at 1.
  destruct (dbus_message_new_empty_header w m) as [a w1 m1|w1 m1|]; [|by destruct Hnew|done].
  destruct Hnew as (Hhold & Hld & Hk1 & Ha & Hsub & Hm1).
  destruct (load_message_taken x bs b rest _ Hmax Hbs Hb Hval w1 a m1 Hhold) as (w2 & m2 & d & y & E & Hm2 & Hsame & Hg2 & Hl2 & Hd & Hy & Hcar);
    [by rewrite Hld|by rewrite Hld|auto|].
  rewrite Hld in Hl2. exists a, w2, m2, d. rewrite (at_ok _ _ _ _ _ _ _ E). do 5 (split; [done|]).
  intros w' new xs rest' Htook. destruct Hsame as [Hsc Hsh].
  assert (bs ++ padding (length bs) 8 ++ b ++ rest = (bs ++ padding (length bs) 8 ++ b) ++ rest) as -> by by rewrite <-!app_assoc.
  eapply (took_cons w _ w1 a x w2); try done; [by rewrite Hl2..|]. by exists y.
Qed.
(** All the valid messages at the front are taken, when there is memory. *)
Lemma queue_takes xs : ∀ n w bss rest m,
  good w → is_str (concat bss ++ rest) (loader_data (loader w)) →
  corrupted (loader w) = false → sane (loader w) → 0 <= max_message_size (loader w) <= DBUS_MAXIMUM_MESSAGE_LENGTH → ¬ may_fail m →
  mapM wm_bytes xs = Some bss → Forall (valid_message (max_message_size (loader w))) xs →
  (length (concat bss ++ rest) < n)%nat →
  ∃ n' w2 m2 new, queue_loop n w m = queue_loop n' w2 m2 ∧ (length rest < n')%nat ∧ ¬ may_fail m2
    ∧ took w (concat bss ++ rest) w2 new xs rest ∧ corrupted (loader w2) = false ∧ sane (loader w2).
Proof.
  induction xs as [|x xs IH]; intros n w bss rest m Hg Hs Hcor Hsane Hmax Hm Hbss Hval Hn.
  { injection Hbss as <-. exists n, w, m, []. do 3 (split; [done|]). split; [|done]. by apply took_nothing; auto using spares_refl. }
  apply mapM_Some in Hbss as Hall. inversion Hall as [|? t ? bss' Ht Hall' Ex Ebss]. subst bss. clear Hall Ex.
  apply list.Forall_cons in Hval as [Hx Hxs]. apply mapM_Some in Hall'. simpl in *. rewrite <-app_assoc in *.
  destruct n as [|n]; [lia|]. destruct (queue_turn n w x t (concat bss' ++ rest) m Hg Hs Hcor Hmax Hm Ht Hx)
    as (a & w2 & m2 & d & E & Hm2 & Hg2 & Hl2 & Hd & Htook).
  destruct (wm_bytes_split x t Ht) as (bs & b & _ & _ & Et & H16).
  destruct (IH n w2 bss' rest m2 Hg2) as (n' & w3 & m3 & new & E3 & Hn' & Hm3 & Ht3 & Hcor3 & Hsane3); rewrite ?Hl2; try done.
  { rewrite length_app in Hn. rewrite Et, length_app in Hn. lia. }
  exists n', w3, m3, (a :: new). rewrite E, E3. do 3 (split; [done|]). split; [by apply Htook|done].
Qed.

(** A message of which a part is missing is waited for. *)
Definition partial (max_ : Z) (rest : bytes) : Prop :=
  rest = [] ∨ ∃ x t more, valid_message max_ x ∧ wm_bytes x = Some t ∧ t = rest ++ more ∧ more ≠ [].

Lemma partial_waits w rest :
  is_str rest (loader_data (loader w)) → 0 <= max_message_size (loader w) <= DBUS_MAXIMUM_MESSAGE_LENGTH →
  partial (max_message_size (loader w)) rest → waiting w rest.
Proof.
  intros Hs Hmax Hpart. destruct (decide (length rest < 16)%nat) as [|H16%Nat.nlt_ge]; [by left|right].
  destruct Hpart as [-> |(x & t & more & Hval & Ht & Eq & Hmore)]; [simpl in H16; lia|].
  destruct (wm_bytes_split x t Ht) as (bs & b & Hbs & Hb & -> & Hl).
  assert (take 16 rest = take 16 bs) as Heq.
  { pose proof (f_equal (take 16) Eq) as Et. by rewrite !take_app_le in Et. }
  rewrite (wire_answers x bs b _ Hmax Hbs Hb Hval rest _ Hs H16 Heq).
  rewrite (proj2 (Nat.leb_gt _ _)); [done|]. apply (f_equal length) in Eq. rewrite !length_app in Eq.
  destruct more; [done|]. rewrite length_app. simpl in Eq. lia.
Qed.

Lemma queue_waits n w rest m :
  is_str rest (loader_data (loader w)) → corrupted (loader w) = false → waiting w rest → queue_loop (S n) w m = Ok tt w m.
Proof.
  intros Hs Hcor Hwait. cbn [queue_loop]. rewrite at_gets, Hcor. cbn [orb]. rewrite <-(is_str_length _ _ Hs).
  destruct (Nat.leb_spec DBUS_MINIMUM_HEADER_SIZE (length rest)) as [H16|]; [|done]. unfold DBUS_MINIMUM_HEADER_SIZE in *. cbn [negb].
  destruct Hwait as [|Hnone]; [lia|]. by rewrite (at_checked _ _ _ _ _ Hnone).
Qed.

(** Nothing is left that could be taken. *)
Definition drained (max_ : Z) (rest : bytes) : Prop :=
  ∀ x t q, valid_message max_ x → wm_bytes x = Some t → rest ≠ t ++ q.

Lemma waiting_drained w rest :
  is_str rest (loader_data (loader w)) → 0 <= max_message_size (loader w) <= DBUS_MAXIMUM_MESSAGE_LENGTH →
  waiting w rest → drained (max_message_size (loader w)) rest.
Proof.
  intros Hs Hmax Hwait x t q Hval Ht ->. destruct (wm_bytes_split x t Ht) as (bs & b & Hbs & Hb & -> & Hl).
  destruct Hwait as [Hshort|Hnone]; [rewrite !length_app in Hshort; lia|]. rewrite <-!app_assoc in *.
  by rewrite (wire_announces x bs b q _ Hmax Hbs Hb Hval _ Hs) in Hnone.
Qed.

(** *** Data that come in pieces *)

(** What a transport does with the bytes it read. *)
Definition take_chunk (text : bytes) : LM unit :=
  _dbus_message_loader_get_buffer;;
  on_buffer (append text);;
  _dbus_message_loader_return_buffer;;
  _dbus_message_loader_queue_messages.

Fixpoint take_chunks (l : list bytes) : LM unit :=
  match l with
  | [] => mret tt
  | text :: l' => take_chunk text;; take_chunks l'
  end.

(** A part of the stream is whole messages and a part of the next one. *)
Lemma stream_split max_ rest q xs : ∀ bss p,
  mapM wm_bytes xs = Some bss → Forall (valid_message max_) xs → partial max_ rest → concat bss ++ rest = p ++ q →
  ∃ xs1 xs2 bss1 bss2 rest1, xs = xs1 ++ xs2 ∧ mapM wm_bytes xs1 = Some bss1 ∧ mapM wm_bytes xs2 = Some bss2
    ∧ p = concat bss1 ++ rest1 ∧ rest1 ++ q = concat bss2 ++ rest ∧ partial max_ rest1.
Proof.
  induction xs as [|x xs IH]; intros bss p Hbss Hval Hpart E.
  { injection Hbss as <-. simpl in E. subst rest. exists [], [], [], [], p. do 5 (split; [done|]).
    destruct Hpart as [[-> _]%app_nil|(x & t & more & Hx & Ht & -> & Hmore)]; [by left|]. right.
    exists x, (p ++ q ++ more), (q ++ more). rewrite <-app_assoc in Ht. do 3 (split; [done|]). by intros [_ ?]%app_nil. }
  apply mapM_Some in Hbss as Hall. inversion Hall as [|? t ? bss' Ht Hall' Ex Ebss]. subst bss. clear Hall Ex.
  apply mapM_Some in Hall'. apply list.Forall_cons in Hval as [Hx Hxs]. simpl in E. rewrite <-app_assoc in E.
  apply app_eq_inv in E as [(k & Ep & Eq)|(k & Et & Eq)].
  - destruct k as [|c k].
    + rewrite app_nil_r in Ep. subst p. simpl in Eq. subst q. exists [x], xs, [t], bss', []. simpl. rewrite Ht. simpl.
      rewrite !app_nil_r. do 5 (split; [done|]). by left.
    + exists [], (x :: xs), [], (t :: bss'), p. split; [done|]. split; [done|]. simpl. rewrite Ht, Hall'. do 2 (split; [done|]). rewrite Eq, Ep, <-!app_assoc. split; [done|].
      right. by exists x, t, (c :: k).
  - destruct (IH bss' k Hall' Hxs Hpart Eq) as (xs1 & xs2 & bss1 & bss2 & rest1 & -> & E1 & E2 & -> & Er & Hp).
    exists (x :: xs1), xs2, (t :: bss1), bss2, rest1. simpl. rewrite Ht, E1. simpl. by rewrite Et, app_assoc.
Qed.

Lemma took_trans w s q w1 new1 xs1 r1 w2 new2 xs2 r2 :
  took w s w1 new1 xs1 r1 → took w1 (r1 ++ q) w2 new2 xs2 r2 → took w (s ++ q) w2 (new1 ++ new2) (xs1 ++ xs2) r2.
Proof.
  intros [Hg1 (b1 & E1 & ->) Hv1 Hm1 Hq1 _ Hx1 Hb1 Hs1 Hu1] [Hg2 (b2 & E2 & Es) Hv2 Hm2 Hq2 Hr2 Hx2 Hb2 Hs2 Hu2].
  constructor; [done| | | | |done|congruence|congruence|by eapply spares_trans|].
  - exists (b1 ++ b2). split; [|by rewrite concat_app, <-!app_assoc, Es].
    apply mapM_Some. apply Forall2_app; by apply mapM_Some.
  - apply Forall_app. split; [done|]. by rewrite Hx1 in Hv2.
  - apply Forall2_app; [|done]. revert Hm1. apply Forall2_impl. intros a x (y & Hy & Hc). exists y. split; [|done].
    apply Hs2; [done|]. by destruct Hc as [[]].
  - by rewrite Hq2, Hq1, app_assoc.
  - apply Forall_app. split; [done|]. revert Hu2. apply Forall_impl. intros a. by apply unused_before.
Qed.

(** A loader between two reads. *)
Record ready (w : world) (rest : bytes) : Prop := {
  ready_good : good w;
  ready_data : is_str rest (loader_data (loader w));
  ready_buffer : buffer_outstanding (loader w) = false;
  ready_clean : corrupted (loader w) = false;
  ready_reason : corruption_reason (loader w) = DBUS_VALID;
  ready_max : 0 <= max_message_size (loader w) <= DBUS_MAXIMUM_MESSAGE_LENGTH
}.

Lemma ready_sane w rest : ready w rest → sane (loader w).
Proof. intros [_ _ _ Hc Hr _]. unfold sane. by rewrite Hc, Hr. Qed.

Lemma took_ready w rest s w' new xs rest' :
  ready w rest → took w s w' new xs rest' → corrupted (loader w') = false → sane (loader w') → ready w' rest'.
Proof.
  intros [_ _ Hb _ _ Hmax] [Hg _ _ _ _ Hr Hx Hb' _ _] Hc Hsn. constructor; try done; [by rewrite Hb'| |by rewrite Hx].
  destruct (decide (corruption_reason (loader w') = DBUS_VALID)) as [|Hne]; [done|]. apply Hsn in Hne. congruence.
Qed.

Lemma partial_bound max_ rest : 0 <= max_ → partial max_ rest → Z.of_nat (length rest) <= max_.
Proof.
  intros Hmax [-> |(x & t & more & [_ _ (a & b & Ha & Hb & _ & Hle)] & Ht & -> & _)]; [done|].
  unfold wm_bytes in Ht. rewrite Ha, Hb in Ht. injection Ht as Ht. rewrite Ht, length_app in Hle. lia.
Qed.

(** The size of a read, which leaves room for the part of a message that is there. *)
Definition chunk_limit : Z := 2 ^ 30.

Lemma get_buffer_run w m :
  buffer_outstanding (loader w) = false →
  _dbus_message_loader_get_buffer w m = Ok tt (with_loader (with_buffer_outstanding true) w) m.
Proof. intros Hb. unfold _dbus_message_loader_get_buffer. rewrite at_gets. by rewrite at_assert by (by rewrite Hb). Qed.

Lemma return_buffer_run w m :
  buffer_outstanding (loader w) = true →
  _dbus_message_loader_return_buffer w m = Ok tt (with_loader (with_buffer_outstanding false) w) m.
Proof. intros Hb. unfold _dbus_message_loader_return_buffer. rewrite at_gets. by rewrite at_assert. Qed.

(** Bytes are put into the buffer. *)
Lemma fill_rule w rest0 c m :
  ready w rest0 → Z.of_nat (length rest0) <= DBUS_MAXIMUM_MESSAGE_LENGTH → Z.of_nat (length c) <= chunk_limit → ¬ may_fail m →
  ∃ d m', ¬ may_fail m' ∧ take_chunk c w m = _dbus_message_loader_queue_messages (with_loader (with_data d) w) m'
    ∧ ready (with_loader (with_data d) w) (rest0 ++ c).
Proof.
  intros [Hg Hs Hbuf Hclean Hreason Hmax] H0 Hc Hm. unfold take_chunk. rewrite (at_ok _ _ _ _ _ _ _ (get_buffer_run w m Hbuf)).
  pose proof (append_ok rest0 c (loader_data (loader w)) m Hs) as Happ. unfold mbind at 1, M_bind at 1. rewrite on_buffer_run.
  change (loader_data (loader (with_loader (with_buffer_outstanding true) w))) with (loader_data (loader w)).
  destruct (append c (loader_data (loader w)) m) as [[] d m'|d m'|]; [| |done].
  - destruct Happ as [[_ Hd] Hm']. exists d, m'. split; [auto|].
    rewrite (at_ok _ _ _ _ _ _ _ (return_buffer_run (with_loader (with_data d) (with_loader (with_buffer_outstanding true) w)) m' eq_refl)). split; [|by destruct Hg; constructor].
    destruct w as [h cc n r [d0 ms mx bo co re]]. simpl in *. by rewrite Hbuf.
  - exfalso. destruct Happ as [_ [Hx|Hx]]; [done|]. unfold too_long, chunk_limit, DBUS_MAXIMUM_MESSAGE_LENGTH, DBUS_MAXIMUM_ARRAY_LENGTH in *.
    rewrite length_app in Hx. change _DBUS_STRING_MAX_MAX_LENGTH with 2147483639 in Hx. lia.
Qed.

Lemma take_chunk_takes w rest0 c xs bss rest m :
  ready w rest0 → partial (max_message_size (loader w)) rest0 → Z.of_nat (length c) <= chunk_limit → ¬ may_fail m →
  rest0 ++ c = concat bss ++ rest → mapM wm_bytes xs = Some bss → Forall (valid_message (max_message_size (loader w))) xs →
  partial (max_message_size (loader w)) rest →
  ∃ w' m' new, take_chunk c w m = Ok tt w' m' ∧ ¬ may_fail m' ∧ took w (rest0 ++ c) w' new xs rest ∧ ready w' rest.
Proof.
  intros Hready Hp0 Hc Hm Es Hbss Hval Hpart. pose proof (ready_sane _ _ Hready) as Hsane. pose proof Hready as [Hg Hs Hbuf Hclean _ Hmax].
  pose proof (partial_bound _ _ (proj1 Hmax) Hp0) as Hl0. destruct (fill_rule w rest0 c m Hready ltac:(lia) Hc Hm) as (d & m1 & Hm1 & E & Hr1).
  rewrite E. set (w1 := with_loader (with_data d) w) in *. pose proof Hr1 as [Hg1 Hs1 Hb1 Hc1 _ Hx1]. rewrite Es in Hs1.
  unfold _dbus_message_loader_queue_messages. rewrite at_gets. rewrite <-(is_str_length _ _ Hs1).
  destruct (queue_takes xs (S (length (concat bss ++ rest))) w1 bss rest m1 Hg1 Hs1 Hc1 (ready_sane _ _ Hr1) Hx1 Hm1 Hbss Hval ltac:(lia))
    as (n' & w2 & m2 & new & E2 & Hn' & Hm2 & Htook & Hc2 & Hsane2).
  rewrite E2. destruct n' as [|n']; [lia|]. pose proof (took_ready _ _ _ _ _ _ _ Hr1 Htook Hc2 Hsane2) as Hr2.
  exists w2, m2, new. rewrite (queue_waits n' w2 rest m2); [|by destruct Hr2..|apply partial_waits; [by destruct Hr2..|by rewrite (took_max _ _ _ _ _ _ Htook)]].
  split; [done|]. split; [done|]. split; [|done]. rewrite Es. by destruct Htook; constructor.
Qed.

Lemma take_chunks_takes l : ∀ w rest0 xs bss rest m,
  ready w rest0 → partial (max_message_size (loader w)) rest0 → Forall (λ c, Z.of_nat (length c) <= chunk_limit) l → ¬ may_fail m →
  rest0 ++ concat l = concat bss ++ rest → mapM wm_bytes xs = Some bss → Forall (valid_message (max_message_size (loader w))) xs →
  partial (max_message_size (loader w)) rest →
  ∃ w' m' new, take_chunks l w m = Ok tt w' m' ∧ took w (rest0 ++ concat l) w' new xs rest ∧ ready w' rest.
Proof.
  induction l as [|c l IH]; intros w rest0 xs bss rest m Hr Hp0 Hl Hm Es Hbss Hval Hp.
  { simpl in *. rewrite app_nil_r in *.
    assert (xs = []) as ->.
    { destruct xs as [|x xs]; [done|]. exfalso. apply mapM_Some in Hbss. inversion Hbss as [|? t ? bss' Ht _ Ex Ebss]. subst bss.
      apply list.Forall_cons in Hval as [Hx _]. simpl in Es. rewrite <-app_assoc in Es.
      eapply waiting_drained; [..|exact Hx|exact Ht|exact Es]; [by destruct Hr..|]. by apply partial_waits; [destruct Hr..|]. }
    injection Hbss as <-. simpl in Es. subst rest. exists w, m, []. split; [done|]. split; [|done].
    by apply took_nothing; auto using spares_refl; destruct Hr. }
  apply list.Forall_cons in Hl as [Hc Hl]. simpl in Es. rewrite app_assoc in Es.
  destruct (stream_split _ _ (concat l) _ _ (rest0 ++ c) Hbss Hval Hp (eq_sym Es)) as (xs1 & xs2 & b1 & b2 & r1 & -> & E1 & E2 & E & Er & Hp1).
  apply Forall_app in Hval as [Hv1 Hv2].
  destruct (take_chunk_takes w rest0 c xs1 b1 r1 m Hr Hp0 Hc Hm E E1 Hv1 Hp1) as (w1 & m1 & new1 & Et & Hm1 & Htook & Hr1).
  pose proof (took_max _ _ _ _ _ _ Htook) as Hx1. rewrite <-Hx1 in Hp1, Hv2, Hp.
  destruct (IH w1 r1 xs2 b2 rest m1 Hr1 Hp1 Hl Hm1 Er E2 Hv2 Hp) as (w2 & m2 & new2 & Et2 & Htook2 & Hr2).
  exists w2, m2, (new1 ++ new2). cbn [take_chunks]. rewrite (at_ok _ _ _ _ _ _ _ Et). split; [done|]. split; [|done].
  simpl. rewrite app_assoc. by eapply took_trans.
Qed.

End takes.

Lemma queue_messages_rule `{Host} w s m :
  good w → is_str s (loader_data (loader w)) → no_misnested s → sane (loader w) →
  0 <= max_message_size (loader w) <= DBUS_MAXIMUM_MESSAGE_LENGTH →
  queued w s m (_dbus_message_loader_queue_messages w m).
Proof.
  intros Hg Hs Hnest Hsane Hmax. unfold _dbus_message_loader_queue_messages. rewrite at_gets.
  apply queue_loop_rule; try done. rewrite <-(is_str_length _ _ Hs). lia.
Qed.

(** ** Theorems *)

Section theorems.
Context `{Host}.

(** C6: Whatever bytes without misnested signatures a connection sent (the allowed
    size of a message is at most DBUS_MAXIMUM_MESSAGE_LENGTH), and whatever memory is refused, queueing
    terminates inside the memory of its strings and with no failing assertion.  What
    it adds to the queue are the valid messages of the front of the data, in order,
    each loaded with its own header, byte order and body; the rest of the data stays.
    Messages in use do not change.  When it returns TRUE and the loader is not
    corrupted, no valid message is left at the front; it returns FALSE only when
    memory was refused, and the loader is then not corrupted. *)
Theorem queue_messages_sound (w : world) (s : bytes) (m : mem) :
  good w → is_str s (loader_data (loader w)) → no_misnested s → sane (loader w) →
  0 <= max_message_size (loader w) <= DBUS_MAXIMUM_MESSAGE_LENGTH →
  match _dbus_message_loader_queue_messages w m with
  | Ok _ w' _ =>
      (∃ new xs rest, took w s w' new xs rest ∧ (corrupted (loader w') = false → drained (max_message_size (loader w)) rest))
      ∧ sane (loader w')
  | Failed w' _ => (∃ new xs rest, took w s w' new xs rest) ∧ corrupted (loader w') = false ∧ may_fail m
  | Ub => False
  end.
Proof.
  intros Hg Hs Hnest Hsane Hmax. pose proof (queue_messages_rule w s m Hg Hs Hnest Hsane Hmax) as Hq.
  destruct (_dbus_message_loader_queue_messages w m) as [[] w' m'|w' m'|]; [| |done].
  - destruct Hq as [(new & xs & rest & Ht & Hw) [Hsn _]]. split; [|done]. exists new, xs, rest. split; [done|]. intros Hc.
    pose proof Ht as [_ _ _ _ _ Hr Hx _ _ _]. rewrite <-Hx in Hmax |- *. apply waiting_drained; auto.
  - destruct Hq as (Ht & Hc & _ & Hm). done.
Qed.

(** C7: However the bytes are cut into reads, when there is memory the queue gets
    exactly the valid messages of the stream, in order, and a part of a message at
    its end stays in the buffer for the next read. *)
Theorem stream_is_taken (l : list bytes) (xs : list wire_message) (bss : list bytes) (rest : bytes) (w : world) (m : mem) :
  ready w [] → Forall (λ c, Z.of_nat (length c) <= chunk_limit) l → ¬ may_fail m →
  mapM wm_bytes xs = Some bss → Forall (valid_message (max_message_size (loader w))) xs →
  partial (max_message_size (loader w)) rest → concat l = concat bss ++ rest →
  ∃ w' m' new, take_chunks l w m = Ok tt w' m' ∧ took w (concat l) w' new xs rest ∧ ready w' rest.
Proof.
  intros Hr Hl Hm Hbss Hval Hp E. apply (take_chunks_takes l w [] xs bss rest m); try done. by left.
Qed.

End theorems.

(** *** Sample messages *)

(** A signal with one argument of the type [t], for which [v] of [n] bytes is sent. *)
Definition sample_message (n : Z) (t : ty) (v : val) : wire_message :=
  WireMessage DBUS_LITTLE_ENDIAN
    (HeaderValues "l" x04 x00 x01 n 7
       [sample_field 1 "o" (lit "/a"); sample_field 2 "s" (lit "a.b"); sample_field 3 "s" (lit "M");
        Field (z2b 8) (TLeaf "g") (VSignature [t])]) [v].

Definition number : wire_message := sample_message 4 (TLeaf "u") (VBasic (U32 5)).
Definition wrapped : wire_message := sample_message 8 (TLeaf "v") (VVariant (TLeaf "u") (VBasic (U32 5))).
Definition sample_bytes (x : wire_message) : bytes := default [] (wm_bytes x).

Definition idle_world (t : bytes) : world := World ∅ [] 0 false (empty_loader (concrete t)).

Lemma concrete_str t : Z.of_nat (length t) <= 2 ^ 30 → is_str t (concrete t).
Proof.
  intros Ht. split; [|apply take_app_length]. split; [done|]. unfold zlen, allocated. simpl. rewrite length_app. simpl length.
  unfold _DBUS_STRING_MAX_MAX_LENGTH, _DBUS_STRING_ALLOCATION_PADDING. split; [lia|]. split; [lia|]. apply list_lookup_middle. done.
Qed.

Lemma idle_world_ready t : Z.of_nat (length t) <= 2 ^ 30 → ready (idle_world t) t.
Proof.
  intros Ht. constructor; try done.
  - constructor; try done; [by intros ? ?%elem_of_nil..|constructor|constructor].
  - by apply concrete_str.
Qed.

Lemma number_valid max_ : 200 <= max_ → valid_message max_ number.
Proof.
  intros Hmax. constructor; [vm_compute; reflexivity..|].
  exists (default [] (wm_head number)), (default [] (wm_body number)). do 3 (split; [vm_compute; reflexivity|]).
  assert (length (default [] (wm_head number) ++ default [] (wm_body number)) = 76%nat) as ->; [vm_compute; reflexivity|lia].
Qed.

Lemma queue_messages_sound_witness :
  let host : Host := DBUS_BIG_ENDIAN in
  let s := sample_bytes number ++ lit "more" in
  let w := idle_world s in
  match _dbus_message_loader_queue_messages w plenty with
  | Ok _ w' _ =>
      (∃ new xs rest, took w s w' new xs rest ∧ (corrupted (loader w') = false → drained (max_message_size (loader w)) rest))
      ∧ sane (loader w')
  | Failed w' _ => (∃ new xs rest, took w s w' new xs rest) ∧ corrupted (loader w') = false ∧ may_fail plenty
  | Ub => False
  end.
Proof.
  intros host s w. assert (ready w s) as Hr by (apply idle_world_ready; vm_compute; discriminate).
  apply (queue_messages_sound w s plenty); [by destruct Hr..| |by apply (ready_sane w s)|by destruct Hr].
  apply no_bracket_nested. vm_compute. reflexivity.
Defined.

(** Two messages and the first byte of a third, in reads of 100 bytes and 53. *)
Lemma stream_is_taken_witness :
  let host : Host := DBUS_LITTLE_ENDIAN in
  let t := sample_bytes number in
  let w := idle_world [] in
  let l := [t ++ take 24 t; drop 24 t ++ lit "l"] in
  ∃ w' m' new, take_chunks l w plenty = Ok tt w' m' ∧ took w (concat l) w' new [number; number] (lit "l") ∧ ready w' (lit "l").
Proof.
  intros host t w l. apply (stream_is_taken l [number; number] [t; t] (lit "l")).
  - apply idle_world_ready. vm_compute. discriminate.
  - repeat constructor; vm_compute; discriminate.
  - vm_compute. by intros ?%elem_of_nil.
  - vm_compute. reflexivity.
  - repeat constructor; by apply number_valid.
  - right. exists number, t, (drop 1 t). split; [by apply number_valid|]. split; [vm_compute; reflexivity|].
    split; [vm_compute; reflexivity|vm_compute; discriminate].
  - vm_compute. reflexivity.
Defined.

(** When memory is refused while the body of a message is validated, the loader is
    marked as corrupted for good and the message is never loaded, though the message
    is valid and is loaded when there is memory. *)
Theorem body_oom_corrupts :
  let host : Host := DBUS_LITTLE_ENDIAN in
  let w := idle_world (sample_bytes wrapped) in
  match _dbus_message_loader_queue_messages w plenty with
  | Ok _ w' _ => length (messages (loader w')) = 1%nat ∧ corrupted (loader w') = false
  | Failed _ _ | Ub => False
  end
  ∧ match _dbus_message_loader_queue_messages w (fails_after 14) with
    | Ok _ w' _ =>
        messages (loader w') = [] ∧ corrupted (loader w') = true
        ∧ corruption_reason (loader w') = DBUS_VALIDITY_UNKNOWN_OOM_ERROR
        ∧ ∀ m, _dbus_message_loader_queue_messages w' m = Ok tt w' m
    | Failed _ _ | Ub => False
    end.
Proof. intros host w. split; vm_compute; repeat split. Qed.
