(* ===== verification/Whole.v ===== *)
(** * Whole: messages to blocks of bytes and back

    Theorems on [dbus_message_marshal] and [dbus_message_demarshal] of [Loader], on top of
    what [Stream] shows of the queue. *)

From stdpp Require Import gmap.
From S2P Require Import Prelude Search Names DString Text Types Signature MarshalBasic Reader Body Values Header Fields Loader Stream.

Section whole.
Context `{Host}.

Lemma at_assoc {S A B C} (c : M S A) (k : A → M S B) (h : B → M S C) s m : ((c ≫= k) ≫= h) s m = (c ≫= λ a, k a ≫= h) s m.
Proof. unfold mbind, M_bind. by destruct (c s m). Qed.

(** A new loader is empty. *)
Lemma loader_new_rule m :
  match _dbus_message_loader_new m with
  | Ok _ L m' => ∃ d, L = empty_loader d ∧ is_str [] d ∧ (may_fail m' → may_fail m)
  | Failed _ m' => may_fail m
  | Ub => False
  end.
Proof.
  unfold _dbus_message_loader_new. destruct (alloc m) as [ok m1] eqn:Em. destruct ok; [|by eapply alloc_fail]. cbn [negb].
  pose proof (init_ok m1) as Hi. pose proof (alloc_mono _ _ _ Em) as Hm1.
  destruct (_dbus_string_init m1) as [[] d m2|d m2|]; [|auto|done]. destruct Hi as [Hd Hm2].
  rewrite at_attempt. pose proof (set_length_ok INITIAL_LOADER_DATA_LEN [] d m2 Hd) as Hset.
  assert (∀ t d' m', is_str t d' → (may_fail m' → may_fail m2) →
    match attempt (set_length 0) d' m' with Ok _ d'' m3 => is_str [] d'' ∧ (may_fail m3 → may_fail m2) | _ => False end) as Hclear.
  { intros t d' m' Hd' Hm'. destruct (set_length_shrink 0 t d' m' Hd' ltac:(lia)) as (d'' & E & Hd''). unfold attempt. by rewrite E. }
  destruct (set_length _ d m2) as [[] d' m3|d' m3|]; [| |done].
  - destruct Hset as [(j & Hj & _) Hm3]. specialize (Hclear _ d' m3 Hj Hm3).
    destruct (attempt _ d' m3) as [b d'' m4| |]; [|done..]. destruct Hclear as [Hd'' Hm4]. exists d''. do 2 (split; [done|]). auto.
  - destruct Hset as [Hd' [Hm3|Hm3]]; [|done]. specialize (Hclear _ d' m3 Hd' ltac:(done)).
    destruct (attempt _ d' m3) as [b d'' m4| |]; [|done..]. destruct Hclear as [Hd'' Hm4]. exists d''. do 2 (split; [done|]). auto.
Qed.

(** *** Operations that do not look at the loader *)

Definition frames {A} (c : LM A) : Prop := ∀ L w m,
  c (with_loader (λ _, L) w) m
  = match c w m with
    | Ok v w' m' => Ok v (with_loader (λ _, L) w') m'
    | Failed w' m' => Failed (with_loader (λ _, L) w') m'
    | Ub => Ub
    end.

Lemma frames_bind {A B} (c : LM A) (k : A → LM B) : frames c → (∀ v, frames (k v)) → frames (c ≫= k).
Proof. intros Hc Hk L w m. unfold mbind, M_bind. rewrite Hc. destruct (c w m); [apply Hk|done..]. Qed.

Lemma frames_gets {B} (k : world → LM B) :
  (∀ L w, k (with_loader (λ _, L) w) = k w) → (∀ w, frames (k w)) → frames (gets id ≫= k).
Proof. intros Hk Hf L w m. rewrite !at_gets, Hk. apply Hf. Qed.

Lemma frames_modify f : (∀ L w, f (with_loader (λ _, L) w) = with_loader (λ _, L) (f w)) → frames (modify f).
Proof. intros Hf L w m. unfold modify. by rewrite Hf. Qed.

Lemma frames_attempt {A} (c : LM A) : frames c → frames (attempt c).
Proof. intros Hc L w m. unfold attempt. rewrite Hc. by destruct (c w m). Qed.

Lemma frames_request : frames request.
Proof. intros L w m. unfold request. destruct (alloc m) as [[] m']; done. Qed.

Lemma frames_if {A} (b : bool) (c d : LM A) : frames c → frames d → frames (if b then c else d).
Proof. by destruct b. Qed.

Lemma frames_checked {A} (o : option A) : frames (checked o).
Proof. intros L w m. by destruct o. Qed.

Lemma frames_ret {A} (v : A) : frames (mret v).
Proof. by intros L w m. Qed.

Ltac frame :=
  repeat first [ apply frames_ret | apply frames_checked | apply frames_request | apply frames_attempt | apply frames_if | (apply frames_modify; done)
               | (apply frames_gets; [done|intros ?]) | (apply frames_bind; [|intros ?]) | case_match ].

Lemma unref_frames a : frames (dbus_message_unref a).
Proof.
  unfold dbus_message_unref, dbus_message_cache_or_finalize, dbus_message_finalize, try_cache, get_message, set_message, assert_.
  frame.
Qed.

Lemma unref_all_frames l : frames (unref_all l).
Proof. induction l as [|a l IH]; [apply frames_ret|]. apply frames_bind; [apply unref_frames|done]. Qed.

(** A state with the messages of another loader in its queue. *)
Lemma good_loader w L :
  good w → all_at live w (messages L) → NoDup (messages L) → good (with_loader (λ _, L) w).
Proof. intros [] Hl Hn. by constructor. Qed.

Lemma unref_all_rule l : ∀ w m,
  good w → messages (loader w) = [] → NoDup l → all_at live w l →
  ∃ w' m', unref_all l w m = Ok tt w' m' ∧ good w' ∧ loader w' = loader w
    ∧ (∀ c, c ∉ l → heap w' !! c = heap w !! c) ∧ (may_fail m' → may_fail m).
Proof.
  induction l as [|a l IH]; intros w m Hg Hq Hn Hl; [by exists w, m|]. apply list.NoDup_cons in Hn as [Ha Hn].
  destruct (Hl a ltac:(set_solver)) as (x & Hx & Hlive).
  assert (holding w a live) as Hhold.
  { constructor; [done|rewrite Hq; apply not_elem_of_nil| |by exists x]. eapply in_use; [done..|]. by destruct Hlive. }
  destruct (message_unref_rule w m a Hhold) as (w1 & m1 & E & Hg1 & Hl1 & Hh1 & Hm1). cbn [unref_all]. rewrite (at_ok _ _ _ _ _ _ _ E).
  destruct (IH w1 m1 Hg1 ltac:(by rewrite Hl1) Hn) as (w2 & m2 & E2 & Hg2 & Hl2 & Hh2 & Hm2).
  { intros b Hb. rewrite Hh1 by (intros ->; done). apply Hl. set_solver. }
  exists w2, m2. split; [done|]. split; [done|]. split; [congruence|]. split; [|auto].
  intros c Hc. rewrite Hh2, Hh1 by set_solver. done.
Qed.

Lemma loader_unref_rule w m :
  good w →
  ∃ w' m', _dbus_message_loader_unref w m = Ok tt w' m' ∧ good w' ∧ messages (loader w') = []
    ∧ (∀ c, c ∉ messages (loader w) → heap w' !! c = heap w !! c) ∧ (may_fail m' → may_fail m).
Proof.
  intros Hg. unfold _dbus_message_loader_unref. rewrite at_gets. set (L := with_messages (λ _, []) (loader w)).
  pose proof (good_loader w L Hg ltac:(by intros ? ?%elem_of_nil) ltac:(constructor)) as Hg0.
  destruct (unref_all_rule (messages (loader w)) (with_loader (λ _, L) w) m Hg0 eq_refl) as (w1 & m1 & E & Hg1 & Hl1 & Hh1 & Hm1);
    [by destruct Hg..|].
  pose proof (unref_all_frames (messages (loader w)) (loader w) (with_loader (λ _, L) w) m) as Hf. rewrite E in Hf.
  assert (with_loader (λ _, loader w) (with_loader (λ _, L) w) = w) as Ew by by destruct w. rewrite Ew in Hf.
  rewrite (at_ok _ _ _ _ _ _ _ Hf). eexists _, m1. split; [reflexivity|].
  assert (good (with_loader (λ _, L) w1)) as Hg2 by (apply good_loader; [done|by intros ? ?%elem_of_nil|constructor]).
  done.
Qed.

(** The loader of the caller is put back. *)
Lemma good_back w w2 : good w → good w2 → spares w w2 → good (with_loader (λ _, loader w) w2).
Proof.
  intros Hg Hg2 Hs. destruct Hg as [_ _ _ Hq _ Hn]. apply good_loader; [done| |done].
  intros a Ha. destruct (Hq a Ha) as (x & Hx & Hlive). exists x. split; [|done]. apply Hs; [done|]. by destruct Hlive.
Qed.

(** *** The end of the cache *)

Lemma finalize_slots_rule c : ∀ w m,
  all_at idle w (omap id c) → NoDup (omap id c) →
  ∃ h, finalize_slots c w m = Ok tt (with_heap (λ _, h) w) m ∧ ∀ b, b ∉ omap id c → h !! b = heap w !! b.
Proof.
  induction c as [|[a|] c IH]; intros w m Hi Hn; [exists (heap w); by destruct w| |by apply IH].
  simpl in Hi, Hn. apply list.NoDup_cons in Hn as [Ha Hn]. destruct (Hi a ltac:(set_solver)) as (x & Hx & [Hr _ _ _]).
  set (w1 := with_heap (base.delete a) w).
  assert (dbus_message_finalize a w m = Ok tt w1 m) as E.
  { unfold dbus_message_finalize. rewrite (at_get_message a x) by done. by rewrite at_assert by by rewrite Hr. }
  cbn [finalize_slots]. rewrite (at_ok _ _ _ _ _ _ _ E). destruct (IH w1 m) as (h & E' & Hh).
  - intros b Hb. assert (a ≠ b) as Hab by (intros ->; done). cbn. rewrite lookup_delete_ne by done. apply Hi. set_solver.
  - done.
  - exists h. rewrite E'. split; [done|]. intros b Hb. cbn [omap list_omap id] in Hb. apply not_elem_of_cons in Hb as [Hab Hb].
    rewrite Hh by done. cbn. by rewrite lookup_delete_ne.
Qed.

(** The cache is emptied, and only messages that nobody uses are freed. *)
Lemma shutdown_rule w m :
  good w → message_cache_shutdown_registered w = true →
  ∃ w', dbus_message_cache_shutdown w m = Ok tt w' m ∧ good w' ∧ spares w w' ∧ cached_addrs w' = [] ∧ loader w' = loader w.
Proof.
  intros Hg Hreg. pose proof Hg as [_ _ Hc Hq Hn Hnq]. assert (cached_addrs w = omap id (message_cache w)) as Ec.
  { unfold cached_addrs. by rewrite Hreg. }
  rewrite Ec in Hc, Hn. destruct (finalize_slots_rule (message_cache w) w m Hc Hn) as (h & E & Hh).
  assert (spares w (with_heap (λ _, h) w)) as Hs.
  { intros b x Hx Hb. cbn. rewrite Hh; [done|]. rewrite <-Ec. by eapply in_use. }
  unfold dbus_message_cache_shutdown. rewrite at_gets, (at_ok _ _ _ _ _ _ _ E), at_modify.
  eexists. split; [reflexivity|]. split; [|by repeat split]. constructor; try done; [by intros ? ?%elem_of_nil| |constructor].
  intros a Ha. destruct (Hq a Ha) as (x & Hx & Hlive). exists x. split; [|done]. apply Hs; [done|]. by destruct Hlive.
Qed.

(** ** Demarshalling *)

(** What follows when the bytes are in the buffer. *)
Definition demarshal_filled (w : world) : LM demarshalled :=
  queued ← attempt _dbus_message_loader_queue_messages;
  res ← (if negb queued then mret DemarshalNoMemory
         else
           bad ← _dbus_message_loader_get_is_corrupted;
           if (bad : bool) then mret DemarshalInvalidArgs
           else
             msg ← _dbus_message_loader_pop_message;
             mret (match msg with Some a => Demarshalled a | None => DemarshalNoMemory end));
  _dbus_message_loader_unref;;
  modify (with_loader (λ _, loader w));;
  mret res.

Abbreviation with_buffer d := (with_loader (λ _, empty_loader d)).

Lemma make_loader_rule w m :
  (∃ m', make_loader w m = Ok false w m' ∧ may_fail m)
  ∨ ∃ d m', make_loader w m = Ok true (with_buffer d w) m' ∧ is_str [] d ∧ (may_fail m' → may_fail m).
Proof.
  unfold make_loader. pose proof (loader_new_rule m) as Hnew.
  destruct (_dbus_message_loader_new m) as [[] L m1|L m1|]; [right|left|done]; [|by exists m1].
  destruct Hnew as (d & -> & Hd & Hm). by exists d, m1.
Qed.

Lemma demarshal_start text w m :
  (∃ m', dbus_message_demarshal text w m = Ok DemarshalNull w m' ∧ may_fail m)
  ∨ ∃ s d m', dbus_message_demarshal text w m = demarshal_filled w (with_buffer d w) m' ∧ is_str s d
      ∧ (s = text ∧ (may_fail m' → may_fail m) ∨ s = [] ∧ (may_fail m ∨ too_long text)).
Proof.
  unfold dbus_message_demarshal. rewrite at_gets.
  destruct (make_loader_rule w m) as [(m1 & E & Hm)|(d & m1 & E & Hd & Hm1)]; rewrite (at_ok _ _ _ _ _ _ _ E); cbn [negb].
  { left. by exists m1. }
  right. rewrite (at_ok _ _ _ _ _ _ _ (get_buffer_run (with_buffer d w) m1 eq_refl)).
  rewrite at_attempt, on_buffer_run. pose proof (append_ok [] text d m1 Hd) as Happ. simpl loader_data.
  destruct (append text d m1) as [[] d' m2|d' m2|]; [| |done];
    (rewrite (at_ok _ _ _ _ _ _ _ (return_buffer_run
       (with_loader (with_data d') (with_loader (with_buffer_outstanding true) (with_buffer d w))) m2 eq_refl))).
  - destruct Happ as [[_ Hd'] Hm2]. exists text, d', m2. split; [done|]. split; [done|]. left. auto.
  - destruct Happ as [Hd' Hwhy]. exists [], d', m2. split; [done|]. split; [done|]. right. split; [done|].
    destruct Hwhy; auto.
Qed.

(** The loader goes, with the messages that are left in it. *)
Lemma demarshal_finish_rule w w3 m (res : demarshalled) :
  good w → good w3 → spares w w3 → Forall (unused w) (messages (loader w3)) →
  ∃ w' m', (_dbus_message_loader_unref;; modify (with_loader (λ _, loader w));; mret res) w3 m = Ok res w' m'
    ∧ good w' ∧ loader w' = loader w ∧ spares w w' ∧ (∀ c, c ∉ messages (loader w3) → heap w' !! c = heap w3 !! c)
    ∧ (may_fail m' → may_fail m).
Proof.
  intros Hg Hg3 Hs Hu. destruct (loader_unref_rule w3 m Hg3) as (w4 & m4 & E & Hg4 & _ & Hh & Hm).
  assert (spares w w4) as Hs4.
  { intros b x Hx Hin. rewrite Hh; [by apply Hs|]. intros Hb. rewrite list.Forall_forall in Hu. pose proof (Hu b Hb x Hx). congruence. }
  eexists _, m4. rewrite (at_ok _ _ _ _ _ _ _ E). split; [reflexivity|]. split; [by apply good_back|done].
Qed.

(** A message was found at the front of [s], and is at [a]. *)
Definition found (w : world) (s : bytes) (w' : world) (a : nat) : Prop := ∃ x t q y,
  s = t ++ q ∧ wm_bytes x = Some t ∧ valid_message DBUS_MAXIMUM_MESSAGE_LENGTH x
  ∧ unused w a ∧ heap w' !! a = Some y ∧ carries y x.

(** The state of the caller is as before, apart from messages that nobody uses. *)
Record restored (w w' : world) : Prop := {
  restored_good : good w';
  restored_loader : loader w' = loader w;
  restored_spares : spares w w'
}.

Lemma is_corrupted_run w m :
  sane (loader w) → _dbus_message_loader_get_is_corrupted w m = Ok (corrupted (loader w)) w m.
Proof.
  intros Hs. unfold _dbus_message_loader_get_is_corrupted. rewrite at_gets. rewrite at_assert; [done|]. apply eqb_true_iff.
  destruct (corrupted (loader w)) eqn:Hc; unfold sane in Hs; rewrite Hc in Hs.
  - by rewrite bool_decide_eq_true_2 by by apply Hs.
  - rewrite bool_decide_eq_false_2; [done|]. by intros Hr%Hs.
Qed.

(** The first message is taken from the queue. *)
Lemma popped_rule w d s w3 m new xs rest :
  good w → took (with_buffer d w) s w3 new xs rest →
  ∃ res w' m', (res ← (msg ← _dbus_message_loader_pop_message;
                       mret (match msg with Some a => Demarshalled a | None => DemarshalNoMemory end));
                _dbus_message_loader_unref;; modify (with_loader (λ _, loader w));; mret res) w3 m = Ok res w' m'
    ∧ restored w w' ∧ (may_fail m' → may_fail m)
    ∧ match xs with
      | [] => res = DemarshalNoMemory
      | x :: _ => ∃ a y, res = Demarshalled a ∧ unused w a ∧ heap w' !! a = Some y ∧ carries y x
      end.
Proof.
  intros Hg [Hg3 _ _ Hms Hq _ _ _ Hs Hu]. cbn in Hq.
  destruct Hms as [|a x new xs (y & Hy & Hc) Hms].
  - destruct (demarshal_finish_rule w w3 m DemarshalNoMemory Hg Hg3 Hs ltac:(by rewrite Hq)) as (w' & m' & E & ? & ? & ? & _ & ?).
    exists DemarshalNoMemory, w', m'. unfold _dbus_message_loader_pop_message.
    rewrite (at_ok _ DemarshalNoMemory w3 m); [split; [exact E|]; split; [by constructor|done]|]. rewrite (at_ok _ None w3 m); [done|]. rewrite at_gets. by rewrite Hq.
  - set (w4 := with_loader (with_messages (λ _, new)) w3).
    assert (good w4) as Hg4.
    { destruct Hg3 as [? ? ? Hq3 ? Hn3]. rewrite Hq in Hq3, Hn3. apply list.NoDup_cons in Hn3 as [_ Hn3].
      constructor; try done. intros b Hb. apply Hq3. by apply elem_of_cons; right. }
    apply list.Forall_cons in Hu as [Ha Hu].
    destruct (demarshal_finish_rule w w4 m (Demarshalled a) Hg Hg4 Hs Hu) as (w' & m' & E & ? & ? & ? & Hh & ?).
    exists (Demarshalled a), w', m'. unfold _dbus_message_loader_pop_message.
    rewrite (at_ok _ (Demarshalled a) w4 m); [|rewrite (at_ok _ (Some a) w4 m); [done|]; rewrite at_gets; by rewrite Hq].
    split; [done|]. split; [by constructor|]. split; [done|]. exists a, y. split; [done|]. split; [done|]. split; [|done].
    rewrite Hh; [done|]. destruct Hg3 as [_ _ _ _ _ Hn3]. rewrite Hq in Hn3. by apply list.NoDup_cons in Hn3 as [? _].
Qed.

Lemma new_loader_good w d : good w → good (with_buffer d w).
Proof. intros Hg. apply good_loader; [done|by intros ? ?%elem_of_nil|constructor]. Qed.

Lemma filled_rule w d s m :
  good w → is_str s d → no_misnested s →
  ∃ res w' m', demarshal_filled w (with_buffer d w) m = Ok res w' m' ∧ restored w w'
    ∧ ∀ a, res = Demarshalled a → found w s w' a.
Proof.
  intros Hg Hd Hnest. unfold demarshal_filled. rewrite at_attempt.
  pose proof (queue_messages_rule (with_buffer d w) s m (new_loader_good w d Hg) Hd Hnest ltac:(done) ltac:(done)) as Hq.
  assert (∀ w3 m3 new xs rest (res : demarshalled), took (with_buffer d w) s w3 new xs rest → (∀ a, res ≠ Demarshalled a) →
    ∃ res' w' m', (_dbus_message_loader_unref;; modify (with_loader (λ _, loader w));; mret res) w3 m3 = Ok res' w' m'
      ∧ restored w w' ∧ ∀ a, res' = Demarshalled a → found w s w' a) as Hend.
  { intros w3 m3 new xs rest res [Hg3 _ _ _ Hq3 _ _ _ Hs Hu] Hres. cbn in Hq3. rewrite <-Hq3 in Hu.
    destruct (demarshal_finish_rule w w3 m3 res Hg Hg3 Hs Hu) as (w' & m' & E & ? & ? & ? & _).
    exists res, w', m'. split; [done|]. split; [by constructor|]. by intros a Ea%Hres. }
  destruct (_dbus_message_loader_queue_messages (with_buffer d w) m) as [[] w3 m3|w3 m3|]; [| |done]; cbn [negb].
  - destruct Hq as [(new & xs & rest & Ht & _) [Hsn _]]. rewrite at_assoc.
    rewrite (at_ok _ _ _ _ _ _ _ (is_corrupted_run w3 m3 Hsn)). destruct (corrupted (loader w3)); [by eapply Hend|].
    destruct (popped_rule w d s w3 m3 new xs rest Hg Ht) as (res & w' & m' & E & Hr & _ & Hres).
    exists res, w', m'. split; [done|]. split; [done|]. intros a ->. destruct Ht as [_ (bss & Ebs & Es) Hv _ _ _ _ _ _ _].
    destruct xs as [|x xs]; [done|]. destruct Hres as (a' & y & [= <-] & Hu & Hy & Hc).
    apply mapM_Some in Ebs. inversion Ebs as [|? t ? bss' Ht _ Ex Ebss]. subst bss. apply list.Forall_cons in Hv as [Hx _].
    exists x, t, (concat bss' ++ rest), y. split; [|done]. simpl in Es. by rewrite app_assoc.
  - destruct Hq as [(new & xs & rest & Ht) _]. by eapply Hend.
Qed.

Lemma filled_taken w d x t m :
  good w → is_str t d → wm_bytes x = Some t → valid_message DBUS_MAXIMUM_MESSAGE_LENGTH x → ¬ may_fail m →
  ∃ a y w' m', demarshal_filled w (with_buffer d w) m = Ok (Demarshalled a) w' m' ∧ ¬ may_fail m' ∧ restored w w'
    ∧ unused w a ∧ heap w' !! a = Some y ∧ carries y x.
Proof.
  intros Hg Hd Ht Hval Hm. unfold demarshal_filled. rewrite at_attempt. unfold _dbus_message_loader_queue_messages. rewrite at_gets.
  assert (mapM wm_bytes [x] = Some [t]) as Hbs by (simpl; by rewrite Ht).
  assert (concat [t] ++ [] = t) as Et by (simpl; by rewrite !app_nil_r).
  destruct (queue_takes [x] (S (len d)) (with_buffer d w) [t] [] m) as (n & w3 & m3 & new & E & Hn & Hm3 & Htook & Hc & Hsn);
    rewrite ?Et; try done; [by apply new_loader_good|by constructor|rewrite (is_str_length _ _ Hd); lia|].
  rewrite Et in Htook. simpl loader_data. rewrite E. destruct n as [|n]; [simpl in Hn; lia|].
  rewrite (queue_waits n w3 [] m3); [|by apply (took_rest _ _ _ _ _ _ Htook)|done|left; simpl; lia].
  cbn [negb]. rewrite at_assoc. rewrite (at_ok _ _ _ _ _ _ _ (is_corrupted_run w3 m3 Hsn)), Hc.
  destruct (popped_rule w d t w3 m3 new [x] [] Hg Htook) as (res & w' & m' & E' & Hr & Hm' & a & y & -> & Hu & Hy & Hcar).
  exists a, y, w', m'. split; [exact E'|]. split; [auto|done].
Qed.

(** The bytes of a message are those it was made of. *)
Lemma marshal_rule w a y x t m :
  heap w !! a = Some y → carries y x → wm_bytes x = Some t → ¬ too_long t →
  match dbus_message_marshal a w m with
  | Ok text w' _ => text = t ∧ w' = w
  | Failed w' _ => w' = w ∧ may_fail m
  | Ub => False
  end.
Proof.
  intros Hy [_ _ (th & Eh & Hshow) (tb & Eb & Hb)] Ht Hlong. destruct Hshow as [Hh _ _ _ _ _ _].
  unfold wm_bytes in Ht. rewrite Eh, Eb in Ht. injection Ht as <-. unfold too_long in Hlong. rewrite length_app in Hlong.
  unfold dbus_message_marshal. rewrite Hy. pose proof (init_ok m) as Hi.
  destruct (_dbus_string_init m) as [[] tmp m1|tmp m1|]; [|done|done]. destruct Hi as [Htmp Hm1].
  pose proof (copy_whole_ok th (data (msg_header y)) [] 0 (is_str_readable _ _ Hh) (Nat.le_refl _) tmp m1 Htmp) as Hc1.
  assert (insert_at_ [] 0 th = th) as E1 by apply app_nil_r.
  rewrite E1 in Hc1. unfold mbind at 1, M_bind at 1.
  destruct (_dbus_string_copy _ _ _ tmp m1) as [[] tmp1 m2|tmp1 m2|]; [| |done].
  2: { destruct Hc1 as [_ [Hf|Hf]]; [by auto|]. unfold too_long in Hf. lia. }
  destruct Hc1 as [[_ Htmp1] Hm2]. rewrite at_gets.
  pose proof (copy_whole_ok tb (msg_body y) th (length th) (is_str_readable _ _ Hb) (Nat.le_refl _) tmp1 m2 Htmp1) as Hc2.
  assert (insert_at_ th (length th) tb = th ++ tb) as E2.
  { unfold insert_at_. by rewrite firstn_all, skipn_all, app_nil_r. }
  rewrite E2, (is_str_length _ _ Htmp1) in Hc2. unfold mbind at 1, M_bind at 1.
  destruct (_dbus_string_copy _ _ _ tmp1 m2) as [[] tmp2 m3|tmp2 m3|]; [| |done].
  2: { destruct Hc2 as [_ [Hf|Hf]]; [by auto|]. unfold too_long in Hf. rewrite length_app in Hf. lia. }
  destruct Hc2 as [[_ [_ Htmp2]] Hm3]. unfold request, mbind, M_bind. destruct (alloc m3) as [ok m4] eqn:Em.
  destruct ok; [done|]. pose proof (alloc_fail _ _ Em). auto.
Qed.

Lemma valid_not_long x t : valid_message DBUS_MAXIMUM_MESSAGE_LENGTH x → wm_bytes x = Some t → ¬ too_long t.
Proof.
  intros [_ _ (a & b & Ha & Hb & _ & Hle)] Ht. unfold wm_bytes in Ht. rewrite Ha, Hb in Ht. injection Ht as <-. unfold too_long.
  unfold DBUS_MAXIMUM_MESSAGE_LENGTH, DBUS_MAXIMUM_ARRAY_LENGTH in Hle. change _DBUS_STRING_MAX_MAX_LENGTH with 2147483639. lia.
Qed.

(** ** Theorems *)

(** C8: A valid message that is demarshalled from its bytes, when there is memory, is
    a new message with its header, byte order and body; marshalling it gives the same
    bytes again; and the messages of the caller are as before. *)
Theorem demarshal_marshal (w : world) (x : wire_message) (t : bytes) (m : mem) :
  good w → valid_message DBUS_MAXIMUM_MESSAGE_LENGTH x → wm_bytes x = Some t → ¬ may_fail m →
  ∃ a y w' m', dbus_message_demarshal t w m = Ok (Demarshalled a) w' m' ∧ restored w w' ∧ unused w a
    ∧ heap w' !! a = Some y ∧ carries y x ∧ ∃ m'', dbus_message_marshal a w' m' = Ok t w' m''.
Proof.
  intros Hg Hval Ht Hm. pose proof (valid_not_long x t Hval Ht) as Hlong.
  destruct (demarshal_start t w m) as [(m1 & _ & ?)|(s & d & m1 & E & Hd & [[-> Hm1]|[_ [?|?]]])]; try done.
  destruct (filled_taken w d x t m1 Hg Hd Ht Hval ltac:(auto)) as (a & y & w' & m' & E' & Hm' & Hr & Hu & Hy & Hc).
  exists a, y, w', m'. rewrite E. do 5 (split; [done|]). pose proof (marshal_rule w' a y x t m' Hy Hc Ht Hlong) as Hmar.
  destruct (dbus_message_marshal a w' m') as [text w'' m''|w'' m''|]; [|by destruct Hmar|done]. destruct Hmar as [-> ->]. by exists m''.
Qed.

(** C9: Demarshalling any bytes without misnested signatures, with any memory, ends inside the memory of its strings and
    with no failing assertion; a message it returns is new and is the valid message
    that the bytes begin with; and the messages of the caller are as before. *)
Theorem demarshal_sound (w : world) (text : bytes) (m : mem) :
  good w → no_misnested text →
  match dbus_message_demarshal text w m with
  | Ok (Demarshalled a) w' _ => found w text w' a ∧ restored w w'
  | Ok _ w' _ => restored w w'
  | Failed _ _ | Ub => False
  end.
Proof.
  intros Hg Hnest. destruct (demarshal_start text w m) as [(m1 & -> & _)|(s & d & m1 & -> & Hd & Hs)].
  { by constructor; auto using spares_refl. }
  destruct (filled_rule w d s m1 Hg Hd) as (res & w' & m' & -> & Hr & Hf).
  { destruct Hs as [[-> _]|[-> _]]; [done|]. intros p n ? ? Hl _. simpl in Hl. lia. }
  destruct res as [a| | |]; try done. split; [|done]. destruct (Hf a eq_refl) as (x & t & q & y & Es & Hx).
  destruct Hs as [[-> _]|[-> _]]; [by exists x, t, q, y|]. destruct Hx as (Hx & _). apply wm_bytes_split in Hx as (bs & b & _ & _ & -> & Hl).
  apply (f_equal length) in Es. rewrite !length_app in Es. simpl in Es. lia.
Qed.

End whole.

Lemma demarshal_marshal_witness :
  let host : Host := DBUS_LITTLE_ENDIAN in
  let w := idle_world [] in
  ∃ a y w' m', dbus_message_demarshal (sample_bytes number) w plenty = Ok (Demarshalled a) w' m' ∧ restored w w' ∧ unused w a
    ∧ heap w' !! a = Some y ∧ carries y number ∧ ∃ m'', dbus_message_marshal a w' m' = Ok (sample_bytes number) w' m''.
Proof.
  intros host w. apply (demarshal_marshal w number (sample_bytes number) plenty).
  - by apply (idle_world_ready []).
  - by apply number_valid.
  - vm_compute. reflexivity.
  - vm_compute. by intros ?%elem_of_nil.
Defined.

Lemma demarshal_sound_witness :
  let host : Host := DBUS_BIG_ENDIAN in
  let w := idle_world [] in
  let text := sample_bytes number ++ sample_bytes number in
  match dbus_message_demarshal text w (fails_after 9) with
  | Ok (Demarshalled a) w' _ => found w text w' a ∧ restored w w'
  | Ok _ w' _ => restored w w'
  | Failed _ _ | Ub => False
  end.
Proof.
  intros host w text. apply (demarshal_sound w text (fails_after 9)); [by apply (idle_world_ready [])|].
  apply no_bracket_nested. vm_compute. reflexivity.
Defined.

(** A message of which the last byte is missing is reported as want of memory, though
    no memory was refused. *)
Theorem truncated_reported_as_oom :
  let host : Host := DBUS_LITTLE_ENDIAN in
  let t := sample_bytes number in
  match dbus_message_demarshal (take (length t - 1) t) (idle_world []) plenty with
  | Ok res _ _ => res = DemarshalNoMemory
  | Failed _ _ | Ub => False
  end.
Proof. vm_compute. reflexivity. Qed.
