(* ===== verification/Byteswap.v ===== *)
(** * Byteswap: values from one byte order into the other

    Models src/dbus/dbus-marshal-byteswap.c, which swaps the numbers of a block of
    marshalled values in place, with [_dbus_header_byteswap] and [_dbus_message_byteswap].
    Shown: the encoding of values in one order becomes the encoding of the same values
    in the other; a header keeps the byte that names its old order. *)

From stdpp Require Import gmap.
From S2P Require Import Prelude Search Names DString Text Types Signature MarshalBasic Reader Body Values Header Fields Loader Stream Whole.

Section byteswap.
Context `{Host}.
Context (old_order : byte_order).

(** [*p = SWAP ( *p)] on [n] bytes. *)
Definition swap_at (swap : Z → Z) (n p : nat) (block : bytes) : option bytes :=
  d ← mem_read block p n; mem_write block p (native n (swap (load d))).

Definition swap_number (swap : Z → Z) (n p : nat) (block : bytes) : option (nat * bytes) :=
  let p := align_up p n in
  block ← swap_at swap n p block;
  Some ((p + n)%nat, block).

(** The length in front of arrays and strings. *)
Definition swap_length (p : nat) (block : bytes) : option (Z * nat * bytes) :=
  let p := align_up p 4 in
  d ← mem_read block p 4;
  block ← swap_at DBUS_UINT32_SWAP_LE_BE 4 p block;
  Some (_dbus_unpack_uint32 old_order d, (p + 4)%nat, block).

(** The recursive call: reader, [walk_reader_to_end], [p], the memory. *)
Context (helper : DBusTypeReader → bool → nat → bytes → option (nat * bytes)).

(** [while (p < array_end)]; the number of bytes left bounds the turns. *)
Fixpoint swap_elements (sub_ : DBusTypeReader) (n p array_end : nat) (block : bytes) : option (nat * bytes) :=
  if negb (p <? array_end)%nat then Some (p, block)
  else match n with
       | O => None
       | S n' => '(p, block) ← helper sub_ false p block; swap_elements sub_ n' p array_end block
       end.

Definition swap_array_value (reader : DBusTypeReader) (p : nat) (block : bytes) : option (nat * bytes) :=
  '(array_len, p, block) ← swap_length p block;
  elem_type ← _dbus_type_reader_get_element_type reader;
  let alignment := _dbus_type_get_alignment elem_type in
  if negb (array_len / Z.of_nat alignment <? DBUS_MAXIMUM_ARRAY_LENGTH) then None
  else
    let p := align_up p alignment in
    let len := Z.to_nat array_len in
    if dbus_type_is_fixed elem_type then
      block ← (if (1 <? alignment)%nat then
                 d ← mem_read block p (len / alignment * alignment);
                 mem_write block p (_dbus_swap_array d (len / alignment) alignment)
               else Some block);
      Some ((p + len)%nat, block)
    else
      sub_ ← _dbus_type_reader_recurse reader;
      swap_elements sub_ len p (p + len) block.

Definition swap_string (p : nat) (block : bytes) : option (nat * bytes) :=
  '(len, p, block) ← swap_length p block;
  Some ((p + (Z.to_nat len + 1))%nat, block).

Definition swap_signature (p : nat) (block : bytes) : option (nat * bytes) :=
  d ← mem_read block p 1;
  Some ((p + (Z.to_nat (b2z (byte_at d 0)) + 2))%nat, block).

(** The reader of the signature is on the memory from the signature on. *)
Definition swap_variant (p : nat) (block : bytes) : option (nat * bytes) :=
  d ← mem_read block p 1;
  let sig_len := Z.to_nat (b2z (byte_at d 0)) in
  let p := (p + 1)%nat in
  let sig := drop p block in
  let p := (p + (sig_len + 1))%nat in
  let p := align_up p (_dbus_type_get_alignment (_dbus_first_type_in_signature sig 0)) in
  helper (_dbus_type_reader_init_types_only sig 0) false p block.

Definition swap_struct (reader : DBusTypeReader) (p : nat) (block : bytes) : option (nat * bytes) :=
  sub_ ← _dbus_type_reader_recurse reader;
  helper sub_ true (align_up p 8) block.

(** The switch over [current_type]; the last case is an assertion. *)
Definition swap_value (reader : DBusTypeReader) (current_type : byte) (p : nat) (block : bytes) : option (nat * bytes) :=
  match kind_of current_type with
  | Some KByte => Some ((p + 1)%nat, block)
  | Some K16 => swap_number DBUS_UINT16_SWAP_LE_BE 2 p block
  | Some KBool | Some K32 => swap_number DBUS_UINT32_SWAP_LE_BE 4 p block
  | Some K64 => swap_number DBUS_UINT64_SWAP_LE_BE 8 p block
  | Some KString => swap_string p block
  | Some KSignature => swap_signature p block
  | None =>
      if current_type =b DBUS_TYPE_ARRAY then swap_array_value reader p block
      else if current_type =b DBUS_TYPE_VARIANT then swap_variant p block
      else if (current_type =b DBUS_TYPE_STRUCT) || (current_type =b DBUS_TYPE_DICT_ENTRY)
      then swap_struct reader p block
      else None
  end.

End byteswap.

Fixpoint byteswap_body_helper `{Host} (old_order : byte_order) (fuel : nat) (reader : DBusTypeReader)
    (walk_reader_to_end : bool) (p : nat) (block : bytes) : option (nat * bytes) :=
  match fuel with
  | O => None
  | S f =>
      current_type ← _dbus_type_reader_get_current_type reader;
      if current_type =b DBUS_TYPE_INVALID then Some (p, block)
      else
        '(p, block) ← swap_value old_order (byteswap_body_helper old_order f) reader current_type p block;
        if walk_reader_to_end then
          '(_, reader) ← _dbus_type_reader_next f reader;
          byteswap_body_helper old_order f reader true p block
        else Some (p, block)
  end.

(** In place: the memory of the string changes, its length does not. *)
Definition _dbus_marshal_byteswap `{Host} (signature : bytes) (signature_start : nat) (old_order new_order : byte_order)
    (value_pos : nat) : SM unit :=
  r ← gets id;
  assert_ (value_pos <=? len r)%nat;;
  if decide (old_order = new_order) then mret tt
  else
    store (λ b, '(_, b) ← byteswap_body_helper old_order (body_fuel signature (length b))
                           (_dbus_type_reader_init_types_only signature signature_start) true value_pos b;
                Some b).

Section messages.
Context `{Host}.

Definition _dbus_header_byteswap (new_order : byte_order) : HM unit :=
  h ← gets id;
  if decide (header_order h = new_order) then mret tt
  else
    on_data (_dbus_marshal_byteswap DBUS_HEADER_SIGNATURE 0 (header_order h) new_order 0);;
    modify (λ h, Header (data h) (fields h) (padding_len h) new_order).

Definition _dbus_message_byteswap (a : nat) : LM unit :=
  x ← get_message a;
  if decide (msg_byte_order x = DBUS_COMPILER_BYTE_ORDER) then mret tt
  else
    '(type_str, type_pos) ← get_const_signature a;
    on_body a (_dbus_marshal_byteswap type_str type_pos (msg_byte_order x) DBUS_COMPILER_BYTE_ORDER 0);;
    set_message a (with_byte_order DBUS_COMPILER_BYTE_ORDER);;
    on_header a (_dbus_header_byteswap DBUS_COMPILER_BYTE_ORDER).

End messages.

(** ** The same values in the other order

    Arrays of numbers are kept as their memory, so each of their elements is reversed; a
    part of an element at the end, which the validator lets through, stays. *)

Fixpoint rev_groups (n : nat) (k : nat) (bs : bytes) : bytes :=
  match k with
  | O => bs
  | S k' => rev (take n bs) ++ rev_groups n k' (drop n bs)
  end.

Definition swapped_raw (n : nat) (bs : bytes) : bytes := rev_groups n (length bs / n) bs.

Fixpoint other_val (v : val) (t : ty) {struct v} : val :=
  let fix other_elements vs t' {struct vs} : list val :=
    match vs with [] => [] | v :: vs' => other_val v t' :: other_elements vs' t' end in
  let fix other_fields vs ts {struct vs} : list val :=
    match vs, ts with v :: vs', t :: ts' => other_val v t :: other_fields vs' ts' | _, _ => vs end in
  match v, t with
  | VVariant t' v', _ => VVariant t' (other_val v' t')
  | VArray vs, TArray t' => VArray (other_elements vs t')
  | VArray vs, TDict k w => VArray (other_elements vs (TStruct [k; w]))
  | VRaw bs, TArray t' => VRaw (swapped_raw (typecode_alignment t') bs)
  | VStruct vs, TStruct ts => VStruct (other_fields vs ts)
  | _, _ => v
  end.

(** The local functions of [other_val]. *)
Fixpoint other_elements (vs : list val) (t' : ty) : list val :=
  match vs with [] => [] | v :: vs' => other_val v t' :: other_elements vs' t' end.

Fixpoint other_fields (vs : list val) (ts : list ty) : list val :=
  match vs, ts with v :: vs', t :: ts' => other_val v t :: other_fields vs' ts' | _, _ => vs end.

(** The numbers of an array: [k] elements of [n] bytes. *)
Fixpoint numbers (o : byte_order) (n k : nat) (bs : bytes) : list Z :=
  match k with
  | O => []
  | S k' => of_octets o (take n bs) :: numbers o n k' (drop n bs)
  end.

Lemma of_octets_rev o d : of_octets (other o) (rev d) = of_octets o d.
Proof. destruct o; simpl; by rewrite ?rev_involutive. Qed.

Lemma length_rev_groups n k : ∀ bs, length (rev_groups n k bs) = length bs.
Proof.
  induction k as [|k IH]; intros bs; [done|]. simpl. rewrite length_app, length_rev, IH.
  by rewrite <-length_app, take_drop.
Qed.

(** The elements are the same numbers. *)
Lemma numbers_swapped o n k : ∀ bs,
  (k * n <= length bs)%nat → numbers (other o) n k (rev_groups n k bs) = numbers o n k bs.
Proof.
  induction k as [|k IH]; intros bs Hl; [done|]. simpl in *.
  assert (length (rev (take n bs)) = n) as Hr by (rewrite length_rev, length_take; lia).
  rewrite take_app_length', drop_app_length' by done. rewrite of_octets_rev, IH by (rewrite length_drop; lia). done.
Qed.

(** ** Blocks *)

Lemma read_at (a x b : bytes) n : n = length x → mem_read (a ++ x ++ b) (length a) n = Some x.
Proof.
  intros ->. rewrite mem_read_in by (rewrite !length_app; lia). unfold sub. by rewrite drop_app_length, take_app_length.
Qed.

Lemma write_at (a x y b : bytes) : length y = length x → mem_write (a ++ x ++ b) (length a) y = Some (a ++ y ++ b).
Proof.
  intros Hl. unfold mem_write. rewrite (proj2 (Nat.leb_le _ _)) by (rewrite !length_app; lia). f_equal.
  rewrite take_app_length, Hl. f_equal. f_equal. rewrite <-length_app, app_assoc. apply drop_app_length.
Qed.

Section rules.
Context `{Host}.
Context (o : byte_order).
Abbreviation o' := (other o).

Lemma swap_reverses n swap d : reverses n swap → length d = n → native n (swap (load d)) = rev d.
Proof.
  intros Hs <-. unfold native, load. rewrite (octets_reverses _ _ _ _ Hs), octets_other. by rewrite octets_of_octets.
Qed.

Lemma swap_at_rule swap n a d b :
  reverses n swap → length d = n → swap_at swap n (length a) (a ++ d ++ b) = Some (a ++ rev d ++ b).
Proof.
  intros Hs Hd. unfold swap_at. rewrite read_at by done. cbn [mbind option_bind]. rewrite (swap_reverses n swap d Hs Hd).
  apply write_at. apply length_rev.
Qed.

(** Behind the padding to the alignment. *)
Lemma aligned_at (a : bytes) n : is_alignment n → align_up (length a) n = length (a ++ padding (length a) n).
Proof. intros Hn. by rewrite length_app, <-align_up_pad. Qed.

Lemma swap_number_rule swap n a z b :
  reverses n swap → is_alignment n →
  swap_number swap n (length a) (a ++ (padding (length a) n ++ octets o n z) ++ b)
  = Some ((length a + length (padding (length a) n ++ octets o n z))%nat, a ++ (padding (length a) n ++ octets o' n z) ++ b).
Proof.
  intros Hs Hn. unfold swap_number. rewrite (aligned_at a n Hn), <-!app_assoc, (app_assoc a).
  rewrite (swap_at_rule swap n) by (done || apply length_octets). cbn [mbind option_bind].
  rewrite octets_other, <-app_assoc. do 2 f_equal. rewrite !length_app, length_octets. lia.
Qed.

Lemma swap_length_rule a z b :
  0 <= z < 2 ^ 32 →
  swap_length o (length a) (a ++ (padding (length a) 4 ++ octets o 4 z) ++ b)
  = Some (z, length (a ++ padding (length a) 4 ++ octets o 4 z), a ++ (padding (length a) 4 ++ octets o' 4 z) ++ b).
Proof.
  intros Hz. unfold swap_length. rewrite (aligned_at a 4) by alignment. rewrite <-!app_assoc, (app_assoc a).
  rewrite read_at by (by rewrite length_octets). cbn [mbind option_bind].
  rewrite (swap_at_rule _ 4) by (exact swap_32 || apply length_octets). cbn [mbind option_bind].
  rewrite unpack_32_ok by apply length_octets. rewrite of_octets_octets, Z.mod_small by done.
  rewrite octets_other, <-app_assoc. do 3 f_equal. rewrite !length_app, length_octets. lia.
Qed.

Abbreviation swaps f reader c a bs bs' b :=
  (swap_value o (byteswap_body_helper o f) reader c (length a) (a ++ bs ++ b)
   = Some ((length a + length bs)%nat, a ++ bs' ++ b)).

(** Values without parts. *)
Lemma basic_swaps f reader c v a b :
  basic_ok c v = true → swaps f reader c a (wire o (length a) c v) (wire o' (length a) c v) b.
Proof.
  intros Hok. unfold swap_value, wire, wire_body, basic_ok in *. pose proof (type_alignment_kind c) as Ha.
  destruct (kind_of c) as [[]|]; destruct v as [c'|z|z|z|s]; try done; rewrite Ha.
  - by rewrite padding_1.
  - apply swap_number_rule; [exact swap_16|by alignment].
  - apply swap_number_rule; [exact swap_32|by alignment].
  - apply swap_number_rule; [exact swap_32|by alignment].
  - apply swap_number_rule; [exact swap_64|by alignment].
  - apply andb_true_iff in Hok as [Hlen%Z.ltb_lt _]. unfold swap_string.
    pose proof (swap_length_rule a (Z.of_nat (length s)) ((s ++ [x00]) ++ b) ltac:(lia)) as E. rewrite <-!app_assoc in *.
    rewrite E. cbn [mbind option_bind]. do 2 f_equal. rewrite !length_app, !length_octets. simpl. lia.
Qed.

(** *** Arrays of numbers *)

Lemma swap_array_groups n k : ∀ d,
  (n = 2 ∨ n = 4 ∨ n = 8)%nat → length d = (k * n)%nat → _dbus_swap_array d k n = rev_groups n k d.
Proof.
  induction k as [|k IH]; intros d Hn Hl; [done|]. cbn [_dbus_swap_array rev_groups]. simpl in Hl.
  assert (length (take n d) = n) as Ht by (rewrite length_take; lia).
  rewrite IH by (rewrite ?length_drop; lia || done). f_equal.
  destruct Hn as [-> |[-> | ->]]; simpl;
    [apply (swap_reverses 2 _ _ swap_16)|apply (swap_reverses 4 _ _ swap_32)|apply (swap_reverses 8 _ _ swap_64)]; done.
Qed.

Lemma rev_groups_app n k : ∀ d q, length d = (k * n)%nat → rev_groups n k (d ++ q) = rev_groups n k d ++ q.
Proof.
  induction k as [|k IH]; intros d q Hl; [done|]. simpl in *.
  rewrite take_app_le, drop_app_le by lia. rewrite IH by (rewrite length_drop; lia). by rewrite app_assoc.
Qed.

Lemma rev_groups_1 k : ∀ d, rev_groups 1 k d = d.
Proof. induction k as [|k IH]; intros d; [done|]. simpl. rewrite IH. by destruct d. Qed.

(** The elements of an array of fixed-size values, at [a]. *)
Lemma swap_fixed_rule n a (x : bytes) b :
  (n = 1 ∨ n = 2 ∨ n = 4 ∨ n = 8)%nat →
  (if (1 <? n)%nat then
     d ← mem_read (a ++ x ++ b) (length a) (length x / n * n);
     mem_write (a ++ x ++ b) (length a) (_dbus_swap_array d (length x / n) n)
   else Some (a ++ x ++ b)) = Some (a ++ swapped_raw n x ++ b).
Proof.
  intros Hn. unfold swapped_raw. destruct Hn as [-> |Hn]; [by rewrite rev_groups_1|].
  rewrite (proj2 (Nat.ltb_lt _ _)) by lia. set (k := (length x / n)%nat).
  assert (k * n <= length x)%nat as Hk by (unfold k; rewrite Nat.mul_comm; apply Nat.Div0.mul_div_le).
  assert (∃ d q, x = d ++ q ∧ length d = (k * n)%nat) as (d & q & Ex & Hd).
  { exists (take (k * n) x), (drop (k * n) x). rewrite take_drop, length_take. split; [done|lia]. }
  clearbody k. subst x. rewrite <-app_assoc, (read_at _ d) by done. cbn [mbind option_bind].
  rewrite swap_array_groups, rev_groups_app, <-app_assoc by done. apply write_at. apply length_rev_groups.
Qed.

(** *** Values *)

Context (end_ : nat).

(** The claim of the induction: the value, at the end of [a], is swapped. *)
Definition value_swaps (v : val) : Prop := ∀ t bs f reader c a b,
  enc o v t (length a) = Some bs → points reader t → _dbus_type_reader_get_current_type reader = Some c →
  (length a + length bs <= end_)%nat → fuel_for end_ (length (print t)) (length a) (S f) →
  Z.of_nat (length bs) < DBUS_MAXIMUM_ARRAY_LENGTH →
  ∃ bs', enc o' (other_val v t) t (length a) = Some bs' ∧ length bs' = length bs ∧ swaps f reader c a bs bs' b.

(** One turn of the loop. *)
Lemma turn_swaps v t bs f reader (walk : bool) a b :
  value_swaps v → enc o v t (length a) = Some bs → points reader t → (length a + length bs <= end_)%nat →
  fuel_for end_ (length (print t)) (length a) (S f) → Z.of_nat (length bs) < DBUS_MAXIMUM_ARRAY_LENGTH →
  ∃ bs', enc o' (other_val v t) t (length a) = Some bs' ∧ length bs' = length bs
    ∧ byteswap_body_helper o (S f) reader walk (length a) (a ++ bs ++ b)
      = if walk then '(_, reader) ← _dbus_type_reader_next f reader;
                     byteswap_body_helper o f reader true (length (a ++ bs')) ((a ++ bs') ++ b)
        else Some (length (a ++ bs'), (a ++ bs') ++ b).
Proof.
  intros Hv E Hpt Hend Hf Hmax. destruct (points_current reader t Hpt) as (c & Hc & Hinv & _).
  destruct (Hv t bs f reader c a b E Hpt Hc Hend Hf Hmax) as (bs' & E' & Hl & Hs). exists bs'. do 2 (split; [done|]).
  cbn [byteswap_body_helper]. rewrite Hc. cbn [mbind option_bind]. rewrite Hinv, Hs. cbn [mbind option_bind].
  by rewrite length_app, Hl, <-app_assoc.
Qed.

Lemma elements_swap f sub_ t vs : ∀ n x a b p0,
  Forall value_swaps vs → points sub_ t → enc_elements o t vs (length a) = Some x → (length a + length x <= end_)%nat →
  fuel_for end_ (length (print t)) p0 f → (p0 <= length a)%nat → Z.of_nat (length x) < DBUS_MAXIMUM_ARRAY_LENGTH →
  (length x <= n)%nat →
  ∃ x', enc_elements o' t (other_elements vs t) (length a) = Some x' ∧ length x' = length x
    ∧ swap_elements (byteswap_body_helper o f) sub_ n (length a) (length a + length x) (a ++ x ++ b)
      = Some ((length a + length x)%nat, a ++ x' ++ b).
Proof.
  induction vs as [|v vs IH]; intros n x a b p0 Hvs Hpt E Hend Hf Hp Hmax Hn.
  - injection E as <-. exists []. do 2 (split; [done|]). simpl. rewrite Nat.add_0_r.
    destruct n; simpl; by rewrite Nat.ltb_irrefl.
  - simpl in E. destruct (enc o v t (length a)) as [bv|] eqn:Ev; [|done]. simpl in E.
    destruct (enc_elements o t vs _) as [r|] eqn:Er; [|done]. injection E as <-.
    assert (1 <= length bv)%nat as Hb by (by eapply points_nonempty). rewrite length_app in *.
    inversion_clear Hvs as [|? ? Hv Hvs']. destruct n as [|n]; [lia|]. unfold fuel_for in Hf. destruct f as [|f]; [lia|].
    destruct (turn_swaps v t bv f sub_ false a (r ++ b) Hv Ev Hpt ltac:(lia) ltac:(unfold fuel_for; lia) ltac:(lia)) as (bv' & Ev' & Hl & Eh).
    rewrite <-Hl, <-length_app in Er.
    destruct (IH n r (a ++ bv') b p0 Hvs' Hpt Er) as (r' & Er' & Hlr & Es); rewrite ?length_app; try (unfold fuel_for; lia).
    exists (bv' ++ r'). cbn [other_elements enc_elements]. rewrite Ev'. cbn [mbind option_bind]. rewrite <-length_app, Er'.
    cbn [mbind option_bind]. split; [done|]. split; [rewrite length_app; lia|].
    cbn [swap_elements]. rewrite (proj2 (Nat.ltb_lt _ _)) by lia. cbn [negb].
    rewrite <-app_assoc, Eh. cbn [mbind option_bind].
    replace (length a + (length bv + length r))%nat with (length (a ++ bv') + length r)%nat by (rewrite length_app; lia).
    rewrite Es. by rewrite <-!app_assoc.
Qed.

(** An array with the elements [x], at [p]. *)
Definition array_text (ord : byte_order) (p al : nat) (x : bytes) : bytes :=
  padding p 4 ++ octets ord 4 (Z.of_nat (length x)) ++ padding (align_up p 4 + 4) al ++ x.

Abbreviation elem_type_of t t' := (match t with TDict _ _ => DBUS_TYPE_DICT_ENTRY | _ => typecode t' end).

Lemma elem_alignment reader t t' :
  points reader t → element_ty t = Some t' → _dbus_type_get_alignment (elem_type_of t t') = element_alignment t.
Proof. intros _ Ht. destruct t as [|t1| |k v]; try done. by injection Ht as <-. Qed.

Lemma swap_array_rule helper reader t t' (x x' : bytes) a b :
  points reader t → element_ty t = Some t' → Z.of_nat (length x) < DBUS_MAXIMUM_ARRAY_LENGTH → length x' = length x →
  (∀ sub_ a2, points sub_ t' → length a2 = align_up (align_up (length a) 4 + 4) (element_alignment t) →
    (if dbus_type_is_fixed (elem_type_of t t') then
       block ← (if (1 <? element_alignment t)%nat then
                  d ← mem_read (a2 ++ x ++ b) (length a2) (length x / element_alignment t * element_alignment t);
                  mem_write (a2 ++ x ++ b) (length a2) (_dbus_swap_array d (length x / element_alignment t) (element_alignment t))
                else Some (a2 ++ x ++ b));
       Some ((length a2 + length x)%nat, block)
     else swap_elements helper sub_ (length x) (length a2) (length a2 + length x) (a2 ++ x ++ b))
    = Some ((length a2 + length x)%nat, a2 ++ x' ++ b)) →
  swap_array_value o helper reader (length a) (a ++ array_text o (length a) (element_alignment t) x ++ b)
  = Some ((length a + length (array_text o (length a) (element_alignment t) x))%nat,
          a ++ array_text o' (length a) (element_alignment t) x' ++ b).
Proof.
  intros Hpt Ht Hmax Hl Hels. destruct (array_points reader t t' Hpt Ht) as (sub_ & Hrec & Hsub & Helem).
  pose proof (element_alignment_ok _ _ _ Hpt Ht) as Hal. pose proof (elem_alignment _ _ _ Hpt Ht) as Ha.
  unfold swap_array_value, array_text. set (n := element_alignment t) in *. set (len := Z.of_nat (length x)) in *.
  set (pad := padding (align_up (length a) 4 + 4) n).
  assert (0 <= len < 2 ^ 32) as Hlen by (unfold DBUS_MAXIMUM_ARRAY_LENGTH in Hmax; lia).
  pose proof (swap_length_rule a len (pad ++ x ++ b) Hlen) as E. rewrite <-!app_assoc in *. rewrite E. cbn [mbind option_bind].
  rewrite Helem. cbn [mbind option_bind]. rewrite Ha. assert (1 <= n)%nat as Hn.
  { unfold is_alignment in Hal. rewrite !elem_of_cons, elem_of_nil in Hal. lia. }
  assert (len / Z.of_nat n < DBUS_MAXIMUM_ARRAY_LENGTH) as Hdiv.
  { apply (Z.le_lt_trans _ len); [|done]. apply Z.div_le_upper_bound; [lia|]. nia. }
  rewrite (proj2 (Z.ltb_lt _ _)) by done. cbn [negb].
  set (a1 := a ++ padding (length a) 4 ++ octets o' 4 len).
  assert (length (a ++ padding (length a) 4 ++ octets o 4 len) = length a1) as -> by (unfold a1; rewrite !length_app, !length_octets; done).
  assert (align_up (length a) 4 + 4 = length a1)%nat as E1.
  { unfold a1. rewrite !length_app, length_octets, (align_up_pad _ 4) by alignment. lia. }
  unfold pad. rewrite E1 in *. rewrite (aligned_at a1 n Hal) in *. set (a2 := a1 ++ padding (length a1) n) in *.
  assert (a ++ padding (length a) 4 ++ octets o' 4 len ++ padding (length a1) n ++ x ++ b = a2 ++ x ++ b) as ->.
  { unfold a2, a1. by rewrite <-!app_assoc. }
  assert (Z.to_nat len = length x) as -> by apply Nat2Z.id. specialize (Hels sub_ a2 Hsub eq_refl). rewrite Hrec.
  assert (length a + length (padding (length a) 4 ++ octets o 4 len ++ padding (length a1) n ++ x) = length a2 + length x)%nat as ->.
  { unfold a2, a1. rewrite !length_app, !length_octets. lia. }
  cbn [mbind option_bind]. rewrite Hels. rewrite Hl. fold len. unfold a2, a1. by rewrite <-!app_assoc.
Qed.

Lemma enc_array_text ord p n els x :
  els (align_up (align_up p 4 + 4) n) = Some x → Z.of_nat (length x) <= DBUS_MAXIMUM_ARRAY_LENGTH →
  enc_array ord p n els = Some (array_text ord p n x).
Proof. intros E Hl. unfold enc_array. rewrite E. cbn [mbind option_bind]. by rewrite (proj2 (Z.ltb_ge _ _)) by done. Qed.

Lemma length_array_text ord ord' p n x x' :
  length x' = length x → length (array_text ord' p n x') = length (array_text ord p n x).
Proof. intros Hl. unfold array_text. by rewrite !length_app, !length_octets, Hl. Qed.

(** Booleans are swapped like numbers. *)
Lemma booleans_swap vs : ∀ x p,
  enc_elements o (TLeaf "b") vs p = Some x → (p mod 4 = 0)%nat →
  length x = (length vs * 4)%nat
  ∧ enc_elements o' (TLeaf "b") (other_elements vs (TLeaf "b")) p = Some (rev_groups 4 (length vs) x).
Proof.
  induction vs as [|v vs IH]; intros x p E Hp; [by injection E as <-|]. cbn [enc_elements] in E. rewrite enc_eq in E.
  destruct v as [b| | | | |]; try done. destruct (basic_ok "b" b) eqn:Ok; [|done]. cbn [mbind option_bind] in E.
  destruct (enc_elements o _ vs _) as [r|] eqn:Er; [|done]. injection E as <-.
  pose proof Ok as Ok'. unfold basic_ok in Ok'. simpl in Ok'. destruct b as [| |z| |]; try done.
  assert (∀ ord, wire ord p "b" (U32 z) = octets ord 4 (if z =? 0 then 0 else 1)) as Ew.
  { intros ord. unfold wire, padding. simpl. by rewrite (align_up_aligned p 4 ltac:(alignment) Hp), Nat.sub_diag. }
  rewrite Ew, length_octets in Er. destruct (IH r (p + 4)%nat Er) as [Hl E']; [by rewrite Nat.add_mod, Hp by lia|].
  rewrite Ew, length_app, length_octets. cbn [length]. split; [lia|].
  cbn [other_elements other_val enc_elements rev_groups]. rewrite enc_eq, Ok. cbn [mbind option_bind]. rewrite Ew, length_octets, E'.
  cbn [mbind option_bind]. rewrite take_app_length', drop_app_length' by (by rewrite length_octets). by rewrite octets_other.
Qed.

Lemma other_array vs t t' : element_ty t = Some t' → other_val (VArray vs) t = VArray (other_elements vs t').
Proof. destruct t; try done; by intros [= <-]. Qed.

(** What the loops over the elements [x] at [p2] do. *)
Definition elements_done (f : nat) (t t' : ty) (p2 : nat) (x x' b : bytes) : Prop :=
  ∀ sub_ a2, points sub_ t' → length a2 = p2 →
  let n := element_alignment t in
  (if dbus_type_is_fixed (elem_type_of t t') then
     block ← (if (1 <? n)%nat then
                d ← mem_read (a2 ++ x ++ b) (length a2) (length x / n * n);
                mem_write (a2 ++ x ++ b) (length a2) (_dbus_swap_array d (length x / n) n)
              else Some (a2 ++ x ++ b));
     Some ((length a2 + length x)%nat, block)
   else swap_elements (byteswap_body_helper o f) sub_ (length x) (length a2) (length a2 + length x) (a2 ++ x ++ b))
  = Some ((length a2 + length x)%nat, a2 ++ x' ++ b).

Lemma array_elements_swap vs f reader t t' p2 x b p0 :
  Forall value_swaps vs → points reader t → element_ty t = Some t' → (raw_element t' = false ∨ ∃ k v, t = TDict k v) →
  enc_elements o t' vs p2 = Some x → (p2 mod element_alignment t = 0)%nat → (p2 + length x <= end_)%nat →
  fuel_for end_ (length (print t')) p0 f → (p0 <= p2)%nat → Z.of_nat (length x) < DBUS_MAXIMUM_ARRAY_LENGTH →
  ∃ x', enc_elements o' t' (other_elements vs t') p2 = Some x' ∧ length x' = length x ∧ elements_done f t t' p2 x x' b.
Proof.
  intros Hvs Hpt Ht Hraw Ex Hmod Hend Hf Hp Hmax.
  destruct (dbus_type_is_fixed (elem_type_of t t')) eqn:Efix.
  - assert (t = TArray (TLeaf "b") ∧ t' = TLeaf "b") as [-> ->].
    { destruct t as [|t1| |k v]; try done. injection Ht as <-. rewrite typecode_fixed in Efix. destruct t1 as [c| | |]; try done.
      destruct Hraw as [Hraw|(k & v & ?)]; [|done]. simpl in Hraw. rewrite Efix in Hraw. simpl in Hraw.
      apply negb_false_iff, byte_eqb_eq in Hraw. by subst c. }
    destruct (booleans_swap vs x p2 Ex Hmod) as [Hl E']. exists (rev_groups 4 (length vs) x). split; [done|].
    split; [apply length_rev_groups|]. intros sub_ a2 _ _. cbv zeta. rewrite Efix.
    change (element_alignment (TArray (TLeaf "b"))) with 4%nat. rewrite (swap_fixed_rule 4 a2 x b) by auto.
    unfold swapped_raw. by rewrite Hl, Nat.div_mul by lia.
  - destruct (array_points reader t t' Hpt Ht) as (s0 & _ & Hs0 & _).
    assert (∀ sub_ a2, points sub_ t' → length a2 = p2 →
      ∃ x', enc_elements o' t' (other_elements vs t') p2 = Some x' ∧ length x' = length x
        ∧ swap_elements (byteswap_body_helper o f) sub_ (length x) (length a2) (length a2 + length x) (a2 ++ x ++ b)
          = Some ((length a2 + length x)%nat, a2 ++ x' ++ b)) as Hone.
    { intros sub_ a2 Hs Ha2. rewrite <-Ha2 in *. apply (elements_swap f sub_ t' vs (length x) x a2 b p0); done. }
    destruct (Hone s0 (replicate p2 x00) Hs0 (length_replicate _ _)) as (x' & Ex' & Hl & _). exists x'. do 2 (split; [done|]).
    intros sub_ a2 Hs Ha2. cbv zeta. rewrite Efix. destruct (Hone sub_ a2 Hs Ha2) as (x'' & Ex'' & _ & Eq).
    rewrite Ex' in Ex''. by injection Ex'' as <-.
Qed.

Lemma array_swaps vs : Forall value_swaps vs → value_swaps (VArray vs).
Proof.
  intros Hvs t bs f reader c a b E Hpt Hc Hend Hf Hmax. rewrite enc_eq in E.
  assert (∃ t', element_ty t = Some t' ∧ (raw_element t' = false ∨ ∃ k v, t = TDict k v)
    ∧ enc_array o (length a) (element_alignment t) (enc_elements o t' vs) = Some bs) as (t' & Ht & Hraw & E').
  { destruct t as [|t1| |k v]; try done.
    - exists t1. destruct (raw_element t1); [done|]. auto.
    - exists (TStruct [k; v]). eauto. }
  clear E. destruct (points_current _ _ Hpt) as (c' & Hc' & _ & Hcase). rewrite Hc in Hc'. injection Hc' as <-.
  pose proof (element_alignment_ok _ _ _ Hpt Ht) as Hal. destruct (enc_array_inv _ _ _ _ _ E') as (x & Ex & _ & ->).
  set (n := element_alignment t) in *. set (p2 := align_up (align_up (length a) 4 + 4) n) in *.
  change (padding (length a) 4 ++ _) with (array_text o (length a) n x) in *.
  pose proof (array_end o (length a) n x Hal) as Hae. fold p2 in Hae. change (padding (length a) 4 ++ _) with (array_text o (length a) n x) in Hae.
  assert (length x <= length (array_text o (length a) n x))%nat as Hxl by (unfold array_text; rewrite !length_app; lia).
  assert (c = DBUS_TYPE_ARRAY) as -> by (by destruct t).
  destruct (align_up_spec (length a) 4 ltac:(alignment)) as [H4 _]. destruct (align_up_spec (align_up (length a) 4 + 4) n Hal) as [Hap Hmod].
  fold p2 in Hap, Hmod.
  destruct (array_elements_swap vs f reader t t' p2 x b (length a) Hvs Hpt Ht Hraw Ex Hmod) as (x' & Ex' & Hl & Hels); try lia.
  { unfold fuel_for in *. assert (length (print t') < length (print t))%nat; [|lia].
    destruct t as [|t1| |k v]; try done; injection Ht as <-; simpl; [lia|]. rewrite app_nil_r, !length_app. simpl. lia. }
  exists (array_text o' (length a) n x'). split; [|split; [by apply length_array_text|]].
  - rewrite (other_array _ _ _ Ht), enc_eq.
    assert (enc_array o' (length a) n (enc_elements o' t' (other_elements vs t')) = Some (array_text o' (length a) n x')) as Ea.
    { apply enc_array_text; [done|lia]. }
    destruct t as [|t1| |k v]; try done; injection Ht as <-; [|done]. destruct Hraw as [-> |(k & v & ?)]; done.
  - unfold swap_value. simpl. byte_tests. eapply (swap_array_rule _ reader t t'); try done. lia.
Qed.

Lemma raw_swaps bs' : value_swaps (VRaw bs').
Proof.
  intros t bs f reader c a b E Hpt Hc Hend Hf Hmax. rewrite enc_eq in E. destruct t as [|t1| |]; try done.
  destruct (raw_element t1) eqn:Hraw; [|done].
  destruct (points_current _ _ Hpt) as (c' & Hc' & _ & ->). rewrite Hc in Hc'. injection Hc' as ->.
  pose proof (element_alignment_ok _ _ t1 Hpt eq_refl) as Hal.
  destruct (enc_array_inv _ _ _ _ _ E) as (x & [= <-] & _ & ->).
  change (typecode_alignment t1) with (element_alignment (TArray t1)) in *. set (n := element_alignment (TArray t1)) in *.
  change (padding (length a) 4 ++ _) with (array_text o (length a) n bs') in *.
  assert (length bs' <= length (array_text o (length a) n bs'))%nat as Hxl by (unfold array_text; rewrite !length_app; lia).
  assert (n = 1 ∨ n = 2 ∨ n = 4 ∨ n = 8)%nat as Hn.
  { unfold is_alignment in Hal. rewrite !elem_of_cons, elem_of_nil in Hal. destruct Hal as [?|[?|[?|[?|[]]]]]; auto. }
  assert (length (swapped_raw n bs') = length bs') as Hl by apply length_rev_groups.
  exists (array_text o' (length a) n (swapped_raw n bs')). split; [|split; [by apply length_array_text|]].
  - cbn [other_val]. rewrite enc_eq, Hraw. change (typecode_alignment t1) with n. apply enc_array_text; [done|lia].
  - unfold swap_value. simpl. byte_tests. apply (swap_array_rule _ reader (TArray t1) t1); try done; [lia|].
    intros sub_ a2 _ _. fold n. rewrite typecode_fixed. destruct t1 as [c1| | |]; try done. simpl in Hraw.
    apply andb_true_iff in Hraw as [Hfix _]. rewrite Hfix. by rewrite swap_fixed_rule by done.
Qed.

(** The parts of an encoded signature. *)
Lemma signature_text ts s :
  enc_signature ts = Some s →
  ∃ c, s = [c] ++ print_sig ts ++ [x00] ∧ Z.to_nat (b2z c) = length (print_sig ts)
    ∧ sig_ok accepted_key ts = true ∧ (length (print_sig ts) <= DBUS_MAXIMUM_SIGNATURE_LENGTH)%nat.
Proof.
  unfold enc_signature. destruct (_ && _) eqn:E; [|done]. intros [= <-].
  apply andb_true_iff in E as [Hok Hlen]. apply Nat.leb_le in Hlen. eexists. split; [reflexivity|].
  split; [|done]. rewrite b2z_z2b, Z.mod_small; unfold DBUS_MAXIMUM_SIGNATURE_LENGTH in *; lia.
Qed.

Lemma variant_swaps t' v : value_swaps v → value_swaps (VVariant t' v).
Proof.
  intros Hv t bs f reader c a b E Hpt Hc Hend Hf Hmax. rewrite enc_eq in E. destruct t as [c'| | |]; try done.
  destruct (points_current _ _ Hpt) as (c1 & Hc1 & _ & Hcase & _). rewrite Hc in Hc1.
  injection Hc1 as <-. subst c'. destruct (c =b "v"%byte) eqn:Ec; [|done]. apply byte_eqb_eq in Ec as ->.
  destruct (enc_signature [t']) as [s|] eqn:Es; [|done]. simpl in E.
  destruct (enc o v t' (length a + length s)) as [bv|] eqn:Eb; [|done]. injection E as <-.
  destruct (signature_text _ _ Es) as (cl & Hs & Hn & Hok & Hlen).
  unfold sig_ok in Hok. simpl in Hok. rewrite andb_true_r in Hok.
  assert (print_sig [t'] = print t') as Ep by apply app_nil_r. rewrite Ep in *.
  assert (length s = length (print t') + 2)%nat as Hsl by (rewrite Hs, !length_app; simpl; lia).
  pose proof (valid_type_alignment _ (typecode_valid _ _ _ _ Hok)) as Hal. fold (typecode_alignment t') in Hal.
  rewrite <-length_app in Eb. destruct (enc_padded _ _ _ _ _ Eb Hal) as (b' & -> & Eb').
  set (n := typecode_alignment t') in *. rewrite (aligned_at (a ++ s) n Hal) in Eb'. set (a3 := (a ++ s) ++ padding (length (a ++ s)) n) in *.
  assert (a ++ (s ++ padding (length (a ++ s)) n ++ b') ++ b = a3 ++ b' ++ b) as Eblk by (unfold a3; by rewrite <-!app_assoc).
  assert (length a + length (s ++ padding (length (a ++ s)) n ++ b') = length a3 + length b')%nat as Epos.
  { unfold a3. rewrite !length_app. lia. }
  assert (length a < length a3)%nat as Hlt by (unfold a3; rewrite !length_app; lia).
  rewrite length_app in Hmax. rewrite length_app in Hmax. rewrite Epos in Hend. unfold fuel_for in Hf. simpl in Hf.
  assert (∃ q, drop (length a + 1) (a3 ++ b' ++ b) = print t' ++ x00 :: q) as [q Eq].
  { exists (padding (length (a ++ s)) n ++ b' ++ b). rewrite <-Eblk, Hs, <-drop_drop, drop_app_length. simpl. by rewrite <-!app_assoc. }
  set (rd := _dbus_type_reader_init_types_only (print t' ++ x00 :: q) 0).
  assert (points rd t') as Hrd by exact (points_type KBody [] t' (x00 :: q) _ _ _ Hok).
  unfold DBUS_MAXIMUM_SIGNATURE_LENGTH in Hlen. destruct f as [|f]; [lia|].
  destruct (turn_swaps v t' b' f rd false a3 b Hv Eb' Hrd) as (b2 & E2 & Hl2 & Eh); [lia|unfold fuel_for; lia|lia|].
  exists (s ++ padding (length (a ++ s)) n ++ b2). split; [|split; [rewrite !length_app; lia|]].
  - cbn [other_val]. rewrite enc_eq. byte_tests. rewrite Es. cbn [mbind option_bind]. rewrite <-length_app.
    rewrite (enc_realign o' _ _ (length (a ++ s)) b2); [done|fold n; by rewrite (aligned_at (a ++ s) n Hal)|done].
  - unfold swap_value. simpl. byte_tests. unfold swap_variant. rewrite Epos, Eblk.
    assert (mem_read (a3 ++ b' ++ b) (length a) 1 = Some [cl]) as ->.
    { rewrite <-Eblk, Hs, <-!app_assoc. by apply read_at. }
    cbn [mbind option_bind]. change (byte_at [cl] 0) with cl. rewrite Hn, Eq.
    pose proof (first_type_print [] t' (x00 :: q) _ _ _ _ Hok) as Ef. simpl in Ef. rewrite Ef. fold rd. fold (typecode_alignment t'). fold n.
    replace (length a + 1 + (length (print t') + 1))%nat with (length (a ++ s)) by (rewrite length_app; lia).
    rewrite (aligned_at (a ++ s) n Hal). fold a3. etransitivity; [exact Eh|]. rewrite length_app, Hl2. unfold a3. by rewrite <-!app_assoc.
Qed.

(** The walk over the fields of a struct or dict entry. *)
Lemma fields_swap vs : ∀ ts bs f reader a b,
  Forall value_swaps vs → enc_fields o vs ts (length a) = Some bs → fields_at reader ts → (length a + length bs <= end_)%nat →
  fuel_for end_ (length (flat_map print ts)) (length a) f → Z.of_nat (length bs) < DBUS_MAXIMUM_ARRAY_LENGTH →
  ∃ bs', enc_fields o' (other_fields vs ts) ts (length a) = Some bs' ∧ length bs' = length bs
    ∧ byteswap_body_helper o f reader true (length a) (a ++ bs ++ b) = Some ((length a + length bs)%nat, a ++ bs' ++ b).
Proof.
  induction vs as [|v vs IH]; intros ts bs f reader a b Hvs E Hfa Hend Hf Hmax;
    destruct Hfa as [k pre ts post sd dd Hws Hne]; (destruct ts as [|t ts]; [done|]); [done|].
  simpl in E. destruct (enc o v t (length a)) as [bv|] eqn:Ev; [|done]. simpl in E.
  destruct (enc_fields o vs ts _) as [r|] eqn:Er; [|done]. injection E as <-. rewrite length_app in *.
  inversion_clear Hvs as [|? ? Hv Hvs']. simpl in Hws. apply andb_true_iff in Hws as [Hw Hws].
  simpl flat_map in *. rewrite <- app_assoc. unfold fuel_for in Hf. rewrite length_app in Hf.
  assert (points (types_at (kind_of_fields k) false (pre ++ print t ++ flat_map print ts ++ close_of k :: post)
    (length pre)) t) as Hpt by (by econstructor).
  assert (1 <= length bv)%nat as Hbv by (by eapply points_nonempty). pose proof (print_length t) as Hpl.
  destruct f as [|[|f]]; [lia|lia|].
  destruct (turn_swaps v t bv (S f) _ true a (r ++ b) Hv Ev Hpt ltac:(lia) ltac:(unfold fuel_for; lia) ltac:(lia)) as (bv' & Ev' & Hl & Eh).
  rewrite <-app_assoc, Eh. rewrite reader_next_S. rewrite (current_type_print _ _ _ _ _ _ _ _ Hw). cbn [mbind option_bind].
  destruct (typecode_codes _ _ _ _ _ Hw) as (-> & _).
  rewrite (fields_next k pre t (flat_map print ts ++ close_of k :: post) f _ _ _ _ (base_next_print t) Hw) by lia.
  cbn [other_fields enc_fields]. rewrite Ev'. cbn [mbind option_bind]. rewrite Hl.
  destruct ts as [|t2 ts].
  - destruct vs; [|done]. injection Er as <-. simpl flat_map.
    change (byte_at ([] ++ close_of k :: post) 0) with (close_of k). rewrite byte_eqb_refl.
    cbn [mbind option_bind]. rewrite current_type_finished. cbn [mbind option_bind byteswap_body_helper].
    rewrite current_type_finished. cbn [mbind option_bind]. exists bv'. simpl. rewrite app_nil_r. do 2 (split; [lia || done|]).
    byte_tests. rewrite length_app, Hl, <-app_assoc. do 2 f_equal. lia.
  - pose proof Hws as Hws'. simpl in Hws'. apply andb_true_iff in Hws' as [Hw2 Hws2].
    destruct (print_head_open _ _ _ _ t2 (flat_map print ts ++ close_of k :: post) Hw2) as (G1 & G2 & _).
    pose proof (fields_intro k (pre ++ print t) (t2 :: ts) post sd dd Hws ltac:(done)) as Hfa.
    pose proof (current_type_print (kind_of_fields k) (pre ++ print t) t2
      (flat_map print ts ++ close_of k :: post) _ _ _ _ Hw2) as Ec.
    simpl flat_map in *. rewrite (length_app pre) in Ec, Hfa. repeat rewrite <- app_assoc in Ec.
    repeat rewrite <- app_assoc in Hfa. repeat rewrite <- app_assoc.
    assert (byte_at (print t2 ++ flat_map print ts ++ close_of k :: post) 0 =b close_of k = false) as -> by (by destruct k).
    cbn [mbind option_bind]. rewrite Ec. cbn [mbind option_bind]. rewrite <-Hl, <-length_app in Er.
    destruct (IH (t2 :: ts) r (S f) _ (a ++ bv') b Hvs' Er Hfa) as (r' & Er' & Hlr & Eq).
    { rewrite length_app. lia. } { unfold fuel_for. cbn [flat_map]. rewrite ?length_app in *. lia. } { lia. }
    exists (bv' ++ r'). rewrite <-Hl, <-length_app, Er'. cbn [mbind option_bind]. split; [done|]. split; [rewrite length_app; lia|].
    rewrite <-!app_assoc in Eq. etransitivity; [exact Eq|]. rewrite length_app, <-(app_assoc bv'). do 2 f_equal. lia.
Qed.

Lemma struct_swaps vs : Forall value_swaps vs → value_swaps (VStruct vs).
Proof.
  intros Hvs t bs f reader c a b E Hpt Hc Hend Hf Hmax. rewrite enc_eq in E. destruct t as [| |ts|]; try done.
  destruct (enc_fields o vs ts (align_up (length a) 8)) as [x|] eqn:Ex; [|done]. injection E as <-.
  destruct (points_current _ _ Hpt) as (c' & Hc' & _ & Hcase). rewrite Hc in Hc'. injection Hc' as <-.
  assert (is_alignment 8) as Hal by alignment. rewrite (aligned_at a 8 Hal) in Ex. rewrite length_app in Hend, Hmax.
  set (a2 := a ++ padding (length a) 8) in *. assert (length a2 = length a + length (padding (length a) 8))%nat as Ha2 by apply length_app.
  destruct (struct_points reader ts Hpt) as (sub_ & Hrec & Hsub).
  destruct (fields_swap vs ts x f sub_ a2 b Hvs Ex Hsub) as (x' & Ex' & Hl & Eq); [lia| |lia|].
  { unfold fuel_for in *. simpl in Hf. rewrite length_app in Hf. lia. }
  exists (padding (length a) 8 ++ x'). split; [|split; [rewrite !length_app; lia|]].
  - change (other_val (VStruct vs) (TStruct ts)) with (VStruct (other_fields vs ts)). rewrite enc_eq, (aligned_at a 8 Hal). fold a2. by rewrite Ex'.
  - assert (swap_struct (byteswap_body_helper o f) reader (length a) (a ++ (padding (length a) 8 ++ x) ++ b)
      = Some ((length a + length (padding (length a) 8 ++ x))%nat, a ++ (padding (length a) 8 ++ x') ++ b)) as Hs.
    { unfold swap_struct. rewrite Hrec. cbn [mbind option_bind]. rewrite (aligned_at a 8 Hal). fold a2.
      rewrite <-!app_assoc, !(app_assoc a). fold a2. rewrite Eq, Ha2, length_app. do 2 f_equal. lia. }
    unfold swap_value. destruct Hcase as [-> | ->]; simpl; byte_tests; exact Hs.
Qed.

Lemma all_values_swap v : value_swaps v.
Proof.
  induction v as [b|ts|t' v IH|vs IH|bs'|vs IH] using val_ind'.
  - intros t bs f reader c a r E Hpt Hc Hend Hf Hmax. rewrite enc_eq in E. destruct t as [c'| | |]; try done.
    destruct (points_current _ _ Hpt) as (c1 & Hc1 & _ & Hcase & _). rewrite Hc in Hc1. injection Hc1 as <-.
    subst c'. destruct (basic_ok c b) eqn:Ok; [|done]. injection E as <-. exists (wire o' (length a) c b).
    split; [cbn [other_val]; by rewrite enc_eq, Ok|]. split; [|by apply basic_swaps].
    unfold wire, wire_body. rewrite !length_app. f_equal.
    destruct (kind_of c) as [[]|]; destruct b; try done; by rewrite ?length_app, !length_octets.
  - intros t bs f reader c a r E Hpt Hc Hend Hf Hmax. rewrite enc_eq in E. destruct t as [c'| | |]; try done.
    destruct (points_current _ _ Hpt) as (c1 & Hc1 & _ & Hcase & _). rewrite Hc in Hc1. injection Hc1 as <-.
    subst c'. destruct (c =b "g"%byte) eqn:Ec; [|done]. apply byte_eqb_eq in Ec as ->. exists bs.
    split; [cbn [other_val]; rewrite enc_eq; by byte_tests|]. split; [done|].
    destruct (signature_text _ _ E) as (cl & -> & Hn & _). unfold swap_value. simpl. unfold swap_signature.
    change (cl :: (print_sig ts ++ [x00]) ++ r) with ([cl] ++ (print_sig ts ++ [x00]) ++ r).
    rewrite (read_at a [cl]) by done. cbn [mbind option_bind]. change (byte_at [cl] 0) with cl.
    rewrite Hn, length_app. do 2 f_equal. simpl. lia.
  - by apply variant_swaps.
  - by apply array_swaps.
  - apply raw_swaps.
  - by apply struct_swaps.
Qed.

(** The walk over the top-level types. *)
Lemma body_swaps vs : ∀ ts bs pre post f a b,
  enc_fields o vs ts (length a) = Some bs → sig_ok accepted_key ts = true → byte_at post 0 = x00 →
  (length a + length bs <= end_)%nat → fuel_for end_ (length (print_sig ts)) (length a) f →
  Z.of_nat (length bs) < DBUS_MAXIMUM_ARRAY_LENGTH →
  ∃ bs', enc_fields o' (other_fields vs ts) ts (length a) = Some bs' ∧ length bs' = length bs
    ∧ byteswap_body_helper o f (types_at KBody false (pre ++ print_sig ts ++ post) (length pre)) true (length a) (a ++ bs ++ b)
      = Some ((length a + length bs)%nat, a ++ bs' ++ b).
Proof.
  unfold print_sig, sig_ok.
  induction vs as [|v vs IH]; intros ts bs pre post f a b E Hok Hpost Hend Hf Hmax; destruct ts as [|t ts]; try done;
    unfold fuel_for in Hf; (destruct f as [|f]; [lia|]).
  - injection E as <-. exists []. do 2 (split; [done|]). rewrite Nat.add_0_r. cbn [byteswap_body_helper].
    unfold _dbus_type_reader_get_current_type, check_finished, _dbus_first_type_in_signature. simpl.
    rewrite <- (Nat.add_0_r (length pre)), byte_at_app, Hpost. done.
  - simpl in E. destruct (enc o v t (length a)) as [bv|] eqn:Ev; [|done]. simpl in E.
    destruct (enc_fields o vs ts _) as [r|] eqn:Er; [|done]. injection E as <-. rewrite length_app in *.
    simpl in Hok. apply andb_true_iff in Hok as [Hw Hok].
    cbn [flat_map] in *. rewrite <- app_assoc. rewrite length_app in Hf. pose proof (print_length t).
    pose proof (points_type KBody pre t (flat_map print ts ++ post) _ _ _ Hw) as Hpt.
    assert (1 <= length bv)%nat as Hbv by (by eapply points_nonempty).
    destruct (turn_swaps v t bv f _ true a (r ++ b) (all_values_swap v) Ev Hpt ltac:(lia) ltac:(unfold fuel_for; lia) ltac:(lia)) as (bv' & Ev' & Hl & Eh).
    rewrite <-(app_assoc bv), Eh. rewrite (body_next pre t (flat_map print ts ++ post) f _ _ _ _ Hw); [|lia|].
    + cbn [mbind option_bind]. rewrite <-Hl, <-length_app in Er.
      destruct (IH ts r (pre ++ print t) post f (a ++ bv') b Er Hok Hpost) as (r' & Er' & Hlr & Eq).
      { rewrite length_app. lia. } { unfold fuel_for. rewrite length_app. lia. } { lia. }
      cbn [other_fields enc_fields]. rewrite Ev'. cbn [mbind option_bind]. rewrite <-(length_app a), Er'. cbn [mbind option_bind].
      exists (bv' ++ r'). split; [done|]. split; [rewrite length_app; lia|].
      rewrite <-(length_app pre), (app_assoc pre). etransitivity; [exact Eq|]. rewrite length_app, Hl, <-!app_assoc. do 2 f_equal. lia.
    + destruct ts as [|t2 ts]; [left; simpl; rewrite Hpost; done|right]. simpl in Hok.
      apply andb_true_iff in Hok as [Hw2 _]. exists t2, (flat_map print ts ++ post). simpl.
      by rewrite <- app_assoc.
Qed.

End rules.

(** ** Strings *)

(** The text changes in place. *)
Lemma is_str_replace t t' q r :
  is_str t r → str r = t ++ q → length t' = length t → is_str t' (Real (t' ++ q) (len r) (max_length r)).
Proof.
  intros Hr Hq Hl. pose proof (is_str_length _ _ Hr) as Hlen. destruct Hr as [(W1 & W2 & W3 & W4) _].
  unfold zlen, allocated in *. rewrite Hq in *. rewrite length_app in *.
  split; [|unfold contents; simpl; apply take_app_length'; lia].
  split; [done|]. unfold zlen, allocated. simpl. rewrite length_app, Hl. do 2 (split; [done|]).
  rewrite <-Hlen in *. rewrite lookup_app_r in W4 by lia. rewrite lookup_app_r by lia. by rewrite Hl.
Qed.

Section strings.
Context `{Host}.

Lemma marshal_byteswap_rule o pre post ts vs a bs b r m :
  sig_ok accepted_key ts = true → byte_at post 0 = x00 → enc_fields o vs ts (length a) = Some bs → is_str (a ++ bs ++ b) r →
  Z.of_nat (length bs) < DBUS_MAXIMUM_ARRAY_LENGTH →
  ∃ bs' r', enc_fields (other o) (other_fields vs ts) ts (length a) = Some bs' ∧ length bs' = length bs
    ∧ _dbus_marshal_byteswap (pre ++ print_sig ts ++ post) (length pre) o (other o) (length a) r m = Ok tt r' m
    ∧ is_str (a ++ bs' ++ b) r'.
Proof.
  intros Hok Hpost E Hr Hmax. destruct (is_str_split _ _ Hr) as [q Hq]. pose proof (is_str_length _ _ Hr) as Hlen.
  destruct (body_swaps o (length (str r)) vs ts bs pre post (body_fuel (pre ++ print_sig ts ++ post) (length (str r))) a (b ++ q)
    E Hok Hpost) as (bs' & E' & Hl & Eq); [rewrite Hq, !length_app; lia| |done|].
  { unfold fuel_for, body_fuel. rewrite !length_app. lia. }
  exists bs', (Real ((a ++ bs' ++ b) ++ q) (len r) (max_length r)). do 2 (split; [done|]). split.
  - unfold _dbus_marshal_byteswap. rewrite at_gets, at_assert by (apply Nat.leb_le; rewrite <-Hlen, !length_app; lia).
    rewrite decide_False by (by destruct o). unfold store. rewrite at_gets.
    change (types_at KBody false ?s ?p) with (_dbus_type_reader_init_types_only s p) in Eq.
    replace (str r) with (a ++ bs ++ b ++ q) in * by (by rewrite Hq, <-!app_assoc).
    rewrite Eq. cbn [mbind option_bind]. rewrite <-!app_assoc. done.
  - apply (is_str_replace (a ++ bs ++ b)); try done. rewrite !length_app. lia.
Qed.

End strings.

(** ** Messages *)

(** The message in the other order.  The byte of the header that names the order is not a
    number and stays as it is. *)
Definition swapped_field (f : field) : field := Field (code f) (field_type f) (other_val (field_value f) (field_type f)).

Definition swapped_header (hv : header_values) : header_values :=
  HeaderValues (hv_order hv) (hv_type hv) (hv_flags hv) (hv_version hv) (hv_body_len hv) (hv_serial hv)
    (swapped_field <$> hv_fields hv).

Definition swapped_message (x : wire_message) : wire_message :=
  WireMessage (other (wm_order x)) (swapped_header (wm_header x)) (other_fields (wm_values x) (signature_of (wm_header x))).

Lemma header_swapped hv : other_fields (values_of hv) header_types = values_of (swapped_header hv).
Proof.
  unfold values_of, swapped_header. cbn [other_fields header_types other_val hv_order hv_type hv_flags hv_version hv_body_len hv_serial hv_fields].
  do 7 f_equal. change (other_val (VArray (field_val <$> hv_fields hv)) (TArray field_ty))
    with (VArray (other_elements (field_val <$> hv_fields hv) field_ty)). f_equal.
  induction (hv_fields hv) as [|f fs IH]; [done|]. cbn [fmap list_fmap other_elements]. by f_equal.
Qed.

Lemma signature_swapped hv : signature_of (swapped_header hv) = signature_of hv.
Proof.
  unfold signature_of, swapped_header. cbn [hv_fields].
  assert (∀ fs, find_field 8 (swapped_field <$> fs) = swapped_field <$> find_field 8 fs) as ->.
  { unfold find_field. induction fs as [|f fs IH]; [done|]. cbn [fmap list_fmap List.find]. change (code_nat (swapped_field f)) with (code_nat f).
    by destruct (code_nat f =? 8)%nat. }
  destruct (find_field 8 (hv_fields hv)) as [f|]; [|done]. simpl. destruct (field_value f), (field_type f); done.
Qed.

Section messages.
Context `{Host}.

Lemma order_byte_inj o1 o2 : order_byte o1 = order_byte o2 → o1 = o2.
Proof. by destruct o1, o2. Qed.

(** A message that came in the other order, after swapping. *)
Lemma message_byteswap_rule w a y x m :
  heap w !! a = Some y → carries y x → hv_order (wm_header x) = order_byte (wm_order x) →
  wm_order x = other DBUS_COMPILER_BYTE_ORDER →
  (∀ t, wm_bytes x = Some t → Z.of_nat (length t) < DBUS_MAXIMUM_ARRAY_LENGTH) →
  ∃ y', _dbus_message_byteswap a w m = Ok tt (set_at a y' w) m ∧ live y'
    ∧ msg_byte_order y' = DBUS_COMPILER_BYTE_ORDER ∧ header_order (msg_header y') = DBUS_COMPILER_BYTE_ORDER
    ∧ fields (msg_header y') = fields (msg_header y)
    ∧ ∃ th tb, wm_head (swapped_message x) = Some th ∧ wm_body (swapped_message x) = Some tb
        ∧ is_str th (data (msg_header y')) ∧ is_str tb (msg_body y').
Proof.
  intros Hy [Hlive Ho (th & Eh & Hshow) (tb & Eb & Hb)] Hord Hother Hmax.
  assert (header_order (msg_header y) = wm_order x) as Hho.
  { apply order_byte_inj. by rewrite (shows_order _ _ _ Hshow). }
  pose proof (shows_data _ _ _ Hshow) as Hd. assert (Z.of_nat (length (th ++ tb)) < DBUS_MAXIMUM_ARRAY_LENGTH) as Hlt.
  { apply Hmax. unfold wm_bytes. by rewrite Eh, Eb. }
  rewrite length_app in Hlt. unfold wm_head in Eh. destruct (header_bytes _ _) as [bs|] eqn:Ebs; [|done].
  injection Eh as <-. rewrite length_app in Hlt. unfold header_bytes in Ebs. unfold wm_body in Eb.
  destruct (signature_rule a y _ (wm_header x) w m Hy Hshow) as (pre & post & Esig & Hpost & Hok).
  destruct (marshal_byteswap_rule (wm_order x) pre post _ (wm_values x) [] tb [] (msg_body y) m Hok Hpost Eb) as (tb' & rb & Eb' & _ & Erunb & Hrb);
    [by rewrite app_nil_r|lia|].
  destruct (marshal_byteswap_rule (wm_order x) [] [] header_types (values_of (wm_header x)) [] bs (padding (length bs) 8) (data (msg_header y)) m
    header_types_ok eq_refl Ebs) as (bs' & rh & Eh' & Hlh & Erunh & Hrh); [done|lia|].
  assert (other (wm_order x) = DBUS_COMPILER_BYTE_ORDER) as Eo by (rewrite Hother; by destruct DBUS_COMPILER_BYTE_ORDER).
  assert (wm_order x ≠ DBUS_COMPILER_BYTE_ORDER) as Hne by (rewrite Hother; by destruct DBUS_COMPILER_BYTE_ORDER).
  rewrite !Eo in *. rewrite app_nil_r in Hrb. simpl in Hrb, Hrh. change ([] ++ print_sig header_types ++ []) with DBUS_HEADER_SIGNATURE in Erunh. cbn [length] in Erunh, Erunb, Eh', Eb'.
  set (h' := Header rh (fields (msg_header y)) (padding_len (msg_header y)) DBUS_COMPILER_BYTE_ORDER).
  exists (with_header h' (with_byte_order DBUS_COMPILER_BYTE_ORDER (with_body rb y))).
  assert (_dbus_header_byteswap DBUS_COMPILER_BYTE_ORDER (msg_header y) m = Ok tt h' m) as Ehs.
  { unfold _dbus_header_byteswap. rewrite at_gets, Hho, decide_False by done. erewrite at_ok; [|unfold on_data; by rewrite Erunh]. done. }
  split.
  - unfold _dbus_message_byteswap. rewrite (at_get_message a y) by done. rewrite Ho, decide_False by done.
    rewrite (at_ok _ _ _ _ _ _ _ Esig). rewrite (at_ok _ tt (set_at a (with_body rb y) w) m) by (by rewrite (on_body_run a y), Erunb).
    rewrite (at_set_message a (with_body rb y)) by apply set_at_same. change (with_heap (insert a ?z) ?v) with (set_at a z v).
    rewrite set_at_twice. rewrite (on_header_run a (with_byte_order DBUS_COMPILER_BYTE_ORDER (with_body rb y))) by apply set_at_same.
    cbn [msg_header with_byte_order with_body]. rewrite Ehs. by rewrite set_at_twice.
  - split; [destruct Hlive; constructor; [done|done|by eexists|by eexists]|]. do 3 (split; [done|]).
    exists (bs' ++ padding (length bs') 8), tb'. split; [|split; [|split]].
    + unfold wm_head, swapped_message, header_bytes. cbn [wm_order wm_header]. rewrite Eo, <-header_swapped. by rewrite Eh'.
    + unfold wm_body, swapped_message. cbn [wm_order wm_header wm_values]. by rewrite Eo, signature_swapped.
    + by rewrite Hlh.
    + done.
Qed.

End messages.

(** ** Theorems *)

Section theorems.
Context `{Host}.

(** C15: Swapping a body in place turns the encoding of values in one byte order into the
    encoding of the same values in the other, on hosts of either order, if the body is
    shorter than DBUS_MAXIMUM_ARRAY_LENGTH: it stays inside
    the memory of the string, meets no failing assertion, and does not change what is
    in front of the values or behind them. *)
Theorem byteswap_correct (o : byte_order) (pre post : bytes) (ts : list ty) (vs : list val) (a bs b : bytes)
    (r : DBusRealString) (m : mem) :
  sig_ok accepted_key ts = true → byte_at post 0 = x00 → enc_fields o vs ts (length a) = Some bs → is_str (a ++ bs ++ b) r →
  Z.of_nat (length bs) < DBUS_MAXIMUM_ARRAY_LENGTH →
  ∃ bs' r', enc_fields (other o) (other_fields vs ts) ts (length a) = Some bs'
    ∧ _dbus_marshal_byteswap (pre ++ print_sig ts ++ post) (length pre) o (other o) (length a) r m = Ok tt r' m
    ∧ is_str (a ++ bs' ++ b) r'.
Proof.
  intros Hok Hpost E Hr Hmax.
  destruct (marshal_byteswap_rule o pre post ts vs a bs b r m Hok Hpost E Hr Hmax) as (bs' & r' & E' & _ & Erun & Hr').
  by exists bs', r'.
Qed.

(** A message that came in the other byte order is in the order of the host after
    swapping: its header and its body are the encodings of the same values; but the
    byte of the header that names the order still names the old one, so that the bytes
    that would be sent on are not those of a valid message. *)
Theorem swapped_message_names_old_order (w : world) (a : nat) (y : DBusMessage) (x : wire_message) (m : mem) :
  heap w !! a = Some y → carries y x → valid_message (DBUS_MAXIMUM_ARRAY_LENGTH - 1) x →
  wm_order x = other DBUS_COMPILER_BYTE_ORDER →
  ∃ y' th tb, _dbus_message_byteswap a w m = Ok tt (set_at a y' w) m
    ∧ msg_byte_order y' = DBUS_COMPILER_BYTE_ORDER ∧ header_order (msg_header y') = DBUS_COMPILER_BYTE_ORDER
    ∧ wm_head (swapped_message x) = Some th ∧ is_str th (data (msg_header y'))
    ∧ wm_body (swapped_message x) = Some tb ∧ is_str tb (msg_body y')
    ∧ head th = Some (order_byte (other DBUS_COMPILER_BYTE_ORDER))
    ∧ ∀ max_, ¬ valid_message max_ (swapped_message x).
Proof.
  intros Hy Hc [Hord _ (hb & bb & Ehb & Ebb & _ & Hle)] Ho.
  destruct (message_byteswap_rule w a y x m Hy Hc Hord Ho) as (y' & E & _ & H1 & H2 & _ & th & tb & Eh & Eb & Hh & Hb).
  { intros t Ht. unfold wm_bytes in Ht. rewrite Ehb, Ebb in Ht. injection Ht as <-. lia. }
  exists y', th, tb. do 7 (split; [done|]). split.
  - unfold wm_head in Eh. destruct (header_bytes _ _) as [bs|] eqn:Ebs; [|done]. injection Eh as <-.
    destruct (header_parts _ _ _ Ebs) as (z & _ & _ & _ & _ & ->). simpl. by rewrite Hord, Ho.
  - intros max_ [Hbad _ _]. simpl in Hbad. rewrite Hord in Hbad. apply order_byte_inj in Hbad. by destruct (wm_order x).
Qed.

(** An array of bytes of the greatest length is valid, but swapping it fails an
    assertion: the length is compared with less, where the validator compares with at
    most. *)
Theorem greatest_array_fails_assertion (o : byte_order) (x : bytes) (r : DBusRealString) (m : mem) :
  Z.of_nat (length x) = DBUS_MAXIMUM_ARRAY_LENGTH → is_str (array_text o 0 1 x) r → ¬ may_fail m →
  (∃ m', _dbus_validate_body_with_reason (lit "ay") 0 o false r 0 (length (array_text o 0 1 x)) m = Some (inr 0%nat, m'))
  ∧ _dbus_marshal_byteswap (lit "ay") 0 o (other o) 0 r m = Ub.
Proof.
  intros Hx Hr Hm. set (t := array_text o 0 1 x) in *.
  assert (enc_fields o [VRaw x] [TArray (TLeaf "y")] 0 = Some t) as E.
  { cbn [enc_fields]. rewrite enc_eq. change (raw_element (TLeaf "y")) with true. cbv iota.
    rewrite (enc_array_text o 0 (typecode_alignment (TLeaf "y")) _ x eq_refl) by lia. cbn [mbind option_bind]. by rewrite app_nil_r. }
  split.
  - pose proof (body_complete_rule [] [] [TArray (TLeaf "y")] [VRaw x] [] t [] o r m eq_refl eq_refl E) as Hc.
    rewrite app_nil_r in Hc. destruct (Hc Hr) as [(m' & E' & _)|(m' & _ & ?)]; [|done]. by exists m'.
  - unfold _dbus_marshal_byteswap. rewrite at_gets, at_assert by done. rewrite decide_False by (by destruct o).
    unfold store. rewrite at_gets. destruct (is_str_split _ _ Hr) as [q Hq].
    replace (byteswap_body_helper o _ _ true 0 (str r)) with (@None (nat * bytes)); [done|].
    unfold body_fuel. set (f := (length (lit "ay") + 300 * length (str r) + 299)%nat).
    replace (length (lit "ay") + 300 * length (str r) + 300)%nat with (S f) by (unfold f; lia).
    cbn [byteswap_body_helper]. change (_dbus_type_reader_get_current_type _) with (Some DBUS_TYPE_ARRAY). cbn [mbind option_bind].
    change (DBUS_TYPE_ARRAY =b DBUS_TYPE_INVALID) with false. cbv iota. unfold swap_value. cbn [kind_of].
    change (kind_of DBUS_TYPE_ARRAY) with (@None basic_kind). cbv iota. change (DBUS_TYPE_ARRAY =b DBUS_TYPE_ARRAY) with true. cbv iota.
    unfold swap_array_value. rewrite Hq. unfold t, array_text.
    pose proof (swap_length_rule o [] (Z.of_nat (length x)) ((padding (align_up 0 4 + 4) 1 ++ x) ++ q)) as El.
    rewrite <-!app_assoc in *. cbn [app length] in El. rewrite El by (unfold DBUS_MAXIMUM_ARRAY_LENGTH in Hx; lia).
    cbn [mbind option_bind]. change (_dbus_type_reader_get_element_type _) with (Some "y"%byte).
    cbn [mbind option_bind]. change (_dbus_type_get_alignment "y") with 1%nat.
    rewrite Hx. done.
Qed.

End theorems.

Lemma byteswap_correct_witness :
  let host : Host := DBUS_LITTLE_ENDIAN in
  let bs := block [4;0;0;0; 1;2;3;4; 1;117;0;0; 5;0;0;0] in
  ∃ bs' r', enc_fields DBUS_BIG_ENDIAN [VRaw (block [2;1;4;3]); VVariant (TLeaf "u") (VBasic (U32 5))] [TArray (TLeaf "n"); TLeaf "v"] 0 = Some bs'
    ∧ _dbus_marshal_byteswap (lit "anv") 0 DBUS_LITTLE_ENDIAN DBUS_BIG_ENDIAN 0 (concrete bs) plenty = Ok tt r' plenty
    ∧ is_str bs' r'.
Proof.
  intros host bs.
  destruct (byteswap_correct DBUS_LITTLE_ENDIAN [] [] [TArray (TLeaf "n"); TLeaf "v"]
    [VRaw (block [1;2;3;4]); VVariant (TLeaf "u") (VBasic (U32 5))] [] bs [] (concrete bs) plenty) as (bs' & r' & E & Erun & Hr).
  1-3: vm_compute; reflexivity.
  { apply concrete_str. vm_compute. discriminate. }
  { vm_compute. reflexivity. }
  exists bs', r'. simpl in Hr. rewrite app_nil_r in Hr. split; [exact E|]. split; [exact Erun|exact Hr].
Defined.

(** A little-endian message on a big-endian host. *)
Lemma swapped_message_names_old_order_witness :
  let host : Host := DBUS_BIG_ENDIAN in
  ∃ w a y y' th tb, heap w !! a = Some y ∧ carries y number ∧ _dbus_message_byteswap a w plenty = Ok tt (set_at a y' w) plenty
    ∧ msg_byte_order y' = DBUS_BIG_ENDIAN ∧ header_order (msg_header y') = DBUS_BIG_ENDIAN
    ∧ wm_head (swapped_message number) = Some th ∧ is_str th (data (msg_header y'))
    ∧ wm_body (swapped_message number) = Some tb ∧ is_str tb (msg_body y')
    ∧ head th = Some (order_byte DBUS_LITTLE_ENDIAN) ∧ ∀ max_, ¬ valid_message max_ (swapped_message number).
Proof.
  intros host. destruct (filled_taken (idle_world []) (concrete (sample_bytes number)) number (sample_bytes number) plenty)
    as (a & y & w & m & _ & _ & _ & _ & Hy & Hc).
  - by apply (idle_world_ready []).
  - apply concrete_str. vm_compute. discriminate.
  - vm_compute. reflexivity.
  - by apply number_valid.
  - vm_compute. by intros ?%elem_of_nil.
  - destruct (swapped_message_names_old_order w a y number plenty Hy Hc) as (y' & th & tb & Hres); [by apply number_valid|done|].
    by exists w, a, y, y', th, tb.
Defined.

Lemma list_of_length (n : Z) : 0 <= n → ∃ x : bytes, Z.of_nat (length x) = n.
Proof. intros Hn. exists (replicate (Z.to_nat n) x00). rewrite length_replicate. by apply Z2Nat.id. Qed.

Lemma greatest_array_fails_assertion_witness :
  let host : Host := DBUS_LITTLE_ENDIAN in
  ∃ x r, Z.of_nat (length x) = DBUS_MAXIMUM_ARRAY_LENGTH ∧ is_str (array_text DBUS_BIG_ENDIAN 0 1 x) r
  ∧ (∃ m', _dbus_validate_body_with_reason (lit "ay") 0 DBUS_BIG_ENDIAN false r 0 (length (array_text DBUS_BIG_ENDIAN 0 1 x)) plenty
         = Some (inr 0%nat, m'))
  ∧ _dbus_marshal_byteswap (lit "ay") 0 DBUS_BIG_ENDIAN DBUS_LITTLE_ENDIAN 0 r plenty = Ub.
Proof.
  intros host. destruct (list_of_length DBUS_MAXIMUM_ARRAY_LENGTH) as [x Hx]; [by apply Z.leb_le|].
  assert (is_str (array_text DBUS_BIG_ENDIAN 0 1 x) (concrete (array_text DBUS_BIG_ENDIAN 0 1 x))) as Hr.
  { apply concrete_str. unfold array_text. rewrite !length_app, length_octets.
    change (length (padding 0 4)) with 0%nat. change (length (padding (align_up 0 4 + 4) 1)) with 0%nat.
    unfold DBUS_MAXIMUM_ARRAY_LENGTH in Hx. lia. }
  exists x, (concrete (array_text DBUS_BIG_ENDIAN 0 1 x)). split; [exact Hx|]. split; [exact Hr|].
  apply (greatest_array_fails_assertion DBUS_BIG_ENDIAN x _ plenty Hx Hr).
  intros Hf. by apply elem_of_nil in Hf.
Defined.
