(* ===== verification/Writer.v ===== *)
(** * Writer: the type writer

    Models DBusTypeWriter of src/dbus/dbus-marshal-recursive.c: an iterator that appends
    values to a block and, unless it only checks them, their types to a signature.  Both
    strings are the state; inside a variant the signature is in the string of values.
    A writer that is not enabled checks and counts types but writes no values. *)

From S2P Require Import Prelude DString Types Signature MarshalBasic Reader Header.

(** ** State *)

(** The string that [type_str] points to. *)
Inductive type_string := TypeStr | ValueStr.

Record buffers := Buffers { types : DBusRealString; values : DBusRealString }.

Abbreviation WM := (M buffers).

(** [w_types] is [type_str] with [type_pos], or NULL (with the position -1).
    [w_len_pos] is [None] for the position -1. *)
Record DBusTypeWriter := Writer {
  w_order : byte_order;
  w_container : byte;
  w_expectation : bool;
  w_enabled : bool;
  w_types : option (type_string * nat);
  w_value_pos : nat;
  w_start_pos : nat;
  w_len_pos : option nat;
  w_element_type_pos : nat
}.

Definition at_types (p : option (type_string * nat)) (w : DBusTypeWriter) : DBusTypeWriter :=
  Writer (w_order w) (w_container w) (w_expectation w) (w_enabled w) p (w_value_pos w)
    (w_start_pos w) (w_len_pos w) (w_element_type_pos w).

Definition at_values (p : nat) (w : DBusTypeWriter) : DBusTypeWriter :=
  Writer (w_order w) (w_container w) (w_expectation w) (w_enabled w) (w_types w) p
    (w_start_pos w) (w_len_pos w) (w_element_type_pos w).

Definition with_expectation (e : bool) (w : DBusTypeWriter) : DBusTypeWriter :=
  Writer (w_order w) (w_container w) e (w_enabled w) (w_types w) (w_value_pos w)
    (w_start_pos w) (w_len_pos w) (w_element_type_pos w).

Definition with_array (start : nat) (len_pos : option nat) (w : DBusTypeWriter) : DBusTypeWriter :=
  Writer (w_order w) (w_container w) (w_expectation w) (w_enabled w) (w_types w) (w_value_pos w)
    start len_pos (w_element_type_pos w).

Definition with_element_type_pos (p : nat) (w : DBusTypeWriter) : DBusTypeWriter :=
  Writer (w_order w) (w_container w) (w_expectation w) (w_enabled w) (w_types w) (w_value_pos w)
    (w_start_pos w) (w_len_pos w) p.

(** [type_pos += n], where there is a [type_str]. *)
Definition advance_types (n : nat) (w : DBusTypeWriter) : DBusTypeWriter :=
  at_types ((λ '(s, p), (s, p + n)%nat) <$> w_types w) w.

Definition the_string (s : type_string) (b : buffers) : DBusRealString :=
  match s with TypeStr => types b | ValueStr => values b end.

Definition set_string_of (s : type_string) (r : DBusRealString) (b : buffers) : buffers :=
  match s with TypeStr => Buffers r (values b) | ValueStr => Buffers (types b) r end.

(** An operation on one of the strings. *)
Definition at_string {A} (s : type_string) (c : SM A) : WM A := λ b m,
  match c (the_string s b) m with
  | Ok a r m' => Ok a (set_string_of s r b) m'
  | Failed r m' => Failed (set_string_of s r b) m'
  | Ub => Ub
  end.

(** [if (!c) _dbus_assert_not_reached (...);] *)
Definition must {S A} (c : M S A) : M S A := λ s m,
  match c s m with
  | Failed _ _ => Ub
  | r => r
  end.

Definition _dbus_string_alloc_space (extra_bytes : nat) : SM unit :=
  _dbus_string_lengthen extra_bytes;;
  attempt (_dbus_string_shorten extra_bytes);;
  mret tt.

(** ** Operations *)

Section writer.
Context `{Host}.

Definition _dbus_type_writer_init (byte_order : byte_order) (type_at : option (type_string * nat)) (value_pos : nat) :
    DBusTypeWriter :=
  Writer byte_order DBUS_TYPE_INVALID false true type_at value_pos 0 None 0.

Definition _dbus_type_writer_init_types_delayed (byte_order : byte_order) (value_pos : nat) : DBusTypeWriter :=
  _dbus_type_writer_init byte_order None value_pos.

Definition _dbus_type_writer_add_types (type_pos : nat) (writer : DBusTypeWriter) : DBusTypeWriter :=
  match w_types writer with
  | None => at_types (Some (TypeStr, type_pos)) writer
  | Some _ => writer
  end.

Definition _dbus_type_writer_remove_types (writer : DBusTypeWriter) : DBusTypeWriter := at_types None writer.

Definition _dbus_type_writer_init_values_only (byte_order : byte_order) (type_pos value_pos : nat) : DBusTypeWriter :=
  with_expectation true (_dbus_type_writer_init byte_order (Some (TypeStr, type_pos)) value_pos).

Definition _dbus_type_writer_write_basic_no_typecode (writer : DBusTypeWriter) (type : byte) (value : DBusBasicValue) :
    WM DBusTypeWriter :=
  if w_enabled writer then
    p ← at_string ValueStr (_dbus_marshal_write_basic (w_value_pos writer) type value (w_order writer));
    mret (at_values p writer)
  else mret writer.

(** The result is [sub]; the fields for arrays are not set yet. *)
Definition writer_recurse_init_and_check (writer : DBusTypeWriter) (container_type : byte) : WM DBusTypeWriter :=
  let sub_ := Writer (w_order writer) container_type
    (w_expectation writer || (container_type =b DBUS_TYPE_ARRAY) || (container_type =b DBUS_TYPE_VARIANT))
    (w_enabled writer) (w_types writer) (w_value_pos writer) 0 None 0 in
  b ← gets id;
  (match w_types writer with
   | Some (s, p) =>
       if w_expectation writer
       then assert_ (_dbus_first_type_in_signature (str (the_string s b)) p =b container_type)
       else mret tt
   | None => mret tt
   end);;
  mret sub_.

Definition write_or_verify_typecode (writer : DBusTypeWriter) (typecode : byte) : WM DBusTypeWriter :=
  match w_types writer with
  | None => mret writer
  | Some (s, p) =>
      if w_expectation writer then
        b ← gets id;
        expected ← checked (_dbus_string_get_byte p (the_string s b));
        assert_ (expected =b typecode);;
        mret (if negb (w_container writer =b DBUS_TYPE_ARRAY) then advance_types 1 writer else writer)
      else
        at_string s (_dbus_string_insert_byte p typecode);;
        mret (advance_types 1 writer)
  end.

(** The parent and [contained_type] are not used otherwise. *)
Definition writer_recurse_struct_or_dict_entry (writer : DBusTypeWriter) (begin_char : byte) (sub_ : DBusTypeWriter) :
    WM DBusTypeWriter :=
  (if w_enabled writer then at_string ValueStr (_dbus_string_alloc_space 8) else mret tt);;
  sub_ ← must (write_or_verify_typecode sub_ begin_char);
  if w_enabled writer then
    let p := w_value_pos sub_ in
    must (at_string ValueStr (_dbus_string_insert_bytes p (align_up p 8 - p) x00));;
    mret (at_values (align_up p 8) sub_)
  else mret sub_.

(** [contained_type] is the memory of the string, up to its nul. *)
Definition contained_string (contained_type : bytes) : DBusRealString :=
  _dbus_string_init_const_len contained_type (length contained_type).

Section array.
Context (writer : DBusTypeWriter) (contained_type : option bytes) (contained_type_start contained_type_len : nat)
  (is_array_append : bool).

(** The element type has to be that of the parent array. *)
Definition check_child_array : WM unit :=
  match w_types writer with
  | Some (s, _) =>
      if w_container writer =b DBUS_TYPE_ARRAY then
        ct ← checked contained_type;
        b ← gets id;
        same ← checked (_dbus_string_equal_substring ct contained_type_start contained_type_len
                          (contents (the_string s b)) (w_element_type_pos writer + 1));
        assert_ same
      else mret tt
  | None => mret tt
  end.

(** The type of an outermost array. *)
Definition write_array_type (sub_ : DBusTypeWriter) : WM unit :=
  if w_expectation writer then mret tt
  else
    '(s, p) ← checked (w_types writer);
    at_string s (_dbus_string_alloc_space (1 + contained_type_len));;
    must (at_string s (_dbus_string_insert_byte p DBUS_TYPE_ARRAY));;
    ct ← checked contained_type;
    must (at_string s (_dbus_string_copy_len (contained_string ct) contained_type_start contained_type_len
                         (w_element_type_pos sub_))).

(** The length and the padding in front of the elements. *)
Definition write_array_start (sub_ : DBusTypeWriter) : WM DBusTypeWriter :=
  let len_pos := align_up (w_value_pos sub_) 4 in
  sub_ ← (if is_array_append then mret (at_values (w_value_pos sub_ + 4) sub_)
          else must (_dbus_type_writer_write_basic_no_typecode sub_ DBUS_TYPE_UINT32 (U32 0)));
  assert_ (len_pos + 4 =? w_value_pos sub_)%nat;;
  ct ← checked contained_type;
  let p := w_value_pos sub_ in
  let aligned_pos := align_up p (element_type_get_alignment ct contained_type_start) in
  (if negb (aligned_pos =? p)%nat && negb is_array_append
   then must (at_string ValueStr (_dbus_string_insert_bytes p (aligned_pos - p) x00)) else mret tt);;
  let sub_ := with_array aligned_pos (Some len_pos) (at_values aligned_pos sub_) in
  if is_array_append then
    b ← gets id;
    assert_ (aligned len_pos 4);;
    assert_ (len_pos + 4 <=? len (values b))%nat;;
    d ← checked (mem_read (str (values b)) len_pos 4);
    mret (at_values (aligned_pos + Z.to_nat (_dbus_unpack_uint32 (w_order sub_) d)) sub_)
  else mret sub_.

(** The parent and [sub] are the result. *)
Definition writer_recurse_array (sub_ : DBusTypeWriter) : WM (DBusTypeWriter * DBusTypeWriter) :=
  check_child_array;;
  (if w_enabled writer && negb is_array_append
   then at_string ValueStr (_dbus_string_alloc_space (3 + 4 + 4)) else mret tt);;
  let sub_ := match w_types writer with
              | Some (_, p) => with_element_type_pos (p + 1) (advance_types 1 sub_)
              | None => sub_
              end in
  write_array_type sub_;;
  assert_ (if w_types writer then negb (w_container writer =b DBUS_TYPE_ARRAY) || w_expectation writer else true);;
  let parent := if negb (w_container writer =b DBUS_TYPE_ARRAY) then advance_types (1 + contained_type_len) writer
                else writer in
  sub_ ← (if w_enabled writer then write_array_start sub_
          else mret (with_array (w_value_pos sub_) None sub_));
  assert_ (match w_len_pos sub_ with Some p => (p <? w_start_pos sub_)%nat | None => true end);;
  assert_ (is_array_append || (w_start_pos sub_ =? w_value_pos sub_)%nat);;
  mret (parent, sub_).

End array.

Definition writer_recurse_variant (writer : DBusTypeWriter) (contained_type : option bytes)
    (contained_type_start contained_type_len : nat) (sub_ : DBusTypeWriter) : WM (DBusTypeWriter * DBusTypeWriter) :=
  (if w_enabled writer then at_string ValueStr (_dbus_string_alloc_space (contained_type_len + 9)) else mret tt);;
  writer ← write_or_verify_typecode writer DBUS_TYPE_VARIANT;
  if negb (w_enabled writer) then mret (writer, at_types None sub_)
  else
    let p := w_value_pos sub_ in
    must (at_string ValueStr (_dbus_string_insert_byte p (z2b (Z.of_nat contained_type_len))));;
    ct ← checked contained_type;
    must (at_string ValueStr (_dbus_string_copy_len (contained_string ct) contained_type_start contained_type_len (p + 1)));;
    let q := (p + 1 + contained_type_len)%nat in
    must (at_string ValueStr (_dbus_string_insert_byte q DBUS_TYPE_INVALID));;
    let q := (q + 1)%nat in
    let contained_alignment := _dbus_type_get_alignment (_dbus_first_type_in_signature ct contained_type_start) in
    must (at_string ValueStr (_dbus_string_insert_bytes q (align_up q contained_alignment - q) x00));;
    mret (writer, at_values (align_up q contained_alignment) (at_types (Some (ValueStr, (p + 1)%nat)) sub_)).

Definition _dbus_type_writer_recurse_contained_len (writer : DBusTypeWriter) (container_type : byte)
    (contained_type : option bytes) (contained_type_start contained_type_len : nat) (is_array_append : bool) :
    WM (DBusTypeWriter * DBusTypeWriter) :=
  sub_ ← writer_recurse_init_and_check writer container_type;
  if container_type =b DBUS_TYPE_STRUCT then
    sub_ ← writer_recurse_struct_or_dict_entry writer DBUS_STRUCT_BEGIN_CHAR sub_; mret (writer, sub_)
  else if container_type =b DBUS_TYPE_DICT_ENTRY then
    sub_ ← writer_recurse_struct_or_dict_entry writer DBUS_DICT_ENTRY_BEGIN_CHAR sub_; mret (writer, sub_)
  else if container_type =b DBUS_TYPE_ARRAY then
    writer_recurse_array writer contained_type contained_type_start contained_type_len is_array_append sub_
  else if container_type =b DBUS_TYPE_VARIANT then
    writer_recurse_variant writer contained_type contained_type_start contained_type_len sub_
  else assert_ false;; fail.

(** The length of the contained type, where there is one. *)
Definition contained_len (contained_type : option bytes) (contained_type_start : nat) : WM nat :=
  match contained_type with
  | Some ct => checked (find_len_of_complete_type ct contained_type_start)
  | None => mret 0%nat
  end.

Definition _dbus_type_writer_recurse (writer : DBusTypeWriter) (container_type : byte)
    (contained_type : option bytes) (contained_type_start : nat) : WM (DBusTypeWriter * DBusTypeWriter) :=
  n ← contained_len contained_type contained_type_start;
  _dbus_type_writer_recurse_contained_len writer container_type contained_type contained_type_start n false.

Definition _dbus_type_writer_append_array (writer : DBusTypeWriter)
    (contained_type : option bytes) (contained_type_start : nat) : WM (DBusTypeWriter * DBusTypeWriter) :=
  n ← contained_len contained_type contained_type_start;
  _dbus_type_writer_recurse_contained_len writer DBUS_TYPE_ARRAY contained_type contained_type_start n true.

Definition writer_get_array_len (writer : DBusTypeWriter) : option nat :=
  if w_container writer =b DBUS_TYPE_ARRAY then Some (w_value_pos writer - w_start_pos writer)%nat else None.

(** The end of a container: a typecode or the length of an array. *)
Definition close_container (sub_ : DBusTypeWriter) : WM DBusTypeWriter :=
  if w_container sub_ =b DBUS_TYPE_STRUCT then write_or_verify_typecode sub_ DBUS_STRUCT_END_CHAR
  else if w_container sub_ =b DBUS_TYPE_DICT_ENTRY then write_or_verify_typecode sub_ DBUS_DICT_ENTRY_END_CHAR
  else if w_container sub_ =b DBUS_TYPE_ARRAY then
    match w_len_pos sub_ with
    | Some p =>
        n ← checked (writer_get_array_len sub_);
        at_string ValueStr (_dbus_marshal_set_uint32 p (Z.of_nat n) (w_order sub_));;
        mret sub_
    | None => mret sub_
    end
  else mret sub_.

Definition is_brackets (container : byte) : bool :=
  (container =b DBUS_TYPE_STRUCT) || (container =b DBUS_TYPE_DICT_ENTRY).

Definition _dbus_type_writer_unrecurse (writer sub_ : DBusTypeWriter) : WM DBusTypeWriter :=
  assert_ (negb (w_expectation writer) || w_expectation sub_);;
  sub_ ← close_container sub_;
  let writer :=
    if is_brackets (w_container sub_) && (is_brackets (w_container writer) || (w_container writer =b DBUS_TYPE_INVALID))
    then match w_types writer with Some _ => at_types (w_types sub_) writer | None => writer end
    else writer in
  mret (at_values (w_value_pos sub_) writer).

Definition _dbus_type_writer_write_basic (writer : DBusTypeWriter) (type : byte) (value : DBusBasicValue) :
    WM DBusTypeWriter :=
  (match w_types writer with
   | Some (s, _) => if w_expectation writer then mret tt else at_string s (_dbus_string_alloc_space 1)
   | None => mret tt
   end);;
  writer ← _dbus_type_writer_write_basic_no_typecode writer type value;
  must (write_or_verify_typecode writer type).

Definition _dbus_type_writer_write_fixed_multi (writer : DBusTypeWriter) (element_type : byte) (value : bytes)
    (n_elements : nat) : WM DBusTypeWriter :=
  assert_ (w_container writer =b DBUS_TYPE_ARRAY);;
  assert_ (dbus_type_is_fixed element_type);;
  assert_ (w_expectation writer);;
  writer ← must (write_or_verify_typecode writer element_type);
  if w_enabled writer then
    p ← at_string ValueStr (_dbus_marshal_write_fixed_multi (w_value_pos writer) element_type value n_elements (w_order writer));
    mret (at_values p writer)
  else mret writer.

Definition _dbus_type_writer_set_enabled (enabled : bool) (w : DBusTypeWriter) : DBusTypeWriter :=
  Writer (w_order w) (w_container w) (w_expectation w) enabled (w_types w) (w_value_pos w)
    (w_start_pos w) (w_len_pos w) (w_element_type_pos w).

End writer.
