(* ===== verification/Writing.v ===== *)
(** * Writing: what the type writer writes

    Shown for [Writer]: whoever writes values one by one, entering and leaving containers,
    appends the encoding of the values ([Body]) to the block and their types to the
    signature; in a block whose types are given, only values of these types pass. *)

From S2P Require Import Prelude Search Names DString Text Types Signature MarshalBasic Reader Body Values Header Stream Byteswap Writer.

(** ** Strings with room

    [_dbus_string_alloc_space] makes room for the insertions that follow it: they do not
    ask for memory. *)

Definition room (n : nat) (r : DBusRealString) : Prop :=
  zlen r + Z.of_nat n <= allocated r - _DBUS_STRING_ALLOCATION_PADDING.

Definition roomy (n : nat) (t : bytes) (r : DBusRealString) : Prop := is_str t r ∧ room n r.

Lemma roomy_0 t r : is_str t r → roomy 0 t r.
Proof. intros Hr. split; [done|]. destruct Hr as [(_ & ? & _) _]. unfold room. lia. Qed.

Lemma roomy_less n k t r : (k <= n)%nat → roomy n t r → roomy k t r.
Proof. intros Hk [? Hr]. split; [done|]. unfold room in *. lia. Qed.

(** A contract under which the operation cannot fail. *)
Definition sure {S A} (P : S → Prop) (c : M S A) (Q : A → S → Prop) : Prop := hoare P c Q (λ _, False) False.

Lemma sure_hoare {S A} P (c : M S A) Q F L : sure P c Q → hoare P c Q F L.
Proof. intros Hc. by eapply hoare_conseq. Qed.

Lemma store_length (f : bytes → option bytes) r m :
  (∀ b b', f b = Some b' → length b' = length b) →
  match store f r m with Ok _ r' _ => length (str r') = length (str r) ∧ len r' = len r | _ => True end.
Proof.
  intros Hf. unfold store, gets, put, checked, mbind, M_bind. simpl. destruct (f (str r)) eqn:E; [|done].
  simpl. by rewrite (Hf _ _ E).
Qed.

Lemma mem_write_length b p x b' : mem_write b p x = Some b' → length b' = length b.
Proof.
  unfold mem_write. case_if; [|done]. intros [= <-]. rewrite !length_app, length_take, length_drop.
  match goal with Hl : (_ <=? _)%nat = true |- _ => apply Nat.leb_le in Hl end. lia.
Qed.

Lemma store_roomy n t f t' :
  (∀ b b', f b = Some b' → length b' = length b) → sure (is_str t) (store f) (λ _, is_str t') →
  sure (roomy n t) (store f) (λ _, roomy n t').
Proof.
  intros Hf Hs r m [Hr Hn]. pose proof (store_length f r m Hf) as Hl. specialize (Hs r m Hr).
  destruct (store f r m) as [a r' m'| |]; [|done..]. destruct Hs as [Hr' Hm], Hl as [Hl1 Hl2]. split; [|done].
  split; [done|]. unfold room, zlen, allocated in *. lia.
Qed.

(** A length inside the block. *)
Lemma set_length_inside n r m :
  wf r → Z.of_nat n <= allocated r - _DBUS_STRING_ALLOCATION_PADDING →
  ∃ r', set_length n r m = Ok tt r' m ∧ length (str r') = length (str r) ∧ len r' = n.
Proof.
  intros (W1 & W2 & W3 & _) Hn. unfold set_length, gets, mbind at 1, M_bind at 1. cbn [id]. rewrite W1.
  rewrite (proj2 (Z.ltb_ge _ (Z.of_nat n))) by lia. rewrite (proj2 (Z.ltb_ge _ (Z.of_nat n))) by lia.
  destruct (set_len_nul n r m W1 Hn W3) as (r' & E & _). exists r'. split; [exact E|].
  revert E. unfold set_len, gets, put, mbind, M_bind. cbn [id].
  pose proof (store_length (λ b, mem_write b n [x00]) (Real (str r) n (max_length r)) m
    (λ b b', mem_write_length b _ _ b')) as Hs.
  destruct (store _ _ _) as [a r'' m''| |]; [|done..]. intros E. injection E as -> -> ->. exact Hs.
Qed.

Lemma set_length_roomy n k t :
  (k <= n)%nat →
  sure (roomy n t) (set_length (length t + k)) (λ _ r', ∃ j, length j = k ∧ roomy (n - k) (t ++ j) r').
Proof.
  intros Hk r m [Hr Hn]. pose proof (is_str_length _ _ Hr) as Hl. pose proof (set_length_ok (length t + k) t r m Hr) as Hok.
  destruct (set_length_inside (length t + k) r m) as (r' & E & Hl1 & Hl2); [apply Hr|unfold room, zlen in *; lia|].
  rewrite E in *. destruct Hok as [(j & Hr' & Hj) Hm]. split; [|done].
  rewrite take_ge in Hr', Hj by lia. rewrite length_app in Hj. exists j. split; [lia|]. split; [done|].
  unfold room, zlen, allocated in *. lia.
Qed.

Lemma alloc_space_ok n t :
  hoare (is_str t) (_dbus_string_alloc_space n) (λ _, roomy n t) (is_str t)
    (_DBUS_STRING_MAX_MAX_LENGTH < Z.of_nat (length t + n)).
Proof.
  unfold _dbus_string_alloc_space. eapply hoare_bind; [apply lengthen_ok|]. intros [] r m (j & Hj & Hr).
  pose proof (is_str_length _ _ Hr) as Hl. rewrite length_app in Hl. pose proof Hr as [(W1 & W2 & W3 & W4) _].
  destruct (set_length_inside (len r - n) r m) as (r' & E & Hb & Hl'); [done|unfold zlen in *; lia|].
  assert (roomy n t r') as Hr'.
  { destruct (set_length_shrink (len r - n) _ r m Hr) as (r2 & E2 & Hr2); [rewrite length_app; lia|].
    rewrite E in E2. injection E2 as <-. rewrite take_app_le, take_ge in Hr2 by lia. split; [done|].
    unfold room, zlen, allocated in *. lia. }
  unfold attempt, _dbus_string_shorten, asserting, assert_, checked, gets, mbind, M_bind. cbn [id].
  rewrite (proj2 (Nat.leb_le _ _)) by lia. cbn. rewrite E. split; [done|done].
Qed.

Lemma asserting_roomy {A} n t (p : nat → bool) (c : SM A) Q :
  p (length t) = true → sure (roomy n t) c Q → sure (roomy n t) (asserting p;; c) Q.
Proof.
  intros Hp Hc r m Hr. unfold asserting, gets, assert_, mbind, M_bind. cbn [id].
  rewrite <- (is_str_length _ _ (proj1 Hr)), Hp. by apply Hc.
Qed.

Lemma inside_roomy {A} n (a b : bytes) (c : SM A) Q :
  sure (roomy n (a ++ b)) c Q → sure (roomy n (a ++ b)) (asserting (λ l, length a <=? l)%nat;; c) Q.
Proof. apply asserting_roomy. apply Nat.leb_le. rewrite length_app. lia. Qed.

Lemma open_gap_roomy n k a b :
  (k <= n)%nat →
  sure (roomy n (a ++ b)) (open_gap k (length a)) (λ _ r', ∃ g, length g = k ∧ roomy (n - k) (a ++ g ++ b) r').
Proof.
  intros Hk. unfold open_gap. destruct (k =? 0)%nat eqn:Ek.
  { apply hoare_ret. intros r Hr. exists []. apply Nat.eqb_eq in Ek as ->. by rewrite Nat.sub_0_r. }
  apply hoare_gets. intros r Hr0. pose proof Hr0 as [Hr Hn]. pose proof (is_str_length _ _ Hr) as Hl.
  pose proof Hr as [(W1 & W2 & W3 & _) _].
  rewrite W1, (proj2 (Z.ltb_ge _ (Z.of_nat k))) by (unfold room, zlen in *; lia). rewrite <-Hl.
  eapply hoare_bind.
  { eapply hoare_conseq; [apply (set_length_roomy n k (a ++ b) Hk)| |done|done|done]. by intros s ->. }
  intros []; cbv beta. apply hoare_exists_l. intros j. apply hoare_pure_l. intros Hj.
  apply hoare_gets. intros r' Hr'. pose proof (is_str_length _ _ (proj1 Hr')) as Hl'. rewrite !length_app in Hl'.
  replace (len r' - k - length a)%nat with (length (a ++ b) - length a)%nat by (rewrite length_app; lia).
  eapply (hoare_conseq _ (roomy (n - k) ((a ++ b) ++ j))); [apply store_roomy| | | |].
  - intros b1 b2. unfold memmove. destruct (mem_read b1 _ _) as [x|]; [|done]. apply mem_write_length.
  - apply store_memmove; rewrite !length_app; lia.
  - by intros s ->.
  - intros [] r2 Hr2. rewrite overwrite_gap in Hr2 by (rewrite ?length_app; lia).
    rewrite take_app_length, drop_app_length in Hr2. eexists. split; [|exact Hr2].
    rewrite length_take, length_drop, !length_app. lia.
  - done.
  - done.
Qed.

Lemma fill_roomy n a x b :
  (length x <= n)%nat →
  sure (roomy n (a ++ b)) (open_gap (length x) (length a);; store (λ buf, mem_write buf (length a) x))
    (λ _, roomy (n - length x) (a ++ x ++ b)).
Proof.
  intros Hx. eapply hoare_bind; [by apply open_gap_roomy|]. intros []; cbv beta. apply hoare_exists_l. intros g.
  apply hoare_pure_l. intros Hg. apply store_roomy; [by intros ??; apply mem_write_length|]. by apply store_mid.
Qed.

Lemma insert_bytes_roomy n k a b c :
  (k <= n)%nat →
  sure (roomy n (a ++ b)) (_dbus_string_insert_bytes (length a) k c) (λ _, roomy (n - k) (a ++ replicate k c ++ b)).
Proof.
  intros Hk. apply inside_roomy. destruct (k =? 0)%nat eqn:Ek.
  { apply Nat.eqb_eq in Ek as ->. apply hoare_ret. intros r Hr. by rewrite Nat.sub_0_r. }
  pose proof (fill_roomy n a (replicate k c) b) as Hf. rewrite length_replicate in Hf. by apply Hf.
Qed.

Lemma insert_byte_roomy n a b c :
  (1 <= n)%nat → sure (roomy n (a ++ b)) (_dbus_string_insert_byte (length a) c) (λ _, roomy (n - 1) (a ++ [c] ++ b)).
Proof. intros Hn. by apply inside_roomy, (fill_roomy n a [c] b). Qed.

Lemma copy_roomy n ts source start k a b :
  readable ts source → (start + k <= length ts)%nat → (k <= n)%nat →
  sure (roomy n (a ++ b)) (_dbus_string_copy_len source start k (length a)) (λ _, roomy (n - k) (a ++ sub ts start k ++ b)).
Proof.
  intros Hs Hl Hk. apply inside_roomy. apply hoare_assert.
  { apply Nat.leb_le. destruct Hs as [Hb <-]. unfold contents in Hl. rewrite length_take in Hl. lia. }
  unfold copy. destruct (k =? 0)%nat eqn:Ek.
  { apply Nat.eqb_eq in Ek as ->. apply hoare_ret. intros r Hr. by rewrite Nat.sub_0_r. }
  assert (mem_read (str source) start k = Some (sub ts start k)) as ->.
  { destruct Hs as [Hb Hc]. unfold mem_read. assert (length ts = len source) as Hl2
      by (rewrite <- Hc; unfold contents; rewrite length_take; lia).
    rewrite (proj2 (Nat.leb_le _ _)) by lia. f_equal. rewrite <- Hc. unfold contents. symmetry. apply sub_take_le. lia. }
  pose proof (fill_roomy n a (sub ts start k) b) as Hf. rewrite length_sub in Hf by lia. by apply Hf.
Qed.

Lemma align_gap_roomy n a b al k :
  is_alignment al → (length (padding (length a) al) + k <= n)%nat →
  sure (roomy n (a ++ b)) (align_insert_point_then_open_gap (length a) al k)
    (λ p r, p = align_up (length a) al
       ∧ ∃ g, length g = k ∧ roomy (n - (length (padding (length a) al) + k)) ((a ++ padding (length a) al) ++ g ++ b) r).
Proof.
  intros Hal Hn. apply hoare_assert; [by apply alignment_bounded|]. apply inside_roomy.
  unfold padding in *. rewrite length_replicate in *.
  destruct (align_up_spec (length a) al Hal) as [Hr _]. set (pad := (align_up (length a) al - length a)%nat) in *.
  apply hoare_gets. intros r Hr0. pose proof Hr0 as [Hs Hroom]. pose proof (is_str_length _ _ Hs) as Hl.
  pose proof Hs as [(W1 & W2 & W3 & _) _]. cbv zeta. rewrite W1.
  rewrite (proj2 (Z.ltb_ge _ (Z.of_nat (len r + pad + k)))) by (unfold room, zlen in *; lia).
  replace (len r + pad + k - len r)%nat with (pad + k)%nat by lia. destruct (pad + k =? 0)%nat eqn:E0.
  { apply Nat.eqb_eq in E0. assert (pad = 0%nat ∧ k = 0%nat) as [Ep ->] by lia. apply hoare_ret. intros s ->.
    split; [unfold pad in Ep; lia|]. exists []. rewrite Ep. split; [done|]. cbn [replicate app]. rewrite app_nil_r.
    eapply roomy_less; [|exact Hr0]. lia. }
  eapply hoare_bind.
  { eapply hoare_conseq; [apply (open_gap_roomy n (pad + k) a b Hn)| |done|done|done]. by intros s ->. }
  intros []; cbv beta. apply hoare_exists_l. intros g. apply hoare_pure_l. intros Hg.
  eapply (hoare_bind _ _ _ (λ _ r', ∃ g', length g' = k ∧ roomy (n - (pad + k)) ((a ++ replicate pad x00) ++ g' ++ b) r')).
  - destruct (k <? pad + k)%nat eqn:Ep.
    + eapply (hoare_conseq _ (roomy (n - (pad + k)) (a ++ take pad g ++ drop pad g ++ b))).
      * apply store_roomy; [by intros ??; apply mem_write_length|]. apply store_mid.
        rewrite length_take, length_replicate. lia.
      * intros s Hs'. by rewrite (app_assoc (take pad g)), take_drop.
      * intros [] s Hs'. exists (drop pad g). split; [rewrite length_drop; lia|]. by rewrite <- app_assoc.
      * done.
      * done.
    + apply Nat.ltb_ge in Ep. replace pad with 0%nat in * by lia. apply hoare_ret. intros s Hs'. exists g.
      cbn [replicate]. by rewrite app_nil_r.
  - intros []. apply hoare_ret. intros s Hs'. by split.
Qed.

Lemma marshal_4_roomy `{Host} n a b z o :
  let w := padding (length a) 4 ++ octets o 4 z in
  (length w <= n)%nat →
  sure (roomy n (a ++ b)) (marshal_4_octets (length a) z o)
    (λ p r, p = length (a ++ w) ∧ roomy (n - length w) ((a ++ w) ++ b) r).
Proof.
  intros w Hw. unfold marshal_4_octets, insert_aligned, native. rewrite length_octets.
  fold (native 4 (to_order DBUS_UINT32_SWAP_LE_BE o z)). rewrite (to_order_native 4 DBUS_UINT32_SWAP_LE_BE o z swap_32).
  unfold w in *. rewrite length_app, length_octets in *.
  apply hoare_gets. intros r Hr. pose proof (is_str_length _ _ (proj1 Hr)) as Hl.
  eapply (hoare_bind _ _ _ (λ _, roomy (n - (length (padding (length a) 4) + 4)) ((a ++ padding (length a) 4) ++ octets o 4 z ++ b))).
  - eapply (hoare_on_failure _ _ _ _ (λ _, False)); [|done]. eapply hoare_bind.
    { eapply hoare_conseq; [apply (align_gap_roomy n a b 4 4); [alignment|done]| |done|done|done]. by intros s ->. }
    intros p; cbv beta. apply hoare_pure_l. intros ->. apply hoare_exists_l. intros g. apply hoare_pure_l. intros Hg.
    apply store_roomy; [by intros ??; apply mem_write_length|].
    replace (align_up (length a) 4) with (length (a ++ padding (length a) 4)).
    { apply store_mid. by rewrite length_octets. }
    rewrite length_app, length_padding. pose proof (align_up_spec (length a) 4 ltac:(alignment)). lia.
  - intros [] r' m' Hr'. pose proof (is_str_length _ _ (proj1 Hr')) as Hl'.
    rewrite !length_app, length_octets in *. rewrite get_pos_after_ok by lia. split; [|done]. split; [lia|].
    eapply roomy_less; [|by rewrite <-!app_assoc in *]. lia.
Qed.

(** ** Runs that may fail an assertion

    [stays U P c Q F L]: as [hoare], but where [U] holds want of memory may also lead to a
    failing assertion. *)

Definition stays {S A} (U : Prop) (P : S → Prop) (c : M S A) (Q : A → S → Prop) (F : S → Prop) (L : Prop) : Prop :=
  ∀ s m, P s →
  match c s m with
  | Ok a s' m' => Q a s' ∧ (may_fail m' → may_fail m)
  | Failed s' m' => F s' ∧ (may_fail m ∨ L)
  | Ub => U ∧ (may_fail m ∨ L)
  end.

Lemma stays_hoare {S A} U P (c : M S A) Q F L : hoare P c Q F L → stays U P c Q F L.
Proof. intros Hc s m HP. specialize (Hc s m HP). by destruct (c s m). Qed.

Lemma hoare_stays {S A} P (c : M S A) Q F L : stays False P c Q F L → hoare P c Q F L.
Proof. intros Hc s m HP. specialize (Hc s m HP). destruct (c s m); tauto. Qed.

Lemma stays_ret {S A} U (P : S → Prop) (a : A) (Q : A → S → Prop) F L : (∀ s, P s → Q a s) → stays U P (mret a) Q F L.
Proof. intros HQ s m HP. split; [by apply HQ|done]. Qed.

Lemma stays_bind {S A B} U (P : S → Prop) (c : M S A) (k : A → M S B) Q R F L :
  stays U P c Q F L → (∀ a, stays U (Q a) (k a) R F L) → stays U P (c ≫= k) R F L.
Proof.
  intros Hc Hk s m HP. specialize (Hc s m HP). unfold mbind, M_bind. destruct (c s m) as [a s' m'| |]; [|done|done].
  destruct Hc as [HQ Hm]. specialize (Hk a s' m' HQ). destruct (k a s' m'); naive_solver.
Qed.

Lemma stays_conseq {S A} (U U' : Prop) (P P' : S → Prop) (c : M S A) Q Q' F F' (L L' : Prop) :
  stays U' P' c Q' F' L' → (U' → U) → (∀ s, P s → P' s) → (∀ a s, Q' a s → Q a s) →
  (∀ s, F' s → F s) → (L' → L) → stays U P c Q F L.
Proof. intros Hc HU HP HQ HF HL s m Hs. specialize (Hc s m (HP s Hs)). destruct (c s m); naive_solver. Qed.

Lemma stays_gets {S B} U (P : S → Prop) (k : S → M S B) R F L :
  (∀ s0, P s0 → stays U (λ s, s = s0) (k s0) R F L) → stays U P (gets id ≫= k) R F L.
Proof. intros Hk s m HP. by apply (Hk s HP s m). Qed.

Lemma stays_assert {S B} U (P : S → Prop) b (k : M S B) Q F L :
  b = true → stays U P k Q F L → stays U P (assert_ b;; k) Q F L.
Proof. intros -> Hk. exact Hk. Qed.

Lemma stays_checked {S A B} U (P : S → Prop) (o : option A) (a : A) (k : A → M S B) Q F L :
  o = Some a → stays U P (k a) Q F L → stays U P (checked o ≫= k) Q F L.
Proof. intros -> Hk. exact Hk. Qed.

Lemma stays_pure_l {S A} U φ (P : S → Prop) (c : M S A) Q F L :
  (φ → stays U P c Q F L) → stays U (λ s, φ ∧ P s) c Q F L.
Proof. intros Hc s m [Hφ HP]. by apply Hc. Qed.

Lemma must_sure {S A} P (c : M S A) Q : sure P c Q → sure P (must c) Q.
Proof. intros Hc s m HP. specialize (Hc s m HP). unfold must. destruct (c s m); tauto. Qed.

(** Where [must] is not prepared for. *)
Lemma must_stays {S A} (U : Prop) P (c : M S A) Q F F' L : U → hoare P c Q F' L → stays U P (must c) Q F L.
Proof. intros HU Hc s m HP. specialize (Hc s m HP). unfold must. destruct (c s m); tauto. Qed.

(** ** Both strings *)

(** The texts and the room of the two strings. *)
Definition text (nt : nat) (tt_ : bytes) (nv : nat) (vt : bytes) (b : buffers) : Prop :=
  roomy nt tt_ (types b) ∧ roomy nv vt (values b).

Lemma on_values {A} nt tt_ nv vt (c : SM A) Q F L :
  hoare (roomy nv vt) c Q F L →
  hoare (text nt tt_ nv vt) (at_string ValueStr c) (λ a b, roomy nt tt_ (types b) ∧ Q a (values b))
    (λ b, roomy nt tt_ (types b) ∧ F (values b)) L.
Proof.
  intros Hc b m [Ht Hv]. specialize (Hc (values b) m Hv). unfold at_string. cbn [the_string].
  destruct (c (values b) m); [cbn; tauto|cbn; tauto|done].
Qed.

Lemma on_types {A} nt tt_ nv vt (c : SM A) Q F L :
  hoare (roomy nt tt_) c Q F L →
  hoare (text nt tt_ nv vt) (at_string TypeStr c) (λ a b, Q a (types b) ∧ roomy nv vt (values b))
    (λ b, F (types b) ∧ roomy nv vt (values b)) L.
Proof.
  intros Hc b m [Ht Hv]. specialize (Hc (types b) m Ht). unfold at_string. cbn [the_string].
  destruct (c (types b) m); [cbn; tauto|cbn; tauto|done].
Qed.

(** ** Writing values

    A client that writes [v]: a basic value, or a container with its contents one by
    one, arrays of numbers as blocks.  [dict]: the value is an entry of a dict. *)

Definition print_as (dict : bool) (t : ty) : bytes :=
  match dict, t with
  | true, TStruct ts => DBUS_DICT_ENTRY_BEGIN_CHAR :: flat_map print ts ++ [DBUS_DICT_ENTRY_END_CHAR]
  | _, _ => print t
  end.

Definition code_as (dict : bool) (t : ty) : byte := if dict then DBUS_TYPE_DICT_ENTRY else typecode t.

(** The elements of an array, in the memory of the host. *)
Definition host_array `{Host} (o : byte_order) (n : nat) (bs : bytes) : bytes :=
  flat_map (native n) (numbers o n (length bs / n) bs).

Section client.
Context `{Host}.

Fixpoint write_val (v : val) (dict : bool) (t : ty) (w : DBusTypeWriter) {struct v} : WM DBusTypeWriter :=
  let fix write_elements vs dict t' w {struct vs} : WM DBusTypeWriter :=
    match vs with
    | [] => mret w
    | v :: vs' => w ← write_val v dict t' w; write_elements vs' dict t' w
    end in
  let fix write_fields vs ts w {struct vs} : WM DBusTypeWriter :=
    match vs, ts with
    | v :: vs', t :: ts' => w ← write_val v false t w; write_fields vs' ts' w
    | _, _ => mret w
    end in
  match v, t with
  | VBasic x, TLeaf c => _dbus_type_writer_write_basic w c x
  | VSignature ts, TLeaf c => _dbus_type_writer_write_basic w c (Str (print_sig ts))
  | VVariant t' v', TLeaf _ =>
      '(w, s) ← _dbus_type_writer_recurse w DBUS_TYPE_VARIANT (Some (print t')) 0;
      s ← write_val v' false t' s;
      _dbus_type_writer_unrecurse w s
  | VRaw bs, TArray t' =>
      '(w, s) ← _dbus_type_writer_recurse w DBUS_TYPE_ARRAY (Some (print t')) 0;
      s ← _dbus_type_writer_write_fixed_multi s (typecode t') (host_array (w_order s) (typecode_alignment t') bs)
            (length bs / typecode_alignment t');
      _dbus_type_writer_unrecurse w s
  | VArray vs, TArray t' =>
      '(w, s) ← _dbus_type_writer_recurse w DBUS_TYPE_ARRAY (Some (print t')) 0;
      s ← write_elements vs false t' s;
      _dbus_type_writer_unrecurse w s
  | VArray vs, TDict k v =>
      '(w, s) ← _dbus_type_writer_recurse w DBUS_TYPE_ARRAY (Some (print_as true (TStruct [k; v]))) 0;
      s ← write_elements vs true (TStruct [k; v]) s;
      _dbus_type_writer_unrecurse w s
  | VStruct vs, TStruct ts =>
      '(w, s) ← _dbus_type_writer_recurse w (code_as dict t) None 0;
      s ← write_fields vs ts s;
      _dbus_type_writer_unrecurse w s
  | _, _ => mret w
  end.

(** The local functions of [write_val]. *)
Fixpoint write_elements (vs : list val) (dict : bool) (t' : ty) (w : DBusTypeWriter) : WM DBusTypeWriter :=
  match vs with
  | [] => mret w
  | v :: vs' => w ← write_val v dict t' w; write_elements vs' dict t' w
  end.

Fixpoint write_fields (vs : list val) (ts : list ty) (w : DBusTypeWriter) : WM DBusTypeWriter :=
  match vs, ts with
  | v :: vs', t :: ts' => w ← write_val v false t w; write_fields vs' ts' w
  | _, _ => mret w
  end.

Lemma write_val_eq v dict t w :
  write_val v dict t w =
  match v, t with
  | VBasic x, TLeaf c => _dbus_type_writer_write_basic w c x
  | VSignature ts, TLeaf c => _dbus_type_writer_write_basic w c (Str (print_sig ts))
  | VVariant t' v', TLeaf _ =>
      '(w, s) ← _dbus_type_writer_recurse w DBUS_TYPE_VARIANT (Some (print t')) 0;
      s ← write_val v' false t' s;
      _dbus_type_writer_unrecurse w s
  | VRaw bs, TArray t' =>
      '(w, s) ← _dbus_type_writer_recurse w DBUS_TYPE_ARRAY (Some (print t')) 0;
      s ← _dbus_type_writer_write_fixed_multi s (typecode t') (host_array (w_order s) (typecode_alignment t') bs)
            (length bs / typecode_alignment t');
      _dbus_type_writer_unrecurse w s
  | VArray vs, TArray t' =>
      '(w, s) ← _dbus_type_writer_recurse w DBUS_TYPE_ARRAY (Some (print t')) 0;
      s ← write_elements vs false t' s;
      _dbus_type_writer_unrecurse w s
  | VArray vs, TDict k v =>
      '(w, s) ← _dbus_type_writer_recurse w DBUS_TYPE_ARRAY (Some (print_as true (TStruct [k; v]))) 0;
      s ← write_elements vs true (TStruct [k; v]) s;
      _dbus_type_writer_unrecurse w s
  | VStruct vs, TStruct ts =>
      '(w, s) ← _dbus_type_writer_recurse w (code_as dict t) None 0;
      s ← write_fields vs ts s;
      _dbus_type_writer_unrecurse w s
  | _, _ => mret w
  end.
Proof. by destruct v, t. Qed.

End client.

(** *** Types *)

Definition ok_type (t : ty) : Prop := ∃ sd dd ar, within accepted_key sd dd ar t = true.

(** A type that a value may have, or the type of a dict entry. *)
Definition shape_ok (dict : bool) (t : ty) : Prop :=
  if dict then ∃ k v, t = TStruct [k; v] ∧ ok_type k ∧ ok_type v else ok_type t.

(** The element type of an array. *)
Definition element_shape (t : ty) : option (bool * ty) :=
  match t with TArray t' => Some (false, t') | TDict k v => Some (true, TStruct [k; v]) | _ => None end.

Lemma print_array t b t' : element_shape t = Some (b, t') → print t = DBUS_TYPE_ARRAY :: print_as b t'.
Proof. destruct t; intros [= <- <-]; [done|]. simpl. by rewrite app_nil_r, <-app_assoc. Qed.

Lemma element_shape_ok t b t' : ok_type t → element_shape t = Some (b, t') → shape_ok b t'.
Proof.
  intros (sd & dd & ar & Hw). destruct t as [|t1| |k v]; intros [= <- <-]; simpl in Hw.
  - apply andb_true_iff in Hw as [_ Hw]. by eexists _, _, _.
  - apply andb_true_iff in Hw as [[_ Hk]%andb_true_iff Hv]. exists k, v. split; [done|]. split; by eexists _, _, _.
Qed.

Lemma fields_ok ts : ok_type (TStruct ts) → Forall ok_type ts.
Proof.
  intros (sd & dd & ar & [_ Hw]%andb_true_iff). apply list.Forall_forall. intros t Ht. exists (S sd), dd, 0%nat.
  eapply forallb_forall in Hw; [exact Hw|]. by apply list_elem_of_In.
Qed.

Lemma shape_fields_ok b ts : shape_ok b (TStruct ts) → Forall ok_type ts.
Proof. destruct b; [|apply fields_ok]. intros (k & v & [= ->] & Hk & Hv). by repeat constructor. Qed.

(** The first byte of a type, and where the type ends. *)
Lemma print_head b t : shape_ok b t → ∃ x s, print_as b t = x :: s ∧ map_type_char_to_type x = code_as b t.
Proof.
  destruct b; simpl.
  - intros (k & v & -> & _). by eexists _, _.
  - intros (sd & dd & ar & Hw). pose proof (first_type_print [] t [] accepted_key sd dd ar Hw) as E.
    rewrite app_nil_r in E. destruct (print t) as [|x s] eqn:Ep; [by destruct t|]. exists x, s. split; [done|]. exact E.
Qed.

Lemma find_len_print b t : shape_ok b t → find_len_of_complete_type (print_as b t) 0 = Some (length (print_as b t)).
Proof.
  unfold find_len_of_complete_type, skip_one_complete_type. destruct b; simpl.
  - intros (k & v & -> & (sd & dd & ar & Hk) & (sd' & dd' & ar' & Hv)).
    set (q := print_as true (TStruct [k; v])).
    assert (∃ p', skip_to_close DBUS_DICT_ENTRY_BEGIN_CHAR DBUS_DICT_ENTRY_END_CHAR 1 (tail q) = Some p' ∧ length p' = 0%nat) as (p' & E & Hp).
    { exists []. split; [|done]. unfold q. simpl. rewrite app_nil_r, <-app_assoc.
      pose proof (skip_print true k 0 (print v ++ [DBUS_DICT_ENTRY_END_CHAR]) accepted_key sd dd ar Hk) as Ek. cbv zeta in Ek.
      pose proof (skip_print true v 0 [DBUS_DICT_ENTRY_END_CHAR] accepted_key sd' dd' ar' Hv) as Ev. cbv zeta in Ev.
      etrans; [exact Ek|]. etrans; [exact Ev|]. done. }
    unfold _dbus_type_signature_next, q. simpl. simpl in E. rewrite E. simpl. by rewrite Hp, !Nat.sub_0_r.
  - intros (sd & dd & ar & Hw). pose proof (signature_next_print [] t [] accepted_key sd dd ar Hw) as E.
    rewrite app_nil_r in E. simpl in E. rewrite E. simpl. by rewrite Nat.sub_0_r.
Qed.

(** ** Where a writer stands *)

(** What an insertion adds to the signature: nothing where it is only checked. *)
Definition grow (e : bool) (x : bytes) : bytes := if e then [] else x.

(** The containers, and no container. *)
Definition container_kind (c : byte) : bool :=
  is_brackets c || (c =b DBUS_TYPE_INVALID) || (c =b DBUS_TYPE_ARRAY) || (c =b DBUS_TYPE_VARIANT).

(** Arrays of numbers hold whole elements. *)
Fixpoint whole (v : val) (t : ty) {struct v} : bool :=
  match v, t with
  | VVariant t' v', _ => whole v' t'
  | VArray vs, TArray t' => forallb (λ v, whole v t') vs
  | VArray vs, TDict k w => forallb (λ v, whole v (TStruct [k; w])) vs
  | VRaw bs, TArray t' => (length bs mod typecode_alignment t' =? 0)%nat
  | VStruct vs, TStruct ts =>
      (fix whole_fields vs ts :=
         match vs, ts with v :: vs', t :: ts' => whole v t && whole_fields vs' ts' | _, _ => true end) vs ts
  | _, _ => true
  end.

Fixpoint whole_fields (vs : list val) (ts : list ty) : bool :=
  match vs, ts with v :: vs', t :: ts' => whole v t && whole_fields vs' ts' | _, _ => true end.

Section writing.
Context `{Host}.
Context (o : byte_order).

(** The writer is behind [va] in the block; next come the types [s].  They stand in the
    signature [ta ++ tb] or, in a variant, in the block; or they go behind [ta]. *)
Record stands (w : DBusTypeWriter) (c : byte) (e : bool) (ta tb va s : bytes) : Prop := {
  st_order : w_order w = o;
  st_container : w_container w = c;
  st_expectation : w_expectation w = e;
  st_enabled : w_enabled w = true;
  st_value : w_value_pos w = length va;
  st_array : c = DBUS_TYPE_ARRAY → e = true;
  st_kind : container_kind c = true;
  st_types :
    if e then ∃ wh pre post, w_types w = Some (wh, length pre)
      ∧ match wh with TypeStr => ta ++ tb | ValueStr => va end = pre ++ s ++ post
      ∧ (c = DBUS_TYPE_ARRAY → w_element_type_pos w = length pre)
    else w_types w = Some (TypeStr, length ta)
}.

(** Behind what was written. *)
Lemma stands_values w c e ta tb va s x :
  stands w c e ta tb va s → stands (at_values (length (va ++ x)) w) c e ta tb (va ++ x) s.
Proof.
  intros [? ? ? ? ? ? ? Ht]. split; try done. destruct e; [|done]. destruct Ht as (wh & pre & post & E1 & E2 & E3).
  destruct wh; [by exists TypeStr, pre, post|]. exists ValueStr, pre, (post ++ x). split; [done|]. split; [|done].
  by rewrite E2, <-!app_assoc.
Qed.

Lemma stands_types w c e ta tb va x s :
  c ≠ DBUS_TYPE_ARRAY → stands w c e ta tb va (x ++ s) →
  stands (advance_types (length x) w) c e (ta ++ grow e x) tb va s.
Proof.
  intros Hc [? ? ? ? ? ? ? Ht]. split; try done. destruct e; cbn [grow].
  - destruct Ht as (wh & pre & post & E1 & E2 & E3). exists wh, (pre ++ x), post. cbn [advance_types at_types w_types].
    rewrite E1, length_app. split; [done|]. rewrite app_nil_r. split; [|done]. destruct wh; by rewrite E2, <-!app_assoc.
  - cbn [advance_types at_types w_types]. rewrite Ht, length_app. done.
Qed.

Lemma stands_less w c e ta tb va x s : stands w c e ta tb va (x ++ s) → stands w c e ta tb va x.
Proof.
  intros [? ? ? ? ? ? ? Ht]. split; try done. destruct e; [|done]. destruct Ht as (wh & pre & post & E1 & E2 & E3).
  exists wh, pre, (s ++ post). split; [done|]. split; [|done]. by rewrite <-app_assoc in E2.
Qed.

(** The expected type in the memory of its string. *)
Lemma expected_text w c ta tb va vb s nt nv b :
  stands w c true ta tb va s → text nt (ta ++ tb) nv (va ++ vb) b →
  ∃ wh pre q q', w_types w = Some (wh, length pre) ∧ str (the_string wh b) = pre ++ s ++ q
    ∧ contents (the_string wh b) = pre ++ s ++ q' ∧ (c = DBUS_TYPE_ARRAY → w_element_type_pos w = length pre).
Proof.
  intros [_ _ _ _ _ _ _ (wh & pre & post & E1 & E2 & E3)] [[Ht _] [Hv _]].
  destruct (is_str_split _ _ Ht) as [qt Eqt], (is_str_split _ _ Hv) as [qv Eqv].
  exists wh, pre. destruct wh; cbn [the_string].
  - exists (post ++ qt), post. split; [done|]. split; [by rewrite Eqt, E2, <-!app_assoc|]. split; [|done].
    destruct Ht as [_ ->]. done.
  - exists (post ++ vb ++ qv), (post ++ vb). split; [done|]. split; [by rewrite Eqv, E2, <-!app_assoc|]. split; [|done].
    destruct Hv as [_ ->]. by rewrite E2, <-!app_assoc.
Qed.

(** *** Typecodes *)

Lemma verify_rule w c ta tb va vb x s nt nv :
  stands w c true ta tb va (x :: s) →
  sure (text nt (ta ++ tb) nv (va ++ vb)) (write_or_verify_typecode w x)
    (λ w' b, w' = (if c =b DBUS_TYPE_ARRAY then w else advance_types 1 w) ∧ text nt (ta ++ tb) nv (va ++ vb) b).
Proof.
  intros Hw b m Hb. destruct (expected_text _ _ _ _ _ _ _ _ _ _ Hw Hb) as (wh & pre & q & q' & E1 & E2 & E3 & _).
  unfold write_or_verify_typecode. rewrite E1, (st_expectation _ _ _ _ _ _ _ Hw), (st_container _ _ _ _ _ _ _ Hw).
  unfold gets, mbind at 1, M_bind at 1. cbn [id].
  assert (length pre <= len (the_string wh b))%nat as Hle.
  { apply (f_equal length) in E3. unfold contents in E3. rewrite length_take, length_app in E3. lia. }
  rewrite get_byte_in by done.
  rewrite E2, <- (Nat.add_0_r (length pre)), byte_at_app. cbn [byte_at nth app].
  unfold checked at 1, mbind at 1, M_bind at 1. rewrite byte_eqb_refl. cbn. destruct (c =b DBUS_TYPE_ARRAY); by repeat split; try apply Hb.
Qed.

(** Into the signature. *)
Lemma typecode_rule w c ta tb va vb x s nv :
  stands w c false ta tb va s →
  hoare (text 0 (ta ++ tb) nv (va ++ vb)) (write_or_verify_typecode w x)
    (λ w' b, w' = advance_types 1 w ∧ text 0 (ta ++ [x] ++ tb) nv (va ++ vb) b)
    (text 0 (ta ++ tb) nv (va ++ vb)) (_DBUS_STRING_MAX_MAX_LENGTH < Z.of_nat (length ta + length tb + 1)).
Proof.
  intros Hw. unfold write_or_verify_typecode. rewrite (st_types _ _ _ _ _ _ _ Hw), (st_expectation _ _ _ _ _ _ _ Hw).
  eapply hoare_bind.
  - eapply hoare_conseq; [apply on_types|done|intros a b Hb; exact Hb|intros b Hb; exact Hb|intros HL; exact HL].
    eapply (hoare_conseq _ (is_str (ta ++ tb)) _ (λ _, roomy 0 (ta ++ [x] ++ tb))); [apply (insert_byte_ok _ (length ta) x)| | | |].
    + rewrite length_app. lia.
    + by intros r [? _].
    + intros a r [_ Hr]. unfold insert_at_ in Hr. rewrite take_app_length, drop_app_length in Hr. by apply roomy_0.
    + intros r Hr. by apply roomy_0.
    + unfold too_long. rewrite length_insert_at, length_app. simpl. lia.
  - intros []; cbv beta. apply hoare_ret. intros b Hb. by split.
Qed.

Lemma typecode_roomy w c ta tb va vb x s nt nv :
  stands w c false ta tb va s → (1 <= nt)%nat →
  sure (text nt (ta ++ tb) nv (va ++ vb)) (write_or_verify_typecode w x)
    (λ w' b, w' = advance_types 1 w ∧ text (nt - 1) (ta ++ [x] ++ tb) nv (va ++ vb) b).
Proof.
  intros Hw Hn. unfold write_or_verify_typecode. rewrite (st_types _ _ _ _ _ _ _ Hw), (st_expectation _ _ _ _ _ _ _ Hw).
  eapply hoare_bind.
  - eapply hoare_conseq; [apply on_types, (insert_byte_roomy nt ta tb x Hn)|done|intros a b Hb; exact Hb|by intros b []|done].
  - intros []; cbv beta. apply hoare_ret. intros b Hb. by split.
Qed.

(** *** Basic values *)

(** Strings of the final length and what is allocated beyond do not pass the limit,
    or [L] holds. *)
Context (L : Prop) (vmax tmax : nat).
Hypothesis HLv : ∀ n, (n <= vmax + 8)%nat → _DBUS_STRING_MAX_MAX_LENGTH < Z.of_nat n → L.
Hypothesis HLt : ∀ n, (n <= tmax)%nat → _DBUS_STRING_MAX_MAX_LENGTH < Z.of_nat n → L.
Hypothesis Hsmall : Z.of_nat vmax < 2 ^ 31.

Lemma alloc_types n nt ta tb nv vt :
  (length ta + length tb + n <= tmax)%nat →
  hoare (text nt (ta ++ tb) nv vt) (at_string TypeStr (_dbus_string_alloc_space n)) (λ _, text n (ta ++ tb) nv vt)
    (text 0 (ta ++ tb) nv vt) L.
Proof.
  intros Hn. eapply hoare_conseq; [apply on_types|done| | |intros HL; exact HL].
  - eapply (hoare_conseq _ (is_str (ta ++ tb))); [apply alloc_space_ok|by intros r [? _]|done|done|].
    rewrite length_app. by apply HLt.
  - done.
  - intros b [Hr Hv]. split; [by apply roomy_0|done].
Qed.

Lemma alloc_values n nt tt_ va vb nv :
  (length va + length vb + n <= vmax + 8)%nat →
  hoare (text nt tt_ nv (va ++ vb)) (at_string ValueStr (_dbus_string_alloc_space n)) (λ _, text nt tt_ n (va ++ vb))
    (text nt tt_ 0 (va ++ vb)) L.
Proof.
  intros Hn. eapply hoare_conseq; [apply on_values|done| | |intros HL; exact HL].
  - eapply (hoare_conseq _ (is_str (va ++ vb))); [apply alloc_space_ok|by intros r [? _]|done|done|].
    rewrite length_app. by apply HLv.
  - done.
  - intros b [Hv Hr]. split; [done|by apply roomy_0].
Qed.

Lemma text_less nt nt' tt_ nv nv' vt b : (nt' <= nt)%nat → (nv' <= nv)%nat → text nt tt_ nv vt b → text nt' tt_ nv' vt b.
Proof. intros ? ? [? ?]. split; by eapply roomy_less. Qed.

(** An operation on the block that refines an insertion. *)
Lemma insert_values {A} nt tt_ va vb (c : SM A) (a : A) x :
  op_spec (va ++ vb) c a (insert_at_ (va ++ vb) (length va) x) → (length va + length x + length vb <= vmax)%nat →
  hoare (text nt tt_ 0 (va ++ vb)) (at_string ValueStr c) (λ a' b, a' = a ∧ text nt tt_ 0 (va ++ x ++ vb) b)
    (text nt tt_ 0 (va ++ vb)) L.
Proof.
  intros Hc Hn. eapply hoare_conseq; [apply (on_values nt tt_ 0 (va ++ vb) c (λ a' r, a' = a ∧ roomy 0 (va ++ x ++ vb) r) (is_str (va ++ vb)))|done| | |intros HL; exact HL].
  - eapply (hoare_conseq _ (is_str (va ++ vb))); [exact Hc|by intros r [? _]| |done|].
    + intros a' r [-> Hr]. split; [done|]. unfold insert_at_ in Hr. rewrite take_app_length, drop_app_length in Hr. by apply roomy_0.
    + unfold too_long. rewrite length_insert_at, length_app. apply HLv. lia.
  - intros a' b (Ht & -> & Hv). done.
  - intros b [Ht Hv]. split; [done|by apply roomy_0].
Qed.

Lemma basic_writes w c e ta tb va vb t x rest :
  value_ok t x = true → stands w c e ta tb va ([t] ++ rest) →
  (length va + length (wire o (length va) t x) + length vb <= vmax)%nat →
  (length ta + length tb + length (grow e [t]) <= tmax)%nat →
  let bs := wire o (length va) t x in
  hoare (text 0 (ta ++ tb) 0 (va ++ vb)) (_dbus_type_writer_write_basic w t x)
    (λ w' b, w' = at_values (length (va ++ bs)) (if c =b DBUS_TYPE_ARRAY then w else advance_types 1 w)
             ∧ text 0 (ta ++ grow e [t] ++ tb) 0 (va ++ bs ++ vb) b)
    (text 0 (ta ++ tb) 0 (va ++ vb)) L.
Proof.
  intros Hx Hw Hv Ht bs. unfold _dbus_type_writer_write_basic.
  set (nt := if e then 0%nat else 1%nat).
  eapply (hoare_bind _ _ _ (λ _, text nt (ta ++ tb) 0 (va ++ vb))).
  { pose proof (st_types _ _ _ _ _ _ _ Hw) as Et. rewrite (st_expectation _ _ _ _ _ _ _ Hw). unfold nt. destruct e.
    - destruct Et as (wh & pre & post & -> & _). by apply hoare_ret.
    - rewrite Et. apply alloc_types. simpl in Ht. lia. }
  intros []; cbv beta. unfold _dbus_type_writer_write_basic_no_typecode.
  rewrite (st_enabled _ _ _ _ _ _ _ Hw), (st_value _ _ _ _ _ _ _ Hw), (st_order _ _ _ _ _ _ _ Hw).
  eapply (hoare_bind _ _ _ (λ w' b, w' = at_values (length (va ++ bs)) w ∧ text nt (ta ++ tb) 0 (va ++ bs ++ vb) b)).
  { eapply hoare_bind.
    - eapply hoare_conseq; [apply (insert_values nt (ta ++ tb) va vb _ (length va + length bs)%nat bs); [|exact Hv]|done|intros a b Hb; exact Hb| |done].
      + apply (write_basic_ok (va ++ vb) (length va) t x o Hx). rewrite length_app. lia.
      + intros b Hb. eapply text_less; [| |exact Hb]; lia.
    - intros p; cbv beta. apply hoare_pure_l. intros ->. apply hoare_ret. intros b Hb. split; [|done]. by rewrite length_app. }
  intros w'; cbv beta. apply hoare_pure_l. intros ->.
  pose proof (stands_values _ _ _ _ _ _ _ bs Hw) as Hw'. apply sure_hoare. apply must_sure. unfold nt. destruct e; cbn [grow].
  - eapply hoare_conseq; [apply (verify_rule _ _ _ _ _ vb _ _ 0 0 Hw')|intros b Hb; by rewrite <-app_assoc| |done|done].
    intros a b [-> Hb]. cbn [app]. rewrite <-app_assoc in Hb. split; [|done]. by destruct (c =b DBUS_TYPE_ARRAY).
  - eapply hoare_conseq; [apply (typecode_roomy _ _ _ _ _ vb t _ 1 0 Hw'); lia|intros b Hb; by rewrite <-app_assoc| |done|done].
    intros a b [-> Hb]. rewrite <-app_assoc in Hb. split; [|done].
    destruct (c =b DBUS_TYPE_ARRAY) eqn:Ec; [|done]. apply byte_eqb_eq in Ec. by apply (st_array _ _ _ _ _ _ _ Hw) in Ec.
Qed.

(** *** Containers *)

(** What a failure leaves behind: something was inserted. *)
Definition wrecked (e : bool) (ta tb va vb : bytes) (b : buffers) : Prop :=
  ∃ xt xv, text 0 (ta ++ grow e xt ++ tb) 0 (va ++ xv ++ vb) b.

Lemma grow_app e x y : grow e x ++ grow e y = grow e (x ++ y).
Proof. by destruct e. Qed.

Lemma wrecked_now e ta tb va vb x y b :
  text 0 (ta ++ grow e x ++ tb) 0 (va ++ y ++ vb) b → wrecked e ta tb va vb b.
Proof. intros Hb. by exists x, y. Qed.

Lemma wrecked_nothing e ta tb va vb b : text 0 (ta ++ tb) 0 (va ++ vb) b → wrecked e ta tb va vb b.
Proof. intros Hb. exists [], []. by destruct e. Qed.

Lemma wrecked_inside e e' ta tb va vb x y b :
  (e = true → e' = true) → wrecked e' (ta ++ grow e x) tb (va ++ y) vb b → wrecked e ta tb va vb b.
Proof.
  intros He (xt & xv & Hb). exists (x ++ grow e' xt), (y ++ xv). rewrite <-!app_assoc in Hb.
  rewrite <-grow_app, <-!app_assoc. destruct e, e'; try done. by specialize (He eq_refl).
Qed.

Definition sub_writer (w : DBusTypeWriter) (cc : byte) : DBusTypeWriter :=
  Writer o cc (w_expectation w || (cc =b DBUS_TYPE_ARRAY) || (cc =b DBUS_TYPE_VARIANT)) true (w_types w) (w_value_pos w) 0 None 0.

Lemma init_check_rule w c e ta tb va vb x s cc nt nv :
  stands w c e ta tb va (x :: s) → map_type_char_to_type x = cc →
  sure (text nt (ta ++ tb) nv (va ++ vb)) (writer_recurse_init_and_check w cc)
    (λ s b, s = sub_writer w cc ∧ text nt (ta ++ tb) nv (va ++ vb) b).
Proof.
  intros Hw Hx b m Hb. unfold writer_recurse_init_and_check, sub_writer.
  rewrite (st_order _ _ _ _ _ _ _ Hw), (st_enabled _ _ _ _ _ _ _ Hw).
  unfold gets, mbind at 1, M_bind at 1. cbn [id]. destruct e.
  - destruct (expected_text _ _ _ _ _ _ _ _ _ _ Hw Hb) as (wh & pre & q & q' & E1 & E2 & _ & _).
    rewrite E1, (st_expectation _ _ _ _ _ _ _ Hw), E2. cbn [app]. rewrite first_type_at, Hx, byte_eqb_refl. by repeat split; try apply Hb.
  - pose proof (st_types _ _ _ _ _ _ _ Hw) as E. cbn in E. rewrite E, (st_expectation _ _ _ _ _ _ _ Hw).
    by repeat split; try apply Hb.
Qed.

Definition open_char (dict : bool) : byte := if dict then DBUS_DICT_ENTRY_BEGIN_CHAR else DBUS_STRUCT_BEGIN_CHAR.
Definition close_char (dict : bool) : byte := if dict then DBUS_DICT_ENTRY_END_CHAR else DBUS_STRUCT_END_CHAR.
Definition brackets (dict : bool) : byte := if dict then DBUS_TYPE_DICT_ENTRY else DBUS_TYPE_STRUCT.

Lemma print_brackets dict ts : print_as dict (TStruct ts) = [open_char dict] ++ flat_map print ts ++ [close_char dict].
Proof. by destruct dict. Qed.

Lemma brackets_sub w c e ta tb va s dict :
  stands w c e ta tb va s → stands (sub_writer w (brackets dict)) (brackets dict) e ta tb va s.
Proof.
  intros [? ? ? ? ? ? ? Ht]. unfold sub_writer. split; try done.
  - cbn [w_expectation]. by destruct dict, (w_expectation w).
  - by destruct dict.
  - by destruct dict.
  - cbn [w_types]. destruct e; [|done]. destruct Ht as (wh & pre & post & E1 & E2 & E3). exists wh, pre, post.
    split; [done|]. split; [done|]. by destruct dict.
Qed.

Lemma recurse_brackets w c e ta tb va vb ts dict rest :
  stands w c e ta tb va (print_as dict (TStruct ts) ++ rest) →
  (length va + length (padding (length va) 8) + length vb <= vmax)%nat →
  (length ta + length tb + length (grow e [open_char dict]) <= tmax)%nat →
  let s := at_values (length (va ++ padding (length va) 8)) (advance_types 1 (sub_writer w (brackets dict))) in
  stays (e = false) (text 0 (ta ++ tb) 0 (va ++ vb)) (_dbus_type_writer_recurse w (code_as dict (TStruct ts)) None 0)
    (λ ws b, ws = (w, s) ∧ text 0 (ta ++ grow e [open_char dict] ++ tb) 0 (va ++ padding (length va) 8 ++ vb) b)
    (wrecked e ta tb va vb) L.
Proof.
  intros Hw Hv Ht s. rewrite print_brackets, <-app_assoc in Hw.
  assert (_dbus_type_writer_recurse w (code_as dict (TStruct ts)) None 0
    = (sub_ ← writer_recurse_init_and_check w (brackets dict);
       sub_ ← writer_recurse_struct_or_dict_entry w (open_char dict) sub_; mret (w, sub_))) as -> by (by destruct dict).
  assert (length (padding (length va) 8) <= 8)%nat as Hpad.
  { rewrite length_padding. pose proof (align_up_spec (length va) 8 ltac:(alignment)). lia. }
  eapply stays_bind.
  { apply stays_hoare, sure_hoare, (init_check_rule _ _ _ _ _ _ _ _ _ (brackets dict) 0 0 Hw). by destruct dict. }
  intros ?; cbv beta. pose proof (brackets_sub _ _ _ _ _ _ _ dict Hw) as Hs.
  apply stays_pure_l; intros ->. unfold writer_recurse_struct_or_dict_entry. rewrite (st_enabled _ _ _ _ _ _ _ Hw).
  eapply (stays_bind _ _ _ _ (λ s' b, s' = s ∧ text 0 (ta ++ grow e [open_char dict] ++ tb) 0 (va ++ padding (length va) 8 ++ vb) b));
    [|intros s'; cbv beta; apply stays_ret; by intros b [-> Hb]].
  eapply stays_bind.
  { apply stays_hoare. eapply hoare_conseq; [apply (alloc_values 8 0 (ta ++ tb) va vb 0); lia|done| | |done].
    - intros a b Hb. exact Hb.
    - intros b. apply wrecked_nothing. }
  intros []; cbv beta.
  eapply (stays_bind _ _ _ _ (λ s b, s = advance_types 1 (sub_writer w (brackets dict))
                                ∧ text 0 (ta ++ grow e [open_char dict] ++ tb) 8 (va ++ vb) b)).
  { destruct e; cbn [grow].
    - apply stays_hoare, sure_hoare, must_sure.
      eapply hoare_conseq; [apply (verify_rule _ _ _ _ _ vb _ _ 0 8 Hs)|done| |done|done].
      intros a b [-> Hb]. by destruct dict.
    - apply must_stays with (F' := text 0 (ta ++ tb) 8 (va ++ vb)); [done|].
      eapply hoare_conseq; [apply (typecode_rule _ _ _ _ _ vb (open_char dict) _ 8 Hs)|done|done|done|].
      apply HLt. simpl in Ht. lia. }
  intros s'; cbv beta. apply stays_pure_l; intros ->. cbv zeta.
  assert (w_value_pos (advance_types 1 (sub_writer w (brackets dict))) = length va) as -> by apply (st_value _ _ _ _ _ _ _ Hw).
  eapply stays_bind.
  { apply stays_hoare, sure_hoare, must_sure.
    eapply hoare_conseq; [apply on_values, (insert_bytes_roomy 8 (align_up (length va) 8 - length va) va vb x00)|done|intros a b Hb; exact Hb|by intros b []|done].
    by rewrite length_padding in Hpad. }
  intros []; cbv beta. apply stays_ret. intros b [Hbt Hbv]. split.
  - unfold s. f_equal. rewrite length_app, length_padding. pose proof (align_up_spec (length va) 8 ltac:(alignment)). lia.
  - split; [done|]. eapply roomy_less; [|exact Hbv]. lia.
Qed.

(** The parent behind a value. *)
Definition after (dict : bool) (t : ty) (n : nat) (w : DBusTypeWriter) : DBusTypeWriter :=
  at_values n
    (if w_container w =b DBUS_TYPE_ARRAY then w
     else if (w_container w =b DBUS_TYPE_VARIANT) && (match t with TStruct _ => true | _ => false end) then w
     else advance_types (length (print_as dict t)) w).

(** The claim of the induction: writing [v] inserts its encoding. *)
Definition value_writes (v : val) : Prop := ∀ dict t bs w c e ta tb va vb rest,
  shape_ok dict t → enc o v t (length va) = Some bs → whole v t = true →
  stands w c e ta tb va (print_as dict t ++ rest) →
  (length va + length bs + length vb <= vmax)%nat →
  (length ta + length tb + length (grow e (print_as dict t)) <= tmax)%nat →
  stays (e = false) (text 0 (ta ++ tb) 0 (va ++ vb)) (write_val v dict t w)
    (λ w' b, w' = after dict t (length (va ++ bs)) w ∧ text 0 (ta ++ grow e (print_as dict t) ++ tb) 0 (va ++ bs ++ vb) b)
    (wrecked e ta tb va vb) L.

Lemma after_fields c e ta tb va w t s bs :
  stands w c e ta tb va (print t ++ s) → (c =b DBUS_TYPE_ARRAY) = false → (c =b DBUS_TYPE_VARIANT) = false →
  after false t (length (va ++ bs)) w = at_values (length (va ++ bs)) (advance_types (length (print t)) w)
  ∧ stands (after false t (length (va ++ bs)) w) c e (ta ++ grow e (print t)) tb (va ++ bs) s.
Proof.
  intros Hw H1 H2. unfold after. rewrite (st_container _ _ _ _ _ _ _ Hw), H1, H2. cbn [andb print_as]. split; [done|].
  apply stands_values, stands_types; [|done]. by apply byte_eqb_neq.
Qed.

Lemma fields_write vs : Forall value_writes vs → ∀ ts bs w c e ta tb va vb rest,
  Forall ok_type ts → enc_fields o vs ts (length va) = Some bs → whole_fields vs ts = true →
  stands w c e ta tb va (flat_map print ts ++ rest) → (c =b DBUS_TYPE_ARRAY) = false → (c =b DBUS_TYPE_VARIANT) = false →
  (length va + length bs + length vb <= vmax)%nat →
  (length ta + length tb + length (grow e (flat_map print ts)) <= tmax)%nat →
  stays (e = false) (text 0 (ta ++ tb) 0 (va ++ vb)) (write_fields vs ts w)
    (λ w' b, w' = at_values (length (va ++ bs)) (advance_types (length (flat_map print ts)) w)
             ∧ stands w' c e (ta ++ grow e (flat_map print ts)) tb (va ++ bs) rest
             ∧ text 0 (ta ++ grow e (flat_map print ts) ++ tb) 0 (va ++ bs ++ vb) b)
    (wrecked e ta tb va vb) L.
Proof.
  induction 1 as [|v vs Hv _ IH]; intros [|t ts] bs w c e ta tb va vb rest Hok E Hwh Hw H1 H2 Hvm Htm; try done.
  - injection E as <-. apply stays_ret. intros b Hb.
    assert (w = at_values (length (va ++ [])) (advance_types 0 w)) as Ew.
    { rewrite app_nil_r, <-(st_value _ _ _ _ _ _ _ Hw). destruct w as [? ? ? ? [[? n]|] ? ? ? ?]; unfold at_values, advance_types, at_types; simpl; by rewrite ?Nat.add_0_r. }
    split; [done|]. destruct e; cbn [grow flat_map]; rewrite !app_nil_r; by split.
  - cbn [enc_fields] in E. destruct (enc o v t (length va)) as [x|] eqn:Ev; [|done]. cbn [mbind option_bind] in E.
    destruct (enc_fields o vs ts _) as [y|] eqn:Ey; [|done]. injection E as <-.
    inversion_clear Hok as [|? ? Ht Hts]. apply andb_true_iff in Hwh as [Hwv Hwf]. cbn [flat_map] in *. rewrite <-app_assoc in Hw.
    rewrite <-grow_app, !length_app in *. destruct (after_fields _ _ _ _ _ _ _ _ x Hw H1 H2) as [Ea Ha].
    cbn [write_fields]. eapply stays_bind.
    { eapply stays_conseq; [eapply (Hv false t x w c e ta tb va (vb)); try done; cbn [print_as]; lia|done|done|intros a b Hb; exact Hb|done|done]. }
    intros w'; cbv beta. apply stays_pure_l. intros ->. cbn [print_as].
    rewrite <-length_app in Ey.
    eapply stays_conseq; [eapply (IH ts y _ c e (ta ++ grow e (print t)) tb (va ++ x) vb rest); try done; rewrite !length_app; lia|done| | | |done].
    + intros b Hb. by rewrite <-!app_assoc.
    + intros w' b (-> & Hw' & Hb). rewrite <-!app_assoc in *. split; [|by split].
      rewrite Ea. destruct w as [? ? ? ? [[? n]|] ? ? ? ?]; unfold at_values, advance_types, at_types; simpl; rewrite !length_app, ?Nat.add_assoc; done.
    + intros b. by apply wrecked_inside.
Qed.

(** *** Structs and dict entries *)

Lemma unrecurse_brackets w c e s ta tb va vb dict rest :
  w_expectation w = e → w_container w = c → container_kind c = true → w_types w ≠ None →
  stands s (brackets dict) e ta tb va ([close_char dict] ++ rest) →
  (length ta + length tb + length (grow e [close_char dict]) <= tmax)%nat →
  hoare (text 0 (ta ++ tb) 0 (va ++ vb)) (_dbus_type_writer_unrecurse w s)
    (λ w' b, w' = at_values (length va) (if (c =b DBUS_TYPE_ARRAY) || (c =b DBUS_TYPE_VARIANT) then w
                                         else at_types (w_types (advance_types 1 s)) w)
             ∧ text 0 (ta ++ grow e [close_char dict] ++ tb) 0 (va ++ vb) b)
    (text 0 (ta ++ tb) 0 (va ++ vb)) L.
Proof.
  intros He Hc Hk Hn Hs Ht. unfold _dbus_type_writer_unrecurse. apply hoare_assert.
  { rewrite He, (st_expectation _ _ _ _ _ _ _ Hs). by destruct e. }
  eapply (hoare_bind _ _ _ (λ s' b, s' = advance_types 1 s ∧ text 0 (ta ++ grow e [close_char dict] ++ tb) 0 (va ++ vb) b)).
  - assert (close_container s = write_or_verify_typecode s (close_char dict)) as ->.
    { unfold close_container. rewrite (st_container _ _ _ _ _ _ _ Hs). by destruct dict. }
    destruct e; cbn [grow].
    + apply sure_hoare. eapply hoare_conseq; [apply (verify_rule _ _ _ _ _ vb _ _ 0 0 Hs)|done| |done|done].
      intros a b [-> Hb]. split; [by destruct dict|exact Hb].
    + eapply hoare_conseq; [apply (typecode_rule _ _ _ _ _ vb (close_char dict) _ 0 Hs)|done|done|done|].
      apply HLt. simpl in Ht. lia.
  - intros s'; cbv beta. apply hoare_pure_l. intros ->. apply hoare_ret. intros b Hb. split; [|done].
    change (w_container (advance_types 1 s)) with (w_container s). rewrite (st_container _ _ _ _ _ _ _ Hs), Hc.
    change (w_value_pos (advance_types 1 s)) with (w_value_pos s). rewrite (st_value _ _ _ _ _ _ _ Hs).
    destruct (w_types w); [|done]. f_equal. assert (is_brackets (brackets dict) = true) as -> by (by destruct dict).
    cbn [andb]. unfold container_kind in Hk. destruct (is_brackets c) eqn:Eb; cbn [orb] in *.
    { unfold is_brackets in Eb. apply orb_true_iff in Eb as [->%byte_eqb_eq | ->%byte_eqb_eq]; done. }
    destruct (c =b DBUS_TYPE_INVALID) eqn:Ei; cbn [orb] in *; [by apply byte_eqb_eq in Ei as ->|]. by rewrite Hk.
Qed.

Lemma stands_typed w c e ta tb va s : stands w c e ta tb va s → w_types w ≠ None.
Proof. intros [? ? ? ? ? ? ? Ht]. destruct e; [destruct Ht as (? & ? & ? & -> & _)|rewrite Ht]; done. Qed.

Lemma struct_writes vs : Forall value_writes vs → value_writes (VStruct vs).
Proof.
  intros Hvs dict t bs w c e ta tb va vb rest Hok E Hwh Hw Hvm Htm. rewrite enc_eq in E.
  destruct t as [|? |ts|]; try done. destruct (enc_fields o vs ts (align_up (length va) 8)) as [x|] eqn:Ex; [|done].
  injection E as <-. rewrite write_val_eq. set (pad := padding (length va) 8) in *.
  assert (align_up (length va) 8 = length (va ++ pad)) as Ea.
  { unfold pad. rewrite length_app, length_padding. pose proof (align_up_spec (length va) 8 ltac:(alignment)). lia. }
  rewrite Ea in Ex. rewrite print_brackets in *. rewrite <-!grow_app in *. rewrite !length_app in *.
  eapply stays_bind.
  { apply (recurse_brackets w c e ta tb va vb ts dict rest); [by rewrite print_brackets|unfold pad in *; lia|lia]. }
  intros [w0 s]; cbv beta. apply stays_pure_l. intros [= -> ->]. fold pad.
  set (s := at_values _ _). set (to := grow e [open_char dict]) in *.
  assert (stands s (brackets dict) e (ta ++ to) tb (va ++ pad) (flat_map print ts ++ [close_char dict] ++ rest)) as Hs.
  { apply stands_values. apply (stands_types _ _ _ _ _ _ [open_char dict]); [by destruct dict|].
    apply (brackets_sub _ _ _ _ _ _ _ dict) in Hw. by rewrite <-!app_assoc in Hw. }
  eapply stays_bind.
  { eapply stays_conseq; [eapply (fields_write vs Hvs ts x s (brackets dict) e (ta ++ to) tb (va ++ pad) vb ([close_char dict] ++ rest))| | |intros a b Hb; exact Hb| |done].
    - by eapply shape_fields_ok.
    - by rewrite length_app.
    - exact Hwh.
    - exact Hs.
    - by destruct dict.
    - by destruct dict.
    - rewrite !length_app. lia.
    - rewrite !length_app. lia.
    - done.
    - intros b Hb. by rewrite <-!app_assoc.
    - intros b. by apply wrecked_inside. }
  intros s'; cbv beta. apply stays_pure_l. intros Es'. apply stays_pure_l. intros Hs'.
  apply stays_hoare. eapply hoare_conseq; [eapply (unrecurse_brackets w c e s' _ tb _ vb dict rest)| | | |done].
  - apply (st_expectation _ _ _ _ _ _ _ Hw).
  - apply (st_container _ _ _ _ _ _ _ Hw).
  - apply (st_kind _ _ _ _ _ _ _ Hw).
  - by eapply stands_typed.
  - exact Hs'.
  - rewrite !length_app. lia.
  - intros b Hb. by rewrite <-!app_assoc in *.
  - intros w' b [-> Hb]. rewrite <-!app_assoc in *. split; [|done]. unfold after. rewrite (st_container _ _ _ _ _ _ _ Hw).
    rewrite andb_true_r, !length_app. destruct (c =b DBUS_TYPE_ARRAY); [done|]. destruct (c =b DBUS_TYPE_VARIANT); [done|]. cbn [orb].
    f_equal. rewrite Es', print_brackets. unfold s, at_values, advance_types, at_types, sub_writer. simpl.
    destruct (w_types w) as [[wh n]|]; simpl; rewrite ?length_app; simpl; [|done]. do 3 f_equal. lia.
  - intros b Hb. apply (wrecked_now _ _ _ _ _ ([open_char dict] ++ flat_map print ts) (pad ++ x)).
    rewrite <-grow_app, <-!app_assoc. by rewrite <-!app_assoc in Hb.
Qed.

(** *** Variants *)

Lemma ok_alignment t : ok_type t → is_alignment (typecode_alignment t).
Proof. intros (sd & dd & ar & Hw). by apply valid_type_alignment, (typecode_valid sd dd ar). Qed.

Lemma first_type_ok t : ok_type t → _dbus_type_get_alignment (_dbus_first_type_in_signature (print t) 0) = typecode_alignment t.
Proof.
  intros (sd & dd & ar & Hw). pose proof (first_type_print [] t [] accepted_key sd dd ar Hw) as E.
  rewrite app_nil_r in E. cbn [app length] in E. by rewrite E.
Qed.

Lemma hoare_checked {S A B} (P : S → Prop) (a : A) (k : A → M S B) Q F L' : hoare P (k a) Q F L' → hoare P (checked (Some a) ≫= k) Q F L'.
Proof. by intros Hk. Qed.

Lemma hoare_and_assoc {S A} (P P' : S → Prop) φ (c : M S A) Q F L' :
  (φ → hoare (λ s, P s ∧ P' s) c Q F L') → hoare (λ s, P s ∧ φ ∧ P' s) c Q F L'.
Proof. intros Hc s m (HP & Hφ & HP'). by apply Hc. Qed.

Lemma values_step {A} nt tt_ nv vt (c : SM A) Q :
  sure (roomy nv vt) c Q →
  sure (text nt tt_ nv vt) (must (at_string ValueStr c)) (λ a b, roomy nt tt_ (types b) ∧ Q a (values b)).
Proof. intros Hc. apply must_sure. eapply hoare_conseq; [by apply on_values|done|done|intros b [_ []]|done]. Qed.

(** The four insertions of a variant. *)
Lemma variant_inserts {B} nt tt_ va vb s al (k : bytes → WM B) R F L' :
  is_alignment al → _dbus_type_get_alignment (_dbus_first_type_in_signature s 0) = al →
  let sg := z2b (Z.of_nat (length s)) :: s ++ [x00] in
  let q := (length va + 1 + length s + 1)%nat in
  hoare (text nt tt_ 0 (va ++ (sg ++ padding (length (va ++ sg)) al) ++ vb)) (k s) R F L' →
  hoare (text nt tt_ (length s + 9) (va ++ vb))
    (must (at_string ValueStr (_dbus_string_insert_byte (length va) (z2b (Z.of_nat (length s)))));;
     ct ← checked (Some s);
     must (at_string ValueStr (_dbus_string_copy_len (contained_string ct) 0 (length s) (length va + 1)));;
     must (at_string ValueStr (_dbus_string_insert_byte (length va + 1 + length s) DBUS_TYPE_INVALID));;
     must (at_string ValueStr (_dbus_string_insert_bytes q (align_up q (_dbus_type_get_alignment (_dbus_first_type_in_signature ct 0)) - q) x00));; k ct) R F L'.
Proof.
  intros Hal Ef sg q Hk. set (l := z2b (Z.of_nat (length s))) in *.
  assert (q = length (va ++ sg)) as Eq by (unfold q, sg; rewrite length_app; simpl; rewrite length_app; simpl; lia).
  assert (align_up q al - q <= 7)%nat as Hp.
  { pose proof (align_up_spec q al Hal) as [Hr _]. unfold is_alignment in Hal. rewrite !elem_of_cons, elem_of_nil in Hal. lia. }
  eapply hoare_bind; [apply sure_hoare, values_step, (insert_byte_roomy _ va vb l); lia|]. intros []; cbv beta. apply hoare_checked. rewrite Ef.
  replace (length va + 1)%nat with (length (va ++ [l])) by (rewrite length_app; simpl; lia).
  eapply hoare_bind.
  { apply sure_hoare. eapply hoare_conseq; [apply (values_step nt tt_ (length s + 8) ((va ++ [l]) ++ vb)), (copy_roomy _ s (contained_string s) 0 (length s) (va ++ [l]) vb)|
      |intros a b Hb; exact Hb|done|done].
    - split; [done|]. unfold contents, contained_string. simpl. by rewrite take_ge.
    - simpl. lia.
    - lia.
    - intros b [Ht Hv]. split; [done|]. rewrite <-app_assoc. eapply roomy_less; [|exact Hv]. lia. }
  intros []; cbv beta. rewrite sub_all.
  replace (length (va ++ [l]) + length s)%nat with (length ((va ++ [l]) ++ s)) by (by rewrite length_app).
  eapply hoare_bind.
  { apply sure_hoare. eapply hoare_conseq; [apply (values_step nt tt_ 8 (((va ++ [l]) ++ s) ++ vb)), (insert_byte_roomy 8 ((va ++ [l]) ++ s) vb DBUS_TYPE_INVALID); lia|
      |intros a b Hb; exact Hb|done|done].
    intros b [Ht Hv]. split; [done|]. rewrite <-app_assoc. eapply roomy_less; [|exact Hv]. lia. }
  intros []; cbv beta. rewrite Eq.
  eapply (hoare_bind _ _ _ (λ _, text nt tt_ 0 (va ++ (sg ++ padding (length (va ++ sg)) al) ++ vb))); [|intros []; exact Hk].
  apply sure_hoare.
  eapply hoare_conseq; [apply (values_step nt tt_ 7 ((va ++ sg) ++ vb)), (insert_bytes_roomy 7 (align_up (length (va ++ sg)) al - length (va ++ sg)) (va ++ sg) vb x00)| | |done|done].
  - by rewrite <-Eq.
  - intros b [Ht Hv]. split; [done|]. unfold sg. cbn [app]. rewrite <-!app_assoc in *. cbn [app] in *. rewrite <-app_assoc. exact Hv.
  - intros a b [Ht Hv]. split; [done|]. eapply roomy_less; [|by rewrite <-!app_assoc in *]. lia.
Qed.

Lemma recurse_variant w c e ta tb va vb t' s sg rest :
  stands w c e ta tb va ([DBUS_TYPE_VARIANT] ++ rest) → ok_type t' → s = print t' →
  sg = z2b (Z.of_nat (length s)) :: s ++ [x00] →
  (length va + length sg + length vb <= vmax)%nat →
  (length ta + length tb + length (grow e [DBUS_TYPE_VARIANT]) <= tmax)%nat →
  let x := sg ++ padding (length (va ++ sg)) (typecode_alignment t') in
  let w' := if c =b DBUS_TYPE_ARRAY then w else advance_types 1 w in
  let sub_ := at_values (length (va ++ x)) (at_types (Some (ValueStr, (length va + 1)%nat)) (sub_writer w DBUS_TYPE_VARIANT)) in
  hoare (text 0 (ta ++ tb) 0 (va ++ vb)) (_dbus_type_writer_recurse w DBUS_TYPE_VARIANT (Some s) 0)
    (λ ws b, ws = (w', sub_) ∧ text 0 (ta ++ grow e [DBUS_TYPE_VARIANT] ++ tb) 0 (va ++ x ++ vb) b)
    (text 0 (ta ++ tb) 0 (va ++ vb)) L.
Proof.
  intros Hw Hok -> Esg Hv Ht x w' sub_. unfold _dbus_type_writer_recurse, contained_len.
  pose proof (find_len_print false t' Hok) as El. cbn [print_as] in El. rewrite El.
  change (checked (Some ?n) ≫= ?k) with (k n). unfold _dbus_type_writer_recurse_contained_len.
  eapply hoare_bind; [apply sure_hoare, (init_check_rule _ _ _ _ _ _ _ _ _ DBUS_TYPE_VARIANT 0 0 Hw); done|].
  intros ?; cbv beta. apply hoare_pure_l; intros ->.
  change (DBUS_TYPE_VARIANT =b DBUS_TYPE_STRUCT) with false. change (DBUS_TYPE_VARIANT =b DBUS_TYPE_DICT_ENTRY) with false.
  change (DBUS_TYPE_VARIANT =b DBUS_TYPE_ARRAY) with false. change (DBUS_TYPE_VARIANT =b DBUS_TYPE_VARIANT) with true. cbv iota.
  unfold writer_recurse_variant. rewrite (st_enabled _ _ _ _ _ _ _ Hw).
  eapply hoare_bind.
  { eapply hoare_conseq; [apply (alloc_values (length (print t') + 9) 0 (ta ++ tb) va vb 0)|done|intros a b Hb; exact Hb|done|done].
    rewrite Esg in Hv. simpl in Hv. rewrite length_app in Hv. simpl in Hv. lia. }
  intros []; cbv beta.
  eapply (hoare_bind _ _ _ (λ w1 b, w1 = w' ∧ text 0 (ta ++ grow e [DBUS_TYPE_VARIANT] ++ tb) (length (print t') + 9) (va ++ vb) b)).
  { destruct e; cbn [grow].
    - apply sure_hoare. eapply hoare_conseq; [apply (verify_rule _ _ _ _ _ vb _ _ 0 (length (print t') + 9) Hw)|done|done|done|done].
    - eapply hoare_conseq; [apply (typecode_rule _ _ _ _ _ vb DBUS_TYPE_VARIANT _ (length (print t') + 9) Hw)|done| | |].
      + intros a b [-> Hb]. split; [|done]. unfold w'. destruct (c =b DBUS_TYPE_ARRAY) eqn:Ec; [|done].
        apply byte_eqb_eq in Ec. by apply (st_array _ _ _ _ _ _ _ Hw) in Ec.
      + intros b Hb. eapply text_less; [| |exact Hb]; lia.
      + apply HLt. simpl in Ht. lia. }
  intros w1; cbv beta. apply hoare_pure_l; intros ->.
  assert (w_enabled w' = true) as -> by (unfold w'; destruct (c =b DBUS_TYPE_ARRAY); apply (st_enabled _ _ _ _ _ _ _ Hw)).
  cbn [negb]. cbv zeta. assert (w_value_pos (sub_writer w DBUS_TYPE_VARIANT) = length va) as -> by apply (st_value _ _ _ _ _ _ _ Hw).
  refine (variant_inserts 0 (ta ++ grow e [DBUS_TYPE_VARIANT] ++ tb) va vb (print t') (typecode_alignment t')
    (λ ct, mret (w', at_values (align_up (length va + 1 + length (print t') + 1) (_dbus_type_get_alignment (_dbus_first_type_in_signature ct 0)))
                       (at_types (Some (ValueStr, (length va + 1)%nat)) (sub_writer w DBUS_TYPE_VARIANT)))) _ _ _
    (ok_alignment t' Hok) (first_type_ok t' Hok) _).
  rewrite <-Esg, (first_type_ok t' Hok). apply hoare_ret. intros b Hb. split; [|exact Hb]. unfold sub_. f_equal. f_equal.
  assert (length va + 1 + length (print t') + 1 = length (va ++ sg))%nat as ->
    by (rewrite Esg, length_app; simpl; rewrite length_app; simpl; lia).
  unfold x. rewrite (app_assoc va), (length_app (va ++ sg)), length_padding.
  pose proof (align_up_spec (length (va ++ sg)) _ (ok_alignment t' Hok)). lia.
Qed.

Lemma stands_variant w c e ta tb va t' sg :
  stands w c e ta tb va ([DBUS_TYPE_VARIANT] ++ sg) → ∀ y ta',
  stands (at_values (length (va ++ (z2b (Z.of_nat (length (print t'))) :: print t' ++ [x00]) ++ y))
            (at_types (Some (ValueStr, (length va + 1)%nat)) (sub_writer w DBUS_TYPE_VARIANT)))
    DBUS_TYPE_VARIANT true ta' tb (va ++ (z2b (Z.of_nat (length (print t'))) :: print t' ++ [x00]) ++ y) (print t' ++ []).
Proof.
  intros Hw y ta'. split; try done.
  - cbn. by destruct (w_expectation w).
  - exists ValueStr, (va ++ [z2b (Z.of_nat (length (print t')))]), ([x00] ++ y). split; [by rewrite (length_app va [_])|]. split; [|done].
    rewrite app_nil_r. cbn [app]. rewrite <-!app_assoc. done.
Qed.

(** Leaving a variant changes nothing but the position. *)
Lemma unrecurse_variant w s : w_container s = DBUS_TYPE_VARIANT → w_expectation s = true →
  ∀ b m, _dbus_type_writer_unrecurse w s b m = Ok (at_values (w_value_pos s) w) b m.
Proof.
  intros Hc He b m. unfold _dbus_type_writer_unrecurse, assert_, close_container, is_brackets. rewrite He, Hc, orb_true_r.
  unfold mbind, M_bind, checked. cbv iota beta. change (DBUS_TYPE_VARIANT =b DBUS_TYPE_STRUCT) with false.
  change (DBUS_TYPE_VARIANT =b DBUS_TYPE_DICT_ENTRY) with false. change (DBUS_TYPE_VARIANT =b DBUS_TYPE_ARRAY) with false.
  cbv iota. unfold mret, M_ret. rewrite Hc. done.
Qed.

Lemma leaf_shape dict c : shape_ok dict (TLeaf c) → dict = false ∧ ok_type (TLeaf c).
Proof. destruct dict; [|done]. by intros (k & v & ? & _). Qed.

Lemma after_leaf c n w :
  after false (TLeaf c) n w = at_values n (if w_container w =b DBUS_TYPE_ARRAY then w else advance_types 1 w).
Proof. unfold after. by rewrite andb_false_r. Qed.

Lemma variant_writes t' v' : value_writes v' → value_writes (VVariant t' v').
Proof.
  intros Hv' dict t bs w c e ta tb va vb rest Hok E Hwh Hw Hvm Htm. rewrite enc_eq in E. destruct t as [ch| | |]; try done.
  destruct (ch =b "v") eqn:Ech; [|done]. apply byte_eqb_eq in Ech as ->. apply leaf_shape in Hok as [-> Hok].
  unfold enc_signature in E. destruct (sig_ok accepted_key [t'] && _) eqn:Es; [|done]. cbn [mbind option_bind] in E.
  apply andb_true_iff in Es as [[Hw' _]%andb_true_iff _]. assert (ok_type t') as Hok' by (by exists 0%nat, 0%nat, 0%nat).
  assert (print_sig [t'] = print t') as Ep by (unfold print_sig; simpl; apply app_nil_r). rewrite Ep in E.
  set (sg := z2b (Z.of_nat (length (print t'))) :: print t' ++ [x00]) in *.
  destruct (enc o v' t' (length va + length sg)) as [y|] eqn:Ey; [|done]. cbn [mbind option_bind] in E.
  apply (inj Some) in E as <-.
  rewrite <-length_app in Ey. destruct (enc_padded o v' t' _ y Ey (ok_alignment t' Hok')) as (y' & -> & Ey').
  set (pad := padding (length (va ++ sg)) (typecode_alignment t')) in *. cbn [print_as] in *. change (print (TLeaf "v")) with [DBUS_TYPE_VARIANT] in *.
  assert (align_up (length (va ++ sg)) (typecode_alignment t') = length (va ++ sg ++ pad)) as Ea.
  { unfold pad. rewrite (app_assoc va), (length_app (va ++ sg)), length_padding.
    pose proof (align_up_spec (length (va ++ sg)) _ (ok_alignment t' Hok')). lia. }
  rewrite Ea in Ey'. rewrite write_val_eq. rewrite !length_app in Hvm.
  eapply stays_bind.
  { apply stays_hoare. eapply hoare_conseq; [apply (recurse_variant w c e ta tb va vb t' (print t') sg rest Hw Hok' eq_refl eq_refl)|done|intros a b Hb; exact Hb| |done].
    - lia.
    - done.
    - intros b. apply wrecked_nothing. }
  intros [w1 s]; cbv beta. apply stays_pure_l. intros [= -> ->]. fold pad. set (w1 := if c =b _ then _ else _). set (s := at_values _ _).
  assert (stands s DBUS_TYPE_VARIANT true (ta ++ grow e [DBUS_TYPE_VARIANT]) tb (va ++ sg ++ pad) (print t' ++ [])) as Hs
    by (by apply (stands_variant w c e ta tb va t' rest)).
  eapply stays_bind.
  { eapply stays_conseq; [eapply (Hv' false t' y' s DBUS_TYPE_VARIANT true _ tb (va ++ sg ++ pad) vb [])|done| | | |done]; try done.
    - rewrite !length_app. lia.
    - rewrite length_app. simpl. lia.
    - intros b Hb. by rewrite <-!app_assoc in *.
    - intros b. by apply wrecked_inside. }
  intros s'; cbv beta. apply stays_pure_l. intros ->. cbn [grow app].
  intros b m Hb. rewrite unrecurse_variant.
  - split; [|done]. split; [|by rewrite <-!app_assoc in *]. rewrite after_leaf, (st_container _ _ _ _ _ _ _ Hw). fold w1.
    unfold after. cbn [w_value_pos at_values]. by rewrite <-!app_assoc.
  - unfold after. cbn. by destruct t'.
  - unfold after. pose proof (st_expectation _ _ _ _ _ _ _ Hs) as He. by destruct (_ =b _), (_ && _).
Qed.

Lemma basic_value_writes x : value_writes (VBasic x).
Proof.
  intros dict t bs w c e ta tb va vb rest Hok E Hwh Hw Hvm Htm. rewrite enc_eq in E. destruct t as [ch| | |]; try done.
  apply leaf_shape in Hok as [-> Hok]. destruct (basic_ok ch x) eqn:Eb; [|done]. injection E as <-.
  destruct (basic_value_ok ch x Eb) as [Hx _].
  { intros s ->. revert Hvm. unfold wire, wire_body, basic_ok in *. destruct (kind_of ch) as [[]|]; try done.
    rewrite !length_app. lia. }
  rewrite write_val_eq. apply stays_hoare. eapply hoare_conseq; [apply (basic_writes w c e ta tb va vb ch x rest Hx Hw Hvm Htm)|done| | |done].
  - intros w' b [-> Hb]. by rewrite after_leaf, (st_container _ _ _ _ _ _ _ Hw).
  - intros b. apply wrecked_nothing.
Qed.

Lemma signature_value_writes ts : value_writes (VSignature ts).
Proof.
  intros dict t bs w c e ta tb va vb rest Hok E Hwh Hw Hvm Htm. rewrite enc_eq in E. destruct t as [ch| | |]; try done.
  apply leaf_shape in Hok as [-> Hok]. destruct (ch =b "g") eqn:Ech; [|done]. apply byte_eqb_eq in Ech as ->.
  unfold enc_signature in E. destruct (sig_ok accepted_key ts && _) eqn:Es; [|done]. injection E as <-.
  apply andb_true_iff in Es as [Hts Hl].
  assert (value_ok "g" (Str (print_sig ts)) = true) as Hx.
  { unfold value_ok. simpl. rewrite Hl, andb_true_r. clear -Hts. unfold print_sig, sig_ok in *.
    induction ts as [|t ts IH]; [done|]. simpl in *. apply andb_true_iff in Hts as [Ht Hts].
    rewrite no_nul_app, (print_no_nul t _ _ _ _ Ht). auto. }
  rewrite write_val_eq. apply stays_hoare.
  assert (wire o (length va) "g" (Str (print_sig ts)) = z2b (Z.of_nat (length (print_sig ts))) :: print_sig ts ++ [x00]) as Ewire
    by (unfold wire; simpl; by rewrite padding_1).
  eapply hoare_conseq; [apply (basic_writes w c e ta tb va vb "g" (Str (print_sig ts)) rest Hx Hw)|done| | |done].
  - by rewrite Ewire.
  - done.
  - intros w' b [-> Hb]. rewrite Ewire in *. by rewrite after_leaf, (st_container _ _ _ _ _ _ _ Hw).
  - intros b. apply wrecked_nothing.
Qed.

(** *** Arrays *)

Lemma check_child_rule w c e ta tb va vb ct rest nt nv :
  stands w c e ta tb va ((DBUS_TYPE_ARRAY :: ct) ++ rest) →
  sure (text nt (ta ++ tb) nv (va ++ vb)) (check_child_array w (Some ct) 0 (length ct)) (λ _, text nt (ta ++ tb) nv (va ++ vb)).
Proof.
  intros Hw b m Hb. unfold check_child_array. rewrite (st_container _ _ _ _ _ _ _ Hw). destruct (c =b DBUS_TYPE_ARRAY) eqn:Ec.
  - apply byte_eqb_eq in Ec. pose proof (st_array _ _ _ _ _ _ _ Hw Ec) as He. rewrite He in Hw.
    destruct (expected_text _ _ _ _ _ _ _ _ _ _ Hw Hb) as (wh & pre & q & q' & E1 & _ & E2 & E3). rewrite E1.
    unfold mbind, M_bind, checked, gets. cbn [id]. rewrite E2, (E3 Ec). unfold _dbus_string_equal_substring.
    rewrite !length_app. cbn [length app].
    rewrite (proj2 (Nat.ltb_ge (length ct) 0)), (proj2 (Nat.ltb_ge (length ct - 0) _)), (proj2 (Nat.ltb_ge _ (length pre + 1))) by lia.
    cbn [orb]. rewrite (proj2 (Nat.ltb_ge _ (length ct))) by lia. unfold assert_, checked. rewrite bool_decide_true; [by split|].
    rewrite sub_all. unfold sub. replace (pre ++ DBUS_TYPE_ARRAY :: (ct ++ rest) ++ q') with ((pre ++ [DBUS_TYPE_ARRAY]) ++ ct ++ rest ++ q')
      by (by rewrite <-!app_assoc). rewrite drop_app_length' by (rewrite length_app; done). by rewrite take_app_length.
  - destruct (w_types w) as [[wh p]|]; by split.
Qed.

Lemma array_type_rule w c e ta tb va vb ct rest sub_ nv :
  stands w c e ta tb va ((DBUS_TYPE_ARRAY :: ct) ++ rest) → (e = false → w_element_type_pos sub_ = (length ta + 1)%nat) →
  (length ta + length tb + length (grow e (DBUS_TYPE_ARRAY :: ct)) <= tmax)%nat →
  hoare (text 0 (ta ++ tb) nv (va ++ vb)) (write_array_type w (Some ct) 0 (length ct) sub_)
    (λ _, text 0 (ta ++ grow e (DBUS_TYPE_ARRAY :: ct) ++ tb) nv (va ++ vb)) (text 0 (ta ++ tb) nv (va ++ vb)) L.
Proof.
  intros Hw Hp Ht. unfold write_array_type. rewrite (st_expectation _ _ _ _ _ _ _ Hw). destruct e; [by apply hoare_ret|].
  pose proof (st_types _ _ _ _ _ _ _ Hw) as Et. cbn in Et. rewrite Et. apply hoare_checked. rewrite (Hp eq_refl).
  cbn [grow length] in *.
  eapply hoare_bind; [apply (alloc_types (1 + length ct) 0 ta tb nv (va ++ vb)); lia|]. intros []; cbv beta.
  eapply hoare_bind.
  { apply sure_hoare, must_sure. eapply hoare_conseq; [apply on_types, (insert_byte_roomy (1 + length ct) ta tb DBUS_TYPE_ARRAY); lia|done|intros a b Hb; exact Hb|by intros b []|done]. }
  intros []; cbv beta. apply hoare_checked.
  replace (length ta + 1)%nat with (length (ta ++ [DBUS_TYPE_ARRAY])) by (rewrite length_app; done).
  apply sure_hoare, must_sure.
  eapply hoare_conseq; [apply (on_types (length ct) ((ta ++ [DBUS_TYPE_ARRAY]) ++ tb) nv (va ++ vb)), (copy_roomy _ ct (contained_string ct) 0 (length ct) (ta ++ [DBUS_TYPE_ARRAY]) tb)| | |by intros b []|done].
  - split; [done|]. unfold contents, contained_string. simpl. by rewrite take_ge.
  - simpl. lia.
  - lia.
  - intros b [Hbt Hbv]. split; [|done]. rewrite <-app_assoc. eapply roomy_less; [|exact Hbt]. lia.
  - intros a b [Hbt Hbv]. split; [|done]. rewrite sub_all, <-!app_assoc in Hbt. eapply roomy_less; [|exact Hbt]. lia.
Qed.

(** The length, still zero, and the padding. *)
Definition array_head (al : nat) (va : bytes) : bytes :=
  let x := padding (length va) 4 ++ octets o 4 0 in x ++ padding (length (va ++ x)) al.

Lemma array_padding_small n al : is_alignment al → (length (padding (align_up n 4 + 4) al) <= 4)%nat.
Proof.
  intros Hal. rewrite length_padding. destruct (align_up_spec n 4 ltac:(alignment)) as [_ H4].
  destruct (align_up_spec (align_up n 4 + 4) al Hal) as [Hr Hm]. set (p := align_up n 4) in *. set (q := align_up (p + 4) al) in *.
  unfold is_alignment in Hal. rewrite !elem_of_cons, elem_of_nil in Hal. clearbody p q. destruct Hal as [-> | [-> | [-> | [-> | []]]]]; try lia.
Qed.

Lemma array_head_len va : length (va ++ padding (length va) 4 ++ octets o 4 0) = (align_up (length va) 4 + 4)%nat.
Proof.
  rewrite !length_app, length_octets, length_padding. pose proof (align_up_spec (length va) 4 ltac:(alignment)). lia.
Qed.

Lemma array_start_rule sub_ nt tt_ va vb ct al :
  is_alignment al → element_type_get_alignment ct 0 = al → w_enabled sub_ = true → w_order sub_ = o → w_value_pos sub_ = length va →
  let n := length (va ++ array_head al va) in
  sure (text nt tt_ 11 (va ++ vb)) (write_array_start (Some ct) 0 false sub_)
    (λ s b, s = with_array n (Some (align_up (length va) 4)) (at_values n sub_) ∧ text nt tt_ 0 (va ++ array_head al va ++ vb) b).
Proof.
  intros Hal Ect Hen Ho Hp n. unfold write_array_start. rewrite Hp. set (x := padding (length va) 4 ++ octets o 4 0).
  assert (length x <= 7)%nat as Hx.
  { unfold x. rewrite length_app, length_octets, length_padding. pose proof (align_up_spec (length va) 4 ltac:(alignment)). lia. }
  pose proof (array_head_len va) as Hl. fold x in Hl. pose proof (array_padding_small (length va) al Hal) as Hpad. rewrite <-Hl in Hpad.
  eapply (hoare_bind _ _ _ (λ s b, s = at_values (length (va ++ x)) sub_ ∧ text nt tt_ 4 ((va ++ x) ++ vb) b)).
  { apply must_sure. unfold _dbus_type_writer_write_basic_no_typecode. rewrite Hen, Hp, Ho.
    eapply hoare_bind.
    - eapply hoare_conseq; [apply on_values; apply (marshal_4_roomy 11 va vb 0 o); fold x; lia|done|intros a b Hb; exact Hb|intros b [_ []]|done].
    - intros p. cbv beta. apply hoare_and_assoc. intros ->. apply hoare_ret. intros b [Hbt Hbv]. split; [done|]. split; [done|].
      eapply roomy_less; [|exact Hbv]. fold x. lia. }
  intros s; cbv beta. apply hoare_pure_l. intros ->. cbn [at_values w_value_pos].
  apply hoare_assert; [rewrite Hl; apply Nat.eqb_refl|]. apply hoare_checked. rewrite Ect.
  set (pad := padding (length (va ++ x)) al) in *.
  assert (align_up (length (va ++ x)) al = length (va ++ x ++ pad)) as Ea.
  { unfold pad. rewrite (app_assoc va), (length_app (va ++ x)), length_padding. pose proof (align_up_spec (length (va ++ x)) _ Hal). lia. }
  eapply (hoare_bind _ _ _ (λ _, text nt tt_ 0 (va ++ array_head al va ++ vb))).
  - unfold array_head. fold x pad. destruct (align_up (length (va ++ x)) al =? length (va ++ x))%nat eqn:Eq; cbn [negb andb].
    + apply Nat.eqb_eq in Eq. apply hoare_ret. intros b [Hbt Hbv]. split; [done|]. assert (pad = []) as ->.
      { unfold pad, padding. by rewrite Eq, Nat.sub_diag. }
      rewrite app_nil_r. eapply roomy_less; [|by rewrite app_assoc]. lia.
    + eapply hoare_conseq; [apply (values_step nt tt_ 4 ((va ++ x) ++ vb)), (insert_bytes_roomy 4 (align_up (length (va ++ x)) al - length (va ++ x)) (va ++ x) vb x00)|done| |done|done].
      * unfold pad in Hpad. by rewrite length_padding in Hpad.
      * intros a b [Hbt Hbv]. split; [done|]. eapply roomy_less; [|by rewrite <-!app_assoc in *]. lia.
  - intros []; cbv beta. apply hoare_ret. intros b Hb. split; [|done]. rewrite Ea. unfold n, array_head. by fold x pad.
Qed.

Definition array_writer (w : DBusTypeWriter) (n len_pos : nat) : DBusTypeWriter :=
  with_array n (Some len_pos) (at_values n
    match w_types w with
    | Some (_, p) => with_element_type_pos (p + 1) (advance_types 1 (sub_writer w DBUS_TYPE_ARRAY))
    | None => sub_writer w DBUS_TYPE_ARRAY
    end).

Lemma shape_alignment b t : shape_ok b t →
  is_alignment (typecode_alignment t) ∧ element_type_get_alignment (print_as b t) 0 = typecode_alignment t.
Proof.
  destruct b.
  - intros (k & v & -> & _). split; [unfold typecode_alignment; simpl; alignment|done].
  - intros Hok. split; [by apply ok_alignment|by apply first_type_ok].
Qed.

Lemma recurse_array w c e ta tb va vb t b' t' rest :
  stands w c e ta tb va (print t ++ rest) → ok_type t → element_shape t = Some (b', t') →
  (length va + length (array_head (typecode_alignment t') va) + length vb <= vmax)%nat →
  (length ta + length tb + length (grow e (print t)) <= tmax)%nat →
  let x := array_head (typecode_alignment t') va in
  let w' := if c =b DBUS_TYPE_ARRAY then w else advance_types (length (print t)) w in
  hoare (text 0 (ta ++ tb) 0 (va ++ vb)) (_dbus_type_writer_recurse w DBUS_TYPE_ARRAY (Some (print_as b' t')) 0)
    (λ ws b, ws = (w', array_writer w (length (va ++ x)) (align_up (length va) 4))
             ∧ text 0 (ta ++ grow e (print t) ++ tb) 0 (va ++ x ++ vb) b)
    (text 0 (ta ++ tb) 0 (va ++ vb)) L.
Proof.
  intros Hw Hok Hel Hv Ht x w'. pose proof (element_shape_ok _ _ _ Hok Hel) as Hok'.
  destruct (shape_alignment b' t' Hok') as [Hal Ect].
  rewrite (print_array _ _ _ Hel) in *. set (ct := print_as b' t') in *.
  unfold _dbus_type_writer_recurse, contained_len. pose proof (find_len_print b' t' Hok') as El. fold ct in El. rewrite El.
  apply hoare_checked. unfold _dbus_type_writer_recurse_contained_len.
  eapply hoare_bind; [apply sure_hoare, (init_check_rule _ _ _ _ _ _ _ _ _ DBUS_TYPE_ARRAY 0 0 Hw); done|].
  intros ?; cbv beta. apply hoare_pure_l; intros ->.
  change (DBUS_TYPE_ARRAY =b DBUS_TYPE_STRUCT) with false. change (DBUS_TYPE_ARRAY =b DBUS_TYPE_DICT_ENTRY) with false.
  change (DBUS_TYPE_ARRAY =b DBUS_TYPE_ARRAY) with true. cbv iota. unfold writer_recurse_array.
  eapply hoare_bind; [apply sure_hoare, (check_child_rule w c e ta tb va vb ct rest 0 0 Hw)|]. intros []; cbv beta.
  rewrite (st_enabled _ _ _ _ _ _ _ Hw). cbn [negb andb].
  eapply hoare_bind.
  { eapply hoare_conseq; [apply (alloc_values 11 0 (ta ++ tb) va vb 0)|done|intros a b Hb; exact Hb|done|done].
    unfold array_head in Hv. rewrite !length_app, length_octets in Hv. lia. }
  intros []; cbv beta. cbv zeta. set (s0 := match w_types w with Some _ => _ | None => _ end).
  assert (w_enabled s0 = true ∧ w_order s0 = o ∧ w_value_pos s0 = length va) as (He & Ho & Hp).
  { unfold s0. rewrite <-(st_value _ _ _ _ _ _ _ Hw). by destruct (w_types w) as [[? ?]|]. }
  eapply hoare_bind.
  { eapply hoare_conseq; [apply (array_type_rule w c e ta tb va vb ct rest s0 11 Hw)|done|intros a b Hb; exact Hb| |done].
    - intros ->. pose proof (st_types _ _ _ _ _ _ _ Hw) as Et. cbn in Et. unfold s0. by rewrite Et.
    - done.
    - intros b Hb. eapply text_less; [| |exact Hb]; lia. }
  intros []; cbv beta. apply hoare_assert.
  { destruct (w_types w); [|done]. rewrite (st_container _ _ _ _ _ _ _ Hw), (st_expectation _ _ _ _ _ _ _ Hw).
    destruct (c =b DBUS_TYPE_ARRAY) eqn:Ec; [|done]. apply byte_eqb_eq in Ec. by rewrite (st_array _ _ _ _ _ _ _ Hw Ec). }
  eapply hoare_bind.
  { apply sure_hoare, (array_start_rule s0 0 _ va vb ct (typecode_alignment t') Hal Ect He Ho Hp). }
  intros s; cbv beta. apply hoare_pure_l. intros ->. fold x. set (n := length (va ++ x)).
  cbn [with_array w_len_pos w_start_pos w_value_pos at_values].
  apply hoare_assert.
  { apply Nat.ltb_lt. unfold n, x, array_head. rewrite app_assoc, length_app, array_head_len. lia. }
  apply hoare_assert; [apply Nat.eqb_refl|]. apply hoare_ret. intros b Hb. split; [|exact Hb].
  apply (f_equal2 pair).
  - unfold w'. rewrite (st_container _ _ _ _ _ _ _ Hw). destruct (c =b DBUS_TYPE_ARRAY).
    + done.
    + by rewrite (print_array _ _ _ Hel).
  - done.
Qed.

Lemma stands_array w c e ta tb va t b' t' rest x :
  stands w c e ta tb va (print t ++ rest) → element_shape t = Some (b', t') →
  ∃ rest', stands (array_writer w (length (va ++ x)) (align_up (length va) 4)) DBUS_TYPE_ARRAY true
    (ta ++ grow e (print t)) tb (va ++ x) (print_as b' t' ++ rest').
Proof.
  intros Hw Hel. rewrite (print_array _ _ _ Hel) in *. pose proof Hw as [? ? ? ? ? ? ? Ht]. destruct e; cbn [grow].
  - destruct Ht as (wh & pre & post & E1 & E2 & E3). exists rest. split; try done; try (unfold array_writer; by rewrite E1).
    + unfold array_writer. rewrite E1. cbn. by destruct (w_expectation w).
    + exists wh, (pre ++ [DBUS_TYPE_ARRAY]), (match wh with TypeStr => post | ValueStr => post ++ x end).
      unfold array_writer. rewrite E1. cbn [with_array at_values with_element_type_pos advance_types at_types sub_writer w_types w_element_type_pos].
      rewrite E1, length_app. split; [done|]. split; [|done]. rewrite app_nil_r. destruct wh; rewrite E2; rewrite <-!app_assoc; cbn [app]; by rewrite <-?app_assoc.
  - exists []. split; try done; try (unfold array_writer; by rewrite Ht).
    + unfold array_writer. rewrite Ht. cbn. by destruct (w_expectation w).
    + exists TypeStr, (ta ++ [DBUS_TYPE_ARRAY]), tb. unfold array_writer. rewrite Ht.
      cbn [with_array at_values with_element_type_pos advance_types at_types sub_writer w_types w_element_type_pos].
      rewrite Ht, length_app. split; [done|]. split; [|done]. rewrite app_nil_r. by rewrite <-!app_assoc.
Qed.

(** The elements, one by one. *)
Lemma elements_write vs : Forall value_writes vs → ∀ b t x w ta tb va vb rest,
  shape_ok b t → enc_elements o t vs (length va) = Some x → forallb (λ v, whole v t) vs = true →
  stands w DBUS_TYPE_ARRAY true ta tb va (print_as b t ++ rest) →
  (length va + length x + length vb <= vmax)%nat → (length ta + length tb <= tmax)%nat →
  stays False (text 0 (ta ++ tb) 0 (va ++ vb)) (write_elements vs b t w)
    (λ w' b, w' = at_values (length (va ++ x)) w ∧ text 0 (ta ++ tb) 0 (va ++ x ++ vb) b)
    (wrecked true ta tb va vb) L.
Proof.
  induction 1 as [|v vs Hv _ IH]; intros b t x w ta tb va vb rest Hok E Hwh Hw Hvm Htm.
  - injection E as <-. apply stays_ret. intros bb Hb. split; [|done]. rewrite app_nil_r, <-(st_value _ _ _ _ _ _ _ Hw). by destruct w.
  - cbn [enc_elements] in E. destruct (enc o v t (length va)) as [y|] eqn:Ey; [|done]. cbn [mbind option_bind] in E.
    destruct (enc_elements o t vs _) as [z|] eqn:Ez; [|done]. injection E as <-. apply andb_true_iff in Hwh as [Hw1 Hw2].
    rewrite length_app in Hvm. rewrite <-length_app in Ez. cbn [write_elements]. eapply stays_bind.
    { eapply stays_conseq; [eapply (Hv b t y w _ true ta tb va vb rest Hok Ey Hw1 Hw)|done|done|intros a bb Hb; exact Hb|done|done]; simpl; lia. }
    intros w'; cbv beta. apply stays_pure_l. intros ->. cbn [grow app].
    assert (after b t (length (va ++ y)) w = at_values (length (va ++ y)) w) as ->.
    { unfold after. by rewrite (st_container _ _ _ _ _ _ _ Hw). }
    eapply stays_conseq; [eapply (IH b t z _ ta tb (va ++ y) vb rest Hok Ez Hw2)|done| | | |done].
    + by apply stands_values.
    + rewrite length_app. lia.
    + done.
    + intros bb Hb. by rewrite <-app_assoc.
    + intros w' bb [-> Hb]. rewrite <-!app_assoc in *. by split.
    + intros bb Hb. apply (wrecked_inside true true ta tb va vb [] y); [done|]. cbn [grow]. by rewrite app_nil_r.
Qed.

(** Leaving an array writes its length. *)
Lemma unrecurse_array w s nt tt_ va vb al x :
  w_container s = DBUS_TYPE_ARRAY → w_expectation s = true → w_order s = o →
  w_len_pos s = Some (align_up (length va) 4) → w_start_pos s = length (va ++ array_head al va) →
  w_value_pos s = length ((va ++ array_head al va) ++ x) → is_alignment al →
  let bs := array_text o (length va) al x in
  sure (text nt tt_ 0 ((va ++ array_head al va) ++ x ++ vb)) (_dbus_type_writer_unrecurse w s)
    (λ w' b, w' = at_values (length (va ++ bs)) w ∧ text nt tt_ 0 (va ++ bs ++ vb) b).
Proof.
  intros Hc He Ho Hlp Hst Hvp Hal bs. unfold _dbus_type_writer_unrecurse. apply hoare_assert; [by rewrite He, orb_true_r|].
  set (p4 := padding (length va) 4). set (pad := padding (align_up (length va) 4 + 4) al).
  assert (align_up (length va) 4 = length (va ++ p4)) as E4.
  { unfold p4. rewrite length_app, length_padding. pose proof (align_up_spec (length va) 4 ltac:(alignment)). lia. }
  assert (array_head al va = (p4 ++ octets o 4 0) ++ pad) as Eh.
  { unfold array_head. rewrite array_head_len. done. }
  eapply (hoare_bind _ _ _ (λ s' b, s' = s ∧ text nt tt_ 0 (va ++ bs ++ vb) b)).
  - unfold close_container. rewrite Hc, Hlp. change (DBUS_TYPE_ARRAY =b DBUS_TYPE_STRUCT) with false.
    change (DBUS_TYPE_ARRAY =b DBUS_TYPE_DICT_ENTRY) with false. change (DBUS_TYPE_ARRAY =b DBUS_TYPE_ARRAY) with true. cbv iota.
    unfold writer_get_array_len. rewrite Hc, Hvp, Hst. change (DBUS_TYPE_ARRAY =b DBUS_TYPE_ARRAY) with true. cbv iota.
    apply hoare_checked. rewrite (length_app _ x). replace (_ + length x - _)%nat with (length x) by lia.
    eapply (hoare_bind _ _ _ (λ _, text nt tt_ 0 (va ++ bs ++ vb))); [|intros []; by apply hoare_ret].
    eapply hoare_conseq; [apply (on_values nt tt_ 0 ((va ++ p4) ++ octets o 4 0 ++ pad ++ x ++ vb) _ (λ _, roomy 0 ((va ++ p4) ++ octets o 4 (Z.of_nat (length x)) ++ pad ++ x ++ vb)) (λ _, False))| | |intros b [_ []]|done].
    + unfold _dbus_marshal_set_uint32, set_4_octets. rewrite Ho, pack_4_ok.
      apply asserting_roomy; [apply Nat.leb_le; rewrite E4, !length_app, length_octets; lia|].
      apply hoare_assert; [by apply aligned_up; alignment|]. rewrite E4.
      apply store_roomy; [by intros ??; apply mem_write_length|]. apply store_mid. by rewrite !length_octets.
    + intros b [Hbt Hbv]. split; [done|]. rewrite Eh in Hbv. by rewrite <-!app_assoc in *.
    + intros a b [Hbt Hbv]. split; [done|]. unfold bs, array_text. fold p4 pad. by rewrite <-!app_assoc in *.
  - intros s'; cbv beta. apply hoare_pure_l. intros ->. apply hoare_ret. intros b Hb. split; [|done].
    rewrite Hc, Hvp. change (is_brackets DBUS_TYPE_ARRAY) with false. cbn [andb]. f_equal.
    rewrite Eh. unfold bs, array_text. fold p4 pad. rewrite !length_app, !length_octets. lia.
Qed.

(** An array whose elements [prog] writes. *)
Lemma array_with prog w c e ta tb va vb t b' t' rest x :
  stands w c e ta tb va (print t ++ rest) → ok_type t → element_shape t = Some (b', t') →
  let al := typecode_alignment t' in
  let h := array_head al va in
  let bs := array_text o (length va) al x in
  (length va + length bs + length vb <= vmax)%nat → (length ta + length tb + length (grow e (print t)) <= tmax)%nat →
  (∀ s ta' rest', stands s DBUS_TYPE_ARRAY true ta' tb (va ++ h) (print_as b' t' ++ rest') → (length ta' + length tb <= tmax)%nat →
     stays False (text 0 (ta' ++ tb) 0 ((va ++ h) ++ vb)) (prog s)
       (λ s' b, s' = at_values (length ((va ++ h) ++ x)) s ∧ text 0 (ta' ++ tb) 0 ((va ++ h) ++ x ++ vb) b)
       (wrecked true ta' tb (va ++ h) vb) L) →
  stays (e = false) (text 0 (ta ++ tb) 0 (va ++ vb))
    ('(w, s) ← _dbus_type_writer_recurse w DBUS_TYPE_ARRAY (Some (print_as b' t')) 0;
     s ← prog s;
     _dbus_type_writer_unrecurse w s)
    (λ w' b, w' = after false t (length (va ++ bs)) w ∧ text 0 (ta ++ grow e (print t) ++ tb) 0 (va ++ bs ++ vb) b)
    (wrecked e ta tb va vb) L.
Proof.
  intros Hw Hok Hel al h bs Hv Ht Hprog. destruct (shape_alignment _ _ (element_shape_ok _ _ _ Hok Hel)) as [Hal _]. fold al in Hal.
  assert (length bs = (length h + length x)%nat) as Hbs.
  { unfold bs, h, array_text, array_head. rewrite array_head_len, !length_app, !length_octets. lia. }
  eapply stays_bind.
  { apply stays_hoare. eapply hoare_conseq; [apply (recurse_array w c e ta tb va vb t b' t' rest Hw Hok Hel)|done|intros a b Hb; exact Hb|intros b; apply wrecked_nothing|done].
    - fold al h. lia.
    - done. }
  intros [w1 s]; cbv beta. apply stays_pure_l. intros [= -> ->]. fold al h. set (w1 := if c =b _ then _ else _).
  destruct (stands_array w c e ta tb va t b' t' rest h Hw Hel) as [rest' Hs]. set (s := array_writer _ _ _) in *.
  eapply stays_bind.
  { eapply stays_conseq; [apply (Hprog s (ta ++ grow e (print t)) rest' Hs)|done| |intros a b Hb; exact Hb| |done].
    - rewrite length_app. lia.
    - intros b Hb. by rewrite <-!app_assoc in *.
    - intros b. by apply wrecked_inside. }
  intros s'; cbv beta. apply stays_pure_l. intros ->. apply stays_hoare, sure_hoare.
  eapply hoare_conseq; [apply (unrecurse_array w1 (at_values (length ((va ++ h) ++ x)) s) 0 ((ta ++ grow e (print t)) ++ tb) va vb al x)| | |done|done]; try done.
  - apply (st_container _ _ _ _ _ _ _ Hs).
  - apply (st_expectation _ _ _ _ _ _ _ Hs).
  - apply (st_order _ _ _ _ _ _ _ Hs).
  - intros w' b [-> Hb]. fold bs in Hb. split; [|by rewrite <-!app_assoc in *]. unfold after.
    rewrite (st_container _ _ _ _ _ _ _ Hw). cbn [print_as]. destruct t; try done; rewrite andb_false_r; done.
Qed.

Lemma array_writes vs : Forall value_writes vs → value_writes (VArray vs).
Proof.
  intros Hvs dict t bs w c e ta tb va vb rest Hok E Hwh Hw Hvm Htm.
  assert (∃ b' t' x, element_shape t = Some (b', t') ∧ dict = false ∧ ok_type t
    ∧ forallb (λ v, whole v t') vs = true
    ∧ write_val (VArray vs) dict t w = ('(w, s) ← _dbus_type_writer_recurse w DBUS_TYPE_ARRAY (Some (print_as b' t')) 0;
                                        s ← write_elements vs b' t' s; _dbus_type_writer_unrecurse w s)
    ∧ enc_array o (length va) (typecode_alignment t') (enc_elements o t' vs) = Some bs
    ∧ enc_elements o t' vs (align_up (align_up (length va) 4 + 4) (typecode_alignment t')) = Some x)
    as (b' & t' & x & Hel & -> & Hok' & Hwh' & -> & Earr & Ex).
  { rewrite enc_eq in E.
    assert (∀ al els, enc_array o (length va) al els = Some bs → ∃ x, els (align_up (align_up (length va) 4 + 4) al) = Some x) as Hels.
    { intros al els. unfold enc_array. destruct (els _) as [x|]; [by exists x|done]. }
    destruct t as [|t1| |k1 v1]; try done.
    - destruct (raw_element t1); [done|]. destruct (Hels _ _ E) as [x Ex]. exists false, t1, x. destruct dict; [by destruct Hok as (? & ? & ? & _)|].
      by rewrite write_val_eq.
    - destruct (Hels _ _ E) as [x Ex]. exists true, (TStruct [k1; v1]), x. destruct dict; [by destruct Hok as (? & ? & ? & _)|].
      by rewrite write_val_eq. }
  assert (bs = array_text o (length va) (typecode_alignment t') x) as ->.
  { revert Earr. unfold enc_array. rewrite Ex. cbn [mbind option_bind]. case_if; [done|]. by intros [= <-]. }
  destruct (shape_alignment _ _ (element_shape_ok _ _ _ Hok' Hel)) as [Hal _].
  assert (align_up (align_up (length va) 4 + 4) (typecode_alignment t') = length (va ++ array_head (typecode_alignment t') va)) as Ea.
  { unfold array_head. rewrite app_assoc, (length_app (va ++ _)), array_head_len, length_padding.
    pose proof (align_up_spec (align_up (length va) 4 + 4) _ Hal). lia. }
  rewrite Ea in Ex. apply (array_with _ w c e ta tb va vb t b' t' rest x Hw Hok' Hel Hvm Htm).
  intros s ta' rest' Hs Hta'. eapply stays_conseq; [eapply (elements_write vs Hvs b' t' x s ta' tb _ vb rest')|done|done| |done|done]; try done.
  - by eapply element_shape_ok.
  - revert Hvm. unfold array_text, array_head. rewrite array_head_len, !length_app, !length_octets. lia.
Qed.

(** *** Arrays of numbers *)

Lemma numbers_octets n k : ∀ x : bytes, length x = (k * n)%nat →
  flat_map (octets o n) (numbers o n k x) = x ∧ length (numbers o n k x) = k
  ∧ Forall (λ z, 0 <= z < 2 ^ (8 * Z.of_nat n)) (numbers o n k x).
Proof.
  induction k as [|k IH]; intros x Hx; [by destruct x|]. cbn [numbers flat_map length].
  assert (length (take n x) = n) as Hn by (rewrite length_take; lia).
  destruct (IH (drop n x)) as (E1 & E2 & E3); [rewrite length_drop; lia|]. rewrite E1, E2.
  pose proof (of_octets_range o (take n x)) as Hr. rewrite Hn in Hr. split; [|split; [done|by constructor]].
  rewrite <-Hn at 1. by rewrite octets_of_octets, take_drop.
Qed.

Lemma host_array_1 (x : bytes) : host_array o 1 x = x.
Proof.
  unfold host_array. rewrite Nat.div_1_r. induction x as [|d x IH]; [done|]. cbn [length numbers flat_map take drop].
  rewrite take_0, drop_0, IH. unfold native. pose proof (octets_of_octets o [d]) as E. cbn [length] in E.
  assert (∀ o' z, octets o' 1 z = octets o 1 z) as -> by (by intros [] z; destruct o). by rewrite E.
Qed.

(** The block of elements goes behind [va]. *)
Lemma fixed_multi_inserts c (x va vb : bytes) :
  raw_element (TLeaf c) = true → let n := typecode_alignment (TLeaf c) in
  (length va mod n = 0)%nat → (length x mod n = 0)%nat → Z.of_nat (length x) <= DBUS_MAXIMUM_ARRAY_LENGTH →
  op_spec (va ++ vb) (_dbus_marshal_write_fixed_multi (length va) c (host_array o n x) (length x / n) o)
    (length va + length x)%nat (insert_at_ (va ++ vb) (length va) x).
Proof.
  intros Hraw n Hva Hx Hmax.
  assert (n = 1%nat ∧ kind_of c = Some KByte ∨ n = 2%nat ∧ kind_of c = Some K16
    ∨ n = 4%nat ∧ kind_of c = Some K32 ∨ n = 8%nat ∧ kind_of c = Some K64) as Hk.
  { clear Hva Hx. subst n. unfold typecode_alignment. simpl in *. destruct c; try done; simpl; tauto. }
  unfold _dbus_marshal_write_fixed_multi. destruct Hk as [[En ->]|Hk].
  - rewrite En, host_array_1, Nat.div_1_r. apply fixed_1_ok. rewrite length_app. lia.
  - assert (n ∈ [2; 4; 8]%nat) as Hn by (rewrite !elem_of_cons; destruct Hk as [[-> _]|[[-> _]|[-> _]]]; auto).
    assert (length x = (length x / n * n)%nat) as Hl.
    { pose proof (Nat.div_mod (length x) n) as D. assert (n ≠ 0%nat) by (rewrite !elem_of_cons, elem_of_nil in Hn; lia). lia. }
    destruct (numbers_octets n (length x / n) x Hl) as (E1 & E2 & E3).
    assert (Z.of_nat (length x / n) <= DBUS_MAXIMUM_ARRAY_LENGTH / Z.of_nat n) as Hcount.
    { rewrite Nat2Z.inj_div. apply Z.div_le_mono; [|done]. rewrite !elem_of_cons, elem_of_nil in Hn. lia. }
    rewrite <- E2 in Hcount.
    pose proof (fixed_multi_ok (va ++ vb) (length va) _ n o Hn E3 Hcount ltac:(rewrite length_app; lia)) as Hf. cbv zeta in Hf.
    rewrite E1, E2 in Hf. assert (padding (length va) n = []) as Hp.
    { unfold padding. rewrite align_up_aligned, Nat.sub_diag; [done|by apply elem_of_cons; right|done]. }
    rewrite Hp in Hf. cbn [app] in Hf. fold (host_array o n x) in Hf.
    destruct Hk as [[En ->]|[[En ->]|[En ->]]]; rewrite En in *; exact Hf.
Qed.

Lemma raw_writes x : value_writes (VRaw x).
Proof.
  intros dict t bs w c e ta tb va vb rest Hok E Hwh Hw Hvm Htm. rewrite enc_eq in E. destruct t as [|t1| |]; try done.
  destruct dict; [by destruct Hok as (? & ? & ? & _)|]. destruct (raw_element t1) eqn:Eraw; [|done].
  assert (bs = array_text o (length va) (typecode_alignment t1) x ∧ Z.of_nat (length x) <= DBUS_MAXIMUM_ARRAY_LENGTH)
    as [-> Hmax].
  { revert E. unfold enc_array. cbn [mbind option_bind]. destruct (_ <? _) eqn:Hx; [done|]. intros [= <-]. split; [done|lia]. }
  destruct t1 as [ct| | |]; try done. apply Nat.eqb_eq in Hwh. set (al := typecode_alignment (TLeaf ct)) in *.
  assert (is_alignment al) as Hal by (apply ok_alignment; by eapply (element_shape_ok (TArray (TLeaf ct)) false)).
  rewrite write_val_eq. cbn [print_as] in Hw.
  apply (array_with (λ s, _dbus_type_writer_write_fixed_multi s ct (host_array (w_order s) al x) (length x / al))
    w c e ta tb va vb (TArray (TLeaf ct)) false (TLeaf ct) rest x Hw Hok eq_refl Hvm Htm).
  intros s ta' rest' Hs Hta'. fold al in Hs |- *. set (h := array_head al va) in *. apply stays_hoare.
  rewrite (st_order _ _ _ _ _ _ _ Hs). unfold _dbus_type_writer_write_fixed_multi.
  apply hoare_assert; [by rewrite (st_container _ _ _ _ _ _ _ Hs)|].
  apply hoare_assert; [by apply andb_true_iff in Eraw as [? _]|].
  apply hoare_assert; [apply (st_expectation _ _ _ _ _ _ _ Hs)|].
  eapply hoare_bind; [apply sure_hoare, must_sure, (verify_rule _ _ _ _ _ vb _ _ 0 0 Hs)|].
  intros s'; cbv beta. apply hoare_pure_l. change (DBUS_TYPE_ARRAY =b DBUS_TYPE_ARRAY) with true. intros ->.
  rewrite (st_enabled _ _ _ _ _ _ _ Hs), (st_value _ _ _ _ _ _ _ Hs), (st_order _ _ _ _ _ _ _ Hs).
  assert (length (va ++ h) = align_up (align_up (length va) 4 + 4) al) as Ea.
  { unfold h, array_head. rewrite app_assoc, (length_app (va ++ _)), array_head_len, length_padding.
    pose proof (align_up_spec (align_up (length va) 4 + 4) _ Hal). lia. }
  assert (length (va ++ h) mod al = 0)%nat as Hmod by (rewrite Ea; by apply align_up_spec).
  eapply hoare_bind.
  - eapply hoare_conseq; [apply (insert_values 0 (ta' ++ tb) (va ++ h) vb _ _ x (fixed_multi_inserts ct x (va ++ h) vb Eraw Hmod Hwh Hmax))|done|intros a b Hb; exact Hb|intros b; apply wrecked_nothing|done].
    revert Hvm. unfold h, array_text, array_head. rewrite array_head_len, !length_app, !length_octets. lia.
  - intros p; cbv beta. apply hoare_pure_l. intros ->. apply hoare_ret. intros b Hb. split; [|done]. by rewrite (length_app _ x).
Qed.

Lemma all_values_write v : value_writes v.
Proof.
  induction v as [b|ts|t' v IH|vs IH|bs|vs IH] using val_ind'.
  - apply basic_value_writes.
  - apply signature_value_writes.
  - by apply variant_writes.
  - by apply array_writes.
  - apply raw_writes.
  - by apply struct_writes.
Qed.

Lemma all_fields_write vs ts bs w c e ta tb va vb rest :
  sig_ok accepted_key ts = true → enc_fields o vs ts (length va) = Some bs → whole_fields vs ts = true →
  stands w c e ta tb va (print_sig ts ++ rest) → (c =b DBUS_TYPE_ARRAY) = false → (c =b DBUS_TYPE_VARIANT) = false →
  (length va + length bs + length vb <= vmax)%nat → (length ta + length tb + length (grow e (print_sig ts)) <= tmax)%nat →
  stays (e = false) (text 0 (ta ++ tb) 0 (va ++ vb)) (write_fields vs ts w)
    (λ w' b, w' = at_values (length (va ++ bs)) (advance_types (length (print_sig ts)) w)
             ∧ stands w' c e (ta ++ grow e (print_sig ts)) tb (va ++ bs) rest
             ∧ text 0 (ta ++ grow e (print_sig ts) ++ tb) 0 (va ++ bs ++ vb) b)
    (wrecked e ta tb va vb) L.
Proof.
  intros Hok. apply fields_write; [apply list.Forall_forall; intros; apply all_values_write|].
  apply list.Forall_forall. intros t Ht. exists 0%nat, 0%nat, 0%nat. eapply forallb_forall in Hok; [exact Hok|]. by apply list_elem_of_In.
Qed.

End writing.

(** ** Theorems *)

Section theorems.
Context `{Host}.

Lemma str_nul t r : is_str t r → ∃ q, str r = t ++ q ∧ byte_at q 0 = x00.
Proof.
  intros Hr. pose proof (is_str_length _ _ Hr) as Hl. destruct (is_str_split _ _ Hr) as [q Eq]. exists q. split; [done|].
  destruct Hr as [(_ & _ & _ & Hn) _]. rewrite Eq, lookup_app_r, Hl, Nat.sub_diag in Hn by lia. destruct q as [|d q]; [done|]. by injection Hn as ->.
Qed.

(** C13: Values are written one by one - basic values, arrays of numbers as blocks, other
    containers by entering and leaving them - into a block and a signature.  With memory,
    arrays of numbers that have whole elements, and strings that stay 8 bytes below the
    maximum length, this returns; the encoding of the values stands where the writer stood, the bytes around
    it are as before, their types are at the end of the signature, and a walk over the block
    with a reader finds the values. *)
Theorem written_values_are_read (o : byte_order) (ts : list ty) (vs : list val) (ta va vb bs : bytes)
    (rt rv : DBusRealString) (m : mem) :
  sig_ok accepted_key ts = true → enc_fields o vs ts (length va) = Some bs → whole_fields vs ts = true →
  is_str ta rt → is_str (va ++ vb) rv → ¬ may_fail m →
  Z.of_nat (length (va ++ bs ++ vb)) + 8 <= _DBUS_STRING_MAX_MAX_LENGTH →
  Z.of_nat (length (ta ++ print_sig ts)) <= _DBUS_STRING_MAX_MAX_LENGTH →
  ∃ w b m', write_fields vs ts (_dbus_type_writer_init o (Some (TypeStr, length ta)) (length va)) (Buffers rt rv) m = Ok w b m'
    ∧ is_str (ta ++ print_sig ts) (types b) ∧ is_str (va ++ bs ++ vb) (values b)
    ∧ reads (_dbus_type_reader_init o (str (types b)) (length ta) (values b) (length va)) vs.
Proof.
  intros Hok E Hwh Ht Hv Hm HLv HLt. rewrite !length_app in *.
  assert (stands o (_dbus_type_writer_init o (Some (TypeStr, length ta)) (length va)) DBUS_TYPE_INVALID false ta [] va (print_sig ts ++ [])) as Hw by done.
  pose proof (all_fields_write o False (length va + length bs + length vb) (length ta + length (print_sig ts))
    ltac:(intros; lia) ltac:(intros; lia) ltac:(unfold _DBUS_STRING_MAX_MAX_LENGTH, _DBUS_STRING_ALLOCATION_PADDING in *; lia)
    vs ts bs _ _ _ _ _ _ vb _ Hok E Hwh Hw eq_refl eq_refl ltac:(lia) ltac:(simpl; lia)) as Hf.
  specialize (Hf (Buffers rt rv) m). rewrite app_nil_r in Hf. specialize (Hf ltac:(by split; apply roomy_0)).
  destruct (write_fields _ _ _ _ _) as [w b m'|b m'|]; [|tauto..]. destruct Hf as [(_ & _ & [Hbt _] & [Hbv _]) _].
  cbn [grow] in Hbt. rewrite app_nil_r in Hbt. exists w, b, m'. split; [done|]. split; [done|]. split; [done|].
  destruct (str_nul _ _ Hbt) as (q & -> & Hq). rewrite <-app_assoc. by apply (values_read o ta q ts vs va bs vb).
Qed.

(** C14: Where the signature is given - only the values of a message are written, or a value
    is exchanged - writing the values of this signature (arrays of numbers with whole
    elements, a block below 2^31 bytes) fails no assertion and leaves the
    strings and the signature alone whatever memory is refused: it returns with the encoding
    of the values in the block, or it reports want of memory or of room in the string, and then something was
    inserted at the place of the writer and nothing else has changed. *)
Theorem values_of_signature_written (o : byte_order) (ts : list ty) (vs : list val) (pre post va vb bs : bytes)
    (rt rv : DBusRealString) (m : mem) :
  sig_ok accepted_key ts = true → enc_fields o vs ts (length va) = Some bs → whole_fields vs ts = true →
  is_str (pre ++ print_sig ts ++ post) rt → is_str (va ++ vb) rv →
  Z.of_nat (length (va ++ bs ++ vb)) < 2 ^ 31 →
  match write_fields vs ts (_dbus_type_writer_init_values_only o (length pre) (length va)) (Buffers rt rv) m with
  | Ok w b _ => is_str (pre ++ print_sig ts ++ post) (types b) ∧ is_str (va ++ bs ++ vb) (values b)
                ∧ w_value_pos w = length (va ++ bs) ∧ w_types w = Some (TypeStr, length (pre ++ print_sig ts))
  | Failed b _ => is_str (pre ++ print_sig ts ++ post) (types b) ∧ (∃ x, is_str (va ++ x ++ vb) (values b))
                  ∧ (may_fail m ∨ _DBUS_STRING_MAX_MAX_LENGTH < Z.of_nat (length (va ++ bs ++ vb)) + 8)
  | Ub => False
  end.
Proof.
  intros Hok E Hwh Ht Hv Hs. rewrite !length_app in *. set (sig := pre ++ print_sig ts ++ post) in *.
  assert (stands o (_dbus_type_writer_init_values_only o (length pre) (length va)) DBUS_TYPE_INVALID true sig [] va (print_sig ts ++ [])) as Hw.
  { split; try done. exists TypeStr, pre, post. by rewrite !app_nil_r. }
  pose proof Ht as [(_ & HT1 & HT2 & _) _]. pose proof (is_str_length _ _ Ht) as Hl. unfold zlen in HT1.
  pose proof (all_fields_write o (_DBUS_STRING_MAX_MAX_LENGTH < Z.of_nat (length va + (length bs + length vb)) + 8)
    (length va + length bs + length vb) (length sig)
    ltac:(intros; lia) ltac:(intros; lia) ltac:(lia)
    vs ts bs _ _ _ _ _ _ vb _ Hok E Hwh Hw eq_refl eq_refl ltac:(lia) ltac:(simpl; lia)) as Hf.
  specialize (Hf (Buffers rt rv) m). rewrite app_nil_r in Hf. specialize (Hf ltac:(by split; apply roomy_0)).
  destruct (write_fields _ _ _ _ _) as [w b m'|b m'|]; [|..].
  - destruct Hf as [(-> & _ & [Hbt _] & [Hbv _]) _]. cbn [grow] in Hbt. rewrite app_nil_r in Hbt.
    split; [done|]. split; [done|]. cbn. by rewrite !length_app.
  - destruct Hf as [(xt & xv & [Hbt _] & [Hbv _]) HL]. cbn [grow] in Hbt. rewrite app_nil_r in Hbt.
    split; [done|]. split; [by exists xv|done].
  - by destruct Hf.
Qed.

End theorems.

(** Entering a struct makes room in the block of values but not in the signature, and
    the code then asserts that its bracket can be inserted: with two new strings, when the
    second request for memory is refused, the program is stopped. *)
Theorem struct_oom_fails_assertion :
  let host : Host := DBUS_LITTLE_ENDIAN in
  let w := _dbus_type_writer_init DBUS_LITTLE_ENDIAN (Some (TypeStr, 0%nat)) 0 in
  match _dbus_string_init plenty with
  | Ok _ r _ => _dbus_type_writer_recurse w DBUS_TYPE_STRUCT None 0 (Buffers r r) (fails_after 1) = Ub
                ∧ match _dbus_type_writer_recurse w DBUS_TYPE_STRUCT None 0 (Buffers r r) plenty with
                  | Ok _ b _ => contents (types b) = lit "("
                  | _ => False
                  end
  | _ => False
  end.
Proof. vm_compute. by split. Qed.

(** A dict of variants, a byte and a struct, behind a byte, on a host of the other order. *)
Definition sample_types : list ty := [TDict (TLeaf "s") (TLeaf "v"); TLeaf "y"; TStruct [TLeaf "u"; TArray (TLeaf "n")]].

Definition sample_values : list val :=
  [VArray [VStruct [VBasic (Str (lit "hi")); VVariant (TStruct [TLeaf "u"]) (VStruct [VBasic (U32 7)])]];
   VBasic (Byt x01); VStruct [VBasic (U32 1); VRaw (block [1; 2; 3; 4])]].

Lemma written_values_are_read_witness :
  let host : Host := DBUS_LITTLE_ENDIAN in
  ∃ w b m', write_fields sample_values sample_types (_dbus_type_writer_init DBUS_BIG_ENDIAN (Some (TypeStr, 1%nat)) 1)
              (Buffers (concrete (lit "y")) (concrete [x09])) plenty = Ok w b m'
    ∧ contents (types b) = lit "ya{sv}y(uan)"
    ∧ reads (_dbus_type_reader_init DBUS_BIG_ENDIAN (str (types b)) 1 (values b) 1) sample_values.
Proof.
  intros host. destruct (enc_fields DBUS_BIG_ENDIAN sample_values sample_types 1) as [bs|] eqn:E; [|by vm_compute in E].
  assert (length bs = 43%nat) as Hl by (vm_compute in E; injection E as <-; reflexivity).
  destruct (written_values_are_read DBUS_BIG_ENDIAN sample_types sample_values (lit "y") [x09] [] bs
    (concrete (lit "y")) (concrete [x09]) plenty) as (w & b & m' & Erun & Ht & _ & Hreads).
  - reflexivity.
  - exact E.
  - reflexivity.
  - apply concrete_str. vm_compute. discriminate.
  - apply concrete_str. vm_compute. discriminate.
  - vm_compute. by intros ?%elem_of_nil.
  - rewrite !length_app, Hl. vm_compute. discriminate.
  - vm_compute. discriminate.
  - exists w, b, m'. split; [exact Erun|]. split; [by destruct Ht as [_ ->]|exact Hreads].
Defined.

Lemma values_of_signature_written_witness :
  let host : Host := DBUS_LITTLE_ENDIAN in
  match write_fields [VBasic (U32 5)] [TLeaf "u"] (_dbus_type_writer_init_values_only DBUS_LITTLE_ENDIAN 1 1)
          (Buffers (concrete (lit "yuy")) (concrete [x09])) (fails_after 0) with
  | Ok w b _ => False
  | Failed b _ => contents (types b) = lit "yuy" ∧ ∃ x, contents (values b) = [x09] ++ x
  | Ub => False
  end.
Proof.
  intros host.
  pose proof (values_of_signature_written DBUS_LITTLE_ENDIAN [TLeaf "u"] [VBasic (U32 5)] (lit "y") (lit "y") [x09] [] (block [0;0;0;5;0;0;0])
    (concrete (lit "yuy")) (concrete [x09]) (fails_after 0)) as Hw.
  assert (write_fields [VBasic (U32 5)] [TLeaf "u"] (_dbus_type_writer_init_values_only DBUS_LITTLE_ENDIAN 1 1)
          (Buffers (concrete (lit "yuy")) (concrete [x09])) (fails_after 0)
        = Failed (Buffers (concrete (lit "yuy")) (concrete [x09])) (Mem [] x00)) as E by (vm_compute; reflexivity).
  rewrite E. change (length (lit "y")) with 1%nat in Hw. change (length [x09]) with 1%nat in Hw. rewrite E in Hw.
  destruct Hw as (Ht & [x Hv] & _).
  - reflexivity.
  - reflexivity.
  - reflexivity.
  - apply concrete_str. vm_compute. discriminate.
  - apply concrete_str. vm_compute. discriminate.
  - vm_compute. reflexivity.
  - destruct Ht as [_ ->]. split; [done|]. exists x. destruct Hv as [_ ->]. by rewrite app_nil_r.
Defined.
