(* ===== verification/HashTable.v ===== *)
(** * HashTable: chained hash tables

    Models src/dbus/dbus-hash.c at the level of pointers: entries are cells of a heap,
    linked into chains, and the array of buckets holds the first entries; it starts inside
    the table and is exchanged for another one when the table grows or shrinks.

    A [void*] is its address, NULL is 0; [chars] is the C string at an address.  The memory
    of a key belongs to the caller, who must not change it while it is in a table; so the
    text at an address is the same for all operations on the table.  The build without tests is modelled: there are no keys of
    two strings.  The memory pool is a [request] that gives an entry of zeros. *)

From stdpp Require Import gmap.
From S2P Require Import Prelude.

Abbreviation ptr := positive.

Inductive DBusHashType := DBUS_HASH_STRING | DBUS_HASH_TWO_STRINGS | DBUS_HASH_INT | DBUS_HASH_POINTER | DBUS_HASH_ULONG.

#[export] Instance hash_type_eq_dec : EqDecision DBusHashType.
Proof. solve_decision. Defined.

Record DBusHashEntry := Entry { next : option ptr; key : Z; value : Z }.

(** Calls of the functions that free keys and values. *)
Inductive call := FreeKey (key : Z) | FreeValue (value : Z).

(** [arrays] holds the arrays of buckets, [static_buckets] of the table among them;
    [calls] are the calls of the functions, the last one first. *)
Record DBusHashTable := Table {
  entries : gmap ptr DBusHashEntry;
  arrays : gmap nat (list (option ptr));
  refcount : Z;
  buckets : nat;
  n_buckets : Z;
  n_entries : Z;
  hi_rebuild_size : Z;
  lo_rebuild_size : Z;
  down_shift : Z;
  mask : Z;
  key_type : DBusHashType;
  free_key_function : bool;
  free_value_function : bool;
  calls : list call
}.

Definition static_buckets : nat := 0.
Definition DBUS_SMALL_HASH_TABLE : nat := 4.
Definition REBUILD_MULTIPLIER : nat := 3.
Definition _DBUS_INT_MAX : Z := 2147483647.

Abbreviation TM := (M DBusHashTable).

Definition with_entries (f : gmap ptr DBusHashEntry → gmap ptr DBusHashEntry) (t : DBusHashTable) : DBusHashTable :=
  Table (f (entries t)) (arrays t) (refcount t) (buckets t) (n_buckets t) (n_entries t) (hi_rebuild_size t)
    (lo_rebuild_size t) (down_shift t) (mask t) (key_type t) (free_key_function t) (free_value_function t) (calls t).

Definition with_arrays (f : gmap nat (list (option ptr)) → gmap nat (list (option ptr))) (t : DBusHashTable) : DBusHashTable :=
  Table (entries t) (f (arrays t)) (refcount t) (buckets t) (n_buckets t) (n_entries t) (hi_rebuild_size t)
    (lo_rebuild_size t) (down_shift t) (mask t) (key_type t) (free_key_function t) (free_value_function t) (calls t).

Definition with_refcount (n : Z) (t : DBusHashTable) : DBusHashTable :=
  Table (entries t) (arrays t) n (buckets t) (n_buckets t) (n_entries t) (hi_rebuild_size t)
    (lo_rebuild_size t) (down_shift t) (mask t) (key_type t) (free_key_function t) (free_value_function t) (calls t).

Definition with_n_entries (n : Z) (t : DBusHashTable) : DBusHashTable :=
  Table (entries t) (arrays t) (refcount t) (buckets t) (n_buckets t) n (hi_rebuild_size t)
    (lo_rebuild_size t) (down_shift t) (mask t) (key_type t) (free_key_function t) (free_value_function t) (calls t).

Definition with_call (c : call) (t : DBusHashTable) : DBusHashTable :=
  Table (entries t) (arrays t) (refcount t) (buckets t) (n_buckets t) (n_entries t) (hi_rebuild_size t)
    (lo_rebuild_size t) (down_shift t) (mask t) (key_type t) (free_key_function t) (free_value_function t) (c :: calls t).

(** The array and the numbers that go with it. *)
Definition with_sizes (a : nat) (n hi lo shift msk : Z) (t : DBusHashTable) : DBusHashTable :=
  Table (entries t) (arrays t) (refcount t) a n (n_entries t) hi lo shift msk
    (key_type t) (free_key_function t) (free_value_function t) (calls t).

Definition with_next (p : option ptr) (e : DBusHashEntry) : DBusHashEntry := Entry p (key e) (value e).
Definition with_key (k : Z) (e : DBusHashEntry) : DBusHashEntry := Entry (next e) k (value e).
Definition with_value (v : Z) (e : DBusHashEntry) : DBusHashEntry := Entry (next e) (key e) v.

(** ** Memory *)

(** [*p] for an entry; NULL and freed entries are [Ub]. *)
Definition deref (p : option ptr) : TM DBusHashEntry :=
  t ← gets id;
  checked (p ← p; entries t !! p).

Definition store_entry (p : option ptr) (f : DBusHashEntry → DBusHashEntry) : TM unit :=
  deref p;;
  q ← checked p;
  modify (with_entries (alter f q)).

(** A [DBusHashEntry**]: an array and an index. *)
Abbreviation bucket_ptr := (nat * nat)%type.

Definition read_bucket (b : bucket_ptr) : TM (option ptr) :=
  t ← gets id;
  checked (l ← arrays t !! b.1; l !! b.2).

Definition write_bucket (b : bucket_ptr) (p : option ptr) : TM unit :=
  read_bucket b;;
  modify (with_arrays (alter (<[b.2 := p]>) b.1)).

(** ** Hashing *)

Section hash.
Context (chars : Z → bytes) (long_bits : Z).

(** Reduction to [long]. *)
Definition long (z : Z) : Z := (z + 2 ^ (long_bits - 1)) mod 2 ^ long_bits - 2 ^ (long_bits - 1).

(** A negative shift is undefined. *)
Definition RANDOM_INDEX (t : DBusHashTable) (i : Z) : option Z :=
  if 0 <=? down_shift t then Some (Z.land (Z.shiftr (long (long i * 1103515245)) (down_shift t)) (mask t)) else None.

(** [char] is signed. *)
Definition char_val (c : byte) : Z := if b2z c <? 128 then b2z c else b2z c - 256.

Definition string_hash (str : bytes) : Z :=
  match str with
  | [] => 0
  | c :: p => foldl (λ h c, u32 (Z.shiftl h 5 - h + char_val c)) (u32 (char_val c)) p
  end.

(** [rebuild_table] leaves out the second [mask], which changes nothing. *)
Definition hash_index (t : DBusHashTable) (k : Z) : option nat :=
  match key_type t with
  | DBUS_HASH_STRING => Some (Z.to_nat (Z.land (string_hash (chars k)) (mask t)))
  | DBUS_HASH_INT | DBUS_HASH_POINTER | DBUS_HASH_ULONG => i ← RANDOM_INDEX t k; Some (Z.to_nat (Z.land i (mask t)))
  | DBUS_HASH_TWO_STRINGS => None
  end.

(** [compare_func]: [strcmp] or none. *)
Definition same_key (ty : DBusHashType) (a b : Z) : bool :=
  match ty with
  | DBUS_HASH_STRING => bool_decide (chars a = chars b)
  | _ => a =? b
  end.

(** ** Tables *)

(** A new object; the argument is the memory only. *)
Definition _dbus_hash_table_new (type : DBusHashType) (key_free value_free : bool) (m : mem) : outcome DBusHashTable unit :=
  let t := Table ∅ {[static_buckets := replicate DBUS_SMALL_HASH_TABLE None]} 1 static_buckets
    (Z.of_nat DBUS_SMALL_HASH_TABLE) 0 (Z.of_nat (DBUS_SMALL_HASH_TABLE * REBUILD_MULTIPLIER)) 0 28 3
    type key_free value_free [] in
  (requests 2;; assert_ (mask t <? n_buckets t)) t m.

Definition _dbus_hash_table_ref : TM unit := modify (λ t, with_refcount (refcount t + 1) t).

Definition alloc_entry : TM (option ptr) :=
  ok ← attempt request;
  if (ok : bool) then
    t ← gets id;
    let p := fresh (dom (entries t)) in
    modify (with_entries (insert p (Entry None 0 0)));;
    mret (Some p)
  else mret None.

Definition dealloc_entry (p : option ptr) : TM unit :=
  deref p;;
  q ← checked p;
  modify (with_entries (base.delete q)).

Definition call_free_key (k : Z) : TM unit :=
  modify (λ t, if free_key_function t then with_call (FreeKey k) t else t).

Definition call_free_value (v : Z) : TM unit :=
  modify (λ t, if free_value_function t then with_call (FreeValue v) t else t).

Definition free_entry_data (p : option ptr) : TM unit :=
  e ← deref p;
  call_free_key (key e);;
  call_free_value (value e).

Definition free_entry (p : option ptr) : TM unit :=
  free_entry_data p;;
  dealloc_entry p.

(** [while (prev->next != entry) prev = prev->next;] *)
Fixpoint find_prev (n : nat) (prev entry : option ptr) : TM (option ptr) :=
  match n with
  | O => assert_ false;; mret None
  | S n' =>
      e ← deref prev;
      if decide (next e = entry) then mret prev else find_prev n' (next e) entry
  end.

Definition remove_entry (bucket : option bucket_ptr) (entry : option ptr) : TM unit :=
  b ← checked bucket;
  first ← read_bucket b;
  assert_ (match first with Some _ => true | None => false end);;
  assert_ (match entry with Some _ => true | None => false end);;
  e ← deref entry;
  (if decide (first = entry) then write_bucket b (next e)
   else
     t ← gets id;
     prev ← find_prev (size (entries t)) first entry;
     e ← deref entry;
     store_entry prev (with_next (next e)));;
  modify (λ t, with_n_entries (n_entries t - 1) t);;
  free_entry entry.

(** ** Growing and shrinking *)

(** One chain of the old array, entry by entry, into the new one. *)
Fixpoint rehash_chain (n : nat) (old : bucket_ptr) (new : nat) : TM unit :=
  match n with
  | O => assert_ false
  | S n' =>
      entry ← read_bucket old;
      match entry with
      | None => mret tt
      | Some _ =>
          e ← deref entry;
          write_bucket old (next e);;
          t ← gets id;
          idx ← checked (hash_index t (key e));
          b ← read_bucket (new, idx);
          store_entry entry (with_next b);;
          write_bucket (new, idx) entry;;
          rehash_chain n' old new
      end
  end.

Fixpoint rehash (n : nat) (old : nat) (i : nat) (new : nat) : TM unit :=
  match n with
  | O => mret tt
  | S n' =>
      t ← gets id;
      rehash_chain (S (size (entries t))) (old, i) new;;
      rehash n' old (S i) new
  end.

(** The number of buckets of the new array, if there is to be one. *)
Definition new_buckets_of (t : DBusHashTable) (growing : bool) : option Z :=
  if growing then
    if (n_buckets t <? _DBUS_INT_MAX / 4) && (0 <=? down_shift t) then Some (n_buckets t * 4) else None
  else
    let n := n_buckets t / 4 in
    if n <? Z.of_nat DBUS_SMALL_HASH_TABLE then None else Some n.

(** The sizes of the next array; [int] must not overflow. *)
Definition resize (growing : bool) (a : nat) (n : Z) (t : DBusHashTable) : option DBusHashTable :=
  if growing then
    if hi_rebuild_size t * 4 <=? _DBUS_INT_MAX
    then Some (with_sizes a n (hi_rebuild_size t * 4) (hi_rebuild_size t) (down_shift t - 2) (Z.shiftl (mask t) 2 + 3) t)
    else None
  else Some (with_sizes a n (lo_rebuild_size t) (lo_rebuild_size t / 4) (down_shift t + 2) (Z.shiftr (mask t) 2) t).

Definition rebuild_table : TM unit :=
  t ← gets id;
  let growing := hi_rebuild_size t <=? n_entries t in
  let old_size := n_buckets t in
  let old_buckets := buckets t in
  match new_buckets_of t growing with
  | None => mret tt
  | Some new_buckets =>
      ok ← attempt request;
      if negb ok then mret tt
      else
        let a := fresh (dom (arrays t)) in
        modify (with_arrays (insert a (replicate (Z.to_nat new_buckets) None)));;
        t ← gets id;
        t' ← checked (resize growing a new_buckets t);
        put t';;
        assert_ (0 <=? lo_rebuild_size t');;
        assert_ (lo_rebuild_size t' <? hi_rebuild_size t');;
        assert_ (negb (mask t' =? 0));;
        assert_ (mask t' <? n_buckets t');;
        rehash (Z.to_nat old_size) old_buckets 0 a;;
        if decide (old_buckets = static_buckets) then mret tt
        else modify (with_arrays (base.delete old_buckets))
  end.

(** ** Finding *)

Definition add_allocated_entry (entry : option ptr) (idx : nat) (k : Z) : TM bucket_ptr :=
  store_entry entry (with_key k);;
  t ← gets id;
  let b := (buckets t, idx) in
  first ← read_bucket b;
  store_entry entry (with_next first);;
  write_bucket b entry;;
  modify (λ t, with_n_entries (n_entries t + 1) t);;
  t ← gets id;
  (if (hi_rebuild_size t <=? n_entries t) || (n_entries t <? lo_rebuild_size t) then rebuild_table else mret tt);;
  mret b.

(** The entry, NULL without memory, and its bucket. *)
Definition add_entry (idx : nat) (k : Z) (preallocated : option ptr) : TM (option ptr * option bucket_ptr) :=
  entry ← (match preallocated with None => alloc_entry | Some _ => mret preallocated end);
  match entry with
  | None => mret (None, None)
  | Some _ => b ← add_allocated_entry entry idx k; mret (entry, Some b)
  end.

Definition _dbus_hash_table_free_preallocated_entry (preallocated : option ptr) : TM unit :=
  assert_ (match preallocated with Some _ => true | None => false end);;
  dealloc_entry preallocated.

Definition drop_preallocated (preallocated : option ptr) : TM unit :=
  match preallocated with
  | Some _ => _dbus_hash_table_free_preallocated_entry preallocated
  | None => mret tt
  end.

(** The search in the bucket. *)
Fixpoint search_chain (n : nat) (entry : option ptr) (k : Z) : TM (option ptr) :=
  match n with
  | O => assert_ false;; mret None
  | S n' =>
      match entry with
      | None => mret None
      | Some _ =>
          e ← deref entry;
          t ← gets id;
          if same_key (key_type t) k (key e) then mret entry else search_chain n' (next e) k
      end
  end.

Definition find_generic_function (k : Z) (idx : nat) (create_if_not_found : bool) (preallocated : option ptr) :
    TM (option ptr * option bucket_ptr) :=
  t ← gets id;
  first ← read_bucket (buckets t, idx);
  found ← search_chain (S (size (entries t))) first k;
  match found with
  | Some _ =>
      drop_preallocated preallocated;;
      mret (found, Some (buckets t, idx))
  | None =>
      if create_if_not_found then add_entry idx k preallocated
      else
        drop_preallocated preallocated;;
        mret (None, None)
  end.

(** [find_string_function] and [find_direct_function]; for two strings there is none. *)
Definition find_function (k : Z) (create_if_not_found : bool) (preallocated : option ptr) :
    TM (option ptr * option bucket_ptr) :=
  t ← gets id;
  idx ← checked (hash_index t k);
  find_generic_function k idx create_if_not_found preallocated.

Definition check_type (ty : DBusHashType) : TM unit :=
  t ← gets id;
  assert_ (bool_decide (key_type t = ty)).

(** ** Operations by key type *)

Definition lookup_as (ty : DBusHashType) (k : Z) : TM Z :=
  check_type ty;;
  '(entry, _) ← find_function k false None;
  match entry with
  | Some _ => e ← deref entry; mret (value e)
  | None => mret 0
  end.

Definition _dbus_hash_table_lookup_string := lookup_as DBUS_HASH_STRING.
Definition _dbus_hash_table_lookup_int := lookup_as DBUS_HASH_INT.
Definition _dbus_hash_table_lookup_ulong := lookup_as DBUS_HASH_ULONG.

Definition remove_as (ty : DBusHashType) (k : Z) : TM bool :=
  check_type ty;;
  '(entry, bucket) ← find_function k false None;
  match entry with
  | Some _ => remove_entry bucket entry;; mret true
  | None => mret false
  end.

Definition _dbus_hash_table_remove_string := remove_as DBUS_HASH_STRING.
Definition _dbus_hash_table_remove_int := remove_as DBUS_HASH_INT.
Definition _dbus_hash_table_remove_ulong := remove_as DBUS_HASH_ULONG.

(** The old key and value are freed unless they are the new ones. *)
Definition set_entry (entry : option ptr) (k v : Z) : TM unit :=
  e ← deref entry;
  (if key e =? k then mret tt else call_free_key (key e));;
  (if value e =? v then mret tt else call_free_value (value e));;
  store_entry entry (with_key k);;
  store_entry entry (with_value v).

Definition insert_as (ty : DBusHashType) (k v : Z) : TM bool :=
  check_type ty;;
  '(entry, _) ← find_function k true None;
  match entry with
  | None => mret false
  | Some _ => set_entry entry k v;; mret true
  end.

Definition _dbus_hash_table_insert_int := insert_as DBUS_HASH_INT.
Definition _dbus_hash_table_insert_ulong := insert_as DBUS_HASH_ULONG.

Definition _dbus_hash_table_preallocate_entry : TM (option ptr) := alloc_entry.

Definition _dbus_hash_table_insert_string_preallocated (preallocated : option ptr) (k v : Z) : TM unit :=
  check_type DBUS_HASH_STRING;;
  assert_ (match preallocated with Some _ => true | None => false end);;
  '(entry, _) ← find_function k true preallocated;
  assert_ (match entry with Some _ => true | None => false end);;
  set_entry entry k v.

Definition _dbus_hash_table_insert_string (k v : Z) : TM bool :=
  check_type DBUS_HASH_STRING;;
  preallocated ← _dbus_hash_table_preallocate_entry;
  match preallocated with
  | None => mret false
  | Some _ => _dbus_hash_table_insert_string_preallocated preallocated k v;; mret true
  end.

Definition _dbus_hash_table_get_n_entries : TM Z := gets n_entries.

(** ** Iterators *)

(** [it_table]: the table is not NULL. *)
Record DBusRealHashIter := Iter {
  it_table : bool;
  it_bucket : option bucket_ptr;
  it_entry : option ptr;
  it_next_entry : option ptr;
  it_next_bucket : nat;
  n_entries_on_init : Z
}.

Definition _dbus_hash_iter_init : TM DBusRealHashIter :=
  t ← gets id;
  mret (Iter true None None None 0 (n_entries t)).

(** [while (real->next_entry == NULL)] *)
Fixpoint iter_advance (n : nat) (it : DBusRealHashIter) : TM (bool * DBusRealHashIter) :=
  match it_next_entry it with
  | Some _ => mret (true, it)
  | None =>
      match n with
      | O => assert_ false;; mret (false, it)
      | S n' =>
          t ← gets id;
          if n_buckets t <=? Z.of_nat (it_next_bucket it) then
            mret (false, Iter false None None None (it_next_bucket it) (n_entries_on_init it))
          else
            let b := (buckets t, it_next_bucket it) in
            first ← read_bucket b;
            iter_advance n' (Iter (it_table it) (Some b) (it_entry it) first (S (it_next_bucket it)) (n_entries_on_init it))
      end
  end.

Definition _dbus_hash_iter_next (it : DBusRealHashIter) : TM (bool * DBusRealHashIter) :=
  assert_ (it_table it);;
  t ← gets id;
  assert_ (n_entries t <=? n_entries_on_init it);;
  '(more, it) ← iter_advance (S (Z.to_nat (n_buckets t))) it;
  if (more : bool) then
    assert_ (match it_bucket it with Some _ => true | None => false end);;
    e ← deref (it_next_entry it);
    mret (true, Iter (it_table it) (it_bucket it) (it_next_entry it) (next e) (it_next_bucket it) (n_entries_on_init it))
  else mret (false, it).

Definition without_entry (it : DBusRealHashIter) : DBusRealHashIter :=
  Iter (it_table it) (it_bucket it) None (it_next_entry it) (it_next_bucket it) (n_entries_on_init it).

Definition _dbus_hash_iter_remove_entry (it : DBusRealHashIter) : TM DBusRealHashIter :=
  assert_ (it_table it);;
  remove_entry (it_bucket it) (it_entry it);;
  mret (without_entry it).

Definition iter_entry (it : DBusRealHashIter) : TM DBusHashEntry :=
  assert_ (it_table it);;
  deref (it_entry it).

Definition _dbus_hash_iter_get_value (it : DBusRealHashIter) : TM Z := e ← iter_entry it; mret (value e).
Definition _dbus_hash_iter_get_int_key (it : DBusRealHashIter) : TM Z := e ← iter_entry it; mret (key e).
Definition _dbus_hash_iter_get_ulong_key := _dbus_hash_iter_get_int_key.
Definition _dbus_hash_iter_get_string_key := _dbus_hash_iter_get_int_key.

Definition _dbus_hash_iter_set_value (it : DBusRealHashIter) (v : Z) : TM unit :=
  e ← iter_entry it;
  (if value e =? v then mret tt else call_free_value (value e));;
  store_entry (it_entry it) (with_value v).

(** The difference of pointers into two arrays is undefined. *)
Definition _dbus_hash_iter_lookup (k : Z) (create_if_not_found : bool) : TM (option DBusRealHashIter) :=
  '(entry, bucket) ← find_function k create_if_not_found None;
  match entry with
  | None => mret None
  | Some _ =>
      e ← deref entry;
      t ← gets id;
      b ← checked bucket;
      assert_ (b.1 =? buckets t)%nat;;
      mret (Some (Iter true bucket entry (next e) (b.2 + 1) (n_entries t)))
  end.

(** [while (_dbus_hash_iter_next (&iter)) _dbus_hash_iter_remove_entry (&iter);] *)
Fixpoint remove_all_loop (n : nat) (it : DBusRealHashIter) : TM unit :=
  match n with
  | O => assert_ false
  | S n' =>
      '(more, it) ← _dbus_hash_iter_next it;
      if (more : bool) then
        it ← _dbus_hash_iter_remove_entry it;
        remove_all_loop n' it
      else mret tt
  end.

Definition _dbus_hash_table_remove_all : TM unit :=
  it ← _dbus_hash_iter_init;
  t ← gets id;
  remove_all_loop (S (size (entries t))) it.

(** Keys and values of a chain, when the table goes. *)
Fixpoint free_chain (n : nat) (entry : option ptr) : TM unit :=
  match n with
  | O => assert_ false
  | S n' =>
      match entry with
      | None => mret tt
      | Some _ =>
          free_entry_data entry;;
          e ← deref entry;
          free_chain n' (next e)
      end
  end.

Fixpoint free_chains (n i : nat) : TM unit :=
  match n with
  | O => mret tt
  | S n' =>
      t ← gets id;
      first ← read_bucket (buckets t, i);
      free_chain (S (size (entries t))) first;;
      free_chains n' (S i)
  end.

(** The pool, the array and the table are freed with the last reference. *)
Definition _dbus_hash_table_unref : TM unit :=
  modify (λ t, with_refcount (refcount t - 1) t);;
  t ← gets id;
  if refcount t =? 0 then
    free_chains (Z.to_nat (n_buckets t)) 0;;
    modify (λ t, with_arrays (λ _, ∅) (with_entries (λ _, ∅) t))
  else mret tt.

End hash.
