(* ===== verification/Hashing.v ===== *)
(** * Hashing: hash tables are maps

    Shown for [HashTable]: lookup, insertion and removal implement the operations on a finite
    map whatever memory is refused, also when the table grows or shrinks; every key and value
    that leaves the table is handed to the functions that free it; an iterator visits every
    entry once, also when entries are removed on the way. *)

From stdpp Require Import gmap.
From S2P Require Import Prelude HashTable.

(** ** Chains *)

(** An entry: its address, its key and its value. *)
Abbreviation cell := (ptr * (Z * Z))%type.

Abbreviation heap_of := (gmap ptr DBusHashEntry).

Fixpoint chain (es : heap_of) (first : option ptr) (l : list cell) : Prop :=
  match l with
  | [] => first = None
  | (p, (k, v)) :: l' => first = Some p ∧ ∃ n, es !! p = Some (Entry n k v) ∧ chain es n l'
  end.

Lemma chain_frame es es' first l : (∀ p, p ∈ l.*1 → es' !! p = es !! p) → chain es first l → chain es' first l.
Proof.
  revert first. induction l as [|[p [k v]] l IH]; intros first Hf; [done|]. simpl. intros (-> & n & Hp & Hl). split; [done|].
  exists n. rewrite Hf by (simpl; by apply elem_of_cons; left). split; [done|]. apply IH; [|done].
  intros q Hq. apply Hf. simpl. by apply elem_of_cons; right.
Qed.

Lemma chain_entry es first l p k v : chain es first l → (p, (k, v)) ∈ l → ∃ n, es !! p = Some (Entry n k v).
Proof.
  revert first. induction l as [|[q [k' v']] l IH]; intros first; [by intros _ ?%elem_of_nil|].
  simpl. intros (-> & n & Hp & Hl) [[= <- <- <-]|Hin]%elem_of_cons; [by exists n|by eapply IH].
Qed.

Lemma chain_length es first l : chain es first l → NoDup l.*1 → (length l <= size es)%nat.
Proof.
  intros Hl Hd. rewrite <-(size_dom es), <-(length_fmap fst l), <-(size_list_to_set (C:=gset ptr) _ Hd).
  apply subseteq_size. intros p Hp%elem_of_list_to_set. apply list_elem_of_fmap in Hp as ([q [k v]] & -> & Hin).
  destruct (chain_entry _ _ _ _ _ _ Hl Hin) as [n Hn]. by apply elem_of_dom_2 in Hn.
Qed.

(** The chains of an array. *)
Definition array_at (es : heap_of) (ars : gmap nat (list (option ptr))) (a : nat) (cs : list (list cell)) : Prop :=
  ∃ heads, ars !! a = Some heads ∧ Forall2 (chain es) heads cs.

Lemma array_frame es es' ars ars' a cs :
  (∀ p, p ∈ (concat cs).*1 → es' !! p = es !! p) → ars' !! a = ars !! a → array_at es ars a cs → array_at es' ars' a cs.
Proof.
  intros He Ha (heads & Hh & Hcs). exists heads. rewrite Ha. split; [done|].
  clear Hh Ha. induction Hcs as [|h c hs cs Hc Hcs IH]; constructor.
  - eapply chain_frame; [|exact Hc]. intros p Hp. apply He. simpl. rewrite fmap_app. by apply elem_of_app; left.
  - apply IH. intros p Hp. apply He. simpl. rewrite fmap_app. by apply elem_of_app; right.
Qed.

Lemma array_bucket es ars a cs i c :
  array_at es ars a cs → cs !! i = Some c → ∃ heads first, ars !! a = Some heads ∧ heads !! i = Some first ∧ chain es first c.
Proof.
  intros (heads & Hh & Hcs) Hi. destruct (Forall2_lookup_r _ _ _ _ _ Hcs Hi) as (first & Hf & Hc). by exists heads, first.
Qed.

(** The chain of one bucket is exchanged. *)
Lemma array_update es es' ars a cs i c c' first' :
  array_at es ars a cs → cs !! i = Some c → chain es' first' c' →
  (∀ j d p, cs !! j = Some d → j ≠ i → p ∈ d.*1 → es' !! p = es !! p) →
  array_at es' (alter (<[i := first']>) a ars) a (<[i := c']> cs).
Proof.
  intros (heads & Hh & Hcs) Hi Hc' Hf. exists (<[i := first']> heads). rewrite lookup_alter_eq, Hh. split; [done|].
  apply Forall2_same_length_lookup. split; [by rewrite !length_insert; eapply Forall2_length|].
  intros j h d Hj Hd. destruct (decide (j = i)) as [-> | Hne].
  - apply lookup_lt_Some in Hi as Hlt. rewrite list_lookup_insert_eq in Hd by done.
    rewrite list_lookup_insert_eq in Hj by (by rewrite (Forall2_length Hcs)). by simplify_eq.
  - rewrite list_lookup_insert_ne in Hd by done. rewrite list_lookup_insert_ne in Hj by done. eapply chain_frame; [|by eapply Forall2_lookup_lr].
    intros p Hp. by eapply Hf.
Qed.

(** The cells of one bucket and of the others. *)
Lemma concat_at {A} (cs : list (list A)) i c : cs !! i = Some c → concat cs ≡ₚ c ++ concat (<[i := []]> cs).
Proof.
  revert i. induction cs as [|d cs IH]; intros [|i] Hi; simpl in *; simplify_eq; [done|].
  rewrite (IH i) by done. rewrite !app_assoc. f_equiv. apply Permutation_app_comm.
Qed.

Lemma concat_insert {A} (cs : list (list A)) i c c' :
  cs !! i = Some c → c' ++ concat cs ≡ₚ c ++ concat (<[i := c']> cs).
Proof.
  intros Hi. rewrite (concat_at cs i c Hi). rewrite (concat_at (<[i := c']> cs) i c').
  - rewrite list_insert_insert_eq, !app_assoc. f_equiv. apply Permutation_app_comm.
  - apply list_lookup_insert_eq. by eapply lookup_lt_Some.
Qed.

Lemma in_concat {A} (cs : list (list A)) i c x : cs !! i = Some c → x ∈ c → x ∈ concat cs.
Proof. intros Hi Hx. rewrite (concat_at cs i c Hi). by apply elem_of_app; left. Qed.

Lemma in_concat_inv {A} (cs : list (list A)) x : In x (concat cs) → ∃ i c, cs !! i = Some c ∧ x ∈ c.
Proof.
  intros (c & Hc & Hx)%List.in_concat. apply list_elem_of_In, list_elem_of_lookup_1 in Hc as [i Hi].
  exists i, c. split; [done|by apply list_elem_of_In].
Qed.

(** Different buckets have different entries. *)
Lemma other_bucket (cs : list (list cell)) i j c d p :
  NoDup (concat cs).*1 → cs !! i = Some c → cs !! j = Some d → j ≠ i → p ∈ c.*1 → p ∉ d.*1.
Proof.
  intros Hd Hi Hj Hne Hp Hq. rewrite (concat_at cs i c Hi), fmap_app in Hd. apply list.NoDup_app in Hd as (_ & Hd & _).
  apply (Hd p Hp). apply list_elem_of_fmap in Hq as (x & -> & Hx). apply list_elem_of_fmap. exists x. split; [done|].
  eapply in_concat; [|exact Hx]. by rewrite list_lookup_insert_ne.
Qed.

Lemma bucket_nodup (cs : list (list cell)) i c : NoDup (concat cs).*1 → cs !! i = Some c → NoDup c.*1.
Proof. intros Hd Hi. rewrite (concat_at cs i c Hi), fmap_app in Hd. by apply list.NoDup_app in Hd as (Hd & _). Qed.

(** ** Running the operations *)

Definition set_heap (es : heap_of) (ars : gmap nat (list (option ptr))) (t : DBusHashTable) : DBusHashTable :=
  with_arrays (λ _, ars) (with_entries (λ _, es) t).

Lemma set_heap_same t : set_heap (entries t) (arrays t) t = t.
Proof. by destruct t. Qed.

Lemma set_heap_twice es ars es' ars' t : set_heap es' ars' (set_heap es ars t) = set_heap es' ars' t.
Proof. done. Qed.

Lemma deref_run {B} p e (k : DBusHashEntry → TM B) t m : entries t !! p = Some e → (deref (Some p) ≫= k) t m = k e t m.
Proof. intros Hp. eapply at_ok. unfold deref. rewrite at_gets. simpl. by rewrite Hp. Qed.

Lemma store_run {B} p e f (k : unit → TM B) t m :
  entries t !! p = Some e → (store_entry (Some p) f ≫= k) t m = k tt (set_heap (<[p := f e]> (entries t)) (arrays t) t) m.
Proof.
  intros Hp. eapply at_ok. unfold store_entry. rewrite (deref_run p e) by done. rewrite (at_checked _ p) by done.
  unfold modify, with_entries, set_heap, with_arrays. simpl. do 2 f_equal. apply map_eq. intros q.
  destruct (decide (p = q)) as [<-|Hne]; [by rewrite lookup_alter_eq, lookup_insert_eq, Hp|by rewrite lookup_alter_ne, lookup_insert_ne].
Qed.

Lemma read_run {B} a i heads first (k : option ptr → TM B) t m :
  arrays t !! a = Some heads → heads !! i = Some first → (read_bucket (a, i) ≫= k) t m = k first t m.
Proof. intros Ha Hi. eapply at_ok. unfold read_bucket. rewrite at_gets. simpl. rewrite Ha. simpl. by rewrite Hi. Qed.

Lemma write_run {B} a i heads first p (k : unit → TM B) t m :
  arrays t !! a = Some heads → heads !! i = Some first →
  (write_bucket (a, i) p ≫= k) t m = k tt (set_heap (entries t) (alter (<[i := p]>) a (arrays t)) t) m.
Proof. intros Ha Hi. eapply at_ok. unfold write_bucket. by rewrite (read_run a i heads first). Qed.

Lemma run_ret {S A} (c : M S A) s m : (c ≫= mret) s m = c s m.
Proof. unfold mbind, M_bind. by destruct (c s m). Qed.

Section hashing.
Context (chars : Z → bytes) (long_bits : Z).

(** What keys are compared by. *)
Definition ckey (ty : DBusHashType) (k : Z) : bytes + Z :=
  match ty with DBUS_HASH_STRING => inl (chars k) | _ => inr k end.

Lemma same_key_spec ty a b : same_key chars ty a b = bool_decide (ckey ty a = ckey ty b).
Proof.
  assert ((a =? b) = bool_decide (@inr bytes Z a = inr b)) as E.
  { destruct (Z.eqb_spec a b) as [-> | Hne]; [by rewrite bool_decide_true|]. rewrite bool_decide_false; [done|]. congruence. }
  unfold same_key, ckey. destruct ty; try exact E. apply bool_decide_ext. split; congruence.
Qed.

(** The entry with the key [k]. *)
Definition has_key (ty : DBusHashType) (k : Z) (x : cell) : Prop := ckey ty x.2.1 = ckey ty k.

#[local] Instance has_key_dec ty k x : Decision (has_key ty k x).
Proof. unfold has_key. apply _. Defined.

Definition found_in (ty : DBusHashType) (k : Z) (l : list cell) : option ptr := (λ x, x.2.1) <$> list_find (has_key ty k) l.

Lemma search_run l : ∀ n first k t m, chain (entries t) first l → (length l < n)%nat →
  search_chain chars n first k t m = Ok (found_in (key_type t) k l) t m.
Proof.
  induction l as [|[p [k' v]] l IH]; intros [|n] first k t m Hl Hn; simpl in *; try lia.
  - by rewrite Hl.
  - destruct Hl as (-> & nx & Hp & Hl). rewrite (deref_run p _ _ _ _ Hp), at_gets, same_key_spec. cbn [key next].
    unfold found_in. simpl. unfold has_key at 1. simpl. case_bool_decide as E.
    + by rewrite decide_True by (by symmetry).
    + rewrite decide_False by (intros Hk; by apply E). rewrite (IH n nx k t m Hl) by lia. unfold found_in.
      destruct (list_find _ l) as [[j [q d]]|]; done.
Qed.

(** ** The invariant *)

(** The numbers after growing [j] times. *)
Definition sizes_at (j : nat) (t : DBusHashTable) : Prop :=
  let q := 4 ^ Z.of_nat j in
  (j <= 13)%nat ∧ n_buckets t = 4 * q ∧ mask t = 4 * q - 1 ∧ down_shift t = 28 - 2 * Z.of_nat j
  ∧ hi_rebuild_size t = 12 * q ∧ (lo_rebuild_size t = 3 * q ∨ j = 0%nat ∧ lo_rebuild_size t = 0).

(** More entries would make [hi_rebuild_size] overflow. *)
Definition max_entries : Z := 12 * 4 ^ 13.

Lemma pow4 j : 4 ^ Z.of_nat j = 2 ^ (2 * Z.of_nat j).
Proof. rewrite Z.pow_mul_r by lia. done. Qed.

Lemma land_mask x j : Z.land x (4 * 4 ^ Z.of_nat j - 1) = x mod (4 * 4 ^ Z.of_nat j).
Proof.
  replace (4 * 4 ^ Z.of_nat j) with (2 ^ (2 * Z.of_nat j + 2)).
  - apply land_ones_mod. lia.
  - rewrite Z.pow_add_r, pow4 by lia. change (2 ^ 2) with 4. lia.
Qed.

Lemma hash_index_ok j t k :
  sizes_at j t → key_type t ≠ DBUS_HASH_TWO_STRINGS → ∃ i, hash_index chars long_bits t k = Some i ∧ Z.of_nat i < n_buckets t.
Proof.
  intros (Hj & Hn & Hm & Hs & _) Hty. assert (0 < 4 ^ Z.of_nat j) as Hq by (apply Z.pow_pos_nonneg; lia).
  assert (∀ x, Z.of_nat (Z.to_nat (Z.land x (mask t))) < n_buckets t) as Hlt.
  { intros x. rewrite Hm, land_mask, Hn. pose proof (Z.mod_pos_bound x (4 * 4 ^ Z.of_nat j)). lia. }
  unfold hash_index, RANDOM_INDEX. destruct (key_type t); try done.
  - eexists. split; [reflexivity|]. apply Hlt.
  - rewrite (proj2 (Z.leb_le _ _)) by lia. eexists. split; [reflexivity|]. apply Hlt.
  - rewrite (proj2 (Z.leb_le _ _)) by lia. eexists. split; [reflexivity|]. apply Hlt.
  - rewrite (proj2 (Z.leb_le _ _)) by lia. eexists. split; [reflexivity|]. apply Hlt.
Qed.

(** Every entry is in the bucket of its key. *)
Definition indexed (t : DBusHashTable) (cs : list (list cell)) : Prop :=
  ∀ i c x, cs !! i = Some c → x ∈ c → hash_index chars long_bits t x.2.1 = Some i.

Definition cell_key (t : DBusHashTable) (x : cell) : bytes + Z := ckey (key_type t) x.2.1.

(** The table [t] with the chains [cs]; the entries [pre] are allocated and not used yet. *)
Record shape (t : DBusHashTable) (cs : list (list cell)) (pre : gset ptr) : Prop := {
  sh_array : array_at (entries t) (arrays t) (buckets t) cs;
  sh_arrays : dom (arrays t) = {[static_buckets; buckets t]};
  sh_nodup : NoDup (concat cs).*1;
  sh_keys : NoDup (cell_key t <$> concat cs);
  sh_index : indexed t cs;
  sh_entries : dom (entries t) = list_to_set (concat cs).*1 ∪ pre;
  sh_pre : ∀ p, p ∈ pre → p ∉ (concat cs).*1 ∧ entries t !! p = Some (Entry None 0 0);
  sh_count : n_entries t = Z.of_nat (length (concat cs));
  sh_length : Z.of_nat (length cs) = n_buckets t;
  sh_sizes : ∃ j, sizes_at j t;
  sh_type : key_type t ≠ DBUS_HASH_TWO_STRINGS
}.

(** The map that the table stands for: keys to key pointers and values. *)
Definition content (t : DBusHashTable) (cs : list (list cell)) : gmap (bytes + Z) (Z * Z) :=
  list_to_map ((λ x, (cell_key t x, x.2)) <$> concat cs).

Lemma content_lookup t cs k kv :
  NoDup (cell_key t <$> concat cs) →
  content t cs !! k = Some kv ↔ ∃ p, (p, kv) ∈ concat cs ∧ ckey (key_type t) kv.1 = k.
Proof.
  intros Hd. unfold content. rewrite <-elem_of_list_to_map.
  - rewrite list_elem_of_fmap. split.
    + intros ([p kv'] & [= -> <-] & Hin). by exists p.
    + intros (p & Hin & <-). by exists (p, kv).
  - rewrite <-list_fmap_compose. exact Hd.
Qed.

Lemma hash_index_ckey t a b : ckey (key_type t) a = ckey (key_type t) b → hash_index chars long_bits t a = hash_index chars long_bits t b.
Proof. unfold ckey, hash_index. destruct (key_type t); intros E; simplify_eq; congruence. Qed.

(** The search in the bucket of the key finds the entry of the map. *)
Lemma bucket_of t cs pre k :
  shape t cs pre →
  ∃ i c, hash_index chars long_bits t k = Some i ∧ cs !! i = Some c
    ∧ match content t cs !! ckey (key_type t) k with
      | Some kv => ∃ p, (p, kv) ∈ c ∧ found_in (key_type t) k c = Some p ∧ ckey (key_type t) kv.1 = ckey (key_type t) k
      | None => found_in (key_type t) k c = None
      end.
Proof.
  intros Hsh. destruct (sh_sizes _ _ _ Hsh) as [j Hj].
  destruct (hash_index_ok j t k Hj (sh_type _ _ _ Hsh)) as (i & Hi & Hlt).
  rewrite <-(sh_length _ _ _ Hsh) in Hlt. destruct (lookup_lt_is_Some_2 cs i) as [c Hc]; [lia|].
  exists i, c. split; [done|]. split; [done|]. unfold found_in. destruct (list_find (has_key _ k) c) as [[n [p kv]]|] eqn:Ef.
  - apply list_find_Some in Ef as (Hn & Hk & _). apply list_elem_of_lookup_2 in Hn.
    assert (content t cs !! ckey (key_type t) k = Some kv) as ->; [|by exists p].
    apply content_lookup; [apply Hsh|]. exists p. split; [by eapply in_concat|done].
  - destruct (content t cs !! _) as [kv|] eqn:Ek; [|done]. exfalso. apply content_lookup in Ek as (p & Hin & Hk); [|apply Hsh].
    apply list_find_None in Ef. rewrite list.Forall_forall in Ef. apply (Ef (p, kv)); [|done].
    apply list_elem_of_In, in_concat_inv in Hin as (i' & c' & Hc' & Hin).
    pose proof (sh_index _ _ _ Hsh i' c' _ Hc' Hin) as Hi'. cbn in Hi'. rewrite (hash_index_ckey t _ _ Hk), Hi in Hi'. by simplify_eq.
Qed.

(** *** Removing from a chain *)

Lemma unlink_first es first p k v l n :
  chain es first ((p, (k, v)) :: l) → es !! p = Some (Entry n k v) → first = Some p ∧ chain es n l.
Proof. intros (-> & n' & Hp & Hl) Hp'. by simplify_eq. Qed.

(** A chain starts with its first entry only. *)
Lemma chain_head es p k v l0 y l2 :
  chain es (Some p) (l0 ++ y :: (p, (k, v)) :: l2) → NoDup (l0 ++ y :: (p, (k, v)) :: l2).*1 → False.
Proof.
  rewrite cons_middle, (app_assoc l0). destruct (l0 ++ [y]) as [|[r [kr vr]] l] eqn:E; [by destruct l0|].
  simpl. intros [[= ->] _] [Hd _]%list.NoDup_cons. apply Hd. rewrite fmap_app. simpl. rewrite elem_of_app, elem_of_cons. auto.
Qed.

Lemma unlink_later es l0 : ∀ first q kq vq p k v l n t m f,
  chain es first (l0 ++ (q, (kq, vq)) :: (p, (k, v)) :: l) → NoDup (l0 ++ (q, (kq, vq)) :: (p, (k, v)) :: l).*1 →
  es !! p = Some (Entry n k v) → entries t = es → (length l0 < f)%nat →
  es !! q = Some (Entry (Some p) kq vq) ∧ find_prev f first (Some p) t m = Ok (Some q) t m
  ∧ chain (<[q := Entry n kq vq]> es) first (l0 ++ (q, (kq, vq)) :: l).
Proof.
  induction l0 as [|[r [kr vr]] l0 IH]; intros first q kq vq p k v l n t m f Hl Hd Hp Ht Hf; (destruct f as [|f]; [simpl in Hf; lia|]).
  - destruct Hl as (-> & n1 & Hq & -> & n2 & Hp' & Hl). simplify_eq. split; [done|]. split.
    + cbn [find_prev]. rewrite (deref_run q _ _ _ _ Hq). cbn [next]. by rewrite decide_True.
    + split; [done|]. eexists. rewrite lookup_insert_eq. split; [done|]. eapply chain_frame; [|exact Hl].
      intros x Hx. rewrite lookup_insert_ne; [done|]. intros <-. simpl in Hd. apply list.NoDup_cons in Hd as [Hd _].
      apply Hd. by apply elem_of_cons; right.
  - simpl in Hl. destruct Hl as (-> & n1 & Hr & Hl). simpl in Hd. apply list.NoDup_cons in Hd as [Hr' Hd].
    destruct (IH n1 q kq vq p k v l n t m f Hl Hd Hp Ht) as (Hq & Ef & Hc); [simpl in Hf; lia|]. split; [done|]. split.
    + cbn [find_prev]. rewrite (deref_run r (Entry n1 kr vr)) by (by rewrite Ht). cbn [next]. rewrite decide_False; [done|].
      intros ->. by eapply chain_head.
    + simpl. split; [done|]. exists n1. rewrite lookup_insert_ne; [done|]. intros <-. apply Hr'. rewrite fmap_app. simpl.
      rewrite elem_of_app, elem_of_cons. auto.
Qed.

(** The rest of the table is as before. *)
Definition patch (es : heap_of) (ars : gmap nat (list (option ptr))) (n : Z) (cl : list call) (t : DBusHashTable) : DBusHashTable :=
  Table es ars (refcount t) (buckets t) (n_buckets t) n (hi_rebuild_size t) (lo_rebuild_size t) (down_shift t) (mask t)
    (key_type t) (free_key_function t) (free_value_function t) cl.

(** The calls that free a key and a value, the last one first. *)
Definition freed (t : DBusHashTable) (k v : Z) : list call :=
  (if free_value_function t then [FreeValue v] else []) ++ (if free_key_function t then [FreeKey k] else []).

Lemma unlink_run t cs pre i l1 p k v l2 n first heads m :
  shape t cs pre → cs !! i = Some (l1 ++ (p, (k, v)) :: l2) → entries t !! p = Some (Entry n k v) →
  arrays t !! buckets t = Some heads → heads !! i = Some first → chain (entries t) first (l1 ++ (p, (k, v)) :: l2) →
  ∃ es ars,
    (if decide (first = Some p) then write_bucket (buckets t, i) n
     else
       t ← gets id;
       prev ← find_prev (size (entries t)) first (Some p);
       e ← deref (Some p);
       store_entry prev (with_next (next e))) t m = Ok tt (set_heap es ars t) m
    ∧ array_at es ars (buckets t) (<[i := l1 ++ l2]> cs) ∧ es !! p = Some (Entry n k v)
    ∧ dom es = dom (entries t) ∧ dom ars = dom (arrays t) ∧ ∀ q, q ∈ pre → es !! q = entries t !! q.
Proof.
  intros Hsh Hi Hp Hh Hf Hc. assert (NoDup (l1 ++ (p, (k, v)) :: l2).*1) as Hd.
  { eapply bucket_nodup; [apply Hsh|exact Hi]. }
  destruct l1 as [|[q [kq vq]] l0 _] using rev_ind.
  - destruct (unlink_first _ _ _ _ _ _ _ Hc Hp) as [-> Hc']. rewrite decide_True by done.
    exists (entries t), (alter (<[i := n]>) (buckets t) (arrays t)). split_and!; try done.
    + by rewrite <-(run_ret (write_bucket _ _)), (write_run _ _ _ _ _ _ _ _ Hh Hf).
    + eapply array_update; [apply Hsh|exact Hi|exact Hc'|done].
    + by rewrite dom_alter_L.
  - rewrite <-app_assoc in *. simpl in *. destruct (unlink_later _ _ _ _ _ _ _ _ _ _ _ t m (size (entries t)) Hc Hd Hp eq_refl) as (Hq & Ef & Hc').
    { apply chain_length in Hc; [|done]. rewrite length_app in Hc. simpl in Hc. lia. }
    assert (q ∈ (l0 ++ (q, (kq, vq)) :: (p, (k, v)) :: l2).*1) as Hqin by (rewrite fmap_app; simpl; rewrite elem_of_app, elem_of_cons; auto).
    rewrite decide_False by (intros ->; by eapply chain_head).
    exists (<[q := Entry n kq vq]> (entries t)), (arrays t). split_and!; try done.
    + rewrite at_gets, (at_ok _ _ _ _ _ _ _ Ef), (deref_run p _ _ _ _ Hp). by rewrite <-(run_ret (store_entry _ _)), (store_run q _ _ _ _ _ Hq).
    + replace (arrays t) with (alter (<[i := first]>) (buckets t) (arrays t)).
      * eapply array_update; [apply Hsh|exact Hi|exact Hc'|]. intros j d x Hj Hne Hx. rewrite lookup_insert_ne; [done|].
        intros <-. eapply other_bucket; [apply Hsh|exact Hi|exact Hj|exact Hne|exact Hqin|exact Hx].
      * apply alter_id. intros l Hl. rewrite Hh in Hl. simplify_eq. by apply list_insert_id.
    + rewrite lookup_insert_ne; [done|]. intros ->. rewrite fmap_app in Hd. apply list.NoDup_app in Hd as (_ & _ & Hd).
      apply list.NoDup_cons in Hd as [Hd _]. apply Hd. by apply elem_of_cons; left.
    + rewrite dom_insert_L. apply elem_of_dom_2 in Hq. set_solver.
    + intros x Hx. rewrite lookup_insert_ne; [done|]. intros <-. apply (sh_pre _ _ _ Hsh) in Hx as [Hx _]. apply Hx.
      rewrite (concat_at cs i _ Hi), fmap_app. by apply elem_of_app; left.
Qed.

Lemma addresses_perm (l l' : list cell) : l ≡ₚ l' → list_to_set l.*1 = (list_to_set l'.*1 : gset ptr).
Proof. intros Hp. apply list_to_set_perm_L. by rewrite Hp. Qed.

Lemma concat_removed {A} (cs : list (list A)) i l1 x l2 :
  cs !! i = Some (l1 ++ x :: l2) → concat cs ≡ₚ x :: concat (<[i := l1 ++ l2]> cs).
Proof.
  intros Hi. apply (Permutation_app_inv_l (l1 ++ l2)). rewrite (concat_insert cs i _ _ Hi).
  rewrite <-Permutation_middle. simpl. by rewrite Permutation_middle.
Qed.

Lemma content_cons t cs x cs' :
  NoDup (cell_key t <$> concat cs) → concat cs ≡ₚ x :: concat cs' →
  content t cs = <[cell_key t x := x.2]> (content t cs') ∧ content t cs' !! cell_key t x = None.
Proof.
  intros Hd Hp. split.
  - transitivity (list_to_map ((λ x, (cell_key t x, x.2)) <$> x :: concat cs') : gmap (bytes + Z) (Z * Z)); [|done].
    apply list_to_map_proper; [by rewrite <-list_fmap_compose|by rewrite Hp].
  - apply not_elem_of_list_to_map_1. rewrite <-list_fmap_compose. rewrite Hp in Hd. by apply list.NoDup_cons in Hd as [Hd _].
Qed.

(** The order of the cells does not matter. *)
Lemma content_perm t cs cs' : NoDup (cell_key t <$> concat cs) → concat cs ≡ₚ concat cs' → content t cs = content t cs'.
Proof. intros Hd Hp. apply list_to_map_proper; [by rewrite <-list_fmap_compose|by rewrite Hp]. Qed.

Lemma free_entry_run p n k v t m :
  entries t !! p = Some (Entry n k v) →
  free_entry (Some p) t m = Ok tt (patch (base.delete p (entries t)) (arrays t) (n_entries t) (freed t k v ++ calls t) t) m.
Proof.
  intros Hp. unfold free_entry, free_entry_data, call_free_key, call_free_value. unfold dealloc_entry.
  erewrite at_ok; [|rewrite (deref_run p _ _ _ _ Hp), at_modify; reflexivity].
  rewrite (deref_run p (Entry n k v)), (at_checked _ p); [|done|].
  - unfold modify, patch, freed. cbn. by destruct t as [? ? ? ? ? ? ? ? ? ? ? [] [] ?].
  - by destruct t as [? ? ? ? ? ? ? ? ? ? ? [] [] ?].
Qed.

Lemma shape_removed t cs pre i l1 p k v l2 es ars cl :
  shape t cs pre → cs !! i = Some (l1 ++ (p, (k, v)) :: l2) →
  array_at es ars (buckets t) (<[i := l1 ++ l2]> cs) → dom es = dom (entries t) → dom ars = dom (arrays t) →
  (∀ q, q ∈ pre → es !! q = entries t !! q) →
  shape (patch (base.delete p es) ars (n_entries t - 1) cl t) (<[i := l1 ++ l2]> cs) pre.
Proof.
  intros Hsh Hi Ha He Har Hpre. pose proof (concat_removed _ _ _ _ _ Hi) as Hperm.
  pose proof (sh_nodup _ _ _ Hsh) as Hd. rewrite Hperm in Hd. simpl in Hd. apply list.NoDup_cons in Hd as [Hp Hd].
  pose proof (sh_keys _ _ _ Hsh) as Hk. rewrite Hperm in Hk. simpl in Hk. apply list.NoDup_cons in Hk as [_ Hk].
  assert (p ∉ pre) as Hpp. { intros [Hx _]%(sh_pre _ _ _ Hsh). apply Hx. rewrite Hperm. simpl. by apply elem_of_cons; left. }
  constructor; simpl; try apply Hsh; try done.
  - eapply array_frame; [|reflexivity|exact Ha]. intros q Hq. rewrite lookup_delete_ne; [done|]. by intros <-.
  - rewrite Har. apply Hsh.
  - intros j c x Hj Hx. destruct (decide (j = i)) as [-> | Hne].
    + rewrite list_lookup_insert_eq in Hj by (by eapply lookup_lt_Some). simplify_eq. apply (sh_index _ _ _ Hsh i _ x Hi).
      rewrite elem_of_app in *. rewrite elem_of_cons. naive_solver.
    + rewrite list_lookup_insert_ne in Hj by done. by apply (sh_index _ _ _ Hsh j c x).
  - rewrite dom_delete_L, He, (sh_entries _ _ _ Hsh), (addresses_perm _ _ Hperm). simpl. rewrite <-(not_elem_of_list_to_set (C:=gset ptr)) in Hp. set_solver.
  - intros q Hq. destruct (sh_pre _ _ _ Hsh q Hq) as [Hq1 Hq2]. split.
    + intros Hx. apply Hq1. rewrite Hperm. simpl. by apply elem_of_cons; right.
    + rewrite lookup_delete_ne by (by intros <-). by rewrite Hpre.
  - rewrite (sh_count _ _ _ Hsh), Hperm. simpl. lia.
  - rewrite length_insert. apply Hsh.
Qed.

(** Removing takes the cell out of its chain and frees its key and its value. *)
Lemma remove_entry_run t cs pre i l1 p k v l2 m :
  shape t cs pre → cs !! i = Some (l1 ++ (p, (k, v)) :: l2) →
  ∃ es ars, let t' := patch es ars (n_entries t - 1) (freed t k v ++ calls t) t in
    remove_entry (Some (buckets t, i)) (Some p) t m = Ok tt t' m ∧ shape t' (<[i := l1 ++ l2]> cs) pre
    ∧ content t' (<[i := l1 ++ l2]> cs) = base.delete (ckey (key_type t) k) (content t cs).
Proof.
  intros Hsh Hi. destruct (array_bucket _ _ _ _ _ _ (sh_array _ _ _ Hsh) Hi) as (heads & first & Hh & Hf & Hc).
  destruct (chain_entry _ _ _ p k v Hc) as [n Hn]; [rewrite elem_of_app, elem_of_cons; auto|].
  destruct (unlink_run _ _ _ _ _ _ _ _ _ _ _ _ m Hsh Hi Hn Hh Hf Hc) as (es & ars & E & Ha & Hp & He & Har & Hpre).
  exists (base.delete p es), ars. split_and!.
  - unfold remove_entry. rewrite (at_checked _ (buckets t, i)) by done. rewrite (read_run _ _ _ _ _ _ _ Hh Hf).
    rewrite at_assert by (destruct first; [done|by destruct l1 as [|[? []]]; destruct Hc]). rewrite at_assert by done.
    rewrite (deref_run p _ _ _ _ Hn). cbn [next]. rewrite (at_ok _ _ _ _ _ _ _ E), at_modify. by rewrite (free_entry_run p n k v).
  - by eapply shape_removed.
  - destruct (content_cons t cs _ _ (sh_keys _ _ _ Hsh) (concat_removed _ _ _ _ _ Hi)) as [-> Hnone].
    change (ckey (key_type t) k) with (cell_key t (p, (k, v))). by rewrite delete_insert_id.
Qed.

(** *** Growing and shrinking *)

Lemma concat_added {A} (cs : list (list A)) i c x :
  cs !! i = Some c → concat (<[i := x :: c]> cs) ≡ₚ x :: concat cs.
Proof. intros Hi. apply (Permutation_app_inv_l c). rewrite <-(concat_insert cs i _ _ Hi). simpl. by rewrite Permutation_middle. Qed.

(** The chains [os] of the array [a0] go to the array [a], which has the chains [ns]. *)
Record moving (a0 a : nat) (t : DBusHashTable) (os ns : list (list cell)) : Prop := {
  mv_old : array_at (entries t) (arrays t) a0 os;
  mv_new : array_at (entries t) (arrays t) a ns;
  mv_ne : a0 ≠ a;
  mv_nodup : NoDup (concat os ++ concat ns).*1;
  mv_index : indexed t ns;
  mv_length : Z.of_nat (length ns) = n_buckets t;
  mv_sizes : ∃ j, sizes_at j t;
  mv_type : key_type t ≠ DBUS_HASH_TWO_STRINGS
}.

(** No entry is lost, and only the entries that move are written. *)
Record moved (a0 a : nat) (t t' : DBusHashTable) (os ns os' ns' : list (list cell)) : Prop := {
  md_moving : moving a0 a t' os' ns';
  md_cells : concat os' ++ concat ns' ≡ₚ concat os ++ concat ns;
  md_table : t' = set_heap (entries t') (arrays t') t;
  md_entries : dom (entries t') = dom (entries t);
  md_arrays : dom (arrays t') = dom (arrays t);
  md_frame : ∀ q, q ∉ (concat os).*1 → entries t' !! q = entries t !! q;
  md_old : ∀ q, q ∈ (concat os').*1 → q ∈ (concat os).*1
}.

Lemma moved_refl a0 a t os ns : moving a0 a t os ns → moved a0 a t t os ns os ns.
Proof. intros H. constructor; try done. by rewrite set_heap_same. Qed.

Lemma moved_trans a0 a t t1 t2 os ns os1 ns1 os2 ns2 :
  moved a0 a t t1 os ns os1 ns1 → moved a0 a t1 t2 os1 ns1 os2 ns2 → moved a0 a t t2 os ns os2 ns2.
Proof.
  intros [H1 C1 T1 E1 A1 F1 O1] [H2 C2 T2 E2 A2 F2 O2]. constructor; try done.
  - by rewrite C2.
  - etransitivity; [exact T2|]. by rewrite T1.
  - by rewrite E2.
  - by rewrite A2.
  - intros q Hq. rewrite F2, F1; [done|done|]. intros Hx. by apply Hq, O1.
  - intros q Hq. by apply O1, O2.
Qed.

Lemma move_one a0 a t os ns i p k v l nx idx c head heads :
  moving a0 a t os ns → os !! i = Some ((p, (k, v)) :: l) → entries t !! p = Some (Entry nx k v) → chain (entries t) nx l →
  hash_index chars long_bits t k = Some idx → ns !! idx = Some c → arrays t !! a = Some heads → heads !! idx = Some head →
  chain (entries t) head c →
  moved a0 a t (set_heap (<[p := Entry head k v]> (entries t)) (alter (<[idx := Some p]>) a (alter (<[i := nx]>) a0 (arrays t))) t)
    os ns (<[i := l]> os) (<[idx := (p, (k, v)) :: c]> ns).
Proof.
  intros Hm Hi Hp Hl Hx Hc Ha Hh Hch. pose proof (concat_removed os i [] _ l Hi) as H1. pose proof (concat_added ns idx c (p, (k, v)) Hc) as H2.
  pose proof (mv_nodup _ _ _ _ _ Hm) as Hd. rewrite H1 in Hd. simpl in Hd. apply list.NoDup_cons in Hd as [Hpn Hd].
  rewrite fmap_app, elem_of_app in Hpn. simpl in H1.
  constructor; [constructor; simpl; try apply Hm|..]; simpl.
  - eapply array_frame; [|by rewrite lookup_alter_ne by (by apply not_eq_sym, Hm)|].
    + intros q Hq. rewrite lookup_insert_ne; [done|]. intros <-. apply Hpn. by left.
    + eapply array_update; [apply Hm|exact Hi|exact Hl|done].
  - eapply array_update; [|exact Hc| |].
    + eapply array_frame; [done| |apply Hm]. by rewrite lookup_alter_ne by apply Hm.
    + simpl. split; [done|]. exists head. rewrite lookup_insert_eq. split; [done|]. eapply chain_frame; [|exact Hch].
      intros q Hq. rewrite lookup_insert_ne; [done|]. intros <-. apply Hpn. right. apply list_elem_of_fmap in Hq as (x & -> & Hq).
      apply list_elem_of_fmap. exists x. split; [done|by eapply in_concat].
    + intros j d q Hj _ Hq. rewrite lookup_insert_ne; [done|]. intros <-. apply Hpn. right. apply list_elem_of_fmap in Hq as (x & -> & Hq).
      apply list_elem_of_fmap. exists x. split; [done|by eapply in_concat].
  - rewrite H2, <-Permutation_middle. simpl. apply list.NoDup_cons. split; [|done]. by rewrite fmap_app, elem_of_app.
  - intros j d x Hj Hin. destruct (decide (j = idx)) as [-> | Hne].
    + rewrite list_lookup_insert_eq in Hj by (by eapply lookup_lt_Some). simplify_eq. apply elem_of_cons in Hin as [-> | Hin]; [done|].
      by apply (mv_index _ _ _ _ _ Hm idx c x).
    + rewrite list_lookup_insert_ne in Hj by done. by apply (mv_index _ _ _ _ _ Hm j d x).
  - rewrite length_insert. apply Hm.
  - rewrite H2, H1, <-Permutation_middle. done.
  - done.
  - rewrite dom_insert_L. apply elem_of_dom_2 in Hp. set_solver.
  - by rewrite !dom_alter_L.
  - intros q Hq. rewrite lookup_insert_ne; [done|]. intros <-. apply Hq. rewrite H1. simpl. by apply elem_of_cons; left.
  - intros q Hq. rewrite H1. simpl. by apply elem_of_cons; right.
Qed.

Lemma rehash_chain_run a0 a i l : ∀ n t os ns m,
  moving a0 a t os ns → os !! i = Some l → (length l < n)%nat →
  ∃ t' ns', rehash_chain chars long_bits n (a0, i) a t m = Ok tt t' m ∧ moved a0 a t t' os ns (<[i := []]> os) ns'.
Proof.
  induction l as [|[p [k v]] l IH]; intros [|n] t os ns m Hm Hi Hn; simpl in Hn; try lia;
    destruct (array_bucket _ _ _ _ _ _ (mv_old _ _ _ _ _ Hm) Hi) as (oh & first & Ho & Hf & Hc); cbn [rehash_chain].
  - rewrite (read_run _ _ _ _ _ _ _ Ho Hf). simpl in Hc. subst first. exists t, ns. split; [done|].
    rewrite list_insert_id by done. by apply moved_refl.
  - destruct Hc as (-> & nx & Hp & Hl). destruct (mv_sizes _ _ _ _ _ Hm) as [j Hj].
    destruct (hash_index_ok j t k Hj (mv_type _ _ _ _ _ Hm)) as (idx & Hx & Hlt). rewrite <-(mv_length _ _ _ _ _ Hm) in Hlt.
    destruct (lookup_lt_is_Some_2 ns idx) as [c Hci]; [lia|].
    destruct (array_bucket _ _ _ _ _ _ (mv_new _ _ _ _ _ Hm) Hci) as (nh & head & Ha & Hh & Hch).
    pose proof (move_one _ _ _ _ _ _ _ _ _ _ _ _ _ _ _ Hm Hi Hp Hl Hx Hci Ha Hh Hch) as Hmd. pose proof (mv_ne _ _ _ _ _ Hm) as Hne.
    destruct (IH n _ _ _ m (md_moving _ _ _ _ _ _ _ _ Hmd)) as (t' & ns' & E & Hmd'); [|lia|].
    { apply list_lookup_insert_eq. by eapply lookup_lt_Some. }
    exists t', ns'. split.
    + rewrite (read_run _ _ _ _ _ _ _ Ho Hf), (deref_run p _ _ _ _ Hp), (write_run _ _ _ _ _ _ _ _ Ho Hf), at_gets.
      rewrite (at_checked _ idx) by exact Hx. rewrite (read_run a idx nh head) by (simpl; by rewrite ?lookup_alter_ne).
      rewrite (store_run p (Entry nx k v)) by done. rewrite (write_run a idx nh head) by (simpl; by rewrite ?lookup_alter_ne). exact E.
    + eapply moved_trans; [exact Hmd|]. by rewrite list_insert_insert_eq in Hmd'.
Qed.

Lemma rehash_run a0 a n : ∀ i t os ns m,
  moving a0 a t os ns → (i + n = length os)%nat → (∀ j, (j < i)%nat → os !! j = Some []) →
  ∃ t' os' ns', rehash chars long_bits n a0 i a t m = Ok tt t' m ∧ moved a0 a t t' os ns os' ns' ∧ concat os' = [].
Proof.
  induction n as [|n IH]; intros i t os ns m Hm Hlen Hnil; cbn [rehash].
  - exists t, os, ns. split; [done|]. split; [by apply moved_refl|]. apply concat_nil_Forall, list.Forall_forall. intros l Hl.
    apply list_elem_of_lookup_1 in Hl as [j Hj]. apply lookup_lt_Some in Hj as Hlt. rewrite Hnil in Hj by lia. by simplify_eq.
  - destruct (lookup_lt_is_Some_2 os i) as [l Hi]; [lia|]. rewrite at_gets.
    destruct (rehash_chain_run a0 a i l (S (size (entries t))) t os ns m Hm Hi) as (t1 & ns1 & E & Hmd).
    { destruct (array_bucket _ _ _ _ _ _ (mv_old _ _ _ _ _ Hm) Hi) as (oh & first & _ & _ & Hc). apply chain_length in Hc; [lia|].
      pose proof (mv_nodup _ _ _ _ _ Hm) as Hd. rewrite (concat_at os i l Hi), <-app_assoc, fmap_app in Hd. by apply list.NoDup_app in Hd as (Hd & _). }
    rewrite (at_ok _ _ _ _ _ _ _ E).
    destruct (IH (S i) t1 (<[i := []]> os) ns1 m) as (t' & os' & ns' & E' & Hmd' & Hos).
    + apply Hmd.
    + rewrite length_insert. lia.
    + intros j Hj. destruct (decide (j = i)) as [-> | Hne]; [apply list_lookup_insert_eq; by eapply lookup_lt_Some|].
      rewrite list_lookup_insert_ne by done. apply Hnil. lia.
    + exists t', os', ns'. split; [done|]. split; [by eapply moved_trans|done].
Qed.

(** The sizes after one step up or down. *)
Lemma resize_ok j a n growing t :
  sizes_at j t → (growing = true → (j <= 12)%nat) → new_buckets_of t growing = Some n →
  ∃ hi lo sh mk j', resize growing a n t = Some (with_sizes a n hi lo sh mk t) ∧ sizes_at j' (with_sizes a n hi lo sh mk t).
Proof.
  intros (Hj & Hn & Hm & Hs & Hhi & Hlo) Hg. unfold new_buckets_of, resize. rewrite Hn, Hm, Hs, Hhi.
  assert (0 < 4 ^ Z.of_nat j) as Hq by (apply Z.pow_pos_nonneg; lia). change (Z.of_nat DBUS_SMALL_HASH_TABLE) with 4. destruct growing.
  - specialize (Hg eq_refl). assert (4 ^ Z.of_nat j <= 4 ^ 12) as Hle by (apply Z.pow_le_mono_r; lia). change (4 ^ 12) with 16777216 in Hle.
    rewrite (proj2 (Z.leb_le (12 * _ * 4) _)) by (unfold _DBUS_INT_MAX; lia). case_if; [|done]. intros [= <-].
    do 4 eexists. exists (S j). split; [reflexivity|]. unfold sizes_at. simpl. rewrite Nat2Z.inj_succ, Z.pow_succ_r by lia.
    rewrite Z.shiftl_mul_pow2 by lia. change (2 ^ 2) with 4. split_and!; lia.
  - case_if; [done|]. intros [= <-]. destruct j as [|j]; [vm_compute in Heqb; done|]. destruct Hlo as [Hlo|[? _]]; [|done].
    rewrite Nat2Z.inj_succ, Z.pow_succ_r in * by lia. do 4 eexists. exists j. split; [reflexivity|]. unfold sizes_at. simpl.
    rewrite Z.shiftr_div_pow2 by lia. change (2 ^ 2) with 4. rewrite Hlo.
    replace (4 * (4 * 4 ^ Z.of_nat j)) with (4 * 4 ^ Z.of_nat j * 4) by lia. rewrite Z.div_mul by lia.
    replace (3 * (4 * 4 ^ Z.of_nat j)) with (3 * 4 ^ Z.of_nat j * 4) by lia. rewrite Z.div_mul by lia.
    replace (4 * 4 ^ Z.of_nat j * 4 - 1) with (4 * 4 ^ Z.of_nat j * 4 + -1) by lia. rewrite Z.div_add_l by lia. split_and!; try lia.
Qed.

Lemma allocation_run {B} (k : bool → TM B) t m : (attempt request ≫= k) t m = k (alloc m).1 t (alloc m).2.
Proof. rewrite at_attempt. unfold request. by destruct (alloc m) as [[] m']. Qed.

Lemma sizes_asserts j t : sizes_at j t →
  (0 <=? lo_rebuild_size t) = true ∧ (lo_rebuild_size t <? hi_rebuild_size t) = true ∧ negb (mask t =? 0) = true
  ∧ (mask t <? n_buckets t) = true.
Proof.
  intros (Hj & -> & -> & _ & -> & Hlo). assert (0 < 4 ^ Z.of_nat j) as Hq by (apply Z.pow_pos_nonneg; lia).
  split_and!; [apply Z.leb_le; lia|apply Z.ltb_lt; lia|apply negb_true_iff, Z.eqb_neq; lia|apply Z.ltb_lt; lia].
Qed.

Lemma concat_empty {A} n : concat (replicate n []) = ([] : list A).
Proof. apply concat_nil_Forall, list.Forall_forall. by intros ? [-> _]%elem_of_replicate. Qed.

(** The empty array of the new size is ready for the chains. *)
Lemma moving_start t cs pre a n hi lo sh mk j :
  let t1 := with_sizes a n hi lo sh mk (with_arrays (insert a (replicate (Z.to_nat n) None)) t) in
  shape t cs pre → a ∉ dom (arrays t) → sizes_at j t1 → moving (buckets t) a t1 cs (replicate (Z.to_nat n) []).
Proof.
  intros t1 Hsh Ha Hj. pose proof (sh_arrays _ _ _ Hsh) as Hdom. assert (buckets t ≠ a) as Hne by set_solver.
  constructor; simpl; try done.
  - eapply array_frame; [done| |apply Hsh]. by rewrite lookup_insert_ne.
  - exists (replicate (Z.to_nat n) None). rewrite lookup_insert_eq. split; [done|]. by apply Forall2_replicate.
  - rewrite concat_empty, app_nil_r. apply Hsh.
  - intros i c x Hi Hx. apply lookup_replicate in Hi as [-> _]. by apply elem_of_nil in Hx.
  - rewrite length_replicate. destruct Hj as (_ & Hn & _). simpl in Hn. assert (0 < 4 ^ Z.of_nat j) by (apply Z.pow_pos_nonneg; lia). lia.
  - by exists j.
  - apply Hsh.
Qed.

(** What no operation changes. *)
Definition kept (t t' : DBusHashTable) : Prop :=
  key_type t' = key_type t ∧ free_key_function t' = free_key_function t ∧ free_value_function t' = free_value_function t
  ∧ refcount t' = refcount t.

Lemma shape_moved t cs pre a n hi lo sh mk t' os' ns' ars :
  let t1 := with_sizes a n hi lo sh mk (with_arrays (insert a (replicate (Z.to_nat n) None)) t) in
  shape t cs pre → a ∉ dom (arrays t) → moved (buckets t) a t1 t' cs (replicate (Z.to_nat n) []) os' ns' → concat os' = [] →
  ars !! a = arrays t' !! a → dom ars = {[static_buckets; a]} →
  shape (with_arrays (λ _, ars) t') ns' pre ∧ concat ns' ≡ₚ concat cs ∧ kept t t' ∧ calls t' = calls t ∧ n_entries t' = n_entries t.
Proof.
  intros t1 Hsh Ha [Hm Hcells Ht He Har Hf _] Hos Haa Hars. rewrite Hos, concat_empty, app_nil_r in Hcells. simpl in Hcells.
  rewrite Ht. rewrite Ht in Hm. destruct Hm as [_ Hnew _ Hnd Hidx Hlen Hsz Hty]. simpl in *. rewrite Hos in Hnd. simpl in Hnd.
  split_and!; try done. constructor; simpl; try done.
  - by eapply array_frame; [|exact Haa|exact Hnew].
  - unfold cell_key. simpl. rewrite Hcells. apply Hsh.
  - rewrite He, (addresses_perm _ _ Hcells). apply Hsh.
  - intros p Hp. destruct (sh_pre _ _ _ Hsh p Hp) as [Hp1 Hp2]. rewrite Hcells. split; [done|]. by rewrite Hf.
  - rewrite Hcells. apply Hsh.
Qed.

Lemma later_failure m : may_fail (alloc m).2 → may_fail m.
Proof. unfold may_fail, alloc. destruct m as [[|ok os] jk]; [done|]. simpl. intros Hf. by apply elem_of_cons; right. Qed.

Lemma refused m : (alloc m).1 = false → may_fail m.
Proof. unfold may_fail, alloc. destruct m as [[|ok os] jk]; [done|]. simpl. intros ->. by apply elem_of_cons; left. Qed.

Lemma growing_room j t :
  sizes_at j t → n_entries t < max_entries → hi_rebuild_size t <= n_entries t → (j <= 12)%nat ∧ new_buckets_of t true ≠ None.
Proof.
  intros (Hj & Hn & _ & Hs & Hhi & _) Hmax Hle. unfold max_entries in Hmax.
  assert (j <= 12)%nat as Hj12. { destruct (decide (j = 13%nat)) as [-> | ?]; [|lia]. rewrite Hhi in Hle. simpl in Hle. lia. }
  split; [done|]. assert (4 ^ Z.of_nat j <= 4 ^ 12) as Hq by (apply Z.pow_le_mono_r; lia). change (4 ^ 12) with 16777216 in Hq.
  unfold new_buckets_of. rewrite Hn, Hs. change (_DBUS_INT_MAX / 4) with 536870911.
  by rewrite (proj2 (Z.ltb_lt _ _)), (proj2 (Z.leb_le _ _)) by lia.
Qed.

(** Another array holds the same cells. *)
Lemma rebuild_run t cs pre m :
  shape t cs pre → n_entries t < max_entries →
  ∃ t' cs' m', rebuild_table chars long_bits t m = Ok tt t' m' ∧ shape t' cs' pre ∧ concat cs' ≡ₚ concat cs ∧ kept t t'
    ∧ calls t' = calls t ∧ n_entries t' = n_entries t ∧ (may_fail m' → may_fail m)
    ∧ (hi_rebuild_size t <= n_entries t → may_fail m ∨ buckets t' ≠ buckets t).
Proof.
  intros Hsh Hmax. destruct (sh_sizes _ _ _ Hsh) as [j Hj]. unfold rebuild_table. rewrite at_gets.
  set (g := hi_rebuild_size t <=? n_entries t). cbv zeta. pose proof (growing_room j t Hj Hmax) as Hroom.
  destruct (new_buckets_of t g) as [n|] eqn:En.
  2: { exists t, cs, m. split_and!; try done. intros Hle. apply Z.leb_le in Hle as Hg. subst g. rewrite Hg in En. by apply Hroom in Hle as [_ Hle]. }
  rewrite allocation_run. pose proof (later_failure m) as Hm. pose proof (refused m) as Hr. destruct (alloc m) as [[] m']; cbn [fst snd negb] in *.
  2: { exists t, cs, m'. split_and!; try done. auto. }
  set (a := fresh (dom (arrays t))). assert (a ∉ (dom (arrays t) : gset nat)) as Ha by apply is_fresh.
  rewrite at_modify, at_gets. set (t0 := with_arrays _ t).
  destruct (resize_ok j a n g t0) as (hi & lo & sh & mk & j' & Er & Hj'); [exact Hj| |exact En|].
  { intros Hg. apply Z.leb_le in Hg. by apply Hroom. }
  rewrite (at_checked _ _ _ _ _ Er). destruct (sizes_asserts j' _ Hj') as (A1 & A2 & A3 & A4).
  erewrite at_ok; [|reflexivity]. do 4 rewrite at_assert by done.
  destruct (rehash_run (buckets t) a (Z.to_nat (n_buckets t)) 0 _ cs _ m' (moving_start t cs pre a n hi lo sh mk j' Hsh Ha Hj')) as (t2 & os' & ns' & E & Hmd & Hos).
  { pose proof (sh_length _ _ _ Hsh). lia. } { lia. }
  rewrite (at_ok _ _ _ _ _ _ _ E). pose proof (md_arrays _ _ _ _ _ _ _ _ Hmd) as Hdom. simpl in Hdom.
  assert (buckets t2 ≠ buckets t) as Hnb.
  { rewrite (md_table _ _ _ _ _ _ _ _ Hmd). simpl. intros Ea. apply Ha. rewrite (sh_arrays _ _ _ Hsh), Ea. set_solver. }
  rewrite dom_insert_L, (sh_arrays _ _ _ Hsh) in Hdom. rewrite (sh_arrays _ _ _ Hsh) in Ha. case_decide as Hst.
  - exists t2, ns', m'. split; [done|]. destruct (shape_moved t cs pre a n hi lo sh mk t2 os' ns' (arrays t2)) as (Hs & Hrest); try done.
    + by rewrite (sh_arrays _ _ _ Hsh).
    + set_solver.
    + split; [by destruct t2|]. naive_solver.
  - exists (with_arrays (base.delete (buckets t)) t2), ns', m'. split; [done|].
    destruct (shape_moved t cs pre a n hi lo sh mk t2 os' ns' (base.delete (buckets t) (arrays t2))) as (Hs & Hrest); try done.
    + by rewrite (sh_arrays _ _ _ Hsh).
    + rewrite lookup_delete_ne; [done|]. set_solver.
    + rewrite dom_delete_L. set_solver.
    + split; [done|]. naive_solver.
Qed.

(** *** Adding *)

Lemma shape_added t cs pre p k idx c head heads cl :
  shape t cs ({[p]} ∪ pre) → p ∉ pre → content t cs !! ckey (key_type t) k = None → hash_index chars long_bits t k = Some idx →
  cs !! idx = Some c → arrays t !! buckets t = Some heads → heads !! idx = Some head → chain (entries t) head c →
  shape (patch (<[p := Entry head k 0]> (entries t)) (alter (<[idx := Some p]>) (buckets t) (arrays t)) (n_entries t + 1) cl t)
    (<[idx := (p, (k, 0)) :: c]> cs) pre.
Proof.
  intros Hsh Hp Hk Hx Hc Hh Hf Hch. pose proof (concat_added cs idx c (p, (k, 0)) Hc) as Hperm.
  destruct (sh_pre _ _ _ Hsh p) as [Hpc _]; [set_solver|].
  assert (∀ q, q ∈ (concat cs).*1 → <[p := Entry head k 0]> (entries t) !! q = entries t !! q) as Hframe.
  { intros q Hq. rewrite lookup_insert_ne; [done|]. by intros <-. }
  assert (∀ i d q, cs !! i = Some d → q ∈ d.*1 → q ∈ (concat cs).*1) as Hin.
  { intros i d q Hi Hq. apply list_elem_of_fmap in Hq as (x & -> & Hq). apply list_elem_of_fmap. exists x. split; [done|by eapply in_concat]. }
  constructor; simpl; try apply Hsh.
  - eapply array_update; [apply Hsh|exact Hc| |].
    + simpl. split; [done|]. exists head. rewrite lookup_insert_eq. split; [done|]. eapply chain_frame; [|exact Hch]. eauto.
    + intros i d q Hi _ Hq. eauto.
  - rewrite dom_alter_L. apply Hsh.
  - rewrite Hperm. simpl. apply list.NoDup_cons. split; [done|apply Hsh].
  - rewrite Hperm. simpl. apply list.NoDup_cons. split; [|apply Hsh]. intros Hin'.
    apply list_elem_of_fmap in Hin' as ([q kv] & Eq & Hq). apply eq_None_not_Some in Hk. apply Hk. exists kv.
    apply content_lookup; [apply Hsh|]. by exists q.
  - intros i d x Hi Hd. destruct (decide (i = idx)) as [-> | Hne].
    + rewrite list_lookup_insert_eq in Hi by (by eapply lookup_lt_Some). simplify_eq. apply elem_of_cons in Hd as [-> | Hd]; [done|].
      by apply (sh_index _ _ _ Hsh idx c x).
    + rewrite list_lookup_insert_ne in Hi by done. by apply (sh_index _ _ _ Hsh i d x).
  - rewrite dom_insert_L, (sh_entries _ _ _ Hsh), (addresses_perm _ _ Hperm). simpl. set_solver.
  - intros q Hq. assert (q ≠ p) as Hne by (by intros ->). destruct (sh_pre _ _ _ Hsh q) as [Hq1 Hq2]; [set_solver|].
    rewrite lookup_insert_ne by done. split; [|done]. rewrite Hperm. simpl. by intros [? | ?]%elem_of_cons.
  - rewrite (sh_count _ _ _ Hsh), Hperm. simpl. lia.
  - rewrite length_insert. apply Hsh.
Qed.

Lemma add_allocated_run t cs pre p k idx m :
  shape t cs ({[p]} ∪ pre) → p ∉ pre → content t cs !! ckey (key_type t) k = None → hash_index chars long_bits t k = Some idx →
  n_entries t + 1 < max_entries →
  ∃ t' cs' m', add_allocated_entry chars long_bits (Some p) idx k t m = Ok (buckets t, idx) t' m' ∧ shape t' cs' pre
    ∧ concat cs' ≡ₚ (p, (k, 0)) :: concat cs ∧ kept t t' ∧ calls t' = calls t ∧ (may_fail m' → may_fail m)
    ∧ (hi_rebuild_size t <= n_entries t + 1 → may_fail m ∨ buckets t' ≠ buckets t).
Proof.
  intros Hsh Hp Hk Hx Hmax. destruct (sh_pre _ _ _ Hsh p) as [Hpc Hpe]; [set_solver|].
  destruct (bucket_of t cs _ k Hsh) as (i & c & Hi & Hc & _). rewrite Hx in Hi. simplify_eq.
  destruct (array_bucket _ _ _ _ _ _ (sh_array _ _ _ Hsh) Hc) as (heads & head & Hh & Hf & Hch).
  pose proof (shape_added t cs pre p k i c head heads (calls t) Hsh Hp Hk Hx Hc Hh Hf Hch) as Hs1.
  set (t1 := patch _ _ _ _ t) in Hs1.
  assert (add_allocated_entry chars long_bits (Some p) i k t m
    = ((if (hi_rebuild_size t1 <=? n_entries t1) || (n_entries t1 <? lo_rebuild_size t1) then rebuild_table chars long_bits else mret tt);;
       mret (buckets t, i)) t1 m) as ->.
  { unfold add_allocated_entry. rewrite (store_run p _ _ _ _ _ Hpe), at_gets. cbv zeta. rewrite (read_run (buckets t) i heads head) by done.
    rewrite (store_run p (Entry None k 0)) by apply lookup_insert_eq. rewrite (write_run (buckets t) i heads head) by done.
    rewrite at_modify, at_gets. subst t1. rewrite <-(insert_insert_eq (entries t) p (Entry head k 0) (Entry None k 0)). reflexivity. }
  pose proof (concat_added cs i c (p, (k, 0)) Hc) as Hperm. case_if.
  - destruct (rebuild_run t1 _ pre m Hs1) as (t' & cs' & m' & E & Hs & Hcs & Hkept & Hcl & _ & Hm & Hnb); [exact Hmax|].
    exists t', cs', m'. rewrite (at_ok _ _ _ _ _ _ _ E), Hcs. done.
  - exists t1, (<[i := (p, (k, 0)) :: c]> cs), m. split_and!; try done. intros Hle.
    apply orb_false_iff in Heqb as [Hlt _]. apply Z.leb_gt in Hlt. simpl in Hlt. lia.
Qed.

Lemma alloc_run t cs pre m :
  shape t cs pre →
  if (alloc m).1 then ∃ p es, let t' := set_heap es (arrays t) t in
    alloc_entry t m = Ok (Some p) t' (alloc m).2 ∧ shape t' cs ({[p]} ∪ pre) ∧ p ∉ pre
  else alloc_entry t m = Ok None t (alloc m).2.
Proof.
  intros Hsh. unfold alloc_entry. rewrite allocation_run. destruct (alloc m).1; [|done]. rewrite at_gets. cbv zeta.
  set (p := fresh (dom (entries t))). assert (p ∉ (dom (entries t) : gset ptr)) as Hp by apply is_fresh.
  exists p, (<[p := Entry None 0 0]> (entries t)). rewrite (sh_entries _ _ _ Hsh), not_elem_of_union, not_elem_of_list_to_set in Hp.
  destruct Hp as [Hp Hpre]. split; [done|]. split; [|done]. constructor; simpl; try apply Hsh.
  - eapply array_frame; [|reflexivity|apply Hsh]. intros q Hq. rewrite lookup_insert_ne; [done|]. by intros <-.
  - rewrite dom_insert_L, (sh_entries _ _ _ Hsh). set_solver.
  - intros q [->%elem_of_singleton|Hq]%elem_of_union; [by rewrite lookup_insert_eq|].
    rewrite lookup_insert_ne; [by apply Hsh|]. by intros <-.
Qed.

(** *** Finding *)

Lemma find_run t cs pre k :
  shape t cs pre →
  ∃ i c, hash_index chars long_bits t k = Some i ∧ cs !! i = Some c
    ∧ match content t cs !! ckey (key_type t) k with
      | Some kv => ∃ p, (p, kv) ∈ c ∧ ckey (key_type t) kv.1 = ckey (key_type t) k
          ∧ ∀ create prealloc m, find_function chars long_bits k create prealloc t m
            = (drop_preallocated prealloc;; mret (Some p, Some (buckets t, i))) t m
      | None =>
          ∀ create prealloc m, find_function chars long_bits k create prealloc t m
            = (if (create : bool) then add_entry chars long_bits i k prealloc else drop_preallocated prealloc;; mret (None, None)) t m
      end.
Proof.
  intros Hsh. destruct (bucket_of t cs pre k Hsh) as (i & c & Hi & Hc & Hfound). exists i, c. split; [done|]. split; [done|].
  destruct (array_bucket _ _ _ _ _ _ (sh_array _ _ _ Hsh) Hc) as (heads & first & Hh & Hf & Hch).
  assert (length c < S (size (entries t)))%nat as Hlen.
  { apply chain_length in Hch; [lia|]. eapply bucket_nodup; [apply Hsh|exact Hc]. }
  assert (∀ create prealloc m, find_function chars long_bits k create prealloc t m
    = match found_in (key_type t) k c with
      | Some p => drop_preallocated prealloc;; mret (Some p, Some (buckets t, i))
      | None => if (create : bool) then add_entry chars long_bits i k prealloc else drop_preallocated prealloc;; mret (None, None)
      end t m) as Hrun.
  { intros create prealloc m. unfold find_function. rewrite at_gets, (at_checked _ i) by done. unfold find_generic_function.
    rewrite at_gets, (read_run _ _ _ _ _ _ _ Hh Hf). rewrite (at_ok _ _ _ _ _ _ _ (search_run c _ _ k t m Hch Hlen)).
    by destruct (found_in _ k c). }
  destruct (content t cs !! _) as [kv|].
  - destruct Hfound as (p & Hp & Hfp & Hkv). exists p. rewrite Hfp in Hrun. done.
  - by rewrite Hfound in Hrun.
Qed.

Lemma drop_run t cs pre p m :
  shape t cs ({[p]} ∪ pre) → p ∉ pre →
  ∃ es, let t' := set_heap es (arrays t) t in drop_preallocated (Some p) t m = Ok tt t' m ∧ shape t' cs pre.
Proof.
  intros Hsh Hp. destruct (sh_pre _ _ _ Hsh p) as [Hpc Hpe]; [set_solver|]. exists (base.delete p (entries t)). split.
  - unfold drop_preallocated, _dbus_hash_table_free_preallocated_entry, dealloc_entry. rewrite at_assert by done.
    by rewrite (deref_run p _ _ _ _ Hpe), (at_checked _ p).
  - constructor; simpl; try apply Hsh.
    + eapply array_frame; [|reflexivity|apply Hsh]. intros q Hq. rewrite lookup_delete_ne; [done|]. by intros <-.
    + rewrite dom_delete_L, (sh_entries _ _ _ Hsh). rewrite <-(not_elem_of_list_to_set (C:=gset ptr)) in Hpc. set_solver.
    + intros q Hq. destruct (sh_pre _ _ _ Hsh q) as [Hq1 Hq2]; [set_solver|]. split; [done|]. rewrite lookup_delete_ne; [done|]. by intros <-.
Qed.

(** *** Setting the key and the value of an entry *)

Lemma chain_set es l1 : ∀ first p k0 v0 k v l2 n,
  chain es first (l1 ++ (p, (k0, v0)) :: l2) → NoDup (l1 ++ (p, (k0, v0)) :: l2).*1 → es !! p = Some (Entry n k0 v0) →
  chain (<[p := Entry n k v]> es) first (l1 ++ (p, (k, v)) :: l2).
Proof.
  induction l1 as [|[q [kq vq]] l1 IH]; intros first p k0 v0 k v l2 n Hl Hd Hp; simpl in Hl, Hd; apply list.NoDup_cons in Hd as [Hn Hd].
  - destruct Hl as (-> & n' & Hp' & Hl). simplify_eq. simpl. split; [done|]. eexists. rewrite lookup_insert_eq. split; [done|].
    eapply chain_frame; [|exact Hl]. intros q Hq. rewrite lookup_insert_ne; [done|]. by intros <-.
  - destruct Hl as (-> & n' & Hq & Hl). simpl. split; [done|]. exists n'. rewrite lookup_insert_ne; [split; [done|by eapply IH]|].
    intros <-. apply Hn. rewrite fmap_app. simpl. rewrite elem_of_app, elem_of_cons. auto.
Qed.

(** The cells before and after the change. *)
Lemma set_cells t cs pre i l1 p k0 v0 l2 k v :
  shape t cs pre → cs !! i = Some (l1 ++ (p, (k0, v0)) :: l2) → ckey (key_type t) k = ckey (key_type t) k0 →
  let cs' := <[i := l1 ++ (p, (k, v)) :: l2]> cs in
  (concat cs').*1 ≡ₚ (concat cs).*1 ∧ (cell_key t <$> concat cs') ≡ₚ (cell_key t <$> concat cs)
  ∧ content t cs' = <[ckey (key_type t) k := (k, v)]> (content t cs).
Proof.
  intros Hsh Hi Hk cs'. pose proof (concat_removed _ _ _ _ _ Hi) as H1. set (rest := <[i := l1 ++ l2]> cs) in H1.
  assert (cs' !! i = Some (l1 ++ (p, (k, v)) :: l2)) as Hi' by (apply list_lookup_insert_eq; by eapply lookup_lt_Some).
  pose proof (concat_removed _ _ _ _ _ Hi') as H2. unfold cs' in H2 at 2. rewrite list_insert_insert_eq in H2. fold rest in H2.
  assert (cell_key t (p, (k, v)) = cell_key t (p, (k0, v0))) as Hck by exact Hk.
  assert ((cell_key t <$> concat cs') ≡ₚ (cell_key t <$> concat cs)) as Hkeys.
  { rewrite H1, H2. simpl. by rewrite Hck. }
  split; [by rewrite H1, H2|]. split; [done|].
  destruct (content_cons t cs _ rest (sh_keys _ _ _ Hsh) H1) as [-> _].
  destruct (content_cons t cs' (p, (k, v)) rest) as [-> _]; [rewrite Hkeys; apply Hsh|exact H2|]. rewrite <-Hck. symmetry. apply insert_insert_eq.
Qed.

Lemma shape_set t cs pre i l1 p k0 v0 l2 n k v cl :
  shape t cs pre → cs !! i = Some (l1 ++ (p, (k0, v0)) :: l2) → entries t !! p = Some (Entry n k0 v0) →
  ckey (key_type t) k = ckey (key_type t) k0 →
  shape (patch (<[p := Entry n k v]> (entries t)) (arrays t) (n_entries t) cl t) (<[i := l1 ++ (p, (k, v)) :: l2]> cs) pre.
Proof.
  intros Hsh Hi Hp Hk. destruct (set_cells t cs pre i l1 p k0 v0 l2 k v Hsh Hi Hk) as (Hfst & Hkeys & _).
  destruct (array_bucket _ _ _ _ _ _ (sh_array _ _ _ Hsh) Hi) as (heads & first & Hh & Hf & Hch).
  assert (p ∈ (l1 ++ (p, (k0, v0)) :: l2).*1) as Hpin by (rewrite fmap_app; simpl; rewrite elem_of_app, elem_of_cons; auto).
  assert (NoDup (l1 ++ (p, (k0, v0)) :: l2).*1) as Hd.
  { eapply bucket_nodup; [apply Hsh|exact Hi]. }
  constructor; simpl; try apply Hsh.
  - replace (arrays t) with (alter (<[i := first]>) (buckets t) (arrays t)).
    + eapply array_update; [apply Hsh|exact Hi|by eapply chain_set|]. intros j d x Hj Hne Hx. rewrite lookup_insert_ne; [done|].
      intros <-. eapply other_bucket; [apply Hsh|exact Hi|exact Hj|exact Hne|exact Hpin|exact Hx].
    + apply alter_id. intros l Hl. rewrite Hh in Hl. simplify_eq. by apply list_insert_id.
  - rewrite Hfst. apply Hsh.
  - change (NoDup (cell_key t <$> concat (<[i := l1 ++ (p, (k, v)) :: l2]> cs))). rewrite Hkeys. apply Hsh.
  - intros j c x Hj Hx. destruct (decide (j = i)) as [-> | Hne].
    + rewrite list_lookup_insert_eq in Hj by (by eapply lookup_lt_Some). simplify_eq. rewrite elem_of_app, elem_of_cons in Hx.
      destruct Hx as [Hx|[-> | Hx]].
      * apply (sh_index _ _ _ Hsh i _ x Hi). rewrite elem_of_app. auto.
      * change (hash_index chars long_bits t k = Some i). rewrite (hash_index_ckey t _ _ Hk).
        apply (sh_index _ _ _ Hsh i _ (p, (k0, v0)) Hi). rewrite elem_of_app, elem_of_cons. auto.
      * apply (sh_index _ _ _ Hsh i _ x Hi). rewrite elem_of_app, elem_of_cons. auto.
    + rewrite list_lookup_insert_ne in Hj by done. by apply (sh_index _ _ _ Hsh j c x).
  - rewrite dom_insert_L. apply elem_of_dom_2 in Hp as Hpd. rewrite (list_to_set_perm_L _ _ Hfst), <-(sh_entries _ _ _ Hsh). set_solver.
  - intros q Hq. destruct (sh_pre _ _ _ Hsh q Hq) as [Hq1 Hq2]. rewrite Hfst. split; [done|]. rewrite lookup_insert_ne; [done|].
    intros <-. apply Hq1. rewrite (concat_at cs i _ Hi), fmap_app. by apply elem_of_app; left.
  - rewrite (sh_count _ _ _ Hsh). f_equal. apply Permutation_length in Hfst. by rewrite !length_fmap in Hfst.
  - rewrite length_insert. apply Hsh.
Qed.

(** The calls when a key and a value take the place of others. *)
Definition replaced (t : DBusHashTable) (k0 v0 k v : Z) : list call :=
  (if v0 =? v then [] else if free_value_function t then [FreeValue v0] else []) ++
  (if k0 =? k then [] else if free_key_function t then [FreeKey k0] else []).

Lemma set_entry_run t cs pre p k0 v0 k v m :
  shape t cs pre → (p, (k0, v0)) ∈ concat cs → ckey (key_type t) k = ckey (key_type t) k0 →
  ∃ es cs', let t' := patch es (arrays t) (n_entries t) (replaced t k0 v0 k v ++ calls t) t in
    set_entry (Some p) k v t m = Ok tt t' m ∧ shape t' cs' pre ∧ content t' cs' = <[ckey (key_type t) k := (k, v)]> (content t cs).
Proof.
  intros Hsh Hin Hk. apply list_elem_of_In, in_concat_inv in Hin as (i & c & Hi & Hin). apply list_elem_of_split in Hin as (l1 & l2 & ->).
  destruct (array_bucket _ _ _ _ _ _ (sh_array _ _ _ Hsh) Hi) as (heads & first & Hh & Hf & Hch).
  destruct (chain_entry _ _ _ p k0 v0 Hch) as [n Hp]; [rewrite elem_of_app, elem_of_cons; auto|].
  exists (<[p := Entry n k v]> (entries t)), (<[i := l1 ++ (p, (k, v)) :: l2]> cs). split; [|split].
  - unfold set_entry. rewrite (deref_run p _ _ _ _ Hp). cbn [key value].
    set (t1 := patch (entries t) (arrays t) (n_entries t) (replaced t k0 v0 k v ++ calls t) t).
    assert (∀ K : TM unit, ((if k0 =? k then mret tt else call_free_key k0);; (if v0 =? v then mret tt else call_free_value v0);; K) t m
      = K t1 m) as ->.
    { intros K. unfold t1, replaced, call_free_key, call_free_value. destruct (k0 =? k), (v0 =? v), t as [? ? ? ? ? ? ? ? ? ? ? [] [] ?]; done. }
    rewrite (store_run p (Entry n k0 v0)) by exact Hp. rewrite <-(run_ret (store_entry _ _)).
    rewrite (store_run p (Entry n k v0)) by apply lookup_insert_eq. unfold t1.
    rewrite <-(insert_insert_eq (entries t) p (Entry n k v) (Entry n k v0)). reflexivity.
  - by eapply shape_set.
  - by destruct (set_cells t cs pre i l1 p k0 v0 l2 k v Hsh Hi Hk) as (_ & _ & ?).
Qed.

(** *** The operations *)

(** The table [t] stands for the map [M]. *)
Definition represents (t : DBusHashTable) (M : gmap (bytes + Z) (Z * Z)) : Prop := ∃ cs, shape t cs ∅ ∧ content t cs = M.

Lemma represents_size t M : represents t M → n_entries t = Z.of_nat (size M).
Proof.
  intros (cs & Hsh & <-). unfold content. rewrite (sh_count _ _ _ Hsh), map_size_list_to_map.
  - by rewrite length_fmap.
  - rewrite <-list_fmap_compose. apply Hsh.
Qed.

Lemma lookup_as_run t M k m :
  represents t M → lookup_as chars long_bits (key_type t) k t m = Ok (default 0 (snd <$> M !! ckey (key_type t) k)) t m.
Proof.
  intros (cs & Hsh & <-). unfold lookup_as, check_type. rewrite (at_ok _ tt t m) by (rewrite at_gets; by rewrite bool_decide_true).
  destruct (find_run t cs ∅ k Hsh) as (i & c & Hi & Hc & Hf). destruct (content t cs !! _) as [[k0 v0]|].
  - destruct Hf as (p & Hp & _ & Hf). rewrite (at_ok _ (Some p, Some (buckets t, i)) t m) by (by rewrite Hf).
    destruct (array_bucket _ _ _ _ _ _ (sh_array _ _ _ Hsh) Hc) as (heads & first & _ & _ & Hch).
    destruct (chain_entry _ _ _ p k0 v0 Hch Hp) as [n Hn]. by rewrite (deref_run p _ _ _ _ Hn).
  - by rewrite (at_ok _ (None, None) t m) by (by rewrite Hf).
Qed.

Lemma remove_as_run t M k m :
  represents t M →
  ∃ t', remove_as chars long_bits (key_type t) k t m = Ok (bool_decide (is_Some (M !! ckey (key_type t) k))) t' m
    ∧ represents t' (base.delete (ckey (key_type t) k) M) ∧ kept t t'
    ∧ calls t' = match M !! ckey (key_type t) k with Some (k0, v0) => freed t k0 v0 | None => [] end ++ calls t.
Proof.
  intros (cs & Hsh & <-). unfold remove_as, check_type. rewrite (at_ok _ tt t m) by (rewrite at_gets; by rewrite bool_decide_true).
  destruct (find_run t cs ∅ k Hsh) as (i & c & Hi & Hc & Hf). destruct (content t cs !! _) as [[k0 v0]|] eqn:Ek.
  - destruct Hf as (p & Hp & Hk & Hf). rewrite (at_ok _ (Some p, Some (buckets t, i)) t m) by (by rewrite Hf).
    apply list_elem_of_split in Hp as (l1 & l2 & ->). destruct (remove_entry_run t cs ∅ i l1 p k0 v0 l2 m Hsh Hc) as (es & ars & E & Hs & Hcont).
    eexists. split; [by rewrite (at_ok _ _ _ _ _ _ _ E)|]. split; [|done]. simpl in Hk. rewrite <-Hk. by exists (<[i := l1 ++ l2]> cs).
  - exists t. split; [by rewrite (at_ok _ (None, None) t m) by (by rewrite Hf)|]. split; [|done]. exists cs. split; [done|].
    by rewrite delete_id.
Qed.

(** A new entry, and then its value. *)
Lemma add_set_run t cs p k v idx m :
  shape t cs ({[p]} ∪ ∅) → content t cs !! ckey (key_type t) k = None → hash_index chars long_bits t k = Some idx →
  n_entries t + 1 < max_entries →
  ∃ t1 m1 t', add_allocated_entry chars long_bits (Some p) idx k t m = Ok (buckets t, idx) t1 m1
    ∧ set_entry (Some p) k v t1 m1 = Ok tt t' m1 ∧ represents t' (<[ckey (key_type t) k := (k, v)]> (content t cs)) ∧ kept t t'
    ∧ calls t' = replaced t k 0 k v ++ calls t ∧ (may_fail m1 → may_fail m).
Proof.
  intros Hsh Hk Hx Hmax. destruct (add_allocated_run t cs ∅ p k idx m Hsh (not_elem_of_empty p) Hk Hx Hmax) as (t1 & cs1 & m1 & E & Hs1 & Hperm & (K1 & K2 & K3 & K4) & Hcl & Hm & _).
  destruct (set_entry_run t1 cs1 ∅ p k 0 k v m1 Hs1) as (es & cs' & Es & Hs & Hcont); [rewrite Hperm; by apply elem_of_cons; left|done|].
  exists t1, m1. eexists. split; [exact E|]. split; [exact Es|]. split.
  - exists cs'. split; [exact Hs|]. rewrite Hcont. destruct (content_cons t1 cs1 _ cs (sh_keys _ _ _ Hs1) Hperm) as [-> _].
    unfold cell_key. simpl. rewrite insert_insert_eq, K1. unfold content, cell_key. by rewrite K1.
  - unfold kept, replaced, patch. simpl. rewrite K1, K2, K3, K4, Hcl. done.
Qed.

(** After an insertion: the entry is set, or memory was refused and nothing has changed. *)
Definition inserted (t : DBusHashTable) (M : gmap (bytes + Z) (Z * Z)) (k v : Z) (m : mem) (b : bool) (t' : DBusHashTable) (m' : mem) : Prop :=
  let '(k0, v0) := default (k, 0) (M !! ckey (key_type t) k) in
  kept t t' ∧ (may_fail m' → may_fail m)
  ∧ if b then represents t' (<[ckey (key_type t) k := (k, v)]> M) ∧ calls t' = replaced t k0 v0 k v ++ calls t
    else represents t' M ∧ calls t' = calls t ∧ may_fail m.

Lemma insert_as_run t M k v m :
  represents t M → Z.of_nat (size M) + 1 < max_entries →
  ∃ b t' m', insert_as chars long_bits (key_type t) k v t m = Ok b t' m' ∧ inserted t M k v m b t' m'.
Proof.
  intros HM Hmax. rewrite <-(represents_size t M HM) in Hmax. destruct HM as (cs & Hsh & <-). unfold insert_as, check_type, inserted.
  rewrite (at_ok _ tt t m) by (rewrite at_gets; by rewrite bool_decide_true).
  destruct (find_run t cs ∅ k Hsh) as (i & c & Hi & Hc & Hf). destruct (content t cs !! _) as [[k0 v0]|] eqn:Ek; cbn [default].
  - destruct Hf as (p & Hp & Hk & Hf). rewrite (at_ok _ (Some p, Some (buckets t, i)) t m) by (by rewrite Hf).
    destruct (set_entry_run t cs ∅ p k0 v0 k v m Hsh) as (es & cs' & E & Hs & Hcont); [by eapply in_concat|by symmetry|].
    exists true. do 2 eexists. split; [by rewrite (at_ok _ _ _ _ _ _ _ E)|]. split; [done|]. split; [done|]. split; [by exists cs'|done].
  - pose proof (alloc_run t cs ∅ m Hsh) as Ha. pose proof (refused m) as Hr. pose proof (later_failure m) as Hl.
    destruct (alloc m) as [[] m']; cbn [fst snd] in *.
    + destruct Ha as (p & es & Ea & Hs1 & _).
      destruct (add_set_run _ cs p k v i m' Hs1 Ek Hi Hmax) as (t1 & m1 & t' & E1 & E2 & HM & Hkept & Hcl & Hm).
      exists true, t', m1. split; [|split; [done|split; [auto|done]]].
      rewrite (at_ok _ (Some p, Some (buckets t, i)) t1 m1); [by rewrite (at_ok _ _ _ _ _ _ _ E2)|].
      rewrite Hf. unfold add_entry. rewrite (at_ok _ _ _ _ _ _ _ Ea). by rewrite (at_ok _ _ _ _ _ _ _ E1).
    + exists false, t, m'. split; [|split; [done|split; [done|split; [by exists cs|auto]]]].
      rewrite (at_ok _ (None, None) t m'); [done|]. rewrite Hf. unfold add_entry. by rewrite (at_ok _ _ _ _ _ _ _ Ha).
Qed.

Lemma insert_string_run t M k v m :
  key_type t = DBUS_HASH_STRING → represents t M → Z.of_nat (size M) + 1 < max_entries →
  ∃ b t' m', _dbus_hash_table_insert_string chars long_bits k v t m = Ok b t' m' ∧ inserted t M k v m b t' m'.
Proof.
  intros Hty HM Hmax. rewrite <-(represents_size t M HM) in Hmax. destruct HM as (cs & Hsh & <-).
  unfold _dbus_hash_table_insert_string, _dbus_hash_table_preallocate_entry, check_type, inserted.
  rewrite (at_ok _ tt t m) by (rewrite at_gets; by rewrite bool_decide_true).
  pose proof (alloc_run t cs ∅ m Hsh) as Ha. pose proof (refused m) as Hr. pose proof (later_failure m) as Hl.
  destruct (alloc m) as [[] m']; cbn [fst snd] in *.
  2: { exists false, t, m'. rewrite (at_ok _ _ _ _ _ _ _ Ha). destruct (default _ _) as [k0 v0]. split; [done|].
       split; [done|]. split; [done|]. split; [by exists cs|auto]. }
  destruct Ha as (p & es & Ea & Hs1 & _). rewrite (at_ok _ _ _ _ _ _ _ Ea). set (t1 := set_heap _ _ t) in *.
  change (content t cs) with (content t1 cs). change (ckey (key_type t) k) with (ckey (key_type t1) k).
  unfold _dbus_hash_table_insert_string_preallocated, check_type.
  destruct (find_run t1 cs _ k Hs1) as (i & c & Hi & Hc & Hf). destruct (content t1 cs !! _) as [[k0 v0]|] eqn:Ek; cbn [default].
  - destruct Hf as (q & Hq & Hk & Hf). destruct (drop_run t1 cs ∅ p m' Hs1 (not_elem_of_empty p)) as (es2 & Ed & Hs2).
    destruct (set_entry_run _ cs ∅ q k0 v0 k v m' Hs2) as (es3 & cs3 & E & Hs & Hcont); [by eapply in_concat|by symmetry|].
    exists true. do 2 eexists. split; [|split; [|split; [exact Hl|split; [exists cs3; split; [exact Hs|exact Hcont]|]]]]; [|done|done].
    erewrite at_ok; [reflexivity|]. rewrite (at_ok _ tt t1 m') by (rewrite at_gets; by rewrite bool_decide_true). rewrite at_assert by done.
    erewrite at_ok; [|rewrite Hf, (at_ok _ _ _ _ _ _ _ Ed); reflexivity]. cbv beta iota. rewrite at_assert by done. exact E.
  - destruct (add_set_run t1 cs p k v i m' Hs1 Ek Hi Hmax) as (t2 & m2 & t' & E1 & E2 & HM & Hkept & Hcl & Hm).
    exists true, t', m2. split; [|split; [exact Hkept|split; [auto|done]]].
    erewrite at_ok; [reflexivity|]. rewrite (at_ok _ tt t1 m') by (rewrite at_gets; by rewrite bool_decide_true). rewrite at_assert by done.
    rewrite (at_ok _ (Some p, Some (buckets t1, i)) t2 m2); [|rewrite Hf; unfold add_entry; by rewrite (at_ok _ (Some p) t1 m'), (at_ok _ _ _ _ _ _ _ E1)].
    cbv beta iota. rewrite at_assert by done. exact E2.
Qed.

(** ** Sequences of operations *)

Inductive hash_op := OpLookup (k : Z) | OpRemove (k : Z) | OpInsert (k v : Z) | OpCount.
Inductive answer := Value (v : Z) | Done (b : bool).

Definition run_op (ty : DBusHashType) (op : hash_op) : TM answer :=
  match op with
  | OpLookup k => v ← lookup_as chars long_bits ty k; mret (Value v)
  | OpRemove k => b ← remove_as chars long_bits ty k; mret (Done b)
  | OpInsert k v =>
      b ← (if decide (ty = DBUS_HASH_STRING) then _dbus_hash_table_insert_string chars long_bits k v
           else insert_as chars long_bits ty k v);
      mret (Done b)
  | OpCount => n ← _dbus_hash_table_get_n_entries; mret (Value n)
  end.

Fixpoint run_ops (ty : DBusHashType) (ops : list hash_op) : TM (list answer) :=
  match ops with
  | [] => mret []
  | op :: ops' => a ← run_op ty op; l ← run_ops ty ops'; mret (a :: l)
  end.

(** What a map answers, the map after it, and the keys and values to free. *)
Definition spec_op (t : DBusHashTable) (op : hash_op) (M : gmap (bytes + Z) (Z * Z)) : answer * gmap (bytes + Z) (Z * Z) * list call :=
  match op with
  | OpLookup k => (Value (default 0 (snd <$> M !! ckey (key_type t) k)), M, [])
  | OpRemove k =>
      match M !! ckey (key_type t) k with
      | Some (k0, v0) => (Done true, base.delete (ckey (key_type t) k) M, freed t k0 v0)
      | None => (Done false, M, [])
      end
  | OpInsert k v =>
      let '(k0, v0) := default (k, 0) (M !! ckey (key_type t) k) in
      (Done true, <[ckey (key_type t) k := (k, v)]> M, replaced t k0 v0 k v)
  | OpCount => (Value (Z.of_nat (size M)), M, [])
  end.

(** The answers to a sequence of operations; an insertion may be refused if memory may be. *)
Inductive behaves (t : DBusHashTable) (oom : Prop) :
  gmap (bytes + Z) (Z * Z) → list hash_op → list answer → gmap (bytes + Z) (Z * Z) → list call → Prop :=
| behaves_nil M : behaves t oom M [] [] M []
| behaves_op M op a M1 cl1 ops l M2 cl2 :
    spec_op t op M = (a, M1, cl1) → behaves t oom M1 ops l M2 cl2 → behaves t oom M (op :: ops) (a :: l) M2 (cl2 ++ cl1)
| behaves_refused M k v ops l M2 cl2 :
    oom → behaves t oom M ops l M2 cl2 → behaves t oom M (OpInsert k v :: ops) (Done false :: l) M2 cl2.

Lemma run_op_refines t M op m :
  represents t M → Z.of_nat (size M) + 1 < max_entries →
  ∃ a t' m' M' cl, run_op (key_type t) op t m = Ok a t' m' ∧ represents t' M' ∧ kept t t' ∧ (may_fail m' → may_fail m)
    ∧ calls t' = cl ++ calls t
    ∧ (spec_op t op M = (a, M', cl) ∨ (∃ k v, op = OpInsert k v) ∧ a = Done false ∧ M' = M ∧ cl = [] ∧ may_fail m).
Proof.
  intros HM Hmax. destruct op as [k|k|k v|]; cbn [run_op spec_op].
  - do 5 eexists. split; [by rewrite (at_ok _ _ _ _ _ _ _ (lookup_as_run t M k m HM))|].
    split; [exact HM|]. split; [done|]. split; [done|]. split; [|by left]. done.
  - destruct (remove_as_run t M k m HM) as (t' & E & HM' & Hk & Hcl). do 5 eexists. split; [by rewrite (at_ok _ _ _ _ _ _ _ E)|].
    split; [exact HM'|]. split; [done|]. split; [done|]. split; [exact Hcl|]. left.
    destruct (M !! _) as [[k0 v0]|] eqn:Ek; [by rewrite bool_decide_true|]. rewrite bool_decide_false by (by intros [? ?]). by rewrite delete_id.
  - assert (∃ b t' m', (if decide (key_type t = DBUS_HASH_STRING) then _dbus_hash_table_insert_string chars long_bits k v
      else insert_as chars long_bits (key_type t) k v) t m = Ok b t' m' ∧ inserted t M k v m b t' m') as (b & t' & m' & E & Hins).
    { case_decide; [by apply insert_string_run|by apply insert_as_run]. }
    unfold inserted in Hins. destruct (default _ _) as [k0 v0]. destruct Hins as (Hk & Hm & Hb). destruct b; destruct Hb as (HM' & Hcl).
    + do 5 eexists. split; [by rewrite (at_ok _ _ _ _ _ _ _ E)|]. split; [exact HM'|]. split; [done|]. split; [done|].
      split; [exact Hcl|by left].
    + exists (Done false), t', m', M, []. split; [by rewrite (at_ok _ _ _ _ _ _ _ E)|]. split; [done|]. split; [done|]. split; [done|].
      split; [by apply Hcl|]. right. split; [by eexists _, _|]. naive_solver.
  - exists (Value (Z.of_nat (size M))), t, m, M, []. rewrite <-(represents_size t M HM) at 1. split; [done|]. split; [done|]. split; [done|].
    split; [done|]. split; [done|by left].
Qed.

Lemma spec_size t op M a M' cl : spec_op t op M = (a, M', cl) → (size M' <= S (size M))%nat.
Proof.
  destruct op as [k|k|k v|]; simpl; intros E; simplify_eq; [lia| | |lia].
  - destruct (M !! _) as [[k0 v0]|] eqn:Ek; simplify_eq; [|lia]. rewrite map_size_delete, Ek. simpl. lia.
  - destruct (default _ _) as [k0 v0]. simplify_eq. rewrite map_size_insert. destruct (M !! _); simpl; lia.
Qed.

Lemma spec_kept t t' op M : kept t t' → spec_op t' op M = spec_op t op M.
Proof. intros (K1 & K2 & K3 & K4). unfold spec_op, freed, replaced. by rewrite K1, K2, K3. Qed.

Lemma run_ops_behaves t0 ops : ∀ t M m oom,
  represents t M → kept t0 t → Z.of_nat (size M + length ops) < max_entries → (may_fail m → oom) →
  ∃ l t' m' M' cl, run_ops (key_type t) ops t m = Ok l t' m' ∧ represents t' M' ∧ kept t0 t' ∧ calls t' = cl ++ calls t
    ∧ behaves t0 oom M ops l M' cl.
Proof.
  induction ops as [|op ops IH]; intros t M m oom HM Hk Hmax Hm; cbn [run_ops].
  - exists [], t, m, M, []. split_and!; try done. constructor.
  - simpl in Hmax. destruct (run_op_refines t M op m HM) as (a & t1 & m1 & M1 & cl1 & E & HM1 & Hk1 & Hm1 & Hcl & Hspec); [lia|].
    assert (kept t0 t1) as Hk01 by (unfold kept in *; naive_solver congruence).
    assert (size M1 <= S (size M))%nat as Hsz.
    { destruct Hspec as [Hspec|(_ & _ & -> & _)]; [by eapply spec_size|lia]. }
    destruct (IH t1 M1 m1 oom HM1 Hk01) as (l & t' & m' & M' & cl & E' & HM' & Hk' & Hcl' & Hb); [lia|tauto|].
    replace (key_type t1) with (key_type t) in E' by (symmetry; apply Hk1).
    exists (a :: l), t', m', M', (cl ++ cl1). split; [by rewrite (at_ok _ _ _ _ _ _ _ E), (at_ok _ _ _ _ _ _ _ E')|].
    split; [done|]. split; [done|]. split; [by rewrite Hcl', Hcl, app_assoc|]. destruct Hspec as [Hspec|((k & v & ->) & -> & -> & -> & Hf)].
    + rewrite (spec_kept t0 t) in Hspec by done. by eapply behaves_op.
    + rewrite app_nil_r. constructor; auto.
Qed.

Lemma new_run ty fk fv m :
  ty ≠ DBUS_HASH_TWO_STRINGS →
  match _dbus_hash_table_new ty fk fv m with
  | Ok _ t m' => represents t ∅ ∧ key_type t = ty ∧ calls t = [] ∧ (may_fail m' → may_fail m)
  | Failed _ m' => may_fail m
  | Ub => False
  end.
Proof.
  intros Hty. unfold _dbus_hash_table_new. set (t := Table _ _ _ _ _ _ _ _ _ _ _ _ _ _).
  assert (represents t ∅) as HM.
  { exists (replicate 4 []). split; [|done]. constructor; simpl; try done; try constructor.
    - exists (replicate 4 None). split; [done|]. repeat constructor.
    - intros i c x Hi Hx. apply (lookup_replicate 4) in Hi as [-> _]. by apply elem_of_nil in Hx.
    - exists 0%nat. unfold sizes_at. simpl. split_and!; try done; try lia. }
  cbn [requests]. unfold mbind, M_bind, request, mret, M_ret. pose proof (refused m) as Hr. pose proof (later_failure m) as Hl.
  destruct (alloc m) as [[] m1]; [|auto]. pose proof (refused m1) as Hr1. pose proof (later_failure m1) as Hl1.
  destruct (alloc m1) as [[] m2]; cbn [fst snd] in *; [|auto]. cbn. split_and!; auto.
Qed.

(** C35: A new hash table (keys that are strings, integers or pointers; fewer operations than
    would overflow the sizes) is a finite map: whatever memory is refused, and however often
    the array of buckets grows and shrinks on the way, every sequence of lookups, insertions,
    removals and counts gives the answers of the map, never reads freed memory, and the
    functions that free keys and values are called for exactly the keys and values that leave
    the map (and for the value NULL that a new entry starts with), in order; an insertion
    fails only if memory is refused, and changes nothing then. *)
Theorem hash_table_is_map ty fk fv ops m :
  ty ≠ DBUS_HASH_TWO_STRINGS → Z.of_nat (length ops) < max_entries →
  match _dbus_hash_table_new ty fk fv m with
  | Ok _ t m1 => ∃ l t' m' M,
      run_ops ty ops t m1 = Ok l t' m' ∧ behaves t (may_fail m) ∅ ops l M (calls t') ∧ n_entries t' = Z.of_nat (size M)
  | Failed _ _ => may_fail m
  | Ub => False
  end.
Proof.
  intros Hty Hmax. pose proof (new_run ty fk fv m Hty) as Hnew. destruct (_dbus_hash_table_new ty fk fv m) as [[] t m1| |]; try done.
  destruct Hnew as (HM & Ht & Hcl & Hm). destruct (run_ops_behaves t ops t ∅ m1 (may_fail m) HM) as (l & t' & m' & M' & cl & E & HM' & _ & Hcl' & Hb); [done| |done|].
  - rewrite map_size_empty. lia.
  - exists l, t', m', M'. rewrite Hcl, app_nil_r in Hcl'. rewrite <-Ht, Hcl'. split; [done|]. split; [done|by apply represents_size].
Qed.

(** ** Iterators *)

Lemma chain_first es first l : chain es first l → first = fst <$> head l.
Proof. by destruct l as [|[p [k v]] l]; simpl; [|intros [-> _]]. Qed.

Lemma chain_next es l1 : ∀ first p k v l2, chain es first (l1 ++ (p, (k, v)) :: l2) → es !! p = Some (Entry (fst <$> head l2) k v).
Proof.
  induction l1 as [|[q [kq vq]] l1 IH]; intros first p k v l2; simpl; intros (-> & n & Hp & Hl); [|by eapply IH].
  by rewrite <-(chain_first _ _ _ Hl).
Qed.

(** The iterator is going to visit [rest] in its bucket and then the buckets that follow. *)
Record iterating (t : DBusHashTable) (cs : list (list cell)) (it : DBusRealHashIter) (rest : list cell) : Prop := {
  ir_table : it_table it = true;
  ir_count : n_entries t <= n_entries_on_init it;
  ir_next : it_next_entry it = fst <$> head rest;
  ir_range : (it_next_bucket it <= length cs)%nat;
  ir_bucket : rest = [] ∨ ∃ i l1, it_bucket it = Some (buckets t, i) ∧ it_next_bucket it = S i ∧ cs !! i = Some (l1 ++ rest)
}.

Definition todo (cs : list (list cell)) (it : DBusRealHashIter) (rest : list cell) : list cell :=
  rest ++ concat (drop (it_next_bucket it) cs).

Lemma iter_advance_run t cs pre m : ∀ n it rest,
  shape t cs pre → iterating t cs it rest → (length cs < n + it_next_bucket it)%nat →
  match todo cs it rest with
  | [] => ∃ it', iter_advance n it t m = Ok (false, it') t m
  | _ => ∃ it' rest', iter_advance n it t m = Ok (true, it') t m ∧ iterating t cs it' rest' ∧ rest' ≠ [] ∧ todo cs it' rest' = todo cs it rest
  end.
Proof.
  induction n as [|n IH]; intros it rest Hsh Hit Hn; [pose proof (ir_range _ _ _ _ Hit); lia|].
  pose proof (ir_next _ _ _ _ Hit) as Hnx. cbn [iter_advance]. destruct rest as [|[p kv] rest]; simpl in Hnx; rewrite Hnx.
  2: { exists it, ((p, kv) :: rest). by split_and!. }
  rewrite at_gets, <-(sh_length _ _ _ Hsh). destruct (Z.leb_spec (Z.of_nat (length cs)) (Z.of_nat (it_next_bucket it))) as [Hge|Hlt].
  - unfold todo. rewrite drop_ge by lia. by eexists.
  - destruct (lookup_lt_is_Some_2 cs (it_next_bucket it)) as [c Hc]; [lia|].
    destruct (array_bucket _ _ _ _ _ _ (sh_array _ _ _ Hsh) Hc) as (heads & first & Hh & Hf & Hch). cbv zeta.
    rewrite (read_run _ _ _ _ _ _ _ Hh Hf). set (it1 := Iter _ _ _ _ _ _).
    assert (iterating t cs it1 c) as Hit1.
    { constructor; simpl; try apply Hit; [by eapply chain_first|lia|]. right. by exists (it_next_bucket it), []. }
    assert (todo cs it [] = todo cs it1 c) as ->.
    { unfold todo. simpl. by rewrite (drop_S _ _ _ Hc). }
    apply (IH it1 c Hsh Hit1). simpl. lia.
Qed.

(** An iterator visits the next entry, or there is none. *)
Lemma iter_next_run t cs pre it rest m :
  shape t cs pre → iterating t cs it rest →
  match todo cs it rest with
  | [] => ∃ it', _dbus_hash_iter_next it t m = Ok (false, it') t m
  | (p, (k, v)) :: next => ∃ it' i l1 rest',
      _dbus_hash_iter_next it t m = Ok (true, it') t m ∧ iterating t cs it' rest' ∧ todo cs it' rest' = next
      ∧ it_entry it' = Some p ∧ it_bucket it' = Some (buckets t, i) ∧ it_next_bucket it' = S i ∧ cs !! i = Some (l1 ++ (p, (k, v)) :: rest')
  end.
Proof.
  intros Hsh Hit. pose proof (iter_advance_run t cs pre m (S (Z.to_nat (n_buckets t))) it rest Hsh Hit) as Hadv.
  specialize (Hadv ltac:(pose proof (sh_length _ _ _ Hsh); lia)).
  unfold _dbus_hash_iter_next. rewrite at_assert by apply Hit. rewrite at_gets, at_assert by (apply Z.leb_le, Hit).
  destruct (todo cs it rest) as [|[p [k v]] next].
  - destruct Hadv as [it' E]. exists it'. by rewrite (at_ok _ _ _ _ _ _ _ E).
  - destruct Hadv as (it' & rest' & E & Hit' & Hne & Htodo). destruct rest' as [|[q [kq vq]] rest']; [done|].
    unfold todo in Htodo. simpl in Htodo. injection Htodo as -> -> -> Htodo. destruct (ir_bucket _ _ _ _ Hit') as [?|(i & l1 & Hb & Hnb & Hi)]; [done|].
    destruct (array_bucket _ _ _ _ _ _ (sh_array _ _ _ Hsh) Hi) as (heads & first & _ & _ & Hch). apply chain_next in Hch as Hp.
    pose proof (ir_next _ _ _ _ Hit') as Hnx. simpl in Hnx.
    exists (Iter (it_table it') (it_bucket it') (Some p) (fst <$> head rest') (it_next_bucket it') (n_entries_on_init it')), i, l1, rest'.
    split.
    { rewrite (at_ok _ _ _ _ _ _ _ E). cbv beta iota. rewrite at_assert by (by rewrite Hb). rewrite Hnx. by rewrite (deref_run p _ _ _ _ Hp). }
    split_and!; try done. constructor; simpl; try apply Hit'; [done|]. right. exists i, (l1 ++ [(p, (k, v))]). by rewrite <-app_assoc.
Qed.

(** The iterator that removes its entry. *)
Lemma iter_remove_run t cs it rest i l1 p k v m :
  shape t cs ∅ → iterating t cs it rest → it_entry it = Some p → it_bucket it = Some (buckets t, i) → it_next_bucket it = S i →
  cs !! i = Some (l1 ++ (p, (k, v)) :: rest) →
  ∃ es ars, let t' := patch es ars (n_entries t - 1) (freed t k v ++ calls t) t in let cs' := <[i := l1 ++ rest]> cs in
    _dbus_hash_iter_remove_entry it t m = Ok (without_entry it) t' m ∧ shape t' cs' ∅ ∧ iterating t' cs' (without_entry it) rest
    ∧ todo cs' (without_entry it) rest = todo cs it rest.
Proof.
  intros Hsh Hit He Hb Hnb Hi. destruct (remove_entry_run t cs ∅ i l1 p k v rest m Hsh Hi) as (es & ars & E & Hs & _).
  exists es, ars. split_and!; [|exact Hs| |].
  - unfold _dbus_hash_iter_remove_entry. rewrite at_assert by apply Hit. rewrite Hb, He. by rewrite (at_ok _ _ _ _ _ _ _ E).
  - constructor; simpl; try apply Hit.
    + pose proof (ir_count _ _ _ _ Hit). lia.
    + rewrite length_insert. apply Hit.
    + right. exists i, l1. split; [done|]. split; [done|]. apply list_lookup_insert_eq. by eapply lookup_lt_Some.
  - unfold todo. simpl. rewrite Hnb. by rewrite drop_insert_lt by lia.
Qed.

(** [while (_dbus_hash_iter_next (&iter)) ...] with the entries that satisfy [f] removed. *)
Fixpoint sweep (f : Z * Z → bool) (n : nat) (it : DBusRealHashIter) : TM (list (Z * Z)) :=
  match n with
  | O => assert_ false;; mret []
  | S n' =>
      '(more, it) ← _dbus_hash_iter_next it;
      if (more : bool) then
        k ← _dbus_hash_iter_get_string_key it;
        v ← _dbus_hash_iter_get_value it;
        it ← (if f (k, v) then _dbus_hash_iter_remove_entry it else mret it);
        l ← sweep f n' it;
        mret ((k, v) :: l)
      else mret []
  end.

(** The calls for the entries that are removed, the last one first. *)
Definition swept (t : DBusHashTable) (f : Z * Z → bool) (l : list (Z * Z)) : list call :=
  foldl (λ cl kv, (if f kv then freed t kv.1 kv.2 else []) ++ cl) [] l.

Lemma swept_cons t f kv l : swept t f (kv :: l) = swept t f l ++ (if f kv then freed t kv.1 kv.2 else []).
Proof.
  unfold swept. simpl. rewrite app_nil_r. set (cl := if f kv then _ else _). clearbody cl. revert cl.
  induction l as [|kv' l IH]; intros cl; [done|]. simpl. by rewrite IH, (IH (_ ++ [])), app_nil_r, app_assoc.
Qed.

Lemma sweep_run f n : ∀ t cs it rest D m,
  shape t cs ∅ → iterating t cs it rest → concat cs ≡ₚ D ++ todo cs it rest → (length (todo cs it rest) < n)%nat →
  ∃ es ars c cs', let l := (todo cs it rest).*2 in let t' := patch es ars c (swept t f l ++ calls t) t in
    sweep f n it t m = Ok l t' m ∧ shape t' cs' ∅ ∧ concat cs' ≡ₚ D ++ filter (λ x, f x.2 = false) (todo cs it rest).
Proof.
  induction n as [|n IH]; intros t cs it rest D m Hsh Hit HD Hn; [lia|]. pose proof (iter_next_run t cs ∅ it rest m Hsh Hit) as Hnx.
  cbn [sweep]. destruct (todo cs it rest) as [|[p [k v]] next] eqn:Etodo.
  - destruct Hnx as [it' E]. exists (entries t), (arrays t), (n_entries t), cs. rewrite (at_ok _ _ _ _ _ _ _ E).
    split; [by destruct t|]. split; [by destruct t|done].
  - destruct Hnx as (it' & i & l1 & rest' & E & Hit' & <- & He & Hb & Hnb & Hi). rewrite (at_ok _ _ _ _ _ _ _ E). cbv beta iota. simpl in Hn.
    destruct (array_bucket _ _ _ _ _ _ (sh_array _ _ _ Hsh) Hi) as (heads & first & _ & _ & Hch). apply chain_next in Hch as Hp.
    assert (∀ (g : DBusHashEntry → Z) B (K : Z → TM B), ((e ← iter_entry it'; mret (g e)) ≫= K) t m = K (g (Entry (fst <$> head rest') k v)) t m) as Hget.
    { intros g B K. apply at_ok. unfold iter_entry. rewrite He. erewrite at_ok; [reflexivity|]. rewrite at_assert by apply Hit'.
      by rewrite <-(run_ret (deref _)), (deref_run p _ _ _ _ Hp). }
    unfold _dbus_hash_iter_get_string_key, _dbus_hash_iter_get_int_key, _dbus_hash_iter_get_value. rewrite !Hget. cbn [key value].
    destruct (f (k, v)) eqn:Ef.
    + destruct (iter_remove_run t cs it' rest' i l1 p k v m Hsh Hit' He Hb Hnb Hi) as (es & ars & E1 & Hs1 & Hit1 & Ht1).
      destruct (IH _ _ _ _ D m Hs1 Hit1) as (es' & ars' & c & cs' & E2 & Hs2 & Hcs); rewrite ?Ht1; [|lia|].
      { apply (Permutation_cons_inv (a := (p, (k, v)))). rewrite <-(concat_removed _ _ _ _ _ Hi), HD. by rewrite Permutation_middle. }
      rewrite Ht1 in E2, Hs2, Hcs. exists es', ars', c, cs'. rewrite (at_ok _ _ _ _ _ _ _ E1), (at_ok _ _ _ _ _ _ _ E2).
      cbn [fmap list_fmap snd]. rewrite swept_cons, Ef, <-app_assoc. split; [done|]. split; [done|].
      rewrite filter_cons_False by (simpl; by rewrite Ef). done.
    + destruct (IH t cs it' rest' (D ++ [(p, (k, v))]) m Hsh Hit') as (es & ars & c & cs' & E2 & Hs2 & Hcs); [|lia|].
      { by rewrite HD, <-app_assoc. }
      exists es, ars, c, cs'. erewrite at_ok by reflexivity. rewrite (at_ok _ _ _ _ _ _ _ E2).
      cbn [fmap list_fmap snd]. rewrite swept_cons, Ef, app_nil_r. split; [done|]. split; [done|].
      rewrite filter_cons_True by done. by rewrite <-app_assoc in Hcs.
Qed.

(** The entries of the map, in the order of the buckets. *)
Lemma content_values t cs : NoDup (cell_key t <$> concat cs) → (concat cs).*2 ≡ₚ (map_to_list (content t cs)).*2.
Proof.
  intros Hd. unfold content. rewrite map_to_list_to_map.
  - rewrite <-list_fmap_compose. done.
  - rewrite <-list_fmap_compose. exact Hd.
Qed.

Lemma content_filter t cs cs' f :
  NoDup (cell_key t <$> concat cs) → concat cs' ≡ₚ filter (λ x, f x.2 = false) (concat cs) →
  content t cs' = filter (λ kv, f kv.2 = false) (content t cs).
Proof.
  intros Hd Hp. apply map_eq. intros κ. apply option_eq. intros kv. rewrite map_lookup_filter_Some, !content_lookup; [|done|].
  - setoid_rewrite Hp. setoid_rewrite list_elem_of_filter. naive_solver.
  - rewrite Hp. eapply sublist_NoDup; [exact Hd|]. apply fmap_sublist, sublist_filter.
Qed.

Lemma sweep_init_run t M f n m :
  represents t M → (size M < n)%nat →
  ∃ l t', (it ← _dbus_hash_iter_init; sweep f n it) t m = Ok l t' m ∧ l ≡ₚ (map_to_list M).*2
    ∧ represents t' (filter (λ kv, f kv.2 = false) M) ∧ calls t' = swept t f l ++ calls t ∧ kept t t'.
Proof.
  intros HM Hn. pose proof (represents_size t M HM) as Hsz. destruct HM as (cs & Hsh & <-).
  set (it := Iter true None None None 0 (n_entries t)).
  assert (todo cs it [] = concat cs) as Htodo by done.
  destruct (sweep_run f n t cs it [] [] m Hsh) as (es & ars & c & cs' & E & Hs & Hcs); rewrite ?Htodo in *.
  - constructor; simpl; [done|lia|done|lia|by left].
  - done.
  - rewrite (sh_count _ _ _ Hsh) in Hsz. lia.
  - do 2 eexists. split; [unfold _dbus_hash_iter_init; rewrite (at_ok _ it t m) by done; exact E|].
    split; [by apply content_values, Hsh|]. split; [|done]. exists cs'. split; [done|]. exact (content_filter t cs cs' f (sh_keys _ _ _ Hsh) Hcs).
Qed.

(** C36: An iterator visits every entry of a hash table exactly once, whichever of the entries
    it has come to are removed on the way, and ends; the table then has the entries that were
    not removed, and the key and the value of each entry that was have been freed. *)
Theorem iterator_visits_every_entry_once t M f m :
  represents t M →
  ∃ l t', (it ← _dbus_hash_iter_init; sweep f (S (size M)) it) t m = Ok l t' m ∧ l ≡ₚ (map_to_list M).*2
    ∧ represents t' (filter (λ kv, f kv.2 = false) M) ∧ calls t' = swept t f l ++ calls t.
Proof.
  intros HM. destruct (sweep_init_run t M f (S (size M)) m HM) as (l & t' & E & Hl & HM' & Hcl & _); [lia|]. by exists l, t'.
Qed.

Lemma iter_entry_pure it t m e t' m' : iter_entry it t m = Ok e t' m' → t' = t ∧ m' = m.
Proof.
  unfold iter_entry, assert_, deref, mbind, M_bind. destruct (it_table it); [|done]. cbn.
  destruct (it_entry it) as [p|]; [|done]. cbn. destruct (entries t !! p); [|done]. by intros [= _ -> ->].
Qed.

Lemma remove_all_sweep n : ∀ it t m l t' m',
  sweep (λ _, true) n it t m = Ok l t' m' → remove_all_loop n it t m = Ok tt t' m'.
Proof.
  induction n as [|n IH]; intros it t m l t' m'; [done|]. cbn [sweep remove_all_loop]. unfold mbind, M_bind.
  destruct (_dbus_hash_iter_next it t m) as [[[] it1] t1 m1| |]; [|by intros [= _ -> ->]|done|done].
  unfold _dbus_hash_iter_get_string_key, _dbus_hash_iter_get_int_key, _dbus_hash_iter_get_value, mbind, M_bind.
  destruct (iter_entry it1 t1 m1) as [e t2 m2| |] eqn:E1; [|done|done]. apply iter_entry_pure in E1 as E2. destruct E2 as [-> ->].
  cbn. rewrite E1. cbn. destruct (_dbus_hash_iter_remove_entry it1 t1 m1) as [it2 t2 m2| |]; [|done|done].
  destruct (sweep _ n it2 t2 m2) as [l' t3 m3| |] eqn:E3; [|done|done]. intros [= _ -> ->]. by eapply IH.
Qed.

Lemma entries_size t M : represents t M → size (entries t) = size M.
Proof.
  intros HM. pose proof (represents_size t M HM) as Hsz. destruct HM as (cs & Hsh & <-). rewrite (sh_count _ _ _ Hsh) in Hsz.
  rewrite <-size_dom, (sh_entries _ _ _ Hsh), union_empty_r_L, size_list_to_set by apply Hsh. rewrite length_fmap. lia.
Qed.

Lemma remove_all_run t M m :
  represents t M →
  ∃ l t', _dbus_hash_table_remove_all t m = Ok tt t' m ∧ represents t' ∅ ∧ l ≡ₚ (map_to_list M).*2
    ∧ calls t' = swept t (λ _, true) l ++ calls t ∧ kept t t'.
Proof.
  intros HM. destruct (sweep_init_run t M (λ _, true) (S (size (entries t))) m HM) as (l & t' & E & Hl & HM' & Hcl & Hk).
  { rewrite (entries_size t M HM). lia. }
  exists l, t'. split; [|split; [|done]].
  - unfold _dbus_hash_table_remove_all. rewrite (at_ok _ (Iter true None None None 0 (n_entries t)) t m) in E by done.
    rewrite (at_ok _ (Iter true None None None 0 (n_entries t)) t m) by done. rewrite at_gets. by eapply remove_all_sweep.
  - replace ∅ with (filter (λ kv : (bytes + Z) * (Z * Z), true = false) M); [done|].
    apply map_eq. intros κ. rewrite lookup_empty, map_lookup_filter_None. by right.
Qed.

Lemma free_chain_run l : ∀ n first t m,
  chain (entries t) first l → (length l < n)%nat →
  free_chain n first t m = Ok tt (patch (entries t) (arrays t) (n_entries t) (swept t (λ _, true) l.*2 ++ calls t) t) m.
Proof.
  induction l as [|[p [k v]] l IH]; intros [|n] first t m Hl Hn; simpl in Hn; try lia; cbn [free_chain].
  - simpl in Hl. subst first. by destruct t.
  - destruct Hl as (-> & nx & Hp & Hl). set (t1 := patch (entries t) (arrays t) (n_entries t) (freed t k v ++ calls t) t).
    assert (free_entry_data (Some p) t m = Ok tt t1 m) as E.
    { unfold free_entry_data, call_free_key, call_free_value. rewrite (deref_run p _ _ _ _ Hp), at_modify. unfold modify, t1, patch, freed.
      cbn. by destruct t as [? ? ? ? ? ? ? ? ? ? ? [] [] ?]. }
    rewrite (at_ok _ _ _ _ _ _ _ E), (deref_run p (Entry nx k v)) by exact Hp. cbn [next]. rewrite (IH n nx t1 m Hl) by lia.
    cbn [fmap list_fmap snd]. rewrite swept_cons. cbn [fst snd]. by rewrite <-app_assoc.
Qed.

Lemma swept_app t f l1 l2 : swept t f (l1 ++ l2) = swept t f l2 ++ swept t f l1.
Proof. induction l1 as [|kv l1 IH]; [by rewrite app_nil_r|]. cbn [app]. rewrite !swept_cons, IH. by rewrite app_assoc. Qed.

Lemma free_chains_run n : ∀ i t cs m,
  shape t cs ∅ → (i + n = length cs)%nat →
  free_chains n i t m
    = Ok tt (patch (entries t) (arrays t) (n_entries t) (swept t (λ _, true) (concat (drop i cs)).*2 ++ calls t) t) m.
Proof.
  induction n as [|n IH]; intros i t cs m Hsh Hi; cbn [free_chains].
  - rewrite drop_ge by lia. by destruct t.
  - destruct (lookup_lt_is_Some_2 cs i) as [c Hc]; [lia|].
    destruct (array_bucket _ _ _ _ _ _ (sh_array _ _ _ Hsh) Hc) as (heads & first & Hh & Hf & Hch).
    rewrite at_gets, (read_run _ _ _ _ _ _ _ Hh Hf). erewrite at_ok; [|apply (free_chain_run c); [exact Hch|]].
    + rewrite (IH (S i) _ cs m); [|by destruct Hsh; constructor|lia]. rewrite (drop_S _ _ _ Hc). cbn [concat]. rewrite fmap_app, swept_app, <-app_assoc. done.
    + apply chain_length in Hch; [lia|]. eapply bucket_nodup; [apply Hsh|exact Hc].
Qed.

(** C37: Removing all entries, and dropping the last reference to a table, end, and hand the
    key and the value of every entry to the functions that free them exactly once; the first
    leaves the empty map, the second no entry and no array. *)
Theorem every_entry_is_freed_once t M m :
  represents t M →
  (∃ l t', _dbus_hash_table_remove_all t m = Ok tt t' m ∧ represents t' ∅ ∧ l ≡ₚ (map_to_list M).*2
    ∧ calls t' = swept t (λ _, true) l ++ calls t)
  ∧ (refcount t = 1 →
     ∃ l t', _dbus_hash_table_unref t m = Ok tt t' m ∧ entries t' = ∅ ∧ arrays t' = ∅ ∧ l ≡ₚ (map_to_list M).*2
       ∧ calls t' = swept t (λ _, true) l ++ calls t).
Proof.
  intros HM. split.
  - destruct (remove_all_run t M m HM) as (l & t' & E & HM' & Hl & Hcl & _). by exists l, t'.
  - destruct HM as (cs & Hsh & <-). intros Hr. unfold _dbus_hash_table_unref. rewrite at_modify, at_gets.
    set (t1 := with_refcount _ t). assert (shape t1 cs ∅) as Hs1 by (destruct Hsh; by constructor).
    exists (concat cs).*2. eexists. split.
    + cbn [refcount t1 with_refcount]. rewrite Hr. cbn [Z.eqb]. change (1 - 1 =? 0) with true. cbv iota.
      erewrite at_ok; [reflexivity|apply (free_chains_run _ 0 t1 cs m Hs1)]. pose proof (sh_length _ _ _ Hs1). lia.
    + split; [done|]. split; [done|]. split; [by apply content_values, Hsh|done].
Qed.

(** C39: [_dbus_hash_iter_lookup] that adds the entry which makes the table grow goes wrong:
    [add_allocated_entry] answers the bucket of the array that the growing table has left, so
    the index of the next bucket is the difference of pointers into two arrays (and the
    bucket a pointer that may be freed). *)
Theorem lookup_that_grows_leaves_its_bucket t M k m :
  represents t M → Z.of_nat (size M) + 1 < max_entries → M !! ckey (key_type t) k = None →
  hi_rebuild_size t <= Z.of_nat (size M) + 1 → ¬ may_fail m →
  _dbus_hash_iter_lookup chars long_bits k true t m = Ub.
Proof.
  intros HM. rewrite <-(represents_size t M HM). destruct HM as (cs & Hsh & <-). intros Hmax Hk Hhi Hm.
  destruct (find_run t cs ∅ k Hsh) as (i & c & Hi & Hc & Hf). rewrite Hk in Hf.
  pose proof (alloc_run t cs ∅ m Hsh) as Ha. pose proof (refused m) as Hr. pose proof (later_failure m) as Hl.
  destruct (alloc m) as [[] m']; cbn [fst snd] in *; [|by destruct (Hm (Hr eq_refl))].
  destruct Ha as (p & es & Ea & Hs1 & _). destruct (add_allocated_run _ cs ∅ p k i m' Hs1 (not_elem_of_empty p) Hk Hi Hmax)
    as (t' & cs' & m2 & E & Hs' & Hperm & _ & _ & _ & Hnb).
  destruct (Hnb Hhi) as [?|Hne]; [tauto|]. simpl in Hne. unfold _dbus_hash_iter_lookup.
  rewrite (at_ok _ (Some p, Some (buckets t, i)) t' m2).
  - assert ((p, (k, 0)) ∈ concat cs') as Hin by (rewrite Hperm; by apply elem_of_cons; left).
    apply list_elem_of_In, in_concat_inv in Hin as (j & d & Hj & Hin).
    destruct (array_bucket _ _ _ _ _ _ (sh_array _ _ _ Hs') Hj) as (heads & first & _ & _ & Hch).
    destruct (chain_entry _ _ _ _ _ _ Hch Hin) as [n Hp]. rewrite (deref_run p _ _ _ _ Hp), at_gets, (at_checked _ (buckets t, i)) by done.
    cbn [fst]. by rewrite (proj2 (Nat.eqb_neq _ _)) by (by apply not_eq_sym).
  - rewrite Hf. unfold add_entry. rewrite (at_ok _ _ _ _ _ _ _ Ea). by rewrite (at_ok _ _ _ _ _ _ _ E).
Qed.

End hashing.

(** ** Examples *)

(** A table of integers. *)
Definition no_ints : DBusHashTable :=
  Table ∅ {[static_buckets := replicate 4 None]} 1 static_buckets 4 0 12 0 28 3 DBUS_HASH_INT true true [].

Definition ints (n : nat) : list hash_op := (λ i, OpInsert (Z.of_nat i) (100 + Z.of_nat i)) <$> seq 0 n.

Lemma hash_table_is_map_witness :
  (DBUS_HASH_INT ≠ DBUS_HASH_TWO_STRINGS ∧ Z.of_nat (length (ints 20)) < max_entries)
  ∧ match _dbus_hash_table_new DBUS_HASH_INT true true plenty with
    | Ok _ t m1 => ∃ l t' m' M,
        run_ops (λ _, []) 64 DBUS_HASH_INT (ints 20) t m1 = Ok l t' m'
        ∧ behaves (λ _, []) t (may_fail plenty) ∅ (ints 20) l M (calls t') ∧ n_entries t' = Z.of_nat (size M)
    | Failed _ _ => may_fail plenty
    | Ub => False
    end.
Proof. split; [done|]. apply hash_table_is_map; done. Defined.

Lemma behaves_map chars t M ops l M' cl :
  behaves chars t False M ops l M' cl → M' = foldl (λ M op, (spec_op chars t op M).1.2) M ops.
Proof. induction 1 as [M|M op a M1 cl1 ops l M2 cl2 E _ IH|]; [done| |done]. simpl. by rewrite E. Qed.

(** The table of [n] integers and its map. *)
Definition ints_map (n : nat) : gmap (bytes + Z) (Z * Z) := foldl (λ M op, (spec_op (λ _, []) no_ints op M).1.2) ∅ (ints n).

Lemma ints_represent n :
  Z.of_nat n < max_entries →
  ∃ l t m, run_ops (λ _, []) 64 DBUS_HASH_INT (ints n) no_ints plenty = Ok l t m ∧ represents (λ _, []) 64 t (ints_map n)
    ∧ kept no_ints t.
Proof.
  intros Hn. destruct (new_run (λ _, []) 64 DBUS_HASH_INT true true plenty) as (HM & _ & _ & _); [done|].
  destruct (run_ops_behaves (λ _, []) 64 no_ints (ints n) no_ints ∅ plenty False HM) as (l & t' & m' & M' & cl & E' & HM' & Hk & _ & Hb).
  - done.
  - unfold ints. rewrite length_fmap, length_seq, map_size_empty. done.
  - by intros Hf%elem_of_nil.
  - apply behaves_map in Hb. subst M'. by exists l, t', m'.
Qed.

Lemma iterator_visits_every_entry_once_witness :
  ∃ t, represents (λ _, []) 64 t (ints_map 5) ∧ size (ints_map 5) = 5%nat
    ∧ ∃ l t', (it ← _dbus_hash_iter_init; sweep (λ kv, 102 <? kv.2) (S (size (ints_map 5))) it) t plenty = Ok l t' plenty
        ∧ l ≡ₚ (map_to_list (ints_map 5)).*2
        ∧ represents (λ _, []) 64 t' (filter (λ kv, (102 <? kv.2.2) = false) (ints_map 5))
        ∧ calls t' = swept t (λ kv, 102 <? kv.2) l ++ calls t.
Proof.
  destruct (ints_represent 5) as (l & t & m & E & HM & _); [done|]. exists t. split; [done|]. split; [by vm_compute|].
  by apply (iterator_visits_every_entry_once (λ _, []) 64 t (ints_map 5) (λ kv, 102 <? kv.2) plenty).
Defined.

Lemma every_entry_is_freed_once_witness :
  ∃ t, represents (λ _, []) 64 t (ints_map 5) ∧ refcount t = 1
    ∧ ∃ l t', _dbus_hash_table_unref t plenty = Ok tt t' plenty ∧ entries t' = ∅ ∧ arrays t' = ∅
        ∧ l ≡ₚ (map_to_list (ints_map 5)).*2 ∧ calls t' = swept t (λ _, true) l ++ calls t.
Proof.
  destruct (ints_represent 5) as (l & t & m & E & HM & Hk); [done|]. exists t. split; [done|]. split; [apply Hk|].
  apply (every_entry_is_freed_once (λ _, []) 64 t (ints_map 5) plenty HM), Hk.
Defined.

Lemma lookup_that_grows_leaves_its_bucket_witness :
  ∃ t, represents (λ _, []) 64 t (ints_map 11) ∧ hi_rebuild_size t = 12
    ∧ _dbus_hash_iter_lookup (λ _, []) 64 99 true t plenty = Ub.
Proof.
  destruct (ints_represent 11) as (l & t & m & E & HM & Hk); [done|]. exists t. split; [done|].
  assert (hi_rebuild_size t = 12) as Hhi.
  { enough (match run_ops (λ _, []) 64 DBUS_HASH_INT (ints 11) no_ints plenty with Ok _ t _ => hi_rebuild_size t = 12 | _ => False end) as H
      by (by rewrite E in H). by vm_compute. }
  split; [done|]. apply (lookup_that_grows_leaves_its_bucket (λ _, []) 64 t (ints_map 11) 99 plenty HM).
  - by vm_compute.
  - replace (key_type t) with DBUS_HASH_INT by (symmetry; apply Hk). by vm_compute.
  - rewrite Hhi. by vm_compute.
  - by intros Hf%elem_of_nil.
Defined.
