(* ===== verification/Replies.v ===== *)
(** * Replies: messages between connections, and the replies that are expected

    Models the security check of src/bus/bus.c, the pending replies and the transactions of
    src/bus/connection.c, the list of things that expire of src/bus/expirelist.c, and the
    route of a message from one connection to others in src/bus/dispatch.c (messages to the
    driver are modelled in [Services], the rules in [Policy]).  What src/bus/activation.c
    answers to a message for a name that has no owner is a parameter.

    The list of pending replies is a list of the addresses of its items.  Elapsed time is
    counted in microseconds, which [double] represents. *)

From stdpp Require Import gmap.
From S2P Require Import Prelude Types Services Policy.

Abbreviation pending_ptr := positive.

(** [will_send_reply] is NULL when that connection is gone. *)
Record BusPendingReply := PendingReply {
  added_tv_sec : Z;
  added_tv_usec : Z;
  will_get_reply : connection;
  will_send_reply : option connection;
  reply_serial : Z
}.

(** A message on its way: what the policy looks at, its serial and its flags. *)
Record routed := Routed { routed_msg : DBusMessage; routed_serial : Z; routed_no_reply : bool; routed_auto_start : bool }.

Inductive ReplyHook := CancelPendingReplyData (p : pending_ptr) | CheckPendingReplyData (link : option pending_ptr).

Inductive dispatch_error := NoMemory | AccessDenied | LimitsExceeded | NameHasNoOwner | ActivationFailed (name : bytes).

#[export] Instance dispatch_error_eq_dec : EqDecision dispatch_error.
Proof. solve_decision. Defined.

(** What connections get: messages for them, messages that a match rule of theirs accepts,
    and errors of the bus. *)
Inductive sending :=
| Forwarded (sender recipient : connection) (m : routed)
| Copied (sender recipient : connection) (m : routed)
| NoReply (recipient : connection) (serial : Z)
| ErrorFor (recipient : connection) (serial : Z) (e : dispatch_error).

Definition recipient_of (x : sending) : connection :=
  match x with Forwarded _ c _ | Copied _ c _ | NoReply c _ | ErrorFor c _ _ => c end.

(** [reply_hooks], the newest first, and [to_send] belong to the transaction; [sent] is
    what executed transactions have sent. *)
Record router := Router {
  registry : bus;
  pending_pool : gmap pending_ptr BusPendingReply;
  items : list pending_ptr;
  timeout_enabled : bool;
  timeout_interval : Z;
  now_sec : Z;
  now_usec : Z;
  reply_hooks : list ReplyHook;
  to_send : list sending;
  sent : list sending;
  r_error : option dispatch_error
}.

Definition with_pending_pool f r :=
  Router (registry r) (f (pending_pool r)) (items r) (timeout_enabled r) (timeout_interval r) (now_sec r) (now_usec r)
    (reply_hooks r) (to_send r) (sent r) (r_error r).
Definition with_items f r :=
  Router (registry r) (pending_pool r) (f (items r)) (timeout_enabled r) (timeout_interval r) (now_sec r) (now_usec r)
    (reply_hooks r) (to_send r) (sent r) (r_error r).
Definition with_timeout enabled interval r :=
  Router (registry r) (pending_pool r) (items r) enabled interval (now_sec r) (now_usec r)
    (reply_hooks r) (to_send r) (sent r) (r_error r).
Definition with_reply_hooks f r :=
  Router (registry r) (pending_pool r) (items r) (timeout_enabled r) (timeout_interval r) (now_sec r) (now_usec r)
    (f (reply_hooks r)) (to_send r) (sent r) (r_error r).
Definition with_to_send f r :=
  Router (registry r) (pending_pool r) (items r) (timeout_enabled r) (timeout_interval r) (now_sec r) (now_usec r)
    (reply_hooks r) (f (to_send r)) (sent r) (r_error r).
Definition with_sent f r :=
  Router (registry r) (pending_pool r) (items r) (timeout_enabled r) (timeout_interval r) (now_sec r) (now_usec r)
    (reply_hooks r) (to_send r) (f (sent r)) (r_error r).
Definition with_r_error e r :=
  Router (registry r) (pending_pool r) (items r) (timeout_enabled r) (timeout_interval r) (now_sec r) (now_usec r)
    (reply_hooks r) (to_send r) (sent r) e.
Definition with_registry b r :=
  Router b (pending_pool r) (items r) (timeout_enabled r) (timeout_interval r) (now_sec r) (now_usec r)
    (reply_hooks r) (to_send r) (sent r) (r_error r).

Definition with_now sec usec r :=
  Router (registry r) (pending_pool r) (items r) (timeout_enabled r) (timeout_interval r) sec usec
    (reply_hooks r) (to_send r) (sent r) (r_error r).

Abbreviation RM := (M router).

(** An operation of the registry. *)
Definition on_registry {A} (c : BM A) : RM A := λ r m,
  match c (registry r) m with
  | Ok a b m' => Ok a (with_registry b r) m'
  | Failed b m' => Failed (with_registry b r) m'
  | Ub => Ub
  end.

Definition get_pending (p : pending_ptr) : RM BusPendingReply :=
  r ← gets id; checked (pending_pool r !! p).

Definition set_pending (p : pending_ptr) (f : BusPendingReply → BusPendingReply) : RM unit :=
  get_pending p;;
  modify (with_pending_pool (alter f p)).

(** What the check asks of the connections, SELinux and the configuration.
    [outgoing_size] is how much of what a connection was sent it has not taken yet;
    [bus_matchmaker_get_recipients] are the connections with a rule that accepts the message,
    but the addressed one.  [bus_activation_activate_service] (src/bus/activation.c) is the
    name of the error if the program for a name cannot be started; otherwise the message is
    kept there until the name has an owner. *)
Class RouterContext := {
  bus_selinux_allows_send : connection → option connection → DBusMessage → selinux_answer;
  bus_connection_is_active : connection → bool;
  dbus_connection_get_is_connected : connection → bool;
  bus_connection_get_name : connection → bytes;
  bus_connection_get_policy : connection → list BusPolicyRule;
  dbus_connection_get_outgoing_size : list sending → connection → Z;
  bus_matchmaker_get_recipients : connection → option connection → routed → list connection;
  bus_activation_activate_service : connection → routed → bytes → option bytes;
  max_outgoing_bytes : Z;
  bus_context_get_max_replies_per_connection : Z;
  expire_after : Z
}.

(** The value outside of the tests. *)
Definition _dbus_get_oom_wait : Z := 500.

Definition is_some {A} (o : option A) : bool := match o with Some _ => true | None => false end.

(** ** Errors: [reported] says whether there is a [DBusError] to be set *)

Definition set_dispatch_error (reported : bool) (e : dispatch_error) : RM unit := λ r m,
  if reported then let '(ok, m') := alloc m in Ok tt (with_r_error (Some (if ok : bool then e else NoMemory)) r) m'
  else Ok tt r m.

Definition set_oom (reported : bool) : RM unit :=
  modify (λ r, if reported then with_r_error (Some NoMemory) r else r).

Definition deny (reported : bool) (e : dispatch_error) : RM bool := set_dispatch_error reported e;; mret false.

Definition out_of_memory (reported : bool) : RM bool := set_oom reported;; mret false.

(** ** Lists of things that expire *)

Definition bus_expire_timeout_set_interval (next_interval : Z) : RM unit :=
  modify (λ r, if 0 <=? next_interval then with_timeout true next_interval r
               else if timeout_enabled r then with_timeout false (timeout_interval r) r else r).

Definition bus_expire_list_recheck_immediately : RM unit := bus_expire_timeout_set_interval 0.

Definition start_timeout : RM unit :=
  r ← gets id;
  if negb (timeout_enabled r) then bus_expire_timeout_set_interval 0 else mret tt.

Definition bus_expire_list_add (p : pending_ptr) : RM unit :=
  request;;
  modify (with_items (cons p));;
  start_timeout.

Definition bus_expire_list_add_link (p : pending_ptr) : RM unit :=
  modify (with_items (cons p));;
  start_timeout.

Fixpoint remove_item (p : pending_ptr) (l : list pending_ptr) : list pending_ptr :=
  match l with
  | [] => []
  | q :: l' => if decide (q = p) then l' else q :: remove_item p l'
  end.

(** The links go, which are not modelled apart from their data. *)
Definition bus_expire_list_remove_link (p : pending_ptr) : RM unit := modify (with_items (remove_item p)).
Definition bus_expire_list_unlink := bus_expire_list_remove_link.

Definition bus_expire_list_contains_item (p : pending_ptr) : RM bool := r ← gets id; mret (bool_decide (p ∈ items r)).

Definition bus_expire_list_remove (p : pending_ptr) : RM bool :=
  found ← bus_expire_list_contains_item p;
  bus_expire_list_remove_link p;;
  mret found.

(** In microseconds. *)
Definition ELAPSED_MICROSECONDS_SINCE (orig_sec orig_usec sec usec : Z) : Z := (sec - orig_sec) * 1000000 + (usec - orig_usec).

(** ** Transactions *)

Definition bus_transaction_add_cancel_hook (h : ReplyHook) : RM unit :=
  request;;
  request;;
  modify (with_reply_hooks (cons h)).

Definition bus_pending_reply_free (p : pending_ptr) : RM unit :=
  get_pending p;;
  modify (with_pending_pool (base.delete p)).

Definition cancel_pending_reply (p : pending_ptr) : RM unit :=
  removed ← bus_expire_list_remove p;
  assert_ removed;;
  bus_pending_reply_free p.

Definition cancel_check_pending_reply (link : option pending_ptr) : RM unit :=
  p ← checked link;
  bus_expire_list_add_link p.

Definition check_pending_reply_data_free (link : option pending_ptr) : RM unit :=
  match link with
  | None => mret tt
  | Some p =>
      found ← bus_expire_list_contains_item p;
      assert_ (negb found);;
      bus_pending_reply_free p
  end.

(** The result is the hook as the function leaves it. *)
Definition cancel_hook_cancel (h : ReplyHook) : RM ReplyHook :=
  match h with
  | CancelPendingReplyData p => cancel_pending_reply p;; mret h
  | CheckPendingReplyData link => cancel_check_pending_reply link;; mret (CheckPendingReplyData None)
  end.

Definition cancel_hook_free (h : ReplyHook) : RM unit :=
  match h with
  | CancelPendingReplyData _ => mret tt
  | CheckPendingReplyData link => check_pending_reply_data_free link
  end.

Fixpoint cancel_hooks_loop (l : list ReplyHook) : RM (list ReplyHook) :=
  match l with
  | [] => mret []
  | h :: l' => h' ← cancel_hook_cancel h; l'' ← cancel_hooks_loop l'; mret (h' :: l'')
  end.

Fixpoint free_hooks_loop (l : list ReplyHook) : RM unit :=
  match l with
  | [] => mret tt
  | h :: l' => cancel_hook_free h;; free_hooks_loop l'
  end.

Definition free_cancel_hooks : RM unit :=
  r ← gets id;
  free_hooks_loop (reply_hooks r);;
  modify (with_reply_hooks (λ _, [])).

Definition bus_transaction_cancel_and_free : RM unit :=
  modify (with_to_send (λ _, []));;
  r ← gets id;
  hooks ← cancel_hooks_loop (reply_hooks r);
  modify (with_reply_hooks (λ _, hooks));;
  free_cancel_hooks.

Definition bus_transaction_execute_and_free : RM unit :=
  r ← gets id;
  modify (with_sent (λ l, l ++ to_send r));;
  modify (with_to_send (λ _, []));;
  free_cancel_hooks.

Section router.
Context `{RouterContext}.

(** The record, the preallocated send with its two links, the link of the message, and a
    link in the transaction if it is the first message for the connection. *)
Definition bus_transaction_send (x : sending) : RM unit :=
  if negb (dbus_connection_get_is_connected (recipient_of x)) then mret tt
  else
    requests 5;;
    r ← gets id;
    (if existsb (λ y, bool_decide (recipient_of y = recipient_of x)) (to_send r) then mret tt else request);;
    modify (with_to_send (λ l, l ++ [x])).

(** ** Expecting replies *)

Definition is_pending (get send : connection) (serial : Z) (q : BusPendingReply) : bool :=
  (reply_serial q =? serial) && bool_decide (will_get_reply q = get) && bool_decide (will_send_reply q = Some send).

(** The loop of [bus_connections_expect_reply]: [None] for an outstanding call with the
    same serial, or the number of replies the connection waits for. *)
Fixpoint expect_loop (get send : connection) (serial : Z) (l : list pending_ptr) (count : Z) : RM (option Z) :=
  match l with
  | [] => mret (Some count)
  | p :: l' =>
      q ← get_pending p;
      if is_pending get send serial q then mret None
      else expect_loop get send serial l' (if bool_decide (will_get_reply q = get) then count + 1 else count)
  end.

(** The data of the hook, the place in the list, the hook, and the time. *)
Definition link_pending (reported : bool) (p : pending_ptr) : RM bool :=
  ok ← attempt request;
  if negb ok then bus_pending_reply_free p;; out_of_memory reported
  else
    ok ← attempt (bus_expire_list_add p);
    if negb ok then bus_pending_reply_free p;; out_of_memory reported
    else
      ok ← attempt (bus_transaction_add_cancel_hook (CancelPendingReplyData p));
      if negb ok then
        bus_expire_list_remove p;;
        bus_pending_reply_free p;;
        out_of_memory reported
      else
        r ← gets id;
        set_pending p (λ q, PendingReply (now_sec r) (now_usec r) (will_get_reply q) (will_send_reply q) (reply_serial q));;
        mret true.

Definition record_pending (reported : bool) (get send : connection) (serial : Z) : RM bool :=
  ok ← attempt request;
  if negb ok then out_of_memory reported
  else
    r ← gets id;
    let p := fresh (dom (pending_pool r)) in
    modify (with_pending_pool (insert p (PendingReply 0 0 get (Some send) serial)));;
    link_pending reported p.

Definition bus_connections_expect_reply (reported : bool) (get send : connection) (m : routed) : RM bool :=
  if routed_no_reply m then mret true
  else
    r ← gets id;
    count ← expect_loop get send (routed_serial m) (items r) 0;
    match count with
    | None => deny reported AccessDenied
    | Some n =>
        if bus_context_get_max_replies_per_connection <=? n then deny reported LimitsExceeded
        else record_pending reported get send (routed_serial m)
    end.

Fixpoint check_loop (get send : connection) (serial : Z) (l : list pending_ptr) : RM (option pending_ptr) :=
  match l with
  | [] => mret None
  | p :: l' =>
      q ← get_pending p;
      if is_pending get send serial q then mret (Some p) else check_loop get send serial l'
  end.

(** Whether the reply was expected, and an error. *)
Definition bus_connections_check_reply (sending_reply receiving_reply : connection) (serial : Z) :
    RM (bool * option dispatch_error) :=
  r ← gets id;
  link ← check_loop receiving_reply sending_reply serial (items r);
  match link with
  | None => mret (false, None)
  | Some p =>
      ok ← attempt (request;; bus_transaction_add_cancel_hook (CheckPendingReplyData (Some p)));
      if negb ok then mret (false, Some NoMemory)
      else
        bus_expire_list_unlink p;;
        found ← bus_expire_list_contains_item p;
        assert_ (negb found);;
        mret (true, None)
  end.

(** ** The security check *)

Definition DBUS_INTERFACE_DBUS : bytes := DBUS_SERVICE_DBUS.

Definition is_hello (msg : DBusMessage) : bool :=
  (message_type msg =? DBUS_MESSAGE_TYPE_METHOD_CALL) && bool_decide (message_interface msg = Some DBUS_INTERFACE_DBUS)
  && bool_decide (message_member msg = Some (lit "Hello")).

(** The part about the sender: an answer, or whether the message is a requested reply. *)
Definition check_sender (reported : bool) (sender addressed proposed : option connection) (msg : DBusMessage) : RM (bool + bool) :=
  match sender with
  | Some s =>
      match bus_selinux_allows_send s proposed msg with
      | SELinuxOom => out_of_memory reported;; mret (inl false)
      | SELinuxDenied => deny reported AccessDenied;; mret (inl false)
      | SELinuxAllowed =>
          if bus_connection_is_active s then
            match proposed with
            | Some p =>
                if negb (message_reply_serial msg =? 0) && bool_decide (addressed = Some p) then
                  '(requested_reply, error2) ← bus_connections_check_reply s p (message_reply_serial msg);
                  match error2 with
                  | Some e => modify (λ r, if reported then with_r_error (Some e) r else r);; mret (inl false)
                  | None => mret (inr requested_reply)
                  end
                else mret (inr false)
            | None => mret (inr false)
            end
          else if negb (is_some proposed) && is_hello msg then mret (inl true)
          else deny reported AccessDenied;; mret (inl false)
      end
  | None => mret (inr (bool_decide (addressed = proposed) && negb (message_reply_serial msg =? 0)))
  end.

Definition may_send (sender proposed : option connection) (requested_reply : bool) (msg : DBusMessage) : RM bool :=
  match sender with
  | Some s =>
      '(allowed, _, _) ← on_registry (bus_client_policy_check_can_send (bus_connection_get_policy s) requested_reply proposed msg false);
      mret allowed
  | None => mret true
  end.

(** Only the bus sends to a connection without policy. *)
Definition recipient_policy (sender proposed : option connection) : RM (option (list BusPolicyRule)) :=
  match proposed with
  | Some p =>
      if bus_connection_is_active p then mret (Some (bus_connection_get_policy p))
      else assert_ (negb (is_some sender));; mret None
  | None => mret None
  end.

Definition may_receive (policy : option (list BusPolicyRule)) (sender addressed proposed : option connection)
    (requested_reply : bool) (msg : DBusMessage) : RM bool :=
  match policy with
  | Some rules =>
      '(allowed, _) ← on_registry (bus_client_policy_check_can_receive rules requested_reply sender addressed proposed msg);
      mret allowed
  | None => mret true
  end.

Definition queue_full (sent : list sending) (proposed : option connection) : bool :=
  match proposed with
  | Some p => max_outgoing_bytes <? dbus_connection_get_outgoing_size sent p
  | None => false
  end.

Definition expects_reply (sender addressed proposed : option connection) (msg : DBusMessage) : option (connection * connection) :=
  match sender, addressed with
  | Some s, Some a =>
      if (message_type msg =? DBUS_MESSAGE_TYPE_METHOD_CALL) && bool_decide (addressed = proposed) then Some (s, a) else None
  | _, _ => None
  end.

(** The rules, the queue of the recipient, and the reply that is to be expected. *)
Definition check_message (reported : bool) (sender addressed proposed : option connection) (requested_reply : bool) (m : routed) : RM bool :=
  let msg := routed_msg m in
  policy ← recipient_policy sender proposed;
  ok ← may_send sender proposed requested_reply msg;
  if negb ok then deny reported AccessDenied
  else
    ok ← may_receive policy sender addressed proposed requested_reply msg;
    if negb ok then deny reported AccessDenied
    else
      r ← gets id;
      if queue_full (sent r) proposed then deny reported LimitsExceeded
      else
        match expects_reply sender addressed proposed msg with
        | Some (get, send) => bus_connections_expect_reply reported get send m
        | None => mret true
        end.

Definition bus_context_check_security_policy (reported : bool) (sender addressed proposed : option connection) (m : routed) : RM bool :=
  let msg := routed_msg m in
  let type := message_type msg in
  let dest := message_destination msg in
  assert_ (is_some dest || (type =? DBUS_MESSAGE_TYPE_SIGNAL)
           || negb (is_some sender) && negb (from_option bus_connection_is_active true proposed));;
  assert_ ((type =? DBUS_MESSAGE_TYPE_SIGNAL) || is_some addressed || bool_decide (dest = Some DBUS_SERVICE_DBUS));;
  if negb ((DBUS_MESSAGE_TYPE_METHOD_CALL <=? type) && (type <=? DBUS_MESSAGE_TYPE_SIGNAL)) then deny reported AccessDenied
  else
    answer ← check_sender reported sender addressed proposed msg;
    match answer with
    | inl allowed => mret allowed
    | inr requested_reply => check_message reported sender addressed proposed requested_reply m
    end.

(** ** Messages of the bus *)

Definition error_text (e : dispatch_error) : bytes :=
  match e with
  | NoMemory => lit "org.freedesktop.DBus.Error.NoMemory"
  | AccessDenied => lit "org.freedesktop.DBus.Error.AccessDenied"
  | LimitsExceeded => lit "org.freedesktop.DBus.Error.LimitsExceeded"
  | NameHasNoOwner => lit "org.freedesktop.DBus.Error.NameHasNoOwner"
  | ActivationFailed name => name
  end.

Definition bus_error (c : connection) (serial : Z) (name : bytes) : routed :=
  Routed (Message DBUS_MESSAGE_TYPE_ERROR serial None None None (Some name)
    (if bus_connection_is_active c then Some (bus_connection_get_name c) else None) (Some DBUS_SERVICE_DBUS)) 0 true true.

(** The sender and the destination of the message; a message that the policy does not allow
    is dropped. *)
Definition bus_transaction_send_from_driver (c : connection) (m : routed) (x : sending) : RM unit :=
  request;;
  (if bus_connection_is_active c then request else mret tt);;
  allowed ← bus_context_check_security_policy false None (Some c) (Some c) m;
  if (allowed : bool) then bus_transaction_send x else mret tt.

(** The message, its two fields and its argument. *)
Definition bus_pending_reply_send_no_reply (q : BusPendingReply) : RM unit :=
  requests 4;;
  bus_transaction_send_from_driver (will_get_reply q)
    (bus_error (will_get_reply q) (reply_serial q) (lit "org.freedesktop.DBus.Error.NoReply"))
    (NoReply (will_get_reply q) (reply_serial q)).

Definition bus_transaction_send_error_reply (c : connection) (e : dispatch_error) (in_reply_to : routed) : RM unit :=
  request;;
  bus_transaction_send_from_driver c (bus_error c (routed_serial in_reply_to) (error_text e))
    (ErrorFor c (routed_serial in_reply_to) e).

(** ** Expiration *)

Definition bus_pending_reply_expired (p : pending_ptr) : RM bool :=
  q ← get_pending p;
  ok ← attempt request;
  if negb ok then mret false
  else
    ok ← attempt (bus_pending_reply_send_no_reply q);
    if negb ok then bus_transaction_cancel_and_free;; mret false
    else
      bus_expire_list_remove_link p;;
      bus_pending_reply_free p;;
      bus_transaction_execute_and_free;;
      mret true.

(** The walk over the list: [min_wait_time] is [Some] if there are items left to expire. *)
Fixpoint expiration_loop (l : list pending_ptr) (min_wait_time : option Z) : RM Z :=
  match l with
  | [] => mret (from_option id (-1) min_wait_time)
  | p :: l' =>
      r ← gets id;
      q ← get_pending p;
      let elapsed := ELAPSED_MICROSECONDS_SINCE (added_tv_sec q) (added_tv_usec q) (now_sec r) (now_usec r) in
      if 1000 * expire_after <=? elapsed then
        ok ← bus_pending_reply_expired p;
        if negb ok then mret _dbus_get_oom_wait else expiration_loop l' min_wait_time
      else
        let to_wait := (1000 * expire_after - elapsed) / 1000 in
        let min := from_option id (3600 * 1000) min_wait_time in
        expiration_loop l' (Some (if to_wait <? min then to_wait else min))
  end.

Definition do_expiration_with_current_time : RM Z :=
  r ← gets id;
  expiration_loop (items r) None.

Definition bus_expirelist_expire : RM unit :=
  r ← gets id;
  next_interval ← (match items r with [] => mret (-1) | _ => do_expiration_with_current_time end);
  bus_expire_timeout_set_interval next_interval.

(** ** Connections that go away *)

Fixpoint drop_loop (c : connection) (l : list pending_ptr) : RM unit :=
  match l with
  | [] => mret tt
  | p :: l' =>
      q ← get_pending p;
      (if bool_decide (will_get_reply q = c) then
         bus_expire_list_remove_link p;;
         bus_pending_reply_free p
       else if bool_decide (will_send_reply q = Some c) then
         set_pending p (λ q, PendingReply 0 0 (will_get_reply q) None (reply_serial q));;
         bus_expire_list_recheck_immediately
       else mret tt);;
      drop_loop c l'
  end.

Definition bus_connection_drop_pending_replies (c : connection) : RM unit :=
  r ← gets id;
  drop_loop c (items r).

(** ** Routing *)

Definition send_one_message (dest sender : connection) (addressed : option connection) (m : routed) : RM bool :=
  allowed ← bus_context_check_security_policy false (Some sender) addressed (Some dest) m;
  if negb allowed then mret true
  else
    ok ← attempt (bus_transaction_send (Copied sender dest m));
    if negb ok then out_of_memory true else mret true.

Fixpoint send_to_all (dests : list connection) (sender : connection) (addressed : option connection) (m : routed) : RM bool :=
  match dests with
  | [] => mret true
  | d :: dests' =>
      ok ← send_one_message d sender addressed m;
      if negb ok then mret false else send_to_all dests' sender addressed m
  end.

Definition bus_dispatch_matches (sender : connection) (addressed : option connection) (m : routed) : RM bool :=
  ok ← attempt request;
  if negb ok then out_of_memory true
  else send_to_all (bus_matchmaker_get_recipients sender addressed m) sender addressed m.

(** The connection that owns the name. *)
Definition primary_owner_of (name : bytes) : RM (option connection) :=
  service ← on_registry (bus_registry_lookup name);
  match service with
  | None => mret None
  | Some s =>
      o ← on_registry (bus_service_get_primary_owner s);
      o ← checked o;
      y ← on_registry (get_owner o);
      mret (Some (owner_conn y))
  end.

(** From the sender field to the label [out]. *)
Definition route (c : connection) (m : routed) : RM bool :=
  ok ← attempt request;
  if negb ok then out_of_memory true
  else
    match message_destination (routed_msg m) with
    | None => bus_dispatch_matches c None m
    | Some name =>
        owner ← primary_owner_of name;
        match owner with
        | None =>
            if routed_auto_start m then
              ok ← attempt request;
              if negb ok then out_of_memory true
              else
                match bus_activation_activate_service c m name with
                | Some e => deny true (ActivationFailed e)
                | None => mret true
                end
            else deny true NameHasNoOwner
        | Some a =>
            allowed ← bus_context_check_security_policy true (Some c) (Some a) (Some a) m;
            if negb allowed then mret false
            else
              ok ← attempt (bus_transaction_send (Forwarded c a m));
              if negb ok then out_of_memory true
              else bus_dispatch_matches c (Some a) m
        end
    end.

(** The error of the bus that needs no memory. *)
Definition bus_connection_send_oom_error (c : connection) (m : routed) : RM unit :=
  modify (with_sent (λ l, l ++ [ErrorFor c (routed_serial m) NoMemory])).

(** The error goes to a connection that is still there; without memory the transaction is
    cancelled.  The result says whether it was. *)
Definition report_error (transaction : bool) (c : connection) (e : dispatch_error) (m : routed) : RM bool :=
  if negb (dbus_connection_get_is_connected c) then mret false
  else if decide (e = NoMemory) then
    bus_connection_send_oom_error c m;;
    (if transaction then bus_transaction_cancel_and_free else mret tt);;
    mret true
  else
    assert_ transaction;;
    ok ← attempt (bus_transaction_send_error_reply c e m);
    if (ok : bool) then mret false
    else
      bus_connection_send_oom_error c m;;
      bus_transaction_cancel_and_free;;
      mret true.

(** Behind the label [out]. *)
Definition finish_dispatch (transaction : bool) (c : connection) (m : routed) : RM unit :=
  r ← gets id;
  cancelled ←
    ((match r_error r with
      | None => mret false
      | Some e =>
          cancelled ← report_error transaction c e m;
          modify (with_r_error None);;
          mret cancelled
      end) : RM bool);
  if negb cancelled && transaction then bus_transaction_execute_and_free else mret tt.

(** What the model of [bus_dispatch] is for: messages of an active connection that are
    neither for the driver nor the signal about the end of the connection, which only
    the library makes. *)
Definition between_connections (c : connection) (msg : DBusMessage) : bool :=
  bus_connection_is_active c
  && bool_decide (message_destination msg ≠ Some DBUS_SERVICE_DBUS)
  && bool_decide (message_interface msg ≠ Some (lit "org.freedesktop.DBus.Local")).

(** The result is [false] for DBUS_HANDLER_RESULT_NOT_YET_HANDLED. *)
Definition bus_dispatch (c : connection) (m : routed) : RM bool :=
  if negb (is_some (message_destination (routed_msg m))) && negb (message_type (routed_msg m) =? DBUS_MESSAGE_TYPE_SIGNAL)
  then mret false
  else
    transaction ← attempt request;
    (if (transaction : bool) then route c m else out_of_memory true);;
    finish_dispatch transaction c m;;
    mret true.

End router.
