(* ===== verification/Calls.v ===== *)
(** * Calls: replies are for calls

    Shown for [Replies]: the security check is the one of the specification; whatever memory
    is refused, the pending replies are the calls that wait for an answer, within the limit
    and with a running timeout; a connection gets at most one reply for each of its calls, if
    the allow rules of the other are for requested replies only; a call that gets no answer in time is answered with
    an error.  A reply that is refused is not. *)

From stdpp Require Import gmap.
From S2P Require Import Prelude Types Services Ledger Ownership Registry Policy Replies.

(** ** Running with a bound on failures

    [ends O P c Q F]: from a state with [P], [c] returns with [Q] or reports failure with [F];
    [O] holds if memory is ever refused. *)

Definition ends {S A} (O : Prop) (P : S → Prop) (c : M S A) (Q : A → S → Prop) (F : S → Prop) : Prop :=
  ∀ s m, P s → (may_fail m → O) →
  match c s m with
  | Ok a s' m' => Q a s' ∧ (may_fail m' → O)
  | Failed s' m' => F s' ∧ O ∧ (may_fail m' → O)
  | Ub => False
  end.

Section ends.
Context {S A B : Type} (O : Prop).
Implicit Types (P F : S → Prop) (c : M S A).

Lemma ends_ret P (a : A) (Q : A → S → Prop) F : (∀ s, P s → Q a s) → ends O P (mret a) Q F.
Proof. intros HQ s m HP Hm. split; [by apply HQ|done]. Qed.

Lemma ends_bind P c (k : A → M S B) Q R F : ends O P c Q F → (∀ a, ends O (Q a) (k a) R F) → ends O P (c ≫= k) R F.
Proof.
  intros Hc Hk s m HP Hm. specialize (Hc s m HP Hm). unfold mbind, M_bind. destruct (c s m) as [a s1 m1| |]; [|done..].
  destruct Hc as [HQ Hm1]. by apply Hk.
Qed.

Lemma ends_gets P (k : S → M S B) R F : (∀ s0, P s0 → ends O (λ s, s = s0) (k s0) R F) → ends O P (gets id ≫= k) R F.
Proof. intros Hk s m HP Hm. by apply (Hk s HP s m). Qed.

Lemma ends_conseq P P' c Q Q' F F' :
  ends O P' c Q' F' → (∀ s, P s → P' s) → (∀ a s, Q' a s → Q a s) → (∀ s, F' s → F s) → ends O P c Q F.
Proof.
  intros Hc HP HQ HF s m H Hm. specialize (Hc s m (HP s H) Hm). destruct (c s m) as [| |]; [|naive_solver|done].
  destruct Hc. auto.
Qed.

Lemma ends_attempt P c Q F F' :
  ends O P c Q F → ends O P (attempt c) (λ ok s, if (ok : bool) then ∃ a, Q a s else F s ∧ O) F'.
Proof.
  intros Hc s m HP Hm. specialize (Hc s m HP Hm). unfold attempt. destruct (c s m) as [a s1 m1|s1 m1|]; [|tauto|done].
  destruct Hc as [HQ Hm1]. split; [by exists a|done].
Qed.

Lemma ends_pure P (φ : Prop) c Q F : (∀ s, P s → φ) → (φ → ends O P c Q F) → ends O P c Q F.
Proof. intros Hφ Hc s m HP. by apply Hc; [eapply Hφ|]. Qed.

Lemma ends_exists {X} (P : X → S → Prop) c Q F : (∀ x, ends O (P x) c Q F) → ends O (λ s, ∃ x, P x s) c Q F.
Proof. intros Hc s m [x HP]. by apply (Hc x). Qed.

(** A step that changes neither the state nor the memory. *)
Lemma ends_run P c a (k : A → M S B) R F :
  (∀ s m, P s → c s m = Ok a s m) → ends O P (k a) R F → ends O P (c ≫= k) R F.
Proof. intros Hc Hk s m HP Hm. rewrite (at_ok c a s m) by (by apply Hc). by apply Hk. Qed.
End ends.

Lemma run_assoc {S A B C} (a : M S A) (b : M S B) (k : B → M S C) s m : (a ≫= λ _, b ≫= k) s m = ((a;; b) ≫= k) s m.
Proof. unfold mbind, M_bind. by destruct (a s m). Qed.

Lemma ends_modify {S} O (P : S → Prop) f (Q : S → Prop) F : (∀ s, P s → Q (f s)) → ends O P (modify f) (λ _, Q) F.
Proof. intros HQ s m HP Hm. split; [by apply HQ|done]. Qed.

Lemma ends_request {S} O (P : S → Prop) : ends O P request (λ _, P) P.
Proof.
  intros s m HP Hm. unfold request. destruct (alloc m) as [ok m'] eqn:E. pose proof (alloc_mono m ok m' E) as Hmono.
  destruct ok; [by split; [|tauto]|]. apply alloc_fail in E. tauto.
Qed.

Lemma ends_requests {S} O (P : S → Prop) n : ends O P (requests n) (λ _, P) P.
Proof. induction n as [|n IH]; [by apply ends_ret|]. eapply ends_bind; [apply ends_request|]. done. Qed.

(** What is known of the connections with match rules. *)
Class RouterLaws `{RouterContext} : Prop := {
  recipients_active s addressed m d : d ∈ bus_matchmaker_get_recipients s addressed m → bus_connection_is_active d = true;
  recipients_not_addressed s a m : a ∉ bus_matchmaker_get_recipients s (Some a) m
}.

Section calls.
Context `{RouterLaws}.

(** ** States *)

(** Between two events: nothing is in a transaction, the list holds all pending replies, and
    the timeout runs as long as there are some. *)
Record tidy (r : router) : Prop := {
  td_registry : consistent (registry r);
  td_items : NoDup (items r);
  td_pool : dom (pending_pool r) = list_to_set (items r);
  td_hooks : reply_hooks r = [];
  td_to_send : to_send r = [];
  td_error : r_error r = None;
  td_timer : items r ≠ [] → timeout_enabled r = true
}.

(** In a transaction that began in the state [r0]: [rem] was taken from the list and [add]
    was added to it, [out] is to be sent and [err] was reported. *)
Definition tx (r0 : router) (rem : option pending_ptr) (add : option (pending_ptr * BusPendingReply))
    (out : list sending) (err : option dispatch_error) (r : router) : Prop :=
  ∃ enabled interval,
    r = Router (registry r0)
          (match add with Some (p, q) => <[p := q]> (pending_pool r0) | None => pending_pool r0 end)
          (match add with Some (p, _) => [p] | None => [] end
           ++ match rem with Some p => remove_item p (items r0) | None => items r0 end)
          enabled interval (now_sec r0) (now_usec r0)
          (match add with Some (p, _) => [CancelPendingReplyData p] | None => [] end
           ++ match rem with Some p => [CheckPendingReplyData (Some p)] | None => [] end)
          out (sent r0) err
    ∧ ((is_Some add ∨ timeout_enabled r0 = true) → enabled = true).

Lemma tx_start r : tidy r → tx r None None [] None r.
Proof.
  intros Ht. exists (timeout_enabled r), (timeout_interval r). split; [|intros [[? ?]|?]; done].
  destruct r. destruct Ht. simpl in *. by subst.
Qed.

(** The pending reply of [send] for the call [serial] of [get]. *)
Definition pending_in (pool : gmap pending_ptr BusPendingReply) (get send : connection) (serial : Z) (p : pending_ptr) : bool :=
  from_option (is_pending get send serial) false (pool !! p).

Lemma check_loop_run get send serial l r m :
  (∀ p, p ∈ l → is_Some (pending_pool r !! p)) →
  check_loop get send serial l r m = Ok (List.find (pending_in (pending_pool r) get send serial) l) r m.
Proof.
  induction l as [|p l IH]; intros Hl; [done|]. cbn [check_loop List.find]. destruct (Hl p) as [q Hq]; [by apply elem_of_cons; left|].
  rewrite (at_ok _ q r m) by (unfold get_pending; rewrite at_gets; simpl; by rewrite Hq).
  unfold pending_in at 1. rewrite Hq. simpl. destruct (is_pending get send serial q); [done|]. apply IH. intros p' Hp'. apply Hl. by apply elem_of_cons; right.
Qed.

(** How many replies a connection waits for. *)
Definition waits_for (pool : gmap pending_ptr BusPendingReply) (get : connection) (p : pending_ptr) : bool :=
  from_option (λ q, bool_decide (will_get_reply q = get)) false (pool !! p).

Lemma expect_loop_run get send serial l r m : ∀ count,
  (∀ p, p ∈ l → is_Some (pending_pool r !! p)) →
  expect_loop get send serial l count r m
  = Ok (if existsb (pending_in (pending_pool r) get send serial) l then None
        else Some (count + Z.of_nat (length (List.filter (waits_for (pending_pool r) get) l)))) r m.
Proof.
  induction l as [|p l IH]; intros count Hl; [by rewrite Z.add_0_r|]. cbn [expect_loop existsb List.filter]. destruct (Hl p) as [q Hq]; [by apply elem_of_cons; left|].
  rewrite (at_ok _ q r m) by (unfold get_pending; rewrite at_gets; simpl; by rewrite Hq).
  unfold pending_in at 1, waits_for at 1. rewrite Hq. simpl. destruct (is_pending get send serial q); [done|]. simpl.
  rewrite IH by (intros p' Hp'; apply Hl; by apply elem_of_cons; right). destruct (existsb _ l); [done|].
  do 2 f_equal. case_bool_decide; simpl; lia.
Qed.

Lemma tidy_pool r p : tidy r → p ∈ items r → is_Some (pending_pool r !! p).
Proof. intros Ht Hp. apply elem_of_dom. rewrite (td_pool r Ht). by apply elem_of_list_to_set. Qed.

Lemma remove_item_in p q l : NoDup l → q ∈ remove_item p l ↔ q ∈ l ∧ q ≠ p.
Proof.
  induction l as [|x l IH]; simpl; [by intros _; rewrite elem_of_nil; naive_solver|]. intros [Hx Hl]%list.NoDup_cons.
  destruct (decide (x = p)) as [-> | Hne]; rewrite !elem_of_cons; [naive_solver|]. rewrite IH by done. naive_solver.
Qed.

Lemma remove_item_nodup p l : NoDup l → NoDup (remove_item p l).
Proof.
  induction l as [|x l IH]; simpl; [done|]. intros [Hx Hl]%list.NoDup_cons. destruct (decide (x = p)); [done|].
  apply list.NoDup_cons. split; [|by apply IH]. rewrite remove_item_in by done. tauto.
Qed.

Lemma remove_item_perm p l : p ∈ l → p :: remove_item p l ≡ₚ l.
Proof.
  induction l as [|x l IH]; [by intros ?%elem_of_nil|]. simpl. intros [-> | Hp]%elem_of_cons; [by rewrite decide_True|].
  destruct (decide (x = p)) as [-> | Hne]; [done|]. rewrite <-(IH Hp) at 2. apply perm_swap.
Qed.

Lemma hook_ends O P h : ends O P (bus_transaction_add_cancel_hook h) (λ _ r, ∃ r1, P r1 ∧ r = with_reply_hooks (cons h) r1) P.
Proof.
  unfold bus_transaction_add_cancel_hook. eapply ends_bind; [apply ends_request|]. intros []. eapply ends_bind; [apply ends_request|].
  intros []. apply ends_modify. intros r HP. by exists r.
Qed.

(** The reply that is found leaves the list for the transaction. *)
Lemma check_reply_ends O r0 out err s a serial :
  tidy r0 → let found := List.find (pending_in (pending_pool r0) a s serial) (items r0) in
  ends O (tx r0 None None out err) (bus_connections_check_reply s a serial)
    (λ x r, match x with
            | (true, None) => is_Some found ∧ tx r0 found None out err r
            | (false, None) => found = None ∧ tx r0 None None out err r
            | (false, Some e) => e = NoMemory ∧ O ∧ tx r0 None None out err r
            | (true, Some _) => False
            end) (λ _, False).
Proof.
  intros Ht found. unfold bus_connections_check_reply. apply ends_gets. intros r1 Hr1. pose proof Hr1 as (en & iv & Er1 & Hen).
  eapply (ends_run _ _ _ found).
  { intros r m ->. rewrite check_loop_run; rewrite Er1; [done|]. intros p Hp. simpl in *. by apply tidy_pool. }
  destruct found as [p|] eqn:Ef.
  2: { apply ends_ret. by intros r ->. }
  eapply ends_bind; [apply ends_attempt; eapply ends_bind; [apply ends_request|]; intros []; apply hook_ends|]. intros [].
  - simpl. intros r m ([] & r2 & -> & ->) Hm. unfold bus_expire_list_unlink, bus_expire_list_remove_link. rewrite at_modify.
    assert (p ∉ remove_item p (items r1)) as Hp.
    { rewrite Er1. cbn [items]. rewrite remove_item_in by apply Ht. tauto. }
    erewrite at_ok; [|unfold bus_expire_list_contains_item; rewrite at_gets; reflexivity]. simpl.
    rewrite bool_decide_false by exact Hp. rewrite at_assert by done. split; [|done]. split; [done|].
    exists en, iv. rewrite Er1. split; [done|]. intros [[? ?]|?]; [done|]. apply Hen. by right.
  - apply ends_ret. intros r [-> HO]. done.
Qed.

Lemma free_run p q r m : pending_pool r !! p = Some q → bus_pending_reply_free p r m = Ok tt (with_pending_pool (base.delete p) r) m.
Proof. intros Hp. unfold bus_pending_reply_free. rewrite (at_ok _ q r m); [done|]. unfold get_pending. rewrite at_gets. simpl. by rewrite Hp. Qed.

Lemma set_pending_run p q f r m : pending_pool r !! p = Some q → set_pending p f r m = Ok tt (with_pending_pool (alter f p) r) m.
Proof. intros Hp. unfold set_pending. rewrite (at_ok _ q r m); [done|]. unfold get_pending. rewrite at_gets. simpl. by rewrite Hp. Qed.

Lemma start_timeout_run r m : ∃ iv, start_timeout r m = Ok tt (with_timeout true iv r) m.
Proof.
  unfold start_timeout. rewrite at_gets. simpl. destruct (timeout_enabled r) eqn:E; simpl.
  - exists (timeout_interval r). destruct r. simpl in *. by subst.
  - by exists 0.
Qed.

Lemma list_add_ends O r1 p :
  ends O (λ r, r = r1) (bus_expire_list_add p) (λ _ r, ∃ iv, r = with_timeout true iv (with_items (cons p) r1)) (λ r, r = r1).
Proof.
  unfold bus_expire_list_add. eapply ends_bind; [apply ends_request|]. intros [] r m -> Hm. rewrite at_modify.
  destruct (start_timeout_run (with_items (cons p) r1) m) as [iv ->]. split; [by exists iv|done].
Qed.

Lemma oom_run reported r m : out_of_memory reported r m = Ok false (if reported then with_r_error (Some NoMemory) r else r) m.
Proof. done. Qed.

(** The record goes again. *)
Lemma unrecord r0 rem out err reported p q en iv r :
  p ∉ dom (pending_pool r0) → (timeout_enabled r0 = true → en = true) →
  r = Router (registry r0) (<[p := q]> (pending_pool r0)) (match rem with Some p => remove_item p (items r0) | None => items r0 end)
        en iv (now_sec r0) (now_usec r0) (match rem with Some p => [CheckPendingReplyData (Some p)] | None => [] end) out (sent r0) err →
  ∃ r', (∀ m, (bus_pending_reply_free p;; out_of_memory reported) r m = Ok false r' m)
    ∧ tx r0 rem None out (if reported then Some NoMemory else err) r'.
Proof.
  intros Hp Hen ->. eexists. split.
  - intros m. erewrite at_ok; [by rewrite oom_run|]. apply (free_run p q). apply lookup_insert_eq.
  - exists en, iv. split; [|intros [[? ?]|?]; [done|auto]]. unfold with_pending_pool. simpl. apply not_elem_of_dom in Hp.
    rewrite delete_insert_id by done. by destruct reported.
Qed.

Lemma link_ends O r0 rem out err reported p q en iv r1 :
  p ∉ dom (pending_pool r0) → (timeout_enabled r0 = true → en = true) →
  r1 = Router (registry r0) (<[p := q]> (pending_pool r0)) (match rem with Some p => remove_item p (items r0) | None => items r0 end)
         en iv (now_sec r0) (now_usec r0) (match rem with Some p => [CheckPendingReplyData (Some p)] | None => [] end) out (sent r0) err →
  ends O (λ r, r = r1) (link_pending reported p)
    (λ b r, if (b : bool) then
              tx r0 rem (Some (p, PendingReply (now_sec r0) (now_usec r0) (will_get_reply q) (will_send_reply q) (reply_serial q))) out err r
            else O ∧ tx r0 rem None out (if reported then Some NoMemory else err) r) (λ _, False).
Proof.
  intros Hp Hen Er1. assert (ends O (λ r, r = r1 ∧ O) (bus_pending_reply_free p;; out_of_memory reported)
    (λ b r, if (b : bool) then False else O ∧ tx r0 rem None out (if reported then Some NoMemory else err) r) (λ _, False)) as Hfree.
  { intros r m [-> HO] Hm. destruct (unrecord r0 rem out err reported p q en iv r1 Hp Hen Er1) as (r' & -> & Htx). done. }
  unfold link_pending. eapply ends_bind; [apply ends_attempt, ends_request|]. intros []; cbn [negb].
  2: { eapply ends_conseq; [exact Hfree|done|by intros []|done]. }
  eapply ends_bind; [apply ends_attempt; eapply ends_conseq; [apply (list_add_ends O r1)| |done..]; naive_solver|]. intros []; cbn [negb].
  2: { eapply ends_conseq; [exact Hfree|done|by intros []|done]. }
  apply ends_exists. intros []. apply ends_exists. intros iv'. eapply ends_bind; [apply ends_attempt, hook_ends|]. intros []; cbn [negb].
  - intros r m ([] & r2 & -> & ->) Hm. rewrite at_gets. erewrite at_ok.
    2: { apply (set_pending_run p q). rewrite Er1. apply lookup_insert_eq. }
    split; [|done]. exists true, iv'. rewrite Er1. split; [|done]. unfold with_pending_pool. simpl. f_equal.
    apply map_eq. intros x. destruct (decide (x = p)) as [-> | Hne]; [by rewrite lookup_alter_eq, !lookup_insert_eq|].
    by rewrite lookup_alter_ne, !lookup_insert_ne.
  - intros r m [-> HO] Hm. unfold bus_expire_list_remove. erewrite at_ok.
    2: { erewrite at_ok; [|unfold bus_expire_list_contains_item; rewrite at_gets; reflexivity]. unfold bus_expire_list_remove_link. rewrite at_modify. reflexivity. }
    destruct (unrecord r0 rem out err reported p q true iv' (with_items (remove_item p) (with_timeout true iv' (with_items (cons p) r1))))
      as (r' & -> & Htx); [done|done| |done].
    rewrite Er1. unfold with_items. simpl. by rewrite decide_True.
Qed.

(** A call is recorded, or the list is as before. *)
Lemma record_ends O r0 rem out err reported get send serial :
  tidy r0 →
  ends O (tx r0 rem None out err) (record_pending reported get send serial)
    (λ b r, if (b : bool) then ∃ p, p ∉ dom (pending_pool r0)
              ∧ tx r0 rem (Some (p, PendingReply (now_sec r0) (now_usec r0) get (Some send) serial)) out err r
            else O ∧ tx r0 rem None out (if reported then Some NoMemory else err) r) (λ _, False).
Proof.
  intros Ht. unfold record_pending. eapply ends_bind; [apply ends_attempt, ends_request|]. intros []; cbn [negb].
  2: { intros r m [(en & iv & -> & Hen) HO] Hm. split; [|done]. split; [done|]. exists en, iv. by destruct reported. }
  intros r1 m1 ([] & en & iv & Er1 & Hen) Hm1. rewrite at_gets. cbv zeta. rewrite at_modify.
  set (p := fresh (dom (pending_pool r1))). set (q0 := PendingReply 0 0 get (Some send) serial).
  assert (p ∉ dom (pending_pool r0)) as Hp. { replace (pending_pool r0) with (pending_pool r1) by (by rewrite Er1). apply is_fresh. }
  pose proof (link_ends O r0 rem out err reported p q0 en iv (with_pending_pool (insert p q0) r1) Hp) as Hl.
  specialize (Hl ltac:(auto) ltac:(by rewrite Er1) _ m1 eq_refl Hm1).
  destruct (link_pending reported p _ m1) as [[] r m|r m|]; [|done..]. destruct Hl as [Hl ?]. split; [by exists p|done].
Qed.

(** ** The security check *)

Lemma on_registry_run {A} (c : BM A) a r m : (∀ m, c (registry r) m = Ok a (registry r) m) → on_registry c r m = Ok a r m.
Proof. intros Hc. unfold on_registry. rewrite Hc. by destruct r. Qed.

(** What the rules of both sides say. *)
Definition rules_allow (b : bus) (sender addressed proposed : option connection) (requested : bool) (msg : DBusMessage) : bool :=
  match sender with
  | Some s => decision (send_applies b requested proposed msg) (bus_connection_get_policy s)
  | None => true
  end
  && match proposed with
     | Some p =>
         negb (bus_connection_is_active p)
         || decision (receive_applies b requested (is_eavesdropping addressed proposed msg) sender msg) (bus_connection_get_policy p)
     | None => true
     end.

Lemma may_send_run sender proposed requested msg r m :
  consistent (registry r) →
  may_send sender proposed requested msg r m
  = Ok (match sender with
        | Some s => decision (send_applies (registry r) requested proposed msg) (bus_connection_get_policy s)
        | None => true
        end) r m.
Proof.
  intros Hb. destruct sender as [s|]; [|done]. unfold may_send. erewrite at_ok; [|apply on_registry_run; intros m1;
    unfold bus_client_policy_check_can_send; by rewrite can_send_run]. done.
Qed.

Lemma may_receive_run policy sender addressed proposed requested msg r m :
  consistent (registry r) →
  may_receive policy sender addressed proposed requested msg r m
  = Ok (match policy with
        | Some rules => decision (receive_applies (registry r) requested (is_eavesdropping addressed proposed msg) sender msg) rules
        | None => true
        end) r m.
Proof.
  intros Hb. destruct policy as [rules|]; [|done]. unfold may_receive. erewrite at_ok; [|apply on_registry_run; intros m1;
    unfold bus_client_policy_check_can_receive; by rewrite can_receive_run]. done.
Qed.

Definition known_type (msg : DBusMessage) : bool :=
  (DBUS_MESSAGE_TYPE_METHOD_CALL <=? message_type msg) && (message_type msg <=? DBUS_MESSAGE_TYPE_SIGNAL).

(** The assertions of the check hold. *)
Definition well_routed (sender addressed proposed : option connection) (msg : DBusMessage) : Prop :=
  (is_some (message_destination msg) || (message_type msg =? DBUS_MESSAGE_TYPE_SIGNAL)
     || negb (is_some sender) && negb (from_option bus_connection_is_active true proposed)) = true
  ∧ ((message_type msg =? DBUS_MESSAGE_TYPE_SIGNAL) || is_some addressed
     || bool_decide (message_destination msg = Some DBUS_SERVICE_DBUS)) = true
  ∧ (∀ s, sender = Some s → bus_connection_is_active s = true)
  ∧ (∀ p, sender ≠ None → proposed = Some p → bus_connection_is_active p = true).

Lemma check_message_run reported sender addressed proposed requested m r mm :
  consistent (registry r) → (∀ p, sender ≠ None → proposed = Some p → bus_connection_is_active p = true) →
  check_message reported sender addressed proposed requested m r mm
  = (if negb (rules_allow (registry r) sender addressed proposed requested (routed_msg m)) then deny reported AccessDenied
     else if queue_full (sent r) proposed then deny reported LimitsExceeded
     else
       match expects_reply sender addressed proposed (routed_msg m) with
       | Some (get, send) => bus_connections_expect_reply reported get send m
       | None => mret true
       end) r mm.
Proof.
  intros Hb Hp. unfold check_message, rules_allow. cbv zeta.
  set (policy := match proposed with Some p => if bus_connection_is_active p then Some (bus_connection_get_policy p) else None | None => None end).
  rewrite (at_ok _ policy r mm).
  2: { unfold recipient_policy, policy. destruct proposed as [p|]; [|done]. destruct (bus_connection_is_active p) eqn:Ea; [done|].
       destruct sender as [s|]; [|done]. by rewrite (Hp p) in Ea. }
  rewrite (at_ok _ _ _ _ _ _ _ (may_send_run sender proposed requested (routed_msg m) r mm Hb)).
  destruct (match sender with Some _ => _ | None => _ end); [|done]. cbn [negb andb].
  rewrite (at_ok _ _ _ _ _ _ _ (may_receive_run policy sender addressed proposed requested (routed_msg m) r mm Hb)).
  assert (match policy with
    | Some rules => decision (receive_applies (registry r) requested (is_eavesdropping addressed proposed (routed_msg m)) sender (routed_msg m)) rules
    | None => true end = match proposed with
     | Some p => negb (bus_connection_is_active p) || decision (receive_applies (registry r) requested
         (is_eavesdropping addressed proposed (routed_msg m)) sender (routed_msg m)) (bus_connection_get_policy p)
     | None => true end) as ->.
  { unfold policy. destruct proposed as [p|]; [|done]. by destruct (bus_connection_is_active p). }
  match goal with |- (if negb ?x then _ else _) _ _ = _ => destruct x end; [|done]. cbn [negb]. by rewrite at_gets.
Qed.

(** Copies and messages of the bus: the check changes nothing. *)
Lemma quiet_check_run sender addressed proposed m r :
  consistent (registry r) → well_routed sender addressed proposed (routed_msg m) → (sender = None ∨ addressed ≠ proposed) →
  ∃ b, (∀ mm, bus_context_check_security_policy false sender addressed proposed m r mm = Ok b r mm)
    ∧ (b = true → rules_allow (registry r) sender addressed proposed
         (negb (is_some sender) && bool_decide (addressed = proposed) && negb (message_reply_serial (routed_msg m) =? 0)) (routed_msg m) = true).
Proof.
  intros Hb (Hd & Ha & Hs & Hp) Hquiet.
  assert (∃ b, (∀ mm, check_sender false sender addressed proposed (routed_msg m) r mm = Ok b r mm)
    ∧ (b = inl false ∨ b = inr (negb (is_some sender) && bool_decide (addressed = proposed) && negb (message_reply_serial (routed_msg m) =? 0))))
    as (x & Hx & Hcases).
  { unfold check_sender. destruct sender as [s|]; [|eexists; split; [done|by right]]. destruct Hquiet as [?|Hne]; [done|].
    destruct (bus_selinux_allows_send s proposed (routed_msg m)); [|exists (inl false); split; [done|by left]..].
    rewrite (Hs s eq_refl). exists (inr false). split; [|by right]. intros mm. destruct proposed as [p|]; [|done].
    rewrite bool_decide_false by done. by rewrite andb_false_r. }
  assert (expects_reply sender addressed proposed (routed_msg m) = None) as He.
  { unfold expects_reply. destruct sender as [s|]; [|done]. destruct Hquiet as [?|Hne]; [done|]. destruct addressed as [a|]; [|done].
    rewrite bool_decide_false by done. by rewrite andb_false_r. }
  assert (∀ mm, bus_context_check_security_policy false sender addressed proposed m r mm
    = (if negb (known_type (routed_msg m)) then mret false
       else match x with inl b => mret b | inr requested => check_message false sender addressed proposed requested m end) r mm) as Hrun.
  { intros mm. unfold bus_context_check_security_policy. cbv zeta. rewrite !at_assert by done. fold (known_type (routed_msg m)).
    destruct (known_type (routed_msg m)); [|done]. cbn [negb]. rewrite (at_ok _ _ _ _ _ _ _ (Hx mm)). by destruct x. }
  destruct (known_type (routed_msg m)); cbn [negb] in Hrun; [|by exists false]. destruct Hcases as [-> | ->]; [by exists false|].
  assert (∀ mm, check_message false sender addressed proposed (negb (is_some sender) && bool_decide (addressed = proposed)
    && negb (message_reply_serial (routed_msg m) =? 0)) m r mm = Ok (rules_allow (registry r) sender addressed proposed (negb (is_some sender) && bool_decide (addressed = proposed)
    && negb (message_reply_serial (routed_msg m) =? 0)) (routed_msg m) && negb (queue_full (sent r) proposed)) r mm) as Hmsg.
  { intros mm. rewrite check_message_run by done. rewrite He. destruct (rules_allow _ _ _ _ _ _); [|done]. by destruct (queue_full _ _). }
  eexists. split; [intros mm; rewrite Hrun; apply Hmsg|]. by intros [? _]%andb_true_iff.
Qed.

(** *** The message for its addressed recipient *)

(** The call of [a] that the message of [s] answers. *)
Definition answered_call (r : router) (s a : connection) (msg : DBusMessage) : option pending_ptr :=
  if message_reply_serial msg =? 0 then None
  else List.find (pending_in (pending_pool r) a s (message_reply_serial msg)) (items r).

Definition wants_reply (m : routed) : bool :=
  (message_type (routed_msg m) =? DBUS_MESSAGE_TYPE_METHOD_CALL) && negb (routed_no_reply m).

(** Why a message may not pass. *)
Definition verdict (r : router) (s a : connection) (m : routed) : option dispatch_error :=
  let msg := routed_msg m in
  if negb (known_type msg) then Some AccessDenied
  else
    match bus_selinux_allows_send s (Some a) msg with
    | SELinuxOom => Some NoMemory
    | SELinuxDenied => Some AccessDenied
    | SELinuxAllowed =>
        let answered := answered_call r s a msg in
        if negb (rules_allow (registry r) (Some s) (Some a) (Some a) (is_some answered) msg) then Some AccessDenied
        else if queue_full (sent r) (Some a) then Some LimitsExceeded
        else if wants_reply m then
          let others := match answered with Some p => remove_item p (items r) | None => items r end in
          if existsb (pending_in (pending_pool r) s a (routed_serial m)) others then Some AccessDenied
          else if bus_context_get_max_replies_per_connection <=? Z.of_nat (length (List.filter (waits_for (pending_pool r) s) others))
          then Some LimitsExceeded
          else None
        else None
    end.

(** The record of the call. *)
Definition recorded (r : router) (s a : connection) (m : routed) (add : option (pending_ptr * BusPendingReply)) : Prop :=
  if wants_reply m then
    ∃ p, p ∉ dom (pending_pool r) ∧ add = Some (p, PendingReply (now_sec r) (now_usec r) s (Some a) (routed_serial m))
  else add = None.

Lemma deny_ends O r0 rem out e :
  ends O (tx r0 rem None out None) (deny true e)
    (λ b r, b = false ∧ ∃ e', tx r0 rem None out (Some e') r ∧ (e' = e ∨ e' = NoMemory ∧ O)) (λ _, False).
Proof.
  intros r m (en & iv & -> & Hen) Hm. unfold deny, set_dispatch_error, mbind, M_bind, mret, M_ret. destruct (alloc m) as [ok m'] eqn:E.
  split; [|intros Hf; by eapply Hm, alloc_mono]. split; [done|]. destruct ok.
  - exists e. split; [by exists en, iv|by left].
  - exists NoMemory. split; [by exists en, iv|]. right. split; [done|]. by eapply Hm, alloc_fail.
Qed.

(** How a check ends that found the call [rem]. *)
Definition checked_as (O : Prop) (r0 : router) (s a : connection) (m : routed) (out : list sending) (rem : option pending_ptr)
    (why : option dispatch_error) (b : bool) (r : router) : Prop :=
  if b then why = None ∧ ∃ add, recorded r0 s a m add ∧ tx r0 rem add out None r
  else ∃ e, tx r0 rem None out (Some e) r ∧ (why = Some e ∨ e = NoMemory ∧ O).

Lemma expect_ends O r0 s a m out rem :
  tidy r0 → (∀ p, rem = Some p → p ∈ items r0) → routed_no_reply m = false → wants_reply m = true →
  let others := match rem with Some p => remove_item p (items r0) | None => items r0 end in
  ends O (tx r0 rem None out None) (bus_connections_expect_reply true s a m)
    (checked_as O r0 s a m out rem
       (if existsb (pending_in (pending_pool r0) s a (routed_serial m)) others then Some AccessDenied
        else if bus_context_get_max_replies_per_connection <=? Z.of_nat (length (List.filter (waits_for (pending_pool r0) s) others))
        then Some LimitsExceeded else None)) (λ _, False).
Proof.
  intros Ht Hrem Hnr Hw others. unfold bus_connections_expect_reply. rewrite Hnr. apply ends_gets. intros r1 Hr1.
  pose proof Hr1 as (en & iv & Er1 & Hen).
  eapply (ends_run _ _ _ (if existsb (pending_in (pending_pool r0) s a (routed_serial m)) others then None
    else Some (Z.of_nat (length (List.filter (waits_for (pending_pool r0) s) others))))).
  { intros r mm ->. rewrite expect_loop_run; rewrite Er1; [done|]. intros p Hp. simpl in *. apply tidy_pool; [done|].
    destruct rem as [p'|]; [|done]. by apply remove_item_in in Hp as [? _]; [|apply Ht]. }
  assert (∀ e, ends O (λ r, r = r1) (deny true e) (checked_as O r0 s a m out rem (Some e)) (λ _, False)) as Hdeny.
  { intros e. eapply ends_conseq; [apply (deny_ends O r0 rem out e)|by intros r ->| |done].
    intros b r (-> & e' & Htx & He). exists e'. naive_solver. }
  destruct (existsb _ others); [apply Hdeny|]. destruct (_ <=? _); [apply Hdeny|].
  eapply ends_conseq; [apply (record_ends O r0 rem out None true s a (routed_serial m) Ht)|by intros r ->| |done].
  intros [] r.
  - intros (p & Hp & Htx). split; [done|]. eexists. split; [|exact Htx]. unfold recorded. rewrite Hw. by exists p.
  - intros [HO Htx]. exists NoMemory. tauto.
Qed.

Lemma check_message_ends O r0 s a m out rem :
  tidy r0 → bus_connection_is_active a = true → (∀ p, rem = Some p → p ∈ items r0) →
  let others := match rem with Some p => remove_item p (items r0) | None => items r0 end in
  ends O (tx r0 rem None out None) (check_message true (Some s) (Some a) (Some a) (is_some rem) m)
    (checked_as O r0 s a m out rem
       (if negb (rules_allow (registry r0) (Some s) (Some a) (Some a) (is_some rem) (routed_msg m)) then Some AccessDenied
        else if queue_full (sent r0) (Some a) then Some LimitsExceeded
        else if wants_reply m then
          if existsb (pending_in (pending_pool r0) s a (routed_serial m)) others then Some AccessDenied
          else if bus_context_get_max_replies_per_connection <=? Z.of_nat (length (List.filter (waits_for (pending_pool r0) s) others))
          then Some LimitsExceeded
          else None
        else None)) (λ _, False).
Proof.
  intros Ht Ha Hrem others.
  assert (∀ e, ends O (tx r0 rem None out None) (deny true e) (checked_as O r0 s a m out rem (Some e)) (λ _, False)) as Hdeny.
  { intros e. eapply ends_conseq; [apply (deny_ends O r0 rem out e)|done| |done]. intros b r (-> & e' & Htx & He). exists e'. naive_solver. }
  intros r mm Htx Hm. pose proof Htx as (en & iv & Er & _).
  assert (registry r = registry r0 ∧ sent r = sent r0) as [Er1 Er2] by (by rewrite Er).
  rewrite check_message_run; [|rewrite Er1; apply Ht|by intros p _ [= <-]]. rewrite Er1, Er2.
  destruct (rules_allow _ _ _ _ _ _); cbn [negb]; [|by apply Hdeny]. destruct (queue_full _ _); [by apply Hdeny|].
  unfold expects_reply, wants_reply. rewrite bool_decide_true by done. rewrite andb_true_r.
  assert (wants_reply m = false → (mret true : RM bool) r mm = Ok true r mm → checked_as O r0 s a m out rem None true r) as Hnone.
  { intros Hw _. split; [done|]. exists None. split; [|done]. unfold recorded. by rewrite Hw. }
  unfold wants_reply in Hnone. destruct (message_type (routed_msg m) =? DBUS_MESSAGE_TYPE_METHOD_CALL) eqn:Ety; cbn [andb] in *.
  - destruct (routed_no_reply m) eqn:Enr; cbn [negb] in *.
    + unfold bus_connections_expect_reply. rewrite Enr. split; [by apply Hnone|done].
    + apply expect_ends; try done. unfold wants_reply. by rewrite Ety, Enr.
  - split; [by apply Hnone|done].
Qed.

Lemma find_in {A} (f : A → bool) l x : List.find f l = Some x → x ∈ l ∧ f x = true.
Proof. intros E. apply List.find_some in E as [Hx Hf]. split; [by apply list_elem_of_In|done]. Qed.

Lemma answered_in r s a msg p : answered_call r s a msg = Some p → p ∈ items r.
Proof. unfold answered_call. destruct (_ =? 0); [done|]. by intros [? _]%find_in. Qed.

(** The check ends before it looks for a call that the message answers. *)
Definition stopped_early (s a : connection) (msg : DBusMessage) : Prop :=
  known_type msg = false ∨ bus_selinux_allows_send s (Some a) msg ≠ SELinuxAllowed.

(** The check for the addressed recipient gives the verdict, unless memory is refused. *)
Lemma check_ends O r0 s a m out :
  tidy r0 → bus_connection_is_active s = true → bus_connection_is_active a = true → is_some (message_destination (routed_msg m)) = true →
  ends O (tx r0 None None out None) (bus_context_check_security_policy true (Some s) (Some a) (Some a) m)
    (λ b r, ∃ rem, (rem = answered_call r0 s a (routed_msg m) ∨ rem = None ∧ b = false ∧ (O ∨ stopped_early s a (routed_msg m)))
      ∧ checked_as O r0 s a m out rem (verdict r0 s a m) b r) (λ _, False).
Proof.
  intros Ht Hs Ha Hd. unfold bus_context_check_security_policy. cbv zeta. rewrite Hd.
  apply (ends_run _ _ _ tt); [done|]. apply (ends_run _ _ _ tt); [intros r mm _; by rewrite orb_true_r|].
  unfold verdict. fold (known_type (routed_msg m)). unfold stopped_early. destruct (known_type (routed_msg m)) eqn:Ek; cbn [negb].
  2: { eapply ends_conseq; [apply (deny_ends O r0 None out)|done| |done]. intros b r (-> & e' & Htx & He). exists None. split; [right; naive_solver|]. exists e'. naive_solver. }
  set (answered := answered_call r0 s a (routed_msg m)).
  eapply (ends_bind _ _ _ _ (λ x r, match x with
    | inl b => b = false ∧ ∃ e, tx r0 None None out (Some e) r ∧ (bus_selinux_allows_send s (Some a) (routed_msg m) = SELinuxOom ∧ e = NoMemory
        ∨ bus_selinux_allows_send s (Some a) (routed_msg m) = SELinuxDenied ∧ e = AccessDenied ∨ e = NoMemory ∧ O)
    | inr req => bus_selinux_allows_send s (Some a) (routed_msg m) = SELinuxAllowed ∧ req = is_some answered ∧ tx r0 answered None out None r
    end)).
  - unfold check_sender. destruct (bus_selinux_allows_send s (Some a) (routed_msg m)) eqn:Esel.
    + rewrite Hs, bool_decide_true, andb_true_r by done. unfold answered, answered_call. destruct (message_reply_serial (routed_msg m) =? 0) eqn:E0; cbn [negb].
      { apply ends_ret. done. }
      eapply ends_bind; [apply (check_reply_ends O r0 out None s a (message_reply_serial (routed_msg m)) Ht)|].
      intros [[] [e|]].
      * by intros r mm [].
      * apply ends_ret. intros r [Hf Htx]. split; [done|]. split; [|done]. by destruct Hf as [p ->].
      * intros r mm (-> & HO & en & iv & -> & Hen) Hm. split; [|done]. split; [done|]. exists NoMemory. split; [by exists en, iv|]. naive_solver.
      * apply ends_ret. intros r [Hf Htx]. rewrite Hf. done.
    + eapply ends_bind; [apply (deny_ends O r0 None out)|]. intros b. apply ends_ret. intros r (-> & e' & Htx & He). split; [done|]. exists e'. naive_solver.
    + intros r mm (en & iv & -> & Hen) Hm. split; [|done]. split; [done|]. exists NoMemory. split; [by exists en, iv|]. naive_solver.
  - intros [b|req].
    + apply ends_ret. intros r (-> & e & Htx & He). exists None.
      split; [right; split_and!; [done|done|]; destruct He as [[E _]|[[E _]|[_ ?]]]; [right; right; by rewrite E..|by left]|].
      exists e. split; [done|]. destruct He as [[-> ->]|[[-> ->]|?]]; naive_solver.
    + eapply (ends_pure _ _ (bus_selinux_allows_send s (Some a) (routed_msg m) = SELinuxAllowed ∧ req = is_some answered)); [naive_solver|].
      intros [-> ->]. eapply ends_conseq; [apply (check_message_ends O r0 s a m out answered Ht Ha)| | |done].
      * intros p Hp. by eapply answered_in.
      * by intros r (_ & _ & Htx).
      * intros b r Hc. exists answered. split; [by left|exact Hc].
Qed.

(** ** Routing *)

Lemma send_ends O r0 rem add out err x :
  ends O (tx r0 rem add out err) (bus_transaction_send x)
    (λ _, tx r0 rem add (out ++ if dbus_connection_get_is_connected (recipient_of x) then [x] else []) err) (tx r0 rem add out err).
Proof.
  unfold bus_transaction_send. destruct (dbus_connection_get_is_connected _); cbn [negb].
  2: { apply ends_ret. intros r Htx. by rewrite app_nil_r. }
  eapply ends_bind; [apply ends_requests|]. intros []. apply ends_gets. intros r1 Hr1.
  eapply (ends_bind _ _ _ _ (λ _ r, r = r1)).
  - destruct (existsb _ _); [by apply ends_ret|]. eapply ends_conseq; [apply (ends_request O (λ r, r = r1))|done|done|]. by intros r ->.
  - intros []. apply ends_modify. intros r ->. destruct Hr1 as (en & iv & -> & Hen). by exists en, iv.
Qed.

Definition routing_ok (s : connection) (addressed : option connection) (msg : DBusMessage) : Prop :=
  (is_some (message_destination msg) || (message_type msg =? DBUS_MESSAGE_TYPE_SIGNAL)) = true
  ∧ ((message_type msg =? DBUS_MESSAGE_TYPE_SIGNAL) || is_some addressed) = true ∧ bus_connection_is_active s = true.

(** The copies that rules of both sides allow. *)
Definition copies (r : router) (s : connection) (addressed : option connection) (m : routed) (l : list sending) : Prop :=
  ∀ x, x ∈ l → ∃ d, x = Copied s d m ∧ rules_allow (registry r) (Some s) addressed (Some d) false (routed_msg m) = true.

Lemma send_one_ends O r0 rem add out d s addressed m :
  tidy r0 → routing_ok s addressed (routed_msg m) → bus_connection_is_active d = true → addressed ≠ Some d →
  ends O (tx r0 rem add out None) (send_one_message d s addressed m)
    (λ b r, ∃ l, copies r0 s addressed m l ∧ (if (b : bool) then tx r0 rem add (out ++ l) None r else O ∧ tx r0 rem add (out ++ l) (Some NoMemory) r))
    (λ _, False).
Proof.
  intros Ht (H1 & H2 & H3) Hd Hne. unfold send_one_message. intros r mm Htx. pose proof Htx as (en & iv & Er & _).
  assert (registry r = registry r0) as Er1 by (by rewrite Er).
  destruct (quiet_check_run (Some s) addressed (Some d) m r) as (b & Hb & Hallow).
  - rewrite Er1. apply Ht.
  - repeat split; [by rewrite H1|by rewrite H2|by intros ? [= <-]|by intros ? _ [= <-]].
  - by right.
  - rewrite (at_ok _ _ _ _ _ _ _ (Hb mm)). destruct b; cbn [negb].
    2: { intros Hm. split; [|done]. exists []. split; [by intros ? ?%elem_of_nil|]. by rewrite app_nil_r. }
    revert mm. assert (ends O (tx r0 rem add out None) (ok ← attempt (bus_transaction_send (Copied s d m)); if negb ok then out_of_memory true else mret true)
      (λ b r, ∃ l, copies r0 s addressed m l ∧ (if (b : bool) then tx r0 rem add (out ++ l) None r else O ∧ tx r0 rem add (out ++ l) (Some NoMemory) r))
      (λ _, False)) as Hends; [|intros mm; by apply Hends].
    eapply ends_bind; [apply ends_attempt, send_ends|]. intros [].
    + apply ends_ret. intros r1 [[] Htx1]. eexists. split; [|exact Htx1]. rewrite Er1 in Hallow. intros x Hx. exists d.
      destruct (dbus_connection_get_is_connected _); [|by apply elem_of_nil in Hx]. apply list_elem_of_singleton in Hx as ->. split; [done|]. by apply Hallow.
    + intros r1 mm [(en1 & iv1 & -> & Hen1) HO] Hm. split; [|done]. exists []. split; [by intros ? ?%elem_of_nil|]. rewrite app_nil_r. split; [done|]. by exists en1, iv1.
Qed.

Lemma send_to_all_ends O r0 rem add s addressed m dests : ∀ out,
  tidy r0 → routing_ok s addressed (routed_msg m) → (∀ d, d ∈ dests → bus_connection_is_active d = true ∧ addressed ≠ Some d) →
  ends O (tx r0 rem add out None) (send_to_all dests s addressed m)
    (λ b r, ∃ l, copies r0 s addressed m l ∧ (if (b : bool) then tx r0 rem add (out ++ l) None r else O ∧ tx r0 rem add (out ++ l) (Some NoMemory) r))
    (λ _, False).
Proof.
  induction dests as [|d dests IH]; intros out Ht Hok Hd; cbn [send_to_all].
  - apply ends_ret. intros r Htx. exists []. split; [by intros ? ?%elem_of_nil|]. by rewrite app_nil_r.
  - destruct (Hd d) as [Hd1 Hd2]; [by apply elem_of_cons; left|]. eapply ends_bind; [by apply send_one_ends|]. intros []; cbn [negb].
    2: { by apply ends_ret. }
    apply ends_exists. intros l. eapply (ends_pure _ _ (copies r0 s addressed m l)); [by intros r [? _]|]. intros Hl.
    eapply ends_conseq; [apply (IH (out ++ l) Ht Hok)| | |done].
    + intros d' Hd'. apply Hd. by apply elem_of_cons; right.
    + by intros r [_ Htx].
    + intros b r (l' & Hl' & Htx). exists (l ++ l'). rewrite app_assoc. split; [|done]. intros x [Hx|Hx]%elem_of_app; auto.
Qed.

Lemma matches_ends O r0 rem add out s addressed m :
  tidy r0 → routing_ok s addressed (routed_msg m) →
  ends O (tx r0 rem add out None) (bus_dispatch_matches s addressed m)
    (λ b r, ∃ l, copies r0 s addressed m l ∧ (if (b : bool) then tx r0 rem add (out ++ l) None r else O ∧ tx r0 rem add (out ++ l) (Some NoMemory) r))
    (λ _, False).
Proof.
  intros Ht Hok. unfold bus_dispatch_matches. eapply ends_bind; [apply ends_attempt, ends_request|]. intros []; cbn [negb].
  - apply ends_exists. intros []. apply send_to_all_ends; [done|done|]. intros d Hd. split; [by eapply recipients_active|].
    intros ->. by eapply recipients_not_addressed.
  - intros r mm [(en & iv & -> & Hen) HO] Hm. split; [|done]. exists []. split; [by intros ? ?%elem_of_nil|]. rewrite app_nil_r. split; [done|]. by exists en, iv.
Qed.

Lemma primary_owner_run name r m :
  consistent (registry r) → primary_owner_of name r m = Ok (who <$> head (queue (registry r) name)) r m.
Proof.
  intros (g & t & Hb). pose proof Hb as ([H1 H2 H3 H4 H5] & W & _). unfold primary_owner_of, queue.
  erewrite at_ok; [|apply on_registry_run; intros m1; reflexivity]. rewrite H1. destruct (r_hash g !! name) as [s|] eqn:Hs; [|done]. simpl.
  destruct (wf_hash _ _ _ W _ _ Hs) as (l & Hl & Hne). destruct l as [|o l]; [done|]. rewrite H2, Hl. simpl.
  destruct (wf_links _ _ _ W _ _ _ _ Hl (proj2 (elem_of_cons _ _ _) (or_introl eq_refl))) as [cl Ho].
  erewrite at_ok; [|apply on_registry_run; intros m1; unfold bus_service_get_primary_owner, get_service;
    erewrite at_ok by (rewrite at_gets; simpl; rewrite H2, Hl; reflexivity); reflexivity]. simpl.
  erewrite at_ok by reflexivity. erewrite at_ok; [|apply on_registry_run; intros m1; unfold get_owner; rewrite at_gets; simpl; rewrite H3, Ho; reflexivity].
  by rewrite H3, Ho.
Qed.

(** How the route of a message ends: [rem] and [add] are the changes of the list, [out] is
    to be sent, [err] is the error. *)
Inductive route_result (O : Prop) (r : router) (c : connection) (m : routed) :
  option pending_ptr → option (pending_ptr * BusPendingReply) → list sending → option dispatch_error → Prop :=
| route_no_memory : O → route_result O r c m None None [] (Some NoMemory)
| route_unowned name e :
    message_destination (routed_msg m) = Some name → queue (registry r) name = [] → routed_auto_start m = false →
    e = NameHasNoOwner ∨ e = NoMemory ∧ O → route_result O r c m None None [] (Some e)
| route_unstarted name text e :
    message_destination (routed_msg m) = Some name → queue (registry r) name = [] → routed_auto_start m = true →
    bus_activation_activate_service c m name = Some text → e = ActivationFailed text ∨ e = NoMemory ∧ O →
    route_result O r c m None None [] (Some e)
| route_starting name :
    message_destination (routed_msg m) = Some name → queue (registry r) name = [] → routed_auto_start m = true →
    bus_activation_activate_service c m name = None → route_result O r c m None None [] None
| route_refused name x q rem e :
    message_destination (routed_msg m) = Some name → queue (registry r) name = x :: q →
    rem = answered_call r c (who x) (routed_msg m) ∨ rem = None ∧ (O ∨ stopped_early c (who x) (routed_msg m)) →
    verdict r c (who x) m = Some e ∨ e = NoMemory ∧ O →
    route_result O r c m rem None [] (Some e)
| route_passed name x q add l err :
    message_destination (routed_msg m) = Some name → queue (registry r) name = x :: q →
    verdict r c (who x) m = None → recorded r c (who x) m add → copies r c (Some (who x)) m l → err = None ∨ err = Some NoMemory ∧ O →
    route_result O r c m (answered_call r c (who x) (routed_msg m)) add
      ((if dbus_connection_get_is_connected (who x) then [Forwarded c (who x) m] else []) ++ l) err
| route_unsent name x q add :
    message_destination (routed_msg m) = Some name → queue (registry r) name = x :: q →
    verdict r c (who x) m = None → recorded r c (who x) m add → O →
    route_result O r c m (answered_call r c (who x) (routed_msg m)) add [] (Some NoMemory)
| route_signal l err :
    message_destination (routed_msg m) = None → copies r c None m l → err = None ∨ err = Some NoMemory ∧ O →
    route_result O r c m None None l err.

Lemma copies_result O r0 c m rem add out b r addressed :
  (∃ l, copies r0 c addressed m l ∧ (if (b : bool) then tx r0 rem add (out ++ l) None r else O ∧ tx r0 rem add (out ++ l) (Some NoMemory) r)) →
  ∃ l err, copies r0 c addressed m l ∧ (err = None ∨ err = Some NoMemory ∧ O) ∧ tx r0 rem add (out ++ l) err r.
Proof. intros (l & Hl & Hb). destruct b; [exists l, None; naive_solver|]. exists l, (Some NoMemory). naive_solver. Qed.

(** Only active connections own names. *)
Definition owners_active (b : bus) : Prop := ∀ name x l, queue b name = x :: l → bus_connection_is_active (who x) = true.

Lemma route_ends O r0 c m :
  tidy r0 → owners_active (registry r0) → bus_connection_is_active c = true →
  (message_destination (routed_msg m) = None → (message_type (routed_msg m) =? DBUS_MESSAGE_TYPE_SIGNAL) = true) →
  ends O (tx r0 None None [] None) (route c m)
    (λ _ r, ∃ rem add out err, route_result O r0 c m rem add out err ∧ tx r0 rem add out err r) (λ _, False).
Proof.
  intros Ht Hown Hc Hsig. unfold route. eapply ends_bind; [apply ends_attempt, ends_request|]. intros []; cbn [negb].
  2: { intros r mm [(en & iv & -> & Hen) HO] Hm. split; [|done]. exists None, None, [], (Some NoMemory). split; [by constructor|]. by exists en, iv. }
  apply ends_exists. intros []. destruct (message_destination (routed_msg m)) as [name|] eqn:Ed.
  2: { eapply ends_conseq; [apply (matches_ends O r0 None None [] c None m Ht)|done| |done].
       - split; [|by rewrite (Hsig eq_refl)]. by rewrite (Hsig eq_refl), orb_true_r.
       - intros b r (l & err & Hl & He & Htx)%copies_result. exists None, None, l, err. split; [by apply route_signal|done]. }
  eapply (ends_run _ _ _ (who <$> head (queue (registry r0) name))).
  { intros r mm (en & iv & -> & _). by rewrite primary_owner_run by apply Ht. }
  destruct (queue (registry r0) name) as [|x q] eqn:Eq; simpl.
  { destruct (routed_auto_start m) eqn:Es.
    2: { eapply ends_conseq; [apply (deny_ends O r0 None [])|done| |done]. intros b r (_ & e & Htx & He). exists None, None, [], (Some e).
         split; [by eapply route_unowned|done]. }
    eapply ends_bind; [apply ends_attempt, ends_request|]. intros []; cbn [negb].
    2: { intros r mm [(en & iv & -> & Hen) HO] Hm. split; [|done]. exists None, None, [], (Some NoMemory). split; [by constructor|]. by exists en, iv. }
    apply ends_exists. intros []. destruct (bus_activation_activate_service c m name) as [text|] eqn:Ea.
    - eapply ends_conseq; [apply (deny_ends O r0 None [])|done| |done]. intros b r (_ & e & Htx & He). exists None, None, [], (Some e).
      split; [by eapply route_unstarted|done].
    - apply ends_ret. intros r Htx. exists None, None, [], None. split; [by eapply route_starting|done]. }
  pose proof (Hown name x q Eq) as Ha. eapply ends_bind; [apply (check_ends O r0 c (who x) m [] Ht Hc Ha); by rewrite Ed|]. intros []; cbn [negb].
  2: { apply ends_ret. intros r (rem & Hrem & e & Htx & He). exists rem, None, [], (Some e). split; [|done]. eapply route_refused; [done..|naive_solver|done]. }
  apply ends_exists. intros rem. apply (ends_pure _ _ (rem = answered_call r0 c (who x) (routed_msg m) ∧ verdict r0 c (who x) m = None)).
  { intros r [Hrem [Hv _]]. naive_solver. }
  intros [-> Hv]. eapply ends_conseq with (P' := λ r, ∃ add, recorded r0 c (who x) m add ∧ tx r0 (answered_call r0 c (who x) (routed_msg m)) add [] None r); [|naive_solver|by intros a s; exact id|by intros s; exact id].
  apply ends_exists. intros add. eapply (ends_pure _ _ (recorded r0 c (who x) m add)); [by intros r [? _]|]. intros Hrec.
  eapply ends_conseq with (P' := tx r0 (answered_call r0 c (who x) (routed_msg m)) add [] None); [|by intros r [_ ?]|by intros a s; exact id|by intros s; exact id].
  eapply ends_bind; [apply ends_attempt, send_ends|]. intros []; cbn [negb].
  - apply ends_exists. intros []. eapply ends_conseq; [eapply (matches_ends O r0 _ add) with (s := c) (addressed := Some (who x)) (m := m); [exact Ht|]|done| |done].
    + repeat split; [by rewrite Ed|by rewrite orb_true_r|done].
    + intros b r (l & err & Hl & He & Htx)%copies_result. do 4 eexists. split; [|exact Htx]. by eapply route_passed.
  - intros r mm [(en & iv & -> & Hen) HO] Hm. split; [|done]. exists (answered_call r0 c (who x) (routed_msg m)), add, [], (Some NoMemory).
    split; [by eapply route_unsent|]. by exists en, iv.
Qed.

(** *** The end of a transaction *)

(** The changes of a transaction fit the state it began in. *)
Definition changes_ok (r0 : router) (rem : option pending_ptr) (add : option (pending_ptr * BusPendingReply)) : Prop :=
  (∀ p, rem = Some p → p ∈ items r0) ∧ (∀ p q, add = Some (p, q) → p ∉ dom (pending_pool r0)).

Definition left_items (r0 : router) (rem : option pending_ptr) : list pending_ptr :=
  match rem with Some p => remove_item p (items r0) | None => items r0 end.

Lemma left_in r0 rem p : tidy r0 → p ∈ left_items r0 rem → p ∈ items r0 ∧ rem ≠ Some p.
Proof.
  intros Ht. unfold left_items. destruct rem as [q|]; [|done]. rewrite remove_item_in by apply Ht. naive_solver.
Qed.

(** After cancelling, the list is as before up to the order. *)
Definition restored (r0 : router) (out : list sending) (err : option dispatch_error) (r : router) : Prop :=
  ∃ l en iv, l ≡ₚ items r0 ∧ (l ≠ [] → en = true)
    ∧ r = Router (registry r0) (pending_pool r0) l en iv (now_sec r0) (now_usec r0) [] [] (sent r0 ++ out) err.

Lemma cancel_pending_run p q l pool0 r m :
  items r = p :: l → pending_pool r = <[p := q]> pool0 → p ∉ dom pool0 →
  cancel_pending_reply p r m = Ok tt (with_pending_pool (λ _, pool0) (with_items (λ _, l) r)) m.
Proof.
  intros Hi Hpool Hp. unfold cancel_pending_reply, bus_expire_list_remove. erewrite at_ok.
  2: { erewrite at_ok; [|unfold bus_expire_list_contains_item; rewrite at_gets; reflexivity]. unfold bus_expire_list_remove_link. rewrite at_modify. reflexivity. }
  rewrite at_assert by (apply bool_decide_true; simpl; rewrite Hi; by apply elem_of_cons; left).
  rewrite (free_run p q) by (simpl; rewrite Hpool; apply lookup_insert_eq). unfold with_pending_pool, with_items. simpl.
  rewrite Hi, Hpool. simpl. rewrite decide_True by done. apply not_elem_of_dom in Hp. by rewrite delete_insert_id.
Qed.

Lemma cancel_check_run p r m : ∃ iv, cancel_check_pending_reply (Some p) r m = Ok tt (with_timeout true iv (with_items (cons p) r)) m.
Proof.
  unfold cancel_check_pending_reply, bus_expire_list_add_link. rewrite (at_checked _ p) by done. rewrite at_modify. apply start_timeout_run.
Qed.

(** The hooks have run: there is nothing left to free. *)
Lemma free_done_run l r m :
  (∀ h, h ∈ l → ∃ p, h = CancelPendingReplyData p ∨ h = CheckPendingReplyData None) → free_hooks_loop l r m = Ok tt r m.
Proof.
  induction l as [|h l IH]; intros Hl; [done|]. cbn [free_hooks_loop]. rewrite (at_ok _ tt r m).
  - apply IH. intros h' Hh'. apply Hl. by apply elem_of_cons; right.
  - destruct (Hl h) as [p [-> | ->]]; [by apply elem_of_cons; left|done..].
Qed.

Lemma cancel_hooks_run r0 rem add out err r m :
  tidy r0 → changes_ok r0 rem add → tx r0 rem add out err r →
  ∃ l hs en iv, l ≡ₚ items r0 ∧ (l ≠ [] → en = true)
    ∧ (∀ h, h ∈ hs → ∃ p, h = CancelPendingReplyData p ∨ h = CheckPendingReplyData None)
    ∧ cancel_hooks_loop (reply_hooks r) (with_to_send (λ _, []) r) m
      = Ok hs (Router (registry r0) (pending_pool r0) l en iv (now_sec r0) (now_usec r0) (reply_hooks r) [] (sent r0) err) m.
Proof.
  intros Ht [Hrem Hadd] (en & iv & -> & Hen). cbn [reply_hooks].
  set (chk := match rem with Some p => [CheckPendingReplyData (Some p)] | None => [] end).
  set (rA := λ hs, Router (registry r0) (pending_pool r0) (left_items r0 rem) en iv (now_sec r0) (now_usec r0) hs [] (sent r0) err).
  assert (∀ hs, ∃ l en' iv' hs', l ≡ₚ items r0 ∧ (l ≠ [] → en' = true) ∧ (∀ h, h ∈ hs' → h = CheckPendingReplyData None)
    ∧ cancel_hooks_loop chk (rA hs) m = Ok hs' (Router (registry r0) (pending_pool r0) l en' iv' (now_sec r0) (now_usec r0) hs [] (sent r0) err) m) as Hchk.
  { intros hs. subst chk rA. destruct rem as [x|]; cbn [left_items cancel_hooks_loop cancel_hook_cancel].
    - edestruct (cancel_check_run x) as [iv' E]. eexists (x :: remove_item x (items r0)), true, iv', [CheckPendingReplyData None].
      split; [by apply remove_item_perm, Hrem|]. split; [done|]. split; [by intros h ->%list_elem_of_singleton|].
      erewrite at_ok; [|erewrite at_ok by apply E; reflexivity]. done.
    - exists (items r0), en, iv, []. split; [done|]. split; [intros Hne; apply Hen; right; by apply Ht|]. split; [by intros h ?%elem_of_nil|done]. }
  destruct add as [[p q]|]; cbn [app].
  - destruct (Hchk (CancelPendingReplyData p :: chk)) as (l & en' & iv' & hs' & Hl & Hen' & Hhs & E). exists l, (CancelPendingReplyData p :: hs'), en', iv'.
    split; [done|]. split; [done|]. split; [intros h [-> | Hh]%elem_of_cons; [eauto|]; exists p; right; auto|].
    cbn [cancel_hooks_loop cancel_hook_cancel]. erewrite at_ok.
    2: { erewrite at_ok; [reflexivity|]. apply (cancel_pending_run p q (left_items r0 rem) (pending_pool r0)); [done|done|by eapply Hadd]. }
    erewrite at_ok by exact E. done.
  - destruct (Hchk chk) as (l & en' & iv' & hs' & Hl & Hen' & Hhs & E). exists l, hs', en', iv'. split; [done|]. split; [done|].
    split; [intros h Hh; exists 1%positive; right; auto|exact E].
Qed.

Lemma cancel_run r0 rem add out err r m :
  tidy r0 → changes_ok r0 rem add → tx r0 rem add out err r →
  ∃ r', bus_transaction_cancel_and_free r m = Ok tt r' m ∧ restored r0 [] err r'.
Proof.
  intros Ht Hch Htx. destruct (cancel_hooks_run r0 rem add out err r m Ht Hch Htx) as (l & hs & en & iv & Hl & Hen & Hhs & E).
  unfold bus_transaction_cancel_and_free. rewrite at_modify, at_gets. cbn [reply_hooks with_to_send]. rewrite (at_ok _ _ _ _ _ _ _ E), at_modify.
  unfold free_cancel_hooks. rewrite at_gets. cbn [reply_hooks with_reply_hooks]. rewrite (at_ok _ _ _ _ _ _ _ (free_done_run hs _ m Hhs)).
  eexists. split; [reflexivity|]. exists l, en, iv. rewrite app_nil_r. done.
Qed.

(** After executing, the changes of the list stay. *)
Definition committed (r0 : router) (rem : option pending_ptr) (add : option (pending_ptr * BusPendingReply)) (out : list sending)
    (err : option dispatch_error) (r : router) : Prop :=
  ∃ en iv, (items r ≠ [] → en = true)
    ∧ r = Router (registry r0)
        ((match rem with Some p => base.delete p | None => id end)
           (match add with Some (p, q) => <[p := q]> (pending_pool r0) | None => pending_pool r0 end))
        (match add with Some (p, _) => [p] | None => [] end ++ left_items r0 rem)
        en iv (now_sec r0) (now_usec r0) [] [] (sent r0 ++ out) err.

Lemma execute_run r0 rem add out err r m :
  tidy r0 → changes_ok r0 rem add → tx r0 rem add out err r →
  ∃ r', bus_transaction_execute_and_free r m = Ok tt r' m ∧ committed r0 rem add out err r'.
Proof.
  intros Ht [Hrem Hadd] (en & iv & -> & Hen). fold (left_items r0 rem).
  assert (match add with Some (p, _) => [p] | None => [] end ++ left_items r0 rem ≠ [] → en = true) as Hen'.
  { destruct add as [[p q]|]; [by intros _; apply Hen; left|]. intros Hne. apply Hen. right. apply Ht. intros E. apply Hne. simpl. unfold left_items.
    rewrite E. by destruct rem. }
  unfold bus_transaction_execute_and_free. rewrite at_gets, !at_modify. unfold free_cancel_hooks. rewrite at_gets. cbn [reply_hooks with_to_send with_sent].
  set (cancel := match add with Some (p, _) => [CancelPendingReplyData p] | None => [] end).
  assert (∀ l rr, free_hooks_loop (cancel ++ l) rr m = free_hooks_loop l rr m) as Hskip by (intros l rr; subst cancel; by destruct add as [[p q]|]).
  destruct rem as [x|].
  - assert (x ∉ match add with Some (p, _) => [p] | None => [] end ++ left_items r0 (Some x)) as Hx.
    { rewrite elem_of_app. intros [Hx|Hx]; [|apply left_in in Hx as [_ ?]; done]. destruct add as [[p q]|]; [|by apply elem_of_nil in Hx].
      apply list_elem_of_singleton in Hx as <-. apply (Hadd x q eq_refl). apply elem_of_dom. by apply tidy_pool, Hrem. }
    assert (∃ q, (match add with Some (p, q) => <[p := q]> (pending_pool r0) | None => pending_pool r0 end) !! x = Some q) as [qx Hqx].
    { destruct (tidy_pool r0 x Ht (Hrem x eq_refl)) as [qx Hqx]. exists qx. destruct add as [[p q]|]; [|done]. rewrite lookup_insert_ne; [done|].
      intros ->. apply Hx. rewrite elem_of_app. left. by apply list_elem_of_singleton. }
    erewrite at_ok; [|rewrite Hskip; cbn [free_hooks_loop cancel_hook_free check_pending_reply_data_free]; erewrite at_ok; [reflexivity|];
      erewrite at_ok; [|unfold bus_expire_list_contains_item; rewrite at_gets; reflexivity]; cbn [items with_sent with_to_send];
      rewrite bool_decide_false by exact Hx; rewrite at_assert by done; apply (free_run x qx); exact Hqx].
    eexists. split; [reflexivity|]. exists en, iv. done.
  - erewrite at_ok; [|rewrite Hskip; reflexivity]. eexists. split; [reflexivity|]. exists en, iv. done.
Qed.

Lemma route_changes_ok O r0 c m rem add out err : route_result O r0 c m rem add out err → changes_ok r0 rem add.
Proof.
  assert (∀ a add, recorded r0 c a m add → ∀ p q, add = Some (p, q) → p ∉ dom (pending_pool r0)) as Hrec.
  { intros a add' Hr p q ->. unfold recorded in Hr. destruct (wants_reply m); [|done]. destruct Hr as (p' & Hp & [= -> _]). done. }
  intros Hr. split.
  - intros p ->. inversion Hr; subst; try by eapply answered_in. naive_solver eauto using answered_in.
  - intros p q ->. inversion Hr; subst; by eapply Hrec.
Qed.

(** The error of the bus, if the policy of the connection lets it through. *)
Definition from_bus (r : router) (c : connection) (serial : Z) (name : bytes) (x : sending) : list sending :=
  if rules_allow (registry r) None (Some c) (Some c) (negb (serial =? 0)) (routed_msg (bus_error c serial name))
     && negb (queue_full (sent r) (Some c)) && dbus_connection_get_is_connected (recipient_of x)
  then [x] else [].

Lemma from_bus_cases r c serial name x : from_bus r c serial name x = [] ∨ from_bus r c serial name x = [x].
Proof. unfold from_bus. case_if; auto. Qed.

Lemma driver_check_run r c serial name mm :
  consistent (registry r) →
  bus_context_check_security_policy false None (Some c) (Some c) (bus_error c serial name) r mm
  = Ok (rules_allow (registry r) None (Some c) (Some c) (negb (serial =? 0)) (routed_msg (bus_error c serial name))
        && negb (queue_full (sent r) (Some c))) r mm.
Proof.
  intros Hb. unfold bus_context_check_security_policy. cbv zeta. rewrite at_assert.
  2: { simpl. by destruct (bus_connection_is_active c). }
  rewrite at_assert by done. change (check_sender false None (Some c) (Some c) (routed_msg (bus_error c serial name)))
    with (mret (inr (bool_decide (Some c = Some c) && negb (serial =? 0))) : RM (bool + bool)). rewrite bool_decide_true by done. cbn [andb].
  change (message_type (routed_msg (bus_error c serial name))) with DBUS_MESSAGE_TYPE_ERROR.
  change (negb (_ && (DBUS_MESSAGE_TYPE_ERROR <=? DBUS_MESSAGE_TYPE_SIGNAL))) with false. cbv iota. rewrite (at_ok _ (inr (negb (serial =? 0))) r mm) by done. rewrite check_message_run by done. destruct (rules_allow _ _ _ _ _ _); [|done]. by destruct (queue_full _ _).
Qed.

Lemma driver_send_ends O r0 rem add out err c serial name x :
  tidy r0 →
  ends O (tx r0 rem add out err) (bus_transaction_send_from_driver c (bus_error c serial name) x)
    (λ _, tx r0 rem add (out ++ from_bus r0 c serial name x) err) (tx r0 rem add out err).
Proof.
  intros Ht. unfold bus_transaction_send_from_driver. eapply ends_bind; [apply ends_request|]. intros [].
  eapply (ends_bind _ _ _ _ (λ _, tx r0 rem add out err)).
  { destruct (bus_connection_is_active c); [apply ends_request|by apply ends_ret]. }
  intros []. set (ok := rules_allow (registry r0) None (Some c) (Some c) (negb (serial =? 0)) (routed_msg (bus_error c serial name))
    && negb (queue_full (sent r0) (Some c))).
  apply (ends_run _ _ _ ok); [intros r mm (en & iv & -> & _); by rewrite driver_check_run by apply Ht|].
  unfold from_bus. fold ok. destruct ok; cbn [andb].
  - apply send_ends.
  - apply ends_ret. intros r. by rewrite app_nil_r.
Qed.

Lemma tx_sent r0 rem add out err r f : tx r0 rem add out err r → tx (with_sent f r0) rem add out err (with_sent f r).
Proof. intros (en & iv & -> & Hen). by exists en, iv. Qed.

Lemma tidy_sent r f : tidy r → tidy (with_sent f r).
Proof. intros Ht. destruct Ht. by constructor. Qed.

(** The memory for an error is lacking: everything but the message about it is undone. *)
Lemma oom_cancel_run r0 rem add out err r c m mm :
  tidy r0 → changes_ok r0 rem add → tx r0 rem add out err r →
  ∃ r', (bus_connection_send_oom_error c m;; bus_transaction_cancel_and_free) r mm = Ok tt r' mm
    ∧ restored r0 [ErrorFor c (routed_serial m) NoMemory] err r'.
Proof.
  intros Ht Hch Htx. unfold bus_connection_send_oom_error. rewrite at_modify. set (f := λ l, l ++ _).
  destruct (cancel_run (with_sent f r0) rem add out err (with_sent f r) mm) as (r' & E & l & en & iv & Hl & Hen & Er').
  - by apply tidy_sent.
  - exact Hch.
  - by apply tx_sent.
  - exists r'. split; [exact E|]. exists l, en, iv. split; [exact Hl|]. split; [done|]. rewrite app_nil_r in Er'. exact Er'.
Qed.

(** ** Dispatching *)

(** How a message ends: its transaction was executed, or undone for want of memory. *)
Inductive dispatched (O : Prop) (r0 : router) (c : connection) (m : routed) (r : router) : Prop :=
| dispatch_done rem add out err extra :
    route_result O r0 c m rem add out err →
    extra = [] ∨ (∃ e, err = Some e ∧ extra = [ErrorFor c (routed_serial m) e]) →
    (err = Some NoMemory → dbus_connection_get_is_connected c = false) →
    committed r0 rem add (out ++ extra) None r → dispatched O r0 c m r
| dispatch_undone rem add out e :
    route_result O r0 c m rem add out (Some e) → e = NoMemory ∨ O → restored r0 [ErrorFor c (routed_serial m) NoMemory] None r →
    dispatched O r0 c m r.

Lemma restored_error r0 l err r : restored r0 l err r → restored r0 l None (with_r_error None r).
Proof. intros (l' & en & iv & Hl & Hen & ->). by exists l', en, iv. Qed.

Lemma tx_error r0 rem add out err r e : tx r0 rem add out err r → tx r0 rem add out e (with_r_error e r).
Proof. intros (en & iv & -> & Hen). by exists en, iv. Qed.

Lemma finish_run O r0 c m rem add out err r mm :
  tidy r0 → route_result O r0 c m rem add out err → tx r0 rem add out err r → (may_fail mm → O) →
  ∃ r' mm', finish_dispatch true c m r mm = Ok tt r' mm' ∧ (may_fail mm' → O) ∧ dispatched O r0 c m r'.
Proof.
  intros Ht Hr Htx Hm. pose proof (route_changes_ok _ _ _ _ _ _ _ _ Hr) as Hch. unfold finish_dispatch. rewrite at_gets.
  assert (r_error r = err) as Eerr by (by destruct Htx as (en & iv & -> & _)). rewrite Eerr.
  destruct err as [e|].
  2: { destruct (execute_run r0 rem add out None r mm Ht Hch Htx) as (r' & E & Hc). exists r', mm. split; [exact E|]. split; [done|].
       eapply dispatch_done; [exact Hr|by left|done|]. by rewrite app_nil_r. }
  assert (∀ r1 mm1 l, tx r0 rem add (out ++ l) (Some e) r1 → (may_fail mm1 → O) → l = [] ∨ l = [ErrorFor c (routed_serial m) e] →
    (e = NoMemory → dbus_connection_get_is_connected c = false) →
    ∃ r' mm', bus_transaction_execute_and_free (with_r_error None r1) mm1 = Ok tt r' mm' ∧ (may_fail mm' → O) ∧ dispatched O r0 c m r') as Hexec.
  { intros r1 mm1 l Htx1 Hm1 Hl Hconn. destruct (execute_run r0 rem add (out ++ l) None (with_r_error None r1) mm1 Ht Hch) as (r' & E & Hc);
      [by eapply tx_error|]. exists r', mm1. split; [exact E|]. split; [done|]. eapply dispatch_done; [exact Hr| |by intros [= ->]; auto|exact Hc].
    destruct Hl as [-> | ->]; [by left|right; by exists e]. }
  assert (∀ r1 out1 mm1, tx r0 rem add out1 (Some e) r1 → (e = NoMemory ∨ O) →
    ∃ r', (bus_connection_send_oom_error c m;; bus_transaction_cancel_and_free) r1 mm1 = Ok tt r' mm1 ∧ dispatched O r0 c m (with_r_error None r')) as Hcancel.
  { intros r1 out1 mm1 Htx1 He. destruct (oom_cancel_run r0 rem add out1 (Some e) r1 c m mm1 Ht Hch Htx1) as (r' & E & Hres). exists r'. split; [exact E|].
    eapply dispatch_undone; [exact Hr|done|]. by eapply restored_error. }
  unfold report_error. destruct (dbus_connection_get_is_connected c) eqn:Econn; cbn [negb].
  - destruct (decide (e = NoMemory)) as [He|He].
    + destruct (Hcancel r out mm Htx (or_introl He)) as (r' & E & Hd). exists (with_r_error None r'), mm. split; [|done].
      erewrite at_ok; [|erewrite at_ok; [rewrite at_modify; reflexivity|rewrite run_assoc, (at_ok _ _ _ _ _ _ _ E); reflexivity]]. done.
    + assert (ends O (tx r0 rem add out (Some e)) (bus_transaction_send_error_reply c e m)
        (λ _, tx r0 rem add (out ++ from_bus r0 c (routed_serial m) (error_text e) (ErrorFor c (routed_serial m) e)) (Some e)) (tx r0 rem add out (Some e))) as Hsend.
      { unfold bus_transaction_send_error_reply. eapply ends_bind; [apply ends_request|]. intros []. by apply driver_send_ends. }
      specialize (Hsend r mm Htx Hm). destruct (bus_transaction_send_error_reply c e m r mm) as [[] r1 mm1|r1 mm1|] eqn:Es; [| |done].
      * destruct Hsend as [Htx1 Hm1]. destruct (Hexec r1 mm1 _ Htx1 Hm1 (from_bus_cases _ _ _ _ _)) as (r' & mm' & E & Hd); [done|]. exists r', mm'. split; [|done].
        erewrite at_ok; [|erewrite at_ok; [rewrite at_modify; reflexivity|rewrite at_assert by done; rewrite at_attempt, Es; reflexivity]]. exact E.
      * destruct Hsend as (Htx1 & HO & Hm1). destruct (Hcancel r1 out mm1 Htx1 (or_intror HO)) as (r' & E & Hd). exists (with_r_error None r'), mm1. split; [|done].
        erewrite at_ok; [|erewrite at_ok; [rewrite at_modify; reflexivity|rewrite at_assert by done; rewrite at_attempt, Es, run_assoc, (at_ok _ _ _ _ _ _ _ E); reflexivity]]. done.
  - erewrite at_ok by (erewrite at_ok by reflexivity; rewrite at_modify; reflexivity). cbn [negb andb].
    apply (Hexec r mm []); [by rewrite app_nil_r|done|by left|done].
Qed.

(** A message without destination that is no signal is left to the library. *)
Definition handled (msg : DBusMessage) : bool :=
  is_some (message_destination msg) || (message_type msg =? DBUS_MESSAGE_TYPE_SIGNAL).

(** Every message is dispatched, whatever memory is refused. *)
Lemma dispatch_run O r0 c m mm :
  tidy r0 → owners_active (registry r0) → bus_connection_is_active c = true → handled (routed_msg m) = true → (may_fail mm → O) →
  ∃ r' mm', bus_dispatch c m r0 mm = Ok true r' mm' ∧ (may_fail mm' → O) ∧ dispatched O r0 c m r'.
Proof.
  intros Ht Hown Hc Hsig Hm. unfold bus_dispatch. rewrite <-negb_orb. fold (handled (routed_msg m)). rewrite Hsig. cbn [negb].
  rewrite at_attempt. unfold request. destruct (alloc mm) as [[] m1] eqn:Ea.
  - assert (may_fail m1 → O) as Hm1 by (intros Hf; by eapply Hm, alloc_mono).
    assert (message_destination (routed_msg m) = None → (message_type (routed_msg m) =? DBUS_MESSAGE_TYPE_SIGNAL) = true) as Hs.
    { intros Ed. unfold handled in Hsig. by rewrite Ed in Hsig. }
    pose proof (route_ends O r0 c m Ht Hown Hc Hs r0 m1 (tx_start r0 Ht) Hm1) as Hroute.
    destruct (route c m r0 m1) as [b r1 m2| |] eqn:Er; [|by destruct Hroute as [[] _]|done].
    destruct Hroute as [(rem & add & out & err & Hr & Htx) Hm2]. rewrite (at_ok _ _ _ _ _ _ _ Er).
    destruct (finish_run O r0 c m rem add out err r1 m2 Ht Hr Htx Hm2) as (r' & mm' & E & Hd). exists r', mm'. by rewrite (at_ok _ _ _ _ _ _ _ E).
  - assert O as HO by (by eapply Hm, alloc_fail). pose proof (td_timer r0 Ht) as Htimer.
    erewrite at_ok by reflexivity. unfold finish_dispatch, report_error. cbn [negb].
    destruct (dbus_connection_get_is_connected c) eqn:Econn; cbn [negb]; do 2 eexists.
    + split; [reflexivity|]. split; [done|]. eapply dispatch_undone; [by apply route_no_memory|by left|].
      exists (items r0), (timeout_enabled r0), (timeout_interval r0). split; [done|]. split; [done|]. destruct Ht, r0. simpl in *. by subst.
    + split; [reflexivity|]. split; [done|]. eapply dispatch_done; [by apply route_no_memory|by left|done|].
      exists (timeout_enabled r0), (timeout_interval r0). split; [done|]. destruct Ht, r0. simpl in *. subst. by rewrite app_nil_r.
Qed.

(** ** What always holds *)

(** How many replies a connection waits for is bounded, and no two calls have the same
    caller, callee and serial. *)
Definition waiting (r : router) (get : connection) : nat := length (List.filter (waits_for (pending_pool r) get) (items r)).

Definition bounded (N : Z) (r : router) : Prop := ∀ get, Z.of_nat (waiting r get) <= Z.max 0 N.

Definition distinct (r : router) : Prop := ∀ get send serial p q,
  p ∈ items r → q ∈ items r → pending_in (pending_pool r) get send serial p = true → pending_in (pending_pool r) get send serial q = true → p = q.

Record sound (N : Z) (r : router) : Prop := { so_tidy : tidy r; so_bounded : bounded N r; so_distinct : distinct r }.

(** [r'] has no pending replies that [r] does not have. *)
Record shrinks (r r' : router) : Prop := {
  sk_items p : p ∈ items r' → p ∈ items r;
  sk_pending p get send serial : p ∈ items r' → pending_in (pending_pool r') get send serial p = true → pending_in (pending_pool r) get send serial p = true;
  sk_waits p get : p ∈ items r' → waits_for (pending_pool r') get p = waits_for (pending_pool r) get p
}.

Lemma shrinks_refl r : shrinks r r.
Proof. by constructor. Qed.

Lemma shrinks_trans r r1 r2 : shrinks r r1 → shrinks r1 r2 → shrinks r r2.
Proof.
  intros [A1 B1 C1] [A2 B2 C2]. constructor; [by auto| |].
  - intros p get send serial Hp Hb. apply B1; [by apply A2|]. by apply B2.
  - intros p get Hp. rewrite C2 by done. by apply C1, A2.
Qed.

Lemma filter_le (f g : pending_ptr → bool) l l' :
  NoDup l' → (∀ p, p ∈ l' → f p = true → p ∈ l ∧ g p = true) → (length (List.filter f l') <= length (List.filter g l))%nat.
Proof.
  intros Hd Hin. apply submseteq_length, NoDup_submseteq.
  - by apply NoDup_ListNoDup, List.NoDup_filter, NoDup_ListNoDup.
  - intros p Hp. apply list_elem_of_In, List.filter_In in Hp as [Hp Hf]. apply list_elem_of_In in Hp.
    apply list_elem_of_In, List.filter_In. destruct (Hin p Hp Hf) as [H1 H2]. split; [by apply list_elem_of_In|done].
Qed.

Lemma shrinks_waiting r r' get : tidy r' → shrinks r r' → (waiting r' get <= waiting r get)%nat.
Proof.
  intros Ht' [A B C]. apply filter_le; [apply Ht'|]. intros p Hp Hf. split; [by apply A|]. by rewrite <-(C p get Hp).
Qed.

Lemma shrinks_sound N r r' : sound N r → tidy r' → shrinks r r' → sound N r'.
Proof.
  intros [Ht Hb Hd] Ht' Hsh. constructor; [done| |].
  - intros get. pose proof (shrinks_waiting r r' get Ht' Hsh). specialize (Hb get). lia.
  - intros get send serial p q Hp Hq Hpp Hqq. destruct Hsh as [A B C]. eapply Hd; eauto.
Qed.

(** *** Executed and undone transactions *)

Lemma restored_tidy r0 l r : tidy r0 → restored r0 l None r → tidy r ∧ shrinks r0 r ∧ sent r = sent r0 ++ l.
Proof.
  intros [] (l' & en & iv & Hl & Hen & ->). split; [|split; [|done]].
  - constructor; simpl; try done; [by rewrite Hl|]. rewrite td_pool0. apply list_to_set_perm_L. by symmetry.
  - constructor; simpl; [|done..]. intros p Hp. by rewrite Hl in Hp.
Qed.

Section committed.
Context (r0 : router) (rem : option pending_ptr) (add : option (pending_ptr * BusPendingReply)) (out : list sending) (r : router).
Context (Ht : tidy r0) (Hch : changes_ok r0 rem add) (Hc : committed r0 rem add out None r).

Lemma committed_items p : p ∈ items r ↔ (∃ q, add = Some (p, q)) ∨ p ∈ left_items r0 rem.
Proof.
  destruct Hc as (en & iv & _ & ->). simpl. rewrite elem_of_app. destruct add as [[p' q]|]; [|rewrite elem_of_nil; naive_solver].
  rewrite list_elem_of_singleton. naive_solver.
Qed.

Lemma committed_left p : p ∈ left_items r0 rem → pending_pool r !! p = pending_pool r0 !! p.
Proof.
  intros Hp. apply left_in in Hp as [Hp Hr]; [|done]. destruct Hc as (en & iv & _ & ->). simpl.
  assert ((match add with Some (p, q) => <[p := q]> (pending_pool r0) | None => pending_pool r0 end) !! p = pending_pool r0 !! p) as E.
  { destruct add as [[p' q]|]; [|done]. rewrite lookup_insert_ne; [done|]. intros ->. apply (proj2 Hch p q eq_refl). by apply elem_of_dom, tidy_pool. }
  destruct rem as [x|]; [|exact E]. rewrite lookup_delete_ne by congruence. exact E.
Qed.

Lemma committed_added p q : add = Some (p, q) → pending_pool r !! p = Some q.
Proof.
  intros Ea. destruct Hc as (en & iv & _ & ->). simpl. rewrite Ea. destruct rem as [x|] eqn:Ex; [|by apply lookup_insert_eq].
  rewrite lookup_delete_ne; [apply lookup_insert_eq|]. intros ->. apply (proj2 Hch p q Ea). apply elem_of_dom, tidy_pool; [done|]. by apply Hch.
Qed.

Lemma committed_tidy : tidy r ∧ sent r = sent r0 ++ out.
Proof.
  pose proof committed_items as Hitems. pose proof committed_left as Hleft. pose proof committed_added as Hadded.
  pose proof Hc as (en & iv & Hen & Er). split; [|by rewrite Er].
  assert (∀ p, p ∈ left_items r0 rem → p ∈ items r0) as Hl by (by intros p [? _]%left_in).
  constructor.
  - rewrite Er. apply Ht.
  - rewrite Er. simpl. apply list.NoDup_app. split_and!.
    + destruct add as [[p q]|]; [apply NoDup_singleton|constructor].
    + intros p Hp Hp'. destruct add as [[p' q]|]; [|by apply elem_of_nil in Hp]. apply list_elem_of_singleton in Hp as ->.
      apply (proj2 Hch p' q eq_refl). by apply elem_of_dom, tidy_pool, Hl.
    + unfold left_items. destruct rem; [apply remove_item_nodup|]; apply Ht.
  - apply set_eq. intros p. rewrite elem_of_list_to_set, Hitems, elem_of_dom. split.
    + rewrite Er. simpl. intros Hp. destruct add as [[p' q]|]; [destruct (decide (p = p')) as [-> | Hne]; [left; by exists q|right]|right].
      * destruct rem as [x|]; simpl in Hp; [apply lookup_delete_is_Some in Hp as [? Hp]|]; rewrite lookup_insert_ne in Hp by done;
          apply elem_of_dom in Hp; rewrite (td_pool r0 Ht), elem_of_list_to_set in Hp; simpl; [|done]. by rewrite remove_item_in by apply Ht.
      * destruct rem as [x|]; simpl in Hp; [apply lookup_delete_is_Some in Hp as [? Hp]|];
          apply elem_of_dom in Hp; rewrite (td_pool r0 Ht), elem_of_list_to_set in Hp; simpl; [|done]. by rewrite remove_item_in by apply Ht.
    + intros [[q Hq]|Hp]; [rewrite (Hadded p q Hq); by eexists|]. rewrite Hleft by done. by apply tidy_pool, Hl.
  - by rewrite Er.
  - by rewrite Er.
  - by rewrite Er.
  - rewrite Er in *. simpl in *. done.
Qed.

End committed.

Lemma verdict_passes r s a m :
  verdict r s a m = None →
  rules_allow (registry r) (Some s) (Some a) (Some a) (is_some (answered_call r s a (routed_msg m))) (routed_msg m) = true
  ∧ (wants_reply m = true →
     existsb (pending_in (pending_pool r) s a (routed_serial m)) (left_items r (answered_call r s a (routed_msg m))) = false
     ∧ Z.of_nat (length (List.filter (waits_for (pending_pool r) s) (left_items r (answered_call r s a (routed_msg m)))))
       < bus_context_get_max_replies_per_connection).
Proof.
  unfold verdict. destruct (known_type _); [|done]. destruct (bus_selinux_allows_send s (Some a) (routed_msg m)); [|done..]. cbn [negb].
  destruct (rules_allow _ _ _ _ _ _); [|done]. destruct (queue_full _ _); [done|]. cbn [negb]. intros Hv. split; [done|]. intros Hw. rewrite Hw in Hv.
  fold (left_items r (answered_call r s a (routed_msg m))) in Hv. destruct (existsb _ _); [done|]. split; [done|].
  by destruct (Z.leb_spec bus_context_get_max_replies_per_connection (Z.of_nat (length (List.filter (waits_for (pending_pool r) s)
    (left_items r (answered_call r s a (routed_msg m))))))).
Qed.

Lemma committed_waits r0 rem add out r p :
  tidy r0 → changes_ok r0 rem add → committed r0 rem add out None r → p ∈ left_items r0 rem →
  (∀ get, waits_for (pending_pool r) get p = waits_for (pending_pool r0) get p)
  ∧ ∀ get send serial, pending_in (pending_pool r) get send serial p = pending_in (pending_pool r0) get send serial p.
Proof.
  intros Ht Hch Hc Hp. unfold waits_for, pending_in. by rewrite (committed_left r0 rem add out r Ht Hch Hc p Hp).
Qed.

Lemma committed_shrinks r0 rem out r : tidy r0 → changes_ok r0 rem None → committed r0 rem None out None r → shrinks r0 r.
Proof.
  intros Ht Hch Hc. assert (∀ p, p ∈ items r → p ∈ left_items r0 rem) as Hl.
  { intros p Hp. apply (committed_items r0 rem None out r Hch Hc) in Hp as [[q Hq]|Hp]; done. }
  constructor.
  - intros p Hp. by eapply left_in, Hl.
  - intros p get send serial Hp. by rewrite (proj2 (committed_waits _ _ _ _ _ p Ht Hch Hc (Hl p Hp))).
  - intros p get Hp. by rewrite (proj1 (committed_waits _ _ _ _ _ p Ht Hch Hc (Hl p Hp))).
Qed.

(** A call is recorded: there is room for it, and no other one like it. *)
Lemma recorded_sound N r0 s a m rem p out r :
  let q := PendingReply (now_sec r0) (now_usec r0) s (Some a) (routed_serial m) in
  sound N r0 → changes_ok r0 rem (Some (p, q)) → committed r0 rem (Some (p, q)) out None r →
  existsb (pending_in (pending_pool r0) s a (routed_serial m)) (left_items r0 rem) = false →
  Z.of_nat (length (List.filter (waits_for (pending_pool r0) s) (left_items r0 rem))) < N →
  sound N r.
Proof.
  intros q [Ht Hb Hd] Hch Hc Hno Hroom. pose proof (committed_tidy r0 rem _ out r Ht Hch Hc) as [Htr _].
  pose proof (committed_items r0 rem _ out r Hch Hc) as Hitems. pose proof (committed_added r0 rem _ out r Ht Hch Hc p q eq_refl) as Hq.
  pose proof (λ x, committed_waits r0 rem _ out r x Ht Hch Hc) as Hw.
  assert (∀ get, (waiting r get <= length (List.filter (waits_for (pending_pool r0) get) (left_items r0 rem)) + if bool_decide (s = get) then 1 else 0)%nat) as Hcount.
  { intros get. unfold waiting. destruct Hc as (en & iv & _ & Er). assert (items r = p :: left_items r0 rem) as -> by (by rewrite Er). cbn [List.filter].
    assert (List.filter (waits_for (pending_pool r) get) (left_items r0 rem) = List.filter (waits_for (pending_pool r0) get) (left_items r0 rem)) as ->.
    { apply List.filter_ext_in. intros x Hx. apply Hw. by apply list_elem_of_In. }
    unfold waits_for at 1. rewrite Hq. simpl. case_bool_decide; simpl; lia. }
  constructor; [done| |].
  - intros get. specialize (Hcount get). case_bool_decide as Heq; [subst get; lia|]. specialize (Hb get). unfold waiting in Hb.
    assert (length (List.filter (waits_for (pending_pool r0) get) (left_items r0 rem)) <= length (List.filter (waits_for (pending_pool r0) get) (items r0)))%nat.
    { apply filter_le; [unfold left_items; destruct rem; [apply remove_item_nodup|]; apply Ht|]. intros x Hx Hf. split; [by eapply left_in|done]. }
    lia.
  - assert (∀ get send serial x, x ∈ left_items r0 rem → pending_in (pending_pool r) get send serial x = true →
      pending_in (pending_pool r) get send serial p = true → False) as Hnew.
    { intros get send serial x Hx Hpx Hpp. unfold pending_in in Hpp. rewrite Hq in Hpp. unfold is_pending, q in Hpp. simpl in Hpp.
      apply andb_true_iff in Hpp as [Hpp H3%bool_decide_eq_true]. apply andb_true_iff in Hpp as [H1%Z.eqb_eq H2%bool_decide_eq_true].
      injection H3 as <-. subst. rewrite (proj2 (Hw x Hx)) in Hpx. apply not_true_iff_false in Hno. apply Hno. apply existsb_exists.
      exists x. split; [by apply list_elem_of_In|done]. }
    intros get send serial x y Hx Hy Hpx Hpy. apply Hitems in Hx as [[qx [= <- _]]|Hx]; apply Hitems in Hy as [[qy [= <- _]]|Hy]; [done|by exfalso; eauto..|].
    rewrite (proj2 (Hw x Hx)) in Hpx. rewrite (proj2 (Hw y Hy)) in Hpy. eapply Hd; [by eapply left_in|by eapply left_in|done|done].
Qed.

Lemma dispatched_sound N O r0 c m r :
  bus_context_get_max_replies_per_connection <= N → sound N r0 → dispatched O r0 c m r → sound N r.
Proof.
  intros HN Hs [rem add out err extra Hr _ _ Hc|rem add out e _ _ Hres].
  2: { destruct (restored_tidy r0 _ r (so_tidy N r0 Hs) Hres) as (Ht & Hsh & _). by eapply shrinks_sound. }
  pose proof (route_changes_ok _ _ _ _ _ _ _ _ Hr) as Hch.
  assert (∀ a, recorded r0 c a m add → verdict r0 c a m = None → rem = answered_call r0 c a (routed_msg m) → sound N r) as Hrec.
  { intros a Hadd Hv ->. unfold recorded in Hadd. destruct (verdict_passes r0 c a m Hv) as [_ Hroom]. destruct (wants_reply m).
    - destruct Hadd as (p & Hp & ->). destruct (Hroom eq_refl) as [Hno Hlt]. eapply recorded_sound; [done..|lia].
    - subst add. eapply shrinks_sound; [done|by eapply committed_tidy; [apply Hs|..]|by eapply committed_shrinks; [apply Hs|..]]. }
  assert (add = None → sound N r) as Hnone.
  { intros ->. eapply shrinks_sound; [done|by eapply committed_tidy; [apply Hs|..]|by eapply committed_shrinks; [apply Hs|..]]. }
  inversion Hr; subst; eauto.
Qed.

(** *** Connections that go away *)

Lemma get_pending_run {B} p q (k : BusPendingReply → RM B) r m : pending_pool r !! p = Some q → (get_pending p ≫= k) r m = k q r m.
Proof. intros Hp. eapply at_ok. unfold get_pending. rewrite at_gets. simpl. by rewrite Hp. Qed.

(** One pending reply leaves the list. *)
Lemma removed_tidy r p en iv :
  tidy r → (items r ≠ [] → en = true) →
  let r' := with_timeout en iv (with_pending_pool (base.delete p) (with_items (remove_item p) r)) in tidy r' ∧ shrinks r r'.
Proof.
  intros Ht Hen r'. assert (∀ x, x ∈ items r' → x ∈ items r ∧ x ≠ p) as Hin.
  { intros x Hx. simpl in Hx. by apply remove_item_in in Hx; [|apply Ht]. }
  split.
  - constructor; simpl; try apply Ht.
    + apply remove_item_nodup, Ht.
    + rewrite dom_delete_L, (td_pool r Ht). apply set_eq. intros x. rewrite elem_of_difference, elem_of_singleton, !elem_of_list_to_set.
      by rewrite remove_item_in by apply Ht.
    + intros Hne. apply Hen. intros E. apply Hne. by rewrite E.
  - constructor.
    + intros x Hx. by apply Hin.
    + intros x get send serial Hx. unfold pending_in. simpl. rewrite lookup_delete_ne; [done|]. apply Hin in Hx. naive_solver.
    + intros x get Hx. unfold waits_for. simpl. rewrite lookup_delete_ne; [done|]. apply Hin in Hx. naive_solver.
Qed.

(** The callee of a pending reply is gone. *)
Lemma orphaned_tidy r p q :
  tidy r → pending_pool r !! p = Some q →
  let r' := with_timeout true 0 (with_pending_pool (alter (λ q, PendingReply 0 0 (will_get_reply q) None (reply_serial q)) p) r) in tidy r' ∧ shrinks r r'.
Proof.
  intros Ht Hp r'. split.
  - constructor; simpl; try apply Ht; [by rewrite dom_alter_L; apply Ht|done].
  - constructor; [done|..].
    + intros x get send serial _. unfold pending_in. simpl. destruct (decide (x = p)) as [-> | Hne]; [|by rewrite lookup_alter_ne].
      rewrite lookup_alter_eq, Hp. simpl. unfold is_pending. simpl. by rewrite andb_false_r.
    + intros x get _. unfold waits_for. simpl. destruct (decide (x = p)) as [-> | Hne]; [|by rewrite lookup_alter_ne].
      by rewrite lookup_alter_eq, Hp.
Qed.

Lemma drop_loop_run c l m : ∀ r, tidy r → NoDup l → (∀ p, p ∈ l → p ∈ items r) →
  ∃ r', drop_loop c l r m = Ok tt r' m ∧ tidy r' ∧ shrinks r r' ∧ sent r' = sent r.
Proof.
  induction l as [|p l IH]; intros r Ht Hd Hl; [exists r; split_and!; [done|done|apply shrinks_refl|done]|]. apply list.NoDup_cons in Hd as [Hp Hd].
  cbn [drop_loop]. destruct (tidy_pool r p Ht) as [q Hq]; [apply Hl; by apply elem_of_cons; left|]. rewrite (get_pending_run p q _ _ _ Hq).
  assert (∀ r1, tidy r1 ∧ shrinks r r1 → (∀ x, x ∈ l → x ∈ items r1) → sent r1 = sent r →
    ∃ r', drop_loop c l r1 m = Ok tt r' m ∧ tidy r' ∧ shrinks r r' ∧ sent r' = sent r) as Hrest.
  { intros r1 [Ht1 Hsh1] Hin1 Hs1. destruct (IH r1 Ht1 Hd Hin1) as (r' & E & Ht' & Hsh & Hs). exists r'. split_and!; [done|done|by eapply shrinks_trans|congruence]. }
  assert (∀ x, x ∈ l → x ∈ items r) as Hl' by (intros x Hx; apply Hl; by apply elem_of_cons; right).
  case_bool_decide; [|case_bool_decide].
  - erewrite at_ok; [|unfold bus_expire_list_remove_link; rewrite at_modify; apply (free_run p q); exact Hq].
    pose proof (removed_tidy r p (timeout_enabled r) (timeout_interval r) Ht (td_timer r Ht)) as Hr1. apply (Hrest _ Hr1); [|done].
    intros x Hx. simpl. rewrite remove_item_in by apply Ht. split; [by apply Hl'|]. by intros ->.
  - erewrite at_ok; [|erewrite at_ok; [reflexivity|apply (set_pending_run p q); exact Hq]]. apply (Hrest _ (orphaned_tidy r p q Ht Hq)); done.
  - erewrite at_ok by reflexivity. apply Hrest; [split; [done|apply shrinks_refl]|done|done].
Qed.

Lemma drop_pending_run c r m : tidy r → ∃ r', bus_connection_drop_pending_replies c r m = Ok tt r' m ∧ tidy r' ∧ shrinks r r' ∧ sent r' = sent r.
Proof. intros Ht. unfold bus_connection_drop_pending_replies. rewrite at_gets. apply drop_loop_run; [done|apply Ht|done]. Qed.

(** *** Expiration *)

(** The answer to a call that gets no reply in time. *)
Definition no_reply (r : router) (q : BusPendingReply) : list sending :=
  from_bus r (will_get_reply q) (reply_serial q) (lit "org.freedesktop.DBus.Error.NoReply") (NoReply (will_get_reply q) (reply_serial q)).

Lemma expired_run O r p q mm :
  tidy r → p ∈ items r → pending_pool r !! p = Some q → (may_fail mm → O) →
  ∃ b r' mm', bus_pending_reply_expired p r mm = Ok b r' mm' ∧ (may_fail mm' → O) ∧ tidy r' ∧ shrinks r r'
    ∧ if (b : bool) then
        items r' = remove_item p (items r) ∧ (∀ x, x ≠ p → pending_pool r' !! x = pending_pool r !! x) ∧ now_sec r' = now_sec r ∧ now_usec r' = now_usec r
        ∧ registry r' = registry r ∧ sent r' = sent r ++ no_reply r q
      else O ∧ sent r' = sent r ∧ items r' ≡ₚ items r.
Proof.
  intros Ht Hp Hq Hm. unfold bus_pending_reply_expired. rewrite (get_pending_run p q _ _ _ Hq), at_attempt. unfold request.
  destruct (alloc mm) as [[] m1] eqn:Ea; cbn [negb]; cycle 1.
  { exists false, r, m1. split; [done|]. split; [intros Hf; by eapply Hm, alloc_mono|]. split; [done|]. split; [apply shrinks_refl|].
    split; [by eapply Hm, alloc_fail|done]. }
  assert (may_fail m1 → O) as Hm1 by (intros Hf; by eapply Hm, alloc_mono). rewrite at_attempt.
  assert (ends O (tx r None None [] None) (bus_pending_reply_send_no_reply q)
    (λ _, tx r None None ([] ++ no_reply r q) None) (tx r None None [] None)) as Hsend.
  { unfold bus_pending_reply_send_no_reply. eapply ends_bind; [apply ends_requests|]. intros []. by apply driver_send_ends. }
  specialize (Hsend r m1 (tx_start r Ht) Hm1). destruct (bus_pending_reply_send_no_reply q r m1) as [[] r1 m2|r1 m2|]; [| |done]; cbn [negb].
  - destruct Hsend as [(en & iv & -> & Hen) Hm2]. set (l := no_reply r q). unfold bus_expire_list_remove_link. rewrite at_modify. erewrite at_ok by (apply (free_run p q); exact Hq).
    do 3 eexists. split; [reflexivity|]. split; [done|].
    destruct (removed_tidy (with_sent (λ s, s ++ l) r) p en iv (tidy_sent r _ Ht)) as [Ht' Hsh]; [intros Hne; apply Hen; right; by apply (td_timer r Ht)|].
    assert (with_timeout en iv (with_pending_pool (base.delete p) (with_items (remove_item p) (with_sent (λ s, s ++ l) r)))
      = with_reply_hooks (λ _, []) (with_to_send (λ _, []) (with_sent (λ s, s ++ l) (with_pending_pool (base.delete p) (with_items (remove_item p)
         (Router (registry r) (pending_pool r) (items r) en iv (now_sec r) (now_usec r) [] l (sent r) None)))))) as Est.
    { destruct Ht, r. simpl in *. by subst. }
    split; [rewrite Est in Ht'; exact Ht'|]. split; [rewrite Est in Hsh; destruct Hsh as [A B C]; constructor; [exact A|exact B|exact C]|].
    split; [done|]. split; [intros x Hx; simpl; by rewrite lookup_delete_ne|]. done.
  - destruct Hsend as (Htx & HO & Hm2). destruct (cancel_run r None None [] None r1 m2 Ht) as (r' & E & Hres); [by split|exact Htx|].
    exists false, r', m2. rewrite (at_ok _ _ _ _ _ _ _ E). split; [done|]. split; [done|]. destruct (restored_tidy r [] r' Ht Hres) as (Ht' & Hsh & Hs).
    rewrite app_nil_r in Hs. destruct Hres as (l & en & iv & Hl & _ & ->). done.
Qed.

Definition elapsed (r : router) (q : BusPendingReply) : Z :=
  ELAPSED_MICROSECONDS_SINCE (added_tv_sec q) (added_tv_usec q) (now_sec r) (now_usec r).

(** The call has waited long enough. *)
Definition due (r : router) (q : BusPendingReply) : bool := 1000 * expire_after <=? elapsed r q.

(** The milliseconds until then. *)
Definition remaining (r : router) (q : BusPendingReply) : Z := (1000 * expire_after - elapsed r q) / 1000.

(** The calls in a part of the list. *)
Definition calls_of (r : router) (l : list pending_ptr) : list BusPendingReply := omap (λ p, pending_pool r !! p) l.

(** What has been sent after the answers to some calls. *)
Fixpoint answers (r : router) (s : list sending) (l : list BusPendingReply) : list sending :=
  match l with
  | [] => s
  | q :: l' => answers r (s ++ no_reply (with_sent (λ _, s) r) q) l'
  end.

(** When the list is to be looked at again, at the latest in an hour. *)
Definition wake_up (r : router) (l : list BusPendingReply) (longest : Z) : Z := foldr Z.min longest (map (remaining r) l).

Lemma wake_up_cons r q l z : wake_up r l (Z.min (remaining r q) z) = wake_up r (q :: l) z.
Proof. unfold wake_up. simpl. induction (map (remaining r) l) as [|x l' IH]; simpl; [done|]. rewrite IH. lia. Qed.

Lemma not_due_remaining r q : due r q = false → 0 <= remaining r q.
Proof. unfold due, remaining. intros ?%Z.leb_gt. apply Z.div_pos; lia. Qed.

Lemma wake_up_nonneg r l z : Forall (λ q, due r q = false) l → 0 <= z → 0 <= wake_up r l z.
Proof. induction 1 as [|q l Hq Hl IH]; intros Hz; [done|]. apply not_due_remaining in Hq. unfold wake_up in *. simpl. specialize (IH Hz). lia. Qed.

Definition due_in (r : router) (p : pending_ptr) : bool := from_option (due r) false (pending_pool r !! p).

Lemma filter_twice {A} (f g : A → bool) l : List.filter f (List.filter g l) = List.filter (λ x, g x && f x) l.
Proof. induction l as [|x l IH]; simpl; [done|]. destruct (g x); simpl; [|done]. by rewrite IH. Qed.

Lemma remove_item_filter p l : NoDup l → remove_item p l = List.filter (λ x, negb (bool_decide (x = p))) l.
Proof.
  induction l as [|x l IH]; simpl; [done|]. intros [Hx Hl]%list.NoDup_cons. destruct (decide (x = p)) as [-> | Hne].
  - rewrite bool_decide_true by done. simpl. symmetry. apply forallb_filter_id, forallb_forall. intros y Hy%list_elem_of_In.
    rewrite bool_decide_false; [done|]. by intros ->.
  - rewrite bool_decide_false by done. simpl. by rewrite IH.
Qed.

(** What is left of the list after a walk over [l], and what has been sent. *)
Definition leftover (r : router) (l its : list pending_ptr) : list pending_ptr :=
  List.filter (λ p, negb (bool_decide (p ∈ l) && due_in r p)) its.

Definition answered (r : router) (l : list pending_ptr) : list sending := answers r (sent r) (List.filter (due r) (calls_of r l)).

(** A walk over [l] that no lack of memory ended: what is due was answered and is gone. *)
Record walked (r : router) (l : list pending_ptr) (r' : router) : Prop := {
  wk_items : items r' = leftover r l (items r);
  wk_pool p : p ∈ items r' → pending_pool r' !! p = pending_pool r !! p;
  wk_sent : sent r' = answered r l
}.

(** A walk that ended before the rest of [l]. *)
Definition walked_part (r : router) (l : list pending_ptr) (r' : router) : Prop :=
  ∃ before rest, l = before ++ rest ∧ items r' ≡ₚ leftover r before (items r) ∧ sent r' = answered r before.

Section walked.
Context (r r1 : router) (En : now_sec r1 = now_sec r ∧ now_usec r1 = now_usec r).

Lemma due_same q : due r1 q = due r q.
Proof. unfold due, elapsed. by rewrite (proj1 En), (proj2 En). Qed.

Lemma remaining_same q : remaining r1 q = remaining r q.
Proof. unfold remaining, elapsed. by rewrite (proj1 En), (proj2 En). Qed.

Lemma wake_up_same l z : wake_up r1 l z = wake_up r l z.
Proof. unfold wake_up. f_equal. apply map_ext, remaining_same. Qed.

Lemma answers_same (Er : registry r1 = registry r) l : ∀ s, answers r1 s l = answers r s l.
Proof.
  induction l as [|q l IH]; intros s; [done|]. simpl. rewrite IH. unfold no_reply, from_bus. simpl. by rewrite Er.
Qed.

Lemma calls_of_same l : (∀ p, p ∈ l → pending_pool r1 !! p = pending_pool r !! p) → calls_of r1 l = calls_of r l.
Proof.
  induction l as [|p l IH]; intros Hl; [done|]. unfold calls_of in *. cbn. rewrite (Hl p) by (by apply elem_of_cons; left).
  cbn in IH. rewrite IH; [done|]. intros p' Hp'. apply Hl. by apply elem_of_cons; right.
Qed.

(** The first call is due and is answered. *)
Context (p : pending_ptr) (q : BusPendingReply) (Hd : NoDup (items r)) (Hq : pending_pool r !! p = Some q) (Hdue : due r q = true).
Context (Hi : items r1 = remove_item p (items r)) (Hpool : ∀ x, x ≠ p → pending_pool r1 !! x = pending_pool r !! x).
Context (Hreg : registry r1 = registry r) (Hs : sent r1 = sent r ++ no_reply r q).

Lemma leftover_due l : leftover r1 l (items r1) = leftover r (p :: l) (items r).
Proof.
  unfold leftover. rewrite Hi, remove_item_filter, filter_twice by done. apply List.filter_ext. intros x. destruct (decide (x = p)) as [-> | Hne].
  - rewrite !(bool_decide_true (p = p)), !(bool_decide_true (p ∈ p :: l)) by (done || by apply elem_of_cons; left).
    unfold due_in. by rewrite Hq; simpl; rewrite Hdue.
  - rewrite (bool_decide_false (x = p)) by done. simpl. f_equal. unfold due_in. rewrite Hpool by done. f_equal.
    + apply bool_decide_ext. rewrite elem_of_cons. naive_solver.
    + destruct (pending_pool r !! x); [|done]. apply due_same.
Qed.

Lemma answered_due l : p ∉ l → answered r1 l = answered r (p :: l).
Proof.
  intros Hp. unfold answered. rewrite answers_same by done. rewrite calls_of_same by (intros x Hx; apply Hpool; by intros ->).
  unfold calls_of. simpl. rewrite Hq. simpl. rewrite Hdue. simpl. rewrite Hs. f_equal. apply List.filter_ext, due_same.
Qed.

Lemma walked_due l r' : p ∉ l → walked r1 l r' → walked r (p :: l) r'.
Proof.
  intros Hp [W1 W2 W3]. constructor; [by rewrite W1, leftover_due| |by rewrite W3, answered_due].
  intros x Hx. rewrite W2 by done. apply Hpool. intros ->. rewrite W1 in Hx. unfold leftover in Hx.
  apply list_elem_of_In, List.filter_In in Hx as [Hx%list_elem_of_In _]. rewrite Hi, remove_item_in in Hx by done. tauto.
Qed.

Lemma part_due l r' : p ∉ l → walked_part r1 l r' → walked_part r (p :: l) r'.
Proof.
  intros Hp (before & rest & -> & W1 & W2). exists (p :: before), rest. split; [done|]. rewrite leftover_due in W1.
  rewrite answered_due in W2; [done|]. intros Hin. apply Hp, elem_of_app. by left.
Qed.

End walked.

(** The first call is not due. *)
Section later.
Context (r : router) (p : pending_ptr) (q : BusPendingReply) (Hq : pending_pool r !! p = Some q) (Hdue : due r q = false).

Lemma leftover_later l its : leftover r l its = leftover r (p :: l) its.
Proof.
  apply List.filter_ext. intros x. f_equal. destruct (decide (x = p)) as [-> | Hne].
  - unfold due_in. rewrite Hq. simpl. by rewrite Hdue, !andb_false_r.
  - f_equal. apply bool_decide_ext. rewrite elem_of_cons. naive_solver.
Qed.

Lemma answered_later l : answered r l = answered r (p :: l).
Proof. unfold answered, calls_of. simpl. rewrite Hq. simpl. by rewrite Hdue. Qed.

Lemma walked_later l r' : walked r l r' → walked r (p :: l) r'.
Proof. intros [W1 W2 W3]. constructor; [by rewrite W1, leftover_later|done|by rewrite W3, answered_later]. Qed.

Lemma part_later l r' : walked_part r l r' → walked_part r (p :: l) r'.
Proof.
  intros (before & rest & -> & W1 & W2). exists (p :: before), rest. split; [done|]. by rewrite <-leftover_later, <-answered_later.
Qed.

End later.

Lemma leftover_nil r its : leftover r [] its = its.
Proof. apply forallb_filter_id, forallb_forall. intros x _. by rewrite bool_decide_false by apply not_elem_of_nil. Qed.

(** How a walk over [l] ends that began in the state [r]; [least] is the least time to wait
    for the calls before. *)
Definition walk_ends (O : Prop) (r : router) (l : list pending_ptr) (least : option Z) (z : Z) (r' : router) : Prop :=
  let later := List.filter (λ q, negb (due r q)) (calls_of r l) in
  (O ∧ 0 <= z ∧ walked_part r l r')
  ∨ walked r l r' ∧ z = match later, least with [], None => -1 | _, _ => wake_up r later (from_option id (3600 * 1000) least) end.

Lemma expiration_loop_run O l : ∀ r least mm,
  tidy r → NoDup l → (∀ p, p ∈ l → p ∈ items r) → (may_fail mm → O) →
  ∃ z r' mm', expiration_loop l least r mm = Ok z r' mm' ∧ (may_fail mm' → O) ∧ tidy r' ∧ shrinks r r'
    ∧ (∃ s, sent r' = sent r ++ s ∧ ∀ x, x ∈ s → ∃ c n, x = NoReply c n) ∧ walk_ends O r l least z r'.
Proof.
  induction l as [|p l IH]; intros r least mm Ht Hd Hl Hm.
  { exists (from_option id (-1) least), r, mm. split_and!; [done|done|done|apply shrinks_refl|exists []; rewrite app_nil_r; split; [done|by intros x ?%elem_of_nil]|].
    right. split; [|by destruct least]. constructor; [by rewrite leftover_nil|done|done]. }
  apply list.NoDup_cons in Hd as [Hp Hd]. destruct (tidy_pool r p Ht) as [q Hq]; [apply Hl; by apply elem_of_cons; left|].
  assert (∀ x, x ∈ l → x ∈ items r) as Hl' by (intros x Hx; apply Hl; by apply elem_of_cons; right).
  cbn [expiration_loop]. rewrite at_gets, (get_pending_run p q _ _ _ Hq). cbv zeta. fold (elapsed r q) (due r q) (remaining r q).
  assert (calls_of r (p :: l) = q :: calls_of r l) as Ec by (unfold calls_of; cbn; by rewrite Hq).
  destruct (due r q) eqn:Edue.
  - destruct (expired_run O r p q mm Ht) as (b & r1 & m1 & E & Hm1 & Ht1 & Hsh1 & Hb); [apply Hl; by apply elem_of_cons; left|done|done|].
    rewrite (at_ok _ _ _ _ _ _ _ E). destruct b; cbn [negb].
    + destruct Hb as (Hi & Hpool & Hn1 & Hn2 & Hreg & Hs). destruct (IH r1 least m1 Ht1 Hd) as (z & r' & m' & E' & Hm' & Ht' & Hsh' & (s & Hs' & Hnr) & Hw).
      * intros x Hx. rewrite Hi, remove_item_in by apply Ht. split; [by apply Hl'|]. by intros ->.
      * done.
      * exists z, r', m'. split_and!; [done|done|done|by eapply shrinks_trans| |].
        -- exists (no_reply r q ++ s). rewrite Hs', Hs, <-app_assoc. split; [done|]. intros x [Hx|Hx]%elem_of_app; [|by apply Hnr].
           unfold no_reply in Hx. destruct (from_bus_cases r (will_get_reply q) (reply_serial q) (lit "org.freedesktop.DBus.Error.NoReply")
             (NoReply (will_get_reply q) (reply_serial q))) as [E1|E1]; rewrite E1 in Hx; [by apply elem_of_nil in Hx|].
           apply list_elem_of_singleton in Hx as ->. eauto.
        -- destruct Hw as [(HO & Hz & Hpart)|[Hw ->]]; [left; split_and!; [done..|]; by eapply (part_due r r1 (conj Hn1 Hn2) p q); [apply Ht|..]|right].
           split; [by eapply (walked_due r r1 (conj Hn1 Hn2) p q); [apply Ht|..]|]. rewrite Ec. simpl. rewrite Edue. simpl.
           rewrite (calls_of_same r r1) by (intros x Hx; apply Hpool; by intros ->). rewrite (wake_up_same r r1) by done.
           by rewrite (List.filter_ext _ _ (λ q, f_equal negb (due_same r r1 (conj Hn1 Hn2) q))).
    + destruct Hb as (HO & Hs & Hi). exists _dbus_get_oom_wait, r1, m1. split_and!; [done..| |].
      2: { left. split_and!; [done|done|]. exists [], (p :: l). rewrite leftover_nil. done. }
      exists []. rewrite app_nil_r. split; [done|by intros x ?%elem_of_nil].
  - set (least' := Some _). destruct (IH r least' mm Ht Hd Hl' Hm) as (z & r' & m' & E' & Hm' & Ht' & Hsh' & Hs & Hw).
    exists z, r', m'. split_and!; [done..|]. destruct Hw as [(HO & Hz & Hpart)|[Hw ->]]; [left; split_and!; [done..|]; by eapply part_later|right]. split; [by eapply walked_later|]. rewrite Ec. simpl. rewrite Edue. simpl.
    assert (∀ ll, wake_up r ll (from_option id (3600 * 1000) least') = wake_up r (q :: ll) (from_option id (3600 * 1000) least)) as Hwake.
    { intros ll. rewrite <-wake_up_cons. f_equal. subst least'. cbn. unfold id.
      destruct (Z.ltb_spec (remaining r q) (from_option (λ x, x) (3600 * 1000) least)); lia. }
    rewrite <-Hwake. by destruct (List.filter _ _).
Qed.

Lemma calls_of_filter r l :
  (∀ p, p ∈ l → is_Some (pending_pool r !! p)) →
  calls_of r (List.filter (λ p, negb (due_in r p)) l) = List.filter (λ q, negb (due r q)) (calls_of r l).
Proof.
  induction l as [|p l IH]; intros Hl; [done|]. destruct (Hl p) as [q Hq]; [by apply elem_of_cons; left|].
  assert (∀ x, x ∈ l → is_Some (pending_pool r !! x)) as Hl' by (intros x Hx; apply Hl; by apply elem_of_cons; right).
  unfold calls_of, due_in in *. cbn in *. rewrite Hq. cbn. destruct (due r q); cbn; [by apply IH|]. rewrite Hq. f_equal. by apply IH.
Qed.

(** After a look at the list for which there was memory: what was due is answered, the
    timeout is set for the first of the others. *)
Record expired (r r' : router) : Prop := {
  ex_items : items r' = List.filter (λ p, negb (due_in r p)) (items r);
  ex_pool p : p ∈ items r' → pending_pool r' !! p = pending_pool r !! p;
  ex_sent : sent r' = answered r (items r);
  ex_enabled : timeout_enabled r' = true ↔ items r' ≠ [];
  ex_interval : items r' ≠ [] → timeout_interval r' = wake_up r (calls_of r (items r')) (3600 * 1000)
}.

Lemma set_interval_run z r m :
  bus_expire_timeout_set_interval z r m
  = Ok tt (with_timeout (0 <=? z) (if 0 <=? z then z else timeout_interval r) r) m.
Proof.
  unfold bus_expire_timeout_set_interval, modify. destruct (0 <=? z); [done|]. destruct (timeout_enabled r) eqn:E; [done|]. destruct r. simpl in *. by subst.
Qed.

Lemma tidy_timeout r en iv : tidy r → (items r ≠ [] → en = true) → tidy (with_timeout en iv r).
Proof. intros [] Hen. by constructor. Qed.

Lemma shrinks_timeout r r' en iv : shrinks r r' → shrinks r (with_timeout en iv r').
Proof. intros []. by constructor. Qed.

(** The walk over the whole list. *)
Lemma walk_all O r z r' :
  tidy r → walk_ends O r (items r) None z r' →
  (items r' ≠ [] → 0 <= z) ∧ (O ∧ walked_part r (items r) r' ∨ ∀ iv, expired r (with_timeout (0 <=? z) (if 0 <=? z then z else iv) r')).
Proof.
  intros Ht [(HO & Hz & Hpart)|[[W1 W2 W3] Hz]]; [tauto|].
  assert (items r' = List.filter (λ p, negb (due_in r p)) (items r)) as Hi.
  { rewrite W1. apply List.filter_ext_in. intros p Hp%list_elem_of_In. by rewrite bool_decide_true. }
  set (later := List.filter (λ q, negb (due r q)) (calls_of r (items r))) in *.
  assert (calls_of r (items r') = later) as Hc by (rewrite Hi; apply calls_of_filter; intros p Hp; by apply tidy_pool).
  assert (items r' = [] ↔ later = []) as Hnil.
  { rewrite <-Hc. split; [by intros ->|]. destruct (items r') as [|p l] eqn:Ei; [done|]. destruct (tidy_pool r p Ht) as [q Hq].
    - assert (p ∈ items r') as Hp by (rewrite Ei; by apply elem_of_cons; left). rewrite Ei, Hi in Hp. by apply list_elem_of_In, List.filter_In in Hp as [?%list_elem_of_In _].
    - unfold calls_of. cbn. by rewrite Hq. }
  assert (0 <= wake_up r later (3600 * 1000)) as Hpos.
  { apply wake_up_nonneg; [|lia]. apply Forall_forall. intros q Hq. unfold later in Hq. apply List.filter_In in Hq as [_ Hq]. by apply negb_true_iff. }
  assert (items r' ≠ [] → z = wake_up r later (3600 * 1000)) as Hz1 by (intros Hne; rewrite Hz; destruct later; [tauto|done]).
  split; [intros Hne; by rewrite (Hz1 Hne)|]. right. intros iv. constructor; simpl; [done|done|done| |].
  - rewrite Z.leb_le. split; [|by intros Hne; rewrite (Hz1 Hne)]. intros Hge Hnil1. rewrite (proj1 Hnil Hnil1) in Hz. lia.
  - intros Hne. rewrite Hc, (Hz1 Hne). by rewrite (proj2 (Z.leb_le _ _) Hpos).
Qed.

Lemma expire_run O r mm :
  tidy r → (may_fail mm → O) →
  ∃ r' mm', bus_expirelist_expire r mm = Ok tt r' mm' ∧ (may_fail mm' → O) ∧ tidy r' ∧ shrinks r r'
    ∧ (∃ s, sent r' = sent r ++ s ∧ ∀ x, x ∈ s → ∃ c n, x = NoReply c n) ∧ (O ∧ walked_part r (items r) r' ∨ expired r r').
Proof.
  intros Ht Hm. unfold bus_expirelist_expire. rewrite at_gets.
  destruct (expiration_loop_run O (items r) r None mm Ht) as (z & r1 & m1 & E & Hm1 & Ht1 & Hsh & Hs & Hw); [apply Ht|done|done|].
  destruct (walk_all O r z r1 Ht Hw) as [Hz Hex].
  exists (with_timeout (0 <=? z) (if 0 <=? z then z else timeout_interval r1) r1), m1. split_and!.
  - rewrite <-set_interval_run. destruct (items r) as [|p l] eqn:Ei; apply at_ok.
    + by injection E as <- <- <-.
    + unfold do_expiration_with_current_time. rewrite at_gets. unfold id. by rewrite Ei.
  - done.
  - apply tidy_timeout; [done|]. intros Hne. by apply Z.leb_le, Hz.
  - by apply shrinks_timeout.
  - done.
  - destruct Hex as [?|Hex]; [by left|right; apply Hex].
Qed.

(** ** Replies and calls *)

(** A call of [get] to [send] for which a reply is expected, and a message that replies. *)
Definition is_call (get send : connection) (serial : Z) (x : sending) : bool :=
  match x with
  | Forwarded s d m => bool_decide (s = get) && bool_decide (d = send) && wants_reply m && (routed_serial m =? serial)
  | _ => false
  end.

Definition is_reply (get send : connection) (serial : Z) (x : sending) : bool :=
  match x with
  | Forwarded s d m => bool_decide (s = send) && bool_decide (d = get) && (message_reply_serial (routed_msg m) =? serial)
  | _ => false
  end.

Definition count {A} (f : A → bool) (l : list A) : nat := length (List.filter f l).

Lemma count_app {A} (f : A → bool) l l' : count f (l ++ l') = (count f l + count f l')%nat.
Proof. unfold count. by rewrite List.filter_app, length_app. Qed.

Lemma count_none {A} (f : A → bool) l : (∀ x, x ∈ l → f x = false) → count f l = 0%nat.
Proof.
  induction l as [|x l IH]; intros Hl; [done|]. unfold count in *. simpl. rewrite Hl by (by apply elem_of_cons; left).
  apply IH. intros y Hy. apply Hl. by apply elem_of_cons; right.
Qed.

Lemma count_perm {A} (f : A → bool) l l' : l ≡ₚ l' → count f l = count f l'.
Proof. unfold count. induction 1 as [|x l l' _ IH|x y l|]; simpl; [done|destruct (f x); simpl; congruence|destruct (f x), (f y); done|congruence]. Qed.

(** The calls that wait for a reply. *)
Definition outstanding (r : router) (get send : connection) (serial : Z) : nat := count (pending_in (pending_pool r) get send serial) (items r).

(** Each reply, and each reply that is waited for, has its call. *)
Definition matched (r : router) (get send : connection) (serial : Z) : Prop :=
  (count (is_reply get send serial) (sent r) + outstanding r get send serial <= count (is_call get send serial) (sent r))%nat.

(** Nothing that matters is sent, and no reply is expected that was not before. *)
Definition forwarded (x : sending) : bool := match x with Forwarded _ _ _ => true | _ => false end.

Lemma shrinks_matched r r' s get send serial :
  tidy r' → shrinks r r' → sent r' = sent r ++ s → (∀ x, x ∈ s → forwarded x = false) → matched r get send serial → matched r' get send serial.
Proof.
  intros Ht' [A B C] Hs Hf. unfold matched. rewrite Hs, !count_app.
  assert (∀ f, (∀ x, forwarded x = false → f x = false) → count f s = 0%nat) as Hz by (intros f Hff; apply count_none; auto).
  rewrite !Hz by (by intros []). assert (outstanding r' get send serial <= outstanding r get send serial)%nat; [|lia].
  apply filter_le; [apply Ht'|]. intros p Hp Hpp. split; [by apply A|by apply B].
Qed.

Lemma copies_forwarded r s addressed m l x : copies r s addressed m l → x ∈ l → forwarded x = false.
Proof. intros Hl Hx. by destruct (Hl x Hx) as (d & -> & _). Qed.

(** The list after a transaction. *)
Lemma committed_outstanding r0 rem add out r get send serial :
  tidy r0 → changes_ok r0 rem add → committed r0 rem add out None r →
  outstanding r get send serial
  = (count (λ q, is_pending get send serial q) (match add with Some (_, q) => [q] | None => [] end)
     + count (pending_in (pending_pool r0) get send serial) (left_items r0 rem))%nat.
Proof.
  intros Ht Hch Hc. unfold outstanding.
  assert (items r = match add with Some (p, _) => [p] | None => [] end ++ left_items r0 rem) as -> by (by destruct Hc as (en & iv & _ & ->)).
  rewrite count_app. f_equal.
  - destruct add as [[p q]|]; [|done]. unfold count. simpl. unfold pending_in.
    rewrite (committed_added r0 rem _ out r Ht Hch Hc p q eq_refl). simpl. by destruct (is_pending _ _ _ q).
  - unfold count. f_equal. apply List.filter_ext_in. intros p Hp%list_elem_of_In. by apply (committed_waits r0 rem add out r p).
Qed.

Lemma left_outstanding r rem get send serial :
  tidy r → (∀ p, rem = Some p → p ∈ items r) →
  outstanding r get send serial
  = (count (pending_in (pending_pool r) get send serial) (match rem with Some p => [p] | None => [] end)
     + count (pending_in (pending_pool r) get send serial) (left_items r rem))%nat.
Proof.
  intros Ht Hrem. unfold outstanding. destruct rem as [p|]; [|done]. rewrite <-count_app.
  apply count_perm. symmetry. by apply remove_item_perm, Hrem.
Qed.

(** A rule that lets a reply pass only if there is a call for it.  [requested_reply] is set
    when the configuration says nothing about it; [eavesdrop] has to be left alone. *)
Definition asks_for_call (rule : BusPolicyRule) : bool :=
  match rule_d rule with
  | BUS_POLICY_RULE_SEND d _ => negb (rule_allow rule) || match_requested_reply d && negb (eavesdrop d)
  | _ => true
  end.

Lemma unrequested_denied b receiver msg rules :
  forallb asks_for_call rules = true → message_reply_serial msg ≠ 0 → decision (send_applies b false receiver msg) rules = false.
Proof.
  intros Hall Hn. unfold decision, deciding. destruct (list.last _) as [rule|] eqn:El; [|done]. simpl.
  apply last_Some_elem_of in El. apply list_elem_of_filter in El as [Happ Hin]. rewrite forallb_forall in Hall.
  specialize (Hall rule (proj1 (list_elem_of_In _ _) Hin)). unfold asks_for_call, send_applies in *. destruct (rule_d rule) as [d l| | | |]; [|done..].
  apply andb_true_iff in Happ as [[_ Happ]%andb_true_iff _]. unfold header_ok, reply_ok in Happ. apply Z.eqb_neq in Hn. rewrite Hn in Happ.
  destruct (rule_allow rule); [|done]. simpl in Hall. apply andb_true_iff in Hall as [E1 E2]. by rewrite E1, E2 in Happ.
Qed.

Lemma committed_matched r0 rem add out r get send serial :
  tidy r0 → changes_ok r0 rem add → committed r0 rem add out None r →
  (count (is_reply get send serial) out + count (λ q, is_pending get send serial q) (match add with Some (_, q) => [q] | None => [] end)
   <= count (is_call get send serial) out
      + count (pending_in (pending_pool r0) get send serial) (match rem with Some p => [p] | None => [] end))%nat →
  matched r0 get send serial → matched r get send serial.
Proof.
  intros Ht Hch Hc Hle. unfold matched. rewrite (committed_outstanding r0 rem add out r) by done. rewrite (left_outstanding r0 rem) by (done || apply Hch).
  destruct (committed_tidy r0 rem add out r Ht Hch Hc) as [_ ->]. rewrite !count_app. lia.
Qed.

Section matching.
Context (get send : connection) (serial : Z) (Hserial : serial ≠ 0).
Context (Hget : dbus_connection_get_is_connected get = true) (Hsend : dbus_connection_get_is_connected send = true).
Context (Hrules : forallb asks_for_call (bus_connection_get_policy send) = true).

(** The record of a call counts as its message does. *)
Lemma recorded_count r c a m add :
  recorded r c a m add →
  count (λ q, is_pending get send serial q) (match add with Some (_, q) => [q] | None => [] end)
  = count (is_call get send serial) [Forwarded c a m].
Proof.
  unfold recorded, count. simpl. destruct (wants_reply m).
  - intros (p & _ & ->). unfold is_pending. simpl. rewrite andb_true_r.
    assert (bool_decide (Some a = Some send) = bool_decide (a = send)) as -> by (apply bool_decide_ext; naive_solver).
    by destruct (bool_decide (c = get)), (bool_decide (a = send)), (routed_serial m =? serial).
  - intros ->. simpl. by rewrite andb_false_r.
Qed.

(** A reply that passes takes the place of the call. *)
Lemma reply_count r c a m :
  verdict r c a m = None →
  (count (is_reply get send serial) [Forwarded c a m]
   <= count (pending_in (pending_pool r) get send serial) (match answered_call r c a (routed_msg m) with Some p => [p] | None => [] end))%nat.
Proof.
  intros [Hallow _]%verdict_passes. unfold count. simpl. destruct (_ && _) eqn:E; [|simpl; lia].
  apply andb_true_iff in E as [[Ec%bool_decide_eq_true Ea%bool_decide_eq_true]%andb_true_iff En%Z.eqb_eq]. subst c a.
  unfold rules_allow in Hallow. apply andb_true_iff in Hallow as [Hallow _]. destruct (answered_call r send get (routed_msg m)) as [p|] eqn:Eans; simpl.
  - unfold answered_call in Eans. rewrite En in Eans. apply Z.eqb_neq in Hserial. rewrite Hserial in Eans. apply find_in in Eans as [_ ->]. done.
  - simpl in Hallow. rewrite unrequested_denied in Hallow; [done|done|by rewrite En].
Qed.

(** Copies and errors count for nothing. *)
Lemma count_quiet f l : (∀ x, forwarded x = false → f x = false) → (∀ x, x ∈ l → forwarded x = false) → count f l = 0%nat.
Proof. intros Hf Hl. apply count_none. auto. Qed.

Lemma dispatched_matched O r0 c m r :
  tidy r0 → dispatched O r0 c m r → matched r0 get send serial → matched r get send serial.
Proof.
  intros Ht [rem add out err extra Hr Hex Hconn Hc|rem add out e _ _ Hres] Hm.
  2: { destruct (restored_tidy r0 _ r Ht Hres) as (Ht' & Hsh & Hs). eapply shrinks_matched; [done..| |done]. by intros x ->%list_elem_of_singleton. }
  pose proof (route_changes_ok _ _ _ _ _ _ _ _ Hr) as Hch.
  assert (∀ x, x ∈ extra → forwarded x = false) as Hextra.
  { destruct Hex as [-> | (e & _ & ->)]; [by intros x ?%elem_of_nil|by intros x ->%list_elem_of_singleton]. }
  eapply committed_matched; [done..| |exact Hm]. rewrite !count_app, !(count_quiet _ extra) by (done || by intros []).
  assert (∀ l addressed, copies r0 c addressed m l → ∀ f, (∀ x, forwarded x = false → f x = false) → count f l = 0%nat) as Hl.
  { intros l addressed Hl f Hf. apply count_quiet; [done|]. intros x. by eapply copies_forwarded. }
  destruct Hr as [|?|?|?|? ? ? ? ? ? ? ? ?|name x q add l err _ _ Hv Hrec Hcop _|name x q add _ _ Hv Hrec HO|l err _ Hcop _]; try (cbn; lia).
  - rewrite !count_app, !(Hl l _ Hcop), (recorded_count _ _ _ _ _ Hrec) by (by intros []). pose proof (reply_count _ _ _ _ Hv) as Hrep.
    destruct (dbus_connection_get_is_connected (who x)) eqn:Econn; [lia|]. unfold count at 1 3. simpl.
    unfold count at 1. simpl. destruct (bool_decide (who x = send)) eqn:Ex; [|rewrite andb_false_r; simpl; lia].
    apply bool_decide_eq_true in Ex. congruence.
  - rewrite (recorded_count _ _ _ _ _ Hrec). unfold count at 1 2 3. simpl. destruct (bool_decide (c = get)) eqn:Ec; simpl; [|lia].
    apply bool_decide_eq_true in Ec as ->. rewrite (Hconn eq_refl) in Hget. done.
  - rewrite !(Hl l _ Hcop) by (by intros []). cbn. lia.
Qed.

End matching.

Lemma verdict_memory r s a m : verdict r s a m = Some NoMemory → stopped_early s a (routed_msg m).
Proof.
  unfold verdict, stopped_early. destruct (known_type _); [|by left]. destruct (bus_selinux_allows_send s (Some a) (routed_msg m)); [|by right..]. cbn [negb].
  repeat case_match; done.
Qed.

(** A message that is refused after the call it answers was found. *)
Lemma refused_route O r c m name x l e rem add out err :
  route_result O r c m rem add out err → ¬ O → message_destination (routed_msg m) = Some name → queue (registry r) name = x :: l →
  ¬ stopped_early c (who x) (routed_msg m) → verdict r c (who x) m = Some e →
  rem = answered_call r c (who x) (routed_msg m) ∧ add = None ∧ out = [] ∧ err = Some e.
Proof.
  intros Hr HO Hd Hq Hstop Hv.
  assert (∀ name' x' l', message_destination (routed_msg m) = Some name' → queue (registry r) name' = x' :: l' → x' = x) as Hsame.
  { intros name' x' l' Hd' Hq'. rewrite Hd in Hd'. injection Hd' as <-. rewrite Hq in Hq'. by injection Hq' as <- _. }
  destruct Hr as [|name' e' Hd' Hq'|name' text e' Hd' Hq'|name' Hd' Hq'|name' x' q rem e' Hd' Hq' Hrem Hv'|name' x' q add l0 err Hd' Hq' Hv'|name' x' q add Hd' Hq' Hv'|]; [done| | | | | | |congruence].
  1-3: rewrite Hd in Hd'; injection Hd' as <-; by rewrite Hq in Hq'.
  - rewrite (Hsame name' x' q Hd' Hq') in Hrem, Hv'. rewrite Hv in Hv'. destruct Hv' as [[= ->]|[_ ?]]; [|done].
    destruct Hrem as [-> | [_ [?|?]]]; [|done..]. done.
  - rewrite (Hsame name' x' q Hd' Hq'), Hv in Hv'. done.
  - rewrite (Hsame name' x' q Hd' Hq'), Hv in Hv'. done.
Qed.

(** Without the call that is answered, there is none like it. *)
Lemma answered_alone N r s a msg p :
  sound N r → answered_call r s a msg = Some p →
  count (pending_in (pending_pool r) a s (message_reply_serial msg)) (left_items r (Some p)) = 0%nat.
Proof.
  intros [Ht _ Hd] Ha. unfold answered_call in Ha. destruct (_ =? 0); [done|]. apply find_in in Ha as [Hp Hpp].
  apply count_none. intros x Hx. apply left_in in Hx as [Hx Hne]; [|done]. apply not_true_iff_false. intros Hxx. by rewrite (Hd _ _ _ p x Hp Hx Hpp Hxx) in Hne.
Qed.

(** ** What happens to the router *)

(** A message, a look at the list of what expires, the end of a connection, the clock, and
    changes of who owns which name (see [Registry]). *)
Inductive event :=
| Dispatch (c : connection) (m : routed)
| Expire
| Drop (c : connection)
| Clock (sec usec : Z)
| Owners (b : bus).

Definition on_event (e : event) : RM unit :=
  match e with
  | Dispatch c m => bus_dispatch c m;; mret tt
  | Expire => bus_expirelist_expire
  | Drop c => bus_connection_drop_pending_replies c
  | Clock sec usec => modify (with_now sec usec)
  | Owners b => modify (with_registry b)
  end.

Definition possible (r : router) (e : event) : Prop :=
  match e with
  | Dispatch c m => between_connections c (routed_msg m) = true ∧ owners_active (registry r)
  | Owners b => consistent b
  | _ => True
  end.

Lemma tidy_same r r' :
  tidy r → consistent (registry r') →
  pending_pool r' = pending_pool r → items r' = items r → reply_hooks r' = reply_hooks r → to_send r' = to_send r → r_error r' = r_error r →
  timeout_enabled r' = timeout_enabled r → tidy r' ∧ shrinks r r'.
Proof.
  intros [] Hb E1 E2 E3 E4 E5 E6. split; [constructor; rewrite ?E1, ?E2, ?E3, ?E4, ?E5, ?E6; done|]. constructor; [by rewrite E2|..].
  - intros p get send serial _. by rewrite E1.
  - intros p get _. by rewrite E1.
Qed.

(** Every event is dealt with, and what always holds, holds again. *)
Lemma event_run N r e mm :
  bus_context_get_max_replies_per_connection <= N → sound N r → possible r e →
  ∃ r' mm', on_event e r mm = Ok tt r' mm' ∧ sound N r'
    ∧ ∀ get send serial, serial ≠ 0 → dbus_connection_get_is_connected get = true → dbus_connection_get_is_connected send = true →
        forallb asks_for_call (bus_connection_get_policy send) = true → matched r get send serial → matched r' get send serial.
Proof.
  intros HN Hs Hpos. pose proof (so_tidy N r Hs) as Ht.
  assert (∀ r' s, tidy r' → shrinks r r' → sent r' = sent r ++ s → (∀ x, x ∈ s → forwarded x = false) →
    sound N r' ∧ ∀ get send serial, matched r get send serial → matched r' get send serial) as Hquiet.
  { intros r' s Ht' Hsh Es Hf. split; [by eapply shrinks_sound|]. intros get send serial. by eapply shrinks_matched. }
  destruct e as [c m| |c|sec usec|b]; simpl in Hpos |- *.
  - destruct Hpos as [Hb Hown]. unfold between_connections in Hb. apply andb_true_iff in Hb as [[Hact _]%andb_true_iff _].
    destruct (handled (routed_msg m)) eqn:Eh.
    + destruct (dispatch_run (may_fail mm) r c m mm Ht Hown Hact Eh) as (r' & mm' & E & _ & Hd); [done|]. exists r', mm'.
      rewrite (at_ok _ _ _ _ _ _ _ E). split; [done|]. split; [by eapply dispatched_sound|]. intros get send serial Hn Hg Hse Hrules. by eapply dispatched_matched.
    + exists r, mm. split; [|by split]. unfold bus_dispatch. rewrite <-negb_orb. fold (handled (routed_msg m)). by rewrite Eh.
  - destruct (expire_run (may_fail mm) r mm Ht) as (r' & mm' & E & _ & Ht' & Hsh & (s & Es & Hnr) & _); [done|]. exists r', mm'. split; [done|].
    destruct (Hquiet r' s Ht' Hsh Es); [|by split; auto]. intros x Hx. by destruct (Hnr x Hx) as (c & n & ->).
  - destruct (drop_pending_run c r mm Ht) as (r' & E & Ht' & Hsh & Es). exists r', mm. split; [done|].
    destruct (Hquiet r' [] Ht' Hsh); [by rewrite app_nil_r|by intros x ?%elem_of_nil|by split; auto].
  - do 2 eexists. split; [done|]. destruct (tidy_same r (with_now sec usec r)) as [Ht' Hsh]; [done|apply Ht|done..|].
    destruct (Hquiet _ [] Ht' Hsh); [by rewrite app_nil_r|by intros x ?%elem_of_nil|by split; auto].
  - do 2 eexists. split; [done|]. destruct (tidy_same r (with_registry b r)) as [Ht' Hsh]; [done..|].
    destruct (Hquiet _ [] Ht' Hsh); [by rewrite app_nil_r|by intros x ?%elem_of_nil|by split; auto].
Qed.

End calls.

(** ** Reachable states *)

(** The bus has been started, and nothing is expected. *)
Definition started (b : bus) (sec usec : Z) : router := Router b ∅ [] false 100 sec usec [] [] [] None.

(** Connections, rules and limits change between the events: [world] says what they may be.
    Memory may be refused at any time. *)
Inductive reachable (world : RouterContext → Prop) : router → Prop :=
| reachable_start b sec usec : consistent b → reachable world (started b sec usec)
| reachable_event (K : RouterContext) r e m r' m' :
    reachable world r → world K → possible r e → on_event e r m = Ok tt r' m' → reachable world r'.

Lemma started_sound N b sec usec : consistent b → sound N (started b sec usec).
Proof.
  intros Hb. constructor; [constructor; try done; constructor| |].
  - intros get. unfold waiting. simpl. lia.
  - intros get send serial p q Hp. by apply elem_of_nil in Hp.
Qed.

(** The connections are those of the match maker and no limit is above [N]. *)
Definition limited (N : Z) (K : RouterContext) : Prop := @RouterLaws K ∧ @bus_context_get_max_replies_per_connection K <= N.

Lemma reachable_sound world N r : (∀ K, world K → limited N K) → reachable world r → sound N r.
Proof.
  intros Hworld. induction 1 as [b sec usec Hb|K r e m r' m' _ IH HK Hpos E]; [by apply started_sound|]. destruct (Hworld K HK) as [L HN].
  destruct (@event_run K L N r e m HN IH Hpos) as (r1 & m1 & E1 & Hs & _). rewrite E in E1. by injection E1 as -> _.
Qed.

(** C21: Whatever messages of active connections to other receivers than the driver are
    dispatched (the owners of names are active, and what else happens to the registry leaves it
    consistent), whichever connections go away, whenever the list is looked at and whatever
    memory is refused: the list holds exactly the pending replies, each
    once; no hook, message or error of a transaction is left over; the timeout is enabled while
    anything is pending; no connection waits for more replies than the limit; no two calls with
    the same caller, callee and serial wait; and every event is dealt with: no assertion fails
    and no freed pending reply is used. *)
Theorem pending_replies_stay_sound N r :
  reachable (limited N) r →
  tidy r ∧ bounded N r ∧ distinct r
  ∧ ∀ (K : RouterContext) e m, limited N K → possible r e → ∃ r' m', on_event e r m = Ok tt r' m'.
Proof.
  intros Hr. pose proof (reachable_sound _ N r (λ K HK, HK) Hr) as Hs. split_and!; [apply Hs|apply Hs|apply Hs|].
  intros K e m [L HN] Hpos. destruct (@event_run K L N r e m HN Hs Hpos) as (r' & m' & E & _). by exists r', m'.
Qed.

(** C22: If every allow rule for what a connection sends is for requested replies and not for
    eavesdropping, and if it and its peer stay connected, then the peer never gets more replies
    to a serial, other than 0, than it has sent calls with that serial: there is no reply without a call, and no second reply to a call. *)
Theorem reply_needs_call world N get send serial r :
  (∀ K, world K → limited N K ∧ @dbus_connection_get_is_connected K get = true ∧ @dbus_connection_get_is_connected K send = true
     ∧ forallb asks_for_call (@bus_connection_get_policy K send) = true) →
  serial ≠ 0 → reachable world r →
  (count (is_reply get send serial) (sent r) <= count (is_call get send serial) (sent r))%nat.
Proof.
  intros Hworld Hn Hr. assert (matched r get send serial) as Hm; [|unfold matched in Hm; lia].
  induction Hr as [b sec usec Hb|K r e m r' m' Hr IH HK Hpos E]; [unfold matched; simpl; done|].
  pose proof (reachable_sound world N r (λ K HK, proj1 (Hworld K HK)) Hr) as Hs. destruct (Hworld K HK) as ([L HN] & Hg & Hsend & Hrules).
  destruct (@event_run K L N r e m HN Hs Hpos) as (r1 & m1 & E1 & _ & Hm). rewrite E in E1. injection E1 as -> _. by apply Hm.
Qed.

Section claims.
Context `{L : RouterLaws}.

(** C23: The security check of a message of an active connection to the owner of its
    destination always returns; if no memory is refused its answer is the [verdict]: the type is
    known, SELinux and the rules of both sides let the message pass, where it is a requested
    reply exactly if the recipient waits for it, the queue of the recipient is not full, and a
    call that wants a reply is new and within the limit.  The error that is set is the reason of
    the refusal.  A call that passes is recorded, and the call that is answered is taken from the
    list, refused or not. *)
Theorem security_check_decides r s a m mm :
  tidy r → bus_connection_is_active s = true → bus_connection_is_active a = true → is_some (message_destination (routed_msg m)) = true →
  ∃ b r' mm', bus_context_check_security_policy true (Some s) (Some a) (Some a) m r mm = Ok b r' mm'
    ∧ (may_fail mm
       ∨ b = negb (is_some (verdict r s a m)) ∧ r_error r' = verdict r s a m
         ∧ (¬ stopped_early s a (routed_msg m) →
            let others := left_items r (answered_call r s a (routed_msg m)) in
            if b && wants_reply m then
              ∃ p, pending_pool r' !! p = Some (PendingReply (now_sec r) (now_usec r) s (Some a) (routed_serial m)) ∧ items r' = p :: others
            else items r' = others)).
Proof.
  intros Ht Hs Ha Hd. pose proof (check_ends (may_fail mm) r s a m [] Ht Hs Ha Hd r mm (tx_start r Ht) id) as Hc.
  destruct (bus_context_check_security_policy true (Some s) (Some a) (Some a) m r mm) as [b r' mm'| |]; [|by destruct Hc as [[] _]|done].
  exists b, r', mm'. split; [done|]. destruct Hc as [(rem & Hrem & Hres) _]. destruct b; simpl in Hres.
  - destruct Hres as (Hv & add & Hrec & (en & iv & -> & _)). right. rewrite Hv. split_and!; [done|done|]. intros _. cbn [andb].
    destruct Hrem as [-> | (_ & ? & _)]; [|done]. unfold recorded in Hrec. destruct (wants_reply m); [|by subst add].
    destruct Hrec as (p & Hp & ->). exists p. split; [apply lookup_insert_eq|done].
  - destruct Hres as (e & (en & iv & -> & _) & [Hv|[_ ?]]); [|by left]. destruct Hrem as [-> | (-> & _ & [?|Hstop])]; [right|by left|right];
      rewrite Hv; (split_and!; [done|done|]); [by intros _|by intros ?].
Qed.

(** C24: A look at the list of pending replies always returns.  If no memory is refused, exactly
    the calls that have waited long enough are taken from the list, and each is answered, in
    order, with the error NoReply, as far as the rules of the caller and its queue let that
    through; the timeout stays enabled exactly if calls are left, and is set to the time until
    the first of them is due, at most an hour.  If memory is refused, the calls that were not
    answered are still in the list, and the timeout is enabled for them: only a part of the list
    has been looked at. *)
Theorem expired_calls_are_answered r m :
  tidy r →
  ∃ r' m', bus_expirelist_expire r m = Ok tt r' m' ∧ tidy r'
    ∧ (expired r r' ∨ may_fail m ∧ walked_part r (items r) r').
Proof.
  intros Ht. destruct (expire_run (may_fail m) r m Ht id) as (r' & m' & E & _ & Ht' & Hsh & _ & Hex).
  exists r', m'. tauto.
Qed.

(** C40: A reply that its receiver waits for, and that is refused by the rules or because the
    queue of the receiver is full: the sender may get an error, the receiver gets nothing, and
    the call is no longer waited for, so that it is never answered with the error NoReply
    either. *)
Theorem refused_reply_ends_call N r c m name x l e mm :
  sound N r → owners_active (registry r) → bus_connection_is_active c = true →
  message_destination (routed_msg m) = Some name → queue (registry r) name = x :: l →
  ¬ stopped_early c (who x) (routed_msg m) → is_some (answered_call r c (who x) (routed_msg m)) = true →
  verdict r c (who x) m = Some e → ¬ may_fail mm →
  ∃ r' mm' s, bus_dispatch c m r mm = Ok true r' mm' ∧ sent r' = sent r ++ s
    ∧ (s = [] ∨ s = [ErrorFor c (routed_serial m) e])
    ∧ outstanding r' (who x) c (message_reply_serial (routed_msg m)) = 0%nat.
Proof.
  intros Hs Hown Hc Hd Hq Hstop Hans Hv Hm. pose proof (so_tidy N r Hs) as Ht.
  destruct (dispatch_run (may_fail mm) r c m mm Ht Hown Hc) as (r' & mm' & E & _ & Hdone); [unfold handled; by rewrite Hd|done|].
  destruct Hdone as [rem add out err extra Hr Hextra _ Hcom|rem add out e' Hr [-> | ?] _]; [| |done].
  - pose proof (route_changes_ok _ _ _ _ _ _ _ _ Hr) as Hch.
    destruct (refused_route _ _ _ _ _ _ _ _ _ _ _ _ Hr Hm Hd Hq Hstop Hv) as (-> & -> & -> & ->).
    exists r', mm', extra. split; [done|]. split; [by destruct (committed_tidy _ _ _ _ _ Ht Hch Hcom)|]. split; [naive_solver|].
    rewrite (committed_outstanding _ _ _ _ _ _ _ _ Ht Hch Hcom). destruct (answered_call r c (who x) (routed_msg m)) as [p|] eqn:Ea; [|done].
    by rewrite (answered_alone N r c (who x) (routed_msg m) p Hs Ea).
  - destruct (refused_route _ _ _ _ _ _ _ _ _ _ _ _ Hr Hm Hd Hq Hstop Hv) as (_ & _ & _ & [= <-]). by destruct Hstop; eapply verdict_memory.
Qed.

End claims.

(** ** Examples *)

Section examples.

(** Two connections with a name each. *)
#[local] Existing Instance permissive.

Let two : gset connection := {[1%nat; 2%nat]}.
Let service := lit "a.b".
Let client := lit "c.d".
Let calls := [(1%nat, Hello); (2%nat, Hello); (1%nat, Ask (RequestName service 0)); (2%nat, Ask (RequestName client 0))].
Definition two_names : bus :=
  default (start two) (serve calls (start two)).

Lemma two_names_consistent : consistent two_names.
Proof.
  apply idle_consistent, good_idle, (reachable_good two), (serve_steps calls). vm_compute. reflexivity.
Qed.

(** A bus with the default rules, on which some connections do not take their messages. *)
Definition default_bus (slow : connection → bool) : RouterContext :=
  Build_RouterContext (λ _ _ _, SELinuxAllowed) (λ _, true) (λ _, true) (λ _, lit ":1.0")
    (λ _, [bus_policy_rule_new SEND true; bus_policy_rule_new RECEIVE true])
    (λ _ c, if slow c then 2 else 0) (λ _ _ _, []) (λ _ _ _, None) 1 5 30000.

Lemma default_laws slow : @RouterLaws (default_bus slow).
Proof. constructor; [done|]. intros s a m Ha. by apply elem_of_nil in Ha. Qed.

Lemma default_limited slow : limited 5 (default_bus slow).
Proof. split; [apply default_laws|done]. Qed.

(** A call of the second connection, and a reply of the first one. *)
Let call := Routed (Message DBUS_MESSAGE_TYPE_METHOD_CALL 0 None None (Some (lit "M")) None (Some service) None) 7 false true.
Let reply := Routed (Message DBUS_MESSAGE_TYPE_METHOD_RETURN 7 None None None None (Some client) None) 3 true true.

Definition after (K : RouterContext) (e : event) (r : router) : router :=
  match on_event e r plenty with Ok _ r' _ => r' | _ => r end.

Let calm := default_bus (λ _, false).
Definition asked : router := after calm (Dispatch 2 call) (started two_names 0 0).
Definition replied : router := after calm (Dispatch 1 reply) asked.
Definition much_later : router := after calm (Clock 31 0) asked.

Lemma after_reached world K e r :
  (∀ K, world K → limited 5 K) → world K → @possible K r e → reachable world r → reachable world (after K e r).
Proof.
  intros Hworld HK Hpos Hr. pose proof (reachable_sound world 5 r Hworld Hr) as Hs. destruct (Hworld K HK) as [L HN].
  destruct (@event_run K L 5 r e plenty HN Hs Hpos) as (r' & m' & E & _). unfold after. rewrite E. by eapply (reachable_event world K).
Qed.

Lemma dispatch_possible slow r c m : @between_connections (default_bus slow) c (routed_msg m) = true → @possible (default_bus slow) r (Dispatch c m).
Proof. intros Hb. split; [exact Hb|]. by intros name x l _. Qed.

Lemma default_not_stopped slow s a msg : known_type msg = true → ¬ @stopped_early (default_bus slow) s a msg.
Proof. by intros E [E1|E1]; [rewrite E in E1|apply E1]. Qed.

Definition calm_world (K : RouterContext) : Prop := K = calm.

Lemma calm_limited K : calm_world K → limited 5 K.
Proof. intros ->. apply default_limited. Qed.

Lemma asked_reached : reachable calm_world asked.
Proof. apply after_reached; [apply calm_limited|done|by apply dispatch_possible|]. apply reachable_start, two_names_consistent. Qed.

Lemma replied_reached : reachable calm_world replied.
Proof. apply after_reached; [apply calm_limited|done|apply dispatch_possible; reflexivity|apply asked_reached]. Qed.

Lemma asked_sound : sound 5 asked.
Proof. eapply reachable_sound; [apply calm_limited|apply asked_reached]. Qed.

Lemma much_later_sound : sound 5 much_later.
Proof. eapply reachable_sound; [apply calm_limited|]. apply after_reached; [apply calm_limited|done..|apply asked_reached]. Qed.

Lemma calm_is_limited r : reachable calm_world r → reachable (limited 5) r.
Proof.
  induction 1 as [b sec usec Hb|K r e m r' m' _ IH HK Hpos E]; [by apply reachable_start|].
  eapply (reachable_event (limited 5) K); [exact IH|by apply calm_limited|exact Hpos|exact E].
Qed.

Lemma pending_replies_stay_sound_witness : length (items asked) = 1%nat ∧ timeout_enabled asked = true ∧ Z.of_nat (waiting asked 2) <= 5.
Proof.
  destruct (pending_replies_stay_sound 5 asked (calm_is_limited _ asked_reached)) as (Ht & Hb & _).
  assert (length (items asked) = 1%nat) as El by (vm_compute; reflexivity). split; [exact El|]. split; [|apply Hb]. apply (td_timer asked Ht). intros E%(f_equal length). rewrite El in E. discriminate.
Defined.

Lemma reply_needs_call_witness :
  count (is_reply 2 1 7) (sent replied) = 1%nat ∧ (count (is_reply 2 1 7) (sent replied) <= count (is_call 2 1 7) (sent replied))%nat.
Proof.
  split; [vm_compute; reflexivity|]. apply (reply_needs_call calm_world 5 2 1 7 replied); [|lia|apply replied_reached].
  intros K ->. split; [apply default_limited|]. done.
Defined.

Lemma security_check_decides_witness :
  ∃ r' mm', @bus_context_check_security_policy calm true (Some 1%nat) (Some 2%nat) (Some 2%nat) reply asked plenty = Ok true r' mm' ∧ items r' = [].
Proof.
  destruct (@security_check_decides calm asked 1%nat 2%nat reply plenty (so_tidy 5 _ asked_sound) eq_refl eq_refl eq_refl)
    as (b & r' & mm' & E & [Hm|(Hb & _ & Hi)]); [destruct (no_failure Hm)|]. exists r', mm'.
  assert (b = true) as Eb by (rewrite Hb; vm_compute; reflexivity). rewrite Eb in E, Hi. split; [exact E|]. rewrite Hi; [vm_compute; reflexivity|]. apply default_not_stopped. reflexivity.
Defined.

Lemma expired_calls_are_answered_witness :
  ∃ r' m', @bus_expirelist_expire calm much_later plenty = Ok tt r' m' ∧ items r' = [] ∧ list.last (sent r') = Some (NoReply 2 7) ∧ timeout_enabled r' = false.
Proof.
  destruct (@expired_calls_are_answered calm much_later plenty (so_tidy 5 _ much_later_sound))
    as (r' & m' & E & _ & [[Hi _ Hs He _]|[Hm _]]); [|destruct (no_failure Hm)]. exists r', m'.
  assert (items r' = []) as Ei by (rewrite Hi; vm_compute; reflexivity).
  split; [exact E|]. split; [exact Ei|]. split; [rewrite Hs; vm_compute; reflexivity|]. apply not_true_iff_false. rewrite He. tauto.
Defined.

(** The caller does not take its messages. *)
Lemma refused_reply_ends_call_witness :
  ∃ r' mm' s, @bus_dispatch (default_bus (λ c, bool_decide (c = 2%nat))) 1 reply asked plenty = Ok true r' mm' ∧ sent r' = sent asked ++ s
    ∧ (s = [] ∨ s = [ErrorFor 1 3 LimitsExceeded]) ∧ outstanding asked 2 1 7 = 1%nat ∧ outstanding r' 2 1 7 = 0%nat.
Proof.
  destruct (@refused_reply_ends_call (default_bus (λ c, bool_decide (c = 2%nat))) (default_laws _) 5 asked 1%nat reply client (Claim 2 false false) []
    LimitsExceeded plenty asked_sound) as (r' & mm' & s & E & Hs & Hcases & Ho);
    [by intros name x l _|reflexivity|reflexivity|vm_compute; reflexivity|apply default_not_stopped; reflexivity|vm_compute; reflexivity|vm_compute; reflexivity|apply no_failure|].
  exists r', mm', s. split; [exact E|]. split; [exact Hs|]. split; [exact Hcases|]. split; [vm_compute; reflexivity|exact Ho].
Defined.

End examples.
